(* ===== verification/_CoqProject ===== *)
-Q . S2P
Prelude.v
MtpControl.v
Generation.v
MtpService.v
EngineControl.v
Speculation.v
Sha256.v
OrderedMap.v
Json.v
RequestPlan.v
RequestState.v
Safetensors.v
ModelConfig.v
Checkpoint.v
WeightManifest.v
ManifestBuild.v
ResidentPlan.v
ResidentShard.v
ResidentLoad.v
Bpe.v
Tokenizer.v
TokenizerText.v
TokenizerChat.v
OpenAI.v
Utf8Output.v
Http.v
HttpOutput.v
Job.v
TokenizerPieces.v
EngineObserver.v
RouteEvidence.v
Engine.v
Deployment.v
Gateway.v
Connection.v
Server.v
