(* ===== verification/Prelude.v ===== *)
(** * A verification of the Qwen3x-Orin inference server

    The program loads one quantized language model onto a Jetson Orin and serves
    it over HTTP with the OpenAI protocol: a client sends a prompt, the server
    generates tokens with CUDA kernels and streams text back.  The development
    models what decides, on the host, which tokens are generated, what memory
    they use, which files are believed and what bytes the client reads.  The
    kernels are behind interfaces; the theorems about the host code hold for
    every behaviour of the device unless they say what they assume of it.

    ** The parts, from a request to its answer

    A connection is accepted and waits until its request has arrived
    ([Server.v], [Http.v]); the request is authenticated, parsed and put into a
    bounded queue as a job ([Connection.v], [OpenAI.v], [Json.v]); the single
    inference worker takes it and asks the engine ([Gateway.v], [Job.v]); the
    engine formats and encodes the prompt ([Tokenizer*.v], [Bpe.v]), checks the
    capacity, resets the request's arena ([RequestState.v], [RequestPlan.v]) and
    runs the generation controller ([Engine.v], [EngineControl.v]) or the
    speculative service ([MtpService.v], [MtpControl.v]); each committed token
    is decoded and rendered as text ([Utf8Output.v]) and sent ([HttpOutput.v]).
    Before any of that the server checks its options, its key and the receipt of
    the load ([Deployment.v], [Server.v]); the checkpoint has been identified by
    its metadata and digests ([Checkpoint.v], [ModelConfig.v], [Sha256.v]), its
    headers validated ([Safetensors.v]) and every tensor located
    ([WeightManifest.v], [ManifestBuild.v]); a plan places the tensors in an
    arena on the device ([ResidentPlan.v]), and workers read the shards, hash
    them and copy the tensors there ([ResidentShard.v], [ResidentLoad.v]).

    ** Files and sources

    [Prelude.v]: machine integers, byte strings, generic lemmas and tactics.

    Generation.
    - [Generation.v]: steps, timings and transcripts
      (include/q3x/runtime/reference_runner.h, reference_engine.h).
    - [MtpControl.v]: one speculative round (src/runtime/mtp_control.cpp).
    - [MtpService.v]: speculative decoding of a request
      (src/runtime/mtp_service_internal.cpp).
    - [EngineControl.v], [EngineObserver.v]: the generation controller and what
      its observer sees (src/runtime/reference_engine_control.cpp).
    - [Speculation.v]: the two decoders compared.
    - [RouteEvidence.v]: the record of the operators a prefill ran
      (src/runtime/prefill_route_evidence.cpp).
    - [Engine.v]: one request to the engine (src/runtime/reference_engine.cpp).

    Memory.
    - [RequestPlan.v], [RequestState.v]: the layout of a request's arena, and
      the request object on a device (src/runtime/request_state.cpp).

    Files and text.
    - [Sha256.v] (src/core/sha256.cpp), [OrderedMap.v] ([std::map]),
      [Json.v] (src/io/json.cpp), [Safetensors.v] (src/io/safetensors.cpp).
    - [ModelConfig.v], [Checkpoint.v], [WeightManifest.v], [ManifestBuild.v]:
      the model, its pinned checkpoint and its tensors (src/model/
      model_config.cpp, checkpoint_metadata.cpp, weight_manifest.cpp).
    - [ResidentPlan.v], [ResidentShard.v], [ResidentLoad.v]: the plan of the
      arena, one shard, and the workers that load all of them
      (src/runtime/resident_weights.cpp).
    - [Bpe.v], [Tokenizer.v], [TokenizerText.v], [TokenizerChat.v],
      [TokenizerPieces.v] (src/text/tokenizer.cpp).

    The server.
    - [OpenAI.v] (src/server/openai_protocol.cpp), [Utf8Output.v]
      (src/server/utf8_output.h).
    - [Http.v], [HttpOutput.v], [Job.v], [Gateway.v], [Connection.v],
      [Server.v] (src/server/evaluation_server.cpp), [Deployment.v] (the same
      and include/q3x/server/evaluation_server.h).

    ** How code is modelled

    Integers are [Z] with the reduction to their width written where the source
    can wrap; a double is a binary64 float; bytes are [Z] below 256 and strings
    lists of bytes.  A function that can fail returns a sum or an option with
    the source's error codes; code that mutates its arguments passes the state
    it changes.  Callbacks, the CUDA runtime, ICU, the file system, sockets and
    clocks are parameters, records or classes of operations, with what their
    documentation promises as laws ([RoundBackendLaws], the device of
    [RequestState.v], [icu_ok]).  What one component promises another is a class
    that the implementation instantiates ([ObserverContract] of
    [EngineObserver.v], [InferenceEngineLaws] of [Engine.v]).  Two threads that
    share a job are interleaved by an explicit schedule ([Shared] of [Job.v]):
    sections under the mutex are single steps, and the flags that are read
    without it are read in steps of their own.  The workers that load shards are
    a step relation over a shared counter ([pool_step] of [ResidentLoad.v]); the
    copies they queue on the device are performed later, at a pace the model
    does not know, and read the staging buffers as they are then ([Pipeline] of
    [ResidentShard.v]).

    ** What is shown

    - Decoding: speculation publishes exactly what greedy decoding of the target
      model would, ends, and follows the protocol of its backend on every
      failure; the ordinary controller refines the same reference and its
      transcript is complete; prefill tiles cover the prompt exactly; a request
      is refused exactly when it does not fit; what is streamed is what is
      generated.
    - Serving: an admitted request is exactly the request that was sent, with
      the right credentials; under every interleaving its client is sent one
      reply and no [DONE] without a whole generation; a client that listens
      reads the whole of it; after a failure no later request reaches the
      engine; the server starts only on a sealed configuration, and with a key
      unless it only serves the loopback address.
    - Protocol: requests are read from the wire exactly, whatever the timing,
      unless the blank line falls on the limit of the headers;
      JSON is parsed exactly and printing is its inverse; responses parse back
      to the document of the protocol; the text of a reply is the Unicode
      rendering of the generated bytes, however they were cut into tokens.
    - Memory: plans are refused or laid out without overlap within their limit,
      creation leaks nothing, every reset restores the same clean state, views
      stay inside the arena.
    - Files: checkpoint headers and indices are accepted exactly when well
      formed, validation never leaves the directory; a directory is accepted
      exactly when it is a pinned checkpoint, a table of tensors exactly when it
      holds the whole text model, and a manifest is built exactly for a
      directory that holds both, repeated checks never failing; no dimension of a valid configuration
      overflows; the record of a prefill is valid exactly when every layer pass
      ran the operators of the schedule.
    - Weights: the plan of the arena is made exactly when the locators agree
      with the authenticated shards, and is aligned, in order and without
      overlap; a staging buffer is never filled while a copy still reads it; for
      every number and interleaving of workers, and every pace of the device,
      weights that load hold the bytes of files with the pinned digests, the
      pool of workers ends, and the pinned model fills exactly the arena its
      constant says ([load_pinned_faithful]).
    - Text: byte-pair encoding is the reference encoding; decoding inverts encoding up to
      normalization when twice the text fits in the limit, and otherwise gives
      the same or is refused; the chat template is rendered exactly.

    Definitions and proofs that are not among the main properties (digests do
    not depend on how a message is cut, the reset plan, conversions of numbers,
    the rounding of the RoPE tables, the credential check, the index reader, the
    options of the server, its key, the shards of an index) are
    ordinary theorems of their files.

    ** Fuel and bounds

    Where the source loops without a structural measure the model counts:
    decode rounds and steps by the remaining tokens of the budget (every round
    publishes at least one), the merge loop of [Bpe.v] by a measure that every
    step of the queue lowers ([merge_fuel]), JSON values by the depth budget,
    the regular expression of the tokenizer by the code units that are left,
    the chunks of a shard by its size (a chunk has at least one byte),
    tables of headers and numbers by the length of the text.  Each has a theorem
    or lemma that the fuel is never exhausted, or the loop's result does not
    depend on it.  Loops that wait for the world (polling, receiving, sending,
    pushing into a full queue) run over the list of what the world answers; a
    list that ends means that nothing more happens.

    ** Not modelled

    The CUDA kernels and what launches them (reference_runner.cpp, the layouts
    of the model's weights, the speculative device backend): floating
    point on a device.  The creation of the engine, the prefill authority, the
    execution and workspace plans of the whole-request route, and the builds
    that serve it: the model is the default build, whose engine has no
    whole-request plan.  The witness written for evaluations.  Tools,
    benchmarks, oracles and command lines.  Throughout, memory is never
    exhausted, and texts that only reach the log are left out. *)

From Stdlib Require String Ascii.
From Stdlib Require Export ZArith Lia.
From stdpp Require Export base numbers option list.

#[global] Open Scope Z_scope.

(** ** Machine integers

    A w-bit unsigned integer of the source is a [Z]; arithmetic that can wrap
    is followed by the reduction to the width. *)

Definition u8 (z : Z) : Z := z mod 2 ^ 8.
Definition u32 (z : Z) : Z := z mod 2 ^ 32.
Definition u64 (z : Z) : Z := z mod 2 ^ 64.

Definition u32_max : Z := 2 ^ 32 - 1.
Definition u64_max : Z := 2 ^ 64 - 1.

Definition is_u8 (z : Z) : Prop := 0 <= z < 2 ^ 8.
Definition is_u32 (z : Z) : Prop := 0 <= z < 2 ^ 32.
Definition is_u64 (z : Z) : Prop := 0 <= z < 2 ^ 64.

Lemma u32_small z : is_u32 z -> u32 z = z.
Proof. apply Z.mod_small. Qed.

Lemma u64_small z : is_u64 z -> u64 z = z.
Proof. apply Z.mod_small. Qed.

Lemma u32_range z : is_u32 (u32 z).
Proof. apply Z.mod_pos_bound. lia. Qed.

Lemma u64_range z : is_u64 (u64 z).
Proof. apply Z.mod_pos_bound. lia. Qed.

(** Bits that do not overlap add up. *)
Lemma lor_shiftl_add a b n : 0 <= n -> 0 <= a < 2 ^ n -> Z.lor a (Z.shiftl b n) = a + b * 2 ^ n.
Proof.
  intros Hn Ha. assert (Hland : Z.land a (Z.shiftl b n) = 0).
  { apply Z.bits_inj'. intros k Hk. rewrite Z.land_spec, Z.shiftl_spec, Z.bits_0 by done.
    destruct (Z.lt_ge_cases k n); [rewrite (Z.testbit_neg_r b) by lia; apply andb_false_r|].
    rewrite <- (Z.mod_small a (2 ^ n)), Z.mod_pow2_bits_high by lia. done. }
  rewrite <- Z.lxor_lor, <- Z.add_nocarry_lxor by done. by rewrite Z.shiftl_mul_pow2.
Qed.

(** Checked arithmetic on [uint64_t], as the components that compute sizes
    write it. *)

Definition checked_add (left right : Z) : option Z :=
  if u64_max - left <? right then None else Some (left + right).

Definition checked_multiply (left right : Z) : option Z :=
  if negb (left =? 0) && (u64_max / left <? right) then None else Some (u64 (left * right)).

Lemma checked_add_Some a b c : is_u64 a -> is_u64 b -> checked_add a b = Some c <-> c = a + b /\ a + b <= u64_max.
Proof.
  intros Ha Hb. unfold checked_add. destruct (Z.ltb_spec (u64_max - a) b).
  - split; [done|]. intros [-> ?]. lia.
  - split; [|by intros [-> _]]. intros [= <-]. lia.
Qed.

Lemma checked_multiply_Some a b c :
  0 <= a -> 0 <= b -> checked_multiply a b = Some c <-> c = a * b /\ a * b <= u64_max.
Proof.
  intros Ha Hb. unfold checked_multiply.
  destruct (Z.eqb_spec a 0) as [->|Hne]; simpl.
  - rewrite Z.mul_0_l. split; [by intros [= <-]|]. by intros [-> _].
  - assert (Hdiv : b <= u64_max / a <-> a * b <= u64_max) 
      by (split; intros; [pose proof (Z.mul_div_le u64_max a); nia|apply Z.div_le_lower_bound; lia]).
    destruct (Z.ltb_spec (u64_max / a) b).
    + split; [done|]. intros [_ ?]. lia.
    + assert (a * b <= u64_max) by lia. rewrite u64_small by (unfold is_u64, u64_max in *; nia).
      split; [by intros [= <-]|]. by intros [-> _].
Qed.

(** ** Arrays

    A fixed-size array is a list; [at_ l i] reads it at a machine index.  The
    source never reads out of range where the model uses it; each component's
    invariant gives the length. *)

Definition at_ (l : list Z) (i : Z) : Z := nth (Z.to_nat i) l 0.
Definition set_at (i v : Z) (l : list Z) : list Z := <[Z.to_nat i := v]> l.

(** ** Strings

    A [std::string] is the list of its bytes. *)

(** The bytes of a literal. *)
Fixpoint lit (s : String.string) : list Z :=
  match s with
  | String.EmptyString => []
  | String.String c s => Z.of_N (Ascii.N_of_ascii c) :: lit s
  end.

Arguments lit _%_string_scope.

(** ** Effects

    Stateful code is a function of the world it runs in.  [flow W R A] is the
    body of a function with return type [R] that has not reached the end of
    its text: it either has already executed [return r] ([inl r]) or falls
    through with a value of type [A]. *)

Definition flow (W R A : Type) : Type := W -> (R + A) * W.

Section Flow.
Context {W R : Type}.

Definition pass {A} (a : A) : flow W R A := fun w => (inr a, w).
Definition return_ {A} (r : R) : flow W R A := fun w => (inl r, w).
Definition call {A} (m : W -> A * W) : flow W R A :=
  fun w => let '(a, w') := m w in (inr a, w').
Definition fbind {A B} (m : flow W R A) (k : A -> flow W R B) : flow W R B :=
  fun w => match m w with
           | (inl r, w') => (inl r, w')
           | (inr a, w') => k a w'
           end.
(** Reading and updating the world. *)
Definition gets {A} (f : W -> A) : flow W R A := fun w => (inr (f w), w).
Definition modify (f : W -> W) : flow W R unit := fun w => (inr tt, f w).
(** The whole function: control cannot fall off its end. *)
Definition body (m : flow W R R) : W -> R * W :=
  fun w => match m w with (inl r, w') | (inr r, w') => (r, w') end.
End Flow.

Declare Scope flow_scope.
Delimit Scope flow_scope with flow.
Notation "x <~ m ; k" := (fbind m (fun x => k))
  (at level 20, m at level 100, k at level 200) : flow_scope.
Notation "' pat <~ m ; k" := (fbind m (fun x => match x with pat => k end))
  (at level 20, pat pattern, m at level 100, k at level 200) : flow_scope.

(** Weakest precondition of a flow: [ret] must hold where it returns and
    [post] where it falls through. *)

Section Wp.
Context {W R : Type}.

Definition wp {A} (m : flow W R A) (ret : R -> W -> Prop)
    (post : A -> W -> Prop) (w : W) : Prop :=
  match m w with
  | (inl r, w') => ret r w'
  | (inr a, w') => post a w'
  end.

Lemma wp_pass {A} (a : A) ret post w : post a w -> wp (pass a) ret post w.
Proof. done. Qed.

Lemma wp_return {A} (r : R) ret (post : A -> W -> Prop) w :
  ret r w -> wp (return_ r) ret post w.
Proof. done. Qed.

Lemma wp_call {A} (m : W -> A * W) ret post w :
  (forall a w', m w = (a, w') -> post a w') -> wp (call m) ret post w.
Proof. intros H. unfold wp, call. destruct (m w) eqn:E. eauto. Qed.

Lemma wp_gets {A} (f : W -> A) ret (post : A -> W -> Prop) w :
  post (f w) w -> wp (gets f) ret post w.
Proof. done. Qed.

Lemma wp_modify (f : W -> W) ret (post : unit -> W -> Prop) w :
  post tt (f w) -> wp (modify f) ret post w.
Proof. done. Qed.

Lemma wp_bind {A B} (m : flow W R A) (k : A -> flow W R B) ret post w :
  wp m ret (fun a w' => wp (k a) ret post w') w -> wp (fbind m k) ret post w.
Proof. unfold wp, fbind. destruct (m w) as [[r|a] w']; auto. Qed.

Lemma wp_mono {A} (m : flow W R A) (ret ret' : R -> W -> Prop)
    (post post' : A -> W -> Prop) w :
  wp m ret post w ->
  (forall r w', ret r w' -> ret' r w') ->
  (forall a w', post a w' -> post' a w') ->
  wp m ret' post' w.
Proof. unfold wp. destruct (m w) as [[r|a] w']; auto. Qed.

Lemma wp_body (m : flow W R R) (Q : R -> W -> Prop) w r w' :
  wp m Q Q w -> body m w = (r, w') -> Q r w'.
Proof. unfold wp, body. destruct (m w) as [[?|?] ?]; intros ? [= <- <-]; done. Qed.

Lemma body_wp (m : flow W R R) (Q : R -> W -> Prop) w :
  wp m Q Q w -> Q (fst (body m w)) (snd (body m w)).
Proof. unfold wp, body. destruct (m w) as [[?|?] ?]; done. Qed.
End Wp.

Create HintDb flow.
#[export] Hint Resolve wp_pass wp_return wp_call wp_gets wp_modify : flow.

(** One symbolic step through a flow; branches on the source's conditions. *)
Ltac wp_step :=
  lazymatch goal with
  | |- wp (fbind _ _) _ _ _ => apply wp_bind
  | |- wp (pass _) _ _ _ => apply wp_pass
  | |- wp (return_ _) _ _ _ => apply wp_return
  | |- wp (gets _) _ _ _ => apply wp_gets; cbv beta
  | |- wp (modify _) _ _ _ => apply wp_modify; cbv beta
  | |- wp (call _) _ _ _ => apply wp_call; intros ? ? ?
  | |- wp (if ?b then _ else _) _ _ _ => destruct b eqn:?
  | |- wp (match ?x with _ => _ end) _ _ _ => destruct x eqn:?
  end.

(** Turn the boolean tests of the source into propositions. *)
Ltac bools :=
  repeat match goal with
  | H : _ && _ = true |- _ => apply andb_true_iff in H as [? ?]
  | H : _ || _ = false |- _ => apply orb_false_iff in H as [? ?]
  | H : _ || _ = true |- _ => apply orb_true_iff in H
  | H : _ && _ = false |- _ => apply andb_false_iff in H
  | H : negb _ = true |- _ => apply negb_true_iff in H
  | H : negb _ = false |- _ => apply negb_false_iff in H
  | H : (_ =? _) = true |- _ => apply Z.eqb_eq in H
  | H : (_ =? _) = false |- _ => apply Z.eqb_neq in H
  | H : (_ <? _) = true |- _ => apply Z.ltb_lt in H
  | H : (_ <? _) = false |- _ => apply Z.ltb_ge in H
  | H : (_ <=? _) = true |- _ => apply Z.leb_le in H
  | H : (_ <=? _) = false |- _ => apply Z.leb_gt in H
  end.

(** ** Results

    [E + A] is a computation that may stop with an error. *)

#[export] Instance sum_ret E : MRet (sum E) := fun _ a => inr a.
#[export] Instance sum_bind E : MBind (sum E) := fun _ _ k m =>
  match m with inl e => inl e | inr a => k a end.

Lemma sum_bind_inr {E A B} (m : E + A) (k : A -> E + B) b :
  m ≫= k = inr b <-> exists a, m = inr a /\ k a = inr b.
Proof. destruct m; simpl; split; [by intros|by intros (? & ? & ?)|eauto|by intros (? & [= <-] & ?)]. Qed.

(** The results of the intermediate steps of a successful computation. *)
Ltac sum_inv H :=
  repeat match type of H with
  | (_ ≫= _) = inr _ => let a := fresh "a" in let Ha := fresh "Ha" in
      apply sum_bind_inr in H as (a & Ha & H)
  | (if ?b then _ else _) = inr _ => let Hb := fresh "Hb" in destruct b eqn:Hb; [discriminate H|]
  | match ?m with None => _ | Some _ => _ end = inr _ =>
      let a := fresh "a" in let Ha := fresh "Ha" in destruct m as [a|] eqn:Ha; [|discriminate H]
  | match ?p with (_, _) => _ end = inr _ =>
      let a := fresh "a" in let b := fresh "b" in destruct p as [a b]
  end.

(** ** Files

    A file is what its stream answers. [tell_end] is what [tellg] answers at the end of the stream. *)
Record file := { tell_end : Z; rewinds : bool; content : list Z }.

Definition streamsize_max : Z := 2 ^ 63 - 1.

(** The file system: what opening a path gives. *)
Definition disk : Type := list Z -> option file.

(** ** List lemmas shared by the components *)

Lemma length_set_at i v l : length (set_at i v l) = length l.
Proof. apply length_insert. Qed.

Lemma at_set_at_eq i v l : 0 <= i < Z.of_nat (length l) -> at_ (set_at i v l) i = v.
Proof.
  intros Hi. unfold at_, set_at. rewrite nth_lookup, list_lookup_insert_eq by lia. done.
Qed.

Lemma at_set_at_ne i j v l : 0 <= i -> 0 <= j -> i <> j -> at_ (set_at i v l) j = at_ l j.
Proof.
  intros Hi Hj Hne. unfold at_, set_at.
  rewrite !nth_lookup, list_lookup_insert_ne by lia. done.
Qed.

Lemma lookup_at l (i : nat) v : l !! i = Some v -> at_ l (Z.of_nat i) = v.
Proof. intros Hl. unfold at_. rewrite Nat2Z.id, nth_lookup, Hl. done. Qed.

Lemma at_lookup l (i : nat) : (i < length l)%nat -> l !! i = Some (at_ l (Z.of_nat i)).
Proof.
  intros Hi. destruct (lookup_lt_is_Some_2 l i Hi) as [v Hv].
  rewrite Hv, (lookup_at l i v); auto.
Qed.

(** Two arrays that agree on their first [n] cells. *)
Lemma take_at_ext n l1 l2 :
  (n <= length l1)%nat -> (n <= length l2)%nat ->
  (forall j, 0 <= j < Z.of_nat n -> at_ l1 j = at_ l2 j) ->
  take n l1 = take n l2.
Proof.
  intros H1 H2 Hat. apply list_eq. intros i.
  destruct (decide (i < n)%nat).
  - rewrite !lookup_take_lt by done. rewrite !at_lookup by lia.
    f_equal. apply Hat. lia.
  - rewrite !lookup_take_ge by lia. done.
Qed.

(** ** Decorators

    A wrapper around a stateful object runs in a larger world; [phi] forgets
    what it adds.  [call_sim]/[flow_sim] say that the wrapped computation
    returns the same value and leaves the inner world in the same state. *)

Definition call_sim {W W' A} (phi : W' -> W) (m' : W' -> A * W') (m : W -> A * W) : Prop :=
  forall w, fst (m' w) = fst (m (phi w)) /\ phi (snd (m' w)) = snd (m (phi w)).

Definition flow_sim {W W' R A} (phi : W' -> W) (m' : flow W' R A) (m : flow W R A) : Prop :=
  call_sim phi m' m.

Section Sim.
Context {W W' R : Type} (phi : W' -> W).

Lemma sim_pass {A} (a : A) : flow_sim phi (pass a : flow W' R A) (pass a).
Proof. done. Qed.

Lemma sim_return {A} (r : R) : flow_sim phi (return_ r : flow W' R A) (return_ r).
Proof. done. Qed.

Lemma sim_call {A} (m' : W' -> A * W') m :
  call_sim phi m' m -> flow_sim phi (call m' : flow W' R A) (call m).
Proof.
  intros H w. specialize (H w). unfold call.
  destruct (m' w), (m (phi w)). simpl in *. destruct H; split; congruence.
Qed.

Lemma sim_bind {A B} (m' : flow W' R A) m (k' : A -> flow W' R B) k :
  flow_sim phi m' m -> (forall a, flow_sim phi (k' a) (k a)) ->
  flow_sim phi (fbind m' k') (fbind m k).
Proof.
  intros Hm Hk w. specialize (Hm w). unfold fbind.
  destruct (m' w) as [[?|?] w1], (m (phi w)) as [[?|?] w2]; simpl in *;
    destruct Hm as [He Hw]; try discriminate; injection He as ->; subst w2.
  - done.
  - apply Hk.
Qed.

Lemma sim_body (m' : flow W' R R) m : flow_sim phi m' m -> call_sim phi (body m') (body m).
Proof.
  intros Hm w. specialize (Hm w). unfold body.
  destruct (m' w) as [[?|?] ?], (m (phi w)) as [[?|?] ?]; simpl in *;
    destruct Hm as [He Hw]; split; congruence.
Qed.
End Sim.

#[export] Hint Resolve sim_pass sim_return sim_call : flow.

Ltac sim_step :=
  lazymatch goal with
  | |- flow_sim _ (fbind _ _) (fbind _ _) => apply sim_bind; [|intros ?]
  | |- flow_sim _ (pass _) (pass _) => apply sim_pass
  | |- flow_sim _ (return_ _) (return_ _) => apply sim_return
  | |- flow_sim _ (call _) (call _) => apply sim_call
  | |- flow_sim _ (if ?b then _ else _) _ => destruct b eqn:?
  | |- flow_sim _ (match ?x with _ => _ end) _ => destruct x eqn:?
  end.

(** ** Invariants of the world *)

Definition preserves {W A} (I : W -> Prop) (m : W -> A * W) : Prop :=
  forall w, I w -> I (snd (m w)).

Section Preserves.
Context {W R : Type} (I : W -> Prop).

Lemma preserves_pass {A} (a : A) : preserves I (pass a : flow W R A).
Proof. by intros w. Qed.

Lemma preserves_return {A} (r : R) : preserves I (return_ r : flow W R A).
Proof. by intros w. Qed.

Lemma preserves_call {A} (m : W -> A * W) : preserves I m -> preserves I (call m : flow W R A).
Proof. intros Hm w Hw. specialize (Hm w Hw). unfold call. by destruct (m w). Qed.

Lemma preserves_gets {A} (f : W -> A) : preserves I (gets f : flow W R A).
Proof. by intros w. Qed.

Lemma preserves_modify (f : W -> W) :
  (forall w, I w -> I (f w)) -> preserves I (modify f : flow W R unit).
Proof. intros Hf w Hw. by apply Hf. Qed.

Lemma preserves_bind {A B} (m : flow W R A) (k : A -> flow W R B) :
  preserves I m -> (forall a, preserves I (k a)) -> preserves I (fbind m k).
Proof.
  intros Hm Hk w Hw. specialize (Hm w Hw). unfold fbind.
  destruct (m w) as [[?|?] ?]; simpl in *; [done|by apply Hk].
Qed.

Lemma preserves_body (m : flow W R R) : preserves I m -> preserves I (body m).
Proof. intros Hm w Hw. specialize (Hm w Hw). unfold body. by destruct (m w) as [[?|?] ?]. Qed.
End Preserves.

#[export] Hint Resolve preserves_pass preserves_return preserves_call preserves_gets preserves_modify : flow.

Ltac preserves_step :=
  lazymatch goal with
  | |- preserves _ (fbind _ _) => apply preserves_bind; [|intros ?]
  | |- preserves _ (if ?b then _ else _) => destruct b eqn:?
  | |- preserves _ (match ?x with _ => _ end) => destruct x eqn:?
  end.
