(* ===== verification/MtpControl.v ===== *)
(** * MtpControl: one speculative round (src/runtime/mtp_control.{h,cpp})

    The multi-token-prediction controller: draft up to three tokens, verify
    them in one pass of the target model, commit the accepted prefix row by
    row and publish each token only after its commit.  [RoundBackend] is the
    virtual interface of the header; [RoundBackendLaws] is the contract that
    the header's comment gives it, stated against an abstract transaction. *)

From S2P Require Import Prelude.
Local Open Scope flow_scope.

Definition kMaximumDraftLength : Z := 3.
Definition kMaximumVerifyRows : Z := 4.

Definition output_tail_budget (configured remaining : Z) : Z :=
  if (configured =? 3) && negb (remaining =? 4) then 2 else configured.

Record RoundOptions := {
  draft_length : Z;
  seed_token : Z;
  remaining_output : Z;
  available_target_rows : Z;
  vocabulary_size : Z;
  stop_token : Z;
  confidence_lookahead : bool;
  eos_frontier : bool
}.

Inductive RoundStatus :=
  | kContinue | kLength | kStop | kCancelled
  | kInvalidOptions | kBackendFailure | kInvalidPrediction.

#[global] Instance RoundStatus_eq_dec : EqDecision RoundStatus.
Proof. solve_decision. Defined.

Record RoundResult := {
  status : RoundStatus;
  output : list Z;
  output_count : Z;
  proposed_tokens : Z;
  accepted_tokens : Z;
  verified_rows : Z;
  committed_target_rows : Z;
  eos_frontier_stopped : bool;
  abort_succeeded : bool
}.

Definition empty_result : RoundResult := {|
  status := kInvalidOptions; output := [0; 0; 0; 0]; output_count := 0;
  proposed_tokens := 0; accepted_tokens := 0; verified_rows := 0;
  committed_target_rows := 0; eos_frontier_stopped := false;
  abort_succeeded := true |}.

(** [RoundResult::ok]. *)
Definition result_ok (r : RoundResult) : bool :=
  match status r with
  | kContinue | kLength | kStop | kCancelled => true
  | _ => false
  end.

Definition with_status (s : RoundStatus) (r : RoundResult) : RoundResult := {|
  status := s; output := output r; output_count := output_count r;
  proposed_tokens := proposed_tokens r; accepted_tokens := accepted_tokens r;
  verified_rows := verified_rows r;
  committed_target_rows := committed_target_rows r;
  eos_frontier_stopped := eos_frontier_stopped r;
  abort_succeeded := abort_succeeded r |}.

Definition with_abort (b : bool) (r : RoundResult) : RoundResult := {|
  status := status r; output := output r; output_count := output_count r;
  proposed_tokens := proposed_tokens r; accepted_tokens := accepted_tokens r;
  verified_rows := verified_rows r;
  committed_target_rows := committed_target_rows r;
  eos_frontier_stopped := eos_frontier_stopped r;
  abort_succeeded := b |}.

Definition with_proposal (stopped : bool) (count : Z) (r : RoundResult) : RoundResult := {|
  status := status r; output := output r; output_count := output_count r;
  proposed_tokens := count; accepted_tokens := accepted_tokens r;
  verified_rows := verified_rows r;
  committed_target_rows := committed_target_rows r;
  eos_frontier_stopped := stopped;
  abort_succeeded := abort_succeeded r |}.

Definition with_eos (stopped : bool) (r : RoundResult) : RoundResult :=
  with_proposal stopped (proposed_tokens r) r.

Definition with_verified (rows : Z) (r : RoundResult) : RoundResult := {|
  status := status r; output := output r; output_count := output_count r;
  proposed_tokens := proposed_tokens r; accepted_tokens := accepted_tokens r;
  verified_rows := rows;
  committed_target_rows := committed_target_rows r;
  eos_frontier_stopped := eos_frontier_stopped r;
  abort_succeeded := abort_succeeded r |}.

(** The three assignments after a successful [commit_prefix]: committed rows,
    the emitted token and the acceptance counter. *)
Definition with_token (rows token : Z) (accepted : bool) (r : RoundResult) : RoundResult := {|
  status := status r; output := set_at (output_count r) token (output r);
  output_count := output_count r + 1;
  proposed_tokens := proposed_tokens r;
  accepted_tokens := accepted_tokens r + (if accepted then 1 else 0);
  verified_rows := verified_rows r;
  committed_target_rows := rows;
  eos_frontier_stopped := eos_frontier_stopped r;
  abort_succeeded := abort_succeeded r |}.

(** ** The interface

    An out-parameter is an argument holding its current value and a component
    of the result holding the value the callee leaves there. *)

Class RoundBackend (W : Type) := {
  begin : Z -> W -> bool * W;
  propose : Z -> Z -> list Z -> W -> (bool * list Z) * W;
  propose_bounded : Z -> Z -> list Z -> Z -> W -> (bool * list Z * Z) * W;
  propose_eos_bounded :
    Z -> Z -> Z -> list Z -> Z -> bool -> W -> (bool * list Z * Z * bool) * W;
  verify : Z -> list Z -> Z -> list Z -> W -> (bool * list Z) * W;
  commit_prefix : Z -> Z -> W -> bool * W;
  finish : W -> bool * W;
  abort : W -> bool * W
}.

(** The two virtual members with a default body. *)
Definition propose_bounded_default {W}
    (propose : Z -> Z -> list Z -> W -> (bool * list Z) * W)
    (seed maximum : Z) (draft : list Z) (actual : Z) (w : W) : (bool * list Z * Z) * W :=
  let '((ok, draft'), w') := propose seed maximum draft w in ((ok, draft', maximum), w').

Definition propose_eos_bounded_default {W}
    (seed maximum stop : Z) (draft : list Z) (actual : Z) (stopped : bool) (w : W)
    : (bool * list Z * Z * bool) * W :=
  ((false, draft, actual, stopped), w).

(** A [TokenObserver] with its context: [None] is the null function pointer. *)
Definition TokenObserver (W : Type) : Type := option (Z -> W -> bool * W).

Section RunRound.
Context {W : Type} `{RoundBackend W}.
Variable options : RoundOptions.
Variable observer : TokenObserver W.

Abbreviation round := (flow W RoundResult).

(** The admission test at the top of [run_round]. *)
Definition round_rejected (observer_context_null : bool) : bool :=
  (negb (draft_length options =? 2) && negb (draft_length options =? 3))
  || (vocabulary_size options =? 0)
  || (vocabulary_size options <=? seed_token options)
  || (vocabulary_size options <=? stop_token options)
  || (seed_token options =? stop_token options)
  || (remaining_output options =? 0)
  || (available_target_rows options <? remaining_output options)
  || (match observer with None => true | Some _ => false end
      && negb observer_context_null).

(** The [fail] lambda: record the status, abort the transaction, return. *)
Definition fail {A} (s : RoundStatus) (result : RoundResult) : round A :=
  ok <~ call abort;
  return_ (with_abort ok (with_status s result)).

(** Lines 35-50: drafting, by the proposal policy of the options. *)
Definition propose_by_policy (maximum : Z) (draft : list Z)
    : round (bool * list Z * Z * bool) :=
  if eos_frontier options then
    call (propose_eos_bounded (seed_token options) maximum (stop_token options)
            draft maximum false)
  else if confidence_lookahead options then
    '(ok, draft', count) <~ call (propose_bounded (seed_token options) maximum draft maximum);
    pass (ok, draft', count, false)
  else
    '(ok, draft') <~ call (propose (seed_token options) maximum draft);
    pass (ok, draft', maximum, false).

Definition proposal_invalid (maximum count : Z) (stopped : bool) (draft : list Z) : bool :=
  (maximum <? count)
  || ((count =? 0) && negb stopped)
  || (stopped && ((maximum <=? count)
                  || negb (at_ draft count =? stop_token options))).

Definition draft_phase (count : Z) (draft : list Z) (result : RoundResult)
    : round (list Z * Z * RoundResult) :=
  if count =? 0 then pass (draft, count, result) else
  '(ok, draft', count', stopped) <~ propose_by_policy count draft;
  if negb ok then fail kBackendFailure result else
  if proposal_invalid count count' stopped draft' then fail kInvalidPrediction result else
  pass (draft', count', with_eos stopped result).

(** [for i in 0 .. n-1: tokens[i] >= vocabulary_size]. *)
Fixpoint any_out_of_vocabulary (n : nat) (i : Z) (tokens : list Z) : bool :=
  match n with
  | O => false
  | S n => (vocabulary_size options <=? at_ tokens i)
           || any_out_of_vocabulary n (i + 1) tokens
  end.

(** Lines 52-68: the drafted ids are checked, the target verifies them and
    its predictions are checked. *)
Definition verify_phase (draft : list Z) (count : Z) (predictions : list Z)
    (result : RoundResult) : round (list Z * RoundResult) :=
  let result := with_proposal (eos_frontier_stopped result) count result in
  if any_out_of_vocabulary (Z.to_nat count) 0 draft
  then fail kInvalidPrediction result else
  '(ok, predictions') <~ call (verify (seed_token options) draft count predictions);
  if negb ok then fail kBackendFailure result else
  let result := with_verified (count + 1) result in
  if any_out_of_vocabulary (Z.to_nat (count + 1)) 0 predictions'
  then fail kInvalidPrediction result else
  pass (predictions', result).

Definition observe (token : Z) : round bool :=
  match observer with
  | None => pass true
  | Some f => call (f token)
  end.

Definition row_status (token : Z) (proceed : bool) (emitted : Z) : RoundStatus :=
  if token =? stop_token options then kStop
  else if negb proceed then kCancelled
  else if emitted =? remaining_output options then kLength
  else kContinue.

(** Lines 70-95: rows [i .. count]; [n] is the number of rows left. *)
Fixpoint commit_rows (n : nat) (i count : Z) (draft predictions : list Z)
    (result : RoundResult) : round RoundResult :=
  match n with
  | O => pass result
  | S n =>
      let accepted := (i <? count) && (at_ draft i =? at_ predictions i) in
      let token := at_ predictions i in
      ok <~ call (commit_prefix (i + 1) token);
      if negb ok then fail kBackendFailure result else
      let result := with_token (i + 1) token accepted result in
      proceed <~ observe token;
      let result := with_status (row_status token proceed (output_count result)) result in
      if negb (bool_decide (status result = kContinue)) || negb accepted
      then pass result
      else commit_rows n (i + 1) count draft predictions result
  end.

Definition run_round_flow (observer_context_null : bool) : round RoundResult :=
  let result := empty_result in
  if round_rejected observer_context_null then return_ result else
  let count := Z.min (draft_length options) (remaining_output options - 1) in
  ok <~ call (begin (count + 1));
  if negb ok then fail kBackendFailure result else
  '(draft, count, result) <~ draft_phase count [0; 0; 0] result;
  '(predictions, result) <~ verify_phase draft count [0; 0; 0; 0] result;
  result <~ commit_rows (Z.to_nat (count + 1)) 0 count draft predictions result;
  ok <~ call finish;
  if negb ok then fail kBackendFailure result else
  return_ result.

Definition run_round (observer_context_null : bool) : W -> RoundResult * W :=
  body (run_round_flow observer_context_null).
End RunRound.

(** ** The contract *)

(** What the target model and the client may rely on, as an abstract
    transaction: the tokens the target has consumed and, inside a round, the
    rows staged by [verify] and the number of them committed. *)
Inductive txn :=
  | Idle (ctx : list Z)
  | Begun (ctx : list Z) (rows : Z)
  | Staged (ctx rows : list Z) (committed : Z).

Class RoundBackendLaws (W : Type) `{RoundBackend W}
    (argmax : list Z -> Z) (view : W -> txn) : Prop := {
  begin_law rows w w' ctx :
    begin rows w = (true, w') -> view w = Idle ctx -> view w' = Begun ctx rows;
  propose_law seed n draft draft' w w' :
    propose seed n draft w = ((true, draft'), w') ->
    view w' = view w /\ length draft' = length draft;
  propose_bounded_law seed n draft draft' a a' w w' :
    propose_bounded seed n draft a w = ((true, draft', a'), w') -> 0 <= n ->
    view w' = view w /\ length draft' = length draft /\ 0 <= a';
  propose_eos_bounded_law seed n stop draft draft' a a' b b' w w' :
    propose_eos_bounded seed n stop draft a b w = ((true, draft', a', b'), w') -> 0 <= n ->
    view w' = view w /\ length draft' = length draft /\ 0 <= a';
  verify_law seed draft count preds preds' w w' ctx rows :
    verify seed draft count preds w = ((true, preds'), w') ->
    view w = Begun ctx rows -> 0 <= count < rows -> count <= Z.of_nat (length draft) ->
    view w' = Staged ctx (seed :: take (Z.to_nat count) draft) 0 /\
    forall i, 0 <= i <= count ->
      at_ preds' i = argmax (ctx ++ seed :: take (Z.to_nat i) draft);
  commit_law rows token w w' ctx staged n :
    commit_prefix rows token w = (true, w') ->
    view w = Staged ctx staged n -> n < rows <= Z.of_nat (length staged) ->
    view w' = Staged ctx staged rows;
  finish_law w w' ctx staged n :
    finish w = (true, w') -> view w = Staged ctx staged n ->
    view w' = Idle (ctx ++ take (Z.to_nat n) staged)
}.

(** An observer may do anything but change the target's state. *)
Definition observer_neutral {W} (view : W -> txn) (observer : TokenObserver W) : Prop :=
  forall f token w b w', observer = Some f -> f token w = (b, w') -> view w' = view w.

(** The reference: the target model alone, one argmax per step. *)
Fixpoint greedy (argmax : list Z -> Z) (ctx : list Z) (n : nat) : list Z :=
  match n with
  | O => []
  | S n => let t := argmax ctx in t :: greedy argmax (ctx ++ [t]) n
  end.

Lemma length_greedy argmax ctx n : length (greedy argmax ctx n) = n.
Proof. revert ctx. induction n; intros; simpl; auto. Qed.

Lemma greedy_app argmax ctx n m :
  greedy argmax ctx (n + m) =
  greedy argmax ctx n ++ greedy argmax (ctx ++ greedy argmax ctx n) m.
Proof.
  revert ctx. induction n as [|n IH]; intros ctx; simpl; [by rewrite app_nil_r|].
  f_equal. rewrite IH, <- app_assoc. done.
Qed.

(** A list is the greedy continuation iff each of its elements is the argmax
    of what precedes it. *)
Lemma greedy_intro argmax l ctx :
  (forall i, (i < length l)%nat -> l !! i = Some (argmax (ctx ++ take i l))) ->
  l = greedy argmax ctx (length l).
Proof.
  revert ctx. induction l as [|t l IH]; intros ctx Hl; [done|]. simpl.
  assert (t = argmax ctx) as <-.
  { specialize (Hl 0%nat ltac:(simpl; lia)). simpl in Hl. rewrite app_nil_r in Hl. congruence. }
  f_equal. apply IH. intros i Hi.
  specialize (Hl (S i) ltac:(simpl; lia)). simpl in Hl. rewrite Hl, <- app_assoc. done.
Qed.

(** The tokens a result carries. *)
Definition emitted (r : RoundResult) : list Z := take (Z.to_nat (output_count r)) (output r).

(** ** The commit loop *)

Section Lossless.
Context {W : Type} `{!RoundBackend W} (argmax : list Z -> Z) (view : W -> txn).
Context `{!RoundBackendLaws W argmax view}.
Variable options : RoundOptions.
Variable observer : TokenObserver W.
Hypothesis neutral : observer_neutral view observer.

Section Loop.
Variables (ctx draft predictions : list Z) (count : Z).

(** Rows [0 .. i-1] are committed and published, every one of them an
    accepted draft, none of them the stop token. *)
Record rows_accepted (i : Z) (r : RoundResult) (w : W) : Prop := {
  ra_view : view w = Staged ctx (seed_token options :: take (Z.to_nat count) draft) i;
  ra_count : output_count r = i;
  ra_committed : committed_target_rows r = i;
  ra_length : length (output r) = 4%nat;
  ra_output j : 0 <= j < i -> at_ (output r) j = at_ predictions j;
  ra_draft j : 0 <= j < i -> at_ draft j = at_ predictions j;
  ra_running j : 0 <= j < i -> at_ predictions j <> stop_token options;
  ra_accepted : accepted_tokens r = i
}.

(** The row the loop stops at is the last one published. *)
Record rows_done (r : RoundResult) (w : W) : Prop := {
  rd_count : 1 <= output_count r <= count + 1;
  rd_view : view w = Staged ctx (seed_token options :: take (Z.to_nat count) draft)
                       (output_count r);
  rd_committed : committed_target_rows r = output_count r;
  rd_length : length (output r) = 4%nat;
  rd_output j : 0 <= j < output_count r -> at_ (output r) j = at_ predictions j;
  rd_draft j : 0 <= j < output_count r - 1 -> at_ draft j = at_ predictions j;
  rd_running j : 0 <= j < output_count r - 1 -> at_ predictions j <> stop_token options;
  rd_accepted : output_count r - 1 <= accepted_tokens r <= output_count r;
  rd_status : exists proceed,
    status r = row_status options (at_ predictions (output_count r - 1))
                 proceed (output_count r)
}.

Lemma with_token_accepted i accepted r w w' :
  rows_accepted i r w -> 0 <= i <= 3 ->
  view w' = Staged ctx (seed_token options :: take (Z.to_nat count) draft) (i + 1) ->
  let r' := with_token (i + 1) (at_ predictions i) accepted r in
  length (output r') = 4%nat /\
  (forall j, 0 <= j < i + 1 -> at_ (output r') j = at_ predictions j) /\
  i <= accepted_tokens r' <= i + 1 /\ output_count r' = i + 1.
Proof.
  intros [? Hc ? Hlen Hout ? ? Hacc] Hi Hv. simpl. rewrite length_set_at, Hc.
  split_and!; [done| |destruct accepted; lia|destruct accepted; lia|lia].
  intros j Hj. destruct (decide (j = i)) as [->|].
  - apply at_set_at_eq. lia.
  - rewrite at_set_at_ne by lia. apply Hout. lia.
Qed.

Lemma observe_view token w ret (post : bool -> W -> Prop) :
  (forall b w', view w' = view w -> post b w') ->
  wp (observe observer token) ret post w.
Proof.
  intros Hp. unfold observe. destruct observer as [f|] eqn:E.
  - apply wp_call. intros b w' Hf. apply Hp. by eapply neutral.
  - by apply wp_pass, Hp.
Qed.

Lemma row_status_continue token proceed k :
  row_status options token proceed k = kContinue -> token <> stop_token options.
Proof. unfold row_status. intros Hs ->. by rewrite Z.eqb_refl in Hs. Qed.

Lemma commit_rows_spec ret n i r w :
  (forall s r' w', status r' = s -> result_ok r' = false -> ret r' w') ->
  Z.of_nat n = count + 1 - i -> 0 <= i <= count -> count <= 3 ->
  count <= Z.of_nat (length draft) ->
  rows_accepted i r w ->
  wp (commit_rows options observer n i count draft predictions r) ret rows_done w.
Proof.
  intros Hret. revert i r w. induction n as [|n IH]; intros i r w Hn Hi Hc Hd Hinv; [lia|].
  cbn [commit_rows]. wp_step. wp_step. wp_step.
  { unfold fail. wp_step. wp_step. wp_step. eapply Hret; done. }
  destruct a; [|done].
  assert (Hv : view w' = Staged ctx (seed_token options :: take (Z.to_nat count) draft) (i + 1)).
  { eapply commit_law; [done|apply Hinv|].
    simpl. rewrite length_take. lia. }
  set (accepted := (i <? count) && (at_ draft i =? at_ predictions i)).
  destruct (with_token_accepted i accepted r w w' Hinv ltac:(lia) Hv) as (Hlen & Hout & Hacc & Hcnt).
  pose proof (ra_count _ _ _ Hinv) as Hi0.
  wp_step. apply observe_view. intros proceed w'' Hw.
  set (r' := with_token (i + 1) (at_ predictions i) accepted r) in *.
  set (s := row_status options (at_ predictions i) proceed (output_count r')) in *.
  destruct (negb (bool_decide (status (with_status s r') = kContinue)) || negb accepted) eqn:Hstop.
  - apply wp_pass. split; cbn -[Z.add] in *; rewrite ?Hi0 in *; try done; try lia.
    + rewrite Hw, Hv. done.
    + intros j Hj. apply Hinv. lia.
    + intros j Hj. apply (ra_running _ _ _ Hinv). lia.
    + replace (i + 1 - 1) with i by lia. exists proceed. unfold s. by rewrite Hi0.
  - bools. match goal with Hs : bool_decide _ = true |- _ => apply bool_decide_eq_true in Hs as Hcont end.
    assert (Hacc' : accepted = true) by done. unfold accepted in Hacc'. bools.
    apply IH; [lia..|]. split; cbn -[Z.add] in *; rewrite ?Hi0 in *; try done.
    + by rewrite Hw.
    + intros j Hj. destruct (decide (j = i)) as [->|]; [done|]. apply Hinv. lia.
    + intros j Hj. destruct (decide (j = i)) as [->|].
      * by eapply row_status_continue.
      * apply Hinv. lia.
    + rewrite (ra_accepted _ _ _ Hinv). subst r'. unfold accepted.
      rewrite (proj2 (Z.ltb_lt _ _)) by done. rewrite (proj2 (Z.eqb_eq _ _)) by done. done.
Qed.
End Loop.

(** Nothing has been published yet. *)
Definition fresh (r : RoundResult) : Prop :=
  output_count r = 0 /\ committed_target_rows r = 0 /\ accepted_tokens r = 0 /\
  length (output r) = 4%nat.

Lemma fail_spec {A} s r (ret : RoundResult -> W -> Prop) (post : A -> W -> Prop) w :
  (forall r' w', result_ok r' = false -> ret r' w') ->
  result_ok (with_status s r) = false ->
  wp (fail s r) ret post w.
Proof. intros Hret Hs. unfold fail. wp_step. wp_step. wp_step. by apply Hret. Qed.

Lemma propose_by_policy_spec ret maximum draft w :
  0 <= maximum ->
  wp (propose_by_policy options maximum draft) ret
     (fun '(ok, draft', count, _) w' => ok = true ->
        view w' = view w /\ length draft' = length draft /\ 0 <= count) w.
Proof.
  intros Hm. unfold propose_by_policy. repeat wp_step.
  - destruct a as [[[? ?] ?] ?]. intros ->. by eapply propose_eos_bounded_law.
  - intros ->. by eapply propose_bounded_law.
  - intros ->. split_and!; [..|done]; by eapply propose_law.
Qed.

Lemma draft_phase_spec ret ctx rows count draft r w :
  (forall r' w', result_ok r' = false -> ret r' w') ->
  0 <= count -> view w = Begun ctx rows -> fresh r ->
  wp (draft_phase options count draft r) ret
     (fun '(draft', count', r') w' =>
        view w' = Begun ctx rows /\ length draft' = length draft /\
        0 <= count' <= count /\ fresh r') w.
Proof.
  intros Hret Hc Hv Hf. unfold draft_phase. wp_step.
  { wp_step. bools. split_and!; done || lia. }
  wp_step. eapply wp_mono; [by apply propose_by_policy_spec|done|].
  intros [[[ok draft'] count'] stopped] w' Hok. wp_step; [by apply fail_spec|].
  destruct ok; [|done]. destruct Hok as (Hv' & Hl & Hc'); [done|].
  unfold proposal_invalid. wp_step; [by apply fail_spec|]. wp_step. bools.
  split_and!; first [done | lia | congruence].
Qed.

Lemma verify_phase_spec ret ctx count draft preds r w rows :
  (forall r' w', result_ok r' = false -> ret r' w') ->
  0 <= count < rows -> count <= Z.of_nat (length draft) -> view w = Begun ctx rows -> fresh r ->
  wp (verify_phase options draft count preds r) ret
     (fun '(preds', r') w' =>
        view w' = Staged ctx (seed_token options :: take (Z.to_nat count) draft) 0 /\
        (forall i, 0 <= i <= count ->
           at_ preds' i = argmax (ctx ++ seed_token options :: take (Z.to_nat i) draft)) /\
        fresh r') w.
Proof.
  intros Hret Hc Hl Hv Hf. unfold verify_phase. wp_step; [by apply fail_spec|].
  wp_step. wp_step. destruct a as [ok preds']. wp_step; [by apply fail_spec|].
  destruct ok; [|done]. wp_step; [by apply fail_spec|]. wp_step.
  edestruct verify_law as [? ?]; eauto.
Qed.

(** What a successful round establishes, before it is read as a greedy run. *)
Definition round_post (ctx : list Z) (r : RoundResult) (w : W) : Prop :=
  exists draft count,
    0 <= count <= 3 /\ count < remaining_output options /\
    count <= Z.of_nat (length draft) /\ length (output r) = 4%nat /\
    1 <= output_count r <= count + 1 /\
    committed_target_rows r = output_count r /\
    output_count r - 1 <= accepted_tokens r <= output_count r /\
    (forall j, 0 <= j < output_count r ->
       at_ (output r) j = argmax (ctx ++ seed_token options :: take (Z.to_nat j) draft)) /\
    (forall j, 0 <= j < output_count r - 1 ->
       at_ draft j = at_ (output r) j /\ at_ (output r) j <> stop_token options) /\
    (exists proceed, status r =
       row_status options (at_ (output r) (output_count r - 1)) proceed (output_count r)) /\
    view w = Idle (ctx ++ take (Z.to_nat (output_count r))
                            (seed_token options :: take (Z.to_nat count) draft)).

Lemma run_round_post null ctx w r w' :
  view w = Idle ctx -> 0 <= remaining_output options ->
  run_round options observer null w = (r, w') -> result_ok r = true ->
  round_post ctx r w'.
Proof.
  intros Hv Hrem Hrun. unfold run_round in Hrun.
  eapply (wp_body _ (fun r w => result_ok r = true -> round_post ctx r w)); [|done].
  clear Hrun r w'. unfold run_round_flow.
  set (ret := fun r w => result_ok r = true -> round_post ctx r w).
  assert (Hret : forall r' w', result_ok r' = false -> ret r' w') by (unfold ret; congruence).
  wp_step; [by apply wp_return|].
  unfold round_rejected in *. bools.
  assert (Hcount : 0 <= Z.min (draft_length options) (remaining_output options - 1) <= 3).
  { repeat match goal with Ho : _ \/ _ |- _ => destruct Ho end; bools; lia. }
  set (count0 := Z.min _ _) in *.
  wp_step. wp_step. wp_step; [by apply fail_spec|]. destruct a; [|done].
  wp_step. eapply wp_mono; [eapply draft_phase_spec|done|]; eauto; [lia|by eapply begin_law|done|].
  intros [[draft count] r1] w1 (Hv1 & Hl & Hc & Hf).
  wp_step. simpl in Hl.
  eapply wp_mono; [eapply verify_phase_spec|done|]; eauto; [lia..|].
  intros [preds r2] w2 (Hv2 & Hp & Hf2).
  wp_step. destruct Hf2 as (? & ? & ? & ?).
  eapply wp_mono; [eapply (commit_rows_spec ctx draft preds count)|done|];
    [intros; by apply Hret|lia..| |].
  { split; try done; intros; lia. }
  intros r3 w3 [Hk Hv3 Hcm Hlen Hout Hd Hrun Hacc [pr Hst]].
  wp_step. wp_step. wp_step; [by apply fail_spec|]. destruct a; [|done].
  apply wp_return. intros _. exists draft, count.
  split_and!; try done; try lia.
  - intros j Hj. rewrite Hout by lia. apply Hp. lia.
  - intros j Hj. rewrite Hout by lia. split; [by apply Hd|by apply Hrun].
  - exists pr. rewrite Hout by lia. done.
  - by eapply finish_law.
Qed.
End Lossless.

(** ** A backend over a pure target model

    The reference implementation of the interface: the world is the abstract
    transaction itself, [argmax] is the target and [drafter] proposes three
    tokens from the consumed context and the seed. *)

Module PureTarget.
Section PureTarget.
Variable argmax : list Z -> Z.
Variable drafter : list Z -> Z * Z * Z.

Definition drafts (ctx : list Z) : list Z :=
  let '(a, b, c) := drafter ctx in [a; b; c].

Definition pure_begin (rows : Z) (w : txn) : bool * txn :=
  match w with Idle ctx => (true, Begun ctx rows) | _ => (false, w) end.

Definition pure_propose (seed n : Z) (draft : list Z) (w : txn) : (bool * list Z) * txn :=
  match w with
  | Begun ctx _ =>
      if decide (length draft = 3%nat) then ((true, drafts (ctx ++ [seed])), w)
      else ((false, draft), w)
  | _ => ((false, draft), w)
  end.

(** The frontier: propose up to the first drafted stop token, exclusive. *)
Definition pure_propose_eos (seed n stop : Z) (draft : list Z) (actual : Z) (stopped : bool)
    (w : txn) : (bool * list Z * Z * bool) * txn :=
  let '((ok, draft'), w') := pure_propose seed n draft w in
  match list_find (fun t => t = stop) (take (Z.to_nat n) draft') with
  | Some (i, _) => ((ok, draft', Z.of_nat i, true), w')
  | None => ((ok, draft', n, false), w')
  end.

Definition predictions (ctx draft : list Z) (count : Z) : list Z :=
  (fun i => argmax (ctx ++ take i draft)) <$> seq 0 (S (Z.to_nat count)).

Definition pure_verify (seed : Z) (draft : list Z) (count : Z) (preds : list Z) (w : txn)
    : (bool * list Z) * txn :=
  match w with
  | Begun ctx _ => ((true, predictions (ctx ++ [seed]) draft count),
                    Staged ctx (seed :: take (Z.to_nat count) draft) 0)
  | _ => ((false, preds), w)
  end.

Definition pure_commit_prefix (rows token : Z) (w : txn) : bool * txn :=
  match w with Staged ctx staged _ => (true, Staged ctx staged rows) | _ => (false, w) end.

Definition pure_finish (w : txn) : bool * txn :=
  match w with
  | Staged ctx staged n => (true, Idle (ctx ++ take (Z.to_nat n) staged))
  | _ => (false, w)
  end.

#[export] Instance backend : RoundBackend txn := {|
  begin := pure_begin;
  propose := pure_propose;
  propose_bounded := propose_bounded_default pure_propose;
  propose_eos_bounded := pure_propose_eos;
  verify := pure_verify;
  commit_prefix := pure_commit_prefix;
  finish := pure_finish;
  abort := fun w => (true, w) |}.

Lemma predictions_at ctx draft count i :
  0 <= i <= count ->
  at_ (predictions ctx draft count) i = argmax (ctx ++ take (Z.to_nat i) draft).
Proof.
  intros Hi. unfold at_, predictions. rewrite nth_lookup, list_lookup_fmap.
  rewrite lookup_seq_lt by lia. done.
Qed.

Lemma length_drafts ctx : length (drafts ctx) = 3%nat.
Proof. unfold drafts. by destruct (drafter ctx) as [[? ?] ?]. Qed.

Lemma pure_propose_spec seed n draft draft' w w' :
  pure_propose seed n draft w = ((true, draft'), w') ->
  w' = w /\ length draft' = length draft.
Proof.
  intros Hp. destruct w; simpl in Hp; try done. case_decide; simplify_eq.
  by rewrite length_drafts.
Qed.

#[export] Instance laws : RoundBackendLaws txn argmax id.
Proof.
  split; unfold id; cbn [begin propose propose_bounded propose_eos_bounded verify
                         commit_prefix finish backend].
  - intros rows w w' ctx Hb ->. simpl in Hb. by simplify_eq.
  - intros seed n draft draft' w w' Hp. by apply pure_propose_spec in Hp.
  - intros seed n draft draft' a a' w w' Hp Hn. unfold propose_bounded_default in Hp.
    destruct (pure_propose seed n draft w) as [[ok d] w1] eqn:E. simplify_eq.
    apply pure_propose_spec in E as [? ?]. done.
  - intros seed n stop draft draft' a a' b b' w w' Hp Hn. unfold pure_propose_eos in Hp.
    destruct (pure_propose seed n draft w) as [[ok d] w1] eqn:E.
    assert (ok = true) as -> by (destruct (list_find _ _) as [[? ?]|]; by simplify_eq).
    apply pure_propose_spec in E as [-> ?].
    destruct (list_find _ _) as [[? ?]|]; simplify_eq; split_and!; done || lia.
  - intros seed draft count preds preds' w w' ctx rows Hvf -> Hc Hl.
    simpl in Hvf. simplify_eq. split; [done|]. intros i Hi.
    rewrite predictions_at, <- app_assoc by done. done.
  - intros rows token w w' ctx staged n Hcp -> _. simpl in Hcp. by simplify_eq.
  - intros w w' ctx staged n Hf ->. simpl in Hf. by simplify_eq.
Qed.
End PureTarget.
End PureTarget.

(** ** Properties of a round *)

Lemma round_post_tokens {W} argmax (view : W -> txn) (options : RoundOptions) ctx r (w : W) :
  round_post argmax view options ctx r w ->
  emitted r = greedy argmax (ctx ++ [seed_token options]) (Z.to_nat (output_count r)) /\
  view w = Idle (ctx ++ seed_token options ::
                 take (Z.to_nat (output_count r) - 1) (emitted r)).
Proof.
  intros (draft & count & Hc & _ & Hld & Hlo & Hk & _ & _ & Hout & Hdr & _ & Hv).
  set (k := Z.to_nat (output_count r)) in *.
  assert (Hlen : length (emitted r) = k) by (unfold emitted; rewrite length_take; lia).
  assert (Hdraft : forall i, (i <= k - 1)%nat -> take i draft = take i (emitted r)).
  { intros i Hi. unfold emitted. rewrite take_take, Nat.min_l by lia.
    apply take_at_ext; [lia..|]. intros j Hj. apply Hdr. lia. }
  split.
  - rewrite <- Hlen at 1. apply greedy_intro. intros i Hi.
    rewrite <- app_assoc. simpl. rewrite <- Hdraft by lia. unfold emitted.
    rewrite lookup_take_lt by lia. rewrite at_lookup by lia.
    rewrite Hout by lia. by rewrite Nat2Z.id.
  - rewrite Hv. fold k. destruct k as [|k'] eqn:E; [lia|]. simpl.
    rewrite take_take, Nat.min_l by lia. rewrite Nat.sub_0_r, Hdraft by lia. done.
Qed.

(** C1. Speculation is lossless: whatever the drafts, a round that succeeds
    publishes at least one token and at most the remaining budget, the tokens
    are exactly the next tokens of greedy decoding by the target model, and
    the target has consumed the seed and all of them but the last, which stays
    pending as the next seed. *)
Theorem run_round_lossless {W} `{!RoundBackend W} (argmax : list Z -> Z) (view : W -> txn)
    `{!RoundBackendLaws W argmax view} options observer null ctx w r w' :
  observer_neutral view observer ->
  view w = Idle ctx ->
  0 <= remaining_output options ->
  run_round options observer null w = (r, w') ->
  result_ok r = true ->
  let k := Z.to_nat (output_count r) in
  (0 < k)%nat /\ output_count r <= remaining_output options /\
  emitted r = greedy argmax (ctx ++ [seed_token options]) k /\
  view w' = Idle (ctx ++ seed_token options :: take (k - 1) (emitted r)).
Proof.
  intros Hn Hv Hrem Hrun Hok k.
  pose proof (run_round_post argmax view options observer Hn null ctx w r w' Hv Hrem Hrun Hok) as Hp.
  apply round_post_tokens in Hp as Htok.
  destruct Hp as (? & ? & ? & ? & ? & ? & ? & _). destruct Htok.
  split_and!; unfold k; done || lia.
Qed.

(** The witness's target: the next token is the sum of the context mod 23;
    the drafter is right about the first token and wrong about the second. *)
Definition sum_argmax (ctx : list Z) : Z := foldr Z.add 0 ctx mod 23.
Definition sum_drafter (ctx : list Z) : Z * Z * Z := (sum_argmax ctx, 5, 7).

Definition sum_options : RoundOptions := {|
  draft_length := 3; seed_token := 4; remaining_output := 9;
  available_target_rows := 100; vocabulary_size := 23; stop_token := 22;
  confidence_lookahead := true; eos_frontier := false |}.

Definition sum_round : RoundResult * txn :=
  @run_round txn (PureTarget.backend sum_argmax sum_drafter) sum_options None true (Idle [1; 2]).

Lemma run_round_lossless_witness :
  emitted (fst sum_round) = greedy sum_argmax [1; 2; 4] 2 /\
  snd sum_round = Idle [1; 2; 4; 7].
Proof.
  destruct (@run_round_lossless txn (PureTarget.backend sum_argmax sum_drafter)
    sum_argmax id (PureTarget.laws sum_argmax sum_drafter) sum_options None true [1; 2]
    (Idle [1; 2]) (fst sum_round) (snd sum_round)) as (_ & _ & He & Hv).
  - intros f token w b w' E. discriminate E.
  - reflexivity.
  - vm_compute. discriminate.
  - vm_compute. reflexivity.
  - vm_compute. reflexivity.
  - split; [exact He|exact Hv].
Defined.

(** How a finished round ended. *)
Definition round_ended (options : RoundOptions) (r : RoundResult) : Prop :=
  (forall i t, emitted r !! i = Some t -> Z.of_nat i < output_count r - 1 ->
     t <> stop_token options) /\
  (status r = kStop <-> last (emitted r) = Some (stop_token options)) /\
  (status r = kLength -> output_count r = remaining_output options) /\
  (status r = kContinue -> output_count r < remaining_output options) /\
  committed_target_rows r = output_count r /\
  output_count r - 1 <= accepted_tokens r <= output_count r.

Lemma round_post_ended {W} argmax (view : W -> txn) options ctx r (w : W) :
  round_post argmax view options ctx r w -> round_ended options r.
Proof.
  intros (draft & count & Hc & Hrm & Hld & Hlo & Hk & Hcm & Hacc & Hout & Hdr & [pr Hst] & _).
  set (tok := at_ (output r) (output_count r - 1)) in *.
  assert (Hlast : last (emitted r) = Some tok).
  { rewrite last_lookup. unfold emitted. rewrite length_take, Nat.min_l by lia.
    rewrite lookup_take_lt, at_lookup by lia. unfold tok. do 2 f_equal. lia. }
  unfold round_ended. split_and!; try done; try lia.
  - intros i t Hi Hlt. unfold emitted in Hi. apply lookup_take_Some in Hi as [Hi ?].
    apply lookup_at in Hi as <-. apply Hdr. lia.
  - rewrite Hlast, Hst. unfold row_status.
    destruct (Z.eqb_spec tok (stop_token options)) as [->|Hne]; [done|].
    split; [|congruence]. by destruct pr, (_ =? _).
  - rewrite Hst. unfold row_status. destruct (tok =? _); [done|].
    destruct pr; simpl; [|done]. by destruct (Z.eqb_spec (output_count r) (remaining_output options)).
  - rewrite Hst. unfold row_status. destruct (tok =? _); [done|].
    destruct pr; simpl; [|done].
    destruct (Z.eqb_spec (output_count r) (remaining_output options)); [done|lia].
Qed.

(** The stop token ends a round: no published token before the last is the
    stop token; the round says [kStop] exactly when its last token is, [kLength]
    only when the budget is used up and [kContinue] only when it is not.  EOS
    wins over a cancelling observer. *)
Theorem run_round_status {W} `{!RoundBackend W} (argmax : list Z -> Z) (view : W -> txn)
    `{!RoundBackendLaws W argmax view} options observer null ctx w r w' :
  observer_neutral view observer ->
  view w = Idle ctx ->
  0 <= remaining_output options ->
  run_round options observer null w = (r, w') ->
  result_ok r = true ->
  (forall i t, emitted r !! i = Some t -> Z.of_nat i < output_count r - 1 ->
     t <> stop_token options) /\
  (status r = kStop <-> last (emitted r) = Some (stop_token options)) /\
  (status r = kLength -> output_count r = remaining_output options) /\
  (status r = kContinue -> output_count r < remaining_output options) /\
  committed_target_rows r = output_count r /\
  output_count r - 1 <= accepted_tokens r <= output_count r.
Proof.
  intros Hn Hv Hrem Hrun Hok.
  exact (round_post_ended _ _ _ _ _ _
           (run_round_post argmax view options observer Hn null ctx w r w' Hv Hrem Hrun Hok)).
Qed.

Lemma run_round_status_witness :
  status (fst sum_round) = kContinue /\ output_count (fst sum_round) < 9 /\
  committed_target_rows (fst sum_round) = 2.
Proof.
  destruct (@run_round_status txn (PureTarget.backend sum_argmax sum_drafter)
    sum_argmax id (PureTarget.laws sum_argmax sum_drafter) sum_options None true [1; 2]
    (Idle [1; 2]) (fst sum_round) (snd sum_round)) as (_ & _ & _ & Hk & Hc & _).
  - intros f token w b w' E. discriminate E.
  - reflexivity.
  - vm_compute. discriminate.
  - vm_compute. reflexivity.
  - vm_compute. reflexivity.
  - split; [reflexivity|]. split; [apply Hk; reflexivity|]. rewrite Hc. reflexivity.
Defined.

(** ** Decorated backends

    [phi] is a morphism of backends when every member of the decorated one
    acts as the inner one on the inner world. *)

Class BackendMorphism {W W'} `{RoundBackend W} `{RoundBackend W'} (phi : W' -> W) : Prop := {
  begin_sim rows : call_sim phi (begin rows) (begin rows);
  propose_sim s n d : call_sim phi (propose s n d) (propose s n d);
  propose_bounded_sim s n d a : call_sim phi (propose_bounded s n d a) (propose_bounded s n d a);
  propose_eos_bounded_sim s n t d a b :
    call_sim phi (propose_eos_bounded s n t d a b) (propose_eos_bounded s n t d a b);
  verify_sim s d c p : call_sim phi (verify s d c p) (verify s d c p);
  commit_prefix_sim r t : call_sim phi (commit_prefix r t) (commit_prefix r t);
  finish_sim : call_sim phi finish finish;
  abort_sim : call_sim phi abort abort
}.

Definition observer_sim {W W'} (phi : W' -> W) (o' : TokenObserver W') (o : TokenObserver W) : Prop :=
  match o', o with
  | None, None => True
  | Some f', Some f => forall t, call_sim phi (f' t) (f t)
  | _, _ => False
  end.

#[export] Hint Resolve begin_sim propose_sim propose_bounded_sim propose_eos_bounded_sim
  verify_sim commit_prefix_sim finish_sim abort_sim : flow.

Section Morphism.
Context {W W'} `{!RoundBackend W} `{!RoundBackend W'} (phi : W' -> W).
Context `{!BackendMorphism phi}.
Variables (options : RoundOptions) (o' : TokenObserver W') (o : TokenObserver W).
Hypothesis Ho : observer_sim phi o' o.

Ltac sim := repeat sim_step; eauto with flow.

Lemma fail_sim {A} s r : flow_sim phi (fail (A := A) s r) (fail s r).
Proof. unfold fail. sim. Qed.
#[local] Hint Resolve fail_sim : flow.

Lemma draft_phase_sim c d r :
  flow_sim phi (draft_phase options c d r) (draft_phase options c d r).
Proof. unfold draft_phase, propose_by_policy. sim. Qed.

Lemma verify_phase_sim d c p r :
  flow_sim phi (verify_phase options d c p r) (verify_phase options d c p r).
Proof. unfold verify_phase. sim. Qed.

Lemma observe_sim t :
  flow_sim phi (observe (W := W') o' t) (observe (W := W) o t).
Proof. unfold observe. destruct o', o; try done; sim. Qed.
#[local] Hint Resolve draft_phase_sim verify_phase_sim observe_sim : flow.

Lemma commit_rows_sim n i c d p r :
  flow_sim phi (commit_rows options o' n i c d p r) (commit_rows options o n i c d p r).
Proof. revert i r. induction n; intros; cbn [commit_rows]; sim. Qed.
#[local] Hint Resolve commit_rows_sim : flow.

Lemma run_round_sim null :
  call_sim phi (run_round options o' null) (run_round options o null).
Proof.
  assert (Hrej : round_rejected options o' null = round_rejected options o null).
  { unfold round_rejected. destruct o', o; done. }
  apply sim_body. unfold run_round_flow. rewrite Hrej. sim.
Qed.
End Morphism.

(** ** The call protocol

    A decorator that records every call; [protocol] is the order of calls that
    the header's comment prescribes, as an executable automaton. *)

Inductive event :=
  | EBegin (ok : bool)
  | EPropose (ok : bool)
  | EVerify (ok : bool)
  | ECommit (rows token : Z) (ok : bool)
  | EPublish (token : Z)
  | EFinish (ok : bool)
  | EAbort.

Module Logged.
Section Logged.
Context {W : Type} `{RoundBackend W}.

Definition world : Type := W * list event.

(** Run [m] on the inner world and append the event of its result. *)
Definition record {A} (ev : A -> event) (m : W -> A * W) : world -> A * world :=
  fun '(w, log) => let '(a, w') := m w in (a, (w', log ++ [ev a])).

#[export] Instance backend : RoundBackend world := {|
  begin rows := record EBegin (begin rows);
  propose s n d := record (fun a => EPropose a.1) (propose s n d);
  propose_bounded s n d a := record (fun a => EPropose a.1.1) (propose_bounded s n d a);
  propose_eos_bounded s n t d a b :=
    record (fun a => EPropose a.1.1.1) (propose_eos_bounded s n t d a b);
  verify s d c p := record (fun a => EVerify a.1) (verify s d c p);
  commit_prefix r t := record (ECommit r t) (commit_prefix r t);
  finish := record EFinish finish;
  abort := record (fun _ => EAbort) abort |}.

Definition observer (o : TokenObserver W) : TokenObserver world :=
  match o with
  | None => None
  | Some f => Some (fun t => record (fun _ => EPublish t) (f t))
  end.

Lemma record_sim {A} (ev : A -> event) m : call_sim fst (record ev m) m.
Proof. intros [w log]. unfold record. simpl. by destruct (m w). Qed.

#[export] Instance morphism : BackendMorphism (W' := world) fst.
Proof. split; intros; apply record_sim. Qed.

Lemma logged_observer_sim o : observer_sim fst (observer o) o.
Proof. destruct o; [|done]. intros t. apply record_sim. Qed.
End Logged.
End Logged.

(** Where a transaction is, seen from its calls. [PRows n]: [n] rows are
    committed and published; [PPending n t]: row [n] is committed and its token
    [t] must be published next. *)
Inductive phase :=
  | PIdle | POpen | PProposed | PRows (n : Z) | PPending (n token : Z)
  | PFailed | PFinished | PAborted.

Definition protocol (observed : bool) (p : phase) (e : event) : option phase :=
  match p, e with
  | PIdle, EBegin ok => Some (if ok then POpen else PFailed)
  | POpen, EPropose ok => Some (if ok then PProposed else PFailed)
  | (POpen | PProposed), EVerify ok => Some (if ok then PRows 0 else PFailed)
  | PRows n, ECommit rows token ok =>
      if rows =? n + 1 then
        Some (if negb ok then PFailed
              else if observed then PPending rows token else PRows rows)
      else None
  | PPending n token, EPublish t => if token =? t then Some (PRows n) else None
  | PRows n, EFinish ok =>
      if 0 <? n then Some (if ok then PFinished else PFailed) else None
  | (POpen | PProposed | PRows _ | PFailed), EAbort => Some PAborted
  | _, _ => None
  end.

Definition run_protocol (observed : bool) (p : phase) (es : list event) : option phase :=
  foldl (fun s e => p ← s; protocol observed p e) (Some p) es.

(** The tokens a log hands to the client. *)
Definition published (es : list event) : list Z :=
  omap (fun e => match e with EPublish t => Some t | _ => None end) es.

Lemma run_protocol_snoc observed p es e :
  run_protocol observed p (es ++ [e]) =
  (q ← run_protocol observed p es; protocol observed q e).
Proof. unfold run_protocol. by rewrite foldl_app. Qed.

#[local] Existing Instance Logged.backend.
#[local] Existing Instance Logged.morphism.

(** The out-parameter [actual] is a [uint32_t]. *)
Class UnsignedCounts (W : Type) `{RoundBackend W} : Prop := {
  propose_bounded_unsigned s n d a w ok d' a' w' :
    propose_bounded s n d a w = ((ok, d', a'), w') -> 0 <= n -> 0 <= a -> 0 <= a';
  propose_eos_bounded_unsigned s n t d a b w ok d' a' b' w' :
    propose_eos_bounded s n t d a b w = ((ok, d', a', b'), w') -> 0 <= n -> 0 <= a -> 0 <= a'
}.

Section Protocol.
Context {W : Type} `{!RoundBackend W} `{!UnsignedCounts W}.
Variables (options : RoundOptions) (o : TokenObserver W) (log0 : list event).

Abbreviation world := (@Logged.world W).
Abbreviation observed := (match o with None => false | Some _ => true end).

(** The calls made so far lead the automaton to [p] and have published
    [toks]. *)
Definition at_phase (p : phase) (toks : list Z) (w : world) : Prop :=
  exists tr, w.2 = log0 ++ tr /\ run_protocol observed PIdle tr = Some p /\
             published tr = toks.

(** The function returns a failure only after the abort. *)
Definition aborted (r : RoundResult) (w : world) : Prop :=
  result_ok r = false /\ exists toks, at_phase PAborted toks w.

Lemma record_phase {A} (ev : A -> event) (m : W -> A * W) p toks w a w' :
  at_phase p toks w -> Logged.record ev m w = (a, w') ->
  forall q, protocol observed p (ev a) = Some q ->
  at_phase q (toks ++ published [ev a]) w'.
Proof.
  intros (tr & Hl & Hp & Ht) Hr q Hq. destruct w as [w log]. simpl in *.
  destruct (m w) as [a1 w1]. simplify_eq. exists (tr ++ [ev a]). simpl.
  split_and!.
  - by rewrite app_assoc.
  - by rewrite run_protocol_snoc, Hp.
  - unfold published. by rewrite omap_app.
Qed.

Lemma fail_phase {A} s r (post : A -> world -> Prop) w p toks :
  at_phase p toks w -> protocol observed p EAbort = Some PAborted ->
  result_ok (with_status s r) = false ->
  wp (fail s r) aborted post w.
Proof.
  intros Hw Hp Hs. unfold fail. wp_step. apply wp_call. intros a w' Ha. wp_step.
  split; [exact Hs|]. exists (toks ++ []).
  exact (record_phase (fun _ => EAbort) _ _ _ _ _ _ Hw Ha _ Hp).
Qed.

Lemma call_phase {A} (ev : A -> event) (m : W -> A * W) (m' : world -> A * world)
    ret (post : A -> world -> Prop) w p toks :
  at_phase p toks w -> m' = Logged.record ev m ->
  (forall a w0 w1, m w0 = (a, w1) -> exists q, protocol observed p (ev a) = Some q /\
     forall w', at_phase q (toks ++ published [ev a]) w' -> post a w') ->
  wp (call (R := RoundResult) m') ret post w.
Proof.
  intros Hw -> Hq. apply wp_call. intros a w' Ha. destruct w as [w log].
  pose proof Ha as Hrec. unfold Logged.record in Hrec. destruct (m w) as [a1 w1] eqn:Hm.
  injection Hrec as <- <-. destruct (Hq a1 w w1 Hm) as (q & Hq1 & Hq2).
  apply Hq2. by eapply (record_phase ev m _ _ (w, log)).
Qed.

Definition started (p : phase) : Prop := p = POpen \/ p = PProposed.

Ltac event_ok ok := exists (if ok then PProposed else PFailed); split; [by destruct ok|].

Definition drafted (c : Z) (r : RoundResult) (x : list Z * Z * RoundResult) (w : world) : Prop :=
  0 <= x.1.2 <= c /\ output x.2 = output r /\ output_count x.2 = output_count r /\
  exists p, started p /\ at_phase p [] w.

Lemma draft_phase_protocol c d r w :
  0 <= c -> at_phase POpen [] w ->
  wp (draft_phase (W := world) options c d r) aborted (drafted c r) w.
Proof.
  intros Hc Hw. unfold draft_phase, propose_by_policy. wp_step.
  { wp_step. bools. unfold drafted. simpl. split_and!; try lia; try done. exists POpen. split; [by left|done]. }
  assert (Hgo : forall ok d' c' b w', at_phase (if ok : bool then PProposed else PFailed) [] w' ->
    0 <= c' ->
    wp (if negb ok then fail kBackendFailure r
        else if proposal_invalid options c c' b d' then fail kInvalidPrediction r
        else pass (d', c', with_eos b r)) aborted (drafted c r) w').
  { intros [] d' c' b' w' Hw' Hc'; cbn [negb]; [|by eapply fail_phase].
    wp_step; [by eapply fail_phase|]. wp_step. unfold proposal_invalid in *. bools.
    unfold drafted. simpl. split_and!; try lia; try done. exists PProposed. by split; [right|]. }
  apply wp_bind. destruct (eos_frontier options); [|destruct (confidence_lookahead options)];
    repeat apply wp_bind;
    (eapply call_phase; [done|reflexivity|]; cbn beta; intros a w0 w1 Hm;
     repeat match goal with x : _ * _ |- _ => destruct x end;
     match goal with |- context [EPropose ?ok] => event_ok ok end;
     intros w' Hw'; rewrite ?app_nil_r in Hw'; apply Hgo; [done|]);
    eauto using propose_bounded_unsigned, propose_eos_bounded_unsigned.
Qed.

Lemma verify_phase_protocol d c ps r w p :
  started p -> at_phase p [] w ->
  wp (verify_phase (W := world) options d c ps r) aborted
     (fun '(_, r') w' => at_phase (PRows 0) [] w' /\ output r' = output r /\
                         output_count r' = output_count r) w.
Proof.
  intros Hp Hw. unfold verify_phase.
  wp_step; [eapply fail_phase; [done|by destruct Hp as [-> | ->]|done]|].
  wp_step. eapply call_phase; [done|reflexivity|]. intros [ok ps'] wa wb _.
  exists (if ok then PRows 0 else PFailed). split; [by destruct Hp as [-> | ->]|].
  intros w' Hw'. cbn beta iota. destruct ok; cbn [negb]; [|by eapply fail_phase].
  wp_step; [by eapply fail_phase|]. by wp_step.
Qed.

(** What the client has seen of a result. *)
Definition seen (r : RoundResult) : list Z := if observed then emitted r else [].

Lemma emitted_with_token rows t b r :
  0 <= output_count r < Z.of_nat (length (output r)) ->
  emitted (with_token rows t b r) = emitted r ++ [t].
Proof.
  intros Hl. unfold emitted, with_token. cbn [output output_count].
  replace (Z.to_nat (output_count r + 1)) with (S (Z.to_nat (output_count r))) by lia.
  unfold set_at. erewrite take_S_r by (apply list_lookup_insert_eq; lia).
  by rewrite take_insert_ge by lia.
Qed.

Lemma commit_rows_protocol n i c d ps r w :
  at_phase (PRows i) (seen r) w -> output_count r = i -> 0 <= i ->
  i + Z.of_nat n <= Z.of_nat (length (output r)) ->
  (n = 0%nat -> 0 < i /\ result_ok r = true) ->
  wp (commit_rows (W := world) options (Logged.observer o) n i c d ps r) aborted
     (fun r' w' => result_ok r' = true /\ exists k, 0 < k /\ at_phase (PRows k) (seen r') w') w.
Proof.
  revert i r w. induction n as [|n IH]; intros i r w Hw Hk Hi Hl Hn; cbn [commit_rows].
  { wp_step. destruct (Hn eq_refl). split; [done|]. by exists i. }
  set (t := at_ ps i). wp_step. eapply call_phase; [done|reflexivity|]. intros ok wa wb _.
  eexists. split; [cbn; by rewrite Z.eqb_refl|].
  intros w' Hw'. rewrite app_nil_r in Hw'.
  destruct ok; cbn [negb] in *; [|by eapply fail_phase].
  set (acc := (i <? c) && _). pose proof (emitted_with_token (i + 1) t acc r ltac:(lia)) as He.
  set (r1 := with_token (i + 1) t acc r) in *.
  assert (Hgo : forall proceed w', at_phase (PRows (i + 1)) (seen r1) w' ->
    wp (if negb (bool_decide (status (with_status (row_status options t proceed (output_count r1)) r1)
                              = kContinue)) || negb acc
        then pass (with_status (row_status options t proceed (output_count r1)) r1)
        else commit_rows options (Logged.observer o) n (i + 1) c d ps
               (with_status (row_status options t proceed (output_count r1)) r1)) aborted
       (fun r' w' => result_ok r' = true /\ exists k, 0 < k /\ at_phase (PRows k) (seen r') w') w').
  { intros proceed w1 Hw1.
    assert (Hst : result_ok (with_status (row_status options t proceed (output_count r1)) r1) = true).
    { unfold result_ok, row_status. simpl. by repeat case_match. }
    wp_step; [wp_step; split; [done|exists (i + 1); split; [lia|done]]|].
    apply IH; simpl; rewrite ?length_set_at; try lia; [done|]. by split; [lia|]. }
  wp_step. unfold observe, Logged.observer, seen in *. destruct o as [f|].
  - eapply call_phase; [done|reflexivity|]. intros b wc wd _.
    eexists. split; [cbn; by rewrite Z.eqb_refl|]. intros w1 Hw1. apply Hgo.
    by rewrite He.
  - wp_step. by apply Hgo.
Qed.

Lemma run_round_protocol_post null w :
  0 <= remaining_output options -> at_phase PIdle [] w -> round_rejected options (Logged.observer o) null = false ->
  wp (run_round_flow (W := world) options (Logged.observer o) null)
     (fun r w' => aborted r w' \/ (result_ok r = true /\ at_phase PFinished (seen r) w'))
     (fun _ _ => False) w.
Proof.
  intros Hrem Hw Hrej. unfold run_round_flow. rewrite Hrej. wp_step.
  set (count := Z.min _ _).
  assert (Hcount : 0 <= count <= 3).
  { unfold round_rejected in Hrej. bools. unfold count.
    repeat match goal with Ho : _ \/ _ |- _ => destruct Ho end; bools; lia. }
  eapply call_phase; [done|reflexivity|]. intros ok wa wb _.
  eexists. split; [reflexivity|]. intros w1 Hw1. cbn beta.
  destruct ok; cbn [negb].
  2:{ eapply (wp_mono _ aborted _ (fun _ _ => False)); [by eapply fail_phase|by left|done]. }
  wp_step. eapply wp_mono; [by apply draft_phase_protocol; [lia|]|by left|].
  intros [[draft c] r1] w2 (Hc & Ho1 & Hc1 & p & Hp & Hw2). wp_step.
  eapply wp_mono; [by eapply verify_phase_protocol|by left|].
  intros [ps r2] w3 (Hw3 & Ho2 & Hc2). wp_step. simpl in *.
  assert (Hfresh : seen r2 = []).
  { unfold seen, emitted. rewrite Hc2, Hc1. by destruct o. }
  eapply wp_mono; [eapply commit_rows_protocol|by left|].
  - by rewrite Hfresh.
  - congruence.
  - lia.
  - rewrite Ho2, Ho1. simpl. lia.
  - lia.
  - intros r3 w4 (Hok & k & Hk & Hw4). wp_step.
    eapply call_phase; [done|reflexivity|]. intros fin we wf _. eexists. split.
    { cbn. rewrite (proj2 (Z.ltb_lt _ _)) by done. reflexivity. }
    intros w5 Hw5. rewrite app_nil_r in Hw5. cbn beta.
    destruct fin; cbn [negb]; [wp_step; by right|].
    eapply (wp_mono _ aborted _ (fun _ _ => False)); [by eapply fail_phase|by left|done].
Qed.
End Protocol.

Lemma run_round_trace {W} `{!RoundBackend W} `{!UnsignedCounts W}
    options (o : TokenObserver W) null w r w' log :
  0 <= remaining_output options ->
  run_round options (Logged.observer o) null (w, []) = (r, (w', log)) ->
  let observed := match o with None => false | Some _ => true end in
  if round_rejected options o null then r = empty_result /\ w' = w /\ log = []
  else if result_ok r then
    run_protocol observed PIdle log = Some PFinished /\
    published log = (if observed then emitted r else [])
  else run_protocol observed PIdle log = Some PAborted.
Proof.
  intros Hrem Hrun observed.
  assert (Hrej : round_rejected options (Logged.observer o) null = round_rejected options o null).
  { unfold round_rejected. by destruct o. }
  destruct (round_rejected options o null) eqn:Hr.
  { unfold run_round, run_round_flow in Hrun. rewrite Hrej in Hrun.
    unfold body, return_ in Hrun. by simplify_eq. }
  pose proof (run_round_protocol_post options o [] null (w, [])) as Hp.
  eapply (wp_body _ (fun r w' => aborted o [] r w' \/
                                    (result_ok r = true /\ at_phase o [] PFinished (seen o r) w')))
    in Hrun; cycle 1.
  { eapply wp_mono; [apply Hp; [done|by exists []|done]|done|done]. }
  destruct Hrun as [[Hok (toks & tr & Htr & Ha & _)]|[Hok (tr & Htr & Hf & Hpub)]];
    simpl in Htr; subst; by rewrite Hok.
Qed.

(** C2. Every round follows the call protocol, on any backend: a rejected
    round makes no call; a successful one ends with [finish] and its client has
    seen exactly the published prefix of the result, each token only after the
    commit of its row; every failure after [begin] ends with exactly one
    [abort]. *)
Theorem run_round_protocol {W} `{!RoundBackend W} `{!UnsignedCounts W}
    options (o : TokenObserver W) null w r w' log :
  0 <= remaining_output options ->
  run_round options (Logged.observer o) null (w, []) = (r, (w', log)) ->
  let observed := match o with None => false | Some _ => true end in
  if round_rejected options o null then r = empty_result /\ w' = w /\ log = []
  else if result_ok r then
    run_protocol observed PIdle log = Some PFinished /\
    published log = (if observed then emitted r else [])
  else run_protocol observed PIdle log = Some PAborted.
Proof. apply run_round_trace. Qed.

#[export] Instance PureTarget_unsigned argmax drafter :
  @UnsignedCounts txn (PureTarget.backend argmax drafter).
Proof.
  split; simpl.
  - intros s n d a w ok d' a' w' Hp Hn Ha. unfold propose_bounded_default in Hp.
    destruct (PureTarget.pure_propose _ _ _ _) as [[? ?] ?]. by simplify_eq.
  - intros * Hp Hn Ha. unfold PureTarget.pure_propose_eos in Hp.
    destruct (PureTarget.pure_propose _ _ _ _) as [[? ?] ?].
    destruct (list_find _ _) as [[? ?]|]; simplify_eq; lia.
Qed.

(** The same round, watched by a client that cancels after the first token. *)
Definition cancel_observer : TokenObserver txn := Some (fun _ w => (false, w)).

Definition logged_round : RoundResult * (txn * list event) :=
  @run_round _ (@Logged.backend txn (PureTarget.backend sum_argmax sum_drafter)) sum_options
    (Logged.observer cancel_observer) true (Idle [1; 2], []).

Lemma run_round_protocol_witness :
  status (fst logged_round) = kCancelled /\
  run_protocol true PIdle (snd (snd logged_round)) = Some PFinished /\
  published (snd (snd logged_round)) = [7].
Proof.
  split; [reflexivity|].
  apply (@run_round_protocol txn (PureTarget.backend sum_argmax sum_drafter)
    (PureTarget_unsigned sum_argmax sum_drafter) sum_options cancel_observer true (Idle [1; 2])
    (fst logged_round) (fst (snd logged_round)) (snd (snd logged_round))).
  - vm_compute. discriminate.
  - vm_compute. reflexivity.
Defined.

(** ** Invariants

    What every backend call and the observer preserve, a round preserves. *)

Class BackendInvariant {W} `{RoundBackend W} (I : W -> Prop) : Prop := {
  begin_inv rows : preserves I (begin rows);
  propose_inv s n d : preserves I (propose s n d);
  propose_bounded_inv s n d a : preserves I (propose_bounded s n d a);
  propose_eos_bounded_inv s n t d a b : preserves I (propose_eos_bounded s n t d a b);
  verify_inv s d c p : preserves I (verify s d c p);
  commit_prefix_inv r t : preserves I (commit_prefix r t);
  finish_inv : preserves I finish;
  abort_inv : preserves I abort
}.

#[export] Hint Resolve begin_inv propose_inv propose_bounded_inv propose_eos_bounded_inv
  verify_inv commit_prefix_inv finish_inv abort_inv : flow.

Lemma run_round_preserves {W} `{!RoundBackend W} (I : W -> Prop) `{!BackendInvariant I}
    options (o : TokenObserver W) null :
  (forall f t, o = Some f -> preserves I (f t)) -> preserves I (run_round options o null).
Proof.
  intros Ho. apply preserves_body. unfold run_round_flow.
  assert (Hfail : forall A s r, preserves I (fail (A := A) s r)).
  { intros. unfold fail. preserves_step; eauto with flow. }
  assert (Hobs : forall t, preserves I (observe o t)).
  { intros t. unfold observe. destruct o; eauto with flow. }
  assert (Hrows : forall n i c d p r, preserves I (commit_rows options o n i c d p r)).
  { induction n; intros; cbn [commit_rows]; repeat preserves_step; eauto with flow. }
  unfold draft_phase, propose_by_policy, verify_phase.
  repeat preserves_step; eauto with flow.
Qed.

(** A recording of the published tokens: the backend leaves it alone and the
    observer appends its token. *)
Class Recording {W} `{RoundBackend W} (recorded : W -> list Z) : Prop :=
  recording_inv l :: BackendInvariant (fun w => recorded w = l).

Lemma published_app l1 l2 : published (l1 ++ l2) = published l1 ++ published l2.
Proof. apply omap_app. Qed.

Lemma run_round_recorded {W} `{!RoundBackend W} `{!UnsignedCounts W} (recorded : W -> list Z)
    `{!Recording recorded} options (f : Z -> W -> bool * W) null w r w' :
  (forall t w, recorded (snd (f t w)) = recorded w ++ [t]) ->
  0 <= remaining_output options ->
  run_round options (Some f) null w = (r, w') ->
  result_ok r = true -> recorded w' = recorded w ++ emitted r.
Proof.
  intros Hf Hrem Hrun Hok.
  destruct (run_round options (Logged.observer (Some f)) null (w, [])) as [r1 [w1 log]] eqn:Hlog.
  pose proof (run_round_sim (fst : @Logged.world W -> W) options _ _ (Logged.logged_observer_sim (Some f)) null (w, []))
    as [Hr Hw].
  rewrite Hlog in Hr, Hw. simpl in Hr, Hw. rewrite Hrun in Hr, Hw. simpl in Hr, Hw. subst r1 w1.
  pose proof (run_round_trace options (Some f) null w r w' log Hrem Hlog) as Htr.
  simpl in Htr. destruct (round_rejected options (Some f) null).
  { destruct Htr as [-> _]. discriminate. }
  rewrite Hok in Htr. destruct Htr as [_ <-].
  set (I := fun x : Logged.world => recorded x.1 = recorded w ++ published x.2).
  assert (HI : BackendInvariant I).
  { assert (Hrec : forall A (ev : A -> event) (m : W -> A * W),
      (forall l, preserves (fun w => recorded w = l) m) ->
      (forall a, published [ev a] = []) -> preserves I (Logged.record ev m)).
    { intros A ev m Hm He [v lg] HI. unfold I, Logged.record in *. cbn [fst snd] in *.
      specialize (Hm _ v eq_refl). destruct (m v) as [a v'] eqn:E. cbn [fst snd] in *.
      rewrite published_app, He, app_nil_r. congruence. }
    split; intros; apply Hrec; intros; eauto with flow. }
  assert (HI0 : preserves I (run_round options (Logged.observer (Some f)) null)).
  { apply (run_round_preserves I). intros g t [= <-] [v lg] Hv.
    unfold I, Logged.record in *. simpl in *. specialize (Hf t v). destruct (f t v) as [b v'].
    simpl in *. rewrite published_app, app_assoc. simpl. congruence. }
  specialize (HI0 (w, []) ltac:(unfold I; simpl; by rewrite app_nil_r)).
  rewrite Hlog in HI0. exact HI0.
Qed.

(** The contract of the inner backend is the contract of a decorated one. *)
Lemma call_sim_inv {W W' A} (phi : W' -> W) (m' : W' -> A * W') m w a w' :
  call_sim phi m' m -> m' w = (a, w') -> m (phi w) = (a, phi w').
Proof. intros Hs E. specialize (Hs w). rewrite E in Hs. simpl in Hs. destruct (m (phi w)).
  simpl in *. destruct Hs. congruence. Qed.

Lemma decorated_laws {W W'} `{!RoundBackend W} `{!RoundBackend W'} (phi : W' -> W)
    `{!BackendMorphism phi} argmax (view : W -> txn) :
  RoundBackendLaws W argmax view -> RoundBackendLaws W' argmax (fun w => view (phi w)).
Proof.
  intros Hlaws. split.
  - intros * Hc. apply (call_sim_inv phi _ _ _ _ _ (begin_sim _)) in Hc. by apply begin_law.
  - intros * Hc. apply (call_sim_inv phi _ _ _ _ _ (propose_sim _ _ _)) in Hc.
    by eapply propose_law.
  - intros * Hc. apply (call_sim_inv phi _ _ _ _ _ (propose_bounded_sim _ _ _ _)) in Hc.
    by eapply propose_bounded_law.
  - intros * Hc. apply (call_sim_inv phi _ _ _ _ _ (propose_eos_bounded_sim _ _ _ _ _ _)) in Hc.
    by eapply propose_eos_bounded_law.
  - intros * Hc. apply (call_sim_inv phi _ _ _ _ _ (verify_sim _ _ _ _)) in Hc.
    by eapply verify_law.
  - intros * Hc. apply (call_sim_inv phi _ _ _ _ _ (commit_prefix_sim _ _)) in Hc.
    by eapply commit_law.
  - intros * Hc. apply (call_sim_inv phi _ _ _ _ _ finish_sim) in Hc. by eapply finish_law.
Qed.

Lemma decorated_unsigned {W W'} `{!RoundBackend W} `{!RoundBackend W'} (phi : W' -> W)
    `{!BackendMorphism phi} : UnsignedCounts W -> UnsignedCounts W'.
Proof.
  intros Hu. split.
  - intros * Hc. apply (call_sim_inv phi _ _ _ _ _ (propose_bounded_sim _ _ _ _)) in Hc.
    by eapply propose_bounded_unsigned.
  - intros * Hc. apply (call_sim_inv phi _ _ _ _ _ (propose_eos_bounded_sim _ _ _ _ _ _)) in Hc.
    by eapply propose_eos_bounded_unsigned.
Qed.

(** The automaton counts: at [PRows n] exactly [n] tokens are out, and a
    finished round has published at least one. *)
Lemma run_protocol_counts es p :
  run_protocol true PIdle es = Some p ->
  let k := Z.of_nat (length (published es)) in
  match p with
  | PIdle | POpen | PProposed => k = 0
  | PRows n => k = n
  | PPending n _ => k = n - 1
  | PFinished => 0 < k
  | PFailed | PAborted => True
  end.
Proof.
  revert p. induction es as [|e es IH] using rev_ind; intros p Hp; [by injection Hp as <-|].
  rewrite run_protocol_snoc in Hp. destruct (run_protocol true PIdle es) as [q|]; [|done].
  specialize (IH q eq_refl). simpl in Hp, IH. rewrite published_app, length_app.
  destruct q, e; simplify_eq/=; repeat case_match; simplify_eq/=; bools; try done; lia.
Qed.

Lemma run_round_emits {W} `{!RoundBackend W} `{!UnsignedCounts W}
    options (f : Z -> W -> bool * W) null w r w' :
  0 <= remaining_output options ->
  run_round options (Some f) null w = (r, w') -> result_ok r = true -> emitted r <> [].
Proof.
  intros Hrem Hrun Hok.
  destruct (run_round options (Logged.observer (Some f)) null (w, [])) as [r1 [w1 log]] eqn:Hlog.
  pose proof (run_round_sim (fst : @Logged.world W -> W) options _ _
    (Logged.logged_observer_sim (Some f)) null (w, [])) as [Hr Hw].
  rewrite Hlog in Hr, Hw. simpl in Hr, Hw. rewrite Hrun in Hr, Hw. simpl in Hr, Hw. subst r1 w1.
  pose proof (run_round_trace options (Some f) null w r w' log Hrem Hlog) as Htr.
  simpl in Htr. destruct (round_rejected options (Some f) null).
  { destruct Htr as [-> _]. discriminate. }
  rewrite Hok in Htr. destruct Htr as [Hp <-].
  apply run_protocol_counts in Hp. destruct (published log); [done|discriminate].
Qed.
