(* ===== verification/Generation.v ===== *)
(** * Generation: the transcript types of the engine

    The data exchanged between the runner, the generation controller and the
    speculative service: include/q3x/runtime/reference_runner.h and
    reference_engine.h.  Times are the source's doubles, modelled by primitive
    binary64 floats. *)

From Stdlib Require Import Floats.
From S2P Require Import Prelude MtpControl.

Definition kReferenceVocabularySize : Z := 248320.
Definition kQwen36ImEndTokenId : Z := 248046.

Inductive ReferenceRunnerError :=
  | kNone | kInvalidDependency | kInvalidModelWeights | kInvalidRequestState
  | kInvalidLayerSchedule | kCudaFailure | kAllocationFailure | kInvalidRunner
  | kPoisoned | kTokenOutOfRange | kCapacityExceeded | kTraceUnavailable
  | kNonFiniteLogits | kStateCommitFailure | kInvalidStepOptions
  | kRouteEvidenceFailure | kCancelled.

#[global] Instance ReferenceRunnerError_eq_dec : EqDecision ReferenceRunnerError.
Proof. solve_decision. Defined.

(** [layer], [operation] and [retired_prefill_quanta] are diagnostics and take
    no part in [ok]. *)
Record ReferenceRunnerStatus := { error : ReferenceRunnerError; cuda_error : Z }.

Definition status_ok (s : ReferenceRunnerStatus) : bool :=
  bool_decide (error s = kNone) && (cuda_error s =? 0).

Definition ok_status : ReferenceRunnerStatus := {| error := kNone; cuda_error := 0 |}.

Inductive ReferenceStopReason := kImEnd | kMaxNewTokens | kStopCancelled.

Inductive ReferenceLogitsMode := kFullStatistics | kPredictedTokenOnly.

(** [chosen_logit] is a binary32, held exactly by a binary64. *)
Record ReferenceStepLogits := {
  logits_predicted_token_id : Z;
  chosen_logit : float;
  max_log_probability : float;
  logsumexp : float
}.

Record ReferenceStepResult := {
  position : Z;
  input_token_id : Z;
  logits : option ReferenceStepLogits;
  timing_ms : option float;
  prediction : option Z
}.

Record ReferenceGenerationTiming := {
  prefix_execution_milliseconds : list float;
  finish_prefill_milliseconds : float;
  prompt_prefill_milliseconds : float;
  time_to_first_token_milliseconds : float;
  subsequent_token_milliseconds : list float;
  decode_after_first_milliseconds : float;
  total_generation_milliseconds : float;
  commit_prefill_milliseconds : float
}.

Definition zero_timing : ReferenceGenerationTiming := {|
  prefix_execution_milliseconds := []; finish_prefill_milliseconds := 0;
  prompt_prefill_milliseconds := 0; time_to_first_token_milliseconds := 0;
  subsequent_token_milliseconds := []; decode_after_first_milliseconds := 0;
  total_generation_milliseconds := 0; commit_prefill_milliseconds := 0 |}%float.

Definition with_prefix_timing (executions : list float) (total : float)
    (t : ReferenceGenerationTiming) : ReferenceGenerationTiming := {|
  prefix_execution_milliseconds := executions;
  finish_prefill_milliseconds := finish_prefill_milliseconds t;
  prompt_prefill_milliseconds := total;
  time_to_first_token_milliseconds := time_to_first_token_milliseconds t;
  subsequent_token_milliseconds := subsequent_token_milliseconds t;
  decode_after_first_milliseconds := decode_after_first_milliseconds t;
  total_generation_milliseconds := total_generation_milliseconds t;
  commit_prefill_milliseconds := commit_prefill_milliseconds t |}.

Definition with_finish_timing (elapsed total : float)
    (t : ReferenceGenerationTiming) : ReferenceGenerationTiming := {|
  prefix_execution_milliseconds := prefix_execution_milliseconds t;
  finish_prefill_milliseconds := elapsed;
  prompt_prefill_milliseconds := total;
  time_to_first_token_milliseconds := time_to_first_token_milliseconds t;
  subsequent_token_milliseconds := subsequent_token_milliseconds t;
  decode_after_first_milliseconds := decode_after_first_milliseconds t;
  total_generation_milliseconds := total_generation_milliseconds t;
  commit_prefill_milliseconds := commit_prefill_milliseconds t |}.

Definition with_first_token_timing (first total : float)
    (t : ReferenceGenerationTiming) : ReferenceGenerationTiming := {|
  prefix_execution_milliseconds := prefix_execution_milliseconds t;
  finish_prefill_milliseconds := finish_prefill_milliseconds t;
  prompt_prefill_milliseconds := prompt_prefill_milliseconds t;
  time_to_first_token_milliseconds := first;
  subsequent_token_milliseconds := subsequent_token_milliseconds t;
  decode_after_first_milliseconds := decode_after_first_milliseconds t;
  total_generation_milliseconds := total;
  commit_prefill_milliseconds := commit_prefill_milliseconds t |}.

Definition with_decode_timing (tokens : list float) (decode total : float)
    (t : ReferenceGenerationTiming) : ReferenceGenerationTiming := {|
  prefix_execution_milliseconds := prefix_execution_milliseconds t;
  finish_prefill_milliseconds := finish_prefill_milliseconds t;
  prompt_prefill_milliseconds := prompt_prefill_milliseconds t;
  time_to_first_token_milliseconds := time_to_first_token_milliseconds t;
  subsequent_token_milliseconds := tokens;
  decode_after_first_milliseconds := decode;
  total_generation_milliseconds := total;
  commit_prefill_milliseconds := commit_prefill_milliseconds t |}.

Inductive ReferencePrefillExecutionMode := kLegacyC512Tiled | kWholeRequestLayerMajor.

Record GenerationControl := {
  generated_token_ids : list Z;
  steps : list ReferenceStepResult;
  stop_reason : ReferenceStopReason;
  timing : ReferenceGenerationTiming;
  prefill_execution_mode : ReferencePrefillExecutionMode;
  prefill_logical_panel_count : Z;
  prefill_route_layer_pass_count : Z
}.

Definition empty_control : GenerationControl := {|
  generated_token_ids := []; steps := []; stop_reason := kMaxNewTokens;
  timing := zero_timing; prefill_execution_mode := kLegacyC512Tiled;
  prefill_logical_panel_count := 0; prefill_route_layer_pass_count := 0 |}.

Definition with_stop_reason (s : ReferenceStopReason) (c : GenerationControl)
    : GenerationControl := {|
  generated_token_ids := generated_token_ids c; steps := steps c;
  stop_reason := s; timing := timing c;
  prefill_execution_mode := prefill_execution_mode c;
  prefill_logical_panel_count := prefill_logical_panel_count c;
  prefill_route_layer_pass_count := prefill_route_layer_pass_count c |}.

Definition with_timing (t : ReferenceGenerationTiming) (c : GenerationControl)
    : GenerationControl := {|
  generated_token_ids := generated_token_ids c; steps := steps c;
  stop_reason := stop_reason c; timing := t;
  prefill_execution_mode := prefill_execution_mode c;
  prefill_logical_panel_count := prefill_logical_panel_count c;
  prefill_route_layer_pass_count := prefill_route_layer_pass_count c |}.

Definition with_steps (l : list ReferenceStepResult) (c : GenerationControl)
    : GenerationControl := {|
  generated_token_ids := generated_token_ids c; steps := l;
  stop_reason := stop_reason c; timing := timing c;
  prefill_execution_mode := prefill_execution_mode c;
  prefill_logical_panel_count := prefill_logical_panel_count c;
  prefill_route_layer_pass_count := prefill_route_layer_pass_count c |}.

Definition push_token (t : Z) (c : GenerationControl) : GenerationControl := {|
  generated_token_ids := generated_token_ids c ++ [t]; steps := steps c;
  stop_reason := stop_reason c; timing := timing c;
  prefill_execution_mode := prefill_execution_mode c;
  prefill_logical_panel_count := prefill_logical_panel_count c;
  prefill_route_layer_pass_count := prefill_route_layer_pass_count c |}.

Definition with_route (mode : ReferencePrefillExecutionMode) (panels passes : Z)
    (c : GenerationControl) : GenerationControl := {|
  generated_token_ids := generated_token_ids c; steps := steps c;
  stop_reason := stop_reason c; timing := timing c;
  prefill_execution_mode := mode; prefill_logical_panel_count := panels;
  prefill_route_layer_pass_count := passes |}.

(** [duration<double, std::milli>] of a tick count in nanoseconds. *)
Definition milliseconds (nanoseconds : Z) : float :=
  (SF2Prim (binary_normalize 53 1024 nanoseconds 0 false) / 1000000)%float.

(** [std::vector::back]. *)
Definition back (l : list Z) : Z := default 0 (last l).

Definition generated_text_token_count (generated : list Z)
    (reason : ReferenceStopReason) (stop : Z) : Z :=
  match reason with
  | kImEnd =>
      if negb (bool_decide (generated = [])) && (back generated =? stop)
      then Z.of_nat (length generated) - 1 else Z.of_nat (length generated)
  | _ => Z.of_nat (length generated)
  end.

(** Greedy decoding that ends after the stop token: what a generation of at
    most [n] tokens means for a target model [argmax]. *)
Fixpoint greedy_until (argmax : list Z -> Z) (stop : Z) (ctx : list Z) (n : nat) : list Z :=
  match n with
  | O => []
  | S n => let t := argmax ctx in
           t :: if t =? stop then [] else greedy_until argmax stop (ctx ++ [t]) n
  end.

(** ** Greedy decoding, token by token and until the stop token *)

Lemma greedy_until_app argmax stop ctx k n :
  let l := greedy argmax ctx (S k) in
  (forall i t, l !! i = Some t -> (i < k)%nat -> t <> stop) ->
  greedy_until argmax stop ctx (S k + n) =
  l ++ if bool_decide (last l = Some stop) then [] else greedy_until argmax stop (ctx ++ l) n.
Proof.
  revert ctx. induction k as [|k IH]; intros ctx l Hl.
  - subst l. simpl. f_equal. destruct (Z.eqb_spec (argmax ctx) stop) as [->|Hne].
    + by rewrite bool_decide_true.
    + rewrite bool_decide_false; congruence.
  - set (l' := greedy argmax (ctx ++ [argmax ctx]) (S k)).
    assert (Hl' : l = argmax ctx :: l') by done.
    assert (Hne : argmax ctx <> stop) by (apply (Hl 0%nat); [done|lia]).
    change (greedy_until argmax stop ctx (S (S k) + n)) with
      (argmax ctx :: if argmax ctx =? stop then []
                     else greedy_until argmax stop (ctx ++ [argmax ctx]) (S k + n)).
    rewrite (proj2 (Z.eqb_neq _ _) Hne), (IH (ctx ++ [argmax ctx])); fold l'.
    + rewrite Hl', <- app_assoc. destruct l' as [|x l'']; [done|]. done.
    + intros i t Hi Hlt. apply (Hl (S i)); [by rewrite Hl'|lia].
Qed.

Lemma length_greedy_until argmax stop ctx n :
  (length (greedy_until argmax stop ctx n) <= n)%nat.
Proof.
  revert ctx. induction n as [|n IH]; intros ctx; simpl; [lia|].
  case_match; simpl; [lia|]. specialize (IH (ctx ++ [argmax ctx])). lia.
Qed.

(** Tokens chosen greedily, the stop token last if at all, are what the
    reference generates; all of it when they end with it or fill the budget. *)
Lemma greedy_until_intro argmax stop ctx g n :
  (forall j t, g !! j = Some t -> t = argmax (ctx ++ take j g)) ->
  (forall j t, g !! j = Some t -> (S j < length g)%nat -> t <> stop) ->
  (length g <= n)%nat ->
  g `prefix_of` greedy_until argmax stop ctx n /\
  (last g = Some stop \/ length g = n -> g = greedy_until argmax stop ctx n).
Proof.
  intros Hg Hs Hn.
  assert (He : g = greedy argmax ctx (length g)).
  { apply greedy_intro. intros i Hi. destruct (g !! i) as [t|] eqn:E.
    - f_equal. by apply Hg.
    - apply lookup_ge_None in E. lia. }
  destruct (length g) as [|k] eqn:Hk.
  { apply nil_length_inv in Hk as ->. split; [apply prefix_nil|].
    intros [Hx|Hx]; [done|]. simpl in Hx. by subst n. }
  assert (Hu : greedy_until argmax stop ctx n =
    g ++ if bool_decide (last g = Some stop) then []
         else greedy_until argmax stop (ctx ++ g) (n - S k)).
  { pose proof (greedy_until_app argmax stop ctx k (n - S k)) as Happ. cbv zeta in Happ.
    rewrite <- He in Happ. replace (S k + (n - S k))%nat with n in Happ by lia.
    apply Happ. intros i t Hi Hlt. apply (Hs i t Hi). lia. }
  rewrite Hu. split; [by apply prefix_app_r|]. intros [Hl|Hl].
  - rewrite bool_decide_true by done. by rewrite app_nil_r.
  - replace (n - S k)%nat with 0%nat by lia. simpl. destruct (bool_decide _); by rewrite app_nil_r.
Qed.
