(* ===== verification/MtpService.v ===== *)
(** * MtpService: speculative decoding of a request
      (src/runtime/mtp_service_internal.cpp)

    [Service::decode] repeats rounds of MtpControl until the request's budget,
    the stop token or a cancellation ends it.  Its world is the backend's world
    [W] together with the service's own state: a clock, the timestamp of the
    last emitted token, the report and the generation transcript that the
    observer of the rounds appends to. *)

From Stdlib Require Import Floats.
From S2P Require Import Prelude MtpControl Generation.
Local Open Scope flow_scope.

(** The counters that decoding keeps; the fields that only [initialize] writes
    (draft_length, prompt_rows, draft_rows, initialization_ms, initialized) are
    left out. *)
Record ServiceReport := {
  proposal_histogram : list Z;
  requested_budget_histogram : list Z;
  rounds : Z;
  eos_frontier_stops : Z;
  proposed : Z;
  accepted : Z;
  verified : Z;
  committed : Z;
  accepted_by_position : list Z;
  draft_ms : float;
  verify_ms : float;
  reconcile_ms : float;
  cancelled : bool;
  failed : bool
}.

(** A value-initialized report, as [reset_report] installs. *)
Definition fresh_report : ServiceReport := {|
  proposal_histogram := [0; 0; 0; 0]; requested_budget_histogram := [0; 0; 0; 0];
  rounds := 0; eos_frontier_stops := 0; proposed := 0; accepted := 0; verified := 0;
  committed := 0; accepted_by_position := [0; 0; 0];
  draft_ms := 0%float; verify_ms := 0%float; reconcile_ms := 0%float;
  cancelled := false; failed := false |}.

(** [failure]. *)
Definition failure (was_cancelled : bool) : ReferenceRunnerStatus :=
  {| error := if was_cancelled then kCancelled else kPoisoned; cuda_error := 0 |}.

Record DecodeOptions (W : Type) := {
  max_new_tokens : Z;
  stop_token_id : Z;
  committed_token : option (Z -> Z -> float -> W -> bool * W)
}.
Arguments max_new_tokens {W}.
Arguments stop_token_id {W}.
Arguments committed_token {W}.

Record Svc (W : Type) := {
  inner : W;
  ticks : nat;
  last_emit : Z;
  report : ServiceReport;
  control : GenerationControl
}.
Arguments inner {W}.
Arguments ticks {W}.
Arguments last_emit {W}.
Arguments report {W}.
Arguments control {W}.

(** ** Updates of the service state *)

Definition with_inner {W} (w : W) (s : Svc W) : Svc W := {|
  inner := w; ticks := ticks s; last_emit := last_emit s;
  report := report s; control := control s |}.

Definition with_report {W} (r : ServiceReport) (s : Svc W) : Svc W := {|
  inner := inner s; ticks := ticks s; last_emit := last_emit s;
  report := r; control := control s |}.

Definition with_control {W} (c : GenerationControl) (s : Svc W) : Svc W := {|
  inner := inner s; ticks := ticks s; last_emit := last_emit s;
  report := report s; control := c |}.

Definition with_last_emit {W} (t : Z) (s : Svc W) : Svc W := {|
  inner := inner s; ticks := ticks s; last_emit := t;
  report := report s; control := control s |}.

Definition with_phase_ms (d v c : float) (r : ServiceReport) : ServiceReport := {|
  proposal_histogram := proposal_histogram r;
  requested_budget_histogram := requested_budget_histogram r;
  rounds := rounds r; eos_frontier_stops := eos_frontier_stops r;
  proposed := proposed r; accepted := accepted r; verified := verified r;
  committed := committed r; accepted_by_position := accepted_by_position r;
  draft_ms := d; verify_ms := v; reconcile_ms := c;
  cancelled := cancelled r; failed := failed r |}.

Definition add_draft_ms (ms : float) (r : ServiceReport) : ServiceReport :=
  with_phase_ms (draft_ms r + ms)%float (verify_ms r) (reconcile_ms r) r.
Definition add_verify_ms (ms : float) (r : ServiceReport) : ServiceReport :=
  with_phase_ms (draft_ms r) (verify_ms r + ms)%float (reconcile_ms r) r.
Definition add_reconcile_ms (ms : float) (r : ServiceReport) : ServiceReport :=
  with_phase_ms (draft_ms r) (verify_ms r) (reconcile_ms r + ms)%float r.

Definition with_flags (was_cancelled has_failed : bool) (r : ServiceReport) : ServiceReport := {|
  proposal_histogram := proposal_histogram r;
  requested_budget_histogram := requested_budget_histogram r;
  rounds := rounds r; eos_frontier_stops := eos_frontier_stops r;
  proposed := proposed r; accepted := accepted r; verified := verified r;
  committed := committed r; accepted_by_position := accepted_by_position r;
  draft_ms := draft_ms r; verify_ms := verify_ms r; reconcile_ms := reconcile_ms r;
  cancelled := was_cancelled; failed := has_failed |}.

Definition with_committed (n : Z) (r : ServiceReport) : ServiceReport := {|
  proposal_histogram := proposal_histogram r;
  requested_budget_histogram := requested_budget_histogram r;
  rounds := rounds r; eos_frontier_stops := eos_frontier_stops r;
  proposed := proposed r; accepted := accepted r; verified := verified r;
  committed := n; accepted_by_position := accepted_by_position r;
  draft_ms := draft_ms r; verify_ms := verify_ms r; reconcile_ms := reconcile_ms r;
  cancelled := cancelled r; failed := failed r |}.

(** [++histogram[i]] on 64-bit and 32-bit counters. *)
Definition bump64 (i : Z) (l : list Z) : list Z := set_at i (u64 (at_ l i + 1)) l.
Definition bump32 (i : Z) (l : list Z) : list Z := set_at i (u32 (at_ l i + 1)) l.

(** [for i in 0 .. n-1: ++accepted_by_position[i]]. *)
Fixpoint bump_positions (n : nat) (i : Z) (l : list Z) : list Z :=
  match n with
  | O => l
  | S n => bump_positions n (i + 1) (bump32 i l)
  end.

Definition with_budget (length : Z) (r : ServiceReport) : ServiceReport := {|
  proposal_histogram := proposal_histogram r;
  requested_budget_histogram := bump64 length (requested_budget_histogram r);
  rounds := rounds r; eos_frontier_stops := eos_frontier_stops r;
  proposed := proposed r; accepted := accepted r; verified := verified r;
  committed := committed r; accepted_by_position := accepted_by_position r;
  draft_ms := draft_ms r; verify_ms := verify_ms r; reconcile_ms := reconcile_ms r;
  cancelled := cancelled r; failed := failed r |}.

(** Lines 144-148: the counters of a finished round. *)
Definition account (result : RoundResult) (r : ServiceReport) : ServiceReport := {|
  proposal_histogram :=
    if result_ok result then bump64 (proposed_tokens result) (proposal_histogram r)
    else proposal_histogram r;
  requested_budget_histogram := requested_budget_histogram r;
  rounds := u32 (rounds r + 1);
  eos_frontier_stops := u32 (eos_frontier_stops r + if eos_frontier_stopped result then 1 else 0);
  proposed := u32 (proposed r + proposed_tokens result);
  accepted := u32 (accepted r + accepted_tokens result);
  verified := u32 (verified r + verified_rows result);
  committed := committed r;
  accepted_by_position :=
    bump_positions (Z.to_nat (accepted_tokens result)) 0 (accepted_by_position r);
  draft_ms := draft_ms r; verify_ms := verify_ms r; reconcile_ms := reconcile_ms r;
  cancelled := cancelled r; failed := failed r |}.

Section Service.
Context {W : Type} `{!RoundBackend W}.
(** Readings of the steady clock, in nanoseconds. *)
Variable clock : nat -> Z.
(** The request state's committed length, as the backend's world shows it. *)
Variable current_position : W -> Z.
Variable max_sequence_length : Z.
(** The compiled or configured draft length. *)
Variable length_ : Z.
Variable cancel : option (W -> bool * W).
Variable options : DecodeOptions W.

Abbreviation svc := (Svc W).

Definition now (s : svc) : Z * svc :=
  (clock (ticks s),
   {| inner := inner s; ticks := S (ticks s); last_emit := last_emit s;
      report := report s; control := control s |}).

(** A call on the inner world. *)
Definition lift {A} (m : W -> A * W) (s : svc) : A * svc :=
  let '(a, w') := m (inner s) in (a, with_inner w' s).

(** [TimedBackend]: the call is bracketed by two clock readings and its
    duration charged to one of the report's counters. *)
Definition timed {A} (charge : float -> ServiceReport -> ServiceReport)
    (m : W -> A * W) (s : svc) : A * svc :=
  let '(start, s) := now s in
  let '(a, s) := lift m s in
  let '(stop, s) := now s in
  (a, with_report (charge (milliseconds (stop - start)) (report s)) s).

#[local] Instance TimedBackend : RoundBackend svc := {|
  begin rows := lift (begin rows);
  propose seed count ids := timed add_draft_ms (propose seed count ids);
  propose_bounded seed maximum ids actual :=
    timed add_draft_ms (propose_bounded seed maximum ids actual);
  propose_eos_bounded seed maximum stop ids actual stopped :=
    timed add_draft_ms (propose_eos_bounded seed maximum stop ids actual stopped);
  verify seed ids count predictions := timed add_verify_ms (verify seed ids count predictions);
  commit_prefix rows pending := timed add_reconcile_ms (commit_prefix rows pending);
  finish := lift finish;
  abort := lift abort |}.

(** [Observer::emit], lines 107-127. *)
Definition emit (token : Z) (s : svc) : bool * svc :=
  let '(t, s) := now s in
  let ms := milliseconds (t - last_emit s) in
  let s := with_last_emit t s in
  let c := control s in
  let step := {|
    position := u32 (current_position (inner s) - 1);
    input_token_id := back (generated_token_ids c);
    logits := None; timing_ms := Some ms; prediction := Some token |} in
  let index := Z.of_nat (length (generated_token_ids c)) in
  let tm := timing c in
  let c := with_timing
    (with_decode_timing (subsequent_token_milliseconds tm ++ [ms])
       (decode_after_first_milliseconds tm + ms)
       (total_generation_milliseconds tm + ms) tm)%float
    (push_token token (with_steps (steps c ++ [step]) c)) in
  let s := with_report (with_committed (u32 (committed (report s) + 1)) (report s))
             (with_control c s) in
  match committed_token options with
  | None => (true, s)
  | Some f => lift (f token index ms) s
  end.

Definition cancel_requested (s : svc) : bool * svc :=
  match cancel with None => (false, s) | Some f => lift f s end.

Definition generated_count (s : svc) : Z := Z.of_nat (length (generated_token_ids (control s))).

(** Lines 134-142. *)
Definition round_options (s : svc) : RoundOptions :=
  let remaining := u32 (max_new_tokens options - generated_count s) in
  {| draft_length := output_tail_budget length_ remaining;
     seed_token := back (generated_token_ids (control s));
     remaining_output := remaining;
     available_target_rows := u32 (max_sequence_length - current_position (inner s));
     vocabulary_size := kReferenceVocabularySize;
     stop_token := stop_token_id options;
     confidence_lookahead := true;
     eos_frontier := true |}.

Definition stop_cancelled (s : svc) : svc :=
  with_report (with_flags true (failed (report s)) (report s))
    (with_control (with_stop_reason kStopCancelled (control s)) s).

Definition stop_im_end (s : svc) : svc :=
  with_control (with_stop_reason kImEnd (control s)) s.

(** Lines 130-154; [n] bounds the number of rounds. *)
Fixpoint decode_rounds (n : nat) : flow svc ReferenceRunnerStatus unit :=
  match n with
  | O => pass tt
  | S n =>
      size <~ gets generated_count;
      if negb (size <? max_new_tokens options) then pass tt else
      stop <~ call cancel_requested;
      if (stop : bool) then modify stop_cancelled else
      round <~ gets round_options;
      _ <~ modify (fun s => with_report (with_budget (draft_length round) (report s)) s);
      result <~ call (run_round round (Some emit) false);
      _ <~ modify (fun s => with_report (account result (report s)) s);
      if negb (result_ok result) then
        _ <~ modify (fun s => with_report (with_flags (cancelled (report s)) true (report s)) s);
        return_ (failure false)
      else if bool_decide (status result = kStop) then modify stop_im_end
      else if bool_decide (status result = MtpControl.kCancelled) then modify stop_cancelled
      else decode_rounds n
  end.

(** Enough for every run: a successful round emits a token. *)
Definition decode_fuel (s : svc) : nat :=
  S (Z.to_nat (max_new_tokens options - generated_count s)).

Definition final_timing (start stop : Z) (tm : ReferenceGenerationTiming)
    : ReferenceGenerationTiming :=
  let after := milliseconds (stop - start) in
  with_decode_timing (subsequent_token_milliseconds tm) after
    (prompt_prefill_milliseconds tm + after)%float tm.

(** [Service::decode]. *)
Definition decode_flow (fuel : nat) : flow svc ReferenceRunnerStatus ReferenceRunnerStatus :=
  start <~ call now;
  last <~ call now;
  _ <~ modify (with_last_emit last);
  _ <~ decode_rounds fuel;
  stop <~ call now;
  _ <~ modify (fun s => with_control (with_timing (final_timing start stop (timing (control s)))
                                        (control s)) s);
  return_ ok_status.

Definition decode (s : svc) : ReferenceRunnerStatus * svc :=
  body (decode_flow (decode_fuel s)) s.
End Service.

(** ** The decorated backend *)

Section TimedProofs.
Context {W : Type} `{!RoundBackend W}.
Variable clock : nat -> Z.
Variable current_position : W -> Z.
Variable options : DecodeOptions W.

Abbreviation svc := (Svc W).
Abbreviation timed_backend := (TimedBackend clock).

Lemma lift_sim {A} (m : W -> A * W) : call_sim inner (lift m) m.
Proof. intros s. unfold lift. by destruct (m (inner s)). Qed.

Lemma timed_sim {A} charge (m : W -> A * W) : call_sim inner (timed clock charge m) m.
Proof. intros s. unfold timed, lift. simpl. by destruct (m (inner s)). Qed.

#[local] Existing Instance TimedBackend.

#[export] Instance timed_morphism :
  BackendMorphism (H0 := timed_backend) (inner : svc -> W).
Proof. split; intros; first [apply lift_sim | apply timed_sim]. Qed.

Lemma lift_control {A} (m : W -> A * W) (P : GenerationControl -> Prop) :
  preserves (fun s : svc => P (control s)) (lift m).
Proof. intros s Hs. unfold lift. by destruct (m (inner s)). Qed.

Lemma timed_control {A} charge (m : W -> A * W) (P : GenerationControl -> Prop) :
  preserves (fun s : svc => P (control s)) (timed clock charge m).
Proof. intros s Hs. unfold timed, lift. simpl. by destruct (m (inner s)). Qed.

(** The transcript is the observer's alone. *)
#[export] Instance timed_control_inv (P : GenerationControl -> Prop) :
  BackendInvariant (H := timed_backend) (fun s : svc => P (control s)).
Proof. split; intros; first [apply lift_control | apply timed_control]. Qed.

Definition transcript (s : svc) : list Z := generated_token_ids (control s).

#[export] Instance timed_recording : Recording (H := timed_backend) transcript.
Proof. intros l. apply (timed_control_inv (fun c => generated_token_ids c = l)). Qed.

Abbreviation emit_ := (emit clock current_position options).

Lemma emit_transcript t s : transcript (snd (emit_ t s)) = transcript s ++ [t].
Proof.
  unfold emit, transcript. simpl. destruct (committed_token options) as [f|]; [|done].
  unfold lift. simpl. by destruct (f _ _ _ _).
Qed.

Lemma emit_stop_reason t s : stop_reason (control (snd (emit_ t s))) = stop_reason (control s).
Proof.
  unfold emit. simpl. destruct (committed_token options) as [f|]; [|done].
  unfold lift. simpl. by destruct (f _ _ _ _).
Qed.
End TimedProofs.

(** ** Decoding refines greedy decoding *)

Section Decode.
Context {W : Type} `{!RoundBackend W} (argmax : list Z -> Z) (view : W -> txn).
Context `{!RoundBackendLaws W argmax view, !UnsignedCounts W}.
Variable clock : nat -> Z.
Variable current_position : W -> Z.
Variables (max_sequence_length length_ : Z).
Variable cancel : option (W -> bool * W).
Variable options : DecodeOptions W.

(** The client's callbacks do not touch the target's state. *)
Record callbacks_neutral : Prop := {
  cancel_neutral f w : cancel = Some f -> view (snd (f w)) = view w;
  committed_neutral f t i ms w :
    committed_token options = Some f -> view (snd (f t i ms w)) = view w
}.
Hypothesis neutral : callbacks_neutral.

Abbreviation svc := (Svc W).
Abbreviation emit_ := (emit clock current_position options).
Abbreviation round_options_ := (round_options current_position max_sequence_length length_ options).
Abbreviation decode_rounds_ :=
  (decode_rounds clock current_position max_sequence_length length_ cancel options).
Abbreviation stop := (stop_token_id options).

(** One round, as the loop calls it. *)
Abbreviation run_round_ s0 :=
  (run_round (H := TimedBackend clock) (round_options_ s0) (Some emit_) false).

Definition target (s : svc) : txn := view (inner s).
(** Everything the target has consumed or will consume next. *)
Definition consumed (ctx : list Z) (s : svc) : list Z := ctx ++ [back (transcript s)].

Lemma emit_neutral : observer_neutral target (Some emit_).
Proof.
  intros f t s b s' [= <-] He. unfold emit in He. simpl in He.
  destruct (committed_token options) as [f|] eqn:Hf; [|by simplify_eq].
  unfold lift in He. simpl in He. destruct (f _ _ _ _) as [? w] eqn:E. simplify_eq.
  unfold target. simpl. pose proof (committed_neutral neutral f) as Hn.
  by rewrite <- (Hn t (Z.of_nat (length (generated_token_ids (control s))))
    (milliseconds (clock (ticks s) - last_emit s)) (inner s) Hf), E.
Qed.

#[local] Instance laws_timed : RoundBackendLaws (H := TimedBackend clock) svc argmax target.
Proof. exact (decorated_laws inner argmax view _). Qed.
#[local] Instance unsigned_timed : UnsignedCounts (H := TimedBackend clock) svc.
Proof. exact (decorated_unsigned (W' := svc) inner _). Qed.

Lemma back_app l x : back (l ++ [x]) = x.
Proof. unfold back. by rewrite last_snoc. Qed.

Lemma back_app_ne l1 l2 : l2 <> [] -> back (l1 ++ l2) = back l2.
Proof. destruct l2 as [|x l2 _] using rev_ind; [done|]. by rewrite app_assoc, !back_app. Qed.

(** One round of the loop. *)
Record round_step (ctx : list Z) (s : svc) (r : RoundResult) (s' : svc) : Prop := {
  rs_transcript : transcript s' = transcript s ++ emitted r;
  rs_greedy : exists k, emitted r = greedy argmax (consumed ctx s) (S k) /\
    Z.of_nat (S k) = output_count r /\
    Z.of_nat (S k) <= max_new_tokens options - Z.of_nat (length (transcript s));
  rs_target : exists ctx', target s' = Idle ctx' /\
    consumed ctx' s' = consumed ctx s ++ emitted r;
  rs_ended : round_ended (round_options_ s) r;
  rs_reason : stop_reason (control s') = stop_reason (control s)
}.

Lemma run_round_step ctx s r s' :
  Z.of_nat (length (transcript s)) < max_new_tokens options ->
  target s = Idle ctx ->
  run_round_ s s = (r, s') -> result_ok r = true ->
  round_step ctx s r s'.
Proof.
  intros Hlt Hv Hrun Hok.
  assert (Hrem : 0 <= remaining_output (round_options_ s)) by apply u32_range.
  assert (Hle : remaining_output (round_options_ s)
                <= max_new_tokens options - Z.of_nat (length (transcript s))).
  { apply Z.mod_le; unfold transcript, generated_count in *; lia. }
  pose proof (run_round_post argmax target _ _ emit_neutral _ _ _ _ _ Hv Hrem Hrun Hok) as Hp.
  pose proof (run_round_recorded transcript _ _ _ _ _ _
    (emit_transcript _ _ _) Hrem Hrun Hok) as Hrec.
  apply round_post_ended in Hp as Hend. apply round_post_tokens in Hp as Htok; destruct Htok as [Hem Hv'].
  destruct Hp as (? & ? & ? & ? & _ & _ & Hk & _).
  destruct (Z.to_nat (output_count r)) as [|k] eqn:Ek; [lia|].
  split; [done| | |done|].
  - exists k. split_and!; [exact Hem|lia|lia].
  - exists (ctx ++ seed_token (round_options_ s) :: take (S k - 1) (emitted r)).
    split; [done|]. unfold consumed. rewrite Hrec.
    assert (Hl : length (emitted r) = S k) by (rewrite Hem; apply length_greedy).
    destruct (emitted r) as [|t e _] using rev_ind; [done|].
    rewrite length_app in Hl. simpl in Hl. rewrite app_assoc, back_app.
    replace (S k - 1)%nat with (length e) by lia. rewrite take_app_length.
    rewrite <- !app_assoc. done.
  - assert (Hinv : preserves (fun s0 : svc => stop_reason (control s0) = stop_reason (control s))
                     (run_round_ s)).
    { apply (run_round_preserves (RoundBackend0 := TimedBackend clock)).
      - apply (timed_control_inv clock (fun c => stop_reason c = stop_reason (control s))).
      - intros f t [= <-] s0 Hs0. by rewrite emit_stop_reason. }
    specialize (Hinv s eq_refl). by rewrite Hrun in Hinv.
Qed.

(** What decoding from [s] promises of the final state, [base] being the
    consumed tokens of the start and [n] the remaining budget. *)
Definition decoded (base gen : list Z) (n : nat) (s' : svc) : Prop :=
  let reference := greedy_until argmax stop base n in
  exists out ctx',
    transcript s' = gen ++ out /\ out `prefix_of` reference /\
    target s' = Idle ctx' /\ consumed ctx' s' = base ++ out /\
    match stop_reason (control s') with
    | kImEnd => out = reference /\ last out = Some stop
    | kMaxNewTokens => out = reference /\ last out <> Some stop
    | kStopCancelled => True
    end.

Definition room (s : svc) : nat :=
  Z.to_nat (max_new_tokens options - Z.of_nat (length (transcript s))).

Lemma decoded_cancelled base gen n s ctx out :
  transcript s = gen ++ out -> out `prefix_of` greedy_until argmax stop base n ->
  target s = Idle ctx -> consumed ctx s = base ++ out ->
  decoded base gen n (stop_cancelled s).
Proof. intros ? ? ? ?. by exists out, ctx. Qed.

(** The reference of a whole run splits at the end of its first round. *)
Lemma reference_round ctx s r s' :
  round_step ctx s r s' ->
  let base := consumed ctx s in
  greedy_until argmax stop base (room s) =
  emitted r ++ if bool_decide (last (emitted r) = Some stop) then []
               else greedy_until argmax stop (base ++ emitted r) (room s').
Proof.
  intros [Ht (k & He & Hk & Hle) _ (Hne & _) _]. simpl.
  assert (Hl : length (emitted r) = S k) by (rewrite He; apply length_greedy).
  replace (room s) with (S k + room s')%nat.
  - rewrite He. apply greedy_until_app. rewrite <- He. intros i t Hi Hlt.
    apply (Hne i t Hi). lia.
  - unfold room. rewrite Ht, length_app, Hl. lia.
Qed.

Lemma decoded_round ctx s r s1 s2 :
  round_step ctx s r s1 -> last (emitted r) <> Some stop ->
  decoded (consumed ctx s ++ emitted r) (transcript s1) (room s1) s2 ->
  decoded (consumed ctx s) (transcript s) (room s) s2.
Proof.
  intros Hr Hne (out & ctx' & Ht & Hp & Hv & Hc & Hreason).
  pose proof (reference_round _ _ _ _ Hr) as Href. simpl in Href.
  rewrite bool_decide_false in Href by done.
  exists (emitted r ++ out), ctx'. rewrite Href. split_and!; [| |done| |].
  - by rewrite Ht, (rs_transcript _ _ _ _ Hr), app_assoc.
  - by apply prefix_app.
  - by rewrite Hc, app_assoc.
  - assert (Hlast : last (emitted r ++ out) = Some stop <-> last out = Some stop).
    { destruct out as [|x out _] using rev_ind; [by rewrite app_nil_r|].
      by rewrite app_assoc, !last_snoc. }
    destruct (stop_reason (control s2)); [| |done]; destruct Hreason as [-> ?];
      by rewrite Hlast.
Qed.

Lemma room_round ctx s r s' : round_step ctx s r s' -> (room s' < room s)%nat.
Proof.
  intros [Ht (k & He & Hk & Hle) _ _ _]. unfold room. rewrite Ht, length_app, He, length_greedy. lia.
Qed.

Lemma stop_prefix ctx s r s' :
  round_step ctx s r s' -> emitted r `prefix_of` greedy_until argmax stop (consumed ctx s) (room s).
Proof. intros Hr. rewrite (reference_round _ _ _ _ Hr). by apply prefix_app_r. Qed.

Lemma cancel_requested_spec s b s1 :
  cancel_requested cancel s = (b, s1) ->
  control s1 = control s /\ target s1 = target s.
Proof.
  unfold cancel_requested, lift. destruct cancel as [f|] eqn:Hf; [|by intros [= <- <-]].
  destruct (f (inner s)) as [? w] eqn:E. intros [= <- <-]. split; [done|].
  unfold target. simpl. by rewrite <- (cancel_neutral neutral f (inner s) Hf), E.
Qed.

(** After a successful round the loop ends or goes on. *)
Lemma after_round ctx s r s' (next : flow svc ReferenceRunnerStatus unit) ret :
  round_step ctx s r s' -> result_ok r = true -> stop_reason (control s) = kMaxNewTokens ->
  (forall ctx', target s' = Idle ctx' -> consumed ctx' s' = consumed ctx s ++ emitted r ->
     wp next ret (fun _ s2 => decoded (consumed ctx s ++ emitted r) (transcript s') (room s') s2) s') ->
  wp (if bool_decide (status r = kStop) then modify stop_im_end
      else if bool_decide (status r = MtpControl.kCancelled) then modify stop_cancelled
      else next) ret
     (fun _ s2 => decoded (consumed ctx s) (transcript s) (room s) s2) s'.
Proof.
  intros Hr Hok Hs Hnext. pose proof (stop_prefix _ _ _ _ Hr) as Hp.
  pose proof (reference_round _ _ _ _ Hr) as Href. simpl in Href.
  pose proof Hr as [Ht _ (ctx' & Hv & Hc) (_ & Hstop & _) Hreason].
  assert (Hstop' : status r = kStop <-> last (emitted r) = Some stop) by exact Hstop.
  repeat wp_step;
    repeat match goal with
    | H : bool_decide _ = true |- _ => apply bool_decide_eq_true in H
    | H : bool_decide _ = false |- _ => apply bool_decide_eq_false in H
    end.
  - exists (emitted r), ctx'. split_and!; try done.
    apply Hstop' in Heqb. rewrite bool_decide_true, app_nil_r in Href by done. done.
  - by eapply (decoded_cancelled _ _ _ _ ctx' (emitted r)).
  - eapply wp_mono; [by eapply Hnext|done|].
    intros [] s2 Hd. eapply decoded_round; [done| |done]. tauto.
Qed.

Lemma decode_rounds_spec n s ctx :
  (room s < n)%nat -> target s = Idle ctx -> stop_reason (control s) = kMaxNewTokens ->
  wp (decode_rounds_ n) (fun st _ => status_ok st = false)
     (fun _ s' => decoded (consumed ctx s) (transcript s) (room s) s') s.
Proof.
  revert s ctx. induction n as [|n IH]; intros s ctx Hn Hv Hs; [lia|].
  cbn [decode_rounds]. wp_step. wp_step.
  wp_step.
  { wp_step. bools. exists [], ctx. rewrite !app_nil_r, Hs.
    assert (Hroom : room s = 0%nat) by (unfold room, transcript, generated_count in *; lia).
    rewrite Hroom. done. }
  bools. wp_step. wp_step. pose proof (cancel_requested_spec s a w' H) as [Hc1 Hv1].
  assert (Hcons : consumed ctx w' = consumed ctx s /\ transcript w' = transcript s /\ room w' = room s)
    by (unfold consumed, room, transcript; by rewrite Hc1).
  destruct Hcons as (Hcons & Htr & Hroom). rewrite <- Hcons, <- Htr, <- Hroom.
  wp_step.
  { wp_step.
    eapply (decoded_cancelled _ _ _ _ ctx []); rewrite ?app_nil_r; try done; [|congruence].
    apply prefix_nil. }
  wp_step. wp_step.
  wp_step. wp_step.
  set (s1 := with_report _ w'). wp_step. wp_step. rename a0 into r, w'0 into s2.
  wp_step. wp_step. wp_step.
  { by repeat wp_step. }
  bools. rename w' into s0. set (s3 := with_report _ s2).
  assert (Hr : round_step ctx s1 r s3).
  { assert (Hr : round_step ctx s1 r s2); [|by destruct Hr; split].
    apply run_round_step; [| |done|done].
    - change (transcript s1) with (transcript s0). rewrite Htr. done.
    - change (target s1) with (target s0). congruence. }
  eapply (after_round ctx s1 r s3); [done|done| |].
  - change (control s1) with (control s0). congruence.
  - intros ctx' Hv3 Hc3. change (consumed ctx s1) with (consumed ctx s0) in *.
    rewrite <- Hc3. apply room_round in Hr as Hlt. change (room s1) with (room s0) in Hlt.
    apply IH; [lia|done|].
    rewrite (rs_reason _ _ _ _ Hr). change (control s1) with (control s0). congruence.
Qed.

Lemma decode_greedy s ctx st s' :
  target s = Idle ctx -> stop_reason (control s) = kMaxNewTokens ->
  decode clock current_position max_sequence_length length_ cancel options s = (st, s') ->
  status_ok st = true -> decoded (consumed ctx s) (transcript s) (room s) s'.
Proof.
  intros Hv Hs Hrun. eapply (wp_body _ (fun st s2 => status_ok st = true -> _ s2)); [|exact Hrun].
  clear Hrun s' st. unfold decode_flow.
  do 2 (wp_step; apply wp_call; intros ? ? Hnow; injection Hnow as <- <-; cbv beta).
  do 3 wp_step.
  set (s1 := with_last_emit _ _).
  change (consumed ctx s) with (consumed ctx s1). change (transcript s) with (transcript s1).
  change (room s) with (room s1).
  eapply wp_mono; [apply decode_rounds_spec; [|done|done]| |].
  - unfold decode_fuel, room, generated_count, transcript. simpl. lia.
  - cbv beta. intros r w' Hr Hok. congruence.
  - cbv beta. intros _ s2 Hd. repeat wp_step. intros _. 
    match goal with H : now _ _ = _ |- _ => injection H as <- <- end. exact Hd.
Qed.
End Decode.

(** ** The loop ends *)

Section Termination.
Context {W : Type} `{!RoundBackend W} `{!UnsignedCounts W}.
Variable clock : nat -> Z.
Variable current_position : W -> Z.
Variables (max_sequence_length length_ : Z).
Variable cancel : option (W -> bool * W).
Variable options : DecodeOptions W.

Abbreviation svc := (Svc W).
Abbreviation room_ := (room options).
Abbreviation decode_rounds_ :=
  (decode_rounds clock current_position max_sequence_length length_ cancel options).
Abbreviation run_round_ s0 :=
  (run_round (H := TimedBackend clock)
     (round_options current_position max_sequence_length length_ options s0)
     (Some (emit clock current_position options)) false).

Lemma cancel_requested_control (s : svc) :
  control (snd (cancel_requested cancel s)) = control s.
Proof. unfold cancel_requested, lift. destruct cancel as [f|]; [|done]. by destruct (f _). Qed.

(** Every successful round uses up some of the budget. *)
Lemma round_progress s0 (s : svc) r s' :
  Z.of_nat (length (transcript s)) < max_new_tokens options ->
  run_round_ s0 s = (r, s') -> result_ok r = true -> (room_ s' < room_ s)%nat.
Proof.
  intros Hlt Hrun Hok.
  assert (Hrem : 0 <= remaining_output
    (round_options current_position max_sequence_length length_ options s0)) by apply u32_range.
  pose proof (decorated_unsigned (W' := svc) (RoundBackend1 := TimedBackend clock) (inner : svc -> W) _) as Hu.
  pose proof (run_round_emits (RoundBackend0 := TimedBackend clock) _ _ _ _ _ _ Hrem Hrun Hok) as He.
  pose proof (run_round_recorded (RoundBackend0 := TimedBackend clock) transcript _ _ _ _ _ _
    (emit_transcript _ _ _) Hrem Hrun Hok) as Ht.
  unfold room. rewrite Ht, length_app. destruct (emitted r); [done|]. simpl. lia.
Qed.

Lemma decode_rounds_fuel n m (s : svc) :
  (room_ s < n)%nat -> (room_ s < m)%nat -> decode_rounds_ n s = decode_rounds_ m s.
Proof.
  revert m s. induction n as [|n IH]; intros [|m] s Hn Hm; try lia.
  cbn [decode_rounds]. unfold fbind, gets, modify, call, pass, return_.
  destruct (negb _) eqn:Hsize; [done|]. bools.
  pose proof (cancel_requested_control s) as Hc.
  destruct (cancel_requested cancel s) as [b s0]. simpl in Hc. destruct b; [done|].
  set (s1 := with_report _ s0).
  assert (Hs1 : transcript s1 = transcript s) by (unfold transcript; cbn; by rewrite Hc).
  assert (Hr1 : room_ s1 = room_ s) by (unfold room; by rewrite Hs1).
  destruct (run_round_ s0 s1) as [r s2] eqn:Hrun.
  destruct (result_ok r) eqn:Hok; cbn [negb]; [|done].
  repeat case_match; try done. set (s3 := with_report _ s2).
  assert (Hlt : (room_ s3 < room_ s1)%nat).
  { change (room_ s3) with (room_ s2). eapply (round_progress s0 s1); [|done|done].
    rewrite Hs1. exact Hsize. }
  apply IH; lia.
Qed.

Lemma decode_flow_fuel n (s : svc) :
  (room_ s < n)%nat ->
  body (decode_flow clock current_position max_sequence_length length_ cancel options n) s =
  decode clock current_position max_sequence_length length_ cancel options s.
Proof.
  intros Hn. unfold decode, body, decode_flow, fbind, call, modify. simpl.
  rewrite (decode_rounds_fuel n (decode_fuel options s)); [done|exact Hn|].
  unfold decode_fuel, room, transcript, generated_count. simpl. lia.
Qed.
End Termination.

(** ** The books *)

(** [steps'] and [tokens'] extend [steps0] and [tokens0] by one entry per
    token: the step's prediction is the token, its input the token before. *)
Inductive appended (steps0 : list ReferenceStepResult) (tokens0 : list Z) :
    list ReferenceStepResult -> list Z -> nat -> Prop :=
  | appended_nil : appended steps0 tokens0 steps0 tokens0 0
  | appended_snoc steps' tokens' n step t :
      appended steps0 tokens0 steps' tokens' n ->
      input_token_id step = back tokens' -> prediction step = Some t -> logits step = None ->
      appended steps0 tokens0 (steps' ++ [step]) (tokens' ++ [t]) (S n).

Section Books.
Context {W : Type} `{!RoundBackend W}.
Variable clock : nat -> Z.
Variable current_position : W -> Z.
Variables (max_sequence_length length_ : Z).
Variable cancel : option (W -> bool * W).
Variable options : DecodeOptions W.
Variable s0 : Svc W.

(** What [s] has recorded since [s0]. *)
Definition books (s : Svc W) : Prop := exists n,
  appended (steps (control s0)) (transcript s0) (steps (control s)) (transcript s) n /\
  length (subsequent_token_milliseconds (timing (control s))) =
    (length (subsequent_token_milliseconds (timing (control s0))) + n)%nat /\
  committed (report s) = (if decide (n = 0%nat) then committed (report s0)
                          else u32 (committed (report s0) + Z.of_nat n)).

(** Updates of the other fields of the service. *)
Definition keeps_books (f : Svc W -> Svc W) : Prop :=
  forall s, steps (control (f s)) = steps (control s) /\ transcript (f s) = transcript s /\
    subsequent_token_milliseconds (timing (control (f s))) =
      subsequent_token_milliseconds (timing (control s)) /\
    committed (report (f s)) = committed (report s).

Lemma keeps_preserves f s : keeps_books f -> books s -> books (f s).
Proof. intros Hf (n & Hn). exists n. destruct (Hf s) as (-> & -> & -> & ->). exact Hn. Qed.

Lemma keeps_modify {R} f : keeps_books f -> preserves books (modify (R := R) f).
Proof. intros Hf. apply preserves_modify. intros s. by apply keeps_preserves. Qed.

Lemma keeps_now : preserves books (now clock).
Proof. intros s Hs. exact Hs. Qed.

Lemma keeps_lift {A} (m : W -> A * W) : preserves books (lift m).
Proof. intros s Hs. unfold lift. by destruct (m (inner s)). Qed.

Lemma keeps_timed {A} charge (m : W -> A * W) :
  (forall ms r, committed (charge ms r) = committed r) -> preserves books (timed clock charge m).
Proof.
  intros Hc s Hs. unfold timed, lift. simpl. destruct (m (inner s)). simpl.
  destruct Hs as (n & ? & ? & Hn). exists n. cbn. by rewrite Hc.
Qed.

#[local] Instance books_backend : BackendInvariant (H := TimedBackend clock) books.
Proof. split; intros; first [apply keeps_lift | by apply keeps_timed]. Qed.

Lemma keeps_emit t : preserves books (emit clock current_position options t).
Proof.
  intros s (n & Ha & Hl & Hc).
  assert (Hb : forall w, books (with_inner w (snd (emit clock current_position
     {| max_new_tokens := 0; stop_token_id := 0; committed_token := None |} t s)))).
  { intros w. exists (S n). cbn -[u32]. split_and!.
    - by constructor.
    - rewrite length_app, Hl. simpl. lia.
    - rewrite Hc. destruct (decide (n = 0%nat)) as [->|]; [done|].
      unfold u32. rewrite Zplus_mod_idemp_l. f_equal. lia. }
  unfold emit. simpl in *. destruct (committed_token options) as [f|].
  - unfold lift. cbn. destruct (f _ _ _ _) as [b w]. exact (Hb w).
  - exact (Hb (inner s)).
Qed.

Lemma keeps_decode_rounds n :
  preserves books (decode_rounds clock current_position max_sequence_length length_ cancel options n).
Proof.
  induction n as [|n IH]; cbn [decode_rounds]; [apply preserves_pass|].
  assert (Hcancel : preserves books (cancel_requested cancel)).
  { unfold cancel_requested. destruct cancel; [apply keeps_lift|by intros s]. }
  assert (Hround : forall o, preserves books
    (run_round (H := TimedBackend clock) o (Some (emit clock current_position options)) false)).
  { intros o. apply (run_round_preserves (RoundBackend0 := TimedBackend clock) books).
    intros f t [= <-]. apply keeps_emit. }
  repeat preserves_step; eauto with flow; by apply keeps_modify.
Qed.

Lemma decode_books :
  books (snd (decode clock current_position max_sequence_length length_ cancel options s0)).
Proof.
  unfold decode. apply (preserves_body books); [|].
  - unfold decode_flow. repeat preserves_step; eauto using keeps_now, keeps_decode_rounds with flow;
      by apply keeps_modify.
  - exists 0%nat. split_and!; [constructor|lia|done].
Qed.
End Books.

(** ** Properties of decoding *)

(** C3. Speculative decoding of a request is greedy decoding: when
    [Service::decode] returns an ok status, the generated tokens are a prefix
    of what the target model alone generates from the same tokens, up to and
    including the stop token and within the budget; they are all of it unless
    the client cancelled, [kImEnd] is reported exactly when the last of them is
    the stop token, and the target is left idle with every token but the
    pending one consumed. *)
Theorem decode_refines_greedy {W} `{!RoundBackend W} (argmax : list Z -> Z) (view : W -> txn)
    `{!RoundBackendLaws W argmax view, !UnsignedCounts W}
    clock current_position max_sequence_length length_ cancel options (s : Svc W) ctx st s' :
  callbacks_neutral view cancel options ->
  view (inner s) = Idle ctx ->
  stop_reason (control s) = kMaxNewTokens ->
  decode clock current_position max_sequence_length length_ cancel options s = (st, s') ->
  status_ok st = true ->
  let gen := generated_token_ids (control s) in
  let reference := greedy_until argmax (stop_token_id options) (ctx ++ [back gen])
                     (Z.to_nat (max_new_tokens options - Z.of_nat (length gen))) in
  exists out ctx',
    generated_token_ids (control s') = gen ++ out /\ out `prefix_of` reference /\
    view (inner s') = Idle ctx' /\
    ctx' ++ [back (gen ++ out)] = (ctx ++ [back gen]) ++ out /\
    match stop_reason (control s') with
    | kImEnd => out = reference /\ last out = Some (stop_token_id options)
    | kMaxNewTokens => out = reference /\ last out <> Some (stop_token_id options)
    | kStopCancelled => True
    end.
Proof.
  intros Hn Hv Hs Hrun Hok.
  pose proof (decode_greedy argmax view clock current_position max_sequence_length length_ cancel
    options Hn s ctx st s' Hv Hs Hrun Hok) as (out & ctx' & Ht & Hp & Hv' & Hc & Hr).
  exists out, ctx'. unfold consumed, transcript in *. rewrite Ht in Hc. split_and!; done.
Qed.

Definition sum_decode_options : DecodeOptions txn :=
  {| max_new_tokens := 9; stop_token_id := 22; committed_token := None |}.

Definition idle_length (w : txn) : Z :=
  match w with
  | Idle ctx | Begun ctx _ => Z.of_nat (length ctx)
  | Staged ctx _ n => Z.of_nat (length ctx) + n
  end.

Definition sum_service : Svc txn := {|
  inner := Idle [1; 2]; ticks := 0; last_emit := 0; report := fresh_report;
  control := push_token 4 empty_control |}.

Definition sum_decode : ReferenceRunnerStatus * Svc txn :=
  @decode txn (PureTarget.backend sum_argmax sum_drafter)
    (fun n => 1000000 * Z.of_nat n) idle_length 100 3 None sum_decode_options sum_service.

Lemma decode_refines_greedy_witness :
  generated_token_ids (control (snd sum_decode)) = [4; 7; 14; 5; 10; 20; 17; 11; 22] /\
  exists out, generated_token_ids (control (snd sum_decode)) = [4] ++ out /\
    out = greedy_until sum_argmax 22 [1; 2; 4] 8 /\ last out = Some 22.
Proof.
  split; [vm_compute; reflexivity|].
  destruct (@decode_refines_greedy txn (PureTarget.backend sum_argmax sum_drafter)
    sum_argmax id (PureTarget.laws sum_argmax sum_drafter) (PureTarget_unsigned sum_argmax sum_drafter)
    (fun n => 1000000 * Z.of_nat n) idle_length 100 3 None sum_decode_options sum_service [1; 2]
    (fst sum_decode) (snd sum_decode)) as (out & ctx' & Ht & _ & _ & _ & Hr).
  - split; intros; discriminate.
  - reflexivity.
  - reflexivity.
  - vm_compute. reflexivity.
  - vm_compute. reflexivity.
  - exists out. split; [exact Ht|].
    replace (stop_reason (control (snd sum_decode))) with kImEnd in Hr by (vm_compute; reflexivity).
    exact Hr.
Defined.

(** C4. The decode loop ends: on any backend, whatever its answers, a run that
    may take any larger number of rounds is the run that takes at most one
    round per token of the remaining budget and one more test, because every
    round that does not end the loop publishes a token. *)
Theorem decode_terminates {W} `{!RoundBackend W} `{!UnsignedCounts W}
    clock current_position max_sequence_length length_ cancel options n (s : Svc W) :
  (Z.to_nat (max_new_tokens options - generated_count s) < n)%nat ->
  body (decode_flow clock current_position max_sequence_length length_ cancel options n) s =
  decode clock current_position max_sequence_length length_ cancel options s.
Proof. intros Hn. by apply decode_flow_fuel. Qed.

Lemma decode_terminates_witness :
  fst (body (@decode_flow txn (PureTarget.backend sum_argmax sum_drafter)
         (fun n => 1000000 * Z.of_nat n) idle_length 100 3 None sum_decode_options 50)
       sum_service) = ok_status.
Proof.
  rewrite (@decode_terminates txn (PureTarget.backend sum_argmax sum_drafter)
    (PureTarget_unsigned sum_argmax sum_drafter)
    (fun n => 1000000 * Z.of_nat n) idle_length 100 3 None sum_decode_options 50 sum_service).
  - vm_compute. reflexivity.
  - apply Nat.ltb_lt. vm_compute. reflexivity.
Defined.

(** The transcript and the report agree however decoding ends, failures
    and cancellations included: one step per published token, whose prediction
    is the token and whose input is the token before it; one timing per token;
    and the 32-bit [committed] counter advanced by their number. *)
Theorem decode_keeps_books {W} `{!RoundBackend W}
    clock current_position max_sequence_length length_ cancel options (s : Svc W) :
  let s' := snd (decode clock current_position max_sequence_length length_ cancel options s) in
  exists n,
    appended (steps (control s)) (generated_token_ids (control s))
             (steps (control s')) (generated_token_ids (control s')) n /\
    length (subsequent_token_milliseconds (timing (control s'))) =
      (length (subsequent_token_milliseconds (timing (control s))) + n)%nat /\
    committed (report s') = (if decide (n = 0%nat) then committed (report s)
                             else u32 (committed (report s) + Z.of_nat n)).
Proof. apply decode_books. Qed.
