(* ===== verification/EngineControl.v ===== *)
(** * EngineControl: the generation state machine
      (src/runtime/reference_engine_control.cpp)

    [run_generation_control]: argument checks, prefill of the prompt by scalar
    steps or by tiles, the first token, and the ordinary decode loop.  The
    runner is reached only through the callbacks of the two plans, functions of
    the runner's world [W].

    The model is the controller built without the speculative service and
    called with [prefill_whole_request_layer_major = false]; the NVTX ranges
    have no effect on the result and memory is never exhausted. *)

From Stdlib Require Import Floats.
From S2P Require Import Prelude MtpControl Generation.
Local Open Scope flow_scope.

(** ** The prefill schedule *)

Definition kMaximumRequestPrefillChunkSize : Z := 512.
Definition kPrefillPhysicalSegmentMaximumTokens : Z := 512.
Definition kPrefillPhysicalSegmentM256Tokens : Z := 256.
Definition kPrefillPhysicalSegmentM64Tokens : Z := 64.
Definition kPrefillPhysicalSegmentM32Tokens : Z := 32.
Definition kPrefillPhysicalSegmentTailMaximumTokens : Z := 31.

Definition next_prefill_physical_segment_token_count (remaining : Z) : Z :=
  if kPrefillPhysicalSegmentMaximumTokens <=? remaining then kPrefillPhysicalSegmentMaximumTokens
  else if kPrefillPhysicalSegmentM256Tokens <=? remaining then kPrefillPhysicalSegmentM256Tokens
  else if kPrefillPhysicalSegmentM64Tokens <=? remaining then kPrefillPhysicalSegmentM64Tokens
  else if kPrefillPhysicalSegmentM32Tokens <=? remaining then kPrefillPhysicalSegmentM32Tokens
  else remaining.

Definition is_prefill_physical_segment_token_count (count : Z) : bool :=
  (count =? kPrefillPhysicalSegmentMaximumTokens)
  || (count =? kPrefillPhysicalSegmentM256Tokens)
  || (count =? kPrefillPhysicalSegmentM64Tokens)
  || (count =? kPrefillPhysicalSegmentM32Tokens)
  || (negb (count =? 0) && (count <=? kPrefillPhysicalSegmentTailMaximumTokens)).

Definition next_prefix_tile_token_count (remaining requested : Z) : Z :=
  if (remaining =? 0) || (requested =? 0) then 0
  else next_prefill_physical_segment_token_count
         (if remaining <? requested then remaining else requested).

(** The counting loop; [fuel] bounds its iterations. *)
Fixpoint count_tiles (fuel : nat) (remaining chunk count : Z) : Z :=
  match fuel with
  | O => count
  | S fuel =>
      if remaining =? 0 then count
      else count_tiles fuel (remaining - next_prefix_tile_token_count remaining chunk)
             chunk (count + 1)
  end.

Definition prefix_execution_count (prefix chunk : Z) : Z :=
  if chunk =? 0 then 0
  else if chunk =? 1 then prefix
  else count_tiles (Z.to_nat prefix) prefix chunk 0.

Definition next_single_arbitrary_prefix_tile_token_count (remaining requested : Z) : Z :=
  if (remaining =? 0) || (requested =? 0) then 0
  else if remaining <? requested then remaining else requested.

Definition single_arbitrary_prefix_execution_count (prefix chunk : Z) : Z :=
  if chunk =? 0 then 0
  else prefix / chunk + if negb (prefix mod chunk =? 0) then 1 else 0.

(** ** The callbacks *)

Inductive GenerationControlError :=
  | kNone | kInvalidArgument | kCapacityExceeded | kArithmeticOverflow
  | kRunnerFailure | kUnexpectedStep | kMissingLogits | kMissingTiming
  | kAllocationFailure | kMissingPrediction.

#[global] Instance GenerationControlError_eq_dec : EqDecision GenerationControlError.
Proof. solve_decision. Defined.

Record ReferenceStepOptions := {
  compute_logits : bool;
  step_capture_trace : bool;
  measure_timing : bool;
  step_logits_mode : ReferenceLogitsMode
}.

Record ReferenceStepOutcome := {
  step_value : option ReferenceStepResult;
  step_status : ReferenceRunnerStatus
}.

Definition step_outcome_ok (o : ReferenceStepOutcome) : bool :=
  bool_decide (is_Some (step_value o)) && status_ok (step_status o).

Record ReferencePrefillTileOptions := {
  tile_measure_timing : bool;
  retain_last_hidden_for_logits : bool
}.

(** [tile_steps] is the fixed array's content; its first [step_count] entries
    are the result. *)
Record ReferencePrefillTileResult := {
  tile_steps : list ReferenceStepResult;
  step_count : Z;
  tile_timing : option float
}.

Record ReferencePrefillTileOutcome := {
  tile_value : option ReferencePrefillTileResult;
  tile_status : ReferenceRunnerStatus
}.

Definition tile_outcome_ok (o : ReferencePrefillTileOutcome) : bool :=
  bool_decide (is_Some (tile_value o)) && status_ok (tile_status o).

Definition StepFunction (W : Type) : Type :=
  Z -> ReferenceStepOptions -> W -> ReferenceStepOutcome * W.
Definition PrefillTileFunction (W : Type) : Type :=
  list Z -> ReferencePrefillTileOptions -> W -> ReferencePrefillTileOutcome * W.
Definition CommittedTokenFunction (W : Type) : Type := Z -> Z -> float -> W -> bool * W.

(** [None] is the null function pointer. *)
Record PrefillPlan (W : Type) := {
  prefix_step : option (StepFunction W);
  finish_prefill : option (StepFunction W);
  prefix_tile : option (PrefillTileFunction W);
  finish_prefill_from_tile : option (StepFunction W)
}.
Arguments prefix_step {W}.
Arguments finish_prefill {W}.
Arguments prefix_tile {W}.
Arguments finish_prefill_from_tile {W}.

Record DecodePlan (W : Type) := { decode_step : option (StepFunction W) }.
Arguments decode_step {W}.

Record GenerationControlOptions (W : Type) := {
  max_new_tokens : Z;
  stop_token_id : Z;
  max_sequence_length : Z;
  prefill_chunk_size : Z;
  capture_trace : bool;
  logits_mode : ReferenceLogitsMode;
  prefill_all_prompt_tokens : bool;
  prefill_single_arbitrary_tile : bool;
  committed_token : option (CommittedTokenFunction W)
}.
Arguments max_new_tokens {W}.
Arguments stop_token_id {W}.
Arguments max_sequence_length {W}.
Arguments prefill_chunk_size {W}.
Arguments capture_trace {W}.
Arguments logits_mode {W}.
Arguments prefill_all_prompt_tokens {W}.
Arguments prefill_single_arbitrary_tile {W}.
Arguments committed_token {W}.

Record GenerationControlResult := {
  value : option GenerationControl;
  control_error : GenerationControlError;
  runner_status : ReferenceRunnerStatus
}.

Definition control_ok (r : GenerationControlResult) : bool :=
  bool_decide (is_Some (value r)) && bool_decide (control_error r = kNone).

Definition failure (e : GenerationControlError) (status : ReferenceRunnerStatus)
    : GenerationControlResult :=
  {| value := None; control_error := e; runner_status := status |}.

Definition checked_required_steps (prompt_tokens max_new : Z) : option Z :=
  let additional := u64 (max_new - 1) in
  if u64_max - prompt_tokens <? additional then None
  else Some (u64 (prompt_tokens + additional)).

Definition null {A} (o : option A) : bool := match o with None => true | Some _ => false end.

(** [!std::isfinite(x) || x < 0.0]. *)
Definition bad_duration (x : float) : bool :=
  negb (PrimFloat.is_finite x) || PrimFloat.ltb x 0.

Section Control.
Context {W : Type}.
Variable prompt_token_ids : list Z.
Variable options : GenerationControlOptions W.
Variable prefill_plan : PrefillPlan W.
Variable decode_plan : DecodePlan W.

Abbreviation prompt_size := (Z.of_nat (length prompt_token_ids)).

(** The argument checks before any callback runs. *)
Definition invalid_legacy_all_prompt_admission : bool :=
  prefill_all_prompt_tokens options
  && (capture_trace options || (prefill_chunk_size options <=? 1)
      || null (finish_prefill_from_tile prefill_plan)).

Definition invalid_arguments : bool :=
  bool_decide (prompt_token_ids = []) || (max_new_tokens options =? 0)
  || (max_sequence_length options =? 0)
  || null (prefix_step prefill_plan) || null (finish_prefill prefill_plan)
  || null (decode_step decode_plan)
  || (prefill_chunk_size options =? 0)
  || (kMaximumRequestPrefillChunkSize <? prefill_chunk_size options)
  || (kReferenceVocabularySize <=? stop_token_id options)
  || (prefill_single_arbitrary_tile options && negb (prefill_all_prompt_tokens options))
  || invalid_legacy_all_prompt_admission
  || existsb (fun token => kReferenceVocabularySize <=? token) prompt_token_ids.

Definition admission_error : option GenerationControlError :=
  if invalid_arguments then Some kInvalidArgument else
  match checked_required_steps prompt_size (max_new_tokens options) with
  | None => Some kArithmeticOverflow
  | Some required =>
      if max_sequence_length options <? required then Some kCapacityExceeded else None
  end.

(** ** The run *)

(** The runner's world and the transcript under construction. *)
Record St := { world : W; control : GenerationControl }.

Definition lift {A} (m : W -> A * W) (s : St) : A * St :=
  let '(a, w) := m (world s) in (a, {| world := w; control := control s |}).
Definition update (f : GenerationControl -> GenerationControl) (s : St) : St :=
  {| world := world s; control := f (control s) |}.

Abbreviation run A := (flow St GenerationControlResult A).

(** [commit_token]. *)
Definition commit_token (token : Z) (elapsed : float) (s : St) : bool * St :=
  let token_index := Z.of_nat (length (generated_token_ids (control s))) in
  let s := update (push_token token) s in
  match committed_token options with
  | None => (true, s)
  | Some f => lift (f token token_index elapsed) s
  end.

Record Executed := {
  exec_error : GenerationControlError;
  exec_elapsed : float;
  exec_predicted : Z;
  exec_status : ReferenceRunnerStatus
}.

(** What [execute] checks of a step it asked for, in the source's order. *)
Definition step_error (input expected : Z) (compute : bool) (step : ReferenceStepResult)
    : GenerationControlError :=
  if negb (position step =? u32 expected) || negb (input_token_id step =? input)
     || (negb compute && (negb (null (logits step)) || negb (null (prediction step))))
  then kUnexpectedStep else
  match timing_ms step with
  | None => kMissingTiming
  | Some elapsed =>
      let missing :=
        if compute then
          match logits_mode options with
          | kFullStatistics =>
              if negb (null (prediction step)) then kUnexpectedStep
              else if null (logits step) then kMissingLogits else kNone
          | kPredictedTokenOnly =>
              if negb (null (logits step)) then kUnexpectedStep
              else if null (prediction step) then kMissingPrediction else kNone
          end
        else kNone in
      if negb (bool_decide (missing = kNone)) then missing
      else if bad_duration elapsed then kUnexpectedStep
      else kNone
  end.

Definition step_prediction (step : ReferenceStepResult) : Z :=
  match logits_mode options with
  | kFullStatistics => default 0 (logits_predicted_token_id <$> logits step)
  | kPredictedTokenOnly => default 0 (prediction step)
  end.

(** The [execute] lambda: [predicted] and [status] are the current values of
    its out-parameters. *)
Definition execute (phase_step : StepFunction W) (input : Z) (compute : bool)
    (predicted : Z) (status : ReferenceRunnerStatus) (s : St) : Executed * St :=
  let step_options := {| compute_logits := compute; step_capture_trace := capture_trace options;
                         measure_timing := true; step_logits_mode := logits_mode options |} in
  let fails e elapsed p st := {| exec_error := e; exec_elapsed := elapsed;
                                 exec_predicted := p; exec_status := st |} in
  let '(outcome, s) := lift (phase_step input step_options) s in
  if negb (step_outcome_ok outcome) then (fails kRunnerFailure 0%float predicted (step_status outcome), s) else
  match step_value outcome with
  | None => (fails kRunnerFailure 0%float predicted status, s)
  | Some step =>
      let e := step_error input (Z.of_nat (length (steps (control s)))) compute step in
      let elapsed := default 0%float (timing_ms step) in
      if negb (bool_decide (e = kNone)) then (fails e elapsed predicted status, s) else
      let p := if compute then step_prediction step else predicted in
      if compute && (kReferenceVocabularySize <=? p)
      then (fails kUnexpectedStep elapsed p status, s)
      else (fails kNone elapsed p status,
            update (fun c => with_steps (steps c ++ [step]) c) s)
  end.

Definition fail_with {A} (e : GenerationControlError) (st : ReferenceRunnerStatus) : run A :=
  return_ (failure e st).

(** Account for one prefix execution. *)
Definition charge_prefix (elapsed : float) : run unit :=
  t <~ gets (fun s => timing (control s));
  let accumulated := (prompt_prefill_milliseconds t + elapsed)%float in
  if negb (PrimFloat.is_finite accumulated) then fail_with kUnexpectedStep ok_status else
  modify (update (with_timing
    (with_prefix_timing (prefix_execution_milliseconds t ++ [elapsed]) accumulated t))).

(** The scalar prefill loop over the tokens left. *)
Fixpoint prefix_steps (phase_step : StepFunction W) (tokens : list Z) (predicted : Z) : run Z :=
  match tokens with
  | [] => pass predicted
  | token :: tokens =>
      e <~ call (execute phase_step token false predicted ok_status);
      if negb (bool_decide (exec_error e = kNone))
      then fail_with (exec_error e) (exec_status e) else
      _ <~ charge_prefix (exec_elapsed e);
      prefix_steps phase_step tokens (exec_predicted e)
  end.

(** The checks on the steps of a tile. *)
Fixpoint tile_steps_bad (tokens : list Z) (expected : Z) (l : list ReferenceStepResult) : bool :=
  match tokens, l with
  | [], _ => false
  | token :: tokens, step :: l =>
      negb (position step =? u32 expected) || negb (input_token_id step =? token)
      || negb (null (logits step)) || negb (null (prediction step))
      || match timing_ms step with Some x => bad_duration x | None => false end
      || tile_steps_bad tokens (expected + 1) l
  | _ :: _, [] => true
  end.

Definition next_tile (remaining chunk : Z) : Z :=
  if prefill_single_arbitrary_tile options
  then next_single_arbitrary_prefix_tile_token_count remaining chunk
  else next_prefix_tile_token_count remaining chunk.

(** One call of [prefix_tile] on the first [count] of the tokens left. *)
Definition run_tile (tile_fn : PrefillTileFunction W) (count : Z) (tokens : list Z) : run unit :=
  let tile := take (Z.to_nat count) tokens in
  outcome <~ call (lift (tile_fn tile
    {| tile_measure_timing := true;
       retain_last_hidden_for_logits := prefill_all_prompt_tokens options
         && (count =? Z.of_nat (length tokens)) |}));
  if negb (tile_outcome_ok outcome) then fail_with kRunnerFailure (tile_status outcome) else
  match tile_value outcome with
  | None => fail_with kRunnerFailure (tile_status outcome)
  | Some result =>
      match tile_timing result with
      | None => fail_with kMissingTiming ok_status
      | Some elapsed =>
          if negb (step_count result =? count) then fail_with kUnexpectedStep ok_status else
          if bad_duration elapsed then fail_with kUnexpectedStep ok_status else
          expected <~ gets (fun s => Z.of_nat (length (steps (control s))));
          if tile_steps_bad tile expected (tile_steps result)
          then fail_with kUnexpectedStep ok_status else
          _ <~ modify (update (fun c =>
                 with_steps (steps c ++ take (Z.to_nat count) (tile_steps result)) c));
          charge_prefix elapsed
      end
  end.

(** The tiled prefill loop; [fuel] bounds the number of tiles. *)
Fixpoint prefix_tiles (fuel : nat) (tile_fn : PrefillTileFunction W) (chunk : Z)
    (tokens : list Z) : run unit :=
  match fuel with
  | O => pass tt
  | S fuel =>
      match tokens with
      | [] => pass tt
      | _ =>
          let count := next_tile (Z.of_nat (length tokens)) chunk in
          _ <~ run_tile tile_fn count tokens;
          prefix_tiles fuel tile_fn chunk (drop (Z.to_nat count) tokens)
      end
  end.

Definition prefix_tokens : list Z :=
  if prefill_all_prompt_tokens options then prompt_token_ids
  else removelast prompt_token_ids.

Definition effective_prefill_chunk_size : Z :=
  if capture_trace options then 1 else prefill_chunk_size options.

Definition prefix_executions : Z :=
  let prefix := Z.of_nat (length prefix_tokens) in
  if prefill_single_arbitrary_tile options
  then single_arbitrary_prefix_execution_count prefix effective_prefill_chunk_size
  else prefix_execution_count prefix effective_prefill_chunk_size.

(** Mode, panel count and the prefix executions; the value is [predicted]. *)
Definition prefill_prefix (step_fn : StepFunction W) : run Z :=
  let panels := u64 (prefix_executions + if prefill_all_prompt_tokens options then 0 else 1) in
  _ <~ modify (update (with_route kLegacyC512Tiled panels panels));
  if 1 <? effective_prefill_chunk_size then
    match prefix_tokens, prefix_tile prefill_plan with
    | [], _ => pass 0
    | _ :: _, None => fail_with kInvalidArgument ok_status
    | _, Some tile_fn =>
        _ <~ prefix_tiles (length prefix_tokens) tile_fn effective_prefill_chunk_size prefix_tokens;
        pass 0
    end
  else prefix_steps step_fn prefix_tokens 0.

(** The final prompt step; the value is the first predicted token. *)
Definition finish_prompt (finish_fn : StepFunction W) (predicted : Z) : run Z :=
  _ <~ (if prefill_all_prompt_tokens options then
          n <~ gets (fun s => length (steps (control s)));
          if decide (n = 0%nat) then fail_with kUnexpectedStep ok_status
          else modify (update (fun c => with_steps (removelast (steps c)) c))
        else pass tt);
  e <~ call (execute finish_fn (back prompt_token_ids) true predicted ok_status);
  if negb (bool_decide (exec_error e = kNone))
  then fail_with (exec_error e) (exec_status e) else
  t <~ gets (fun s => timing (control s));
  let prompt_prefill := (prompt_prefill_milliseconds t + exec_elapsed e)%float in
  if negb (PrimFloat.is_finite prompt_prefill) then fail_with kUnexpectedStep ok_status else
  _ <~ modify (update (with_timing (with_finish_timing (exec_elapsed e) prompt_prefill t)));
  pass (exec_predicted e).

(** The ordinary decode loop; [fuel] bounds the number of steps. *)
Fixpoint decode_loop (fuel : nat) (step_fn : StepFunction W) (predicted : Z) : run unit :=
  match fuel with
  | O => pass tt
  | S fuel =>
      generated <~ gets (fun s => generated_token_ids (control s));
      if negb (Z.of_nat (length generated) <? max_new_tokens options) then pass tt else
      e <~ call (execute step_fn (back generated) true predicted ok_status);
      if negb (bool_decide (exec_error e = kNone))
      then fail_with (exec_error e) (exec_status e) else
      t <~ gets (fun s => timing (control s));
      let elapsed := exec_elapsed e in
      let decode_after_first := (decode_after_first_milliseconds t + elapsed)%float in
      let total_generation := (total_generation_milliseconds t + elapsed)%float in
      if negb (PrimFloat.is_finite decode_after_first)
         || negb (PrimFloat.is_finite total_generation)
      then fail_with kUnexpectedStep ok_status else
      _ <~ modify (update (with_timing
             (with_decode_timing (subsequent_token_milliseconds t ++ [elapsed])
                decode_after_first total_generation t)));
      proceed <~ call (commit_token (exec_predicted e) elapsed);
      if exec_predicted e =? stop_token_id options
      then modify (update (with_stop_reason kImEnd))
      else if negb proceed then modify (update (with_stop_reason kStopCancelled))
      else decode_loop fuel step_fn (exec_predicted e)
  end.

(** From the first predicted token to the end of the generation. *)
Definition generate_from (step_fn : StepFunction W) (predicted : Z) : run unit :=
  t <~ gets (fun s => timing (control s));
  let first := prompt_prefill_milliseconds t in
  _ <~ modify (update (with_timing (with_first_token_timing first first t)));
  proceed <~ call (commit_token predicted first);
  if predicted =? stop_token_id options then modify (update (with_stop_reason kImEnd))
  else if negb proceed then modify (update (with_stop_reason kStopCancelled))
  else decode_loop (Z.to_nat (max_new_tokens options)) step_fn predicted.

Definition run_generation_control_flow : run GenerationControlResult :=
  match admission_error, prefix_step prefill_plan, decode_step decode_plan with
  | Some e, _, _ => fail_with e ok_status
  | None, Some step_fn, Some decode_fn =>
      predicted <~ prefill_prefix step_fn;
      match (if prefill_all_prompt_tokens options then finish_prefill_from_tile prefill_plan
             else finish_prefill prefill_plan) with
      | None => fail_with kInvalidArgument ok_status
      | Some finish_fn =>
          predicted <~ finish_prompt finish_fn predicted;
          _ <~ generate_from decode_fn predicted;
          control <~ gets control;
          return_ {| value := Some control; control_error := kNone; runner_status := ok_status |}
      end
  | None, _, _ => fail_with kInvalidArgument ok_status
  end.

Definition run_generation_control (w : W) : GenerationControlResult * W :=
  let '(r, s) := body run_generation_control_flow {| world := w; control := empty_control |} in
  (r, world s).
End Control.

(** ** The schedule *)

Lemma physical_segment_bounds n :
  0 < n -> 0 < next_prefill_physical_segment_token_count n <= n.
Proof.
  intros Hn. unfold next_prefill_physical_segment_token_count,
    kPrefillPhysicalSegmentMaximumTokens, kPrefillPhysicalSegmentM256Tokens,
    kPrefillPhysicalSegmentM64Tokens, kPrefillPhysicalSegmentM32Tokens.
  repeat case_match; bools; lia.
Qed.

Lemma physical_segment_canonical n :
  0 < n -> is_prefill_physical_segment_token_count
             (next_prefill_physical_segment_token_count n) = true.
Proof.
  intros Hn. unfold next_prefill_physical_segment_token_count,
    is_prefill_physical_segment_token_count, kPrefillPhysicalSegmentMaximumTokens,
    kPrefillPhysicalSegmentM256Tokens, kPrefillPhysicalSegmentM64Tokens,
    kPrefillPhysicalSegmentM32Tokens, kPrefillPhysicalSegmentTailMaximumTokens.
  repeat case_match; bools; try done.
  rewrite !orb_true_iff, andb_true_iff, negb_true_iff, Z.eqb_neq, Z.leb_le. right. lia.
Qed.

Lemma prefix_tile_bounds n c :
  0 < n -> 0 < c -> 0 < next_prefix_tile_token_count n c <= Z.min n c.
Proof.
  intros Hn Hc. unfold next_prefix_tile_token_count.
  rewrite (proj2 (Z.eqb_neq n 0)), (proj2 (Z.eqb_neq c 0)) by lia. simpl.
  destruct (n <? c) eqn:E; bools.
  - pose proof (physical_segment_bounds n). lia.
  - pose proof (physical_segment_bounds c). lia.
Qed.

Lemma single_tile_bounds n c :
  0 < n -> 0 < c -> next_single_arbitrary_prefix_tile_token_count n c = Z.min n c.
Proof.
  intros Hn Hc. unfold next_single_arbitrary_prefix_tile_token_count.
  rewrite (proj2 (Z.eqb_neq n 0)), (proj2 (Z.eqb_neq c 0)) by lia. simpl.
  destruct (n <? c) eqn:E; bools; lia.
Qed.

Lemma next_tile_bounds {W} (options : GenerationControlOptions W) n c :
  0 < n -> 0 < c -> 0 < next_tile options n c <= Z.min n c.
Proof.
  intros Hn Hc. unfold next_tile. destruct (prefill_single_arbitrary_tile options).
  - rewrite single_tile_bounds by done. lia.
  - by apply prefix_tile_bounds.
Qed.

(** The tiles of a prefix, in order. *)
Fixpoint tile_sizes {W} (options : GenerationControlOptions W) (fuel : nat) (n c : Z) : list Z :=
  match fuel with
  | O => []
  | S fuel =>
      if n =? 0 then []
      else let t := next_tile options n c in t :: tile_sizes options fuel (n - t) c
  end.

Lemma tile_sizes_cover {W} (options : GenerationControlOptions W) fuel n c :
  0 <= n <= Z.of_nat fuel -> 0 < c ->
  foldr Z.add 0 (tile_sizes options fuel n c) = n /\
  Forall (fun t => 0 < t <= c) (tile_sizes options fuel n c).
Proof.
  revert n. induction fuel as [|fuel IH]; intros n Hn Hc; simpl; [split; [lia|done]|].
  destruct (Z.eqb_spec n 0) as [->|Hne]; [done|].
  pose proof (next_tile_bounds options n c ltac:(lia) Hc).
  destruct (IH (n - next_tile options n c)) as [Hs Hf]; [lia|done|].
  simpl. split; [lia|]. constructor; [lia|done].
Qed.

Lemma count_tiles_sizes {W} (options : GenerationControlOptions W) fuel n c k :
  prefill_single_arbitrary_tile options = false ->
  count_tiles fuel n c k = k + Z.of_nat (length (tile_sizes options fuel n c)).
Proof.
  intros Ho. revert n k. induction fuel as [|fuel IH]; intros n k; simpl; [lia|].
  assert (Hnt : next_tile options n c = next_prefix_tile_token_count n c)
    by (unfold next_tile; by rewrite Ho).
  rewrite Hnt. destruct (n =? 0); cbn [length]; [simpl; lia|]. rewrite IH. lia.
Qed.

Lemma single_sizes_count {W} (options : GenerationControlOptions W) fuel n c :
  prefill_single_arbitrary_tile options = true ->
  0 <= n <= Z.of_nat fuel -> 0 < c ->
  Z.of_nat (length (tile_sizes options fuel n c)) =
  single_arbitrary_prefix_execution_count n c.
Proof.
  intros Ho Hn Hc. unfold single_arbitrary_prefix_execution_count.
  rewrite (proj2 (Z.eqb_neq c 0)) by lia.
  revert n Hn. induction fuel as [|fuel IH]; intros n Hn; simpl.
  { replace n with 0 by lia. by rewrite Z.div_0_l, Z.mod_0_l by lia. }
  destruct (Z.eqb_spec n 0) as [->|Hne]; [by rewrite Z.div_0_l, Z.mod_0_l by lia|].
  assert (Hnt : next_tile options n c = Z.min n c).
  { unfold next_tile. rewrite Ho. apply single_tile_bounds; lia. }
  rewrite Hnt. cbn [length]. rewrite Nat2Z.inj_succ, IH by lia.
  destruct (Z.le_gt_cases c n).
  - rewrite Z.min_r by lia. replace (n - c) with (n + (-1) * c) by lia.
    rewrite Z.div_add, Z.mod_add by lia. lia.
  - rewrite Z.min_l, Z.sub_diag, Z.div_0_l, Z.mod_0_l by lia. simpl.
    rewrite Z.div_small, Z.mod_small by lia. rewrite (proj2 (Z.eqb_neq n 0)) by lia. done.
Qed.

(** C9. The prefill schedule: for every chunk size the tiles of a prefix are
    non-empty, at most a chunk long, of the physical sizes 512, 256, 64, 32 or
    at most 31 (unless the single-arbitrary-tile admission is on), sum to the
    prefix exactly, and there are as many as the count that the request
    reserves and reports beforehand. *)
Theorem prefix_schedule_exact {W} (options : GenerationControlOptions W) (prompt : list Z) :
  1 < effective_prefill_chunk_size options ->
  let prefix := Z.of_nat (length (prefix_tokens prompt options)) in
  let chunk := effective_prefill_chunk_size options in
  let tiles := tile_sizes options (length (prefix_tokens prompt options)) prefix chunk in
  foldr Z.add 0 tiles = prefix /\
  Forall (fun t => 0 < t <= chunk /\
    (prefill_single_arbitrary_tile options = false ->
       is_prefill_physical_segment_token_count t = true)) tiles /\
  Z.of_nat (length tiles) = prefix_executions prompt options.
Proof.
  intros Hc prefix chunk tiles.
  destruct (tile_sizes_cover options (length (prefix_tokens prompt options)) prefix chunk) as [Hs Hf];
    [lia|lia|]. split; [done|]. split.
  - subst tiles. revert Hf. generalize (length (prefix_tokens prompt options)) as fuel, prefix.
    clear prefix Hs. induction fuel as [|fuel IH]; intros prefix Hf; simpl in *; [done|].
    destruct (Z.eqb_spec prefix 0); [done|]. apply Forall_cons in Hf as [Ht Hf].
    constructor; [|by apply IH]. split; [done|]. intros Ho. unfold next_tile in *. rewrite Ho in *.
    unfold next_prefix_tile_token_count in *.
    destruct ((prefix =? 0) || (chunk =? 0)); [lia|].
    set (m := if prefix <? chunk then prefix else chunk) in *.
    destruct (Z.le_gt_cases m 0).
    + exfalso. assert (Hm : next_prefill_physical_segment_token_count m = m).
      { unfold next_prefill_physical_segment_token_count,
          kPrefillPhysicalSegmentMaximumTokens, kPrefillPhysicalSegmentM256Tokens,
          kPrefillPhysicalSegmentM64Tokens, kPrefillPhysicalSegmentM32Tokens.
        repeat case_match; bools; lia. } lia.
    + by apply physical_segment_canonical.
  - unfold prefix_executions. fold prefix chunk. destruct (prefill_single_arbitrary_tile options) eqn:Ho.
    + apply single_sizes_count; [done|lia..].
    + unfold prefix_execution_count. rewrite (proj2 (Z.eqb_neq chunk 0)), (proj2 (Z.eqb_neq chunk 1)) by lia.
      rewrite (count_tiles_sizes options) by done. unfold tiles, prefix. by rewrite Nat2Z.id.
Qed.

(** ** The run, against a contract of the callbacks

    [K l w]: the runner has consumed exactly [l]; [good l t]: [t] is what it
    predicts after [l]. *)

Section Spec.
Context {W : Type}.
Variable prompt_token_ids : list Z.
Variable options : GenerationControlOptions W.
Variable prefill_plan : PrefillPlan W.
Variable decode_plan : DecodePlan W.
Variable K : list Z -> W -> Prop.
Variable good : list Z -> Z -> Prop.

Abbreviation prompt := prompt_token_ids.
Abbreviation st := (St (W := W)).

(** The token a step predicts in the requested mode. *)
Definition predicts (step : ReferenceStepResult) (t : Z) : Prop :=
  match logits_mode options with
  | kFullStatistics => exists l, logits step = Some l /\ logits_predicted_token_id l = t
  | kPredictedTokenOnly => prediction step = Some t
  end.

(** A successful step on [input] consumes [next input] and predicts well. *)
Definition advances (f : StepFunction W) (next : Z -> list Z) : Prop :=
  forall input opts l w o w', K l w -> f input opts w = (o, w') -> step_outcome_ok o = true ->
  K (l ++ next input) w' /\
  (compute_logits opts = true -> step_logits_mode opts = logits_mode options ->
   forall step t, step_value o = Some step -> predicts step t -> good (l ++ next input) t).

Record RunnerContract : Prop := {
  prefix_contract f : prefix_step prefill_plan = Some f -> advances f (fun x => [x]);
  finish_contract f : finish_prefill prefill_plan = Some f -> advances f (fun x => [x]);
  retained_contract f : finish_prefill_from_tile prefill_plan = Some f -> advances f (fun _ => []);
  decode_contract f : decode_step decode_plan = Some f -> advances f (fun x => [x]);
  tile_contract f tokens opts l w o w' : prefix_tile prefill_plan = Some f ->
    K l w -> f tokens opts w = (o, w') -> tile_outcome_ok o = true -> K (l ++ tokens) w';
  committed_contract f t i ms l w : committed_token options = Some f ->
    K l w -> K l (snd (f t i ms w))
}.
Hypothesis contract : RunnerContract.

(** The machine integers of the options are unsigned. *)
Hypothesis max_new_nonneg : 0 <= max_new_tokens options.
Hypothesis chunk_nonneg : 0 <= prefill_chunk_size options.

Definition rejected (r : GenerationControlResult) (_ : st) : Prop := control_ok r = false.

Lemma fail_with_spec {A} e status (post : A -> st -> Prop) s :
  wp (fail_with e status) rejected post s.
Proof. apply wp_return. done. Qed.

(** The transcript records exactly [l], at consecutive positions. *)
Record recorded (l : list Z) (c : GenerationControl) : Prop := {
  rec_inputs : input_token_id <$> steps c = l;
  rec_positions i step : steps c !! i = Some step -> position step = u32 (Z.of_nat i)
}.

Lemma recorded_length l c : recorded l c -> length (steps c) = length l.
Proof. intros [<- _]. by rewrite length_fmap. Qed.

Lemma recorded_snoc l c step input :
  recorded l c -> input_token_id step = input ->
  position step = u32 (Z.of_nat (length (steps c))) ->
  recorded (l ++ [input]) (with_steps (steps c ++ [step]) c).
Proof.
  intros [Hi Hp] He Hpos. split; cbn [steps with_steps].
  - by rewrite fmap_app, Hi, <- He.
  - intros i x Hx. apply lookup_app_Some in Hx as [Hx|[Hge Hx]]; [by apply Hp|].
    apply list_lookup_singleton_Some in Hx as [Hx <-]. rewrite Hpos. do 2 f_equal. lia.
Qed.

Lemma execute_ok f next input compute p status s e s' l :
  advances f next -> K l (world s) ->
  execute options f input compute p status s = (e, s') -> exec_error e = kNone ->
  exists step,
    control s' = with_steps (steps (control s) ++ [step]) (control s) /\
    K (l ++ next input) (world s') /\
    position step = u32 (Z.of_nat (length (steps (control s)))) /\
    input_token_id step = input /\
    (compute = true -> step_prediction options step = exec_predicted e /\
       exec_predicted e < kReferenceVocabularySize /\
       good (l ++ next input) (exec_predicted e)).
Proof.
  intros Hf HK He Hok. unfold execute, lift in He.
  destruct (f input _ (world s)) as [o w] eqn:Ef.
  destruct (step_outcome_ok o) eqn:Ho; simpl in He; [|by simplify_eq].
  destruct (Hf _ _ _ _ _ _ HK Ef Ho) as [HK' Hg].
  destruct (step_value o) as [step|] eqn:Hs; [|by simplify_eq].
  case_bool_decide as Herr; simpl in He; [|by simplify_eq].
  destruct (compute && _) eqn:Hv; simplify_eq. exists step. simpl.
  unfold step_error in Herr.
  destruct (negb (position step =? _) || _ || _) eqn:Hpos; [done|]. revert Hv. bools. intros Hv.
  split_and!; try done. intros ->. simpl in Hv. apply Z.leb_gt in Hv.
  split_and!; [done|done|]. apply (Hg eq_refl eq_refl step); [done|].
  destruct (timing_ms step); [|done]. unfold predicts, step_prediction in *.
  destruct (logits_mode options), (logits step), (prediction step); simpl in *; try done; eauto.
Qed.

(** After [n] prefix executions, [l] is consumed and nothing is generated. *)
Record at_prompt (n : nat) (l : list Z) (s : st) : Prop := {
  ap_world : K l (world s);
  ap_recorded : recorded l (control s);
  ap_generated : generated_token_ids (control s) = [];
  ap_reason : stop_reason (control s) = kMaxNewTokens;
  ap_executions : length (prefix_execution_milliseconds (timing (control s))) = n
}.

Lemma charge_prefix_spec elapsed n l s :
  at_prompt n l s ->
  wp (charge_prefix elapsed) rejected (fun _ s' => at_prompt (S n) l s') s.
Proof.
  intros [? [? ?] ? ? ?]. unfold charge_prefix. wp_step. wp_step. wp_step; [apply fail_with_spec|].
  wp_step. split; try done. simpl. rewrite length_app. simpl. lia.
Qed.

Lemma prefix_steps_spec f tokens p n l s :
  advances f (fun x => [x]) -> at_prompt n l s ->
  wp (prefix_steps options f tokens p) rejected
     (fun _ s' => at_prompt (n + length tokens) (l ++ tokens) s') s.
Proof.
  intros Hf. revert p n l s. induction tokens as [|t tokens IH]; intros p n l s Hs;
    cbn [prefix_steps length].
  { wp_step. by rewrite app_nil_r, Nat.add_0_r. }
  wp_step. wp_step. wp_step; [apply fail_with_spec|]. bools.
  match goal with Hb : bool_decide _ = true |- _ => apply bool_decide_eq_true in Hb end.
  destruct Hs. edestruct execute_ok as (step & Hc & HK & Hp & Hi & _); [done..|].
  wp_step. eapply wp_mono; [apply (charge_prefix_spec _ n (l ++ [t]))|done|].
  { split; rewrite ?Hc; try done. by apply recorded_snoc. }
  intros ? s2 Hs2. cbv beta in Hs2. eapply wp_mono; [by apply IH|done|].
  intros ? s3 Hs3. cbv beta in Hs3. rewrite <- app_assoc in Hs3. by replace (n + S (length tokens))%nat
    with (S n + length tokens)%nat by lia.
Qed.

Lemma tile_steps_good tile expected l :
  tile_steps_bad tile expected l = false ->
  input_token_id <$> take (length tile) l = tile /\
  (forall i step, take (length tile) l !! i = Some step ->
     position step = u32 (expected + Z.of_nat i)).
Proof.
  revert expected l. induction tile as [|t tile IH]; intros expected [|x l] Hb;
    simpl in *; try done. bools. destruct (IH _ _ ltac:(done)) as [Hi Hp].
  split; [by f_equal|]. intros [|i] step Hx; simpl in *; simplify_eq.
  - rewrite Z.add_0_r. done.
  - rewrite (Hp i step Hx). f_equal. lia.
Qed.

Lemma run_tile_spec f count tokens n l s :
  prefix_tile prefill_plan = Some f -> 0 <= count <= Z.of_nat (length tokens) ->
  at_prompt n l s ->
  wp (run_tile options f count tokens) rejected
     (fun _ s' => at_prompt (S n) (l ++ take (Z.to_nat count) tokens) s') s.
Proof.
  intros Hf Hc [HK Hr Hg Hs Hn]. unfold run_tile. wp_step. wp_step.
  unfold lift in H. destruct (f _ _ (world s)) as [o w] eqn:Ef. simplify_eq.
  wp_step; [apply fail_with_spec|]. bools.
  wp_step; [|apply fail_with_spec]. wp_step; [|apply fail_with_spec].
  wp_step; [apply fail_with_spec|]. wp_step; [apply fail_with_spec|].
  wp_step. wp_step. wp_step; [apply fail_with_spec|].
  wp_step. wp_step. apply charge_prefix_spec.
  apply tile_steps_good in Heqb2 as [Hi Hp]. simpl in Hp.
  rewrite length_take, Nat.min_l in Hi, Hp by lia. split; try done; cbn [world update].
  - by eapply (tile_contract contract).
  - destruct Hr as [Hin Hpos]. split; cbn.
    + by rewrite fmap_app, Hin, Hi.
    + intros i step Hx. apply lookup_app_Some in Hx as [Hx|[Hge Hx]]; [by apply Hpos|].
      rewrite (Hp _ _ Hx). f_equal. lia.
Qed.

Lemma prefix_tiles_spec f fuel chunk tokens n l s :
  prefix_tile prefill_plan = Some f -> 0 < chunk -> (length tokens <= fuel)%nat ->
  at_prompt n l s ->
  wp (prefix_tiles options fuel f chunk tokens) rejected
     (fun _ s' => at_prompt
        (n + length (tile_sizes options fuel (Z.of_nat (length tokens)) chunk))
        (l ++ tokens) s') s.
Proof.
  intros Hf Hc. revert tokens n l s. induction fuel as [|fuel IH]; intros tokens n l s Hl Hs;
    cbn [prefix_tiles].
  { destruct tokens; simpl in Hl; [|lia]. wp_step. by rewrite app_nil_r, Nat.add_0_r. }
  destruct tokens as [|t0 tokens]; [wp_step; by rewrite app_nil_r, Nat.add_0_r|].
  set (tokens' := t0 :: tokens) in *. cbv zeta.
  set (count := next_tile options _ chunk).
  pose proof (next_tile_bounds options (Z.of_nat (length tokens')) chunk
    ltac:(unfold tokens'; simpl; lia) Hc) as Hb. fold count in Hb.
  wp_step. eapply wp_mono; [apply run_tile_spec; [done|lia|done]|done|].
  intros ? s1 Hs1. cbv beta in Hs1. cbn [tile_sizes].
  rewrite (proj2 (Z.eqb_neq (Z.of_nat (length tokens')) 0)) by (unfold tokens'; simpl; lia).
  cbn [length]. fold count.
  eapply wp_mono; [apply IH; [|exact Hs1]|done|].
  { rewrite length_drop. lia. }
  intros ? s2 Hs2. cbv beta in Hs2. rewrite length_drop, <- app_assoc, take_drop in Hs2.
  rewrite Nat2Z.inj_sub in Hs2 by lia. rewrite Z2Nat.id in Hs2 by lia.
  by rewrite Nat.add_succ_r.
Qed.

(** ** From the prompt to the first token *)

Hypothesis admitted : admission_error prompt options prefill_plan decode_plan = None.

Lemma admitted_facts :
  prompt <> [] /\ 0 < max_new_tokens options /\ 0 < prefill_chunk_size options /\
  (prefill_all_prompt_tokens options = true -> 1 < effective_prefill_chunk_size options) /\
  (prefill_single_arbitrary_tile options = true -> 1 < effective_prefill_chunk_size options).
Proof.
  pose proof admitted as Ha. unfold admission_error in Ha.
  destruct (invalid_arguments _ _ _ _) eqn:Hi; [done|]. clear Ha.
  unfold invalid_arguments, invalid_legacy_all_prompt_admission in Hi.
  unfold effective_prefill_chunk_size.
  repeat (apply orb_false_iff in Hi as [Hi ?]).
  apply bool_decide_eq_false in Hi.
  repeat match goal with H : (_ =? 0) = false |- _ => apply Z.eqb_neq in H end.
  assert (Hall : prefill_all_prompt_tokens options = true ->
    1 < (if capture_trace options then 1 else prefill_chunk_size options)).
  { intros Hall. rewrite Hall in *. destruct (capture_trace options); [done|].
    simpl in *. bools. lia. }
  split_and!; [done|lia|lia|done|]. intros Hsingle. apply Hall.
  rewrite Hsingle in *. by destruct (prefill_all_prompt_tokens options).
Qed.

Lemma effective_chunk_positive : 0 < effective_prefill_chunk_size options.
Proof. unfold effective_prefill_chunk_size. destruct admitted_facts as (_ & _ & ? & _).
  case_match; lia. Qed.

Lemma prefill_prefix_spec f s :
  prefix_step prefill_plan = Some f -> at_prompt 0 [] s ->
  wp (prefill_prefix prompt options prefill_plan f) rejected
     (fun _ s' => at_prompt (Z.to_nat (prefix_executions prompt options))
                            (prefix_tokens prompt options) s') s.
Proof.
  intros Hf Hs. unfold prefill_prefix. pose proof effective_chunk_positive.
  wp_step. wp_step. set (s1 := update _ s).
  assert (Hs1 : at_prompt 0 [] s1) by (destruct Hs as [? [? ?] ? ? ?]; by split).
  clearbody s1. clear Hs s. wp_step.
  - bools. set (toks := prefix_tokens prompt options).
    set (chunk := effective_prefill_chunk_size options) in *.
    assert (Hcount : Z.to_nat (prefix_executions prompt options) =
      length (tile_sizes options (length toks) (Z.of_nat (length toks)) chunk)).
    { unfold prefix_executions. fold toks chunk.
      destruct (prefill_single_arbitrary_tile options) eqn:Ho.
      - rewrite <- (single_sizes_count options (length toks)) by (done || lia). lia.
      - unfold prefix_execution_count.
        rewrite (proj2 (Z.eqb_neq chunk 0)), (proj2 (Z.eqb_neq chunk 1)) by lia.
        rewrite (count_tiles_sizes options) by done. rewrite Nat2Z.id. lia. }
    destruct toks as [|t0 toks'] eqn:Htoks.
    + wp_step. rewrite Hcount. exact Hs1.
    + destruct (prefix_tile prefill_plan) as [g|] eqn:Hg; [|apply fail_with_spec].
      wp_step. eapply wp_mono; [apply (prefix_tiles_spec g _ chunk _ 0 []); [done|lia|done|done]|done|].
      intros ? s2 Hs2. cbv beta in Hs2. wp_step. rewrite Hcount. exact Hs2.
  - bools. assert (Hone : effective_prefill_chunk_size options = 1) by lia.
    eapply wp_mono; [by apply (prefix_steps_spec f _ 0 0 []); [by apply (prefix_contract contract)|]|done|].
    intros ? s2 Hs2. cbv beta in Hs2. unfold prefix_executions.
    destruct (prefill_single_arbitrary_tile options) eqn:Ho.
    + destruct admitted_facts as (_ & _ & _ & _ & Hsingle). specialize (Hsingle Ho). lia.
    + rewrite Hone. unfold prefix_execution_count. simpl. by rewrite Nat2Z.id.
Qed.

(** The final prompt step is recorded and its prediction accepted. *)
Record prefilled (p : Z) (s : st) : Prop := {
  pf_world : K prompt (world s);
  pf_recorded : recorded prompt (control s);
  pf_generated : generated_token_ids (control s) = [];
  pf_reason : stop_reason (control s) = kMaxNewTokens;
  pf_executions : length (prefix_execution_milliseconds (timing (control s))) =
                  Z.to_nat (prefix_executions prompt options);
  pf_prediction : step_prediction options <$> drop (length prompt - 1) (steps (control s)) = [p];
  pf_vocabulary : p < kReferenceVocabularySize;
  pf_good : good prompt p
}.

Lemma removelast_back (l : list Z) : l <> [] -> removelast l ++ [back l] = l.
Proof.
  intros Hl. destruct l as [|x l _] using rev_ind; [done|].
  rewrite removelast_last. unfold back. by rewrite last_snoc.
Qed.

Lemma removelast_steps l c :
  recorded l c -> recorded (removelast l) (with_steps (removelast (steps c)) c).
Proof.
  intros [Hi Hp]. rewrite removelast_firstn_len in *. split; cbn.
  - rewrite !removelast_firstn_len, <- Hi, length_fmap.
    change @firstn with @take. by rewrite fmap_take.
  - intros i step Hs. rewrite removelast_firstn_len in Hs.
    change @firstn with @take in Hs. apply lookup_take_Some in Hs as [Hs _]. by apply Hp.
Qed.

Lemma finish_execute f next e s s' n pre p :
  advances f next ->
  prompt = pre ++ [back prompt] ->
  (exists l, K l (world s) /\ l ++ next (back prompt) = prompt) ->
  recorded pre (control s) -> generated_token_ids (control s) = [] ->
  stop_reason (control s) = kMaxNewTokens ->
  length (prefix_execution_milliseconds (timing (control s))) = n ->
  execute options f (back prompt) true p ok_status s = (e, s') -> exec_error e = kNone ->
  n = Z.to_nat (prefix_executions prompt options) ->
  prefilled (exec_predicted e) s'.
Proof.
  intros Hf Hpre (l & HK & Hl) Hr Hg Hs Hn He Hok ->.
  edestruct execute_ok as (step & Hc & HK' & Hp & Hi & Hpred); [done..|].
  destruct (Hpred eq_refl) as (Hstep & Hv & Hgood). rewrite Hl in *.
  assert (Hlen : length (steps (control s)) = (length prompt - 1)%nat).
  { rewrite (recorded_length _ _ Hr), Hpre, length_app. simpl. lia. }
  split; rewrite ?Hc; try done.
  - rewrite Hpre. by apply recorded_snoc.
  - cbn [steps with_steps]. rewrite <- Hlen, drop_app_length. simpl. by rewrite Hstep.
Qed.

Lemma finish_prompt_spec f p s :
  (if prefill_all_prompt_tokens options then finish_prefill_from_tile prefill_plan
   else finish_prefill prefill_plan) = Some f ->
  at_prompt (Z.to_nat (prefix_executions prompt options)) (prefix_tokens prompt options) s ->
  wp (finish_prompt prompt options f p) rejected prefilled s.
Proof.
  intros Hf [HK Hr Hg Hs Hn]. unfold finish_prompt, prefix_tokens in *.
  destruct admitted_facts as (Hne & _).
  pose proof (eq_sym (removelast_back _ Hne)) as Hpre.
  assert (Hrest : forall s1,
    (exists l next, advances f next /\ K l (world s1) /\ l ++ next (back prompt) = prompt) ->
    recorded (removelast prompt) (control s1) -> generated_token_ids (control s1) = [] ->
    stop_reason (control s1) = kMaxNewTokens ->
    length (prefix_execution_milliseconds (timing (control s1))) =
      Z.to_nat (prefix_executions prompt options) ->
    wp (e <~ call (execute options f (back prompt) true p ok_status);
        if negb (bool_decide (exec_error e = kNone))
        then fail_with (exec_error e) (exec_status e) else
        t <~ gets (fun s => timing (control s));
        let prompt_prefill := (prompt_prefill_milliseconds t + exec_elapsed e)%float in
        if negb (PrimFloat.is_finite prompt_prefill) then fail_with kUnexpectedStep ok_status else
        _ <~ modify (update (with_timing (with_finish_timing (exec_elapsed e) prompt_prefill t)));
        pass (exec_predicted e)) rejected prefilled s1).
  { intros s1 (l & next & Hadv & HK1 & Hl) Hr1 Hg1 Hs1 Hn1. do 2 wp_step.
    wp_step; [apply fail_with_spec|]. apply negb_false_iff, bool_decide_eq_true in Heqb.
    do 2 wp_step. cbv zeta. wp_step; [apply fail_with_spec|]. do 3 wp_step.
    assert (Hpf : prefilled (exec_predicted a) w') by (eapply finish_execute; eauto).
    destruct Hpf as [? [? ?] ? ? ? ? ? ?]. by split. }
  wp_step. destruct (prefill_all_prompt_tokens options) eqn:Hall.
  - do 2 wp_step. wp_step; [apply fail_with_spec|]. wp_step. apply Hrest; try done.
    + exists prompt, (fun _ => []). split_and!; [by apply (retained_contract contract)|done|by rewrite app_nil_r].
    + by apply removelast_steps.
  - wp_step. apply Hrest; try done. exists (removelast prompt), (fun x => [x]).
    split_and!; [by apply (finish_contract contract)|done|done].
Qed.

(** ** The generated tokens *)

(** [g] is generated: every token is the prediction of the recorded step
    before it, and only the last may be the stop token. *)
Record running (g : list Z) (s : st) : Prop := {
  rn_world : K (prompt ++ removelast g) (world s);
  rn_recorded : recorded (prompt ++ removelast g) (control s);
  rn_generated : generated_token_ids (control s) = g;
  rn_nonempty : g <> [];
  rn_length : Z.of_nat (length g) <= max_new_tokens options;
  rn_executions : length (prefix_execution_milliseconds (timing (control s))) =
                  Z.to_nat (prefix_executions prompt options);
  rn_predictions : step_prediction options <$> drop (length prompt - 1) (steps (control s)) = g;
  rn_vocabulary : Forall (fun t => t < kReferenceVocabularySize) g;
  rn_good j t : g !! j = Some t -> good (prompt ++ take j g) t;
  rn_before j t : g !! j = Some t -> (S j < length g)%nat -> t <> stop_token_id options
}.

Definition ended (g : list Z) (s : st) : Prop :=
  running g s /\
  match stop_reason (control s) with
  | kImEnd => last g = Some (stop_token_id options)
  | kMaxNewTokens => last g <> Some (stop_token_id options) /\
                     Z.of_nat (length g) = max_new_tokens options
  | kStopCancelled => last g <> Some (stop_token_id options) /\ null (committed_token options) = false
  end.

Lemma commit_token_spec t ms s b s' l :
  K l (world s) -> commit_token options t ms s = (b, s') ->
  K l (world s') /\ control s' = push_token t (control s) /\
  (b = false -> null (committed_token options) = false).
Proof.
  intros HK Hc. unfold commit_token in Hc.
  destruct (committed_token options) as [f|] eqn:Hf; [|by simplify_eq].
  unfold lift in Hc. cbn [world update] in Hc.
  destruct (f _ _ _ (world s)) as [b' w] eqn:Ef. simplify_eq. split_and!; try done.
  cbn. by rewrite <- (f_equal snd Ef : _ = w); eapply (committed_contract contract).
Qed.

(** What is known of a list all of whose tokens let the loop go on. *)
Record open_run (g : list Z) : Prop := {
  or_vocabulary : Forall (fun t => t < kReferenceVocabularySize) g;
  or_good j t : g !! j = Some t -> good (prompt ++ take j g) t;
  or_stop j t : g !! j = Some t -> t <> stop_token_id options
}.

Lemma running_open g s : running g s -> last g <> Some (stop_token_id options) -> open_run g.
Proof.
  intros Hr Hl. split; [apply Hr|apply (rn_good _ _ Hr)|].
  intros j t Hj. destruct (decide (S j < length g)%nat) as [Hlt|Hge].
  - by apply (rn_before _ _ Hr j).
  - intros ->. apply Hl. rewrite last_lookup. replace (pred (length g)) with j; [done|].
    apply lookup_lt_Some in Hj. lia.
Qed.

(** One more token: its step is recorded, then it is committed. *)
Lemma running_push g t s1 s2 b ms :
  open_run g ->
  K (prompt ++ g) (world s1) -> recorded (prompt ++ g) (control s1) ->
  generated_token_ids (control s1) = g ->
  length (prefix_execution_milliseconds (timing (control s1))) =
    Z.to_nat (prefix_executions prompt options) ->
  step_prediction options <$> drop (length prompt - 1) (steps (control s1)) = g ++ [t] ->
  t < kReferenceVocabularySize -> good (prompt ++ g) t ->
  Z.of_nat (length g) < max_new_tokens options ->
  commit_token options t ms s1 = (b, s2) ->
  running (g ++ [t]) s2 /\ stop_reason (control s2) = stop_reason (control s1) /\
  (b = false -> null (committed_token options) = false).
Proof.
  intros [Hvoc Hgood Hstop] HK Hr Hg He Hp Ht Hgt Hlen Hc.
  destruct (commit_token_spec _ _ _ _ _ _ HK Hc) as (HK2 & Hc2 & Hb).
  split; [|by rewrite Hc2]. split; rewrite ?removelast_last, ?Hc2; try done.
  - destruct Hr. by split.
  - cbn. by rewrite Hg.
  - by destruct g.
  - rewrite length_app. simpl. lia.
  - apply Forall_app. split; [done|]. by constructor.
  - intros j x Hx. apply lookup_app_Some in Hx as [Hx|[Hge Hx]].
    + rewrite take_app_le by (apply lookup_lt_Some in Hx; lia). by apply Hgood.
    + apply list_lookup_singleton_Some in Hx as [Hj <-].
      rewrite take_app_ge by lia. rewrite Hj. simpl. by rewrite app_nil_r.
  - intros j x Hx Hlt. rewrite length_app in Hlt. simpl in Hlt.
    rewrite lookup_app_l in Hx by lia. by eapply Hstop.
Qed.

Lemma room_le g s : running g s -> (0 < length g)%nat.
Proof. intros Hr. pose proof (rn_nonempty _ _ Hr). destruct g; [done|]. simpl. lia. Qed.

(** Either branch that ends the generation after a commit. *)
Lemma after_commit g t s b (next : flow st GenerationControlResult unit) ret :
  running (g ++ [t]) s -> stop_reason (control s) = kMaxNewTokens ->
  (b = false -> null (committed_token options) = false) ->
  (t <> stop_token_id options -> wp next ret (fun _ s' => exists g', ended g' s') s) ->
  wp (if t =? stop_token_id options then modify (update (with_stop_reason kImEnd))
      else if negb b then modify (update (with_stop_reason kStopCancelled)) else next)
     ret (fun _ s' => exists g', ended g' s') s.
Proof.
  intros Hr Hs Hb Hnext.
  assert (Hstop : forall r, running (g ++ [t]) (update (with_stop_reason r) s)).
  { intros r. destruct Hr as [? [? ?] ? ? ? ? ? ? ? ?]. by split. }
  wp_step; [|wp_step].
  - wp_step. bools. exists (g ++ [t]). split; [apply Hstop|]. cbn. by rewrite last_snoc, Heqb0.
  - wp_step. bools. exists (g ++ [t]). split; [apply Hstop|]. cbn. rewrite last_snoc.
    split; [congruence|by apply Hb].
  - bools. by apply Hnext.
Qed.

Lemma decode_loop_spec f fuel g p s :
  decode_step decode_plan = Some f ->
  (Z.to_nat (max_new_tokens options) - length g < fuel)%nat ->
  running g s -> last g <> Some (stop_token_id options) ->
  stop_reason (control s) = kMaxNewTokens ->
  wp (decode_loop options fuel f p) rejected (fun _ s' => exists g', ended g' s') s.
Proof.
  intros Hf. revert g p s. induction fuel as [|fuel IH]; intros g p s Hfuel Hr Hl Hs; [lia|].
  cbn [decode_loop]. do 2 wp_step. rewrite (rn_generated _ _ Hr). wp_step.
  { wp_step. bools. exists g. split; [done|]. rewrite Hs. split; [done|].
    pose proof (rn_length _ _ Hr). lia. }
  bools. do 2 wp_step. wp_step; [apply fail_with_spec|]. bools.
  match goal with Hb : bool_decide _ = true |- _ => apply bool_decide_eq_true in Hb end.
  destruct (execute_ok f (fun x => [x]) (back g) true p ok_status s a w' (prompt ++ removelast g))
    as (step & Hc & HK & Hpos & Hi & Hpred); [by apply (decode_contract contract)|apply Hr|done|done|].
  destruct (Hpred eq_refl) as (Hstep & Hv & Hgood).
  rewrite <- app_assoc, (removelast_back g (rn_nonempty _ _ Hr)) in HK, Hgood.
  do 2 wp_step. cbv zeta. wp_step; [apply fail_with_spec|]. do 4 wp_step.
  pose proof (running_open _ _ Hr Hl) as Hopen.
  match goal with H : commit_token _ _ _ _ = _ |- _ => rename H into Hcommit end.
  eapply (running_push g) in Hcommit as (Hr' & Hs' & Hb); try done.
  - eapply after_commit; [done| |done|].
    + rewrite Hs'. cbn. by rewrite Hc.
    + intros Hne. apply IH with (g := g ++ [exec_predicted a]); [|done| |].
      * rewrite length_app. simpl. pose proof (rn_length _ _ Hr). lia.
      * rewrite last_snoc. congruence.
      * rewrite Hs'. cbn. by rewrite Hc.
  - destruct Hr as [_ Hrec _ Hne _ _ _ _ _ _].
    assert (H1 : recorded (prompt ++ g) (control w')).
    { rewrite Hc, <- (removelast_back g Hne) at 1. rewrite app_assoc. by apply recorded_snoc. }
    destruct H1. by split.
  - cbn. rewrite Hc. apply Hr.
  - cbn. rewrite Hc. apply Hr.
  - cbn. rewrite Hc. cbn. rewrite drop_app_le, fmap_app.
    + rewrite (rn_predictions _ _ Hr). simpl. by rewrite Hstep.
    + rewrite (recorded_length _ _ (rn_recorded _ _ Hr)), length_app. lia.
Qed.

Lemma generate_from_spec f p s :
  decode_step decode_plan = Some f -> prefilled p s ->
  wp (generate_from options f p) rejected (fun _ s' => exists g, ended g s') s.
Proof.
  intros Hf [HK Hr Hg Hs He Hp Hv Hgood]. unfold generate_from.
  destruct admitted_facts as (_ & Hmax & _).
  do 6 wp_step. match goal with H : commit_token _ _ _ _ = _ |- _ => rename H into Hcommit end.
  eapply (running_push []) in Hcommit as (Hr' & Hs' & Hb); rewrite ?app_nil_r; try done.
  - apply (after_commit []); [done|by rewrite Hs'|done|].
    intros Hne. apply decode_loop_spec with (g := [p]); [done|simpl; lia|done| |by rewrite Hs'].
    simpl. congruence.
  - split; [exact (rec_inputs _ _ Hr)|exact (rec_positions _ _ Hr)].
Qed.

Lemma run_generation_control_spec w r w' :
  K [] w ->
  run_generation_control prompt options prefill_plan decode_plan w = (r, w') ->
  control_ok r = true ->
  exists g s, ended g s /\ value r = Some (control s) /\ world s = w'.
Proof.
  intros HK Hrun Hok. unfold run_generation_control in Hrun.
  destruct (body _ _) as [r0 s'] eqn:Hbody. simplify_eq.
  set (P := fun (r : GenerationControlResult) (s : st) => control_ok r = true ->
    exists g s1, ended g s1 /\ value r = Some (control s1) /\ world s1 = world s).
  cut (wp (run_generation_control_flow prompt options prefill_plan decode_plan) P P
         {| world := w; control := empty_control |}).
  { intros Hwp. exact (wp_body _ _ _ _ _ Hwp Hbody Hok). }
  clear Hbody Hok r. assert (Hrej : forall r s, rejected r s -> P r s).
  { unfold rejected, P. congruence. }
  assert (Hno : forall e, wp (fail_with e ok_status) P P {| world := w; control := empty_control |}).
  { intros. eapply wp_mono; [apply (fail_with_spec _ _ P)|apply Hrej|done]. }
  unfold run_generation_control_flow. rewrite admitted.
  destruct (prefix_step prefill_plan) as [f|] eqn:Hf; [|apply Hno].
  destruct (decode_step decode_plan) as [d|] eqn:Hd; [|apply Hno].
  wp_step. eapply wp_mono; [apply prefill_prefix_spec; [done|by split]|apply Hrej|].
  intros ? s1 Hs1. cbv beta in Hs1.
  destruct (if prefill_all_prompt_tokens options then _ else _) as [h|] eqn:Hh; [|eapply wp_mono; [apply (fail_with_spec _ _ P)|apply Hrej|done]].
  wp_step. eapply wp_mono; [by apply finish_prompt_spec|apply Hrej|].
  intros p s2 Hs2. wp_step. eapply wp_mono; [by apply generate_from_spec|apply Hrej|].
  intros ? s3 (g & Hg). do 3 wp_step. intros _. by exists g, s3.
Qed.
End Spec.

(** ** A runner over a pure target model

    The world is the list of consumed tokens.  Every callback takes the token
    or the tile it is given, at the position the runner is at. *)

Module PureRunner.
Section PureRunner.
Variable argmax : list Z -> Z.

Definition outcome (pos input : Z) (opts : ReferenceStepOptions) (t : Z) : ReferenceStepOutcome :=
  let stats := match step_logits_mode opts with kFullStatistics => true | _ => false end in
  {| step_value := Some {|
       position := u32 pos; input_token_id := input;
       logits := if compute_logits opts && stats
                 then Some {| logits_predicted_token_id := t; chosen_logit := 0;
                              max_log_probability := 0; logsumexp := 0 |}%float
                 else None;
       timing_ms := Some 1%float;
       prediction := if compute_logits opts && negb stats then Some t else None |};
     step_status := ok_status |}.

Definition step : StepFunction (list Z) := fun input opts consumed =>
  (outcome (Z.of_nat (length consumed)) input opts (argmax (consumed ++ [input])), consumed ++ [input]).

(** The retained-tile finalizer predicts again after the last consumed token. *)
Definition finish_retained : StepFunction (list Z) := fun input opts consumed =>
  (outcome (Z.of_nat (length consumed) - 1) input opts (argmax consumed), consumed).

Definition tile : PrefillTileFunction (list Z) := fun tokens opts consumed =>
  ({| tile_value := Some {|
        tile_steps := imap (fun i t => {|
          position := u32 (Z.of_nat (length consumed + i)); input_token_id := t;
          logits := None; timing_ms := None; prediction := None |}) tokens;
        step_count := Z.of_nat (length tokens); tile_timing := Some 1%float |};
      tile_status := ok_status |}, consumed ++ tokens).

Definition prefill : PrefillPlan (list Z) := {|
  prefix_step := Some step; finish_prefill := Some step; prefix_tile := Some tile;
  finish_prefill_from_tile := Some finish_retained |}.
Definition decode : DecodePlan (list Z) := {| decode_step := Some step |}.

Lemma outcome_predicts (options : GenerationControlOptions (list Z)) pos input opts t st t' :
  compute_logits opts = true -> step_logits_mode opts = logits_mode options ->
  step_value (outcome pos input opts t) = Some st -> predicts options st t' -> t' = t.
Proof.
  intros Hc Hm [= <-]. unfold predicts. rewrite <- Hm.
  destruct opts as [c ct mt []]; simpl in *; subst; simpl.
  - intros (l & [= <-] & <-). done.
  - by intros [= <-].
Qed.

Lemma contract (options : GenerationControlOptions (list Z)) :
  committed_token options = None ->
  RunnerContract options prefill decode (fun l w => w = l) (fun l t => t = argmax l).
Proof.
  assert (Hstep : advances options (fun l w => w = l) (fun l t => t = argmax l) step (fun x => [x])).
  { intros input opts l w o w' -> Hs _. unfold step in Hs. simplify_eq. split; [done|].
    intros. by eapply outcome_predicts. }
  intros Hc. split; intros *; try (intros [= <-]; exact Hstep).
  - intros [= <-] input opts l' w o w' -> Hs _. unfold finish_retained in Hs. simplify_eq.
    rewrite app_nil_r. split; [done|]. intros. by eapply outcome_predicts.
  - intros [= <-] -> Ht _. unfold tile in Ht. by simplify_eq.
  - congruence.
Qed.
End PureRunner.
End PureRunner.

(** ** Properties of a generation *)

Lemma rejected_run {W} prompt (options : GenerationControlOptions W) prefill decode e w :
  admission_error prompt options prefill decode = Some e ->
  run_generation_control prompt options prefill decode w = (failure e ok_status, w).
Proof.
  intros He. unfold run_generation_control, run_generation_control_flow. by rewrite He.
Qed.

Lemma admitted_run {W} prompt (options : GenerationControlOptions W) prefill decode w r w' :
  run_generation_control prompt options prefill decode w = (r, w') -> control_ok r = true ->
  admission_error prompt options prefill decode = None.
Proof.
  intros Hrun Hok. destruct (admission_error _ _ _ _) as [e|] eqn:He; [|done].
  rewrite (rejected_run _ _ _ _ _ _ He) in Hrun. by simplify_eq.
Qed.

(** C7. The transcript of a successful generation is complete and consistent
    whatever the callbacks answer, because the controller checks what it
    records: its steps are at the positions 0, 1, ... with the inputs prompt
    then generated tokens but the last; each generated token is the prediction
    of the step before it and inside the vocabulary; there are between one and
    [max_new_tokens] of them; the stop token can only be the last, and the stop
    reason says which of the three ways the generation ended; one timing is kept
    per scheduled prefix execution. *)
Theorem generation_transcript {W} prompt (options : GenerationControlOptions W) prefill decode w r w' :
  0 <= max_new_tokens options -> 0 <= prefill_chunk_size options ->
  run_generation_control prompt options prefill decode w = (r, w') ->
  control_ok r = true ->
  exists c, value r = Some c /\
  let g := generated_token_ids c in
  (input_token_id <$> steps c) = prompt ++ removelast g /\
  (forall i step, steps c !! i = Some step -> position step = u32 (Z.of_nat i)) /\
  (step_prediction options <$> drop (length prompt - 1) (steps c)) = g /\
  Forall (fun t => t < kReferenceVocabularySize) g /\
  1 <= Z.of_nat (length g) <= max_new_tokens options /\
  (forall j t, g !! j = Some t -> (S j < length g)%nat -> t <> stop_token_id options) /\
  match stop_reason c with
  | kImEnd => last g = Some (stop_token_id options)
  | kMaxNewTokens => last g <> Some (stop_token_id options) /\
                     Z.of_nat (length g) = max_new_tokens options
  | kStopCancelled => last g <> Some (stop_token_id options) /\ null (committed_token options) = false
  end /\
  length (prefix_execution_milliseconds (timing c)) = Z.to_nat (prefix_executions prompt options).
Proof.
  intros Hm Hc Hrun Hok.
  assert (Hk : RunnerContract options prefill decode (fun _ _ => True) (fun _ _ => True)) by by split.
  destruct (run_generation_control_spec _ _ _ _ _ _ Hk Hm Hc (admitted_run _ _ _ _ _ _ _ Hrun Hok)
    w r w' I Hrun Hok) as (g & s & [Hr Hend] & Hv & _).
  exists (control s). split; [done|]. rewrite (rn_generated _ _ _ _ _ _ Hr).
  pose proof (room_le _ _ _ _ _ _ Hr).
  split_and!; try apply Hr; try done; lia.
Qed.

Definition sum_vocabulary_argmax (l : list Z) : Z := foldr Z.add 0 l mod 23.

Definition sum_control_options : GenerationControlOptions (list Z) := {|
  max_new_tokens := 9; stop_token_id := 22; max_sequence_length := 100;
  prefill_chunk_size := 2; capture_trace := false; logits_mode := kPredictedTokenOnly;
  prefill_all_prompt_tokens := true; prefill_single_arbitrary_tile := false;
  committed_token := None |}.

Definition sum_generation : GenerationControlResult * list Z :=
  run_generation_control [1; 2; 4; 3; 9] sum_control_options
    (PureRunner.prefill sum_vocabulary_argmax) (PureRunner.decode sum_vocabulary_argmax) [].

Lemma generation_transcript_witness :
  generated_token_ids <$> value (fst sum_generation) = Some [19; 15; 7; 14; 5; 10; 20; 17; 11] /\
  exists c, value (fst sum_generation) = Some c /\
    (input_token_id <$> steps c) = [1; 2; 4; 3; 9] ++ removelast (generated_token_ids c) /\
    length (prefix_execution_milliseconds (timing c)) = 3%nat.
Proof.
  split; [vm_compute; reflexivity|].
  destruct (@generation_transcript (list Z) [1; 2; 4; 3; 9] sum_control_options
    (PureRunner.prefill sum_vocabulary_argmax) (PureRunner.decode sum_vocabulary_argmax) []
    (fst sum_generation) (snd sum_generation))
    as (c & Hv & Hi & _ & _ & _ & _ & _ & _ & Ht).
  - vm_compute. discriminate.
  - vm_compute. discriminate.
  - vm_compute. reflexivity.
  - vm_compute. reflexivity.
  - exists c. split; [exact Hv|]. split; [exact Hi|]. rewrite Ht. vm_compute. reflexivity.
Defined.

(** C6. The controller refines greedy decoding: with callbacks that consume
    what they are given and predict by [argmax], a successful generation is a
    prefix of the reference continuation of the prompt, and the whole of it
    unless the client cancelled — for scalar and tiled prefill alike. *)
Theorem generation_greedy {W} prompt (options : GenerationControlOptions W) prefill decode
    (K : list Z -> W -> Prop) (argmax : list Z -> Z) w r w' :
  RunnerContract options prefill decode K (fun l t => t = argmax l) -> K [] w ->
  0 <= max_new_tokens options -> 0 <= prefill_chunk_size options ->
  run_generation_control prompt options prefill decode w = (r, w') ->
  control_ok r = true ->
  let reference := greedy_until argmax (stop_token_id options) prompt
                     (Z.to_nat (max_new_tokens options)) in
  exists c, value r = Some c /\ generated_token_ids c `prefix_of` reference /\
    (stop_reason c <> kStopCancelled -> generated_token_ids c = reference) /\
    K (prompt ++ removelast (generated_token_ids c)) w'.
Proof.
  intros Hk HK Hm Hc Hrun Hok reference.
  destruct (run_generation_control_spec _ _ _ _ _ _ Hk Hm Hc (admitted_run _ _ _ _ _ _ _ Hrun Hok)
    w r w' HK Hrun Hok) as (g & s & [Hr Hend] & Hv & Hw).
  exists (control s). rewrite (rn_generated _ _ _ _ _ _ Hr).
  destruct (greedy_until_intro argmax (stop_token_id options) prompt g
    (Z.to_nat (max_new_tokens options))) as [Hp Hall].
  - apply Hr.
  - apply Hr.
  - pose proof (rn_length _ _ _ _ _ _ Hr). lia.
  - split_and!; [done|done| |rewrite <- Hw; apply Hr].
    intros Hne. apply Hall. destruct (stop_reason (control s)); [by left|right; lia|done].
Qed.

Lemma generation_greedy_witness :
  exists c, value (fst sum_generation) = Some c /\
    generated_token_ids c = greedy_until sum_vocabulary_argmax 22 [1; 2; 4; 3; 9] 9.
Proof.
  destruct (@generation_greedy (list Z) [1; 2; 4; 3; 9] sum_control_options
    (PureRunner.prefill sum_vocabulary_argmax) (PureRunner.decode sum_vocabulary_argmax)
    (fun l w => w = l) sum_vocabulary_argmax [] (fst sum_generation) (snd sum_generation))
    as (c & Hv & _ & Hall & _).
  - apply PureRunner.contract. reflexivity.
  - reflexivity.
  - vm_compute. discriminate.
  - vm_compute. discriminate.
  - vm_compute. reflexivity.
  - vm_compute. reflexivity.
  - exists c. split; [exact Hv|]. apply Hall. intros Hs.
    assert (Hc : (stop_reason <$> value (fst sum_generation)) = Some kMaxNewTokens)
      by (vm_compute; reflexivity).
    rewrite Hv in Hc. simpl in Hc. congruence.
Defined.

(** Admission: a request is refused exactly when an argument is invalid,
    when prompt and budget overflow 64 bits or when they need more steps than
    the sequence length, and a refused request never reaches a callback. *)
Theorem generation_admission {W} prompt (options : GenerationControlOptions W) prefill decode w :
  is_u32 (max_new_tokens options) -> is_u64 (Z.of_nat (length prompt)) ->
  let required := Z.of_nat (length prompt) + (max_new_tokens options - 1) in
  let refused e := run_generation_control prompt options prefill decode w = (failure e ok_status, w) in
  if invalid_arguments prompt options prefill decode then refused kInvalidArgument
  else if u64_max <? required then refused kArithmeticOverflow
  else if max_sequence_length options <? required then refused kCapacityExceeded
  else admission_error prompt options prefill decode = None.
Proof.
  intros Hm Hp required refused.
  assert (Hadm : admission_error prompt options prefill decode =
    if invalid_arguments prompt options prefill decode then Some kInvalidArgument
    else if u64_max <? required then Some kArithmeticOverflow
    else if max_sequence_length options <? required then Some kCapacityExceeded else None).
  { unfold admission_error. destruct (invalid_arguments _ _ _ _) eqn:Hi; [done|].
    assert (Hmax : max_new_tokens options <> 0).
    { intros H0. unfold invalid_arguments in Hi. rewrite H0 in Hi.
      repeat (apply orb_false_iff in Hi as [Hi ?]). done. }
    unfold checked_required_steps, is_u32, is_u64 in *.
    rewrite (u64_small (max_new_tokens options - 1)) by (unfold is_u64; lia).
    replace (u64_max - Z.of_nat (length prompt) <? max_new_tokens options - 1)
      with (u64_max <? required).
    - destruct (u64_max <? required) eqn:Hu; [done|]. bools.
      rewrite u64_small; [done|]. unfold is_u64, u64_max in *. lia.
    - unfold required. apply eq_true_iff_eq. rewrite !Z.ltb_lt. lia. }
  destruct (invalid_arguments _ _ _ _); [by apply rejected_run|].
  destruct (u64_max <? required); [by apply rejected_run|].
  destruct (max_sequence_length options <? required); [by apply rejected_run|done].
Qed.

Lemma generation_admission_witness :
  run_generation_control (repeat 5 95) sum_control_options
    (PureRunner.prefill sum_vocabulary_argmax) (PureRunner.decode sum_vocabulary_argmax) [7] =
  (failure kCapacityExceeded ok_status, [7]).
Proof.
  apply (@generation_admission (list Z) (repeat 5 95) sum_control_options
    (PureRunner.prefill sum_vocabulary_argmax) (PureRunner.decode sum_vocabulary_argmax) [7]).
  - vm_compute. split; [discriminate|reflexivity].
  - vm_compute. split; [discriminate|reflexivity].
Defined.

Lemma prefix_schedule_exact_witness :
  foldr Z.add 0 (tile_sizes sum_control_options 5 5 2) = 5.
Proof.
  destruct (@prefix_schedule_exact (list Z) sum_control_options [1; 2; 4; 3; 9]) as (Hs & _ & _).
  - reflexivity.
  - exact Hs.
Defined.
