(* ===== verification/Speculation.v ===== *)
(** * Speculation: the two decoders agree

    EngineControl's ordinary decode loop and MtpService's speculative one are
    the two branches of [run_generation_control_impl] after the first token;
    both refine the same reference, so they generate the same tokens. *)

From Stdlib Require Import Floats.
From S2P Require Import Prelude MtpControl Generation EngineControl MtpService.

(** What an ordinary generation that was not cancelled is. *)
Lemma ordinary_reference {W} prompt (options : GenerationControlOptions W) prefill decode
    (K : list Z -> W -> Prop) (argmax : list Z -> Z) w r w' c :
  RunnerContract options prefill decode K (fun l t => t = argmax l) -> K [] w ->
  0 <= EngineControl.max_new_tokens options -> 0 <= prefill_chunk_size options ->
  run_generation_control prompt options prefill decode w = (r, w') ->
  control_ok r = true -> value r = Some c -> stop_reason c <> kStopCancelled ->
  let stop := EngineControl.stop_token_id options in
  generated_token_ids c =
    greedy_until argmax stop prompt (Z.to_nat (EngineControl.max_new_tokens options)) /\
  (stop_reason c = kImEnd <-> last (generated_token_ids c) = Some stop).
Proof.
  intros Hk HK Hm Hc Hrun Hok Hval Hne stop.
  destruct (run_generation_control_spec _ _ _ _ _ _ Hk Hm Hc (admitted_run _ _ _ _ _ _ _ Hrun Hok)
    w r w' HK Hrun Hok) as (g & s & [Hr Hend] & Hv & _).
  rewrite Hv in Hval. injection Hval as <-. rewrite (rn_generated _ _ _ _ _ _ Hr).
  destruct (greedy_until_intro argmax stop prompt g (Z.to_nat (EngineControl.max_new_tokens options)))
    as [_ Hall]; [apply Hr|apply Hr|pose proof (rn_length _ _ _ _ _ _ Hr); lia|].
  destruct (stop_reason (EngineControl.control s)); [| |done].
  - split; [apply Hall; by left|done].
  - destruct Hend as [Hlast Hlen]. split; [apply Hall; right; lia|]. split; [done|].
    intros Hx. by rewrite Hx in Hlast.
Qed.

(** C5. Speculation changes nothing: from the same prompt, with the same
    budget and stop token and a target that computes the same [argmax], a
    speculative decode and an ordinary generation that both succeed without
    being cancelled return the same tokens and the same stop reason. *)
Theorem speculative_equals_ordinary {W V} `{!RoundBackend V} (argmax : list Z -> Z)
    (* the ordinary run *)
    prompt (options : GenerationControlOptions W) prefill decode_plan (K : list Z -> W -> Prop)
    w r w' c
    (* the speculative one *)
    (view : V -> txn) `{!RoundBackendLaws V argmax view, !UnsignedCounts V}
    clock current_position max_sequence_length_ length_ cancel (decode_options : DecodeOptions V)
    (s : Svc V) st s' :
  RunnerContract options prefill decode_plan K (fun l t => t = argmax l) -> K [] w ->
  0 < EngineControl.max_new_tokens options -> 0 <= prefill_chunk_size options ->
  run_generation_control prompt options prefill decode_plan w = (r, w') ->
  control_ok r = true -> value r = Some c -> stop_reason c <> kStopCancelled ->
  callbacks_neutral view cancel decode_options ->
  MtpService.max_new_tokens decode_options = EngineControl.max_new_tokens options ->
  MtpService.stop_token_id decode_options = EngineControl.stop_token_id options ->
  view (inner s) = Idle prompt ->
  generated_token_ids (MtpService.control s) = [argmax prompt] ->
  argmax prompt <> EngineControl.stop_token_id options ->
  stop_reason (MtpService.control s) = kMaxNewTokens ->
  decode clock current_position max_sequence_length_ length_ cancel decode_options s = (st, s') ->
  status_ok st = true -> stop_reason (MtpService.control s') <> kStopCancelled ->
  generated_token_ids (MtpService.control s') = generated_token_ids c /\
  stop_reason (MtpService.control s') = stop_reason c.
Proof.
  intros Hk HK Hm Hc Hrun Hok Hval Hne Hn Hmax Hstop Hv Hgen Hfirst Hs Hdec Hst Hne'.
  destruct (ordinary_reference _ _ _ _ _ _ _ _ _ _ Hk HK ltac:(lia) Hc Hrun Hok Hval Hne) as [Hg Hr].
  pose proof (decode_greedy argmax view clock current_position max_sequence_length_ length_ cancel
    decode_options Hn s prompt st s' Hv Hs Hdec Hst) as (out & ctx' & Ht & _ & _ & _ & Hr').
  unfold consumed, transcript, room in *. unfold transcript in *. rewrite Hgen in *.
  set (stop := EngineControl.stop_token_id options) in *.
  set (n := EngineControl.max_new_tokens options) in *.
  assert (Hlast : last ([argmax prompt] ++ out) = Some stop <-> last out = Some stop).
  { destruct out as [|x out _] using rev_ind; [simpl; split; congruence|].
    by rewrite app_assoc, !last_snoc. }
  assert (Hout : out = greedy_until argmax stop (prompt ++ [argmax prompt]) (Z.to_nat (n - 1))).
  { rewrite Hstop, Hmax in Hr'. destruct (stop_reason (MtpService.control s')); [apply Hr'|apply Hr'|done]. }
  assert (Heq : [argmax prompt] ++ out = generated_token_ids c).
  { rewrite Hg, Hout. replace (Z.to_nat n) with (S (Z.to_nat (n - 1))) by lia. simpl.
    by rewrite (proj2 (Z.eqb_neq _ _)) by done. }
  split; [by rewrite Ht|]. rewrite <- Heq in Hr. rewrite Hlast in Hr. rewrite Hstop in Hr'.
  destruct (stop_reason (MtpService.control s')) eqn:Hs'; [| |done].
  - symmetry. apply Hr. apply Hr'.
  - destruct (stop_reason c); [|done|done]. exfalso. by apply Hr', Hr.
Qed.

(** Both on the witnesses' target, from the prompt [1; 2]. *)
Definition both_options : GenerationControlOptions (list Z) := {|
  EngineControl.max_new_tokens := 12; EngineControl.stop_token_id := 22;
  EngineControl.max_sequence_length := 100;
  prefill_chunk_size := 1; capture_trace := false; logits_mode := kFullStatistics;
  prefill_all_prompt_tokens := false; prefill_single_arbitrary_tile := false;
  EngineControl.committed_token := None |}.

Definition both_decode_options : DecodeOptions txn := {|
  MtpService.max_new_tokens := 12; MtpService.stop_token_id := 22;
  MtpService.committed_token := None |}.

Definition both_service : Svc txn := {|
  inner := Idle [1; 6]; ticks := 0; last_emit := 0; report := fresh_report;
  MtpService.control := push_token 7 empty_control |}.

Definition both_speculative : ReferenceRunnerStatus * Svc txn :=
  @decode txn (PureTarget.backend sum_argmax sum_drafter)
    (fun n => 1000000 * Z.of_nat n) idle_length 100 3 None both_decode_options both_service.

Definition both_ordinary : GenerationControlResult * list Z :=
  run_generation_control [1; 6] both_options
    (PureRunner.prefill sum_argmax) (PureRunner.decode sum_argmax) [].

Definition both_control : GenerationControl := default empty_control (value (fst both_ordinary)).

Lemma speculative_equals_ordinary_witness :
  generated_token_ids (MtpService.control (snd both_speculative)) = generated_token_ids both_control /\
  stop_reason (MtpService.control (snd both_speculative)) = kImEnd.
Proof.
  destruct (@speculative_equals_ordinary (list Z) txn (PureTarget.backend sum_argmax sum_drafter)
    sum_argmax [1; 6] both_options (PureRunner.prefill sum_argmax) (PureRunner.decode sum_argmax)
    (fun l w => w = l) [] (fst both_ordinary) (snd both_ordinary) both_control
    id (PureTarget.laws sum_argmax sum_drafter) (PureTarget_unsigned sum_argmax sum_drafter)
    (fun n => 1000000 * Z.of_nat n) idle_length 100 3 None both_decode_options both_service
    (fst both_speculative) (snd both_speculative)) as [Hg Hs];
    [by apply PureRunner.contract|reflexivity|reflexivity|vm_compute; discriminate
    |vm_compute; reflexivity|vm_compute; reflexivity|vm_compute; reflexivity
    |vm_compute; discriminate|split; intros; discriminate|reflexivity|reflexivity|reflexivity
    |reflexivity|vm_compute; discriminate|reflexivity|vm_compute; reflexivity
    |vm_compute; reflexivity|vm_compute; discriminate|].
  split; [exact Hg|]. rewrite Hs. vm_compute. reflexivity.
Defined.
