(* ===== verification/Sha256.v ===== *)
(** * Sha256: the streaming digest (src/core/sha256.cpp)

    The hasher with its 64-byte buffer, byte counter and finalized flag, the
    compression function, the one-shot and the file variants, and the hex
    rendering.  Bytes are [Z] in [0, 256); the buffer keeps its stale contents
    between blocks, as the array does. *)

From Stdlib Require Import Ascii.
From S2P Require Import Prelude.

(** The rows of the source's table. *)
Definition kRoundConstants : list Z := mjoin [
  [0x428a2f98; 0x71374491; 0xb5c0fbcf; 0xe9b5dba5; 0x3956c25b];
  [0x59f111f1; 0x923f82a4; 0xab1c5ed5; 0xd807aa98; 0x12835b01];
  [0x243185be; 0x550c7dc3; 0x72be5d74; 0x80deb1fe; 0x9bdc06a7];
  [0xc19bf174; 0xe49b69c1; 0xefbe4786; 0x0fc19dc6; 0x240ca1cc];
  [0x2de92c6f; 0x4a7484aa; 0x5cb0a9dc; 0x76f988da; 0x983e5152];
  [0xa831c66d; 0xb00327c8; 0xbf597fc7; 0xc6e00bf3; 0xd5a79147];
  [0x06ca6351; 0x14292967; 0x27b70a85; 0x2e1b2138; 0x4d2c6dfc];
  [0x53380d13; 0x650a7354; 0x766a0abb; 0x81c2c92e; 0x92722c85];
  [0xa2bfe8a1; 0xa81a664b; 0xc24b8b70; 0xc76c51a3; 0xd192e819];
  [0xd6990624; 0xf40e3585; 0x106aa070; 0x19a4c116; 0x1e376c08];
  [0x2748774c; 0x34b0bcb5; 0x391c0cb3; 0x4ed8aa4a; 0x5b9cca4f];
  [0x682e6ff3; 0x748f82ee; 0x78a5636f; 0x84c87814; 0x8cc70208];
  [0x90befffa; 0xa4506ceb; 0xbef9a3f7; 0xc67178f2]].

Definition initial_state : list Z := [
  0x6a09e667; 0xbb67ae85; 0x3c6ef372; 0xa54ff53a;
  0x510e527f; 0x9b05688c; 0x1f83d9ab; 0x5be0cd19].

Definition RotateRight (value bits : Z) : Z :=
  Z.lor (Z.shiftr value bits) (u32 (Z.shiftl value (32 - bits))).

Definition ReadBigEndian32 (data : list Z) (i : Z) : Z :=
  Z.lor (Z.lor (Z.lor (Z.shiftl (at_ data i) 24) (Z.shiftl (at_ data (i + 1)) 16))
               (Z.shiftl (at_ data (i + 2)) 8))
        (at_ data (i + 3)).

Definition WriteBigEndian32 (value : Z) : list Z :=
  [u8 (Z.shiftr value 24); u8 (Z.shiftr value 16); u8 (Z.shiftr value 8); u8 value].

(** ** The compression function *)

Definition small_sigma0 (w : Z) : Z :=
  Z.lxor (Z.lxor (RotateRight w 7) (RotateRight w 18)) (Z.shiftr w 3).
Definition small_sigma1 (w : Z) : Z :=
  Z.lxor (Z.lxor (RotateRight w 17) (RotateRight w 19)) (Z.shiftr w 10).

(** Words [16 .. 63] of the schedule; [index] is the length so far. *)
Fixpoint extend_schedule (n : nat) (index : Z) (schedule : list Z) : list Z :=
  match n with
  | O => schedule
  | S n =>
      extend_schedule n (index + 1)
        (schedule ++ [u32 (at_ schedule (index - 16) + small_sigma0 (at_ schedule (index - 15))
                           + at_ schedule (index - 7) + small_sigma1 (at_ schedule (index - 2)))])
  end.

Definition message_schedule (block : list Z) : list Z :=
  extend_schedule 48 16
    ((fun index => ReadBigEndian32 block (Z.of_nat index * 4)) <$> seq 0 16).

Record Working := { wa : Z; wb : Z; wc : Z; wd : Z; we : Z; wf : Z; wg : Z; wh : Z }.

Definition round (constant word : Z) (s : Working) : Working :=
  let sum1 := Z.lxor (Z.lxor (RotateRight (we s) 6) (RotateRight (we s) 11)) (RotateRight (we s) 25) in
  let choose := Z.lxor (Z.land (we s) (wf s)) (Z.land (Z.lxor (we s) u32_max) (wg s)) in
  let temporary1 := u32 (wh s + sum1 + choose + constant + word) in
  let sum0 := Z.lxor (Z.lxor (RotateRight (wa s) 2) (RotateRight (wa s) 13)) (RotateRight (wa s) 22) in
  let majority := Z.lxor (Z.lxor (Z.land (wa s) (wb s)) (Z.land (wa s) (wc s)))
                         (Z.land (wb s) (wc s)) in
  let temporary2 := u32 (sum0 + majority) in
  {| wh := wg s; wg := wf s; wf := we s; we := u32 (wd s + temporary1);
     wd := wc s; wc := wb s; wb := wa s; wa := u32 (temporary1 + temporary2) |}.

Fixpoint rounds (constants schedule : list Z) (s : Working) : Working :=
  match constants, schedule with
  | k :: constants, w :: schedule => rounds constants schedule (round k w s)
  | _, _ => s
  end.

(** [transform], as a function of the eight state words. *)
Definition transform (state block : list Z) : list Z :=
  let s := rounds kRoundConstants (message_schedule block)
    {| wa := at_ state 0; wb := at_ state 1; wc := at_ state 2; wd := at_ state 3;
       we := at_ state 4; wf := at_ state 5; wg := at_ state 6; wh := at_ state 7 |} in
  [u32 (at_ state 0 + wa s); u32 (at_ state 1 + wb s); u32 (at_ state 2 + wc s);
   u32 (at_ state 3 + wd s); u32 (at_ state 4 + we s); u32 (at_ state 5 + wf s);
   u32 (at_ state 6 + wg s); u32 (at_ state 7 + wh s)].

(** ** The hasher *)

Record Sha256 := {
  state_ : list Z;
  buffer_ : list Z;
  buffer_size_ : Z;
  total_bytes_ : Z;
  finalized_ : bool;
  digest_ : list Z
}.

Definition fresh : Sha256 := {|
  state_ := initial_state; buffer_ := repeat 0 64; buffer_size_ := 0;
  total_bytes_ := 0; finalized_ := false; digest_ := repeat 0 32 |}.

(** [std::copy_n(source, |source|, buffer + offset)]. *)
Definition copy_to (offset : Z) (source buffer : list Z) : list Z :=
  take (Z.to_nat offset) buffer ++ source
  ++ drop (Z.to_nat offset + length source) buffer.

(** The [while (remaining >= 64)] loop; [n] bounds its iterations. *)
Fixpoint full_blocks (n : nat) (state input : list Z) : list Z * list Z :=
  match n with
  | O => (state, input)
  | S n =>
      if 64 <=? Z.of_nat (length input)
      then full_blocks n (transform state (take 64 input)) (drop 64 input)
      else (state, input)
  end.

(** The first branch of [update]: top up a partly filled buffer. *)
Definition top_up (input : list Z) (s : Sha256) : list Z * Sha256 :=
  if negb (buffer_size_ s =? 0) && negb (Z.of_nat (length input) =? 0) then
    let copied := Z.min (Z.of_nat (length input)) (64 - buffer_size_ s) in
    let buffer := copy_to (buffer_size_ s) (take (Z.to_nat copied) input) (buffer_ s) in
    let size := buffer_size_ s + copied in
    let input := drop (Z.to_nat copied) input in
    if size =? 64 then
      (input, {| state_ := transform (state_ s) buffer; buffer_ := buffer; buffer_size_ := 0;
                 total_bytes_ := total_bytes_ s; finalized_ := finalized_ s; digest_ := digest_ s |})
    else
      (input, {| state_ := state_ s; buffer_ := buffer; buffer_size_ := size;
                 total_bytes_ := total_bytes_ s; finalized_ := finalized_ s; digest_ := digest_ s |})
  else (input, s).

(** [update(data, size)]: [None] is the null pointer. *)
Definition update (data : option (list Z)) (size : Z) (s : Sha256) : bool * Sha256 :=
  if finalized_ s
     || (match data with None => true | Some _ => false end && negb (size =? 0))
     || (u64_max - total_bytes_ s <? size)
  then (false, s) else
  let input := take (Z.to_nat size) (default [] data) in
  let s := {| state_ := state_ s; buffer_ := buffer_ s; buffer_size_ := buffer_size_ s;
              total_bytes_ := u64 (total_bytes_ s + size); finalized_ := finalized_ s;
              digest_ := digest_ s |} in
  let '(input, s) := top_up input s in
  let '(state, input) := full_blocks (length input) (state_ s) input in
  if negb (Z.of_nat (length input) =? 0) then
    (true, {| state_ := state; buffer_ := copy_to 0 input (buffer_ s);
              buffer_size_ := Z.of_nat (length input); total_bytes_ := total_bytes_ s;
              finalized_ := finalized_ s; digest_ := digest_ s |})
  else
    (true, {| state_ := state; buffer_ := buffer_ s; buffer_size_ := buffer_size_ s;
              total_bytes_ := total_bytes_ s; finalized_ := finalized_ s; digest_ := digest_ s |}).

(** The big-endian length field. *)
Definition length_field (bit_length : Z) : list Z :=
  (fun i => u8 (Z.shiftr bit_length (8 * (7 - Z.of_nat i)))) <$> seq 0 8.

Definition finalize (s : Sha256) : list Z * Sha256 :=
  if finalized_ s then (digest_ s, s) else
  let bit_length := u64 (total_bytes_ s * 8) in
  let buffer := set_at (buffer_size_ s) 0x80 (buffer_ s) in
  let size := buffer_size_ s + 1 in
  let '(state, buffer, size) :=
    if 56 <? size then
      let buffer := copy_to size (repeat 0 (Z.to_nat (64 - size))) buffer in
      (transform (state_ s) buffer, buffer, 0)
    else (state_ s, buffer, size) in
  let buffer := copy_to size (repeat 0 (Z.to_nat (56 - size))) buffer in
  let buffer := copy_to 56 (length_field bit_length) buffer in
  let state := transform state buffer in
  let digest := mjoin (WriteBigEndian32 <$> state) in
  (digest, {| state_ := state; buffer_ := buffer; buffer_size_ := size;
              total_bytes_ := total_bytes_ s; finalized_ := true; digest_ := digest |}).

Definition sha256 (input : list Z) : list Z :=
  let '(_, s) := update (Some input) (Z.of_nat (length input)) fresh in
  fst (finalize s).

(** [sha256_file] on a stream that opens or not, delivers [reads] and then
    reaches its end or fails. *)
Inductive Sha256FileResult :=
  | FileDigest (digest : list Z)
  | CannotOpen | LengthExceeded | ReadFailed.

Fixpoint file_updates (reads : list (list Z)) (s : Sha256) : option Sha256 :=
  match reads with
  | [] => Some s
  | chunk :: reads =>
      if Z.of_nat (length chunk) =? 0 then file_updates reads s else
      match update (Some chunk) (Z.of_nat (length chunk)) s with
      | (true, s) => file_updates reads s
      | (false, _) => None
      end
  end.

Definition sha256_file (opened : bool) (reads : list (list Z)) (eof : bool) : Sha256FileResult :=
  if negb opened then CannotOpen else
  match file_updates reads fresh with
  | None => LengthExceeded
  | Some s => if negb eof then ReadFailed else FileDigest (fst (finalize s))
  end.

(** [Sha256Digest::hex]. *)
Definition hex_digit (n : Z) : ascii :=
  ascii_of_nat (Z.to_nat (if n <? 10 then 48 + n else 87 + n)).
Definition hex (bytes : list Z) : list ascii :=
  mjoin ((fun b => [hex_digit (b / 16); hex_digit (b mod 16)]) <$> bytes).

(** ** The specification: padding and chained compression (FIPS 180-4) *)

Fixpoint hash_blocks (n : nat) (state message : list Z) : list Z :=
  match n with
  | O => state
  | S n => hash_blocks n (transform state (take 64 message)) (drop 64 message)
  end.

Definition pad (m : list Z) : list Z :=
  let n := Z.of_nat (length m) in
  m ++ [0x80] ++ repeat 0 (Z.to_nat ((55 - n) mod 64)) ++ length_field (u64 (n * 8)).

Definition digest_of (m : list Z) : list Z :=
  mjoin (WriteBigEndian32 <$> hash_blocks (length (pad m) / 64) initial_state (pad m)).

Lemma hash_blocks_app k j h a b :
  length a = (64 * k)%nat ->
  hash_blocks (k + j) h (a ++ b) = hash_blocks j (hash_blocks k h a) b.
Proof.
  revert h a. induction k as [|k IH]; intros h a Ha.
  - by destruct a.
  - simpl. rewrite take_app_le, drop_app_le by lia.
    apply IH. rewrite length_drop. lia.
Qed.

Lemma full_blocks_spec n h input :
  (length input < 64 * S n)%nat ->
  exists k a b, input = a ++ b /\ length a = (64 * k)%nat /\ (length b < 64)%nat /\
    full_blocks n h input = (hash_blocks k h a, b).
Proof.
  revert h input. induction n as [|n IH]; intros h input Hn; simpl.
  - by exists 0%nat, [], input.
  - destruct (Z.leb_spec 64 (Z.of_nat (length input))).
    + destruct (IH (transform h (take 64 input)) (drop 64 input)) as (k & a & b & Hd & Ha & Hb & Hf).
      { rewrite length_drop. lia. }
      exists (S k), (take 64 input ++ a), b. rewrite <- app_assoc, <- Hd, take_drop.
      split_and!; [done|rewrite length_app, length_take; lia|done|].
      rewrite Hf. change (S k) with (1 + k)%nat.
      rewrite hash_blocks_app by (rewrite length_take; lia). cbn [hash_blocks].
      by rewrite take_take, Nat.min_id.
    + exists 0%nat, [], input. split_and!; done || lia.
Qed.

(** ** The buffer *)

Lemma length_copy_to off src buf :
  0 <= off -> off + Z.of_nat (length src) <= Z.of_nat (length buf) ->
  length (copy_to off src buf) = length buf.
Proof. intros. unfold copy_to. rewrite !length_app, length_take, length_drop. lia. Qed.

Lemma take_copy_to off src buf :
  0 <= off -> off + Z.of_nat (length src) <= Z.of_nat (length buf) ->
  take (Z.to_nat off + length src) (copy_to off src buf) = take (Z.to_nat off) buf ++ src.
Proof.
  intros. unfold copy_to. rewrite app_assoc, take_app_le.
  - apply take_ge. rewrite length_app, length_take. lia.
  - rewrite length_app, length_take. lia.
Qed.

(** Writing to the end of the buffer leaves no stale byte. *)
Lemma copy_to_end off src buf :
  0 <= off -> off + Z.of_nat (length src) = Z.of_nat (length buf) ->
  copy_to off src buf = take (Z.to_nat off) buf ++ src.
Proof.
  intros. unfold copy_to. rewrite (drop_ge buf), app_nil_r by lia. done.
Qed.

(** The hasher has absorbed [m]: whole blocks are compressed, the tail is in
    the buffer. *)
Record holds (m : list Z) (s : Sha256) : Prop := {
  ho_blocks : exists k blocks tail, m = blocks ++ tail /\ length blocks = (64 * k)%nat /\
    (length tail < 64)%nat /\ state_ s = hash_blocks k initial_state blocks /\
    buffer_size_ s = Z.of_nat (length tail) /\ take (length tail) (buffer_ s) = tail;
  ho_buffer : length (buffer_ s) = 64%nat;
  ho_open : finalized_ s = false
}.

Definition absorbed (m : list Z) (s : Sha256) : Prop :=
  holds m s /\ total_bytes_ s = Z.of_nat (length m).

Lemma absorbed_fresh : absorbed [] fresh.
Proof.
  split; [|done]. split; [|done..]. exists 0%nat, [], []. split_and!; try done. simpl. lia.
Qed.

Lemma top_up_spec m d s d' s' :
  holds m s -> top_up d s = (d', s') ->
  exists c, d = c ++ d' /\ holds (m ++ c) s' /\ total_bytes_ s' = total_bytes_ s /\
    (d' = [] \/ buffer_size_ s' = 0).
Proof.
  intros [(k & blocks & tail & Hm & Hk & Ht & Hst & Hsz & Htl) Hb Ho] Hup.
  unfold top_up in Hup. rewrite Hsz in Hup.
  destruct (negb _ && negb _) eqn:Hc; cycle 1.
  { simplify_eq. exists []. split_and!; [done| |done|].
    - rewrite app_nil_r. split; [|done..]. by exists k, blocks, tail.
    - apply andb_false_iff in Hc as [Hc|Hc]; bools; [right; lia|left].
      apply nil_length_inv. lia. }
  bools. set (copied := Z.min _ _) in *.
  assert (Hcopied : length (take (Z.to_nat copied) d) = Z.to_nat copied) by (rewrite length_take; lia).
  pose proof (length_copy_to (Z.of_nat (length tail)) (take (Z.to_nat copied) d) (buffer_ s)
    ltac:(lia) ltac:(lia)) as Hlen.
  pose proof (take_copy_to (Z.of_nat (length tail)) (take (Z.to_nat copied) d) (buffer_ s)
    ltac:(lia) ltac:(lia)) as Htake. rewrite Nat2Z.id, Htl, Hcopied in Htake.
  exists (take (Z.to_nat copied) d).
  destruct (Z.eqb_spec (Z.of_nat (length tail) + copied) 64) as [Hfull|Hpart]; simplify_eq.
  - split_and!; [by rewrite take_drop| |done|by right]. split; [|exact (eq_trans Hlen Hb)|done].
    exists (S k), (blocks ++ tail ++ take (Z.to_nat copied) d), [].
    split_and!; try done.
    + by rewrite app_nil_r, app_assoc.
    + rewrite !length_app. lia.
    + simpl. lia.
    + replace (S k) with (k + 1)%nat by lia. rewrite hash_blocks_app, Hst by done. simpl.
      f_equal. rewrite (take_ge (tail ++ _)) by (rewrite length_app; lia).
      rewrite <- Htake. symmetry. apply take_ge. rewrite Hlen. lia.
  - split_and!; [by rewrite take_drop| |done|left; apply drop_ge; lia].
    split; [|exact (eq_trans Hlen Hb)|done].
    exists k, blocks, (tail ++ take (Z.to_nat copied) d).
    cbn [buffer_ buffer_size_ state_]. rewrite length_app, Hcopied, Htake, app_assoc. split_and!; done || lia.
Qed.

Lemma update_absorbs m d s :
  absorbed m s -> Z.of_nat (length m) + Z.of_nat (length d) <= u64_max ->
  exists s', update (Some d) (Z.of_nat (length d)) s = (true, s') /\ absorbed (m ++ d) s'.
Proof.
  intros [Hh Htot] Hlen. unfold update. rewrite (ho_open _ _ Hh), Htot. simpl.
  rewrite (proj2 (Z.ltb_ge _ _)) by lia. rewrite Nat2Z.id, take_ge by lia.
  rewrite u64_small by (unfold is_u64, u64_max in *; lia). rewrite <- Nat2Z.inj_add, <- length_app.
  set (s1 := Build_Sha256 _ _ _ _ _ _).
  assert (H1 : holds m s1) by (by destruct Hh).
  assert (T1 : total_bytes_ s1 = Z.of_nat (length (m ++ d))) by done. clearbody s1.
  destruct (top_up d s1) as [d' s2] eqn:Hup.
  destruct (top_up_spec _ _ _ _ _ H1 Hup) as (c & -> & H2 & T2 & Hd').
  destruct (full_blocks_spec (length d') (state_ s2) d' ltac:(lia)) as (k & a & b & -> & Ha & Hb & ->).
  rewrite app_assoc in *.
  destruct H2 as [(k2 & blocks & tail & Hm & Hk2 & Ht & Hst & Hsz & Htl) Hbuf Hop].
  destruct (Z.eqb_spec (Z.of_nat (length b)) 0) as [Hz|Hz]; simpl; eexists; (split; [reflexivity|]);
    (split; [|simpl; congruence]); split; simpl; try done.
  - assert (b = []) as -> by (apply nil_length_inv; lia). rewrite app_nil_r in *.
    destruct Hd' as [->|Hzero].
    + destruct k; [|done]. rewrite app_nil_r. by exists k2, blocks, tail.
    + assert (tail = []) as -> by (apply nil_length_inv; lia). rewrite app_nil_r in *.
      exists (k2 + k)%nat, (blocks ++ a), []. rewrite app_nil_r, hash_blocks_app by done.
      rewrite length_app, Hm, <- Hst. split_and!; done || lia.
  - destruct Hd' as [Hnil|Hzero]; [by destruct a, b|].
    assert (tail = []) as -> by (apply nil_length_inv; lia). rewrite app_nil_r in *.
    exists (k2 + k)%nat, (blocks ++ a), b. rewrite hash_blocks_app by done.
    rewrite length_app, Hm, <- Hst. split_and!; try done; try lia; [by rewrite app_assoc|].
    pose proof (take_copy_to 0 b (buffer_ s2) ltac:(lia) ltac:(lia)) as Hc. simpl in Hc. done.
  - rewrite length_copy_to; [done|lia..].
Qed.

(** ** The final blocks *)

Lemma length_length_field n : length (length_field n) = 8%nat.
Proof. done. Qed.

Lemma take_set_at i v l :
  0 <= i < Z.of_nat (length l) ->
  take (Z.to_nat (i + 1)) (set_at i v l) = take (Z.to_nat i) l ++ [v].
Proof.
  intros Hi. unfold set_at. replace (Z.to_nat (i + 1)) with (S (Z.to_nat i)) by lia.
  erewrite take_S_r by (apply list_lookup_insert_eq; lia). by rewrite take_insert_ge by lia.
Qed.

(** The number of zero bytes depends on the tail only. *)
Lemma pad_zeros (m : list Z) k t :
  (length m = 64 * k + t)%nat -> (t < 64)%nat ->
  (55 - Z.of_nat (length m)) mod 64 =
  if (t <? 56)%nat then 55 - Z.of_nat t else 119 - Z.of_nat t.
Proof.
  intros Hm Ht. destruct (Nat.ltb_spec t 56).
  - symmetry. apply (Z.mod_unique_pos _ _ (- Z.of_nat k)); lia.
  - symmetry. apply (Z.mod_unique_pos _ _ (- Z.of_nat k - 1)); lia.
Qed.

(** The block that ends in the length field. *)
Lemma last_block buffer size n :
  length buffer = 64%nat -> 0 <= size <= 56 ->
  copy_to 56 (length_field n) (copy_to size (repeat 0 (Z.to_nat (56 - size))) buffer) =
  take (Z.to_nat size) buffer ++ repeat 0 (Z.to_nat (56 - size)) ++ length_field n.
Proof.
  intros Hb Hs. set (z := repeat 0 (Z.to_nat (56 - size))).
  assert (Hz : length z = Z.to_nat (56 - size)) by apply repeat_length.
  rewrite copy_to_end by (rewrite ?length_copy_to, ?length_length_field by lia; lia).
  replace (Z.to_nat 56) with (Z.to_nat size + length z)%nat by lia.
  rewrite take_copy_to by lia. by rewrite <- app_assoc.
Qed.

Lemma finalize_spec m s :
  absorbed m s -> fst (finalize s) = digest_of m /\
  digest_ (snd (finalize s)) = digest_of m /\ finalized_ (snd (finalize s)) = true.
Proof.
  intros [[(k & blocks & tail & Hm & Hk & Ht & Hst & Hsz & Htl) Hb Ho] Htot].
  assert (Hlen : (length m = 64 * k + length tail)%nat) by (rewrite Hm, length_app; lia).
  pose proof (pad_zeros m k (length tail) Hlen Ht) as Hz.
  unfold finalize. rewrite Ho, Hsz, Htot.
  set (lf := length_field (u64 (Z.of_nat (length m) * 8))).
  set (buf := set_at (Z.of_nat (length tail)) 128 (buffer_ s)).
  assert (Hbuf : length buf = 64%nat) by (unfold buf; by rewrite length_set_at).
  assert (Htake : take (Z.to_nat (Z.of_nat (length tail) + 1)) buf = tail ++ [128]).
  { unfold buf. rewrite take_set_at by lia. by rewrite Nat2Z.id, Htl. }
  set (zeros := if (length tail <? 56)%nat then _ else _) in Hz.
  assert (Hpad : forall final j, length final = (64 * j)%nat ->
    tail ++ [128] ++ repeat 0 (Z.to_nat zeros) ++ lf = final ->
    digest_of m = mjoin (WriteBigEndian32 <$> hash_blocks j (hash_blocks k initial_state blocks) final)).
  { intros final j Hf <-. unfold digest_of.
    assert (Hp : pad m = blocks ++ tail ++ [128] ++ repeat 0 (Z.to_nat zeros) ++ lf).
    { unfold pad. rewrite Hz. rewrite (app_assoc blocks), <- Hm. done. }
    rewrite Hp, length_app, Hk, Hf, <- Nat.mul_add_distr_l, Nat.mul_comm, Nat.div_mul by lia.
    by rewrite hash_blocks_app. }
  subst zeros.
  destruct (Z.ltb_spec 56 (Z.of_nat (length tail) + 1)) as [Hover|Hfit].
  - rewrite (proj2 (Nat.ltb_ge _ _)) in Hpad by lia.
    set (b1 := copy_to _ _ buf).
    assert (Hl1 : length b1 = 64%nat).
    { unfold b1. rewrite length_copy_to; rewrite ?repeat_length; lia. }
    unfold lf. rewrite last_block by lia. fold lf. cbn -[transform hash_blocks].
    assert (Hb1 : b1 = tail ++ [128] ++ repeat 0 (Z.to_nat (63 - Z.of_nat (length tail)))).
    { unfold b1. rewrite copy_to_end by (rewrite ?repeat_length; lia). rewrite Htake, <- app_assoc.
      do 3 f_equal. lia. }
    assert (Hd : digest_of m = mjoin (WriteBigEndian32 <$>
      transform (transform (state_ s) b1) (repeat 0 56 ++ lf))).
    { rewrite (Hpad (b1 ++ repeat 0 56 ++ lf) 2%nat).
      - cbn [hash_blocks]. rewrite <- Hst. rewrite take_app_length', drop_app_length' by done. by rewrite (take_ge (_ ++ lf)).
      - rewrite Hb1, !length_app, !repeat_length. subst lf. rewrite length_length_field. simpl. lia.
      - rewrite Hb1, <- !app_assoc. do 2 f_equal. rewrite (app_assoc (repeat 0 _)).
        rewrite <- repeat_app. do 2 f_equal. lia. }
    rewrite Hd. split_and!; reflexivity.
  - rewrite (proj2 (Nat.ltb_lt _ _)) in Hpad by lia.
    unfold lf. rewrite last_block by lia. fold lf. rewrite Htake.
    cbn -[transform hash_blocks].
    assert (Hd : digest_of m = mjoin (WriteBigEndian32 <$>
      transform (state_ s) ((tail ++ [128]) ++ repeat 0 (Z.to_nat (56 - (Z.of_nat (length tail) + 1))) ++ lf))).
    { rewrite (Hpad ((tail ++ [128]) ++ repeat 0 (Z.to_nat (56 - (Z.of_nat (length tail) + 1))) ++ lf) 1%nat).
      - cbn [hash_blocks]. rewrite <- Hst. rewrite take_ge; [done|].
        rewrite !length_app, repeat_length. subst lf. rewrite length_length_field. simpl. lia.
      - rewrite !length_app, repeat_length. subst lf. rewrite length_length_field. simpl. lia.
      - rewrite <- !app_assoc. do 4 f_equal. lia. }
    rewrite Hd. split_and!; reflexivity.
Qed.

(** ** Properties *)

(** The one-block vector of FIPS 180-4. *)
Example abc_vector :
  sha256 [97; 98; 99] =
  [0xba; 0x78; 0x16; 0xbf; 0x8f; 0x01; 0xcf; 0xea; 0x41; 0x41; 0x40; 0xde; 0x5d; 0xae; 0x22; 0x23;
   0xb0; 0x03; 0x61; 0xa3; 0x96; 0x17; 0x7a; 0x9c; 0xb4; 0x10; 0xff; 0x61; 0xf2; 0x00; 0x15; 0xad].
Proof. vm_compute. reflexivity. Qed.

(** A caller that stops at the first refused update. *)
Fixpoint update_all (chunks : list (list Z)) (s : Sha256) : bool * Sha256 :=
  match chunks with
  | [] => (true, s)
  | d :: chunks =>
      match update (Some d) (Z.of_nat (length d)) s with
      | (true, s) => update_all chunks s
      | (false, s) => (false, s)
      end
  end.

Lemma update_all_absorbs chunks m s :
  absorbed m s -> Z.of_nat (length m) + Z.of_nat (length (mjoin chunks)) <= u64_max ->
  exists s', update_all chunks s = (true, s') /\ absorbed (m ++ mjoin chunks) s'.
Proof.
  revert m s. induction chunks as [|d chunks IH]; intros m s Hs Hl; simpl in *.
  { exists s. by rewrite app_nil_r. }
  rewrite length_app in Hl.
  destruct (update_absorbs m d s Hs ltac:(lia)) as (s1 & -> & Hs1).
  destruct (IH (m ++ d) s1 Hs1) as (s2 & Hu & Hs2).
  { rewrite length_app. lia. }
  exists s2. by rewrite app_assoc.
Qed.

Lemma absorbed_updates chunks :
  Z.of_nat (length (mjoin chunks)) <= u64_max ->
  exists s, update_all chunks fresh = (true, s) /\ absorbed (mjoin chunks) s.
Proof.
  intros Hl. apply (update_all_absorbs chunks [] fresh absorbed_fresh). simpl. lia.
Qed.

(** Streaming is transparent: however a message of at most 2^64-1 bytes
    is cut into updates, every update is accepted and the digest is the one of
    the padded message compressed block by block; the one-shot function
    computes it too. *)
Theorem sha256_streaming chunks :
  Z.of_nat (length (mjoin chunks)) <= u64_max ->
  (exists s, update_all chunks fresh = (true, s) /\ fst (finalize s) = digest_of (mjoin chunks)) /\
  sha256 (mjoin chunks) = digest_of (mjoin chunks).
Proof.
  intros Hl. split.
  - destruct (absorbed_updates chunks Hl) as (s & Hu & Hs). exists s. split; [done|].
    by apply finalize_spec.
  - destruct (update_absorbs [] (mjoin chunks) fresh absorbed_fresh) as (s & Hu & Hs); [simpl; lia|].
    unfold sha256. rewrite Hu. by apply finalize_spec.
Qed.

Lemma sha256_streaming_witness :
  exists s, update_all [[97]; []; [98; 99]] fresh = (true, s) /\ fst (finalize s) = digest_of [97; 98; 99].
Proof. apply (sha256_streaming [[97]; []; [98; 99]]). vm_compute. discriminate. Defined.

Definition from_big_endian (l : list Z) : Z := foldl (fun n b => n * 256 + b) 0 l.

Lemma from_length_field n : is_u64 n -> from_big_endian (length_field n) = n.
Proof.
  intros Hn. unfold is_u64 in Hn. unfold from_big_endian, length_field. simpl. unfold u8.
  rewrite !Z.shiftr_div_pow2 by lia. simpl Z.pow. Z.div_mod_to_equations. lia.
Qed.

(** The padding is the one of FIPS 180-4 for every message below 2^61
    bytes: whole blocks, the message, one 0x80, fewer than 64 zero bytes and
    the bit length in the last eight bytes. *)
Theorem pad_well_formed m :
  Z.of_nat (length m) < 2 ^ 61 ->
  (length (pad m) mod 64 = 0)%nat /\
  exists zeros, (zeros < 64)%nat /\
    pad m = m ++ [0x80] ++ repeat 0 zeros ++ drop (length (pad m) - 8) (pad m) /\
    from_big_endian (drop (length (pad m) - 8) (pad m)) = 8 * Z.of_nat (length m).
Proof.
  intros Hl. set (n := Z.of_nat (length m)) in *. set (zeros := Z.to_nat ((55 - n) mod 64)).
  assert (Hz : (zeros < 64)%nat) by (pose proof (Z.mod_pos_bound (55 - n) 64 ltac:(lia)); lia).
  set (lf := length_field (u64 (n * 8))).
  assert (Hp : pad m = (m ++ [0x80] ++ repeat 0 zeros) ++ lf) by (by rewrite <- !app_assoc).
  assert (Hlen : length (pad m) = S (S (S (S (S (S (S (S (length (m ++ [0x80] ++ repeat 0 zeros)))))))))).
  { rewrite Hp, length_app. change (length lf) with 8%nat. lia. }
  assert (Hd : drop (length (pad m) - 8) (pad m) = lf).
  { rewrite Hlen. simpl Nat.sub. rewrite Nat.sub_0_r, Hp. apply drop_app_length. }
  split.
  - rewrite Hlen, !length_app, repeat_length. cbn [length]. unfold zeros.
    pose proof (Z.div_mod (55 - n) 64 ltac:(lia)). pose proof (Z.mod_pos_bound (55 - n) 64 ltac:(lia)).
    apply Nat.Lcm0.mod_divide. exists (Z.to_nat (1 - (55 - n) / 64)). subst n. lia.
  - exists zeros. rewrite Hd. split_and!; [done| |].
    + by rewrite Hp, <- !app_assoc.
    + unfold lf. rewrite u64_small by (unfold is_u64; lia). rewrite from_length_field; unfold is_u64; lia.
Qed.

Lemma pad_well_formed_witness : (length (pad (repeat 7%Z 100)) mod 64 = 0)%nat.
Proof. apply pad_well_formed. vm_compute. reflexivity. Defined.

(** At 2^61 bytes, still accepted by [update], the length field has wrapped. *)
Lemma bit_length_wraps : u64 (2 ^ 61 * 8) = 0 /\ 2 ^ 61 <= u64_max.
Proof. split; [done|]. unfold u64_max. lia. Qed.

(** Misuse: [update] is refused, and changes nothing, exactly when the
    digest is taken, a null pointer comes with a size, or the byte count would
    exceed 64 bits; a second [finalize] returns the same digest and state. *)
Theorem sha256_misuse (s : Sha256) data size :
  (fst (update data size s) = false <->
     finalized_ s = true \/ (data = None /\ size <> 0) \/ u64_max < total_bytes_ s + size) /\
  (fst (update data size s) = false -> snd (update data size s) = s) /\
  (let s' := snd (finalize s) in
   finalized_ s' = true /\ finalize s' = (fst (finalize s), s') /\ update data size s' = (false, s')).
Proof.
  set (bad := finalized_ s || (match data with None => true | Some _ => false end && negb (size =? 0))
     || (u64_max - total_bytes_ s <? size)).
  assert (Hu : if bad then update data size s = (false, s) else fst (update data size s) = true).
  { unfold update. fold bad. destruct bad; [done|].
    destruct (top_up _ _), (full_blocks _ _ _). by destruct (negb _). }
  assert (Hbad : bad = true <->
    finalized_ s = true \/ (data = None /\ size <> 0) \/ u64_max < total_bytes_ s + size).
  { unfold bad. rewrite !orb_true_iff, andb_true_iff, negb_true_iff, Z.eqb_neq, Z.ltb_lt.
    assert (u64_max - total_bytes_ s < size <-> u64_max < total_bytes_ s + size) by lia.
    destruct data; intuition congruence. }
  split_and!.
  - rewrite <- Hbad. destruct bad; [by rewrite Hu|]. rewrite Hu. done.
  - destruct bad; [by rewrite Hu|]. by rewrite Hu.
  - assert (Hf : finalized_ (snd (finalize s)) = true /\ digest_ (snd (finalize s)) = fst (finalize s)).
    { unfold finalize. destruct (finalized_ s) eqn:E; [done|]. by repeat case_match. }
    destruct Hf as [Hf Hd]. cbv zeta. split_and!; [done| |].
    + unfold finalize at 1. by rewrite Hf, Hd.
    + unfold update. by rewrite Hf.
Qed.

Lemma file_updates_absorbs reads m s s' :
  absorbed m s -> file_updates reads s = Some s' -> absorbed (m ++ mjoin reads) s'.
Proof.
  revert m s. induction reads as [|d reads IH]; intros m s Hs Hu; simpl in *.
  { simplify_eq. by rewrite app_nil_r. }
  destruct (Z.eqb_spec (Z.of_nat (length d)) 0) as [Hz|Hz].
  { assert (d = []) as -> by (apply nil_length_inv; lia). by apply (IH m s). }
  destruct (Z.le_gt_cases (Z.of_nat (length m) + Z.of_nat (length d)) u64_max) as [Hle|Hgt].
  - destruct (update_absorbs m d s Hs Hle) as (s1 & Hu1 & Hs1). rewrite Hu1 in Hu.
    rewrite app_assoc. by apply (IH _ s1).
  - exfalso. unfold update in Hu. destruct Hs as [Hh Ht].
    rewrite (ho_open _ _ Hh), Ht in Hu. simpl in Hu. by rewrite (proj2 (Z.ltb_lt _ _)) in Hu by lia.
Qed.

Lemma file_updates_total reads m s :
  absorbed m s -> Z.of_nat (length m) + Z.of_nat (length (mjoin reads)) <= u64_max ->
  exists s', file_updates reads s = Some s'.
Proof.
  revert m s. induction reads as [|d reads IH]; intros m s Hs Hl; simpl in *; [by eauto|].
  rewrite length_app in Hl. destruct (Z.eqb_spec (Z.of_nat (length d)) 0); [apply (IH m s Hs); lia|].
  destruct (update_absorbs m d s Hs) as (s1 & -> & Hs1); [lia|].
  apply (IH _ _ Hs1). rewrite length_app. lia.
Qed.

(** A file's digest is the digest of its content, however the reads cut
    it; a failed open and a failed read are reported as such, and the length
    error only when the content exceeds 2^64-1 bytes. *)
Theorem sha256_file_correct opened reads eof :
  match sha256_file opened reads eof with
  | FileDigest d => opened = true /\ eof = true /\ d = digest_of (mjoin reads)
  | CannotOpen => opened = false
  | LengthExceeded => opened = true /\ u64_max < Z.of_nat (length (mjoin reads))
  | ReadFailed => opened = true /\ eof = false
  end.
Proof.
  unfold sha256_file. destruct opened; [|done]. simpl.
  destruct (file_updates reads fresh) as [s|] eqn:Hu.
  - apply (file_updates_absorbs _ [] _ _ absorbed_fresh) in Hu. destruct eof; [|done].
    simpl. split_and!; [done..|]. by apply finalize_spec.
  - split; [done|].
    destruct (Z.le_gt_cases (Z.of_nat (length (mjoin reads))) u64_max) as [Hle|]; [|lia].
    destruct (file_updates_total reads [] fresh absorbed_fresh) as [s Hs]; [simpl; lia|congruence].
Qed.

(** ** The hex rendering *)

Definition from_hex_digit (c : ascii) : Z :=
  let n := Z.of_nat (nat_of_ascii c) in if n <? 58 then n - 48 else n - 87.

Fixpoint from_hex (l : list ascii) : list Z :=
  match l with
  | hi :: lo :: l => (16 * from_hex_digit hi + from_hex_digit lo) :: from_hex l
  | _ => []
  end.

Lemma from_hex_digit_hex d : 0 <= d < 16 -> from_hex_digit (hex_digit d) = d.
Proof.
  intros Hd. assert (d = 0 \/ d = 1 \/ d = 2 \/ d = 3 \/ d = 4 \/ d = 5 \/ d = 6 \/ d = 7 \/ d = 8
    \/ d = 9 \/ d = 10 \/ d = 11 \/ d = 12 \/ d = 13 \/ d = 14 \/ d = 15) as Hcase by lia.
  by repeat destruct Hcase as [->|Hcase]; [vm_compute..|subst].
Qed.

(** The hex form has two digits per byte and determines the digest. *)
Theorem hex_roundtrip bytes :
  Forall is_u8 bytes -> length (hex bytes) = (2 * length bytes)%nat /\ from_hex (hex bytes) = bytes.
Proof.
  induction 1 as [|b bytes Hb _ [Hl IH]]; [done|]. unfold is_u8 in Hb.
  change (hex (b :: bytes)) with (hex_digit (b / 16) :: hex_digit (b mod 16) :: hex bytes).
  split; [simpl; lia|]. cbn [from_hex]. rewrite IH.
  assert (0 <= b / 16 < 16 /\ 0 <= b mod 16 < 16 /\ b = 16 * (b / 16) + b mod 16)
    by (Z.div_mod_to_equations; lia).
  rewrite !from_hex_digit_hex by lia. f_equal. lia.
Qed.

Lemma hex_roundtrip_witness : from_hex (hex [0; 255; 16]) = [0; 255; 16].
Proof.
  apply hex_roundtrip.
  repeat (apply Forall_cons_2; [split; [vm_compute; discriminate|vm_compute; reflexivity]|]). apply Forall_nil_2.
Defined.
