(* ===== verification/OrderedMap.v ===== *)
(** * OrderedMap: [std::map] and [std::set] keyed by [std::string]

    A map is an association list in the order of its keys, which is the order
    the source iterates in.  Keys are byte strings compared as [std::less<>]
    compares them. *)

From Stdlib Require Import Sorting.Sorted.
From S2P Require Import Prelude.

(** [std::less<>] on [std::string]: unsigned lexicographic order. *)
Fixpoint key_lt (a b : list Z) : bool :=
  match a, b with
  | _, [] => false
  | [], _ :: _ => true
  | x :: a, y :: b => (x <? y) || ((x =? y) && key_lt a b)
  end.

Fixpoint map_find {A} (key : list Z) (values : list (list Z * A)) : option A :=
  match values with
  | [] => None
  | (k, v) :: values => if bool_decide (k = key) then Some v else map_find key values
  end.

(** [emplace]: no effect when the key is present. *)
Fixpoint map_emplace {A} (key : list Z) (value : A) (values : list (list Z * A)) : list (list Z * A) :=
  match values with
  | [] => [(key, value)]
  | (k, v) :: rest =>
      if key_lt key k then (key, value) :: values
      else if bool_decide (k = key) then values
      else (k, v) :: map_emplace key value rest
  end.

(** [std::set::emplace]. *)
Fixpoint set_emplace (key : list Z) (keys : list (list Z)) : list (list Z) :=
  match keys with
  | [] => [key]
  | k :: rest =>
      if key_lt key k then key :: keys
      else if bool_decide (k = key) then keys
      else k :: set_emplace key rest
  end.

Lemma key_lt_trans a b c : key_lt a b = true -> key_lt b c = true -> key_lt a c = true.
Proof.
  revert b c. induction a as [|x a IH]; intros [|y b] [|z c] Hab Hbc; simpl in *; try done.
  apply orb_true_iff in Hab, Hbc. apply orb_true_iff. rewrite !Z.ltb_lt in *.
  destruct Hab as [Hab|Hab], Hbc as [Hbc|Hbc]; bools; subst; rewrite ?Z.eqb_refl.
  - left. lia.
  - by left.
  - by left.
  - right. simpl. by eapply IH.
Qed.

Lemma key_lt_total a b : key_lt a b = false -> a <> b -> key_lt b a = true.
Proof.
  revert b. induction a as [|x a IH]; intros [|y b] Hab Hne; simpl in *; try done.
  apply orb_false_iff in Hab as [Hlt Heq]. bools. apply orb_true_iff.
  destruct Heq as [Heq|Heq]; bools; [left; apply Z.ltb_lt; lia|].
  destruct (Z.eqb_spec y x) as [->|]; [|left; apply Z.ltb_lt; lia].
  right. simpl. apply IH; congruence.
Qed.

Lemma key_lt_irrefl a : key_lt a a = false.
Proof. induction a; [done|]. simpl. by rewrite Z.ltb_irrefl, Z.eqb_refl. Qed.

(** The order of a [std::map]. *)
Definition keys_sorted {A} (values : list (list Z * A)) : Prop :=
  StronglySorted (fun a b => key_lt a.1 b.1 = true) values.

Lemma map_emplace_perm {A} key (v : A) values :
  map_find key values = None -> map_emplace key v values ≡ₚ (key, v) :: values.
Proof.
  induction values as [|[k u] values IH]; simpl; intros Hf; [done|].
  case_bool_decide; [done|]. destruct (key_lt key k); [done|].
  rewrite IH by done. constructor.
Qed.

Lemma map_emplace_sorted {A} key (v : A) values :
  keys_sorted values -> keys_sorted (map_emplace key v values).
Proof.
  unfold keys_sorted. induction 1 as [|[k u] values Hs IH Hf]; simpl.
  { repeat constructor. }
  destruct (key_lt key k) eqn:Hlt.
  - constructor; [by constructor|]. constructor; [done|].
    eapply Forall_impl; [exact Hf|]. simpl. intros [k' u'] Hk. simpl in *. by eapply key_lt_trans.
  - case_bool_decide as Heq; [by constructor|]. constructor; [done|].
    apply Forall_forall. intros [k' u'] Hin. rewrite Forall_forall in Hf. simpl.
    assert (Hor : (k', u') = (key, v) \/ (k', u') ∈ values).
    { clear -Hin. induction values as [|[k2 u2] values IH]; simpl in *.
      - left. by apply list_elem_of_singleton in Hin.
      - destruct (key_lt key k2); [by apply elem_of_cons in Hin|].
        case_bool_decide; [by right|]. rewrite elem_of_cons in *. tauto. }
    destruct Hor as [[= -> ->]|Hin']; [by apply key_lt_total|]. exact (Hf _ Hin').
Qed.

Lemma map_find_emplace {A} key (v : A) values key' :
  map_find key values = None ->
  map_find key' (map_emplace key v values) = if decide (key' = key) then Some v else map_find key' values.
Proof.
  induction values as [|[k u] values IH]; simpl; intros Hf.
  { case_bool_decide; case_decide; congruence. }
  destruct (decide (k = key)) as [|Hk]; [by rewrite bool_decide_true in Hf by done|].
  rewrite !(bool_decide_false (k = key)) in * by done. specialize (IH Hf).
  destruct (key_lt key k); simpl.
  - repeat case_bool_decide; case_decide; congruence.
  - rewrite IH. case_bool_decide; case_decide; congruence.
Qed.

(** An entry in key order is emplaced at the end. *)
Lemma emplace_last {A} (kvs : list (list Z * A)) k v kvs' :
  keys_sorted (kvs ++ (k, v) :: kvs') ->
  map_find k kvs = None /\ map_emplace k v kvs = kvs ++ [(k, v)].
Proof.
  induction kvs as [|[k0 v0] kvs IH]; [done|]. simpl. intros Hs.
  apply StronglySorted_inv in Hs as [Hs Hf]. destruct (IH Hs) as [Hfind Hemp].
  rewrite Forall_forall in Hf. assert (Hlt : key_lt k0 k = true).
  { apply (Hf (k, v)). apply elem_of_app. right. by left. }
  assert (Hne : k0 <> k) by (intros ->; by rewrite key_lt_irrefl in Hlt).
  rewrite bool_decide_false by done. split; [done|].
  destruct (key_lt k k0) eqn:Hgt.
  { pose proof (key_lt_trans _ _ _ Hlt Hgt) as Hc. by rewrite key_lt_irrefl in Hc. }
  by rewrite Hemp.
Qed.

(** ** Looking up *)

Lemma keys_sorted_cons {A} (kv : list Z * A) kvs :
  keys_sorted (kv :: kvs) -> keys_sorted kvs /\ forall kv', kv' ∈ kvs -> key_lt kv.1 kv'.1 = true.
Proof. intros [Hs Hf]%StronglySorted_inv. by rewrite Forall_forall in Hf. Qed.

Lemma key_lt_ne a b : key_lt a b = true -> a <> b.
Proof. intros Hlt ->. by rewrite key_lt_irrefl in Hlt. Qed.

Lemma map_find_elem {A} key (v : A) kvs : map_find key kvs = Some v -> (key, v) ∈ kvs.
Proof.
  induction kvs as [|[k u] kvs IH]; simpl; [done|].
  case_bool_decide; [intros [= ->]; subst; by left|]. intros Hf. right. by apply IH.
Qed.

Lemma elem_map_find {A} key (v : A) kvs : keys_sorted kvs -> (key, v) ∈ kvs -> map_find key kvs = Some v.
Proof.
  induction kvs as [|[k u] kvs IH]; intros Hs Hin; [by apply not_elem_of_nil in Hin|].
  apply keys_sorted_cons in Hs as [Hs Hlt]. simpl. apply elem_of_cons in Hin as [[= -> ->]|Hin].
  - by rewrite bool_decide_true.
  - apply Hlt in Hin as Hk. rewrite bool_decide_false by by apply key_lt_ne. by apply IH.
Qed.

Lemma map_find_None {A} key (kvs : list (list Z * A)) : map_find key kvs = None <-> key ∉ kvs.*1.
Proof.
  induction kvs as [|[k u] kvs IH]; simpl; [by split; [intros _; apply not_elem_of_nil|]|].
  rewrite not_elem_of_cons. case_bool_decide as Hk; [split; [done|]; intros [? _]; congruence|].
  rewrite IH. split; [by intros ?; split; [intros ->|]|by intros [_ ?]].
Qed.

Lemma keys_sorted_NoDup {A} (kvs : list (list Z * A)) : keys_sorted kvs -> NoDup kvs.*1.
Proof.
  induction kvs as [|[k u] kvs IH]; simpl; intros Hs; [constructor|].
  apply keys_sorted_cons in Hs as [Hs Hlt]. constructor; [|by apply IH].
  intros (kv & -> & Hin)%list_elem_of_fmap. apply Hlt in Hin. simpl in Hin. by rewrite key_lt_irrefl in Hin.
Qed.

(** ** Sets *)

Definition set_sorted (keys : list (list Z)) : Prop := StronglySorted (fun a b => key_lt a b = true) keys.

Lemma elem_of_set_emplace key keys k : k ∈ set_emplace key keys <-> k = key \/ k ∈ keys.
Proof.
  induction keys as [|k' keys IH]; simpl; [by rewrite elem_of_cons|].
  destruct (key_lt key k'); [by rewrite elem_of_cons|].
  case_bool_decide as Hk; [subst; rewrite elem_of_cons; tauto|]. rewrite !elem_of_cons, IH. tauto.
Qed.

Lemma set_emplace_sorted key keys : set_sorted keys -> set_sorted (set_emplace key keys).
Proof.
  unfold set_sorted. induction 1 as [|k keys Hs IH Hf]; simpl; [repeat constructor|].
  rewrite Forall_forall in Hf. destruct (key_lt key k) eqn:Hlt.
  - constructor; [constructor; [done|by apply Forall_forall]|]. constructor; [done|].
    apply Forall_forall. intros k' Hk'. eapply key_lt_trans; [exact Hlt|by apply Hf].
  - case_bool_decide as Heq; [constructor; [done|by apply Forall_forall]|]. constructor; [exact IH|].
    apply Forall_forall. intros k' [->|Hk']%elem_of_set_emplace; [|by apply Hf].
    apply key_lt_total; congruence.
Qed.

Lemma set_sorted_NoDup keys : set_sorted keys -> NoDup keys.
Proof.
  unfold set_sorted. induction 1 as [|k keys Hs IH Hf]; constructor; [|done].
  intros Hin. rewrite Forall_forall in Hf. apply Hf in Hin. by rewrite key_lt_irrefl in Hin.
Qed.

(** ** Sorted keys *)

Lemma keys_sorted_keys {A} (kvs : list (list Z * A)) : keys_sorted kvs <-> set_sorted kvs.*1.
Proof.
  unfold keys_sorted, set_sorted. induction kvs as [|[k v] kvs IH]; simpl; [split; constructor|].
  split; intros [Hs Hf]%StronglySorted_inv; (constructor; [by apply IH|]).
  - by apply Forall_fmap.
  - by apply Forall_fmap in Hf.
Qed.

Lemma set_sorted_app l k : set_sorted (l ++ k) ->
  set_sorted l /\ set_sorted k /\ forall a b, a ∈ l -> b ∈ k -> key_lt a b = true.
Proof.
  unfold set_sorted. induction l as [|x l IH]; simpl; intros Hs.
  { split_and!; [constructor|done|]. by intros a b Ha%not_elem_of_nil. }
  apply StronglySorted_inv in Hs as [Hs Hf]. destruct (IH Hs) as (Hl & Hk & Hlk).
  apply Forall_app in Hf as [Hfl Hfk]. split_and!; [by constructor|done|].
  rewrite Forall_forall in Hfk. intros a b [->|Ha]%elem_of_cons Hb; [by apply Hfk|by apply Hlk].
Qed.

Lemma set_sorted_app_intro l k : set_sorted l -> set_sorted k ->
  (forall a b, a ∈ l -> b ∈ k -> key_lt a b = true) -> set_sorted (l ++ k).
Proof.
  unfold set_sorted. induction 1 as [|x l Hs IH Hf]; intros Hk Hlk; simpl; [done|]. constructor.
  - apply IH; [done|]. intros a b Ha Hb. apply Hlk; [by right|done].
  - apply Forall_app. split; [done|]. apply Forall_forall. intros b Hb. apply Hlk; [by left|done].
Qed.

Lemma emplace_at_end {A} (kvs : list (list Z * A)) k v keys :
  set_sorted (kvs.*1 ++ k :: keys) -> map_emplace k v kvs = kvs ++ [(k, v)].
Proof.
  intros Hs. apply (emplace_last kvs k v []). apply keys_sorted_keys. rewrite fmap_app. simpl.
  apply set_sorted_app in Hs as (Hl & _ & Hlk). apply set_sorted_app_intro; [done|repeat constructor|].
  intros a b Ha ->%list_elem_of_singleton. apply Hlk; [done|by left].
Qed.

(** Sorted sets with the same elements are equal. *)
Lemma set_sorted_ext l k : set_sorted l -> set_sorted k -> (forall x, x ∈ l <-> x ∈ k) -> l = k.
Proof.
  unfold set_sorted. intros Hl. revert k. induction Hl as [|x l Hl IH Hx]; intros k Hk Hlk.
  { destruct k as [|y k]; [done|]. exfalso. apply (not_elem_of_nil y), Hlk. by left. }
  destruct Hk as [|y k Hk Hy]; [exfalso; apply (not_elem_of_nil x), Hlk; by left|].
  rewrite Forall_forall in Hx, Hy. assert (x = y) as ->.
  { destruct (proj1 (elem_of_cons _ _ _) (proj1 (Hlk x) ltac:(left))) as [|Hxk]; [done|].
    destruct (proj1 (elem_of_cons _ _ _) (proj2 (Hlk y) ltac:(left))) as [|Hyl]; [done|].
    pose proof (key_lt_trans _ _ _ (Hx _ Hyl) (Hy _ Hxk)) as Hc. by rewrite key_lt_irrefl in Hc. }
  f_equal. apply IH; [done|]. intros z. specialize (Hlk z). rewrite !elem_of_cons in Hlk. split; intros Hz.
  - destruct Hlk as [Hlk _]. destruct Hlk as [->|]; [by right| |done]. apply Hx in Hz. by rewrite key_lt_irrefl in Hz.
  - destruct Hlk as [_ Hlk]. destruct Hlk as [->|]; [by right| |done]. apply Hy in Hz. by rewrite key_lt_irrefl in Hz.
Qed.

Lemma set_emplace_length key keys : (length keys <= length (set_emplace key keys))%nat.
Proof.
  induction keys as [|k keys IH]; simpl; [lia|]. destruct (key_lt key k); simpl; [lia|].
  case_bool_decide; simpl; lia.
Qed.

(** The set of the values of a map, as a loop over the map builds it. *)
Definition emplace_all (keys set : list (list Z)) : list (list Z) := foldl (fun set key => set_emplace key set) set keys.

Lemma elem_of_emplace_all keys set k : k ∈ emplace_all keys set <-> k ∈ keys \/ k ∈ set.
Proof.
  revert set. induction keys as [|key keys IH]; intros set; simpl; [rewrite elem_of_nil; tauto|].
  rewrite IH, elem_of_set_emplace, elem_of_cons. tauto.
Qed.

Lemma emplace_all_sorted keys set : set_sorted set -> set_sorted (emplace_all keys set).
Proof. revert set. induction keys; simpl; intros set Hs; [done|]. by apply IHkeys, set_emplace_sorted. Qed.

Lemma emplace_all_length keys set : (length set <= length (emplace_all keys set))%nat.
Proof.
  revert set. induction keys as [|key keys IH]; intros set; simpl; [done|].
  etrans; [apply (set_emplace_length key)|apply IH].
Qed.

(** ** Entries in any order *)

(** The map that emplacing entries one after another builds. *)
Definition emplace_entries {A} (kvs done_ : list (list Z * A)) : list (list Z * A) :=
  foldl (fun values kv => map_emplace kv.1 kv.2 values) done_ kvs.

Lemma emplace_entries_sorted {A} (kvs done_ : list (list Z * A)) :
  keys_sorted done_ -> keys_sorted (emplace_entries kvs done_).
Proof.
  revert done_. induction kvs as [|kv kvs IH]; intros done_ Hs; simpl; [done|]. by apply IH, map_emplace_sorted.
Qed.

Lemma emplace_entries_in_order {A} (kvs done_ : list (list Z * A)) :
  keys_sorted (done_ ++ kvs) -> emplace_entries kvs done_ = done_ ++ kvs.
Proof.
  revert done_. induction kvs as [|[k v] kvs IH]; intros done_ Hs; simpl; [by rewrite app_nil_r|].
  destruct (emplace_last _ _ _ _ Hs) as [_ ->]. rewrite IH; [by rewrite <- app_assoc|by rewrite <- app_assoc].
Qed.

Lemma find_emplace_entries {A} (kvs done_ : list (list Z * A)) key :
  NoDup kvs.*1 -> (forall k, k ∈ kvs.*1 -> map_find k done_ = None) ->
  map_find key (emplace_entries kvs done_) =
  match map_find key kvs with Some v => Some v | None => map_find key done_ end.
Proof.
  revert done_. induction kvs as [|[k v] kvs IH]; intros done_ Hn Hd; simpl; [done|].
  cbn [fmap list_fmap fst] in Hn, Hd. apply NoDup_cons in Hn as [Hk Hn].
  assert (Hnone : map_find k done_ = None) by (apply Hd; left).
  rewrite IH; [|done|].
  - rewrite (map_find_emplace _ _ _ _ Hnone). case_bool_decide as Hkey; [subst key|].
    + apply map_find_None in Hk. rewrite Hk. by rewrite decide_True.
    + by rewrite decide_False.
  - intros k' Hk'. rewrite (map_find_emplace _ _ _ _ Hnone). rewrite decide_False by congruence.
    apply Hd. by right.
Qed.
