(* ===== verification/Json.v ===== *)
(** * Json: the strict JSON parser (src/io/json.cpp) and the string serializer
      (append_json_string of src/server/openai_protocol.cpp)

    Texts are lists of bytes.  The parser's state is the unread input with its
    position and the two budgets' counters; it returns a value, or the code and
    offset of the first failure, which is the only one recorded because every
    caller returns at once.  [std::map] is an association list sorted by the
    bytes of its keys.  Memory is never exhausted. *)

From Stdlib Require Import Sorting.Sorted.
From S2P Require Import Prelude OrderedMap.

Inductive ErrorCode :=
  | kNone | kInputTooLarge | kUnexpectedEnd | kUnexpectedToken | kInvalidLiteral
  | kInvalidNumber | kInvalidString | kInvalidEscape | kInvalidUnicodeEscape
  | kInvalidUnicodeScalar | kInvalidUtf8 | kDuplicateKey | kNestingTooDeep
  | kTooManyValues | kTooManyContainerItems | kTrailingCharacters
  | kAllocationFailure.

Inductive Value :=
  | Null
  | Bool (value : bool)
  | Number (text : list Z)
  | String (text : list Z)
  | Array (values : list Value)
  | Object (values : list (list Z * Value)).

(** ** Object keys *)

(** [Value::find]. *)
Definition find (value : Value) (key : list Z) : option Value :=
  match value with Object values => map_find key values | _ => None end.

(** ** Characters *)

Definition is_json_whitespace (c : Z) : bool := (c =? 32) || (c =? 9) || (c =? 10) || (c =? 13).
Definition is_decimal_digit (c : Z) : bool := (48 <=? c) && (c <=? 57).
Definition hex_value (c : Z) : Z :=
  if (48 <=? c) && (c <=? 57) then c - 48
  else if (97 <=? c) && (c <=? 102) then 10 + c - 97
  else if (65 <=? c) && (c <=? 70) then 10 + c - 65
  else -1.

Definition quote : Z := 34.
Definition backslash : Z := 92.

(** ** The parser monad *)

Record pstate := {
  rest : list Z;
  position : Z;
  value_count : Z;
  container_item_count : Z
}.

Inductive outcome (A : Type) :=
  | Good (a : A) (s : pstate)
  | Bad (code : ErrorCode) (offset : Z)
  | OutOfFuel.
Arguments Good {A}.
Arguments Bad {A}.
Arguments OutOfFuel {A}.

Definition parser (A : Type) : Type := pstate -> outcome A.

#[export] Instance parser_ret : MRet parser := fun _ a s => Good a s.
#[export] Instance parser_bind : MBind parser := fun _ _ k m s =>
  match m s with
  | Good a s => k a s
  | Bad code offset => Bad code offset
  | OutOfFuel => OutOfFuel
  end.

Definition fail_at {A} (code : ErrorCode) (offset : Z) : parser A := fun _ => Bad code offset.
Definition fail {A} (code : ErrorCode) : parser A := fun s => Bad code (position s).
Definition get : parser pstate := fun s => Good s s.
Definition peek : parser (option Z) := fun s => Good (head (rest s)) s.
Definition advance (n : nat) : parser unit := fun s =>
  Good tt {| rest := drop n (rest s); position := position s + Z.of_nat n;
             value_count := value_count s; container_item_count := container_item_count s |}.

Fixpoint leading (test : Z -> bool) (l : list Z) : nat :=
  match l with
  | [] => O
  | c :: l => if test c then S (leading test l) else O
  end.

(** [while (position_ < size && test(input_[position_])) ++position_]. *)
Definition skip_while (test : Z -> bool) : parser unit := fun s =>
  advance (leading test (rest s)) s.

Definition skip_whitespace : parser unit := skip_while is_json_whitespace.

(** ** Strings *)

Definition append_utf8 (scalar : Z) : list Z :=
  if scalar <=? 0x7F then [u8 scalar]
  else if scalar <=? 0x7FF then
    [Z.lor 0xC0 (Z.shiftr scalar 6); Z.lor 0x80 (Z.land scalar 0x3F)]
  else if scalar <=? 0xFFFF then
    [Z.lor 0xE0 (Z.shiftr scalar 12); Z.lor 0x80 (Z.land (Z.shiftr scalar 6) 0x3F);
     Z.lor 0x80 (Z.land scalar 0x3F)]
  else
    [u8 (Z.lor 0xF0 (Z.shiftr scalar 18)); Z.lor 0x80 (Z.land (Z.shiftr scalar 12) 0x3F);
     Z.lor 0x80 (Z.land (Z.shiftr scalar 6) 0x3F); Z.lor 0x80 (Z.land scalar 0x3F)].

Definition utf8_length (lead : Z) : nat :=
  if (0xC2 <=? lead) && (lead <=? 0xDF) then 2
  else if (0xE0 <=? lead) && (lead <=? 0xEF) then 3
  else if (0xF0 <=? lead) && (lead <=? 0xF4) then 4
  else 0.

Definition is_continuation (byte : Z) : bool := Z.land byte 0xC0 =? 0x80.

Definition second_invalid (lead second : Z) : bool :=
  negb (is_continuation second)
  || ((lead =? 0xE0) && (second <? 0xA0))
  || ((lead =? 0xED) && (0x9F <? second))
  || ((lead =? 0xF0) && (second <? 0x90))
  || ((lead =? 0xF4) && (0x8F <? second)).

(** The value is what the source appends to its output. *)
Definition copy_valid_utf8 : parser (list Z) :=
  s ← get;
  match rest s with
  | [] => fail kInvalidUtf8
  | lead :: _ =>
      let length_ := utf8_length lead in
      if decide (length_ = 0%nat) then fail kInvalidUtf8 else
      if decide (length (rest s) < length_)%nat then fail kInvalidUtf8 else
      let sequence := take length_ (rest s) in
      if second_invalid lead (at_ sequence 1) then fail kInvalidUtf8 else
      if negb (forallb is_continuation (drop 2 sequence)) then fail kInvalidUtf8 else
      _ ← advance length_; mret sequence
  end.

Fixpoint parse_hex4_loop (n : nat) (value : Z) : parser Z :=
  match n with
  | O => mret value
  | S n =>
      c ← peek;
      match c with
      | None => fail kInvalidUnicodeEscape
      | Some c =>
          let digit := hex_value c in
          if digit <? 0 then fail kInvalidUnicodeEscape else
          _ ← advance 1;
          parse_hex4_loop n (Z.lor (Z.shiftl value 4 mod 2 ^ 16) digit)
      end
  end.

Definition parse_hex4 : parser Z := parse_hex4_loop 4 0.

(** The [u] escape; [escape_offset] is the backslash's. *)
Definition parse_unicode_escape (escape_offset : Z) : parser (list Z) :=
  first ← parse_hex4;
  if (0xD800 <=? first) && (first <=? 0xDBFF) then
    s ← get;
    match rest s with
    | b :: u :: _ =>
        if negb (b =? backslash) || negb (u =? 117) then fail_at kInvalidUnicodeScalar escape_offset else
        _ ← advance 2;
        second ← parse_hex4;
        s ← get;
        if (second <? 0xDC00) || (0xDFFF <? second)
        then fail_at kInvalidUnicodeScalar (position s - 4)
        else mret (append_utf8 (0x10000 + Z.shiftl (first - 0xD800) 10 + (second - 0xDC00)))
    | _ => fail_at kInvalidUnicodeScalar escape_offset
    end
  else if (0xDC00 <=? first) && (first <=? 0xDFFF) then fail_at kInvalidUnicodeScalar escape_offset
  else mret (append_utf8 first).

(** From the backslash. *)
Definition parse_escape : parser (list Z) :=
  start ← get;
  _ ← advance 1;
  c ← peek;
  match c with
  | None => fail kUnexpectedEnd
  | Some escape =>
      _ ← advance 1;
      if (escape =? quote) || (escape =? backslash) || (escape =? 47) then mret [escape]
      else if escape =? 98 then mret [8]
      else if escape =? 102 then mret [12]
      else if escape =? 110 then mret [10]
      else if escape =? 114 then mret [13]
      else if escape =? 116 then mret [9]
      else if escape =? 117 then parse_unicode_escape (position start)
      else s ← get; fail_at kInvalidEscape (position s - 1)
  end.

(** The loop of [parse_string]; every iteration consumes a byte. *)
Fixpoint string_loop (fuel : nat) (output : list Z) : parser (list Z) :=
  match fuel with
  | O => fun _ => OutOfFuel
  | S fuel =>
      c ← peek;
      match c with
      | None => fail kUnexpectedEnd
      | Some byte =>
          if byte =? quote then _ ← advance 1; mret output
          else if byte =? backslash then bytes ← parse_escape; string_loop fuel (output ++ bytes)
          else if byte <=? 0x1F then fail kInvalidString
          else if byte <? 0x80 then _ ← advance 1; string_loop fuel (output ++ [byte])
          else bytes ← copy_valid_utf8; string_loop fuel (output ++ bytes)
      end
  end.

Definition parse_string : parser (list Z) :=
  _ ← advance 1;
  s ← get;
  string_loop (S (length (rest s))) [].

(** ** Literals and numbers *)

Definition parse_literal (literal : list Z) : parser unit :=
  s ← get;
  if bool_decide (take (length literal) (rest s) = literal)
  then advance (length literal)
  else fail kInvalidLiteral.

(** [if (position_ == size || !is_decimal_digit(...)) fail; do ++position_
    while (...)]. *)
Definition require_digits : parser unit :=
  c ← peek;
  match c with
  | Some c => if is_decimal_digit c then skip_while is_decimal_digit else fail kInvalidNumber
  | None => fail kInvalidNumber
  end.

Definition parse_integer_part : parser unit :=
  c ← peek;
  match c with
  | None => fail kInvalidNumber
  | Some c =>
      if c =? 48 then
        _ ← advance 1;
        d ← peek;
        match d with
        | Some d => if is_decimal_digit d then fail kInvalidNumber else mret tt
        | None => mret tt
        end
      else if (49 <=? c) && (c <=? 57) then skip_while is_decimal_digit
      else fail kInvalidNumber
  end.

Definition parse_fraction : parser unit :=
  c ← peek;
  match c with
  | Some c => if c =? 46 then _ ← advance 1; require_digits else mret tt
  | None => mret tt
  end.

Definition parse_exponent : parser unit :=
  c ← peek;
  match c with
  | Some c =>
      if (c =? 101) || (c =? 69) then
        _ ← advance 1;
        d ← peek;
        _ ← match d with
            | Some d => if (d =? 43) || (d =? 45) then advance 1 else mret tt
            | None => mret tt
            end;
        require_digits
      else mret tt
  | None => mret tt
  end.

Definition parse_number : parser Value :=
  start ← get;
  c ← peek;
  _ ← match c with
      | Some c => if c =? 45 then advance 1 else mret tt
      | None => mret tt
      end;
  _ ← parse_integer_part;
  _ ← parse_fraction;
  _ ← parse_exponent;
  s ← get;
  mret (Number (take (Z.to_nat (position s - position start)) (rest start))).

(** ** Values *)

Section Parser.
Variables max_depth max_values max_container_items : Z.

Definition consume_value : parser unit := fun s =>
  if max_values <=? value_count s then Bad kTooManyValues (position s)
  else Good tt {| rest := rest s; position := position s; value_count := value_count s + 1;
                  container_item_count := container_item_count s |}.

Definition consume_container_item : parser unit := fun s =>
  if max_container_items <=? container_item_count s then Bad kTooManyContainerItems (position s)
  else Good tt {| rest := rest s; position := position s; value_count := value_count s;
                  container_item_count := container_item_count s + 1 |}.

(** The loop of [parse_array]; [element] parses one value a level deeper. *)
Fixpoint array_loop (element : parser Value) (fuel : nat) (values : list Value) : parser Value :=
  match fuel with
  | O => fun _ => OutOfFuel
  | S fuel =>
      _ ← consume_container_item;
      value ← element;
      let values := values ++ [value] in
      _ ← skip_whitespace;
      c ← peek;
      match c with
      | None => fail kUnexpectedEnd
      | Some c =>
          if c =? 93 then _ ← advance 1; mret (Array values)
          else if negb (c =? 44) then fail kUnexpectedToken
          else _ ← advance 1; array_loop element fuel values
      end
  end.

Definition parse_array (element : parser Value) (depth : Z) : parser Value :=
  start ← get;
  if max_depth <=? depth then fail kNestingTooDeep else
  _ ← advance 1;
  _ ← skip_whitespace;
  c ← peek;
  if bool_decide (c = Some 93) then _ ← advance 1; mret (Array [])
  else array_loop element (length (rest start)) [].

Fixpoint object_loop (element : parser Value) (fuel : nat) (values : list (list Z * Value))
    : parser Value :=
  match fuel with
  | O => fun _ => OutOfFuel
  | S fuel =>
      _ ← skip_whitespace;
      c ← peek;
      match c with
      | None => fail kUnexpectedEnd
      | Some c =>
          if negb (c =? quote) then fail kUnexpectedToken else
          _ ← consume_container_item;
          key_start ← get;
          key ← parse_string;
          if negb (bool_decide (map_find key values = None))
          then fail_at kDuplicateKey (position key_start) else
          _ ← skip_whitespace;
          c ← peek;
          match c with
          | None => fail kUnexpectedEnd
          | Some c =>
              if negb (c =? 58) then fail kUnexpectedToken else
              _ ← advance 1;
              value ← element;
              let values := map_emplace key value values in
              _ ← skip_whitespace;
              c ← peek;
              match c with
              | None => fail kUnexpectedEnd
              | Some c =>
                  if c =? 125 then _ ← advance 1; mret (Object values)
                  else if negb (c =? 44) then fail kUnexpectedToken
                  else _ ← advance 1; object_loop element fuel values
              end
          end
      end
  end.

Definition parse_object (element : parser Value) (depth : Z) : parser Value :=
  start ← get;
  if max_depth <=? depth then fail kNestingTooDeep else
  _ ← advance 1;
  _ ← skip_whitespace;
  c ← peek;
  if bool_decide (c = Some 125) then _ ← advance 1; mret (Object [])
  else object_loop element (length (rest start)) [].

(** [parse_value]; [fuel] bounds the recursion depth. *)
Fixpoint parse_value (fuel : nat) (depth : Z) : parser Value :=
  match fuel with
  | O => fun _ => OutOfFuel
  | S fuel =>
      _ ← skip_whitespace;
      c ← peek;
      match c with
      | None => fail kUnexpectedEnd
      | Some c =>
          _ ← consume_value;
          if c =? 110 then _ ← parse_literal [110; 117; 108; 108]; mret Null
          else if c =? 116 then _ ← parse_literal [116; 114; 117; 101]; mret (Bool true)
          else if c =? 102 then _ ← parse_literal [102; 97; 108; 115; 101]; mret (Bool false)
          else if c =? quote then text ← parse_string; mret (String text)
          else if c =? 91 then parse_array (parse_value fuel (depth + 1)) depth
          else if c =? 123 then parse_object (parse_value fuel (depth + 1)) depth
          else if (c =? 45) || is_decimal_digit c then parse_number
          else fail kUnexpectedToken
      end
  end.

(** [Parser::run]. *)
Definition run : parser Value :=
  _ ← skip_whitespace;
  root ← parse_value (S (Z.to_nat max_depth)) 0;
  _ ← skip_whitespace;
  s ← get;
  match rest s with
  | [] => mret root
  | _ :: _ => fail kTrailingCharacters
  end.
End Parser.

Record ParseOptions := {
  max_input_bytes : Z;
  max_nesting_depth : Z;
  max_values : Z;
  max_container_items : Z
}.

Definition default_options : ParseOptions := {|
  max_input_bytes := 100000000; max_nesting_depth := 128;
  max_values := 1000000; max_container_items := 1000000 |}.

Definition kAbsoluteMaxNestingDepth : Z := 1024.

Definition start (input : list Z) : pstate :=
  {| rest := input; position := 0; value_count := 0; container_item_count := 0 |}.

Definition parse (input : list Z) (options : ParseOptions) : outcome Value :=
  if max_input_bytes options <? Z.of_nat (length input)
  then Bad kInputTooLarge (max_input_bytes options)
  else run (Z.min (max_nesting_depth options) kAbsoluteMaxNestingDepth)
         (max_values options) (max_container_items options) (start input).

(** ** Numbers *)

(** [text_.find_first_of(".eE") == npos]. *)
Definition is_integer (text : list Z) : bool :=
  negb (existsb (fun c => (c =? 46) || (c =? 101) || (c =? 69)) text).

(** [std::from_chars] in base 10: the longest run of digits, its value and the
    characters left. *)
Fixpoint decimal (value : Z) (l : list Z) : Z :=
  match l with
  | c :: l => decimal (value * 10 + (c - 48)) l
  | [] => value
  end.

Definition from_chars_magnitude (text : list Z) : option Z :=
  if negb (bool_decide (text = [])) && forallb is_decimal_digit text
  then Some (decimal 0 text) else None.

Definition to_uint64 (text : list Z) : option Z :=
  if negb (is_integer text) || bool_decide (text = []) || (default 0 (head text) =? 45) then None else
  n ← from_chars_magnitude text; if n <=? u64_max then Some n else None.

Definition to_int64 (text : list Z) : option Z :=
  if negb (is_integer text) || bool_decide (text = []) then None else
  n ← (if default 0 (head text) =? 45
       then n ← from_chars_magnitude (tail text); Some (- n)
       else from_chars_magnitude text);
  if (- 2 ^ 63 <=? n) && (n <=? 2 ^ 63 - 1) then Some n else None.

(** [std::from_chars] on a decimal text: the number [m * 10 ^ e] it means. *)
Definition decimal_parts (text : list Z) : Z * Z :=
  let negative := default 0 (head text) =? 45 in
  let t := if negative then tail text else text in
  let int := take (leading is_decimal_digit t) t in
  let t := drop (leading is_decimal_digit t) t in
  let frac := if default 0 (head t) =? 46 then take (leading is_decimal_digit (tail t)) (tail t) else [] in
  let t := if default 0 (head t) =? 46 then drop (leading is_decimal_digit (tail t)) (tail t) else t in
  let exponent :=
    match t with
    | [] => 0
    | _ :: t => if default 0 (head t) =? 45 then - decimal 0 (tail t)
                else decimal 0 (if default 0 (head t) =? 43 then tail t else t)
    end in
  ((if negative then -1 else 1) * decimal 0 (int ++ frac), exponent - Z.of_nat (length frac)).

(** The integer nearest to [num / den], the even one of two. *)
Definition nearest (num den : Z) : Z :=
  let q := num / den in
  let r := num mod den in
  if 2 * r <? den then q else if den <? 2 * r then q + 1 else if Z.even q then q else q + 1.

(** [floor (log2 (num / den))]. *)
Definition log2_quotient (num den : Z) : Z :=
  let k := Z.log2 num - Z.log2 den in
  if (if 0 <=? k then num <? den * 2 ^ k else num * 2 ^ (- k) <? den) then k - 1 else k.

(** The double nearest to [num / den > 0], as [m * 2 ^ e]; nothing when it is
    out of range. *)
Definition round_double (num den : Z) : option (Z * Z) :=
  let e := Z.max (-1074) (log2_quotient num den - 52) in
  let m := if 0 <=? e then nearest num (den * 2 ^ e) else nearest (num * 2 ^ (- e)) den in
  if (m =? 0) || ((0 <=? e) && (2 ^ 1024 <=? m * 2 ^ e)) then None else Some (m, e).

(** A finite double as [m * 2 ^ e]. *)
Definition to_double (text : list Z) : option (Z * Z) :=
  if bool_decide (text = []) then None else
  let '(m, e) := decimal_parts text in
  if m =? 0 then Some (0, 0) else
  '(r, k) ← (if 0 <=? e then round_double (Z.abs m * 10 ^ e) 1 else round_double (Z.abs m) (10 ^ (- e)));
  Some (Z.sgn m * r, k).

(** [==] of a double and a small integer. *)
Definition double_equals (d : Z * Z) (n : Z) : bool :=
  let '(m, e) := d in if 0 <=? e then m * 2 ^ e =? n else m =? n * 2 ^ (- e).

(** ** Reading a value *)

Definition as_object (value : Value) : option (list (list Z * Value)) :=
  match value with Object members => Some members | _ => None end.
Definition as_array (value : Value) : option (list Value) :=
  match value with Array values => Some values | _ => None end.
Definition as_string (value : Value) : option (list Z) :=
  match value with String text => Some text | _ => None end.
Definition as_number (value : Value) : option (list Z) :=
  match value with Number text => Some text | _ => None end.

(** [as_number] followed by [to_uint64]. *)
Definition as_uint64 (value : Value) : option Z := text ← as_number value; to_uint64 text.

Definition as_bool (value : Value) : option bool :=
  match value with Bool b => Some b | _ => None end.
Definition is_null (value : Value) : bool :=
  match value with Null => true | _ => false end.

(** ** The string serializer *)

Definition kHex (n : Z) : Z := if n <? 10 then 48 + n else 87 + n.

Definition append_json_byte (byte : Z) : list Z :=
  if byte =? quote then [backslash; quote]
  else if byte =? backslash then [backslash; backslash]
  else if byte =? 8 then [backslash; 98]
  else if byte =? 12 then [backslash; 102]
  else if byte =? 10 then [backslash; 110]
  else if byte =? 13 then [backslash; 114]
  else if byte =? 9 then [backslash; 116]
  else if byte <? 0x20 then
    [backslash; 117; 48; 48; kHex (Z.land (Z.shiftr byte 4) 15); kHex (Z.land byte 15)]
  else [byte].

Definition append_json_string (value : list Z) : list Z :=
  [quote] ++ mjoin (append_json_byte <$> value) ++ [quote].

(** [std::to_string] of an integer. *)
Fixpoint decimal_digits (fuel : nat) (n : Z) : list Z :=
  match fuel with
  | O => []
  | S fuel => if n <? 10 then [48 + n] else decimal_digits fuel (n / 10) ++ [48 + n mod 10]
  end.
Definition to_string (n : Z) : list Z :=
  (if n <? 0 then [45] else []) ++ decimal_digits (S (Z.to_nat (Z.log2 (Z.abs n)))) (Z.abs n).

(** ** Bytes and UTF-8 *)

(** A decidable fact about small integers, checked by evaluation. *)
Lemma forall_below (n : nat) (P : Z -> bool) x :
  forallb P (Z.of_nat <$> seq 0 n) = true -> 0 <= x < Z.of_nat n -> P x = true.
Proof.
  intros Hall Hx. rewrite forallb_forall in Hall. apply Hall.
  apply in_map_iff. exists (Z.to_nat x). split; [lia|]. apply in_seq. lia.
Qed.

Definition scalar_value (z : Z) : Prop := 0 <= z < 0x110000 /\ ~ (0xD800 <= z <= 0xDFFF).

(** A byte string is UTF-8 when it is a sequence of encoded scalar values. *)
Definition utf8 (bytes : list Z) : Prop :=
  exists scalars, Forall scalar_value scalars /\ bytes = mjoin (append_utf8 <$> scalars).

Lemma utf8_nil : utf8 [].
Proof. by exists []. Qed.

Lemma utf8_app a b : utf8 a -> utf8 b -> utf8 (a ++ b).
Proof.
  intros (la & Ha & ->) (lb & Hb & ->). exists (la ++ lb).
  rewrite fmap_app, join_app. split; [by apply Forall_app|done].
Qed.

Lemma utf8_scalar z : scalar_value z -> utf8 (append_utf8 z).
Proof. intros Hz. exists [z]. split; [by constructor|]. simpl. by rewrite app_nil_r. Qed.

Lemma lor_80 x : 0 <= x < 64 -> Z.lor 0x80 x = 0x80 + x.
Proof.
  intros Hx. apply Z.eqb_eq.
  exact (forall_below 64 (fun x => Z.lor 0x80 x =? 0x80 + x) x eq_refl Hx).
Qed.
Lemma lor_C0 x : 0 <= x < 32 -> Z.lor 0xC0 x = 0xC0 + x.
Proof.
  intros Hx. apply Z.eqb_eq.
  exact (forall_below 32 (fun x => Z.lor 0xC0 x =? 0xC0 + x) x eq_refl Hx).
Qed.
Lemma lor_E0 x : 0 <= x < 16 -> Z.lor 0xE0 x = 0xE0 + x.
Proof.
  intros Hx. apply Z.eqb_eq.
  exact (forall_below 16 (fun x => Z.lor 0xE0 x =? 0xE0 + x) x eq_refl Hx).
Qed.
Lemma lor_F0 x : 0 <= x < 8 -> Z.lor 0xF0 x = 0xF0 + x.
Proof.
  intros Hx. apply Z.eqb_eq.
  exact (forall_below 8 (fun x => Z.lor 0xF0 x =? 0xF0 + x) x eq_refl Hx).
Qed.
Lemma continuation_range x : is_u8 x -> is_continuation x = (0x80 <=? x) && (x <? 0xC0).
Proof.
  intros Hx. apply eqb_prop.
  exact (forall_below 256 (fun x => eqb (is_continuation x) ((0x80 <=? x) && (x <? 0xC0))) x eq_refl Hx).
Qed.

(** The encoder in arithmetic form. *)
Lemma append_utf8_arith z :
  0 <= z < 0x110000 ->
  append_utf8 z =
    if z <=? 0x7F then [z]
    else if z <=? 0x7FF then [0xC0 + z / 64; 0x80 + z mod 64]
    else if z <=? 0xFFFF then [0xE0 + z / 4096; 0x80 + z / 64 mod 64; 0x80 + z mod 64]
    else [0xF0 + z / 262144; 0x80 + z / 4096 mod 64; 0x80 + z / 64 mod 64; 0x80 + z mod 64].
Proof.
  intros Hz. unfold append_utf8. change 0x3F with (Z.ones 6).
  rewrite !Z.land_ones, !Z.shiftr_div_pow2 by lia.
  change (2 ^ 6) with 64. change (2 ^ 12) with 4096. change (2 ^ 18) with 262144.
  pose proof (Z.mod_pos_bound z 64 ltac:(lia)). pose proof (Z.mod_pos_bound (z / 64) 64 ltac:(lia)).
  pose proof (Z.mod_pos_bound (z / 4096) 64 ltac:(lia)).
  destruct (Z.leb_spec z 0x7F); [unfold u8; by rewrite Z.mod_small by lia|].
  destruct (Z.leb_spec z 0x7FF).
  { assert (0 <= z / 64 < 32) by (Z.div_mod_to_equations; lia). by rewrite lor_C0, lor_80. }
  destruct (Z.leb_spec z 0xFFFF).
  { assert (0 <= z / 4096 < 16) by (Z.div_mod_to_equations; lia). by rewrite lor_E0, !lor_80. }
  assert (0 <= z / 262144 < 8) by (Z.div_mod_to_equations; lia).
  rewrite lor_F0, !lor_80 by lia. unfold u8. by rewrite Z.mod_small by lia.
Qed.

(** What [copy_valid_utf8] checks of a sequence, as one test. *)
Definition utf8_sequence (l : list Z) : bool :=
  match l with
  | lead :: _ =>
      negb (bool_decide (utf8_length lead = 0%nat)) && bool_decide (length l = utf8_length lead)
      && negb (second_invalid lead (at_ l 1)) && forallb is_continuation (drop 2 l)
  | [] => false
  end.

Lemma utf8_length_cases lead :
  (utf8_length lead = 2%nat /\ 0xC2 <= lead <= 0xDF) \/
  (utf8_length lead = 3%nat /\ 0xE0 <= lead <= 0xEF) \/
  (utf8_length lead = 4%nat /\ 0xF0 <= lead <= 0xF4) \/
  (utf8_length lead = 0%nat /\ (lead < 0xC2 \/ 0xF4 < lead)).
Proof.
  unfold utf8_length.
  destruct (Z.leb_spec 0xC2 lead), (Z.leb_spec lead 0xDF), (Z.leb_spec 0xE0 lead),
    (Z.leb_spec lead 0xEF), (Z.leb_spec 0xF0 lead), (Z.leb_spec lead 0xF4); simpl; lia.
Qed.

(** The continuation bytes of a sequence, as six-bit digits. *)
Lemma continuation_digit x : is_u8 x -> is_continuation x = true -> 0 <= x - 0x80 < 64.
Proof. intros Hx Hc. rewrite continuation_range in Hc by done. bools. lia. Qed.

Lemma second_valid lead x :
  is_u8 x -> second_invalid lead x = false ->
  0 <= x - 0x80 < 64 /\ (lead = 0xE0 -> 0xA0 <= x) /\ (lead = 0xED -> x <= 0x9F) /\
  (lead = 0xF0 -> 0x90 <= x) /\ (lead = 0xF4 -> x <= 0x8F).
Proof.
  intros Hx Hs. unfold second_invalid in Hs.
  repeat (apply orb_false_iff in Hs as [Hs ?]). apply negb_false_iff in Hs.
  split; [by apply continuation_digit|]. split_and!; intros ->; simpl in *; bools; lia.
Qed.

(** The scalar value of a two, three or four byte sequence. *)
Lemma append_utf8_2 a x :
  0xC2 <= a <= 0xDF -> 0 <= x - 0x80 < 64 ->
  let z := (a - 0xC0) * 64 + (x - 0x80) in 0x7F < z < 0x800 /\ append_utf8 z = [a; x].
Proof.
  intros Ha Hx z. assert (Hz : 0x7F < z < 0x800) by lia. split; [done|].
  rewrite append_utf8_arith by lia.
  rewrite (proj2 (Z.leb_gt z 0x7F)), (proj2 (Z.leb_le z 0x7FF)) by lia. unfold z.
  repeat f_equal; Z.div_mod_to_equations; lia.
Qed.

Lemma append_utf8_3 a x y :
  0xE0 <= a <= 0xEF -> 0 <= x - 0x80 < 64 -> 0 <= y - 0x80 < 64 -> (a = 0xE0 -> 0xA0 <= x) ->
  let z := (a - 0xE0) * 4096 + (x - 0x80) * 64 + (y - 0x80) in
  0x7FF < z < 0x10000 /\ append_utf8 z = [a; x; y].
Proof.
  intros Ha Hx Hy He z. assert (Hz : 0x7FF < z < 0x10000) by lia. split; [done|].
  rewrite append_utf8_arith by lia.
  rewrite (proj2 (Z.leb_gt z 0x7F)), (proj2 (Z.leb_gt z 0x7FF)), (proj2 (Z.leb_le z 0xFFFF)) by lia.
  unfold z. repeat f_equal; Z.div_mod_to_equations; lia.
Qed.

Lemma append_utf8_4 a x y w :
  0xF0 <= a <= 0xF4 -> 0 <= x - 0x80 < 64 -> 0 <= y - 0x80 < 64 -> 0 <= w - 0x80 < 64 ->
  (a = 0xF0 -> 0x90 <= x) -> (a = 0xF4 -> x <= 0x8F) ->
  let z := (a - 0xF0) * 262144 + (x - 0x80) * 4096 + (y - 0x80) * 64 + (w - 0x80) in
  0xFFFF < z < 0x110000 /\ append_utf8 z = [a; x; y; w].
Proof.
  intros Ha Hx Hy Hw Hl Hh z. assert (Hz : 0xFFFF < z < 0x110000) by lia. split; [done|].
  rewrite append_utf8_arith by lia.
  rewrite (proj2 (Z.leb_gt z 0x7F)), (proj2 (Z.leb_gt z 0x7FF)), (proj2 (Z.leb_gt z 0xFFFF)) by lia.
  unfold z. repeat f_equal; Z.div_mod_to_equations; lia.
Qed.

Lemma utf8_sequence_sound l :
  Forall is_u8 l -> utf8_sequence l = true ->
  exists z, 0x7F < z /\ scalar_value z /\ l = append_utf8 z.
Proof.
  intros Hl Hs. destruct l as [|lead l]; [done|]. unfold utf8_sequence in Hs.
  apply andb_true_iff in Hs as [Hs Htail]. apply andb_true_iff in Hs as [Hs Hsec].
  apply andb_true_iff in Hs as [Hs Hlen]. apply negb_true_iff in Hs, Hsec.
  apply bool_decide_eq_true in Hlen. apply bool_decide_eq_false in Hs.
  apply Forall_cons in Hl as [Hlead Hl].
  destruct (utf8_length_cases lead) as [[Hn Hr]|[[Hn Hr]|[[Hn Hr]|[Hn _]]]]; [..|done];
    rewrite Hn in Hlen; destruct l as [|x l]; try discriminate Hlen;
    change (at_ (lead :: x :: l) 1) with x in Hsec;
    apply Forall_cons in Hl as [Hx Hl]; apply (second_valid lead x Hx) in Hsec as (Hd & H3 & H4 & H5 & H6).
  - destruct l; [|discriminate Hlen].
    destruct (append_utf8_2 lead x Hr Hd) as [Hz He]. eexists. split; [|split; [|symmetry; exact He]];
      unfold scalar_value; lia.
  - destruct l as [|y [|]]; try discriminate Hlen. simpl in Htail. bools.
    apply Forall_cons in Hl as [Hy _].
    assert (Hdy : 0 <= y - 0x80 < 64) by (by apply continuation_digit).
    destruct (append_utf8_3 lead x y Hr Hd Hdy H3) as [Hz He].
    eexists. split; [|split; [|symmetry; exact He]]; unfold scalar_value; lia.
  - destruct l as [|y [|w [|]]]; try discriminate Hlen. simpl in Htail. bools.
    apply Forall_cons in Hl as [Hy Hl]. apply Forall_cons in Hl as [Hw _].
    assert (Hdy : 0 <= y - 0x80 < 64) by (by apply continuation_digit).
    assert (Hdw : 0 <= w - 0x80 < 64) by (by apply continuation_digit).
    destruct (append_utf8_4 lead x y w Hr Hd Hdy Hdw H5 H6) as [Hz He].
    eexists. split; [|split; [|symmetry; exact He]]; unfold scalar_value; lia.
Qed.

Lemma append_utf8_bytes z : scalar_value z -> Forall is_u8 (append_utf8 z).
Proof.
  intros [Hz _]. rewrite append_utf8_arith by done. unfold is_u8.
  repeat case_match; repeat (apply Forall_cons_2 || apply Forall_nil_2);
    bools; Z.div_mod_to_equations; lia.
Qed.

Lemma utf8_sequence_intro lead n x l :
  utf8_length lead = S (S n) -> length l = n -> second_invalid lead x = false ->
  forallb is_continuation l = true -> utf8_sequence (lead :: x :: l) = true.
Proof.
  intros Hn Hl Hs Hf. unfold utf8_sequence. rewrite Hn.
  change (at_ (lead :: x :: l) 1) with x. change (drop 2 (lead :: x :: l)) with (drop 0 l).
  rewrite drop_0, Hs, Hf. simpl length. by rewrite Hl, bool_decide_false, bool_decide_true by done.
Qed.

Lemma continuation_intro a : is_continuation (0x80 + a mod 64) = true.
Proof.
  assert (0 <= a mod 64 < 64) by (apply Z.mod_pos_bound; lia).
  rewrite continuation_range by (unfold is_u8; lia).
  by rewrite (proj2 (Z.leb_le _ _)), (proj2 (Z.ltb_lt _ _)) by lia.
Qed.

Lemma second_intro lead a :
  (lead = 0xE0 -> 0x20 <= a mod 64) -> (lead = 0xED -> a mod 64 <= 0x1F) ->
  (lead = 0xF0 -> 0x10 <= a mod 64) -> (lead = 0xF4 -> a mod 64 <= 0xF) ->
  second_invalid lead (0x80 + a mod 64) = false.
Proof.
  intros H1 H2 H3 H4. unfold second_invalid. rewrite continuation_intro. simpl.
  assert (Htest : forall k (b : bool), (lead = k -> b = false) -> (lead =? k) && b = false).
  { intros k b Hb. destruct (Z.eqb_spec lead k); [by apply Hb|done]. }
  rewrite !Htest; [done|intros Hk..];
    [specialize (H4 Hk)|specialize (H3 Hk)|specialize (H2 Hk)|specialize (H1 Hk)];
    first [apply Z.ltb_ge|idtac]; lia.
Qed.

Lemma utf8_sequence_complete z :
  0x7F < z -> scalar_value z -> utf8_sequence (append_utf8 z) = true.
Proof.
  intros Hlo [Hz Hsur]. rewrite append_utf8_arith by done.
  rewrite (proj2 (Z.leb_gt z 0x7F)) by lia.
  destruct (Z.leb_spec z 0x7FF); [|destruct (Z.leb_spec z 0xFFFF)].
  - apply (utf8_sequence_intro _ 0); [|done| |done].
    + unfold utf8_length. rewrite !(proj2 (Z.leb_le _ _)) by (Z.div_mod_to_equations; lia). done.
    + apply second_intro; Z.div_mod_to_equations; lia.
  - apply (utf8_sequence_intro _ 1); [|done| |by simpl; rewrite continuation_intro].
    + assert (0xE0 <= 0xE0 + z / 4096 <= 0xEF) by (Z.div_mod_to_equations; lia).
      destruct (utf8_length_cases (0xE0 + z / 4096)) as [?|[?|[?|?]]]; [lia|tauto|lia|lia].
    + apply second_intro; Z.div_mod_to_equations; lia.
  - apply (utf8_sequence_intro _ 2); [|done| |by simpl; rewrite !continuation_intro].
    + assert (0xF0 <= 0xF0 + z / 262144 <= 0xF4) by (Z.div_mod_to_equations; lia).
      destruct (utf8_length_cases (0xF0 + z / 262144)) as [?|[?|[?|?]]]; [lia|lia|tauto|lia].
    + apply second_intro; Z.div_mod_to_equations; lia.
Qed.

(** ** What the parser promises of a value *)

Definition digits (l : list Z) : Prop := l <> [] /\ forallb is_decimal_digit l = true.

(** The number grammar of RFC 8259. *)
Definition number_text (t : list Z) : Prop :=
  exists sign int frac exp,
    t = sign ++ int ++ frac ++ exp /\
    (sign = [] \/ sign = [45]) /\
    (int = [48] \/ exists d ds, int = d :: ds /\ 49 <= d <= 57 /\ forallb is_decimal_digit ds = true) /\
    (frac = [] \/ exists ds, frac = 46 :: ds /\ digits ds) /\
    (exp = [] \/ exists e s ds, exp = e :: s ++ ds /\ (e = 101 \/ e = 69) /\
       (s = [] \/ s = [43] \/ s = [45]) /\ digits ds).

Fixpoint well_formed (v : Value) : Prop :=
  match v with
  | Null | Bool _ => True
  | Number t => number_text t
  | String s => utf8 s
  | Array vs => foldr (fun v P => well_formed v /\ P) True vs
  | Object kvs =>
      foldr (fun kv P => (utf8 (fst kv) /\ well_formed (snd kv)) /\ P) True kvs /\ keys_sorted kvs
  end.

Fixpoint nesting (v : Value) : Z :=
  match v with
  | Array vs => 1 + foldr (fun v n => Z.max (nesting v) n) 0 vs
  | Object kvs => 1 + foldr (fun kv n => Z.max (nesting (snd kv)) n) 0 kvs
  | _ => 0
  end.

(** The values and the container items of a document. *)
Fixpoint values_in (v : Value) : Z :=
  match v with
  | Array vs => 1 + foldr (fun v n => values_in v + n) 0 vs
  | Object kvs => 1 + foldr (fun kv n => values_in (snd kv) + n) 0 kvs
  | _ => 1
  end.

Fixpoint items_in (v : Value) : Z :=
  match v with
  | Array vs => foldr (fun v n => 1 + items_in v + n) 0 vs
  | Object kvs => foldr (fun kv n => 1 + items_in (snd kv) + n) 0 kvs
  | _ => 0
  end.

(** Folds over the members do not see their order. *)
Lemma foldr_perm_Z {A} (f : A -> Z) (op : Z -> Z -> Z) l l' :
  (forall x y z, op x (op y z) = op y (op x z)) -> l ≡ₚ l' ->
  foldr (fun a n => op (f a) n) 0 l = foldr (fun a n => op (f a) n) 0 l'.
Proof.
  intros Hop. induction 1; simpl; [done|congruence|apply Hop|congruence].
Qed.

Lemma foldr_perm_and {A} (P : A -> Prop) l l' :
  l ≡ₚ l' -> foldr (fun a Q => P a /\ Q) True l <-> foldr (fun a Q => P a /\ Q) True l'.
Proof. induction 1; simpl; tauto. Qed.

(** ** Weakest preconditions of parsers *)

Section Pwp.
Variable size : Z.

(** The state reads an input of [size] bytes. *)
Record reading (s : pstate) : Prop := {
  rd_position : 0 <= position s;
  rd_size : position s + Z.of_nat (length (rest s)) = size;
  rd_bytes : Forall is_u8 (rest s)
}.

(** Every failure is at an offset of the input; fuel never runs out. *)
Definition pwp {A} (m : parser A) (Q : A -> pstate -> Prop) (s : pstate) : Prop :=
  match m s with
  | Good a s' => Q a s'
  | Bad _ offset => 0 <= offset <= size
  | OutOfFuel => False
  end.

(** [s'] is [s] after reading [c], [dv] values and [di] items later. *)
Record after (c : list Z) (dv di : Z) (s s' : pstate) : Prop := {
  af_rest : rest s = c ++ rest s';
  af_position : position s' = position s + Z.of_nat (length c);
  af_values : value_count s' = value_count s + dv;
  af_items : container_item_count s' = container_item_count s + di
}.

Lemma after_refl s : after [] 0 0 s s.
Proof. split; simpl; try done; lia. Qed.

Lemma after_trans c1 v1 i1 c2 v2 i2 s1 s2 s3 :
  after c1 v1 i1 s1 s2 -> after c2 v2 i2 s2 s3 ->
  after (c1 ++ c2) (v1 + v2) (i1 + i2) s1 s3.
Proof.
  intros [H1 H2 H3 H4] [H5 H6 H7 H8]. split; [|rewrite ?length_app; lia..].
  by rewrite H1, H5, app_assoc.
Qed.

Lemma reading_after c dv di s s' : reading s -> after c dv di s s' -> reading s'.
Proof.
  intros [Hp Hs Hb] [Hr Hpos _ _]. rewrite Hr in Hs, Hb. rewrite length_app in Hs.
  apply Forall_app in Hb as [_ Hb]. split; [lia|lia|done].
Qed.

Lemma after_shorter c dv di s s' :
  after c dv di s s' -> length (rest s) = (length c + length (rest s'))%nat.
Proof. intros [-> _ _ _]. apply length_app. Qed.

Lemma pwp_cases {A} (m : parser A) (Q : A -> pstate -> Prop) s :
  match m s with
  | Good a s' => Q a s'
  | Bad _ offset => 0 <= offset <= size
  | OutOfFuel => False
  end -> pwp m Q s.
Proof. done. Qed.

Lemma pwp_ret {A} (a : A) Q s : Q a s -> pwp (mret a) Q s.
Proof. done. Qed.

Lemma pwp_bind {A B} (m : parser A) (k : A -> parser B) Q s :
  pwp m (fun a s' => pwp (k a) Q s') s -> pwp (m ≫= k) Q s.
Proof. unfold pwp, mbind, parser_bind. destruct (m s); auto. Qed.

Lemma pwp_mono {A} (m : parser A) (Q Q' : A -> pstate -> Prop) s :
  pwp m Q s -> (forall a s', Q a s' -> Q' a s') -> pwp m Q' s.
Proof. unfold pwp. destruct (m s); auto. Qed.

Lemma pwp_fail {A} code (Q : A -> pstate -> Prop) s : reading s -> pwp (fail code) Q s.
Proof. intros [Hp Hs _]. unfold pwp, fail. lia. Qed.

Lemma pwp_fail_at {A} code offset (Q : A -> pstate -> Prop) s :
  0 <= offset <= size -> pwp (fail_at code offset) Q s.
Proof. done. Qed.

Lemma pwp_get (Q : pstate -> pstate -> Prop) s : Q s s -> pwp get Q s.
Proof. done. Qed.

Lemma pwp_peek (Q : option Z -> pstate -> Prop) s : Q (head (rest s)) s -> pwp peek Q s.
Proof. done. Qed.

Lemma pwp_advance n (Q : unit -> pstate -> Prop) s :
  (n <= length (rest s))%nat ->
  (forall s', after (take n (rest s)) 0 0 s s' -> Q tt s') -> pwp (advance n) Q s.
Proof.
  intros Hn HQ. apply HQ. split; simpl; try lia; [by rewrite take_drop|].
  rewrite length_take. lia.
Qed.

Lemma leading_spec test l :
  forallb test (take (leading test l) l) = true /\ (leading test l <= length l)%nat /\
  (forall c, head (drop (leading test l) l) = Some c -> test c = false).
Proof.
  induction l as [|c l (IH1 & IH2 & IH3)]; simpl; [done|].
  destruct (test c) eqn:Hc; simpl; [rewrite Hc; split_and!; [done|lia|done]|].
  split_and!; [done|lia|]. by intros ? [= <-].
Qed.

Lemma pwp_skip_while test (Q : unit -> pstate -> Prop) s :
  (forall c s', after c 0 0 s s' -> forallb test c = true -> c = take (leading test (rest s)) (rest s) ->
     (forall x, head (rest s') = Some x -> test x = false) -> Q tt s') ->
  pwp (skip_while test) Q s.
Proof.
  intros HQ. destruct (leading_spec test (rest s)) as (H1 & H2 & H3). unfold skip_while.
  change (pwp (advance (leading test (rest s))) Q s). apply pwp_advance; [done|].
  intros s' Ha. apply (HQ _ s' Ha); [done|done|].
  pose proof (af_rest _ _ _ _ _ Ha) as Hr. rewrite <- (take_drop (leading test (rest s)) (rest s)) in Hr at 1.
  apply app_inv_head in Hr. by rewrite <- Hr.
Qed.
End Pwp.

(** ** Strings and numbers are sound *)

Ltac pstep :=
  lazymatch goal with
  | |- pwp _ (_ ≫= _) _ _ => apply pwp_bind
  | |- pwp _ (mret _) _ _ => apply pwp_ret
  | |- pwp _ get _ _ => apply pwp_get
  | |- pwp _ peek _ _ => apply pwp_peek
  | |- pwp _ (fail _) _ _ => apply pwp_fail
  | |- pwp _ (if ?b then _ else _) _ _ => destruct b eqn:?
  | |- pwp _ (match ?x with _ => _ end) _ _ => destruct x eqn:?
  end.

Section Sound.
Variable size : Z.

Abbreviation reading := (reading size).
Abbreviation pwp := (pwp size).

(** The parser consumes [c], touches no counter, and yields [a] with [P c a]. *)
Definition token {A} (P : list Z -> A -> Prop) (s : pstate) (a : A) (s' : pstate) : Prop :=
  exists c, after c 0 0 s s' /\ P c a.

Lemma after_then c1 c2 s1 s2 s3 : after c1 0 0 s1 s2 -> after c2 0 0 s2 s3 -> after (c1 ++ c2) 0 0 s1 s3.
Proof. apply after_trans. Qed.

Lemma head_rest s c : head (rest s) = Some c -> exists l, rest s = c :: l.
Proof. destruct (rest s) as [|x l]; [done|]. intros [= <-]. by exists l. Qed.

Lemma advance1 c s (Q : unit -> pstate -> Prop) :
  head (rest s) = Some c -> (forall s', after [c] 0 0 s s' -> Q tt s') -> pwp (advance 1) Q s.
Proof.
  intros Hc HQ. destruct (head_rest _ _ Hc) as [l Hl]. apply pwp_advance; [rewrite Hl; simpl; lia|].
  rewrite Hl. simpl. by rewrite take_0.
Qed.

Lemma reading_byte s c : reading s -> head (rest s) = Some c -> is_u8 c.
Proof. intros Hs Hc. destruct (head_rest _ _ Hc) as [l Hl]. pose proof (rd_bytes _ _ Hs) as Hb.
  rewrite Hl in Hb. by apply Forall_cons in Hb as [? _]. Qed.

Lemma copy_valid_utf8_spec s :
  reading s -> rest s <> [] ->
  pwp copy_valid_utf8 (token (fun c bytes => bytes = c /\ utf8_sequence c = true) s) s.
Proof.
  intros Hs Hne. unfold copy_valid_utf8. do 2 pstep. destruct (rest s) as [|lead l] eqn:Hr; [done|].
  cbv zeta. case_decide; [by apply pwp_fail|]. case_decide as Hlen; [by apply pwp_fail|].
  pstep; [by apply pwp_fail|]. pstep; [by apply pwp_fail|]. bools. pstep.
  apply pwp_advance; [rewrite Hr; lia|]. intros s' Ha. rewrite Hr in Ha. pstep. eexists.
  split; [exact Ha|]. split; [done|].
  destruct (utf8_length lead) as [|n] eqn:Hn; [done|].
  unfold utf8_sequence. cbn [take firstn]. change (lead :: firstn n l) with (take (S n) (lead :: l)).
  rewrite Hn, bool_decide_false, bool_decide_true by (rewrite ?length_take; lia).
  change (lead :: take n l) with (take (S n) (lead :: l)). by rewrite Heqb, Heqb0.
Qed.

Lemma lor_range a b n : 0 <= n -> 0 <= a < 2 ^ n -> 0 <= b < 2 ^ n -> 0 <= Z.lor a b < 2 ^ n.
Proof.
  intros Hn Ha Hb. assert (He : Z.lor a b = Z.lor a b mod 2 ^ n).
  { rewrite <- Z.land_ones, Z.land_lor_distr_l, !Z.land_ones, !Z.mod_small by lia. done. }
  rewrite He. apply Z.mod_pos_bound. lia.
Qed.

Lemma hex_value_range c : hex_value c < 16.
Proof. unfold hex_value. repeat case_match; bools; lia. Qed.

Lemma parse_hex4_loop_spec n v s :
  reading s -> 0 <= v < 2 ^ 16 ->
  pwp (parse_hex4_loop n v) (token (fun c v => length c = n /\ 0 <= v < 2 ^ 16) s) s.
Proof.
  revert v s. induction n as [|n IH]; intros v s Hs Hv; cbn [parse_hex4_loop].
  { pstep. exists []. split; [apply after_refl|done]. }
  do 2 pstep. destruct (head (rest s)) as [c|] eqn:Hc; [|by apply pwp_fail]. cbv zeta.
  pstep; [by apply pwp_fail|]. pstep. apply (advance1 c); [done|]. intros s1 H1. bools.
  eapply pwp_mono; [apply IH; [by eapply reading_after|]|].
  - apply lor_range; [lia|apply Z.mod_pos_bound; lia|]. pose proof (hex_value_range c). lia.
  - intros v' s2 (c2 & H2 & Hl & Hr). exists ([c] ++ c2). split; [by eapply after_then|].
    split; [simpl; lia|done].
Qed.

Lemma parse_unicode_escape_spec off s :
  reading s -> 0 <= off <= size ->
  pwp (parse_unicode_escape off) (token (fun c bytes => utf8 bytes) s) s.
Proof.
  intros Hs Hoff. unfold parse_unicode_escape. pstep.
  eapply pwp_mono; [by apply parse_hex4_loop_spec|]. intros first s1 (c1 & H1 & Hl1 & Hr1).
  pose proof (reading_after _ _ _ _ _ _ Hs H1) as Hs1.
  pstep; [|pstep; [by apply pwp_fail_at|pstep; exists c1; split; [done|apply utf8_scalar]]].
  - do 2 pstep. destruct (rest s1) as [|b [|u l]] eqn:Hr; [by apply pwp_fail_at..|].
    pstep; [by apply pwp_fail_at|]. pstep. apply pwp_advance; [rewrite Hr; simpl; lia|].
    intros s2 H2. pose proof (reading_after _ _ _ _ _ _ Hs1 H2) as Hs2. pstep.
    eapply pwp_mono; [by apply parse_hex4_loop_spec|]. intros second s3 (c3 & H3 & Hl3 & Hr3).
    pose proof (reading_after _ _ _ _ _ _ Hs2 H3) as Hs3. do 2 pstep.
    pstep.
    + apply pwp_fail_at. pose proof (af_position _ _ _ _ _ H3). pose proof (rd_position _ _ Hs2).
      pose proof (rd_size _ _ Hs3). lia.
    + pstep. eexists. split; [eapply after_then; [exact H1|]; eapply after_then; [exact H2|exact H3]|].
      apply utf8_scalar. bools. rewrite Z.shiftl_mul_pow2 by lia. unfold scalar_value. lia.
  - bools. unfold scalar_value. split; [lia|].
    repeat match goal with H : _ \/ _ |- _ => destruct H end; bools; lia.
Qed.

Lemma ascii_utf8 b : 0 <= b < 0x80 -> utf8 [b].
Proof.
  intros Hb. replace [b] with (append_utf8 b).
  - apply utf8_scalar. unfold scalar_value. lia.
  - rewrite append_utf8_arith by lia. by rewrite (proj2 (Z.leb_le _ _)) by lia.
Qed.

Lemma parse_escape_spec s :
  reading s -> head (rest s) = Some backslash ->
  pwp parse_escape (token (fun c bytes => c <> [] /\ utf8 bytes) s) s.
Proof.
  intros Hs Hb. unfold parse_escape. do 3 pstep. apply (advance1 _ _ _ Hb). intros s1 H1.
  pose proof (reading_after _ _ _ _ _ _ Hs H1) as Hs1.
  do 2 pstep. destruct (head (rest s1)) as [e|] eqn:He; [|by apply pwp_fail].
  pstep. apply (advance1 _ _ _ He). intros s2 H2.
  pose proof (reading_after _ _ _ _ _ _ Hs1 H2) as Hs2.
  pose proof (after_then _ _ _ _ _ H1 H2) as H12.
  assert (Hone : forall b, 0 <= b < 0x80 -> pwp (mret [b]) (token (fun c bytes => c <> [] /\ utf8 bytes) s) s2).
  { intros b Hrange. pstep. exists ([backslash] ++ [e]). split; [done|]. split; [done|by apply ascii_utf8]. }
  repeat (pstep; [bools; apply Hone; unfold quote, backslash in *; lia|]).
  pstep.
  - eapply pwp_mono; [apply parse_unicode_escape_spec; [done|]|].
    + pose proof (rd_position _ _ Hs). pose proof (rd_size _ _ Hs). lia.
    + intros bytes s3 (c & Hc & Hu). eexists. split; [eapply after_then; [exact H12|exact Hc]|]. done.
  - do 2 pstep. apply pwp_fail_at. pose proof (af_position _ _ _ _ _ H2) as Hp2. simpl in Hp2.
    pose proof (rd_position _ _ Hs1). pose proof (rd_size _ _ Hs1). lia.
Qed.

Lemma string_loop_spec fuel output s :
  reading s -> utf8 output -> (length (rest s) < fuel)%nat ->
  pwp (string_loop fuel output) (token (fun c bytes => utf8 bytes) s) s.
Proof.
  revert output s. induction fuel as [|fuel IH]; intros output s Hs Hu Hf; [lia|].
  cbn [string_loop]. do 2 pstep. destruct (head (rest s)) as [b|] eqn:Hb; [|by apply pwp_fail].
  assert (Hgo : forall bytes c s1, after c 0 0 s s1 -> c <> [] -> utf8 bytes ->
    pwp (string_loop fuel (output ++ bytes)) (token (fun c bytes => utf8 bytes) s) s1).
  { intros bytes c s1 H1 Hc Hb1. eapply pwp_mono; [apply IH|].
    - by eapply reading_after.
    - by apply utf8_app.
    - rewrite (after_shorter _ _ _ _ _ H1) in Hf. destruct c; [done|simpl in Hf; lia].
    - intros a s2 (c2 & H2 & Ha). eexists. split; [by eapply after_then|done]. }
  pstep; [pstep; apply (advance1 _ _ _ Hb); intros s1 H1; pstep; by exists [b]|].
  pstep.
  { bools. subst b. pstep. eapply pwp_mono; [by apply parse_escape_spec|].
    intros bytes s1 (c & H1 & Hc & Hb1). by eapply Hgo. }
  pstep; [by apply pwp_fail|]. pstep.
  { pstep. apply (advance1 _ _ _ Hb). intros s1 H1. bools. eapply Hgo; [done..|]. apply ascii_utf8. lia. }
  pstep. eapply pwp_mono; [apply copy_valid_utf8_spec; [done|by destruct (rest s)]|].
  intros bytes s1 (c & H1 & -> & Hseq). eapply Hgo; [done|by destruct c|].
  destruct (utf8_sequence_sound c) as (z & _ & Hz & ->); [|done|by apply utf8_scalar].
  pose proof (rd_bytes _ _ Hs) as Hbs. rewrite (af_rest _ _ _ _ _ H1) in Hbs.
  by apply Forall_app in Hbs as [? _].
Qed.

Lemma parse_string_spec s :
  reading s -> head (rest s) = Some quote ->
  pwp parse_string (token (fun c bytes => c <> [] /\ utf8 bytes) s) s.
Proof.
  intros Hs Hq. unfold parse_string. pstep. apply (advance1 _ _ _ Hq). intros s1 H1. do 2 pstep.
  eapply pwp_mono; [apply string_loop_spec; [by eapply reading_after|apply utf8_nil|lia]|].
  intros bytes s2 (c & H2 & Hu). eexists. split; [eapply after_then; [exact H1|exact H2]|]. done.
Qed.

(** Numbers: each part consumes its piece of the grammar. *)
Definition part (P : list Z -> Prop) (s : pstate) (a : unit) (s' : pstate) : Prop :=
  token (fun c _ => P c) s a s'.

Lemma require_digits_spec s : reading s -> pwp require_digits (part digits s) s.
Proof.
  intros Hs. unfold require_digits. do 2 pstep. destruct (head (rest s)) as [c|] eqn:Hc; [|by apply pwp_fail].
  pstep; [|by apply pwp_fail]. apply pwp_skip_while. intros l s1 H1 Ht -> _. eexists. split; [exact H1|].
  split; [|done]. destruct (head_rest _ _ Hc) as [l Hl]. rewrite Hl. simpl. by rewrite Heqb.
Qed.

Definition integer_part (int : list Z) : Prop :=
  int = [48] \/ exists d ds, int = d :: ds /\ 49 <= d <= 57 /\ forallb is_decimal_digit ds = true.

Lemma parse_integer_part_spec s : reading s -> pwp parse_integer_part (part integer_part s) s.
Proof.
  intros Hs. unfold parse_integer_part. do 2 pstep.
  destruct (head (rest s)) as [c|] eqn:Hc; [|by apply pwp_fail]. pstep.
  - pstep. apply (advance1 _ _ _ Hc). intros s1 H1. do 2 pstep. bools. subst c.
    assert (Hdone : pwp (mret tt) (part integer_part s) s1) by (pstep; exists [48]; split; [done|by left]).
    destruct (head (rest s1)) as [d|]; [|done]. pstep; [|done]. apply pwp_fail. by eapply reading_after.
  - pstep; [|by apply pwp_fail]. apply pwp_skip_while. intros l s1 H1 Ht Hl _. eexists.
    split; [exact H1|]. right. destruct (head_rest _ _ Hc) as [l0 Hl0]. rewrite Hl0 in Hl. simpl in Hl.
    assert (Hd : is_decimal_digit c = true) by (unfold is_decimal_digit; bools; lia || (rewrite !(proj2 (Z.leb_le _ _)) by lia; done)).
    rewrite Hd in Hl. rewrite Hl in Ht. simpl in Ht. rewrite Hd in Ht. bools.
    eexists _, _. split; [exact Hl|]. split; [lia|done].
Qed.

Definition fraction_part (frac : list Z) : Prop := frac = [] \/ exists ds, frac = 46 :: ds /\ digits ds.

Lemma parse_fraction_spec s : reading s -> pwp parse_fraction (part fraction_part s) s.
Proof.
  intros Hs. unfold parse_fraction. do 2 pstep.
  assert (Hdone : pwp (mret tt) (part fraction_part s) s)
    by (pstep; exists []; split; [apply after_refl|by left]).
  destruct (head (rest s)) as [c|] eqn:Hc; [|done]. pstep; [|done].
  pstep. apply (advance1 _ _ _ Hc). intros s1 H1. bools. subst c.
  eapply pwp_mono; [apply require_digits_spec; by eapply reading_after|].
  intros [] s2 (ds & H2 & Hd). eexists. split; [eapply after_then; [exact H1|exact H2]|]. right. by exists ds.
Qed.

Definition exponent_part (exp : list Z) : Prop :=
  exp = [] \/ exists e s ds, exp = e :: s ++ ds /\ (e = 101 \/ e = 69) /\
    (s = [] \/ s = [43] \/ s = [45]) /\ digits ds.

Lemma parse_exponent_spec s : reading s -> pwp parse_exponent (part exponent_part s) s.
Proof.
  intros Hs. unfold parse_exponent. do 2 pstep.
  assert (Hdone : pwp (mret tt) (part exponent_part s) s)
    by (pstep; exists []; split; [apply after_refl|by left]).
  destruct (head (rest s)) as [c|] eqn:Hc; [|done]. pstep; [|done].
  pstep. apply (advance1 _ _ _ Hc). intros s1 H1. do 3 pstep.
  assert (Hgo : forall sgn s2, after sgn 0 0 s1 s2 -> (sgn = [] \/ sgn = [43] \/ sgn = [45]) ->
    pwp require_digits (part exponent_part s) s2).
  { intros sgn s2 H2 Hsgn. eapply pwp_mono; [apply require_digits_spec|].
    - eapply reading_after; [|exact H2]. by eapply reading_after.
    - intros [] s3 (ds & H3 & Hd). exists ([c] ++ sgn ++ ds).
      split; [eapply after_then; [done|]; by eapply after_then|]. right. exists c, sgn, ds.
      split_and!; [done|by bools; lia|done|done]. }
  destruct (head (rest s1)) as [d|] eqn:Hd; [pstep|].
  - apply (advance1 _ _ _ Hd). intros s2 H2. apply (Hgo [d]); [done|]. bools.
    destruct Heqb0; bools; subst; auto.
  - pstep. apply (Hgo []); [apply after_refl|by left].
  - pstep. apply (Hgo []); [apply after_refl|by left].
Qed.

Lemma parse_number_spec s :
  reading s -> rest s <> [] ->
  pwp parse_number (token (fun c v => c <> [] /\ exists t, v = Number t /\ t = c /\ number_text t) s) s.
Proof.
  intros Hs Hne. unfold parse_number. do 5 pstep.
  assert (Hgo : forall sign s1, after sign 0 0 s s1 -> (sign = [] \/ sign = [45]) ->
    pwp (_ ← parse_integer_part; _ ← parse_fraction; _ ← parse_exponent; s' ← get;
         mret (Number (take (Z.to_nat (position s' - position s)) (rest s))))
      (token (fun c v => c <> [] /\ exists t, v = Number t /\ t = c /\ number_text t) s) s1).
  { intros sign s1 H1 Hsign. pose proof (reading_after _ _ _ _ _ _ Hs H1) as Hs1. pstep.
    eapply pwp_mono; [by apply parse_integer_part_spec|]. intros [] s2 (int & H2 & Hint).
    pose proof (reading_after _ _ _ _ _ _ Hs1 H2) as Hs2. pstep.
    eapply pwp_mono; [by apply parse_fraction_spec|]. intros [] s3 (frac & H3 & Hfrac).
    pose proof (reading_after _ _ _ _ _ _ Hs2 H3) as Hs3. pstep.
    eapply pwp_mono; [by apply parse_exponent_spec|]. intros [] s4 (exp & H4 & Hexp). do 3 pstep.
    pose proof (after_then _ _ _ _ _ H1 (after_then _ _ _ _ _ H2 (after_then _ _ _ _ _ H3 H4))) as Ha.
    eexists. split; [exact Ha|]. split.
    { destruct Hint as [->|(d & ds & -> & _)]; by destruct sign. }
    eexists. split; [reflexivity|]. split.
    - rewrite (af_position _ _ _ _ _ Ha), (af_rest _ _ _ _ _ Ha).
      replace (Z.to_nat _) with (length (sign ++ int ++ frac ++ exp)) by lia. apply take_app_length.
    - rewrite (af_position _ _ _ _ _ Ha), (af_rest _ _ _ _ _ Ha).
      replace (Z.to_nat _) with (length (sign ++ int ++ frac ++ exp)) by lia. rewrite take_app_length.
      by exists sign, int, frac, exp. }
  destruct (head (rest s)) as [c|] eqn:Hc; [pstep|].
  - apply (advance1 _ _ _ Hc). intros s1 H1. bools. subst c. apply (Hgo [45]); [done|by right].
  - pstep. apply (Hgo []); [apply after_refl|by left].
  - by destruct (rest s).
Qed.

(** ** Values are sound *)

Section Values.
Variables max_depth max_values max_container_items : Z.
Hypothesis values_nonneg : 0 <= max_values.
Hypothesis items_nonneg : 0 <= max_container_items.

(** The budgets are respected. *)
Record budget (s : pstate) : Prop := {
  bg_values : 0 <= value_count s <= max_values;
  bg_items : 0 <= container_item_count s <= max_container_items
}.

(** [v] was read at nesting level [depth], using up its part of the budgets. *)
Definition valued (depth : Z) (s : pstate) (v : Value) (s' : pstate) : Prop :=
  well_formed v /\ nesting v <= Z.max 0 (max_depth - depth) /\ budget s' /\
  exists c, c <> [] /\ after c (values_in v) (items_in v) s s'.

Lemma consume_value_spec s (Q : unit -> pstate -> Prop) :
  reading s -> budget s ->
  (forall s', after [] 1 0 s s' -> budget s' -> rest s' = rest s -> Q tt s') ->
  pwp (consume_value max_values) Q s.
Proof.
  intros Hs [Hv Hi] HQ. apply pwp_cases. unfold consume_value. destruct (Z.leb_spec max_values (value_count s)).
  - pose proof (rd_position _ _ Hs). pose proof (rd_size _ _ Hs). lia.
  - apply HQ; [|split; simpl; lia|done]. split; simpl; try done; lia.
Qed.

Lemma consume_item_spec s (Q : unit -> pstate -> Prop) :
  reading s -> budget s ->
  (forall s', after [] 0 1 s s' -> budget s' -> rest s' = rest s -> Q tt s') ->
  pwp (consume_container_item max_container_items) Q s.
Proof.
  intros Hs [Hv Hi] HQ. apply pwp_cases. unfold consume_container_item.
  destruct (Z.leb_spec max_container_items (container_item_count s)).
  - pose proof (rd_position _ _ Hs). pose proof (rd_size _ _ Hs). lia.
  - apply HQ; [|split; simpl; lia|done]. split; simpl; try done; lia.
Qed.

Lemma budget_after c s s' : budget s -> after c 0 0 s s' -> budget s'.
Proof. intros [] []. split; lia. Qed.

Lemma skip_whitespace_spec s (Q : unit -> pstate -> Prop) :
  (forall c s', after c 0 0 s s' -> Q tt s') -> pwp skip_whitespace Q s.
Proof. intros HQ. apply pwp_skip_while. intros c s' Ha _ _ _. by eapply HQ. Qed.

Lemma parse_literal_spec literal s v depth s0 :
  reading s -> budget s -> rest s <> [] -> literal <> [] -> well_formed v -> nesting v = 0 ->
  values_in v = 1 -> items_in v = 0 ->
  (exists c, after c 1 0 s0 s) ->
  pwp (_ ← parse_literal literal; mret v) (valued depth s0) s.
Proof.
  intros Hs Hb Hne Hl Hw Hn Hv Hi (c0 & H0). unfold parse_literal. do 3 pstep.
  case_bool_decide as Heq; [|by apply pwp_fail].
  apply pwp_advance.
  { rewrite <- Heq at 1. rewrite length_take. lia. }
  intros s1 H1. rewrite Heq in H1. pstep. split; [done|]. split; [lia|]. split; [by eapply budget_after|].
  exists (c0 ++ literal). split; [by destruct c0|]. rewrite Hv, Hi.
  exact (after_trans _ _ _ _ _ _ _ _ _ H0 H1).
Qed.

(** The elements read so far. *)
Definition elements (depth : Z) (vs : list Value) : Prop :=
  foldr (fun v P => well_formed v /\ P) True vs /\
  foldr (fun v n => Z.max (nesting v) n) 0 vs <= Z.max 0 (max_depth - (depth + 1)).

Lemma elements_snoc depth vs v :
  elements depth vs -> well_formed v -> nesting v <= Z.max 0 (max_depth - (depth + 1)) ->
  elements depth (vs ++ [v]).
Proof.
  intros [Hw Hn] Hv Hnv. unfold elements. rewrite !foldr_app. simpl. split.
  - assert (Hgen : forall P : Prop, P -> foldr (fun v P => well_formed v /\ P) P vs).
    { intros P HP. clear Hn. induction vs; simpl in *; [done|]. destruct Hw. split; [done|by apply IHvs]. }
    apply Hgen. done.
  - clear Hw. revert Hn. induction vs; simpl; lia.
Qed.

Lemma nesting_nonneg v : 0 <= nesting v.
Proof. destruct v as [| | | |vs|kvs]; simpl; try lia.
  - enough (0 <= foldr (fun v n => Z.max (nesting v) n) 0 vs) by lia. induction vs; simpl; lia.
  - enough (0 <= foldr (fun kv n => Z.max (nesting (snd kv)) n) 0 kvs) by lia. induction kvs; simpl; lia.
Qed.

Lemma sum_snoc {A} (f : A -> Z) l x :
  foldr (fun a n => f a + n) 0 (l ++ [x]) = foldr (fun a n => f a + n) 0 l + f x.
Proof. rewrite foldr_app. simpl. induction l; simpl; lia. Qed.

Definition sum_values (vs : list Value) : Z := foldr (fun v n => values_in v + n) 0 vs.
Definition sum_items (vs : list Value) : Z := foldr (fun v n => 1 + items_in v + n) 0 vs.

Lemma after_counts c dv di dv' di' s s' :
  after c dv di s s' -> dv = dv' -> di = di' -> after c dv' di' s s'.
Proof. by intros ? <- <-. Qed.

Lemma array_loop_spec element depth s0 fuel vs c0 s :
  (forall s, reading s -> budget s -> pwp element (valued (depth + 1) s) s) ->
  depth < max_depth -> reading s -> budget s -> (length (rest s) < fuel)%nat -> elements depth vs ->
  c0 <> [] -> after c0 (1 + sum_values vs) (sum_items vs) s0 s ->
  pwp (array_loop max_container_items element fuel vs) (valued depth s0) s.
Proof.
  intros Hel Hd. revert vs c0 s. induction fuel as [|fuel IH]; intros vs c0 s Hs Hb Hf He Hc H0; [lia|].
  cbn [array_loop]. pstep. apply consume_item_spec; [done..|]. intros s1 H1 Hb1 Hr1.
  pose proof (reading_after _ _ _ _ _ _ Hs H1) as Hs1.
  pstep. eapply pwp_mono; [by apply Hel|]. intros v s2 (Hw & Hn & Hb2 & c2 & Hc2 & H2).
  pose proof (reading_after _ _ _ _ _ _ Hs1 H2) as Hs2.
  cbv zeta. pstep. apply skip_whitespace_spec. intros c3 s3 H3.
  pose proof (reading_after _ _ _ _ _ _ Hs2 H3) as Hs3.
  pose proof (elements_snoc _ _ _ He Hw Hn) as He'.
  do 2 pstep. destruct (head (rest s3)) as [c|] eqn:Hhd; [|by apply pwp_fail].
  assert (Hall : forall s4, after [c] 0 0 s3 s4 -> budget s4 /\ exists c', c' <> [] /\
    after c' (1 + sum_values (vs ++ [v])) (sum_items (vs ++ [v])) s0 s4 /\
    (length (rest s4) < length (rest s))%nat).
  { intros s4 H4. split; [eapply budget_after; [|exact H4]; by eapply budget_after|].
    pose proof (after_trans _ _ _ _ _ _ _ _ _ H0 (after_trans _ _ _ _ _ _ _ _ _ H1
      (after_trans _ _ _ _ _ _ _ _ _ H2 (after_trans _ _ _ _ _ _ _ _ _ H3 H4)))) as Ha.
    eexists. split; [|split].
    2:{ unfold sum_values, sum_items in *. rewrite !sum_snoc. eapply after_counts; [exact Ha|lia..]. }
    - by destruct c0.
    - rewrite <- Hr1, (after_shorter _ _ _ _ _ H2), (after_shorter _ _ _ _ _ H3),
        (after_shorter _ _ _ _ _ H4). simpl. lia. }
  pstep; [|pstep; [by apply pwp_fail|]]; pstep; apply (advance1 _ _ _ Hhd); intros s4 H4;
    destruct (Hall s4 H4) as (Hb4 & c' & Hc' & Ha & Hlt).
  - pstep. destruct He' as [Hw' Hn']. split; [done|]. split; [simpl; lia|]. split; [done|]. by exists c'.
  - eapply (IH _ c'); try done; [|lia]. eapply reading_after; [|exact H4]. done.
Qed.

Lemma parse_array_spec element depth s0 c0 s :
  (depth < max_depth -> forall s, reading s -> budget s -> pwp element (valued (depth + 1) s) s) ->
  reading s -> budget s -> rest s <> [] -> after c0 1 0 s0 s ->
  pwp (parse_array max_depth max_container_items element depth) (valued depth s0) s.
Proof.
  intros Hel Hs Hb Hne H0. unfold parse_array. do 2 pstep.
  pstep; [by apply pwp_fail|]. bools. specialize (Hel Heqb). destruct (head (rest s)) as [x|] eqn:Hx; [|by destruct (rest s)].
  pstep. apply (advance1 x); [done|]. intros s1 H1.
  pose proof (reading_after _ _ _ _ _ _ Hs H1) as Hs1. pstep. apply skip_whitespace_spec. intros c2 s2 H2.
  pose proof (reading_after _ _ _ _ _ _ Hs1 H2) as Hs2.
  pose proof (after_trans _ _ _ _ _ _ _ _ _ H0 (after_then _ _ _ _ _ H1 H2)) as Ha.
  assert (Hb2 : budget s2) by (eapply budget_after; [|exact H2]; by eapply budget_after).
  do 2 pstep. case_bool_decide as Hcl.
  - pstep. apply (advance1 _ _ _ Hcl). intros s3 H3. pstep. split; [done|]. split; [simpl; lia|].
    split; [by eapply budget_after|]. eexists. split.
    2:{ eapply after_counts; [exact (after_trans _ _ _ _ _ _ _ _ _ Ha H3)|simpl; lia..]. }
    by destruct c0.
  - eapply (array_loop_spec _ _ _ _ _ (c0 ++ [x] ++ c2)); try done.
    + rewrite (after_shorter _ _ _ _ _ H1), (after_shorter _ _ _ _ _ H2). simpl. lia.
    + split; simpl; [done|lia].
    + by destruct c0.
Qed.

(** The members read so far. *)
Definition sum_entry_values (kvs : list (list Z * Value)) : Z :=
  foldr (fun kv n => values_in (snd kv) + n) 0 kvs.
Definition sum_entry_items (kvs : list (list Z * Value)) : Z :=
  foldr (fun kv n => 1 + items_in (snd kv) + n) 0 kvs.

Record entries (depth : Z) (kvs : list (list Z * Value)) : Prop := {
  en_formed : foldr (fun kv P => (utf8 (fst kv) /\ well_formed (snd kv)) /\ P) True kvs;
  en_sorted : keys_sorted kvs;
  en_nesting : foldr (fun kv n => Z.max (nesting (snd kv)) n) 0 kvs <= Z.max 0 (max_depth - (depth + 1))
}.

Lemma entries_emplace depth kvs key v :
  entries depth kvs -> map_find key kvs = None -> utf8 key -> well_formed v ->
  nesting v <= Z.max 0 (max_depth - (depth + 1)) ->
  entries depth (map_emplace key v kvs) /\
  sum_entry_values (map_emplace key v kvs) = values_in v + sum_entry_values kvs /\
  sum_entry_items (map_emplace key v kvs) = 1 + items_in v + sum_entry_items kvs.
Proof.
  intros [Hf Hs Hn] Hnone Hk Hw Hv. pose proof (map_emplace_perm key v kvs Hnone) as Hp.
  split; [split|split].
  - apply (foldr_perm_and (fun kv => utf8 (fst kv) /\ well_formed (snd kv)) _ _ Hp). simpl. tauto.
  - by apply map_emplace_sorted.
  - rewrite (foldr_perm_Z (fun kv => nesting (snd kv)) Z.max _ _ (ltac:(intros; lia)) Hp). simpl. lia.
  - unfold sum_entry_values.
    by rewrite (foldr_perm_Z (fun kv => values_in (snd kv)) Z.add _ _ (ltac:(intros; lia)) Hp).
  - unfold sum_entry_items.
    by rewrite (foldr_perm_Z (fun kv => 1 + items_in (snd kv)) Z.add _ _ (ltac:(intros; lia)) Hp).
Qed.

Lemma object_loop_spec element depth s0 fuel kvs c0 s :
  (forall s, reading s -> budget s -> pwp element (valued (depth + 1) s) s) ->
  depth < max_depth -> reading s -> budget s -> (length (rest s) < fuel)%nat -> entries depth kvs ->
  c0 <> [] -> after c0 (1 + sum_entry_values kvs) (sum_entry_items kvs) s0 s ->
  pwp (object_loop max_container_items element fuel kvs) (valued depth s0) s.
Proof.
  intros Hel Hd. revert kvs c0 s. induction fuel as [|fuel IH]; intros kvs c0 s Hs Hb Hf He Hc H0; [lia|].
  cbn [object_loop]. pstep. apply skip_whitespace_spec. intros c1 s1 H1.
  pose proof (reading_after _ _ _ _ _ _ Hs H1) as Hs1. do 2 pstep.
  destruct (head (rest s1)) as [q|] eqn:Hq; [|by apply pwp_fail].
  pstep; [by apply pwp_fail|]. bools. subst q. pstep.
  apply consume_item_spec; [done|by eapply budget_after|]. intros s2 H2 Hb2 Hr2.
  pose proof (reading_after _ _ _ _ _ _ Hs1 H2) as Hs2. do 2 pstep.
  pstep. eapply pwp_mono; [apply parse_string_spec; [done|by rewrite Hr2]|].
  intros key s3 (ck & H3 & Hck & Hkey). pose proof (reading_after _ _ _ _ _ _ Hs2 H3) as Hs3.
  case_bool_decide as Hnone; simpl; cycle 1.
  { apply pwp_fail_at. pose proof (rd_position _ _ Hs2). pose proof (rd_size _ _ Hs2). lia. }
  pstep. apply skip_whitespace_spec. intros c4 s4 H4. pose proof (reading_after _ _ _ _ _ _ Hs3 H4) as Hs4.
  do 2 pstep. destruct (head (rest s4)) as [colon|] eqn:Hcolon; [|by apply pwp_fail].
  pstep; [by apply pwp_fail|]. pstep. apply (advance1 _ _ _ Hcolon). intros s5 H5.
  pose proof (reading_after _ _ _ _ _ _ Hs4 H5) as Hs5.
  pose proof (after_then _ _ _ _ _ H3 (after_then _ _ _ _ _ H4 H5)) as H35.
  pstep. eapply pwp_mono; [apply Hel; [done|by eapply budget_after]|].
  intros v s6 (Hw & Hn & Hb6 & c6 & Hc6 & H6). pose proof (reading_after _ _ _ _ _ _ Hs5 H6) as Hs6.
  destruct (entries_emplace _ _ _ _ He Hnone Hkey Hw Hn) as (He' & Hsv & Hsi).
  cbv zeta. pstep. apply skip_whitespace_spec. intros c7 s7 H7.
  pose proof (reading_after _ _ _ _ _ _ Hs6 H7) as Hs7.
  do 2 pstep. destruct (head (rest s7)) as [c|] eqn:Hhd; [|by apply pwp_fail].
  assert (Hall : forall s8, after [c] 0 0 s7 s8 -> budget s8 /\ exists c', c' <> [] /\
    after c' (1 + sum_entry_values (map_emplace key v kvs)) (sum_entry_items (map_emplace key v kvs)) s0 s8 /\
    (length (rest s8) < length (rest s))%nat).
  { intros s8 H8. split; [eapply budget_after; [|exact H8]; by eapply budget_after|].
    pose proof (after_trans _ _ _ _ _ _ _ _ _ H0 (after_trans _ _ _ _ _ _ _ _ _ H1
      (after_trans _ _ _ _ _ _ _ _ _ H2 (after_trans _ _ _ _ _ _ _ _ _ H35
      (after_trans _ _ _ _ _ _ _ _ _ H6 (after_trans _ _ _ _ _ _ _ _ _ H7 H8)))))) as Ha.
    eexists. split; [|split].
    2:{ rewrite Hsv, Hsi. eapply after_counts; [exact Ha|lia..]. }
    - by destruct c0.
    - rewrite (after_shorter _ _ _ _ _ H1), <- Hr2, (after_shorter _ _ _ _ _ H35),
        (after_shorter _ _ _ _ _ H6), (after_shorter _ _ _ _ _ H7), (after_shorter _ _ _ _ _ H8).
      simpl. lia. }
  pstep; [|pstep; [by apply pwp_fail|]]; pstep; apply (advance1 _ _ _ Hhd); intros s8 H8;
    destruct (Hall s8 H8) as (Hb8 & c' & Hc' & Ha & Hlt).
  - pstep. destruct He' as [Hw' Hs' Hn']. split; [done|]. split; [simpl; lia|]. split; [done|]. by exists c'.
  - eapply (IH _ c'); try done; [|lia]. eapply reading_after; [|exact H8]. done.
Qed.

Lemma parse_object_spec element depth s0 c0 s :
  (depth < max_depth -> forall s, reading s -> budget s -> pwp element (valued (depth + 1) s) s) ->
  reading s -> budget s -> rest s <> [] -> after c0 1 0 s0 s ->
  pwp (parse_object max_depth max_container_items element depth) (valued depth s0) s.
Proof.
  intros Hel Hs Hb Hne H0. unfold parse_object. do 2 pstep.
  pstep; [by apply pwp_fail|]. bools. specialize (Hel Heqb). destruct (head (rest s)) as [x|] eqn:Hx; [|by destruct (rest s)].
  pstep. apply (advance1 x); [done|]. intros s1 H1.
  pose proof (reading_after _ _ _ _ _ _ Hs H1) as Hs1. pstep. apply skip_whitespace_spec. intros c2 s2 H2.
  pose proof (reading_after _ _ _ _ _ _ Hs1 H2) as Hs2.
  pose proof (after_trans _ _ _ _ _ _ _ _ _ H0 (after_then _ _ _ _ _ H1 H2)) as Ha.
  assert (Hb2 : budget s2) by (eapply budget_after; [|exact H2]; by eapply budget_after).
  assert (Hempty : entries depth []) by (split; simpl; [done|constructor|lia]).
  do 2 pstep. case_bool_decide as Hcl.
  - pstep. apply (advance1 _ _ _ Hcl). intros s3 H3. pstep. split; [by split; [|constructor]|].
    split; [simpl; lia|]. split; [by eapply budget_after|]. eexists. split.
    2:{ eapply after_counts; [exact (after_trans _ _ _ _ _ _ _ _ _ Ha H3)|simpl; lia..]. }
    by destruct c0.
  - eapply (object_loop_spec _ _ _ _ _ (c0 ++ [x] ++ c2)); try done.
    + rewrite (after_shorter _ _ _ _ _ H1), (after_shorter _ _ _ _ _ H2). simpl. lia.
    + by destruct c0.
Qed.

Lemma parse_value_spec fuel depth s :
  0 <= depth <= max_depth -> max_depth - depth < Z.of_nat fuel -> reading s -> budget s ->
  pwp (parse_value max_depth max_values max_container_items fuel depth) (valued depth s) s.
Proof.
  revert depth s. induction fuel as [|fuel IH]; intros depth s Hd Hf Hs Hb; [lia|].
  cbn [parse_value]. pstep. apply skip_whitespace_spec. intros c1 s1 H1.
  pose proof (reading_after _ _ _ _ _ _ Hs H1) as Hs1. do 2 pstep.
  destruct (head (rest s1)) as [c|] eqn:Hc; [|by apply pwp_fail]. pstep.
  apply consume_value_spec; [done|by eapply budget_after|]. intros s2 H2 Hb2 Hr2.
  pose proof (reading_after _ _ _ _ _ _ Hs1 H2) as Hs2.
  pose proof (after_trans _ _ _ _ _ _ _ _ _ H1 H2) as H12. rewrite <- Hr2 in Hc.
  assert (Hne : rest s2 <> []) by (intros Hn; by rewrite Hn in Hc).
  assert (Hone : exists c, after c 1 0 s s2) by (eexists; exact H12).
  do 3 (pstep; [by apply parse_literal_spec|]).
  assert (Hel : depth < max_depth -> forall s, reading s -> budget s ->
    pwp (parse_value max_depth max_values max_container_items fuel (depth + 1)) (valued (depth + 1) s) s).
  { intros Hlt s' Hs' Hb'. apply IH; [lia|lia|done|done]. }
  pstep; [|pstep; [|pstep; [|pstep]]].
  - bools. subst c. pstep. eapply pwp_mono; [by apply parse_string_spec|].
    intros text s3 (c3 & H3 & Hc3 & Hu). pstep. split; [done|]. split; [simpl; lia|].
    split; [by eapply budget_after|]. eexists. split.
    2:{ eapply after_counts; [exact (after_trans _ _ _ _ _ _ _ _ _ H12 H3)|simpl; lia..]. }
    by destruct c1.
  - by eapply parse_array_spec.
  - by eapply parse_object_spec.
  - eapply pwp_mono; [by apply parse_number_spec|]. intros v s3 (c3 & H3 & Hc3 & t & -> & -> & Hnum).
    split; [done|]. split; [simpl; lia|]. split; [by eapply budget_after|]. eexists. split.
    2:{ eapply after_counts; [exact (after_trans _ _ _ _ _ _ _ _ _ H12 H3)|simpl; lia..]. }
    by destruct c1.
  - by apply pwp_fail.
Qed.
End Values.
End Sound.

Lemma run_spec input max_depth max_values max_items :
  Forall is_u8 input -> 0 <= max_depth -> 0 <= max_values -> 0 <= max_items ->
  pwp (Z.of_nat (length input)) (run max_depth max_values max_items)
    (fun v s' => well_formed v /\ nesting v <= max_depth /\
       values_in v <= max_values /\ items_in v <= max_items) (start input).
Proof.
  intros Hb Hd Hv Hi. set (size := Z.of_nat (length input)).
  assert (Hs : reading size (start input)) by (split; simpl; done || lia).
  assert (Hbg : budget max_values max_items (start input)) by (split; simpl; lia).
  unfold run. pstep. apply skip_whitespace_spec. intros c1 s1 H1.
  pose proof (reading_after _ _ _ _ _ _ Hs H1) as Hs1. pstep.
  eapply pwp_mono; [apply parse_value_spec; first [done | lia | by eapply budget_after]|].
  intros v s2 (Hw & Hn & Hb2 & c2 & _ & H2). pose proof (reading_after _ _ _ _ _ _ Hs1 H2) as Hs2.
  pstep. apply skip_whitespace_spec. intros c3 s3 H3. pose proof (reading_after _ _ _ _ _ _ Hs2 H3) as Hs3.
  do 2 pstep. destruct (rest s3); [|by apply pwp_fail]. pstep.
  pose proof (after_trans _ _ _ _ _ _ _ _ _ H1 H2) as H12. destruct H12 as [_ _ Hcv Hci].
  destruct Hb2 as [Hbv Hbi]. simpl in Hcv, Hci. split_and!; [done|lia..].
Qed.

(** ** Texts that must parse

    [good m Q s]: the parser succeeds from [s] with [Q]. *)

Definition good {A} (m : parser A) (Q : A -> pstate -> Prop) (s : pstate) : Prop :=
  match m s with Good a s' => Q a s' | _ => False end.

Section Good.
Lemma good_ret {A} (a : A) (Q : A -> pstate -> Prop) s : Q a s -> good (mret a) Q s.
Proof. done. Qed.
Lemma good_bind {A B} (m : parser A) (k : A -> parser B) Q s :
  good m (fun a s' => good (k a) Q s') s -> good (m ≫= k) Q s.
Proof. unfold good, mbind, parser_bind. destruct (m s); auto. Qed.
Lemma good_mono {A} (m : parser A) (Q Q' : A -> pstate -> Prop) s :
  good m Q s -> (forall a s', Q a s' -> Q' a s') -> good m Q' s.
Proof. unfold good. destruct (m s); auto. Qed.
Lemma good_get (Q : pstate -> pstate -> Prop) s : Q s s -> good get Q s.
Proof. done. Qed.
Lemma good_peek (Q : option Z -> pstate -> Prop) s : Q (head (rest s)) s -> good peek Q s.
Proof. done. Qed.

(** The unread input is [l]; reading [c] moves to [l'] with the counters bumped. *)
Definition move (c l : list Z) (dv di : Z) (s : pstate) : pstate := {|
  rest := l; position := position s + Z.of_nat (length c);
  value_count := value_count s + dv; container_item_count := container_item_count s + di |}.

Lemma good_advance c l n (Q : unit -> pstate -> Prop) s :
  rest s = c ++ l -> n = length c -> Q tt (move c l 0 0 s) -> good (advance n) Q s.
Proof.
  intros Hr -> HQ. unfold good, advance. rewrite Hr, drop_app_length.
  unfold move in HQ. by rewrite !Z.add_0_r in HQ.
Qed.

Lemma move_move c1 l1 v1 i1 c2 l2 v2 i2 s :
  move c2 l2 v2 i2 (move c1 l1 v1 i1 s) = move (c1 ++ c2) l2 (v1 + v2) (i1 + i2) s.
Proof. unfold move. simpl. rewrite length_app. f_equal; lia. Qed.

Lemma leading_app test c l :
  forallb test c = true -> (forall x, head l = Some x -> test x = false) ->
  leading test (c ++ l) = length c.
Proof.
  intros Hc Hl. induction c as [|x c IH]; simpl in *.
  - destruct l as [|y l]; [done|]. simpl. by rewrite Hl.
  - bools. rewrite H. f_equal. by apply IH.
Qed.

Lemma good_skip_while test c l (Q : unit -> pstate -> Prop) s :
  rest s = c ++ l -> forallb test c = true -> (forall x, head l = Some x -> test x = false) ->
  Q tt (move c l 0 0 s) -> good (skip_while test) Q s.
Proof.
  intros Hr Hc Hl HQ. unfold skip_while.
  change (good (advance (leading test (rest s))) Q s). rewrite Hr, leading_app by done.
  by apply (good_advance c l).
Qed.

(** No white space to skip. *)
Lemma good_no_whitespace x l (Q : unit -> pstate -> Prop) s :
  rest s = x :: l -> is_json_whitespace x = false -> Q tt (move [] (x :: l) 0 0 s) ->
  good skip_whitespace Q s.
Proof.
  intros Hr Hx HQ. apply (good_skip_while _ [] (x :: l)); [done|done| |done]. by intros ? [= <-].
Qed.
End Good.

Ltac gstep :=
  lazymatch goal with
  | |- good (_ ≫= _) _ _ => apply good_bind
  | |- good (mret _) _ _ => apply good_ret
  | |- good get _ _ => apply good_get
  | |- good peek _ _ => apply good_peek
  end.

(** ** Strings are complete *)

Definition escaped (bytes : list Z) : list Z := mjoin (append_json_byte <$> bytes).

Lemma escaped_app a b : escaped (a ++ b) = escaped a ++ escaped b.
Proof. unfold escaped. by rewrite fmap_app, join_app. Qed.

Lemma escaped_high l : Forall (fun b => 0x80 <= b) l -> escaped l = l.
Proof.
  induction 1 as [|b l Hb _ IH]; [done|]. change (escaped (b :: l)) with (append_json_byte b ++ escaped l).
  rewrite IH. unfold append_json_byte, quote, backslash.
  repeat (rewrite (proj2 (Z.eqb_neq b _)) by lia). by rewrite (proj2 (Z.ltb_ge b _)) by lia.
Qed.

Lemma append_utf8_high z : 0x7F < z -> scalar_value z -> Forall (fun b => 0x80 <= b) (append_utf8 z).
Proof.
  intros Hlo [Hz _]. rewrite append_utf8_arith by done.
  repeat case_match; bools; repeat (apply Forall_cons_2 || apply Forall_nil_2);
    Z.div_mod_to_equations; lia.
Qed.

Lemma append_utf8_low z : 0 <= z <= 0x7F -> append_utf8 z = [z].
Proof. intros Hz. rewrite append_utf8_arith by lia. by rewrite (proj2 (Z.leb_le _ _)) by lia. Qed.

Lemma copy_utf8_good z l s (Q : list Z -> pstate -> Prop) :
  0x7F < z -> scalar_value z -> rest s = append_utf8 z ++ l ->
  Q (append_utf8 z) (move (append_utf8 z) l 0 0 s) -> good copy_valid_utf8 Q s.
Proof.
  intros Hlo Hz Hr HQ. pose proof (utf8_sequence_complete z Hlo Hz) as Hseq.
  set (q := append_utf8 z) in *. destruct q as [|lead q'] eqn:Hq; [done|]. rewrite <- Hq in *.
  unfold copy_valid_utf8. do 2 gstep. rewrite Hr, Hq. cbn [app]. cbv zeta.
  rewrite Hq in Hseq. unfold utf8_sequence in Hseq.
  apply andb_true_iff in Hseq as [Hs Htail]. apply andb_true_iff in Hs as [Hs Hsec].
  apply andb_true_iff in Hs as [Hs Hlen]. apply negb_true_iff in Hs, Hsec.
  apply bool_decide_eq_false in Hs. apply bool_decide_eq_true in Hlen. rewrite <- Hlen in *.
  assert (Htake : take (length (lead :: q')) (lead :: q' ++ l) = lead :: q')
    by (change (lead :: q' ++ l) with ((lead :: q') ++ l); apply take_app_length).
  rewrite decide_False by done.
  rewrite decide_False by (change (lead :: q' ++ l) with ((lead :: q') ++ l); rewrite length_app; lia).
  rewrite Htake, Hsec, Htail. cbn [negb]. gstep. apply (good_advance (lead :: q') l); [by rewrite Hr, Hq|done|].
  gstep. by rewrite Hq in HQ.
Qed.

Lemma hex_value_kHex n : 0 <= n < 16 -> hex_value (kHex n) = n.
Proof.
  intros Hn. apply Z.eqb_eq.
  exact (forall_below 16 (fun n => hex_value (kHex n) =? n) n eq_refl Hn).
Qed.

Lemma hex4_step v d : 0 <= v < 256 -> 0 <= d < 16 -> Z.lor (Z.shiftl v 4 mod 2 ^ 16) d = v * 16 + d.
Proof.
  intros Hv Hd. apply Z.eqb_eq. revert d Hd.
  assert (Hall : forallb (fun d => Z.lor (Z.shiftl v 4 mod 2 ^ 16) d =? v * 16 + d)
                   (Z.of_nat <$> seq 0 16) = true).
  { exact (forall_below 256 (fun v => forallb (fun d => Z.lor (Z.shiftl v 4 mod 2 ^ 16) d =? v * 16 + d)
      (Z.of_nat <$> seq 0 16)) v eq_refl Hv). }
  intros d Hd. exact (forall_below 16 _ d Hall Hd).
Qed.

Lemma parse_hex4_step n v d c l s (Q : Z -> pstate -> Prop) :
  rest s = kHex d :: l -> 0 <= v < 256 -> 0 <= d < 16 ->
  good (parse_hex4_loop n (v * 16 + d)) Q (move [kHex d] l 0 0 s) ->
  c = [kHex d] -> good (parse_hex4_loop (S n) v) Q s.
Proof.
  intros Hr Hv Hd HQ ->. cbn [parse_hex4_loop]. do 2 gstep. rewrite Hr. cbn [head].
  rewrite hex_value_kHex by done. cbv zeta. rewrite (proj2 (Z.ltb_ge _ _)) by lia. gstep.
  apply (good_advance [kHex d] l); [done|done|]. by rewrite hex4_step.
Qed.

(** The escape of a control character. *)
Lemma parse_hex4_good a b l s (Q : Z -> pstate -> Prop) :
  rest s = 48 :: 48 :: kHex a :: kHex b :: l -> 0 <= a < 16 -> 0 <= b < 16 ->
  Q (a * 16 + b) (move [48; 48; kHex a; kHex b] l 0 0 s) -> good parse_hex4 Q s.
Proof.
  intros Hr Ha Hb HQ. unfold parse_hex4.
  eapply (parse_hex4_step 3 0 0); [exact Hr|lia|lia| |reflexivity].
  eapply (parse_hex4_step 2 _ 0); [reflexivity|lia|lia| |reflexivity].
  eapply (parse_hex4_step 1 _ a); [reflexivity|lia|lia| |reflexivity].
  eapply (parse_hex4_step 0 _ b); [reflexivity|lia|lia| |reflexivity].
  cbn [parse_hex4_loop]. gstep. rewrite !move_move. simpl in *. exact HQ.
Qed.

(** One escaped byte is parsed back by one iteration of the loop. *)
Lemma parse_escape_good b l s (Q : list Z -> pstate -> Prop) :
  0 <= b < 0x80 -> head (append_json_byte b) = Some backslash ->
  rest s = append_json_byte b ++ l ->
  Q [b] (move (append_json_byte b) l 0 0 s) -> good parse_escape Q s.
Proof.
  intros Hb Hhd Hr HQ. unfold parse_escape. do 3 gstep.
  revert Hr Hhd HQ. unfold append_json_byte.
  destruct (Z.eqb_spec b quote) as [->|]; [|destruct (Z.eqb_spec b backslash) as [->|];
    [|destruct (Z.eqb_spec b 8) as [->|]; [|destruct (Z.eqb_spec b 12) as [->|];
    [|destruct (Z.eqb_spec b 10) as [->|]; [|destruct (Z.eqb_spec b 13) as [->|];
    [|destruct (Z.eqb_spec b 9) as [->|]]]]]]];
    intros Hr Hhd HQ;
    try (match type of Hr with rest s = [_; ?e] ++ l =>
           apply (good_advance [backslash] (e :: l)); [done|done|];
           do 2 gstep; cbn [head rest move]; gstep; apply (good_advance [e] l); [done|done|];
           rewrite move_move; exact HQ end).
  destruct (Z.ltb_spec b 0x20); [|simpl in Hhd; injection Hhd as ->; done].
  set (a := Z.land (Z.shiftr b 4) 15) in *. set (c := Z.land b 15) in *.
  apply (good_advance [backslash] ([117; 48; 48; kHex a; kHex c] ++ l)); [done|done|].
  do 2 gstep. cbn [head rest move app]. gstep.
  apply (good_advance [117] ([48; 48; kHex a; kHex c] ++ l)); [done|done|].
  change (good (parse_unicode_escape (position s)) Q
    (move [117] ([48; 48; kHex a; kHex c] ++ l) 0 0 (move [backslash] ([117; 48; 48; kHex a; kHex c] ++ l) 0 0 s))).
  rewrite move_move. unfold parse_unicode_escape. gstep.
  assert (Ha : 0 <= a < 16 /\ 0 <= c < 16 /\ a * 16 + c = b).
  { unfold a, c. rewrite Z.shiftr_div_pow2 by lia. change 15 with (Z.ones 4).
    rewrite !Z.land_ones by lia. change (2 ^ 4) with 16. Z.div_mod_to_equations. lia. }
  destruct Ha as (Ha & Hc & Hac).
  apply (parse_hex4_good a c l); [done|done|done|]. rewrite Hac.
  rewrite (proj2 (Z.leb_gt 0xD800 b)), (proj2 (Z.leb_gt 0xDC00 b)) by lia. cbn [andb].
  gstep. rewrite append_utf8_low by lia. rewrite move_move. exact HQ.
Qed.

Lemma append_json_byte_cases b :
  0 <= b < 0x80 ->
  (append_json_byte b = [b] /\ b <> quote /\ b <> backslash /\ 0x20 <= b) \/
  head (append_json_byte b) = Some backslash.
Proof.
  intros Hb. unfold append_json_byte.
  destruct (Z.eqb_spec b quote); [by right|]. destruct (Z.eqb_spec b backslash); [by right|].
  repeat (destruct (b =? _); [by right|]). destruct (Z.ltb_spec b 0x20); [by right|]. by left.
Qed.

Lemma string_loop_good scalars output fuel l s :
  Forall scalar_value scalars ->
  rest s = escaped (mjoin (append_utf8 <$> scalars)) ++ quote :: l ->
  (length (rest s) < fuel)%nat ->
  good (string_loop fuel output)
    (fun o s' => o = output ++ mjoin (append_utf8 <$> scalars) /\
       s' = move (escaped (mjoin (append_utf8 <$> scalars)) ++ [quote]) l 0 0 s) s.
Proof.
  revert output fuel s. induction scalars as [|z scalars IH]; intros output fuel s Hz Hr Hf;
    (destruct fuel as [|fuel]; [lia|]); cbn [string_loop]; do 2 gstep.
  - simpl in Hr. rewrite Hr. cbn [head]. rewrite Z.eqb_refl. gstep.
    apply (good_advance [quote] l); [done|done|]. gstep. simpl. by rewrite app_nil_r.
  - apply Forall_cons in Hz as [Hz Hzs]. simpl in Hr. rewrite escaped_app, <- app_assoc in Hr.
    set (body := mjoin (append_utf8 <$> scalars)) in *. simpl. rewrite escaped_app.
    assert (Hgo : forall c, rest s = c ++ escaped body ++ quote :: l -> c <> [] -> c = escaped (append_utf8 z) ->
      good (string_loop fuel (output ++ append_utf8 z))
        (fun o s' => o = output ++ append_utf8 z ++ body /\
           s' = move ((escaped (append_utf8 z) ++ escaped body) ++ [quote]) l 0 0 s)
        (move c (escaped body ++ quote :: l) 0 0 s)).
    { intros c Hc Hne Heq. eapply good_mono; [apply IH; [done|done|]|].
      - cbn [rest move]. rewrite Hc, length_app in Hf. destruct c; [done|simpl in Hf; lia].
      - intros o s' [-> ->]. rewrite <- !app_assoc. split; [done|].
        by rewrite move_move, Heq, <- ?app_assoc. }
    destruct (Z.le_gt_cases z 0x7F) as [Hlow|Hhigh].
    + assert (Hz0 : 0 <= z < 0x80) by (destruct Hz; lia).
      rewrite append_utf8_low in * by lia. change (escaped [z]) with (append_json_byte z ++ []) in *.
      rewrite app_nil_r in *.
      destruct (append_json_byte_cases z Hz0) as [(Hone & Hq & Hb & H20)|Hesc].
      * rewrite Hr, Hone. cbn [head app].
        rewrite (proj2 (Z.eqb_neq z quote)), (proj2 (Z.eqb_neq z backslash)) by done.
        rewrite (proj2 (Z.leb_gt z 0x1F)), (proj2 (Z.ltb_lt z 0x80)) by lia. gstep.
        apply (good_advance [z] (escaped body ++ quote :: l)); [by rewrite Hr, Hone|done|].
        rewrite Hone in *. by apply (Hgo [z]).
      * assert (Hhd : head (rest s) = Some backslash).
        { rewrite Hr. destruct (append_json_byte z); [done|]. exact Hesc. }
        rewrite Hhd. change (backslash =? quote) with false. rewrite Z.eqb_refl. gstep.
        apply (parse_escape_good z (escaped body ++ quote :: l)); [done|done|done|].
        apply (Hgo (append_json_byte z)); [done| |done]. by destruct (append_json_byte z).
    + pose proof (append_utf8_high z ltac:(lia) Hz) as Hhi. rewrite (escaped_high _ Hhi) in *.
      assert (Hhd : exists b, head (rest s) = Some b /\ 0x80 <= b /\ append_utf8 z <> []).
      { rewrite Hr. destruct (append_utf8 z) as [|b q] eqn:Hq; cycle 1.
        { apply Forall_cons in Hhi as [? _]. by exists b. }
        pose proof (utf8_sequence_complete z ltac:(lia) Hz) as Hs. by rewrite Hq in Hs. }
      destruct Hhd as (b & Hhd & Hb & Hne). rewrite Hhd. unfold quote at 1, backslash at 1.
      rewrite (proj2 (Z.eqb_neq b 34)), (proj2 (Z.eqb_neq b 92)) by lia.
      rewrite (proj2 (Z.leb_gt b 0x1F)), (proj2 (Z.ltb_ge b 0x80)) by lia. gstep.
      apply (copy_utf8_good z (escaped body ++ quote :: l)); [lia|done|done|]. by apply Hgo.
Qed.

(** [append_json_string] is parsed back, in any context. *)
Lemma parse_string_good text l s (Q : list Z -> pstate -> Prop) :
  utf8 text -> rest s = append_json_string text ++ l ->
  Q text (move (append_json_string text) l 0 0 s) -> good parse_string Q s.
Proof.
  intros (scalars & Hz & ->) Hr HQ. unfold append_json_string in *.
  set (text := mjoin (append_utf8 <$> scalars)) in *. fold (escaped text) in *.
  unfold parse_string. gstep. apply (good_advance [quote] (escaped text ++ quote :: l)); [|done|].
  { rewrite Hr. simpl. by rewrite <- app_assoc. }
  do 2 gstep. eapply good_mono; [apply (string_loop_good scalars); [done|done|lia]|].
  intros o s' [-> ->]. rewrite move_move. exact HQ.
Qed.

(** ** Numbers are complete *)

(** What may follow a number without extending it. *)
Definition ends_number (l : list Z) : Prop :=
  forall x, head l = Some x ->
    is_decimal_digit x = false /\ x <> 46 /\ x <> 101 /\ x <> 69.

Lemma good_digits ds l s (Q : unit -> pstate -> Prop) :
  rest s = ds ++ l -> forallb is_decimal_digit ds = true ->
  (forall x, head l = Some x -> is_decimal_digit x = false) ->
  Q tt (move ds l 0 0 s) -> good (skip_while is_decimal_digit) Q s.
Proof. intros. by apply (good_skip_while _ ds l). Qed.

Lemma require_digits_good ds l s (Q : unit -> pstate -> Prop) :
  rest s = ds ++ l -> digits ds -> (forall x, head l = Some x -> is_decimal_digit x = false) ->
  Q tt (move ds l 0 0 s) -> good require_digits Q s.
Proof.
  intros Hr [Hne Hd] Hl HQ. unfold require_digits. do 2 gstep.
  destruct ds as [|d ds]; [done|]. rewrite Hr. cbn [head app]. pose proof Hd as Hd'. simpl in Hd'.
  apply andb_true_iff in Hd' as [-> _]. by apply (good_digits (d :: ds) l).
Qed.

Lemma digit_range d : is_decimal_digit d = true <-> 48 <= d <= 57.
Proof. unfold is_decimal_digit. rewrite andb_true_iff, !Z.leb_le. lia. Qed.

Lemma parse_integer_part_good int l s (Q : unit -> pstate -> Prop) :
  rest s = int ++ l -> integer_part int -> (forall x, head l = Some x -> is_decimal_digit x = false) ->
  Q tt (move int l 0 0 s) -> good parse_integer_part Q s.
Proof.
  intros Hr Hint Hl HQ. unfold parse_integer_part. do 2 gstep. rewrite Hr.
  destruct Hint as [->|(d & ds & -> & Hd & Hds)]; cbn [head app].
  - change (48 =? 48) with true. cbv iota. gstep. apply (good_advance [48] l); [done|done|]. do 2 gstep.
    cbn [rest move]. destruct (head l) as [x|]; [rewrite (Hl x) by done|]; by gstep.
  - rewrite (proj2 (Z.eqb_neq d 48)), (proj2 (Z.leb_le 49 d)), (proj2 (Z.leb_le d 57)) by lia.
    cbn [andb]. apply (good_digits (d :: ds) l); [done| |done|done].
    simpl. rewrite Hds. rewrite (proj2 (digit_range d)) by lia. done.
Qed.

Lemma good_option {A} (m : parser A) (k : Z -> parser A) (skip : parser A) (Q : A -> pstate -> Prop) s :
  good (match head (rest s) with Some c => k c | None => skip end) Q s ->
  good (c ← peek; match c with Some c => k c | None => skip end) Q s.
Proof. done. Qed.

Lemma parse_fraction_good frac l s (Q : unit -> pstate -> Prop) :
  rest s = frac ++ l -> fraction_part frac ->
  (forall x, head l = Some x -> is_decimal_digit x = false /\ x <> 46) ->
  Q tt (move frac l 0 0 s) -> good parse_fraction Q s.
Proof.
  intros Hr Hfrac Hl HQ. unfold parse_fraction. do 2 gstep. rewrite Hr.
  destruct Hfrac as [->|(ds & -> & Hds)]; cbn [head app].
  - assert (Hm : move [] l 0 0 s = s) by (unfold move; simpl in Hr; rewrite <- Hr; destruct s; simpl; by rewrite !Z.add_0_r).
    rewrite Hm in HQ. destruct (head l) as [x|] eqn:Hx; [|by gstep].
    destruct (Hl x eq_refl) as [_ Hne]. rewrite (proj2 (Z.eqb_neq x 46)) by done. by gstep.
  - change (46 =? 46) with true. cbv iota. gstep. apply (good_advance [46] (ds ++ l)); [done|done|].
    apply (require_digits_good ds l); [done|done|by apply Hl|]. rewrite move_move. exact HQ.
Qed.

Lemma parse_exponent_good exp l s (Q : unit -> pstate -> Prop) :
  rest s = exp ++ l -> exponent_part exp ->
  (forall x, head l = Some x -> is_decimal_digit x = false /\ x <> 101 /\ x <> 69) ->
  Q tt (move exp l 0 0 s) -> good parse_exponent Q s.
Proof.
  intros Hr Hexp Hl HQ. unfold parse_exponent. do 2 gstep. rewrite Hr.
  destruct Hexp as [->|(e & sgn & ds & -> & He & Hsgn & Hds)]; cbn [head app].
  - assert (Hm : move [] l 0 0 s = s) by (unfold move; simpl in Hr; rewrite <- Hr; destruct s; simpl; by rewrite !Z.add_0_r).
    rewrite Hm in HQ. destruct (head l) as [x|] eqn:Hx; [|by gstep].
    destruct (Hl x eq_refl) as (_ & Hne1 & Hne2).
    rewrite (proj2 (Z.eqb_neq x 101)), (proj2 (Z.eqb_neq x 69)) by done. cbn [orb]. by gstep.
  - assert (Htest : (e =? 101) || (e =? 69) = true) by (destruct He as [-> | ->]; done).
    rewrite Htest. gstep. apply (good_advance [e] (sgn ++ ds ++ l)); [by rewrite Hr; simpl; rewrite <- ?app_assoc|done|].
    do 3 gstep. cbn [rest move].
    assert (Hgo : good require_digits Q (move sgn (ds ++ l) 0 0 (move [e] (sgn ++ ds ++ l) 0 0 s))).
    { apply (require_digits_good ds l); [done|done|intros; by apply Hl|]. rewrite !move_move. exact HQ. }
    destruct Hsgn as [->|Hsgn].
    + destruct Hds as [Hne Hd]. destruct ds as [|d ds]; [done|]. cbn [head app].
      simpl in Hd. apply andb_true_iff in Hd as [Hd _]. apply digit_range in Hd.
      rewrite (proj2 (Z.eqb_neq d 43)), (proj2 (Z.eqb_neq d 45)) by lia. cbn [orb]. gstep.
      rewrite move_move, app_nil_r in Hgo. exact Hgo.
    + destruct Hsgn as [-> | ->]; cbn [head app].
      * apply (good_advance [43] (ds ++ l)); [done|done|exact Hgo].
      * apply (good_advance [45] (ds ++ l)); [done|done|exact Hgo].
Qed.

Lemma parse_number_good t l s (Q : Value -> pstate -> Prop) :
  rest s = t ++ l -> number_text t -> ends_number l ->
  Q (Number t) (move t l 0 0 s) -> good parse_number Q s.
Proof.
  intros Hr (sign & int & frac & exp & Ht & Hsign & Hint & Hfrac & Hexp) Hl HQ.
  assert (He : forall x, head (exp ++ l) = Some x -> is_decimal_digit x = false /\ x <> 46).
  { destruct Hexp as [->|(e & sg & ds & -> & He & _)]; [intros x Hx; by destruct (Hl x Hx) as (? & ? & _)|].
    intros x [= <-]. by destruct He as [-> | ->]. }
  assert (Hf : forall x, head (frac ++ exp ++ l) = Some x -> is_decimal_digit x = false).
  { destruct Hfrac as [->|(ds & -> & _)]; [intros x Hx; by apply He|]. by intros x [= <-]. }
  assert (Hgo : good (_ ← parse_integer_part; _ ← parse_fraction; _ ← parse_exponent; s' ← get;
      mret (Number (take (Z.to_nat (position s' - position s)) (rest s)))) Q
    (move sign (int ++ frac ++ exp ++ l) 0 0 s)).
  { gstep. apply (parse_integer_part_good int (frac ++ exp ++ l)); [done|done|done|].
    gstep. apply (parse_fraction_good frac (exp ++ l)); [done|done|done|].
    gstep. apply (parse_exponent_good exp l); [done|done|intros x Hx; by destruct (Hl x Hx) as (? & _ & ? & ?)|].
    do 3 gstep. rewrite !move_move, <- ?app_assoc, <- Ht. cbn [position move].
    replace (Z.to_nat _) with (length t) by lia. rewrite Hr, take_app_length. exact HQ. }
  assert (Hrest : rest s = sign ++ int ++ frac ++ exp ++ l) by (by rewrite Hr, Ht, <- !app_assoc).
  unfold parse_number. do 5 gstep. destruct Hsign as [-> | ->].
  - assert (Hm : move [] (int ++ frac ++ exp ++ l) 0 0 s = s).
    { unfold move. simpl in Hrest. rewrite <- Hrest. destruct s; simpl. by rewrite !Z.add_0_r. }
    rewrite Hm in Hgo.
    assert (Hhd : exists x, head (rest s) = Some x /\ x <> 45).
    { rewrite Hrest. destruct Hint as [->|(d & ds & -> & Hd & _)]; [by exists 48|]. exists d. split; [done|lia]. }
    destruct Hhd as (x & -> & Hx). rewrite (proj2 (Z.eqb_neq x 45)) by done. gstep. exact Hgo.
  - replace (head (rest s)) with (Some 45) by (by rewrite Hrest). change (45 =? 45) with true. cbv iota.
    apply (good_advance [45] (int ++ frac ++ exp ++ l)); [done|done|exact Hgo].
Qed.

(** ** Values are complete

    [render] prints a value without white space, its strings by
    [append_json_string]. *)

Definition comma_separated (parts : list (list Z)) : list Z :=
  match parts with
  | [] => []
  | p :: parts => p ++ mjoin ((fun q => 44 :: q) <$> parts)
  end.

Fixpoint render (v : Value) : list Z :=
  match v with
  | Null => [110; 117; 108; 108]
  | Bool true => [116; 114; 117; 101]
  | Bool false => [102; 97; 108; 115; 101]
  | Number t => t
  | String s => append_json_string s
  | Array vs => [91] ++ comma_separated (map render vs) ++ [93]
  | Object kvs =>
      [123] ++ comma_separated (map (fun kv => append_json_string (fst kv) ++ [58] ++ render (snd kv)) kvs)
      ++ [125]
  end.

Lemma move_nil l s : rest s = l -> move [] l 0 0 s = s.
Proof. intros <-. unfold move. destruct s. simpl. by rewrite !Z.add_0_r. Qed.

Lemma good_at_token x l (Q : unit -> pstate -> Prop) s :
  rest s = x :: l -> is_json_whitespace x = false -> Q tt s -> good skip_whitespace Q s.
Proof. intros Hr Hx HQ. apply (good_no_whitespace x l); [done|done|]. by rewrite move_nil. Qed.

Lemma comma_separated_cons p q parts :
  comma_separated (p :: q :: parts) = p ++ 44 :: comma_separated (q :: parts).
Proof. done. Qed.

(** What a text means: the members of every object in the order of their
    keys. *)
Fixpoint sorted (v : Value) : Value :=
  match v with
  | Array vs => Array (map sorted vs)
  | Object kvs => Object (emplace_entries (map (fun kv => (fst kv, sorted (snd kv))) kvs) [])
  | _ => v
  end.

(** A value that can be printed: as a well-formed one, in any order. *)
Fixpoint document (v : Value) : Prop :=
  match v with
  | Null | Bool _ => True
  | Number t => number_text t
  | String s => utf8 s
  | Array vs => foldr (fun v P => document v /\ P) True vs
  | Object kvs =>
      foldr (fun kv P => (utf8 (fst kv) /\ document (snd kv)) /\ P) True kvs /\ NoDup kvs.*1
  end.

(** The first character of a rendered value. *)
Lemma render_head v :
  document v -> exists x r, render v = x :: r /\ is_json_whitespace x = false /\ x <> 93.
Proof.
  destruct v as [|[]|t|t|vs|kvs]; intros Hw; simpl in *; try (by eexists _, _).
  destruct Hw as (sign & int & frac & exp & -> & [-> | ->] & Hint & _); [|by eexists _, _].
  destruct Hint as [->|(d & ds & -> & Hd & _)]; [by eexists _, _|]. eexists _, _. split; [reflexivity|].
  unfold is_json_whitespace. repeat (rewrite (proj2 (Z.eqb_neq d _)) by lia). split; [done|lia].
Qed.

(** Induction on values through their containers. *)
Lemma Value_induction (P : Value -> Prop) :
  P Null -> (forall b, P (Bool b)) -> (forall t, P (Number t)) -> (forall t, P (String t)) ->
  (forall vs, Forall P vs -> P (Array vs)) ->
  (forall kvs, Forall (fun kv => P (snd kv)) kvs -> P (Object kvs)) -> forall v, P v.
Proof.
  intros Hn Hb Hnum Hs Ha Ho. fix IH 1. intros [|b|t|t|vs|kvs];
    [exact Hn|exact (Hb b)|exact (Hnum t)|exact (Hs t)| |].
  - apply Ha. induction vs as [|v vs IHvs]; constructor; [apply IH|exact IHvs].
  - apply Ho. induction kvs as [|[k v] kvs IHk]; constructor; [apply IH|exact IHk].
Qed.

Lemma counts_nonneg v : 1 <= values_in v /\ 0 <= items_in v.
Proof.
  induction v as [| | | |vs Hvs|kvs Hkvs] using Value_induction; simpl; try lia.
  - induction Hvs; simpl; lia.
  - induction Hkvs; simpl; lia.
Qed.

Lemma sums_nonneg vs : 0 <= sum_values vs /\ 0 <= sum_items vs.
Proof.
  unfold sum_values, sum_items. induction vs as [|v vs IH]; simpl; [lia|].
  pose proof (counts_nonneg v). lia.
Qed.

Lemma entry_sums_nonneg kvs : 0 <= sum_entry_values kvs /\ 0 <= sum_entry_items kvs.
Proof.
  unfold sum_entry_values, sum_entry_items. induction kvs as [|[k v] kvs IH]; simpl; [lia|].
  pose proof (counts_nonneg v). lia.
Qed.

Section Complete.
Variables max_depth max_values max_items : Z.

(** [element] reads back what [v] means, within the budgets, before anything that does
    not extend a number. *)
Definition reads_back (element : parser Value) (v : Value) : Prop :=
  forall l s, rest s = render v ++ l -> ends_number l ->
    value_count s + values_in v <= max_values ->
    container_item_count s + items_in v <= max_items ->
    good element (fun v' s' => v' = sorted v /\ s' = move (render v) l (values_in v) (items_in v) s) s.

Lemma good_consume_item (Q : unit -> pstate -> Prop) s :
  container_item_count s < max_items -> Q tt (move [] (rest s) 0 1 s) ->
  good (consume_container_item max_items) Q s.
Proof.
  intros Hc HQ. unfold good, consume_container_item. rewrite (proj2 (Z.leb_gt _ _)) by lia.
  unfold move in HQ. simpl in HQ. by rewrite !Z.add_0_r in HQ.
Qed.

Lemma good_consume_value (Q : unit -> pstate -> Prop) s :
  value_count s < max_values -> Q tt (move [] (rest s) 1 0 s) ->
  good (consume_value max_values) Q s.
Proof.
  intros Hc HQ. unfold good, consume_value. rewrite (proj2 (Z.leb_gt _ _)) by lia.
  unfold move in HQ. simpl in HQ. by rewrite !Z.add_0_r in HQ.
Qed.

Lemma move_eq c l dv di c' dv' di' s :
  c = c' -> dv = dv' -> di = di' -> move c l dv di s = move c' l dv' di' s.
Proof. by intros -> -> ->. Qed.

Lemma array_loop_good element done_ v vs fuel l s :
  Forall (reads_back element) (v :: vs) -> (length (v :: vs) <= fuel)%nat ->
  rest s = comma_separated (map render (v :: vs)) ++ 93 :: l ->
  value_count s + sum_values (v :: vs) <= max_values ->
  container_item_count s + sum_items (v :: vs) <= max_items ->
  good (array_loop max_items element fuel done_)
    (fun v' s' => v' = Array (done_ ++ map sorted (v :: vs)) /\
       s' = move (comma_separated (map render (v :: vs)) ++ [93]) l
              (sum_values (v :: vs)) (sum_items (v :: vs)) s) s.
Proof.
  revert done_ v fuel s. induction vs as [|v2 vs IH]; intros done_ v [|fuel] s Hel Hf Hr Hv Hi;
    try (simpl in Hf; lia); apply Forall_cons in Hel as [Hv1 Hel];
    pose proof (counts_nonneg v); cbn [array_loop]; gstep.
  - unfold sum_values, sum_items in *. simpl in Hr, Hv, Hi. rewrite app_nil_r in Hr.
    apply good_consume_item; [lia|]. gstep.
    eapply good_mono; [apply (Hv1 (93 :: l))|].
    + exact Hr.
    + by intros x [= <-].
    + cbn [value_count move]. lia.
    + cbn [container_item_count move]. lia.
    + intros v' s' [-> ->]. cbv zeta. gstep.
      apply (good_at_token 93 l); [done|done|]. do 2 gstep. cbn [rest move head].
      change (93 =? 93) with true. cbv iota. gstep. apply (good_advance [93] l); [done|done|]. gstep.
      split; [done|]. rewrite !move_move. apply move_eq; simpl; [by rewrite app_nil_r|lia..].
  - pose proof (sums_nonneg (v2 :: vs)) as Hsum.
    change (sum_values (v :: v2 :: vs)) with (values_in v + sum_values (v2 :: vs)) in *.
    change (sum_items (v :: v2 :: vs)) with (1 + items_in v + sum_items (v2 :: vs)) in *.
    change (comma_separated (map render (v :: v2 :: vs))) with
      (render v ++ 44 :: comma_separated (map render (v2 :: vs))) in *.
    rewrite <- app_assoc in Hr. cbn [app] in Hr.
    apply good_consume_item; [lia|]. gstep.
    eapply good_mono; [apply (Hv1 (44 :: comma_separated (map render (v2 :: vs)) ++ 93 :: l))|].
    + exact Hr.
    + by intros x [= <-].
    + cbn [value_count move]. lia.
    + cbn [container_item_count move]. lia.
    + intros v' s' [-> ->]. cbv zeta. gstep.
      eapply good_at_token; [reflexivity|done|]. do 2 gstep. cbn [rest move head].
      change (44 =? 93) with false. change (44 =? 44) with true. cbn [negb].
      gstep. apply (good_advance [44] (comma_separated (map render (v2 :: vs)) ++ 93 :: l)); [done|done|].
      eapply good_mono; [apply IH; [done|simpl in *; lia|done| |]|].
      * cbn [value_count move]. lia.
      * cbn [container_item_count move]. lia.
      * intros v' s' [-> ->]. rewrite <- app_assoc. split; [done|]. rewrite !move_move.
        apply move_eq; [|lia..]. cbn [app]. rewrite <- ?app_assoc. cbn [app].
        by rewrite <- ?app_assoc.
Qed.

(** The text of a member. *)
Definition member (kv : list Z * Value) : list Z := append_json_string (fst kv) ++ 58 :: render (snd kv).

(** One member, up to the character after it. *)
Lemma object_iteration element done_ k v fuel c l (Q : Value -> pstate -> Prop) s :
  utf8 k -> reads_back element v -> map_find k done_ = None ->
  rest s = member (k, v) ++ c :: l -> ends_number (c :: l) -> is_json_whitespace c = false ->
  value_count s + values_in v <= max_values ->
  container_item_count s + 1 + items_in v <= max_items ->
  good (if c =? 125 then _ ← advance 1; mret (Object (map_emplace k (sorted v) done_))
        else if negb (c =? 44) then fail kUnexpectedToken
        else _ ← advance 1; object_loop max_items element fuel (map_emplace k (sorted v) done_)) Q
    (move (member (k, v)) (c :: l) (values_in v) (1 + items_in v) s) ->
  good (object_loop max_items element (S fuel) done_) Q s.
Proof.
  intros Hutf Hel Hfind Hr Hend Hc Hv Hi HQ. cbn [object_loop].
  pose proof (counts_nonneg v). unfold member in *. cbn [fst snd] in *.
  rewrite <- app_assoc in Hr. cbn [app] in Hr. set (text := append_json_string k) in *.
  assert (Htext : exists t, text = quote :: t) by (by eexists). destruct Htext as [t Htext].
  gstep. apply (good_at_token quote (t ++ 58 :: render v ++ c :: l)); [by rewrite Hr, Htext|done|].
  do 2 gstep. rewrite Hr, Htext. cbn [head app]. rewrite Z.eqb_refl. cbn [negb]. gstep.
  apply good_consume_item; [lia|]. do 2 gstep. gstep.
  apply (parse_string_good k (58 :: render v ++ c :: l)); [done|exact Hr|]. fold text.
  rewrite Hfind, bool_decide_true by done. cbn [negb]. gstep.
  apply (good_at_token 58 (render v ++ c :: l)); [done|done|]. do 2 gstep. cbn [rest move head].
  change (58 =? 58) with true. cbn [negb]. gstep.
  apply (good_advance [58] (render v ++ c :: l)); [done|done|]. gstep.
  eapply good_mono; [apply (Hel (c :: l)); [done|done| |]|].
  - cbn [value_count move]. lia.
  - cbn [container_item_count move]. lia.
  - intros v' s' [-> ->]. cbv zeta. gstep.
    apply (good_at_token c l); [done|done|]. do 2 gstep. cbn [rest head]. cbn [rest move head].
    rewrite !move_move. match type of HQ with good _ _ ?a => match goal with |- good _ _ ?b =>
      replace b with a; [exact HQ|] end end.
    apply move_eq; [|lia..]. cbn [app]. by rewrite <- ?app_assoc.
Qed.

Definition sorted_member (kv : list Z * Value) : list Z * Value := (fst kv, sorted (snd kv)).

Lemma object_loop_good element done_ k v kvs fuel l s :
  Forall (fun kv => utf8 (fst kv) /\ reads_back element (snd kv)) ((k, v) :: kvs) ->
  (length ((k, v) :: kvs) <= fuel)%nat ->
  NoDup ((k, v) :: kvs).*1 -> (forall key, key ∈ ((k, v) :: kvs).*1 -> map_find key done_ = None) ->
  rest s = comma_separated (map member ((k, v) :: kvs)) ++ 125 :: l ->
  value_count s + sum_entry_values ((k, v) :: kvs) <= max_values ->
  container_item_count s + sum_entry_items ((k, v) :: kvs) <= max_items ->
  good (object_loop max_items element fuel done_)
    (fun v' s' => v' = Object (emplace_entries (map sorted_member ((k, v) :: kvs)) done_) /\
       s' = move (comma_separated (map member ((k, v) :: kvs)) ++ [125]) l
              (sum_entry_values ((k, v) :: kvs)) (sum_entry_items ((k, v) :: kvs)) s) s.
Proof.
  revert done_ k v fuel s. induction kvs as [|[k2 v2] kvs IH]; intros done_ k v [|fuel] s Hel Hf Hn Hd Hr Hv Hi;
    try (simpl in Hf; lia); apply Forall_cons in Hel as [[Hutf Hv1] Hel]; cbn [fst snd] in *;
    assert (Hfind : map_find k done_ = None) by (apply Hd; left).
  - change (comma_separated (map member [(k, v)])) with (member (k, v) ++ []) in *.
    change (sum_entry_values [(k, v)]) with (values_in v + 0) in *.
    change (sum_entry_items [(k, v)]) with (1 + items_in v + 0) in *. rewrite app_nil_r in *.
    eapply (object_iteration element done_ k v fuel 125 l); try done; try lia.
    + by intros x [= <-].
    + change (125 =? 125) with true. cbv iota. gstep. apply (good_advance [125] l); [done|done|]. gstep.
      split; [done|]. rewrite move_move. apply move_eq; [done|lia..].
  - change (comma_separated (map member ((k, v) :: (k2, v2) :: kvs))) with
      (member (k, v) ++ 44 :: comma_separated (map member ((k2, v2) :: kvs))) in *.
    change (sum_entry_values ((k, v) :: (k2, v2) :: kvs)) with
      (values_in v + sum_entry_values ((k2, v2) :: kvs)) in *.
    change (sum_entry_items ((k, v) :: (k2, v2) :: kvs)) with
      (1 + items_in v + sum_entry_items ((k2, v2) :: kvs)) in *.
    pose proof (entry_sums_nonneg ((k2, v2) :: kvs)) as Hsum.
    rewrite <- app_assoc in Hr. cbn [app] in Hr.
    eapply (object_iteration element done_ k v fuel 44); [done..|exact Hr| |done|lia|lia|].
    + by intros x [= <-].
    + change (44 =? 125) with false. change (44 =? 44) with true. cbn [negb]. gstep.
      apply (good_advance [44] (comma_separated (map member ((k2, v2) :: kvs)) ++ 125 :: l)); [done|done|].
      cbn [fmap list_fmap fst] in Hn, Hd. apply NoDup_cons in Hn as [Hk Hn].
      eapply good_mono; [apply IH; [done|simpl in *; lia|exact Hn| |done| |]|].
      * intros key Hkey. rewrite (map_find_emplace _ _ _ _ Hfind). rewrite decide_False by (intros ->; done).
        apply Hd. by right.
      * cbn [value_count move]. lia.
      * cbn [container_item_count move]. lia.
      * intros v' s' [-> ->]. split; [done|]. rewrite !move_move.
        apply move_eq; [|lia..]. cbn [app]. rewrite <- ?app_assoc. cbn [app]. by rewrite <- ?app_assoc.
Qed.
Lemma foldr_and_Forall {A} (P : A -> Prop) l : foldr (fun a Q => P a /\ Q) True l -> Forall P l.
Proof. induction l; simpl; [constructor|]. intros [? ?]. constructor; auto. Qed.

Lemma foldr_max_Forall {A} (f : A -> Z) l n :
  foldr (fun a m => Z.max (f a) m) 0 l <= n -> Forall (fun a => f a <= n) l.
Proof. induction l; simpl; intros; constructor; [lia|]. apply IHl. lia. Qed.

Lemma literal_good literal l v (Q : Value -> pstate -> Prop) s :
  rest s = literal ++ l -> Q v (move literal l 0 0 s) ->
  good (_ ← parse_literal literal; mret v) Q s.
Proof.
  intros Hr HQ. unfold parse_literal. do 3 gstep.
  rewrite bool_decide_true by (rewrite Hr; apply take_app_length).
  by apply (good_advance literal l).
Qed.

Lemma comma_separated_length {A} (f : A -> list Z) l :
  Forall (fun a => f a <> []) l -> (length l <= length (comma_separated (map f l)))%nat.
Proof.
  intros Hl. destruct Hl as [|a l Ha Hl]; [simpl; lia|]. cbn [map comma_separated length].
  rewrite length_app. assert (length l <= length (mjoin ((fun q => 44%Z :: q) <$> map f l)))%nat.
  { induction Hl as [|b l Hb Hl IH]; [simpl; lia|].
    assert (E : length (mjoin ((fun q => 44%Z :: q) <$> map f (b :: l))) =
      (S (length (f b)) + length (mjoin ((fun q => 44%Z :: q) <$> map f l)))%nat)
      by apply (length_app (44%Z :: f b)).
    rewrite E. change (length (b :: l)) with (S (length l)). lia. }
  destruct (f a); [done|]. simpl. lia.
Qed.

Lemma array_good element depth vs l s :
  Forall document vs -> Forall (reads_back element) vs -> depth < max_depth ->
  rest s = render (Array vs) ++ l ->
  value_count s + sum_values vs <= max_values ->
  container_item_count s + sum_items vs <= max_items ->
  good (parse_array max_depth max_items element depth)
    (fun v' s' => v' = sorted (Array vs) /\ s' = move (render (Array vs)) l (sum_values vs) (sum_items vs) s) s.
Proof.
  intros Hw Hel Hd Hr Hv Hi. cbn [render] in *. rewrite <- app_assoc in Hr. cbn [app] in Hr.
  unfold parse_array. do 2 gstep. rewrite (proj2 (Z.leb_gt _ _)) by lia. gstep.
  set (inner := comma_separated (map render vs)) in *.
  apply (good_advance [91] (inner ++ 93 :: l)); [by rewrite Hr, <- app_assoc|done|]. gstep.
  destruct vs as [|v vs].
  - apply (good_at_token 93 l); [done|done|]. do 2 gstep. cbn [rest move head].
    rewrite bool_decide_true by done. gstep. apply (good_advance [93] l); [done|done|]. gstep.
    split; [done|]. rewrite move_move. by apply move_eq.
  - apply Forall_cons in Hw as Hw'. destruct Hw' as [Hwv _].
    destruct (render_head v Hwv) as (x & r & Hx & Hws & Hne).
    assert (Hin : exists t, inner = x :: t).
    { unfold inner. cbn [map comma_separated]. rewrite Hx. by eexists. }
    destruct Hin as [t Ht].
    apply (good_at_token x (t ++ 93 :: l)); [cbn [rest move]; by rewrite Ht|done|]. do 2 gstep.
    rewrite bool_decide_false by (cbn [rest move]; rewrite Ht; cbn [head app]; congruence).
    eapply good_mono; [apply (array_loop_good element [] v vs _ l); [done| |done| |]|].
    + assert (length (v :: vs) <= length inner)%nat; [|rewrite Hr; simpl in *; rewrite !length_app; lia].
      apply comma_separated_length. eapply Forall_impl; [exact Hw|].
      intros u Hu. destruct (render_head u Hu) as (? & ? & -> & _). done.
    + cbn [value_count move]. lia.
    + cbn [container_item_count move]. lia.
    + intros v' s' [-> ->]. split; [done|]. rewrite move_move. by apply move_eq.
Qed.

Lemma object_good element depth kvs l s :
  Forall (fun kv => utf8 (fst kv) /\ reads_back element (snd kv)) kvs -> NoDup kvs.*1 ->
  depth < max_depth -> rest s = render (Object kvs) ++ l ->
  value_count s + sum_entry_values kvs <= max_values ->
  container_item_count s + sum_entry_items kvs <= max_items ->
  good (parse_object max_depth max_items element depth)
    (fun v' s' => v' = sorted (Object kvs) /\
       s' = move (render (Object kvs)) l (sum_entry_values kvs) (sum_entry_items kvs) s) s.
Proof.
  intros Hel Hk Hd Hr Hv Hi. cbn [render] in *.
  change (map _ kvs) with (map member kvs) in *. rewrite <- app_assoc in Hr. cbn [app] in Hr.
  unfold parse_object. do 2 gstep. rewrite (proj2 (Z.leb_gt _ _)) by lia. gstep.
  set (inner := comma_separated (map member kvs)) in *.
  apply (good_advance [123] (inner ++ 125 :: l)); [by rewrite Hr, <- app_assoc|done|]. gstep.
  destruct kvs as [|[k v] kvs].
  - apply (good_at_token 125 l); [done|done|]. do 2 gstep. cbn [rest move head].
    rewrite bool_decide_true by done. gstep. apply (good_advance [125] l); [done|done|]. gstep.
    split; [done|]. rewrite move_move. by apply move_eq.
  - assert (Hin : exists t, inner = quote :: t) by (by eexists). destruct Hin as [t Ht].
    apply (good_at_token quote (t ++ 125 :: l)); [cbn [rest move]; by rewrite Ht|done|]. do 2 gstep.
    rewrite bool_decide_false by (cbn [rest move]; rewrite Ht; done).
    eapply good_mono; [apply (object_loop_good element [] k v kvs _ l); [done| |done|done|done| |]|].
    + assert (Hlen : (length ((k, v) :: kvs) <= length inner)%nat);
        [|rewrite Hr; change (length ((k, v) :: kvs)) with (S (length kvs)) in *;
          change (length (123%Z :: ?l)) with (S (length l)); rewrite !length_app; lia].
      apply comma_separated_length. apply Forall_forall. intros kv _. by unfold member.
    + cbn [value_count move]. lia.
    + cbn [container_item_count move]. lia.
    + intros v' s' [-> ->]. split; [done|]. rewrite move_move. by apply move_eq.
Qed.

Lemma parse_value_good fuel depth v :
  document v -> 0 <= depth -> depth + nesting v <= max_depth -> nesting v < Z.of_nat fuel ->
  reads_back (parse_value max_depth max_values max_items fuel depth) v.
Proof.
  revert depth v. induction fuel as [|fuel IH]; intros depth v Hw Hd Hn Hf l s Hr Hend Hv Hi.
  { pose proof (nesting_nonneg v). lia. }
  pose proof (counts_nonneg v) as Hcounts.
  destruct (render_head v Hw) as (x & r & Hx & Hws & _). cbn [parse_value]. gstep.
  apply (good_at_token x (r ++ l)); [by rewrite Hr, Hx|done|]. do 2 gstep.
  rewrite Hr, Hx. cbn [head app]. rewrite <- Hx. gstep. apply good_consume_value; [lia|].
  set (s1 := move [] (rest s) 1 0 s).
  assert (Hr1 : rest s1 = render v ++ l) by exact Hr.
  assert (Hmove : forall c dv di, move c l dv di s1 = move c l (1 + dv) di s).
  { intros. unfold s1. rewrite move_move. by apply move_eq. }
  assert (Hsub : forall u, document u -> nesting u <= nesting v - 1 -> nesting v <> 0 ->
    reads_back (parse_value max_depth max_values max_items fuel (depth + 1)) u).
  { intros u Hu Hnu Hne. pose proof (nesting_nonneg v). apply IH; [done|lia..]. }
  destruct v as [|b|t|t|vs|kvs].
  - simpl in Hx. injection Hx as <- _. cbn [Z.eqb Pos.eqb].
    apply (literal_good _ l); [exact Hr1|]. split; [done|]. rewrite Hmove. done.
  - destruct b; simpl in Hx; injection Hx as <- _; cbn [Z.eqb Pos.eqb];
      (apply (literal_good _ l); [exact Hr1|]; split; [done|]; by rewrite Hmove).
  - cbn [render] in *. subst t. assert (Hc : x = 45 \/ is_decimal_digit x = true).
    { destruct Hw as (sign & int & frac & exp & Ht & [-> | ->] & Hint & _); [|injection Ht as ->; by left].
      right. destruct Hint as [->|(d & ds & -> & Hdr & _)]; injection Ht as -> _; [done|].
      apply digit_range. lia. }
    assert (Hrange : x = 45 \/ 48 <= x <= 57) by (rewrite <- digit_range; done).
    unfold quote. rewrite !(proj2 (Z.eqb_neq x _)) by lia.
    replace ((x =? 45) || is_decimal_digit x) with true
      by (destruct Hc as [-> | ->]; [done|by rewrite orb_true_r]).
    apply (parse_number_good (x :: r) l); [exact Hr1|done|done|]. split; [done|]. by rewrite Hmove.
  - cbn [render] in *. unfold append_json_string in Hx. injection Hx as <- _.
    change (quote =? 110) with false. change (quote =? 116) with false. change (quote =? 102) with false.
    rewrite Z.eqb_refl. cbv iota. gstep. apply (parse_string_good t l); [done|exact Hr1|]. gstep.
    split; [done|]. by rewrite Hmove.
  - cbn [render] in Hx. injection Hx as <- _. cbn [Z.eqb Pos.eqb]. change (91 =? quote) with false. cbv iota.
    cbn [document nesting values_in items_in] in *. apply foldr_and_Forall in Hw as Hall.
    assert (Hmax : Forall (fun v => nesting v <= nesting (Array vs) - 1) vs)
      by (apply foldr_max_Forall; simpl; lia).
    eapply good_mono; [apply (array_good _ depth vs l); [done| | |exact Hr1| |]|].
    + apply Forall_forall. intros u Hu. rewrite Forall_forall in Hall, Hmax.
      apply Hsub; [by apply Hall|specialize (Hmax u Hu); simpl in Hmax; lia|].
      pose proof (nesting_nonneg (Array vs)). assert (1 <= nesting (Array vs)); [|simpl in *; lia].
      simpl. enough (0 <= foldr (fun v n => Z.max (nesting v) n) 0 vs) by lia. clear. induction vs; simpl; lia.
    + enough (0 <= foldr (fun v n => Z.max (nesting v) n) 0 vs) by lia. clear. induction vs; simpl; lia.
    + unfold sum_values, s1. cbn [value_count move]. lia.
    + unfold sum_items, s1. cbn [container_item_count move]. lia.
    + intros v' s' [-> ->]. split; [done|]. by rewrite Hmove.
  - cbn [render] in Hx. injection Hx as <- _. cbn [Z.eqb Pos.eqb]. change (123 =? quote) with false. cbv iota.
    cbn [document nesting values_in items_in] in *. destruct Hw as [Hw Hk].
    apply (foldr_and_Forall (fun kv => utf8 (fst kv) /\ document (snd kv))) in Hw.
    assert (Hmax : Forall (fun kv => nesting (snd kv) <= nesting (Object kvs) - 1) kvs)
      by (apply (foldr_max_Forall (fun kv => nesting (snd kv))); simpl; lia).
    assert (Hpos : 0 <= foldr (fun kv n => Z.max (nesting (snd kv)) n) 0 kvs)
      by (clear; induction kvs; simpl; lia).
    eapply good_mono; [apply (object_good _ depth kvs l); [|done|lia|exact Hr1| |]|].
    + apply Forall_forall. intros kv Hin. rewrite Forall_forall in Hw, Hmax.
      destruct (Hw kv Hin) as [Hku Hkw]. specialize (Hmax kv Hin). simpl in Hmax.
      split; [done|]. apply Hsub; [done|lia|lia].
    + unfold sum_entry_values, s1. cbn [value_count move]. lia.
    + unfold sum_entry_items, s1. cbn [container_item_count move]. lia.
    + intros v' s' [-> ->]. split; [done|]. by rewrite Hmove.
Qed.
End Complete.

(** ** Properties *)

(** Options as the source types them. *)
Record options_ok (options : ParseOptions) : Prop := {
  depth_nonneg : 0 <= max_nesting_depth options;
  values_nonneg : 0 <= max_values options;
  items_nonneg : 0 <= max_container_items options
}.

Lemma parse_well_formed input options v s :
  Forall is_u8 input -> options_ok options -> parse input options = Good v s -> well_formed v.
Proof.
  intros Hb [Hd Hv Hi]. unfold parse. destruct (max_input_bytes options <? _); [done|].
  pose proof (run_spec input (Z.min (max_nesting_depth options) kAbsoluteMaxNestingDepth)
    (max_values options) (max_container_items options) Hb
    ltac:(unfold kAbsoluteMaxNestingDepth; lia) Hv Hi) as Hrun.
  unfold pwp in Hrun. destruct (run _ _ _ _); [|done..]. intros [= <- _]. tauto.
Qed.

Lemma parse_values_in input options v s :
  Forall is_u8 input -> options_ok options -> parse input options = Good v s -> values_in v <= max_values options.
Proof.
  intros Hb [Hd Hv Hi]. unfold parse. destruct (max_input_bytes options <? _); [done|].
  pose proof (run_spec input (Z.min (max_nesting_depth options) kAbsoluteMaxNestingDepth)
    (max_values options) (max_container_items options) Hb
    ltac:(unfold kAbsoluteMaxNestingDepth; lia) Hv Hi) as Hrun.
  unfold pwp in Hrun. destruct (run _ _ _ _); [|done..]. intros [= <- _]. tauto.
Qed.

(** C25. Every outcome of [parse] is one of two.  Either it is a value that
    is well formed — strings and keys are UTF-8, numbers follow the RFC 8259
    grammar, keys are distinct and in order — and that respects the limits on
    size, nesting, values and container items; or it is a single error whose
    offset lies within the input (for an oversized input, the limit).  The
    recursion never runs out of the depth it is given. *)
Theorem parse_sound input options :
  Forall is_u8 input -> 0 <= max_nesting_depth options ->
  0 <= max_values options -> 0 <= max_container_items options ->
  match parse input options with
  | Good v _ =>
      Z.of_nat (length input) <= max_input_bytes options /\ well_formed v /\
      nesting v <= Z.min (max_nesting_depth options) kAbsoluteMaxNestingDepth /\
      values_in v <= max_values options /\ items_in v <= max_container_items options
  | Bad code offset =>
      if max_input_bytes options <? Z.of_nat (length input)
      then code = kInputTooLarge /\ offset = max_input_bytes options
      else 0 <= offset <= Z.of_nat (length input)
  | OutOfFuel => False
  end.
Proof.
  intros Hb Hd Hv Hi. unfold parse.
  destruct (Z.ltb_spec (max_input_bytes options) (Z.of_nat (length input))); [done|].
  pose proof (run_spec input (Z.min (max_nesting_depth options) kAbsoluteMaxNestingDepth)
    (max_values options) (max_container_items options) Hb
    ltac:(unfold kAbsoluteMaxNestingDepth; lia) Hv Hi) as Hrun.
  unfold pwp in Hrun. destruct (run _ _ _ _); [tauto|done|done].
Qed.

(** [{"b":[1,"x"],"a":null}] *)
Definition sample_text : list Z :=
  [123; 34; 98; 34; 58; 91; 49; 44; 34; 120; 34; 93; 44; 34; 97; 34; 58; 110; 117; 108; 108; 125].
Definition sample_value : Value := Object [([97], Null); ([98], Array [Number [49]; String [120]])].

Lemma parse_sound_witness : well_formed sample_value /\ nesting sample_value <= 128.
Proof.
  pose proof (parse_sound sample_text default_options) as H.
  assert (Hp : exists s, parse sample_text default_options = Good sample_value s)
    by (eexists; vm_compute; reflexivity).
  destruct Hp as [s Hp]. rewrite Hp in H. destruct H as (_ & Hw & Hn & _).
  - repeat (apply Forall_cons_2; [split; [vm_compute; discriminate|vm_compute; reflexivity]|]). apply Forall_nil_2.
  - vm_compute. discriminate.
  - vm_compute. discriminate.
  - vm_compute. discriminate.
  - split; [exact Hw|exact Hn].
Defined.

Lemma parse_document v options :
  document v -> nesting v <= Z.min (max_nesting_depth options) kAbsoluteMaxNestingDepth ->
  values_in v <= max_values options -> items_in v <= max_container_items options ->
  Z.of_nat (length (render v)) <= max_input_bytes options ->
  exists s, parse (render v) options = Good (sorted v) s.
Proof.
  intros Hw Hn Hv Hi Hl. unfold parse. rewrite (proj2 (Z.ltb_ge _ _)) by lia.
  set (depth := Z.min (max_nesting_depth options) kAbsoluteMaxNestingDepth) in *.
  set (m := run depth (max_values options) (max_container_items options)).
  enough (Hg : good m (fun v' _ => v' = sorted v) (start (render v))).
  { unfold good in Hg. destruct (m (start (render v))) as [v' s| |]; [|done..]. subst v'. by exists s. }
  destruct (render_head v Hw) as (x & r & Hx & Hws & _). pose proof (nesting_nonneg v).
  unfold m, run. gstep. apply (good_at_token x r); [done|done|]. gstep.
  eapply good_mono; [apply (parse_value_good depth _ _ (S (Z.to_nat depth)) 0 v Hw ltac:(lia) ltac:(lia) ltac:(lia) [])|].
  - simpl. by rewrite app_nil_r.
  - by intros y [=].
  - simpl. lia.
  - simpl. lia.
  - intros v' s' [-> ->]. gstep.
    apply (good_skip_while _ [] []); [done|done|by intros y [=]|]. do 2 gstep. cbn [rest move]. by gstep.
Qed.

Lemma well_formed_document v : well_formed v -> document v /\ sorted v = v.
Proof.
  induction v as [| | | |vs IH|kvs IH] using Value_induction; intros Hw; try done.
  - cbn [well_formed document sorted] in *. clear -IH Hw. induction IH as [|v vs Hv _ IHvs]; [done|].
    simpl in *. destruct Hw as [Hwv Hw]. destruct (Hv Hwv) as [Hd Hs]. destruct (IHvs Hw) as [Hds Hss].
    split; [done|]. injection Hss as Hss. by rewrite Hs, Hss.
  - cbn [well_formed document sorted] in *. destruct Hw as [Hw Hk].
    assert (Hall : foldr (fun kv P => (utf8 (fst kv) /\ document (snd kv)) /\ P) True kvs /\
      map (fun kv => (fst kv, sorted (snd kv))) kvs = kvs).
    { clear Hk. induction IH as [|[k v] kvs Hv _ IHk]; [done|]. simpl in *. destruct Hw as [[Hu Hwv] Hw].
      destruct (Hv Hwv) as [Hd Hs]. destruct (IHk Hw) as [Hds Hss]. split; [done|]. by rewrite Hs, Hss. }
    destruct Hall as [Hall ->]. split; [split; [done|by apply keys_sorted_NoDup]|].
    f_equal. by apply (emplace_entries_in_order kvs []).
Qed.

Lemma parse_render v options :
  well_formed v -> nesting v <= Z.min (max_nesting_depth options) kAbsoluteMaxNestingDepth ->
  values_in v <= max_values options -> items_in v <= max_container_items options ->
  Z.of_nat (length (render v)) <= max_input_bytes options ->
  exists s, parse (render v) options = Good v s.
Proof.
  intros [Hd Hs]%well_formed_document Hn Hv Hi Hl.
  destruct (parse_document v options Hd Hn Hv Hi Hl) as [s Hp]. exists s. by rewrite Hs in Hp.
Qed.

(** C26. Printing and parsing are inverse: every well-formed value within the
    limits, printed without white space, parses back to itself — escapes,
    multi-byte characters, numbers of any size and nested containers included. *)
Theorem parse_roundtrip v options :
  well_formed v -> nesting v <= Z.min (max_nesting_depth options) kAbsoluteMaxNestingDepth ->
  values_in v <= max_values options -> items_in v <= max_container_items options ->
  Z.of_nat (length (render v)) <= max_input_bytes options ->
  exists s, parse (render v) options = Good v s.
Proof. apply parse_render. Qed.

Lemma sample_well_formed : well_formed sample_value.
Proof.
  assert (Hx : forall c, 0 <= c < 128 -> utf8 [c]) by apply ascii_utf8.
  split; [|repeat constructor]. simpl. split_and!; try done; try (apply Hx; lia).
  exists [], [49], [], []. split_and!; [done|by left|right|by left|by left].
  exists 49, []. split_and!; [done|lia|lia|done].
Qed.

Lemma parse_roundtrip_witness : exists s, parse (render sample_value) default_options = Good sample_value s.
Proof.
  apply parse_roundtrip; [exact sample_well_formed|vm_compute; discriminate|vm_compute; discriminate
    |vm_compute; discriminate|vm_compute; discriminate].
Defined.

Lemma append_json_string_printable text :
  Forall (fun b => 0 <= b) text -> Forall (fun b => 0x20 <= b) (append_json_string text).
Proof.
  intros Hp. unfold append_json_string, quote. apply Forall_app. split; [repeat constructor; lia|].
  apply Forall_app. split; [|repeat constructor; lia].
  induction Hp as [|b text Hb _ IH]; [constructor|]. simpl. apply Forall_app. split; [|exact IH].
  assert (Hhex : forall n, 0 <= n -> 0x20 <= kHex n) by (intros n Hn; unfold kHex; case_match; lia).
  unfold append_json_byte, quote, backslash. repeat case_match; bools;
    repeat (apply Forall_cons_2 || apply Forall_nil_2); try lia; apply Hhex;
    apply Z.land_nonneg; right; lia.
Qed.

Lemma utf8_bytes text : utf8 text -> Forall is_u8 text.
Proof.
  intros (scalars & Hs & ->). induction Hs as [|z scalars Hz _ IH]; simpl; [constructor|].
  apply Forall_app. split; [by apply append_utf8_bytes|exact IH].
Qed.

Lemma digits_printable ds : forallb is_decimal_digit ds = true -> Forall (fun b => 0x20 <= b) ds.
Proof.
  intros Hd. rewrite forallb_forall in Hd. apply Forall_forall. intros d Hin%list_elem_of_In%Hd%digit_range. lia.
Qed.

Lemma number_printable t : number_text t -> Forall (fun b => 0x20 <= b) t.
Proof.
  intros (sign & int & frac & exp & -> & Hsign & Hint & Hfrac & Hexp). rewrite !Forall_app. split_and!.
  - destruct Hsign as [->| ->]; repeat constructor; lia.
  - destruct Hint as [->|(d & ds & -> & Hd & Hds)]; [repeat constructor; lia|].
    constructor; [lia|by apply digits_printable].
  - destruct Hfrac as [->|(ds & -> & _ & Hds)]; [constructor|]. constructor; [lia|by apply digits_printable].
  - destruct Hexp as [->|(e & s & ds & -> & He & Hs & _ & Hds)]; [constructor|]. constructor; [lia|].
    apply Forall_app. split; [destruct Hs as [->|[->| ->]]; repeat constructor; lia|by apply digits_printable].
Qed.

Lemma comma_separated_printable parts :
  Forall (Forall (fun b => 0x20 <= b)) parts -> Forall (fun b => 0x20 <= b) (comma_separated parts).
Proof.
  destruct 1 as [|p parts Hp Hparts]; [constructor|]. simpl. apply Forall_app. split; [done|].
  induction Hparts as [|q parts Hq _ IH]; [constructor|]. simpl. constructor; [lia|].
  apply Forall_app. split; [done|exact IH].
Qed.

(** A printed document is a single line. *)
Lemma render_printable v : document v -> Forall (fun b => 0x20 <= b) (render v).
Proof.
  assert (Hstring : forall t, utf8 t -> Forall (fun b => 0x20 <= b) (append_json_string t)).
  { intros t Ht. apply append_json_string_printable. eapply Forall_impl; [by apply utf8_bytes|].
    intros b [Hb _]. exact Hb. }
  induction v as [|b|t|t|vs IH|kvs IH] using Value_induction; intros Hd; cbn [render document] in *.
  - repeat constructor; lia.
  - destruct b; repeat constructor; lia.
  - by apply number_printable.
  - by apply Hstring.
  - apply foldr_and_Forall in Hd. rewrite !Forall_app. split_and!; [repeat constructor; lia| |repeat constructor; lia].
    apply comma_separated_printable, Forall_fmap. rewrite Forall_forall in *. intros v Hv. apply IH; [done|by apply Hd].
  - destruct Hd as [Hd _]. apply (foldr_and_Forall (fun kv => utf8 (fst kv) /\ document (snd kv))) in Hd.
    rewrite !Forall_app. split_and!; [repeat constructor; lia| |repeat constructor; lia].
    apply comma_separated_printable, Forall_fmap. rewrite Forall_forall in *. intros kv Hkv.
    destruct (Hd kv Hkv) as [Hk Hv].
    change (Forall (fun b => 0x20 <= b) (append_json_string kv.1 ++ 58 :: render kv.2)).
    apply Forall_app. split; [by apply Hstring|]. constructor; [lia|by apply IH].
Qed.

(** The server's string serializer is safe: what [append_json_string]
    writes for a UTF-8 text contains no control byte and is parsed back to
    exactly that text. *)
Theorem append_json_string_roundtrip text options :
  utf8 text -> Forall (fun b => 0 <= b) text -> 1 <= max_values options ->
  0 <= max_nesting_depth options -> 0 <= max_container_items options ->
  Z.of_nat (length (append_json_string text)) <= max_input_bytes options ->
  Forall (fun b => 0x20 <= b) (append_json_string text) /\
  exists s, parse (append_json_string text) options = Good (String text) s.
Proof.
  intros Hu Hp Hv Hd Hi Hl. split; [by apply append_json_string_printable|].
  change (append_json_string text) with (render (String text)). apply parse_render; simpl; try done.
  unfold kAbsoluteMaxNestingDepth. lia.
Qed.

(** A quote, a newline, a control character and U+00E9. *)
Definition odd_text : list Z := [34; 10; 1; 195; 169].

Lemma append_json_string_roundtrip_witness :
  append_json_string odd_text = [34; 92; 34; 92; 110; 92; 117; 48; 48; 48; 49; 195; 169; 34] /\
  exists s, parse (append_json_string odd_text) default_options = Good (String odd_text) s.
Proof.
  split; [reflexivity|]. apply append_json_string_roundtrip.
  - exists [34; 10; 1; 233]. split; [|reflexivity].
    repeat (apply Forall_cons_2; [split; [split; [vm_compute; discriminate|vm_compute; reflexivity]|]|]);
      try apply Forall_nil_2; intros [H1 H2]; vm_compute in H1; congruence.
  - repeat (apply Forall_cons_2; [vm_compute; discriminate|]). apply Forall_nil_2.
  - vm_compute. discriminate.
  - vm_compute. discriminate.
  - vm_compute. discriminate.
  - vm_compute. discriminate.
Defined.

(** The UTF-8 check is exact: [copy_valid_utf8] accepts precisely the
    encodings of the Unicode scalar values beyond ASCII — no overlong form, no
    surrogate, nothing above U+10FFFF — and copies one of them. *)
Theorem copy_valid_utf8_exact s :
  Forall is_u8 (rest s) ->
  (exists bytes s', copy_valid_utf8 s = Good bytes s') <->
  (exists z l, 0x7F < z /\ scalar_value z /\ rest s = append_utf8 z ++ l /\
     copy_valid_utf8 s = Good (append_utf8 z) (move (append_utf8 z) l 0 0 s)).
Proof.
  intros Hb. split; [|intros (z & l & _ & _ & _ & ->); by eexists _, _]. intros (bytes & s' & Hc).
  destruct (rest s) as [|c l0] eqn:Hr.
  { unfold copy_valid_utf8, mbind, parser_bind, get in Hc. by rewrite Hr in Hc. }
  set (s1 := {| rest := rest s; position := 0; value_count := 0; container_item_count := 0 |}).
  pose proof (copy_valid_utf8_spec (Z.of_nat (length (rest s))) s1) as Hspec.
  assert (Hc1 : exists b1 s1', copy_valid_utf8 s1 = Good b1 s1').
  { revert Hc. unfold copy_valid_utf8, mbind, parser_bind, get. cbn [rest s1]. rewrite Hr. cbv zeta.
    repeat case_decide; try done. repeat case_match; try done. eauto. }
  destruct Hc1 as (b1 & s1' & Hc1). unfold pwp in Hspec. rewrite Hc1 in Hspec.
  destruct Hspec as (q & Ha & _ & Hseq); [split; simpl; [lia|lia|by rewrite Hr]|simpl; by rewrite Hr|].
  pose proof (af_rest _ _ _ _ _ Ha) as Hrest. cbn [rest s1] in Hrest.
  destruct (utf8_sequence_sound q) as (z & Hlo & Hz & ->); [|done|].
  { rewrite <- Hr, Hrest in Hb. by apply Forall_app in Hb as [? _]. }
  exists z, (rest s1'). rewrite <- Hr. split_and!; try done.
  pose proof (copy_utf8_good z (rest s1') s (fun b s2 => b = append_utf8 z /\ s2 = move (append_utf8 z) (rest s1') 0 0 s)
    Hlo Hz Hrest (conj eq_refl eq_refl)) as Hg. unfold good in Hg.
  destruct (copy_valid_utf8 s); [|done..]. by destruct Hg as [-> ->].
Qed.

Lemma copy_valid_utf8_exact_witness :
  exists z l, 0x7F < z /\ scalar_value z /\ [226; 130; 172; 65] = append_utf8 z ++ l /\
    copy_valid_utf8 (start [226; 130; 172; 65]) =
      Good (append_utf8 z) (move (append_utf8 z) l 0 0 (start [226; 130; 172; 65])).
Proof.
  apply (copy_valid_utf8_exact (start [226; 130; 172; 65])).
  - repeat (apply Forall_cons_2; [split; [vm_compute; discriminate|vm_compute; reflexivity]|]). apply Forall_nil_2.
  - eexists _, _. vm_compute. reflexivity.
Defined.

Lemma from_chars_digits t n : from_chars_magnitude t = Some n <-> digits t /\ n = decimal 0 t.
Proof.
  unfold from_chars_magnitude, digits.
  destruct (bool_decide (t = [])) eqn:Ht; simpl.
  { apply bool_decide_eq_true in Ht. split; [done|]. by intros [[? _] _]. }
  apply bool_decide_eq_false in Ht. destruct (forallb is_decimal_digit t); [|split; [done|by intros [[_ ?] _]]].
  split; [by intros [= <-]|]. by intros [_ ->].
Qed.

Lemma digits_integer t : forallb is_decimal_digit t = true -> is_integer t = true.
Proof.
  intros Hd. unfold is_integer. apply negb_true_iff.
  induction t as [|c t IH]; [done|]. simpl in *. apply andb_true_iff in Hd as [Hc Hd]. apply digit_range in Hc.
  rewrite !(proj2 (Z.eqb_neq c _)) by lia. simpl. by apply IH.
Qed.

Lemma decimal_nonneg t n : 0 <= n -> forallb is_decimal_digit t = true -> 0 <= decimal n t.
Proof.
  revert n. induction t as [|c t IH]; intros n Hn Hd; simpl in *; [done|].
  apply andb_true_iff in Hd as [Hc Hd]. apply digit_range in Hc. apply IH; [lia|done].
Qed.

Lemma to_uint64_range t n : to_uint64 t = Some n -> is_u64 n.
Proof.
  unfold to_uint64. destruct (_ || _); [done|]. destruct (from_chars_magnitude t) as [m|] eqn:Hm; [|done].
  apply from_chars_digits in Hm as [[_ Hd] ->]. simpl. destruct (Z.leb_spec (decimal 0 t) u64_max); [|done].
  intros [= <-]. pose proof (decimal_nonneg t 0 ltac:(lia) Hd). unfold is_u64, u64_max in *. lia.
Qed.

Lemma conversions t n :
  (to_uint64 t = Some n <-> digits t /\ n = decimal 0 t /\ n <= u64_max) /\
  (to_int64 t = Some n <->
     (digits t /\ n = decimal 0 t /\ n <= 2 ^ 63 - 1) \/
     (exists ds, t = 45 :: ds /\ digits ds /\ n = - decimal 0 ds /\ - 2 ^ 63 <= n)).
Proof.
  assert (Hhead : forall t, digits t -> is_integer t = true /\ t <> [] /\ (default 0 (head t) =? 45) = false).
  { intros u [Hne Hd]. split; [by apply digits_integer|]. split; [done|]. destruct u as [|c u]; [done|].
    simpl in Hd. apply andb_true_iff in Hd as [Hc _]. apply digit_range in Hc. apply Z.eqb_neq. simpl. lia. }
  split.
  - unfold to_uint64. split.
    + intros H. destruct (negb _ || _ || _); [done|].
      destruct (from_chars_magnitude t) as [m|] eqn:Hm; [|done]. apply from_chars_digits in Hm as [Hd ->].
      simpl in H. destruct (Z.leb_spec (decimal 0 t) u64_max); [|done]. simplify_eq. done.
    + intros (Hd & -> & Hle). destruct (Hhead t Hd) as (-> & Hne & ->). rewrite bool_decide_false by done.
      simpl. rewrite (proj2 (from_chars_digits t (decimal 0 t))) by done. simpl.
      by rewrite (proj2 (Z.leb_le _ _)).
  - unfold to_int64. split.
    + intros H. destruct (negb _ || _); [done|]. destruct t as [|c t]; [done|]. simpl in H.
      destruct (Z.eqb_spec c 45) as [->|Hc].
      * right. destruct (from_chars_magnitude t) as [m|] eqn:Hm; [|done].
        apply from_chars_digits in Hm as [Hd ->]. simpl in H.
        destruct (_ && _) eqn:Hr; [|done]. simplify_eq. bools. by exists t.
      * left. destruct (from_chars_magnitude (c :: t)) as [m|] eqn:Hm; [|done].
        apply from_chars_digits in Hm as [Hd ->]. cbn [mbind option_bind] in H.
        destruct (_ && _) eqn:Hr; [|done]. simplify_eq. bools. done.
    + intros [(Hd & -> & Hle)|(ds & -> & Hd & -> & Hle)].
      * destruct (Hhead t Hd) as (-> & Hne & ->). rewrite bool_decide_false by done. simpl.
        rewrite (proj2 (from_chars_digits t (decimal 0 t))) by done. cbn [mbind option_bind].
        pose proof (decimal_nonneg t 0 ltac:(lia) (proj2 Hd)).
        by rewrite (proj2 (Z.leb_le _ _)), (proj2 (Z.leb_le _ _)) by lia.
      * destruct (Hhead ds Hd) as (Hint & _). change (is_integer (45 :: ds)) with (is_integer ds). rewrite Hint.
        rewrite bool_decide_false by done. cbn [negb orb default head]. change (45 =? 45) with true. cbv iota.
        cbn [tail]. rewrite (proj2 (from_chars_digits ds (decimal 0 ds))) by done. cbn [mbind option_bind].
        change (id 45 =? 45) with true. cbv iota. cbn [mbind option_bind].
        pose proof (decimal_nonneg ds 0 ltac:(lia) (proj2 Hd)).
        by rewrite (proj2 (Z.leb_le _ _)), (proj2 (Z.leb_le _ _)) by lia.
Qed.

(** Integers keep their value: a number text converts to [uint64_t]
    exactly when it is a non-empty run of digits whose value fits, to
    [int64_t] exactly when it is one with an optional minus sign whose signed
    value fits, and the result is that value. *)
Theorem number_conversions t n :
  (to_uint64 t = Some n <-> digits t /\ n = decimal 0 t /\ n <= u64_max) /\
  (to_int64 t = Some n <->
     (digits t /\ n = decimal 0 t /\ n <= 2 ^ 63 - 1) \/
     (exists ds, t = 45 :: ds /\ digits ds /\ n = - decimal 0 ds /\ - 2 ^ 63 <= n)).
Proof. apply conversions. Qed.

(** ** Numbers as text *)

Lemma decimal_app v a b : decimal v (a ++ b) = decimal (decimal v a) b.
Proof. revert v. induction a as [|d a IH]; intros v; [done|]. simpl. apply IH. Qed.

Lemma decimal_digits_spec fuel n :
  0 <= n -> n < 10 ^ Z.of_nat fuel -> (0 < fuel)%nat ->
  forallb is_decimal_digit (decimal_digits fuel n) = true /\ decimal 0 (decimal_digits fuel n) = n /\
  exists d ds, decimal_digits fuel n = d :: ds /\ (d = 48 -> ds = []).
Proof.
  revert n. induction fuel as [|fuel IH]; intros n Hn Hf Hpos; [lia|]. cbn [decimal_digits].
  destruct (Z.ltb_spec n 10) as [Hlt|Hge].
  { split_and!; [|simpl; lia|by exists (48 + n), []]. simpl. rewrite andb_true_r. apply digit_range. lia. }
  pose proof (Z.mod_pos_bound n 10 ltac:(lia)). pose proof (Z.div_mod n 10 ltac:(lia)) as Hdiv.
  destruct fuel as [|fuel]; [simpl in Hf; lia|].
  destruct (IH (n / 10)) as (Hall & Hval & d & ds & Heq & Hd).
  - lia.
  - rewrite Nat2Z.inj_succ, Z.pow_succ_r in Hf by lia. apply Z.div_lt_upper_bound; lia.
  - lia.
  - split_and!.
    + rewrite forallb_app, Hall. simpl. rewrite andb_true_r. apply digit_range. lia.
    + rewrite decimal_app, Hval. simpl. lia.
    + rewrite Heq. exists d, (ds ++ [48 + n mod 10]). split; [done|]. intros ->. rewrite (Hd eq_refl) in *.
      rewrite Heq in Hval. simpl in Hval. lia.
Qed.

Lemma log2_digits n : 0 <= n -> n < 10 ^ Z.of_nat (S (Z.to_nat (Z.log2 n))).
Proof.
  intros Hn. destruct (Z.eq_dec n 0) as [->|Hne]; [done|]. pose proof (Z.log2_nonneg n).
  rewrite Nat2Z.inj_succ, Z2Nat.id by done. destruct (Z.log2_spec n) as [_ Hlt]; [lia|].
  eapply Z.lt_le_trans; [exact Hlt|]. apply Z.pow_le_mono_l. lia.
Qed.

Lemma to_string_digits n :
  0 <= n -> digits (to_string n) /\ decimal 0 (to_string n) = n /\
  exists d ds, to_string n = d :: ds /\ (d = 48 -> ds = []).
Proof.
  intros Hn. unfold to_string. rewrite (proj2 (Z.ltb_ge _ _)), Z.abs_eq by done. cbn [app].
  destruct (decimal_digits_spec (S (Z.to_nat (Z.log2 n))) n Hn (log2_digits n Hn) ltac:(lia)) as (Hall & Hval & d & ds & Heq & Hd).
  split_and!; [|done|by exists d, ds]. split; [by rewrite Heq|done].
Qed.

Lemma to_string_negative n : n < 0 -> to_string n = 45 :: to_string (- n).
Proof.
  intros Hn. unfold to_string. rewrite (proj2 (Z.ltb_lt _ _)) by done. rewrite (proj2 (Z.ltb_ge _ _)) by lia.
  by rewrite Z.abs_opp.
Qed.

Lemma to_string_number n : number_text (to_string n).
Proof.
  assert (Hnonneg : forall m sign, 0 <= m -> sign = [] \/ sign = [45] -> number_text (sign ++ to_string m)).
  { intros m sign Hm Hsign. destruct (to_string_digits m Hm) as ([_ Hall] & _ & d & ds & Heq & Hd).
    exists sign, (to_string m), [], []. split_and!; [by rewrite !app_nil_r|done| |by left|by left].
    rewrite Heq in Hall |- *. simpl in Hall. apply andb_true_iff in Hall as [Hdigit Hall].
    apply digit_range in Hdigit. destruct (Z.eq_dec d 48) as [->|Hne]; [left; by rewrite Hd|].
    right. exists d, ds. split_and!; [done|lia..|done]. }
  destruct (Z.lt_ge_cases n 0); [|by apply (Hnonneg n []); [lia|left]].
  rewrite to_string_negative by done. apply (Hnonneg (- n) [45]); [lia|by right].
Qed.

(** Integers are read as they were written. *)
Lemma to_uint64_to_string n : is_u64 n -> to_uint64 (to_string n) = Some n.
Proof.
  intros Hn. unfold is_u64 in Hn. destruct (to_string_digits n ltac:(lia)) as (Hd & Hval & _).
  apply (conversions (to_string n) n). split_and!; [done|done|]. unfold u64_max. lia.
Qed.

Lemma to_int64_to_string n : - 2 ^ 63 <= n < 2 ^ 63 -> to_int64 (to_string n) = Some n.
Proof.
  intros Hn. apply (conversions (to_string n) n). destruct (Z.lt_ge_cases n 0) as [Hneg|Hpos].
  - right. rewrite to_string_negative by done. exists (to_string (- n)).
    destruct (to_string_digits (- n) ltac:(lia)) as (Hd & Hval & _). split_and!; [done|done|lia|lia].
  - left. destruct (to_string_digits n Hpos) as (Hd & Hval & _). split_and!; [done|done|lia].
Qed.

(** Only zero equals zero. *)
Lemma to_double_zero t d : to_double t = Some d -> double_equals d 0 = true <-> (decimal_parts t).1 = 0.
Proof.
  unfold to_double. case_bool_decide; [done|]. destruct (decimal_parts t) as [m e]. simpl.
  destruct (Z.eqb_spec m 0) as [->|Hm]; [by intros [= <-]|].
  assert (Hround : forall num den r k, round_double num den = Some (r, k) -> r <> 0).
  { intros num den r k. unfold round_double. destruct (_ || _) eqn:Hb; [done|]. intros [= <- <-].
    apply orb_false_iff in Hb as [Hb _]. by apply Z.eqb_neq in Hb. }
  destruct (if 0 <=? e then _ else _) as [[r k]|] eqn:Hr; [|done]. intros [= <-].
  assert (Hne : r <> 0) by (destruct (0 <=? e); by eapply Hround).
  split; [|done]. unfold double_equals. intros Heq. exfalso.
  assert (Hprod : Z.sgn m * r <> 0) by (apply Z.neq_mul_0; split; [by rewrite Z.sgn_null_iff|done]).
  destruct (Z.leb_spec 0 k).
  - apply Z.eqb_eq, Z.mul_eq_0 in Heq as [|Hpow]; [done|]. pose proof (Z.pow_pos_nonneg 2 k ltac:(lia) H0). lia.
  - apply Z.eqb_eq in Heq. lia.
Qed.
