(* ===== verification/RequestPlan.v ===== *)
(** * RequestPlan: the layout of a request's device arena
      (src/runtime/request_state.cpp, include/q3x/runtime/request_state.h)

    Everything a request keeps on the device — convolution and recurrent
    states, the K/V caches, workspaces and RoPE tables — lives in one arena.
    This file models the arithmetic that lays it out, the mapping of the 64
    layers to their slots and the plan of a reset.  Lengths are unsigned
    machine integers; a diagnostic keeps its code and context. *)

From Stdlib Require Import String.
From S2P Require Import Prelude.

Definition kBf16Bytes : Z := 2.
Definition kFp32Bytes : Z := 4.
Definition kHiddenElements : Z := 5120.
Definition kProjectionElements : Z := 17408.
Definition kLinearScalarElements : Z := 48.
Definition kFp32MinimumElements : Z := 262144.
Definition kQueryHeadCount : Z := 24.
Definition kKvHeadCount : Z := 4.
Definition kHeadDimension : Z := 256.
Definition kConvChannels : Z := 10240.
Definition kConvHistory : Z := 3.
Definition kGdnValueHeads : Z := 48.
Definition kRequestGdnHeadDimension : Z := 128.
Definition kRopePairs : Z := 32.
Definition kMaximumConfigurableArenaBytes : Z := 64 * 1024 * 1024 * 1024.

Definition kRequestArenaAlignment : Z := 256.
Definition kAbsoluteRequestMaxSequenceLength : Z := 262144.
Definition kMaximumRequestPrefillChunkSize : Z := 512.
Definition kRequestLayerCount : Z := 64.
Definition kRequestLinearLayerCount : Z := 48.
Definition kRequestFullLayerCount : Z := 16.
Definition kRequestHiddenBufferCount : nat := 3.
Definition kRequestProjectionBufferCount : nat := 4.
Definition kRequestConvStateBytes : Z := 2949120.
Definition kRequestGdnStateBytes : Z := 75497472.
Definition kRequestKvBytesPerToken : Z := 65536.
Definition kDefaultRequestArenaBytes : Z := 88087040.
Definition kMaximumRequestArenaBytes : Z := 17437720576.

Inductive RequestMemoryProfile := kLegacyC512 | kLayerMajorC8192 | kLayerMajorP40WholeCore.
#[export] Instance RequestMemoryProfile_eq_dec : EqDecision RequestMemoryProfile.
Proof. solve_decision. Defined.

Inductive RequestErrorCode :=
  | kErrorNone | kInvalidOption | kArithmeticOverflow | kInvalidLayerSchedule
  | kArenaLimitExceeded | kInsufficientDeviceMemory | kCudaFailure | kAllocationFailure.

Record RequestDiagnostic := {
  code : RequestErrorCode;
  context : string
}.

Definition make_diagnostic (c : RequestErrorCode) (where_ : string) : RequestDiagnostic :=
  {| code := c; context := where_ |}.

Record RequestMemoryOptions := {
  batch_size : Z;
  prefill_chunk_size : Z;
  max_sequence_length : Z;
  max_arena_bytes : Z;
  min_free_bytes_after_create : Z
}.

Record RequestRegion := {
  arena_offset : Z;
  byte_size : Z;
  element_capacity : Z;
  element_size_bytes : Z
}.

Inductive LayerType := kInvalid | kLinearAttention | kFullAttention.
#[export] Instance LayerType_eq_dec : EqDecision LayerType.
Proof. solve_decision. Defined.

Record RequestLayerSlot := { type : LayerType; slot : Z }.

Inductive RequestAccessError :=
  | kNone | kLayerOutOfRange | kLayerTypeMismatch | kSlotOutOfRange | kPositionOutOfRange
  | kCapacityExceeded | kInvalidBufferIndex | kEmptyState | kMemoryProfileMismatch
  | kSequenceLengthMismatch | kSequenceLengthRegression | kInvalidResetPlan.
#[export] Instance RequestAccessError_eq_dec : EqDecision RequestAccessError.
Proof. solve_decision. Defined.

Record RequestMemoryPlan := {
  plan_batch_size : Z;
  plan_prefill_chunk_size : Z;
  plan_max_sequence_length : Z;
  arena_bytes : Z;
  persistent_offset : Z;
  persistent_bytes : Z;
  workspace_offset : Z;
  workspace_bytes : Z;
  rope_offset : Z;
  rope_bytes : Z;
  conv_state : RequestRegion;
  gdn_state : RequestRegion;
  key_cache : list RequestRegion;
  value_cache : list RequestRegion;
  hidden_bf16 : list RequestRegion;
  projection_bf16 : list RequestRegion;
  linear_a_bf16 : RequestRegion;
  linear_b_bf16 : RequestRegion;
  fp32_scratch : RequestRegion;
  gqa_probability_scratch : RequestRegion;
  rope_cos_fp32 : RequestRegion;
  rope_sin_fp32 : RequestRegion;
  layers : list RequestLayerSlot;
  profile : RequestMemoryProfile
}.

(** ** Alignment *)

Definition checked_align (value : Z) : option Z :=
  let mask := kRequestArenaAlignment - 1 in
  if u64_max - mask <? value then None
  else Some (Z.land (value + mask) (Z.ldiff u64_max mask)).

(** ** The plan builder

    A builder is its cursor. *)

Definition add (cursor elements element_size : Z) : option (RequestRegion * Z) :=
  if element_size =? 0 then None else
  bytes ← checked_multiply elements element_size;
  if bytes =? 0 then None else
  aligned ← checked_align cursor;
  end_ ← checked_add aligned bytes;
  Some ({| arena_offset := aligned; byte_size := bytes; element_capacity := elements;
           element_size_bytes := element_size |}, end_).

Definition align (cursor : Z) : option Z := checked_align cursor.

(** [n] regions of the same shape, one after the other. *)
Fixpoint add_each (n : nat) (cursor elements element_size : Z) : option (list RequestRegion * Z) :=
  match n with
  | O => Some ([], cursor)
  | S n =>
      '(region, cursor) ← add cursor elements element_size;
      '(regions, cursor) ← add_each n cursor elements element_size;
      Some (region :: regions, cursor)
  end.

(** The K/V loop: a key and a value cache per full-attention layer. *)
Fixpoint add_caches (n : nat) (cursor elements : Z)
    : option (list RequestRegion * list RequestRegion * Z) :=
  match n with
  | O => Some ([], [], cursor)
  | S n =>
      '(key, cursor) ← add cursor elements kBf16Bytes;
      '(value, cursor) ← add cursor elements kBf16Bytes;
      '(keys, values, cursor) ← add_caches n cursor elements;
      Some (key :: keys, value :: values, cursor)
  end.

(** ** Layers *)

Definition map_request_layer (layer_index : Z) (required_type : LayerType)
    : RequestAccessError + RequestLayerSlot :=
  if kRequestLayerCount <=? layer_index then inl kLayerOutOfRange else
  if negb (bool_decide (required_type = kLinearAttention))
     && negb (bool_decide (required_type = kFullAttention)) then inl kLayerTypeMismatch else
  let s := if (layer_index + 1) mod 4 =? 0
           then {| type := kFullAttention; slot := layer_index / 4 |}
           else {| type := kLinearAttention; slot := layer_index - layer_index / 4 |} in
  if negb (bool_decide (type s = required_type)) then inl kLayerTypeMismatch else
  if (bool_decide (type s = kLinearAttention) && (kRequestLinearLayerCount <=? slot s))
     || (bool_decide (type s = kFullAttention) && (kRequestFullLayerCount <=? slot s))
  then inl kSlotOutOfRange
  else inr s.

(** The loop over the layers: the slots found and how many are of each kind. *)
Fixpoint map_layers (n : nat) (layer : Z) : RequestDiagnostic + list RequestLayerSlot * (Z * Z) :=
  match n with
  | O => inr ([], (0, 0))
  | S n =>
      let kind := if (layer + 1) mod 4 =? 0 then kFullAttention else kLinearAttention in
      match map_request_layer layer kind with
      | inl _ => inl (make_diagnostic kInvalidLayerSchedule "layer")
      | inr mapped =>
          match map_layers n (layer + 1) with
          | inl d => inl d
          | inr (mappeds, (linear_slots, full_slots)) =>
              inr (mapped :: mappeds,
                   if bool_decide (kind = kFullAttention) then (linear_slots, full_slots + 1)
                   else (linear_slots + 1, full_slots))
          end
      end
  end.

(** ** The request memory plan *)

Record Dimensions := {
  conv_elements : Z;
  gdn_elements : Z;
  kv_elements : Z;
  probability_elements : Z;
  rope_elements : Z;
  hidden_elements : Z;
  projection_elements : Z;
  linear_scalar_elements : Z
}.

Definition request_dimensions (options : RequestMemoryOptions) : option Dimensions :=
  conv ← checked_multiply kRequestLinearLayerCount kConvChannels;
  conv ← checked_multiply conv kConvHistory;
  gdn ← checked_multiply kRequestLinearLayerCount kGdnValueHeads;
  gdn ← checked_multiply gdn kRequestGdnHeadDimension;
  gdn ← checked_multiply gdn kRequestGdnHeadDimension;
  kv ← checked_multiply (max_sequence_length options) kKvHeadCount;
  kv ← checked_multiply kv kHeadDimension;
  probability ← checked_multiply (max_sequence_length options) kQueryHeadCount;
  rope ← checked_multiply (max_sequence_length options) kRopePairs;
  hidden ← checked_multiply kHiddenElements (prefill_chunk_size options);
  projection ← checked_multiply kProjectionElements (prefill_chunk_size options);
  linear_scalar ← checked_multiply kLinearScalarElements (prefill_chunk_size options);
  Some {| conv_elements := conv; gdn_elements := gdn; kv_elements := kv;
          probability_elements := probability; rope_elements := rope; hidden_elements := hidden;
          projection_elements := projection; linear_scalar_elements := linear_scalar |}.

Definition invalid_options (options : RequestMemoryOptions) : bool :=
  negb (batch_size options =? 1) || (max_sequence_length options =? 0)
  || (prefill_chunk_size options =? 0)
  || (kMaximumRequestPrefillChunkSize <? prefill_chunk_size options)
  || (max_arena_bytes options =? 0)
  || (kMaximumConfigurableArenaBytes <? max_arena_bytes options).

(** [if (!step) return plan_failure(...)]. *)
Definition or_fail {A} (step : option A) (c : RequestErrorCode) (where_ : string)
    : RequestDiagnostic + A :=
  match step with Some a => inr a | None => inl (make_diagnostic c where_) end.

Notation "' pat <- m 'orelse' c 'during' s ; k" :=
  (match or_fail m c s with inl d => inl d | inr pat => k end)
  (at level 20, pat pattern, m at level 100, c at level 0, s at level 0, k at level 200).

Definition build_request_memory_plan (options : RequestMemoryOptions)
    : RequestDiagnostic + RequestMemoryPlan :=
  if invalid_options options then inl (make_diagnostic kInvalidOption "options") else
  'd <- request_dimensions options orelse kArithmeticOverflow during "max_sequence_length";
  if kAbsoluteRequestMaxSequenceLength <? max_sequence_length options
  then inl (make_diagnostic kInvalidOption "max_sequence_length") else
  '(conv, cursor) <- add 0 (conv_elements d) kBf16Bytes orelse kArithmeticOverflow during "persistent";
  '(gdn, cursor) <- add cursor (gdn_elements d) kBf16Bytes orelse kArithmeticOverflow during "persistent";
  '(keys, values, cursor) <- add_caches (Z.to_nat kRequestFullLayerCount) cursor (kv_elements d)
     orelse kArithmeticOverflow during "kv_cache";
  'workspace <- align cursor orelse kArithmeticOverflow during "persistent";
  '(hidden, cursor) <- add_each kRequestHiddenBufferCount workspace (hidden_elements d) kBf16Bytes
     orelse kArithmeticOverflow during "hidden_bf16";
  '(projection, cursor) <- add_each kRequestProjectionBufferCount cursor (projection_elements d) kBf16Bytes
     orelse kArithmeticOverflow during "projection_bf16";
  '(linear_a, cursor) <- add cursor (linear_scalar_elements d) kBf16Bytes
     orelse kArithmeticOverflow during "linear_a_b";
  '(linear_b, cursor) <- add cursor (linear_scalar_elements d) kBf16Bytes
     orelse kArithmeticOverflow during "linear_a_b";
  let fp32_capacity := Z.max kFp32MinimumElements (probability_elements d) in
  '(fp32, cursor) <- add cursor fp32_capacity kFp32Bytes orelse kArithmeticOverflow during "fp32_scratch";
  'rope_start <- align cursor orelse kArithmeticOverflow during "workspace";
  '(cos, cursor) <- add rope_start (rope_elements d) kFp32Bytes orelse kArithmeticOverflow during "rope";
  '(sin, cursor) <- add cursor (rope_elements d) kFp32Bytes orelse kArithmeticOverflow during "rope";
  'arena_end <- align cursor orelse kArithmeticOverflow during "rope";
  match map_layers (Z.to_nat kRequestLayerCount) 0 with
  | inl diagnostic => inl diagnostic
  | inr (mapped, (linear_slots, full_slots)) =>
      if negb (linear_slots =? kRequestLinearLayerCount) || negb (full_slots =? kRequestFullLayerCount)
         || negb (byte_size conv =? kRequestConvStateBytes) || negb (byte_size gdn =? kRequestGdnStateBytes)
      then inl (make_diagnostic kInvalidLayerSchedule "schedule") else
      if max_arena_bytes options <? arena_end
      then inl (make_diagnostic kArenaLimitExceeded "max_arena_bytes") else
      inr {| plan_batch_size := batch_size options;
             plan_prefill_chunk_size := prefill_chunk_size options;
             plan_max_sequence_length := u32 (max_sequence_length options);
             arena_bytes := arena_end;
             persistent_offset := 0; persistent_bytes := workspace;
             workspace_offset := workspace; workspace_bytes := rope_start - workspace;
             rope_offset := rope_start; rope_bytes := arena_end - rope_start;
             conv_state := conv; gdn_state := gdn; key_cache := keys; value_cache := values;
             hidden_bf16 := hidden; projection_bf16 := projection;
             linear_a_bf16 := linear_a; linear_b_bf16 := linear_b; fp32_scratch := fp32;
             gqa_probability_scratch :=
               {| arena_offset := arena_offset fp32; byte_size := u64 (probability_elements d * kFp32Bytes);
                  element_capacity := probability_elements d; element_size_bytes := element_size_bytes fp32 |};
             rope_cos_fp32 := cos; rope_sin_fp32 := sin;
             layers := mapped; profile := kLegacyC512 |}
  end.

(** ** Sequence length *)

Definition validate_request_memory_profile (actual required : RequestMemoryProfile) : RequestAccessError :=
  if bool_decide (actual = required) then kNone else kMemoryProfileMismatch.

Definition validate_sequence_length_publication
    (current expected_current desired max_length : Z) : RequestAccessError :=
  if negb (expected_current =? current) then kSequenceLengthMismatch
  else if max_length <? desired then kCapacityExceeded
  else if desired <? expected_current then kSequenceLengthRegression
  else kNone.

(** ** The reset plan *)

Inductive RequestStateResetMode := kAlreadyClean | kCommittedDirtyPrefix | kConservativeFull.
#[export] Instance RequestStateResetMode_eq_dec : EqDecision RequestStateResetMode.
Proof. solve_decision. Defined.

Record RequestStateResetPlan := {
  valid : bool;
  mode : RequestStateResetMode;
  cleared_positions : Z;
  zeroed_bytes : Z;
  memset_operations : Z
}.

(** [consume_region]: the region must start where the previous one ended. *)
Definition consume_region (expected_offset : Z) (region : RequestRegion) (expected_bytes : Z) : option Z :=
  if negb (arena_offset region =? expected_offset) || negb (byte_size region =? expected_bytes)
  then None else checked_add (arena_offset region) (byte_size region).

(** The slots in order, a key and a value cache each. *)
Fixpoint consume_caches (expected_offset : Z) (keys values : list RequestRegion) (bytes : Z) : option Z :=
  match keys, values with
  | key :: keys, value :: values =>
      offset ← consume_region expected_offset key bytes;
      offset ← consume_region offset value bytes;
      consume_caches offset keys values bytes
  | _, _ => Some expected_offset
  end.

(** The checks of the dirty-prefix branch: the bytes to zero, if the layout is
    the one the reset relies on. *)
Definition dirty_prefix_bytes (plan : RequestMemoryPlan) (persistent_end committed_positions : Z) : option Z :=
  kv_region_bytes ← checked_multiply (plan_max_sequence_length plan)
                      (kRequestKvBytesPerToken / (2 * kRequestFullLayerCount));
  offset ← consume_region (persistent_offset plan) (conv_state plan) kRequestConvStateBytes;
  offset ← consume_region offset (gdn_state plan) kRequestGdnStateBytes;
  offset ← consume_caches offset (key_cache plan) (value_cache plan) kv_region_bytes;
  if negb (offset =? persistent_end) then None else
  dirty_kv_bytes ← checked_multiply committed_positions kRequestKvBytesPerToken;
  checked_add (kRequestConvStateBytes + kRequestGdnStateBytes) dirty_kv_bytes.

Definition build_request_state_reset_plan (plan : RequestMemoryPlan) (m : RequestStateResetMode)
    (committed_positions : Z) : RequestStateResetPlan :=
  let refused := {| valid := false; mode := m; cleared_positions := 0; zeroed_bytes := 0;
                    memset_operations := 0 |} in
  if (plan_max_sequence_length plan =? 0) || (persistent_bytes plan =? 0) then refused else
  match checked_add (persistent_offset plan) (persistent_bytes plan) with
  | None => refused
  | Some persistent_end =>
      if arena_bytes plan <? persistent_end then refused else
      match m with
      | kAlreadyClean =>
          if negb (committed_positions =? 0) then refused
          else {| valid := true; mode := m; cleared_positions := 0; zeroed_bytes := 0;
                  memset_operations := 0 |}
      | kConservativeFull =>
          if negb (committed_positions =? 0) then refused
          else {| valid := true; mode := m; cleared_positions := plan_max_sequence_length plan;
                  zeroed_bytes := persistent_bytes plan; memset_operations := 1 |}
      | kCommittedDirtyPrefix =>
          if (committed_positions =? 0) || (plan_max_sequence_length plan <? committed_positions)
          then refused else
          match dirty_prefix_bytes plan persistent_end committed_positions with
          | None => refused
          | Some bytes =>
              {| valid := true; mode := m; cleared_positions := committed_positions;
                 zeroed_bytes := bytes; memset_operations := 1 + 2 * kRequestFullLayerCount |}
          end
      end
  end.

(** ** Alignment is exact *)

(** The next multiple of the alignment. *)
Definition up (z : Z) : Z := (z + 255) / 256 * 256.

Lemma up_spec z : z <= up z < z + 256 /\ (256 | up z).
Proof.
  unfold up. pose proof (Z.div_mod (z + 255) 256). pose proof (Z.mod_pos_bound (z + 255) 256).
  split; [lia|]. exists ((z + 255) / 256). lia.
Qed.

Lemma up_unique z a : (256 | a) -> z <= a < z + 256 -> up z = a.
Proof. intros [k ->] Hz. destruct (up_spec z) as [? [j Hj]]. rewrite Hj in *. lia. Qed.

Lemma up_aligned a : (256 | a) -> up a = a.
Proof. intros. apply up_unique; [done|lia]. Qed.

Lemma up_add a b : (256 | a) -> up (a + b) = a + up b.
Proof.
  intros Ha. destruct (up_spec b) as [? Hb]. apply up_unique; [by apply Z.divide_add_r|lia].
Qed.

Lemma align_mask z : 0 <= z <= u64_max -> Z.land z (Z.ldiff u64_max 255) = z / 256 * 256.
Proof.
  intros Hz. replace (z / 256 * 256) with (Z.shiftl (Z.shiftr z 8) 8)
    by by rewrite Z.shiftl_mul_pow2, Z.shiftr_div_pow2 by lia.
  apply Z.bits_inj'. intros n Hn. rewrite Z.land_spec, Z.ldiff_spec, Z.shiftl_spec by lia.
  change u64_max with (Z.ones 64). change 255 with (Z.ones 8).
  destruct (Z.lt_ge_cases n 8).
  - rewrite (Z.ones_spec_low 8) by lia. rewrite !andb_false_r. rewrite Z.testbit_neg_r by lia. done.
  - rewrite (Z.ones_spec_high 8), Z.shiftr_spec by lia. replace (n - 8 + 8) with n by lia.
    destruct (Z.lt_ge_cases n 64).
    + rewrite Z.ones_spec_low by lia. by rewrite !andb_true_r.
    + rewrite Z.ones_spec_high by lia. rewrite andb_false_r.
      destruct (Z.eq_dec z 0) as [->|]; [by rewrite Z.bits_0|].
      symmetry. apply Z.bits_above_log2; [lia|].
      apply Z.log2_lt_pow2; [lia|]. unfold u64_max in Hz.
      pose proof (Z.pow_le_mono_r 2 64 n). lia.
Qed.

Lemma checked_align_Some c a : 0 <= c -> checked_align c = Some a <-> a = up c /\ c + 255 <= u64_max.
Proof.
  intros Hc. unfold checked_align. cbv zeta. change (kRequestArenaAlignment - 1) with 255.
  destruct (Z.ltb_spec (u64_max - 255) c).
  - split; [done|]. intros [_ ?]. lia.
  - rewrite align_mask by lia. unfold up. split; [|by intros [-> _]]. intros [= <-]. lia.
Qed.

(** ** What the builder lays out *)

Definition region_at (offset elements size : Z) : RequestRegion :=
  {| arena_offset := offset; byte_size := elements * size; element_capacity := elements;
     element_size_bytes := size |}.

Lemma add_Some c e s r c' :
  0 <= c -> 0 <= e -> 0 <= s ->
  add c e s = Some (r, c') <->
  r = region_at (up c) e s /\ c' = up c + e * s /\ 0 < e * s /\ up c + e * s <= u64_max /\ c + 255 <= u64_max.
Proof.
  intros Hc He Hs. unfold add. destruct (up_spec c) as [Hup _].
  assert (Hprod : 0 <= e * s) by nia.
  destruct (Z.eqb_spec s 0) as [->|Hs0].
  { split; [done|]. intros (_ & _ & ? & _). lia. }
  destruct (checked_multiply e s) as [bytes|] eqn:Hmul; cbn [mbind option_bind].
  2: { split; [done|]. intros (-> & -> & _ & ? & _).
       assert (checked_multiply e s = Some (e * s)) by (apply checked_multiply_Some; lia). congruence. }
  apply checked_multiply_Some in Hmul as [-> Hle]; [|done..].
  destruct (Z.eqb_spec (e * s) 0) as [H0|H0].
  { split; [done|]. intros (_ & _ & ? & _). lia. }
  destruct (checked_align c) as [a|] eqn:Hal; cbn [mbind option_bind].
  2: { split; [done|]. intros (_ & _ & _ & _ & ?).
       assert (checked_align c = Some (up c)) by (apply checked_align_Some; lia). congruence. }
  apply checked_align_Some in Hal as [-> Hc2]; [|done].
  destruct (checked_add (up c) (e * s)) as [z|] eqn:Hadd; cbn [mbind option_bind].
  - unfold checked_add in Hadd. destruct (Z.ltb_spec (u64_max - up c) (e * s)); [done|].
    injection Hadd as <-. split; [intros [= <- <-]; split_and!; done || lia|].
    by intros (-> & -> & _).
  - unfold checked_add in Hadd. destruct (Z.ltb_spec (u64_max - up c) (e * s)); [|done].
    split; [done|]. intros (_ & _ & _ & ? & _). lia.
Qed.

(** From an aligned cursor, with room, a region goes exactly there. *)
Lemma add_here c e s :
  (256 | c) -> 0 <= c -> 0 < e -> 0 < s -> c + 255 + e * s <= u64_max ->
  add c e s = Some (region_at c e s, c + e * s).
Proof.
  intros Ha Hc He Hs Hle. apply add_Some; [lia..|]. rewrite up_aligned by done.
  split_and!; try done; nia.
Qed.

Lemma add_next c b e s :
  (256 | c) -> 0 <= c -> 0 <= b -> 0 < e -> 0 < s -> c + b + 511 + e * s <= u64_max ->
  add (c + b) e s = Some (region_at (c + up b) e s, c + up b + e * s).
Proof.
  intros Ha Hc Hb He Hs Hle. pose proof (up_spec b). apply add_Some; [lia..|]. rewrite up_add by done.
  split_and!; try done; nia.
Qed.

(** Region [i] of a run of equal regions without gaps. *)
Definition row (base elements size : Z) (i : nat) : RequestRegion :=
  region_at (base + elements * size * Z.of_nat i) elements size.

Lemma row_S base e s i : row base e s (S i) = row (base + e * s) e s i.
Proof. unfold row. f_equal. lia. Qed.

Lemma add_each_here n c e s :
  (256 | c) -> (256 | e * s) -> 0 <= c -> 0 < e -> 0 < s -> c + 255 + e * s * Z.of_nat n <= u64_max ->
  add_each n c e s = Some (row c e s <$> seq 0 n, c + e * s * Z.of_nat n).
Proof.
  revert c. induction n as [|n IH]; intros c Hc Hes H0 He Hs Hle; cbn [add_each].
  { simpl. do 2 f_equal. lia. }
  assert (0 < e * s) by nia.
  rewrite add_here by (done || nia). cbn [mbind option_bind].
  rewrite IH by (done || lia || by apply Z.divide_add_r). cbn [mbind option_bind seq fmap list_fmap].
  do 2 f_equal; [|lia]. f_equal; [unfold row; f_equal; lia|].
  rewrite <- (fmap_S_seq 0 n), <- list_fmap_compose. apply list_fmap_ext. intros i x _. symmetry. apply row_S.
Qed.

(** The key (offset 0) and value (offset [bytes]) caches alternate. *)
Lemma add_caches_here n c e :
  (256 | c) -> (256 | e * 2) -> 0 <= c -> 0 < e -> c + 255 + e * 4 * Z.of_nat n <= u64_max ->
  add_caches n c e =
    Some ((fun i => region_at (c + e * 4 * Z.of_nat i) e 2) <$> seq 0 n,
          (fun i => region_at (c + e * 2 + e * 4 * Z.of_nat i) e 2) <$> seq 0 n,
          c + e * 4 * Z.of_nat n).
Proof.
  revert c. induction n as [|n IH]; intros c Hc Hes H0 He Hle; cbn [add_caches].
  { simpl. do 3 f_equal. lia. }
  change kBf16Bytes with 2. rewrite add_here by (done || lia). cbn [mbind option_bind].
  rewrite add_here by (lia || by apply Z.divide_add_r). cbn [mbind option_bind].
  rewrite IH by (lia || by repeat apply Z.divide_add_r). cbn [mbind option_bind seq fmap list_fmap].
  rewrite <- !(fmap_S_seq 0 n), <- !list_fmap_compose.
  f_equal. f_equal; [f_equal|lia].
  - f_equal; [f_equal; lia|]. apply list_fmap_ext. intros i x _. simpl. f_equal. lia.
  - f_equal; [f_equal; lia|]. apply list_fmap_ext. intros i x _. simpl. f_equal. lia.
Qed.

(** ** The plan in closed form *)

Definition reference_persistent (length : Z) : Z :=
  kRequestConvStateBytes + kRequestGdnStateBytes + kRequestKvBytesPerToken * length.
Definition reference_scratch (length : Z) : Z := Z.max 262144 (24 * length) * 4.
Definition reference_fp32 (length chunk : Z) : Z :=
  reference_persistent length + 169984 * chunk + 2 * up (96 * chunk).
Definition reference_rope (length chunk : Z) : Z :=
  reference_fp32 length chunk + up (reference_scratch length).
Definition reference_arena (length chunk : Z) : Z := reference_rope length chunk + 2 * up (128 * length).

Definition schedule_slot (layer : nat) : RequestLayerSlot :=
  let l := Z.of_nat layer in
  if l mod 4 =? 3 then {| type := kFullAttention; slot := l / 4 |}
  else {| type := kLinearAttention; slot := l - l / 4 |}.

(** The arena of a request of [length] positions with prefill chunks of
    [chunk] tokens. *)
Definition reference_plan (length chunk : Z) : RequestMemoryPlan :=
  let p := reference_persistent length in
  let scalars := p + 169984 * chunk in
  let caches := kRequestConvStateBytes + kRequestGdnStateBytes in
  let kv := 1024 * length in
  {| plan_batch_size := 1; plan_prefill_chunk_size := chunk; plan_max_sequence_length := length;
     arena_bytes := reference_arena length chunk;
     persistent_offset := 0; persistent_bytes := p;
     workspace_offset := p; workspace_bytes := reference_rope length chunk - p;
     rope_offset := reference_rope length chunk;
     rope_bytes := reference_arena length chunk - reference_rope length chunk;
     conv_state := region_at 0 (48 * 10240 * 3) 2;
     gdn_state := region_at kRequestConvStateBytes (48 * 48 * 128 * 128) 2;
     key_cache := (fun i => region_at (caches + kv * 4 * Z.of_nat i) kv 2) <$> seq 0 16;
     value_cache := (fun i => region_at (caches + kv * 2 + kv * 4 * Z.of_nat i) kv 2) <$> seq 0 16;
     hidden_bf16 := row p (5120 * chunk) 2 <$> seq 0 3;
     projection_bf16 := row (p + 30720 * chunk) (17408 * chunk) 2 <$> seq 0 4;
     linear_a_bf16 := region_at scalars (48 * chunk) 2;
     linear_b_bf16 := region_at (scalars + up (96 * chunk)) (48 * chunk) 2;
     fp32_scratch := region_at (reference_fp32 length chunk) (Z.max 262144 (24 * length)) 4;
     gqa_probability_scratch := region_at (reference_fp32 length chunk) (24 * length) 4;
     rope_cos_fp32 := region_at (reference_rope length chunk) (32 * length) 4;
     rope_sin_fp32 := region_at (reference_rope length chunk + up (128 * length)) (32 * length) 4;
     layers := schedule_slot <$> seq 0 64;
     profile := kLegacyC512 |}.

Lemma request_dimensions_spec options :
  0 <= max_sequence_length options -> 0 <= prefill_chunk_size options <= 512 ->
  request_dimensions options =
    if u64_max <? 1024 * max_sequence_length options then None else
    Some {| conv_elements := 48 * 10240 * 3; gdn_elements := 48 * 48 * 128 * 128;
            kv_elements := 1024 * max_sequence_length options;
            probability_elements := 24 * max_sequence_length options;
            rope_elements := 32 * max_sequence_length options;
            hidden_elements := 5120 * prefill_chunk_size options;
            projection_elements := 17408 * prefill_chunk_size options;
            linear_scalar_elements := 48 * prefill_chunk_size options |}.
Proof.
  intros Hl Hc. unfold request_dimensions.
  assert (Hmul : forall a b c, 0 <= a -> 0 <= b -> a * b <= u64_max -> c = a * b -> checked_multiply a b = Some c).
  { intros. by apply checked_multiply_Some. }
  assert (Hno : forall a b, 0 <= a -> 0 <= b -> u64_max < a * b -> checked_multiply a b = None).
  { intros a b Ha Hb Hlt. destruct (checked_multiply a b) eqn:E; [|done].
    apply checked_multiply_Some in E as [_ ?]; lia. }
  set (l := max_sequence_length options) in *. set (c := prefill_chunk_size options) in *.
  assert (Hmax : u64_max = 18446744073709551615) by reflexivity.
  change (checked_multiply kRequestLinearLayerCount kConvChannels) with (Some 491520). cbn [mbind option_bind].
  change (checked_multiply 491520 kConvHistory) with (Some (48 * 10240 * 3)). cbn [mbind option_bind].
  change (checked_multiply kRequestLinearLayerCount kGdnValueHeads) with (Some 2304). cbn [mbind option_bind].
  change (checked_multiply 2304 kRequestGdnHeadDimension) with (Some 294912). cbn [mbind option_bind].
  change (checked_multiply 294912 kRequestGdnHeadDimension) with (Some (48 * 48 * 128 * 128)).
  cbn [mbind option_bind].
  unfold kKvHeadCount, kHeadDimension, kQueryHeadCount, kRopePairs, kHiddenElements, kProjectionElements,
    kLinearScalarElements.
  destruct (Z.ltb_spec u64_max (1024 * l)) as [Hover|Hfit].
  - destruct (Z.le_gt_cases (l * 4) u64_max) as [H4|H4].
    + rewrite (Hmul l 4 (l * 4)) by lia. cbn [mbind option_bind]. by rewrite (Hno (l * 4) 256) by lia.
    + by rewrite (Hno l 4) by lia.
  - rewrite (Hmul l 4 (l * 4)) by lia. cbn [mbind option_bind].
    rewrite (Hmul (l * 4) 256 (1024 * l)) by lia. cbn [mbind option_bind].
    rewrite (Hmul l 24 (24 * l)) by lia. cbn [mbind option_bind].
    rewrite (Hmul l 32 (32 * l)) by lia. cbn [mbind option_bind].
    rewrite (Hmul 5120 c (5120 * c)) by lia. cbn [mbind option_bind].
    rewrite (Hmul 17408 c (17408 * c)) by lia. cbn [mbind option_bind].
    rewrite (Hmul 48 c (48 * c)) by lia. done.
Qed.

Lemma map_layers_schedule : map_layers 64 0 = inr (schedule_slot <$> seq 0 64, (48, 16)).
Proof. reflexivity. Qed.

Lemma multiple_of_256 k : (256 | 256 * k).
Proof. by exists k; rewrite Z.mul_comm. Qed.

Lemma build_reference options :
  invalid_options options = false -> 0 < max_sequence_length options <= kAbsoluteRequestMaxSequenceLength ->
  0 < prefill_chunk_size options <= 512 -> batch_size options = 1 ->
  build_request_memory_plan options =
    if max_arena_bytes options <? reference_arena (max_sequence_length options) (prefill_chunk_size options)
    then inl (make_diagnostic kArenaLimitExceeded "max_arena_bytes")
    else inr (reference_plan (max_sequence_length options) (prefill_chunk_size options)).
Proof.
  intros Hinv Hl Hc Hb. unfold build_request_memory_plan. rewrite Hinv.
  unfold kAbsoluteRequestMaxSequenceLength in Hl |- *.
  assert (Hmax : u64_max = 18446744073709551615) by reflexivity.
  rewrite request_dimensions_spec, (proj2 (Z.ltb_ge _ _)) by lia. unfold or_fail at 1. cbv iota.
  cbn [conv_elements gdn_elements kv_elements probability_elements rope_elements hidden_elements
       projection_elements linear_scalar_elements].
  set (l := max_sequence_length options) in *. set (c := prefill_chunk_size options) in *.
  rewrite (proj2 (Z.ltb_ge 262144 l)) by lia.
  change (add 0 (48 * 10240 * 3) kBf16Bytes) with (Some (region_at 0 (48 * 10240 * 3) 2, 2949120)).
  unfold or_fail at 1. cbv iota.
  change (add 2949120 (48 * 48 * 128 * 128) kBf16Bytes) with
    (Some (region_at kRequestConvStateBytes (48 * 48 * 128 * 128) 2, 78446592)).
  unfold or_fail at 1. cbv iota.
  change (Z.to_nat kRequestFullLayerCount) with 16%nat.
  rewrite add_caches_here; [|by exists 306432|exists (8 * l); lia|lia..]. unfold or_fail at 1. cbv iota.
  assert (Hp : 78446592 + 1024 * l * 4 * Z.of_nat 16 = reference_persistent l).
  { unfold reference_persistent, kRequestConvStateBytes, kRequestGdnStateBytes, kRequestKvBytesPerToken. lia. }
  rewrite Hp. assert (Hpl : reference_persistent l = 256 * (306432 + 256 * l)) by lia.
  pose proof (multiple_of_256 (306432 + 256 * l)) as Hpd. rewrite <- Hpl in Hpd.
  assert (Hal : forall a b, (256 | a) -> 0 <= a <= 2 ^ 40 -> 0 <= b <= 2 ^ 40 ->
    align (a + b) = Some (a + up b)).
  { intros a b Ha Hra Hrb. unfold align. apply checked_align_Some; [lia|]. split; [by rewrite up_add|lia]. }
  assert (Hal0 : align (reference_persistent l) = Some (reference_persistent l)).
  { apply checked_align_Some; [lia|]. rewrite up_aligned by done. lia. }
  rewrite Hal0. unfold or_fail at 1. cbv iota.
  change kBf16Bytes with 2. unfold kRequestHiddenBufferCount, kRequestProjectionBufferCount, kFp32Bytes.
  rewrite add_each_here; [|done|exists (40 * c); lia|lia..]. unfold or_fail at 1. cbv iota.
  rewrite add_each_here; [|apply Z.divide_add_r; [done|exists (120 * c); lia]|exists (136 * c); lia|lia..].
  unfold or_fail at 1. cbv iota.
  assert (Hs : reference_persistent l + 5120 * c * 2 * Z.of_nat 3 + 17408 * c * 2 * Z.of_nat 4 =
               reference_persistent l + 169984 * c) by lia.
  rewrite Hs. set (s := reference_persistent l + 169984 * c) in *.
  assert (Hsd : (256 | s)) by (apply Z.divide_add_r; [done|exists (664 * c); lia]).
  rewrite add_here by (done || lia). unfold or_fail at 1. cbv iota.
  replace (48 * c * 2) with (96 * c) by lia.
  destruct (up_spec (96 * c)) as [Hu1 Hd1]. destruct (up_spec (128 * l)) as [Hu2 Hd2].
  destruct (up_spec (reference_scratch l)) as [Hu3 Hd3].
  rewrite add_next by (done || lia). unfold or_fail at 1. cbv iota.
  replace (48 * c * 2) with (96 * c) by lia.
  change kFp32MinimumElements with 262144.
  assert (Hsc : 0 < Z.max 262144 (24 * l) <= 24 * 262144) by lia.
  rewrite add_next; [|by apply Z.divide_add_r|lia..]. unfold or_fail at 1. cbv iota.
  fold (reference_scratch l).
  replace (s + up (96 * c) + up (96 * c)) with (reference_fp32 l c) by (unfold reference_fp32, s; lia).
  assert (Hfd : (256 | reference_fp32 l c)).
  { unfold reference_fp32. fold s. apply Z.divide_add_r; [done|]. by apply Z.divide_mul_r. }
  assert (Hf : 0 <= reference_fp32 l c <= 2 ^ 36) by (unfold reference_fp32; lia).
  assert (Hsr : 0 <= reference_scratch l <= 2 ^ 28) by (unfold reference_scratch; lia).
  rewrite Hal by (done || lia). unfold or_fail at 1. cbv iota. fold (reference_rope l c).
  assert (Hrd : (256 | reference_rope l c)) by by apply Z.divide_add_r.
  assert (Hr : 0 <= reference_rope l c <= 2 ^ 37) by (unfold reference_rope; lia).
  rewrite add_here by (done || lia). unfold or_fail at 1. cbv iota.
  replace (32 * l * 4) with (128 * l) by lia.
  rewrite add_next by (done || lia). unfold or_fail at 1. cbv iota.
  replace (32 * l * 4) with (128 * l) by lia.
  rewrite Hal; [|by apply Z.divide_add_r|lia..]. unfold or_fail at 1. cbv iota.
  replace (reference_rope l c + up (128 * l) + up (128 * l)) with (reference_arena l c)
    by (unfold reference_arena; lia).
  change (Z.to_nat kRequestLayerCount) with 64%nat. rewrite map_layers_schedule. cbv iota.
  change (negb (48 =? kRequestLinearLayerCount) || _ || _ || _) with false. cbv iota.
  destruct (_ <? _); [done|]. f_equal. unfold reference_plan. fold s. rewrite Hb, u32_small by (unfold is_u32; lia).
  f_equal; try (unfold region_at; simpl; f_equal; rewrite ?u64_small by (unfold is_u64; lia); lia).
  by replace (reference_persistent l + 5120 * c * 2 * Z.of_nat 3) with (reference_persistent l + 30720 * c) by lia.
Qed.

(** ** Layouts

    [laid from regions to]: the regions follow one another between the two
    offsets, each aligned, not empty and of the size its elements need. *)

Record good_region (r : RequestRegion) : Prop := {
  gr_aligned : (kRequestArenaAlignment | arena_offset r);
  gr_nonempty : 0 < byte_size r;
  gr_size : byte_size r = element_capacity r * element_size_bytes r
}.

Fixpoint laid (from : Z) (regions : list RequestRegion) (to : Z) : Prop :=
  match regions with
  | [] => from <= to
  | r :: rs => from <= arena_offset r /\ good_region r /\ laid (arena_offset r + byte_size r) rs to
  end.

Lemma laid_app a l1 b l2 c : laid a l1 b -> laid b l2 c -> laid a (l1 ++ l2) c.
Proof.
  revert a. induction l1 as [|r l1 IH]; intros a; simpl.
  - destruct l2 as [|r l2]; simpl; [lia|]. intros ? (? & ? & ?). split_and!; [lia|done..].
  - intros (? & ? & ?) ?. split_and!; auto.
Qed.

Lemma laid_le a l b : laid a l b -> a <= b.
Proof.
  revert a. induction l as [|r l IH]; intros a; simpl; [done|]. intros (? & [_ ? _] & Hl).
  apply IH in Hl. lia.
Qed.

Lemma laid_bounds a l b r : laid a l b -> r ∈ l -> a <= arena_offset r /\ arena_offset r + byte_size r <= b.
Proof.
  revert a. induction l as [|r' l IH]; intros a Hl Hr; [by apply not_elem_of_nil in Hr|].
  simpl in Hl. destruct Hl as (? & [_ ? _] & Hl). apply elem_of_cons in Hr as [->|Hr].
  - apply laid_le in Hl. lia.
  - apply IH in Hl as [? ?]; [lia|done].
Qed.

Lemma laid_good a l b : laid a l b -> Forall good_region l.
Proof.
  revert a. induction l as [|r l IH]; intros a; simpl; [by constructor|].
  intros (? & ? & Hl). constructor; [done|]. by eapply IH.
Qed.

(** Regions at different places of a layout do not overlap. *)
Lemma laid_ordered a l b i j ri rj :
  laid a l b -> l !! i = Some ri -> l !! j = Some rj -> (i < j)%nat ->
  arena_offset ri + byte_size ri <= arena_offset rj.
Proof.
  revert a i j. induction l as [|r l IH]; intros a i j Hl Hi Hj Hij; [done|].
  simpl in Hl. destruct Hl as (_ & _ & Hl). destruct j as [|j]; [lia|]. simpl in Hj.
  destruct i as [|i]; simpl in Hi.
  - injection Hi as <-. apply (laid_bounds _ _ _ _ Hl). by apply (list_elem_of_lookup_2 _ j).
  - apply (IH _ i j Hl Hi Hj). lia.
Qed.

Lemma region_good o e s : (256 | o) -> 0 < e -> 0 < s -> good_region (region_at o e s).
Proof. intros. constructor; [done|simpl; nia|done]. Qed.

Lemma laid_one o e s b :
  (256 | o) -> 0 < e -> 0 < s -> o + e * s <= b -> laid o [region_at o e s] b.
Proof. intros. split_and!; [simpl; lia|by apply region_good|done]. Qed.

Lemma laid_rows n o e s :
  (256 | o) -> (256 | e * s) -> 0 < e -> 0 < s ->
  laid o (row o e s <$> seq 0 n) (o + e * s * Z.of_nat n).
Proof.
  intros Ho Hes He Hs. induction n as [|n IH]; [simpl; lia|].
  rewrite seq_S, fmap_app. eapply laid_app; [exact IH|]. cbn [plus fmap list_fmap].
  apply laid_one; [|done..|lia]. apply Z.divide_add_r; [done|]. by apply Z.divide_mul_l.
Qed.

(** The key and value caches, alternating. *)
Fixpoint interleave {A} (l1 l2 : list A) : list A :=
  match l1, l2 with
  | x :: l1, y :: l2 => x :: y :: interleave l1 l2
  | _, _ => []
  end.

Lemma elem_of_interleave {A} (l1 l2 : list A) x :
  length l1 = length l2 -> x ∈ l1 \/ x ∈ l2 -> x ∈ interleave l1 l2.
Proof.
  revert l2. induction l1 as [|a l1 IH]; intros [|b l2] Hlen Hx; try discriminate; simpl.
  - by destruct Hx.
  - injection Hlen as Hlen. rewrite !elem_of_cons in *. specialize (IH l2 Hlen). tauto.
Qed.

Lemma laid_caches n o e :
  (256 | o) -> (256 | e * 2) -> 0 < e ->
  laid o (interleave ((fun i => region_at (o + e * 4 * Z.of_nat i) e 2) <$> seq 0 n)
                     ((fun i => region_at (o + e * 2 + e * 4 * Z.of_nat i) e 2) <$> seq 0 n))
       (o + e * 4 * Z.of_nat n).
Proof.
  intros Ho He H0.
  assert (Hgen : forall k m, laid (o + e * 4 * Z.of_nat k)
    (interleave ((fun i => region_at (o + e * 4 * Z.of_nat i) e 2) <$> seq k m)
                ((fun i => region_at (o + e * 2 + e * 4 * Z.of_nat i) e 2) <$> seq k m))
    (o + e * 4 * Z.of_nat (k + m))).
  { intros k m. revert k. induction m as [|m IH]; intros k; cbn [seq fmap list_fmap interleave laid].
    { rewrite Nat.add_0_r. lia. }
    assert (Hk : (256 | e * 4 * Z.of_nat k)).
    { replace (e * 4 * Z.of_nat k) with (e * 2 * (2 * Z.of_nat k)) by lia. by apply Z.divide_mul_l. }
    cbn [arena_offset byte_size region_at]. split_and!; [lia| |lia| |].
    - apply region_good; [by apply Z.divide_add_r|lia..].
    - apply region_good; [by repeat apply Z.divide_add_r|lia..].
    - specialize (IH (S k)). replace (k + S m)%nat with (S k + m)%nat by lia.
      replace (o + e * 2 + e * 4 * Z.of_nat k + e * 2) with (o + e * 4 * Z.of_nat (S k)) by lia. done. }
  specialize (Hgen 0%nat n). change (Z.of_nat 0) with 0 in Hgen. by rewrite Z.mul_0_r, Z.add_0_r in Hgen.
Qed.

Definition persistent_regions (plan : RequestMemoryPlan) : list RequestRegion :=
  conv_state plan :: gdn_state plan :: interleave (key_cache plan) (value_cache plan).
Definition workspace_regions (plan : RequestMemoryPlan) : list RequestRegion :=
  hidden_bf16 plan ++ projection_bf16 plan ++ [linear_a_bf16 plan; linear_b_bf16 plan; fp32_scratch plan].
Definition rope_regions (plan : RequestMemoryPlan) : list RequestRegion :=
  [rope_cos_fp32 plan; rope_sin_fp32 plan].

(** A plan whose three spans partition the arena and hold their regions. *)
Record well_laid (plan : RequestMemoryPlan) : Prop := {
  wl_persistent : laid (persistent_offset plan) (persistent_regions plan)
                    (persistent_offset plan + persistent_bytes plan);
  wl_workspace : laid (workspace_offset plan) (workspace_regions plan)
                   (workspace_offset plan + workspace_bytes plan);
  wl_rope : laid (rope_offset plan) (rope_regions plan) (rope_offset plan + rope_bytes plan);
  wl_start : persistent_offset plan = 0;
  wl_after_persistent : workspace_offset plan = persistent_offset plan + persistent_bytes plan;
  wl_after_workspace : rope_offset plan = workspace_offset plan + workspace_bytes plan;
  wl_end : arena_bytes plan = rope_offset plan + rope_bytes plan
}.

Lemma reference_aligned l c :
  (256 | reference_persistent l) /\ (256 | reference_fp32 l c) /\ (256 | reference_rope l c).
Proof.
  assert (Hp : (256 | reference_persistent l)).
  { exists (306432 + 256 * l). unfold reference_persistent, kRequestConvStateBytes, kRequestGdnStateBytes,
      kRequestKvBytesPerToken. lia. }
  assert (Hf : (256 | reference_fp32 l c)).
  { unfold reference_fp32. apply Z.divide_add_r; [|apply Z.divide_mul_r, up_spec].
    apply Z.divide_add_r; [done|exists (664 * c); lia]. }
  split_and!; [done..|]. apply Z.divide_add_r; [done|apply up_spec].
Qed.

Lemma reference_well_laid l c : 0 < l -> 0 < c -> well_laid (reference_plan l c).
Proof.
  intros Hl Hc. destruct (reference_aligned l c) as (Hp & Hf & Hr).
  destruct (up_spec (96 * c)) as [Hu1 Hd1]. destruct (up_spec (128 * l)) as [Hu2 Hd2].
  destruct (up_spec (reference_scratch l)) as [Hu3 Hd3].
  assert (Hpe : reference_persistent l =
    kRequestConvStateBytes + kRequestGdnStateBytes + 1024 * l * 4 * Z.of_nat 16).
  { unfold reference_persistent, kRequestKvBytesPerToken. lia. }
  constructor; cbn [reference_plan persistent_offset persistent_bytes workspace_offset workspace_bytes
    rope_offset rope_bytes arena_bytes]; try lia.
  - rewrite Z.add_0_l, Hpe. unfold persistent_regions. cbn [reference_plan conv_state gdn_state key_cache value_cache].
    cbn [laid arena_offset byte_size region_at]. split_and!.
    + lia.
    + apply region_good; [apply Z.divide_0_r|lia..].
    + unfold kRequestConvStateBytes. lia.
    + apply region_good; [by exists 11520|lia..].
    + apply (laid_caches 16 (kRequestConvStateBytes + kRequestGdnStateBytes) (1024 * l));
        [by exists 306432|exists (8 * l); lia|lia].
  - replace (reference_persistent l + (reference_rope l c - reference_persistent l)) with (reference_rope l c) by lia.
    unfold workspace_regions. cbn [reference_plan hidden_bf16 projection_bf16 linear_a_bf16 linear_b_bf16 fp32_scratch].
    eapply laid_app; [apply laid_rows; [done|exists (40 * c); lia|lia..]|].
    replace (reference_persistent l + 5120 * c * 2 * Z.of_nat 3) with (reference_persistent l + 30720 * c) by lia.
    eapply laid_app; [apply laid_rows; [|exists (136 * c); lia|lia..]|].
    { apply Z.divide_add_r; [done|exists (120 * c); lia]. }
    assert (Hs : (256 | reference_persistent l + 169984 * c)).
    { apply Z.divide_add_r; [done|exists (664 * c); lia]. }
    cbn [laid arena_offset byte_size region_at]. unfold reference_rope, reference_fp32, reference_scratch in *.
    split_and!; try lia; apply region_good; try lia; try done.
    by apply Z.divide_add_r.
  - replace (reference_rope l c + (reference_arena l c - reference_rope l c)) with (reference_arena l c) by lia.
    unfold rope_regions. cbn [reference_plan rope_cos_fp32 rope_sin_fp32 laid arena_offset byte_size region_at].
    unfold reference_arena. split_and!; try lia; apply region_good; try lia; try done.
    by apply Z.divide_add_r.
Qed.

(** What every user of a built plan relies on. *)
Lemma build_inv options plan :
  0 <= max_sequence_length options -> 0 <= prefill_chunk_size options ->
  build_request_memory_plan options = inr plan ->
  exists l c, 0 < l <= 262144 /\ 0 < c <= 512 /\ l = max_sequence_length options /\
    c = prefill_chunk_size options /\ plan = reference_plan l c /\
    reference_arena l c <= max_arena_bytes options.
Proof.
  intros Hl Hc Hb. pose proof Hb as Hb'. unfold build_request_memory_plan in Hb'.
  destruct (invalid_options options) eqn:Hinv; [done|].
  assert (Ho := Hinv). unfold invalid_options, kMaximumRequestPrefillChunkSize in Ho. bools.
  rewrite request_dimensions_spec in Hb' by lia.
  destruct (_ <? _); [done|]. unfold or_fail at 1 in Hb'. cbv iota in Hb'.
  destruct (Z.ltb_spec kAbsoluteRequestMaxSequenceLength (max_sequence_length options)); [done|]. clear Hb'.
  unfold kAbsoluteRequestMaxSequenceLength in *.
  rewrite build_reference in Hb; [|done|unfold kAbsoluteRequestMaxSequenceLength; lia|lia|done].
  destruct (Z.ltb_spec (max_arena_bytes options)
    (reference_arena (max_sequence_length options) (prefill_chunk_size options))); [done|].
  injection Hb as <-. exists (max_sequence_length options), (prefill_chunk_size options).
  split_and!; done || lia.
Qed.

Lemma up_mono a b : a <= b -> up a <= up b.
Proof. intros. unfold up. apply Z.mul_le_mono_nonneg_r; [lia|]. apply Z.div_le_mono; lia. Qed.

Lemma reference_arena_mono l c l' c' :
  l <= l' -> c <= c' -> reference_arena l c <= reference_arena l' c'.
Proof.
  intros Hl Hc. unfold reference_arena, reference_rope, reference_fp32, reference_persistent,
    kRequestKvBytesPerToken, reference_scratch.
  pose proof (up_mono (96 * c) (96 * c') ltac:(lia)). pose proof (up_mono (128 * l) (128 * l') ltac:(lia)).
  pose proof (up_mono (Z.max 262144 (24 * l) * 4) (Z.max 262144 (24 * l') * 4) ltac:(lia)). lia.
Qed.

(** ** Properties *)

(** C27. Admission and size of a request's arena: the builder refuses a
    request exactly for out-of-range options, a sequence length whose element
    counts overflow 64 bits or exceeds the model's limit, or an arena above the
    configured maximum, with the diagnostic of the first of these; otherwise
    its plan is the closed-form layout [reference_plan], whose size never
    exceeds the documented maximum, attained at the largest request. *)
Theorem request_plan_admission options :
  is_u64 (max_sequence_length options) -> is_u32 (prefill_chunk_size options) ->
  let l := max_sequence_length options in
  let c := prefill_chunk_size options in
  build_request_memory_plan options =
    (if invalid_options options then inl (make_diagnostic kInvalidOption "options")
     else if u64_max <? 1024 * l then inl (make_diagnostic kArithmeticOverflow "max_sequence_length")
     else if kAbsoluteRequestMaxSequenceLength <? l
          then inl (make_diagnostic kInvalidOption "max_sequence_length")
     else if max_arena_bytes options <? reference_arena l c
          then inl (make_diagnostic kArenaLimitExceeded "max_arena_bytes")
     else inr (reference_plan l c)) /\
  (forall plan, build_request_memory_plan options = inr plan ->
     arena_bytes plan <= Z.min (max_arena_bytes options) kMaximumRequestArenaBytes) /\
  reference_arena 128 1 = kDefaultRequestArenaBytes /\
  reference_arena 262144 512 = kMaximumRequestArenaBytes.
Proof.
  intros [Hl _] [Hc _] l c. split_and!; [| |reflexivity|reflexivity].
  - destruct (invalid_options options) eqn:Hinv; [unfold build_request_memory_plan; by rewrite Hinv|].
    assert (Ho := Hinv). unfold invalid_options, kMaximumRequestPrefillChunkSize in Ho. bools.
    destruct (Z.ltb_spec u64_max (1024 * l)) as [Hover|Hfit].
    { unfold build_request_memory_plan. rewrite Hinv, request_dimensions_spec by (fold c; lia).
      by rewrite (proj2 (Z.ltb_lt _ _)). }
    destruct (Z.ltb_spec kAbsoluteRequestMaxSequenceLength l) as [Hbig|Hsmall].
    { unfold build_request_memory_plan. rewrite Hinv, request_dimensions_spec by (fold c; lia).
      rewrite (proj2 (Z.ltb_ge _ _)) by done. unfold or_fail at 1. cbv iota.
      by rewrite (proj2 (Z.ltb_lt _ _)). }
    apply build_reference; [done|lia|fold c; lia|done].
  - intros plan Hb. apply build_inv in Hb as (l' & c' & ? & ? & _ & _ & -> & ?); [|done..].
    pose proof (reference_arena_mono l' c' 262144 512 ltac:(lia) ltac:(lia)).
    change (reference_arena 262144 512) with kMaximumRequestArenaBytes in *.
    cbn [arena_bytes reference_plan]. lia.
Qed.

Definition sample_options : RequestMemoryOptions := {|
  batch_size := 1; prefill_chunk_size := 64; max_sequence_length := 4096;
  max_arena_bytes := 2 * 1024 * 1024 * 1024; min_free_bytes_after_create := 0 |}.

Lemma sample_options_in_range :
  is_u64 (max_sequence_length sample_options) /\ is_u32 (prefill_chunk_size sample_options).
Proof. split; (split; [vm_compute; discriminate|vm_compute; reflexivity]). Qed.

Lemma request_plan_admission_witness :
  build_request_memory_plan sample_options = inr (reference_plan 4096 64).
Proof.
  destruct (request_plan_admission sample_options) as (-> & _); [apply sample_options_in_range..|].
  reflexivity.
Defined.

(** C28. The regions of a plan share no byte: taken in the order of the arena
    — persistent states and caches, workspace, RoPE tables — each starts at or
    after the end of the one before, at an offset aligned to 256 bytes, with
    exactly the bytes its elements need; the persistent regions fill their
    span without a gap, and the probability scratch, the only alias, lies
    inside the FP32 scratch. *)
Theorem request_plan_layout options plan :
  is_u64 (max_sequence_length options) -> is_u32 (prefill_chunk_size options) ->
  build_request_memory_plan options = inr plan ->
  let all := persistent_regions plan ++ workspace_regions plan ++ rope_regions plan in
  (forall i j ri rj, all !! i = Some ri -> all !! j = Some rj -> (i < j)%nat ->
     arena_offset ri + byte_size ri <= arena_offset rj) /\
  Forall good_region all /\
  (forall r, r ∈ all -> 0 <= arena_offset r /\ arena_offset r + byte_size r <= arena_bytes plan) /\
  (forall r, r ∈ persistent_regions plan -> arena_offset r + byte_size r <= persistent_bytes plan) /\
  foldr (fun r n => byte_size r + n) 0 (persistent_regions plan) = persistent_bytes plan /\
  arena_offset (gqa_probability_scratch plan) = arena_offset (fp32_scratch plan) /\
  byte_size (gqa_probability_scratch plan) <= byte_size (fp32_scratch plan).
Proof.
  intros [Hl _] [Hc _] Hb all. apply build_inv in Hb as (l & c & Hlr & Hcr & _ & _ & -> & _); [|done..].
  destruct (reference_well_laid l c) as [Hp Hw Hr Hs Hap Haw He]; [lia..|].
  assert (Hall : laid 0 all (arena_bytes (reference_plan l c))).
  { rewrite He. eapply laid_app; [by rewrite Hs in Hp|]. eapply laid_app; [by rewrite Hap, Hs in Hw|].
    rewrite Haw, Hap, Hs in Hr. rewrite Haw, Hap, Hs. exact Hr. }
  split_and!.
  - intros i j ri rj Hi Hj Hij. by eapply laid_ordered.
  - by eapply laid_good.
  - intros r Hin. by eapply laid_bounds.
  - intros r Hin. rewrite <- (Z.add_0_l (persistent_bytes _)), <- Hs. by eapply laid_bounds.
  - cbn -[Z.mul Z.add Z.of_nat reference_persistent]. unfold reference_persistent, kRequestConvStateBytes,
      kRequestGdnStateBytes, kRequestKvBytesPerToken. lia.
  - done.
  - cbn. lia.
Qed.

Lemma request_plan_layout_witness :
  let plan := reference_plan 4096 64 in
  Forall good_region (persistent_regions plan ++ workspace_regions plan ++ rope_regions plan).
Proof.
  apply (request_plan_layout sample_options (reference_plan 4096 64));
    [apply sample_options_in_range..|]. vm_compute. reflexivity.
Defined.

Lemma map_request_layer_spec layer kind s :
  0 <= layer ->
  map_request_layer layer kind = inr s <->
  type s = kind /\
  ((kind = kFullAttention /\ 0 <= slot s < kRequestFullLayerCount /\ layer = 4 * slot s + 3) \/
   (kind = kLinearAttention /\ 0 <= slot s < kRequestLinearLayerCount /\ layer = slot s + slot s / 3)).
Proof.
  intros Hlayer. unfold map_request_layer, kRequestLayerCount, kRequestLinearLayerCount, kRequestFullLayerCount.
  pose proof (Z.div_mod layer 4). pose proof (Z.mod_pos_bound layer 4).
  pose proof (Z.div_mod (layer + 1) 4). pose proof (Z.mod_pos_bound (layer + 1) 4).
  destruct s as [ty n]. cbn [type slot].
  pose proof (Z.div_mod n 3). pose proof (Z.mod_pos_bound n 3).
  destruct (Z.leb_spec 64 layer).
  { split; [done|]. intros [_ [(_ & ? & ->)|(_ & ? & ->)]]; lia. }
  destruct (Z.eqb_spec ((layer + 1) mod 4) 0) as [Hfull|Hfull]; destruct kind; cbn [type slot];
    rewrite ?bool_decide_true, ?bool_decide_false by done; simpl.
  all: try (split; [done|]; intros [? [(? & ? & ?)|(? & ? & ?)]]; first [discriminate|lia]).
  - rewrite (proj2 (Z.leb_gt 16 _)) by lia. split.
    + intros [= <- <-]. split; [done|]. left. split_and!; [done|lia..].
    + intros [-> [(_ & Hr & ->)|(? & _)]]; [|discriminate]. do 2 f_equal. lia.
  - rewrite (proj2 (Z.leb_gt 48 _)) by lia. split.
    + intros [= <- <-]. split; [done|]. right. split_and!; [done|lia..].
    + intros [-> [(? & _)|(_ & Hr & ->)]]; [discriminate|]. do 2 f_equal. lia.
Qed.

(** The layer schedule is a bijection: a layer maps to a slot exactly
    when it is one of the 64 and of the required kind; full-attention slot [s]
    is layer [4s+3], linear slot [s] is the [s]-th other layer, and every slot
    of each kind is some layer's. *)
Theorem request_layer_bijection layer kind s :
  0 <= layer ->
  map_request_layer layer kind = inr s <->
  type s = kind /\
  ((kind = kFullAttention /\ 0 <= slot s < kRequestFullLayerCount /\ layer = 4 * slot s + 3) \/
   (kind = kLinearAttention /\ 0 <= slot s < kRequestLinearLayerCount /\ layer = slot s + slot s / 3)).
Proof. apply map_request_layer_spec. Qed.

Lemma request_layer_bijection_witness :
  map_request_layer 63 kFullAttention = inr {| type := kFullAttention; slot := 15 |}.
Proof.
  apply request_layer_bijection; [lia|]. split; [done|]. left.
  split_and!; [done|vm_compute; discriminate|vm_compute; reflexivity|reflexivity].
Defined.

(** ** The reset of a built plan *)

Lemma consume_region_at o e s :
  0 <= o -> 0 <= e * s -> o + e * s <= u64_max -> consume_region o (region_at o e s) (e * s) = Some (o + e * s).
Proof.
  intros Ho Hes Hle. unfold consume_region. cbn [arena_offset byte_size region_at]. rewrite !Z.eqb_refl. simpl.
  unfold checked_add. by rewrite (proj2 (Z.ltb_ge _ _)) by lia.
Qed.

Lemma consume_caches_at k n o e :
  0 <= o -> 0 <= e -> o + e * 4 * Z.of_nat (k + n) <= u64_max ->
  consume_caches (o + e * 4 * Z.of_nat k)
    ((fun i => region_at (o + e * 4 * Z.of_nat i) e 2) <$> seq k n)
    ((fun i => region_at (o + e * 2 + e * 4 * Z.of_nat i) e 2) <$> seq k n) (e * 2) =
  Some (o + e * 4 * Z.of_nat (k + n)).
Proof.
  intros Ho He. revert k. induction n as [|n IH]; intros k Hle; cbn [seq fmap list_fmap consume_caches].
  { by rewrite Nat.add_0_r. }
  assert (0 <= e * Z.of_nat k) by nia. assert (0 <= e * Z.of_nat n) by nia.
  rewrite consume_region_at by lia. cbn [mbind option_bind].
  replace (o + e * 4 * Z.of_nat k + e * 2) with (o + e * 2 + e * 4 * Z.of_nat k) by lia.
  rewrite consume_region_at by lia. cbn [mbind option_bind].
  replace (o + e * 2 + e * 4 * Z.of_nat k + e * 2) with (o + e * 4 * Z.of_nat (S k)) by lia.
  rewrite IH by (rewrite Nat.add_succ_l, <- Nat.add_succ_r; done). do 3 f_equal. lia.
Qed.

Lemma dirty_prefix_reference l c n :
  0 < l <= 262144 -> 0 <= n <= 262144 ->
  dirty_prefix_bytes (reference_plan l c) (reference_persistent l) n = Some (78446592 + 65536 * n).
Proof.
  intros Hl Hn. unfold dirty_prefix_bytes.
  cbn [reference_plan plan_max_sequence_length persistent_offset conv_state gdn_state key_cache value_cache].
  assert (Hmax : u64_max = 18446744073709551615) by reflexivity.
  replace (checked_multiply l _) with (Some (1024 * l * 2)).
  2: { symmetry. change (kRequestKvBytesPerToken / (2 * kRequestFullLayerCount)) with 2048.
       apply checked_multiply_Some; lia. }
  cbn [mbind option_bind]. change kRequestConvStateBytes with (48 * 10240 * 3 * 2) at 1.
  rewrite consume_region_at by lia. cbn [mbind option_bind].
  change (0 + 48 * 10240 * 3 * 2) with kRequestConvStateBytes.
  change kRequestGdnStateBytes with (48 * 48 * 128 * 128 * 2) at 1.
  rewrite consume_region_at by (unfold kRequestConvStateBytes; lia). cbn [mbind option_bind].
  change (kRequestConvStateBytes + 48 * 48 * 128 * 128 * 2) with (kRequestConvStateBytes + kRequestGdnStateBytes).
  pose proof (consume_caches_at 0 16 (kRequestConvStateBytes + kRequestGdnStateBytes) (1024 * l)) as Hc.
  change (Z.of_nat 0) with 0 in Hc. rewrite Z.mul_0_r, Z.add_0_r in Hc.
  rewrite Hc by (unfold kRequestConvStateBytes, kRequestGdnStateBytes; lia). cbn [mbind option_bind].
  replace (_ =? _) with true.
  2: { symmetry. apply Z.eqb_eq. unfold reference_persistent, kRequestKvBytesPerToken. lia. }
  cbn [negb]. cbv iota.
  replace (checked_multiply n kRequestKvBytesPerToken) with (Some (n * 65536)).
  2: { symmetry. apply checked_multiply_Some; unfold kRequestKvBytesPerToken; lia. }
  cbn [mbind option_bind]. change (kRequestConvStateBytes + kRequestGdnStateBytes) with 78446592.
  unfold checked_add. rewrite (proj2 (Z.ltb_ge _ _)) by lia. f_equal. lia.
Qed.

(** The bytes a reset of [positions] committed positions zeroes. *)
Definition reset_bytes (plan : RequestMemoryPlan) (m : RequestStateResetMode) (positions : Z) : Z :=
  match m with
  | kAlreadyClean => 0
  | kCommittedDirtyPrefix =>
      kRequestConvStateBytes + kRequestGdnStateBytes + kRequestKvBytesPerToken * positions
  | kConservativeFull => persistent_bytes plan
  end.

Lemma reset_plan_reference l c m n :
  0 < l <= 262144 -> 0 < c <= 512 -> 0 <= n ->
  build_request_state_reset_plan (reference_plan l c) m n =
    if match m with kCommittedDirtyPrefix => (0 <? n) && (n <=? l) | _ => n =? 0 end
    then {| valid := true; mode := m;
            cleared_positions := match m with kConservativeFull => l | _ => n end;
            zeroed_bytes := reset_bytes (reference_plan l c) m n;
            memset_operations := match m with kAlreadyClean => 0 | kCommittedDirtyPrefix => 33
                                 | kConservativeFull => 1 end |}
    else {| valid := false; mode := m; cleared_positions := 0; zeroed_bytes := 0; memset_operations := 0 |}.
Proof.
  intros Hl Hc Hn. unfold build_request_state_reset_plan. cbv zeta.
  assert (Hp : 0 < reference_persistent l <= 2 ^ 40).
  { unfold reference_persistent, kRequestConvStateBytes, kRequestGdnStateBytes, kRequestKvBytesPerToken. lia. }
  destruct (reference_well_laid l c) as [_ Hw Hr _ Hap Haw He]; [lia..|].
  apply laid_le in Hw, Hr.
  assert (Hmax : u64_max = 18446744073709551615) by reflexivity.
  assert (Hend : reference_persistent l <= arena_bytes (reference_plan l c)).
  { change (workspace_offset (reference_plan l c)) with (reference_persistent l) in *. lia. }
  change (plan_max_sequence_length (reference_plan l c)) with l.
  change (persistent_bytes (reference_plan l c)) with (reference_persistent l).
  change (persistent_offset (reference_plan l c)) with 0.
  rewrite (proj2 (Z.eqb_neq l 0)), (proj2 (Z.eqb_neq (reference_persistent l) 0)) by lia.
  cbn [orb]. cbv iota. unfold checked_add at 1.
  rewrite (proj2 (Z.ltb_ge (u64_max - 0) _)), Z.add_0_l by lia. cbv iota.
  rewrite (proj2 (Z.ltb_ge (arena_bytes _) _)) by lia.
  destruct m; [destruct (Z.eqb_spec n 0) as [->|]; done| |destruct (Z.eqb_spec n 0) as [->|]; done].
  destruct (Z.eqb_spec n 0) as [->|]; [done|]. rewrite (proj2 (Z.ltb_lt 0 n)) by lia. cbn [orb andb].
  destruct (Z.ltb_spec l n), (Z.leb_spec n l); try lia; [done|].
  by rewrite dirty_prefix_reference by lia.
Qed.

(** The reset plan of a built arena is valid exactly when the caller's
    claim fits the mode — no committed position for the clean and the full
    reset, between one and the capacity for the dirty prefix — and then
    accounts for exactly the bytes it zeroes: none, both recurrent states with
    the committed K/V prefix in 33 operations, or the whole persistent span in
    one. *)
Theorem reset_plan_exact options plan m n :
  is_u64 (max_sequence_length options) -> is_u32 (prefill_chunk_size options) ->
  build_request_memory_plan options = inr plan -> is_u32 n ->
  let reset := build_request_state_reset_plan plan m n in
  mode reset = m /\
  (valid reset = true <->
     match m with
     | kCommittedDirtyPrefix => 0 < n <= plan_max_sequence_length plan
     | _ => n = 0
     end) /\
  (valid reset = true ->
     zeroed_bytes reset = reset_bytes plan m n /\ zeroed_bytes reset <= persistent_bytes plan /\
     cleared_positions reset = match m with kConservativeFull => plan_max_sequence_length plan | _ => n end /\
     memset_operations reset = match m with kAlreadyClean => 0 | kCommittedDirtyPrefix => 33
                               | kConservativeFull => 1 end).
Proof.
  intros [Hl _] [Hc _] Hb [Hn _]. apply build_inv in Hb as (l & c & Hlr & Hcr & _ & _ & -> & _); [|done..].
  cbv zeta. rewrite reset_plan_reference by lia.
  change (plan_max_sequence_length (reference_plan l c)) with l.
  change (persistent_bytes (reference_plan l c)) with (reference_persistent l).
  assert (Hok : (match m with kCommittedDirtyPrefix => (0 <? n) && (n <=? l) | _ => n =? 0 end) = true <->
                match m with kCommittedDirtyPrefix => 0 < n <= l | _ => n = 0 end).
  { destruct m; [apply Z.eqb_eq| |apply Z.eqb_eq]. rewrite andb_true_iff, Z.ltb_lt, Z.leb_le. done. }
  destruct (match m with kCommittedDirtyPrefix => _ | _ => _ end) eqn:Htest;
    cbn [valid mode zeroed_bytes cleared_positions memset_operations].
  - split_and!; [done|tauto|]. intros _. split_and!; [done| |done..].
    apply proj1 in Hok. specialize (Hok eq_refl). unfold reset_bytes.
    change (persistent_bytes (reference_plan l c)) with (reference_persistent l).
    destruct m; unfold reference_persistent, kRequestConvStateBytes, kRequestGdnStateBytes,
      kRequestKvBytesPerToken in *; lia.
  - split_and!; [done|tauto|done].
Qed.

Lemma reset_plan_exact_witness :
  valid (build_request_state_reset_plan (reference_plan 4096 64) kCommittedDirtyPrefix 100) = true.
Proof.
  apply (reset_plan_exact sample_options (reference_plan 4096 64) kCommittedDirtyPrefix 100);
    [apply sample_options_in_range..|vm_compute; reflexivity|split; vm_compute; done|].
  split; vm_compute; [reflexivity|discriminate].
Defined.
