(* ===== verification/RequestState.v ===== *)
(** * RequestState: the device arena of a request and its bookkeeping
      (class RequestState and create_request_state of
      src/runtime/request_state.cpp)

    The device is an interface: the CUDA calls the source makes, with what
    their documentation promises about memory, allocations and streams.  An
    address is an integer, [0] the null pointer; stream order is program order.
    The [mtp_gdn_offset_] member exists in builds with the speculative path and
    is zero in the others.  Cosine and sine come from the C library and are
    parameters, as their rounding is its own. *)

From Stdlib Require Import String.
From stdpp Require Import sets.
From S2P Require Import Prelude RequestPlan.

(** ** The CUDA runtime *)

Class Cuda (D : Type) := {
  (** status and free bytes *)
  cudaMemGetInfo : D -> Z * Z;
  (** status and address *)
  cudaMalloc : Z -> D -> (Z * Z) * D;
  cudaFree : Z -> D -> D;
  (** status and stream *)
  cudaStreamCreateWithFlags : D -> (Z * Z) * D;
  cudaStreamSynchronize : Z -> D -> Z * D;
  cudaStreamDestroy : Z -> D -> Z * D;
  (** address, value, count, stream *)
  cudaMemsetAsync : Z -> Z -> Z -> Z -> D -> Z * D;
  (** address, bytes, stream *)
  cudaMemcpyAsync : Z -> list Z -> Z -> D -> Z * D;
  (** what the specifications speak of *)
  byte_of : D -> Z -> Z;
  allocations : D -> list Z;
  streams : D -> list Z
}.

Definition cudaSuccess : Z := 0.

(** A device call that may not touch memory outside [lo, hi). *)
Definition outside {D} `{Cuda D} (lo hi : Z) (d d' : D) : Prop :=
  forall a, ~ (lo <= a < hi) -> byte_of d' a = byte_of d a.

(** Documented behaviour: a call that reports success has its effect, and no
    call touches what it is not given; a failed one may leave its own target
    undefined. *)
Class CudaLaws (D : Type) `{Cuda D} := {
  memset_success d p v n s d' :
    cudaMemsetAsync p v n s d = (cudaSuccess, d') -> forall a, p <= a < p + n -> byte_of d' a = v;
  memset_frame d p v n s st d' :
    cudaMemsetAsync p v n s d = (st, d') ->
    outside p (p + n) d d' /\ allocations d' = allocations d /\ streams d' = streams d;
  memcpy_success d p bytes s d' :
    cudaMemcpyAsync p bytes s d = (cudaSuccess, d') ->
    forall i, 0 <= i < Z.of_nat (length bytes) -> byte_of d' (p + i) = at_ bytes i;
  memcpy_frame d p bytes s st d' :
    cudaMemcpyAsync p bytes s d = (st, d') ->
    outside p (p + Z.of_nat (length bytes)) d d' /\ allocations d' = allocations d /\ streams d' = streams d;
  malloc_success d n p d' :
    cudaMalloc n d = ((cudaSuccess, p), d') ->
    p <> 0 /\ allocations d' = p :: allocations d /\ streams d' = streams d;
  malloc_failure d n st p d' :
    cudaMalloc n d = ((st, p), d') -> st <> cudaSuccess ->
    p = 0 /\ allocations d' = allocations d /\ streams d' = streams d;
  free_effect d p l :
    allocations d = p :: l -> allocations (cudaFree p d) = l /\ streams (cudaFree p d) = streams d;
  stream_success d s d' :
    cudaStreamCreateWithFlags d = ((cudaSuccess, s), d') ->
    s <> 0 /\ streams d' = s :: streams d /\ allocations d' = allocations d;
  stream_failure d st s d' :
    cudaStreamCreateWithFlags d = ((st, s), d') -> st <> cudaSuccess ->
    s = 0 /\ streams d' = streams d /\ allocations d' = allocations d;
  synchronize_frame d s st d' :
    cudaStreamSynchronize s d = (st, d') ->
    byte_of d' = byte_of d /\ allocations d' = allocations d /\ streams d' = streams d;
  (** the handle is gone even when a deferred error is reported *)
  destroy_frame d s l st d' :
    streams d = s :: l -> cudaStreamDestroy s d = (st, d') ->
    byte_of d' = byte_of d /\ allocations d' = allocations d /\ streams d' = l;
  stream_memory d st s d' :
    cudaStreamCreateWithFlags d = ((st, s), d') -> byte_of d' = byte_of d
}.

(** ** Views *)

Record DeviceBufferView := {
  device_data : Z;
  view_arena_offset : Z;
  view_byte_size : Z;
  view_element_capacity : Z;
  view_element_size_bytes : Z
}.

Definition view_result : Type := RequestAccessError + DeviceBufferView.

Record RequestOperationStatus := { error : RequestAccessError; cuda_error : Z }.
Definition operation_ok (status : RequestOperationStatus) : bool :=
  bool_decide (error status = kNone) && (cuda_error status =? 0).
Definition succeeded : RequestOperationStatus := {| error := kNone; cuda_error := 0 |}.
Definition refused (e : RequestAccessError) : RequestOperationStatus := {| error := e; cuda_error := 0 |}.

(** [layer_major_plan_] is represented by its [common] part, the only one the
    operations of this file read. *)
Record RequestState := {
  arena_ : Z;
  plan_ : RequestMemoryPlan;
  sequence_length_ : Z;
  layer_major_common_ : option RequestMemoryPlan;
  mtp_gdn_offset_ : Z
}.

Definition common_plan (state : RequestState) : RequestMemoryPlan :=
  match layer_major_common_ state with Some common => common | None => plan_ state end.
Definition memory_profile (state : RequestState) : RequestMemoryProfile := profile (common_plan state).
Definition max_length (state : RequestState) : Z := plan_max_sequence_length (common_plan state).

Definition remaining_capacity (state : RequestState) : Z :=
  if sequence_length_ state <=? max_length state then max_length state - sequence_length_ state else 0.

Definition with_length (state : RequestState) (n : Z) : RequestState := {|
  arena_ := arena_ state; plan_ := plan_ state; sequence_length_ := n;
  layer_major_common_ := layer_major_common_ state; mtp_gdn_offset_ := mtp_gdn_offset_ state |}.

Definition subregion (aggregate : RequestRegion) (relative_offset elements element_size : Z) : RequestRegion := {|
  arena_offset := u64 (arena_offset aggregate + relative_offset);
  byte_size := u64 (elements * element_size);
  element_capacity := elements;
  element_size_bytes := element_size |}.

Definition empty_region (region : RequestRegion) : bool :=
  (arena_offset region =? 0) && (byte_size region =? 0) && (element_capacity region =? 0)
  && (element_size_bytes region =? 0).

(** [mutable_view] and [const_view]. *)
Definition view (state : RequestState) (region : RequestRegion) : DeviceBufferView :=
  if empty_region region
  then {| device_data := 0; view_arena_offset := 0; view_byte_size := 0; view_element_capacity := 0;
          view_element_size_bytes := 0 |}
  else {| device_data := arena_ state + arena_offset region; view_arena_offset := arena_offset region;
          view_byte_size := byte_size region; view_element_capacity := element_capacity region;
          view_element_size_bytes := element_size_bytes region |}.

(** ** Sequence length *)

Definition commit_token (state : RequestState) : RequestOperationStatus * RequestState :=
  if arena_ state =? 0 then (refused kEmptyState, state)
  else if max_length state <=? sequence_length_ state then (refused kCapacityExceeded, state)
  else (succeeded, with_length state (u32 (sequence_length_ state + 1))).

Definition set_sequence_length (length : Z) (state : RequestState) : RequestOperationStatus * RequestState :=
  if arena_ state =? 0 then (refused kEmptyState, state)
  else if max_length state <? length then (refused kCapacityExceeded, state)
  else (succeeded, with_length state length).

Definition publish_sequence_length (expected_current desired : Z) (state : RequestState)
    : RequestOperationStatus * RequestState :=
  if arena_ state =? 0 then (refused kEmptyState, state) else
  let validation := validate_sequence_length_publication (sequence_length_ state) expected_current desired
                      (max_length state) in
  if negb (bool_decide (validation = kNone)) then (refused validation, state)
  else (succeeded, with_length state desired).

(** ** Accessors *)

Definition conv_layer_elements : Z := kConvChannels * kConvHistory.
Definition gdn_layer_elements : Z := kGdnValueHeads * kRequestGdnHeadDimension * kRequestGdnHeadDimension.
Definition elements_per_position : Z := kKvHeadCount * kHeadDimension.

Definition conv_state_view (layer_index : Z) (state : RequestState) : view_result :=
  if arena_ state =? 0 then inl kEmptyState else
  match map_request_layer layer_index kLinearAttention with
  | inl e => inl e
  | inr mapped =>
      inr (view state (subregion (conv_state (common_plan state))
                         (u64 (slot mapped * conv_layer_elements * kBf16Bytes)) conv_layer_elements kBf16Bytes))
  end.

Definition gdn_state_view (layer_index : Z) (state : RequestState) : view_result :=
  if arena_ state =? 0 then inl kEmptyState else
  match map_request_layer layer_index kLinearAttention with
  | inl e => inl e
  | inr mapped =>
      let aggregate := gdn_state (common_plan state) in
      let region := subregion aggregate (u64 (slot mapped * gdn_layer_elements * kBf16Bytes))
                      gdn_layer_elements kBf16Bytes in
      let region :=
        if mtp_gdn_offset_ state =? 0 then region else
        {| arena_offset := u64 (arena_offset region + u64 (mtp_gdn_offset_ state - arena_offset aggregate));
           byte_size := byte_size region; element_capacity := element_capacity region;
           element_size_bytes := element_size_bytes region |} in
      inr (view state region)
  end.

(** [key_cache]/[value_cache]: the source writes the same function twice, for
    each of the two arrays. *)
Definition cache_view (cache : RequestMemoryPlan -> list RequestRegion) (layer_index : Z)
    (state : RequestState) : view_result :=
  if arena_ state =? 0 then inl kEmptyState else
  match map_request_layer layer_index kFullAttention with
  | inl e => inl e
  | inr mapped =>
      match cache (common_plan state) !! Z.to_nat (slot mapped) with
      | Some region => inr (view state region)
      | None => inl kSlotOutOfRange
      end
  end.
Definition key_cache_view : Z -> RequestState -> view_result := cache_view key_cache.
Definition value_cache_view : Z -> RequestState -> view_result := cache_view value_cache.

(** [key_position]/[value_position]. *)
Definition position_view (cache : Z -> RequestState -> view_result) (layer_index position : Z)
    (state : RequestState) : view_result :=
  match cache layer_index state with
  | inl e => inl e
  | inr v =>
      if max_length state <=? position then inl kPositionOutOfRange else
      inr (view state {|
        arena_offset := u64 (view_arena_offset v + u64 (position * elements_per_position * kBf16Bytes));
        byte_size := elements_per_position * kBf16Bytes;
        element_capacity := elements_per_position;
        element_size_bytes := kBf16Bytes |})
  end.
Definition key_position : Z -> Z -> RequestState -> view_result := position_view key_cache_view.
Definition value_position : Z -> Z -> RequestState -> view_result := position_view value_cache_view.

(** [hidden_buffer]/[projection_buffer] and the other views of the legacy
    workspace, which the layer-major profiles do not expose. *)
Definition legacy_view (region : RequestMemoryPlan -> option RequestRegion) (state : RequestState) : view_result :=
  if arena_ state =? 0 then inl kEmptyState else
  let profile_error := validate_request_memory_profile (memory_profile state) kLegacyC512 in
  if negb (bool_decide (profile_error = kNone)) then inl profile_error else
  match region (plan_ state) with
  | Some r => inr (view state r)
  | None => inl kInvalidBufferIndex
  end.
Definition hidden_buffer (index : Z) : RequestState -> view_result :=
  legacy_view (fun plan => hidden_bf16 plan !! Z.to_nat index).
Definition projection_buffer (index : Z) : RequestState -> view_result :=
  legacy_view (fun plan => projection_bf16 plan !! Z.to_nat index).
Definition linear_a_buffer : RequestState -> view_result := legacy_view (fun plan => Some (linear_a_bf16 plan)).
Definition linear_b_buffer : RequestState -> view_result := legacy_view (fun plan => Some (linear_b_bf16 plan)).
Definition fp32_scratch_view : RequestState -> view_result := legacy_view (fun plan => Some (fp32_scratch plan)).
Definition gqa_probability_scratch_view : RequestState -> view_result :=
  legacy_view (fun plan => Some (gqa_probability_scratch plan)).

(** [rope_cos]/[rope_sin]. *)
Definition rope_view (table : RequestMemoryPlan -> RequestRegion) (position : Z) (state : RequestState) : view_result :=
  if arena_ state =? 0 then inl kEmptyState
  else if max_length state <=? position then inl kPositionOutOfRange
  else inr (view state (subregion (table (common_plan state)) (u64 (position * kRopePairs * kFp32Bytes))
                          kRopePairs kFp32Bytes)).
Definition rope_cos : Z -> RequestState -> view_result := rope_view rope_cos_fp32.
Definition rope_sin : Z -> RequestState -> view_result := rope_view rope_sin_fp32.
Definition current_rope_cos (state : RequestState) : view_result := rope_cos (sequence_length_ state) state.
Definition current_rope_sin (state : RequestState) : view_result := rope_sin (sequence_length_ state) state.

(** ** Reset *)

Record RequestStateResetReceipt := {
  receipt_mode : RequestStateResetMode;
  receipt_cleared_positions : Z;
  receipt_zeroed_bytes : Z
}.

Open Scope flow_scope.

Section Device.
Context {D : Type} `{Cuda D}.

(** What a member function can change: the object, the receipt it is given
    and the device. *)
Record World := { object : RequestState; receipt : RequestStateResetReceipt; device : D }.

Definition with_object (f : RequestState -> RequestState) (w : World) : World :=
  {| object := f (object w); receipt := receipt w; device := device w |}.

Definition memset_arena (offset bytes stream : Z) (w : World) : Z * World :=
  let '(status, d) := cudaMemsetAsync (arena_ (object w) + offset) 0 bytes stream (device w) in
  (status, {| object := object w; receipt := receipt w; device := d |}).

Definition member (R A : Type) : Type := flow World R A.

(** [if (status != cudaSuccess) return {kNone, status}]. *)
Definition zero_or_return (offset bytes stream : Z) : member RequestOperationStatus unit :=
  status <~ call (memset_arena offset bytes stream);
  if negb (status =? cudaSuccess) then return_ {| error := kNone; cuda_error := status |} else pass tt.

Fixpoint zero_caches (keys values : list RequestRegion) (bytes stream : Z) : member RequestOperationStatus unit :=
  match keys, values with
  | key :: keys, value :: values =>
      _ <~ zero_or_return (arena_offset key) bytes stream;
      _ <~ zero_or_return (arena_offset value) bytes stream;
      zero_caches keys values bytes stream
  | _, _ => pass tt
  end.

Definition clear_memory (plan : RequestMemoryPlan) (m : RequestStateResetMode) (committed_positions stream : Z)
    : member RequestOperationStatus unit :=
  match m with
  | kConservativeFull => zero_or_return (persistent_offset plan) (persistent_bytes plan) stream
  | kCommittedDirtyPrefix =>
      _ <~ zero_or_return (arena_offset (conv_state plan)) (kRequestConvStateBytes + kRequestGdnStateBytes) stream;
      zero_caches (key_cache plan) (value_cache plan)
        (u64 (committed_positions * kRequestKvBytesPerToken) / (2 * kRequestFullLayerCount)) stream
  | kAlreadyClean => pass tt
  end.

Definition reset_object (w : World) : World :=
  with_object (fun state => {|
    arena_ := arena_ state; plan_ := plan_ state; sequence_length_ := 0;
    layer_major_common_ := layer_major_common_ state; mtp_gdn_offset_ := 0 |}) w.

Definition write_receipt (reset_plan : RequestStateResetPlan) (w : World) : World := {|
  object := object w; device := device w;
  receipt := {| receipt_mode := mode reset_plan; receipt_cleared_positions := cleared_positions reset_plan;
                receipt_zeroed_bytes := zeroed_bytes reset_plan |} |}.

Definition reset_for_request_flow (m : RequestStateResetMode) (committed_positions stream : Z)
    : member RequestOperationStatus RequestOperationStatus :=
  state <~ gets object;
  if arena_ state =? 0 then return_ (refused kEmptyState) else
  let reset_plan := build_request_state_reset_plan (common_plan state) m committed_positions in
  if negb (valid reset_plan)
     || ((bool_decide (m = kAlreadyClean) || bool_decide (m = kCommittedDirtyPrefix))
         && negb (sequence_length_ state =? committed_positions))
  then return_ (refused kInvalidResetPlan) else
  _ <~ clear_memory (common_plan state) m committed_positions stream;
  _ <~ modify reset_object;
  _ <~ modify (write_receipt reset_plan);
  pass succeeded.

Definition reset_for_request_async (m : RequestStateResetMode) (committed_positions stream : Z)
    : World -> RequestOperationStatus * World :=
  body (reset_for_request_flow m committed_positions stream).

(** [reset_async]: the receipt is a local of the source. *)
Definition reset_async (stream : Z) : World -> RequestOperationStatus * World := fun w =>
  let '(status, w') := reset_for_request_async kConservativeFull 0 stream w in
  (status, {| object := object w'; receipt := receipt w; device := device w' |}).

(** ** Creation *)

(** [bf16_round_trip], on the bits of a [float]. *)
Definition bf16_round_trip (bits : Z) : Z :=
  let least_significant_retained_bit := Z.land (Z.shiftr bits 16) 1 in
  Z.land (u32 (bits + 0x7FFF + least_significant_retained_bit)) 0xFFFF0000.

(** The bytes of a 32-bit word in memory. *)
Definition word_bytes (word : Z) : list Z :=
  [u8 word; u8 (Z.shiftr word 8); u8 (Z.shiftr word 16); u8 (Z.shiftr word 24)].

(** The vector filled by the two loops; [value position pair] is the bits of
    the C library's cosine or sine of the angle. *)
Definition rope_table (value : Z -> Z -> Z) (max_sequence_length : Z) : list Z :=
  mjoin ((fun i => word_bytes (bf16_round_trip (value (Z.of_nat i / kRopePairs) (Z.of_nat i mod kRopePairs))))
         <$> seq 0 (Z.to_nat (max_sequence_length * kRopePairs))).

Record CreateResources := { resource_arena : Z; resource_stream : Z }.

Definition creation (R A : Type) : Type := flow (CreateResources * D) R A.

(** A call on the device alone. *)
Definition on_device {A} (f : D -> A * D) : CreateResources * D -> A * (CreateResources * D) :=
  fun '(resources, d) => let '(a, d') := f d in (a, (resources, d')).

Definition create_result : Type := RequestDiagnostic + RequestState.

Definition cuda_diagnostic (where_ : string) : create_result :=
  inl (make_diagnostic kCudaFailure where_).

Definition check_status (status : Z) (where_ : string) : creation create_result unit :=
  if negb (status =? cudaSuccess) then return_ (cuda_diagnostic where_) else pass tt.

(** [~CreateResources]. *)
Definition release (resources : CreateResources) (d : D) : D :=
  let d := if resource_stream resources =? 0 then d else
           let d := snd (cudaStreamSynchronize (resource_stream resources) d) in
           snd (cudaStreamDestroy (resource_stream resources) d) in
  if resource_arena resources =? 0 then d else cudaFree (resource_arena resources) d.

Variables cos_bits sin_bits : Z -> Z -> Z.

Definition create_flow (options : RequestMemoryOptions) (plan : RequestMemoryPlan)
    : creation create_result create_result :=
  if (u64_max <? arena_bytes plan) || (u64_max <? element_capacity (rope_cos_fp32 plan))
  then return_ (inl (make_diagnostic kArithmeticOverflow "plan")) else
  let cosines := rope_table cos_bits (plan_max_sequence_length plan) in
  let sines := rope_table sin_bits (plan_max_sequence_length plan) in
  '(status, free_bytes) <~ call (on_device (fun d => (cudaMemGetInfo d, d)));
  _ <~ check_status status "cudaMemGetInfo";
  if (free_bytes <? arena_bytes plan)
     || (free_bytes - arena_bytes plan <? min_free_bytes_after_create options)
  then return_ (inl (make_diagnostic kInsufficientDeviceMemory "cudaMemGetInfo")) else
  '(status, arena) <~ call (on_device (cudaMalloc (arena_bytes plan)));
  _ <~ modify (fun '(r, d) => ({| resource_arena := arena; resource_stream := resource_stream r |}, d));
  _ <~ check_status status "cudaMalloc(request arena)";
  '(status, stream) <~ call (on_device cudaStreamCreateWithFlags);
  _ <~ modify (fun '(r, d) => ({| resource_arena := resource_arena r; resource_stream := stream |}, d));
  _ <~ check_status status "cudaStreamCreateWithFlags";
  status <~ call (on_device (cudaMemsetAsync (arena + persistent_offset plan) 0 (persistent_bytes plan) stream));
  _ <~ check_status status "cudaMemsetAsync(persistent)";
  status <~ call (on_device (cudaMemcpyAsync (arena + arena_offset (rope_cos_fp32 plan))
                               (take (Z.to_nat (byte_size (rope_cos_fp32 plan))) cosines) stream));
  _ <~ check_status status "cudaMemcpyAsync(rope cos)";
  status <~ call (on_device (cudaMemcpyAsync (arena + arena_offset (rope_sin_fp32 plan))
                               (take (Z.to_nat (byte_size (rope_sin_fp32 plan))) sines) stream));
  _ <~ check_status status "cudaMemcpyAsync(rope sin)";
  status <~ call (on_device (cudaStreamSynchronize stream));
  _ <~ check_status status "cudaStreamSynchronize(create)";
  status <~ call (on_device (cudaStreamDestroy stream));
  _ <~ modify (fun '(r, d) => ({| resource_arena := resource_arena r; resource_stream := 0 |}, d));
  _ <~ check_status status "cudaStreamDestroy(create)";
  _ <~ modify (fun '(r, d) => ({| resource_arena := 0; resource_stream := resource_stream r |}, d));
  pass (inr {| arena_ := arena; plan_ := plan; sequence_length_ := 0;
               layer_major_common_ := None; mtp_gdn_offset_ := 0 |}).

Definition create_request_state (options : RequestMemoryOptions) (d : D) : create_result * D :=
  match build_request_memory_plan options with
  | inl diagnostic => (inl diagnostic, d)
  | inr plan =>
      let '(result, (resources, d)) :=
        body (create_flow options plan) ({| resource_arena := 0; resource_stream := 0 |}, d) in
      (result, release resources d)
  end.

(** [~RequestState]. *)
Definition release_state (state : RequestState) (d : D) : D :=
  if arena_ state =? 0 then d else cudaFree (arena_ state) d.
End Device.
Arguments World D : clear implicits.

(** ** What a reset does to memory *)

Section ResetMemory.
Context {D : Type} `{CudaLaws D}.

Implicit Types w : World D.













End ResetMemory.

Section Reset.
Context {D : Type} `{CudaLaws D}.





End Reset.

(** ** Creation *)

Section Create.
Context {D : Type} `{CudaLaws D} (cos_bits sin_bits : Z -> Z -> Z).

Lemma length_mjoin_words (f : nat -> Z) l : length (mjoin ((fun i => word_bytes (f i)) <$> l)) = (4 * length l)%nat.
Proof.
  induction l as [|i l IH]; [done|].
  change (length (word_bytes (f i) ++ mjoin ((fun i => word_bytes (f i)) <$> l)) = (4 * S (length l))%nat).
  rewrite length_app, IH. simpl. lia.
Qed.

Lemma length_rope_table value n : 0 <= n -> Z.of_nat (length (rope_table value n)) = 128 * n.
Proof.
  intros Hn. unfold rope_table.
  etrans; [apply f_equal, (length_mjoin_words
    (fun i => bf16_round_trip (value (Z.of_nat i / kRopePairs) (Z.of_nat i mod kRopePairs))))|].
  rewrite length_seq. unfold kRopePairs. lia.
Qed.

(** What [CreateResources] holds on top of what the device held before. *)
Definition owns (d0 : D) (w : CreateResources * D) : Prop :=
  let '(r, d) := w in
  allocations d = (if resource_arena r =? 0 then [] else [resource_arena r]) ++ allocations d0 /\
  streams d = (if resource_stream r =? 0 then [] else [resource_stream r]) ++ streams d0.

Lemma release_owned d0 r d :
  owns d0 (r, d) -> allocations (release r d) = allocations d0 /\ streams (release r d) = streams d0.
Proof.
  unfold owns. intros [Ha Hs]. unfold release. cbv zeta.
  set (d1 := if resource_stream r =? 0 then d else _).
  assert (Hd1 : allocations d1 = allocations d /\ streams d1 = streams d0).
  { unfold d1. revert Hs. destruct (resource_stream r =? 0); [done|]. intros Hs. simpl in Hs.
    destruct (cudaStreamSynchronize (resource_stream r) d) as [st d2] eqn:Hsync.
    apply synchronize_frame in Hsync as (_ & Ha2 & Hs2). cbn [snd].
    destruct (cudaStreamDestroy (resource_stream r) d2) as [st' d3] eqn:Hdestroy.
    rewrite Hs in Hs2. apply (destroy_frame _ _ _ _ _ Hs2) in Hdestroy as (_ & Ha3 & Hs3). cbn [snd].
    split; [congruence|done]. }
  clearbody d1. destruct Hd1 as [Ha1 Hs1]. rewrite Ha in Ha1.
  revert Ha1. destruct (resource_arena r =? 0); [done|]. intros Ha1. simpl in Ha1. destruct (free_effect _ _ _ Ha1) as [-> ->]. done.
Qed.

(** The memory of a created request. *)
Record initialized (plan : RequestMemoryPlan) (arena : Z) (d : D) : Prop := {
  init_zero : forall o, 0 <= o < persistent_bytes plan -> byte_of d (arena + o) = 0;
  init_cos : forall i, 0 <= i < byte_size (rope_cos_fp32 plan) ->
    byte_of d (arena + arena_offset (rope_cos_fp32 plan) + i) =
    at_ (rope_table cos_bits (plan_max_sequence_length plan)) i;
  init_sin : forall i, 0 <= i < byte_size (rope_sin_fp32 plan) ->
    byte_of d (arena + arena_offset (rope_sin_fp32 plan) + i) =
    at_ (rope_table sin_bits (plan_max_sequence_length plan)) i
}.

Definition created (options : RequestMemoryOptions) (plan : RequestMemoryPlan) (d0 : D) (result : create_result)
    (w : CreateResources * D) : Prop :=
  match result with
  | inl _ => owns d0 w
  | inr state =>
      let '(r, d) := w in
      r = {| resource_arena := 0; resource_stream := 0 |} /\
      allocations d = arena_ state :: allocations d0 /\ streams d = streams d0 /\
      arena_ state <> 0 /\ common_plan state = plan /\ sequence_length_ state = 0 /\ mtp_gdn_offset_ state = 0 /\
      arena_bytes plan + min_free_bytes_after_create options <= snd (cudaMemGetInfo d0) /\
      initialized plan (arena_ state) d
  end.

Lemma check_status_wp status where_ ret post (w : CreateResources * D) :
  (status <> cudaSuccess -> ret (cuda_diagnostic where_) w) -> (status = cudaSuccess -> post tt w) ->
  wp (check_status status where_) ret post w.
Proof.
  intros Hret Hpost. unfold check_status. destruct (Z.eqb_spec status cudaSuccess); simpl.
  - by apply wp_pass, Hpost.
  - by apply wp_return, Hret.
Qed.

(** A call on the device: the resources stay as they are. *)
Lemma on_device_wp {R A} (f : D -> A * D) (ret : R -> CreateResources * D -> Prop) post r d :
  (forall a d', f d = (a, d') -> post a (r, d')) -> wp (call (on_device f)) ret post (r, d).
Proof. intros Hpost. apply wp_call. intros a w'. cbn [on_device]. destruct (f d) eqn:E. intros [= <- <-]. auto. Qed.

(** The writes: each step of the initialization keeps what the earlier ones
    wrote. *)
Lemma create_writes l c arena stream d d1 d2 d3 st1 st2 st3 :
  0 < l -> 0 < c ->
  let plan := reference_plan l c in
  cudaMemsetAsync (arena + persistent_offset plan) 0 (persistent_bytes plan) stream d = (st1, d1) ->
  cudaMemcpyAsync (arena + arena_offset (rope_cos_fp32 plan))
    (take (Z.to_nat (byte_size (rope_cos_fp32 plan))) (rope_table cos_bits l)) stream d1 = (st2, d2) ->
  cudaMemcpyAsync (arena + arena_offset (rope_sin_fp32 plan))
    (take (Z.to_nat (byte_size (rope_sin_fp32 plan))) (rope_table sin_bits l)) stream d2 = (st3, d3) ->
  st1 = cudaSuccess -> st2 = cudaSuccess -> st3 = cudaSuccess -> initialized plan arena d3.
Proof.
  intros Hl Hc plan H1 H2 H3 -> -> ->.
  destruct (up_spec (128 * l)) as [Hu _]. destruct (up_spec (reference_scratch l)) as [Hu2 _].
  destruct (up_spec (96 * c)) as [Hu3 _].
  assert (Hp : 0 <= reference_persistent l <= reference_rope l c).
  { unfold reference_rope, reference_fp32, reference_persistent, reference_scratch, kRequestConvStateBytes,
      kRequestGdnStateBytes, kRequestKvBytesPerToken in *. lia. }
  unfold plan in *. cbn [reference_plan persistent_offset persistent_bytes rope_cos_fp32 rope_sin_fp32 arena_offset
    byte_size region_at plan_max_sequence_length] in *.
  rewrite firstn_all2 in H2 by (pose proof (length_rope_table cos_bits l); lia).
  rewrite firstn_all2 in H3 by (pose proof (length_rope_table sin_bits l); lia).
  pose proof (memset_success _ _ _ _ _ _ H1) as Hzero.
  pose proof (memcpy_success _ _ _ _ _ H2) as Hcos. pose proof (memcpy_success _ _ _ _ _ H3) as Hsin.
  apply memcpy_frame in H2 as [Hf2 _], H3 as [Hf3 _]. rewrite length_rope_table in * by lia.
  constructor; cbn [reference_plan persistent_offset persistent_bytes rope_cos_fp32 rope_sin_fp32 arena_offset
    byte_size region_at plan_max_sequence_length].
  - intros o Ho. rewrite Hf3, Hf2 by lia. apply Hzero. lia.
  - intros i Hi. rewrite Hf3 by lia. apply Hcos. lia.
  - intros i Hi. apply Hsin. lia.
Qed.

Lemma create_wp options l c d0 :
  0 < l <= 262144 -> 0 < c <= 512 ->
  wp (create_flow cos_bits sin_bits options (reference_plan l c))
    (created options (reference_plan l c) d0) (created options (reference_plan l c) d0)
    ({| resource_arena := 0; resource_stream := 0 |}, d0).
Proof.
  intros Hl Hc. unfold create_flow. set (plan := reference_plan l c).
  destruct (_ || _); [by apply wp_return|]. cbv zeta.
  wp_step. apply on_device_wp. intros [st0 free] d' [= Hinfo <-]. wp_step.
  apply check_status_wp; [done|]. intros Hst0.
  destruct (_ || _) eqn:Hfree; [by apply wp_return|]. bools.
  wp_step. apply on_device_wp. intros [st1 arena] d1 Hmalloc. wp_step. wp_step. wp_step.
  apply check_status_wp.
  { intros Hst. destruct (malloc_failure _ _ _ _ _ Hmalloc Hst) as (-> & Ha & Hs). by split. }
  intros ->. destruct (malloc_success _ _ _ _ Hmalloc) as (Harena & Ha1 & Hs1).
  wp_step. apply on_device_wp. intros [st2 stream] d2 Hstream. wp_step. wp_step. wp_step.
  cbn [resource_arena resource_stream].
  assert (Harena' : (arena =? 0) = false) by by apply Z.eqb_neq.
  apply check_status_wp.
  { intros Hst. destruct (stream_failure _ _ _ _ Hstream Hst) as (-> & Hs2 & Ha2).
    split; cbn [resource_arena resource_stream]; [by rewrite Harena', Ha2|by rewrite Hs2]. }
  intros ->. destruct (stream_success _ _ _ Hstream) as (Hstr & Hs2 & Ha2).
  assert (Hstr' : (stream =? 0) = false) by by apply Z.eqb_neq.
  rewrite Ha1 in Ha2. rewrite Hs1 in Hs2.
  assert (Hown : forall d', allocations d' = allocations d2 -> streams d' = streams d2 ->
    owns d0 ({| resource_arena := arena; resource_stream := stream |}, d')).
  { intros d' Ha Hs. unfold owns. cbn [resource_arena resource_stream]. rewrite Harena', Hstr', Ha, Hs. done. }
  wp_step. apply on_device_wp. intros st3 d3 H3. pose proof (memset_frame _ _ _ _ _ _ _ H3) as (_ & Ha3 & Hs3).
  wp_step. apply check_status_wp; [intros _; by apply Hown|]. intros Hst3.
  wp_step. apply on_device_wp. intros st4 d4 H4. pose proof (memcpy_frame _ _ _ _ _ _ H4) as (_ & Ha4 & Hs4).
  wp_step. apply check_status_wp; [intros _; apply Hown; congruence|]. intros Hst4.
  wp_step. apply on_device_wp. intros st5 d5 H5. pose proof (memcpy_frame _ _ _ _ _ _ H5) as (_ & Ha5 & Hs5).
  wp_step. apply check_status_wp; [intros _; apply Hown; congruence|]. intros Hst5.
  pose proof (create_writes l c arena stream d2 d3 d4 d5 st3 st4 st5 (proj1 Hl) (proj1 Hc) H3 H4 H5 Hst3 Hst4 Hst5)
    as Hinit.
  wp_step. apply on_device_wp. intros st6 d6 H6. apply synchronize_frame in H6 as (Hm6 & Ha6 & Hs6).
  wp_step. apply check_status_wp; [intros _; apply Hown; congruence|]. intros _.
  wp_step. apply on_device_wp. intros st7 d7 H7.
  assert (Hs7 : streams d6 = stream :: streams d0) by congruence.
  apply (destroy_frame _ _ _ _ _ Hs7) in H7 as (Hm7 & Ha7 & Hs7').
  wp_step. wp_step. wp_step. apply check_status_wp.
  { intros _. split; cbn [resource_arena resource_stream]; [rewrite Harena'; simpl; congruence|done]. }
  intros _. wp_step. wp_step. apply wp_pass. cbn [created arena_ sequence_length_ mtp_gdn_offset_ resource_stream].
  split_and!; try done; try congruence.
  - rewrite Hinfo. cbn [snd]. fold plan. lia.
  - destruct Hinit as [Hz Hcos Hsin]. constructor; by rewrite Hm7, Hm6.
Qed.

(** C30. Creating a request is all or nothing.  On any device that behaves as
    documented, whatever its calls answer: a failure leaves exactly the
    allocations and streams there were; a success leaves one more allocation,
    owned by the new state, no stream, at least the requested bytes free, the
    state at length zero with the plan of its options, every persistent byte
    zero and both RoPE tables in place. *)
Theorem create_all_or_nothing options d result d' :
  is_u64 (max_sequence_length options) -> is_u32 (prefill_chunk_size options) ->
  create_request_state cos_bits sin_bits options d = (result, d') ->
  streams d' = streams d /\
  match result with
  | inl _ => allocations d' = allocations d
  | inr state =>
      allocations d' = arena_ state :: allocations d /\ arena_ state <> 0 /\
      build_request_memory_plan options = inr (common_plan state) /\ sequence_length_ state = 0 /\
      arena_bytes (common_plan state) + min_free_bytes_after_create options <= snd (cudaMemGetInfo d) /\
      initialized (common_plan state) (arena_ state) d'
  end.
Proof.
  intros [Hlo _] [Hco _] Hrun. unfold create_request_state in Hrun.
  destruct (build_request_memory_plan options) as [diagnostic|plan] eqn:Hb; [by injection Hrun as <- <-|].
  pose proof (build_inv _ _ Hlo Hco Hb) as (l & c & Hl & Hc & _ & _ & -> & _).
  destruct (body _ _) as [r [res dd]] eqn:Hbody. injection Hrun as <- <-.
  pose proof (wp_body _ _ _ _ _ (create_wp options l c d Hl Hc) Hbody) as Hpost. destruct r as [diag|state].
  - apply release_owned in Hpost as [? ?]. done.
  - cbn [created] in Hpost. destruct Hpost as (-> & Ha & Hs & Hne & Hplan & Hlen & _ & Hfree & Hinit).
    rewrite Hplan. unfold release. cbn. done.
Qed.
End Create.

(** ** Views *)

Inductive tensor :=
  | ConvOf (layer : Z) | GdnOf (layer : Z)
  | KeyAt (layer position : Z) | ValueAt (layer position : Z)
  | HiddenOf (index : Z) | ProjectionOf (index : Z) | LinearA | LinearB | Scratch
  | RopeCosAt (position : Z) | RopeSinAt (position : Z).

Definition tensor_view (t : tensor) (state : RequestState) : view_result :=
  match t with
  | ConvOf layer => conv_state_view layer state
  | GdnOf layer => gdn_state_view layer state
  | KeyAt layer position => key_position layer position state
  | ValueAt layer position => value_position layer position state
  | HiddenOf index => hidden_buffer index state
  | ProjectionOf index => projection_buffer index state
  | LinearA => linear_a_buffer state
  | LinearB => linear_b_buffer state
  | Scratch => fp32_scratch_view state
  | RopeCosAt position => rope_cos position state
  | RopeSinAt position => rope_sin position state
  end.

(** The arguments are of unsigned types. *)
Definition unsigned_arguments (t : tensor) : Prop :=
  match t with
  | ConvOf n | GdnOf n | HiddenOf n | ProjectionOf n | RopeCosAt n | RopeSinAt n => 0 <= n
  | KeyAt n p | ValueAt n p => 0 <= n /\ 0 <= p
  | LinearA | LinearB | Scratch => True
  end.

Definition view_end (v : DeviceBufferView) : Z := view_arena_offset v + view_byte_size v.

Section Places.
Variables l c : Z.
Hypothesis Hl : 0 < l <= 262144.
Hypothesis Hc : 0 < c <= 512.

(** The arena in ten consecutive groups of equal units. *)
Definition group_start (g : nat) : Z :=
  let p := reference_persistent l in
  match g with
  | 0%nat => 0 | 1%nat => kRequestConvStateBytes | 2%nat => kRequestConvStateBytes + kRequestGdnStateBytes
  | 3%nat => p | 4%nat => p + 30720 * c | 5%nat => p + 169984 * c | 6%nat => p + 169984 * c + up (96 * c)
  | 7%nat => reference_fp32 l c | 8%nat => reference_rope l c | 9%nat => reference_rope l c + up (128 * l)
  | _ => reference_arena l c
  end.
Definition group_unit (g : nat) : Z :=
  match g with
  | 0%nat => 61440 | 1%nat => 1572864 | 2%nat => 2048 | 3%nat => 10240 * c | 4%nat => 34816 * c
  | 5%nat | 6%nat => 96 * c | 7%nat => reference_scratch l | _ => 128
  end.

Definition place (t : tensor) : nat * Z :=
  match t with
  | ConvOf layer => (0%nat, layer - layer / 4)
  | GdnOf layer => (1%nat, layer - layer / 4)
  | KeyAt layer position => (2%nat, l * (2 * (layer / 4)) + position)
  | ValueAt layer position => (2%nat, l * (2 * (layer / 4) + 1) + position)
  | HiddenOf index => (3%nat, index)
  | ProjectionOf index => (4%nat, index)
  | LinearA => (5%nat, 0)
  | LinearB => (6%nat, 0)
  | Scratch => (7%nat, 0)
  | RopeCosAt position => (8%nat, position)
  | RopeSinAt position => (9%nat, position)
  end.

(** The tensors a request of [l] positions has. *)
Definition exists_tensor (t : tensor) : Prop :=
  match t with
  | ConvOf n | GdnOf n => 0 <= n < 64 /\ n mod 4 <> 3
  | KeyAt n p | ValueAt n p => 0 <= n < 64 /\ n mod 4 = 3 /\ 0 <= p < l
  | HiddenOf n => 0 <= n < 3
  | ProjectionOf n => 0 <= n < 4
  | RopeCosAt p | RopeSinAt p => 0 <= p < l
  | LinearA | LinearB | Scratch => True
  end.

Lemma place_injective t1 t2 :
  exists_tensor t1 -> exists_tensor t2 -> place t1 = place t2 -> t1 = t2.
Proof.
  assert (Hrow : forall a p a' p', 0 <= p < l -> 0 <= p' < l -> l * a + p = l * a' + p' -> a = a' /\ p = p').
  { intros a p a' p' Hp Hp' Heq. by apply (Z.div_mod_unique l); [left|left|]. }
  destruct t1, t2; simpl; intros H1 H2 Heq; try done; injection Heq as Heq; try congruence.
  - pose proof (Z.div_mod layer 4). pose proof (Z.div_mod layer0 4).
    pose proof (Z.mod_pos_bound layer 4). pose proof (Z.mod_pos_bound layer0 4). f_equal. lia.
  - pose proof (Z.div_mod layer 4). pose proof (Z.div_mod layer0 4).
    pose proof (Z.mod_pos_bound layer 4). pose proof (Z.mod_pos_bound layer0 4). f_equal. lia.
  - apply Hrow in Heq as [Ha ->]; [|lia..]. pose proof (Z.div_mod layer 4). pose proof (Z.div_mod layer0 4).
    f_equal. lia.
  - apply Hrow in Heq as [Ha _]; [|lia..]. lia.
  - apply Hrow in Heq as [Ha _]; [|lia..]. lia.
  - apply Hrow in Heq as [Ha ->]; [|lia..]. pose proof (Z.div_mod layer 4). pose proof (Z.div_mod layer0 4).
    f_equal. lia.
Qed.

Lemma group_start_mono g : group_start g <= group_start (S g).
Proof.
  destruct (up_spec (96 * c)) as [? _]. destruct (up_spec (128 * l)) as [? _].
  destruct (up_spec (reference_scratch l)) as [? _].
  do 11 (destruct g as [|g]; [cbn [group_start]; unfold reference_arena, reference_rope, reference_fp32,
    reference_persistent, reference_scratch, kRequestConvStateBytes, kRequestGdnStateBytes,
    kRequestKvBytesPerToken in *; lia|]).
  simpl. lia.
Qed.

Lemma group_start_le g h : (g <= h)%nat -> group_start g <= group_start h.
Proof. induction 1; [done|]. pose proof (group_start_mono m). lia. Qed.

(** A tensor's unit lies within its group. *)
Lemma place_inside t :
  exists_tensor t -> let '(g, i) := place t in
  (g <= 9)%nat /\ 0 <= i /\ 0 < group_unit g /\ group_start g + group_unit g * (i + 1) <= group_start (S g).
Proof.
  destruct (up_spec (96 * c)) as [? _]. destruct (up_spec (128 * l)) as [? _].
  destruct (up_spec (reference_scratch l)) as [? _].
  unfold exists_tensor. destruct t as [layer|layer|layer p|layer p|i|i| | | |p|p]; cbn [place];
    intros He; (split; [lia|]); try pose proof (Z.div_mod layer 4); try pose proof (Z.mod_pos_bound layer 4);
    cbn [group_start group_unit];
    unfold reference_arena, reference_rope, reference_fp32, reference_persistent, reference_scratch,
      kRequestConvStateBytes, kRequestGdnStateBytes, kRequestKvBytesPerToken in *; split_and!; try lia; try nia.
Qed.

Lemma places_disjoint t1 t2 :
  exists_tensor t1 -> exists_tensor t2 -> t1 <> t2 ->
  let '(g1, i1) := place t1 in let '(g2, i2) := place t2 in
  group_start g1 + group_unit g1 * (i1 + 1) <= group_start g2 + group_unit g2 * i2 \/
  group_start g2 + group_unit g2 * (i2 + 1) <= group_start g1 + group_unit g1 * i1.
Proof.
  intros H1 H2 Hne. pose proof (place_inside t1 H1) as P1. pose proof (place_inside t2 H2) as P2.
  pose proof (place_injective t1 t2 H1 H2) as Hinj.
  destruct (place t1) as [g1 i1], (place t2) as [g2 i2].
  destruct P1 as (_ & Hi1 & Hu1 & Hin1), P2 as (_ & Hi2 & Hu2 & Hin2).
  destruct (Nat.lt_trichotomy g1 g2) as [Hg|[->|Hg]].
  - left. pose proof (group_start_le (S g1) g2 ltac:(lia)). nia.
  - destruct (Z.lt_trichotomy i1 i2) as [Hi|[->|Hi]].
    + left. nia.
    + by destruct Hne; apply Hinj.
    + right. nia.
  - right. pose proof (group_start_le (S g2) g1 ltac:(lia)). nia.
Qed.
End Places.

Section ViewsOfPlan.
Variables (l c : Z) (state : RequestState).
Hypothesis Hl : 0 < l <= 262144.
Hypothesis Hc : 0 < c <= 512.
Hypothesis Hplan : plan_ state = reference_plan l c.
Hypothesis Hlegacy : layer_major_common_ state = None.
Hypothesis Harena : arena_ state <> 0.
Hypothesis Howner : mtp_gdn_offset_ state = 0.

Definition view_at (offset elements size : Z) : DeviceBufferView := {|
  device_data := arena_ state + offset; view_arena_offset := offset; view_byte_size := elements * size;
  view_element_capacity := elements; view_element_size_bytes := size |}.

Lemma view_region_at o e s : 0 < e -> 0 < s -> view state (region_at o e s) = view_at o e s.
Proof.
  intros He Hs. unfold view, empty_region. cbn [byte_size element_capacity region_at].
  rewrite (proj2 (Z.eqb_neq e 0)) by lia. by rewrite !andb_false_r, andb_false_l.
Qed.

Lemma subregion_region_at o e s rel e' s' :
  0 <= o + rel < 2 ^ 64 -> 0 <= e' * s' < 2 ^ 64 -> subregion (region_at o e s) rel e' s' = region_at (o + rel) e' s'.
Proof. intros. unfold subregion, region_at. cbn [arena_offset]. by rewrite !u64_small. Qed.

Lemma common_plan_legacy : common_plan state = reference_plan l c.
Proof. unfold common_plan. by rewrite Hlegacy. Qed.

Lemma max_length_legacy : max_length state = l.
Proof. unfold max_length. by rewrite common_plan_legacy. Qed.

Lemma arena_present : (arena_ state =? 0) = false.
Proof. by apply Z.eqb_neq. Qed.

(** [r] is a view exactly when [ok], and then this one. *)
Definition view_exactly (ok : Prop) (offset bytes : Z) (r : view_result) : Prop :=
  match r with
  | inr v => ok /\ device_data v = arena_ state + offset /\ view_arena_offset v = offset /\
             view_byte_size v = bytes /\ bytes = view_element_capacity v * view_element_size_bytes v
  | inl _ => ~ ok
  end.

Lemma exactly_view_at (ok : Prop) o e s offset bytes :
  ok -> 0 < e -> 0 < s -> o = offset -> e * s = bytes -> view_exactly ok offset bytes (inr (view state (region_at o e s))).
Proof. intros ? ? ? <- <-. rewrite view_region_at by done. done. Qed.

(** The layer argument of an accessor. *)
Lemma layer_argument layer kind :
  0 <= layer -> (kind = kLinearAttention \/ kind = kFullAttention) ->
  match map_request_layer layer kind with
  | inr s => layer < 64 /\ (kind = kFullAttention <-> layer mod 4 = 3) /\
             slot s = (if layer mod 4 =? 3 then layer / 4 else layer - layer / 4) /\
             0 <= slot s < (if layer mod 4 =? 3 then 16 else 48)
  | inl _ => ~ (layer < 64 /\ (kind = kFullAttention <-> layer mod 4 = 3))
  end.
Proof.
  intros Hlayer Hkind. pose proof (Z.div_mod layer 4). pose proof (Z.mod_pos_bound layer 4).
  destruct (map_request_layer layer kind) as [e|s] eqn:Hmap.
  - intros [Hlt Hiff]. set (s := {| type := kind;
      slot := if layer mod 4 =? 3 then layer / 4 else layer - layer / 4 |}).
    assert (map_request_layer layer kind = inr s); [|congruence].
    apply map_request_layer_spec; [done|]. unfold s. cbn [type slot]. split; [done|].
    unfold kRequestFullLayerCount, kRequestLinearLayerCount.
    pose proof (Z.div_mod (layer - layer / 4) 3). pose proof (Z.mod_pos_bound (layer - layer / 4) 3).
    destruct (Z.eqb_spec (layer mod 4) 3) as [He|He]; destruct Hkind as [->| ->].
    + discriminate (proj2 Hiff He).
    + left. split_and!; [done|lia..].
    + right. split_and!; [done|lia..].
    + by destruct He; apply Hiff.
  - apply map_request_layer_spec in Hmap as [Ht [(-> & Hs & ->)|(-> & Hs & ->)]]; [| |done];
      unfold kRequestFullLayerCount, kRequestLinearLayerCount in Hs.
    + assert (Hm : (4 * slot s + 3) mod 4 = 3) by (rewrite Z.add_comm, Z.mul_comm, Z.mod_add by lia; done).
      rewrite Hm. simpl. pose proof (Z.div_mod (4 * slot s + 3) 4). split_and!; try done; lia.
    + pose proof (Z.div_mod (slot s) 3). pose proof (Z.mod_pos_bound (slot s) 3).
      destruct (Z.eqb_spec ((slot s + slot s / 3) mod 4) 3) as [He|He]; [lia|].
      split_and!; try lia. by split.
Qed.

Lemma located_conv layer :
  0 <= layer ->
  view_exactly (0 <= layer < 64 /\ layer mod 4 <> 3) (61440 * (layer - layer / 4)) 61440
    (conv_state_view layer state).
Proof.
  intros Hlayer. unfold conv_state_view. rewrite arena_present.
  pose proof (layer_argument layer kLinearAttention Hlayer (or_introl eq_refl)) as Hmap.
  destruct (map_request_layer layer kLinearAttention) as [e|s].
  { intros [? ?]. apply Hmap. split; [lia|]. by split. }
  destruct Hmap as (Hlt & Hkind & Hslot & Hs).
  destruct (Z.eqb_spec (layer mod 4) 3) as [He|He]; [by apply Hkind in He|].
  rewrite common_plan_legacy. cbn [reference_plan conv_state].
  change conv_layer_elements with 30720. unfold kBf16Bytes.
  rewrite u64_small, subregion_region_at by (unfold is_u64; lia). rewrite Hslot in *.
  apply exactly_view_at; [done|lia..].
Qed.

Lemma located_gdn layer :
  0 <= layer ->
  view_exactly (0 <= layer < 64 /\ layer mod 4 <> 3)
    (kRequestConvStateBytes + 1572864 * (layer - layer / 4)) 1572864 (gdn_state_view layer state).
Proof.
  intros Hlayer. unfold gdn_state_view. rewrite arena_present.
  pose proof (layer_argument layer kLinearAttention Hlayer (or_introl eq_refl)) as Hmap.
  destruct (map_request_layer layer kLinearAttention) as [e|s].
  { intros [? ?]. apply Hmap. split; [lia|]. by split. }
  destruct Hmap as (Hlt & Hkind & Hslot & Hs).
  destruct (Z.eqb_spec (layer mod 4) 3) as [He|He]; [by apply Hkind in He|].
  rewrite common_plan_legacy, Howner. cbn [reference_plan gdn_state Z.eqb]. cbv zeta iota.
  change gdn_layer_elements with 786432. unfold kBf16Bytes, kRequestConvStateBytes.
  rewrite u64_small, subregion_region_at by (unfold is_u64; lia). rewrite Hslot in *.
  apply exactly_view_at; [done|lia..].
Qed.

(** A row of a key ([half = 0]) or value ([half = 1]) cache. *)
Lemma located_position cache half layer p :
  0 <= layer -> 0 <= p -> 0 <= half <= 1 ->
  (forall s, 0 <= s < 16 -> cache (reference_plan l c) !! Z.to_nat s =
     Some (region_at (kRequestConvStateBytes + kRequestGdnStateBytes + 2048 * (l * (2 * s + half))) (1024 * l) 2)) ->
  view_exactly (0 <= layer < 64 /\ layer mod 4 = 3 /\ 0 <= p < l)
    (kRequestConvStateBytes + kRequestGdnStateBytes + 2048 * (l * (2 * (layer / 4) + half) + p)) 2048
    (position_view (cache_view cache) layer p state).
Proof.
  intros Hlayer Hp Hhalf Hcache. unfold position_view, cache_view. rewrite arena_present.
  pose proof (layer_argument layer kFullAttention Hlayer (or_intror eq_refl)) as Hmap.
  destruct (map_request_layer layer kFullAttention) as [e|s].
  { intros (? & ? & ?). apply Hmap. split; [lia|]. by split. }
  destruct Hmap as (Hlt & Hkind & Hslot & Hs).
  destruct (Z.eqb_spec (layer mod 4) 3) as [He|He]; [|by destruct He; apply Hkind].
  rewrite common_plan_legacy, Hcache by done. rewrite view_region_at by lia. rewrite max_length_legacy.
  destruct (Z.leb_spec l p) as [Hlp|Hlp]; [intros (_ & _ & ?); lia|].
  cbn [view_arena_offset view_at]. change elements_per_position with 1024. change kBf16Bytes with 2.
  rewrite Hslot in *. unfold kRequestConvStateBytes, kRequestGdnStateBytes in *.
  assert (0 <= l * (2 * (layer / 4) + half) <= 262144 * 32) by nia.
  rewrite (u64_small (p * 1024 * 2)), u64_small by (unfold is_u64; lia).
  apply (exactly_view_at _ _ 1024 2); [done|lia..].
Qed.

Lemma located_legacy (ok : Prop) region offset e s :
  0 < e -> 0 < s -> (ok -> region (reference_plan l c) = Some (region_at offset e s)) ->
  (~ ok -> region (reference_plan l c) = None) -> (ok \/ ~ ok) ->
  view_exactly ok offset (e * s) (legacy_view region state).
Proof.
  intros He Hs Hyes Hno Hdec. unfold legacy_view. rewrite arena_present.
  unfold memory_profile. rewrite common_plan_legacy. cbn [reference_plan profile].
  unfold validate_request_memory_profile. rewrite !bool_decide_true by done. cbn [negb]. rewrite Hplan.
  destruct Hdec as [Hok|Hok]; [rewrite Hyes by done|by rewrite Hno].
  by apply exactly_view_at.
Qed.

Lemma located_buffers (f : RequestMemoryPlan -> list RequestRegion) n base e index :
  0 <= index -> 0 < e -> f (reference_plan l c) = row base e 2 <$> seq 0 n ->
  view_exactly (0 <= index < Z.of_nat n) (base + e * 2 * index) (e * 2)
    (legacy_view (fun plan => f plan !! Z.to_nat index) state).
Proof.
  intros Hi He Hf. apply located_legacy; [done|done| | |lia].
  - intros [_ Hlt]. rewrite Hf, list_lookup_fmap, lookup_seq_lt by lia. simpl. unfold row. do 2 f_equal. lia.
  - intros Hge. rewrite Hf. apply lookup_ge_None_2. rewrite length_fmap, length_seq. lia.
Qed.

Lemma located_rope table base p :
  0 <= p -> 0 <= base <= 2 ^ 40 -> table (reference_plan l c) = region_at base (32 * l) 4 ->
  view_exactly (0 <= p < l) (base + 128 * p) 128 (rope_view table p state).
Proof.
  intros Hp Hb Ht. unfold rope_view. rewrite arena_present, max_length_legacy, common_plan_legacy, Ht.
  destruct (Z.leb_spec l p); [simpl; lia|]. change kRopePairs with 32. change kFp32Bytes with 4.
  rewrite u64_small, subregion_region_at by (unfold is_u64; lia). apply exactly_view_at; [done|lia..].
Qed.

Lemma tensor_located t :
  unsigned_arguments t ->
  let '(g, i) := place l t in
  view_exactly (exists_tensor l t) (group_start l c g + group_unit l c g * i) (group_unit l c g) (tensor_view t state).
Proof.
  assert (Hcaches : forall s, 0 <= s < 16 -> (Z.to_nat s < 16)%nat /\ Z.of_nat (Z.to_nat s) = s) by lia.
  destruct (up_spec (128 * l)) as [? _]. destruct (up_spec (reference_scratch l)) as [? _].
  destruct (up_spec (96 * c)) as [? _].
  assert (Hr : 0 <= reference_rope l c <= 2 ^ 39).
  { unfold reference_rope, reference_fp32, reference_persistent, reference_scratch, kRequestConvStateBytes,
      kRequestGdnStateBytes, kRequestKvBytesPerToken in *. lia. }
  destruct t as [layer|layer|layer p|layer p|i|i| | | |p|p];
    cbn [unsigned_arguments place tensor_view exists_tensor group_start group_unit]; intros Ht.
  - by apply located_conv.
  - by apply located_gdn.
  - rewrite <- (Z.add_0_r (2 * (layer / 4))). apply located_position; [lia..|]. intros s Hs.
    apply Hcaches in Hs as [Hlt Heq]. cbn [reference_plan key_cache].
    rewrite list_lookup_fmap, lookup_seq_lt by done. simpl. rewrite Heq. do 2 f_equal. lia.
  - apply located_position; [lia..|]. intros s Hs.
    apply Hcaches in Hs as [Hlt Heq]. cbn [reference_plan value_cache].
    rewrite list_lookup_fmap, lookup_seq_lt by done. simpl. rewrite Heq. do 2 f_equal. lia.
  - replace (10240 * c) with (5120 * c * 2) by lia. apply (located_buffers _ 3); [done|lia|done].
  - replace (34816 * c) with (17408 * c * 2) by lia. apply (located_buffers _ 4); [done|lia|done].
  - rewrite Z.mul_0_r, Z.add_0_r. replace (96 * c) with (48 * c * 2) by lia.
    apply located_legacy; [lia|lia|done|done|by left].
  - rewrite Z.mul_0_r, Z.add_0_r. replace (group_unit l c 6) with (48 * c * 2) by (simpl; lia).
    replace (96 * c) with (48 * c * 2) at 2 by lia.
    apply located_legacy; [lia|lia|done|done|by left].
  - rewrite Z.mul_0_r, Z.add_0_r. unfold reference_scratch at 1.
    apply located_legacy; [lia|lia|done|done|by left].
  - apply located_rope; [done|lia|done].
  - apply located_rope; [done|lia|done].
Qed.
End ViewsOfPlan.

(** ** Rounding *)

Lemma land_high_half z : 0 <= z < 2 ^ 32 -> Z.land z 0xFFFF0000 = z / 65536 * 65536.
Proof.
  intros Hz. replace (z / 65536 * 65536) with (Z.shiftl (Z.shiftr z 16) 16)
    by by rewrite Z.shiftl_mul_pow2, Z.shiftr_div_pow2 by lia.
  change 0xFFFF0000 with (Z.shiftl (Z.ones 16) 16).
  apply Z.bits_inj'. intros n Hn. rewrite Z.land_spec, !Z.shiftl_spec by lia.
  destruct (Z.lt_ge_cases n 16); [by rewrite !(Z.testbit_neg_r _ (n - 16)), andb_false_r by lia|].
  rewrite Z.shiftr_spec by lia. replace (n - 16 + 16) with n by lia.
  destruct (Z.lt_ge_cases n 32); [rewrite Z.ones_spec_low by lia; by rewrite andb_true_r|].
  rewrite Z.ones_spec_high by lia. rewrite andb_false_r. destruct (Z.eq_dec z 0) as [->|]; [by rewrite Z.bits_0|].
  symmetry. apply Z.bits_above_log2; [lia|]. apply Z.log2_lt_pow2; [lia|].
  pose proof (Z.pow_le_mono_r 2 32 n). lia.
Qed.

Lemma bf16_spec bits :
  0 <= bits -> bits + 0x8000 < 2 ^ 32 ->
  bf16_round_trip bits = (bits + 0x7FFF + (bits / 65536) mod 2) / 65536 * 65536.
Proof.
  intros Hlo Hhi. unfold bf16_round_trip.
  change 1 with (Z.ones 1). rewrite Z.land_ones, Z.shiftr_div_pow2 by lia.
  change (2 ^ 16) with 65536. change (2 ^ 1) with 2.
  pose proof (Z.mod_pos_bound (bits / 65536) 2). rewrite u32_small by (unfold is_u32; lia).
  apply land_high_half. lia.
Qed.

(** The RoPE tables are rounded to BF16 to nearest, ties to even: the
    result keeps only the upper half of the bits, is within half a unit of the
    last place of its argument, is even on a tie and is fixed by rounding
    again. *)
Theorem bf16_round_to_nearest_even bits :
  0 <= bits -> bits + 0x8000 < 2 ^ 32 ->
  let r := bf16_round_trip bits in
  r mod 65536 = 0 /\ Z.abs (r - bits) <= 32768 /\
  (Z.abs (r - bits) = 32768 -> (r / 65536) mod 2 = 0) /\
  (r + 0x8000 < 2 ^ 32 -> bf16_round_trip r = r).
Proof.
  intros Hlo Hhi r. unfold r. rewrite bf16_spec by done.
  pose proof (Z.div_mod bits 65536). pose proof (Z.mod_pos_bound bits 65536).
  pose proof (Z.div_mod (bits / 65536) 2). pose proof (Z.mod_pos_bound (bits / 65536) 2).
  set (s := bits + 0x7FFF + (bits / 65536) mod 2) in *.
  pose proof (Z.div_mod s 65536). pose proof (Z.mod_pos_bound s 65536).
  split_and!.
  - by apply Z.mod_mul.
  - lia.
  - intros Htie. rewrite Z.div_mul by lia. pose proof (Z.div_mod (s / 65536) 2).
    pose proof (Z.mod_pos_bound (s / 65536) 2). lia.
  - intros Hfit. rewrite bf16_spec by lia. rewrite !Z.div_mul by lia.
    pose proof (Z.mod_pos_bound (s / 65536) 2).
    f_equal. symmetry. apply (Z.div_unique _ _ _ (0x7FFF + (s / 65536) mod 2)); lia.
Qed.

(** A tie, 0x3F808000: the even neighbour is 0x3F800000. *)
Lemma bf16_round_to_nearest_even_witness :
  bf16_round_trip 0x3F808000 = 0x3F800000 /\ bf16_round_trip 0x3F818000 = 0x3F820000 /\
  (bf16_round_trip 0x3F808000 / 65536) mod 2 = 0.
Proof.
  split_and!; [reflexivity|reflexivity|].
  apply bf16_round_to_nearest_even; [vm_compute; discriminate|vm_compute; reflexivity|reflexivity].
Defined.

(** ** Views and sequence length *)

Record legacy_request (options : RequestMemoryOptions) (state : RequestState) : Prop := {
  lr_length : is_u64 (max_sequence_length options);
  lr_chunk : is_u32 (prefill_chunk_size options);
  lr_plan : build_request_memory_plan options = inr (plan_ state);
  lr_legacy : layer_major_common_ state = None;
  lr_arena : arena_ state <> 0;
  lr_owner : mtp_gdn_offset_ state = 0
}.

(** The views of a request are sound.  On a state created with a legacy
    plan, an accessor answers exactly for the layers, positions and buffers
    that exist; a view lies inside the arena, points at its offset and has the
    bytes of its elements; and the views of two different tensors — states of
    different layers, rows of different positions, keys and values, workspace
    buffers, RoPE rows — share no byte. *)
Theorem views_sound options state t1 t2 v1 v2 :
  legacy_request options state -> unsigned_arguments t1 -> unsigned_arguments t2 ->
  (exists_tensor (max_length state) t1 <-> exists v, tensor_view t1 state = inr v) /\
  (tensor_view t1 state = inr v1 ->
     0 <= view_arena_offset v1 /\ view_end v1 <= arena_bytes (plan_ state) /\ 0 < view_byte_size v1 /\
     view_byte_size v1 = view_element_capacity v1 * view_element_size_bytes v1 /\
     device_data v1 = arena_ state + view_arena_offset v1) /\
  (tensor_view t1 state = inr v1 -> tensor_view t2 state = inr v2 -> t1 <> t2 ->
     view_end v1 <= view_arena_offset v2 \/ view_end v2 <= view_arena_offset v1).
Proof.
  intros [[Hlo _] [Hco _] Hb Hleg Ha Hown] Hu1 Hu2.
  apply build_inv in Hb as (l & c & Hl & Hc & _ & _ & Hplan & _); [|done..].
  rewrite (max_length_legacy l c) by done.
  pose proof (tensor_located l c state Hl Hc Hplan Hleg Ha Hown t1 Hu1) as L1.
  pose proof (tensor_located l c state Hl Hc Hplan Hleg Ha Hown t2 Hu2) as L2.
  pose proof (places_disjoint l c Hl Hc t1 t2) as Hdisj.
  pose proof (place_inside l c Hl Hc t1) as Hin.
  destruct (place l t1) as [g1 i1], (place l t2) as [g2 i2]. unfold view_exactly in L1, L2.
  split_and!.
  - destruct (tensor_view t1 state) as [e|v]; split; [done|by intros [??]|by eexists|by intros _; apply L1].
  - intros Hv1. rewrite Hv1 in L1. destruct L1 as (He & Hd & Ho & Hs & Hb).
    destruct (Hin He) as (Hg & Hi & Hu & Hend). unfold view_end. rewrite Hd, Ho, Hs, Hplan.
    change (arena_bytes (reference_plan l c)) with (group_start l c 10).
    pose proof (group_start_le l c Hl Hc 0 g1 ltac:(lia)) as H0. change (group_start l c 0) with 0 in H0.
    pose proof (group_start_le l c Hl Hc (S g1) 10 ltac:(lia)). split_and!; try done; nia.
  - intros Hv1 Hv2 Hne. rewrite Hv1 in L1. rewrite Hv2 in L2.
    destruct L1 as (He1 & _ & Ho1 & Hs1 & _), L2 as (He2 & _ & Ho2 & Hs2 & _).
    unfold view_end. rewrite Ho1, Ho2, Hs1, Hs2. specialize (Hdisj He1 He2 Hne). lia.
Qed.

(** The operations on the sequence length. *)
Inductive length_operation := Commit | SetLength (length : Z) | Publish (expected_current desired : Z).
Definition apply_length (op : length_operation) : RequestState -> RequestOperationStatus * RequestState :=
  match op with
  | Commit => commit_token
  | SetLength n => set_sequence_length n
  | Publish e d => publish_sequence_length e d
  end.

Definition length_in_range (state : RequestState) : Prop :=
  0 <= sequence_length_ state <= max_length state /\ max_length state <= u32_max.

Definition unsigned_length (op : length_operation) : Prop :=
  match op with Commit => True | SetLength n => is_u32 n | Publish e d => is_u32 e /\ is_u32 d end.

(** What each operation promises: its guard and the new length. *)
Definition length_guard (op : length_operation) (state : RequestState) : Prop :=
  arena_ state <> 0 /\
  match op with
  | Commit => 0 < remaining_capacity state
  | SetLength n => n <= max_length state
  | Publish e d => e = sequence_length_ state /\ e <= d <= max_length state
  end.
Definition new_length (op : length_operation) (state : RequestState) : Z :=
  match op with Commit => sequence_length_ state + 1 | SetLength n => n | Publish _ d => d end.

(** The promise, and its two ways of being kept. *)
Definition length_promise (op : length_operation) (state : RequestState)
    (outcome : RequestOperationStatus * RequestState) : Prop :=
  let '(status, state') := outcome in
  length_in_range state' /\
  (operation_ok status = true <-> length_guard op state) /\
  state' = (if operation_ok status then with_length state (new_length op state) else state) /\
  (forall e d, op = Publish e d -> arena_ state <> 0 -> e <> sequence_length_ state ->
     error status = kSequenceLengthMismatch).

Lemma refused_promise op state e :
  length_in_range state -> e <> kNone -> ~ length_guard op state ->
  (forall x d, op = Publish x d -> arena_ state <> 0 -> x <> sequence_length_ state -> e = kSequenceLengthMismatch) ->
  length_promise op state (refused e, state).
Proof.
  intros Hr He Hg Hp. unfold length_promise, operation_ok. cbn [error refused].
  rewrite bool_decide_false by done. by split_and!.
Qed.

Lemma accepted_promise op state n :
  n = new_length op state -> length_guard op state -> 0 <= n -> max_length state <= u32_max ->
  length_promise op state (succeeded, with_length state n).
Proof.
  intros -> Hg Hn Hmax. unfold length_promise. change (operation_ok succeeded) with true. cbv iota.
  split_and!; try done; destruct Hg as [_ Hg]; unfold length_in_range.
  - change (max_length (with_length state _)) with (max_length state). cbn [sequence_length_ with_length].
    destruct op; cbn [new_length] in *; try lia. unfold remaining_capacity in Hg.
    destruct (Z.leb_spec (sequence_length_ state) (max_length state)); lia.
  - intros e d -> _ Hne. by destruct Hg as [-> _].
Qed.

(** The committed length never leaves the capacity.  From a length in
    range, an operation succeeds exactly under its guard — room for one more
    position, a length within capacity, or a publication whose expected value
    is current and that does not go back — and then only the length changes, to
    the one asked for; a refused operation changes nothing; a stale publication
    is reported as such before its value is looked at. *)
Theorem sequence_length_operations op state :
  length_in_range state -> unsigned_length op ->
  let '(status, state') := apply_length op state in
  length_in_range state' /\
  (operation_ok status = true <-> length_guard op state) /\
  state' = (if operation_ok status then with_length state (new_length op state) else state) /\
  (forall e d, op = Publish e d -> arena_ state <> 0 -> e <> sequence_length_ state ->
     error status = kSequenceLengthMismatch).
Proof.
  intros Hr Hop. change (length_promise op state (apply_length op state)).
  pose proof Hr as [Hrange Hmax].
  destruct op as [|n|e d]; cbn [apply_length unsigned_length] in *;
    unfold commit_token, set_sequence_length, publish_sequence_length, validate_sequence_length_publication;
    (destruct (Z.eqb_spec (arena_ state) 0); [by apply refused_promise; [|done|intros []|]|]).
  - destruct (Z.leb_spec (max_length state) (sequence_length_ state)).
    { apply refused_promise; [done|done| |done]. intros [_ Hg]. cbv beta iota in Hg.
      unfold remaining_capacity in Hg. destruct (Z.leb_spec (sequence_length_ state) (max_length state)); lia. }
    rewrite u32_small by (unfold is_u32, u32_max in *; lia). apply accepted_promise; [done| |lia|done].
    split; [done|]. unfold remaining_capacity. rewrite (proj2 (Z.leb_le (sequence_length_ state) _)) by lia. lia.
  - destruct Hop as [Hn _]. destruct (Z.ltb_spec (max_length state) n).
    + apply refused_promise; [done|done| |done]. intros [_ Hg]. cbv beta iota in Hg. lia.
    + apply accepted_promise; [done|by split|done..].
  - destruct Hop as [[He _] [Hd _]]. cbv zeta.
    destruct (Z.eqb_spec e (sequence_length_ state)) as [Heq|Hne]; cbn [negb].
    2: { rewrite bool_decide_false by done. apply refused_promise; [done|done| |done]. by intros [_ [? _]]. }
    destruct (Z.ltb_spec (max_length state) d); [|destruct (Z.ltb_spec d e)];
      rewrite ?bool_decide_false by done; rewrite ?bool_decide_true by done; cbn [negb].
    + apply refused_promise; [done|done| |by intros ? ? [= <- <-]]. intros [_ Hg]. cbv beta iota in Hg. lia.
    + apply refused_promise; [done|done| |by intros ? ? [= <- <-]]. intros [_ Hg]. cbv beta iota in Hg. lia.
    + apply accepted_promise; [done| |done..]. split; [done|]. split; [done|lia].
Qed.

(** ** A device that behaves *)

Module HostDevice.
Record host := { bytes : Z -> Z; held : list Z; open_streams : list Z }.

Definition write (p n : Z) (f : Z -> Z) (d : host) : host := {|
  bytes := fun a => if (p <=? a) && (a <? p + n) then f (a - p) else bytes d a;
  held := held d; open_streams := open_streams d |}.

#[global] Instance host_cuda : Cuda host := {|
  cudaMemGetInfo := fun _ => (cudaSuccess, 2 ^ 36);
  cudaMalloc := fun n d =>
    let p := 4096 * (1 + Z.of_nat (length (held d))) in
    ((cudaSuccess, p), {| bytes := bytes d; held := p :: held d; open_streams := open_streams d |});
  cudaFree := fun _ d => {| bytes := bytes d; held := tail (held d); open_streams := open_streams d |};
  cudaStreamCreateWithFlags := fun d =>
    let s := 1 + Z.of_nat (length (open_streams d)) in
    ((cudaSuccess, s), {| bytes := bytes d; held := held d; open_streams := s :: open_streams d |});
  cudaStreamSynchronize := fun _ d => (cudaSuccess, d);
  cudaStreamDestroy := fun _ d =>
    (cudaSuccess, {| bytes := bytes d; held := held d; open_streams := tail (open_streams d) |});
  cudaMemsetAsync := fun p v n _ d => (cudaSuccess, write p n (fun _ => v) d);
  cudaMemcpyAsync := fun p l _ d => (cudaSuccess, write p (Z.of_nat (length l)) (at_ l) d);
  byte_of := bytes; allocations := held; streams := open_streams |}.

Lemma write_inside p n f d a : p <= a < p + n -> bytes (write p n f d) a = f (a - p).
Proof. intros Ha. cbn. by rewrite (proj2 (Z.leb_le _ _)), (proj2 (Z.ltb_lt _ _)) by lia. Qed.

Lemma write_outside p n f d : outside p (p + n) d (write p n f d).
Proof.
  intros a Ha. cbn. destruct (Z.leb_spec p a), (Z.ltb_spec a (p + n)); try done. lia.
Qed.

#[global] Instance host_laws : CudaLaws host.
Proof.
  constructor.
  - intros d p v n s d' [= <-] a Ha. by apply write_inside.
  - intros d p v n s st d' [= <- <-]. split; [apply write_outside|done].
  - intros d p l s d' [= <-] i Hi. etrans; [apply write_inside; lia|]. f_equal. lia.
  - intros d p l s st d' [= <- <-]. split; [apply write_outside|done].
  - intros d n p d' [= <- <-]. split; [lia|done].
  - by intros d n st p d' [= <- <- <-].
  - intros d p l Ha. cbn in *. by rewrite Ha.
  - intros d s d' [= <- <-]. split; [lia|done].
  - by intros d st s d' [= <- <- <-].
  - by intros d s st d' [= <- <-].
  - intros d s l st d' Hs [= <- <-]. cbn in *. by rewrite Hs.
  - by intros d st s d' [= <- <- <-].
Qed.

Definition empty : host := {| bytes := fun a => a; held := []; open_streams := [] |}.
End HostDevice.

Definition small_options : RequestMemoryOptions := {|
  batch_size := 1; prefill_chunk_size := 1; max_sequence_length := 8;
  max_arena_bytes := 2 ^ 31; min_free_bytes_after_create := 2 ^ 33 |}.

Definition small_state : RequestState := {|
  arena_ := 4096; plan_ := reference_plan 8 1; sequence_length_ := 2;
  layer_major_common_ := None; mtp_gdn_offset_ := 0 |}.

Lemma small_options_in_range :
  is_u64 (max_sequence_length small_options) /\ is_u32 (prefill_chunk_size small_options).
Proof. split; (split; [vm_compute; discriminate|vm_compute; reflexivity]). Qed.

Lemma small_plan : build_request_memory_plan small_options = inr (reference_plan 8 1).
Proof. vm_compute. reflexivity. Qed.



Lemma create_all_or_nothing_witness :
  let d' := snd (create_request_state (fun _ _ => 0x3F800000) (fun _ _ => 0) small_options HostDevice.empty) in
  HostDevice.open_streams d' = [] /\ HostDevice.held d' = [4096] /\ HostDevice.bytes d' 5000 = 0.
Proof.
  intros d'.
  destruct (create_request_state (fun _ _ => 0x3F800000) (fun _ _ => 0) small_options HostDevice.empty)
    as [result d2] eqn:Hrun.
  pose proof (create_all_or_nothing (fun _ _ => 0x3F800000) (fun _ _ => 0) small_options HostDevice.empty result d2)
    as Hcreate.
  destruct Hcreate as [Hs Hres].
  - apply small_options_in_range.
  - apply small_options_in_range.
  - exact Hrun.
  - unfold d'. cbn [snd]. split; [exact Hs|].
    assert (Hr : result = inr {| arena_ := 4096; plan_ := reference_plan 8 1; sequence_length_ := 0;
      layer_major_common_ := None; mtp_gdn_offset_ := 0 |}).
    { transitivity (fst (create_request_state (fun _ _ => 0x3F800000) (fun _ _ => 0) small_options HostDevice.empty));
        [by rewrite Hrun|]. unfold create_request_state. rewrite small_plan. reflexivity. }
    rewrite Hr in Hres. destruct Hres as (Ha & _ & _ & _ & _ & Hinit). split; [exact Ha|].
    apply (init_zero _ _ _ _ _ Hinit 904). split; [vm_compute; discriminate|vm_compute; reflexivity].
Defined.

Lemma small_legacy_request : legacy_request small_options small_state.
Proof. constructor; first [apply small_options_in_range|apply small_plan|done]. Qed.

Lemma views_sound_witness :
  exists v1 v2, tensor_view (KeyAt 3 1) small_state = inr v1 /\ tensor_view (ValueAt 3 0) small_state = inr v2 /\
    (view_end v1 <= view_arena_offset v2 \/ view_end v2 <= view_arena_offset v1).
Proof.
  eexists _, _. split; [vm_compute; reflexivity|]. split; [vm_compute; reflexivity|].
  eapply (views_sound small_options small_state (KeyAt 3 1) (ValueAt 3 0)).
  - exact small_legacy_request.
  - simpl. lia.
  - simpl. lia.
  - vm_compute. reflexivity.
  - vm_compute. reflexivity.
  - discriminate.
Defined.

Lemma sequence_length_operations_witness :
  operation_ok (fst (apply_length (Publish 2 8) small_state)) = true /\
  operation_ok (fst (apply_length (Publish 2 9) small_state)) = false.
Proof.
  split.
  - pose proof (sequence_length_operations (Publish 2 8) small_state) as Hop.
    destruct (apply_length (Publish 2 8) small_state) as [status state'].
    apply Hop; [split; [split; vm_compute; discriminate|vm_compute; discriminate]
      |split; (split; [vm_compute; discriminate|vm_compute; reflexivity])|].
    split; [discriminate|]. split; [reflexivity|]. split; vm_compute; discriminate.
  - reflexivity.
Defined.
