(* ===== verification/Safetensors.v ===== *)
(** * Safetensors: reading and checking checkpoint headers and indices
      (src/io/safetensors.cpp, include/q3x/io/safetensors.h)

    A file is what its stream answers: the position at its end, whether it can
    be rewound, and the bytes reads deliver.  The file system is a parameter.
    An error keeps its code, offset and context (a JSON error's context, the
    JSON message, is left out).  Memory is never exhausted. *)

From Stdlib Require Import String Sorting.Sorted.
From stdpp Require Import sorting.
From S2P Require Import Prelude OrderedMap Json.

(** ** Element types *)

Inductive DType :=
  | kBool | kF4 | kF6E2M3 | kF6E3M2 | kU8 | kI8 | kF8E5M2 | kF8E4M3 | kF8E8M0 | kF8E4M3Fnuz
  | kF8E5M2Fnuz | kI16 | kU16 | kF16 | kBf16 | kI32 | kU32 | kF32 | kC64 | kF64 | kI64 | kU64.
#[export] Instance DType_eq_dec : EqDecision DType.
Proof. solve_decision. Defined.

(** [to_string(DType)]. *)
Definition dtype_name (dtype : DType) : list Z :=
  lit match dtype with
      | kBool => "BOOL" | kF4 => "F4" | kF6E2M3 => "F6_E2M3" | kF6E3M2 => "F6_E3M2" | kU8 => "U8"
      | kI8 => "I8" | kF8E5M2 => "F8_E5M2" | kF8E4M3 => "F8_E4M3" | kF8E8M0 => "F8_E8M0"
      | kF8E4M3Fnuz => "F8_E4M3FNUZ" | kF8E5M2Fnuz => "F8_E5M2FNUZ" | kI16 => "I16" | kU16 => "U16"
      | kF16 => "F16" | kBf16 => "BF16" | kI32 => "I32" | kU32 => "U32" | kF32 => "F32" | kC64 => "C64"
      | kF64 => "F64" | kI64 => "I64" | kU64 => "U64"
      end.

Definition parse_dtype (name : list Z) : option DType :=
  if bool_decide (name = lit "BOOL") then Some kBool
  else if bool_decide (name = lit "F4") then Some kF4
  else if bool_decide (name = lit "F6_E2M3") then Some kF6E2M3
  else if bool_decide (name = lit "F6_E3M2") then Some kF6E3M2
  else if bool_decide (name = lit "U8") then Some kU8
  else if bool_decide (name = lit "I8") then Some kI8
  else if bool_decide (name = lit "F8_E5M2") then Some kF8E5M2
  else if bool_decide (name = lit "F8_E4M3") then Some kF8E4M3
  else if bool_decide (name = lit "F8_E8M0") then Some kF8E8M0
  else if bool_decide (name = lit "F8_E4M3FNUZ") then Some kF8E4M3Fnuz
  else if bool_decide (name = lit "F8_E5M2FNUZ") then Some kF8E5M2Fnuz
  else if bool_decide (name = lit "I16") then Some kI16
  else if bool_decide (name = lit "U16") then Some kU16
  else if bool_decide (name = lit "F16") then Some kF16
  else if bool_decide (name = lit "BF16") then Some kBf16
  else if bool_decide (name = lit "I32") then Some kI32
  else if bool_decide (name = lit "U32") then Some kU32
  else if bool_decide (name = lit "F32") then Some kF32
  else if bool_decide (name = lit "C64") then Some kC64
  else if bool_decide (name = lit "F64") then Some kF64
  else if bool_decide (name = lit "I64") then Some kI64
  else if bool_decide (name = lit "U64") then Some kU64
  else None.

Definition bit_width (dtype : DType) : Z :=
  match dtype with
  | kF4 => 4
  | kF6E2M3 | kF6E3M2 => 6
  | kBool | kU8 | kI8 | kF8E5M2 | kF8E4M3 | kF8E8M0 | kF8E4M3Fnuz | kF8E5M2Fnuz => 8
  | kI16 | kU16 | kF16 | kBf16 => 16
  | kI32 | kU32 | kF32 => 32
  | kC64 | kF64 | kI64 | kU64 => 64
  end.

(** ** Errors and results *)

Inductive ErrorCode :=
  | kNone | kInvalidOption | kOpenFailed | kIoFailure | kFileTooSmall | kFileTooLarge
  | kHeaderTooLarge | kInvalidHeaderLength | kInvalidHeaderStart | kInvalidJson
  | kHeaderNotObject | kTooManyTensors | kTensorDescriptorNotObject | kMissingTensorField
  | kUnknownTensorField | kUnsupportedDType | kInvalidShape | kRankLimitExceeded
  | kArithmeticOverflow | kInvalidDataOffsets | kMisalignedTensor | kTensorSizeMismatch
  | kDataOutOfRange | kOverlappingData | kDataGap | kDataNotFullyCovered | kInvalidMetadata
  | kIndexTooLarge | kIndexNotObject | kMissingWeightMap | kInvalidWeightMap | kTooManyShards
  | kUnsafeShardPath | kShardMissing | kShardNotRegular | kShardSetMismatch | kUnexpectedTensor
  | kTensorInWrongShard | kMissingIndexedTensor | kMissingTotalSize | kPayloadSizeMismatch
  | kAllocationFailure.

Definition kUnknownOffset : Z := u64_max.

Record Error := { code : ErrorCode; offset : Z; context : list Z }.

Definition failure {A} (c : ErrorCode) (at_offset : Z) (where_ : list Z) : Error + A :=
  inl {| code := c; offset := at_offset; context := where_ |}.

Record TensorInfo := {
  dtype : DType;
  shape : list Z;
  element_count : Z;
  byte_size : Z;
  data_begin : Z;
  data_end : Z;
  file_begin : Z;
  file_end : Z
}.

Record Header := {
  file_size : Z;
  header_size : Z;
  data_offset : Z;
  data_size : Z;
  tensors : list (list Z * TensorInfo);
  metadata : list (list Z * list Z)
}.

Record ReadOptions := {
  max_file_bytes : Z;
  max_header_bytes : Z;
  max_tensors : Z;
  max_rank : Z;
  json_options : ParseOptions
}.

(** The value of an [option], or the error the source returns. *)
Definition get_or {A} (o : option A) (c : ErrorCode) (at_offset : Z) (where_ : list Z) : Error + A :=
  match o with Some a => inr a | None => failure c at_offset where_ end.

(** ** One tensor descriptor *)

Definition is_known_tensor_field (name : list Z) : bool :=
  bool_decide (name = lit "dtype") || bool_decide (name = lit "shape") || bool_decide (name = lit "data_offsets").

Fixpoint check_fields (name : list Z) (fields : list (list Z * Value)) : Error + unit :=
  match fields with
  | [] => inr tt
  | (field, _) :: fields =>
      if negb (is_known_tensor_field field) then failure kUnknownTensorField 8 (name ++ lit "." ++ field)
      else check_fields name fields
  end.

(** The loop over the dimensions. *)
Fixpoint parse_shape (name : list Z) (dimensions : list Value) (dims : list Z) (count : Z)
    : Error + (list Z * Z) :=
  match dimensions with
  | [] => inr (dims, count)
  | value :: dimensions =>
      dimension ← get_or (as_uint64 value) kInvalidShape 8 name;
      count ← get_or (checked_multiply count dimension) kArithmeticOverflow 8 name;
      parse_shape name dimensions (dims ++ [dimension]) count
  end.

(** The two data offsets. *)
Definition parse_offsets (name : list Z) (value : Value) : Error + (Z * Z) :=
  match as_array value with
  | Some [first; second] =>
      match as_number first, as_number second with
      | Some b, Some e =>
          match to_uint64 b, to_uint64 e with
          | Some b, Some e => if e <? b then failure kInvalidDataOffsets 8 name else inr (b, e)
          | _, _ => failure kInvalidDataOffsets 8 name
          end
      | _, _ => failure kInvalidDataOffsets 8 name
      end
  | _ => failure kInvalidDataOffsets 8 name
  end.

(** The body of the loop for a tensor; [start] and [size] are the header's
    [data_offset] and [data_size]. *)
Definition parse_tensor (options : ReadOptions) (start size : Z) (name : list Z) (value : Value)
    : Error + TensorInfo :=
  descriptor ← get_or (as_object value) kTensorDescriptorNotObject 8 name;
  _ ← check_fields name descriptor;
  match map_find (lit "dtype") descriptor, map_find (lit "shape") descriptor,
        map_find (lit "data_offsets") descriptor with
  | Some dtype_value, Some shape_value, Some offsets_value =>
      dtype_text ← get_or (as_string dtype_value) kUnsupportedDType 8 name;
      d ← get_or (parse_dtype dtype_text) kUnsupportedDType 8 (name ++ lit ":" ++ dtype_text);
      dimensions ← get_or (as_array shape_value) kInvalidShape 8 name;
      if max_rank options <? Z.of_nat (length dimensions) then failure kRankLimitExceeded 8 name else
      '(dims, count) ← parse_shape name dimensions [] 1;
      bit_count ← get_or (checked_multiply count (bit_width d)) kArithmeticOverflow 8 name;
      if negb (bit_count mod 8 =? 0) then failure kMisalignedTensor 8 name else
      let bytes := bit_count / 8 in
      '(begin_, end_) ← parse_offsets name offsets_value;
      if negb (end_ - begin_ =? bytes) then failure kTensorSizeMismatch 8 name else
      if (size <? begin_) || (size <? end_) then failure kDataOutOfRange 8 name else
      fb ← get_or (checked_add start begin_) kArithmeticOverflow 8 name;
      fe ← get_or (checked_add start end_) kArithmeticOverflow 8 name;
      inr {| dtype := d; shape := dims; element_count := count; byte_size := bytes;
             data_begin := begin_; data_end := end_; file_begin := fb; file_end := fe |}
  | _, _, _ => failure kMissingTensorField 8 name
  end.

(** ** The header document *)

Definition metadata_name : list Z := lit "__metadata__".

Fixpoint parse_metadata (items : list (list Z * Value)) (result : list (list Z * list Z))
    : Error + list (list Z * list Z) :=
  match items with
  | [] => inr result
  | (key, value) :: items =>
      text ← get_or (as_string value) kInvalidMetadata 8 key;
      parse_metadata items (map_emplace key text result)
  end.

Record DataRange := { range_begin : Z; range_end : Z; range_name : list Z }.

(** The loop over the members of the root: the tensors, the metadata and the
    ranges found so far. *)
Definition Found : Type := list (list Z * TensorInfo) * list (list Z * list Z) * list DataRange.

Fixpoint parse_entries (options : ReadOptions) (start size : Z) (entries : list (list Z * Value)) (found : Found)
    : Error + Found :=
  match entries with
  | [] => inr found
  | (name, value) :: entries =>
      let '(found_tensors, found_metadata, ranges) := found in
      if bool_decide (name = metadata_name) then
        items ← get_or (as_object value) kInvalidMetadata 8 metadata_name;
        found_metadata ← parse_metadata items found_metadata;
        parse_entries options start size entries (found_tensors, found_metadata, ranges)
      else
        tensor ← parse_tensor options start size name value;
        parse_entries options start size entries
          (map_emplace name tensor found_tensors, found_metadata,
           ranges ++ [{| range_begin := data_begin tensor; range_end := data_end tensor; range_name := name |}])
  end.

(** The comparison of [std::sort]. *)
Definition range_lt (left right : DataRange) : bool :=
  if negb (range_begin left =? range_begin right) then range_begin left <? range_begin right
  else if negb (range_end left =? range_end right) then range_end left <? range_end right
  else key_lt (range_name left) (range_name right).

Definition range_le (left right : DataRange) : Prop := range_lt right left = false.
#[export] Instance range_le_dec left right : Decision (range_le left right).
Proof. unfold range_le. apply _. Defined.

(** [std::sort]: names differ, so the sorted order is unique. *)
Definition sort_ranges (ranges : list DataRange) : list DataRange := merge_sort range_le ranges.

Fixpoint check_ranges (ranges : list DataRange) (cursor : Z) : Error + Z :=
  match ranges with
  | [] => inr cursor
  | range :: ranges =>
      if range_begin range <? cursor then failure kOverlappingData 8 (range_name range)
      else if cursor <? range_begin range then failure kDataGap 8 (range_name range)
      else check_ranges ranges (range_end range)
  end.

Definition tensor_entries (entries : list (list Z * Value)) : list (list Z * Value) :=
  filter (fun entry => entry.1 <> metadata_name) entries.

Definition parse_header_document (document : Value) (fsize hsize : Z) (options : ReadOptions) : Error + Header :=
  root ← get_or (as_object document) kHeaderNotObject 8 [];
  start ← get_or (checked_add 8 hsize) kInvalidHeaderLength 0 [];
  if fsize <? start then failure kInvalidHeaderLength 0 [] else
  let size := fsize - start in
  if max_tensors options <? Z.of_nat (length (tensor_entries root)) then failure kTooManyTensors 8 [] else
  '(found_tensors, found_metadata, ranges) ← parse_entries options start size root ([], [], []);
  cursor ← check_ranges (sort_ranges ranges) 0;
  if negb (cursor =? size) then failure kDataNotFullyCovered 8 [] else
  inr {| file_size := fsize; header_size := hsize; data_offset := start; data_size := size;
         tensors := found_tensors; metadata := found_metadata |}.

Definition find_tensor (name : list Z) (header : Header) : option TensorInfo := map_find name (tensors header).

(** ** Files *)

Definition determine_file_size (input : file) : option Z :=
  if tell_end input =? -1 then None
  else if tell_end input <? 0 then None
  else if rewinds input then Some (u64 (tell_end input)) else None.

(** The bytes read and those left, when there are enough. *)
Definition read_exact (unread : list Z) (size : Z) : option (list Z * list Z) :=
  if size =? 0 then Some ([], unread)
  else if streamsize_max <? size then None
  else if Z.of_nat (length unread) <? size then None
  else Some (take (Z.to_nat size) unread, drop (Z.to_nat size) unread).

Fixpoint decode_little_endian_from (index : Z) (bytes : list Z) : Z :=
  match bytes with
  | [] => 0
  | byte :: bytes => Z.lor (Z.shiftl byte (index * 8)) (decode_little_endian_from (index + 1) bytes)
  end.
Definition decode_little_endian_u64 (bytes : list Z) : Z := decode_little_endian_from 0 bytes.

Definition read_header (open : disk) (path : list Z) (options : ReadOptions) : Error + Header :=
  input ← get_or (open path) kOpenFailed kUnknownOffset path;
  fsize ← get_or (determine_file_size input) kIoFailure kUnknownOffset path;
  if max_file_bytes options <? fsize then failure kFileTooLarge kUnknownOffset path else
  if fsize <? 8 then failure kFileTooSmall fsize path else
  '(length_bytes, unread) ← get_or (read_exact (content input) 8) kIoFailure 0 path;
  let hsize := decode_little_endian_u64 length_bytes in
  if (max_header_bytes options <? hsize) || (u64_max <? hsize) || (streamsize_max <? hsize)
  then failure kHeaderTooLarge 0 path else
  start ← get_or (checked_add 8 hsize) kInvalidHeaderLength 0 path;
  if fsize <? start then failure kInvalidHeaderLength 0 path else
  '(header_text, _) ← get_or (read_exact unread hsize) kIoFailure 8 path;
  if negb (bool_decide (head header_text = Some 123)) then failure kInvalidHeaderStart 8 path else
  match parse header_text (json_options options) with
  | Good document _ => parse_header_document document fsize hsize options
  | Bad _ position => failure kInvalidJson (default kUnknownOffset (checked_add 8 position)) []
  | OutOfFuel => failure kInvalidJson kUnknownOffset []
  end.

(** ** The index *)

Record Index := {
  weight_map : list (list Z * list Z);
  shards : list (list Z);
  index_metadata : list (list Z * Value);
  total_size : option Z
}.

Record IndexReadOptions := {
  index_max_file_bytes : Z;
  index_max_tensors : Z;
  index_max_shards : Z;
  index_json_options : ParseOptions
}.

Fixpoint parse_weight_map (options : IndexReadOptions) (items : list (list Z * Value))
    (map : list (list Z * list Z)) (set : list (list Z)) : Error + (list (list Z * list Z) * list (list Z)) :=
  match items with
  | [] => inr (map, set)
  | (name, value) :: items =>
      match as_string value with
      | Some shard =>
          if bool_decide (name = []) || bool_decide (shard = []) || existsb (Z.eqb 0) shard
          then failure kInvalidWeightMap 0 name else
          let set := set_emplace shard set in
          if index_max_shards options <? Z.of_nat (length set) then failure kTooManyShards 0 shard
          else parse_weight_map options items (map_emplace name shard map) set
      | None => failure kInvalidWeightMap 0 name
      end
  end.

(** The optional [metadata] member. *)
Definition parse_index_metadata (root : list (list Z * Value))
    : Error + (list (list Z * Value) * option Z) :=
  match map_find (lit "metadata") root with
  | None => inr ([], None)
  | Some value =>
      members ← get_or (as_object value) kInvalidMetadata 0 (lit "metadata");
      match map_find (lit "total_size") members with
      | None => inr (members, None)
      | Some value =>
          total ← get_or (as_uint64 value) kInvalidMetadata 0 (lit "metadata.total_size");
          inr (members, Some total)
      end
  end.

Definition parse_index_document (document : Value) (options : IndexReadOptions) : Error + Index :=
  root ← get_or (as_object document) kIndexNotObject 0 [];
  weight_map_value ← get_or (map_find (lit "weight_map") root) kMissingWeightMap 0 (lit "weight_map");
  match as_object weight_map_value with
  | None | Some [] => failure kInvalidWeightMap 0 (lit "weight_map")
  | Some items =>
      if index_max_tensors options <? Z.of_nat (length items) then failure kTooManyTensors 0 (lit "weight_map") else
      '(map, set) ← parse_weight_map options items [] [];
      '(members, total) ← parse_index_metadata root;
      inr {| weight_map := map; shards := set; index_metadata := members; total_size := total |}
  end.

Definition shard_for (name : list Z) (index : Index) : option (list Z) := map_find name (weight_map index).

Definition read_index (open : disk) (path : list Z) (options : IndexReadOptions) : Error + Index :=
  input ← get_or (open path) kOpenFailed kUnknownOffset path;
  fsize ← get_or (determine_file_size input) kIoFailure kUnknownOffset path;
  if (index_max_file_bytes options <? fsize) || (u64_max <? fsize) || (streamsize_max <? fsize)
  then failure kIndexTooLarge kUnknownOffset path else
  '(text, _) ← get_or (read_exact (content input) fsize) kIoFailure 0 path;
  match parse text (index_json_options options) with
  | Good document _ => parse_index_document document options
  | Bad _ position => failure kInvalidJson position []
  | OutOfFuel => failure kInvalidJson kUnknownOffset []
  end.

(** ** Shard paths

    The operations of [std::filesystem::path] the source uses, on POSIX. *)

Definition slash : Z := 47.
Definition dot : Z := 46.

(** Iterating a path without empty components. *)
Fixpoint components_from (current : list Z) (path : list Z) : list (list Z) :=
  match path with
  | [] => [current]
  | c :: path => if c =? slash then current :: components_from [] path else components_from (current ++ [c]) path
  end.
Definition components (path : list Z) : list (list Z) := components_from [] path.

(** The index of the last dot. *)
Fixpoint rfind_dot (name : list Z) : option nat :=
  match name with
  | [] => None
  | c :: name => match rfind_dot name with
                 | Some i => Some (S i)
                 | None => if c =? dot then Some O else None
                 end
  end.

Definition extension (path : list Z) : list Z :=
  let filename := default [] (last (components path)) in
  if bool_decide (filename = [dot]) || bool_decide (filename = [dot; dot]) then [] else
  match rfind_dot filename with
  | None | Some O => []
  | Some i => drop i filename
  end.

Fixpoint has_double_slash (path : list Z) : bool :=
  match path with
  | a :: (b :: _) as rest => ((a =? slash) && (b =? slash)) || has_double_slash rest
  | _ => false
  end.

Definition is_safe_relative_shard_path (path : list Z) : bool :=
  if bool_decide (path = []) || (4096 <? Z.of_nat (length path))
     || bool_decide (head path = Some slash) || bool_decide (last path = Some slash)
     || has_double_slash path || existsb (Z.eqb 92) path || existsb (Z.eqb 58) path
  then false else
  if existsb (fun byte => (byte <? 0x20) || (byte =? 0x7F)) path then false else
  if negb (bool_decide (extension path = lit ".safetensors")) then false else
  forallb (fun component => negb (bool_decide (component = []) || bool_decide (component = [dot])
                                  || bool_decide (component = [dot; dot]))) (components path).

(** [operator/=] with a relative component. *)
Definition append_path (path component : list Z) : list Z :=
  if bool_decide (path = []) || bool_decide (last path = Some slash) then path ++ component
  else path ++ [slash] ++ component.

(** ** Validating the shards of an index *)

Inductive stat_error := NoSuchFile | OtherFailure.
Record file_status := { exists_ : bool; is_symlink : bool; is_directory : bool; is_regular : bool }.

Record ShardValidationOptions := {
  validation_max_shards : Z;
  validation_max_tensors : Z;
  header_options : ReadOptions
}.

Record ShardValidationSummary := { validated_shards : Z; validated_tensors : Z; payload_bytes : Z }.

Section Validation.
Variable open : disk.
Variable symlink_status : list Z -> option stat_error * file_status.

(** The loop over the mappings: the set of referenced shards. *)
Fixpoint collect_shards (options : ShardValidationOptions) (mappings : list (list Z * list Z))
    (referenced : list (list Z)) : Error + list (list Z) :=
  match mappings with
  | [] => inr referenced
  | (name, shard) :: mappings =>
      if bool_decide (name = []) || bool_decide (shard = []) then failure kInvalidWeightMap kUnknownOffset name else
      if negb (is_safe_relative_shard_path shard) then failure kUnsafeShardPath kUnknownOffset shard else
      let referenced := set_emplace shard referenced in
      if validation_max_shards options <? Z.of_nat (length referenced)
      then failure kTooManyShards kUnknownOffset shard
      else collect_shards options mappings referenced
  end.

Fixpoint compare_shards (referenced stored : list (list Z)) : Error + unit :=
  match referenced with
  | [] => inr tt
  | shard :: referenced =>
      if bool_decide (head stored = Some shard) then compare_shards referenced (tail stored)
      else failure kShardSetMismatch kUnknownOffset (lit "shards")
  end.

(** The loop over the path's components: the path walked so far. *)
Fixpoint walk_components (shard : list Z) (rest : list (list Z)) (shard_path : list Z) : Error + list Z :=
  match rest with
  | [] => inr shard_path
  | component :: rest =>
      let shard_path := append_path shard_path component in
      match symlink_status shard_path with
      | (Some NoSuchFile, _) => failure kShardMissing kUnknownOffset shard
      | (Some OtherFailure, _) => failure kIoFailure kUnknownOffset shard
      | (None, status) =>
          if negb (exists_ status) then failure kShardMissing kUnknownOffset shard else
          if is_symlink status then failure kUnsafeShardPath kUnknownOffset shard else
          let more := negb (bool_decide (rest = [])) in
          if more && negb (is_directory status) then failure kShardNotRegular kUnknownOffset shard else
          if negb more && negb (is_regular status) then failure kShardNotRegular kUnknownOffset shard else
          walk_components shard rest shard_path
      end
  end.

(** The loop over a shard's tensors: those seen and their number. *)
Fixpoint check_tensors (options : ShardValidationOptions) (map : list (list Z * list Z)) (shard : list Z)
    (names : list (list Z)) (seen : list (list Z)) (count : Z) : Error + (list (list Z) * Z) :=
  match names with
  | [] => inr (seen, count)
  | name :: names =>
      match map_find name map with
      | None => failure kUnexpectedTensor kUnknownOffset name
      | Some expected =>
          if negb (bool_decide (expected = shard)) then failure kTensorInWrongShard kUnknownOffset name else
          if bool_decide (name ∈ seen) then failure kUnexpectedTensor kUnknownOffset name else
          if validation_max_tensors options <=? count then failure kTooManyTensors kUnknownOffset name else
          check_tensors options map shard names (set_emplace name seen) (count + 1)
      end
  end.

(** A header error is reported under the shard's name. *)
Definition in_shard {A} (shard : list Z) (result : Error + A) : Error + A :=
  match result with
  | inl e => inl {| code := code e; offset := offset e; context := shard |}
  | inr a => inr a
  end.

Fixpoint validate_shards (options : ShardValidationOptions) (hoptions : ReadOptions) (directory : list Z)
    (map : list (list Z * list Z)) (referenced : list (list Z)) (summary : ShardValidationSummary)
    (seen : list (list Z)) : Error + (ShardValidationSummary * list (list Z)) :=
  match referenced with
  | [] => inr (summary, seen)
  | shard :: referenced =>
      shard_path ← walk_components shard (components shard) directory;
      header ← in_shard shard (read_header open shard_path hoptions);
      if validation_max_shards options <=? validated_shards summary
      then failure kTooManyShards kUnknownOffset shard else
      payload ← get_or (checked_add (payload_bytes summary) (data_size header)) kArithmeticOverflow kUnknownOffset shard;
      '(seen, count) ← check_tensors options map shard (tensors header).*1 seen (validated_tensors summary);
      validate_shards options hoptions directory map referenced
        {| validated_shards := validated_shards summary + 1; validated_tensors := count; payload_bytes := payload |}
        seen
  end.

Fixpoint check_all_seen (map : list (list Z * list Z)) (seen : list (list Z)) : Error + unit :=
  match map with
  | [] => inr tt
  | (name, _) :: map =>
      if bool_decide (name ∈ seen) then check_all_seen map seen else failure kMissingIndexedTensor kUnknownOffset name
  end.

Definition validate_index_shards (directory : list Z) (index : Index) (options : ShardValidationOptions)
    : Error + ShardValidationSummary :=
  if (validation_max_shards options =? 0) || (validation_max_tensors options =? 0)
     || (max_tensors (header_options options) =? 0) then failure kInvalidOption kUnknownOffset [] else
  if bool_decide (weight_map index = []) then failure kInvalidWeightMap kUnknownOffset (lit "weight_map") else
  if validation_max_tensors options <? Z.of_nat (length (weight_map index))
  then failure kTooManyTensors kUnknownOffset (lit "weight_map") else
  referenced ← collect_shards options (weight_map index) [];
  if negb (bool_decide (length (shards index) = length referenced))
  then failure kShardSetMismatch kUnknownOffset (lit "shards") else
  _ ← compare_shards referenced (shards index);
  total ← get_or (total_size index) kMissingTotalSize kUnknownOffset (lit "metadata.total_size");
  let h := header_options options in
  let hoptions := {| max_file_bytes := max_file_bytes h; max_header_bytes := max_header_bytes h;
                     max_tensors := Z.min (max_tensors h) (validation_max_tensors options);
                     max_rank := max_rank h; json_options := json_options h |} in
  '(summary, seen) ← validate_shards options hoptions directory (weight_map index) referenced
    {| validated_shards := 0; validated_tensors := 0; payload_bytes := 0 |} [];
  _ ← check_all_seen (weight_map index) seen;
  if negb (validated_tensors summary =? Z.of_nat (length (weight_map index)))
  then failure kArithmeticOverflow kUnknownOffset (lit "validated_tensors") else
  if negb (payload_bytes summary =? total)
  then failure kPayloadSizeMismatch kUnknownOffset (lit "metadata.total_size") else
  inr summary.
End Validation.

(** ** Errors in sequence *)

Lemma get_or_inr {A} (o : option A) c at_offset where_ a : get_or o c at_offset where_ = inr a <-> o = Some a.
Proof. unfold get_or, failure. destruct o; split; congruence. Qed.

(** The steps of a successful computation, its options included. *)
Ltac results H :=
  sum_inv H;
  repeat match goal with Hg : get_or _ _ _ _ = inr _ |- _ => apply get_or_inr in Hg end.

(** ** What a header promises *)

(** One tensor of a data section of [size] bytes that starts at [start]:
    its elements fill its bytes, its bytes lie in the section, and nothing on
    the way exceeds [uint64_t]. *)
Record tensor_ok (start size : Z) (options : ReadOptions) (t : TensorInfo) : Prop := {
  tensor_rank : Z.of_nat (length (shape t)) <= max_rank options;
  tensor_dims : Forall is_u64 (shape t);
  tensor_prefixes : forall k, foldr Z.mul 1 (take k (shape t)) <= u64_max;
  tensor_elements : element_count t = foldr Z.mul 1 (shape t);
  tensor_bits : 8 * byte_size t = element_count t * bit_width (dtype t);
  tensor_bits_fit : 8 * byte_size t <= u64_max;
  tensor_begin : 0 <= data_begin t;
  tensor_bytes : data_end t = data_begin t + byte_size t;
  tensor_inside : data_end t <= size;
  tensor_file_begin : file_begin t = start + data_begin t;
  tensor_file_end : file_end t = start + data_end t
}.

(** The descriptor of a tensor. *)
Definition describes_tensor (v : Value) (t : TensorInfo) : Prop :=
  exists members dims b e,
    v = Object members /\
    Forall (fun field => field.1 ∈ [lit "dtype"; lit "shape"; lit "data_offsets"]) members /\
    map_find (lit "dtype") members = Some (Json.String (dtype_name (dtype t))) /\
    map_find (lit "shape") members = Some (Array dims) /\
    Forall2 (fun v d => as_uint64 v = Some d) dims (shape t) /\
    map_find (lit "data_offsets") members = Some (Array [b; e]) /\
    as_uint64 b = Some (data_begin t) /\ as_uint64 e = Some (data_end t).

Lemma check_fields_inr name fields u :
  check_fields name fields = inr u <-> Forall (fun field => field.1 ∈ [lit "dtype"; lit "shape"; lit "data_offsets"]) fields.
Proof.
  assert (Hknown : forall field, is_known_tensor_field field = true <->
    field ∈ [lit "dtype"; lit "shape"; lit "data_offsets"]).
  { intros field. unfold is_known_tensor_field. rewrite !orb_true_iff, !bool_decide_eq_true.
    rewrite !elem_of_cons, elem_of_nil. tauto. }
  destruct u. induction fields as [|[field v] fields IH]; simpl; [by split|].
  rewrite Forall_cons, <- Hknown. simpl. destruct (is_known_tensor_field field); simpl; [|by split; [|intros [? _]]].
  rewrite IH. by split; [|intros [_ ?]].
Qed.

Lemma parse_dtype_name d : parse_dtype (dtype_name d) = Some d.
Proof. by destruct d; vm_compute. Qed.

Lemma parse_dtype_Some name d : parse_dtype name = Some d <-> name = dtype_name d.
Proof.
  split; [|intros ->; apply parse_dtype_name]. unfold parse_dtype.
  repeat (case_bool_decide; [intros [= <-]; done|]). done.
Qed.

Lemma as_uint64_range v n : as_uint64 v = Some n -> is_u64 n.
Proof. unfold as_uint64. destruct (as_number v) as [t|]; [|done]. apply to_uint64_range. Qed.

Lemma bit_width_range d : 4 <= bit_width d <= 64.
Proof. destruct d; simpl; lia. Qed.

Lemma product_snoc l x : foldr Z.mul 1 (l ++ [x]) = foldr Z.mul 1 l * x.
Proof. induction l as [|y l IH]; simpl; [lia|]. rewrite IH. lia. Qed.

Lemma product_app l k : foldr Z.mul 1 (l ++ k) = foldr Z.mul 1 l * foldr Z.mul 1 k.
Proof. induction l as [|y l IH]; simpl; [lia|]. rewrite IH. lia. Qed.

Lemma product_nonneg l : Forall is_u64 l -> 0 <= foldr Z.mul 1 l.
Proof. induction 1 as [|x l Hx Hl IH]; simpl; [lia|]. unfold is_u64 in Hx. nia. Qed.

(** The loop over the dimensions multiplies them and stops at the first
    prefix whose product does not fit. *)
Lemma parse_shape_inr name dimensions dims count dims' count' :
  is_u64 count ->
  parse_shape name dimensions dims count = inr (dims', count') <->
  exists more, dims' = dims ++ more /\ Forall2 (fun v d => as_uint64 v = Some d) dimensions more /\
    count' = count * foldr Z.mul 1 more /\
    (forall k, count * foldr Z.mul 1 (take k more) <= u64_max).
Proof.
  revert dims count. induction dimensions as [|v dimensions IH]; intros dims count Hc; simpl.
  { split.
    - intros [= <- <-]. exists []. rewrite app_nil_r. split_and!; [done..|simpl; lia|].
      intros k. rewrite take_nil. unfold is_u64, u64_max in *. simpl. lia.
    - intros (more & -> & Hm & -> & _). apply Forall2_nil_inv_l in Hm as ->. simpl.
      by rewrite app_nil_r, Z.mul_1_r. }
  split.
  - intros H. results H. apply as_uint64_range in Ha as Hv. unfold is_u64 in Hc, Hv.
    apply checked_multiply_Some in Ha0 as [-> Hle]; [|lia..].
    apply IH in H as (more & -> & Hm & -> & Hk); [|unfold is_u64, u64_max in *; nia].
    exists (a :: more). rewrite <- app_assoc. split_and!; [done|by constructor|simpl; lia|].
    intros [|k]; simpl; [unfold u64_max; lia|]. specialize (Hk k). lia.
  - intros (more & -> & Hm & -> & Hk). destruct more as [|d more]; [by inversion Hm|].
    apply Forall2_cons in Hm as [Hv Hm]. apply as_uint64_range in Hv as Hd. unfold is_u64 in Hc, Hd.
    rewrite Hv. simpl. pose proof (Hk 1%nat) as H1. simpl in H1. rewrite Z.mul_1_r in H1.
    rewrite (proj2 (checked_multiply_Some count d (count * d) ltac:(lia) ltac:(lia)) (conj eq_refl H1)). simpl.
    apply IH; [unfold is_u64, u64_max in *; nia|]. exists more. rewrite <- app_assoc.
    split_and!; [done..|simpl; lia|]. intros k. specialize (Hk (S k)). simpl in Hk. lia.
Qed.

Lemma parse_offsets_inr name v b e :
  parse_offsets name v = inr (b, e) <->
  exists vb ve, v = Array [vb; ve] /\ as_uint64 vb = Some b /\ as_uint64 ve = Some e /\ b <= e.
Proof.
  unfold parse_offsets, as_uint64. split.
  - destruct v; try done. destruct values as [|x [|y []]]; try done. simpl.
    destruct (as_number x) as [tx|] eqn:Hx, (as_number y) as [ty|] eqn:Hy; try done.
    destruct (to_uint64 tx) as [nb|] eqn:Hb; [|done]. destruct (to_uint64 ty) as [ne|] eqn:He; [|done].
    destruct (Z.ltb_spec ne nb); [done|]. intros [= <- <-].
    exists x, y. rewrite Hx, Hy. simpl. by rewrite Hb, He.
  - intros (vb & ve & -> & Hb & He & Hle). simpl.
    destruct (as_number vb); [|done]. destruct (as_number ve); [|done]. simpl in *.
    rewrite Hb, He. by rewrite (proj2 (Z.ltb_ge _ _)).
Qed.

Lemma parse_tensor_inr options start size name v t :
  0 <= start -> start + size <= u64_max ->
  parse_tensor options start size name v = inr t <->
  describes_tensor v t /\ tensor_ok start size options t.
Proof.
  intros Hs Hfit. split.
  - intros H. unfold parse_tensor in H. results H. bools. injection H as <-.
    match goal with Hp : parse_shape _ _ _ _ = _ |- _ =>
      apply parse_shape_inr in Hp as (dims & -> & Hdims & -> & Hk); [|done] end.
    match goal with Hp : parse_offsets _ _ = _ |- _ =>
      apply parse_offsets_inr in Hp as (vb & ve & -> & Hvb & Hve & Hle) end.
    assert (Hdu : Forall is_u64 dims).
    { clear -Hdims. induction Hdims; constructor; [by eapply as_uint64_range|done]. }
    pose proof (product_nonneg dims Hdu) as Hpos. apply as_uint64_range in Hvb as Hbu, Hve as Heu.
    unfold is_u64 in Hbu, Heu.
    match goal with Hp : checked_multiply _ (bit_width ?d) = _ |- _ =>
      pose proof (bit_width_range d); apply checked_multiply_Some in Hp as [-> Hm]; [|lia..] end.
    repeat match goal with Hp : checked_add _ _ = _ |- _ =>
      apply checked_add_Some in Hp as [-> ?]; [|unfold is_u64, u64_max in *; lia..] end.
    match goal with Hp : parse_dtype _ = _ |- _ => apply parse_dtype_Some in Hp as -> end.
    match goal with Hp : check_fields _ _ = _ |- _ => apply check_fields_inr in Hp as Hf end.
    destruct v as [| | | | |members]; try discriminate. simpl in *. simplify_eq.
    match goal with Hp : as_string ?x = _ |- _ => destruct x; try discriminate; simpl in Hp; simplify_eq end.
    match goal with Hp : as_array ?x = _ |- _ => destruct x; try discriminate; simpl in Hp; simplify_eq end.
    split.
    + eexists _, _, vb, ve. by split_and!.
    + apply Forall2_length in Hdims as Hlen.
      constructor; simpl; try done; try lia; try (Z.div_mod_to_equations; lia).
      intros k. specialize (Hk k). lia.
  - intros [(members & dims & vb & ve & -> & Hf & Hdt & Hsh & Hdims & Hoff & Hvb & Hve) Hok].
    destruct Hok as [Hrank Hdu Hk He Hb8 Hfit8 Hbeg Hbytes Hin Hfb Hfe].
    pose proof (product_nonneg _ Hdu) as Hpos. pose proof (bit_width_range (dtype t)).
    unfold parse_tensor. cbn [as_object get_or mbind sum_bind].
    rewrite (proj2 (check_fields_inr name members tt)) by done. cbn [mbind sum_bind].
    rewrite Hdt, Hsh, Hoff. cbn [as_string as_array get_or mbind sum_bind].
    rewrite parse_dtype_name. cbn [get_or mbind sum_bind].
    rewrite (Forall2_length _ _ _ Hdims). rewrite (proj2 (Z.ltb_ge _ _)) by done.
    rewrite (proj2 (parse_shape_inr name dims [] 1 (shape t) (element_count t) ltac:(done))).
    2: { exists (shape t). split_and!; [done..|lia|]. intros k. specialize (Hk k). lia. }
    cbn [mbind sum_bind].
    rewrite (proj2 (checked_multiply_Some (element_count t) (bit_width (dtype t)) (8 * byte_size t)
      ltac:(lia) ltac:(lia))) by lia.
    cbn [get_or mbind sum_bind]. rewrite (Z.mul_comm 8), Z.mod_mul, Z.div_mul by done.
    cbn [Z.eqb negb]. rewrite (proj2 (parse_offsets_inr name _ (data_begin t) (data_end t))).
    2: { exists vb, ve. split_and!; [done..|]. rewrite Hbytes. nia. }
    cbn [mbind sum_bind]. rewrite (proj2 (Z.eqb_eq _ _)) by lia. cbn [negb].
    assert (0 <= byte_size t) by nia.
    rewrite !(proj2 (Z.ltb_ge _ _)) by lia. cbn [orb].
    rewrite (proj2 (checked_add_Some start (data_begin t) (file_begin t) ltac:(unfold is_u64, u64_max in *; lia)
      ltac:(unfold is_u64, u64_max in *; lia))) by lia.
    rewrite (proj2 (checked_add_Some start (data_end t) (file_end t) ltac:(unfold is_u64, u64_max in *; lia)
      ltac:(unfold is_u64, u64_max in *; lia))) by lia.
    cbn [get_or mbind sum_bind]. by destruct t.
Qed.

(** ** Ranges that tile an interval *)

Fixpoint tiles (cursor : Z) (ranges : list DataRange) (end_ : Z) : Prop :=
  match ranges with
  | [] => cursor = end_
  | range :: ranges => range_begin range = cursor /\ tiles (range_end range) ranges end_
  end.

Definition forward (range : DataRange) : Prop := range_begin range <= range_end range.

Lemma check_ranges_inr ranges cursor end_ : check_ranges ranges cursor = inr end_ <-> tiles cursor ranges end_.
Proof.
  revert cursor. induction ranges as [|range ranges IH]; intros cursor; simpl; [split; congruence|].
  destruct (Z.ltb_spec (range_begin range) cursor); [split; [done|lia]|].
  destruct (Z.ltb_spec cursor (range_begin range)); [split; [done|lia]|].
  rewrite IH. split; [intros; split; [lia|done]|by intros [_ ?]].
Qed.

Lemma tiles_le cursor ranges end_ : Forall forward ranges -> tiles cursor ranges end_ -> cursor <= end_.
Proof.
  intros Hf. revert cursor. induction Hf as [|range ranges Hr Hf IH]; intros cursor; simpl; [lia|].
  intros [<- Ht]. apply IH in Ht. unfold forward in Hr. lia.
Qed.

Lemma tiles_begin cursor ranges end_ range :
  Forall forward ranges -> tiles cursor ranges end_ -> range ∈ ranges ->
  cursor <= range_begin range /\ range_end range <= end_.
Proof.
  intros Hf. revert cursor. induction Hf as [|first ranges Hr Hf IH]; intros cursor Ht Hin; [by apply not_elem_of_nil in Hin|].
  destruct Ht as [<- Ht]. unfold forward in Hr. apply elem_of_cons in Hin as [->|Hin].
  - split; [lia|]. by eapply tiles_le.
  - destruct (IH _ Ht Hin). lia.
Qed.

(** Every point of a tiled interval is in exactly one range. *)
Lemma tiles_point cursor ranges end_ i :
  Forall forward ranges -> tiles cursor ranges end_ -> cursor <= i < end_ ->
  exists range, range ∈ ranges /\ range_begin range <= i < range_end range /\
    forall other, other ∈ ranges -> range_begin other <= i < range_end other -> other = range.
Proof.
  intros Hf. revert cursor. induction Hf as [|first ranges Hr Hf IH]; intros cursor Ht Hi; [simpl in Ht; lia|].
  destruct Ht as [<- Ht]. destruct (Z.lt_ge_cases i (range_end first)) as [Hlt|Hge].
  - exists first. split; [by left|]. split; [lia|]. intros other [->|Hin]%elem_of_cons Ho; [done|].
    destruct (tiles_begin _ _ _ _ Hf Ht Hin). lia.
  - destruct (IH _ Ht ltac:(lia)) as (range & Hin & Hri & Huniq). exists range. split; [by right|].
    split; [done|]. intros other [->|Hin']%elem_of_cons Ho; [lia|]. by apply Huniq.
Qed.

(** An empty range can be left out. *)
Lemma tiles_drop_empty cursor l1 range l2 end_ :
  range_begin range = range_end range -> tiles cursor (l1 ++ range :: l2) end_ -> tiles cursor (l1 ++ l2) end_.
Proof.
  intros He. revert cursor. induction l1 as [|first l1 IH]; intros cursor; simpl.
  - intros [<- Ht]. by rewrite He.
  - intros [<- Ht]. split; [done|]. by apply IH.
Qed.

#[export] Instance range_le_total : Total range_le.
Proof.
  intros [b1 e1 n1] [b2 e2 n2]. unfold range_le, range_lt. simpl.
  rewrite (Z.eqb_sym b2 b1), (Z.eqb_sym e2 e1).
  destruct (Z.eqb_spec b1 b2); simpl; [|destruct (Z.ltb_spec b2 b1); [right|left]; destruct (Z.ltb_spec b1 b2); done || lia].
  destruct (Z.eqb_spec e1 e2); simpl; [|destruct (Z.ltb_spec e2 e1); [right|left]; destruct (Z.ltb_spec e1 e2); done || lia].
  destruct (key_lt n2 n1) eqn:Hlt; [right|by left]. destruct (key_lt n1 n2) eqn:Hgt; [|done].
  pose proof (key_lt_trans _ _ _ Hlt Hgt) as Hc. by rewrite key_lt_irrefl in Hc.
Qed.

#[export] Instance range_le_trans : Transitive range_le.
Proof.
  intros [b1 e1 n1] [b2 e2 n2] [b3 e3 n3]. unfold range_le, range_lt. simpl.
  destruct (Z.eqb_spec b2 b1), (Z.eqb_spec b3 b2), (Z.eqb_spec b3 b1); simpl; rewrite ?Z.ltb_ge; try lia.
  destruct (Z.eqb_spec e2 e1), (Z.eqb_spec e3 e2), (Z.eqb_spec e3 e1); simpl; rewrite ?Z.ltb_ge; try lia.
  intros H12 H23. destruct (key_lt n3 n1) eqn:H31; [|done].
  destruct (decide (n1 = n2)) as [->|Hne]; [congruence|].
  pose proof (key_lt_total _ _ H12 (not_eq_sym Hne)) as Hlt.
  pose proof (key_lt_trans _ _ _ H31 Hlt). congruence.
Qed.

Lemma range_le_begin a b : range_le a b -> range_begin a <= range_begin b /\
  (range_begin a = range_begin b -> range_end a <= range_end b).
Proof.
  unfold range_le, range_lt. destruct (Z.eqb_spec (range_begin b) (range_begin a)); simpl.
  - destruct (Z.eqb_spec (range_end b) (range_end a)); simpl; [lia|]. rewrite Z.ltb_ge. lia.
  - rewrite Z.ltb_ge. lia.
Qed.

(** Sorting a tiling gives a tiling: only empty ranges can be out of order. *)
Lemma tiles_sorted cursor sorted ranges end_ :
  StronglySorted range_le sorted -> sorted ≡ₚ ranges -> Forall forward ranges ->
  tiles cursor ranges end_ -> tiles cursor sorted end_.
Proof.
  intros Hs. revert cursor ranges. induction Hs as [|x sorted Hs IH Hx]; intros cursor ranges Hp Hf Ht.
  { by apply Permutation_nil in Hp as ->. }
  destruct ranges as [|y ranges]; [by apply Permutation_nil_r in Hp|].
  assert (Hin : x ∈ y :: ranges) by (rewrite <- Hp; by left).
  pose proof (tiles_begin _ _ _ _ Hf Ht Hin) as [Hxb _].
  assert (Hle : range_le x y).
  { assert (Hy : y ∈ x :: sorted) by (rewrite Hp; by left). apply elem_of_cons in Hy as [->|Hy].
    - unfold range_le, range_lt. rewrite !Z.eqb_refl. apply key_lt_irrefl.
    - rewrite Forall_forall in Hx. by apply Hx. }
  apply range_le_begin in Hle as [Hb He]. pose proof Ht as [Hyb Ht'].
  assert (Hbx : range_begin x = cursor) by lia. split; [done|].
  assert (Hfx : forward x) by (rewrite Forall_forall in Hf; by apply Hf). unfold forward in Hfx.
  destruct (decide (range_begin x = range_end x)) as [Hempty|Hne].
  - apply list_elem_of_split in Hin as (l1 & l2 & Heq). rewrite Heq in Hp, Ht, Hf.
    apply (IH _ (l1 ++ l2)).
    + apply (Permutation_cons_inv (a := x)). by rewrite Hp, Permutation_middle.
    + rewrite Forall_app, Forall_cons in Hf. apply Forall_app. tauto.
    + rewrite <- Hempty, Hbx. by eapply tiles_drop_empty.
  - assert (x = y) as ->.
    { apply elem_of_cons in Hin as [->|Hin]; [done|].
      apply Forall_cons in Hf as [_ Hf]. destruct (tiles_begin _ _ _ _ Hf Ht' Hin). lia. }
    apply (IH _ ranges); [by apply Permutation_cons_inv in Hp|by apply Forall_cons in Hf as [_ ?]|done].
Qed.

Lemma check_sorted_ranges ranges end_ :
  Forall forward ranges ->
  check_ranges (sort_ranges ranges) 0 = inr end_ <-> exists order, order ≡ₚ ranges /\ tiles 0 order end_.
Proof.
  intros Hf. rewrite check_ranges_inr. split.
  - intros Ht. exists (sort_ranges ranges). split; [|done]. apply merge_sort_Permutation.
  - intros (order & Hp & Ht). eapply (tiles_sorted _ _ order); [apply StronglySorted_merge_sort; apply _| | |done].
    + rewrite Hp. apply merge_sort_Permutation.
    + by rewrite Hp.
Qed.

(** ** The whole header *)

Definition describes_metadata (v : Value) (m : list (list Z * list Z)) : Prop :=
  exists items, v = Object items /\ items = prod_map id Json.String <$> m.

Record describes_header (root : list (list Z * Value)) (h : Header) : Prop := {
  described_tensors :
    Forall2 (fun entry tensor => entry.1 = tensor.1 /\ describes_tensor entry.2 tensor.2)
      (tensor_entries root) (tensors h);
  described_metadata :
    match map_find metadata_name root with
    | None => metadata h = []
    | Some v => describes_metadata v (metadata h)
    end
}.

Definition range_of (tensor : list Z * TensorInfo) : DataRange :=
  {| range_begin := data_begin tensor.2; range_end := data_end tensor.2; range_name := tensor.1 |}.

(** A header for a file of [fsize] bytes whose header has [hsize]. *)
Record header_ok (fsize hsize : Z) (options : ReadOptions) (h : Header) : Prop := {
  ok_file_size : file_size h = fsize;
  ok_header_size : header_size h = hsize;
  ok_data_offset : data_offset h = 8 + hsize;
  ok_data_size : data_offset h + data_size h = fsize;
  ok_data_size_nonneg : 0 <= data_size h;
  ok_count : Z.of_nat (length (tensors h)) <= max_tensors options;
  ok_tensors : Forall (fun tensor => tensor_ok (data_offset h) (data_size h) options tensor.2) (tensors h);
  ok_tiling : exists order, order ≡ₚ tensors h /\ tiles 0 (range_of <$> order) (data_size h)
}.

Lemma parse_metadata_inr items found result :
  set_sorted (found.*1 ++ items.*1) ->
  parse_metadata items found = inr result <->
  exists more, result = found ++ more /\ items = prod_map id Json.String <$> more.
Proof.
  revert found. induction items as [|[key v] items IH]; intros found Hs; simpl.
  { split; [intros [= <-]; exists []; by rewrite app_nil_r|].
    intros (more & -> & Hm). symmetry in Hm. apply fmap_nil_inv in Hm as ->. by rewrite app_nil_r. }
  simpl in Hs. split.
  - intros H. results H. destruct v as [| | |text| |]; try done. injection Ha as <-. erewrite emplace_at_end in H by done.
    apply IH in H as (more & -> & ->); [|by rewrite fmap_app, <- app_assoc].
    exists ((key, text) :: more). by rewrite <- app_assoc.
  - intros (more & -> & Hm). destruct more as [|[k text] more]; [done|]. cbn in Hm. injection Hm as -> -> ->.
    cbn [as_string get_or mbind sum_bind]. erewrite emplace_at_end by done. apply IH.
    + by rewrite fmap_app, <- app_assoc.
    + exists more. by rewrite <- app_assoc.
Qed.

Lemma parse_entries_inr options start size entries T M R T' M' R' :
  set_sorted (T.*1 ++ entries.*1) ->
  parse_entries options start size entries (T, M, R) = inr (T', M', R') <->
  exists more, T' = T ++ more /\ R' = R ++ (range_of <$> more) /\
    Forall2 (fun entry tensor => entry.1 = tensor.1 /\ parse_tensor options start size entry.1 entry.2 = inr tensor.2)
      (tensor_entries entries) more /\
    match map_find metadata_name entries with
    | None => M' = M
    | Some v => exists items, v = Object items /\ parse_metadata items M = inr M'
    end.
Proof.
  revert T M R. induction entries as [|[name v] entries IH]; intros T M R Hs.
  { simpl. split.
    - intros [= <- <- <-]. exists []. rewrite !app_nil_r. split_and!; [done..|constructor|done].
    - intros (more & -> & -> & Hm & ->). apply Forall2_nil_inv_l in Hm as ->. by rewrite !app_nil_r. }
  cbn [parse_entries]. unfold tensor_entries. rewrite filter_cons. cbn [fst map_find].
  fold (tensor_entries entries). simpl in Hs.
  destruct (decide (name = metadata_name)) as [->|Hne].
  - rewrite !bool_decide_true by done. rewrite decide_False by (intros Hc; by apply Hc).
    pose proof Hs as (HsT & Hse & HTe)%set_sorted_app. apply StronglySorted_inv in Hse as [Hse Hfe].
    assert (Hnone : map_find metadata_name entries = None).
    { apply map_find_None. intros Hin. rewrite Forall_forall in Hfe. apply Hfe in Hin.
      by rewrite key_lt_irrefl in Hin. }
    assert (Hs' : set_sorted (T.*1 ++ entries.*1)).
    { apply set_sorted_app_intro; [done|done|]. intros a b Ha Hb. apply HTe; [done|by right]. }
    split.
    + intros H. results H. apply IH in H as (more & -> & -> & Hm & HM); [|done]. rewrite Hnone in HM. subst.
      exists more. split_and!; [done..|]. destruct v; try done. eexists. split; [done|]. by injection Ha as ->.
    + intros (more & -> & -> & Hm & items & -> & HM). cbn [as_object get_or mbind sum_bind]. rewrite HM.
      cbn [mbind sum_bind]. apply IH; [done|]. exists more. by rewrite Hnone.
  - rewrite !bool_decide_false by done. rewrite decide_True by done. split.
    + intros H. results H. erewrite emplace_at_end in H by done.
      apply IH in H as (more & -> & -> & Hm & HM); [|by rewrite fmap_app, <- app_assoc].
      exists ((name, a) :: more). rewrite <- !app_assoc. split_and!; [done..|by constructor|done].
    + intros (more & -> & -> & Hm & HM). destruct more as [|[k t] more]; [by inversion Hm|].
      apply Forall2_cons in Hm as [[Hk Ht] Hm]. simpl in Hk, Ht. subst k. rewrite Ht. cbn [mbind sum_bind].
      erewrite emplace_at_end by done. apply IH; [by rewrite fmap_app, <- app_assoc|].
      exists more. rewrite <- !app_assoc. by split_and!.
Qed.

Lemma tensor_forward start size options name t : tensor_ok start size options t -> forward (range_of (name, t)).
Proof.
  intros Hok. unfold forward. simpl. rewrite (tensor_bytes _ _ _ _ Hok).
  pose proof (tensor_bits _ _ _ _ Hok). pose proof (product_nonneg _ (tensor_dims _ _ _ _ Hok)).
  rewrite <- (tensor_elements _ _ _ _ Hok) in *. pose proof (bit_width_range (dtype t)). nia.
Qed.

Lemma tensors_forward start size options ts :
  Forall (fun tensor => tensor_ok start size options tensor.2) ts -> Forall forward (range_of <$> ts).
Proof.
  intros Hall. apply Forall_fmap. eapply Forall_impl; [exact Hall|]. intros [name t] Hok.
  by eapply tensor_forward.
Qed.

Lemma parse_header_document_inr doc fsize hsize options h :
  well_formed doc -> is_u64 fsize -> 0 <= hsize -> 8 + hsize <= fsize ->
  parse_header_document doc fsize hsize options = inr h <->
  exists root, doc = Object root /\ describes_header root h /\ header_ok fsize hsize options h.
Proof.
  intros Hwf Hfu Hh Hle. unfold is_u64 in Hfu. unfold parse_header_document.
  assert (Hstart : checked_add 8 hsize = Some (8 + hsize))
    by (apply checked_add_Some; unfold is_u64, u64_max in *; lia).
  assert (Hmeta : forall root v, doc = Object root -> map_find metadata_name root = Some v -> forall items,
    v = Object items -> set_sorted items.*1).
  { intros root v -> Hv items ->. destruct Hwf as [Hwf _]. apply map_find_elem in Hv.
    apply (foldr_and_Forall (fun kv => utf8 (fst kv) /\ well_formed (snd kv))) in Hwf.
    rewrite Forall_forall in Hwf. apply Hwf in Hv as [_ [_ Hk]]. by apply keys_sorted_keys in Hk. }
  rewrite Hstart. cbn [get_or mbind sum_bind]. rewrite (proj2 (Z.ltb_ge _ _)) by lia.
  assert (Htensor : forall name v t, parse_tensor options (8 + hsize) (fsize - (8 + hsize)) name v = inr t <->
    describes_tensor v t /\ tensor_ok (8 + hsize) (fsize - (8 + hsize)) options t).
  { intros. apply parse_tensor_inr; [lia|]. unfold u64_max. lia. }
  destruct doc as [| | | | |root]; try (split; [discriminate|by intros (? & ? & _)]).
  cbn [as_object get_or mbind sum_bind].
  assert (Hs : set_sorted root.*1) by (destruct Hwf as [_ Hk]; by apply keys_sorted_keys in Hk).
  split.
  - intros H. results H. bools. injection H as <-.
    match goal with
    | He' : parse_entries _ _ _ _ _ = _, Hc' : check_ranges _ _ = inr _, Hz : _ = fsize - _ |- _ =>
        rename He' into He, Hc' into Hc; rewrite Hz in Hc
    end.
    apply parse_entries_inr in He as (more & -> & -> & Hm & HM); [|done]. simpl in *.
    assert (Hall : Forall (fun tensor => tensor_ok (8 + hsize) (fsize - (8 + hsize)) options tensor.2) more).
    { clear -Hm Htensor. induction Hm as [|x y l k [Hxy Hp] Hm IH]; [by apply Forall_nil|].
      apply Forall_cons. split; [by apply Htensor in Hp as [_ ?]|done]. }
    apply check_sorted_ranges in Hc.
    2: by eapply tensors_forward.
    destruct Hc as (order & Hp & Ht). exists root. split; [done|]. split; constructor; simpl; try done; try lia.
    + eapply Forall2_impl; [exact Hm|]. intros entry tensor [? Hp']. by apply Htensor in Hp' as [? _].
    + destruct (map_find metadata_name root) as [v|] eqn:Hv; [|done]. destruct HM as (items & -> & HM).
      apply parse_metadata_inr in HM as (more' & -> & ->); [by exists (prod_map id Json.String <$> more')|].
      by eapply Hmeta.
    + by rewrite <- (Forall2_length _ _ _ Hm).
    + apply Permutation_map_inv in Hp as (order' & -> & Hp). exists order'. by rewrite Hp.
  - intros (root' & [= <-] & [Hd HM] & [<- <- Hoff Hsize Hpos Hcount Hall (order & Hp & Ht)]).
    rewrite (Forall2_length _ _ _ Hd), (proj2 (Z.ltb_ge _ _)) by done.
    rewrite Hoff in *. assert (Hds : file_size h - (8 + header_size h) = data_size h) by lia.
    rewrite Hds in *.
    rewrite (proj2 (parse_entries_inr options (8 + header_size h) (data_size h) root [] [] []
      (tensors h) (metadata h) (range_of <$> tensors h) Hs)).
    + cbn [mbind sum_bind]. rewrite (proj2 (check_sorted_ranges _ (data_size h) (tensors_forward _ _ _ _ Hall))).
      * cbn [mbind sum_bind]. rewrite Z.eqb_refl. cbn [negb]. rewrite <- Hoff. by destruct h.
      * exists (range_of <$> order). split; [by rewrite Hp|done].
    + exists (tensors h). split_and!; [done..| |].
      * clear -Hd Hall Htensor. induction Hd as [|x y l k [Hxy Hp] Hm IH]; constructor.
        -- split; [done|]. apply Forall_cons in Hall as [? _]. by apply Htensor.
        -- apply IH. by apply Forall_cons in Hall as [_ ?].
      * destruct (map_find metadata_name root) as [v|] eqn:Hv; [|done]. destruct HM as (items & -> & Hitems).
        exists items. split; [done|]. apply parse_metadata_inr; [by eapply Hmeta|]. by exists (metadata h).
Qed.

(** ** The header's length *)

Fixpoint little_endian (n : nat) (z : Z) : list Z :=
  match n with
  | O => []
  | S n => z mod 256 :: little_endian n (z / 256)
  end.

Lemma lor_shift_add a z i : is_u8 a -> 0 <= i -> Z.lor (Z.shiftl a i) (Z.shiftl z (i + 8)) = Z.shiftl (a + 256 * z) i.
Proof.
  intros Ha Hi. replace (Z.shiftl z (i + 8)) with (Z.shiftl (Z.shiftl z 8) i)
    by (rewrite Z.shiftl_shiftl by done; f_equal; lia).
  rewrite <- Z.shiftl_lor. f_equal. unfold is_u8 in Ha. rewrite lor_shiftl_add by done. lia.
Qed.

Lemma decode_little_endian_shift index bytes :
  Forall is_u8 bytes -> 0 <= index ->
  decode_little_endian_from index bytes = Z.shiftl (foldr (fun byte n => byte + 256 * n) 0 bytes) (index * 8).
Proof.
  intros Hb. revert index. induction Hb as [|byte bytes Hbyte Hb IH]; intros index Hi; simpl.
  { by rewrite Z.shiftl_0_l. }
  rewrite IH by lia. replace ((index + 1) * 8) with (index * 8 + 8) by lia. apply lor_shift_add; [done|lia].
Qed.

Lemma decode_little_endian_exact bytes z n :
  Forall is_u8 bytes -> length bytes = n -> 0 <= z < 256 ^ Z.of_nat n ->
  decode_little_endian_u64 bytes = z <-> bytes = little_endian n z.
Proof.
  intros Hb Hn. unfold decode_little_endian_u64. rewrite decode_little_endian_shift by done.
  rewrite Z.shiftl_0_r. revert z n Hn. induction Hb as [|byte bytes Hbyte Hb IH]; intros z n Hn Hz; simpl in *.
  { subst n. simpl in *. split; [done|]. intros _. lia. }
  subst n. cbn [little_endian]. rewrite Nat2Z.inj_succ, Z.pow_succ_r in Hz by lia. unfold is_u8 in Hbyte.
  specialize (IH (z / 256) _ eq_refl ltac:(Z.div_mod_to_equations; lia)). split.
  - intros <-. f_equal; [Z.div_mod_to_equations; lia|]. apply IH. Z.div_mod_to_equations. lia.
  - intros [= -> Hl]. apply IH in Hl. Z.div_mod_to_equations. lia.
Qed.

Lemma decode_little_endian_range bytes :
  Forall is_u8 bytes -> 0 <= decode_little_endian_u64 bytes < 256 ^ Z.of_nat (length bytes).
Proof.
  intros Hb. unfold decode_little_endian_u64. rewrite decode_little_endian_shift, Z.shiftl_0_r by done.
  induction Hb as [|byte bytes Hbyte Hb IH]; simpl foldr; [simpl; lia|].
  cbn [length]. rewrite Nat2Z.inj_succ, Z.pow_succ_r by lia. unfold is_u8 in Hbyte. lia.
Qed.

Lemma read_exact_Some unread size got left_ :
  0 <= size <= streamsize_max ->
  read_exact unread size = Some (got, left_) <-> unread = got ++ left_ /\ Z.of_nat (length got) = size.
Proof.
  intros Hs. unfold read_exact. destruct (Z.eqb_spec size 0) as [->|Hne].
  { split; [by intros [= <- <-]|]. intros [-> Hlen]. destruct got; [done|simpl in Hlen; lia]. }
  rewrite (proj2 (Z.ltb_ge _ _)) by lia. destruct (Z.ltb_spec (Z.of_nat (length unread)) size).
  - split; [done|]. intros [-> Hlen]. rewrite length_app in *. lia.
  - split.
    + intros [= <- <-]. rewrite take_drop, length_take. split; [done|]. lia.
    + intros [-> <-]. rewrite Nat2Z.id, take_app_length, drop_app_length. done.
Qed.

(** ** Files as streams present them *)

Record file_ok (f : file) : Prop := {
  file_bytes : Forall is_u8 (content f);
  file_position : tell_end f < 2 ^ 63
}.

Lemma determine_file_size_Some f n :
  tell_end f < 2 ^ 63 -> determine_file_size f = Some n <-> rewinds f = true /\ tell_end f = n /\ 0 <= n.
Proof.
  intros Ht. unfold determine_file_size. destruct (Z.eqb_spec (tell_end f) (-1)) as [->|]; [split; [done|lia]|].
  destruct (Z.ltb_spec (tell_end f) 0); [split; [done|lia]|].
  destruct (rewinds f); [|split; [done|by intros [? _]]].
  rewrite u64_small by (unfold is_u64; lia). split; [by intros [= <-]|]. by intros (_ & -> & _).
Qed.

(** The bytes of a checkpoint file and what its header says. *)
Record file_describes (f : file) (options : ReadOptions) (h : Header) : Prop := {
  file_rewinds : rewinds f = true;
  file_length : tell_end f = file_size h;
  file_within : file_size h <= max_file_bytes options;
  header_within : 0 <= header_size h <= max_header_bytes options;
  header_readable : header_size h <= streamsize_max;
  file_header : exists text more root s,
    content f = little_endian 8 (header_size h) ++ text ++ more /\
    Z.of_nat (length text) = header_size h /\ head text = Some 123 /\
    parse text (json_options options) = Good (Object root) s /\ describes_header root h
}.

Lemma read_header_inr open path f options h :
  open path = Some f -> file_ok f -> options_ok (json_options options) ->
  read_header open path options = inr h <->
  file_describes f options h /\ header_ok (file_size h) (header_size h) options h.
Proof.
  intros Hopen [Hbytes Hend] Hopt. unfold read_header. rewrite Hopen. cbn [get_or mbind sum_bind].
  split.
  - intros H. results H. bools.
    match goal with Hd : determine_file_size _ = _ |- _ =>
      apply determine_file_size_Some in Hd as (Hrew & Hlen & Hnn); [|done] end.
    match goal with Hr : read_exact _ 8 = _ |- _ => apply read_exact_Some in Hr as [Hc Hl8]; [|done] end.
    rewrite Hc in Hbytes. apply Forall_app in Hbytes as [Hlow Hrest].
    pose proof (decode_little_endian_range _ Hlow) as Hrange. rewrite Hl8 in Hrange. change (256 ^ 8) with (2 ^ 64) in Hrange.
    match goal with Hr : read_exact _ (decode_little_endian_u64 _) = _ |- _ =>
      apply read_exact_Some in Hr as [Hc' Hlt]; [|lia] end.
    match goal with Hs : checked_add 8 _ = _ |- _ =>
      apply checked_add_Some in Hs as [-> _]; [|done|unfold is_u64; lia] end.
    rewrite Hc' in Hrest. apply Forall_app in Hrest as [Hrest _].
    destruct (parse _ _) as [doc s| |] eqn:Hp; [|done..].
    apply parse_header_document_inr in H as (root & -> & Hd & Hok);
      [|by eapply parse_well_formed|unfold is_u64; lia|lia|lia].
    pose proof (ok_file_size _ _ _ _ Hok) as Hfs. pose proof (ok_header_size _ _ _ _ Hok) as Hhs.
    split; [|by rewrite Hfs, Hhs]. constructor; try done; try lia.
    eexists _, _, root, s. rewrite Hc, Hc'. split.
    { f_equal. apply decode_little_endian_exact; [done|lia|simpl; lia|done]. }
    split_and!; [lia|by apply bool_decide_eq_true in Hb3|done|done].
  - intros [[Hrew Hlen Hmax Hh Hss (text & more & root & s & Hc & Hl & Hhead & Hp & Hd)] Hok].
    pose proof (ok_data_size _ _ _ _ Hok). pose proof (ok_data_offset _ _ _ _ Hok).
    pose proof (ok_data_size_nonneg _ _ _ _ Hok).
    rewrite (proj2 (determine_file_size_Some f (file_size h) Hend)) by (split_and!; [done|done|lia]).
    cbn [get_or mbind sum_bind]. rewrite (proj2 (Z.ltb_ge _ _)) by done. rewrite (proj2 (Z.ltb_ge _ 8)) by lia.
    rewrite Hc. rewrite (proj2 (read_exact_Some _ 8 (little_endian 8 (header_size h)) (text ++ more) ltac:(done))) by (by split).
    cbn [get_or mbind sum_bind].
    rewrite Hc in Hbytes. apply Forall_app in Hbytes as [Hlow Hrest].
    assert (Hdec : decode_little_endian_u64 (little_endian 8 (header_size h)) = header_size h)
      by (apply (decode_little_endian_exact _ _ 8); [done|done| |done]; unfold streamsize_max in Hss; simpl; lia).
    rewrite Hdec. rewrite !(proj2 (Z.ltb_ge _ (header_size h))) by (unfold u64_max, streamsize_max in *; lia).
    cbn [orb]. rewrite (proj2 (checked_add_Some 8 (header_size h) (8 + header_size h) ltac:(done)
      ltac:(unfold is_u64, streamsize_max in *; lia))) by (unfold u64_max, streamsize_max in *; lia).
    cbn [get_or mbind sum_bind]. rewrite (proj2 (Z.ltb_ge _ _)) by lia.
    rewrite (proj2 (read_exact_Some _ (header_size h) text more ltac:(lia))) by done.
    cbn [get_or mbind sum_bind]. rewrite bool_decide_true by done. cbn [negb]. rewrite Hp.
    apply parse_header_document_inr; [|unfold is_u64; lia|lia|lia|by exists root].
    apply Forall_app in Hrest as [Hrest _]. by eapply parse_well_formed.
Qed.

(** ** Looking up tensors *)

Lemma set_sorted_filter {A} (P : list Z * A -> Prop) `{!forall kv, Decision (P kv)} (kvs : list (list Z * A)) :
  set_sorted kvs.*1 -> set_sorted (filter P kvs).*1.
Proof.
  unfold set_sorted. induction kvs as [|kv kvs IH]; intros Hs; [constructor|]. simpl in Hs.
  apply StronglySorted_inv in Hs as [Hs Hf]. rewrite filter_cons. destruct (decide (P kv)); [|by apply IH].
  simpl. constructor; [by apply IH|]. apply Forall_fmap, Forall_forall. intros kv' [_ Hin]%list_elem_of_filter.
  rewrite Forall_fmap, Forall_forall in Hf. by apply Hf.
Qed.

Lemma described_names root h : describes_header root h -> (tensors h).*1 = (tensor_entries root).*1.
Proof.
  intros [Hd _]. induction Hd as [|entry tensor entries ts [Hn _] Hd IH]; [done|]. by rewrite !fmap_cons, IH, Hn.
Qed.

Lemma file_describes_sorted f options h :
  file_ok f -> options_ok (json_options options) -> file_describes f options h -> keys_sorted (tensors h).
Proof.
  intros [Hb _] Ho [_ _ _ _ _ (text & more & root & s & Hc & _ & _ & Hp & Hd)].
  rewrite Hc, !Forall_app in Hb. apply keys_sorted_keys. rewrite (described_names root) by done.
  apply set_sorted_filter, keys_sorted_keys. apply parse_well_formed in Hp; [by destruct Hp|tauto|done].
Qed.

(** C32. [read_header] accepts exactly the well-formed checkpoint files and
    returns exactly what they say.  On a file that opens, its result is the
    header [h] if and only if the file is a little-endian length, that many
    bytes of JSON from an opening brace, and data; the JSON describes [h],
    entry by entry; each tensor's shape fills its bytes; the tensors, in some
    order, lie one after another from the start of the data to its end; and
    every limit of the options holds. *)
Theorem read_header_exact open path f options h :
  open path = Some f -> file_ok f -> options_ok (json_options options) ->
  read_header open path options = inr h <->
  file_describes f options h /\ header_ok (file_size h) (header_size h) options h.
Proof. apply read_header_inr. Qed.

(** A file with two tensors, the second first in the data. *)
Definition sample_json : list Z :=
  (fun byte => if byte =? 39 then 34 else byte) <$>
  lit "{'a':{'dtype':'F16','shape':[2],'data_offsets':[4,8]},'b':{'dtype':'U8','shape':[2,2],'data_offsets':[0,4]}}".
Definition sample_file : file := {|
  tell_end := 124; rewinds := true; content := little_endian 8 108 ++ sample_json ++ [1; 2; 3; 4; 5; 6; 7; 8]
|}.
Definition sample_options : ReadOptions := {|
  max_file_bytes := 1000; max_header_bytes := 500; max_tensors := 4; max_rank := 2; json_options := default_options
|}.
Definition sample_header : Header := {|
  file_size := 124; header_size := 108; data_offset := 116; data_size := 8;
  tensors := [(lit "a", {| dtype := kF16; shape := [2]; element_count := 2; byte_size := 4; data_begin := 4;
                           data_end := 8; file_begin := 120; file_end := 124 |});
              (lit "b", {| dtype := kU8; shape := [2; 2]; element_count := 4; byte_size := 4; data_begin := 0;
                           data_end := 4; file_begin := 116; file_end := 120 |})];
  metadata := []
|}.

Lemma sample_file_ok : file_ok sample_file.
Proof.
  split; [|vm_compute; reflexivity]. apply Forall_forall. intros byte Hin.
  assert (Hall : forallb (fun byte => (0 <=? byte) && (byte <? 2 ^ 8)) (content sample_file) = true)
    by (vm_compute; reflexivity).
  rewrite forallb_forall in Hall. apply list_elem_of_In, Hall in Hin. bools. done.
Qed.

Lemma default_options_ok : options_ok default_options.
Proof. by constructor. Qed.

Lemma read_header_exact_witness :
  file_describes sample_file sample_options sample_header /\ header_ok 124 108 sample_options sample_header.
Proof.
  apply (read_header_exact (fun _ => Some sample_file) [] sample_file sample_options sample_header).
  - reflexivity.
  - exact sample_file_ok.
  - exact default_options_ok.
  - vm_compute. reflexivity.
Defined.

(** The tensors of an accepted file partition its data: every byte of
    the data section belongs to exactly one tensor, and each tensor's bytes
    lie after the header and before the end of the file, at the offsets it
    records, exactly as many as its shape and element type need. *)
Theorem read_header_partition open path f options h :
  open path = Some f -> file_ok f -> options_ok (json_options options) ->
  read_header open path options = inr h ->
  (forall i, 0 <= i < data_size h ->
     exists name t, find_tensor name h = Some t /\ data_begin t <= i < data_end t /\
       forall name' t', find_tensor name' h = Some t' -> data_begin t' <= i < data_end t' ->
         name' = name /\ t' = t) /\
  (forall name t, find_tensor name h = Some t ->
     element_count t = foldr Z.mul 1 (shape t) /\
     8 * (file_end t - file_begin t) = element_count t * bit_width (dtype t) /\
     file_begin t = data_offset h + data_begin t /\
     8 + header_size h <= file_begin t <= file_end t /\ file_end t <= tell_end f).
Proof.
  intros Hopen Hf Hopt H. apply (read_header_inr _ _ f) in H as [Hd Hok]; [|done..].
  pose proof (file_describes_sorted f options h Hf Hopt Hd) as Hs.
  destruct Hok as [_ _ Hoff Hsize Hpos _ Hall (order & Hp & Ht)]. split.
  - intros i Hi. pose proof (tensors_forward _ _ _ _ Hall) as Hfw. rewrite <- Hp in Hfw.
    destruct (tiles_point _ _ _ i Hfw Ht Hi) as (range & Hin & Hri & Huniq).
    apply list_elem_of_fmap in Hin as ([name t] & -> & Hin). rewrite Hp in Hin. exists name, t.
    split; [by apply elem_map_find|]. split; [done|]. intros name' t' Hfind Hi'. apply map_find_elem in Hfind as Hin'.
    assert (He : range_of (name', t') = range_of (name, t)).
    { apply Huniq; [|done]. apply list_elem_of_fmap. exists (name', t'). by rewrite Hp. }
    injection He as _ _ ->. split; [done|]. apply (elem_map_find _ _ _ Hs) in Hin. unfold find_tensor in Hfind. congruence.
  - intros name t Hfind. apply map_find_elem in Hfind. rewrite Forall_forall in Hall. apply Hall in Hfind as Hok.
    pose proof (tensor_forward _ _ _ name _ Hok) as Hfwd. unfold forward in Hfwd. simpl in *.
    pose proof (file_length _ _ _ Hd). destruct Hok. simpl in *. split_and!; try done; lia.
Qed.

Lemma read_header_partition_witness :
  exists name t, find_tensor name sample_header = Some t /\ data_begin t <= 5 < data_end t.
Proof.
  destruct (read_header_partition (fun _ => Some sample_file) [] sample_file sample_options sample_header) as [Hpart _].
  - reflexivity.
  - exact sample_file_ok.
  - exact default_options_ok.
  - vm_compute. reflexivity.
  - destruct (Hpart 5) as (name & t & Hfind & Hi & _).
    + split; [vm_compute; discriminate|vm_compute; reflexivity].
    + exists name, t. split; [exact Hfind|exact Hi].
Defined.

(** ** The index *)

(** A usable entry of the weight map. *)
Definition entry_ok (entry : list Z * list Z) : Prop := entry.1 <> [] /\ entry.2 <> [] /\ 0 ∉ entry.2.

Lemma existsb_zero l : existsb (Z.eqb 0) l = false <-> 0 ∉ l.
Proof.
  rewrite <- not_true_iff_false, existsb_exists. split; intros Hn Hin; apply Hn.
  - exists 0. by rewrite <- list_elem_of_In.
  - destruct Hin as (x & Hin & Hx). apply Z.eqb_eq in Hx as <-. by apply list_elem_of_In.
Qed.

Lemma parse_weight_map_inr options items map set map' set' :
  set_sorted (map.*1 ++ items.*1) -> Z.of_nat (length set) <= index_max_shards options ->
  parse_weight_map options items map set = inr (map', set') <->
  exists more, map' = map ++ more /\ items = prod_map id Json.String <$> more /\ Forall entry_ok more /\
    set' = emplace_all more.*2 set /\ Z.of_nat (length set') <= index_max_shards options.
Proof.
  revert map set. induction items as [|[name v] items IH]; intros map set Hs Hlen; cbn [parse_weight_map].
  { split.
    - intros [= <- <-]. exists []. rewrite app_nil_r. split_and!; [done|done|constructor|done|done].
    - intros (more & -> & Hm & _ & -> & _). symmetry in Hm. apply fmap_nil_inv in Hm as ->. by rewrite app_nil_r. }
  simpl in Hs. split.
  - intros H. destruct v as [| | |shard| |]; try done. simpl in H. results H. bools.
    erewrite emplace_at_end in H by done. apply IH in H as (more & -> & -> & Hm & -> & Hlen');
      [|by rewrite fmap_app, <- app_assoc|done].
    exists ((name, shard) :: more). rewrite <- app_assoc. split_and!; try done.
    constructor; [|done]. repeat match goal with Hd : bool_decide _ = false |- _ => apply bool_decide_eq_false in Hd end.
    split_and!; [done|done|by apply existsb_zero].
  - intros (more & -> & Hm & Hall & -> & Hlen'). destruct more as [|[k shard] more]; [done|].
    cbn in Hm. injection Hm as -> -> ->. apply Forall_cons in Hall as [(Hk & Hsh & Hz) Hall]. simpl in Hk, Hsh, Hz. rewrite fmap_cons in *. cbn [snd as_string] in *.
    rewrite !bool_decide_false, (proj2 (existsb_zero shard)) by done. cbn [orb].
    pose proof (emplace_all_length more.*2 (set_emplace shard set)) as Hle.
    change (emplace_all (shard :: more.*2) set) with (emplace_all more.*2 (set_emplace shard set)) in *.
    rewrite (proj2 (Z.ltb_ge _ _)) by lia. erewrite emplace_at_end by done. apply IH.
    + by rewrite fmap_app, <- app_assoc.
    + lia.
    + exists more. by rewrite <- app_assoc.
Qed.

(** What an index document says. *)
Record describes_index (root : list (list Z * Value)) (i : Index) : Prop := {
  described_map : map_find (lit "weight_map") root = Some (Object (prod_map id Json.String <$> weight_map i));
  described_index_metadata :
    match map_find (lit "metadata") root with
    | None => index_metadata i = [] /\ total_size i = None
    | Some v => v = Object (index_metadata i) /\
        match map_find (lit "total_size") (index_metadata i) with
        | None => total_size i = None
        | Some total => exists n, as_uint64 total = Some n /\ total_size i = Some n
        end
    end
}.

Record index_ok (options : IndexReadOptions) (i : Index) : Prop := {
  index_nonempty : weight_map i <> [];
  index_count : Z.of_nat (length (weight_map i)) <= index_max_tensors options;
  index_entries : Forall entry_ok (weight_map i);
  index_shards_sorted : set_sorted (shards i);
  index_shards : forall shard, shard ∈ shards i <-> shard ∈ (weight_map i).*2;
  index_shard_count : Z.of_nat (length (shards i)) <= index_max_shards options
}.

Lemma parse_index_metadata_inr root members total :
  parse_index_metadata root = inr (members, total) <->
  match map_find (lit "metadata") root with
  | None => members = [] /\ total = None
  | Some v => v = Object members /\
      match map_find (lit "total_size") members with
      | None => total = None
      | Some value => exists n, as_uint64 value = Some n /\ total = Some n
      end
  end.
Proof.
  unfold parse_index_metadata. destruct (map_find (lit "metadata") root) as [v|].
  2: { split; [by intros [= <- <-]|]. by intros [-> ->]. }
  split.
  - intros H. results H. destruct v as [| | | | |kvs]; try done. injection Ha as ->.
    destruct (map_find (lit "total_size") a) as [value|] eqn:Hv.
    + results H. injection H as <- <-. rewrite Hv. split; [done|]. eauto.
    + injection H as <- <-. by rewrite Hv.
  - intros [-> H]. cbn [as_object get_or mbind sum_bind].
    destruct (map_find (lit "total_size") members) as [value|]; [|by subst].
    destruct H as (n & -> & ->). done.
Qed.

Lemma parse_index_document_inr doc options i :
  well_formed doc -> 0 <= index_max_shards options ->
  parse_index_document doc options = inr i <->
  exists root, doc = Object root /\ describes_index root i /\ index_ok options i.
Proof.
  intros Hwf Hmax. unfold parse_index_document.
  destruct doc as [| | | | |root]; try (split; [discriminate|by intros (? & ? & _)]).
  cbn [as_object get_or mbind sum_bind].
  assert (Hitems : forall items, map_find (lit "weight_map") root = Some (Object items) -> set_sorted items.*1).
  { intros items Hv. destruct Hwf as [Hwf _]. apply map_find_elem in Hv.
    apply (foldr_and_Forall (fun kv => utf8 (fst kv) /\ well_formed (snd kv))) in Hwf.
    rewrite Forall_forall in Hwf. apply Hwf in Hv as [_ [_ Hk]]. by apply keys_sorted_keys in Hk. }
  split.
  - intros H. results H. rename Ha into Hv. destruct a as [| | | | |[|item items]]; try done. cbn [as_object] in H.
    results H. rename Ha1 into Hw, Ha2 into Hm. injection Ha0 as <- <-.
    apply parse_weight_map_inr in Hw as (more & -> & Heq & Hall & -> & Hlen); [|exact (Hitems _ Hv)|exact Hmax].
    apply parse_index_metadata_inr in Hm.
    injection H as <-. exists root. split; [done|]. rewrite Heq in *. bools. split; constructor; simpl; try done.
    + by intros ->.
    + by rewrite length_fmap in *.
    + apply emplace_all_sorted. constructor.
    + intros shard. rewrite elem_of_emplace_all, elem_of_nil. tauto.
  - intros (root' & [= <-] & [Hv Hm] & [Hne Hcount Hall Hsort Hsh Hlen]). specialize (Hitems _ Hv).
    rewrite Hv. cbn [get_or mbind sum_bind as_object].
    assert (Hw : parse_weight_map options (prod_map id Json.String <$> weight_map i) [] [] =
      inr (weight_map i, shards i)).
    { apply parse_weight_map_inr; [done|done|]. exists (weight_map i). split_and!; try done.
      apply set_sorted_ext; [done|apply emplace_all_sorted; constructor|].
      intros x. rewrite elem_of_emplace_all, elem_of_nil, Hsh. tauto. }
    destruct (prod_map id Json.String <$> weight_map i) as [|item items] eqn:Heq; [by apply fmap_nil_inv in Heq|].
    rewrite <- Heq, length_fmap, (proj2 (Z.ltb_ge _ _)) by done. rewrite Heq, Hw. cbn [mbind sum_bind].
    rewrite (proj2 (parse_index_metadata_inr root (index_metadata i) (total_size i))) by done.
    cbn [mbind sum_bind]. by destruct i.
Qed.

(** The bytes of an index file and what it says. *)
Record index_file_describes (f : file) (options : IndexReadOptions) (i : Index) : Prop := {
  index_rewinds : rewinds f = true;
  index_length : 0 <= tell_end f <= index_max_file_bytes options;
  index_text : exists text more root s,
    content f = text ++ more /\ Z.of_nat (length text) = tell_end f /\
    parse text (index_json_options options) = Good (Object root) s /\ describes_index root i
}.

(** [read_index] returns an index exactly when the file says it: the
    weight map is the JSON member of that name, non-empty, with a name and a
    shard without NUL in every entry; the shards are, in order and once each,
    the values of the weight map; [total_size] is the metadata's; and the
    limits hold. *)
Theorem read_index_exact open path f options i :
  open path = Some f -> file_ok f -> options_ok (index_json_options options) -> 0 <= index_max_shards options ->
  read_index open path options = inr i <-> index_file_describes f options i /\ index_ok options i.
Proof.
  intros Hopen [Hbytes Hend] Hopt Hmax. unfold read_index. rewrite Hopen. cbn [get_or mbind sum_bind]. split.
  - intros H. results H. bools.
    match goal with Hd : determine_file_size _ = _ |- _ =>
      apply determine_file_size_Some in Hd as (Hrew & Hlen & Hnn); [|done] end.
    match goal with Hr : read_exact _ _ = _ |- _ => apply read_exact_Some in Hr as [Hc Hl]; [|lia] end.
    rewrite Hc in Hbytes. apply Forall_app in Hbytes as [Hlow _].
    destruct (parse _ _) as [doc s| |] eqn:Hp; [|done..].
    apply parse_index_document_inr in H as (root & -> & Hd & Hok); [|by eapply parse_well_formed|done].
    split; [|done]. constructor; [done|lia|]. eexists _, _, root, s. split_and!; [done|lia|done|done].
  - intros [[Hrew Hlen (text & more & root & s & Hc & Hl & Hp & Hd)] Hok].
    rewrite (proj2 (determine_file_size_Some f (tell_end f) Hend)) by (split_and!; [done|done|lia]).
    cbn [get_or mbind sum_bind]. rewrite !(proj2 (Z.ltb_ge _ (tell_end f))) by (unfold u64_max, streamsize_max; lia).
    cbn [orb]. rewrite (proj2 (read_exact_Some _ (tell_end f) text more ltac:(unfold streamsize_max; lia))) by done.
    cbn [get_or mbind sum_bind]. rewrite Hp. apply parse_index_document_inr; [|done|by exists root].
    rewrite Hc in Hbytes. apply Forall_app in Hbytes as [Hlow _]. by eapply parse_well_formed.
Qed.

Definition sample_index_json : list Z :=
  (fun byte => if byte =? 39 then 34 else byte) <$>
  lit "{'weight_map':{'b':'x.safetensors','a':'x.safetensors'},'metadata':{'total_size':8}}".
Definition sample_index_file : file := {|
  tell_end := Z.of_nat (length sample_index_json); rewinds := true; content := sample_index_json
|}.
Definition sample_index_options : IndexReadOptions := {|
  index_max_file_bytes := 1000; index_max_tensors := 4; index_max_shards := 1; index_json_options := default_options
|}.
Definition sample_index : Index := {|
  weight_map := [(lit "a", lit "x.safetensors"); (lit "b", lit "x.safetensors")];
  shards := [lit "x.safetensors"]; index_metadata := [(lit "total_size", Number (lit "8"))]; total_size := Some 8
|}.

Lemma read_index_exact_witness :
  index_file_describes sample_index_file sample_index_options sample_index /\
  index_ok sample_index_options sample_index.
Proof.
  apply (read_index_exact (fun _ => Some sample_index_file) [] sample_index_file sample_index_options sample_index).
  - reflexivity.
  - split; [|vm_compute; reflexivity]. apply (bool_decide_unpack _). vm_compute. reflexivity.
  - exact default_options_ok.
  - vm_compute. discriminate.
  - vm_compute. reflexivity.
Defined.

(** ** Validating the shards *)

Definition tensor_names (h : Header) : list (list Z) := (tensors h).*1.

(** The path of a shard: the directory, then the shard's components. *)
Definition join (directory : list Z) (cs : list (list Z)) : list Z := foldl append_path directory cs.

(** What the walk requires of a component: it exists, it is no symbolic link,
    and it is a directory, or a regular file at the end of the path. *)
Record component_ok (status : option stat_error * file_status) (final : bool) : Prop := {
  component_status : status.1 = None;
  component_exists : exists_ status.2 = true;
  component_no_link : is_symlink status.2 = false;
  component_kind : (if final then is_regular status.2 else is_directory status.2) = true
}.

Definition payload (headers : list Header) : Z := foldr (fun h n => data_size h + n) 0 headers.
Definition all_names (headers : list Header) : list (list Z) := concat (tensor_names <$> headers).

Lemma all_names_cons h headers : all_names (h :: headers) = tensor_names h ++ all_names headers.
Proof. done. Qed.

Lemma emplace_all_app l k set : emplace_all (l ++ k) set = emplace_all k (emplace_all l set).
Proof. apply foldl_app. Qed.

Lemma payload_nonneg headers : Forall (fun h => 0 <= data_size h) headers -> 0 <= payload headers.
Proof. induction 1; simpl; lia. Qed.

Lemma in_shard_inr {A} shard (m : Error + A) a : in_shard shard m = inr a <-> m = inr a.
Proof. by destruct m. Qed.

Lemma check_tensors_inr options map shard names seen count seen' count' :
  count <= validation_max_tensors options ->
  check_tensors options map shard names seen count = inr (seen', count') <->
  Forall (fun name => map_find name map = Some shard) names /\ NoDup names /\
  (forall name, name ∈ names -> name ∉ seen) /\ seen' = emplace_all names seen /\
  count' = count + Z.of_nat (length names) /\ count' <= validation_max_tensors options.
Proof.
  revert seen count. induction names as [|name names IH]; intros seen count Hc; cbn [check_tensors].
  { split.
    - intros [= <- <-]. split_and!; [constructor|constructor| |done|simpl; lia|done].
      by intros name Hin%not_elem_of_nil.
    - intros (_ & _ & _ & -> & -> & _). simpl. by rewrite Z.add_0_r. }
  destruct (map_find name map) as [expected|] eqn:Hf.
  2: { split; [done|]. intros [Hm _]. apply Forall_cons in Hm as [? _]. congruence. }
  destruct (decide (expected = shard)) as [->|Hne].
  2: { rewrite bool_decide_false by done. split; [done|]. intros [Hm _]. apply Forall_cons in Hm as [? _]. congruence. }
  rewrite bool_decide_true by done. cbn [negb].
  destruct (decide (name ∈ seen)) as [Hin|Hnin].
  { rewrite bool_decide_true by done. split; [done|]. intros (_ & _ & Hd & _). destruct (Hd name ltac:(left) Hin). }
  rewrite bool_decide_false by done. destruct (Z.leb_spec (validation_max_tensors options) count).
  { split; [done|]. intros (_ & _ & _ & _ & -> & Hle). cbn [length] in Hle. lia. }
  rewrite IH by lia. rewrite Forall_cons, NoDup_cons. cbn [emplace_all foldl length]. fold (emplace_all names (set_emplace name seen)).
  replace (count + Z.of_nat (S (length names))) with (count + 1 + Z.of_nat (length names)) by lia.
  split.
  - intros (Hm & Hnd & Hd & -> & -> & Hle). split_and!; try done.
    + intros Hin. apply (Hd _ Hin), elem_of_set_emplace. by left.
    + intros name' [->|Hin]%elem_of_cons; [done|]. intros Hs. apply (Hd _ Hin), elem_of_set_emplace. by right.
  - intros ([_ Hm] & [Hnin' Hnd] & Hd & -> & -> & Hle). split_and!; try done.
    intros name' Hin [->|Hs]%elem_of_set_emplace; [done|]. apply (Hd name'); [by right|done].
Qed.

Lemma collect_shards_inr options mappings referenced result :
  Z.of_nat (length referenced) <= validation_max_shards options ->
  collect_shards options mappings referenced = inr result <->
  Forall (fun m => m.1 <> [] /\ m.2 <> [] /\ is_safe_relative_shard_path m.2 = true) mappings /\
  result = emplace_all mappings.*2 referenced /\ Z.of_nat (length result) <= validation_max_shards options.
Proof.
  revert referenced. induction mappings as [|[name shard] mappings IH]; intros referenced Hlen; cbn [collect_shards].
  { split; [by intros [= <-]|]. by intros (_ & -> & _). }
  rewrite Forall_cons, fmap_cons. cbn [fst snd].
  change (emplace_all (shard :: mappings.*2) referenced) with (emplace_all mappings.*2 (set_emplace shard referenced)).
  destruct (decide (name = [])) as [->|Hn]; [rewrite bool_decide_true by done; cbn [orb]; split; [done|tauto]|].
  destruct (decide (shard = [])) as [->|Hs];
    [rewrite (bool_decide_true ([] = [])), orb_true_r by done; split; [done|tauto]|].
  rewrite !bool_decide_false by done. cbn [orb].
  destruct (is_safe_relative_shard_path shard) eqn:Hsafe; cbn [negb]; [|split; [done|intros [[[_ [_ ?]] _] _]; congruence]].
  pose proof (emplace_all_length mappings.*2 (set_emplace shard referenced)) as Hle.
  destruct (Z.ltb_spec (validation_max_shards options) (Z.of_nat (length (set_emplace shard referenced)))).
  { split; [done|]. intros (_ & -> & Hle'). lia. }
  rewrite IH by lia. tauto.
Qed.

Lemma compare_shards_inr referenced stored u :
  length stored = length referenced -> compare_shards referenced stored = inr u <-> referenced = stored.
Proof.
  destruct u. revert stored. induction referenced as [|shard referenced IH]; intros [|s stored] Hlen; try done.
  cbn [compare_shards head tail]. case_bool_decide as He.
  - injection He as ->. rewrite IH by (injection Hlen as ->; done). split; [by intros ->|by intros [= ->]].
  - split; [done|]. intros [= -> ->]. done.
Qed.

Lemma check_all_seen_inr map seen u : check_all_seen map seen = inr u <-> Forall (fun m => m.1 ∈ seen) map.
Proof.
  destruct u. induction map as [|[name shard] map IH]; cbn [check_all_seen]; [by split|].
  rewrite Forall_cons. cbn [fst]. case_bool_decide; [rewrite IH; tauto|]. split; [done|tauto].
Qed.

Lemma elem_of_all_names name headers :
  name ∈ all_names headers <-> exists h, h ∈ headers /\ name ∈ tensor_names h.
Proof.
  induction headers as [|h headers IH].
  { split; [by intros ?%not_elem_of_nil|]. by intros (? & ?%not_elem_of_nil & _). }
  rewrite all_names_cons, elem_of_app, IH. split.
  - intros [Hin|(h' & Hh & Hin)]; [exists h; by split; [left|]|exists h'; by split; [right|]].
  - intros (h' & [->|Hh]%elem_of_cons & Hin); [by left|right; eauto].
Qed.

Definition maps_to (map : list (list Z * list Z)) (shard : list Z) (h : Header) : Prop :=
  Forall (fun name => map_find name map = Some shard) (tensor_names h).

(** A tensor is in one shard at most: names of different shards differ. *)
Lemma all_names_NoDup map referenced headers :
  NoDup referenced -> Forall2 (maps_to map) referenced headers -> Forall (fun h => NoDup (tensor_names h)) headers ->
  NoDup (all_names headers).
Proof.
  intros Hnd Hm. induction Hm as [|shard h referenced headers Hsh Hm IH]; intros Hh; [constructor|].
  apply NoDup_cons in Hnd as [Hnin Hnd]. apply Forall_cons in Hh as [Hh Hhs]. rewrite all_names_cons.
  apply NoDup_app. split_and!; [done| |by apply IH]. intros name Hin (h' & Hh' & Hin')%elem_of_all_names.
  apply list_elem_of_lookup_1 in Hh' as [k Hk].
  destruct (Forall2_lookup_r _ _ _ _ _ Hm Hk) as (shard' & Hs' & Hm').
  unfold maps_to in *. rewrite Forall_forall in Hsh, Hm'. apply Hsh in Hin. apply Hm' in Hin'.
  apply list_elem_of_lookup_2 in Hs'. congruence.
Qed.

(** The containers are [std::map] and [std::set]; sizes are [uint64_t]. *)
Record index_typed (index : Index) : Prop := {
  typed_map : keys_sorted (weight_map index);
  typed_shards : set_sorted (shards index);
  typed_total : forall total, total_size index = Some total -> is_u64 total
}.

Definition shard_options (options : ShardValidationOptions) : ReadOptions :=
  let h := header_options options in
  {| max_file_bytes := max_file_bytes h; max_header_bytes := max_header_bytes h;
     max_tensors := Z.min (max_tensors h) (validation_max_tensors options);
     max_rank := max_rank h; json_options := json_options h |}.

Lemma match_maps_to map referenced headers :
  keys_sorted map -> length referenced = length headers ->
  (forall name shard, (name, shard) ∈ map <->
    exists k h, referenced !! k = Some shard /\ headers !! k = Some h /\ name ∈ tensor_names h) <->
  Forall2 (maps_to map) referenced headers /\ Forall (fun m => m.1 ∈ all_names headers) map.
Proof.
  intros Hs Hlen. split.
  - intros Hmn. split.
    + apply Forall2_same_length_lookup_2; [done|]. intros k shard h Hk Hh. apply Forall_forall. intros name Hin.
      apply elem_map_find; [done|]. apply Hmn. eauto.
    + apply Forall_forall. intros [name shard] (k & h & _ & Hh & Hin)%Hmn. apply elem_of_all_names.
      exists h. split; [by eapply list_elem_of_lookup_2|done].
  - intros [Hm Hall] name shard. split.
    + intros Hin. rewrite Forall_forall in Hall. apply Hall in Hin as Hin'. cbn [fst] in Hin'.
      apply elem_of_all_names in Hin' as (h & Hh & Hn).
      apply list_elem_of_lookup_1 in Hh as [k Hk].
      destruct (Forall2_lookup_r _ _ _ _ _ Hm Hk) as (shard' & Hs' & Hm').
      unfold maps_to in Hm'. rewrite Forall_forall in Hm'. apply Hm' in Hn as Hf.
      apply (elem_map_find _ _ _ Hs) in Hin. assert (shard' = shard) as -> by congruence. eauto.
    + intros (k & h & Hk & Hh & Hin). pose proof (Forall2_lookup_lr _ _ _ _ _ _ Hm Hk Hh) as Hm'.
      unfold maps_to in Hm'. rewrite Forall_forall in Hm'. by apply map_find_elem, Hm'.
Qed.

Section ValidationSpec.
Variable open : disk.
Variable symlink_status : list Z -> option stat_error * file_status.

Definition walk_ok (directory : list Z) (cs : list (list Z)) : Prop :=
  forall before c after, cs = before ++ c :: after ->
    component_ok (symlink_status (join directory (before ++ [c]))) (bool_decide (after = [])).

Lemma walk_ok_cons directory c cs :
  walk_ok directory (c :: cs) <->
  component_ok (symlink_status (append_path directory c)) (bool_decide (cs = [])) /\
  walk_ok (append_path directory c) cs.
Proof.
  split.
  - intros Hw. split; [by apply (Hw [] c cs)|]. intros before c' after ->. by apply (Hw (c :: before) c' after).
  - intros [Hc Hw] [|c' before] c'' after Heq; injection Heq as -> ->; [done|]. by apply Hw.
Qed.

Lemma walk_components_inr shard rest p p' :
  walk_components symlink_status shard rest p = inr p' <-> p' = join p rest /\ walk_ok p rest.
Proof.
  revert p. induction rest as [|c rest IH]; intros p; cbn [walk_components].
  { split; [intros [= ->]; split; [done|]; by intros [] ? ?|by intros [-> _]]. }
  rewrite walk_ok_cons. cbn [join foldl]. fold (join (append_path p c) rest).
  assert (Hstep : forall (b : bool) (st : file_status),
    (if negb (exists_ st) then failure kShardMissing kUnknownOffset shard else
     if is_symlink st then failure kUnsafeShardPath kUnknownOffset shard else
     if negb b && negb (is_directory st) then failure kShardNotRegular kUnknownOffset shard else
     if negb (negb b) && negb (is_regular st) then failure kShardNotRegular kUnknownOffset shard else
     walk_components symlink_status shard rest (append_path p c)) = inr p' <->
    component_ok (None, st) b /\ walk_components symlink_status shard rest (append_path p c) = inr p').
  { intros b st. split.
    - destruct (exists_ st) eqn:He; [|done]. destruct (is_symlink st) eqn:Hl; [done|].
      destruct b; simpl; [destruct (is_regular st) eqn:Hr|destruct (is_directory st) eqn:Hr]; intros H; try done.
    - intros [[_ He Hl Hr] Hw]. simpl in *. rewrite He, Hl. destruct b; simpl; by rewrite Hr. }
  destruct (symlink_status (append_path p c)) as [[[]|] st].
  - split; [done|]. by intros (_ & [? ?] & _).
  - split; [done|]. by intros (_ & [? ?] & _).
  - rewrite Hstep, IH. tauto.
Qed.

(** A shard that can be reached and read. *)
Record shard_reads (hoptions : ReadOptions) (directory shard : list Z) (h : Header) : Prop := {
  shard_walk : walk_ok directory (components shard);
  shard_header : read_header open (join directory (components shard)) hoptions = inr h
}.

Lemma validate_shards_inr options hoptions directory map referenced summary seen summary' seen' :
  (forall p h, read_header open p hoptions = inr h -> 0 <= data_size h <= u64_max) ->
  validated_shards summary <= validation_max_shards options ->
  validated_tensors summary <= validation_max_tensors options -> 0 <= payload_bytes summary <= u64_max ->
  validate_shards open symlink_status options hoptions directory map referenced summary seen =
    inr (summary', seen') <->
  exists headers,
    Forall2 (shard_reads hoptions directory) referenced headers /\
    Forall2 (fun shard h => Forall (fun name => map_find name map = Some shard) (tensor_names h)) referenced headers /\
    NoDup (all_names headers) /\ (forall name, name ∈ all_names headers -> name ∉ seen) /\
    seen' = emplace_all (all_names headers) seen /\
    summary' = {| validated_shards := validated_shards summary + Z.of_nat (length headers);
                  validated_tensors := validated_tensors summary + Z.of_nat (length (all_names headers));
                  payload_bytes := payload_bytes summary + payload headers |} /\
    validated_shards summary' <= validation_max_shards options /\
    validated_tensors summary' <= validation_max_tensors options /\ payload_bytes summary' <= u64_max.
Proof.
  intros Hsize. revert summary seen.
  induction referenced as [|shard referenced IH]; intros summary seen Hsh Hts Hpay; cbn [validate_shards].
  { split.
    - intros [= <- <-]. exists []. split_and!; [constructor|constructor|constructor| |done| |lia..].
      + by intros name Hin%not_elem_of_nil.
      + simpl. rewrite !Z.add_0_r. by destruct summary.
    - intros (headers & Hr & _ & _ & _ & -> & -> & _). apply Forall2_nil_inv_l in Hr as ->. simpl.
      rewrite !Z.add_0_r. by destruct summary. }
  split.
  - intros H. results H. bools.
    match goal with Hw : walk_components _ _ _ _ = _ |- _ => apply walk_components_inr in Hw as [-> Hwalk] end.
    match goal with Hr : in_shard _ _ = inr ?h |- _ =>
      apply in_shard_inr in Hr; rename Hr into Hread, h into header end.
    pose proof (Hsize _ _ Hread).
    match goal with Hp : checked_add _ _ = _ |- _ =>
      apply checked_add_Some in Hp as [-> Hfit]; [|unfold is_u64, u64_max in *; lia..] end.
    match goal with Hc : check_tensors _ _ _ _ _ _ = _ |- _ =>
      apply check_tensors_inr in Hc as (Hm & Hnd & Hd & -> & -> & Hle); [|done] end.
    apply IH in H as (headers & Hrs & Hms & Hnds & Hds & -> & -> & Hle1 & Hle2 & Hle3); [|simpl; lia..].
    cbn [validated_shards validated_tensors payload_bytes] in Hle1, Hle2, Hle3. exists (header :: headers).
    rewrite all_names_cons. cbn [length payload foldr]. fold (payload headers). rewrite length_app. change (length (tensors header).*1) with (length (tensor_names header)) in *.
    split_and!; try (constructor; done); try (simpl; lia).
    + apply NoDup_app. split_and!; [done| |done]. intros name Hin Hin'. apply (Hds name Hin').
      apply elem_of_emplace_all. by left.
    + intros name [Hin|Hin]%elem_of_app; [by apply Hd|]. intros Hs. apply (Hds name Hin), elem_of_emplace_all. by right.
    + by rewrite emplace_all_app.
    + simpl. f_equal; lia.
  - intros (headers & Hrs & Hms & Hnd & Hd & -> & -> & Hle1 & Hle2 & Hle3).
    destruct headers as [|header headers]; [by inversion Hrs|].
    apply Forall2_cons in Hrs as [[Hwalk Hread] Hrs]. apply Forall2_cons in Hms as [Hm Hms].
    rewrite all_names_cons in *. cbn [length payload foldr] in *. fold (payload headers) in *. rewrite length_app in *.
    apply NoDup_app in Hnd as (Hnd1 & Hdisj & Hnd2). cbn [validated_shards validated_tensors payload_bytes] in Hle1, Hle2, Hle3.
    assert (Hpos : 0 <= payload headers).
    { apply payload_nonneg. clear -Hrs Hsize. induction Hrs as [|? h ? ? [_ Hr] ? ?]; [by apply Forall_nil|].
      apply Forall_cons. split; [by apply Hsize in Hr as [? _]|done]. }
    pose proof (Hsize _ _ Hread).
    rewrite (proj2 (walk_components_inr shard _ _ (join directory (components shard)))) by done.
    cbn [mbind sum_bind]. rewrite Hread. cbn [in_shard mbind sum_bind].
    rewrite (proj2 (Z.leb_gt _ _)) by lia.
    assert (Hadd : checked_add (payload_bytes summary) (data_size header) =
      Some (payload_bytes summary + data_size header)).
    { apply checked_add_Some; unfold is_u64, u64_max in *; lia. }
    rewrite Hadd.
    cbn [get_or mbind sum_bind].
    rewrite (proj2 (check_tensors_inr options map shard (tensors header).*1 seen (validated_tensors summary)
      (emplace_all (tensor_names header) seen)
      (validated_tensors summary + Z.of_nat (length (tensor_names header))) Hts)).
    2: { split_and!; try done; [|unfold tensor_names in *; lia].
         intros name Hin. apply Hd, elem_of_app. by left. }
    cbn [mbind sum_bind]. apply IH; [simpl; lia..|]. exists headers. split_and!; try done; try (cbn [validated_shards validated_tensors payload_bytes]; lia).
    + intros name Hin [Hin'|Hs]%elem_of_emplace_all; [by apply (Hdisj name)|].
      apply (Hd name); [|done]. apply elem_of_app. by right.
    + by rewrite emplace_all_app.
    + cbn [validated_shards validated_tensors payload_bytes]. f_equal; lia.
Qed.

(** The shards of an index are what it says. *)
Record shards_match (options : ShardValidationOptions) (directory : list Z) (index : Index)
    (headers : list Header) (summary : ShardValidationSummary) : Prop := {
  match_options : validation_max_shards options <> 0 /\ validation_max_tensors options <> 0 /\
    max_tensors (header_options options) <> 0;
  match_nonempty : weight_map index <> [];
  match_count : Z.of_nat (length (weight_map index)) <= validation_max_tensors options;
  match_entries : Forall (fun m => m.1 <> [] /\ m.2 <> [] /\ is_safe_relative_shard_path m.2 = true) (weight_map index);
  match_shards : forall shard, shard ∈ shards index <-> shard ∈ (weight_map index).*2;
  match_shard_count : Z.of_nat (length (shards index)) <= validation_max_shards options;
  match_headers : Forall2 (shard_reads (shard_options options) directory) (shards index) headers;
  match_names : forall name shard, (name, shard) ∈ weight_map index <->
    exists k h, shards index !! k = Some shard /\ headers !! k = Some h /\ name ∈ tensor_names h;
  match_total : total_size index = Some (payload headers);
  match_summary : summary = {|
    validated_shards := Z.of_nat (length (shards index));
    validated_tensors := Z.of_nat (length (weight_map index)); payload_bytes := payload headers |}
}.

Lemma read_header_typed p hoptions h :
  (forall p f, open p = Some f -> file_ok f) -> options_ok (json_options hoptions) ->
  read_header open p hoptions = inr h -> 0 <= data_size h <= u64_max /\ NoDup (tensor_names h).
Proof.
  intros Hdisk Hopt Hread. destruct (open p) as [f|] eqn:Hopen; [|by unfold read_header in Hread; rewrite Hopen in Hread].
  pose proof (Hdisk _ _ Hopen) as Hf. destruct (proj1 (read_header_inr open p f hoptions h Hopen Hf Hopt) Hread) as [Hd Hok].
  split; [|apply keys_sorted_NoDup, (file_describes_sorted f hoptions); done].
  pose proof (file_length _ _ _ Hd). pose proof (file_position _ Hf). pose proof (header_within _ _ _ Hd).
  destruct Hok. unfold u64_max. lia.
Qed.

Lemma validate_index_shards_inr directory index options summary :
  (forall p f, open p = Some f -> file_ok f) -> options_ok (json_options (header_options options)) ->
  index_typed index -> 0 <= validation_max_shards options -> 0 <= validation_max_tensors options ->
  0 <= max_tensors (header_options options) ->
  validate_index_shards open symlink_status directory index options = inr summary <->
  exists headers, shards_match options directory index headers summary.
Proof.
  intros Hdisk Hopt [Hmap Hset Htot] Hms Hmt Hht. unfold validate_index_shards. fold (shard_options options).
  assert (Htyped : forall p h, read_header open p (shard_options options) = inr h ->
    0 <= data_size h <= u64_max /\ NoDup (tensor_names h)) by (intros p h; by apply read_header_typed).
  assert (Hrefs : forall entries, set_sorted (emplace_all entries []))
    by (intros; apply emplace_all_sorted; constructor).
  split.
  - intros H. results H. bools.
    match goal with Hc : collect_shards _ _ _ = _ |- _ =>
      apply collect_shards_inr in Hc as (Hentries & -> & Hlen); [|done] end.
    match goal with Hb : bool_decide (length _ = _) = true |- _ => apply bool_decide_eq_true in Hb as Hl end.
    match goal with Hc : compare_shards _ _ = _ |- _ => apply compare_shards_inr in Hc; [|done]; rename Hc into Hsh end.
    match goal with Hv : validate_shards _ _ _ _ _ _ _ _ _ = _ |- _ =>
      apply validate_shards_inr in Hv as (headers & Hr & Hm & Hnd & _ & -> & -> & Hle1 & Hle2 & Hle3);
        [|by intros p h Hp; apply Htyped in Hp as [? _]|done|done|done] end.
    match goal with Hc : check_all_seen _ _ = _ |- _ => apply check_all_seen_inr in Hc as Hseen end.
    injection H as <-. cbn [validated_shards validated_tensors payload_bytes] in *.
    rewrite !Z.add_0_l in *. rewrite Hsh in Hr, Hm, Hlen. exists headers.
    assert (Hlh : length (shards index) = length headers) by (by eapply Forall2_length).
    constructor; try done; try lia.
    + by eapply bool_decide_eq_false.
    + intros shard. rewrite <- Hsh, elem_of_emplace_all, elem_of_nil. tauto.
    + apply match_maps_to; [done|done|]. split; [exact Hm|].
      eapply Forall_impl; [exact Hseen|]. intros m [?|[]%not_elem_of_nil]%elem_of_emplace_all. done.
    + congruence.
    + f_equal; congruence.
  - intros (headers & [(Ho1 & Ho2 & Ho3) Hne Hcount Hentries Hshards Hsc Hheaders Hnames Htotal ->]).
    assert (Hlh : length (shards index) = length headers) by (by eapply Forall2_length).
    apply (match_maps_to _ _ _ Hmap Hlh) in Hnames as [Hm Hseen].
    assert (Hhs : Forall (fun h => 0 <= data_size h <= u64_max /\ NoDup (tensor_names h)) headers).
    { clear -Hheaders Htyped. induction Hheaders as [|? h ? ? [_ Hr] ? ?]; [by apply Forall_nil|].
      apply Forall_cons. split; [by eapply Htyped|done]. }
    assert (Hnd : NoDup (all_names headers)).
    { apply (all_names_NoDup (weight_map index) (shards index)); [by apply set_sorted_NoDup|done|].
      eapply Forall_impl; [exact Hhs|]. by intros h [_ ?]. }
    assert (Hperm : all_names headers ≡ₚ (weight_map index).*1).
    { apply NoDup_Permutation; [done|by apply keys_sorted_NoDup|]. intros name. split.
      - intros (h & Hh & Hin)%elem_of_all_names. apply list_elem_of_lookup_1 in Hh as [k Hk].
        destruct (Forall2_lookup_r _ _ _ _ _ Hm Hk) as (shard & _ & Hm'). unfold maps_to in Hm'.
        rewrite Forall_forall in Hm'. apply Hm', map_find_elem in Hin. apply list_elem_of_fmap.
        by exists (name, shard).
      - intros (m & -> & Hin)%list_elem_of_fmap. rewrite Forall_forall in Hseen. by apply Hseen. }
    apply Permutation_length in Hperm as Hnlen. rewrite length_fmap in Hnlen.
    rewrite !(proj2 (Z.eqb_neq _ _)) by done. cbn [orb]. rewrite bool_decide_false by done.
    rewrite (proj2 (Z.ltb_ge _ _)) by done.
    assert (Hrefs_eq : emplace_all (weight_map index).*2 [] = shards index).
    { apply set_sorted_ext; [done|done|]. intros x. rewrite elem_of_emplace_all, elem_of_nil, Hshards. tauto. }
    rewrite (proj2 (collect_shards_inr options (weight_map index) [] (shards index) Hms)) by done.
    cbn [mbind sum_bind]. rewrite bool_decide_true by done. cbn [negb].
    rewrite (proj2 (compare_shards_inr _ _ tt eq_refl)) by done. cbn [mbind sum_bind].
    rewrite Htotal. cbn [get_or mbind sum_bind].
    assert (Hpos : 0 <= payload headers)
      by (apply payload_nonneg; eapply Forall_impl; [exact Hhs|]; by intros h [[? _] _]).
    specialize (Htot _ Htotal). unfold is_u64 in Htot.
    rewrite (proj2 (validate_shards_inr options (shard_options options) directory (weight_map index) (shards index)
      {| validated_shards := 0; validated_tensors := 0; payload_bytes := 0 |} []
      {| validated_shards := Z.of_nat (length (shards index));
         validated_tensors := Z.of_nat (length (weight_map index)); payload_bytes := payload headers |}
      (emplace_all (all_names headers) []) ltac:(intros p h Hp; apply Htyped in Hp as [? _]; done) Hms Hmt ltac:(done))).
    2: { exists headers. cbn [validated_shards validated_tensors payload_bytes]. rewrite !Z.add_0_l, Hlh, Hnlen.
         split_and!; try done; [by intros name _ ?%not_elem_of_nil|lia|unfold u64_max; lia]. }
    cbn [mbind sum_bind]. rewrite (proj2 (check_all_seen_inr _ _ tt)).
    2: { eapply Forall_impl; [exact Hseen|]. intros m Hin. apply elem_of_emplace_all. by left. }
    cbn [mbind sum_bind validated_tensors payload_bytes]. by rewrite !Z.eqb_refl.
Qed.
End ValidationSpec.

(** [validate_index_shards] accepts an index exactly when its shards are
    what it says, and then counts them.  Every shard name is a safe relative
    path, every component of it exists, none is a symbolic link, and the file
    at its end is a checkpoint that [read_header] accepts; a tensor is mapped
    to a shard if and only if that shard's header has it; the sizes of the
    shards' data add up to the recorded total; and the limits hold. *)
Theorem validate_index_shards_exact open symlink_status directory index options summary :
  (forall p f, open p = Some f -> file_ok f) -> options_ok (json_options (header_options options)) ->
  index_typed index -> 0 <= validation_max_shards options -> 0 <= validation_max_tensors options ->
  0 <= max_tensors (header_options options) ->
  validate_index_shards open symlink_status directory index options = inr summary <->
  exists headers, shards_match open symlink_status options directory index headers summary.
Proof. apply validate_index_shards_inr. Qed.

Definition sample_open : disk := fun path =>
  if bool_decide (path = lit "d/x.safetensors") then Some sample_file else None.
Definition sample_status (path : list Z) : option stat_error * file_status :=
  (None, {| exists_ := bool_decide (path = lit "d/x.safetensors"); is_symlink := false; is_directory := false;
            is_regular := true |}).
Definition sample_validation_options : ShardValidationOptions := {|
  validation_max_shards := 1; validation_max_tensors := 2; header_options := sample_options
|}.
Definition sample_summary : ShardValidationSummary := {|
  validated_shards := 1; validated_tensors := 2; payload_bytes := 8
|}.

Lemma validate_index_shards_exact_witness :
  exists headers, shards_match sample_open sample_status sample_validation_options (lit "d") sample_index headers
    sample_summary.
Proof.
  apply (validate_index_shards_exact sample_open sample_status (lit "d") sample_index sample_validation_options).
  - intros p f Hf. unfold sample_open in Hf. destruct (bool_decide _); [|discriminate Hf].
    injection Hf as <-. exact sample_file_ok.
  - exact default_options_ok.
  - split.
    + repeat constructor.
    + repeat constructor.
    + intros total Ht. injection Ht as <-. split; [vm_compute; discriminate|vm_compute; reflexivity].
  - vm_compute. discriminate.
  - vm_compute. discriminate.
  - vm_compute. discriminate.
  - vm_compute. reflexivity.
Defined.

(** ** Confinement *)

(** A name that stays where it is put: no separator of any kind, no
    traversal, no control byte. *)
Record component_safe (c : list Z) : Prop := {
  component_nonempty : c <> [];
  component_not_dot : c <> lit "." /\ c <> lit "..";
  component_bytes : Forall (fun byte => byte <> slash /\ byte <> 92 /\ byte <> 58 /\ 0x20 <= byte /\ byte <> 0x7F) c
}.

Lemma components_from_bytes current path c :
  c ∈ components_from current path -> forall byte, byte ∈ c -> byte ∈ current \/ (byte ∈ path /\ byte <> slash).
Proof.
  revert current. induction path as [|x path IH]; intros current; cbn [components_from].
  { intros ->%list_elem_of_singleton byte Hb. by left. }
  destruct (Z.eqb_spec x slash) as [->|Hx].
  - intros [->|Hin]%elem_of_cons byte Hb; [by left|].
    destruct (IH _ Hin _ Hb) as [[]%not_elem_of_nil|[? ?]]. right. split; [by right|done].
  - intros Hin byte Hb. destruct (IH _ Hin _ Hb) as [[Hc|Hc%list_elem_of_singleton]%elem_of_app|[? ?]].
    + by left.
    + subst. right. split; [by left|done].
    + right. split; [by right|done].
Qed.

Lemma existsb_Forall {A} (f : A -> bool) l : existsb f l = false <-> Forall (fun x => f x = false) l.
Proof.
  induction l as [|x l IH]; simpl; [by split|]. rewrite Forall_cons, <- IH, orb_false_iff. done.
Qed.

Lemma safe_components path :
  is_safe_relative_shard_path path = true -> components path <> [] /\ Forall component_safe (components path).
Proof.
  unfold is_safe_relative_shard_path. intros H.
  repeat match type of H with (if ?b then _ else _) = _ => let Hb := fresh "Hb" in destruct b eqn:Hb; [done|] end.
  split.
  { unfold components. generalize (@nil Z). clear. induction path as [|x path IH]; intros current; cbn; [done|].
    destruct (x =? slash); [done|apply IH]. }
  apply orb_false_iff in Hb as [Hb Hcolon]. apply orb_false_iff in Hb as [_ Hback].
  rewrite existsb_Forall, Forall_forall in Hcolon, Hback, Hb0.
  apply Forall_forall. intros c Hin. rewrite forallb_forall in H. specialize (H c ltac:(by apply list_elem_of_In)).
  apply negb_true_iff, orb_false_iff in H as [H Hdd]. apply orb_false_iff in H as [Hne Hd].
  apply bool_decide_eq_false in Hne, Hd, Hdd. constructor; [done|done|]. apply Forall_forall. intros byte Hbyte.
  destruct (components_from_bytes _ _ _ Hin _ Hbyte) as [[]%not_elem_of_nil|[Hp Hs]].
  specialize (Hcolon _ Hp). specialize (Hback _ Hp). specialize (Hb0 _ Hp). bools. lia.
Qed.

(** What validation can see of the file system: the status of confined paths
    and the files confined paths lead to without a symbolic link. *)
Definition confined (cs : list (list Z)) : Prop := cs <> [] /\ Forall component_safe cs.

Section Confinement.
Variables open open' : disk.
Variables symlink_status symlink_status' : list Z -> option stat_error * file_status.
Variable directory : list Z.
Hypothesis same_status : forall cs, confined cs ->
  symlink_status (join directory cs) = symlink_status' (join directory cs).
Hypothesis same_files : forall cs, confined cs -> walk_ok symlink_status directory cs ->
  open (join directory cs) = open' (join directory cs).

Lemma join_snoc cs c : join directory (cs ++ [c]) = append_path (join directory cs) c.
Proof. apply foldl_snoc. Qed.

Lemma walk_components_same shard before rest :
  Forall component_safe (before ++ rest) ->
  walk_components symlink_status shard rest (join directory before) =
  walk_components symlink_status' shard rest (join directory before).
Proof.
  revert before. induction rest as [|c rest IH]; intros before Hall; [done|]. cbn [walk_components].
  replace (before ++ c :: rest) with ((before ++ [c]) ++ rest) in Hall by (by rewrite <- app_assoc).
  rewrite <- join_snoc, <- same_status, IH; [done|done|]. apply Forall_app in Hall as [Hall _].
  split; [by destruct before|done].
Qed.

Lemma validate_shards_same options hoptions map referenced summary seen :
  Forall (fun shard => is_safe_relative_shard_path shard = true) referenced ->
  validate_shards open symlink_status options hoptions directory map referenced summary seen =
  validate_shards open' symlink_status' options hoptions directory map referenced summary seen.
Proof.
  intros Hall. revert summary seen. induction Hall as [|shard referenced Hs Hall IH]; intros summary seen; [done|].
  cbn [validate_shards]. apply safe_components in Hs as Hc.
  pose proof (walk_components_same shard [] (components shard) (proj2 Hc)) as Hw. cbn [join foldl] in Hw.
  rewrite <- Hw. destruct (walk_components symlink_status _ _ _) as [|p] eqn:Hp; [done|].
  apply walk_components_inr in Hp as [-> Hwalk]. cbn [mbind sum_bind].
  assert (Hread : read_header open (join directory (components shard)) hoptions =
    read_header open' (join directory (components shard)) hoptions)
    by (unfold read_header; by rewrite same_files).
  rewrite Hread. destruct (in_shard _ _); [done|]. cbn [mbind sum_bind].
  destruct (_ <=? _); [done|]. destruct (get_or _ _ _ _); [done|]. cbn [mbind sum_bind].
  destruct (check_tensors _ _ _ _ _ _) as [|[]]; [done|]. cbn [mbind sum_bind]. apply IH.
Qed.
End Confinement.

(** C35. Validation never leaves the directory.  Two file systems that agree
    on the status of the directory's descendants, reached by names without
    separators or traversals, and on the files among them that no symbolic
    link leads to, get the same answer, whatever the index says: nothing
    outside is opened, and nothing through a link. *)
Theorem validate_index_shards_confined open open' symlink_status symlink_status' directory index options :
  (forall cs, confined cs -> symlink_status (join directory cs) = symlink_status' (join directory cs)) ->
  (forall cs, confined cs -> walk_ok symlink_status directory cs ->
     open (join directory cs) = open' (join directory cs)) ->
  0 <= validation_max_shards options ->
  validate_index_shards open symlink_status directory index options =
  validate_index_shards open' symlink_status' directory index options.
Proof.
  intros Hst Hop Hms. unfold validate_index_shards.
  destruct (_ || _ || _); [done|]. destruct (bool_decide _); [done|]. destruct (_ <? _); [done|].
  destruct (collect_shards _ _ _) as [|referenced] eqn:Hc; [done|].
  destruct (proj1 (collect_shards_inr options _ [] _ Hms) Hc) as (Hall & -> & _). cbn [mbind sum_bind].
  destruct (negb _); [done|]. destruct (compare_shards _ _); [done|]. cbn [mbind sum_bind].
  destruct (get_or _ _ _ _); [done|]. cbn [mbind sum_bind].
  rewrite (validate_shards_same open open' symlink_status symlink_status' directory Hst Hop); [done|].
  apply Forall_forall. intros shard [(m & -> & Hin)%list_elem_of_fmap|[]%not_elem_of_nil]%elem_of_emplace_all.
  rewrite Forall_forall in Hall. by apply Hall in Hin as (_ & _ & ?).
Qed.

(** A link next to the shard, and what it leads to, do not matter. *)
Definition linked_open : disk := fun path =>
  if bool_decide (path = lit "d/../secret") then Some sample_file else sample_open path.

Lemma validate_index_shards_confined_witness :
  validate_index_shards linked_open sample_status (lit "d") sample_index sample_validation_options = inr sample_summary.
Proof.
  rewrite (validate_index_shards_confined linked_open sample_open sample_status sample_status).
  - vm_compute. reflexivity.
  - reflexivity.
  - intros cs _ Hw. unfold linked_open. destruct (bool_decide _) eqn:Hb; [|reflexivity]. exfalso.
    apply bool_decide_eq_true in Hb. destruct cs as [|c cs]; [discriminate Hb|].
    destruct (exists_last (l := c :: cs) ltac:(discriminate)) as (before & c' & Heq).
    specialize (Hw before c' [] Heq). rewrite <- Heq, Hb in Hw. destruct Hw as [_ He _ _].
    vm_compute in He. discriminate He.
  - vm_compute. discriminate.
Defined.
