(* ===== verification/ModelConfig.v ===== *)
(** * ModelConfig: the architectures of the known models
      (include/q3x/model/model_config.h, src/model/model_config.cpp)

    A configuration is a record of 32-bit dimensions.  The dimensions that are
    derived from it are 64-bit and saturate; [validate] accepts a configuration
    only when none of them does.  Enumerators that the code converts to an
    index, or tests for being in range, are their underlying values. *)

From Stdlib Require Import String Floats.
From S2P Require Import Prelude.

(** ** Data *)

(** [ModelSeries], [ModelTopology] and [KnownModel]. *)
Definition kQwen35 : Z := 0.
Definition kQwen36 : Z := 1.
Definition kDense : Z := 0.
Definition kMixtureOfExperts : Z := 1.
Definition kQwen35_27B : Z := 0.
Definition kQwen35_35BA3B : Z := 1.
Definition kQwen36_27B : Z := 2.
Definition kQwen36_35BA3B : Z := 3.
Definition kKnownModelCount : Z := 4.

Inductive LayerType := kInvalid | kLinearAttention | kFullAttention.

#[global] Instance LayerType_eq_dec : EqDecision LayerType.
Proof. solve_decision. Defined.

Record VisionConfig := {
  present : bool;
  depth : Z;
  vision_hidden_size : Z;
  vision_intermediate_size : Z;
  num_heads : Z;
  out_hidden_size : Z;
  num_position_embeddings : Z;
  patch_size : Z;
  spatial_merge_size : Z;
  temporal_patch_size : Z
}.

Record ModelConfig := {
  known_model : Z;
  series : Z;
  topology : Z;
  config_name : list Z;
  hf_repo : list Z;
  hf_architecture : list Z;
  hf_model_type : list Z;
  hf_text_model_type : list Z;
  vocab_size : Z;
  hidden_size : Z;
  intermediate_size : Z;
  num_hidden_layers : Z;
  max_position_embeddings : Z;
  rms_norm_eps : float;
  num_attention_heads : Z;
  num_key_value_heads : Z;
  head_dim : Z;
  full_attention_interval : Z;
  partial_rotary_numerator : Z;
  partial_rotary_denominator : Z;
  rope_theta : float;
  attention_output_gate : bool;
  linear_num_key_heads : Z;
  linear_key_head_dim : Z;
  linear_num_value_heads : Z;
  linear_value_head_dim : Z;
  linear_conv_kernel_dim : Z;
  num_experts : Z;
  num_experts_per_token : Z;
  moe_intermediate_size : Z;
  shared_expert_intermediate_size : Z;
  mtp_num_hidden_layers : Z;
  mtp_uses_dedicated_embeddings : bool;
  vision : VisionConfig
}.

(** ** Derived dimensions *)

Definition saturating_multiply (left right : Z) : Z :=
  if negb (left =? 0) && (u64_max / left <? right) then u64_max else u64 (left * right).

Definition saturating_add (left right : Z) : Z :=
  if u64_max - left <? right then u64_max else left + right.

Definition is_moe (c : ModelConfig) : bool := topology c =? kMixtureOfExperts.

Definition layer_type (c : ModelConfig) (layer_index : Z) : LayerType :=
  if (num_hidden_layers c <=? layer_index) || (full_attention_interval c =? 0) then kInvalid
  else if (layer_index + 1) mod full_attention_interval c =? 0 then kFullAttention else kLinearAttention.

Definition num_full_attention_layers (c : ModelConfig) : Z :=
  if full_attention_interval c =? 0 then 0 else num_hidden_layers c / full_attention_interval c.

Definition num_linear_attention_layers (c : ModelConfig) : Z :=
  u32 (num_hidden_layers c - num_full_attention_layers c).

Definition q_dim (c : ModelConfig) : Z := saturating_multiply (num_attention_heads c) (head_dim c).

Definition q_projection_dim (c : ModelConfig) : Z :=
  saturating_multiply (q_dim c) (if attention_output_gate c then 2 else 1).

Definition kv_dim (c : ModelConfig) : Z := saturating_multiply (num_key_value_heads c) (head_dim c).

Definition rotary_dim (c : ModelConfig) : Z :=
  if partial_rotary_denominator c =? 0 then 0
  else saturating_multiply (head_dim c) (partial_rotary_numerator c) / partial_rotary_denominator c.

Definition linear_qk_dim (c : ModelConfig) : Z := saturating_multiply (linear_num_key_heads c) (linear_key_head_dim c).

Definition linear_value_dim (c : ModelConfig) : Z :=
  saturating_multiply (linear_num_value_heads c) (linear_value_head_dim c).

Definition linear_value_dim_per_key_head (c : ModelConfig) : Z :=
  if linear_num_key_heads c =? 0 then 0
  else saturating_multiply (linear_num_value_heads c / linear_num_key_heads c) (linear_value_head_dim c).

Definition linear_qkv_projection_dim (c : ModelConfig) : Z :=
  saturating_add (saturating_multiply 2 (linear_qk_dim c)) (linear_value_dim c).

Definition linear_state_elements_per_layer (c : ModelConfig) : Z :=
  saturating_multiply (linear_qk_dim c) (linear_value_dim_per_key_head c).

Definition full_attention_kv_elements_per_token (c : ModelConfig) : Z :=
  saturating_multiply (saturating_multiply (num_full_attention_layers c) 2) (kv_dim c).

Definition derived_dimensions_overflow (c : ModelConfig) : bool :=
  if attention_output_gate c && (u64_max / 2 <? q_dim c) then true
  else if (u64_max - linear_value_dim c) / 2 <? linear_qk_dim c then true
  else if negb (linear_value_dim_per_key_head c =? 0) && (u64_max / linear_value_dim_per_key_head c <? linear_qk_dim c)
  then true
  else negb (num_full_attention_layers c =? 0) && ((u64_max / 2) / num_full_attention_layers c <? kv_dim c).

(** ** The catalog *)

Definition make_vision_config (out_hidden : Z) : VisionConfig := {|
  present := true; depth := 27; vision_hidden_size := 1152; vision_intermediate_size := 4304; num_heads := 16;
  out_hidden_size := out_hidden; num_position_embeddings := 2304; patch_size := 16; spatial_merge_size := 2;
  temporal_patch_size := 2
|}.

(** [1.0e-6F], the [float] nearest to it. *)
Definition float_1e_6 : float := 0x1.0c6f7ap-20%float.

Definition make_dense_27b (known : Z) (in_series : Z) (name repo : list Z) : ModelConfig := {|
  known_model := known; series := in_series; topology := kDense; config_name := name; hf_repo := repo;
  hf_architecture := lit "Qwen3_5ForConditionalGeneration"; hf_model_type := lit "qwen3_5";
  hf_text_model_type := lit "qwen3_5_text";
  vocab_size := 248320; hidden_size := 5120; intermediate_size := 17408; num_hidden_layers := 64;
  max_position_embeddings := 262144; rms_norm_eps := float_1e_6;
  num_attention_heads := 24; num_key_value_heads := 4; head_dim := 256; full_attention_interval := 4;
  partial_rotary_numerator := 1; partial_rotary_denominator := 4; rope_theta := 10000000%float;
  attention_output_gate := true;
  linear_num_key_heads := 16; linear_key_head_dim := 128; linear_num_value_heads := 48; linear_value_head_dim := 128;
  linear_conv_kernel_dim := 4;
  num_experts := 0; num_experts_per_token := 0; moe_intermediate_size := 0; shared_expert_intermediate_size := 0;
  mtp_num_hidden_layers := 1; mtp_uses_dedicated_embeddings := false; vision := make_vision_config 5120
|}.

Definition make_moe_35b_a3b (known : Z) (in_series : Z) (name repo : list Z) : ModelConfig := {|
  known_model := known; series := in_series; topology := kMixtureOfExperts; config_name := name; hf_repo := repo;
  hf_architecture := lit "Qwen3_5MoeForConditionalGeneration"; hf_model_type := lit "qwen3_5_moe";
  hf_text_model_type := lit "qwen3_5_moe_text";
  vocab_size := 248320; hidden_size := 2048; intermediate_size := 0; num_hidden_layers := 40;
  max_position_embeddings := 262144; rms_norm_eps := float_1e_6;
  num_attention_heads := 16; num_key_value_heads := 2; head_dim := 256; full_attention_interval := 4;
  partial_rotary_numerator := 1; partial_rotary_denominator := 4; rope_theta := 10000000%float;
  attention_output_gate := true;
  linear_num_key_heads := 16; linear_key_head_dim := 128; linear_num_value_heads := 32; linear_value_head_dim := 128;
  linear_conv_kernel_dim := 4;
  num_experts := 256; num_experts_per_token := 8; moe_intermediate_size := 512; shared_expert_intermediate_size := 512;
  mtp_num_hidden_layers := 1; mtp_uses_dedicated_embeddings := false; vision := make_vision_config 2048
|}.

Definition kCatalog : list ModelConfig := [
  make_dense_27b kQwen35_27B kQwen35 (lit "Qwen3.5-27B") (lit "Qwen/Qwen3.5-27B");
  make_moe_35b_a3b kQwen35_35BA3B kQwen35 (lit "Qwen3.5-35B-A3B") (lit "Qwen/Qwen3.5-35B-A3B");
  make_dense_27b kQwen36_27B kQwen36 (lit "Qwen3.6-27B") (lit "Qwen/Qwen3.6-27B");
  make_moe_35b_a3b kQwen36_35BA3B kQwen36 (lit "Qwen3.6-35B-A3B") (lit "Qwen/Qwen3.6-35B-A3B")
].

Definition known_model_catalog : list ModelConfig := kCatalog.

Fixpoint find_config (test : ModelConfig -> bool) (catalog : list ModelConfig) : option ModelConfig :=
  match catalog with
  | [] => None
  | config :: catalog => if test config then Some config else find_config test catalog
  end.

Definition find_known_model (model : Z) : option ModelConfig :=
  find_config (fun config => known_model config =? model) kCatalog.

Definition find_known_model_by_name (name_or_repo : list Z) : option ModelConfig :=
  find_config (fun config => bool_decide (config_name config = name_or_repo) || bool_decide (hf_repo config = name_or_repo))
    kCatalog.

(** ** Validation *)

Inductive ConfigValidationError :=
  | kMissingIdentity | kKnownModelIdentityMismatch | kInvalidCoreDimensions | kInvalidAttentionDimensions
  | kInvalidRotaryDimensions | kInvalidLayerSchedule | kInvalidLinearAttentionDimensions | kDerivedDimensionOverflow
  | kInvalidDenseMlpDimensions | kInvalidMoeDimensions | kInvalidMtpDimensions | kInvalidVisionDimensions.

Definition valid_series (s : Z) : bool := (s =? kQwen35) || (s =? kQwen36).
Definition valid_topology (t : Z) : bool := (t =? kDense) || (t =? kMixtureOfExperts).

Definition matches_known_model_identity (c expected : ModelConfig) : bool :=
  (known_model c =? known_model expected) && (series c =? series expected) && (topology c =? topology expected)
  && bool_decide (config_name c = config_name expected) && bool_decide (hf_repo c = hf_repo expected)
  && bool_decide (hf_architecture c = hf_architecture expected)
  && bool_decide (hf_model_type c = hf_model_type expected)
  && bool_decide (hf_text_model_type c = hf_text_model_type expected).

Definition positive_finite (x : float) : bool := PrimFloat.ltb 0 x && PrimFloat.is_finite x.

Definition missing_identity (c : ModelConfig) : bool :=
  (kKnownModelCount <=? known_model c) || negb (valid_series (series c)) || negb (valid_topology (topology c))
  || bool_decide (config_name c = []) || bool_decide (hf_repo c = []) || bool_decide (hf_architecture c = [])
  || bool_decide (hf_model_type c = []) || bool_decide (hf_text_model_type c = []).

Definition invalid_core (c : ModelConfig) : bool :=
  (vocab_size c =? 0) || (hidden_size c =? 0) || (num_hidden_layers c =? 0) || (max_position_embeddings c =? 0)
  || negb (positive_finite (rms_norm_eps c)).

Definition invalid_attention (c : ModelConfig) : bool :=
  (num_attention_heads c =? 0) || (num_key_value_heads c =? 0) || (head_dim c =? 0)
  || negb (num_attention_heads c mod num_key_value_heads c =? 0).

Definition invalid_rotary (c : ModelConfig) : bool :=
  (partial_rotary_numerator c =? 0) || (partial_rotary_denominator c =? 0)
  || (partial_rotary_denominator c <? partial_rotary_numerator c)
  || negb (u64 (head_dim c * partial_rotary_numerator c) mod partial_rotary_denominator c =? 0)
  || (rotary_dim c =? 0) || (head_dim c <? rotary_dim c) || negb (rotary_dim c mod 2 =? 0)
  || negb (positive_finite (rope_theta c)).

Definition invalid_schedule (c : ModelConfig) : bool :=
  (full_attention_interval c =? 0) || (num_hidden_layers c <? full_attention_interval c)
  || (num_full_attention_layers c =? 0).

Definition invalid_linear (c : ModelConfig) : bool :=
  (linear_num_key_heads c =? 0) || (linear_key_head_dim c =? 0) || (linear_num_value_heads c =? 0)
  || (linear_value_head_dim c =? 0) || (linear_conv_kernel_dim c =? 0)
  || negb (linear_num_value_heads c mod linear_num_key_heads c =? 0).

Definition invalid_dense (c : ModelConfig) : bool :=
  (intermediate_size c =? 0) || negb (num_experts c =? 0) || negb (num_experts_per_token c =? 0)
  || negb (moe_intermediate_size c =? 0) || negb (shared_expert_intermediate_size c =? 0).

Definition invalid_moe (c : ModelConfig) : bool :=
  negb (intermediate_size c =? 0) || (num_experts c =? 0) || (num_experts_per_token c =? 0)
  || (num_experts c <? num_experts_per_token c) || (moe_intermediate_size c =? 0)
  || (shared_expert_intermediate_size c =? 0).

Definition invalid_vision (c : ModelConfig) : bool :=
  let v := vision c in
  if present v then
    (depth v =? 0) || (vision_hidden_size v =? 0) || (vision_intermediate_size v =? 0) || (num_heads v =? 0)
    || negb (vision_hidden_size v mod num_heads v =? 0) || negb (out_hidden_size v =? hidden_size c)
    || (num_position_embeddings v =? 0) || (patch_size v =? 0) || (spatial_merge_size v =? 0)
    || (temporal_patch_size v =? 0)
  else
    negb (depth v =? 0) || negb (vision_hidden_size v =? 0) || negb (vision_intermediate_size v =? 0)
    || negb (num_heads v =? 0) || negb (out_hidden_size v =? 0) || negb (num_position_embeddings v =? 0)
    || negb (patch_size v =? 0) || negb (spatial_merge_size v =? 0) || negb (temporal_patch_size v =? 0).

(** The first reason to refuse a configuration; none when it is valid. *)
Definition validate (c : ModelConfig) : option ConfigValidationError :=
  if missing_identity c then Some kMissingIdentity else
  match kCatalog !! Z.to_nat (known_model c) with
  | None => Some kMissingIdentity
  | Some expected =>
      if negb (matches_known_model_identity c expected) then Some kKnownModelIdentityMismatch
      else if invalid_core c then Some kInvalidCoreDimensions
      else if invalid_attention c then Some kInvalidAttentionDimensions
      else if invalid_rotary c then Some kInvalidRotaryDimensions
      else if invalid_schedule c then Some kInvalidLayerSchedule
      else if invalid_linear c then Some kInvalidLinearAttentionDimensions
      else if derived_dimensions_overflow c then Some kDerivedDimensionOverflow
      else if (topology c =? kDense) && invalid_dense c then Some kInvalidDenseMlpDimensions
      else if negb (topology c =? kDense) && invalid_moe c then Some kInvalidMoeDimensions
      else if mtp_uses_dedicated_embeddings c && (mtp_num_hidden_layers c =? 0) then Some kInvalidMtpDimensions
      else if invalid_vision c then Some kInvalidVisionDimensions
      else None
  end.

(** ** Names *)

Definition validation_message (e : option ConfigValidationError) : list Z :=
  match e with
  | None => lit "valid"
  | Some kMissingIdentity => lit "model identity or Hugging Face metadata is missing"
  | Some kKnownModelIdentityMismatch => lit "model identity does not match the known-model catalog"
  | Some kInvalidCoreDimensions => lit "core model dimensions are invalid"
  | Some kInvalidAttentionDimensions => lit "full-attention dimensions are invalid"
  | Some kInvalidRotaryDimensions => lit "rotary embedding dimensions are invalid"
  | Some kInvalidLayerSchedule => lit "hybrid attention layer schedule is invalid"
  | Some kInvalidLinearAttentionDimensions => lit "linear-attention dimensions are invalid"
  | Some kDerivedDimensionOverflow => lit "derived model dimensions overflow uint64_t"
  | Some kInvalidDenseMlpDimensions => lit "dense MLP dimensions are invalid"
  | Some kInvalidMoeDimensions => lit "mixture-of-experts dimensions are invalid"
  | Some kInvalidMtpDimensions => lit "MTP dimensions are invalid"
  | Some kInvalidVisionDimensions => lit "vision tower dimensions are invalid"
  end.

Definition known_model_string (model : Z) : list Z :=
  if model =? kQwen35_27B then lit "Qwen3.5-27B" else if model =? kQwen35_35BA3B then lit "Qwen3.5-35B-A3B"
  else if model =? kQwen36_27B then lit "Qwen3.6-27B" else if model =? kQwen36_35BA3B then lit "Qwen3.6-35B-A3B"
  else lit "unknown".

(** ** The derived dimensions of a valid configuration *)

(** The fields fit their types. *)
Record config_typed (c : ModelConfig) : Prop := {
  typed_attention : is_u32 (num_attention_heads c) /\ is_u32 (num_key_value_heads c) /\ is_u32 (head_dim c);
  typed_rotary : is_u32 (partial_rotary_numerator c) /\ is_u32 (partial_rotary_denominator c);
  typed_schedule : is_u32 (num_hidden_layers c) /\ is_u32 (full_attention_interval c);
  typed_linear : is_u32 (linear_num_key_heads c) /\ is_u32 (linear_key_head_dim c) /\
                 is_u32 (linear_num_value_heads c) /\ is_u32 (linear_value_head_dim c)
}.

(** The layers of a type, counted one by one. *)
Definition layers_of_type (c : ModelConfig) (t : LayerType) : Z :=
  Z.of_nat (length (filter (fun i : nat => layer_type c (Z.of_nat i) = t) (seq 0 (Z.to_nat (num_hidden_layers c))))).

Record dimensions_exact (c : ModelConfig) : Prop := {
  exact_q : q_projection_dim c = num_attention_heads c * head_dim c * (if attention_output_gate c then 2 else 1);
  exact_kv : kv_dim c = num_key_value_heads c * head_dim c;
  exact_groups : exists group, 0 < group /\ num_attention_heads c = group * num_key_value_heads c;
  exact_rotary : 0 < rotary_dim c <= head_dim c /\ Z.even (rotary_dim c) = true /\
    rotary_dim c * partial_rotary_denominator c = head_dim c * partial_rotary_numerator c;
  exact_linear_projection : linear_qkv_projection_dim c =
    2 * (linear_num_key_heads c * linear_key_head_dim c) + linear_num_value_heads c * linear_value_head_dim c;
  exact_linear_state : linear_state_elements_per_layer c =
    linear_key_head_dim c * (linear_num_value_heads c * linear_value_head_dim c);
  exact_kv_cache : full_attention_kv_elements_per_token c =
    2 * num_full_attention_layers c * (num_key_value_heads c * head_dim c);
  exact_schedule : layers_of_type c kFullAttention = num_full_attention_layers c /\
    layers_of_type c kLinearAttention = num_linear_attention_layers c /\ 0 < num_full_attention_layers c /\
    num_full_attention_layers c + num_linear_attention_layers c = num_hidden_layers c;
  exact_layers : forall i, 0 <= i < num_hidden_layers c -> layer_type c i <> kInvalid;
  exact_bounds : Forall is_u64 [q_projection_dim c; kv_dim c; linear_qkv_projection_dim c;
    linear_state_elements_per_layer c; full_attention_kv_elements_per_token c]
}.

Lemma saturating_multiply_exact a b : 0 <= a -> 0 <= b -> a * b <= u64_max -> saturating_multiply a b = a * b.
Proof.
  intros Ha Hb Hle. unfold saturating_multiply.
  destruct (Z.eqb_spec a 0) as [->|Hne]; simpl; [done|].
  destruct (Z.ltb_spec (u64_max / a) b) as [Hlt|_]; [pose proof (Z.div_le_lower_bound u64_max a b); lia|].
  apply u64_small. unfold is_u64, u64_max in *. nia.
Qed.

Lemma saturating_multiply_u32 a b : is_u32 a -> is_u32 b -> saturating_multiply a b = a * b /\ is_u64 (a * b).
Proof.
  unfold is_u32, is_u64. intros Ha Hb. assert (a * b <= (2 ^ 32 - 1) * (2 ^ 32 - 1)) by nia.
  split; [apply saturating_multiply_exact; [lia|lia|]|]; unfold u64_max; nia.
Qed.

Lemma saturating_add_exact a b : a + b <= u64_max -> saturating_add a b = a + b.
Proof. intros Hle. unfold saturating_add. destruct (Z.ltb_spec (u64_max - a) b); lia. Qed.

(** Every [k]-th of the first [n] layers. *)
Lemma count_multiples (k : Z) (n : nat) : 0 < k ->
  Z.of_nat (length (filter (fun i : nat => (Z.of_nat i + 1) mod k = 0) (seq 0 n))) = Z.of_nat n / k.
Proof.
  intros Hk. induction n as [|n IH]; [by rewrite Z.div_0_l by lia|].
  rewrite seq_S, filter_app, length_app, Nat2Z.inj_add, IH. cbn [plus].
  rewrite filter_cons, filter_nil. pose proof (Z.div_mod (Z.of_nat n) k ltac:(lia)). pose proof (Z.mod_pos_bound (Z.of_nat n) k Hk).
  replace (Z.of_nat (S n)) with (Z.of_nat n + 1) by lia. case_decide as Hm; cbn [length].
  - apply Z.div_exact in Hm; [|lia]. enough ((Z.of_nat n + 1) / k - 1 = Z.of_nat n / k) by lia.
    apply (Z.div_unique _ k _ (k - 1)); [lia|]. nia.
  - rewrite Z.add_0_r. apply (Z.div_unique _ k _ (Z.of_nat n mod k + 1)); [|lia].
    left. split; [lia|]. destruct (Z.eq_dec (Z.of_nat n mod k + 1) k) as [He|]; [|lia].
    exfalso. apply Hm. apply Z.mod_divide; [lia|]. exists (Z.of_nat n / k + 1). nia.
Qed.

Lemma layer_type_inside c i : full_attention_interval c <> 0 -> i < num_hidden_layers c ->
  layer_type c i = if (i + 1) mod full_attention_interval c =? 0 then kFullAttention else kLinearAttention.
Proof.
  intros Hk Hi. unfold layer_type. destruct (Z.leb_spec (num_hidden_layers c) i); [lia|].
  destruct (Z.eqb_spec (full_attention_interval c) 0); done.
Qed.

Lemma filter_on {A} (P Q : A -> Prop) `{!forall x, Decision (P x)} `{!forall x, Decision (Q x)} (l : list A) :
  Forall (fun x => P x <-> Q x) l -> filter P l = filter Q l.
Proof. induction 1 as [|x l Hx _ IH]; [done|]. rewrite !filter_cons, IH. repeat case_decide; tauto. Qed.

Lemma filter_split {A} (P Q : A -> Prop) `{!forall x, Decision (P x)} `{!forall x, Decision (Q x)} (l : list A) :
  Forall (fun x => Q x <-> ~ P x) l -> (length (filter P l) + length (filter Q l) = length l)%nat.
Proof.
  induction 1 as [|x l Hx _ IH]; [done|]. rewrite !filter_cons. repeat case_decide; simpl; tauto || lia.
Qed.

Lemma inside_schedule c (R : nat -> Prop) :
  (forall i, Z.of_nat i < num_hidden_layers c -> R i) -> Forall R (seq 0 (Z.to_nat (num_hidden_layers c))).
Proof. intros HR. apply Forall_forall. intros i Hi%elem_of_seq. apply HR. lia. Qed.

Lemma full_layers_count c : is_u32 (num_hidden_layers c) -> 0 < full_attention_interval c ->
  layers_of_type c kFullAttention = num_hidden_layers c / full_attention_interval c.
Proof.
  intros Hn Hk. rewrite <- (Z2Nat.id (num_hidden_layers c)) by (unfold is_u32 in *; lia).
  rewrite <- count_multiples by done. unfold layers_of_type. f_equal. f_equal. apply filter_on, inside_schedule.
  intros i Hi. rewrite layer_type_inside by lia. by destruct (Z.eqb_spec ((Z.of_nat i + 1) mod full_attention_interval c) 0).
Qed.

Lemma linear_layers_count c : is_u32 (num_hidden_layers c) -> 0 < full_attention_interval c ->
  layers_of_type c kFullAttention + layers_of_type c kLinearAttention = num_hidden_layers c.
Proof.
  intros Hn Hk. unfold layers_of_type. rewrite <- Nat2Z.inj_add, filter_split, length_seq.
  - unfold is_u32 in *. lia.
  - apply inside_schedule. intros i Hi. rewrite layer_type_inside by lia. by case_match.
Qed.

(** What the checks of [validate] leave. *)
Record checks_passed (c : ModelConfig) : Prop := {
  passed_attention : num_attention_heads c <> 0 /\ num_key_value_heads c <> 0 /\ head_dim c <> 0 /\
    num_attention_heads c mod num_key_value_heads c = 0;
  passed_rotary : partial_rotary_denominator c <> 0 /\
    u64 (head_dim c * partial_rotary_numerator c) mod partial_rotary_denominator c = 0 /\
    rotary_dim c <> 0 /\ rotary_dim c <= head_dim c /\ rotary_dim c mod 2 = 0;
  passed_schedule : full_attention_interval c <> 0 /\ full_attention_interval c <= num_hidden_layers c /\
    num_full_attention_layers c <> 0;
  passed_linear : linear_num_key_heads c <> 0 /\ linear_num_value_heads c mod linear_num_key_heads c = 0;
  passed_overflow : derived_dimensions_overflow c = false
}.

Lemma validate_checks c : validate c = None -> checks_passed c.
Proof.
  unfold validate. destruct (missing_identity c); [done|]. destruct (_ !! _) as [expected|]; [|done].
  destruct (negb _); [done|]. destruct (invalid_core c); [done|]. destruct (invalid_attention c) eqn:Ha; [done|].
  destruct (invalid_rotary c) eqn:Hr; [done|]. destruct (invalid_schedule c) eqn:Hs; [done|].
  destruct (invalid_linear c) eqn:Hl; [done|]. destruct (derived_dimensions_overflow c) eqn:Ho; [done|]. intros _.
  unfold invalid_attention, invalid_rotary, invalid_schedule, invalid_linear in *. bools. by split.
Qed.

Lemma linear_exact c : config_typed c -> checks_passed c ->
  linear_qkv_projection_dim c =
    2 * (linear_num_key_heads c * linear_key_head_dim c) + linear_num_value_heads c * linear_value_head_dim c /\
  linear_state_elements_per_layer c = linear_key_head_dim c * (linear_num_value_heads c * linear_value_head_dim c) /\
  is_u64 (linear_qkv_projection_dim c) /\ is_u64 (linear_state_elements_per_layer c).
Proof.
  intros [_ _ _ (Hkh & Hkd & Hvh & Hvd)] [_ _ _ [Hne Hdiv] Ho].
  destruct (saturating_multiply_u32 _ _ Hkh Hkd) as [Hqk Hqk64]. destruct (saturating_multiply_u32 _ _ Hvh Hvd) as [Hv Hv64].
  assert (Hper : linear_value_dim_per_key_head c = linear_num_value_heads c / linear_num_key_heads c * linear_value_head_dim c
                 /\ 0 <= linear_value_dim_per_key_head c).
  { unfold linear_value_dim_per_key_head. rewrite (proj2 (Z.eqb_neq _ _) Hne).
    assert (is_u32 (linear_num_value_heads c / linear_num_key_heads c)) as Hq.
    { unfold is_u32 in *. split; [apply Z.div_pos; lia|]. apply (Z.le_lt_trans _ (linear_num_value_heads c)); [|lia].
      apply Z.div_le_upper_bound; nia. }
    destruct (saturating_multiply_u32 _ _ Hq Hvd) as [-> ?]. split; [done|]. unfold is_u64 in *. lia. }
  destruct Hper as [Hper Hper0]. unfold derived_dimensions_overflow in Ho. destruct (_ && _); [done|].
  fold (linear_qk_dim c) in Hqk. fold (linear_value_dim c) in Hv.
  destruct (Z.ltb_spec ((u64_max - linear_value_dim c) / 2) (linear_qk_dim c)) as [|Hle]; [done|].
  destruct (_ && _) eqn:Hstate; [done|]. clear Ho.
  assert (Hsum : 2 * linear_qk_dim c + linear_value_dim c <= u64_max).
  { pose proof (Z.mul_div_le (u64_max - linear_value_dim c) 2 ltac:(lia)). lia. }
  assert (Hprod : linear_qk_dim c * linear_value_dim_per_key_head c <= u64_max).
  { destruct (Z.eq_dec (linear_value_dim_per_key_head c) 0) as [->|Hnz]; [unfold u64_max; lia|].
    rewrite (proj2 (Z.eqb_neq _ _) Hnz) in Hstate. simpl in Hstate. bools.
    pose proof (Z.mul_div_le u64_max (linear_value_dim_per_key_head c)). nia. }
  unfold linear_qkv_projection_dim, linear_state_elements_per_layer. unfold is_u64 in *.
  rewrite (saturating_multiply_exact 2), saturating_add_exact, (saturating_multiply_exact (linear_qk_dim c)) by lia.
  rewrite Hqk, Hv, Hper in *. apply Z.div_exact in Hdiv; [|done]. unfold u64_max in *.
  split_and!; [done| |lia|lia|lia|lia].
  transitivity (linear_key_head_dim c * (linear_num_key_heads c * (linear_num_value_heads c / linear_num_key_heads c)) * linear_value_head_dim c);
    [ring|]. rewrite <- Hdiv. ring.
Qed.

Lemma kv_cache_exact c : config_typed c -> checks_passed c ->
  full_attention_kv_elements_per_token c = 2 * num_full_attention_layers c * (num_key_value_heads c * head_dim c) /\
  is_u64 (full_attention_kv_elements_per_token c).
Proof.
  intros [(_ & Hkv & Hhd) _ (Hn & Hk) _] [_ _ (Hk0 & _ & Hf0) _ Ho].
  destruct (saturating_multiply_u32 _ _ Hkv Hhd) as [Hdim Hdim64]. fold (kv_dim c) in Hdim.
  assert (Hf : 0 <= num_full_attention_layers c < 2 ^ 32).
  { unfold num_full_attention_layers. case_match; [lia|]. unfold is_u32 in *. split; [apply Z.div_pos; lia|].
    apply (Z.le_lt_trans _ (num_hidden_layers c)); [|lia]. apply Z.div_le_upper_bound; nia. }
  unfold derived_dimensions_overflow in Ho. destruct (_ && _); [done|]. destruct (_ <? _); [done|]. destruct (_ && (u64_max / linear_value_dim_per_key_head c <? _)); [done|].
  rewrite (proj2 (Z.eqb_neq _ _) Hf0) in Ho. simpl in Ho. bools.
  assert (2 * num_full_attention_layers c * kv_dim c <= u64_max).
  { pose proof (Z.mul_div_le (u64_max / 2) (num_full_attention_layers c) ltac:(lia)).
    pose proof (Z.mul_div_le u64_max 2 ltac:(lia)). nia. }
  unfold full_attention_kv_elements_per_token. unfold is_u64 in *.
  rewrite (saturating_multiply_exact _ 2) by (unfold u64_max; lia).
  rewrite saturating_multiply_exact by (rewrite Hdim in *; lia). rewrite Hdim in *. unfold u64_max in *. split; [ring|]. lia.
Qed.

Lemma rotary_exact c : config_typed c -> checks_passed c ->
  0 < rotary_dim c <= head_dim c /\ Z.even (rotary_dim c) = true /\
  rotary_dim c * partial_rotary_denominator c = head_dim c * partial_rotary_numerator c.
Proof.
  intros [(_ & _ & Hhd) [Hnum Hden] _ _] [_ (Hd & Hexact & Hr0 & Hrle & Heven) _ _ _].
  destruct (saturating_multiply_u32 _ _ Hhd Hnum) as [Hm Hm64]. rewrite u64_small in Hexact by done.
  unfold rotary_dim in *. rewrite (proj2 (Z.eqb_neq _ _) Hd), Hm in *. apply Z.div_exact in Hexact; [|done].
  assert (0 <= head_dim c * partial_rotary_numerator c / partial_rotary_denominator c)
    by (unfold is_u32, is_u64 in *; apply Z.div_pos; lia).
  split_and!; [lia|lia|by rewrite Zeven_mod, Heven|lia].
Qed.

(** C10. A configuration that validates has exact derived dimensions: the
    products and sums that saturate on 64 bits do not, every query group has
    the same number of heads, the rotary part is an even number of a head's
    elements, and the layers of each type, counted one by one, are as many as
    the configuration says. *)
Theorem valid_dimensions_exact c : config_typed c -> validate c = None -> dimensions_exact c.
Proof.
  intros Ht Hv%validate_checks. destruct (linear_exact c Ht Hv) as (Hl1 & Hl2 & Hl3 & Hl4).
  destruct (kv_cache_exact c Ht Hv) as [Hc1 Hc2]. pose proof (rotary_exact c Ht Hv) as Hr.
  destruct Ht as [(Hah & Hkv & Hhd) _ (Hn & Hk) _]. destruct Hv as [(Ha0 & Hkv0 & Hhd0 & Hmod) _ (Hk0 & Hkn & Hf0) _ Ho].
  destruct (saturating_multiply_u32 _ _ Hkv Hhd) as [Hdim Hdim64]. destruct (saturating_multiply_u32 _ _ Hah Hhd) as [Hq Hq64].
  fold (kv_dim c) in Hdim. fold (q_dim c) in Hq.
  assert (Hqp : q_projection_dim c = num_attention_heads c * head_dim c * (if attention_output_gate c then 2 else 1)
                /\ is_u64 (q_projection_dim c)).
  { unfold q_projection_dim, derived_dimensions_overflow in *. unfold is_u64 in *. destruct (attention_output_gate c); simpl in Ho.
    - destruct (Z.ltb_spec (u64_max / 2) (q_dim c)) as [|Hle]; [done|].
      pose proof (Z.mul_div_le u64_max 2 ltac:(lia)). rewrite saturating_multiply_exact by lia. unfold u64_max in *. lia.
    - rewrite saturating_multiply_exact by (unfold u64_max; lia). lia. }
  destruct Hqp as [Hqp Hqp64].
  assert (Hfull : num_full_attention_layers c = num_hidden_layers c / full_attention_interval c).
  { unfold num_full_attention_layers. by rewrite (proj2 (Z.eqb_neq _ _) Hk0). }
  unfold is_u32 in Hn, Hk. pose proof (full_layers_count c Hn ltac:(lia)) as Hfc. pose proof (linear_layers_count c Hn ltac:(lia)) as Hlc.
  assert (Hpos : 0 < num_full_attention_layers c) by (rewrite Hfull in *; pose proof (Z.div_pos (num_hidden_layers c) (full_attention_interval c)); lia).
  assert (Hlin : num_linear_attention_layers c = num_hidden_layers c - num_full_attention_layers c).
  { apply u32_small. unfold is_u32. unfold layers_of_type in *. lia. }
  split; try done.
  - exists (num_attention_heads c / num_key_value_heads c). apply Z.div_exact in Hmod; [|done]. unfold is_u32 in *. split; [nia|lia].
  - rewrite Hfc, Hlin. split_and!; lia.
  - intros i Hi. rewrite layer_type_inside by lia. by destruct (_ =? 0).
  - rewrite Hdim. repeat (apply Forall_cons; split; [done|]). done.
Qed.

(** The catalog holds every model once, under its three names. *)
Lemma catalog_valid : Forall (fun c => validate c = None /\ find_known_model (known_model c) = Some c /\
  find_known_model_by_name (config_name c) = Some c /\ find_known_model_by_name (hf_repo c) = Some c) known_model_catalog.
Proof. repeat (apply Forall_cons; split; [split_and!; reflexivity|]). apply Forall_nil. exact I. Qed.

Lemma valid_dimensions_exact_witness :
  linear_state_elements_per_layer (make_dense_27b kQwen36_27B kQwen36 (lit "Qwen3.6-27B") (lit "Qwen/Qwen3.6-27B")) = 128 * (48 * 128).
Proof.
  apply (exact_linear_state _ (valid_dimensions_exact
    (make_dense_27b kQwen36_27B kQwen36 (lit "Qwen3.6-27B") (lit "Qwen/Qwen3.6-27B"))
    ltac:(split; cbn; unfold is_u32; lia) ltac:(reflexivity))).
Defined.
