(* ===== verification/Checkpoint.v ===== *)
(** * Checkpoint: is a directory one of the pinned checkpoints?
      (src/model/checkpoint_metadata.cpp, include/q3x/model/checkpoint_metadata.h)

    Three metadata files are read, parsed, compared with the catalog of known
    architectures and with the SHA-256 digests of the pinned artifacts; then
    the shards are looked for, or validated in full.

    A parser goes on after a mistake and collects diagnostics: [report A] is a
    value with the diagnostics that led to it.  A diagnostic keeps its code,
    severity, source and JSON pointer; the texts that explain it to a reader
    ([expected], [actual] and [message]) are left out.  Memory is never
    exhausted.  The file system is a parameter. *)

From Stdlib Require Import String Floats Uint63.
From S2P Require Import Prelude OrderedMap Json Sha256 Safetensors ModelConfig.

(** ** Data *)

Inductive InspectionStatus :=
  | kMetadataCompatible | kInvalidMetadata | kUnknownRevision | kUnsupportedArchitectureStatus
  | kUnsupportedQuantizationStatus | kMissingRequiredFile | kIoError | kMissingShard.

Inductive Severity := kWarning | kError.

Inductive DiagnosticCode :=
  | kFileMissing | kFileReadFailed | kInputTooLarge | kInvalidJson | kMissingField | kWrongType
  | kUnknownField | kInvalidValue | kIntegerOutOfRange | kUnsupportedArchitecture | kUnsupportedQuantization
  | kUnknownRevisionCode | kHashMismatch | kProducerMismatch | kQuantizationCountMismatch | kMissingQuantizedModule
  | kUnexpectedQuantizedModule | kQuantizedModuleMismatch | kInvalidIndex | kUnsafeShardPath | kShardMissing
  | kShardNotRegular | kShardHeaderInvalid | kUnexpectedShardTensor | kWrongShardTensor | kMissingShardTensor
  | kShardPayloadSizeMismatch | kAllocationFailure.

#[global] Instance InspectionStatus_eq_dec : EqDecision InspectionStatus.
Proof. solve_decision. Defined.
#[global] Instance DiagnosticCode_eq_dec : EqDecision DiagnosticCode.
Proof. solve_decision. Defined.

Record Diagnostic := { code : DiagnosticCode; severity : Severity; source : list Z; json_pointer : list Z }.

Definition make_diagnostic (c : DiagnosticCode) (from pointer : list Z) : Diagnostic :=
  {| code := c; severity := kError; source := from; json_pointer := pointer |}.

Module Hf.
Record HfConfigSummary := {
  architecture : list Z;
  model_type : list Z;
  text_model_type : list Z;
  dtype : list Z;
  hidden_activation : list Z;
  vocab_size : Z;
  hidden_size : Z;
  intermediate_size : Z;
  num_hidden_layers : Z;
  max_position_embeddings : Z;
  rms_norm_eps : float;
  num_attention_heads : Z;
  num_key_value_heads : Z;
  head_dim : Z;
  full_attention_interval : Z;
  partial_rotary_factor : float;
  rope_theta : float;
  attention_bias : bool;
  attention_output_gate : bool;
  linear_num_key_heads : Z;
  linear_key_head_dim : Z;
  linear_num_value_heads : Z;
  linear_value_head_dim : Z;
  linear_conv_kernel_dim : Z;
  num_experts : Z;
  num_experts_per_token : Z;
  moe_intermediate_size : Z;
  shared_expert_intermediate_size : Z;
  mtp_num_hidden_layers : Z;
  mtp_uses_dedicated_embeddings : bool;
  vision : VisionConfig;
  layer_types : list LayerType;
  embedded_quantization_method : option (list Z);
  shape_candidates : list Z
}.
End Hf.

Inductive QuantAlgorithm := kFp8 | kW4A16Nvfp4.

#[global] Instance QuantAlgorithm_eq_dec : EqDecision QuantAlgorithm.
Proof. solve_decision. Defined.

Record QuantizedModule := { algorithm : QuantAlgorithm; group_size : option Z }.

#[global] Instance QuantizedModule_eq_dec : EqDecision QuantizedModule.
Proof. solve_decision. Defined.

Record ModelOptSummary := {
  producer_name : list Z;
  producer_version : list Z;
  quantization_algorithm : list Z;
  kv_cache_quantization_algorithm : list Z;
  exclude_modules : list (list Z);
  quantized_modules : list (list Z * QuantizedModule);
  fp8_count : Z;
  nvfp4_count : Z
}.

Record KnownCheckpointDescriptor := {
  model : Z;
  id : list Z;
  repository : list Z;
  revision : list Z;
  config_sha256 : list Z;
  quant_config_sha256 : list Z;
  index_sha256 : list Z;
  modelopt_version : list Z;
  expected_fp8_modules : Z;
  expected_nvfp4_modules : Z;
  expected_index_tensors : Z;
  expected_index_shards : Z;
  expected_index_total_size : option Z;
  external_quantization_authoritative : bool;
  known_metadata_quirk : list Z
}.

Record FileEvidence := { evidence_name : list Z; evidence_size : Z; evidence_sha256 : list Z }.

Record IndexSummary := { tensor_count : Z; index_shards : list (list Z); index_total_size : option Z }.

Record InspectionOptions := {
  require_shards : bool;
  max_config_bytes : Z;
  max_quant_config_bytes : Z;
  max_index_bytes : Z;
  max_index_tensors : Z;
  max_index_shards : Z
}.

Definition default_inspection_options : InspectionOptions := {|
  require_shards := false; max_config_bytes := 1024 * 1024; max_quant_config_bytes := 4 * 1024 * 1024;
  max_index_bytes := 64 * 1024 * 1024; max_index_tensors := 2000000; max_index_shards := 100000
|}.

Record InspectionReport := {
  checkpoint : KnownCheckpointDescriptor;
  config : Hf.HfConfigSummary;
  quantization : ModelOptSummary;
  index : IndexSummary;
  files : list FileEvidence;
  present_shards : Z;
  missing_shards : Z;
  shard_contract_validated : bool;
  report_validated_shards : Z;
  report_validated_tensors : Z;
  validated_payload_bytes : Z;
  report_diagnostics : list Diagnostic
}.

Record InspectionResult := {
  status : InspectionStatus;
  inspection_report : option InspectionReport;
  diagnostics : list Diagnostic
}.

Definition qwen36_27b_checkpoint : KnownCheckpointDescriptor := {|
  model := kQwen36_27B; id := lit "nvidia-qwen3.6-27b-nvfp4@0893e160"; repository := lit "nvidia/Qwen3.6-27B-NVFP4";
  revision := lit "0893e1606ff3d5f97a441f405d5fc541a6bdf404";
  config_sha256 := lit "c04a19ba293737ad7be4f6e96d6666cb7e479cbe19ecc0c289fad267135b0338";
  quant_config_sha256 := lit "fd7200cd8bca2a8a5d777061521abf83e2deb97ab6bc2f04e7a0a3d3f8ecd5c1";
  index_sha256 := lit "7aa103a2582b7d26631988de33dea19e8a308ee9c239e8e14feb374af30905e2";
  modelopt_version := lit "0.45.0"; expected_fp8_modules := 208; expected_nvfp4_modules := 193;
  expected_index_tensors := 2194; expected_index_shards := 3; expected_index_total_size := Some 21921428072;
  external_quantization_authoritative := true; known_metadata_quirk := []
|}.

Definition qwen36_35b_a3b_checkpoint : KnownCheckpointDescriptor := {|
  model := kQwen36_35BA3B; id := lit "nvidia-qwen3.6-35b-a3b-nvfp4@491c2f1e";
  repository := lit "nvidia/Qwen3.6-35B-A3B-NVFP4"; revision := lit "491c2f1ea524c639598bf8fa787a93fed5a6fbce";
  config_sha256 := lit "58aefa1c9eff7989f431d748f2ddec39446cb1fd2a69acc46e285c6a37b0cecc";
  quant_config_sha256 := lit "75fe7cc8d5836b58734e05ee67423a4ce91d602aaad45c8173a1b7597cd57663";
  index_sha256 := lit "d67403a4e9793c0ba8a136baf14b3b76ec7b32c822267978084895e07ebd8a3e";
  modelopt_version := lit "0.44.0"; expected_fp8_modules := 130; expected_nvfp4_modules := 161;
  expected_index_tensors := 124468; expected_index_shards := 3; expected_index_total_size := Some 23407580856;
  external_quantization_authoritative := true;
  known_metadata_quirk := lit "The pinned config.json contains stale embedded ModelOpt 0.37.0 " ++
  lit "metadata with no KV-cache scheme and an activation-quantized NVFP4 " ++
  lit "group. The pinned external hf_quant_config.json (ModelOpt 0.44.0) " ++
  lit "is authoritative; its per-layer table agrees with the embedded table."
|}.

Definition kCheckpoints : list KnownCheckpointDescriptor := [qwen36_27b_checkpoint; qwen36_35b_a3b_checkpoint].

Definition known_checkpoint_catalog : list KnownCheckpointDescriptor := kCheckpoints.

Fixpoint find_checkpoint (test : KnownCheckpointDescriptor -> bool) (catalog : list KnownCheckpointDescriptor)
    : option KnownCheckpointDescriptor :=
  match catalog with
  | [] => None
  | c :: catalog => if test c then Some c else find_checkpoint test catalog
  end.

Definition find_known_checkpoint_by_config_sha256 (digest : list Z) : option KnownCheckpointDescriptor :=
  find_checkpoint (fun c => bool_decide (config_sha256 c = digest)) kCheckpoints.

(** ** Collecting diagnostics *)

Definition report (A : Type) : Type := A * list Diagnostic.

#[export] Instance report_ret : MRet report := fun A a => (a, []).
#[export] Instance report_bind : MBind report := fun A B k m =>
  let '(b, after) := k m.1 in (b, m.2 ++ after).

Definition complain (c : DiagnosticCode) (from pointer : list Z) : report unit := (tt, [make_diagnostic c from pointer]).
Definition complain_if (test : bool) (c : DiagnosticCode) (from pointer : list Z) : report unit :=
  if test then complain c from pointer else mret tt.

(** ** Reading fields *)

Definition find_value (object : list (list Z * Value)) (key : list Z) : option Value := map_find key object.

Definition require_object (value : Value) (from pointer : list Z) : report (option (list (list Z * Value))) :=
  match as_object value with
  | None => (None, [make_diagnostic kWrongType from pointer])
  | Some members => mret (Some members)
  end.

Definition require_field (object : list (list Z * Value)) (key from pointer : list Z) : report (option Value) :=
  match find_value object key with
  | None => (None, [make_diagnostic kMissingField from pointer])
  | Some value => mret (Some value)
  end.

(** A required field that is an object. *)
Definition object_field (object : list (list Z * Value)) (key from pointer : list Z)
    : report (option (list (list Z * Value))) :=
  value ← require_field object key from pointer;
  match value with None => mret None | Some value => require_object value from pointer end.

(** [read_string], [read_bool], [read_uint32] and [read_double]: the value
    written to [output], if the function answers true. *)
Definition read_with {A} (read : Value -> option A) (object : list (list Z * Value)) (key from pointer : list Z)
    : report (option A) :=
  value ← require_field object key from pointer;
  match value with
  | None => mret None
  | Some value =>
      match read value with
      | None => (None, [make_diagnostic kWrongType from pointer])
      | Some a => mret (Some a)
      end
  end.

Definition read_string := read_with as_string.
Definition read_bool := read_with as_bool.

Definition read_uint32 (object : list (list Z * Value)) (key from pointer : list Z) : report (option Z) :=
  parsed ← read_with as_uint64 object key from pointer;
  match parsed with
  | None => mret None
  | Some parsed => if u32_max <? parsed then (None, [make_diagnostic kIntegerOutOfRange from pointer]) else mret (Some parsed)
  end.

(** The double a number means; the sign of a zero is kept. *)
Definition to_float (text : list Z) : option float :=
  match to_double text with
  | None => None
  | Some (m, e) =>
      let magnitude := Z.ldexp (PrimFloat.of_uint63 (Uint63.of_Z (Z.abs m))) e in
      Some (if default 0 (head text) =? 45 then PrimFloat.opp magnitude else magnitude)
  end.

Definition as_float (value : Value) : option float := text ← as_number value; to_float text.
Definition read_double := read_with as_float.

Fixpoint check_allowed_keys (object : list (list Z * Value)) (allowed : list (list Z)) (from pointer : list Z) : report unit :=
  match object with
  | [] => mret tt
  | (key, _) :: object =>
      _ ← complain_if (negb (bool_decide (key ∈ allowed))) kUnknownField from (pointer ++ [slash] ++ key);
      check_allowed_keys object allowed from pointer
  end.

Definition almost_equal (left right : float) : bool :=
  let scale := (let m := PrimFloat.abs left in if PrimFloat.ltb 1 m then m else 1%float) in
  let scale := (let m := PrimFloat.abs right in if PrimFloat.ltb scale m then m else scale) in
  PrimFloat.leb (PrimFloat.abs (PrimFloat.sub left right)) (PrimFloat.mul scale 0x1.19799812dea11p-40).

(** ** config.json *)

Definition matches_vision (left right : VisionConfig) : bool :=
  bool_decide (present left = present right) && (depth left =? depth right)
  && (vision_hidden_size left =? vision_hidden_size right) && (vision_intermediate_size left =? vision_intermediate_size right)
  && (num_heads left =? num_heads right) && (out_hidden_size left =? out_hidden_size right)
  && (num_position_embeddings left =? num_position_embeddings right) && (patch_size left =? patch_size right)
  && (spatial_merge_size left =? spatial_merge_size right) && (temporal_patch_size left =? temporal_patch_size right).

(** The loop over the layers. *)
Fixpoint matches_layers (types : list LayerType) (layer : Z) (c : ModelConfig) : bool :=
  match types with
  | [] => true
  | t :: types => bool_decide (t = layer_type c layer) && matches_layers types (layer + 1) c
  end.

Definition matches_catalog_shape (s : Hf.HfConfigSummary) (c : ModelConfig) : bool :=
  bool_decide (Hf.architecture s = hf_architecture c) && bool_decide (Hf.model_type s = hf_model_type c)
  && bool_decide (Hf.text_model_type s = hf_text_model_type c) && bool_decide (Hf.dtype s = lit "bfloat16")
  && bool_decide (Hf.hidden_activation s = lit "silu")
  && (Hf.vocab_size s =? vocab_size c) && (Hf.hidden_size s =? hidden_size c)
  && (Hf.intermediate_size s =? intermediate_size c) && (Hf.num_hidden_layers s =? num_hidden_layers c)
  && (Hf.max_position_embeddings s =? max_position_embeddings c)
  && almost_equal (Hf.rms_norm_eps s) (rms_norm_eps c)
  && (Hf.num_attention_heads s =? num_attention_heads c) && (Hf.num_key_value_heads s =? num_key_value_heads c)
  && (Hf.head_dim s =? head_dim c) && (Hf.full_attention_interval s =? full_attention_interval c)
  && almost_equal (Hf.partial_rotary_factor s) 0.25 && almost_equal (Hf.rope_theta s) (rope_theta c)
  && negb (Hf.attention_bias s) && bool_decide (Hf.attention_output_gate s = attention_output_gate c)
  && (Hf.linear_num_key_heads s =? linear_num_key_heads c) && (Hf.linear_key_head_dim s =? linear_key_head_dim c)
  && (Hf.linear_num_value_heads s =? linear_num_value_heads c) && (Hf.linear_value_head_dim s =? linear_value_head_dim c)
  && (Hf.linear_conv_kernel_dim s =? linear_conv_kernel_dim c)
  && (Hf.num_experts s =? num_experts c) && (Hf.num_experts_per_token s =? num_experts_per_token c)
  && (Hf.moe_intermediate_size s =? moe_intermediate_size c)
  && (Hf.shared_expert_intermediate_size s =? shared_expert_intermediate_size c)
  && (Hf.mtp_num_hidden_layers s =? mtp_num_hidden_layers c)
  && bool_decide (Hf.mtp_uses_dedicated_embeddings s = mtp_uses_dedicated_embeddings c)
  && (Z.of_nat (length (Hf.layer_types s)) =? num_hidden_layers c)
  && matches_vision (Hf.vision s) (vision c) && matches_layers (Hf.layer_types s) 0 c.

(** A field of an object, with the default of the record where it cannot be
    read; [at_key] is the pointer of the object. *)
Definition string_of (object : list (list Z * Value)) (from at_key key : list Z) : report (list Z) :=
  v ← read_string object key from (at_key ++ [slash] ++ key); mret (default [] v).
Definition bool_of (object : list (list Z * Value)) (from at_key key : list Z) : report bool :=
  v ← read_bool object key from (at_key ++ [slash] ++ key); mret (default false v).
Definition uint32_of (object : list (list Z * Value)) (from at_key key : list Z) : report Z :=
  v ← read_uint32 object key from (at_key ++ [slash] ++ key); mret (default 0 v).
Definition double_of (object : list (list Z * Value)) (from at_key key : list Z) : report float :=
  v ← read_double object key from (at_key ++ [slash] ++ key); mret (default 0%float v).

Definition architecture_of (object : list (list Z * Value)) (from : list Z) : report (list Z) :=
  value ← require_field object (lit "architectures") from (lit "/architectures");
  match value with
  | None => mret []
  | Some value =>
      match as_array value with
      | Some [element] =>
          match as_string element with
          | Some name => mret name
          | None => ([], [make_diagnostic kWrongType from (lit "/architectures")])
          end
      | _ => ([], [make_diagnostic kWrongType from (lit "/architectures")])
      end
  end.

Definition dense_architecture : list Z := lit "Qwen3_5ForConditionalGeneration".
Definition moe_architecture : list Z := lit "Qwen3_5MoeForConditionalGeneration".

(** The rotary parameters: the partial factor and theta. *)
Definition rope_of (text : list (list Z * Value)) (from : list Z) : report (float * float) :=
  rope ← object_field text (lit "rope_parameters") from (lit "/text_config/rope_parameters");
  match rope with
  | None => mret (0%float, 0%float)
  | Some rope =>
      factor ← double_of rope from (lit "/text_config/rope_parameters") (lit "partial_rotary_factor");
      theta ← double_of rope from (lit "/text_config/rope_parameters") (lit "rope_theta");
      _ ← match find_value text (lit "partial_rotary_factor") with
          | None => mret tt
          | Some text_partial =>
              match as_float text_partial with
              | None => complain kWrongType from (lit "/text_config/partial_rotary_factor")
              | Some parsed =>
                  complain_if (negb (almost_equal parsed factor)) kInvalidValue from (lit "/text_config/partial_rotary_factor")
              end
          end;
      mret (factor, theta)
  end.

Definition layer_type_of_name (name : list Z) : option LayerType :=
  if bool_decide (name = lit "linear_attention") then Some kLinearAttention
  else if bool_decide (name = lit "full_attention") then Some kFullAttention else None.

(** The loop over the layer types. *)
Fixpoint layer_types_from (layers : list Value) (i : Z) (from : list Z) : report (list LayerType) :=
  match layers with
  | [] => mret []
  | layer :: layers =>
      match (name ← as_string layer; layer_type_of_name name) with
      | None =>
          _ ← complain kInvalidValue from (lit "/text_config/layer_types/" ++ to_string i);
          layer_types_from layers (i + 1) from
      | Some t => types ← layer_types_from layers (i + 1) from; mret (t :: types)
      end
  end.

Definition layer_types_of (text : list (list Z * Value)) (from : list Z) : report (list LayerType) :=
  value ← require_field text (lit "layer_types") from (lit "/text_config/layer_types");
  match value with
  | None => mret []
  | Some value =>
      match as_array value with
      | None => ([], [make_diagnostic kWrongType from (lit "/text_config/layer_types")])
      | Some layers => layer_types_from layers 0 from
      end
  end.

Definition empty_vision : VisionConfig := {|
  present := false; depth := 0; vision_hidden_size := 0; vision_intermediate_size := 0; num_heads := 0;
  out_hidden_size := 0; num_position_embeddings := 0; patch_size := 0; spatial_merge_size := 0; temporal_patch_size := 0
|}.

Definition vision_of (object : list (list Z * Value)) (from : list Z) : report VisionConfig :=
  vision ← object_field object (lit "vision_config") from (lit "/vision_config");
  match vision with
  | None => mret empty_vision
  | Some vision =>
      let field := uint32_of vision from (lit "/vision_config") in
      v_depth ← field (lit "depth");
      v_hidden ← field (lit "hidden_size");
      v_intermediate ← field (lit "intermediate_size");
      v_heads ← field (lit "num_heads");
      v_out ← field (lit "out_hidden_size");
      v_positions ← field (lit "num_position_embeddings");
      v_patch ← field (lit "patch_size");
      v_merge ← field (lit "spatial_merge_size");
      v_temporal ← field (lit "temporal_patch_size");
      mret {| present := true; depth := v_depth; vision_hidden_size := v_hidden; vision_intermediate_size := v_intermediate;
              num_heads := v_heads; out_hidden_size := v_out; num_position_embeddings := v_positions;
              patch_size := v_patch; spatial_merge_size := v_merge; temporal_patch_size := v_temporal |}
  end.

Definition embedded_quantization_of (object : list (list Z * Value)) (from : list Z) : report (option (list Z)) :=
  match find_value object (lit "quantization_config") with
  | None => mret None
  | Some embedded =>
      quantization ← require_object embedded from (lit "/quantization_config");
      match quantization with
      | None => mret None
      | Some quantization =>
          match find_value quantization (lit "quant_method") with
          | None => mret None
          | Some method =>
              match as_string method with
              | None => (None, [make_diagnostic kWrongType from (lit "/quantization_config/quant_method")])
              | Some name => mret (Some name)
              end
          end
      end
  end.

(** The feed-forward dimensions, which depend on the architecture. *)
Definition feed_forward_of (text : list (list Z * Value)) (from arch : list Z) : report (Z * (Z * Z * Z * Z)) :=
  let field := uint32_of text from (lit "/text_config") in
  if bool_decide (arch = dense_architecture) then
    size ← field (lit "intermediate_size"); mret (size, (0, 0, 0, 0))
  else if bool_decide (arch = moe_architecture) then
    experts ← field (lit "num_experts");
    per_token ← field (lit "num_experts_per_tok");
    size ← field (lit "moe_intermediate_size");
    shared ← field (lit "shared_expert_intermediate_size");
    mret (0, (experts, per_token, size, shared))
  else mret (0, (0, 0, 0, 0)).

(** The rest of the document, once [text_config] is found. *)
Definition parse_text_config (object text : list (list Z * Value)) (from arch mtype : list Z) : report Hf.HfConfigSummary :=
  let at_key := lit "/text_config" in
  let field := uint32_of text from at_key in
  t_model_type ← string_of text from at_key (lit "model_type");
  t_dtype ← string_of text from at_key (lit "dtype");
  t_act ← string_of text from at_key (lit "hidden_act");
  t_vocab ← field (lit "vocab_size");
  t_hidden ← field (lit "hidden_size");
  t_layers ← field (lit "num_hidden_layers");
  t_positions ← field (lit "max_position_embeddings");
  t_eps ← double_of text from at_key (lit "rms_norm_eps");
  t_heads ← field (lit "num_attention_heads");
  t_kv ← field (lit "num_key_value_heads");
  t_head_dim ← field (lit "head_dim");
  t_interval ← field (lit "full_attention_interval");
  t_bias ← bool_of text from at_key (lit "attention_bias");
  t_gate ← bool_of text from at_key (lit "attn_output_gate");
  t_lkh ← field (lit "linear_num_key_heads");
  t_lkd ← field (lit "linear_key_head_dim");
  t_lvh ← field (lit "linear_num_value_heads");
  t_lvd ← field (lit "linear_value_head_dim");
  t_conv ← field (lit "linear_conv_kernel_dim");
  t_mtp ← field (lit "mtp_num_hidden_layers");
  t_dedicated ← bool_of text from at_key (lit "mtp_use_dedicated_embeddings");
  '(t_intermediate, (t_experts, t_per_token, t_moe, t_shared)) ← feed_forward_of text from arch;
  '(t_factor, t_theta) ← rope_of text from;
  t_types ← layer_types_of text from;
  t_vision ← vision_of object from;
  t_method ← embedded_quantization_of object from;
  mret {| Hf.architecture := arch; Hf.model_type := mtype; Hf.text_model_type := t_model_type; Hf.dtype := t_dtype;
    Hf.hidden_activation := t_act; Hf.vocab_size := t_vocab; Hf.hidden_size := t_hidden;
    Hf.intermediate_size := t_intermediate; Hf.num_hidden_layers := t_layers; Hf.max_position_embeddings := t_positions;
    Hf.rms_norm_eps := t_eps; Hf.num_attention_heads := t_heads; Hf.num_key_value_heads := t_kv; Hf.head_dim := t_head_dim;
    Hf.full_attention_interval := t_interval; Hf.partial_rotary_factor := t_factor; Hf.rope_theta := t_theta;
    Hf.attention_bias := t_bias; Hf.attention_output_gate := t_gate; Hf.linear_num_key_heads := t_lkh;
    Hf.linear_key_head_dim := t_lkd; Hf.linear_num_value_heads := t_lvh; Hf.linear_value_head_dim := t_lvd;
    Hf.linear_conv_kernel_dim := t_conv; Hf.num_experts := t_experts; Hf.num_experts_per_token := t_per_token;
    Hf.moe_intermediate_size := t_moe; Hf.shared_expert_intermediate_size := t_shared;
    Hf.mtp_num_hidden_layers := t_mtp; Hf.mtp_uses_dedicated_embeddings := t_dedicated; Hf.vision := t_vision;
    Hf.layer_types := t_types; Hf.embedded_quantization_method := t_method; Hf.shape_candidates := [] |}.

Definition with_candidates (l : list Z) (s : Hf.HfConfigSummary) : Hf.HfConfigSummary := {|
  Hf.architecture := Hf.architecture s; Hf.model_type := Hf.model_type s; Hf.text_model_type := Hf.text_model_type s;
  Hf.dtype := Hf.dtype s; Hf.hidden_activation := Hf.hidden_activation s; Hf.vocab_size := Hf.vocab_size s;
  Hf.hidden_size := Hf.hidden_size s; Hf.intermediate_size := Hf.intermediate_size s;
  Hf.num_hidden_layers := Hf.num_hidden_layers s; Hf.max_position_embeddings := Hf.max_position_embeddings s;
  Hf.rms_norm_eps := Hf.rms_norm_eps s; Hf.num_attention_heads := Hf.num_attention_heads s;
  Hf.num_key_value_heads := Hf.num_key_value_heads s; Hf.head_dim := Hf.head_dim s;
  Hf.full_attention_interval := Hf.full_attention_interval s; Hf.partial_rotary_factor := Hf.partial_rotary_factor s;
  Hf.rope_theta := Hf.rope_theta s; Hf.attention_bias := Hf.attention_bias s;
  Hf.attention_output_gate := Hf.attention_output_gate s; Hf.linear_num_key_heads := Hf.linear_num_key_heads s;
  Hf.linear_key_head_dim := Hf.linear_key_head_dim s; Hf.linear_num_value_heads := Hf.linear_num_value_heads s;
  Hf.linear_value_head_dim := Hf.linear_value_head_dim s; Hf.linear_conv_kernel_dim := Hf.linear_conv_kernel_dim s;
  Hf.num_experts := Hf.num_experts s; Hf.num_experts_per_token := Hf.num_experts_per_token s;
  Hf.moe_intermediate_size := Hf.moe_intermediate_size s;
  Hf.shared_expert_intermediate_size := Hf.shared_expert_intermediate_size s;
  Hf.mtp_num_hidden_layers := Hf.mtp_num_hidden_layers s;
  Hf.mtp_uses_dedicated_embeddings := Hf.mtp_uses_dedicated_embeddings s; Hf.vision := Hf.vision s;
  Hf.layer_types := Hf.layer_types s; Hf.embedded_quantization_method := Hf.embedded_quantization_method s;
  Hf.shape_candidates := l
|}.

(** [Result<T>]: a value, or the diagnostics. *)
Definition result_of {A} (r : report (option A)) : list Diagnostic + A :=
  match r with
  | (Some a, []) => inr a
  | (_, diagnostics) => inl diagnostics
  end.

Definition shape_candidates_of (s : Hf.HfConfigSummary) : list Z :=
  known_model <$> List.filter (matches_catalog_shape s) known_model_catalog.

Definition parse_hf_config (root : Value) (from : list Z) : list Diagnostic + Hf.HfConfigSummary :=
  s ← result_of (
    object ← require_object root from [];
    match object with
    | None => mret None
    | Some object =>
        arch ← architecture_of object from;
        mtype ← string_of object from [] (lit "model_type");
        if negb (bool_decide (arch = [])) && negb (bool_decide (arch = dense_architecture))
           && negb (bool_decide (arch = moe_architecture))
        then _ ← complain kUnsupportedArchitecture from (lit "/architectures/0"); mret None
        else
          text ← object_field object (lit "text_config") from (lit "/text_config");
          match text with
          | None => mret None
          | Some text => s ← parse_text_config object text from arch mtype; mret (Some s)
          end
    end);
  inr (with_candidates (shape_candidates_of s) s).

(** ** hf_quant_config.json *)

(** The loop over the patterns: those kept, and those seen. *)
Fixpoint exclude_patterns (patterns : list Value) (i : Z) (from : list Z) (seen : list (list Z)) : report (list (list Z)) :=
  match patterns with
  | [] => mret []
  | value :: patterns =>
      let pointer := lit "/quantization/exclude_modules/" ++ to_string i in
      match as_string value with
      | None | Some [] => _ ← complain kWrongType from pointer; exclude_patterns patterns (i + 1) from seen
      | Some pattern =>
          if bool_decide (pattern ∈ seen)
          then _ ← complain kInvalidValue from pointer; exclude_patterns patterns (i + 1) from seen
          else l ← exclude_patterns patterns (i + 1) from (set_emplace pattern seen); mret (pattern :: l)
      end
  end.

Definition exclude_modules_of (quantization : list (list Z * Value)) (from : list Z) : report (list (list Z)) :=
  value ← require_field quantization (lit "exclude_modules") from (lit "/quantization/exclude_modules");
  match value with
  | None => mret []
  | Some value =>
      match as_array value with
      | None => ([], [make_diagnostic kWrongType from (lit "/quantization/exclude_modules")])
      | Some patterns => exclude_patterns patterns 0 from []
      end
  end.

(** The algorithm of one module; nothing when the record is skipped. *)
Definition module_of (entry : list (list Z * Value)) (from pointer : list Z) : report (option QuantizedModule) :=
  algorithm_value ← require_field entry (lit "quant_algo") from (pointer ++ lit "/quant_algo");
  match algorithm_value with
  | None => mret None
  | Some algorithm_value =>
      match as_string algorithm_value with
      | None => (None, [make_diagnostic kWrongType from (pointer ++ lit "/quant_algo")])
      | Some name =>
          if bool_decide (name = lit "FP8") then
            _ ← check_allowed_keys entry [lit "quant_algo"] from pointer;
            mret (Some {| algorithm := kFp8; group_size := None |})
          else if bool_decide (name = lit "W4A16_NVFP4") then
            _ ← check_allowed_keys entry [lit "quant_algo"; lit "group_size"] from pointer;
            group ← read_uint32 entry (lit "group_size") from (pointer ++ lit "/group_size");
            _ ← match group with
                | None => mret tt
                | Some n => complain_if (negb (n =? 16)) kUnsupportedQuantization from (pointer ++ lit "/group_size")
                end;
            mret (Some {| algorithm := kW4A16Nvfp4; group_size := group |})
          else (None, [make_diagnostic kUnsupportedQuantization from (pointer ++ lit "/quant_algo")])
      end
  end.

Definition Modules : Type := list (list Z * QuantizedModule).

(** The modules, and how many there are of each algorithm. *)
Definition add_module (name : list Z) (m : QuantizedModule) (found : Modules * (Z * Z)) : Modules * (Z * Z) :=
  let '(modules, (fp8, nvfp4)) := found in
  (map_emplace name m modules,
   match algorithm m with kFp8 => (fp8 + 1, nvfp4) | kW4A16Nvfp4 => (fp8, nvfp4 + 1) end).

(** The loop over the records. *)
Fixpoint quantized_layers_from (layers : list (list Z * Value)) (from : list Z) (found : Modules * (Z * Z))
    : report (Modules * (Z * Z)) :=
  match layers with
  | [] => mret found
  | (name, value) :: layers =>
      let pointer := lit "/quantization/quantized_layers/" ++ name in
      if bool_decide (name = [])
      then _ ← complain kInvalidValue from pointer; quantized_layers_from layers from found
      else
        entry ← require_object value from pointer;
        m ← match entry with None => mret None | Some entry => module_of entry from pointer end;
        quantized_layers_from layers from (match m with None => found | Some m => add_module name m found end)
  end.

Definition kMaximumQuantizedModules : Z := 100000.

Definition quantized_layers_of (quantization : list (list Z * Value)) (from : list Z) : report (Modules * (Z * Z)) :=
  layers ← object_field quantization (lit "quantized_layers") from (lit "/quantization/quantized_layers");
  match layers with
  | None => mret ([], (0, 0))
  | Some layers =>
      if kMaximumQuantizedModules <? Z.of_nat (length layers)
      then (([], (0, 0)), [make_diagnostic kInputTooLarge from (lit "/quantization/quantized_layers")])
      else quantized_layers_from layers from ([], (0, 0))
  end.

Definition producer_of (object : list (list Z * Value)) (from : list Z) : report (list Z * list Z) :=
  producer ← object_field object (lit "producer") from (lit "/producer");
  match producer with
  | None => mret ([], [])
  | Some producer =>
      _ ← check_allowed_keys producer [lit "name"; lit "version"] from (lit "/producer");
      name ← string_of producer from (lit "/producer") (lit "name");
      version ← string_of producer from (lit "/producer") (lit "version");
      _ ← complain_if (negb (bool_decide (name = [])) && negb (bool_decide (name = lit "modelopt")))
            kUnsupportedQuantization from (lit "/producer/name");
      mret (name, version)
  end.

Definition parse_quantization (object quantization : list (list Z * Value)) (from name version : list Z)
    : report ModelOptSummary :=
  let at_key := lit "/quantization" in
  _ ← check_allowed_keys quantization
        [lit "quant_algo"; lit "kv_cache_quant_algo"; lit "exclude_modules"; lit "quantized_layers"] from at_key;
  algo ← string_of quantization from at_key (lit "quant_algo");
  kv_algo ← string_of quantization from at_key (lit "kv_cache_quant_algo");
  _ ← complain_if (negb (bool_decide (algo = [])) && negb (bool_decide (algo = lit "MIXED_PRECISION")))
        kUnsupportedQuantization from (lit "/quantization/quant_algo");
  _ ← complain_if (negb (bool_decide (kv_algo = [])) && negb (bool_decide (kv_algo = lit "FP8")))
        kUnsupportedQuantization from (lit "/quantization/kv_cache_quant_algo");
  excludes ← exclude_modules_of quantization from;
  '(modules, (fp8, nvfp4)) ← quantized_layers_of quantization from;
  mret {| producer_name := name; producer_version := version; quantization_algorithm := algo;
          kv_cache_quantization_algorithm := kv_algo; exclude_modules := excludes; quantized_modules := modules;
          fp8_count := fp8; nvfp4_count := nvfp4 |}.

Definition parse_modelopt_quant_config (root : Value) (from : list Z) : list Diagnostic + ModelOptSummary :=
  result_of (
    object ← require_object root from [];
    match object with
    | None => mret None
    | Some object =>
        _ ← check_allowed_keys object [lit "producer"; lit "quantization"] from [];
        '(name, version) ← producer_of object from;
        quantization ← object_field object (lit "quantization") from (lit "/quantization");
        match quantization with
        | None => mret None
        | Some quantization => s ← parse_quantization object quantization from name version; mret (Some s)
        end
    end).

(** ** The modules a model quantizes *)

Definition fp8_module : QuantizedModule := {| algorithm := kFp8; group_size := None |}.
Definition nvfp4_module : QuantizedModule := {| algorithm := kW4A16Nvfp4; group_size := Some 16 |}.

(** The modules of one layer, in the order they are emplaced. *)
Definition layer_modules (c : ModelConfig) (layer : Z) : Modules :=
  let prefix := lit "model.language_model.layers." ++ to_string layer in
  (match layer_type c layer with
   | kLinearAttention =>
       [(prefix ++ lit ".linear_attn.out_proj", fp8_module); (prefix ++ lit ".linear_attn.in_proj_qkv", fp8_module);
        (prefix ++ lit ".linear_attn.in_proj_z", fp8_module)]
   | _ =>
       [(prefix ++ lit ".self_attn.q_proj", fp8_module); (prefix ++ lit ".self_attn.k_proj", fp8_module);
        (prefix ++ lit ".self_attn.v_proj", fp8_module); (prefix ++ lit ".self_attn.o_proj", fp8_module)]
   end)
  ++ (if is_moe c then
        [(prefix ++ lit ".mlp.experts", nvfp4_module); (prefix ++ lit ".mlp.shared_expert.gate_proj", nvfp4_module);
         (prefix ++ lit ".mlp.shared_expert.up_proj", nvfp4_module);
         (prefix ++ lit ".mlp.shared_expert.down_proj", nvfp4_module)]
      else
        [(prefix ++ lit ".mlp.gate_proj", nvfp4_module); (prefix ++ lit ".mlp.up_proj", nvfp4_module);
         (prefix ++ lit ".mlp.down_proj", nvfp4_module)]).

Definition expected_quantized_modules (known : Z) : Modules :=
  match find_known_model known with
  | None => []
  | Some c =>
      map_emplace (lit "lm_head") nvfp4_module
        (foldl (fun expected layer => emplace_entries (layer_modules c (Z.of_nat layer)) expected) []
           (seq 0 (Z.to_nat (num_hidden_layers c))))
  end.

(** ** The quantization table against the descriptor *)

Definition quant_file_name : list Z := lit "hf_quant_config.json".

(** The loop over the expected modules. *)
Definition check_expected (modules : Modules) (item : list Z * QuantizedModule) : list Diagnostic :=
  let pointer := lit "/quantization/quantized_layers/" ++ item.1 in
  match map_find item.1 modules with
  | None => [make_diagnostic kMissingQuantizedModule quant_file_name pointer]
  | Some actual =>
      if negb (bool_decide (algorithm actual = algorithm item.2)) || negb (bool_decide (group_size actual = group_size item.2))
      then [make_diagnostic kQuantizedModuleMismatch quant_file_name pointer] else []
  end.

(** The loop over the modules found. *)
Definition check_unexpected (expected : Modules) (item : list Z * QuantizedModule) : list Diagnostic :=
  match map_find item.1 expected with
  | None => [make_diagnostic kUnexpectedQuantizedModule quant_file_name (lit "/quantization/quantized_layers/" ++ item.1)]
  | Some _ => []
  end.

Definition expected_excludes : list (list Z) := emplace_all [lit "mtp*"; lit "mtp.layers.0*"] [].

Definition validate_modelopt_quantization (s : ModelOptSummary) (c : KnownCheckpointDescriptor) : list Diagnostic :=
  let excludes := emplace_all (exclude_modules s) [] in
  let expected := expected_quantized_modules (model c) in
  (if negb (bool_decide (producer_name s = lit "modelopt")) || negb (bool_decide (producer_version s = modelopt_version c))
   then [make_diagnostic kProducerMismatch quant_file_name (lit "/producer")] else [])
  ++ (if negb (bool_decide (quantization_algorithm s = lit "MIXED_PRECISION"))
         || negb (bool_decide (kv_cache_quantization_algorithm s = lit "FP8"))
      then [make_diagnostic kUnsupportedQuantization quant_file_name (lit "/quantization")] else [])
  ++ (if negb (bool_decide (excludes = expected_excludes)) || negb (bool_decide (length excludes = length (exclude_modules s)))
      then [make_diagnostic kInvalidValue quant_file_name (lit "/quantization/exclude_modules")] else [])
  ++ (if negb (fp8_count s =? expected_fp8_modules c) || negb (nvfp4_count s =? expected_nvfp4_modules c)
      then [make_diagnostic kQuantizationCountMismatch quant_file_name (lit "/quantization/quantized_layers")] else [])
  ++ mjoin (check_expected (quantized_modules s) <$> expected)
  ++ mjoin (check_unexpected expected <$> quantized_modules s).

(** ** The index *)

Record ParsedIndex := { summary : IndexSummary; contract : Index }.

(** The loop over the mappings: the shards, and the mapping kept when the
    shards are to be validated. *)
Fixpoint index_entries (options : InspectionOptions) (items : list (list Z * Value)) (from : list Z)
    (found : list (list Z) * list (list Z * list Z)) : report (list (list Z) * list (list Z * list Z)) :=
  match items with
  | [] => mret found
  | (name, value) :: items =>
      let pointer := lit "/weight_map/" ++ name in
      match as_string value with
      | None => _ ← complain kInvalidIndex from pointer; index_entries options items from found
      | Some shard =>
          if bool_decide (name = []) || bool_decide (shard = [])
          then _ ← complain kInvalidIndex from pointer; index_entries options items from found
          else if negb (is_safe_relative_shard_path shard)
          then _ ← complain kUnsafeShardPath from pointer; index_entries options items from found
          else index_entries options items from
                 (set_emplace shard found.1, if require_shards options then map_emplace name shard found.2 else found.2)
      end
  end.

Definition weight_map_of (object : list (list Z * Value)) (options : InspectionOptions) (from : list Z)
    : report (Z * (list (list Z) * list (list Z * list Z))) :=
  weight_map ← object_field object (lit "weight_map") from (lit "/weight_map");
  match weight_map with
  | None => mret (0, ([], []))
  | Some items =>
      let count := Z.of_nat (length items) in
      if max_index_tensors options <? count then ((0, ([], [])), [make_diagnostic kInputTooLarge from (lit "/weight_map")])
      else
        '(shards, map) ← index_entries options items from ([], []);
        if max_index_shards options <? Z.of_nat (length shards)
        then ((count, ([], map)), [make_diagnostic kInputTooLarge from (lit "/weight_map")])
        else mret (count, (shards, map))
  end.

Definition total_size_of (object : list (list Z * Value)) (from : list Z) : report (option Z) :=
  match find_value object (lit "metadata") with
  | None => mret None
  | Some metadata_value =>
      metadata ← require_object metadata_value from (lit "/metadata");
      match metadata with
      | None => mret None
      | Some metadata =>
          match find_value metadata (lit "total_size") with
          | None => mret None
          | Some value =>
              match as_uint64 value with
              | None => (None, [make_diagnostic kInvalidIndex from (lit "/metadata/total_size")])
              | Some total => mret (Some total)
              end
          end
      end
  end.

Definition parse_index (root : Value) (options : InspectionOptions) (from : list Z) : list Diagnostic + ParsedIndex :=
  result_of (
    object ← require_object root from [];
    match object with
    | None => mret None
    | Some object =>
        _ ← check_allowed_keys object [lit "metadata"; lit "weight_map"] from [];
        '(count, (shards, map)) ← weight_map_of object options from;
        total ← total_size_of object from;
        mret (Some {|
          summary := {| tensor_count := count; index_shards := shards; index_total_size := total |};
          contract := {| weight_map := map; shards := if require_shards options then shards else [];
                         index_metadata := []; total_size := if require_shards options then total else None |}
        |})
    end).

(** ** The directory *)

(** What the code asks of the file system; [None] is an error.  A stream
    delivers the bytes of the file. *)
Record Filesystem := {
  exists_path : list Z -> option bool;
  is_regular_file : list Z -> option bool;
  file_size : list Z -> option Z;
  open_stream : list Z -> option (list Z);
  open_disk : disk;
  symlink_status_of : list Z -> option stat_error * file_status
}.

Definition is_true (answer : option bool) : bool := match answer with Some true => true | _ => false end.

Definition json_limits (maximum_bytes : Z) : ParseOptions := {|
  max_input_bytes := maximum_bytes; max_nesting_depth := 128;
  max_values := max_values default_options; max_container_items := max_container_items default_options
|}.

(** [core::sha256(bytes).hex()] *)
Definition sha256_text (bytes : list Z) : list Z := (fun c => Z.of_N (Ascii.N_of_ascii c)) <$> hex (sha256 bytes).

Definition load_json_file (fs : Filesystem) (path : list Z) (maximum_bytes : Z) (logical_name : list Z)
    : Diagnostic + (Value * FileEvidence) :=
  let stop c := inl (make_diagnostic c logical_name []) in
  if negb (is_true (exists_path fs path)) then stop kFileMissing else
  if negb (is_true (is_regular_file fs path)) then stop kFileReadFailed else
  match file_size fs path with
  | None => stop kFileReadFailed
  | Some size =>
      if (maximum_bytes <? size) || (u64_max <? size) || (streamsize_max <? size) then stop kInputTooLarge else
      match open_stream fs path with
      | None => stop kFileReadFailed
      | Some bytes =>
          if negb (Z.of_nat (length bytes) =? size) then stop kFileReadFailed else
          match parse bytes (json_limits maximum_bytes) with
          | Good root _ =>
              inr (root, {| evidence_name := logical_name; evidence_size := size; evidence_sha256 := sha256_text bytes |})
          | _ => stop kInvalidJson
          end
      end
  end.

Definition has_code (l : list Diagnostic) (c : DiagnosticCode) : bool := existsb (fun d => bool_decide (code d = c)) l.

Definition status_for_parse_failure (l : list Diagnostic) : InspectionStatus :=
  if has_code l kUnsupportedArchitecture then kUnsupportedArchitectureStatus
  else if has_code l kUnsupportedQuantization then kUnsupportedQuantizationStatus else kInvalidMetadata.

Definition status_for_shard_error (c : Safetensors.ErrorCode) : InspectionStatus :=
  match c with
  | Safetensors.kShardMissing | Safetensors.kShardNotRegular => kMissingShard
  | Safetensors.kOpenFailed | Safetensors.kIoFailure | Safetensors.kAllocationFailure => kIoError
  | _ => kInvalidMetadata
  end.

Definition index_file_name : list Z := lit "model.safetensors.index.json".

Definition shard_validation_diagnostic (e : Safetensors.Error) : Diagnostic :=
  let from := if bool_decide (context e = []) then index_file_name else context e in
  let pointer := lit "/weight_map" in
  match Safetensors.code e with
  | Safetensors.kUnsafeShardPath => make_diagnostic kUnsafeShardPath index_file_name pointer
  | Safetensors.kShardMissing => make_diagnostic kShardMissing from pointer
  | Safetensors.kShardNotRegular => make_diagnostic kShardNotRegular from pointer
  | Safetensors.kUnexpectedTensor =>
      make_diagnostic kUnexpectedShardTensor index_file_name (pointer ++ [slash] ++ context e)
  | Safetensors.kTensorInWrongShard => make_diagnostic kWrongShardTensor index_file_name (pointer ++ [slash] ++ context e)
  | Safetensors.kMissingIndexedTensor =>
      make_diagnostic kMissingShardTensor index_file_name (pointer ++ [slash] ++ context e)
  | Safetensors.kMissingTotalSize | Safetensors.kPayloadSizeMismatch =>
      make_diagnostic kShardPayloadSizeMismatch index_file_name (lit "/metadata/total_size")
  | Safetensors.kInvalidOption | Safetensors.kTooManyTensors | Safetensors.kInvalidWeightMap
  | Safetensors.kTooManyShards | Safetensors.kShardSetMismatch | Safetensors.kArithmeticOverflow =>
      make_diagnostic kInvalidIndex index_file_name pointer
  | Safetensors.kOpenFailed | Safetensors.kIoFailure => make_diagnostic kFileReadFailed from pointer
  | Safetensors.kAllocationFailure => make_diagnostic kAllocationFailure from pointer
  | _ => make_diagnostic kShardHeaderInvalid from pointer
  end.

Definition inspection_failure {A} (s : InspectionStatus) (l : list Diagnostic) : InspectionResult + A :=
  inl {| status := s; inspection_report := None; diagnostics := l |}.

Definition fail_with {A} (s : InspectionStatus) (c : DiagnosticCode) (from pointer : list Z) : InspectionResult + A :=
  inspection_failure s [make_diagnostic c from pointer].

Definition fail_if (test : bool) (s : InspectionStatus) (c : DiagnosticCode) (from pointer : list Z)
    : InspectionResult + unit :=
  if test then fail_with s c from pointer else inr tt.

Definition metadata_file (fs : Filesystem) (directory name : list Z) (maximum_bytes : Z)
    : InspectionResult + (Value * FileEvidence) :=
  match load_json_file fs (append_path directory name) maximum_bytes name with
  | inl d => inspection_failure (if bool_decide (code d = kFileMissing) then kMissingRequiredFile else kIoError) [d]
  | inr loaded => inr loaded
  end.

Definition or_failure {A} (r : list Diagnostic + A) (status_of : list Diagnostic -> InspectionStatus) : InspectionResult + A :=
  match r with inl l => inspection_failure (status_of l) l | inr a => inr a end.

Definition config_file_name : list Z := lit "config.json".

(** The loop over the shards that are only looked for: those present, those
    missing, and the warnings. *)
Fixpoint look_for_shards (fs : Filesystem) (directory : list Z) (shards : list (list Z)) : Z * Z * list Diagnostic :=
  match shards with
  | [] => (0, 0, [])
  | shard :: shards =>
      let shard_path := append_path directory shard in
      let warning c := {| code := c; severity := kWarning; source := index_file_name; json_pointer := lit "/weight_map" |} in
      let '(present, missing, l) := look_for_shards fs directory shards in
      if negb (is_true (exists_path fs shard_path)) then (present, missing + 1, warning kShardMissing :: l)
      else if negb (is_true (is_regular_file fs shard_path)) then (present, missing + 1, warning kShardNotRegular :: l)
      else (present + 1, missing, l)
  end.

Definition default_read_options : ReadOptions := {|
  max_file_bytes := u64_max; max_header_bytes := 100000000; max_tensors := 2000000; max_rank := 64;
  json_options := default_options
|}.

Definition shard_validation_options (options : InspectionOptions) : ShardValidationOptions := {|
  validation_max_shards := max_index_shards options; validation_max_tensors := max_index_tensors options;
  header_options := {| max_file_bytes := max_file_bytes default_read_options;
    max_header_bytes := max_header_bytes default_read_options; max_tensors := max_index_tensors options;
    max_rank := max_rank default_read_options; json_options := json_options default_read_options |}
|}.

Definition zero_limit (o : InspectionOptions) : bool :=
  (max_config_bytes o =? 0) || (max_quant_config_bytes o =? 0) || (max_index_bytes o =? 0)
  || (max_index_tensors o =? 0) || (max_index_shards o =? 0).

(** The pinned descriptor of a configuration. *)
Definition inspect_config (fs : Filesystem) (directory : list Z) (o : InspectionOptions)
    : InspectionResult + (Hf.HfConfigSummary * FileEvidence * KnownCheckpointDescriptor) :=
  '(root, evidence) ← metadata_file fs directory config_file_name (max_config_bytes o);
  config ← or_failure (parse_hf_config root config_file_name) status_for_parse_failure;
  _ ← fail_if (match Hf.embedded_quantization_method config with
               | Some method => negb (bool_decide (method = lit "modelopt")) | None => false end)
        kUnsupportedQuantizationStatus kUnsupportedQuantization config_file_name (lit "/quantization_config/quant_method");
  _ ← fail_if (bool_decide (Hf.shape_candidates config = []))
        kUnsupportedArchitectureStatus kUnsupportedArchitecture config_file_name [];
  match find_known_checkpoint_by_config_sha256 (evidence_sha256 evidence) with
  | None => fail_with kUnknownRevision kUnknownRevisionCode config_file_name []
  | Some c =>
      _ ← fail_if (negb (bool_decide (model c ∈ Hf.shape_candidates config)))
            kInvalidMetadata kInvalidValue config_file_name [];
      inr (config, evidence, c)
  end.

Definition inspect_quantization (fs : Filesystem) (directory : list Z) (o : InspectionOptions) (c : KnownCheckpointDescriptor)
    : InspectionResult + (ModelOptSummary * FileEvidence) :=
  '(root, evidence) ← metadata_file fs directory quant_file_name (max_quant_config_bytes o);
  s ← or_failure (parse_modelopt_quant_config root quant_file_name) status_for_parse_failure;
  let mistakes := validate_modelopt_quantization s c in
  _ ← (if bool_decide (mistakes = []) then inr tt else inspection_failure kInvalidMetadata mistakes);
  _ ← fail_if (negb (bool_decide (evidence_sha256 evidence = quant_config_sha256 c)))
        kUnknownRevision kHashMismatch quant_file_name [];
  inr (s, evidence).

Definition inspect_index (fs : Filesystem) (directory : list Z) (o : InspectionOptions) (c : KnownCheckpointDescriptor)
    : InspectionResult + (ParsedIndex * FileEvidence) :=
  '(root, evidence) ← metadata_file fs directory index_file_name (max_index_bytes o);
  i ← or_failure (parse_index root o index_file_name) (fun _ => kInvalidMetadata);
  _ ← fail_if (negb (bool_decide (evidence_sha256 evidence = index_sha256 c)))
        kUnknownRevision kHashMismatch index_file_name [];
  _ ← fail_if (negb (tensor_count (summary i) =? expected_index_tensors c)
               || negb (Z.of_nat (length (index_shards (summary i))) =? expected_index_shards c)
               || negb (bool_decide (index_total_size (summary i) = expected_index_total_size c)))
        kInvalidMetadata kInvalidIndex index_file_name [];
  inr (i, evidence).

(** The report, once the three files are accepted. *)
Definition inspect_shards (fs : Filesystem) (directory : list Z) (o : InspectionOptions)
    (base : Z -> Z -> bool -> ShardValidationSummary -> list Diagnostic -> InspectionReport) (i : ParsedIndex)
    : InspectionResult + InspectionReport :=
  if require_shards o then
    match validate_index_shards (open_disk fs) (symlink_status_of fs) directory (contract i) (shard_validation_options o) with
    | inl e => inspection_failure (status_for_shard_error (Safetensors.code e)) [shard_validation_diagnostic e]
    | inr s => inr (base (validated_shards s) 0 true s [])
    end
  else
    let '(present, missing, warnings) := look_for_shards fs directory (index_shards (summary i)) in
    inr (base present missing false {| validated_shards := 0; validated_tensors := 0; payload_bytes := 0 |} warnings).

Definition inspect (fs : Filesystem) (directory : list Z) (o : InspectionOptions) : InspectionResult + InspectionReport :=
  _ ← fail_if (zero_limit o) kInvalidMetadata kInvalidValue (lit "options") [];
  '(cfg, config_evidence, c) ← inspect_config fs directory o;
  '(q, quant_evidence) ← inspect_quantization fs directory o c;
  '(i, index_evidence) ← inspect_index fs directory o c;
  inspect_shards fs directory o (fun present missing checked s l => {|
    checkpoint := c; config := cfg; quantization := q; index := summary i;
    files := [config_evidence; quant_evidence; index_evidence]; present_shards := present; missing_shards := missing;
    shard_contract_validated := checked; report_validated_shards := validated_shards s;
    report_validated_tensors := validated_tensors s; validated_payload_bytes := payload_bytes s;
    report_diagnostics := l |}) i.

Definition inspect_directory (fs : Filesystem) (directory : list Z) (o : InspectionOptions) : InspectionResult :=
  match inspect fs directory o with
  | inl failure => failure
  | inr r => {| status := kMetadataCompatible; inspection_report := Some r; diagnostics := report_diagnostics r |}
  end.

(** [InspectionResult::ok]. *)
Definition inspection_ok (r : InspectionResult) : option InspectionReport :=
  if bool_decide (status r = kMetadataCompatible) then inspection_report r else None.

(** ** Quiet reports *)

#[local] Arguments lit : simpl never.

Lemma quiet_bind {A B} (m : report A) (k : A -> report B) b :
  m ≫= k = (b, []) <-> exists a, m = (a, []) /\ k a = (b, []).
Proof.
  destruct m as [a l]. simpl. unfold mbind, report_bind. simpl. destruct (k a) as [b' l'] eqn:Hk. split.
  - intros [= -> Hl]. apply app_eq_nil in Hl as [-> ->]. by exists a.
  - intros (a' & [= <- ->] & Hk'). rewrite Hk in Hk'. by injection Hk' as -> ->.
Qed.

Lemma quiet_ret {A} (a b : A) : (mret a : report A) = (b, []) <-> a = b.
Proof. split; [by intros [= ->]|by intros ->]. Qed.

Lemma quiet_complain_if test c from p u : complain_if test c from p = (u, []) <-> test = false.
Proof. destruct u, test; split; done. Qed.

Lemma quiet_result {A} (r : report (option A)) a : result_of r = inr a <-> r = (Some a, []).
Proof. destruct r as [[?|] [|? ?]]; simpl; split; congruence. Qed.

(** [v] is what the field [key] of an object reads as. *)
Definition has_field {A} (read : Value -> option A) (object : list (list Z * Value)) (key : list Z) (v : A) : Prop :=
  exists value, map_find key object = Some value /\ read value = Some v.

Definition as_uint32 (value : Value) : option Z :=
  n ← as_uint64 value; if n <=? u32_max then Some n else None.

Lemma quiet_read {A} (read : Value -> option A) object key from p o :
  read_with read object key from p = (o, []) <-> exists v, o = Some v /\ has_field read object key v.
Proof.
  unfold read_with, require_field, find_value, has_field.
  destruct (map_find key object) as [value|]; unfold mbind, report_bind; simpl.
  - destruct (read value) as [v|] eqn:Hr; simpl; split.
    + intros [= <-]. eauto.
    + by intros (v' & -> & ? & [= <-] & ?); simplify_eq.
    + done.
    + by intros (v' & -> & ? & [= <-] & ?); simplify_eq.
  - split; [done|]. by intros (v & -> & ? & ? & _).
Qed.

Lemma quiet_read_uint32 object key from p o :
  read_uint32 object key from p = (o, []) <-> exists v, o = Some v /\ has_field as_uint32 object key v.
Proof.
  unfold read_uint32. rewrite quiet_bind. setoid_rewrite quiet_read. unfold has_field, as_uint32. split.
  - intros (o' & (v & -> & value & Hf & Hv) & H). destruct (Z.ltb_spec u32_max v); [done|].
    apply (proj1 (quiet_ret _ _)) in H as <-. exists v. split; [done|]. exists value. split; [done|]. rewrite Hv. simpl.
    by rewrite (proj2 (Z.leb_le _ _)).
  - intros (v & -> & value & Hf & Hv). destruct (as_uint64 value) as [n|] eqn:Hn; [|done]. simpl in Hv.
    destruct (Z.leb_spec n u32_max); [|done]. injection Hv as ->. exists (Some v). split; [by eauto 10|].
    destruct (Z.ltb_spec u32_max v); [lia|done].
Qed.

Lemma quiet_default {A} (d : A) (m : report (option A)) (P : A -> Prop) v :
  (forall o, m = (o, []) <-> exists v, o = Some v /\ P v) ->
  (v ← m; mret (default d v)) = (v, []) <-> P v.
Proof.
  intros Hm. rewrite quiet_bind. setoid_rewrite Hm. setoid_rewrite quiet_ret. split.
  - by intros (o & (v' & -> & HP) & <-).
  - intros HP. exists (Some v). split; [by exists v|done].
Qed.

Lemma quiet_string object from p key v : string_of object from p key = (v, []) <-> has_field as_string object key v.
Proof. apply quiet_default. intros o. apply quiet_read. Qed.
Lemma quiet_bool object from p key v : bool_of object from p key = (v, []) <-> has_field as_bool object key v.
Proof. apply quiet_default. intros o. apply quiet_read. Qed.
Lemma quiet_uint32 object from p key v : uint32_of object from p key = (v, []) <-> has_field as_uint32 object key v.
Proof. apply quiet_default. intros o. apply quiet_read_uint32. Qed.
Lemma quiet_double object from p key v : double_of object from p key = (v, []) <-> has_field as_float object key v.
Proof. apply quiet_default. intros o. apply quiet_read. Qed.

Lemma quiet_require_object value from p o :
  require_object value from p = (o, []) <-> exists members, o = Some members /\ as_object value = Some members.
Proof.
  unfold require_object. destruct (as_object value) as [l|]; split; try done.
  - intros [= <-]. eauto.
  - by intros (? & -> & [= <-]).
  - by intros (? & ? & ?).
Qed.

Lemma quiet_field object key from p o :
  require_field object key from p = (o, []) <-> exists value, o = Some value /\ map_find key object = Some value.
Proof.
  unfold require_field, find_value. destruct (map_find key object) as [v|]; split; try done.
  - intros [= <-]. eauto.
  - by intros (? & -> & [= <-]).
  - by intros (? & ? & ?).
Qed.

Lemma quiet_object_field object key from p o :
  object_field object key from p = (o, []) <-> exists members, o = Some members /\ has_field as_object object key members.
Proof.
  unfold object_field, has_field. rewrite quiet_bind. setoid_rewrite quiet_field. split.
  - intros (? & (value & -> & Hf) & H). apply quiet_require_object in H as (l & -> & Hl). eauto 10.
  - intros (l & -> & value & Hf & Hl). exists (Some value). split; [by eauto|]. apply quiet_require_object. eauto.
Qed.

Lemma quiet_allowed object allowed from p u :
  check_allowed_keys object allowed from p = (u, []) <-> Forall (fun key => key ∈ allowed) object.*1.
Proof.
  destruct u. induction object as [|[key value] object IH]; simpl; [split; [by constructor|done]|].
  rewrite quiet_bind, Forall_cons. setoid_rewrite quiet_complain_if. setoid_rewrite IH.
  split.
  - intros (_ & Ht & HF). apply negb_false_iff, bool_decide_eq_true in Ht. done.
  - intros [Hk HF]. exists tt. by rewrite bool_decide_true.
Qed.

(** ** config.json describes a summary *)

Definition describes_layer (value : Value) (t : LayerType) : Prop :=
  (as_string value = Some (lit "linear_attention") /\ t = kLinearAttention) \/
  (as_string value = Some (lit "full_attention") /\ t = kFullAttention).

Definition describes_feed_forward (text : list (list Z * Value)) (s : Hf.HfConfigSummary) : Prop :=
  (Hf.architecture s = dense_architecture /\ has_field as_uint32 text (lit "intermediate_size") (Hf.intermediate_size s) /\
   Hf.num_experts s = 0 /\ Hf.num_experts_per_token s = 0 /\ Hf.moe_intermediate_size s = 0 /\
   Hf.shared_expert_intermediate_size s = 0) \/
  (Hf.architecture s = moe_architecture /\ Hf.intermediate_size s = 0 /\
   has_field as_uint32 text (lit "num_experts") (Hf.num_experts s) /\
   has_field as_uint32 text (lit "num_experts_per_tok") (Hf.num_experts_per_token s) /\
   has_field as_uint32 text (lit "moe_intermediate_size") (Hf.moe_intermediate_size s) /\
   has_field as_uint32 text (lit "shared_expert_intermediate_size") (Hf.shared_expert_intermediate_size s)) \/
  (Hf.architecture s = [] /\ Hf.intermediate_size s = 0 /\ Hf.num_experts s = 0 /\ Hf.num_experts_per_token s = 0 /\
   Hf.moe_intermediate_size s = 0 /\ Hf.shared_expert_intermediate_size s = 0).

Record describes_rope (text : list (list Z * Value)) (factor theta : float) : Prop := {
  rope_object : exists rope, has_field as_object text (lit "rope_parameters") rope /\
    has_field as_float rope (lit "partial_rotary_factor") factor /\ has_field as_float rope (lit "rope_theta") theta;
  rope_agrees : forall value, map_find (lit "partial_rotary_factor") text = Some value ->
    exists x, as_float value = Some x /\ almost_equal x factor = true
}.

Record describes_vision (object : list (list Z * Value)) (v : VisionConfig) : Prop := {
  vision_present : present v = true;
  vision_fields : exists fields, has_field as_object object (lit "vision_config") fields /\
    Forall (fun '(key, n) => has_field as_uint32 fields key n) [
      (lit "depth", depth v); (lit "hidden_size", vision_hidden_size v);
      (lit "intermediate_size", vision_intermediate_size v); (lit "num_heads", num_heads v);
      (lit "out_hidden_size", out_hidden_size v); (lit "num_position_embeddings", num_position_embeddings v);
      (lit "patch_size", patch_size v); (lit "spatial_merge_size", spatial_merge_size v);
      (lit "temporal_patch_size", temporal_patch_size v)]
}.

(** The embedded method, where the document has one. *)
Definition describes_method (object : list (list Z * Value)) (m : option (list Z)) : Prop :=
  match map_find (lit "quantization_config") object with
  | None => m = None
  | Some embedded => exists fields, as_object embedded = Some fields /\
      match map_find (lit "quant_method") fields with
      | None => m = None
      | Some method => exists name, as_string method = Some name /\ m = Some name
      end
  end.

Record describes_text (object text : list (list Z * Value)) (s : Hf.HfConfigSummary) : Prop := {
  text_strings : Forall (fun '(key, v) => has_field as_string text key v) [
    (lit "model_type", Hf.text_model_type s); (lit "dtype", Hf.dtype s); (lit "hidden_act", Hf.hidden_activation s)];
  text_integers : Forall (fun '(key, n) => has_field as_uint32 text key n) [
    (lit "vocab_size", Hf.vocab_size s); (lit "hidden_size", Hf.hidden_size s);
    (lit "num_hidden_layers", Hf.num_hidden_layers s); (lit "max_position_embeddings", Hf.max_position_embeddings s);
    (lit "num_attention_heads", Hf.num_attention_heads s); (lit "num_key_value_heads", Hf.num_key_value_heads s);
    (lit "head_dim", Hf.head_dim s); (lit "full_attention_interval", Hf.full_attention_interval s);
    (lit "linear_num_key_heads", Hf.linear_num_key_heads s); (lit "linear_key_head_dim", Hf.linear_key_head_dim s);
    (lit "linear_num_value_heads", Hf.linear_num_value_heads s); (lit "linear_value_head_dim", Hf.linear_value_head_dim s);
    (lit "linear_conv_kernel_dim", Hf.linear_conv_kernel_dim s); (lit "mtp_num_hidden_layers", Hf.mtp_num_hidden_layers s)];
  text_booleans : Forall (fun '(key, b) => has_field as_bool text key b) [
    (lit "attention_bias", Hf.attention_bias s); (lit "attn_output_gate", Hf.attention_output_gate s);
    (lit "mtp_use_dedicated_embeddings", Hf.mtp_uses_dedicated_embeddings s)];
  text_eps : has_field as_float text (lit "rms_norm_eps") (Hf.rms_norm_eps s);
  text_feed_forward : describes_feed_forward text s;
  text_rope : describes_rope text (Hf.partial_rotary_factor s) (Hf.rope_theta s);
  text_layers : exists layers, has_field as_array text (lit "layer_types") layers /\
    Forall2 describes_layer layers (Hf.layer_types s);
  text_vision : describes_vision object (Hf.vision s);
  text_method : describes_method object (Hf.embedded_quantization_method s)
}.

Record describes_config (root : Value) (s : Hf.HfConfigSummary) : Prop := {
  config_document : exists object text,
    as_object root = Some object /\ has_field as_object object (lit "text_config") text /\
    (exists value, has_field as_array object (lit "architectures") [value] /\ as_string value = Some (Hf.architecture s)) /\
    has_field as_string object (lit "model_type") (Hf.model_type s) /\ describes_text object text s;
  config_candidates : Hf.shape_candidates s = shape_candidates_of s
}.

(** One step of a quiet report, forwards and backwards. *)
Ltac quiet_forward H :=
  repeat match type of H with
  | (_ ≫= _) = (_, []) => let Hm := fresh "Hm" in apply quiet_bind in H as (? & Hm & H); cbv beta iota in Hm, H
  end.
Ltac quiet_lookup :=
  repeat match goal with
  | H : string_of _ _ _ _ = (_, []) |- _ => apply quiet_string in H
  | H : bool_of _ _ _ _ = (_, []) |- _ => apply quiet_bool in H
  | H : uint32_of _ _ _ _ = (_, []) |- _ => apply quiet_uint32 in H
  | H : double_of _ _ _ _ = (_, []) |- _ => apply quiet_double in H
  | H : check_allowed_keys _ _ _ _ = (_, []) |- _ => apply quiet_allowed in H
  | H : complain_if _ _ _ _ = (_, []) |- _ => apply quiet_complain_if in H
  | H : mret _ = (_, []) |- _ => apply (proj1 (quiet_ret _ _)) in H; subst
  end.
Ltac quiet_step :=
  lazymatch goal with |- (_ ≫= _) = (_, []) => apply quiet_bind end; eexists; split;
  [first [apply quiet_string; eassumption | apply quiet_bool; eassumption | apply quiet_uint32; eassumption
         | apply quiet_double; eassumption | eassumption]|cbv beta iota].

Lemma feed_forward_quiet text from arch p s :
  Hf.architecture s = arch -> (arch = [] \/ arch = dense_architecture \/ arch = moe_architecture) ->
  p = (Hf.intermediate_size s, (Hf.num_experts s, Hf.num_experts_per_token s, Hf.moe_intermediate_size s,
                                Hf.shared_expert_intermediate_size s)) ->
  feed_forward_of text from arch = (p, []) <-> describes_feed_forward text s.
Proof.
  intros Ha Hcase ->. unfold feed_forward_of, describes_feed_forward. rewrite Ha.
  assert (Hne : moe_architecture <> dense_architecture) by done.
  assert (Hne1 : @nil Z <> dense_architecture) by done. assert (Hne2 : @nil Z <> moe_architecture) by done.
  destruct Hcase as [->|[->| ->]];
    [rewrite !bool_decide_false by done|rewrite bool_decide_true by done|rewrite bool_decide_false, bool_decide_true by done];
    cbv beta iota zeta; split.
  - intros [= <- <- <- <- <-]. right. right. done.
  - intros [(? & _)|[(? & _)|(_ & -> & -> & -> & -> & ->)]]; done.
  - intros H. quiet_forward H. quiet_lookup. injection H as <- <- <- <- <-. left. done.
  - intros [(_ & Hf & -> & -> & -> & ->)|[(? & _)|(? & _)]]; [|done|done]. by quiet_step.
  - intros H. quiet_forward H. quiet_lookup. injection H as <- <- <- <- <-. right. left. done.
  - intros [(? & _)|[(_ & -> & H1 & H2 & H3 & H4)|(? & _)]]; [done| |done]. by do 4 quiet_step.
Qed.

Lemma rope_quiet text from factor theta : rope_of text from = ((factor, theta), []) <-> describes_rope text factor theta.
Proof.
  unfold rope_of. split.
  - intros H. apply quiet_bind in H as (o & Ho & H). apply quiet_object_field in Ho as (rope & -> & Hrope).
    quiet_forward H. quiet_lookup. injection H as -> ->. split; [by exists rope|].
    intros value Hv. unfold find_value in *. rewrite Hv in *. destruct (as_float value) as [y|]; [|done].
    quiet_lookup. exists y. split; [done|]. by apply negb_false_iff.
  - intros [(rope & Ho & Hf & Ht) Hagree]. apply quiet_bind. eexists. split; [apply quiet_object_field; eauto|]. cbv beta iota.
    do 2 quiet_step. apply quiet_bind. exists tt. split; [|done]. unfold find_value.
    destruct (map_find (lit "partial_rotary_factor") text) as [value|] eqn:Hv; [|done].
    destruct (Hagree value eq_refl) as (x & -> & Hx). apply quiet_complain_if. by rewrite Hx.
Qed.

Lemma layer_types_from_quiet layers i from types :
  layer_types_from layers i from = (types, []) <-> Forall2 describes_layer layers types.
Proof.
  assert (Hne : lit "linear_attention" <> lit "full_attention") by done.
  revert i types. induction layers as [|layer layers IH]; intros i types; simpl.
  { rewrite quiet_ret. split; [by intros <-|intros H; by inversion H]. }
  unfold layer_type_of_name. destruct (as_string layer) as [name|] eqn:Hn; simpl.
  2: { split; [by intros (? & ? & _)%quiet_bind|]. intros H. inversion H as [|? t ? ? [[? _]|[? _]]]; subst; congruence. }
  repeat case_bool_decide; subst.
  - rewrite quiet_bind. setoid_rewrite IH. setoid_rewrite quiet_ret. split.
    + intros (l & Hl & <-). constructor; [by left|done].
    + intros H. inversion H as [|? t ? l [[? ->]|[? _]]]; subst; [by exists l|congruence].
  - rewrite quiet_bind. setoid_rewrite IH. setoid_rewrite quiet_ret. split.
    + intros (l & Hl & <-). constructor; [by right|done].
    + intros H'. inversion H' as [|? t ? l [[? _]|[? ->]]]; subst; [congruence|by exists l].
  - split; [by intros (? & ? & _)%quiet_bind|]. intros H'. inversion H' as [|? t ? ? [[? _]|[? _]]]; subst; congruence.
Qed.

Lemma layer_types_quiet text from types :
  layer_types_of text from = (types, []) <->
  exists layers, has_field as_array text (lit "layer_types") layers /\ Forall2 describes_layer layers types.
Proof.
  unfold layer_types_of, has_field. rewrite quiet_bind. setoid_rewrite quiet_field. split.
  - intros (? & (value & -> & Hv) & H). destruct (as_array value) as [layers|] eqn:Ha; [|done].
    apply layer_types_from_quiet in H. eauto 10.
  - intros (layers & (value & Hv & Ha) & H). exists (Some value). split; [eauto|]. rewrite Ha. by apply layer_types_from_quiet.
Qed.

Lemma vision_quiet object from v : vision_of object from = (v, []) <-> describes_vision object v.
Proof.
  unfold vision_of. split.
  - intros H. apply quiet_bind in H as (o & Ho & H). apply quiet_object_field in Ho as (fields & -> & Hfields).
    quiet_forward H. quiet_lookup. split; [done|]. exists fields. split; [done|]. by repeat (apply Forall_cons; split; [done|]).
  - intros [Hp (fields & Ho & Hf)]. apply quiet_bind. eexists. split; [apply quiet_object_field; eauto|]. cbv beta iota zeta.
    rewrite !Forall_cons in Hf. destruct Hf as (? & ? & ? & ? & ? & ? & ? & ? & ? & _). do 9 quiet_step.
    apply quiet_ret. destruct v; simpl in *. by subst.
Qed.

Lemma method_quiet object from m : embedded_quantization_of object from = (m, []) <-> describes_method object m.
Proof.
  unfold embedded_quantization_of, describes_method, find_value.
  destruct (map_find (lit "quantization_config") object) as [embedded|]; [|rewrite quiet_ret; by split].
  rewrite quiet_bind. setoid_rewrite quiet_require_object. split.
  - intros (? & (fields & -> & Hf) & H). exists fields. split; [done|].
    destruct (map_find (lit "quant_method") fields) as [method|]; [|by apply (proj1 (quiet_ret _ _)) in H].
    destruct (as_string method) as [name|]; [|done]. apply (proj1 (quiet_ret _ _)) in H. by exists name.
  - intros (fields & Hf & H). exists (Some fields). split; [by eauto|].
    destruct (map_find (lit "quant_method") fields) as [method|]; [|by subst].
    destruct H as (name & -> & ->). done.
Qed.


Lemma text_sound object text from arch mtype s :
  (arch = [] \/ arch = dense_architecture \/ arch = moe_architecture) ->
  parse_text_config object text from arch mtype = (s, []) ->
  describes_text object text s /\ Hf.architecture s = arch /\ Hf.model_type s = mtype /\ Hf.shape_candidates s = [].
Proof.
  intros Hcase H. unfold parse_text_config in H. cbv beta iota zeta in H. quiet_forward H.
  repeat match goal with p : Z * (Z * Z * Z * Z) |- _ => destruct p as [? [[[? ?] ?] ?]] end.
  quiet_forward H. repeat match goal with p : float * float |- _ => destruct p as [? ?] end. quiet_forward H. quiet_lookup.
  repeat match goal with
  | H : rope_of _ _ = _ |- _ => apply rope_quiet in H
  | H : layer_types_of _ _ = _ |- _ => apply layer_types_quiet in H
  | H : vision_of _ _ = _ |- _ => apply vision_quiet in H
  | H : embedded_quantization_of _ _ = _ |- _ => apply method_quiet in H
  end.
  split_and!; [|done|done|done].
  match goal with H : feed_forward_of _ _ _ = _ |- describes_text _ _ ?s => apply (feed_forward_quiet text from arch _ s) in H; [|done..] end.
  split; try done; by repeat (apply Forall_cons; split; [done|]).
Qed.

Ltac quiet_tuple :=
  lazymatch goal with |- (_ ≫= _) = (_, []) => apply quiet_bind end; eexists (_, _); split; [eassumption|]; cbv beta iota.

Lemma text_complete object text from s :
  (Hf.architecture s = [] \/ Hf.architecture s = dense_architecture \/ Hf.architecture s = moe_architecture) ->
  describes_text object text s -> Hf.shape_candidates s = [] ->
  parse_text_config object text from (Hf.architecture s) (Hf.model_type s) = (s, []).
Proof.
  intros Hcase [Hs Hi Hb He Hff Hr Hl Hv Hm] Hc.
  apply (feed_forward_quiet text from (Hf.architecture s) _ s eq_refl Hcase eq_refl) in Hff.
  apply (rope_quiet text from) in Hr. apply (layer_types_quiet text from) in Hl.
  apply (vision_quiet object from) in Hv. apply (method_quiet object from) in Hm.
  rewrite !Forall_cons in Hs. rewrite !Forall_cons in Hi. rewrite !Forall_cons in Hb. destruct_and!.
  unfold parse_text_config. cbv beta iota zeta. do 21 quiet_step.
  apply quiet_bind. eexists (_, (_, _, _, _)). split; [exact Hff|]. cbv beta iota. quiet_tuple. do 3 quiet_step.
  apply quiet_ret. destruct s; simpl in *. by subst.
Qed.

Lemma candidates_of_with l s : shape_candidates_of (with_candidates l s) = shape_candidates_of s.
Proof. done. Qed.

Lemma architecture_quiet object from arch :
  architecture_of object from = (arch, []) <->
  exists value, has_field as_array object (lit "architectures") [value] /\ as_string value = Some arch.
Proof.
  unfold architecture_of, has_field. rewrite quiet_bind. setoid_rewrite quiet_field. split.
  - intros (? & (value & -> & Hv) & H). destruct (as_array value) as [[|element [|? ?]]|] eqn:Ha; try done.
    destruct (as_string element) as [name|] eqn:Hn; [|done]. apply (proj1 (quiet_ret _ _)) in H as ->. eauto 10.
  - intros (element & (value & Hv & Ha) & Hn). exists (Some value). split; [eauto|]. by rewrite Ha, Hn.
Qed.

Lemma parse_hf_config_quiet root from s : parse_hf_config root from = inr s -> describes_config root s.
Proof.
  unfold parse_hf_config. intros H. sum_inv H. injection H as <-. apply quiet_result in Ha.
  apply quiet_bind in Ha as (o & Ho & Ha). apply quiet_require_object in Ho as (object & -> & Ho).
  cbv beta iota in Ha. quiet_forward Ha. destruct (_ && _) eqn:Htest in Ha.
  { quiet_forward Ha. done. }
  apply quiet_bind in Ha as (o & Htext & Ha). apply quiet_object_field in Htext as (text & -> & Htext).
  quiet_forward Ha. quiet_lookup. injection Ha as <-.
  apply architecture_quiet in Hm. apply text_sound in Hm1 as (Hd & <- & <- & Hc).
  2: { rewrite !andb_false_iff, !negb_false_iff, !bool_decide_eq_true in Htest. tauto. }
  split; [|done]. exists object, text. split_and!; try done. by destruct Hd.
Qed.

Lemma parse_hf_config_exact root from s : parse_hf_config root from = inr s <-> describes_config root s.
Proof.
  split; [apply parse_hf_config_quiet|]. intros [(object & text & Ho & Ht & Ha & Hm & Hd) Hc].
  assert (Hs : with_candidates (shape_candidates_of (with_candidates [] s)) (with_candidates [] s) = s).
  { rewrite candidates_of_with, <- Hc. by destruct s. }
  assert (Hd' : describes_text object text (with_candidates [] s)) by (destruct Hd; by split).
  assert (Hcase : Hf.architecture s = [] \/ Hf.architecture s = dense_architecture \/ Hf.architecture s = moe_architecture).
  { destruct Hd as [_ _ _ _ [[? _]|[[? _]|[? _]]] _ _ _ _]; auto. }
  unfold parse_hf_config. rewrite <- Hs, sum_bind_inr. exists (with_candidates [] s). split; [|done].
  rewrite quiet_result, quiet_bind. exists (Some object). split; [apply quiet_require_object; eauto|]. cbv beta iota.
  apply quiet_bind. eexists. split; [apply architecture_quiet; eauto|]. cbv beta iota. quiet_step.
  destruct (_ && _) eqn:Htest.
  { bools. rewrite !bool_decide_eq_false in *. tauto. }
  apply quiet_bind. exists (Some text). split; [apply quiet_object_field; eauto|]. cbv beta iota.
  apply quiet_bind. eexists. split; [|done]. by apply (text_complete object text from (with_candidates [] s)).
Qed.

(** ** hf_quant_config.json describes a table *)

Definition describes_module (value : Value) (m : QuantizedModule) : Prop :=
  exists entry, as_object value = Some entry /\
    ((has_field as_string entry (lit "quant_algo") (lit "FP8") /\ Forall (fun key => key ∈ [lit "quant_algo"]) entry.*1 /\
      m = fp8_module) \/
     (has_field as_string entry (lit "quant_algo") (lit "W4A16_NVFP4") /\
      Forall (fun key => key ∈ [lit "quant_algo"; lit "group_size"]) entry.*1 /\
      has_field as_uint32 entry (lit "group_size") 16 /\ m = nvfp4_module)).

Definition describes_record (kv : list Z * Value) (km : list Z * QuantizedModule) : Prop :=
  kv.1 = km.1 /\ kv.1 <> [] /\ describes_module kv.2 km.2.

(** How many modules use an algorithm. *)
Definition modules_with (a : QuantAlgorithm) (ms : Modules) : Z :=
  Z.of_nat (length (List.filter (fun km => bool_decide (algorithm km.2 = a)) ms)).

Lemma modules_with_cons a km ms :
  modules_with a (km :: ms) = (if bool_decide (algorithm km.2 = a) then 1 else 0) + modules_with a ms.
Proof. unfold modules_with. simpl. case_match; simpl; lia. Qed.

Lemma add_modules ms modules fp8 nvfp4 :
  foldl (fun found km => add_module km.1 km.2 found) (modules, (fp8, nvfp4)) ms =
  (emplace_entries ms modules, (fp8 + modules_with kFp8 ms, nvfp4 + modules_with kW4A16Nvfp4 ms)).
Proof.
  revert modules fp8 nvfp4. induction ms as [|[name m] ms IH]; intros modules fp8 nvfp4; [unfold modules_with; cbn; by rewrite !Z.add_0_r|].
  cbn [foldl fst snd]. unfold add_module at 2. rewrite !modules_with_cons. cbn [snd].
  destruct (algorithm m); rewrite IH; rewrite ?(bool_decide_true (_ = _)), ?bool_decide_false by done; simpl; f_equal; f_equal; lia.
Qed.

Lemma module_quiet entry from p o :
  module_of entry from p = (o, []) <-> exists m, o = Some m /\ describes_module (Object entry) m.
Proof.
  unfold module_of, describes_module, as_object. assert (Hne : lit "FP8" <> lit "W4A16_NVFP4") by done. split.
  - intros H. apply quiet_bind in H as (? & Hf & H). apply quiet_field in Hf as (value & -> & Hv). cbv beta iota in H.
    destruct (as_string value) as [name|] eqn:Hn; [|done]. repeat case_bool_decide; subst; [| |done].
    + quiet_forward H. quiet_lookup. eexists. split; [done|]. exists entry. split; [done|]. left. split_and!; [by exists value|done|done].
    + quiet_forward H. quiet_lookup. match goal with H : read_uint32 _ _ _ _ = _ |- _ => apply quiet_read_uint32 in H as (n & -> & Hg) end.
      quiet_lookup. match goal with H : negb _ = false |- _ => apply negb_false_iff, Z.eqb_eq in H; subst end.
      eexists. split; [done|]. exists entry. split; [done|]. right. split_and!; [by exists value|done|done|done].
  - intros (m & -> & ? & [= <-] & [((value & Hv & Hn) & Hk & ->)|((value & Hv & Hn) & Hk & Hg & ->)]);
      (apply quiet_bind; exists (Some value); split; [apply quiet_field; eauto|]; cbv beta iota; rewrite Hn).
    + rewrite bool_decide_true by done. apply quiet_bind. exists tt. split; [by apply quiet_allowed|done].
    + rewrite bool_decide_false, bool_decide_true by done. apply quiet_bind. exists tt. split; [by apply quiet_allowed|].
      apply quiet_bind. exists (Some 16). split; [apply quiet_read_uint32; eauto|]. apply quiet_bind. by exists tt.
Qed.

Lemma quantized_layers_quiet layers from found found' :
  quantized_layers_from layers from found = (found', []) <->
  exists ms, Forall2 describes_record layers ms /\ found' = foldl (fun found km => add_module km.1 km.2 found) found ms.
Proof.
  revert found. induction layers as [|[name value] layers IH]; intros found; cbn [quantized_layers_from].
  { rewrite quiet_ret. split; [intros <-; by exists []|]. intros (ms & Hms & ->). by inversion Hms. }
  cbv zeta. case_bool_decide as Hname.
  { split; [intros H; quiet_forward H; done|]. intros (ms & Hms & _). inversion Hms as [|? ? ? ? (_ & ? & _)]; by subst. }
  split.
  - intros H. apply quiet_bind in H as (? & Ho & H). apply quiet_require_object in Ho as (entry & -> & He).
    apply quiet_bind in H as (? & Hm & H). apply module_quiet in Hm as (m & -> & Hm). cbv beta iota in H.
    apply IH in H as (ms & Hms & ->). exists ((name, m) :: ms). split; [|done]. constructor; [|done].
    split_and!; [done|done|]. destruct value; try done. by injection He as ->.
  - intros (ms & Hms & ->). inversion Hms as [|? [name' m] ? ms' (Hn & _ & Hm) Hms']; subst. simpl in Hn, Hm. subst name'.
    pose proof Hm as (entry & He & _). apply quiet_bind. exists (Some entry). split; [apply quiet_require_object; eauto|].
    apply quiet_bind. exists (Some m). split; [apply module_quiet; exists m; by destruct value; simplify_eq/=|].
    cbv beta iota. apply IH. by exists ms'.
Qed.

Lemma exclude_patterns_quiet patterns i from seen l :
  exclude_patterns patterns i from seen = (l, []) <->
  as_string <$> patterns = Some <$> l /\ Forall (fun p => p <> []) l /\ NoDup l /\ Forall (fun p => p ∉ seen) l.
Proof.
  revert i seen l. induction patterns as [|value patterns IH]; intros i seen l; cbn [exclude_patterns].
  { rewrite quiet_ret. split; [intros <-; split_and!; constructor|]. by intros (Hl & _); destruct l. }
  cbv zeta. rewrite fmap_cons. assert (Hno : forall (u : list (list Z)) d k, (complain d from (lit "/quantization/exclude_modules/" ++ to_string i) ≫= k : report (list (list Z))) = (u, []) -> False).
  { intros u d k H. quiet_forward H. done. }
  destruct (as_string value) as [[|c p]|] eqn:Hs; [split; [by intros ?%Hno|]| |split; [by intros ?%Hno|]].
  - intros (Hl & Hne & _). destruct l; [done|]. simpl in Hl. injection Hl as <- _. apply Forall_cons in Hne as [? _]. done.
  - case_bool_decide as Hseen; split.
    + by intros ?%Hno.
    + intros (Hl & _ & _ & Hsn). destruct l; [done|]. simpl in Hl. injection Hl as <- _. apply Forall_cons in Hsn as [? _]. done.
    + intros H. apply quiet_bind in H as (l' & Hl & H). apply (proj1 (quiet_ret _ _)) in H as <-.
      apply IH in Hl as (Hl & Hne & Hn & Hsn). rewrite Hl. split_and!; [done|by constructor| |].
      * constructor; [|done]. intros Hin. rewrite Forall_forall in Hsn. apply (Hsn _ Hin), elem_of_set_emplace. by left.
      * constructor; [done|]. eapply Forall_impl; [exact Hsn|]. simpl. intros x Hx Hin. apply Hx, elem_of_set_emplace. by right.
    + intros (Hl & Hne & Hn & Hsn). destruct l as [|x l]; [done|]. simpl in Hl. injection Hl as <- Hl.
      apply NoDup_cons in Hn as [Hx Hn]. apply Forall_cons in Hne as [_ Hne]. apply Forall_cons in Hsn as [_ Hsn].
      apply quiet_bind. exists l. split; [|done]. apply IH. split_and!; try done. apply Forall_forall. intros y Hy.
      rewrite elem_of_set_emplace. rewrite Forall_forall in Hsn. intros [->|?]; [done|]. by apply (Hsn y).
  - intros (Hl & _). by destruct l.
Qed.

Record describes_quantization (root : Value) (q : ModelOptSummary) : Prop := {
  quant_document : exists object producer table patterns layers ms,
    as_object root = Some object /\ Forall (fun key => key ∈ [lit "producer"; lit "quantization"]) object.*1 /\
    has_field as_object object (lit "producer") producer /\
    Forall (fun key => key ∈ [lit "name"; lit "version"]) producer.*1 /\
    has_field as_string producer (lit "name") (producer_name q) /\
    has_field as_string producer (lit "version") (producer_version q) /\
    has_field as_object object (lit "quantization") table /\
    Forall (fun key => key ∈ [lit "quant_algo"; lit "kv_cache_quant_algo"; lit "exclude_modules"; lit "quantized_layers"]) table.*1 /\
    has_field as_string table (lit "quant_algo") (quantization_algorithm q) /\
    has_field as_string table (lit "kv_cache_quant_algo") (kv_cache_quantization_algorithm q) /\
    has_field as_array table (lit "exclude_modules") patterns /\ as_string <$> patterns = Some <$> exclude_modules q /\
    has_field as_object table (lit "quantized_layers") layers /\ Z.of_nat (length layers) <= kMaximumQuantizedModules /\
    Forall2 describes_record layers ms /\ quantized_modules q = emplace_entries ms [] /\
    fp8_count q = modules_with kFp8 ms /\ nvfp4_count q = modules_with kW4A16Nvfp4 ms;
  quant_supported : (producer_name q = [] \/ producer_name q = lit "modelopt") /\
    (quantization_algorithm q = [] \/ quantization_algorithm q = lit "MIXED_PRECISION") /\
    (kv_cache_quantization_algorithm q = [] \/ kv_cache_quantization_algorithm q = lit "FP8");
  quant_excludes : Forall (fun p => p <> []) (exclude_modules q) /\ NoDup (exclude_modules q)
}.

Lemma supported_text (text supported : list Z) :
  negb (bool_decide (text = [])) && negb (bool_decide (text = supported)) = false <-> text = [] \/ text = supported.
Proof. by rewrite andb_false_iff, !negb_false_iff, !bool_decide_eq_true. Qed.

Lemma producer_quiet object from name version :
  producer_of object from = ((name, version), []) <->
  (name = [] \/ name = lit "modelopt") /\
  exists producer, has_field as_object object (lit "producer") producer /\
    Forall (fun key => key ∈ [lit "name"; lit "version"]) producer.*1 /\
    has_field as_string producer (lit "name") name /\ has_field as_string producer (lit "version") version.
Proof.
  unfold producer_of. split.
  - intros H. apply quiet_bind in H as (? & Ho & H). apply quiet_object_field in Ho as (producer & -> & Ho).
    cbv beta iota in H. quiet_forward H. quiet_lookup. injection H as -> ->. split; [by apply supported_text|]. by exists producer.
  - intros [Hname (producer & Ho & Hk & Hn & Hv)]. apply quiet_bind. exists (Some producer).
    split; [apply quiet_object_field; eauto|]. cbv beta iota. apply quiet_bind. exists tt. split; [by apply quiet_allowed|].
    do 2 quiet_step. apply quiet_bind. exists tt. split; [by apply quiet_complain_if, supported_text|done].
Qed.

Lemma excludes_quiet table from l :
  exclude_modules_of table from = (l, []) <->
  (exists patterns, has_field as_array table (lit "exclude_modules") patterns /\ as_string <$> patterns = Some <$> l) /\
  Forall (fun p => p <> []) l /\ NoDup l.
Proof.
  unfold exclude_modules_of, has_field. rewrite quiet_bind. setoid_rewrite quiet_field. split.
  - intros (? & (value & -> & Hv) & H). destruct (as_array value) as [patterns|] eqn:Ha; [|done].
    apply exclude_patterns_quiet in H as (Hl & Hne & Hn & _). eauto 10.
  - intros ((patterns & (value & Hv & Ha) & Hl) & Hne & Hn). exists (Some value). split; [eauto|]. rewrite Ha.
    apply exclude_patterns_quiet. split_and!; try done. apply Forall_forall. intros x _. apply not_elem_of_nil.
Qed.

Lemma layers_quiet table from modules fp8 nvfp4 :
  quantized_layers_of table from = ((modules, (fp8, nvfp4)), []) <->
  exists layers ms, has_field as_object table (lit "quantized_layers") layers /\
    Z.of_nat (length layers) <= kMaximumQuantizedModules /\ Forall2 describes_record layers ms /\
    modules = emplace_entries ms [] /\ fp8 = modules_with kFp8 ms /\ nvfp4 = modules_with kW4A16Nvfp4 ms.
Proof.
  unfold quantized_layers_of. split.
  - intros H. apply quiet_bind in H as (? & Ho & H). apply quiet_object_field in Ho as (layers & -> & Ho). cbv beta iota in H.
    destruct (Z.ltb_spec kMaximumQuantizedModules (Z.of_nat (length layers))); [done|].
    apply quantized_layers_quiet in H as (ms & Hms & He). rewrite add_modules in He. injection He as -> -> ->.
    by exists layers, ms.
  - intros (layers & ms & Ho & Hlen & Hms & -> & -> & ->). apply quiet_bind. exists (Some layers).
    split; [apply quiet_object_field; eauto|]. cbv beta iota.
    destruct (Z.ltb_spec kMaximumQuantizedModules (Z.of_nat (length layers))); [lia|].
    apply quantized_layers_quiet. exists ms. split; [done|]. by rewrite add_modules.
Qed.

Lemma parse_modelopt_exact root from q : parse_modelopt_quant_config root from = inr q <-> describes_quantization root q.
Proof.
  unfold parse_modelopt_quant_config. rewrite quiet_result. split.
  - intros H. apply quiet_bind in H as (? & Ho & H). apply quiet_require_object in Ho as (object & -> & Ho). cbv beta iota in H.
    apply quiet_bind in H as (? & Hk & H). apply quiet_bind in H as ([name version] & Hp & H). cbv beta iota in H.
    apply producer_quiet in Hp as (Hname & producer & Hp & Hpk & Hpn & Hpv).
    apply quiet_bind in H as (? & Ht & H). apply quiet_object_field in Ht as (table & -> & Ht). cbv beta iota in H.
    apply quiet_bind in H as (s & Hs & H). apply (proj1 (quiet_ret _ _)) in H. injection H as ->.
    unfold parse_quantization in Hs. cbv zeta in Hs. quiet_forward Hs.
    match goal with p : _ * (Z * Z) |- _ => destruct p as [modules [fp8 nvfp4]] end. cbv beta iota in Hs. quiet_lookup.
    repeat match goal with
    | H : exclude_modules_of _ _ = _ |- _ => apply excludes_quiet in H as ((patterns & ? & ?) & ? & ?)
    | H : quantized_layers_of _ _ = _ |- _ => apply layers_quiet in H as (layers & ms & ? & ? & ? & -> & -> & ->)
    | H : _ && _ = false |- _ => apply supported_text in H
    end.
    split; [|done|done]. by exists object, producer, table, patterns, layers, ms.
  - intros [(object & producer & table & patterns & layers & ms & Ho & Hk & Hp & Hpk & Hpn & Hpv & Ht & Htk & Ha & Hkv & Hx & Hxs & Hl
      & Hlen & Hms & Hq & H8 & H4) (Hsn & Hsa & Hsk) [Hne Hn]].
    apply quiet_bind. exists (Some object). split; [apply quiet_require_object; eauto|]. cbv beta iota.
    apply quiet_bind. exists tt. split; [by apply quiet_allowed|].
    apply quiet_bind. exists (producer_name q, producer_version q). split; [apply producer_quiet; eauto 10|]. cbv beta iota.
    apply quiet_bind. exists (Some table). split; [apply quiet_object_field; eauto|]. cbv beta iota.
    apply quiet_bind. exists q. split; [|done]. unfold parse_quantization. cbv zeta.
    apply quiet_bind. exists tt. split; [by apply quiet_allowed|]. do 2 quiet_step.
    apply quiet_bind. exists tt. split; [by apply quiet_complain_if, supported_text|].
    apply quiet_bind. exists tt. split; [by apply quiet_complain_if, supported_text|].
    apply quiet_bind. exists (exclude_modules q). split; [apply excludes_quiet; eauto 10|].
    apply quiet_bind. exists (quantized_modules q, (fp8_count q, nvfp4_count q)). split; [apply layers_quiet; eauto 20|].
    apply quiet_ret. by destruct q.
Qed.

(** ** The table of a pinned checkpoint *)

(** The table quantizes the modules of the architecture and no other. *)
Record table_matches (q : ModelOptSummary) (c : KnownCheckpointDescriptor) : Prop := {
  table_producer : producer_name q = lit "modelopt" /\ producer_version q = modelopt_version c;
  table_algorithms : quantization_algorithm q = lit "MIXED_PRECISION" /\ kv_cache_quantization_algorithm q = lit "FP8";
  table_excludes : exclude_modules q ≡ₚ [lit "mtp*"; lit "mtp.layers.0*"];
  table_counts : fp8_count q = expected_fp8_modules c /\ nvfp4_count q = expected_nvfp4_modules c;
  table_modules : forall name, map_find name (quantized_modules q) = map_find name (expected_quantized_modules (model c))
}.

Lemma expected_sorted known : keys_sorted (expected_quantized_modules known).
Proof.
  unfold expected_quantized_modules. destruct (find_known_model known) as [c|]; [|constructor].
  apply map_emplace_sorted. assert (H : keys_sorted (@nil (list Z * QuantizedModule))) by constructor. revert H.
  generalize (@nil (list Z * QuantizedModule)). induction (seq _ _) as [|i l IH]; intros done_ Hd; [done|].
  cbn [foldl]. apply IH. by apply emplace_entries_sorted.
Qed.

Lemma check_modules_exact (modules expected : Modules) : keys_sorted expected ->
  mjoin (check_expected modules <$> expected) ++ mjoin (check_unexpected expected <$> modules) = [] <->
  forall name, map_find name modules = map_find name expected.
Proof.
  intros Hs. assert (Hjoin : forall (f : list Z * QuantizedModule -> list Diagnostic) l, mjoin (f <$> l) = [] <-> Forall (fun x => f x = []) l).
  { intros f l. induction l as [|x l IH]; [split; [constructor|done]|]. rewrite fmap_cons. change (mjoin (f x :: (f <$> l))) with (f x ++ mjoin (f <$> l)).
    rewrite Forall_cons, <- IH. split.
    - by intros [? ?]%app_eq_nil.
    - by intros [-> ->]. }
  assert (Hexp : Forall (fun x => check_expected modules x = []) expected <->
                 forall name m, map_find name expected = Some m -> map_find name modules = Some m).
  { rewrite Forall_forall. unfold check_expected. split.
    - intros H name m Hm%map_find_elem. specialize (H _ Hm). cbv zeta in H. simpl in H.
      destruct (map_find name modules) as [m'|]; [|done].
      destruct (decide (m' = m)) as [->|Hne]; [done|]. exfalso.
      destruct (negb _ || negb _) eqn:Ht; [done|]. bools. rewrite !bool_decide_eq_true in *. destruct m', m; simpl in *; congruence.
    - intros H [name m] Hm%elem_map_find; [|done]. apply H in Hm. simpl. rewrite Hm. by rewrite !bool_decide_true. }
  assert (Hun : Forall (fun x => check_unexpected expected x = []) modules <->
                forall name, map_find name expected = None -> map_find name modules = None).
  { rewrite Forall_forall. unfold check_unexpected. split.
    - intros H name Hnone. apply map_find_None. intros (x & -> & Hx)%list_elem_of_fmap. specialize (H _ Hx). by rewrite Hnone in H.
    - intros H x Hx. destruct (map_find x.1 expected) eqn:Hnone; [done|]. apply H, map_find_None in Hnone. exfalso. apply Hnone.
      apply list_elem_of_fmap. by exists x. }
  split.
  - intros [H1 H2]%app_eq_nil. rewrite Hjoin, Hexp in H1. rewrite Hjoin, Hun in H2. intros name.
    destruct (map_find name expected) as [m|] eqn:Hm; [by apply H1|by apply H2].
  - intros H. rewrite (proj2 (Hjoin _ _)), (proj2 (Hjoin _ _)); [done| |].
    + apply Hun. intros name Hn. by rewrite H.
    + apply Hexp. intros name m Hm. by rewrite H.
Qed.

Lemma emplace_all_perm l : NoDup l <-> length (emplace_all l []) = length l.
Proof.
  assert (Hn : NoDup (emplace_all l [])) by (apply set_sorted_NoDup, emplace_all_sorted; constructor).
  assert (Hin : forall x, x ∈ emplace_all l [] <-> x ∈ l).
  { intros x. rewrite elem_of_emplace_all. split; [intros [?|?%not_elem_of_nil]; done|by left]. }
  split; intros H.
  - apply Permutation_length. by apply NoDup_Permutation.
  - assert (emplace_all l [] ≡ₚ l) as <-; [|done].
    apply submseteq_length_Permutation; [|lia]. apply NoDup_submseteq; [done|]. intros x. by rewrite Hin.
Qed.

Lemma excludes_exact l :
  emplace_all l [] = expected_excludes /\ length (emplace_all l []) = length l <-> l ≡ₚ [lit "mtp*"; lit "mtp.layers.0*"].
Proof.
  change [lit "mtp*"; lit "mtp.layers.0*"] with expected_excludes. unfold expected_excludes.
  assert (Hsorted : forall k, set_sorted (emplace_all k [])) by (intros k; apply emplace_all_sorted; constructor).
  assert (Hin : forall k x, x ∈ emplace_all k [] <-> x ∈ k).
  { intros k x. rewrite elem_of_emplace_all. split; [intros [?|?%not_elem_of_nil]; done|by left]. }
  split.
  - intros [He Hl%emplace_all_perm]. rewrite <- He. apply NoDup_Permutation; [done|by apply set_sorted_NoDup|].
    intros x. by rewrite Hin.
  - intros Hp. assert (Hn : NoDup l) by (rewrite Hp; by apply set_sorted_NoDup). split; [|by apply emplace_all_perm].
    apply set_sorted_ext; [done|done|]. intros x. by rewrite Hin, Hp.
Qed.

Lemma table_exact q c : validate_modelopt_quantization q c = [] <-> table_matches q c.
Proof.
  unfold validate_modelopt_quantization. cbv zeta.
  assert (Hif : forall (b : bool) (d : Diagnostic), (if b then [d] else []) = [] <-> b = false) by (intros [] d; done).
  split.
  - intros H. apply app_eq_nil in H as [H1 H]. apply app_eq_nil in H as [H2 H]. apply app_eq_nil in H as [H3 H].
    apply app_eq_nil in H as [H4 H]. rewrite Hif in H1, H2, H3, H4. bools. rewrite !bool_decide_eq_true in *.
    split; try done; [by apply excludes_exact|exact (proj1 (check_modules_exact _ _ (expected_sorted _)) H)].
  - intros [[-> ->] [-> ->] Hx%excludes_exact [-> ->] Hm]. rewrite !bool_decide_true by (done || apply Hx). rewrite !Z.eqb_refl.
    cbn [negb orb]. rewrite !app_nil_l. apply check_modules_exact; [apply expected_sorted|done].
Qed.

(** ** The index of a pinned checkpoint *)

Definition describes_mapping (kv : list Z * Value) (ns : list Z * list Z) : Prop :=
  kv.1 = ns.1 /\ ns.1 <> [] /\ ns.2 <> [] /\ as_string kv.2 = Some ns.2 /\ is_safe_relative_shard_path ns.2 = true.

Lemma index_entries_quiet o items from found found' :
  index_entries o items from found = (found', []) <->
  exists map, Forall2 describes_mapping items map /\
    found' = (emplace_all map.*2 found.1, if require_shards o then emplace_entries map found.2 else found.2).
Proof.
  revert found. induction items as [|[name value] items IH]; intros found; cbn [index_entries].
  { rewrite quiet_ret. split; [intros <-; exists []; split; [constructor|]; by destruct found, (require_shards o)|].
    intros (map & Hmap & ->). inversion Hmap. by destruct found, (require_shards o). }
  cbv zeta. unfold describes_mapping.
  assert (Hno : forall c p (u : list (list Z) * list (list Z * list Z)) k, (complain c from p ≫= k : report _) = (u, []) -> False).
  { intros c p u k H. quiet_forward H. done. }
  destruct (as_string value) as [shard|] eqn:Hs.
  2: { split; [by intros ?%Hno|]. intros (map & Hmap & _). inversion Hmap as [|? ? ? ? (_ & _ & _ & ? & _)]; subst. simpl in *. congruence. }
  destruct (bool_decide (name = []) || bool_decide (shard = [])) eqn:He.
  { split; [by intros ?%Hno|]. intros (map & Hmap & _). inversion Hmap as [|? ns ? ? (Hn & Hn1 & Hn2 & Hv & _)]; subst. simpl in *.
    rewrite Hs in Hv. injection Hv as ->. rewrite orb_true_iff, !bool_decide_eq_true in He. destruct He; congruence. }
  destruct (is_safe_relative_shard_path shard) eqn:Hsafe; cbn [negb].
  2: { split; [by intros ?%Hno|]. intros (map & Hmap & _). inversion Hmap as [|? ns ? ? (Hn & Hn1 & Hn2 & Hv & Hsafe')]; subst. simpl in *.
    rewrite Hs in Hv. injection Hv as ->. congruence. }
  rewrite orb_false_iff, !bool_decide_eq_false in He. destruct He as [Hn1 Hn2]. rewrite IH. split.
  - intros (map & Hmap & ->). exists ((name, shard) :: map). split; [by constructor|]. simpl. by destruct (require_shards o).
  - intros (map & Hmap & ->). inversion Hmap as [|? [name' shard'] ? map' (Hn & _ & _ & Hv & _) Hmap']; subst. simpl in Hn, Hv. subst name'.
    rewrite Hs in Hv. injection Hv as <-. exists map'. split; [done|]. simpl. by destruct (require_shards o).
Qed.

Definition describes_total (root : list (list Z * Value)) (total : option Z) : Prop :=
  match map_find (lit "metadata") root with
  | None => total = None
  | Some metadata => exists fields, as_object metadata = Some fields /\
      match map_find (lit "total_size") fields with
      | None => total = None
      | Some value => exists n, as_uint64 value = Some n /\ total = Some n
      end
  end.

Lemma total_quiet root from total : total_size_of root from = (total, []) <-> describes_total root total.
Proof.
  unfold total_size_of, describes_total, find_value. destruct (map_find (lit "metadata") root) as [metadata|]; [|rewrite quiet_ret; by split].
  rewrite quiet_bind. setoid_rewrite quiet_require_object. split.
  - intros (? & (fields & -> & Hf) & H). exists fields. split; [done|].
    destruct (map_find (lit "total_size") fields) as [value|]; [|by apply (proj1 (quiet_ret _ _)) in H].
    destruct (as_uint64 value) as [n|]; [|done]. apply (proj1 (quiet_ret _ _)) in H. by exists n.
  - intros (fields & Hf & H). exists (Some fields). split; [by eauto|].
    destruct (map_find (lit "total_size") fields) as [value|]; [|by subst]. destruct H as (n & -> & ->). done.
Qed.

Record describes_pinned_index (o : InspectionOptions) (root : Value) (i : ParsedIndex) : Prop := {
  index_document : exists object items map,
    as_object root = Some object /\ Forall (fun key => key ∈ [lit "metadata"; lit "weight_map"]) object.*1 /\
    has_field as_object object (lit "weight_map") items /\ Z.of_nat (length items) <= max_index_tensors o /\
    Forall2 describes_mapping items map /\ describes_total object (index_total_size (summary i)) /\
    tensor_count (summary i) = Z.of_nat (length map) /\ index_shards (summary i) = emplace_all map.*2 [] /\
    contract i = if require_shards o then {|
      weight_map := emplace_entries map []; shards := index_shards (summary i); index_metadata := [];
      total_size := index_total_size (summary i) |} else {| weight_map := []; shards := []; index_metadata := []; total_size := None |};
  index_few_shards : Z.of_nat (length (index_shards (summary i))) <= max_index_shards o
}.

Lemma parse_index_exact root o from i : parse_index root o from = inr i <-> describes_pinned_index o root i.
Proof.
  unfold parse_index. rewrite quiet_result. split.
  - intros H. apply quiet_bind in H as (? & Ho & H). apply quiet_require_object in Ho as (object & -> & Ho). cbv beta iota in H.
    apply quiet_bind in H as (? & Hk & H). apply quiet_allowed in Hk. apply quiet_bind in H as ([count [shards map]] & Hw & H).
    cbv beta iota in H. apply quiet_bind in H as (total & Ht & H). apply total_quiet in Ht. apply (proj1 (quiet_ret _ _)) in H. injection H as <-.
    unfold weight_map_of in Hw. apply quiet_bind in Hw as (? & Hi & Hw). apply quiet_object_field in Hi as (items & -> & Hi).
    cbv beta iota zeta in Hw. destruct (Z.ltb_spec (max_index_tensors o) (Z.of_nat (length items))); [done|].
    apply quiet_bind in Hw as ([shards' map'] & He & Hw). cbv beta iota in Hw.
    destruct (Z.ltb_spec (max_index_shards o) (Z.of_nat (length shards'))); [done|].
    apply (proj1 (quiet_ret _ _)) in Hw. injection Hw as <- <- <-. apply index_entries_quiet in He as (ns & Hns & He). injection He as -> ->.
    split; [|done]. exists object, items, ns. rewrite <- (Forall2_length _ _ _ Hns). split_and!; try done. simpl. by destruct (require_shards o).
  - intros [(object & items & map & Ho & Hk & Hi & Hlen & Hmap & Ht & Hc & Hs & Hcontract) Hfew].
    apply quiet_bind. exists (Some object). split; [apply quiet_require_object; eauto|]. cbv beta iota.
    apply quiet_bind. exists tt. split; [by apply quiet_allowed|].
    apply quiet_bind. exists (tensor_count (summary i), (index_shards (summary i), weight_map (contract i))). split.
    + unfold weight_map_of. apply quiet_bind. exists (Some items). split; [apply quiet_object_field; eauto|]. cbv beta iota zeta.
      destruct (Z.ltb_spec (max_index_tensors o) (Z.of_nat (length items))); [lia|].
      apply quiet_bind. exists (index_shards (summary i), weight_map (contract i)). split.
      * apply index_entries_quiet. exists map. split; [done|]. rewrite Hs, Hcontract. simpl. by destruct (require_shards o).
      * cbv beta iota. destruct (Z.ltb_spec (max_index_shards o) (Z.of_nat (length (index_shards (summary i))))); [lia|].
        apply quiet_ret. by rewrite Hc, (Forall2_length _ _ _ Hmap).
    + cbv beta iota. apply quiet_bind. exists (index_total_size (summary i)). split; [by apply total_quiet|]. apply quiet_ret. f_equal.
      destruct i as [[count shards total] contract]. simpl in *. f_equal. rewrite Hcontract. by destruct (require_shards o).
Qed.

(** ** A pinned directory *)

(** A metadata file that can be read whole, within its limit, as JSON. *)
Record json_file (fs : Filesystem) (path : list Z) (limit : Z) (bytes : list Z) (root : Value) : Prop := {
  json_regular : exists_path fs path = Some true /\ is_regular_file fs path = Some true;
  json_bytes : file_size fs path = Some (Z.of_nat (length bytes)) /\ open_stream fs path = Some bytes;
  json_limit : Z.of_nat (length bytes) <= limit /\ Z.of_nat (length bytes) <= streamsize_max;
  json_parsed : exists rest, parse bytes (json_limits limit) = Good root rest
}.

Definition evidence_of (name bytes : list Z) : FileEvidence :=
  {| evidence_name := name; evidence_size := Z.of_nat (length bytes); evidence_sha256 := sha256_text bytes |}.

Lemma is_true_exact a : is_true a = true <-> a = Some true.
Proof. by destruct a as [[]|]. Qed.

Lemma load_exact fs path limit name root evidence :
  load_json_file fs path limit name = inr (root, evidence) <->
  exists bytes, json_file fs path limit bytes root /\ evidence = evidence_of name bytes.
Proof.
  unfold load_json_file. cbv zeta. split.
  - destruct (is_true (exists_path fs path)) eqn:He; [|done]. destruct (is_true (is_regular_file fs path)) eqn:Hr; [|done].
    cbn [negb]. destruct (file_size fs path) as [size|] eqn:Hs; [|done]. destruct (_ || _) eqn:Hlim; [done|].
    destruct (open_stream fs path) as [bytes|] eqn:Hb; [|done]. destruct (Z.eqb_spec (Z.of_nat (length bytes)) size) as [<-|]; [|done].
    cbn [negb]. destruct (parse bytes (json_limits limit)) as [root' rest| |] eqn:Hp; try done. intros [= <- <-].
    exists bytes. split; [|done]. apply is_true_exact in He, Hr. bools. split; [done|done|lia|by exists rest].
  - intros (bytes & [[He Hr] [Hs Hb] [Hl1 Hl2] [rest Hp]] & ->). rewrite He, Hr, Hs, Hb, Hp. cbn [is_true negb].
    rewrite Z.eqb_refl. cbn [negb]. destruct (_ || _) eqn:Hlim; [|done].
    rewrite !orb_true_iff, !Z.ltb_lt in Hlim. unfold streamsize_max, u64_max in *. lia.
Qed.

Lemma metadata_exact fs directory name limit root evidence :
  metadata_file fs directory name limit = inr (root, evidence) <->
  exists bytes, json_file fs (append_path directory name) limit bytes root /\ evidence = evidence_of name bytes.
Proof.
  unfold metadata_file. rewrite <- load_exact. destruct (load_json_file _ _ _ _); [done|]. split; congruence.
Qed.

Lemma fail_if_inr test s c from p u : fail_if test s c from p = inr u <-> test = false.
Proof. destruct u, test; done. Qed.

Lemma or_failure_inr {A} (r : list Diagnostic + A) status_of a : or_failure r status_of = inr a <-> r = inr a.
Proof. destruct r; simpl; split; try done; congruence. Qed.

Record pinned_directory (fs : Filesystem) (directory : list Z) (o : InspectionOptions) (r : InspectionReport) : Prop := {
  pinned_limits : zero_limit o = false;
  pinned_checkpoint : checkpoint r ∈ known_checkpoint_catalog;
  pinned_files : exists config_bytes config_root quant_bytes quant_root index_bytes index_root parsed,
    (** config.json has the pinned digest and describes an architecture of the checkpoint's model *)
    (json_file fs (append_path directory config_file_name) (max_config_bytes o) config_bytes config_root /\
     sha256_text config_bytes = config_sha256 (checkpoint r) /\ describes_config config_root (config r) /\
     (Hf.embedded_quantization_method (config r) = None \/ Hf.embedded_quantization_method (config r) = Some (lit "modelopt")) /\
     model (checkpoint r) ∈ Hf.shape_candidates (config r)) /\
    (** hf_quant_config.json has the pinned digest and quantizes exactly the modules of that model *)
    (json_file fs (append_path directory quant_file_name) (max_quant_config_bytes o) quant_bytes quant_root /\
     sha256_text quant_bytes = quant_config_sha256 (checkpoint r) /\ describes_quantization quant_root (quantization r) /\
     table_matches (quantization r) (checkpoint r)) /\
    (** the index has the pinned digest, numbers and size *)
    (json_file fs (append_path directory index_file_name) (max_index_bytes o) index_bytes index_root /\
     sha256_text index_bytes = index_sha256 (checkpoint r) /\ describes_pinned_index o index_root parsed /\
     index r = summary parsed /\ tensor_count (index r) = expected_index_tensors (checkpoint r) /\
     Z.of_nat (length (index_shards (index r))) = expected_index_shards (checkpoint r) /\
     index_total_size (index r) = expected_index_total_size (checkpoint r)) /\
    files r = [evidence_of config_file_name config_bytes; evidence_of quant_file_name quant_bytes;
               evidence_of index_file_name index_bytes] /\
    (** the shards are validated in full, or looked for *)
    (if require_shards o then
       exists s, validate_index_shards (open_disk fs) (symlink_status_of fs) directory (contract parsed)
                   (shard_validation_options o) = inr s /\
         shard_contract_validated r = true /\ present_shards r = validated_shards s /\ missing_shards r = 0 /\
         report_validated_shards r = validated_shards s /\ report_validated_tensors r = validated_tensors s /\
         validated_payload_bytes r = payload_bytes s /\ report_diagnostics r = []
     else
       look_for_shards fs directory (index_shards (index r)) = (present_shards r, missing_shards r, report_diagnostics r) /\
       shard_contract_validated r = false /\ report_validated_shards r = 0 /\ report_validated_tensors r = 0 /\
       validated_payload_bytes r = 0)
}.

Lemma find_by_digest catalog digest c : NoDup (config_sha256 <$> catalog) ->
  find_checkpoint (fun c => bool_decide (config_sha256 c = digest)) catalog = Some c <-> c ∈ catalog /\ digest = config_sha256 c.
Proof.
  induction catalog as [|c0 catalog IH]; simpl; intros Hn.
  { split; [done|]. by intros [?%not_elem_of_nil _]. }
  apply NoDup_cons in Hn as [H0 Hn]. rewrite elem_of_cons. case_bool_decide as Hd; [split|rewrite IH by done; split].
  - intros [= <-]. by split; [left|].
  - intros [[->|Hin] Hc]; [done|]. exfalso. apply H0, list_elem_of_fmap. exists c. split; [congruence|done].
  - intros [Hin Hc]. by split; [right|].
  - intros [[->|Hin] Hc]; [congruence|done].
Qed.

Lemma find_checkpoint_exact digest c :
  find_known_checkpoint_by_config_sha256 digest = Some c <-> c ∈ known_checkpoint_catalog /\ digest = config_sha256 c.
Proof. apply find_by_digest. apply (bool_decide_unpack _). vm_compute. exact I. Qed.

Lemma method_supported (m : option (list Z)) :
  match m with Some method => negb (bool_decide (method = lit "modelopt")) | None => false end = false <->
  m = None \/ m = Some (lit "modelopt").
Proof. destruct m as [m|]; [|by split; [left|]]. rewrite negb_false_iff, bool_decide_eq_true. split; [intros ->; by right|by intros [?|[= ->]]]. Qed.

Lemma inspect_config_exact fs directory o cfg evidence c :
  inspect_config fs directory o = inr (cfg, evidence, c) <->
  c ∈ known_checkpoint_catalog /\ exists bytes root,
    (json_file fs (append_path directory config_file_name) (max_config_bytes o) bytes root /\
     sha256_text bytes = config_sha256 c /\ describes_config root cfg /\
     (Hf.embedded_quantization_method cfg = None \/ Hf.embedded_quantization_method cfg = Some (lit "modelopt")) /\
     model c ∈ Hf.shape_candidates cfg) /\ evidence = evidence_of config_file_name bytes.
Proof.
  unfold inspect_config. split.
  - intros H. apply sum_bind_inr in H as ([root ev] & Hf & H). apply metadata_exact in Hf as (bytes & Hj & ->). cbv beta iota in H.
    apply sum_bind_inr in H as (cfg' & Hc & H). apply or_failure_inr, parse_hf_config_exact in Hc.
    apply sum_bind_inr in H as (? & Hm%fail_if_inr%method_supported & H). apply sum_bind_inr in H as (? & _ & H).
    destruct (find_known_checkpoint_by_config_sha256 _) as [c'|] eqn:Hfind; [|done].
    apply sum_bind_inr in H as (? & Hin%fail_if_inr & H). injection H as -> <- ->.
    apply find_checkpoint_exact in Hfind as [Hcat Hd]. apply negb_false_iff, bool_decide_eq_true in Hin. split; [done|]. by exists bytes, root.
  - intros (Hcat & bytes & root & (Hj & Hd & Hc & Hm & Hin) & ->). apply sum_bind_inr. exists (root, evidence_of config_file_name bytes).
    split; [apply metadata_exact; eauto|]. cbv beta iota. apply sum_bind_inr. exists cfg.
    split; [by apply or_failure_inr, parse_hf_config_exact|]. apply sum_bind_inr. exists tt. split; [by apply fail_if_inr, method_supported|].
    apply sum_bind_inr. exists tt. split.
    { apply fail_if_inr, bool_decide_eq_false. intros He. rewrite He in Hin. by apply not_elem_of_nil in Hin. }
    rewrite (proj2 (find_checkpoint_exact _ c)) by done. apply sum_bind_inr. exists tt. split; [|done].
    apply fail_if_inr. by rewrite bool_decide_true.
Qed.

Lemma inspect_quantization_exact fs directory o c q evidence :
  inspect_quantization fs directory o c = inr (q, evidence) <-> exists bytes root,
    (json_file fs (append_path directory quant_file_name) (max_quant_config_bytes o) bytes root /\
     sha256_text bytes = quant_config_sha256 c /\ describes_quantization root q /\ table_matches q c) /\
    evidence = evidence_of quant_file_name bytes.
Proof.
  unfold inspect_quantization. split.
  - intros H. apply sum_bind_inr in H as ([root ev] & Hf & H). apply metadata_exact in Hf as (bytes & Hj & ->). cbv beta iota zeta in H.
    apply sum_bind_inr in H as (q' & Hq & H). apply or_failure_inr, parse_modelopt_exact in Hq.
    apply sum_bind_inr in H as (? & Hm & H). destruct (bool_decide (validate_modelopt_quantization q' c = [])) eqn:Hv in Hm; [|done]. apply bool_decide_eq_true, table_exact in Hv.
    apply sum_bind_inr in H as (? & Hd%fail_if_inr & H). injection H as -> <-. apply negb_false_iff, bool_decide_eq_true in Hd. by exists bytes, root.
  - intros (bytes & root & (Hj & Hd & Hq & Hv) & ->). apply sum_bind_inr. exists (root, evidence_of quant_file_name bytes).
    split; [apply metadata_exact; eauto|]. cbv beta iota zeta. apply sum_bind_inr. exists q.
    split; [by apply or_failure_inr, parse_modelopt_exact|]. apply sum_bind_inr. exists tt.
    split; [by rewrite bool_decide_true by by apply table_exact|]. apply sum_bind_inr. exists tt. split; [|done].
    apply fail_if_inr. by rewrite bool_decide_true.
Qed.

Lemma inspect_index_exact fs directory o c i evidence :
  inspect_index fs directory o c = inr (i, evidence) <-> exists bytes root,
    (json_file fs (append_path directory index_file_name) (max_index_bytes o) bytes root /\
     sha256_text bytes = index_sha256 c /\ describes_pinned_index o root i /\
     tensor_count (summary i) = expected_index_tensors c /\
     Z.of_nat (length (index_shards (summary i))) = expected_index_shards c /\
     index_total_size (summary i) = expected_index_total_size c) /\ evidence = evidence_of index_file_name bytes.
Proof.
  unfold inspect_index. split.
  - intros H. apply sum_bind_inr in H as ([root ev] & Hf & H). apply metadata_exact in Hf as (bytes & Hj & ->). cbv beta iota in H.
    apply sum_bind_inr in H as (i' & Hi & H). apply or_failure_inr, parse_index_exact in Hi.
    apply sum_bind_inr in H as (? & Hd%fail_if_inr & H). apply sum_bind_inr in H as (? & Hs%fail_if_inr & H). injection H as -> <-.
    bools. rewrite bool_decide_eq_true in *. by exists bytes, root.
  - intros (bytes & root & (Hj & Hd & Hi & Ht & Hs & Hz) & ->). apply sum_bind_inr. exists (root, evidence_of index_file_name bytes).
    split; [apply metadata_exact; eauto|]. cbv beta iota. apply sum_bind_inr. exists i.
    split; [by apply or_failure_inr, parse_index_exact|]. apply sum_bind_inr. exists tt.
    split; [apply fail_if_inr; by rewrite bool_decide_true|]. apply sum_bind_inr. exists tt. split; [|done].
    apply fail_if_inr. rewrite Ht, Hs, Hz, !Z.eqb_refl. by rewrite bool_decide_true.
Qed.

(** A failure carries no report. *)
Definition reportless {A} (m : InspectionResult + A) : Prop := forall e, m = inl e -> inspection_report e = None.

Lemma reportless_failure {A} s l : reportless (inspection_failure s l : InspectionResult + A).
Proof. by intros e [= <-]. Qed.
Lemma reportless_inr {A} (a : A) : reportless (inr a).
Proof. done. Qed.
Lemma reportless_fail_if test s c from p : reportless (fail_if test s c from p).
Proof. destruct test; [apply reportless_failure|apply reportless_inr]. Qed.
Lemma reportless_bind {A B} (m : InspectionResult + A) (k : A -> InspectionResult + B) :
  reportless m -> (forall a, reportless (k a)) -> reportless (m ≫= k).
Proof. intros Hm Hk e. destruct m as [e'|a]; [|apply Hk]. intros [= <-]. by apply Hm. Qed.
Lemma reportless_metadata fs directory name limit : reportless (metadata_file fs directory name limit).
Proof. unfold metadata_file. destruct (load_json_file _ _ _ _); [apply reportless_failure|apply reportless_inr]. Qed.
Lemma reportless_or_failure {A} (r : list Diagnostic + A) status_of : reportless (or_failure r status_of).
Proof. destruct r; [apply reportless_failure|apply reportless_inr]. Qed.

#[local] Hint Resolve reportless_failure reportless_inr reportless_fail_if reportless_metadata reportless_or_failure : core.

Lemma inspect_reportless fs directory o : reportless (inspect fs directory o).
Proof.
  unfold inspect, inspect_config, inspect_quantization, inspect_index, inspect_shards, fail_with.
  repeat lazymatch goal with
  | |- forall _, _ => intros ?
  | |- reportless (_ ≫= _) => apply reportless_bind
  | |- reportless (match ?x with _ => _ end) => destruct x
  | |- _ => by auto
  end.
Qed.

Lemma inspect_directory_exact fs directory o r :
  inspection_ok (inspect_directory fs directory o) = Some r <-> inspect fs directory o = inr r.
Proof.
  unfold inspection_ok, inspect_directory. destruct (inspect fs directory o) as [failure|r'] eqn:H.
  - split; [|done]. case_bool_decide as Hs; [|done]. apply inspect_reportless in H. by rewrite H.
  - cbn [status inspection_report]. rewrite bool_decide_true by done. split; congruence.
Qed.

Lemma inspect_shards_exact fs directory o base i r :
  inspect_shards fs directory o base i = inr r <->
  if require_shards o then
    exists s, validate_index_shards (open_disk fs) (symlink_status_of fs) directory (contract i) (shard_validation_options o) = inr s /\
      r = base (validated_shards s) 0 true s []
  else exists present missing warnings, look_for_shards fs directory (index_shards (summary i)) = (present, missing, warnings) /\
      r = base present missing false {| validated_shards := 0; validated_tensors := 0; payload_bytes := 0 |} warnings.
Proof.
  unfold inspect_shards. destruct (require_shards o).
  - destruct (validate_index_shards _ _ _ _ _) as [e|s]; split; try done.
    + by intros (s & ? & _).
    + intros [= <-]. eauto.
    + by intros (s' & [= <-] & ->).
  - destruct (look_for_shards _ _ _) as [[present missing] warnings]. split.
    + intros [= <-]. by exists present, missing, warnings.
    + by intros (? & ? & ? & [= <- <- <-] & ->).
Qed.

Lemma inspect_inr fs directory o r : inspect fs directory o = inr r <-> pinned_directory fs directory o r.
Proof.
  unfold inspect. split.
  - intros H. apply sum_bind_inr in H as (? & Hz%fail_if_inr & H). apply sum_bind_inr in H as ([[cfg ev] c] & Hc & H).
    apply inspect_config_exact in Hc as (Hcat & cb & cr & Hc & ->). cbv beta iota in H.
    apply sum_bind_inr in H as ([q ev] & Hq & H). apply inspect_quantization_exact in Hq as (qb & qr & Hq & ->). cbv beta iota in H.
    apply sum_bind_inr in H as ([i ev] & Hi & H). apply inspect_index_exact in Hi as (ib & ir & Hi & ->). cbv beta iota in H.
    apply inspect_shards_exact in H. split; [done| |].
    + destruct (require_shards o); [destruct H as (s & _ & ->)|destruct H as (? & ? & ? & _ & ->)]; done.
    + exists cb, cr, qb, qr, ib, ir, i. destruct Hi as (? & ? & ? & ? & ? & ?). destruct (require_shards o).
      * destruct H as (s & Hs & ->). cbn. split_and!; try tauto. by exists s.
      * destruct H as (? & ? & ? & Hl & ->). cbn. split_and!; try tauto.
  - intros [Hz Hcat (cb & cr & qb & qr & ib & ir & i & Hc & Hq & (Hj & Hd & Hi & Hsum & Ht & Hs & Htotal) & Hfiles & Hshards)].
    apply sum_bind_inr. exists tt. split; [by apply fail_if_inr|].
    apply sum_bind_inr. exists (config r, evidence_of config_file_name cb, checkpoint r).
    split; [apply inspect_config_exact; split; [done|]; by exists cb, cr|]. cbv beta iota.
    apply sum_bind_inr. exists (quantization r, evidence_of quant_file_name qb).
    split; [apply inspect_quantization_exact; by exists qb, qr|]. cbv beta iota.
    apply sum_bind_inr. exists (i, evidence_of index_file_name ib).
    split; [apply inspect_index_exact; exists ib, ir; rewrite <- Hsum; tauto|]. cbv beta iota.
    apply inspect_shards_exact. destruct r as [c cfg q ix fl present missing checked vs vt vp ds]. cbn in *. subst.
    destruct (require_shards o).
    + destruct Hshards as (s & Hv & -> & -> & -> & -> & -> & -> & ->). by exists s.
    + destruct Hshards as (Hl & -> & -> & -> & ->). by exists present, missing, ds.
Qed.

(** C18. A directory is accepted exactly when its three metadata files can be
    read within their limits and have the SHA-256 digests of one entry of the
    catalog of checkpoints, config.json describes the architecture of that
    entry's model, hf_quant_config.json quantizes the modules of that
    architecture and no other, the index has the entry's number of tensors,
    shards and bytes and maps tensors to safe paths, and, where shards are
    required, they validate; the report says what was found. *)
Theorem inspect_pinned_exact fs directory o r :
  inspection_ok (inspect_directory fs directory o) = Some r <-> pinned_directory fs directory o r.
Proof. by rewrite inspect_directory_exact, inspect_inr. Qed.

(** The architecture of an accepted directory is in the catalog of models, and valid. *)
Lemma pinned_architecture fs directory o r : pinned_directory fs directory o r ->
  exists c, find_known_model (model (checkpoint r)) = Some c /\ validate c = None /\ matches_catalog_shape (config r) c = true.
Proof.
  intros [_ _ (cb & cr & _ & _ & _ & _ & _ & (_ & _ & [_ Hcand] & _ & Hin) & _)]. rewrite Hcand in Hin. unfold shape_candidates_of in Hin.
  apply list_elem_of_fmap in Hin as (c & Hm & Hin%list_elem_of_In%filter_In). destruct Hin as [Hin Hshape].
  pose proof catalog_valid as Hall. rewrite Forall_forall in Hall. specialize (Hall c (proj2 (list_elem_of_In _ _) Hin)).
  exists c. rewrite Hm. tauto.
Qed.

(** The descriptors count the modules of their architectures. *)
Definition counts_agree (c : KnownCheckpointDescriptor) : bool :=
  let expected := expected_quantized_modules (model c) in
  (modules_with kFp8 expected =? expected_fp8_modules c) && (modules_with kW4A16Nvfp4 expected =? expected_nvfp4_modules c).

Lemma catalog_counts : forallb counts_agree known_checkpoint_catalog = true.
Proof. vm_cast_no_check (eq_refl true). Qed.

(** ** A directory that is not pinned *)

Definition number (n : Z) : Value := Number (to_string n).

(** The configuration of the dense model, with other weights. *)
Definition sample_config : Value :=
  Object [
    (lit "architectures", Array [String dense_architecture]);
    (lit "model_type", String (lit "qwen3_5"));
    (lit "text_config", Object [
      (lit "attention_bias", Bool false); (lit "attn_output_gate", Bool true); (lit "dtype", String (lit "bfloat16"));
      (lit "full_attention_interval", number 4); (lit "head_dim", number 256); (lit "hidden_act", String (lit "silu"));
      (lit "hidden_size", number 5120); (lit "intermediate_size", number 17408);
      (lit "layer_types", Array ((fun i => String (if (Z.of_nat i + 1) mod 4 =? 0 then lit "full_attention" else lit "linear_attention")) <$> seq 0 64));
      (lit "linear_conv_kernel_dim", number 4); (lit "linear_key_head_dim", number 128); (lit "linear_num_key_heads", number 16);
      (lit "linear_num_value_heads", number 48); (lit "linear_value_head_dim", number 128);
      (lit "max_position_embeddings", number 262144); (lit "model_type", String (lit "qwen3_5_text"));
      (lit "mtp_num_hidden_layers", number 1); (lit "mtp_use_dedicated_embeddings", Bool false);
      (lit "num_attention_heads", number 24); (lit "num_hidden_layers", number 64); (lit "num_key_value_heads", number 4);
      (lit "partial_rotary_factor", Number (lit "0.25"));
      (lit "rms_norm_eps", Number (lit "1e-06"));
      (lit "rope_parameters", Object [(lit "partial_rotary_factor", Number (lit "0.25")); (lit "rope_theta", number 10000000)]);
      (lit "vocab_size", number 248320)]);
    (lit "vision_config", Object [
      (lit "depth", number 27); (lit "hidden_size", number 1152); (lit "intermediate_size", number 4304); (lit "num_heads", number 16);
      (lit "num_position_embeddings", number 2304); (lit "out_hidden_size", number 5120); (lit "patch_size", number 16);
      (lit "spatial_merge_size", number 2); (lit "temporal_patch_size", number 2)])].

Definition sample_directory : Filesystem := {|
  exists_path := fun path => Some (bool_decide (path = lit "/m/config.json"));
  is_regular_file := fun _ => Some true;
  file_size := fun _ => Some (Z.of_nat (length (render sample_config)));
  open_stream := fun _ => Some (render sample_config);
  open_disk := fun _ => None; symlink_status_of := fun _ => (Some NoSuchFile, {| exists_ := false; is_symlink := false; is_directory := false; is_regular := false |})
|}.

(** Its shape is known and its digest is not. *)
Example sample_unknown_revision :
  status (inspect_directory sample_directory (lit "/m") default_inspection_options) = kUnknownRevision.
Proof. vm_compute. reflexivity. Qed.

Example sample_missing_file :
  status (inspect_directory sample_directory (lit "/n") default_inspection_options) = kMissingRequiredFile.
Proof. vm_compute. reflexivity. Qed.
