(* ===== verification/WeightManifest.v ===== *)
(** * WeightManifest: the tensors the runtime loads
      (src/model/weight_manifest.cpp, include/q3x/model/weight_manifest.h)

    The complete list of the text tensors of Qwen3.6-27B is generated from its
    architecture and its quantization table; a table of locators is accepted
    when it has exactly these tensors, with their types and shapes, beside the
    vision and draft tensors that are skipped.  [ManifestBuild.v] collects the
    table of a directory.

    An error keeps its code and context; the texts that explain it
    ([expected], [actual], [message]) are left out.  Memory is never exhausted. *)

From Stdlib Require Import String Sorting.Sorted.
From stdpp Require Import sorting.
From S2P Require Import Prelude OrderedMap Json Safetensors ModelConfig Checkpoint.

(** ** Data *)

Inductive TensorCategory := kText | kVision | kMtp | kUnknown.

Inductive ManifestErrorCode :=
  | kInvalidOption | kCheckpointRejected | kUnsupportedCheckpoint | kIndexRejected | kShardRejected
  | kUnsafeShardPath | kDuplicateTensor | kUnknownTensor | kUnexpectedTextTensor | kMissingTensor | kDTypeMismatch
  | kShapeMismatch | kByteSizeMismatch | kOffsetMismatch | kQuantizationMismatch | kCountMismatch | kSizeMismatch
  | kArithmeticOverflow | kIoFailure | kAllocationFailure.

#[global] Instance TensorCategory_eq_dec : EqDecision TensorCategory.
Proof. solve_decision. Defined.

Record ManifestDiagnostic := { manifest_code : ManifestErrorCode; manifest_context : list Z }.

Record TensorLocator := {
  category : TensorCategory;
  shard : list Z;
  locator_file : list Z;
  locator_begin : Z;
  locator_end : Z;
  locator_bytes : Z;
  locator_dtype : DType;
  locator_shape : list Z
}.

Record WeightManifestSummary := {
  shard_count : Z;
  manifest_tensor_count : Z;
  text_tensor_count : Z;
  vision_tensor_count : Z;
  mtp_tensor_count : Z;
  fp8_module_count : Z;
  nvfp4_module_count : Z;
  raw_text_bytes : Z;
  vision_bytes : Z;
  mtp_bytes : Z;
  skipped_bytes : Z;
  arena_alignment : Z;
  estimated_text_arena_bytes : Z
}.

Record WeightManifest := {
  manifest_checkpoint : option KnownCheckpointDescriptor;
  manifest_summary : WeightManifestSummary;
  manifest_tensors : list (list Z * TensorLocator)
}.

Record ManifestOptions := {
  option_arena_alignment : Z;
  index_options : IndexReadOptions;
  shard_options : ShardValidationOptions
}.

Definition kPinnedQwen36_27BTextTensorCount : Z := 1846.
Definition kPinnedQwen36_27BVisionTensorCount : Z := 333.
Definition kPinnedQwen36_27BMtpTensorCount : Z := 15.
Definition kPinnedQwen36_27BTextBytes : Z := 20150569096.
Definition kPinnedQwen36_27BVisionBytes : Z := 921460192.
Definition kPinnedQwen36_27BMtpBytes : Z := 849398784.

Definition failure {A} (c : ManifestErrorCode) (where_ : list Z) : ManifestDiagnostic + A :=
  inl {| manifest_code := c; manifest_context := where_ |}.

Definition fail_if (test : bool) (c : ManifestErrorCode) (where_ : list Z) : ManifestDiagnostic + unit :=
  if test then failure c where_ else inr tt.

Definition require {A} (o : option A) (c : ManifestErrorCode) (where_ : list Z) : ManifestDiagnostic + A :=
  match o with None => failure c where_ | Some a => inr a end.

Definition is_power_of_two (value : Z) : bool := negb (value =? 0) && (Z.land value (u64 (value - 1)) =? 0).

Definition checked_align_up (value alignment : Z) : option Z :=
  let mask := u64 (alignment - 1) in
  if u64_max - mask <? value then None else Some (Z.land (value + mask) (u64 (Z.lnot mask))).

Fixpoint checked_product (dims : list Z) (elements : Z) : option Z :=
  match dims with
  | [] => Some elements
  | d :: dims => elements ← checked_multiply elements d; checked_product dims elements
  end.

Definition compute_byte_size (dtype : DType) (shape : list Z) : option Z :=
  elements ← checked_product shape 1;
  bits ← checked_multiply elements (bit_width dtype);
  if negb (bits mod 8 =? 0) then None else Some (bits / 8).

(** ** The tensors the runtime needs *)

Record TensorRequirement := { required_dtype : DType; required_shape : list Z }.

Definition RequirementMap : Type := list (list Z * TensorRequirement).

Definition add_requirement (name : list Z) (dtype : DType) (shape : list Z) (r : RequirementMap) : bool * RequirementMap :=
  (bool_decide (map_find name r = None), map_emplace name {| required_dtype := dtype; required_shape := shape |} r).

(** The entries that one quantized projection adds, in their order. *)
Definition fp8_entries (module : list Z) (output_size input_size : Z) : RequirementMap := [
  (module ++ lit ".weight", {| required_dtype := kF8E4M3; required_shape := [output_size; input_size] |});
  (module ++ lit ".weight_scale", {| required_dtype := kF32; required_shape := [] |});
  (module ++ lit ".input_scale", {| required_dtype := kF32; required_shape := [] |})].

Definition nvfp4_entries (module : list Z) (output_size input_size : Z) : RequirementMap := [
  (module ++ lit ".weight", {| required_dtype := kU8; required_shape := [output_size; input_size / 2] |});
  (module ++ lit ".weight_scale", {| required_dtype := kF8E4M3; required_shape := [output_size; input_size / 16] |});
  (module ++ lit ".weight_scale_2", {| required_dtype := kF32; required_shape := [] |});
  (module ++ lit ".input_scale", {| required_dtype := kF32; required_shape := [] |})].

(** [inserted &= add_requirement(...)], once for every entry. *)
Fixpoint add_all (entries : RequirementMap) (inserted : bool) (r : RequirementMap) : bool * RequirementMap :=
  match entries with
  | [] => (inserted, r)
  | (name, q) :: entries =>
      let '(b, r) := add_requirement name (required_dtype q) (required_shape q) r in add_all entries (inserted && b) r
  end.

Definition add_quantized_requirement (quantized : Modules) (module : list Z) (output_size input_size : Z) (r : RequirementMap)
    : ManifestDiagnostic + RequirementMap :=
  selected ← require (map_find module quantized) kQuantizationMismatch module;
  entries ← match algorithm selected with
            | kFp8 => inr (fp8_entries module output_size input_size)
            | kW4A16Nvfp4 =>
                if negb (bool_decide (group_size selected = Some 16)) || negb (input_size mod 16 =? 0)
                then failure kQuantizationMismatch module else inr (nvfp4_entries module output_size input_size)
            end;
  let '(inserted, r) := add_all entries true r in
  if negb inserted then failure kQuantizationMismatch module else inr r.

(** The calls [make_requirements] makes, in their order: a tensor, a quantized
    projection, or a layer whose type is invalid. *)
Inductive Step :=
  | Tensor (name : list Z) (dtype : DType) (shape : list Z)
  | Projection (module : list Z) (output_size input_size : Z)
  | InvalidLayer (prefix : list Z).

Definition run_step (quantized : Modules) (s : Step) (r : RequirementMap) : ManifestDiagnostic + RequirementMap :=
  match s with
  | Tensor name dtype shape => inr (snd (add_requirement name dtype shape r))
  | Projection module output_size input_size => add_quantized_requirement quantized module output_size input_size r
  | InvalidLayer prefix => failure kUnsupportedCheckpoint prefix
  end.

Fixpoint run_steps (quantized : Modules) (steps : list Step) (r : RequirementMap) : ManifestDiagnostic + RequirementMap :=
  match steps with
  | [] => inr r
  | s :: steps => r ← run_step quantized s r; run_steps quantized steps r
  end.

(** One turn of the loop over the layers. *)
Definition layer_steps (c : ModelConfig) (layer : Z) : list Step :=
  let prefix := lit "model.language_model.layers." ++ to_string layer ++ lit "." in
  let tensor name shape := Tensor (prefix ++ name) kBf16 shape in
  let projection name output_size input_size := Projection (prefix ++ name) output_size input_size in
  [tensor (lit "input_layernorm.weight") [hidden_size c];
   tensor (lit "post_attention_layernorm.weight") [hidden_size c];
   projection (lit "mlp.gate_proj") (intermediate_size c) (hidden_size c);
   projection (lit "mlp.up_proj") (intermediate_size c) (hidden_size c);
   projection (lit "mlp.down_proj") (hidden_size c) (intermediate_size c)]
  ++ match layer_type c layer with
     | kLinearAttention =>
         [tensor (lit "linear_attn.in_proj_a.weight") [48; hidden_size c];
          tensor (lit "linear_attn.in_proj_b.weight") [48; hidden_size c];
          tensor (lit "linear_attn.conv1d.weight") [10240; 1; 4];
          tensor (lit "linear_attn.A_log") [48];
          tensor (lit "linear_attn.dt_bias") [48];
          tensor (lit "linear_attn.norm.weight") [128];
          projection (lit "linear_attn.in_proj_qkv") 10240 5120;
          projection (lit "linear_attn.in_proj_z") 6144 5120;
          projection (lit "linear_attn.out_proj") 5120 6144]
     | kFullAttention =>
         [tensor (lit "self_attn.q_norm.weight") [head_dim c];
          tensor (lit "self_attn.k_norm.weight") [head_dim c];
          projection (lit "self_attn.q_proj") 12288 5120;
          projection (lit "self_attn.k_proj") 1024 5120;
          projection (lit "self_attn.v_proj") 1024 5120;
          projection (lit "self_attn.o_proj") 5120 6144]
     | kInvalid => [InvalidLayer prefix]
     end.

Definition requirement_steps (c : ModelConfig) : list Step :=
  [Tensor (lit "model.language_model.embed_tokens.weight") kBf16 [vocab_size c; hidden_size c];
   Tensor (lit "model.language_model.norm.weight") kBf16 [hidden_size c]]
  ++ mjoin ((fun i => layer_steps c (Z.of_nat i)) <$> seq 0 (Z.to_nat (num_hidden_layers c)))
  ++ [Projection (lit "lm_head") (vocab_size c) (hidden_size c)].

Definition dense_descriptor : option KnownCheckpointDescriptor :=
  find_checkpoint (fun d => model d =? kQwen36_27B) known_checkpoint_catalog.

Definition make_requirements (q : ModelOptSummary) : ManifestDiagnostic + RequirementMap :=
  descriptor ← require dense_descriptor kUnsupportedCheckpoint (lit "checkpoint catalog");
  _ ← match validate_modelopt_quantization q descriptor with
      | [] => inr tt
      | d :: _ => failure kQuantizationMismatch (json_pointer d)
      end;
  c ← require (find_known_model kQwen36_27B) kUnsupportedCheckpoint (lit "model catalog");
  _ ← fail_if (negb (num_hidden_layers c =? 64) || negb (hidden_size c =? 5120) || negb (intermediate_size c =? 17408))
        kUnsupportedCheckpoint (lit "model catalog");
  requirements ← run_steps (quantized_modules q) (requirement_steps c) [];
  _ ← fail_if (negb (Z.of_nat (length requirements) =? kPinnedQwen36_27BTextTensorCount))
        kCountMismatch (lit "generated text ABI");
  inr requirements.

(** ** The tensors found *)

(** [path::is_absolute] on POSIX. *)
Definition is_absolute (path : list Z) : bool := bool_decide (head path = Some slash).

Definition validate_locator_storage (name : list Z) (l : TensorLocator) : ManifestDiagnostic + unit :=
  _ ← fail_if (negb (is_safe_relative_shard_path (shard l))) kUnsafeShardPath name;
  _ ← fail_if (bool_decide (locator_file l = []) || negb (is_absolute (locator_file l))) kUnsafeShardPath name;
  computed ← require (compute_byte_size (locator_dtype l) (locator_shape l)) kArithmeticOverflow name;
  _ ← fail_if (negb (locator_bytes l =? computed)) kByteSizeMismatch name;
  fail_if ((locator_end l <? locator_begin l) || negb (locator_end l - locator_begin l =? locator_bytes l))
    kOffsetMismatch name.

Definition starts_with (prefix name : list Z) : bool := bool_decide (take (length prefix) name = prefix).

Definition classify_tensor (name : list Z) : TensorCategory :=
  if starts_with (lit "model.language_model.") name || starts_with (lit "lm_head.") name then kText
  else if starts_with (lit "model.visual.") name then kVision
  else if starts_with (lit "mtp.") name then kMtp else kUnknown.

Definition with_category (c : TensorCategory) (l : TensorLocator) : TensorLocator := {|
  category := c; shard := shard l; locator_file := locator_file l; locator_begin := locator_begin l;
  locator_end := locator_end l; locator_bytes := locator_bytes l; locator_dtype := locator_dtype l;
  locator_shape := locator_shape l
|}.

(** The number and the bytes of the tensors of each category, and the arena. *)
Record Tally := { text_n : Z; text_b : Z; arena_b : Z; vision_n : Z; vision_b : Z; mtp_n : Z; mtp_b : Z }.

Definition count_tensor (requirements : RequirementMap) (alignment : Z) (name : list Z) (l : TensorLocator) (t : Tally)
    : ManifestDiagnostic + Tally :=
  let bytes := locator_bytes l in
  match classify_tensor name with
  | kText =>
      expected ← require (map_find name requirements) kUnexpectedTextTensor name;
      _ ← fail_if (negb (bool_decide (locator_dtype l = required_dtype expected))) kDTypeMismatch name;
      _ ← fail_if (negb (bool_decide (locator_shape l = required_shape expected))) kShapeMismatch name;
      raw ← require (checked_add (text_b t) bytes) kArithmeticOverflow name;
      allocation ← require (checked_align_up bytes alignment) kArithmeticOverflow name;
      arena ← require (checked_add (arena_b t) allocation) kArithmeticOverflow name;
      inr {| text_n := text_n t + 1; text_b := raw; arena_b := arena; vision_n := vision_n t; vision_b := vision_b t;
             mtp_n := mtp_n t; mtp_b := mtp_b t |}
  | kVision =>
      total ← require (checked_add (vision_b t) bytes) kArithmeticOverflow name;
      inr {| text_n := text_n t; text_b := text_b t; arena_b := arena_b t; vision_n := vision_n t + 1; vision_b := total;
             mtp_n := mtp_n t; mtp_b := mtp_b t |}
  | kMtp =>
      total ← require (checked_add (mtp_b t) bytes) kArithmeticOverflow name;
      inr {| text_n := text_n t; text_b := text_b t; arena_b := arena_b t; vision_n := vision_n t; vision_b := vision_b t;
             mtp_n := mtp_n t + 1; mtp_b := total |}
  | kUnknown => failure kUnknownTensor name
  end.

(** The loop over the tensors: the tally and the shards. *)
Fixpoint count_tensors (requirements : RequirementMap) (alignment : Z) (tensors : list (list Z * TensorLocator))
    (t : Tally) (shards : list (list Z)) : ManifestDiagnostic + (Tally * list (list Z)) :=
  match tensors with
  | [] => inr (t, shards)
  | (name, l) :: tensors =>
      _ ← validate_locator_storage name l;
      t ← count_tensor requirements alignment name l t;
      count_tensors requirements alignment tensors t (set_emplace (shard l) shards)
  end.

Fixpoint check_present (requirements : RequirementMap) (tensors : list (list Z * TensorLocator)) : ManifestDiagnostic + unit :=
  match requirements with
  | [] => inr tt
  | (name, _) :: requirements =>
      if bool_decide (map_find name tensors = None) then failure kMissingTensor name else check_present requirements tensors
  end.

Definition empty_tally : Tally :=
  {| text_n := 0; text_b := 0; arena_b := 0; vision_n := 0; vision_b := 0; mtp_n := 0; mtp_b := 0 |}.

Definition validate_qwen36_27b_text_manifest (tensors : list (list Z * TensorLocator)) (q : ModelOptSummary) (alignment : Z)
    : ManifestDiagnostic + WeightManifest :=
  _ ← fail_if (negb (is_power_of_two alignment)) kInvalidOption (lit "arena_alignment");
  requirements ← make_requirements q;
  '(t, shards) ← count_tensors requirements alignment tensors empty_tally [];
  _ ← check_present requirements tensors;
  _ ← fail_if (negb (text_n t =? Z.of_nat (length requirements))) kCountMismatch (lit "text tensors");
  _ ← fail_if (negb (text_b t =? kPinnedQwen36_27BTextBytes)) kSizeMismatch (lit "text tensors");
  skipped ← require (checked_add (vision_b t) (mtp_b t)) kArithmeticOverflow (lit "skipped tensors");
  inr {|
    manifest_checkpoint := None;
    manifest_summary := {|
      shard_count := Z.of_nat (length shards); manifest_tensor_count := Z.of_nat (length tensors);
      text_tensor_count := text_n t; vision_tensor_count := vision_n t; mtp_tensor_count := mtp_n t;
      fp8_module_count := fp8_count q; nvfp4_module_count := nvfp4_count q; raw_text_bytes := text_b t;
      vision_bytes := vision_b t; mtp_bytes := mtp_b t; skipped_bytes := skipped; arena_alignment := alignment;
      estimated_text_arena_bytes := arena_b t |};
    manifest_tensors := (fun nl => (nl.1, with_category (classify_tensor nl.1) nl.2)) <$> tensors
  |}.

#[local] Arguments lit : simpl never.

(** ** The generated list *)

(** The entries a step adds, over what the quantization table says. *)
Definition step_entries (quantized : Modules) (s : Step) : option RequirementMap :=
  match s with
  | Tensor name dtype shape => Some [(name, {| required_dtype := dtype; required_shape := shape |})]
  | Projection module output_size input_size =>
      match map_find module quantized with
      | Some {| algorithm := kFp8 |} => Some (fp8_entries module output_size input_size)
      | Some {| algorithm := kW4A16Nvfp4; group_size := Some 16 |} =>
          if input_size mod 16 =? 0 then Some (nvfp4_entries module output_size input_size) else None
      | _ => None
      end
  | InvalidLayer _ => None
  end.

Fixpoint all_entries (quantized : Modules) (steps : list Step) : option RequirementMap :=
  match steps with
  | [] => Some []
  | s :: steps => es ← step_entries quantized s; rest ← all_entries quantized steps; Some (es ++ rest)
  end.

(** New names: each once, none in the map. *)
Definition fresh_names (es r : RequirementMap) : Prop := NoDup es.*1 /\ forall name, name ∈ es.*1 -> map_find name r = None.

Lemma fresh_names_app es es' r : fresh_names (es ++ es') r -> fresh_names es r /\ fresh_names es' (emplace_entries es r).
Proof.
  unfold fresh_names. rewrite fmap_app. intros [Hn Hr]. apply NoDup_app in Hn as (Hn & Hd & Hn').
  assert (Hr1 : forall name, name ∈ es.*1 -> map_find name r = None) by (intros ? ?; apply Hr, elem_of_app; by left).
  split; [done|]. split; [done|]. intros name Hname. rewrite find_emplace_entries by done.
  destruct (map_find name es) as [v|] eqn:Hv; [|apply Hr, elem_of_app; by right].
  exfalso. apply (Hd name); [|done]. apply map_find_elem in Hv. apply list_elem_of_fmap. by exists (name, v).
Qed.

Lemma emplace_entries_app {A} (es es' r : list (list Z * A)) : emplace_entries (es ++ es') r = emplace_entries es' (emplace_entries es r).
Proof. apply foldl_app. Qed.

Lemma add_all_fresh es r : fresh_names es r -> forall b, add_all es b r = (b, emplace_entries es r).
Proof.
  revert r. induction es as [|[name [dtype shape]] es IH]; intros r Hf b; [done|]. cbn [add_all required_dtype required_shape].
  unfold add_requirement. rewrite bool_decide_true by (apply Hf; by left). rewrite andb_true_r.
  apply (fresh_names_app [(name, {| required_dtype := dtype; required_shape := shape |})]) in Hf as [_ Hf]. by apply IH.
Qed.

#[local] Arguments add_all : simpl never.

Lemma run_step_entries q s es r : step_entries q s = Some es -> fresh_names es r -> run_step q s r = inr (emplace_entries es r).
Proof.
  destruct s as [name dtype shape|module o i|p]; cbn [step_entries run_step]; [|unfold add_quantized_requirement|done].
  - by intros [= <-] Hf.
  - unfold require, mbind, sum_bind. destruct (map_find module q) as [[[] group]|]; cbn [algorithm group_size]; [| |done].
    + intros [= <-] Hf. by rewrite add_all_fresh.
    + destruct (decide (group = Some 16)) as [->|Hn].
      * destruct (i mod 16 =? 0); [|done]. intros [= <-] Hf. rewrite bool_decide_true by done. cbn [negb orb]. by rewrite add_all_fresh.
      * intros H. exfalso. revert H. clear -Hn. repeat case_match; try done; congruence.
Qed.

Lemma run_steps_entries q steps es r : all_entries q steps = Some es -> fresh_names es r ->
  run_steps q steps r = inr (emplace_entries es r).
Proof.
  revert es r. induction steps as [|s steps IH]; intros es r; simpl; [by intros [= <-]|].
  destruct (step_entries q s) as [es1|] eqn:Hs; [|done]. simpl. destruct (all_entries q steps) as [es2|]; [|done]. simpl.
  intros [= <-] Hf. apply fresh_names_app in Hf as [Hf1 Hf2]. rewrite (run_step_entries _ _ _ _ Hs Hf1). simpl.
  rewrite emplace_entries_app. by apply IH.
Qed.

Lemma run_steps_ext q q' steps r : (forall name, map_find name q = map_find name q') -> run_steps q steps r = run_steps q' steps r.
Proof.
  intros Hq. revert r. induction steps as [|s steps IH]; intros r; [done|]. simpl.
  assert (run_step q s r = run_step q' s r) as ->.
  { destruct s; try done. unfold run_step, add_quantized_requirement. by rewrite Hq. }
  destruct (run_step q' s r); [done|]. apply IH.
Qed.

(** *** The list of Qwen3.6-27B *)

Definition pinned_model : ModelConfig :=
  make_dense_27b kQwen36_27B kQwen36 (lit "Qwen3.6-27B") (lit "Qwen/Qwen3.6-27B").
Definition pinned_modules : Modules := expected_quantized_modules kQwen36_27B.
Definition abi_entries : RequirementMap := default [] (all_entries pinned_modules (requirement_steps pinned_model)).

(** The text tensors the runtime loads, in the order of their names. *)
Definition text_abi : RequirementMap := emplace_entries abi_entries [].

Definition requirement_bytes (r : TensorRequirement) : Z := default 0 (compute_byte_size (required_dtype r) (required_shape r)).

(** A list of names without repetition, checked by sorting it. *)
Definition key_le (a b : list Z) : Prop := key_lt b a = false.
#[local] Instance key_le_dec : RelDecision key_le.
Proof. intros a b. unfold key_le. apply _. Defined.

Fixpoint increasing (l : list (list Z)) : bool :=
  match l with
  | [] => true
  | a :: l => match l with [] => true | b :: _ => key_lt a b && increasing l end
  end.

Lemma increasing_sorted l : increasing l = true -> set_sorted l.
Proof.
  unfold set_sorted. intros H. apply Sorted_StronglySorted; [intros a b c; apply key_lt_trans|].
  induction l as [|a [|b l] IH]; [constructor|repeat constructor|]. cbn [increasing] in H. apply andb_true_iff in H as [Hab H].
  constructor; [by apply IH|by constructor].
Qed.

Lemma sorted_NoDup l : increasing (merge_sort key_le l) = true -> NoDup l.
Proof. intros H%increasing_sorted%set_sorted_NoDup. by rewrite merge_sort_Permutation in H. Qed.

(** What evaluation says of the list: its names differ, belong to the text
    and number 1846; its bytes add up to the pinned total. *)
Definition entry_good (e : list Z * TensorRequirement) : bool :=
  bool_decide (classify_tensor e.1 = kText) && bool_decide (is_Some (compute_byte_size (required_dtype e.2) (required_shape e.2)))
  && (0 <? requirement_bytes e.2).

Definition abi_good (es : RequirementMap) : bool :=
  increasing (merge_sort key_le es.*1) && forallb entry_good es && (Z.of_nat (length es) =? kPinnedQwen36_27BTextTensorCount)
  && (foldr Z.add 0 ((fun e => requirement_bytes e.2) <$> es) =? kPinnedQwen36_27BTextBytes).

Definition some_good (es : option RequirementMap) : bool := match es with None => false | Some es => abi_good es end.

Lemma abi_evaluates : some_good (all_entries pinned_modules (requirement_steps pinned_model)) = true.
Proof. vm_cast_no_check (eq_refl true). Qed.

Record abi_facts (abi : RequirementMap) : Prop := {
  abi_sorted : keys_sorted abi;
  abi_count : Z.of_nat (length abi) = kPinnedQwen36_27BTextTensorCount;
  abi_bytes : foldr Z.add 0 ((fun e => requirement_bytes e.2) <$> abi) = kPinnedQwen36_27BTextBytes;
  abi_text : Forall (fun e => classify_tensor e.1 = kText) abi;
  abi_sizes : Forall (fun e => compute_byte_size (required_dtype e.2) (required_shape e.2) = Some (requirement_bytes e.2) /\
    0 < requirement_bytes e.2) abi
}.

Lemma emplace_entries_perm {A} (es : list (list Z * A)) done_ :
  NoDup es.*1 -> (forall name, name ∈ es.*1 -> map_find name done_ = None) -> emplace_entries es done_ ≡ₚ es ++ done_.
Proof.
  revert done_. induction es as [|[name v] es IH]; intros done_ Hn Hd; [done|]. cbn [emplace_entries foldl fst snd].
  rewrite fmap_cons in Hn, Hd. apply NoDup_cons in Hn as [Hname Hn]. assert (H0 : map_find name done_ = None) by (apply Hd; by left).
  change (emplace_entries es (map_emplace name v done_) ≡ₚ (name, v) :: es ++ done_). rewrite IH; [|done|].
  - rewrite map_emplace_perm by done. by rewrite Permutation_middle.
  - intros name' Hname'. rewrite map_find_emplace by done. rewrite decide_False by (intros ->; done). apply Hd. by right.
Qed.

Lemma sum_perm {A} (f : A -> Z) l l' : l ≡ₚ l' -> foldr Z.add 0 (f <$> l) = foldr Z.add 0 (f <$> l').
Proof. induction 1; rewrite ?fmap_cons; cbn [foldr]; lia. Qed.

Lemma entries_run : all_entries pinned_modules (requirement_steps pinned_model) = Some abi_entries /\ abi_good abi_entries = true.
Proof.
  unfold abi_entries. generalize abi_evaluates. generalize (all_entries pinned_modules (requirement_steps pinned_model)).
  intros [es|] H; [exact (conj eq_refl H)|discriminate H].
Qed.

Lemma good_fresh es : abi_good es = true -> fresh_names es [].
Proof.
  intros H. unfold abi_good in H. do 3 apply andb_true_iff in H as [H _]. split; [by apply sorted_NoDup|done].
Qed.

Lemma good_facts es : abi_good es = true -> abi_facts (emplace_entries es []).
Proof.
  intros H. pose proof (good_fresh es H) as [Hn Hd]. unfold abi_good in H. apply andb_true_iff in H as [H Hsum].
  apply andb_true_iff in H as [H Hlen]. apply andb_true_iff in H as [_ Hall]. apply Z.eqb_eq in Hsum, Hlen.
  rewrite forallb_forall in Hall.
  assert (Hp : emplace_entries es [] ≡ₚ es) by (rewrite emplace_entries_perm by done; by rewrite app_nil_r).
  assert (Hgood : Forall (fun e => classify_tensor e.1 = kText /\
    compute_byte_size (required_dtype e.2) (required_shape e.2) = Some (requirement_bytes e.2) /\ 0 < requirement_bytes e.2)
    (emplace_entries es [])).
  { rewrite Hp. apply Forall_forall. intros e He%list_elem_of_In%Hall. unfold entry_good, requirement_bytes in *.
    rewrite !andb_true_iff, !bool_decide_eq_true in He. destruct He as [[Ht [n Hnb]] Hpos]. rewrite Hnb in *. simpl in *. by bools. }
  split.
  - apply emplace_entries_sorted. constructor.
  - by rewrite Hp.
  - rewrite <- Hsum. by apply sum_perm.
  - eapply Forall_impl; [exact Hgood|]. by intros e (? & _).
  - eapply Forall_impl; [exact Hgood|]. by intros e (_ & ?).
Qed.

Lemma text_abi_facts : abi_facts text_abi.
Proof. exact (good_facts _ (proj2 entries_run)). Qed.

(** *** The requirements of a table *)

Lemma make_requirements_exact q r :
  make_requirements q = inr r <-> table_matches q qwen36_27b_checkpoint /\ r = text_abi.
Proof.
  unfold make_requirements. change dense_descriptor with (Some qwen36_27b_checkpoint). cbn [require].
  change (find_known_model kQwen36_27B) with (Some pinned_model). cbn [require].
  assert (Hrun : table_matches q qwen36_27b_checkpoint ->
    run_steps (quantized_modules q) (requirement_steps pinned_model) [] = inr text_abi).
  { intros [_ _ _ _ Hm]. rewrite (run_steps_ext _ pinned_modules) by exact Hm.
    exact (run_steps_entries _ _ _ _ (proj1 entries_run) (good_fresh _ (proj2 entries_run))). }
  assert (Hlen : negb (Z.of_nat (length text_abi) =? kPinnedQwen36_27BTextTensorCount) = false).
  { destruct text_abi_facts as [_ -> _ _ _]. by rewrite Z.eqb_refl. }
  unfold mbind, sum_bind. cbv beta iota. revert Hrun Hlen. generalize text_abi. intros abi Hrun Hlen. rewrite <- table_exact in Hrun |- *. destruct (validate_modelopt_quantization q qwen36_27b_checkpoint) as [|d l].
  - cbv beta iota. rewrite Hrun by done.
    change (fail_if (negb (num_hidden_layers pinned_model =? 64) || negb (hidden_size pinned_model =? 5120)
      || negb (intermediate_size pinned_model =? 17408)) kUnsupportedCheckpoint (lit "model catalog")) with (@inr ManifestDiagnostic unit tt).
    cbv beta iota. unfold fail_if. rewrite Hlen. cbv beta iota. split; [by intros [= <-]|by intros [_ ->]].
  - split; [done|]. by intros [? _].
Qed.


(** ** Alignment *)

(** The next multiple of the alignment. *)
Definition align_up (alignment bytes : Z) : Z := (bytes + (alignment - 1)) / alignment * alignment.

Lemma power_of_two_exact a : is_u64 a -> is_power_of_two a = true <-> exists k, 0 <= k < 64 /\ a = 2 ^ k.
Proof.
  unfold is_u64, is_power_of_two. intros Ha. rewrite andb_true_iff, negb_true_iff, Z.eqb_neq, Z.eqb_eq. split.
  - intros [Hne Hland]. rewrite u64_small in Hland by (unfold is_u64; lia). exists (Z.log2 a).
    pose proof (Z.log2_spec a ltac:(lia)) as [Hl Hu]. pose proof (Z.log2_nonneg a).
    assert (Hlt : Z.log2 a < 64) by (apply Z.log2_lt_pow2; lia). split; [lia|].
    destruct (Z.eq_dec a (2 ^ Z.log2 a)) as [|Hpow]; [done|]. exfalso.
    assert (Hbit : Z.testbit (Z.land a (a - 1)) (Z.log2 a) = true).
    { rewrite Z.land_spec, Z.bit_log2 by lia. simpl.
      assert (Hlog : Z.log2 (a - 1) = Z.log2 a) by (apply Z.log2_unique; lia). rewrite <- Hlog. apply Z.bit_log2. lia. }
    rewrite Hland, Z.bits_0 in Hbit. done.
  - intros (k & Hk & ->). pose proof (Z.pow_pos_nonneg 2 k ltac:(lia) ltac:(lia)). split; [lia|].
    rewrite u64_small by (unfold is_u64; lia).
    rewrite Z.sub_1_r, <- Z.ones_equiv, Z.land_ones by lia. apply Z.mod_same. lia.
Qed.

Lemma checked_align_up_exact k b n : 0 <= k < 64 -> 0 <= b ->
  checked_align_up b (2 ^ k) = Some n <-> n = align_up (2 ^ k) b /\ b + (2 ^ k - 1) <= u64_max.
Proof.
  intros Hk Hb. pose proof (Z.pow_pos_nonneg 2 k ltac:(lia) ltac:(lia)) as Hp.
  pose proof (Z.pow_lt_mono_r 2 k 64 ltac:(lia) ltac:(lia) ltac:(lia)) as Hlt.
  unfold checked_align_up. rewrite (u64_small (2 ^ k - 1)) by (unfold is_u64; lia). cbv zeta.
  destruct (Z.ltb_spec (u64_max - (2 ^ k - 1)) b) as [Hov|Hok]; [split; [done|]; intros [_ ?]; lia|].
  assert (Hval : Z.land (b + (2 ^ k - 1)) (u64 (Z.lnot (2 ^ k - 1))) = align_up (2 ^ k) b).
  { unfold align_up, u64. set (x := b + (2 ^ k - 1)). assert (Hx : 0 <= x < 2 ^ 64) by (unfold x, u64_max in *; lia).
    rewrite <- Z.land_ones, (Z.land_comm (Z.lnot _)), Z.land_assoc, Z.land_ones, (Z.mod_small x) by lia.
    replace (2 ^ k - 1) with (Z.ones k) by (rewrite Z.ones_equiv; lia). rewrite <- Z.ldiff_land, Z.ldiff_ones_r by lia.
    by rewrite Z.shiftl_mul_pow2, Z.shiftr_div_pow2 by lia. }
  rewrite Hval. split; [intros [= <-]; split; [done|lia]|by intros [-> _]].
Qed.

Lemma align_up_ge a b : 0 < a -> b <= align_up a b < b + a.
Proof.
  intros Ha. unfold align_up. pose proof (Z.div_mod (b + (a - 1)) a ltac:(lia)). pose proof (Z.mod_pos_bound (b + (a - 1)) a Ha). nia.
Qed.

(** An aligned size that fits was computed without overflow. *)
Lemma align_up_fits k b : 0 <= k < 64 -> align_up (2 ^ k) b <= u64_max -> b + (2 ^ k - 1) <= u64_max.
Proof.
  intros Hk Hfit. pose proof (Z.pow_pos_nonneg 2 k ltac:(lia) ltac:(lia)) as Hp. pose proof (align_up_ge (2 ^ k) b Hp) as Hge.
  assert (H64 : 2 ^ 64 = 2 ^ k * 2 ^ (64 - k)) by (rewrite <- Z.pow_add_r by lia; f_equal; lia).
  unfold u64_max in *. assert (align_up (2 ^ k) b <= 2 ^ 64 - 2 ^ k); [|lia].
  unfold align_up in *. set (q := (b + (2 ^ k - 1)) / 2 ^ k) in *.
  assert (q < 2 ^ (64 - k)) by (apply (Z.mul_lt_mono_pos_r (2 ^ k)); lia). rewrite H64. nia.
Qed.

#[local] Arguments align_up : simpl never.

(** ** Locators *)

Record storage_ok (l : TensorLocator) : Prop := {
  storage_safe : is_safe_relative_shard_path (shard l) = true;
  storage_absolute : head (locator_file l) = Some slash;
  storage_bytes : compute_byte_size (locator_dtype l) (locator_shape l) = Some (locator_bytes l);
  storage_range : locator_begin l <= locator_end l /\ locator_end l - locator_begin l = locator_bytes l
}.

Lemma fail_if_exact test c where_ u : fail_if test c where_ = inr u <-> test = false.
Proof. destruct u, test; done. Qed.
Lemma require_exact {A} (o : option A) c where_ a : require o c where_ = inr a <-> o = Some a.
Proof. destruct o; unfold require, failure; split; congruence. Qed.

Lemma storage_exact name l u : validate_locator_storage name l = inr u <-> storage_ok l.
Proof.
  unfold validate_locator_storage, is_absolute. split.
  - intros H. apply sum_bind_inr in H as (? & H1%fail_if_exact & H). apply sum_bind_inr in H as (? & H2%fail_if_exact & H).
    apply sum_bind_inr in H as (n & H3%require_exact & H). apply sum_bind_inr in H as (? & H4%fail_if_exact & H).
    apply fail_if_exact in H. bools. rewrite bool_decide_eq_true in *. split; [done|done|congruence|lia].
  - intros [H1 H2 H3 [H4 H5]]. destruct u. apply sum_bind_inr. exists tt. split; [apply fail_if_exact; by rewrite H1|].
    apply sum_bind_inr. exists tt. split.
    { apply fail_if_exact. rewrite H2, (bool_decide_true (Some slash = Some slash)) by done.
      rewrite bool_decide_false; [done|]. intros He. by rewrite He in H2. }
    apply sum_bind_inr. exists (locator_bytes l). split; [by apply require_exact|].
    apply sum_bind_inr. exists tt. split; [apply fail_if_exact; by rewrite Z.eqb_refl|].
    apply fail_if_exact. rewrite H5, Z.eqb_refl. by rewrite (proj2 (Z.ltb_ge _ _)).
Qed.

(** ** Counting *)

Definition Locators : Type := list (list Z * TensorLocator).

Definition required_of (l : TensorLocator) : TensorRequirement :=
  {| required_dtype := locator_dtype l; required_shape := locator_shape l |}.

Definition tally_one (alignment : Z) (nl : list Z * TensorLocator) : Tally :=
  let bytes := locator_bytes nl.2 in
  match classify_tensor nl.1 with
  | kText => {| text_n := 1; text_b := bytes; arena_b := align_up alignment bytes; vision_n := 0; vision_b := 0; mtp_n := 0; mtp_b := 0 |}
  | kVision => {| text_n := 0; text_b := 0; arena_b := 0; vision_n := 1; vision_b := bytes; mtp_n := 0; mtp_b := 0 |}
  | kMtp => {| text_n := 0; text_b := 0; arena_b := 0; vision_n := 0; vision_b := 0; mtp_n := 1; mtp_b := bytes |}
  | kUnknown => empty_tally
  end.

Definition tally_add (a b : Tally) : Tally := {|
  text_n := text_n a + text_n b; text_b := text_b a + text_b b; arena_b := arena_b a + arena_b b;
  vision_n := vision_n a + vision_n b; vision_b := vision_b a + vision_b b; mtp_n := mtp_n a + mtp_n b; mtp_b := mtp_b a + mtp_b b
|}.

Definition tally (alignment : Z) (tensors : Locators) : Tally :=
  foldr (fun nl t => tally_add (tally_one alignment nl) t) empty_tally tensors.

(** The sums fit in 64 bits. *)
Definition fits (t : Tally) : Prop := Forall is_u64 [text_b t; arena_b t; vision_b t; mtp_b t].

Definition accepted (requirements : RequirementMap) (nl : list Z * TensorLocator) : Prop :=
  match classify_tensor nl.1 with
  | kText => map_find nl.1 requirements = Some (required_of nl.2)
  | kUnknown => False
  | _ => True
  end.

Lemma tally_add_assoc a b c : tally_add a (tally_add b c) = tally_add (tally_add a b) c.
Proof. unfold tally_add. simpl. f_equal; lia. Qed.
Lemma tally_add_empty a : tally_add a empty_tally = a.
Proof. destruct a. unfold tally_add. simpl. f_equal; lia. Qed.

Lemma requirement_eq r l : locator_dtype l = required_dtype r /\ locator_shape l = required_shape r <-> r = required_of l.
Proof. destruct r. unfold required_of. simpl. split; [by intros [<- <-]|by intros [= -> ->]]. Qed.

Lemma count_tensor_exact requirements k name l t t' : 0 <= k < 64 -> is_u64 (locator_bytes l) -> fits t ->
  count_tensor requirements (2 ^ k) name l t = inr t' <->
  accepted requirements (name, l) /\ t' = tally_add t (tally_one (2 ^ k) (name, l)) /\ fits t'.
Proof.
  intros Hk Hb Hfit. pose proof Hfit as Ht. unfold fits in Ht. rewrite !Forall_cons in Ht. destruct Ht as (Htb & Hta & Htv & Htm & _).
  pose proof (align_up_ge (2 ^ k) (locator_bytes l) (Z.pow_pos_nonneg 2 k ltac:(lia) ltac:(lia))) as Hal.
  unfold count_tensor, accepted, tally_one, tally_add. cbn [fst snd]. cbv zeta. destruct (classify_tensor name); cbn.
  - split.
    + intros H. apply sum_bind_inr in H as (r & Hr%require_exact & H). apply sum_bind_inr in H as (? & Hd%fail_if_exact & H).
      apply sum_bind_inr in H as (? & Hs%fail_if_exact & H). apply sum_bind_inr in H as (raw & Hraw%require_exact & H).
      apply sum_bind_inr in H as (al & Hal'%require_exact & H). apply sum_bind_inr in H as (ar & Har%require_exact & H).
      injection H as <-. apply negb_false_iff, bool_decide_eq_true in Hd, Hs.
      apply checked_align_up_exact in Hal' as [-> Hov]; [|done|unfold is_u64 in *; lia].
      apply checked_add_Some in Hraw as [-> Hraw]; [|done|done].
      apply checked_add_Some in Har as [-> Har]; [|done|unfold is_u64, u64_max in *; lia].
      rewrite (proj1 (requirement_eq r l) (conj Hd Hs)) in Hr. split; [done|]. split; [f_equal; lia|].
      unfold fits. rewrite !Forall_cons. cbn. unfold is_u64, u64_max in *. split_and!; try lia; done.
    + intros (Hr & -> & Hf). unfold fits in Hf. rewrite !Forall_cons in Hf. cbn [text_b arena_b vision_b mtp_b] in Hf. destruct Hf as (Hf1 & Hf2 & _).
      unfold is_u64, u64_max in *. rewrite Hr. cbn [require]. unfold mbind, sum_bind. cbn [required_dtype required_shape required_of].
      rewrite !bool_decide_true by done. cbn [negb fail_if].
      rewrite (proj2 (checked_add_Some _ _ (text_b t + locator_bytes l) Htb Hb)) by (unfold u64_max; lia). cbn [require].
      rewrite (proj2 (checked_align_up_exact k (locator_bytes l) _ Hk ltac:(lia)))
        by (split; [reflexivity|]; apply align_up_fits; [done|unfold u64_max; lia]). cbn [require].
      rewrite (proj2 (checked_add_Some (arena_b t) (align_up (2 ^ k) (locator_bytes l)) (arena_b t + align_up (2 ^ k) (locator_bytes l)) Hta ltac:(unfold is_u64; lia)))
        by (unfold u64_max; lia). cbn [require]. by rewrite !Z.add_0_r.
  - split.
    + intros H. apply sum_bind_inr in H as (raw & Hraw%require_exact & H). injection H as <-.
      apply checked_add_Some in Hraw as [-> Hraw]; [|done|done]. split; [done|]. split; [f_equal; lia|].
      unfold fits. rewrite !Forall_cons. cbn. unfold is_u64, u64_max in *. split_and!; try lia; done.
    + intros (_ & -> & Hf). unfold fits in Hf. rewrite !Forall_cons in Hf. cbn [text_b arena_b vision_b mtp_b] in Hf. destruct Hf as (_ & _ & Hf & _).
      rewrite (proj2 (checked_add_Some _ _ (vision_b t + locator_bytes l) Htv Hb)) by (unfold is_u64, u64_max in *; lia).
      cbn. by rewrite !Z.add_0_r.
  - split.
    + intros H. apply sum_bind_inr in H as (raw & Hraw%require_exact & H). injection H as <-.
      apply checked_add_Some in Hraw as [-> Hraw]; [|done|done]. split; [done|]. split; [f_equal; lia|].
      unfold fits. rewrite !Forall_cons. cbn. unfold is_u64, u64_max in *. split_and!; try lia; done.
    + intros (_ & -> & Hf). unfold fits in Hf. rewrite !Forall_cons in Hf. cbn [text_b arena_b vision_b mtp_b] in Hf. destruct Hf as (_ & _ & _ & Hf & _).
      rewrite (proj2 (checked_add_Some _ _ (mtp_b t + locator_bytes l) Htm Hb)) by (unfold is_u64, u64_max in *; lia).
      cbn. by rewrite !Z.add_0_r.
  - split; [done|]. by intros [? _].
Qed.

Definition typed (l : TensorLocator) : Prop := is_u64 (locator_begin l) /\ is_u64 (locator_end l) /\ is_u64 (locator_bytes l).

Lemma fits_mono a b : Forall (fun n => 0 <= n) [text_b b; arena_b b; vision_b b; mtp_b b] ->
  Forall (fun n => 0 <= n) [text_b a; arena_b a; vision_b a; mtp_b a] -> fits (tally_add a b) -> fits a.
Proof.
  unfold fits. rewrite !Forall_cons. cbn [text_b arena_b vision_b mtp_b tally_add]. unfold is_u64.
  intros (? & ? & ? & ? & _) (? & ? & ? & ? & _) (? & ? & ? & ? & _). split_and!; try lia. done.
Qed.

Lemma tally_one_nonneg a nl : 0 < a -> typed nl.2 ->
  Forall (fun n => 0 <= n) [text_b (tally_one a nl); arena_b (tally_one a nl); vision_b (tally_one a nl); mtp_b (tally_one a nl)].
Proof.
  intros Ha (_ & _ & Hb). pose proof (align_up_ge a (locator_bytes nl.2) Ha). unfold tally_one, is_u64 in *. cbv zeta.
  destruct (classify_tensor nl.1); rewrite !Forall_cons; cbn; split_and!; try lia; done.
Qed.

Lemma tally_nonneg a tensors : 0 < a -> Forall (fun nl => typed nl.2) tensors ->
  Forall (fun n => 0 <= n) [text_b (tally a tensors); arena_b (tally a tensors); vision_b (tally a tensors); mtp_b (tally a tensors)].
Proof.
  intros Ha. induction 1 as [|nl tensors Hnl _ IH]; [by repeat constructor|]. pose proof (tally_one_nonneg a nl Ha Hnl) as H1.
  cbn [tally foldr]. fold (tally a tensors). rewrite !Forall_cons in H1, IH |- *. cbn [text_b arena_b vision_b mtp_b tally_add].
  destruct H1 as (? & ? & ? & ? & _), IH as (? & ? & ? & ? & _). split_and!; try lia. done.
Qed.

Lemma fits_nonneg t : fits t -> Forall (fun n => 0 <= n) [text_b t; arena_b t; vision_b t; mtp_b t].
Proof. unfold fits, is_u64. intros H. eapply Forall_impl; [exact H|]. simpl. lia. Qed.

Lemma count_tensors_exact requirements k tensors t shards t' shards' :
  0 <= k < 64 -> Forall (fun nl => typed nl.2) tensors -> fits t ->
  count_tensors requirements (2 ^ k) tensors t shards = inr (t', shards') <->
  Forall (fun nl => storage_ok nl.2 /\ accepted requirements nl) tensors /\
  t' = tally_add t (tally (2 ^ k) tensors) /\ fits t' /\ shards' = emplace_all ((fun nl => shard nl.2) <$> tensors) shards.
Proof.
  intros Hk. pose proof (Z.pow_pos_nonneg 2 k ltac:(lia) ltac:(lia)) as Hp. revert t shards t' shards'.
  induction tensors as [|[name l] tensors IH]; intros t shards t' shards' Hty Hfit.
  { cbn. rewrite tally_add_empty. split; [by intros [= <- <-]|by intros (_ & -> & _ & ->)]. }
  apply Forall_cons in Hty as [Hl Hty]. rewrite Forall_cons. cbn [count_tensors tally foldr]. fold (tally (2 ^ k) tensors).
  rewrite fmap_cons. cbn [emplace_all foldl snd]. split.
  - intros H. apply sum_bind_inr in H as (? & Hs%storage_exact & H). apply sum_bind_inr in H as (t1 & Hc & H).
    apply count_tensor_exact in Hc as (Hacc & -> & Hfit1); [|done|apply Hl|done].
    apply IH in H as (Hall & -> & Hfit2 & ->); [|done|done]. rewrite tally_add_assoc. done.
  - intros ([[Hs Hacc] Hall] & -> & Hfit2 & ->). rewrite tally_add_assoc in Hfit2 |- *.
    assert (Hfit1 : fits (tally_add t (tally_one (2 ^ k) (name, l)))).
    { apply fits_mono in Hfit2; [done|by apply tally_nonneg|]. pose proof (fits_nonneg t Hfit) as H1.
      pose proof (tally_one_nonneg (2 ^ k) (name, l) Hp Hl) as H2. rewrite !Forall_cons in H1, H2 |- *.
      cbn [text_b arena_b vision_b mtp_b tally_add]. destruct H1 as (? & ? & ? & ? & _), H2 as (? & ? & ? & ? & _). split_and!; try lia. done. }
    apply sum_bind_inr. exists tt. split; [by apply storage_exact|]. apply sum_bind_inr.
    exists (tally_add t (tally_one (2 ^ k) (name, l))). split; [apply count_tensor_exact; [done|apply Hl|done|done]|].
    by apply IH.
Qed.

Lemma check_present_exact requirements tensors u :
  check_present requirements tensors = inr u <-> forall name, name ∈ requirements.*1 -> map_find name tensors <> None.
Proof.
  destruct u. induction requirements as [|[name r] requirements IH]; cbn [check_present].
  { split; [by intros _ name ?%not_elem_of_nil|done]. }
  rewrite fmap_cons. setoid_rewrite elem_of_cons. case_bool_decide as Hf.
  - split; [done|]. intros H. exfalso. apply (H name); [by left|done].
  - rewrite IH. split.
    + intros H name' [->|Hin]; [done|by apply H].
    + intros H name' Hin. apply H. by right.
Qed.

(** ** The text tensors *)

Definition text_tensors (tensors : Locators) : RequirementMap :=
  (fun nl => (nl.1, required_of nl.2)) <$> List.filter (fun nl => bool_decide (classify_tensor nl.1 = kText)) tensors.

Definition arena_of (alignment : Z) (requirements : RequirementMap) : Z :=
  foldr Z.add 0 ((fun e => align_up alignment (requirement_bytes e.2)) <$> requirements).

(** The number and the bytes of the tensors of a category that is skipped. *)
Definition skipped_tensors (c : TensorCategory) (tensors : Locators) : Locators :=
  List.filter (fun nl => bool_decide (classify_tensor nl.1 = c)) tensors.
Definition bytes_of (tensors : Locators) : Z := foldr Z.add 0 ((fun nl => locator_bytes nl.2) <$> tensors).

Lemma tally_categories a tensors : Forall (fun nl => storage_ok nl.2) tensors ->
  tally a tensors = {|
    text_n := Z.of_nat (length (text_tensors tensors));
    text_b := foldr Z.add 0 ((fun e => requirement_bytes e.2) <$> text_tensors tensors);
    arena_b := arena_of a (text_tensors tensors);
    vision_n := Z.of_nat (length (skipped_tensors kVision tensors)); vision_b := bytes_of (skipped_tensors kVision tensors);
    mtp_n := Z.of_nat (length (skipped_tensors kMtp tensors)); mtp_b := bytes_of (skipped_tensors kMtp tensors) |}.
Proof.
  induction 1 as [|[name l] tensors Hl _ IH]; [done|]. cbn [tally foldr]. fold (tally a tensors). rewrite IH. clear IH.
  assert (Hr : requirement_bytes (required_of l) = locator_bytes l).
  { unfold requirement_bytes, required_of. cbn [required_dtype required_shape]. simpl in Hl. by rewrite (storage_bytes l Hl). }
  unfold text_tensors, skipped_tensors, tally_one, tally_add, arena_of, bytes_of. cbn [List.filter fst snd].
  destruct (classify_tensor name); repeat (case_bool_decide; try done);
    rewrite ?fmap_cons; cbn [foldr length fst snd text_n text_b arena_b vision_n vision_b mtp_n mtp_b empty_tally]; rewrite ?Hr;
    f_equal; lia.
Qed.

Lemma text_tensors_elem tensors name r : keys_sorted tensors ->
  (name, r) ∈ text_tensors tensors <-> classify_tensor name = kText /\ (required_of <$> map_find name tensors) = Some r.
Proof.
  intros Hs. unfold text_tensors. rewrite list_elem_of_fmap. split.
  - intros ([name' l] & [= -> ->] & Hin%list_elem_of_In%filter_In). destruct Hin as [Hin Hc].
    apply bool_decide_eq_true in Hc. apply list_elem_of_In, elem_map_find in Hin; [|done]. simpl in *. by rewrite Hin.
  - intros [Hc Hf]. destruct (map_find name tensors) as [l|] eqn:Hl; [|done]. injection Hf as <-. exists (name, l). split; [done|].
    apply list_elem_of_In, filter_In. split; [by apply list_elem_of_In, map_find_elem|by apply bool_decide_eq_true].
Qed.

Lemma text_tensors_NoDup tensors : keys_sorted tensors -> NoDup (text_tensors tensors).*1.
Proof.
  unfold text_tensors. intros Hs%keys_sorted_NoDup. rewrite <- list_fmap_compose. unfold compose. simpl.
  induction tensors as [|nl tensors IH]; [constructor|]. rewrite fmap_cons in Hs. apply NoDup_cons in Hs as [Hn Hs].
  cbn [List.filter]. case_match; [|by apply IH]. rewrite fmap_cons. constructor; [|by apply IH].
  intros (nl' & Heq & Hin%list_elem_of_In%filter_In)%list_elem_of_fmap. apply Hn, list_elem_of_fmap. exists nl'.
  split; [done|]. by apply list_elem_of_In, Hin.
Qed.

(** A table with the right text tensors has them all, in some order. *)
Lemma text_tensors_perm tensors abi : keys_sorted tensors -> keys_sorted abi -> Forall (fun e => classify_tensor e.1 = kText) abi ->
  text_tensors tensors ≡ₚ abi <->
  forall name, classify_tensor name = kText -> (required_of <$> map_find name tensors) = map_find name abi.
Proof.
  intros Hs Ha Ht. rewrite Forall_forall in Ht. split.
  - intros Hp name Hname. destruct (map_find name abi) as [r|] eqn:Hr.
    + apply map_find_elem in Hr. rewrite <- Hp in Hr. by apply text_tensors_elem in Hr as [_ ?].
    + destruct (required_of <$> map_find name tensors) as [r|] eqn:Hf; [|done].
      assert (Hin : (name, r) ∈ text_tensors tensors) by by apply text_tensors_elem. rewrite Hp in Hin.
      apply elem_map_find in Hin; [congruence|done].
  - intros Hall. apply NoDup_Permutation.
    + eapply NoDup_fmap_1, text_tensors_NoDup, Hs.
    + eapply NoDup_fmap_1, keys_sorted_NoDup, Ha.
    + intros [name r]. rewrite text_tensors_elem by done. split.
      * intros [Hc Hf]. rewrite Hall in Hf by done. by apply map_find_elem.
      * intros Hin. pose proof (Ht _ Hin) as Hc. split; [done|]. rewrite Hall by done. by apply elem_map_find.
Qed.

(** ** Accepted tables, over the list of the text tensors *)

Record manifest_accepts (abi : RequirementMap) (tensors : Locators) (q : ModelOptSummary) (alignment : Z) : Prop := {
  accepts_alignment : exists k, 0 <= k < 64 /\ alignment = 2 ^ k;
  accepts_table : table_matches q qwen36_27b_checkpoint;
  accepts_storage : Forall (fun nl => storage_ok nl.2) tensors;
  accepts_known : Forall (fun nl => classify_tensor nl.1 <> kUnknown) tensors;
  accepts_text : forall name, classify_tensor name = kText -> (required_of <$> map_find name tensors) = map_find name abi;
  accepts_arena : arena_of alignment abi <= u64_max;
  accepts_skipped : bytes_of (skipped_tensors kVision tensors) + bytes_of (skipped_tensors kMtp tensors) <= u64_max
}.

Definition manifest_of (abi : RequirementMap) (tensors : Locators) (q : ModelOptSummary) (alignment : Z) : WeightManifest := {|
  manifest_checkpoint := None;
  manifest_summary := {|
    shard_count := Z.of_nat (length (emplace_all ((fun nl => shard nl.2) <$> tensors) []));
    manifest_tensor_count := Z.of_nat (length tensors);
    text_tensor_count := kPinnedQwen36_27BTextTensorCount;
    vision_tensor_count := Z.of_nat (length (skipped_tensors kVision tensors));
    mtp_tensor_count := Z.of_nat (length (skipped_tensors kMtp tensors));
    fp8_module_count := fp8_count q; nvfp4_module_count := nvfp4_count q;
    raw_text_bytes := kPinnedQwen36_27BTextBytes;
    vision_bytes := bytes_of (skipped_tensors kVision tensors); mtp_bytes := bytes_of (skipped_tensors kMtp tensors);
    skipped_bytes := bytes_of (skipped_tensors kVision tensors) + bytes_of (skipped_tensors kMtp tensors);
    arena_alignment := alignment; estimated_text_arena_bytes := arena_of alignment abi |};
  manifest_tensors := (fun nl => (nl.1, with_category (classify_tensor nl.1) nl.2)) <$> tensors
|}.

Lemma bytes_of_nonneg tensors c : Forall (fun nl => typed nl.2) tensors -> 0 <= bytes_of (skipped_tensors c tensors).
Proof.
  unfold bytes_of, skipped_tensors. induction 1 as [|nl tensors (_ & _ & Hb) _ IH]; [done|]. cbn [List.filter].
  case_match; [|done]. rewrite fmap_cons. cbn [foldr]. unfold is_u64 in Hb. lia.
Qed.

Lemma arena_nonneg a abi : 0 < a -> Forall (fun e => 0 < requirement_bytes e.2) abi -> 0 <= arena_of a abi.
Proof.
  intros Ha. unfold arena_of. induction 1 as [|e abi He _ IH]; [done|]. rewrite fmap_cons. cbn [foldr].
  pose proof (align_up_ge a (requirement_bytes e.2) Ha). lia.
Qed.

Lemma accepted_text tensors abi : keys_sorted tensors -> keys_sorted abi -> Forall (fun e => classify_tensor e.1 = kText) abi ->
  Forall (accepted abi) tensors /\ (forall name, name ∈ abi.*1 -> map_find name tensors <> None) <->
  Forall (fun nl => classify_tensor nl.1 <> kUnknown) tensors /\
  (forall name, classify_tensor name = kText -> (required_of <$> map_find name tensors) = map_find name abi).
Proof.
  intros Hs Ha Ht. rewrite !Forall_forall in *. split.
  - intros [Hacc Hpres]. split.
    + intros nl Hnl Hu. specialize (Hacc nl Hnl). unfold accepted in Hacc. by rewrite Hu in Hacc.
    + intros name Hname. destruct (map_find name tensors) as [l|] eqn:Hl.
      * apply map_find_elem in Hl. specialize (Hacc _ Hl). unfold accepted in Hacc. simpl in Hacc. by rewrite Hname in Hacc.
      * destruct (map_find name abi) as [r|] eqn:Hr; [|done]. exfalso. apply (Hpres name); [|done].
        apply map_find_elem in Hr. apply list_elem_of_fmap. by exists (name, r).
  - intros [Hknown Htext]. split.
    + intros [name l] Hnl. unfold accepted. specialize (Hknown _ Hnl). simpl in *. destruct (classify_tensor name) eqn:Hc; try done.
      rewrite <- Htext by done. by rewrite (elem_map_find name l tensors Hs Hnl).
    + intros name ([name' r] & -> & Hin)%list_elem_of_fmap Hnone. pose proof (Ht _ Hin) as Hc. apply elem_map_find in Hin; [|done].
      simpl in *. rewrite <- Htext, Hnone in Hin by done. done.
Qed.

Lemma fits_empty : fits empty_tally.
Proof. repeat (apply Forall_cons; split; [unfold is_u64; cbn; lia|]). by apply Forall_nil. Qed.

(** What the loop and the checks after it come to, over any list of text tensors with the pinned total. *)
Lemma loop_exact abi k tensors t shards :
  0 <= k < 64 -> abi_facts abi -> keys_sorted tensors -> Forall (fun nl => typed nl.2) tensors ->
  (exists u, count_tensors abi (2 ^ k) tensors empty_tally [] = inr (t, shards) /\ check_present abi tensors = inr u) <->
  Forall (fun nl => storage_ok nl.2) tensors /\ Forall (fun nl => classify_tensor nl.1 <> kUnknown) tensors /\
  (forall name, classify_tensor name = kText -> (required_of <$> map_find name tensors) = map_find name abi) /\
  t = {| text_n := kPinnedQwen36_27BTextTensorCount; text_b := kPinnedQwen36_27BTextBytes; arena_b := arena_of (2 ^ k) abi;
         vision_n := Z.of_nat (length (skipped_tensors kVision tensors)); vision_b := bytes_of (skipped_tensors kVision tensors);
         mtp_n := Z.of_nat (length (skipped_tensors kMtp tensors)); mtp_b := bytes_of (skipped_tensors kMtp tensors) |} /\
  arena_of (2 ^ k) abi <= u64_max /\ bytes_of (skipped_tensors kVision tensors) <= u64_max /\
  bytes_of (skipped_tensors kMtp tensors) <= u64_max /\ shards = emplace_all ((fun nl => shard nl.2) <$> tensors) [].
Proof.
  intros Hk [Ha Hlen Hbytes Htext Hsizes] Hs Hty.
  assert (Hadd : forall x, tally_add empty_tally x = x) by (intros []; done).
  assert (Hcount := count_tensors_exact abi k tensors empty_tally [] t shards Hk Hty fits_empty).
  rewrite Hadd in Hcount. pose proof (accepted_text tensors abi Hs Ha Htext) as Hacc.
  pose proof (bytes_of_nonneg tensors kVision Hty) as Hv0. pose proof (bytes_of_nonneg tensors kMtp Hty) as Hm0.
  assert (Ha0 : 0 <= arena_of (2 ^ k) abi).
  { apply arena_nonneg; [apply Z.pow_pos_nonneg; lia|]. eapply Forall_impl; [exact Hsizes|]. by intros e [_ ?]. }
  assert (Htally : Forall (fun nl => storage_ok nl.2) tensors ->
    (forall name, classify_tensor name = kText -> (required_of <$> map_find name tensors) = map_find name abi) ->
    tally (2 ^ k) tensors = {| text_n := kPinnedQwen36_27BTextTensorCount; text_b := kPinnedQwen36_27BTextBytes;
      arena_b := arena_of (2 ^ k) abi; vision_n := Z.of_nat (length (skipped_tensors kVision tensors));
      vision_b := bytes_of (skipped_tensors kVision tensors); mtp_n := Z.of_nat (length (skipped_tensors kMtp tensors));
      mtp_b := bytes_of (skipped_tensors kMtp tensors) |}).
  { intros Hst Hall. rewrite tally_categories by done. apply text_tensors_perm in Hall as Hp; [|done..].
    rewrite <- Hlen, <- Hbytes. unfold arena_of. f_equal; [by rewrite Hp|by apply sum_perm|by apply sum_perm]. }
  split.
  - intros (u & Hc & Hp). apply Hcount in Hc as (Hall & -> & Hfit & ->). pose proof (proj1 (check_present_exact _ _ _) Hp) as Hp'. clear Hp. rename Hp' into Hp.
    apply Forall_and in Hall as [Hst Hac]. destruct (proj1 Hacc (conj Hac Hp)) as [Hknown Hall]. rewrite (Htally Hst Hall) in Hfit |- *.
    unfold fits, is_u64 in Hfit. rewrite !Forall_cons in Hfit. cbn [text_b arena_b vision_b mtp_b] in Hfit. unfold u64_max.
    destruct Hfit as (_ & ? & ? & ? & _). split_and!; try done; lia.
  - intros (Hst & Hknown & Hall & -> & Hfa & Hfv & Hfm & ->). destruct (proj2 Hacc (conj Hknown Hall)) as [Hac Hp].
    exists tt. split; [|by apply check_present_exact]. apply Hcount. split; [by apply Forall_and|].
    split; [symmetry; by apply Htally|]. split; [|done]. unfold fits, is_u64, u64_max in *. rewrite !Forall_cons.
    cbn [text_b arena_b vision_b mtp_b]. unfold kPinnedQwen36_27BTextBytes. split_and!; try lia; done.
Qed.

Lemma validate_exact abi tensors q alignment m :
  abi_facts abi -> (forall r, make_requirements q = inr r <-> table_matches q qwen36_27b_checkpoint /\ r = abi) ->
  keys_sorted tensors -> Forall (fun nl => typed nl.2) tensors -> is_u64 alignment ->
  validate_qwen36_27b_text_manifest tensors q alignment = inr m <->
  manifest_accepts abi tensors q alignment /\ m = manifest_of abi tensors q alignment.
Proof.
  intros Habi Hmake Hs Hty Hal. unfold validate_qwen36_27b_text_manifest.
  pose proof (bytes_of_nonneg tensors kVision Hty) as Hv0. pose proof (bytes_of_nonneg tensors kMtp Hty) as Hm0. split.
  - intros H. apply sum_bind_inr in H as (? & Hpow%fail_if_exact & H). apply negb_false_iff, power_of_two_exact in Hpow; [|exact Hal].
    destruct Hpow as (k & Hk & ->). apply sum_bind_inr in H as (abi' & Hreq & H).
    apply (proj1 (Hmake _)) in Hreq as [Htable ->]. apply sum_bind_inr in H as ([t shards] & Hc & H). cbv beta iota in H.
    apply sum_bind_inr in H as (u & Hp & H).
    destruct (proj1 (loop_exact abi k tensors t shards Hk Habi Hs Hty) (ex_intro _ u (conj Hc Hp)))
      as (Hst & Hknown & Htext & -> & Hfa & Hfv & Hfm & ->).
    apply sum_bind_inr in H as (? & _ & H). apply sum_bind_inr in H as (? & _ & H).
    apply sum_bind_inr in H as (skipped & Hskip%require_exact & H). cbn [vision_b mtp_b] in Hskip.
    apply checked_add_Some in Hskip as [-> Hskip]; [|unfold is_u64, u64_max in *; lia..].
    injection H as <-. split; [|reflexivity]. split; try assumption. by exists k.
  - intros [[(k & Hk & ->) Htable Hst Hknown Htext Hfa Hskip] ->].
    apply sum_bind_inr. exists tt. split; [apply fail_if_exact, negb_false_iff, power_of_two_exact; [exact Hal|by exists k]|].
    apply sum_bind_inr. exists abi. split; [by apply Hmake|].
    assert (Hfv : bytes_of (skipped_tensors kVision tensors) <= u64_max) by lia.
    assert (Hfm : bytes_of (skipped_tensors kMtp tensors) <= u64_max) by lia.
    destruct (proj2 (loop_exact abi k tensors _ _ Hk Habi Hs Hty)
      (conj Hst (conj Hknown (conj Htext (conj eq_refl (conj Hfa (conj Hfv (conj Hfm eq_refl)))))))) as (u & Hc & Hp).
    apply sum_bind_inr. eexists (_, _). split; [exact Hc|]. cbv beta iota. apply sum_bind_inr. exists u. split; [exact Hp|].
    apply sum_bind_inr. exists tt. split; [apply fail_if_exact; cbn [text_n]; by rewrite (abi_count _ Habi)|].
    apply sum_bind_inr. exists tt. split; [reflexivity|]. cbn [vision_b mtp_b].
    apply sum_bind_inr. exists (bytes_of (skipped_tensors kVision tensors) + bytes_of (skipped_tensors kMtp tensors)).
    split; [|reflexivity]. apply require_exact, checked_add_Some; [unfold is_u64, u64_max in *; lia..|done].
Qed.

(** C31. Over a table of locators in the order of their names, the check
    accepts exactly the tables whose text tensors are the 1846 generated ones
    with their types and shapes, none missing and none more, whose locators
    agree with their files' ranges, and in which every other tensor is a vision
    or draft tensor.  The totals are exact: the counts and the pinned number of
    bytes then hold by themselves, and the arena is the sum of the aligned
    sizes. *)
Theorem manifest_exact tensors q alignment m :
  keys_sorted tensors -> Forall (fun nl => typed nl.2) tensors -> is_u64 alignment ->
  validate_qwen36_27b_text_manifest tensors q alignment = inr m <->
  manifest_accepts text_abi tensors q alignment /\ m = manifest_of text_abi tensors q alignment.
Proof. exact (validate_exact text_abi tensors q alignment m text_abi_facts (make_requirements_exact q)). Qed.

(** *** A table that is accepted *)

Definition sample_locator (r : TensorRequirement) : TensorLocator := {|
  category := kUnknown; shard := lit "model.safetensors"; locator_file := lit "/m/model.safetensors"; locator_begin := 0;
  locator_end := requirement_bytes r; locator_bytes := requirement_bytes r; locator_dtype := required_dtype r;
  locator_shape := required_shape r
|}.

Definition sample_tensors : Locators := (fun e => (e.1, sample_locator e.2)) <$> text_abi.

Definition sample_table : ModelOptSummary := {|
  producer_name := lit "modelopt"; producer_version := lit "0.45.0"; quantization_algorithm := lit "MIXED_PRECISION";
  kv_cache_quantization_algorithm := lit "FP8"; exclude_modules := [lit "mtp*"; lit "mtp.layers.0*"];
  quantized_modules := pinned_modules; fp8_count := 208; nvfp4_count := 193
|}.

Lemma sample_table_matches : table_matches sample_table qwen36_27b_checkpoint.
Proof. split; [split; reflexivity|split; reflexivity|reflexivity| split; reflexivity | intros name; reflexivity]. Qed.

Lemma map_find_fmap {A B} (f : A -> B) (l : list (list Z * A)) key :
  map_find key ((fun e => (e.1, f e.2)) <$> l) = f <$> map_find key l.
Proof. induction l as [|[k v] l IH]; [done|]. rewrite fmap_cons. cbn [map_find fst snd]. by case_bool_decide. Qed.

Lemma total_nonneg l : Forall (fun e => 0 < requirement_bytes e.2) l ->
  Forall (fun e => requirement_bytes e.2 <= foldr Z.add 0 ((fun e => requirement_bytes e.2) <$> l)) (l : RequirementMap) /\
  0 <= foldr Z.add 0 ((fun e => requirement_bytes e.2) <$> l).
Proof.
  induction 1 as [|e l He _ [IH Hn]]; [split; [constructor|done]|]. rewrite fmap_cons. cbn [foldr]. split; [|lia].
  constructor; [lia|]. eapply Forall_impl; [exact IH|]. simpl. lia.
Qed.

(** The table of the locators of a list of requirements. *)
Lemma sample_good abi : abi_facts abi -> let tensors := (fun e => (e.1, sample_locator e.2)) <$> abi in
  keys_sorted tensors /\ Forall (fun nl => typed nl.2) tensors /\ Forall (fun nl => storage_ok nl.2) tensors /\
  Forall (fun nl => classify_tensor nl.1 = kText) tensors /\
  (forall name, (required_of <$> map_find name tensors) = map_find name abi) /\
  arena_of 256 abi <= kPinnedQwen36_27BTextBytes + 256 * kPinnedQwen36_27BTextTensorCount.
Proof.
  intros [Hs Hlen Hbytes Ht Hsizes]. cbv zeta.
  assert (Hpos : Forall (fun e => 0 < requirement_bytes e.2) abi) by (eapply Forall_impl; [exact Hsizes|]; by intros e [_ ?]).
  destruct (total_nonneg abi Hpos) as [Hle _]. rewrite Hbytes in Hle. unfold kPinnedQwen36_27BTextBytes in *. split_and!.
  - apply keys_sorted_keys. rewrite <- list_fmap_compose. by apply keys_sorted_keys in Hs.
  - apply Forall_fmap. eapply Forall_impl; [exact (proj2 (Forall_and _ _) (conj Hpos Hle))|]. intros e [? ?].
    unfold typed, is_u64, compose. cbn. lia.
  - apply Forall_fmap. eapply Forall_impl; [exact Hsizes|]. intros e [Hb Hp]. unfold compose. simpl. split; cbn; [done|done|done|lia].
  - apply Forall_fmap. eapply Forall_impl; [exact Ht|]. done.
  - intros name. rewrite map_find_fmap. destruct (map_find name abi) as [[]|]; done.
  - rewrite <- Hbytes, <- Hlen. unfold arena_of. clear. induction abi as [|e abi IH]; [done|]. rewrite !fmap_cons. cbn [foldr length].
    pose proof (align_up_ge 256 (requirement_bytes e.2)). lia.
Qed.

Lemma text_only tensors c : c <> kText -> Forall (fun nl => classify_tensor nl.1 = kText) tensors -> skipped_tensors c tensors = [].
Proof.
  intros Hc. unfold skipped_tensors. induction 1 as [|nl tensors Hnl _ IH]; [done|]. cbn [List.filter].
  rewrite Hnl, bool_decide_false by congruence. exact IH.
Qed.

Lemma good_accepts abi : abi_facts abi -> let tensors := (fun e => (e.1, sample_locator e.2)) <$> abi in
  keys_sorted tensors /\ Forall (fun nl => typed nl.2) tensors /\ manifest_accepts abi tensors sample_table 256.
Proof.
  intros Habi. cbv zeta. destruct (sample_good abi Habi) as (Hs & Hty & Hst & Ht & Hf & Ha).
  generalize dependent ((fun e => (e.1, sample_locator e.2)) <$> abi). intros tensors Hs Hty Hst Ht Hf.
  split_and!; [done|done|]. split.
  - by exists 8.
  - exact sample_table_matches.
  - done.
  - eapply Forall_impl; [exact Ht|]. by intros nl ->.
  - intros name _. apply Hf.
  - unfold kPinnedQwen36_27BTextBytes, kPinnedQwen36_27BTextTensorCount, u64_max in *. lia.
  - rewrite !text_only by done. done.
Qed.

Lemma manifest_exact_witness :
  validate_qwen36_27b_text_manifest sample_tensors sample_table 256 = inr (manifest_of text_abi sample_tensors sample_table 256).
Proof.
  refine (proj2 (manifest_exact sample_tensors sample_table 256 _ (proj1 (good_accepts text_abi text_abi_facts))
    (proj1 (proj2 (good_accepts text_abi text_abi_facts))) (conj _ _)) (conj (proj2 (proj2 (good_accepts text_abi text_abi_facts))) eq_refl));
  [discriminate|reflexivity].
Defined.
