(* ===== verification/ManifestBuild.v ===== *)
(** * ManifestBuild: the manifest of a directory
      (src/model/weight_manifest.cpp)

    [build_qwen36_27b_text_manifest] puts the parts together: the directory is
    inspected ([Checkpoint.v]), its index read and its shards validated
    ([Safetensors.v]), every header is read again to locate its tensors, and
    the table of locators is checked ([WeightManifest.v]).  Several of its
    checks repeat what the parts have established; the theorem shows that none
    of these can fail.

    The file system is a parameter, with the current directory of the process
    ([None] where it cannot be found).  Memory is never exhausted. *)

From Stdlib Require Import String.
From S2P Require Import Prelude OrderedMap Json Safetensors ModelConfig Checkpoint WeightManifest.

(** ** Paths

    The operations of [std::filesystem] the source uses, on POSIX. *)

Definition dot_dot : list Z := [dot; dot].

(** One file name of a path, over the names kept so far, the last one first. *)
Definition normal_step (rooted : bool) (kept : list (list Z)) (name : list Z) : list (list Z) :=
  if bool_decide (name = []) || bool_decide (name = [dot]) then kept
  else if bool_decide (name = dot_dot) then
    match kept with
    | [] => if rooted then [] else [name]
    | previous :: rest => if bool_decide (previous = dot_dot) then name :: kept else rest
    end
  else name :: kept.

Fixpoint slashed (names : list (list Z)) : list Z :=
  match names with
  | [] => []
  | name :: names => match names with [] => name | _ :: _ => name ++ [slash] ++ slashed names end
  end.

(** [path::lexically_normal] *)
Definition lexically_normal (path : list Z) : list Z :=
  if bool_decide (path = []) then [] else
  let names := components path in
  let rooted := is_absolute path in
  let kept := foldl (normal_step rooted) [] names in
  let ending := match last names with
                | Some name => bool_decide (name = []) || bool_decide (name = [dot]) || bool_decide (name = dot_dot)
                | None => false
                end in
  match kept with
  | [] => if rooted then [slash] else [dot]
  | final :: _ =>
      (if rooted then [slash] else []) ++ slashed (rev kept)
      ++ (if ending && negb (bool_decide (final = dot_dot)) then [slash] else [])
  end.

(** [std::filesystem::absolute] with an error code. *)
Definition absolute (current_path : option (list Z)) (path : list Z) : option (list Z) :=
  if bool_decide (path = []) then None
  else if is_absolute path then Some path
  else match current_path with None => None | Some current => Some (append_path current path) end.

(** ** Errors of the parts *)

Definition from_checkpoint_error {A} (inspection : InspectionResult) : ManifestDiagnostic + A :=
  match diagnostics inspection with
  | [] => failure kCheckpointRejected (lit "checkpoint")
  | d :: _ => failure kCheckpointRejected (source d ++ json_pointer d)
  end.

Definition code_for_safetensors_error (c : Safetensors.ErrorCode) (fallback : ManifestErrorCode) : ManifestErrorCode :=
  match c with
  | Safetensors.kAllocationFailure => kAllocationFailure
  | Safetensors.kOpenFailed | Safetensors.kIoFailure | Safetensors.kShardMissing | Safetensors.kShardNotRegular => kIoFailure
  | Safetensors.kUnsafeShardPath => kUnsafeShardPath
  | _ => fallback
  end.

(** [from_safetensors_error], for a result of the reader. *)
Definition from_safetensors {A} (fallback : ManifestErrorCode) (result : Safetensors.Error + A) : ManifestDiagnostic + A :=
  match result with
  | inl e => failure (code_for_safetensors_error (Safetensors.code e) fallback) (Safetensors.context e)
  | inr a => inr a
  end.

(** ** Collecting the locators *)

Definition locator_of (in_shard in_file : list Z) (t : TensorInfo) : TensorLocator := {|
  category := kUnknown; shard := in_shard; locator_file := in_file; locator_begin := file_begin t;
  locator_end := file_end t; locator_bytes := byte_size t; locator_dtype := dtype t; locator_shape := shape t
|}.

(** The loop over the tensors of a header. *)
Fixpoint collect_tensors (i : Index) (in_shard in_file : list Z) (found : list (list Z * TensorInfo)) (locators : Locators)
    : ManifestDiagnostic + Locators :=
  match found with
  | [] => inr locators
  | (name, t) :: found =>
      _ ← fail_if (negb (bool_decide (shard_for name i = Some in_shard))) kIndexRejected name;
      _ ← fail_if (negb (bool_decide (map_find name locators = None))) kDuplicateTensor name;
      collect_tensors i in_shard in_file found (map_emplace name (locator_of in_shard in_file t) locators)
  end.

Section Build.
Variable fs : Filesystem.
Variable current_path : option (list Z).

(** The loop over the shards. *)
Fixpoint collect_locators (directory : list Z) (o : ManifestOptions) (i : Index) (names : list (list Z)) (locators : Locators)
    : ManifestDiagnostic + Locators :=
  match names with
  | [] => inr locators
  | name :: names =>
      _ ← fail_if (negb (is_safe_relative_shard_path name)) kUnsafeShardPath name;
      let shard_path := append_path directory name in
      resolved ← require (absolute current_path shard_path) kIoFailure name;
      let absolute_path := lexically_normal resolved in
      _ ← fail_if (negb (is_absolute absolute_path)) kIoFailure name;
      header ← from_safetensors kShardRejected (read_header (open_disk fs) shard_path (header_options (shard_options o)));
      locators ← collect_tensors i name absolute_path (tensors header) locators;
      collect_locators directory o i names locators
  end.

Definition invalid_options (o : ManifestOptions) : bool :=
  negb (is_power_of_two (option_arena_alignment o)) || (index_max_file_bytes (index_options o) =? 0)
  || (index_max_tensors (index_options o) =? 0) || (index_max_shards (index_options o) =? 0)
  || (validation_max_shards (shard_options o) =? 0) || (validation_max_tensors (shard_options o) =? 0).

(** The inspection's limits on the index are the caller's. *)
Definition build_inspection_options (o : ManifestOptions) : InspectionOptions := {|
  require_shards := require_shards default_inspection_options;
  max_config_bytes := max_config_bytes default_inspection_options;
  max_quant_config_bytes := max_quant_config_bytes default_inspection_options;
  max_index_bytes := index_max_file_bytes (index_options o);
  max_index_tensors := index_max_tensors (index_options o);
  max_index_shards := index_max_shards (index_options o)
|}.

Definition require_pinned_artifact_totals (s : WeightManifestSummary) : ManifestDiagnostic + unit :=
  let kExpectedTotalTensors := kPinnedQwen36_27BTextTensorCount + kPinnedQwen36_27BVisionTensorCount
                               + kPinnedQwen36_27BMtpTensorCount in
  if negb (shard_count s =? 3) || negb (manifest_tensor_count s =? kExpectedTotalTensors)
     || negb (text_tensor_count s =? kPinnedQwen36_27BTextTensorCount)
     || negb (vision_tensor_count s =? kPinnedQwen36_27BVisionTensorCount)
     || negb (mtp_tensor_count s =? kPinnedQwen36_27BMtpTensorCount)
  then failure kCountMismatch (lit "pinned artifact") else
  fail_if (negb (raw_text_bytes s =? kPinnedQwen36_27BTextBytes) || negb (vision_bytes s =? kPinnedQwen36_27BVisionBytes)
           || negb (mtp_bytes s =? kPinnedQwen36_27BMtpBytes)) kSizeMismatch (lit "pinned artifact").

(** The totals of the manifest against those of the shard validator. *)
Definition check_validated (s : WeightManifestSummary) (validated : ShardValidationSummary) : ManifestDiagnostic + unit :=
  _ ← fail_if (negb (manifest_tensor_count s =? validated_tensors validated)
               || negb (shard_count s =? validated_shards validated)) kCountMismatch (lit "shard validation");
  match checked_add (raw_text_bytes s) (skipped_bytes s) with
  | None => failure kSizeMismatch (lit "shard validation")
  | Some classified => fail_if (negb (classified =? payload_bytes validated)) kSizeMismatch (lit "shard validation")
  end.

Definition with_checkpoint (c : KnownCheckpointDescriptor) (m : WeightManifest) : WeightManifest := {|
  manifest_checkpoint := Some c; manifest_summary := manifest_summary m; manifest_tensors := manifest_tensors m
|}.

Definition build_qwen36_27b_text_manifest (directory : list Z) (o : ManifestOptions) : ManifestDiagnostic + WeightManifest :=
  _ ← fail_if (invalid_options o) kInvalidOption (lit "manifest options");
  let inspection := inspect_directory fs directory (build_inspection_options o) in
  r ← match inspection_ok inspection with None => from_checkpoint_error inspection | Some r => inr r end;
  _ ← fail_if (negb (model (checkpoint r) =? kQwen36_27B)) kUnsupportedCheckpoint (id (checkpoint r));
  i ← from_safetensors kIndexRejected (read_index (open_disk fs) (append_path directory index_file_name) (index_options o));
  validated ← from_safetensors kShardRejected
    (validate_index_shards (open_disk fs) (symlink_status_of fs) directory i (shard_options o));
  locators ← collect_locators directory o i (shards i) [];
  _ ← fail_if (negb (bool_decide (length locators = length (weight_map i)))) kCountMismatch (lit "index");
  m ← validate_qwen36_27b_text_manifest locators (quantization r) (option_arena_alignment o);
  _ ← require_pinned_artifact_totals (manifest_summary m);
  _ ← check_validated (manifest_summary m) validated;
  inr (with_checkpoint (checkpoint r) m).
End Build.

Definition find (name : list Z) (m : WeightManifest) : option TensorLocator := map_find name (manifest_tensors m).

#[local] Arguments lit : simpl never.

Example normal_1 : lexically_normal (lit "/a//b/./c/../d.x") = lit "/a/b/d.x". Proof. reflexivity. Qed.
Example normal_2 : lexically_normal (lit "/../a/..") = lit "/". Proof. reflexivity. Qed.
Example normal_3 : lexically_normal (lit "../a/b/..") = lit "../a/". Proof. reflexivity. Qed.
Example normal_4 : lexically_normal (lit "a/./..") = lit ".". Proof. reflexivity. Qed.
Example normal_5 : lexically_normal (lit "../..") = lit "../..". Proof. reflexivity. Qed.
Example normal_6 : lexically_normal (lit "/a/b/..") = lit "/a/". Proof. reflexivity. Qed.

(** ** Paths of shards *)

Lemma components_from_cons current path : exists c cs, components_from current path = c :: cs.
Proof. revert current. induction path as [|x path IH]; intros current; cbn [components_from]; [eauto|]. destruct (x =? slash); [eauto|apply IH]. Qed.

Lemma slashed_components_from current path : slashed (components_from current path) = current ++ path.
Proof.
  revert current. induction path as [|x path IH]; intros current; cbn [components_from]; [by rewrite app_nil_r|].
  destruct (Z.eqb_spec x slash) as [->|_].
  - destruct (components_from_cons [] path) as (c & cs & Hc). specialize (IH []). rewrite Hc in IH |- *.
    change (current ++ [slash] ++ slashed (c :: cs) = current ++ slash :: path). by rewrite IH.
  - by rewrite IH, <- app_assoc.
Qed.

Lemma append_append directory name rest : component_safe name ->
  append_path (append_path directory name) rest = append_path directory (name ++ [slash] ++ rest).
Proof.
  intros [Hne _ Hb]. assert (Hl : forall before, last (before ++ name) <> Some slash).
  { intros before. destruct (exists_last Hne) as (init & x & ->). rewrite app_assoc, last_snoc. intros [= ->].
    rewrite Forall_forall in Hb. destruct (Hb slash) as [? _]; [|done]. apply elem_of_app. right. by left. }
  unfold append_path at 1. rewrite (bool_decide_false (append_path directory name = [])), (bool_decide_false (last _ = _)).
  - unfold append_path. cbn [orb]. destruct (_ || _); by rewrite <- ?app_assoc.
  - unfold append_path. destruct (_ || _); [apply Hl|]. rewrite app_assoc. apply Hl.
  - unfold append_path. destruct (_ || _); intros He; [by apply app_eq_nil in He as [_ ?]|].
    apply app_eq_nil in He as [_ He]. by apply app_eq_nil in He as [? _].
Qed.

Lemma join_slashed directory names : names <> [] -> Forall component_safe names ->
  join directory names = append_path directory (slashed names).
Proof.
  intros Hne Hall. revert directory Hne. induction Hall as [|c names Hc Hall IH]; intros directory Hne; [done|].
  destruct names as [|c' names]; [done|].
  change (join directory (c :: c' :: names)) with (join (append_path directory c) (c' :: names)).
  rewrite IH by done. by rewrite append_append by done.
Qed.

(** Walking a safe path component by component leads where appending it does. *)
Lemma join_components directory name : is_safe_relative_shard_path name = true ->
  join directory (components name) = append_path directory name.
Proof.
  intros [Hne Hall]%safe_components. rewrite join_slashed by done. unfold components. by rewrite slashed_components_from.
Qed.

(** ** The shards and their headers *)

(** A shard with its resolved path and its header. *)
#[local] Abbreviation Site := (list Z * (list Z * Header))%type.

Definition site_entries (s : Site) : Locators := (fun nt => (nt.1, locator_of s.1 s.2.1 nt.2)) <$> tensors s.2.2.
Definition sites_entries (sites : list Site) : Locators := mjoin (site_entries <$> sites).
Definition site_headers (sites : list Site) : list Header := (fun s => s.2.2) <$> sites.

Lemma sites_entries_cons s sites : sites_entries (s :: sites) = site_entries s ++ sites_entries sites.
Proof. done. Qed.

(** The table of the locators of all shards. *)
Definition locators_of (sites : list Site) : Locators := emplace_entries (sites_entries sites) [].

Definition fresh (es done_ : Locators) : Prop := NoDup es.*1 /\ forall name, name ∈ es.*1 -> map_find name done_ = None.

Lemma fresh_app es es' done_ : fresh (es ++ es') done_ <-> fresh es done_ /\ fresh es' (emplace_entries es done_).
Proof.
  unfold fresh. rewrite fmap_app, NoDup_app. setoid_rewrite elem_of_app. split.
  - intros ((Hn & Hd & Hn') & Hf). split_and!; [done|by eauto|done|]. intros name Hin.
    rewrite find_emplace_entries by eauto. rewrite (proj2 (map_find_None name es)) by (intros H; by apply (Hd name)). by apply Hf; right.
  - intros [[Hn Hf] [Hn' Hf']]. assert (Hd : forall name, name ∈ es.*1 -> name ∉ es'.*1).
    { intros name Hin Hin'. specialize (Hf' name Hin'). rewrite find_emplace_entries in Hf' by done.
      destruct (map_find name es) eqn:He; [done|]. by apply map_find_None in He. }
    split_and!; try done. intros name [Hin|Hin]; [by apply Hf|]. specialize (Hf' name Hin).
    rewrite find_emplace_entries in Hf' by done. by destruct (map_find name es).
Qed.

Lemma fresh_cons e es done_ : fresh (e :: es) done_ <-> map_find e.1 done_ = None /\ fresh es (map_emplace e.1 e.2 done_).
Proof.
  rewrite (fresh_app [e] es). split; intros [H1 H2]; (split; [|exact H2]).
  - apply H1. by left.
  - split; [repeat constructor; apply not_elem_of_nil|]. by intros name ->%list_elem_of_singleton.
Qed.

Lemma emplace_app {A} (es es' done_ : list (list Z * A)) : emplace_entries (es ++ es') done_ = emplace_entries es' (emplace_entries es done_).
Proof. apply foldl_app. Qed.

Lemma collect_tensors_exact i in_shard in_file found done_ locators :
  collect_tensors i in_shard in_file found done_ = inr locators <->
  let es := (fun nt => (nt.1, locator_of in_shard in_file nt.2)) <$> found in
  Forall (fun name => shard_for name i = Some in_shard) found.*1 /\ fresh es done_ /\ locators = emplace_entries es done_.
Proof.
  cbv zeta. revert done_. induction found as [|[name t] found IH]; intros done_; cbn [collect_tensors].
  { split; [intros [= ->]|by intros (_ & _ & ->)]. split_and!; [constructor| |done]. split; [constructor|]. by intros name ?%not_elem_of_nil. }
  rewrite !fmap_cons. rewrite fresh_cons, Forall_cons. cbn [fst snd]. split.
  - intros H. apply sum_bind_inr in H as (? & Hs%fail_if_exact & H). apply sum_bind_inr in H as (? & Hn%fail_if_exact & H).
    apply IH in H as (Hall & Hf & ->). bools. rewrite bool_decide_eq_true in *. by split_and!.
  - intros ([Hs Hall] & [H1 Hf] & ->). apply sum_bind_inr. exists tt.
    split; [apply fail_if_exact; by rewrite bool_decide_true|]. apply sum_bind_inr. exists tt. split.
    { apply fail_if_exact. by rewrite bool_decide_true. }
    by apply IH.
Qed.

Section Sites.
Variable fs : Filesystem.
Variable current_path : option (list Z).
Variables (directory : list Z) (o : ManifestOptions) (i : Index).

(** The path under which the manifest records a shard. *)
Definition resolves (s : Site) : Prop :=
  exists path, absolute current_path (append_path directory s.1) = Some path /\ s.2.1 = lexically_normal path /\
    is_absolute s.2.1 = true.

Record site_ok (s : Site) : Prop := {
  site_safe : is_safe_relative_shard_path s.1 = true;
  site_resolves : resolves s;
  site_header : read_header (open_disk fs) (append_path directory s.1) (header_options (shard_options o)) = inr s.2.2;
  site_maps : Forall (fun name => shard_for name i = Some s.1) (tensor_names s.2.2)
}.

Lemma from_safetensors_exact {A} c (result : Safetensors.Error + A) a : from_safetensors c result = inr a <-> result = inr a.
Proof. destruct result; simpl; split; try done; congruence. Qed.

Lemma collect_locators_exact names done_ locators :
  collect_locators fs current_path directory o i names done_ = inr locators <->
  exists sites, sites.*1 = names /\ Forall site_ok sites /\ fresh (sites_entries sites) done_ /\
    locators = emplace_entries (sites_entries sites) done_.
Proof.
  revert done_ locators. induction names as [|name names IH]; intros done_ locators; cbn [collect_locators].
  { split.
    - intros [= ->]. exists []. split_and!; try done. split; [constructor|]. by intros name ?%not_elem_of_nil.
    - intros (sites & Hs & _ & _ & ->). by apply fmap_nil_inv in Hs as ->. }
  split.
  - intros H. apply sum_bind_inr in H as (? & Hsafe%fail_if_exact & H). cbv zeta in H.
    apply sum_bind_inr in H as (path & Hpath%require_exact & H). apply sum_bind_inr in H as (? & Habs%fail_if_exact & H).
    apply sum_bind_inr in H as (h & Hh%from_safetensors_exact & H). apply sum_bind_inr in H as (done1 & Hc & H).
    apply collect_tensors_exact in Hc as (Hmaps & Hfresh & ->). apply IH in H as (sites & <- & Hok & Hfresh' & ->).
    apply negb_false_iff in Hsafe, Habs. exists ((name, (lexically_normal path, h)) :: sites).
    split; [done|]. split; [constructor; [|done]; split; try done; by exists path|].
    rewrite sites_entries_cons, fresh_app, emplace_app. done.
  - intros ([|[name' [file h]] sites] & Hnames & Hok & Hfresh & ->); [done|]. injection Hnames as -> <-.
    apply Forall_cons in Hok as [[Hsafe (path & Hpath & Hfile & Habs) Hh Hmaps] Hok]. cbn [fst snd] in *.
    rewrite sites_entries_cons, fresh_app in Hfresh. rewrite sites_entries_cons, emplace_app.
    apply sum_bind_inr. exists tt. split; [apply fail_if_exact; by rewrite Hsafe|]. cbv zeta.
    apply sum_bind_inr. exists path. split; [by apply require_exact|].
    apply sum_bind_inr. exists tt. split; [apply fail_if_exact; by rewrite <- Hfile, Habs|].
    apply sum_bind_inr. exists h. split; [by apply from_safetensors_exact|]. apply sum_bind_inr.
    exists (emplace_entries (site_entries (name, (file, h))) done_). split.
    + apply collect_tensors_exact. subst file. by destruct Hfresh.
    + apply IH. exists sites. by destruct Hfresh.
Qed.
End Sites.

(** ** An index that was read *)

Lemma read_index_typed open path options i :
  (forall p f, open p = Some f -> file_ok f) -> options_ok (index_json_options options) -> 0 <= index_max_shards options ->
  read_index open path options = inr i -> index_typed i.
Proof.
  intros Hdisk Hopt Hmax H. destruct (open path) as [f|] eqn:Hopen; [|by unfold read_index in H; rewrite Hopen in H].
  pose proof (Hdisk _ _ Hopen) as Hf. destruct (proj1 (read_index_exact open path f options i Hopen Hf Hopt Hmax) H) as [[_ _ Htext] Hok].
  destruct Htext as (text & more & root & s & Hc & _ & Hp & [Hmap Hmeta]).
  pose proof (file_bytes _ Hf) as Hb. rewrite Hc in Hb. apply Forall_app in Hb as [Hb _].
  apply parse_well_formed in Hp as [Hw _]; [|done..].
  apply (foldr_and_Forall (fun kv => utf8 (fst kv) /\ well_formed (snd kv))) in Hw. split.
  - apply map_find_elem in Hmap. rewrite Forall_forall in Hw. apply Hw in Hmap as [_ [_ Hk]].
    apply keys_sorted_keys in Hk. rewrite <- list_fmap_compose in Hk. by apply keys_sorted_keys.
  - apply Hok.
  - intros total Htotal. rewrite Htotal in Hmeta. destruct (map_find (lit "metadata") root) as [v|]; [|by destruct Hmeta].
    destruct Hmeta as [_ Hmeta]. destruct (map_find (lit "total_size") _) as [value|]; [|done].
    destruct Hmeta as (n & Hn & [= ->]). by eapply as_uint64_range.
Qed.

(** Validation limits the tensors of a header further than reading does. *)
Lemma read_header_looser open path so h :
  (forall p f, open p = Some f -> file_ok f) -> options_ok (json_options (header_options so)) ->
  read_header open path (Safetensors.shard_options so) = inr h -> read_header open path (header_options so) = inr h.
Proof.
  intros Hdisk Hopt H. destruct (open path) as [f|] eqn:Hopen; [|by unfold read_header in H; rewrite Hopen in H].
  pose proof (Hdisk _ _ Hopen) as Hf. destruct (proj1 (read_header_inr open path f (Safetensors.shard_options so) h Hopen Hf Hopt) H) as [[] []].
  apply (read_header_inr open path f _ h Hopen Hf Hopt). split; constructor; try done.
  - cbn [max_tensors Safetensors.shard_options] in *. lia.
  - eapply Forall_impl; [exact ok_tensors|]. intros nt []. by constructor.
Qed.

(** ** What validation establishes *)

Section Validated.
Variable fs : Filesystem.
Variable current_path : option (list Z).
Variables (directory : list Z) (o : ManifestOptions) (i : Index) (sites : list Site) (validated : ShardValidationSummary).
Hypothesis disk_ok : forall p f, open_disk fs p = Some f -> file_ok f.
Hypothesis json_ok : options_ok (json_options (header_options (shard_options o))).
Hypothesis i_typed : index_typed i.
Hypothesis names_match : sites.*1 = shards i.
Hypothesis matched :
  shards_match (open_disk fs) (symlink_status_of fs) (shard_options o) directory i (site_headers sites) validated.

Lemma entries_names : (sites_entries sites).*1 = all_names (site_headers sites).
Proof.
  clear. induction sites as [|s l IH]; [done|]. rewrite sites_entries_cons, fmap_app, IH. unfold site_headers at 2. rewrite fmap_cons, all_names_cons.
  f_equal. unfold site_entries. by rewrite <- list_fmap_compose.
Qed.

Lemma maps_and_covers :
  Forall2 (maps_to (weight_map i)) (shards i) (site_headers sites) /\ Forall (fun m => m.1 ∈ all_names (site_headers sites)) (weight_map i).
Proof.
  destruct i_typed as [Hs _ _]. apply match_maps_to; [done| |by eapply match_names].
  rewrite <- names_match. unfold site_headers. by rewrite !length_fmap.
Qed.

Lemma site_read s : s ∈ sites ->
  is_safe_relative_shard_path s.1 = true /\ maps_to (weight_map i) s.1 s.2.2 /\
  read_header (open_disk fs) (append_path directory s.1) (Safetensors.shard_options (shard_options o)) = inr s.2.2.
Proof.
  intros Hin. apply list_elem_of_lookup_1 in Hin as [k Hk].
  assert (Hshard : shards i !! k = Some s.1) by (rewrite <- names_match, list_lookup_fmap, Hk; done).
  assert (Hheader : site_headers sites !! k = Some s.2.2) by (unfold site_headers; rewrite list_lookup_fmap, Hk; done).
  destruct maps_and_covers as [Hm _]. pose proof (Forall2_lookup_lr _ _ _ _ _ _ Hm Hshard Hheader) as Hmap.
  pose proof (Forall2_lookup_lr _ _ _ _ _ _ (match_headers _ _ _ _ _ _ _ matched) Hshard Hheader) as [_ Hread].
  assert (Hsafe : is_safe_relative_shard_path s.1 = true).
  { apply list_elem_of_lookup_2, (match_shards _ _ _ _ _ _ _ matched) in Hshard. apply list_elem_of_fmap in Hshard as (m & -> & Hin).
    pose proof (match_entries _ _ _ _ _ _ _ matched) as Hall. rewrite Forall_forall in Hall. by apply Hall in Hin as (_ & _ & ?). }
  rewrite join_components in Hread by done. done.
Qed.

Lemma sites_ok : Forall (resolves current_path directory) sites -> Forall (site_ok fs current_path directory o i) sites.
Proof.
  intros Hr. rewrite Forall_forall in *. intros s Hin. destruct (site_read s Hin) as (Hsafe & Hm & Hread).
  constructor; [done|by apply Hr|by apply read_header_looser|done].
Qed.

Lemma header_typed s : s ∈ sites -> header_ok (Safetensors.file_size s.2.2) (header_size s.2.2) (Safetensors.shard_options (shard_options o)) s.2.2 /\
  0 <= header_size s.2.2 /\ Safetensors.file_size s.2.2 < 2 ^ 63 /\ keys_sorted (tensors s.2.2).
Proof.
  intros (_ & _ & Hread)%site_read. destruct (open_disk fs (append_path directory s.1)) as [f|] eqn:Hopen;
    [|by unfold read_header in Hread; rewrite Hopen in Hread].
  pose proof (disk_ok _ _ Hopen) as Hf. 
  destruct (proj1 (read_header_inr (open_disk fs) _ f (Safetensors.shard_options (shard_options o)) s.2.2 Hopen Hf json_ok) Hread) as [Hd Hok].
  pose proof (file_length _ _ _ Hd). pose proof (header_within _ _ _ Hd). pose proof (file_position _ Hf).
  split_and!; [exact Hok|lia|lia|]. exact (file_describes_sorted f (Safetensors.shard_options (shard_options o)) _ Hf json_ok Hd).
Qed.

Lemma names_NoDup : NoDup (all_names (site_headers sites)).
Proof.
  destruct maps_and_covers as [Hm _]. eapply all_names_NoDup; [|exact Hm|].
  - apply set_sorted_NoDup. by destruct i_typed.
  - unfold site_headers. apply Forall_fmap, Forall_forall. intros s Hin. apply keys_sorted_NoDup. by apply header_typed.
Qed.

Lemma entries_fresh : fresh (sites_entries sites) [].
Proof. split; [rewrite entries_names; apply names_NoDup|done]. Qed.

Lemma locators_perm : locators_of sites ≡ₚ sites_entries sites.
Proof.
  destruct entries_fresh. unfold locators_of. rewrite emplace_entries_perm by done. by rewrite app_nil_r.
Qed.

Lemma locators_sorted : keys_sorted (locators_of sites).
Proof. apply emplace_entries_sorted. constructor. Qed.

Lemma locators_count : length (locators_of sites) = length (weight_map i).
Proof.
  rewrite locators_perm, <- (length_fmap fst), entries_names. rewrite <- (length_fmap fst (weight_map i)).
  apply Permutation_length, NoDup_Permutation; [apply names_NoDup|apply keys_sorted_NoDup; by destruct i_typed|].
  destruct maps_and_covers as [Hm Hc]. rewrite Forall_forall in Hc. intros name. split.
  - intros (h & Hh & Hin)%elem_of_all_names. apply list_elem_of_lookup_1 in Hh as [k Hk].
    destruct (Forall2_lookup_r _ _ _ _ _ Hm Hk) as (name' & _ & Hm'). unfold maps_to in Hm'. rewrite Forall_forall in Hm'.
    apply Hm', map_find_elem in Hin. apply list_elem_of_fmap. by exists (name, name').
  - intros (m & -> & Hin)%list_elem_of_fmap. by apply Hc.
Qed.

Lemma elem_of_entries e : e ∈ sites_entries sites <->
  exists s nt, s ∈ sites /\ nt ∈ tensors s.2.2 /\ e = (nt.1, locator_of s.1 s.2.1 nt.2).
Proof.
  unfold sites_entries. rewrite list_elem_of_join. setoid_rewrite list_elem_of_fmap. unfold site_entries. split.
  - intros (l & Hin & (s & -> & Hs)). apply list_elem_of_fmap in Hin as (nt & -> & Hnt). eauto 6.
  - intros (s & nt & Hs & Hnt & ->). eexists. split; [|by exists s]. apply list_elem_of_fmap. eauto.
Qed.

Lemma locators_typed : Forall (fun nl => typed nl.2) (locators_of sites).
Proof.
  rewrite locators_perm. apply Forall_forall. intros e (s & nt & Hs & Hnt & ->)%elem_of_entries.
  destruct (header_typed s Hs) as ([_ _ Hoff Hsize Hnn _ Hall _] & Hh & Hf & _). rewrite Forall_forall in Hall.
  destruct (Hall _ Hnt). unfold typed, is_u64. cbn. unfold u64_max in *.
  pose proof (tensor_forward _ _ _ nt.1 _ (Hall _ Hnt)) as Hfw. unfold forward in Hfw. cbn in Hfw. lia.
Qed.

(** The shards of the locators are those of the index: none is empty. *)
Lemma locators_shards : emplace_all ((fun nl => shard nl.2) <$> locators_of sites) [] = shards i.
Proof.
  destruct i_typed as [_ Hset _]. apply set_sorted_ext; [apply emplace_all_sorted; constructor|done|].
  intros name. rewrite elem_of_emplace_all, elem_of_nil, locators_perm, list_elem_of_fmap. split.
  - intros [(e & -> & (s & nt & Hs & _ & ->)%elem_of_entries)|[]]. rewrite <- names_match. apply list_elem_of_fmap. by exists s.
  - intros Hin. left. apply (match_shards _ _ _ _ _ _ _ matched) in Hin. apply list_elem_of_fmap in Hin as ([tensor name'] & -> & Hin).
    apply (match_names _ _ _ _ _ _ _ matched) in Hin as (k & h & Hk & Hh & Hin). rewrite <- names_match in Hk.
    rewrite list_lookup_fmap in Hk. assert (Hx : site_headers sites !! k = (fun s => s.2.2) <$> sites !! k) by apply list_lookup_fmap.
    rewrite Hx in Hh. destruct (sites !! k) as [s|] eqn:Hs; [|done].
    apply (inj Some) in Hk as <-. apply (inj Some) in Hh as <-. unfold tensor_names in Hin. apply list_elem_of_fmap in Hin as (nt & -> & Hnt).
    exists (nt.1, locator_of s.1 s.2.1 nt.2). split; [done|]. apply elem_of_entries. exists s, nt. split; [|done]. by eapply list_elem_of_lookup_2.
Qed.

Lemma tiles_sum ranges cursor end_ : tiles cursor ranges end_ ->
  foldr Z.add 0 ((fun r => range_end r - range_begin r) <$> ranges) = end_ - cursor.
Proof.
  revert cursor. induction ranges as [|r ranges IH]; intros cursor; [cbn; lia|]. rewrite fmap_cons. cbn [tiles foldr].
  intros [<- Ht]. rewrite (IH _ Ht). lia.
Qed.

Lemma bytes_of_app a b : bytes_of (a ++ b) = bytes_of a + bytes_of b.
Proof. unfold bytes_of. rewrite fmap_app. induction a as [|x a IH]; [done|]. rewrite fmap_cons. cbn [foldr app]. lia. Qed.

(** The locators cover the data of every shard. *)
Lemma locators_bytes : bytes_of (locators_of sites) = payload (site_headers sites).
Proof.
  transitivity (bytes_of (sites_entries sites)); [unfold bytes_of; by apply sum_perm, locators_perm|].
  assert (Hall : Forall (fun s => bytes_of (site_entries s) = data_size s.2.2) sites).
  { apply Forall_forall. intros s Hs. destruct (header_typed s Hs) as ([_ _ _ _ _ _ Hall (order & Hp & Ht)] & _).
    apply tiles_sum in Ht. rewrite Z.sub_0_r in Ht. rewrite <- Ht, <- list_fmap_compose. unfold bytes_of, site_entries.
    rewrite <- list_fmap_compose. rewrite (sum_perm _ _ _ (Permutation_sym Hp)). rewrite <- Hp in Hall. clear -Hall. induction Hall as [|nt order Hnt _ IH]; [done|].
    rewrite !fmap_cons. cbn [foldr]. rewrite IH. unfold compose. cbn. rewrite (tensor_bytes _ _ _ _ Hnt). lia. }
  clear -Hall. induction Hall as [|s l Hs _ IH]; [done|].
  rewrite sites_entries_cons, bytes_of_app, Hs, IH. unfold site_headers at 2. by rewrite fmap_cons.
Qed.
End Validated.

(** ** The totals *)

Lemma bytes_by_category tensors : Forall (fun nl => classify_tensor nl.1 <> kUnknown) tensors ->
  bytes_of tensors = bytes_of (skipped_tensors kText tensors) + bytes_of (skipped_tensors kVision tensors)
    + bytes_of (skipped_tensors kMtp tensors).
Proof.
  unfold bytes_of, skipped_tensors. induction 1 as [|nl tensors Hnl _ IH]; [done|]. rewrite fmap_cons. cbn [foldr List.filter].
  rewrite IH. destruct (classify_tensor nl.1); repeat (case_bool_decide; try done); rewrite ?fmap_cons; cbn [foldr]; lia.
Qed.

Lemma text_bytes abi tensors : abi_facts abi -> keys_sorted tensors -> Forall (fun nl => storage_ok nl.2) tensors ->
  (forall name, classify_tensor name = kText -> (required_of <$> map_find name tensors) = map_find name abi) ->
  bytes_of (skipped_tensors kText tensors) = kPinnedQwen36_27BTextBytes.
Proof.
  intros [Ha _ Hb Ht _] Hs Hst Htext. apply (text_tensors_perm tensors abi Hs Ha Ht) in Htext. rewrite <- Hb.
  rewrite (sum_perm _ _ _ (Permutation_sym Htext)). unfold bytes_of, skipped_tensors, text_tensors. rewrite <- list_fmap_compose.
  clear -Hst. induction Hst as [|nl tensors Hnl _ IH]; [done|]. cbn [List.filter]. case_match; [|done]. rewrite !fmap_cons. cbn [foldr].
  rewrite IH. f_equal. unfold compose, requirement_bytes, required_of. cbn [fst snd required_dtype required_shape]. by rewrite (storage_bytes _ Hnl).
Qed.

(** What remains to be compared with the pinned artifact: the text tensors
    are right by themselves. *)
Record totals_pinned (s : WeightManifestSummary) : Prop := {
  pinned_shards : shard_count s = 3;
  pinned_vision : vision_tensor_count s = kPinnedQwen36_27BVisionTensorCount /\ vision_bytes s = kPinnedQwen36_27BVisionBytes;
  pinned_mtp : mtp_tensor_count s = kPinnedQwen36_27BMtpTensorCount /\ mtp_bytes s = kPinnedQwen36_27BMtpBytes
}.

Lemma category_counts tensors : Forall (fun nl => classify_tensor nl.1 <> kUnknown) tensors ->
  length tensors = (length (skipped_tensors kText tensors) + length (skipped_tensors kVision tensors)
    + length (skipped_tensors kMtp tensors))%nat.
Proof.
  unfold skipped_tensors. induction 1 as [|nl tensors Hnl _ IH]; [done|]. cbn [List.filter length]. rewrite IH.
  destruct (classify_tensor nl.1); repeat (case_bool_decide; try done); cbn [length]; lia.
Qed.

Lemma text_count abi tensors : abi_facts abi -> keys_sorted tensors ->
  (forall name, classify_tensor name = kText -> (required_of <$> map_find name tensors) = map_find name abi) ->
  Z.of_nat (length (skipped_tensors kText tensors)) = kPinnedQwen36_27BTextTensorCount.
Proof.
  intros [Ha Hc _ Ht _] Hs Htext. apply (text_tensors_perm tensors abi Hs Ha Ht) in Htext. rewrite <- Hc, <- Htext.
  unfold text_tensors. by rewrite length_fmap.
Qed.

Lemma totals_exact abi tensors q alignment u : abi_facts abi -> keys_sorted tensors -> manifest_accepts abi tensors q alignment ->
  require_pinned_artifact_totals (manifest_summary (manifest_of abi tensors q alignment)) = inr u <->
  totals_pinned (manifest_summary (manifest_of abi tensors q alignment)).
Proof.
  intros Habi Hs [_ _ _ Hknown Htext _ _]. destruct u. pose proof (text_count abi tensors Habi Hs Htext) as Htc.
  pose proof (category_counts tensors Hknown) as Hcount. unfold require_pinned_artifact_totals. cbv zeta. split.
  - destruct (_ || _) eqn:Hb; [done|]. intros Hb'%fail_if_exact. bools. by split.
  - intros [H1 [H2 H3] [H4 H5]]. rewrite H1, H2, H3, H4, H5.
    cbn [manifest_summary manifest_of manifest_tensor_count text_tensor_count raw_text_bytes vision_tensor_count mtp_tensor_count] in *.
    rewrite (proj2 (Z.eqb_eq (Z.of_nat (length tensors)) _)) by (rewrite Hcount; lia). reflexivity.
Qed.

(** ** The whole *)

(** The fields of the options fit their types, and their JSON limits are sane. *)
Record options_typed (o : ManifestOptions) : Prop := {
  typed_alignment : is_u64 (option_arena_alignment o);
  typed_index : 0 <= index_max_shards (index_options o);
  typed_validation : 0 <= validation_max_shards (shard_options o) /\ 0 <= validation_max_tensors (shard_options o) /\
    0 <= max_tensors (header_options (shard_options o));
  typed_json : options_ok (json_options (header_options (shard_options o))) /\ options_ok (index_json_options (index_options o))
}.

(** A directory that holds the pinned checkpoint of Qwen3.6-27B, every tensor
    of it in its place. *)
Record holds_model (abi : RequirementMap) (fs : Filesystem) (current_path : option (list Z)) (directory : list Z) (o : ManifestOptions)
    (r : InspectionReport) (sites : list Site) : Prop := {
  holds_checkpoint : pinned_directory fs directory (build_inspection_options o) r /\ model (checkpoint r) = kQwen36_27B;
  holds_shards : exists i validated,
    read_index (open_disk fs) (append_path directory index_file_name) (index_options o) = inr i /\ sites.*1 = shards i /\
    shards_match (open_disk fs) (symlink_status_of fs) (shard_options o) directory i (site_headers sites) validated;
  holds_paths : Forall (resolves current_path directory) sites;
  holds_tensors : manifest_accepts abi (locators_of sites) (quantization r) (option_arena_alignment o);
  holds_totals : totals_pinned (manifest_summary (manifest_of abi (locators_of sites) (quantization r) (option_arena_alignment o)))
}.

Lemma invalid_options_exact o : options_typed o -> invalid_options o = false <->
  (exists k, 0 <= k < 64 /\ option_arena_alignment o = 2 ^ k) /\ index_max_file_bytes (index_options o) <> 0 /\
  index_max_tensors (index_options o) <> 0 /\ index_max_shards (index_options o) <> 0 /\
  validation_max_shards (shard_options o) <> 0 /\ validation_max_tensors (shard_options o) <> 0.
Proof.
  intros Ho. unfold invalid_options. rewrite !orb_false_iff, !Z.eqb_neq, negb_false_iff, power_of_two_exact by apply Ho. tauto.
Qed.

(** Past validation the locators are collected, whatever the paths resolve to. *)
Lemma collected fs current_path directory o i validated locators :
  (forall p f, open_disk fs p = Some f -> file_ok f) -> options_ok (json_options (header_options (shard_options o))) ->
  index_typed i ->
  (exists headers, shards_match (open_disk fs) (symlink_status_of fs) (shard_options o) directory i headers validated) /\
  collect_locators fs current_path directory o i (shards i) [] = inr locators <->
  exists sites, sites.*1 = shards i /\ Forall (resolves current_path directory) sites /\
    shards_match (open_disk fs) (symlink_status_of fs) (shard_options o) directory i (site_headers sites) validated /\
    locators = locators_of sites.
Proof.
  intros Hdisk Hjson Hi. split.
  - intros [[headers Hm] Hc]. apply collect_locators_exact in Hc as (sites & Hn & Hok & _ & ->). exists sites.
    assert (Hh : site_headers sites = headers).
    { pose proof (match_headers _ _ _ _ _ _ _ Hm) as Hr. rewrite <- Hn in Hr. clear Hn Hm Hi. revert headers Hr.
      induction Hok as [|s sites [Hsafe _ Hread _] _ IH]; intros headers Hr; [by apply Forall2_nil_inv_l in Hr as ->|].
      apply Forall2_cons_inv_l in Hr as (h & headers' & [_ Hread'] & Hr & ->). unfold site_headers in IH |- *. rewrite fmap_cons, (IH _ Hr).
      rewrite join_components in Hread' by done. apply read_header_looser in Hread'; [|done..]. congruence. }
    subst headers. split_and!; try done. eapply Forall_impl; [exact Hok|]. by intros s [].
  - intros (sites & Hn & Hr & Hm & ->). split; [by exists (site_headers sites)|]. rewrite <- Hn. apply collect_locators_exact.
    exists sites. split; [done|]. split; [by eapply sites_ok|]. split; [by eapply entries_fresh|done].
Qed.

(** The checks that repeat what validation has established. *)
Lemma validated_again abi fs directory o i sites validated q :
  (forall p f, open_disk fs p = Some f -> file_ok f) -> options_ok (json_options (header_options (shard_options o))) ->
  index_typed i -> sites.*1 = shards i -> abi_facts abi ->
  shards_match (open_disk fs) (symlink_status_of fs) (shard_options o) directory i (site_headers sites) validated ->
  manifest_accepts abi (locators_of sites) q (option_arena_alignment o) ->
  check_validated (manifest_summary (manifest_of abi (locators_of sites) q (option_arena_alignment o))) validated = inr tt.
Proof.
  intros Hdisk Hjson Hi Hn Habi Hm Hacc. pose proof (match_summary _ _ _ _ _ _ _ Hm) as ->.
  assert (Hbytes := locators_bytes fs directory o i sites _ Hdisk Hjson Hi Hn Hm).
  assert (Hs := locators_sorted sites).
  assert (Hty := locators_typed fs directory o i sites _ Hdisk Hjson Hi Hn Hm).
  destruct Hacc as [_ _ Hst Hknown Htext _ Hskip]. rewrite (bytes_by_category _ Hknown), (text_bytes abi _ Habi Hs Hst Htext) in Hbytes.
  pose proof (bytes_of_nonneg _ kVision Hty) as Hv. pose proof (bytes_of_nonneg _ kMtp Hty) as Hp.
  assert (Hfit : kPinnedQwen36_27BTextBytes + (bytes_of (skipped_tensors kVision (locators_of sites)) +
    bytes_of (skipped_tensors kMtp (locators_of sites))) <= u64_max).
  { rewrite Z.add_assoc, Hbytes. pose proof (match_total _ _ _ _ _ _ _ Hm) as Ht. destruct Hi as [_ _ Hu]. specialize (Hu _ Ht).
    unfold is_u64, u64_max in *. lia. }
  unfold check_validated. cbn [manifest_summary manifest_of manifest_tensor_count shard_count raw_text_bytes skipped_bytes
    validated_tensors validated_shards payload_bytes].
  rewrite (locators_count fs directory o i sites _ Hdisk Hjson Hi Hn Hm), (locators_shards fs directory o i sites _ Hdisk Hjson Hi Hn Hm), !Z.eqb_refl.
  assert (Hadd := proj2 (checked_add_Some kPinnedQwen36_27BTextBytes (bytes_of (skipped_tensors kVision (locators_of sites)) +
    bytes_of (skipped_tensors kMtp (locators_of sites))) _ ltac:(unfold is_u64, kPinnedQwen36_27BTextBytes; lia)
    ltac:(unfold is_u64, u64_max in *; lia)) (conj eq_refl Hfit)).
  rewrite Hadd. cbn [negb orb]. unfold fail_if. cbn [mbind sum_bind]. rewrite Z.add_assoc, Hbytes, Z.eqb_refl. reflexivity.
Qed.

Lemma build_over abi fs current_path directory o m :
  abi_facts abi ->
  (forall tensors q alignment m, keys_sorted tensors -> Forall (fun nl => typed nl.2) tensors -> is_u64 alignment ->
     validate_qwen36_27b_text_manifest tensors q alignment = inr m <->
     manifest_accepts abi tensors q alignment /\ m = manifest_of abi tensors q alignment) ->
  (forall p f, open_disk fs p = Some f -> file_ok f) -> options_typed o ->
  build_qwen36_27b_text_manifest fs current_path directory o = inr m <->
  exists r sites, holds_model abi fs current_path directory o r sites /\
    m = with_checkpoint (checkpoint r) (manifest_of abi (locators_of sites) (quantization r) (option_arena_alignment o)).
Proof.
  intros Habi Hvalidate Hdisk Ho. pose proof Ho as [Hal Hmax (Hvs & Hvt & Hht) [Hjson Hijson]].
  unfold build_qwen36_27b_text_manifest. cbv zeta. split.
  - intros H. apply sum_bind_inr in H as (? & _ & H). apply sum_bind_inr in H as (r & Hr & H).
    destruct (inspection_ok _) as [r'|] eqn:Hi; [injection Hr as ->|unfold from_checkpoint_error, failure in Hr; by case_match].
    apply (proj1 (inspect_directory_exact _ _ _ _)), (proj1 (inspect_inr _ _ _ _)) in Hi.
    apply sum_bind_inr in H as (? & Hmodel%fail_if_exact & H). apply negb_false_iff, Z.eqb_eq in Hmodel.
    apply sum_bind_inr in H as (i & Hread%from_safetensors_exact & H). apply sum_bind_inr in H as (validated & Hv%from_safetensors_exact & H).
    pose proof (read_index_typed _ _ _ _ Hdisk Hijson Hmax Hread) as Hty.
    apply (proj1 (validate_index_shards_inr _ _ _ _ _ _ Hdisk Hjson Hty Hvs Hvt Hht)) in Hv.
    apply sum_bind_inr in H as (locators & Hc & H).
    destruct (proj1 (collected _ _ _ _ _ _ _ Hdisk Hjson Hty) (conj Hv Hc)) as (sites & Hn & Hpaths & Hm & ->).
    apply sum_bind_inr in H as (? & _ & H). apply sum_bind_inr in H as (m' & Hvalid & H).
    pose proof (locators_sorted sites) as Hs. pose proof (locators_typed fs directory o i sites _ Hdisk Hjson Hty Hn Hm) as Htl.
    apply (proj1 (Hvalidate _ _ _ _ Hs Htl Hal)) in Hvalid as [Hacc ->]. apply sum_bind_inr in H as (? & Htot & H).
    apply (proj1 (totals_exact _ _ _ _ _ Habi Hs Hacc)) in Htot. apply sum_bind_inr in H as (? & _ & H). injection H as <-.
    exists r, sites. split; [|reflexivity]. split; [done|by exists i, validated|done|done|done].
  - intros (r & sites & [[Hp Hmodel] (i & validated & Hread & Hn & Hm) Hpaths Hacc Htot] & ->).
    pose proof (read_index_typed _ _ _ _ Hdisk Hijson Hmax Hread) as Hty. pose proof (locators_sorted sites) as Hs.
    pose proof (locators_typed fs directory o i sites _ Hdisk Hjson Hty Hn Hm) as Htl.
    apply sum_bind_inr. exists tt. split.
    { apply fail_if_exact, (proj2 (invalid_options_exact o Ho)). pose proof (pinned_limits _ _ _ _ Hp) as Hz. unfold zero_limit in Hz.
      cbn [max_index_bytes max_index_tensors max_index_shards build_inspection_options] in Hz. bools.
      pose proof (match_options _ _ _ _ _ _ _ Hm). pose proof (accepts_alignment _ _ _ _ Hacc). tauto. }
    apply sum_bind_inr. exists r. split; [by rewrite (proj2 (inspect_directory_exact _ _ _ r) (proj2 (inspect_inr _ _ _ r) Hp))|].
    apply sum_bind_inr. exists tt. split; [apply fail_if_exact; by rewrite Hmodel, Z.eqb_refl|].
    apply sum_bind_inr. exists i. split; [by apply from_safetensors_exact|].
    destruct (proj2 (collected fs current_path directory o i validated (locators_of sites) Hdisk Hjson Hty)) as [Hv Hc]; [by exists sites|].
    apply sum_bind_inr. exists validated. split; [by apply from_safetensors_exact, validate_index_shards_inr|].
    apply sum_bind_inr. exists (locators_of sites). split; [done|]. apply sum_bind_inr. exists tt. split.
    { apply fail_if_exact. rewrite bool_decide_true; [done|]. by eapply locators_count. }
    apply sum_bind_inr. eexists. split; [by apply Hvalidate|]. apply sum_bind_inr. exists tt. split; [by apply totals_exact|].
    apply sum_bind_inr. exists tt. split; [by eapply validated_again|reflexivity].
Qed.

(** C33. A manifest is built exactly for a directory that holds the pinned
    checkpoint of Qwen3.6-27B: its metadata has the pinned digests, its shards
    validate against the index, every shard's path resolves, the text tensors
    are exactly those the runtime needs, and the vision and draft tensors have
    the pinned numbers and sizes.  The manifest locates every tensor where its
    header says.  Once the shards are validated, neither reading the headers
    again nor any check that repeats the validation can fail. *)
Theorem build_exact fs current_path directory o m :
  (forall p f, open_disk fs p = Some f -> file_ok f) -> options_typed o ->
  build_qwen36_27b_text_manifest fs current_path directory o = inr m <->
  exists r sites, holds_model text_abi fs current_path directory o r sites /\
    m = with_checkpoint (checkpoint r) (manifest_of text_abi (locators_of sites) (quantization r) (option_arena_alignment o)).
Proof.
  exact (build_over text_abi fs current_path directory o m text_abi_facts
    (fun tensors q alignment m => validate_exact text_abi tensors q alignment m text_abi_facts (make_requirements_exact q))).
Qed.

(** A file system without files. *)
Definition empty_filesystem : Filesystem := {|
  exists_path := fun _ => Some false; is_regular_file := fun _ => Some false; Checkpoint.file_size := fun _ => None;
  open_stream := fun _ => None; open_disk := fun _ => None;
  symlink_status_of := fun _ => (Some NoSuchFile, {| exists_ := false; is_symlink := false; is_directory := false; is_regular := false |})
|}.

Definition sample_manifest_options : ManifestOptions := {|
  option_arena_alignment := 256;
  index_options := {| index_max_file_bytes := 64 * 1024 * 1024; index_max_tensors := 2000000; index_max_shards := 100000;
    index_json_options := default_options |};
  shard_options := {| validation_max_shards := 100000; validation_max_tensors := 2000000; header_options := default_read_options |}
|}.

Lemma sample_manifest_options_typed : options_typed sample_manifest_options.
Proof. split; [done|done|done|split; exact default_options_ok]. Qed.

(** A directory without files holds no model; one that holds it has the files
    with the pinned digests. *)
Lemma build_exact_witness :
  ~ exists r sites, holds_model text_abi empty_filesystem None (lit "/m") sample_manifest_options r sites.
Proof.
  intros (r & sites & H).
  assert (Hb := proj2 (build_exact empty_filesystem None (lit "/m") sample_manifest_options _ ltac:(discriminate) sample_manifest_options_typed)
    (ex_intro _ r (ex_intro _ sites (conj H eq_refl)))).
  assert (Hf : build_qwen36_27b_text_manifest empty_filesystem None (lit "/m") sample_manifest_options =
    failure kCheckpointRejected config_file_name) by reflexivity.
  rewrite Hf in Hb. discriminate Hb.
Defined.
