(* ===== verification/ResidentPlan.v ===== *)
(** * ResidentPlan: where the weights go on the device
      (src/runtime/resident_weights.cpp, include/q3x/runtime/resident_weights.h)

    [build_resident_load_plan] turns a manifest and the identities of its
    shards into a plan: every text tensor gets a range of the arena, and every
    shard the list of its text tensors in the order of the file.  No file is
    read and no device is called.

    A diagnostic keeps its code, context, shard and offset.  Memory is never
    exhausted. *)

From Stdlib Require Import String Sorting.Sorted.
From stdpp Require Import sorting.
From S2P Require Import Prelude OrderedMap Json Safetensors ModelConfig Checkpoint WeightManifest.

(** ** Data *)

Definition kResidentTensorAlignment : Z := 256.
Definition kPinnedQwen36_27BArenaBytes : Z := 20150786560.

Record ShardIdentity := { filename : list Z; identity_size : Z; identity_sha256 : list Z }.

Definition pinned_qwen36_27b_shards : list ShardIdentity := [
  {| filename := lit "model-00001-of-00003.safetensors"; identity_size := 9965652512;
     identity_sha256 := lit "b4a0d9a57ff1859dac1144b53ca285011db072737d8813fc16d8d1e07ecae17d" |};
  {| filename := lit "model-00002-of-00003.safetensors"; identity_size := 9985757032;
     identity_sha256 := lit "06da4242b0f491118d19d4d4c7564307a7bd6059c6bed284e08c93f6fc5a556d" |};
  {| filename := lit "model-00003-of-00003.safetensors"; identity_size := 1970287640;
     identity_sha256 := lit "e90f5b2bb16814a0565de284ea179edec201edfb120d13f1debaab66f9e60845" |}].

Inductive ResidentLoadErrorCode :=
  | kInvalidOption | kInvalidManifest | kUnsafeShardPath | kDuplicateShard | kMissingShardIdentity
  | kUnexpectedShardIdentity | kInvalidShardIdentity | kArithmeticOverflow | kOpenDirectoryFailed | kOpenShardFailed
  | kShardNotRegular | kShardSizeMismatch | kIoFailure | kSha256BackendUnavailable | kSha256Failure | kSha256Mismatch
  | kCudaFailure | kInsufficientDeviceMemory | kAllocationFailure.

Record ResidentLoadDiagnostic := {
  load_code : ResidentLoadErrorCode;
  load_context : list Z;
  load_shard : list Z;
  load_offset : Z
}.

Record PlannedTensor := {
  planned_name : list Z;
  planned_shard : list Z;
  source_begin : Z;
  source_end : Z;
  arena_offset : Z;
  planned_bytes : Z;
  planned_dtype : DType;
  planned_shape : list Z
}.

Record PlannedShard := {
  identity : ShardIdentity;
  tensor_indices : list nat;
  shard_copied_bytes : Z
}.

Record ResidentLoadPlan := {
  arena_bytes : Z;
  copied_bytes : Z;
  source_bytes : Z;
  planned_tensors : list PlannedTensor;
  planned_shards : list PlannedShard
}.

Definition failure {A} (c : ResidentLoadErrorCode) (where_ shard_ : list Z) (at_offset : Z) : ResidentLoadDiagnostic + A :=
  inl {| load_code := c; load_context := where_; load_shard := shard_; load_offset := at_offset |}.

Definition fail_if (test : bool) (c : ResidentLoadErrorCode) (where_ shard_ : list Z) (at_offset : Z)
    : ResidentLoadDiagnostic + unit :=
  if test then failure c where_ shard_ at_offset else inr tt.

Definition require {A} (o : option A) (c : ResidentLoadErrorCode) (where_ shard_ : list Z) (at_offset : Z)
    : ResidentLoadDiagnostic + A :=
  match o with None => failure c where_ shard_ at_offset | Some a => inr a end.

Definition is_lower_hex_digest (digest : list Z) : bool :=
  (Z.of_nat (length digest) =? 64)
  && forallb (fun c => ((48 <=? c) && (c <=? 57)) || ((97 <=? c) && (c <=? 102))) digest.

Definition tensor_bytes_match (l : TensorLocator) : bool :=
  match checked_product (locator_shape l) 1 with
  | None => false
  | Some elements =>
      match checked_multiply elements (bit_width (locator_dtype l)) with
      | None => false
      | Some bits => (bits mod 8 =? 0) && (bits / 8 =? locator_bytes l)
      end
  end.

(** ** Checking the identities *)

Definition Identities : Type := list (list Z * ShardIdentity).

(** The loop over the identities: the map, and the size of all files. *)
Fixpoint check_identities (ids : list ShardIdentity) (known : Identities) (total : Z)
    : ResidentLoadDiagnostic + (Identities * Z) :=
  match ids with
  | [] => inr (known, total)
  | i :: ids =>
      let name := filename i in
      _ ← fail_if (negb (is_safe_relative_shard_path name)) kUnsafeShardPath name name 0;
      _ ← fail_if ((identity_size i =? 0) || negb (is_lower_hex_digest (identity_sha256 i))) kInvalidShardIdentity name name 0;
      _ ← fail_if (negb (bool_decide (map_find name known = None))) kDuplicateShard name name 0;
      total ← require (checked_add total (identity_size i)) kArithmeticOverflow name name 0;
      check_identities ids (map_emplace name i known) total
  end.

(** ** Checking the locators *)

(** [ranges[key].push_back(value)] *)
Fixpoint map_push {A} (key : list Z) (value : A) (values : list (list Z * list A)) : list (list Z * list A) :=
  match values with
  | [] => [(key, [value])]
  | (k, vs) :: rest =>
      if key_lt key k then (key, [value]) :: values
      else if bool_decide (k = key) then (k, vs ++ [value]) :: rest
      else (k, vs) :: map_push key value rest
  end.

(** What the loop over the manifest gathers.  [SourceRange] has the fields of
    [DataRange], and is sorted in the same order. *)
Record Gathered := {
  ranges : list (list Z * list DataRange);
  manifest_shards : list (list Z);
  text_candidates : Locators
}.

Definition check_locator (known : Identities) (name : list Z) (l : TensorLocator) : ResidentLoadDiagnostic + unit :=
  _ ← fail_if (negb (is_safe_relative_shard_path (shard l))) kUnsafeShardPath name (shard l) 0;
  i ← require (map_find (shard l) known) kMissingShardIdentity name (shard l) 0;
  _ ← fail_if (locator_end l <=? locator_begin l) kArithmeticOverflow name (shard l) (locator_begin l);
  fail_if (bool_decide (classify_tensor name = kUnknown) || negb (bool_decide (category l = classify_tensor name))
           || (locator_bytes l =? 0) || negb (locator_end l - locator_begin l =? locator_bytes l)
           || (identity_size i <? locator_end l) || negb (tensor_bytes_match l))
    kInvalidManifest name (shard l) (locator_begin l).

Definition source_range (name : list Z) (l : TensorLocator) : DataRange :=
  {| range_begin := locator_begin l; range_end := locator_end l; range_name := name |}.

Fixpoint gather (known : Identities) (found : Locators) (g : Gathered) : ResidentLoadDiagnostic + Gathered :=
  match found with
  | [] => inr g
  | (name, l) :: found =>
      _ ← check_locator known name l;
      gather known found {|
        ranges := map_push (shard l) (source_range name l) (ranges g);
        manifest_shards := set_emplace (shard l) (manifest_shards g);
        text_candidates := if bool_decide (classify_tensor name = kText) then text_candidates g ++ [(name, l)] else text_candidates g
      |}
  end.

Fixpoint check_used (known : Identities) (used : list (list Z)) : ResidentLoadDiagnostic + unit :=
  match known with
  | [] => inr tt
  | (name, _) :: known =>
      if bool_decide (name ∈ used) then check_used known used else failure kUnexpectedShardIdentity name name 0
  end.

(** Each range against the one before it. *)
Fixpoint check_adjacent (in_shard : list Z) (previous : DataRange) (rest : list DataRange) : ResidentLoadDiagnostic + unit :=
  match rest with
  | [] => inr tt
  | r :: rest =>
      if range_begin r <? range_end previous then failure kInvalidManifest (range_name r) in_shard (range_begin r)
      else check_adjacent in_shard r rest
  end.

Fixpoint check_overlaps (all : list (list Z * list DataRange)) : ResidentLoadDiagnostic + unit :=
  match all with
  | [] => inr tt
  | (in_shard, rs) :: all =>
      _ ← match sort_ranges rs with [] => inr tt | r :: rest => check_adjacent in_shard r rest end;
      check_overlaps all
  end.

(** ** Placing the tensors *)

(** The comparison of [std::sort]. *)
Definition candidate_lt (left right : list Z * TensorLocator) : bool :=
  if negb (bool_decide (shard left.2 = shard right.2)) then key_lt (shard left.2) (shard right.2)
  else if negb (locator_begin left.2 =? locator_begin right.2) then locator_begin left.2 <? locator_begin right.2
  else key_lt left.1 right.1.

Definition candidate_le (left right : list Z * TensorLocator) : Prop := candidate_lt right left = false.
#[export] Instance candidate_le_dec left right : Decision (candidate_le left right).
Proof. unfold candidate_le. apply _. Defined.

(** Names differ, so the sorted order is unique. *)
Definition sort_candidates (candidates : Locators) : Locators := merge_sort candidate_le candidates.

(** [plan.shards[shard_indices.at(name)]] gets one more tensor; the index is
    there, since the identity of the shard was found. *)
Fixpoint add_to_shard (name : list Z) (index : nat) (bytes : Z) (all : list PlannedShard) : option (list PlannedShard) :=
  match all with
  | [] => Some []
  | s :: all =>
      if bool_decide (filename (identity s) = name) then
        copied ← checked_add (shard_copied_bytes s) bytes;
        Some ({| identity := identity s; tensor_indices := tensor_indices s ++ [index]; shard_copied_bytes := copied |} :: all)
      else rest ← add_to_shard name index bytes all; Some (s :: rest)
  end.

Definition place_one (c : list Z * TensorLocator) (p : ResidentLoadPlan) : ResidentLoadDiagnostic + ResidentLoadPlan :=
  let name := c.1 in
  let l := c.2 in
  let overflow {A} (o : option A) := require o kArithmeticOverflow name (shard l) (locator_begin l) in
  allocation ← overflow (checked_align_up (locator_bytes l) kResidentTensorAlignment);
  arena ← overflow (checked_add (arena_bytes p) allocation);
  copied ← overflow (checked_add (copied_bytes p) (locator_bytes l));
  let tensor := {|
    planned_name := name; planned_shard := shard l; source_begin := locator_begin l; source_end := locator_end l;
    arena_offset := arena - allocation; planned_bytes := locator_bytes l; planned_dtype := locator_dtype l;
    planned_shape := locator_shape l |} in
  all ← require (add_to_shard (shard l) (length (planned_tensors p)) (locator_bytes l) (planned_shards p))
    kArithmeticOverflow name (shard l) 0;
  inr {| arena_bytes := arena; copied_bytes := copied; source_bytes := source_bytes p;
         planned_tensors := planned_tensors p ++ [tensor]; planned_shards := all |}.

Fixpoint place_all (candidates : Locators) (p : ResidentLoadPlan) : ResidentLoadDiagnostic + ResidentLoadPlan :=
  match candidates with
  | [] => inr p
  | c :: candidates => p ← place_one c p; place_all candidates p
  end.

Definition empty_plan (known : Identities) (total : Z) : ResidentLoadPlan := {|
  arena_bytes := 0; copied_bytes := 0; source_bytes := total; planned_tensors := [];
  planned_shards := (fun i => {| identity := i.2; tensor_indices := []; shard_copied_bytes := 0 |}) <$> known
|}.

(** A total of the summary that is given must be the plan's. *)
Definition disagrees (stated computed : Z) : bool := negb (stated =? 0) && negb (stated =? computed).

Definition build_resident_load_plan (m : WeightManifest) (ids : list ShardIdentity) : ResidentLoadDiagnostic + ResidentLoadPlan :=
  let s := manifest_summary m in
  _ ← fail_if (bool_decide (ids = [])) kInvalidShardIdentity (lit "identities") [] 0;
  '(known, total) ← check_identities ids [] 0;
  g ← gather known (manifest_tensors m) {| ranges := []; manifest_shards := []; text_candidates := [] |};
  _ ← check_used known (manifest_shards g);
  _ ← fail_if (disagrees (shard_count s) (Z.of_nat (length known))) kInvalidManifest (lit "summary.shard_count") [] 0;
  _ ← check_overlaps (ranges g);
  p ← place_all (sort_candidates (text_candidates g)) (empty_plan known total);
  _ ← fail_if (bool_decide (planned_tensors p = []) || disagrees (text_tensor_count s) (Z.of_nat (length (planned_tensors p)))
               || disagrees (raw_text_bytes s) (copied_bytes p) || disagrees (arena_alignment s) kResidentTensorAlignment
               || disagrees (estimated_text_arena_bytes s) (arena_bytes p))
        kInvalidManifest (lit "manifest.summary") [] 0;
  inr p.

(** ** Identities *)

Lemma plan_fail_if test c where_ shard_ at_offset u : fail_if test c where_ shard_ at_offset = inr u <-> test = false.
Proof. destruct u, test; done. Qed.
Lemma plan_require {A} (o : option A) c where_ shard_ at_offset a : require o c where_ shard_ at_offset = inr a <-> o = Some a.
Proof. destruct o; unfold require, failure; split; congruence. Qed.

(** The steps of a successful check, and how to pass them. *)
Ltac checks H :=
  repeat match type of H with
  | (_ ≫= _) = inr _ => let a := fresh "a" in let Ha := fresh "Ha" in
      apply sum_bind_inr in H as (a & Ha & H);
      first [apply plan_fail_if in Ha | apply plan_require in Ha | idtac]
  | fail_if _ _ _ _ _ = inr _ => apply plan_fail_if in H
  end.
Ltac passes := apply sum_bind_inr; first [exists tt; split; [apply plan_fail_if|] | eexists; split; [apply plan_require|]].

Record identity_ok (i : ShardIdentity) : Prop := {
  identity_safe : is_safe_relative_shard_path (filename i) = true;
  identity_nonempty : identity_size i <> 0;
  identity_digest : is_lower_hex_digest (identity_sha256 i) = true
}.

Definition sum_of {A} (f : A -> Z) (l : list A) : Z := foldr Z.add 0 (f <$> l).

Lemma sum_of_cons {A} (f : A -> Z) x l : sum_of f (x :: l) = f x + sum_of f l.
Proof. done. Qed.

Lemma sum_of_app {A} (f : A -> Z) l k : sum_of f (l ++ k) = sum_of f l + sum_of f k.
Proof. unfold sum_of. induction l as [|x l IH]; cbn; [done|]. cbn in IH. lia. Qed.

Lemma sum_of_nonneg {A} (f : A -> Z) l : Forall (fun x => 0 <= f x) l -> 0 <= sum_of f l.
Proof. unfold sum_of. induction 1; cbn; [done|]. cbn in *. lia. Qed.

Lemma sum_of_perm {A} (f : A -> Z) l k : l ≡ₚ k -> sum_of f l = sum_of f k.
Proof. unfold sum_of. induction 1; cbn in *; lia. Qed.

Lemma sum_of_le {A} (f g : A -> Z) l : Forall (fun x => f x <= g x) l -> sum_of f l <= sum_of g l.
Proof. unfold sum_of. induction 1; cbn in *; lia. Qed.

Definition identity_entries (ids : list ShardIdentity) : Identities := (fun i => (filename i, i)) <$> ids.

Definition size_typed (i : ShardIdentity) : Prop := is_u64 (identity_size i).

Lemma sizes_nonneg ids : Forall size_typed ids -> 0 <= sum_of identity_size ids.
Proof. intros H. apply sum_of_nonneg. eapply Forall_impl; [exact H|]. unfold size_typed, is_u64. simpl. lia. Qed.

Lemma check_identities_exact ids known total known' total' : Forall size_typed ids -> is_u64 total ->
  check_identities ids known total = inr (known', total') <->
  Forall identity_ok ids /\ NoDup (filename <$> ids) /\ Forall (fun i => map_find (filename i) known = None) ids /\
  known' = emplace_entries (identity_entries ids) known /\ total' = total + sum_of identity_size ids /\ total' <= u64_max.
Proof.
  intros Hids. revert known total. induction Hids as [|i ids Hi Hids IH]; intros known total Ht; cbn [check_identities].
  { split.
    - intros [= <- <-]. unfold is_u64, u64_max, sum_of in *. cbn. split_and!; try constructor; lia.
    - intros (_ & _ & _ & -> & -> & _). unfold sum_of. cbn. by rewrite Z.add_0_r. }
  pose proof (sizes_nonneg ids Hids) as Hsum. unfold size_typed in Hi. cbv zeta. cbn [fmap list_fmap]. split.
  - intros H. checks H. apply checked_add_Some in Ha2 as [-> Hfit]; [|done..]. bools. rewrite bool_decide_eq_true in *.
    apply IH in H as (Hok & Hnd & Hfresh & -> & -> & Hle); [|unfold is_u64, u64_max in *; lia].
    rewrite Forall_forall in Hfresh.
    assert (Hne : forall j, j ∈ ids -> filename j <> filename i).
    { intros j Hj Heq. specialize (Hfresh j Hj). rewrite Heq, map_find_emplace, decide_True in Hfresh by done. done. }
    split_and!; try done.
    + by constructor.
    + constructor; [|done]. intros (j & Hj & Hin)%list_elem_of_fmap. by apply (Hne j).
    + constructor; [done|]. apply Forall_forall. intros j Hj. specialize (Hfresh j Hj).
      rewrite map_find_emplace, decide_False in Hfresh by auto. done.
    + rewrite sum_of_cons. lia.
  - intros (Hok & Hnd & Hfresh & -> & -> & Hle). apply Forall_cons in Hok as [[Hs Hz Hd] Hok].
    apply NoDup_cons in Hnd as [Hni Hnd]. apply Forall_cons in Hfresh as [Hf Hfresh].
    rewrite sum_of_cons in *.
    passes; [by rewrite Hs|]. passes; [by rewrite Hd, (proj2 (Z.eqb_neq _ _) Hz)|]. passes; [by rewrite bool_decide_true|].
    passes; [apply checked_add_Some; [done|done|]; split; [done|lia]|].
    apply IH; [unfold is_u64, u64_max in *; lia|]. split_and!; try done; [|lia..].
    rewrite Forall_forall in Hfresh |- *. intros j Hj. rewrite map_find_emplace, decide_False; [by apply Hfresh|..|done].
    intros Heq. apply Hni, list_elem_of_fmap. eauto.
Qed.

(** The map of the identities. *)
Definition identity_map (ids : list ShardIdentity) : Identities := emplace_entries (identity_entries ids) [].

Section identity_map.
Context (ids : list ShardIdentity) (Hnd : NoDup (filename <$> ids)).

Lemma entries_keys : (identity_entries ids).*1 = filename <$> ids.
Proof using. unfold identity_entries. by rewrite <- list_fmap_compose. Qed.

Lemma identity_map_sorted : keys_sorted (identity_map ids).
Proof using. apply emplace_entries_sorted. constructor. Qed.

Lemma identity_map_perm : identity_map ids ≡ₚ identity_entries ids.
Proof using Hnd.
  unfold identity_map. rewrite emplace_entries_perm; [by rewrite app_nil_r|by rewrite entries_keys|done].
Qed.

Lemma identity_map_find name i : map_find name (identity_map ids) = Some i <-> i ∈ ids /\ filename i = name.
Proof using Hnd.
  split.
  - intros Hf%map_find_elem. rewrite identity_map_perm in Hf. apply list_elem_of_fmap in Hf as (j & [= -> ->] & Hj). done.
  - intros [Hi <-]. apply elem_map_find; [apply identity_map_sorted|]. rewrite identity_map_perm.
    apply list_elem_of_fmap. eauto.
Qed.
End identity_map.

(** ** Locators *)

(** A locator that agrees with the rules of the manifest and with its shard. *)
Record source_ok (known : Identities) (nl : list Z * TensorLocator) : Prop := {
  source_safe : is_safe_relative_shard_path (shard nl.2) = true;
  source_shard : exists i, map_find (shard nl.2) known = Some i /\ locator_end nl.2 <= identity_size i;
  source_category : category nl.2 = classify_tensor nl.1;
  source_known : classify_tensor nl.1 <> kUnknown;
  source_forward : locator_begin nl.2 < locator_end nl.2;
  source_length : locator_bytes nl.2 = locator_end nl.2 - locator_begin nl.2;
  source_storage : compute_byte_size (locator_dtype nl.2) (locator_shape nl.2) = Some (locator_bytes nl.2)
}.

Lemma tensor_bytes_match_exact l :
  tensor_bytes_match l = true <-> compute_byte_size (locator_dtype l) (locator_shape l) = Some (locator_bytes l).
Proof.
  unfold tensor_bytes_match, compute_byte_size. destruct (checked_product (locator_shape l) 1) as [e|]; simpl; [|done].
  destruct (checked_multiply e (bit_width (locator_dtype l))) as [b|]; simpl; [|done].
  rewrite andb_true_iff, !Z.eqb_eq. destruct (Z.eqb_spec (b mod 8) 0); simpl; [|split; [by intros [? _]|done]].
  split; [intros [_ ->]; done|]. by intros [= ->].
Qed.

Lemma check_locator_exact known name l u : check_locator known name l = inr u <-> source_ok known (name, l).
Proof.
  unfold check_locator. split.
  - intros H. checks H. bools. rewrite bool_decide_eq_false, bool_decide_eq_true in *.
    split; simpl; try (done || lia); [exists a0; split; [done|lia]|by apply tensor_bytes_match_exact].
  - intros [Hs (i & Hi & Hend) Hc Hk Hf Hl Hb]. simpl in *. destruct u. passes; [by rewrite Hs|].
    passes; [exact Hi|]. passes; [by apply Z.leb_gt|]. apply plan_fail_if.
    rewrite (bool_decide_false _ Hk), (bool_decide_true _ Hc), (proj2 (Z.eqb_neq (locator_bytes l) 0)) by lia.
    rewrite <- Hl, Z.eqb_refl, (proj2 (Z.ltb_ge _ _) Hend), (proj2 (tensor_bytes_match_exact l) Hb). done.
Qed.

(** What the loop gathers, as folds. *)
Definition push_all (found : Locators) (rs : list (list Z * list DataRange)) : list (list Z * list DataRange) :=
  foldl (fun rs nl => map_push (shard nl.2) (source_range nl.1 nl.2) rs) rs found.

Lemma gather_exact known found g g' : gather known found g = inr g' <->
  Forall (source_ok known) found /\
  g' = {| ranges := push_all found (ranges g);
          manifest_shards := emplace_all ((fun nl => shard nl.2) <$> found) (manifest_shards g);
          text_candidates := text_candidates g ++ skipped_tensors kText found |}.
Proof.
  revert g. induction found as [|[name l] found IH]; intros g; cbn [gather].
  { unfold push_all, skipped_tensors. destruct g. simpl. rewrite app_nil_r. split; [intros [= <-]; split; [constructor|done]|].
    by intros [_ ->]. }
  rewrite Forall_cons, <- (check_locator_exact known name l tt). split.
  - intros H. apply sum_bind_inr in H as ([] & Hc & H). apply IH in H as [Hok ->]. split; [done|].
    cbn. f_equal. unfold skipped_tensors. cbn [List.filter fst]. case_bool_decide; [by rewrite <- app_assoc|done].
  - intros [[Hc Hok] ->]. apply sum_bind_inr. exists tt. split; [done|]. apply IH. split; [done|].
    cbn. f_equal. unfold skipped_tensors. cbn [List.filter fst]. case_bool_decide; [by rewrite <- app_assoc|done].
Qed.

Lemma check_used_exact known used u : check_used known used = inr u <-> Forall (fun ni => ni.1 ∈ used) known.
Proof.
  destruct u. induction known as [|[name i] known IH]; cbn [check_used]; [split; [constructor|done]|].
  rewrite Forall_cons. simpl. case_bool_decide; [rewrite IH; tauto|]. split; [done|]. by intros [? _].
Qed.

(** *** Pushing into the map *)

Lemma map_push_keys {A} key (v : A) values k : k ∈ (map_push key v values).*1 <-> k = key \/ k ∈ values.*1.
Proof.
  induction values as [|[k' vs] values IH]; simpl; [by rewrite elem_of_cons|].
  destruct (key_lt key k'); simpl; [by rewrite elem_of_cons|].
  case_bool_decide as Hk; simpl; rewrite !elem_of_cons; [subst; tauto|]. rewrite IH. tauto.
Qed.

Lemma map_push_sorted {A} key (v : A) values : keys_sorted values -> keys_sorted (map_push key v values).
Proof.
  rewrite !keys_sorted_keys. unfold set_sorted. induction values as [|[k vs] values IH]; simpl; [repeat constructor|].
  intros [Hs Hf]%StronglySorted_inv. rewrite Forall_forall in Hf. destruct (key_lt key k) eqn:Hlt; simpl.
  - constructor; [constructor; [done|by apply Forall_forall]|]. constructor; [done|]. apply Forall_forall.
    intros k' Hk'. eapply key_lt_trans; [exact Hlt|by apply Hf].
  - case_bool_decide as Heq; simpl; (constructor; [by apply IH || done|]); apply Forall_forall; intros k' Hk'; [by apply Hf|].
    apply map_push_keys in Hk' as [->|Hk']; [|by apply Hf]. apply key_lt_total; congruence.
Qed.

Lemma map_find_push {A} key (v : A) values k : keys_sorted values ->
  map_find k (map_push key v values) = if decide (k = key) then Some (default [] (map_find k values) ++ [v]) else map_find k values.
Proof.
  induction values as [|[k' vs] values IH]; simpl; intros Hs.
  { case_decide as Hk; [subst; by rewrite bool_decide_true|by rewrite bool_decide_false by congruence]. }
  apply keys_sorted_cons in Hs as [Hs Hlt]. destruct (key_lt key k') eqn:Hk'; simpl.
  - destruct (decide (k = key)) as [->|Hne]; [|by rewrite (bool_decide_false (key = k)) by congruence].
    rewrite bool_decide_true by done. rewrite bool_decide_false by (intros ->; by rewrite key_lt_irrefl in Hk').
    assert (map_find key values = None) as ->; [|done]. apply map_find_None.
    intros (kv & -> & Hin)%list_elem_of_fmap. apply Hlt in Hin. simpl in Hin.
    pose proof (key_lt_trans _ _ _ Hk' Hin) as Hc. by rewrite key_lt_irrefl in Hc.
  - destruct (decide (k' = key)) as [->|Hne]; simpl.
    + rewrite (bool_decide_true (key = key)) by done. simpl. destruct (decide (k = key)) as [->|Hk].
      * by rewrite !bool_decide_true.
      * by rewrite !bool_decide_false by congruence.
    + rewrite (bool_decide_false (k' = key)) by done. simpl. rewrite (IH Hs).
      case_bool_decide as Hkk; [|done]. subst. by rewrite decide_False.
Qed.

Lemma elem_of_filtered {A} (f : A -> bool) l x : x ∈ List.filter f l <-> x ∈ l /\ f x = true.
Proof. by rewrite !list_elem_of_In, filter_In. Qed.

Definition on_shard (s : list Z) (nl : list Z * TensorLocator) : bool := bool_decide (shard nl.2 = s).

(** The ranges of the tensors of one shard. *)
Definition shard_ranges (s : list Z) (found : Locators) : list DataRange :=
  (fun nl => source_range nl.1 nl.2) <$> List.filter (on_shard s) found.

Lemma push_all_find found rs s : keys_sorted rs ->
  keys_sorted (push_all found rs) /\
  default [] (map_find s (push_all found rs)) = default [] (map_find s rs) ++ shard_ranges s found.
Proof.
  unfold push_all. revert rs. induction found as [|nl found IH]; intros rs Hs; simpl; [by rewrite app_nil_r|].
  destruct (IH _ (map_push_sorted (shard nl.2) (source_range nl.1 nl.2) _ Hs)) as [Hs' ->]. split; [done|].
  rewrite map_find_push by done. unfold shard_ranges. cbn [List.filter]. unfold on_shard at 2.
  destruct (decide (s = shard nl.2)) as [->|Hne].
  - rewrite bool_decide_true by done. cbn. by rewrite <- app_assoc.
  - by rewrite bool_decide_false by congruence.
Qed.

(** ** Overlaps *)

(** Ranges one after another. *)
Definition before (a b : DataRange) : Prop := range_end a <= range_begin b.
Definition proper_range (r : DataRange) : Prop := range_begin r < range_end r.

Lemma check_adjacent_exact s previous rest u : proper_range previous -> Forall proper_range rest ->
  check_adjacent s previous rest = inr u <-> StronglySorted before (previous :: rest).
Proof.
  intros Hp Hr. revert previous Hp. destruct u. induction Hr as [|r rest Hrp Hr IH]; intros previous Hp; cbn [check_adjacent].
  { split; [|done]. intros _. repeat constructor. }
  destruct (Z.ltb_spec (range_begin r) (range_end previous)) as [Hlt|Hge].
  - split; [done|]. intros [_ [Hb _]%Forall_cons]%StronglySorted_inv. unfold before in Hb. lia.
  - rewrite (IH r Hrp). split.
    + intros Hs. constructor; [done|]. pose proof Hs as [_ Hf]%StronglySorted_inv. constructor; [done|].
      eapply Forall_impl; [exact Hf|]. unfold before, proper_range in *. simpl. lia.
    + by intros [Hs _]%StronglySorted_inv.
Qed.

Definition apart (a b : DataRange) : Prop := before a b \/ before b a.

(** Sorted ranges follow one another when no two of them meet. *)
Lemma sorted_apart rs : NoDup rs -> Forall proper_range rs ->
  StronglySorted before (sort_ranges rs) <-> (forall a b, a ∈ rs -> b ∈ rs -> a <> b -> apart a b).
Proof.
  intros Hnd Hp. assert (Hperm : sort_ranges rs ≡ₚ rs) by apply merge_sort_Permutation.
  assert (Hs : StronglySorted range_le (sort_ranges rs)) by (apply StronglySorted_merge_sort; apply _).
  rewrite <- Hperm in Hnd, Hp. assert (Hin : forall x, x ∈ sort_ranges rs <-> x ∈ rs) by (intros; by rewrite Hperm).
  setoid_rewrite <- Hin. clear Hin Hperm. revert Hnd Hp Hs. generalize (sort_ranges rs) as l. clear rs. intros l Hnd Hp Hs.
  induction Hs as [|x l Hs IH Hx]; [split; [by intros _ a b Ha%not_elem_of_nil|constructor]|].
  apply NoDup_cons in Hnd as [Hni Hnd]. apply Forall_cons in Hp as [Hpx Hp]. specialize (IH Hnd Hp).
  rewrite Forall_forall in Hx, Hp. split.
  - intros [Hl Hf]%StronglySorted_inv. rewrite Forall_forall in Hf. destruct IH as [IH _].
    intros a b [->|Ha]%elem_of_cons [->|Hb]%elem_of_cons Hne; [done|left; by apply Hf|right; by apply Hf|by apply IH].
  - intros H. constructor; [apply IH; intros; apply H; [by right..|done]|]. apply Forall_forall. intros y Hy.
    destruct (H x y) as [|Hyx]; [by left|by right|by intros ->|done|].
    pose proof (range_le_begin _ _ (Hx _ Hy)) as [Hle _]. unfold before, proper_range in *. specialize (Hp _ Hy). lia.
Qed.

Definition no_overlap (rs : list DataRange) : Prop := forall a b, a ∈ rs -> b ∈ rs -> a <> b -> apart a b.

Lemma check_overlaps_exact all u : Forall (fun srs => NoDup srs.2 /\ Forall proper_range srs.2) all ->
  check_overlaps all = inr u <-> Forall (fun srs => no_overlap srs.2) all.
Proof.
  intros Hall. destruct u. induction Hall as [|[s rs] all [Hnd Hp] Hall IH]; cbn [check_overlaps]; [split; [constructor|done]|].
  rewrite Forall_cons, <- IH. simpl in *. unfold no_overlap. rewrite <- sorted_apart by done.
  assert (Hsp : Forall proper_range (sort_ranges rs)) by (unfold sort_ranges; by rewrite merge_sort_Permutation).
  rewrite sum_bind_inr. destruct (sort_ranges rs) as [|r rest].
  - split; [by intros ([] & _ & ?); split; [constructor|]|]. intros [_ ?]. by exists tt.
  - apply Forall_cons in Hsp as [Hr Hrest]. split.
    + intros ([] & H & ?). by apply check_adjacent_exact in H.
    + intros [H ?]. exists tt. split; [|done]. by apply check_adjacent_exact.
Qed.

Section gathered.
Context (m : Locators) (known : Identities) (Hm : keys_sorted m) (Hok : Forall (source_ok known) m).

Lemma shard_ranges_elem s r : r ∈ shard_ranges s m <-> exists nl, nl ∈ m /\ shard nl.2 = s /\ r = source_range nl.1 nl.2.
Proof using.
  unfold shard_ranges. rewrite list_elem_of_fmap. split.
  - intros (nl & -> & [Hin Hb%bool_decide_eq_true]%elem_of_filtered). by exists nl.
  - intros (nl & Hin & Hs & ->). exists nl. split; [done|]. apply elem_of_filtered.
    split; [done|by apply bool_decide_eq_true].
Qed.

Lemma filter_keys_sorted {A} (f : list Z * A -> bool) l : keys_sorted l -> keys_sorted (List.filter f l).
Proof using.
  unfold keys_sorted. induction 1 as [|x l Hs IH Hf]; cbn [List.filter]; [constructor|]. destruct (f x); [|done].
  constructor; [done|]. rewrite Forall_forall in *. intros y [Hy _]%elem_of_filtered. by apply Hf.
Qed.

Lemma shard_ranges_ok s : NoDup (shard_ranges s m) /\ Forall proper_range (shard_ranges s m).
Proof using Hm Hok.
  split.
  - apply (NoDup_fmap_1 range_name). unfold shard_ranges. rewrite <- list_fmap_compose.
    apply (keys_sorted_NoDup (List.filter (on_shard s) m)). by apply filter_keys_sorted.
  - apply Forall_forall. intros r (nl & Hin & _ & ->)%shard_ranges_elem. rewrite Forall_forall in Hok.
    by destruct (Hok nl Hin).
Qed.

(** No two tensors of a shard share a byte of it. *)
Definition sources_apart : Prop :=
  forall a b, a ∈ m -> b ∈ m -> a.1 <> b.1 -> shard a.2 = shard b.2 ->
    locator_end a.2 <= locator_begin b.2 \/ locator_end b.2 <= locator_begin a.2.

Lemma overlaps_exact u : check_overlaps (push_all m []) = inr u <-> sources_apart.
Proof using Hm Hok.
  destruct (push_all_find m [] [] ltac:(constructor)) as [Hs _].
  assert (Hfind : forall s rs, (s, rs) ∈ push_all m [] -> rs = shard_ranges s m).
  { intros s rs Hin. apply (elem_map_find _ _ _ Hs) in Hin.
    destruct (push_all_find m [] s ltac:(constructor)) as [_ Hd]. by rewrite Hin in Hd. }
  rewrite check_overlaps_exact.
  2:{ apply Forall_forall. intros [s rs] Hin. rewrite (Hfind _ _ Hin). apply shard_ranges_ok. }
  rewrite Forall_forall. split.
  - intros H a b Ha Hb Hne Hsh. destruct (push_all_find m [] (shard a.2) ltac:(constructor)) as [_ Hd].
    assert (Hra : source_range a.1 a.2 ∈ shard_ranges (shard a.2) m) by (apply shard_ranges_elem; eauto).
    assert (Hrb : source_range b.1 b.2 ∈ shard_ranges (shard a.2) m) by (apply shard_ranges_elem; eauto).
    destruct (map_find (shard a.2) (push_all m [])) as [rs|] eqn:Hf; cbn in Hd.
    + apply map_find_elem in Hf. destruct (H _ Hf (source_range a.1 a.2) (source_range b.1 b.2)); simpl.
      * by rewrite Hd.
      * by rewrite Hd.
      * intros [= _ _ ?]. done.
      * by left.
      * by right.
    + rewrite <- Hd in Hra. by apply not_elem_of_nil in Hra.
  - intros H [s rs] Hin. simpl. rewrite (Hfind _ _ Hin).
    intros x y (a & Ha & <- & ->)%shard_ranges_elem (b & Hb & Hsh & ->)%shard_ranges_elem Hne.
    apply H; [done|done| |by symmetry]. intros Heq. apply Hne.
    assert (a = b) as ->; [|done]. destruct a as [n la], b as [n' lb]. simpl in *. subst n'.
    apply (elem_map_find _ _ _ Hm) in Ha, Hb. congruence.
Qed.
End gathered.

(** ** The layout *)

Definition allocation (bytes : Z) : Z := align_up kResidentTensorAlignment bytes.

Lemma allocation_exact bytes n : 0 <= bytes ->
  checked_align_up bytes kResidentTensorAlignment = Some n <-> n = allocation bytes /\ bytes + 255 <= u64_max.
Proof. intros Hb. unfold allocation. change kResidentTensorAlignment with (2 ^ 8). rewrite checked_align_up_exact by lia. done. Qed.

Lemma allocation_ge bytes : bytes <= allocation bytes < bytes + 256.
Proof. apply (align_up_ge 256). lia. Qed.

Lemma allocation_fits bytes : allocation bytes <= u64_max -> bytes + 255 <= u64_max.
Proof. intros H. apply (align_up_fits 8) in H; lia. Qed.

Lemma allocation_aligned bytes : (kResidentTensorAlignment | allocation bytes).
Proof. unfold allocation, align_up. apply Z.divide_factor_r. Qed.

#[local] Opaque allocation.

(** A tensor at its place in the arena. *)
Definition planned_at (offset : Z) (c : list Z * TensorLocator) : PlannedTensor := {|
  planned_name := c.1; planned_shard := shard c.2; source_begin := locator_begin c.2; source_end := locator_end c.2;
  arena_offset := offset; planned_bytes := locator_bytes c.2; planned_dtype := locator_dtype c.2;
  planned_shape := locator_shape c.2
|}.

Fixpoint layout (offset : Z) (cs : Locators) : list PlannedTensor :=
  match cs with
  | [] => []
  | c :: cs => planned_at offset c :: layout (offset + allocation (locator_bytes c.2)) cs
  end.

Definition arena_total (cs : Locators) : Z := sum_of (fun c => allocation (locator_bytes c.2)) cs.
Definition copied_total (cs : Locators) : Z := sum_of (fun c => locator_bytes c.2) cs.

Lemma layout_app offset cs cs' : layout offset (cs ++ cs') = layout offset cs ++ layout (offset + arena_total cs) cs'.
Proof.
  revert offset. induction cs as [|c cs IH]; intros offset; simpl; [by rewrite Z.add_0_r|].
  unfold arena_total. rewrite IH, sum_of_cons. unfold arena_total. by rewrite Z.add_assoc.
Qed.

Lemma layout_length offset cs : length (layout offset cs) = length cs.
Proof. revert offset. induction cs; intros offset; simpl; [done|]. by rewrite IHcs. Qed.

Lemma layout_map {B} (f : PlannedTensor -> B) (g : list Z * TensorLocator -> B) offset cs :
  (forall o c, f (planned_at o c) = g c) -> f <$> layout offset cs = g <$> cs.
Proof. intros Hfg. revert offset. induction cs; intros offset; cbn; [done|]. by rewrite Hfg, IHcs. Qed.

(** The tensors of a shard, by their index in the plan. *)
Definition of_shard (name : list Z) (t : PlannedTensor) : bool := bool_decide (planned_shard t = name).
Definition indices_of (name : list Z) (ts : list PlannedTensor) : list nat :=
  List.filter (fun i => bool_decide (planned_shard <$> ts !! i = Some name)) (seq 0 (length ts)).

Lemma filter_ext_seq (f g : nat -> bool) n : (forall i, (i < n)%nat -> f i = g i) ->
  List.filter f (seq 0 n) = List.filter g (seq 0 n).
Proof. intros H. apply filter_ext_in. intros i Hi%in_seq. apply H. lia. Qed.

Lemma indices_of_snoc name ts t :
  indices_of name (ts ++ [t]) = indices_of name ts ++ if of_shard name t then [length ts] else [].
Proof.
  unfold indices_of, of_shard. rewrite length_app. cbn [length]. rewrite Nat.add_1_r, seq_S, List.filter_app. f_equal.
  - apply filter_ext_seq. intros i Hi. by rewrite lookup_app_l.
  - cbn [List.filter Nat.add]. rewrite lookup_app_r, Nat.sub_diag by done. cbn.
    repeat case_bool_decide; congruence.
Qed.

Definition plan_shard (ts : list PlannedTensor) (ni : list Z * ShardIdentity) : PlannedShard := {|
  identity := ni.2; tensor_indices := indices_of ni.1 ts;
  shard_copied_bytes := sum_of planned_bytes (List.filter (of_shard ni.1) ts)
|}.

(** The plan of a list of tensors, without overflow. *)
Definition plan_of (known : Identities) (total : Z) (cs : Locators) : ResidentLoadPlan := {|
  arena_bytes := arena_total cs; copied_bytes := copied_total cs; source_bytes := total;
  planned_tensors := layout 0 cs; planned_shards := plan_shard (layout 0 cs) <$> known
|}.

Lemma empty_plan_of known total : empty_plan known total = plan_of known total [].
Proof. done. Qed.

Lemma plan_shard_snoc ts t ni : plan_shard (ts ++ [t]) ni =
  if of_shard ni.1 t then {| identity := ni.2; tensor_indices := indices_of ni.1 ts ++ [length ts];
       shard_copied_bytes := sum_of planned_bytes (List.filter (of_shard ni.1) ts) + planned_bytes t |}
  else plan_shard ts ni.
Proof.
  unfold plan_shard. rewrite indices_of_snoc, List.filter_app. cbn [List.filter]. destruct (of_shard ni.1 t).
  - rewrite sum_of_app. f_equal. unfold sum_of. cbn. lia.
  - by rewrite !app_nil_r.
Qed.

Lemma filter_sum_le ts f : Forall (fun t => 0 <= planned_bytes t) ts ->
  0 <= sum_of planned_bytes (List.filter f ts) <= sum_of planned_bytes ts.
Proof. induction 1 as [|t ts Ht _ IH]; cbn [List.filter]; [done|]. destruct (f t); rewrite !sum_of_cons; lia. Qed.

Lemma add_to_shard_exact ts t known :
  Forall (fun ni => filename ni.2 = ni.1) known -> NoDup known.*1 -> planned_shard t ∈ known.*1 ->
  Forall (fun t => 0 <= planned_bytes t) (ts ++ [t]) -> sum_of planned_bytes (ts ++ [t]) <= u64_max ->
  add_to_shard (planned_shard t) (length ts) (planned_bytes t) (plan_shard ts <$> known) = Some (plan_shard (ts ++ [t]) <$> known).
Proof.
  intros Hk Hnd Hin [Hts [Ht _]%Forall_cons]%Forall_app Hsum. rewrite sum_of_app, sum_of_cons in Hsum.
  change (sum_of planned_bytes []) with 0 in Hsum.
  induction Hk as [|[name i] known Hi Hk IH]; [by apply not_elem_of_nil in Hin|]. cbn [fmap list_fmap fst snd] in *. subst name.
  apply NoDup_cons in Hnd as [Hni Hnd]. cbn [add_to_shard]. rewrite plan_shard_snoc. unfold of_shard. cbn [fst snd].
  unfold plan_shard at 1 3. cbn [identity]. case_bool_decide as Hc; simpl in Hc.
  - rewrite (bool_decide_true (planned_shard t = filename i)) by done. cbn [fst snd plan_shard shard_copied_bytes tensor_indices identity].
    pose proof (filter_sum_le ts (of_shard (filename i)) Hts).
    set (b := sum_of planned_bytes (List.filter (of_shard (filename i)) ts)) in *.
    assert (Hb : b + planned_bytes t <= u64_max) by lia.
    assert (Hadd : checked_add b (planned_bytes t) = Some (b + planned_bytes t)).
    { apply checked_add_Some; [..|done]; unfold is_u64, u64_max in *; lia. }
    rewrite Hadd.
    cbn. do 2 f_equal. apply list_fmap_ext. intros j [name' i'] Hj. rewrite plan_shard_snoc. unfold of_shard. cbn.
    rewrite bool_decide_false; [done|]. intros Heq. apply Hni. apply list_elem_of_fmap. exists (name', i').
    split; [simpl; congruence|]. by apply list_elem_of_lookup_2 in Hj.
  - rewrite (bool_decide_false (planned_shard t = filename i)) by congruence.
    apply elem_of_cons in Hin as [|Hin]; [congruence|]. by rewrite (IH Hnd Hin).
Qed.

Lemma arena_total_app cs c : arena_total (cs ++ [c]) = arena_total cs + allocation (locator_bytes c.2).
Proof. unfold arena_total. rewrite sum_of_app, sum_of_cons. change (sum_of _ []) with 0. lia. Qed.
Lemma copied_total_app cs c : copied_total (cs ++ [c]) = copied_total cs + locator_bytes c.2.
Proof. unfold copied_total. rewrite sum_of_app, sum_of_cons. change (sum_of _ []) with 0. lia. Qed.

Definition bytes_typed (c : list Z * TensorLocator) : Prop := is_u64 (locator_bytes c.2).

Lemma totals_nonneg cs : Forall bytes_typed cs -> 0 <= copied_total cs <= arena_total cs.
Proof.
  intros H. split.
  - apply sum_of_nonneg. eapply Forall_impl; [exact H|]. unfold bytes_typed, is_u64. simpl. lia.
  - apply sum_of_le, Forall_forall. intros c _. apply allocation_ge.
Qed.

Lemma layout_bytes offset cs : sum_of planned_bytes (layout offset cs) = copied_total cs.
Proof. unfold copied_total, sum_of. by rewrite (layout_map planned_bytes (fun c => locator_bytes c.2)). Qed.

Lemma layout_nonneg offset cs : Forall bytes_typed cs -> Forall (fun t => 0 <= planned_bytes t) (layout offset cs).
Proof.
  intros H. revert offset. induction H as [|c cs Hc H IH]; intros offset; simpl; [constructor|].
  constructor; [|apply IH]. unfold bytes_typed, is_u64 in Hc. simpl. lia.
Qed.

Section place_all.
Context (known : Identities) (total : Z).
Context (Hk : Forall (fun ni => filename ni.2 = ni.1) known) (Hnd : NoDup known.*1).

Lemma place_one_exact cs c p : Forall bytes_typed (cs ++ [c]) -> shard c.2 ∈ known.*1 -> arena_total cs <= u64_max ->
  place_one c (plan_of known total cs) = inr p <->
  arena_total (cs ++ [c]) <= u64_max /\ p = plan_of known total (cs ++ [c]).
Proof using Hk Hnd.
  intros Hty Hin Hfit. pose proof (totals_nonneg _ Hty) as Htot. pose proof (layout_nonneg 0 _ Hty) as Hnn.
  pose proof Hty as [Hts [Hc _]%Forall_cons]%Forall_app. pose proof (totals_nonneg _ Hts) as Htot'.
  rewrite layout_app in Hnn. cbn [layout] in Hnn.
  rewrite arena_total_app, copied_total_app in Htot. rewrite arena_total_app. unfold bytes_typed, is_u64 in Hc.
  pose proof (allocation_ge (locator_bytes c.2)) as Hge.
  assert (Hadd : arena_total cs + allocation (locator_bytes c.2) <= u64_max ->
    add_to_shard (shard c.2) (length (layout 0 cs)) (locator_bytes c.2) (plan_shard (layout 0 cs) <$> known)
    = Some (plan_shard (layout 0 (cs ++ [c])) <$> known)).
  { intros Hov. rewrite layout_app. cbn [layout].
    apply (add_to_shard_exact (layout 0 cs) (planned_at (0 + arena_total cs) c)); [done..|].
    rewrite sum_of_app, sum_of_cons, layout_bytes. change (sum_of planned_bytes []) with 0. simpl. lia. }
  unfold place_one. cbv zeta. cbn [arena_bytes copied_bytes planned_tensors planned_shards plan_of source_bytes]. split.
  - intros H. checks H. apply allocation_exact in Ha as [-> Hbig]; [|lia].
    apply checked_add_Some in Ha0 as [-> Hov]; [|unfold is_u64, u64_max in *; lia..].
    apply checked_add_Some in Ha1 as [-> _]; [|unfold is_u64, u64_max in *; lia..].
    split; [done|]. rewrite (Hadd Hov) in Ha2. injection Ha2 as <-. injection H as <-.
    unfold plan_of. rewrite arena_total_app, copied_total_app, layout_app. cbn [layout].
    by replace (arena_total cs + allocation (locator_bytes c.2) - allocation (locator_bytes c.2)) with (0 + arena_total cs) by lia.
  - intros [Hov ->]. passes; [apply allocation_exact; [lia|]; split; [done|]; apply allocation_fits; lia|].
    passes; [apply checked_add_Some; [unfold is_u64, u64_max in *; lia..|]; by split|].
    passes; [apply checked_add_Some; [unfold is_u64, u64_max in *; lia..|]; split; [done|lia]|].
    passes; [exact (Hadd Hov)|].
    unfold plan_of. rewrite arena_total_app, copied_total_app, layout_app. cbn [layout].
    by replace (arena_total cs + allocation (locator_bytes c.2) - allocation (locator_bytes c.2)) with (0 + arena_total cs) by lia.
Qed.

Lemma place_all_exact cs' cs p : Forall bytes_typed (cs ++ cs') -> Forall (fun c => shard c.2 ∈ known.*1) cs' ->
  arena_total cs <= u64_max ->
  place_all cs' (plan_of known total cs) = inr p <-> arena_total (cs ++ cs') <= u64_max /\ p = plan_of known total (cs ++ cs').
Proof using Hk Hnd.
  revert cs. induction cs' as [|c cs' IH]; intros cs Hty Hin Hfit; cbn [place_all].
  { rewrite app_nil_r. split; [intros [= <-]; done|by intros [_ ->]]. }
  assert (Hassoc : cs ++ c :: cs' = (cs ++ [c]) ++ cs') by by rewrite <- app_assoc.
  rewrite Hassoc in *. apply Forall_cons in Hin as [Hc Hin]. pose proof Hty as [Hty1 Hty2]%Forall_app.
  rewrite sum_bind_inr. split.
  - intros (p1 & H1 & H). apply place_one_exact in H1 as [Hov ->]; [|done..]. by apply IH in H.
  - intros [Hov ->]. exists (plan_of known total (cs ++ [c])).
    assert (Hov1 : arena_total (cs ++ [c]) <= u64_max).
    { unfold arena_total in *. rewrite sum_of_app in Hov. pose proof (totals_nonneg _ Hty2). unfold arena_total in *. lia. }
    split; [by apply place_one_exact|]. by apply IH.
Qed.
End place_all.

(** ** The plan *)

#[export] Instance candidate_le_total : Total candidate_le.
Proof.
  intros a b. unfold candidate_le. destruct (candidate_lt b a) eqn:Hba; [right|by left].
  unfold candidate_lt in *. destruct (decide (shard a.2 = shard b.2)) as [Hs|Hs].
  - rewrite bool_decide_true in Hba |- * by done. simpl in *. rewrite (Z.eqb_sym (locator_begin a.2)).
    destruct (Z.eqb_spec (locator_begin b.2) (locator_begin a.2)); simpl in *; [|bools; apply Z.ltb_ge; lia].
    destruct (key_lt a.1 b.1) eqn:Hab; [|done]. pose proof (key_lt_trans _ _ _ Hba Hab) as Hc. by rewrite key_lt_irrefl in Hc.
  - rewrite bool_decide_false in Hba |- * by congruence. simpl in *.
    destruct (key_lt (shard a.2) (shard b.2)) eqn:Hab; [|done].
    pose proof (key_lt_trans _ _ _ Hba Hab) as Hc. by rewrite key_lt_irrefl in Hc.
Qed.

(** The order of the plan: by shard, then by the beginning of the source. *)
Definition not_after (a b : list Z * TensorLocator) : Prop :=
  key_lt (shard a.2) (shard b.2) = true \/ shard a.2 = shard b.2 /\ locator_begin a.2 <= locator_begin b.2.

Lemma key_le_trans a b c : key_lt b a = false -> key_lt c b = false -> key_lt c a = false.
Proof.
  intros Hab Hbc. destruct (key_lt c a) eqn:Hca; [|done]. destruct (decide (a = b)) as [->|Hne]; [congruence|].
  pose proof (key_lt_trans _ _ _ Hca (key_lt_total _ _ Hab (not_eq_sym Hne))). congruence.
Qed.

#[export] Instance candidate_le_trans : Transitive candidate_le.
Proof.
  intros a b c. unfold candidate_le, candidate_lt.
  destruct (decide (shard b.2 = shard a.2)) as [Hab|Hab], (decide (shard c.2 = shard b.2)) as [Hbc|Hbc].
  - rewrite !bool_decide_true by congruence. simpl.
    destruct (Z.eqb_spec (locator_begin b.2) (locator_begin a.2)), (Z.eqb_spec (locator_begin c.2) (locator_begin b.2)),
      (Z.eqb_spec (locator_begin c.2) (locator_begin a.2)); simpl; rewrite ?Z.ltb_ge; try lia. apply key_le_trans.
  - rewrite (bool_decide_true (shard b.2 = _)), (bool_decide_false (shard c.2 = shard b.2)), bool_decide_false by congruence.
    simpl. intros _. congruence.
  - rewrite (bool_decide_true (shard c.2 = _)), (bool_decide_false (shard b.2 = _)), bool_decide_false by congruence.
    simpl. congruence.
  - rewrite (bool_decide_false (shard b.2 = _)), (bool_decide_false (shard c.2 = shard b.2)) by congruence. simpl.
    intros H1 H2. pose proof (key_le_trans _ _ _ H1 H2) as H3. case_bool_decide as Hc; simpl; [|done].
    exfalso. rewrite <- Hc in H1. pose proof (key_lt_total _ _ H2 ltac:(congruence)). congruence.
Qed.

Lemma candidate_le_order a b : candidate_le a b -> not_after a b.
Proof.
  unfold candidate_le, candidate_lt, not_after. destruct (decide (shard b.2 = shard a.2)) as [Hs|Hs].
  - rewrite bool_decide_true by done. simpl. intros H. right. split; [done|].
    destruct (Z.eqb_spec (locator_begin b.2) (locator_begin a.2)); simpl in H; bools; lia.
  - rewrite bool_decide_false by done. simpl. intros H. left. by apply key_lt_total.
Qed.

Lemma disagrees_exact stated computed : disagrees stated computed = false <-> stated = 0 \/ stated = computed.
Proof. unfold disagrees. rewrite andb_false_iff, !negb_false_iff, !Z.eqb_eq. done. Qed.

(** The text tensors, in the order of the plan. *)
Definition text_of (m : WeightManifest) : Locators := skipped_tensors kText (manifest_tensors m).

Record plannable (m : WeightManifest) (ids : list ShardIdentity) : Prop := {
  plan_nonempty : ids <> [];
  plan_identities : Forall identity_ok ids;
  plan_distinct : NoDup (filename <$> ids);
  plan_total : sum_of identity_size ids <= u64_max;
  plan_sources : Forall (source_ok (identity_map ids)) (manifest_tensors m);
  plan_used : Forall (fun i => filename i ∈ (fun nl => shard nl.2) <$> manifest_tensors m) ids;
  plan_apart : sources_apart (manifest_tensors m);
  plan_some : text_of m <> [];
  plan_arena : arena_total (text_of m) <= u64_max;
  plan_shard_count : shard_count (manifest_summary m) = 0 \/ shard_count (manifest_summary m) = Z.of_nat (length ids);
  plan_text_count : text_tensor_count (manifest_summary m) = 0 \/
    text_tensor_count (manifest_summary m) = Z.of_nat (length (text_of m));
  plan_text_bytes : raw_text_bytes (manifest_summary m) = 0 \/ raw_text_bytes (manifest_summary m) = copied_total (text_of m);
  plan_alignment : arena_alignment (manifest_summary m) = 0 \/ arena_alignment (manifest_summary m) = kResidentTensorAlignment;
  plan_arena_bytes : estimated_text_arena_bytes (manifest_summary m) = 0 \/
    estimated_text_arena_bytes (manifest_summary m) = arena_total (text_of m)
}.

(** What holds of the values of the code by their types. *)
Record plan_typed (m : WeightManifest) (ids : list ShardIdentity) : Prop := {
  tensors_are_a_map : keys_sorted (manifest_tensors m);
  tensors_typed : Forall (fun nl => typed nl.2) (manifest_tensors m);
  sizes_typed : Forall size_typed ids
}.

Definition the_plan (m : WeightManifest) (ids : list ShardIdentity) : ResidentLoadPlan :=
  plan_of (identity_map ids) (sum_of identity_size ids) (sort_candidates (text_of m)).

Section exact.
Context (m : WeightManifest) (ids : list ShardIdentity) (Hty : plan_typed m ids).

Lemma text_in_order : sort_candidates (text_of m) ≡ₚ text_of m.
Proof using. apply merge_sort_Permutation. Qed.

Lemma text_elem nl : nl ∈ text_of m <-> nl ∈ manifest_tensors m /\ classify_tensor nl.1 = kText.
Proof using.
  unfold text_of, skipped_tensors. rewrite elem_of_filtered. by rewrite bool_decide_eq_true.
Qed.

Lemma totals_in_order : arena_total (sort_candidates (text_of m)) = arena_total (text_of m) /\
  copied_total (sort_candidates (text_of m)) = copied_total (text_of m).
Proof using. split; apply sum_of_perm, text_in_order. Qed.

Lemma text_typed : Forall bytes_typed (sort_candidates (text_of m)).
Proof using Hty.
  rewrite text_in_order. apply Forall_forall. intros nl [Hin _]%text_elem. destruct Hty as [_ Ht _].
  rewrite Forall_forall in Ht. by apply Ht.
Qed.

Lemma summary_exact p u : p = the_plan m ids ->
  fail_if (bool_decide (planned_tensors p = [])
    || disagrees (text_tensor_count (manifest_summary m)) (Z.of_nat (length (planned_tensors p)))
    || disagrees (raw_text_bytes (manifest_summary m)) (copied_bytes p)
    || disagrees (arena_alignment (manifest_summary m)) kResidentTensorAlignment
    || disagrees (estimated_text_arena_bytes (manifest_summary m)) (arena_bytes p))
    kInvalidManifest (lit "manifest.summary") [] 0 = inr u <->
  text_of m <> [] /\
  (text_tensor_count (manifest_summary m) = 0 \/ text_tensor_count (manifest_summary m) = Z.of_nat (length (text_of m))) /\
  (raw_text_bytes (manifest_summary m) = 0 \/ raw_text_bytes (manifest_summary m) = copied_total (text_of m)) /\
  (arena_alignment (manifest_summary m) = 0 \/ arena_alignment (manifest_summary m) = kResidentTensorAlignment) /\
  (estimated_text_arena_bytes (manifest_summary m) = 0 \/
   estimated_text_arena_bytes (manifest_summary m) = arena_total (text_of m)).
Proof using.
  intros ->. rewrite plan_fail_if, !orb_false_iff, !disagrees_exact, bool_decide_eq_false.
  unfold the_plan, plan_of. cbn [planned_tensors copied_bytes arena_bytes]. rewrite layout_length.
  destruct totals_in_order as [-> ->].
  assert (Hlen : length (sort_candidates (text_of m)) = length (text_of m)) by apply Permutation_length, text_in_order.
  rewrite Hlen. assert (layout 0 (sort_candidates (text_of m)) <> [] <-> text_of m <> []) as ->; [|tauto].
  by rewrite <- (length_zero_iff_nil (text_of m)), <- length_zero_iff_nil, layout_length, Hlen.
Qed.

Lemma map_ok : NoDup (filename <$> ids) ->
  Forall (fun ni => filename ni.2 = ni.1) (identity_map ids) /\ NoDup (identity_map ids).*1 /\
  length (identity_map ids) = length ids.
Proof using.
  intros Hnd. pose proof (identity_map_perm ids Hnd) as Hp. split_and!.
  - rewrite Hp. unfold identity_entries. by apply Forall_fmap, Forall_true.
  - apply keys_sorted_NoDup, identity_map_sorted.
  - rewrite Hp. unfold identity_entries. by rewrite length_fmap.
Qed.

Lemma used_exact u : NoDup (filename <$> ids) ->
  check_used (identity_map ids) (emplace_all ((fun nl => shard nl.2) <$> manifest_tensors m) []) = inr u <->
  Forall (fun i => filename i ∈ (fun nl => shard nl.2) <$> manifest_tensors m) ids.
Proof using.
  intros Hnd. rewrite check_used_exact, (identity_map_perm ids Hnd). unfold identity_entries. rewrite Forall_fmap.
  apply Forall_iff. intros i. unfold compose. cbn [fst]. rewrite elem_of_emplace_all, elem_of_nil. tauto.
Qed.

Lemma sources_have_shards : Forall (source_ok (identity_map ids)) (manifest_tensors m) ->
  Forall (fun c => shard c.2 ∈ (identity_map ids).*1) (sort_candidates (text_of m)).
Proof using.
  rewrite text_in_order, !Forall_forall. intros Hok nl [Hin _]%text_elem. destruct (Hok nl Hin) as [_ (i & Hi & _) _ _ _ _ _].
  apply list_elem_of_fmap. exists (shard nl.2, i). split; [done|]. by apply map_find_elem.
Qed.

(** The plan that is built, exactly when one is. *)
Lemma build_is p : build_resident_load_plan m ids = inr p <-> plannable m ids /\ p = the_plan m ids.
Proof using Hty.
  pose proof Hty as [Hmap Hts Hsz]. pose proof text_typed as Htx. destruct totals_in_order as [Htot _].
  assert (Hplace : forall q, NoDup (filename <$> ids) -> Forall (source_ok (identity_map ids)) (manifest_tensors m) ->
    place_all (sort_candidates (text_of m)) (empty_plan (identity_map ids) (sum_of identity_size ids)) = inr q <->
    arena_total (text_of m) <= u64_max /\ q = the_plan m ids).
  { intros q Hnd Hok. destruct (map_ok Hnd) as (Hf & Hn & _). rewrite empty_plan_of, <- Htot.
    rewrite (place_all_exact _ (sum_of identity_size ids) Hf Hn (sort_candidates (text_of m)) []);
      [done|done|by apply sources_have_shards|done]. }
  unfold build_resident_load_plan. cbv zeta. split.
  - intros H. checks H. apply bool_decide_eq_false in Ha.
    destruct a0 as [known total]. apply check_identities_exact in Ha0 as (Hid & Hnd & _ & -> & -> & Hle); [|done|done].
    fold (identity_map ids) in *. checks H. apply gather_exact in Ha0 as [Hok ->]. cbn [ranges manifest_shards text_candidates] in *.
    apply used_exact in Ha1; [|done]. apply disagrees_exact in Ha2. destruct (map_ok Hnd) as (_ & _ & Hlen). rewrite Hlen in Ha2.
    apply (overlaps_exact _ (identity_map ids)) in Ha3; [|done..].
    rewrite app_nil_l in Ha4. apply (Hplace _ Hnd Hok) in Ha4 as [Hov ->].
    injection H as <-. rewrite <- (plan_fail_if _ kInvalidManifest (lit "manifest.summary") [] 0 tt) in Ha5.
    apply summary_exact in Ha5 as (? & ? & ? & ? & ?); [|done]. by split.
  - intros [[Hne Hid Hnd Hle Hok Hu Hap Hsome Har Hc H1 H2 H3 H4] ->]. destruct (map_ok Hnd) as (_ & _ & Hlen).
    passes; [by apply bool_decide_eq_false|]. apply sum_bind_inr.
    exists (identity_map ids, sum_of identity_size ids). split.
    { apply check_identities_exact; [done..|]. split_and!; try done. by apply Forall_forall. }
    apply sum_bind_inr. eexists. split; [apply gather_exact; split; [exact Hok|reflexivity]|].
    cbn [ranges manifest_shards text_candidates]. apply sum_bind_inr. exists tt. split; [by apply used_exact|].
    passes; [rewrite Hlen; by apply disagrees_exact|]. apply sum_bind_inr. exists tt.
    split; [by apply (overlaps_exact _ (identity_map ids))|]. rewrite app_nil_l. apply sum_bind_inr.
    exists (the_plan m ids). split; [by apply Hplace|]. apply sum_bind_inr. exists tt. split; [|done].
    by apply summary_exact.
Qed.
End exact.

(** *** What the layout is good for *)

Lemma layout_lookup offset cs i t : layout offset cs !! i = Some t ->
  exists c, cs !! i = Some c /\ t = planned_at (offset + arena_total (take i cs)) c.
Proof.
  revert offset i. induction cs as [|c cs IH]; intros offset i Hi; [done|]. destruct i as [|i]; cbn in Hi.
  - injection Hi as <-. exists c. split; [done|]. simpl. by rewrite Z.add_0_r.
  - apply IH in Hi as (c' & Hc & ->). exists c'. split; [done|]. unfold arena_total. cbn [take]. rewrite sum_of_cons. by rewrite Z.add_assoc.
Qed.

Lemma arena_total_take cs i c : cs !! i = Some c ->
  arena_total (take (S i) cs) = arena_total (take i cs) + allocation (locator_bytes c.2).
Proof. intros Hc. by rewrite (take_S_r _ _ _ Hc), arena_total_app. Qed.

Lemma bytes_typed_take cs n : Forall bytes_typed cs -> Forall bytes_typed (take n cs) /\ Forall bytes_typed (drop n cs).
Proof. intros H. split; [by apply Forall_take|by apply Forall_drop]. Qed.

Lemma arena_total_mono cs i j : Forall bytes_typed cs -> (i <= j)%nat -> arena_total (take i cs) <= arena_total (take j cs).
Proof.
  intros Hty Hij. replace j with (i + (j - i))%nat by lia. rewrite <- take_take_drop. unfold arena_total. rewrite sum_of_app.
  destruct (bytes_typed_take cs i Hty) as [_ Hd]. destruct (bytes_typed_take _ (j - i) Hd) as [Ht _].
  pose proof (totals_nonneg _ Ht). unfold arena_total in *. lia.
Qed.

Lemma arena_total_take_le cs i : Forall bytes_typed cs -> arena_total (take i cs) <= arena_total cs.
Proof.
  intros Hty. destruct (bytes_typed_take cs i Hty) as [_ Hd]. pose proof (totals_nonneg _ Hd). unfold arena_total in *.
  rewrite <- (take_drop i cs) at 2. rewrite sum_of_app. lia.
Qed.

Lemma arena_total_aligned cs : (kResidentTensorAlignment | arena_total cs).
Proof.
  unfold arena_total. induction cs as [|c cs IH]; [exists 0; done|]. rewrite sum_of_cons.
  apply Z.divide_add_r; [apply allocation_aligned|done].
Qed.

Lemma StronglySorted_pair {A} (R : A -> A -> Prop) l i j a b :
  StronglySorted R l -> (i < j)%nat -> l !! i = Some a -> l !! j = Some b -> R a b.
Proof.
  intros Hs. revert i j. induction Hs as [|x l Hs IH Hf]; intros i j Hij Ha Hb; [done|].
  destruct j as [|j]; [lia|]. simpl in Hb. destruct i as [|i]; simpl in Ha.
  - injection Ha as <-. rewrite Forall_forall in Hf. apply Hf. by apply list_elem_of_lookup_2 in Hb.
  - apply (IH i j); [lia|done..].
Qed.

(** The plan of the manifest: every text tensor once, in ranges of the arena
    that are aligned and share no byte; every shard with its tensors, which
    follow one another in the file. *)
Record laid_out (m : WeightManifest) (ids : list ShardIdentity) (p : ResidentLoadPlan) : Prop := {
  laid_tensors : exists order, order ≡ₚ text_of m /\
    Forall2 (fun nl t => t = planned_at (arena_offset t) nl) order (planned_tensors p);
  laid_order : forall i j a b, (i < j)%nat -> planned_tensors p !! i = Some a -> planned_tensors p !! j = Some b ->
    arena_offset a + planned_bytes a <= arena_offset b /\
    (key_lt (planned_shard a) (planned_shard b) = true \/
     planned_shard a = planned_shard b /\ source_end a <= source_begin b);
  laid_inside : Forall (fun t => (kResidentTensorAlignment | arena_offset t) /\ 0 <= arena_offset t /\
    arena_offset t + planned_bytes t <= arena_bytes p /\ 0 <= source_begin t < source_end t /\
    planned_bytes t = source_end t - source_begin t) (planned_tensors p);
  laid_sources : Forall (fun t => exists i, i ∈ ids /\ filename i = planned_shard t /\ source_end t <= identity_size i)
    (planned_tensors p);
  laid_shards : identity <$> planned_shards p ≡ₚ ids /\ NoDup (filename <$> ids);
  laid_members : Forall (fun s => tensor_indices s = indices_of (filename (identity s)) (planned_tensors p) /\
    shard_copied_bytes s = sum_of planned_bytes (List.filter (of_shard (filename (identity s))) (planned_tensors p)))
    (planned_shards p);
  laid_totals : arena_bytes p = arena_total (text_of m) /\ arena_bytes p <= u64_max /\
    copied_bytes p = copied_total (text_of m) /\ source_bytes p = sum_of identity_size ids
}.

Lemma plan_shards_identity ts (known : list (list Z * ShardIdentity)) : identity <$> (plan_shard ts <$> known) = known.*2.
Proof. induction known; cbn; [done|]. f_equal. done. Qed.

Lemma identity_entries_snd ids : (identity_entries ids).*2 = ids.
Proof. unfold identity_entries. induction ids; cbn; [done|]. f_equal. done. Qed.

Section laid.
Context (m : WeightManifest) (ids : list ShardIdentity) (Hty : plan_typed m ids) (Hp : plannable m ids).

Lemma text_ok nl : nl ∈ sort_candidates (text_of m) ->
  nl ∈ manifest_tensors m /\ source_ok (identity_map ids) nl /\ typed nl.2.
Proof using Hty Hp.
  rewrite text_in_order. intros [Hin _]%text_elem. destruct Hp as [_ _ _ _ Hok _ _ _ _ _ _ _ _ _], Hty as [_ Ht _].
  rewrite Forall_forall in Hok, Ht. split_and!; auto.
Qed.

Lemma text_names_NoDup : NoDup (sort_candidates (text_of m)).*1.
Proof using Hty.
  rewrite text_in_order. apply keys_sorted_NoDup. unfold text_of, skipped_tensors. apply filter_keys_sorted. by destruct Hty.
Qed.

Lemma laid_order_holds i j a b : (i < j)%nat ->
  layout 0 (sort_candidates (text_of m)) !! i = Some a -> layout 0 (sort_candidates (text_of m)) !! j = Some b ->
  arena_offset a + planned_bytes a <= arena_offset b /\
  (key_lt (planned_shard a) (planned_shard b) = true \/
   planned_shard a = planned_shard b /\ source_end a <= source_begin b).
Proof using Hty Hp.
  intros Hij (ca & Hca & ->)%layout_lookup (cb & Hcb & ->)%layout_lookup. simpl. split.
  - pose proof (arena_total_mono _ (S i) j (text_typed m ids Hty) ltac:(lia)) as Hmono.
    rewrite (arena_total_take _ _ _ Hca) in Hmono. pose proof (allocation_ge (locator_bytes ca.2)). lia.
  - assert (Hle : candidate_le ca cb).
    { eapply (StronglySorted_pair candidate_le); [apply StronglySorted_merge_sort; apply _|exact Hij|done..]. }
    apply candidate_le_order in Hle as [|[Hs Hb]]; [by left|]. right. split; [done|].
    assert (Hne : ca.1 <> cb.1).
    { intros Heq. assert (i = j); [|lia]. apply (NoDup_lookup _ i j ca.1 text_names_NoDup); rewrite list_lookup_fmap.
      - exact (f_equal (fmap fst) Hca).
      - rewrite Heq. exact (f_equal (fmap fst) Hcb). }
    apply list_elem_of_lookup_2 in Hca, Hcb. destruct (text_ok _ Hca) as (Hina & Hoka & _), (text_ok _ Hcb) as (Hinb & Hokb & _).
    destruct (plan_apart _ _ Hp ca cb) as [|Hba]; [done..|]. destruct Hoka, Hokb. lia.
Qed.

Lemma laid_inside_holds t : t ∈ layout 0 (sort_candidates (text_of m)) ->
  ((kResidentTensorAlignment | arena_offset t) /\ 0 <= arena_offset t /\
   arena_offset t + planned_bytes t <= arena_total (text_of m) /\ 0 <= source_begin t < source_end t /\
   planned_bytes t = source_end t - source_begin t) /\
  (exists i, i ∈ ids /\ filename i = planned_shard t /\ source_end t <= identity_size i).
Proof using Hty Hp.
  intros (i & Hi)%list_elem_of_lookup. apply layout_lookup in Hi as (c & Hc & ->). simpl.
  pose proof (text_typed m ids Hty) as Htx. destruct (bytes_typed_take _ i Htx) as [Hti _].
  pose proof (totals_nonneg _ Hti). pose proof (arena_total_take_le _ (S i) Htx) as Hle.
  rewrite (arena_total_take _ _ _ Hc) in Hle. destruct (totals_in_order m) as [Htot _]. rewrite Htot in Hle.
  pose proof (allocation_ge (locator_bytes c.2)). apply list_elem_of_lookup_2 in Hc.
  destruct (text_ok _ Hc) as (_ & [_ (idn & Hf & He) _ _ Hfw Hl _] & (Hb & _)).
  apply (identity_map_find _ (plan_distinct _ _ Hp)) in Hf as [Hin Hn]. unfold is_u64 in Hb.
  split; [split_and!; try lia; apply arena_total_aligned|by exists idn].
Qed.

Lemma the_plan_laid_out : laid_out m ids (the_plan m ids).
Proof using Hty Hp.
  destruct (map_ok ids (plan_distinct _ _ Hp)) as (Hf & _ & _). destruct (totals_in_order m) as [Htot Hcop].
  unfold the_plan, plan_of. split; cbn [planned_tensors arena_bytes planned_shards copied_bytes source_bytes].
  - exists (sort_candidates (text_of m)). split; [apply text_in_order|]. apply Forall2_same_length_lookup_2; [by rewrite layout_length|].
    intros i nl t Hnl Ht. apply layout_lookup in Ht as (c & Hc & ->). pose proof (eq_trans (eq_sym Hnl) Hc) as He. by injection He as ->.
  - apply laid_order_holds.
  - apply Forall_forall. rewrite Htot. intros t Ht. by apply laid_inside_holds.
  - apply Forall_forall. intros t Ht. by apply laid_inside_holds.
  - split; [|by destruct Hp]. rewrite plan_shards_identity. rewrite <- (identity_entries_snd ids) at 2.
    apply fmap_Permutation, identity_map_perm. by destruct Hp.
  - apply Forall_fmap. eapply Forall_impl; [exact Hf|]. intros [name i] Heq. simpl in *. by subst name.
  - rewrite Htot, Hcop. split_and!; [done|by destruct Hp|done|done].
Qed.
End laid.

(** C34. The plan is built exactly when the manifest and the identities agree:
    the identities are safe, distinct and valid, every locator describes a range
    of a shard whose size the dtype and shape give, no two ranges of a shard
    meet, every shard is used, and the totals of the summary are the plan's.
    The plan then has every text tensor once, in aligned ranges of the arena
    that share no byte and lie inside it, and every shard has the tensors it
    holds, in the order of the file. *)
Theorem plan_exact m ids : plan_typed m ids ->
  ((exists p, build_resident_load_plan m ids = inr p) <-> plannable m ids) /\
  (forall p, build_resident_load_plan m ids = inr p -> laid_out m ids p).
Proof.
  intros Hty. split.
  - split; [intros (p & H); by apply (build_is m ids Hty) in H as [Hp _]|]. intros Hp. exists (the_plan m ids). by apply build_is.
  - intros p H. apply build_is in H as [Hp ->]; [|done]. by apply the_plan_laid_out.
Qed.

(** *** A small plan *)

Definition sample_planned_locator (c : TensorCategory) (in_shard : list Z) (b e : Z) (dtype : DType) (dims : list Z) : TensorLocator := {|
  category := c; shard := in_shard; locator_file := slash :: in_shard; locator_begin := b; locator_end := e;
  locator_bytes := e - b; locator_dtype := dtype; locator_shape := dims
|}.

Definition sample_manifest : WeightManifest := {|
  manifest_checkpoint := None;
  manifest_summary := {|
    shard_count := 2; manifest_tensor_count := 4; text_tensor_count := 3; vision_tensor_count := 1; mtp_tensor_count := 0;
    fp8_module_count := 0; nvfp4_module_count := 0; raw_text_bytes := 312; vision_bytes := 4; mtp_bytes := 0; skipped_bytes := 4;
    arena_alignment := 256; estimated_text_arena_bytes := 1024 |};
  manifest_tensors := [
    (lit "lm_head.weight", sample_planned_locator kText (lit "b.safetensors") 16 20 kF32 []);
    (lit "model.language_model.a", sample_planned_locator kText (lit "a.safetensors") 312 320 kU8 [8]);
    (lit "model.language_model.b", sample_planned_locator kText (lit "a.safetensors") 8 308 kU8 [30; 10]);
    (lit "model.visual.x", sample_planned_locator kVision (lit "a.safetensors") 308 312 kU8 [4])]
|}.

Definition sample_identities : list ShardIdentity := [
  {| filename := lit "b.safetensors"; identity_size := 20; identity_sha256 := repeat 48 64 |};
  {| filename := lit "a.safetensors"; identity_size := 320; identity_sha256 := repeat 102 64 |}].

Lemma sample_plan_typed : plan_typed sample_manifest sample_identities.
Proof.
  split; [apply keys_sorted_keys; repeat (constructor; [|by repeat constructor]); constructor|..];
    repeat constructor; unfold size_typed, is_u64; cbn; lia.
Qed.

Lemma plan_exact_witness : plan_typed sample_manifest sample_identities /\ plannable sample_manifest sample_identities /\
  exists p, build_resident_load_plan sample_manifest sample_identities = inr p /\ laid_out sample_manifest sample_identities p /\
    (fun t => (planned_name t, arena_offset t)) <$> planned_tensors p =
    [(lit "model.language_model.b", 0); (lit "model.language_model.a", 512); (lit "lm_head.weight", 768)].
Proof.
  destruct (plan_exact _ _ sample_plan_typed) as [Hiff Hlaid]. split; [exact sample_plan_typed|].
  destruct (build_resident_load_plan sample_manifest sample_identities) as [d|p] eqn:Hb; [vm_compute in Hb; discriminate Hb|].
  split; [apply Hiff; by exists p|]. exists p. split; [done|]. split; [by apply Hlaid|].
  vm_compute in Hb. injection Hb as <-. by vm_compute.
Defined.

(** *** The pinned shards *)

Lemma pinned_identities : Forall identity_ok pinned_qwen36_27b_shards /\ NoDup (filename <$> pinned_qwen36_27b_shards) /\
  sum_of identity_size pinned_qwen36_27b_shards = 21921697184.
Proof.
  split_and!; [repeat constructor; vm_compute; discriminate || reflexivity| |by vm_compute].
  apply (bool_decide_eq_true_1 (NoDup (filename <$> pinned_qwen36_27b_shards))). by vm_compute.
Qed.
