(* ===== verification/ResidentShard.v ===== *)
(** * ResidentShard: one shard read, hashed and copied to the device
      (src/runtime/resident_weights.cpp, load_one_shard and what it calls)

    A worker reads a shard front to back in chunks.  Every chunk is read into
    one of two staging buffers, hashed there, and the parts of it that belong to
    text tensors are copied to the arena by copies that the device performs
    later: a buffer is written again only after the event recorded behind its
    copies.

    The device runs at its own pace ([device_advance]): before every step of the host
    it performs any number of the copies that are queued, and a copy reads its
    staging buffer when it is performed.  What the file answers to each read,
    which CUDA calls fail, and what the kernel's hash socket answers are lists.

    A diagnostic keeps its code, context, shard and offset.  Memory is never
    exhausted. *)

From Stdlib Require Import String Ascii Sorting.Sorted.
From stdpp Require Import sorting.
From S2P Require Import Prelude OrderedMap Sha256 Json Safetensors ModelConfig Checkpoint WeightManifest ResidentPlan.

(** ** Data *)

Inductive ResidentSha256Backend := kAuto | kPortable | kLinuxAfAlg.

#[global] Instance ResidentSha256Backend_eq_dec : EqDecision ResidentSha256Backend.
Proof. solve_decision. Defined.

Record ResidentLoadOptions := {
  chunk_bytes : Z;
  min_free_bytes_after_load : Z;
  max_arena_bytes : Z;
  load_max_tensors : Z;
  load_max_shards : Z;
  max_memcpy_operations : Z;
  sha256_backend : ResidentSha256Backend;
  max_parallel_shards : Z
}.

Record ShardLoadStats := {
  stats_filename : list Z;
  bytes_read : Z;
  bytes_copied : Z;
  chunks : Z;
  memcpy_operations : Z;
  stats_sha256 : list Z
}.

(** What [attempted] says is whether there is an outcome. *)
Record ShardLoadOutcome := { outcome_stats : ShardLoadStats; outcome_diagnostic : option ResidentLoadDiagnostic }.

Definition outcome_ok (r : ShardLoadOutcome) : bool := bool_decide (outcome_diagnostic r = None).

(** ** The world of a worker *)

(** What the file has for the next reads: some bytes, no byte (its end), an
    interruption or an error.  A list that ends is the end of the file. *)
Inductive FileAnswer := Arrives (bytes : list Z) | ReadInterrupted | ReadFails.

(** What a call on the hash socket returns; a list that ends is an error. *)
Inductive SocketAnswer := Returns (n : Z) | SocketInterrupted | SocketFails.

(** A copy that the device has been asked for. *)
Record Copy := { destination : Z; copy_slot : nat; copy_offset : nat; copy_size : nat }.

Record Pipeline := {
  file_answers : list FileAnswer;
  final_status : option (bool * Z);   (* [fstat] at the end: is it regular, and its size *)
  socket_answers : list SocketAnswer;
  socket_message : list Z;            (* what the kernel has been sent to hash *)
  staging : list (list Z);
  pending : list Copy;                (* asked for and not performed, in the order of the stream *)
  writes : list (Z * list Z);         (* performed: where, and what *)
  events : list nat;                  (* the copies ahead of each slot's event, performed or not *)
  cuda_answers : list bool;           (* a list that ends is success *)
  pace : list nat                     (* the copies performed before each step; a list that ends is none *)
}.

Definition set_files (answers : list FileAnswer) (slots : list (list Z)) (w : Pipeline) : Pipeline := {|
  file_answers := answers; final_status := final_status w; socket_answers := socket_answers w;
  socket_message := socket_message w; staging := slots; pending := pending w; writes := writes w; events := events w;
  cuda_answers := cuda_answers w; pace := pace w |}.
Definition set_socket (answers : list SocketAnswer) (message : list Z) (w : Pipeline) : Pipeline := {|
  file_answers := file_answers w; final_status := final_status w; socket_answers := answers;
  socket_message := message; staging := staging w; pending := pending w; writes := writes w; events := events w;
  cuda_answers := cuda_answers w; pace := pace w |}.
Definition set_stream (queue : list Copy) (performed : list (Z * list Z)) (marks : list nat) (w : Pipeline) : Pipeline := {|
  file_answers := file_answers w; final_status := final_status w; socket_answers := socket_answers w;
  socket_message := socket_message w; staging := staging w; pending := queue; writes := performed; events := marks;
  cuda_answers := cuda_answers w; pace := pace w |}.
Definition set_oracle (answers : list bool) (steps : list nat) (w : Pipeline) : Pipeline := {|
  file_answers := file_answers w; final_status := final_status w; socket_answers := socket_answers w;
  socket_message := socket_message w; staging := staging w; pending := pending w; writes := writes w; events := events w;
  cuda_answers := answers; pace := steps |}.

(** *** The device *)

(** What a copy writes when it is performed. *)
Definition copied (slots : list (list Z)) (c : Copy) : Z * list Z :=
  (destination c, take (copy_size c) (drop (copy_offset c) (nth (copy_slot c) slots []))).

Definition perform (n : nat) (w : Pipeline) : Pipeline :=
  set_stream (drop n (pending w)) (writes w ++ (copied (staging w) <$> take n (pending w))) (events w) w.

Definition device_advance (w : Pipeline) : Pipeline := set_oracle (cuda_answers w) (tail (pace w)) (perform (default 0%nat (head (pace w))) w).

Definition cuda_status (w : Pipeline) : bool * Pipeline :=
  (default true (head (cuda_answers w)), set_oracle (tail (cuda_answers w)) (pace w) w).

(** A CUDA call: the device goes on, and the call fails or has its effect. *)
Definition cuda_call (effect : Pipeline -> Pipeline) (w : Pipeline) : bool * Pipeline :=
  let '(ok, w) := cuda_status (device_advance w) in (ok, if ok then effect w else w).

Definition cudaMemcpyAsync (c : Copy) : Pipeline -> bool * Pipeline :=
  cuda_call (fun w => set_stream (pending w ++ [c]) (writes w) (events w) w).

Definition cudaEventRecord (slot : nat) : Pipeline -> bool * Pipeline :=
  cuda_call (fun w => set_stream (pending w) (writes w) (<[slot := (length (writes w) + length (pending w))%nat]> (events w)) w).

Definition cudaEventSynchronize (slot : nat) : Pipeline -> bool * Pipeline :=
  cuda_call (fun w => perform (nth slot (events w) 0%nat - length (writes w)) w).

Definition cudaStreamSynchronize : Pipeline -> bool * Pipeline :=
  cuda_call (fun w => perform (length (pending w)) w).

(** ** Reading *)

Inductive ReadEnd := ReadWhole | ReadEof | ReadError.

(** What the loop of [read_exact_chunk] has read, how it ended, and what the
    file answers next. *)
Fixpoint read_loop (from_file : list FileAnswer) (requested : nat) (data : list Z) : list Z * ReadEnd * list FileAnswer :=
  if (requested <=? length data)%nat then (data, ReadWhole, from_file) else
  match from_file with
  | [] => (data, ReadEof, [])
  | Arrives bytes :: from_file =>
      let space := (requested - length data)%nat in
      if bool_decide (bytes = []) then (data, ReadEof, from_file)
      else if (length bytes <=? space)%nat then read_loop from_file requested (data ++ bytes)
      else (data ++ take space bytes, ReadWhole, Arrives (drop space bytes) :: from_file)
  | ReadInterrupted :: from_file => read_loop from_file requested data
  | ReadFails :: from_file => (data, ReadError, from_file)
  end.

(** [read_exact_chunk] into a staging buffer: what was read replaces the
    beginning of the buffer. *)
Definition read_into_slot (slot requested : nat) (w : Pipeline) : (list Z * ReadEnd) * Pipeline :=
  let w := device_advance w in
  let '(data, ended, rest) := read_loop (file_answers w) requested [] in
  let buffer := data ++ drop (length data) (nth slot (staging w) []) in
  ((data, ended), set_files rest (<[slot := buffer]> (staging w)) w).

(** [read_exact_chunk] into the byte that checks the end of the file. *)
Definition read_extra (w : Pipeline) : (list Z * ReadEnd) * Pipeline :=
  let w := device_advance w in
  let '(data, ended, rest) := read_loop (file_answers w) 1 [] in ((data, ended), set_files rest (staging w) w).

(** ** Hashing *)

Record ShardSha256 := {
  hash_backend : ResidentSha256Backend;
  portable_ : Sha256;
  has_operation : bool;     (* the socket of the kernel's hash is open *)
  bytes_hashed_ : Z;
  hash_finalized_ : bool
}.

(** [to_string(ResidentSha256Backend)] *)
Definition backend_name (backend : ResidentSha256Backend) : list Z :=
  match backend with kAuto => lit "auto" | kPortable => lit "portable" | kLinuxAfAlg => lit "linux_af_alg" end.

Definition new_hasher (backend : ResidentSha256Backend) (operation : bool) : ShardSha256 := {|
  hash_backend := backend; portable_ := fresh; has_operation := operation; bytes_hashed_ := 0; hash_finalized_ := false |}.

(** The loop that sends a chunk to the kernel. *)
Fixpoint send_to_kernel (from_socket : list SocketAnswer) (input message : list Z) : bool * list SocketAnswer * list Z :=
  if bool_decide (input = []) then (true, from_socket, message) else
  match from_socket with
  | [] => (false, [], message)
  | Returns n :: from_socket =>
      if 0 <? n then send_to_kernel from_socket (drop (Z.to_nat n) input) (message ++ take (Z.to_nat n) input)
      else (false, from_socket, message)
  | SocketInterrupted :: from_socket => send_to_kernel from_socket input message
  | SocketFails :: from_socket => (false, from_socket, message)
  end.

(** [ShardSha256::update]; the staging buffer is never the null pointer. *)
Definition hash_update (data : list Z) (h : ShardSha256) (w : Pipeline) : (bool * ShardSha256) * Pipeline :=
  let w := device_advance w in
  if hash_finalized_ h then ((false, h), w) else
  match checked_add (bytes_hashed_ h) (Z.of_nat (length data)) with
  | None => ((false, h), w)
  | Some hashed =>
      let with_portable s := {| hash_backend := hash_backend h; portable_ := s; has_operation := has_operation h;
                                bytes_hashed_ := hashed; hash_finalized_ := false |} in
      match hash_backend h with
      | kPortable =>
          let '(ok, s) := update (Some data) (Z.of_nat (length data)) (portable_ h) in ((ok, with_portable s), w)
      | kAuto => ((false, with_portable (portable_ h)), w)
      | kLinuxAfAlg =>
          if negb (has_operation h) then ((false, with_portable (portable_ h)), w) else
          let '(ok, rest, message) := send_to_kernel (socket_answers w) data (socket_message w) in
          ((ok, with_portable (portable_ h)), set_socket rest message w)
      end
  end.

(** The first answer that is not an interruption. *)
Fixpoint uninterrupted (from_socket : list SocketAnswer) : option Z * list SocketAnswer :=
  match from_socket with
  | [] => (None, [])
  | Returns n :: from_socket => (Some n, from_socket)
  | SocketInterrupted :: from_socket => uninterrupted from_socket
  | SocketFails :: from_socket => (None, from_socket)
  end.

Section kernel.
(** The digest the kernel computes of what it has been sent. *)
Context (kernel_sha256 : list Z -> list Z).

(** [ShardSha256::finalize]: the digest, or the context of the failure. *)
Definition hash_finalize (h : ShardSha256) (w : Pipeline) : (list Z + list Z) * Pipeline :=
  let w := device_advance w in
  if hash_finalized_ h then (inl (lit "SHA-256 operation was already finalized"), w) else
  match hash_backend h with
  | kPortable => (inr (fst (finalize (portable_ h))), w)
  | kAuto => (inl (lit "AF_ALG SHA-256 operation is unavailable"), w)
  | kLinuxAfAlg =>
      if negb (has_operation h) then (inl (lit "AF_ALG SHA-256 operation is unavailable"), w) else
      let '(terminated, rest) := uninterrupted (socket_answers w) in
      if negb (bool_decide (terminated = Some 0)) then
        (inl (lit "send(AF_ALG SHA-256 final)"), set_socket rest (socket_message w) w)
      else
        let '(received, rest) := uninterrupted rest in
        if negb (bool_decide (received = Some 32)) then
          (inl (lit "recv(AF_ALG SHA-256 digest)"), set_socket rest (socket_message w) w)
        else (inr (kernel_sha256 (socket_message w)), set_socket rest (socket_message w) w)
  end.

Definition digest_text (digest : list Z) : list Z := (fun c => Z.of_N (N_of_ascii c)) <$> hex digest.

(** ** Loading *)

Definition kStagingSlots : Z := 2.

Definition no_tensor : PlannedTensor := {|
  planned_name := []; planned_shard := []; source_begin := 0; source_end := 0; arena_offset := 0; planned_bytes := 0;
  planned_dtype := kBool; planned_shape := [] |}.

(** [plan.tensors[index]]; the indices of a plan are in range. *)
Definition tensor_at (p : ResidentLoadPlan) (index : nat) : PlannedTensor := nth index (planned_tensors p) no_tensor.

(** The variables of [load_one_shard]. *)
Record Local := {
  slot_pending : list bool;
  file_offset : Z;
  chunk_index : Z;
  segment_cursor : nat;
  hasher : ShardSha256;
  local_stats : ShardLoadStats
}.

Definition add_read (st : ShardLoadStats) (total count : Z) : ShardLoadStats := {|
  stats_filename := stats_filename st; bytes_read := total; bytes_copied := bytes_copied st; chunks := count;
  memcpy_operations := memcpy_operations st; stats_sha256 := stats_sha256 st |}.
Definition add_copied (st : ShardLoadStats) (total count : Z) : ShardLoadStats := {|
  stats_filename := stats_filename st; bytes_read := bytes_read st; bytes_copied := total; chunks := chunks st;
  memcpy_operations := count; stats_sha256 := stats_sha256 st |}.
Definition with_digest (st : ShardLoadStats) (text : list Z) : ShardLoadStats := {|
  stats_filename := stats_filename st; bytes_read := bytes_read st; bytes_copied := bytes_copied st; chunks := chunks st;
  memcpy_operations := memcpy_operations st; stats_sha256 := text |}.

Section shard.
Context (p : ResidentLoadPlan) (o : ResidentLoadOptions) (s : PlannedShard).

Local Open Scope flow_scope.

Definition stop {A} (st : ShardLoadStats) (c : ResidentLoadErrorCode) (where_ : list Z) (at_offset : Z) : flow Pipeline ShardLoadOutcome A :=
  return_ {| outcome_stats := st; outcome_diagnostic := Some {|
    load_code := c; load_context := where_; load_shard := filename (identity s); load_offset := at_offset |} |}.

(** Go on, or stop with a diagnostic. *)
Definition continue_if (test : bool) (st : ShardLoadStats) (c : ResidentLoadErrorCode) (where_ : list Z) (at_offset : Z)
    : flow Pipeline ShardLoadOutcome unit :=
  if test then pass tt else stop st c where_ at_offset.

(** Where a part of a tensor goes, when the arena has room for it. *)
Definition destination_of (t : PlannedTensor) (copy_begin size : Z) : option Z :=
  d ← checked_add (arena_offset t) (copy_begin - source_begin t);
  if (arena_bytes p <? d) || (arena_bytes p - d <? size) then None else Some d.

(** One turn of the loop over the segments, for a tensor that begins before the
    end of the chunk. *)
Definition one_segment (t : PlannedTensor) (chunk_begin chunk_end : Z) (slot : nat) (st : ShardLoadStats)
    : flow Pipeline ShardLoadOutcome ShardLoadStats :=
  let copy_begin := Z.max (source_begin t) chunk_begin in
  let copy_end := Z.min (source_end t) chunk_end in
  if copy_end <=? copy_begin then pass st else
  let size := copy_end - copy_begin in
  let exhausted := max_memcpy_operations o <=? memcpy_operations st in
  match destination_of t copy_begin size, exhausted with
  | Some d, false =>
      ok <~ call (cudaMemcpyAsync {| destination := d; copy_slot := slot;
                                     copy_offset := Z.to_nat (copy_begin - chunk_begin); copy_size := Z.to_nat size |});
      _ <~ continue_if ok st kCudaFailure (lit "cudaMemcpyAsync(scatter)") copy_begin;
      match checked_add (bytes_copied st) size, checked_add (memcpy_operations st) 1 with
      | Some total, Some count => pass (add_copied st total count)
      | _, _ => stop st kArithmeticOverflow (planned_name t) copy_begin
      end
  | _, _ => stop st (if exhausted then kInvalidOption else kArithmeticOverflow) (planned_name t) copy_begin
  end.

(** The loop over the segments. *)
Fixpoint scatter (segments : list nat) (chunk_begin chunk_end : Z) (slot : nat) (st : ShardLoadStats)
    : flow Pipeline ShardLoadOutcome ShardLoadStats :=
  match segments with
  | [] => pass st
  | i :: segments =>
      if chunk_end <=? source_begin (tensor_at p i) then pass st else
      st <~ one_segment (tensor_at p i) chunk_begin chunk_end slot st;
      scatter segments chunk_begin chunk_end slot st
  end.

(** The segments that end before the chunk. *)
Fixpoint skipped (segments : list nat) (chunk_begin : Z) : nat :=
  match segments with
  | [] => 0
  | i :: segments => if source_end (tensor_at p i) <=? chunk_begin then S (skipped segments chunk_begin) else 0
  end.

(** The buffer is written again only when its copies are done. *)
Definition reclaim_slot (slot : nat) (l : Local) : flow Pipeline ShardLoadOutcome (list bool) :=
  if negb (nth slot (slot_pending l) false) then pass (slot_pending l) else
  ok <~ call (cudaEventSynchronize slot);
  _ <~ continue_if ok (local_stats l) kCudaFailure (lit "cudaEventSynchronize(staging reuse)") (file_offset l);
  pass (<[slot := false]> (slot_pending l)).

(** Reading, hashing and counting a chunk. *)
Definition take_chunk (slot : nat) (l : Local) : flow Pipeline ShardLoadOutcome (Z * ShardSha256 * ShardLoadStats) :=
  let st := local_stats l in
  let size := Z.min (identity_size (identity s) - file_offset l) (chunk_bytes o) in
  '(data, ended) <~ call (read_into_slot slot (Z.to_nat size));
  let at_end := file_offset l + Z.of_nat (length data) in
  _ <~ continue_if (match ended with ReadError => false | _ => true end) st kIoFailure (lit "read") at_end;
  _ <~ continue_if (match ended with ReadWhole => true | _ => false end) st kShardSizeMismatch (lit "read") at_end;
  '(ok, h) <~ call (hash_update data (hasher l));
  _ <~ continue_if ok st kSha256Failure (backend_name (hash_backend h) ++ lit ".update") (file_offset l);
  match checked_add (file_offset l) size, checked_add (bytes_read st) size, checked_add (chunks st) 1 with
  | Some chunk_end, Some total, Some count => pass (chunk_end, h, add_read st total count)
  | _, _, _ => stop st kArithmeticOverflow (lit "statistics") (file_offset l)
  end.

(** One turn of the loop over the chunks. *)
Definition one_chunk (l : Local) : flow Pipeline ShardLoadOutcome Local :=
  let slot := Z.to_nat (chunk_index l mod kStagingSlots) in
  occupied <~ reclaim_slot slot l;
  '(chunk_end, h, st) <~ take_chunk slot l;
  let cursor := (segment_cursor l + skipped (drop (segment_cursor l) (tensor_indices s)) (file_offset l))%nat in
  st <~ scatter (drop cursor (tensor_indices s)) (file_offset l) chunk_end slot st;
  ok <~ call (cudaEventRecord slot);
  _ <~ continue_if ok st kCudaFailure (lit "cudaEventRecord(staging lifetime)") (file_offset l);
  pass {| slot_pending := <[slot := true]> occupied; file_offset := chunk_end; chunk_index := u64 (chunk_index l + 1);
          segment_cursor := cursor; hasher := h; local_stats := st |}.

(** The loop over the chunks: a chunk has at least one byte, so the size of the
    shard is enough fuel. *)
Fixpoint all_chunks (fuel : nat) (l : Local) : flow Pipeline ShardLoadOutcome Local :=
  match fuel with
  | O => pass l
  | S fuel => if identity_size (identity s) <=? file_offset l then pass l else l <~ one_chunk l; all_chunks fuel l
  end.

(** What follows the last chunk: the file must end there, and its digest must
    be the one of its identity. *)
Definition finish_shard (l : Local) : flow Pipeline ShardLoadOutcome ShardLoadOutcome :=
  let st := local_stats l in
  let size := identity_size (identity s) in
  '(data, ended) <~ call read_extra;
  _ <~ continue_if (match ended with ReadError => false | _ => true end) st kIoFailure (lit "read") size;
  _ <~ continue_if (bool_decide (data = []) && match ended with ReadEof => true | _ => false end) st kShardSizeMismatch (lit "read") size;
  status <~ gets final_status;
  _ <~ continue_if (bool_decide (status <> None)) st kIoFailure (lit "fstat") size;
  _ <~ continue_if (bool_decide (status = Some (true, size))) st kShardSizeMismatch (lit "fstat") size;
  digest <~ call (hash_finalize (hasher l));
  match digest with
  | inl where_ => stop st kSha256Failure where_ size
  | inr digest =>
      let st := with_digest st (digest_text digest) in
      _ <~ continue_if (bool_decide (digest_text digest = identity_sha256 (identity s))) st kSha256Mismatch (lit "sha256") 0;
      ok <~ call cudaStreamSynchronize;
      _ <~ continue_if ok st kCudaFailure (lit "cudaStreamSynchronize(shard)") size;
      pass {| outcome_stats := st; outcome_diagnostic := None |}
  end.

Definition load_one_shard (backend : ResidentSha256Backend) (operation : bool) : Pipeline -> ShardLoadOutcome * Pipeline :=
  body (
    l <~ all_chunks (Z.to_nat (identity_size (identity s))) {|
      slot_pending := [false; false]; file_offset := 0; chunk_index := 0; segment_cursor := 0;
      hasher := new_hasher backend operation;
      local_stats := {| stats_filename := filename (identity s); bytes_read := 0; bytes_copied := 0; chunks := 0;
                        memcpy_operations := 0; stats_sha256 := [] |} |};
    finish_shard l).
End shard.
End kernel.

(** ** The device *)

(** The writes performed and those still queued, as they will be performed if
    the buffers stay as they are. *)
Definition visible (w : Pipeline) : list (Z * list Z) := writes w ++ (copied (staging w) <$> pending w).

(** A slot whose copies are behind its event, or are done when it has none
    ([flag] is false). *)
Definition settled (flag : bool) (slot : nat) (w : Pipeline) : Prop :=
  forall c, c ∈ drop (if flag then nth slot (events w) 0%nat - length (writes w) else 0%nat)%nat (pending w) -> copy_slot c <> slot.

(** What the device may do by itself. *)
Definition progress (w w' : Pipeline) : Prop := exists n answers steps, w' = set_oracle answers steps (perform n w).

Lemma advance_progress w : progress w (device_advance w).
Proof. do 3 eexists. reflexivity. Qed.

Lemma perform_perform n k w : perform k (perform n w) = perform (n + k) w.
Proof.
  unfold perform. cbn. unfold set_stream. cbn. f_equal; [by rewrite drop_drop|].
  rewrite <- (take_take_drop (pending w) n k), fmap_app, <- app_assoc. done.
Qed.

Lemma progress_trans w1 w2 w3 : progress w1 w2 -> progress w2 w3 -> progress w1 w3.
Proof.
  intros (n & a & b & ->) (k & c & d & ->). exists (n + k)%nat, c, d. rewrite <- perform_perform. done.
Qed.

Lemma progress_frame w w' : progress w w' ->
  staging w' = staging w /\ events w' = events w /\ file_answers w' = file_answers w /\ final_status w' = final_status w /\
  socket_answers w' = socket_answers w /\ socket_message w' = socket_message w.
Proof. by intros (n & a & b & ->). Qed.

Lemma progress_visible w w' : progress w w' -> visible w' = visible w.
Proof.
  intros (n & a & b & ->). unfold visible. cbn. rewrite <- app_assoc, <- fmap_app, take_drop. done.
Qed.

Lemma progress_settled w w' flag slot : progress w w' -> settled flag slot w -> settled flag slot w'.
Proof.
  intros (n & a & b & ->) H c. cbn. rewrite length_app, length_fmap, length_take. intros Hin. apply H.
  rewrite drop_drop in Hin. destruct flag.
  - set (k := (nth slot (events w) 0 - length (writes w))%nat) in *.
    destruct (Nat.le_gt_cases (length (pending w)) n) as [Hle|Hgt].
    + rewrite drop_ge in Hin by lia. by apply not_elem_of_nil in Hin.
    + replace (n + (nth slot (events w) 0 - (length (writes w) + n `min` length (pending w))))%nat with (Nat.max k n) in Hin by lia.
      rewrite <- (Nat.sub_add k (Nat.max k n)), Nat.add_comm, <- drop_drop in Hin by lia.
      apply list_elem_of_In in Hin. apply list_elem_of_In. rewrite <- (take_drop (Nat.max k n - k) (drop k (pending w))).
      apply in_app_iff. by right.
  - rewrite Nat.add_0_r in Hin. rewrite drop_0. apply list_elem_of_In in Hin. apply list_elem_of_In.
    rewrite <- (take_drop n (pending w)). apply in_app_iff. by right.
Qed.

Lemma cuda_call_cases effect w ok w' : cuda_call effect w = (ok, w') ->
  exists w1, progress w w1 /\ w' = if ok then effect w1 else w1.
Proof.
  unfold cuda_call, cuda_status. intros [= <- <-]. eexists. split; [|done].
  destruct (advance_progress w) as (n & a & b & ->). do 3 eexists. reflexivity.
Qed.

(** The queue of the stream, seen from where it began. *)
Record stream_ok (base asked : list (Z * list Z)) (w : Pipeline) : Prop := {
  stream_visible : visible w = base ++ asked;
  stream_slots : length (staging w) = 2%nat;
  stream_events : length (events w) = 2%nat
}.

Lemma progress_stream base asked w w' : progress w w' -> stream_ok base asked w -> stream_ok base asked w'.
Proof.
  intros Hp [Hv Hs He]. destruct (progress_frame _ _ Hp) as (? & ? & _). split; [by rewrite (progress_visible w)|congruence..].
Qed.

(** A buffer without queued copies can be written. *)
Lemma visible_write w answers slot buffer : settled false slot w ->
  visible (set_files answers (<[slot := buffer]> (staging w)) w) = visible w.
Proof.
  intros Hs. unfold visible. cbn. f_equal. apply list_fmap_ext. intros i c Hc. unfold copied. do 3 f_equal.
  apply list_elem_of_lookup_2 in Hc. specialize (Hs c). rewrite drop_0 in Hs. specialize (Hs Hc).
  rewrite !nth_lookup, list_lookup_insert_ne by congruence. done.
Qed.

Lemma settled_files flag slot answers slots w : settled flag slot (set_files answers slots w) <-> settled flag slot w.
Proof. done. Qed.

Lemma settled_socket flag slot answers m w : settled flag slot (set_socket answers m w) <-> settled flag slot w.
Proof. done. Qed.

Lemma stream_socket base asked answers m w : stream_ok base asked (set_socket answers m w) <-> stream_ok base asked w.
Proof. split; by intros [? ? ?]. Qed.

(** Waiting for an event. *)
Lemma synchronize_settles slot w : settled true slot w ->
  settled false slot (perform (nth slot (events w) 0%nat - length (writes w)) w).
Proof. intros H c. cbn [drop]. rewrite drop_0. apply H. Qed.

(** A copy is asked for. *)
Lemma memcpy_stream base asked w c : stream_ok base asked w ->
  stream_ok base (asked ++ [copied (staging w) c]) (set_stream (pending w ++ [c]) (writes w) (events w) w).
Proof.
  intros [Hv Hs He]. split; [|done|done]. unfold visible in *. cbn. rewrite fmap_app. cbn.
  by rewrite app_assoc, Hv, <- app_assoc.
Qed.

Lemma memcpy_settled flag slot w c : copy_slot c <> slot -> settled flag slot w ->
  settled flag slot (set_stream (pending w ++ [c]) (writes w) (events w) w).
Proof.
  intros Hne H c'. cbn. set (k := if flag then _ else _). intros Hin.
  assert (Hor : c' ∈ drop k (pending w) \/ c' = c).
  { destruct (Nat.le_gt_cases k (length (pending w))) as [Hle|Hgt].
    - rewrite drop_app_le in Hin by done. apply elem_of_app in Hin as [?| ->%list_elem_of_singleton]; auto.
    - rewrite drop_app_ge in Hin by lia. apply list_elem_of_In in Hin. right.
      assert (Hs : In c' [c]); [|by destruct Hs].
      rewrite <- (take_drop (k - length (pending w)) [c]). apply in_app_iff. by right. }
  destruct Hor as [Hin'| ->]; [by apply H|done].
Qed.

(** An event is recorded behind everything that was asked for. *)
Lemma record_settles slot w : (slot < length (events w))%nat ->
  settled true slot (set_stream (pending w) (writes w) (<[slot := (length (writes w) + length (pending w))%nat]> (events w)) w).
Proof.
  intros Hlt c. cbn. rewrite nth_lookup, list_lookup_insert_eq by done. cbn. rewrite drop_ge by lia.
  by intros ?%not_elem_of_nil.
Qed.

Lemma record_settled flag slot other w : other <> slot -> settled flag other w ->
  settled flag other (set_stream (pending w) (writes w) (<[slot := (length (writes w) + length (pending w))%nat]> (events w)) w).
Proof. intros Hne H c. cbn. rewrite nth_lookup, list_lookup_insert_ne, <- nth_lookup by congruence. apply H. Qed.

(** ** Reading *)

Lemma read_loop_exact from_file requested data data' ended rest :
  (length data <= requested)%nat -> read_loop from_file requested data = (data', ended, rest) ->
  (exists more, data' = data ++ more) /\ (length data' <= requested)%nat /\ (ended = ReadWhole -> length data' = requested).
Proof.
  revert data. induction from_file as [|a from_file IH]; intros data Hle; cbn [read_loop].
  - destruct (Nat.leb_spec requested (length data)); intros [= <- <- <-]; (split; [exists []; by rewrite app_nil_r|]);
      split; [done|lia|done|done].
  - destruct (Nat.leb_spec requested (length data)) as [Hge|Hlt].
    { intros [= <- <- <-]. split; [exists []; by rewrite app_nil_r|]. split; [done|lia]. }
    destruct a as [bytes| |]; cbv zeta.
    + case_bool_decide as Hb; [intros [= <- <- <-]; split; [exists []; by rewrite app_nil_r|]; by split|].
      destruct (Nat.leb_spec (length bytes) (requested - length data)) as [Hfit|Hmore].
      * intros H. destruct (IH (data ++ bytes)) as ((more & ->) & Hl & Hw); [rewrite length_app; lia|done|].
        split; [exists (bytes ++ more); by rewrite app_assoc|done].
      * intros [= <- <- <-]. split; [by eexists|]. rewrite length_app, length_take. split; [lia|lia].
    + by apply IH.
    + intros [= <- <- <-]. split; [exists []; by rewrite app_nil_r|]. by split.
Qed.

Lemma read_into_slot_cases slot requested w data ended w' : read_into_slot slot requested w = ((data, ended), w') ->
  exists w1 answers rest, progress w w1 /\ w' = set_files answers (<[slot := data ++ rest]> (staging w1)) w1 /\
    (ended = ReadWhole -> length data = requested).
Proof.
  unfold read_into_slot. destruct (read_loop _ _ _) as [[d e] rest] eqn:Hr. intros [= <- <- <-].
  apply read_loop_exact in Hr as (_ & _ & Hw); [|simpl; lia]. exists (device_advance w), rest. eexists. split; [apply advance_progress|]. by split.
Qed.

Lemma read_extra_cases w r w' : read_extra w = (r, w') ->
  exists w1 answers, progress w w1 /\ w' = set_files answers (staging w1) w1.
Proof.
  unfold read_extra. destruct (read_loop _ _ _) as [[d e] rest]. intros [= <- <-]. do 2 eexists.
  split; [apply advance_progress|done].
Qed.

Lemma visible_files answers w : visible (set_files answers (staging w) w) = visible w.
Proof. done. Qed.

(** ** Hashing *)

(** The hasher has taken the message [m]. *)
Definition hash_holds (m : list Z) (h : ShardSha256) (w : Pipeline) : Prop :=
  hash_finalized_ h = false /\ bytes_hashed_ h = Z.of_nat (length m) /\
  match hash_backend h with
  | kPortable => absorbed m (portable_ h)
  | kAuto => m = []
  | kLinuxAfAlg => socket_message w = m
  end.

Lemma hash_holds_progress m h w w' : progress w w' -> hash_holds m h w -> hash_holds m h w'.
Proof.
  intros Hp (Hf & Hb & Hm). split_and!; [done..|]. destruct (hash_backend h); [done|done|].
  by destruct (progress_frame _ _ Hp) as (_ & _ & _ & _ & _ & ->).
Qed.

Lemma new_hasher_holds backend operation w : socket_message w = [] -> hash_holds [] (new_hasher backend operation) w.
Proof. intros Hw. split_and!; [done..|]. destruct backend; [done|apply absorbed_fresh|done]. Qed.

Lemma send_all_exact from_socket input message rest message' :
  send_to_kernel from_socket input message = (true, rest, message') -> message' = message ++ input.
Proof.
  revert input message. induction from_socket as [|a from_socket IH]; intros input message; cbn [send_to_kernel].
  - case_bool_decide as Hi; [intros [= <- <-]; by rewrite Hi, app_nil_r|done].
  - case_bool_decide as Hi; [intros [= <- <-]; by rewrite Hi, app_nil_r|]. destruct a as [n| |]; [|apply IH|done].
    destruct (0 <? n); [|done]. intros ->%IH. by rewrite <- app_assoc, take_drop.
Qed.

(** What a hashing step does to the world besides. *)
Definition hashed (w w' : Pipeline) : Prop :=
  exists w1, progress w w1 /\ (w' = w1 \/ exists answers m, w' = set_socket answers m w1).

Lemma hash_update_exact data h w h' w' m : hash_holds m h w -> hash_update data h w = ((true, h'), w') ->
  hashed w w' /\ hash_holds (m ++ data) h' w'.
Proof.
  intros (Hf & Hb & Hm). unfold hash_update. rewrite Hf, Hb. intros H.
  destruct (checked_add (Z.of_nat (length m)) (Z.of_nat (length data))) as [n|] eqn:Hadd; [|discriminate H].
  assert (Hn : n = Z.of_nat (length (m ++ data)) /\ Z.of_nat (length m) + Z.of_nat (length data) <= u64_max).
  { unfold checked_add in Hadd. destruct (Z.ltb_spec (u64_max - Z.of_nat (length m)) (Z.of_nat (length data))); [done|].
    injection Hadd as <-. rewrite length_app. split; lia. }
  destruct Hn as [-> Hfit]. destruct (hash_backend h) eqn:Hk; cbv zeta in H; [discriminate H| |].
  - destruct (update_absorbs m data (portable_ h) Hm Hfit) as (s' & Hu & Ha). rewrite Hu in H. injection H as <- <-.
    split; [exists (device_advance w); split; [apply advance_progress|by left]|]. split_and!; [done..|]. done.
  - destruct (negb (has_operation h)); [discriminate H|]. destruct (send_to_kernel _ _ _) as [[ok rest] message] eqn:Hs.
    injection H as Hok <- <-. subst ok. apply send_all_exact in Hs as ->.
    split; [exists (device_advance w); split; [apply advance_progress|right; eauto]|]. split_and!; [done..|].
    cbn. by rewrite <- Hm.
Qed.

Lemma hash_finalize_exact kernel_sha256 h w d w' m : (forall m, kernel_sha256 m = digest_of m) -> hash_holds m h w ->
  hash_finalize kernel_sha256 h w = (inr d, w') -> hashed w w' /\ d = digest_of m.
Proof.
  intros Hkernel (Hf & Hb & Hm). unfold hash_finalize. rewrite Hf. destruct (hash_backend h) eqn:Hk; [done| |].
  - intros [= <- <-]. split; [exists (device_advance w); split; [apply advance_progress|by left]|]. by apply finalize_spec.
  - destruct (negb (has_operation h)); [done|]. destruct (uninterrupted _) as [t rest]. case_bool_decide; [|done]. cbn [negb].
    destruct (uninterrupted rest) as [t' rest']. case_bool_decide; [|done]. cbn [negb]. intros [= <- <-].
    split; [exists (device_advance w); split; [apply advance_progress|right; eauto]|]. rewrite Hkernel. by rewrite <- Hm.
Qed.

Lemma hashed_stream base asked w w' : hashed w w' -> stream_ok base asked w -> stream_ok base asked w'.
Proof.
  intros (w1 & Hp & Hw) Hs. apply (progress_stream _ _ _ _ Hp) in Hs. destruct Hw as [->|(a & m & ->)]; [done|].
  by apply stream_socket.
Qed.

Lemma hashed_settled w w' flag slot : hashed w w' -> settled flag slot w -> settled flag slot w'.
Proof.
  intros (w1 & Hp & Hw) Hs. apply (progress_settled _ _ _ _ Hp) in Hs. by destruct Hw as [->|(a & m & ->)].
Qed.

Lemma hashed_staging w w' : hashed w w' -> staging w' = staging w.
Proof. intros (w1 & Hp & Hw). destruct (progress_frame _ _ Hp) as (Hs & _). by destruct Hw as [->|(a & m & ->)]. Qed.

(** ** What a shard writes *)

Definition holds_source (t : PlannedTensor) (pos : Z) : Prop := source_begin t <= pos < source_end t.

(** The place in the arena of a byte of the file. *)
Definition address (t : PlannedTensor) (pos : Z) : Z := arena_offset t + (pos - source_begin t).

(** Every byte written belongs to a tensor, at the tensor's place, and is the
    file's. *)
Definition true_write (ts : list PlannedTensor) (content : list Z) (wr : Z * list Z) : Prop :=
  forall (k : nat) b, wr.2 !! k = Some b ->
    exists t pos, t ∈ ts /\ holds_source t pos /\ wr.1 + Z.of_nat k = address t pos /\ content !! Z.to_nat pos = Some b.

Definition covered (ws : list (Z * list Z)) (a : Z) : Prop :=
  exists wr, wr ∈ ws /\ wr.1 <= a < wr.1 + Z.of_nat (length wr.2).

Lemma covered_app ws ws' a : covered (ws ++ ws') a <-> covered ws a \/ covered ws' a.
Proof.
  unfold covered. split.
  - intros (wr & [Hin|Hin]%elem_of_app & Ha); [left|right]; by exists wr.
  - intros [(wr & Hin & Ha)|(wr & Hin & Ha)]; exists wr; (split; [apply elem_of_app|done]); [by left|by right].
Qed.

Lemma true_write_app ts content more wr : true_write ts content wr -> true_write ts (content ++ more) wr.
Proof.
  intros H k b Hk. destruct (H k b Hk) as (t & pos & ? & ? & ? & Hc). exists t, pos. split_and!; [done..|].
  by apply lookup_app_l_Some.
Qed.

(** The bytes of a tensor in a part of the file, and whether there are any. *)
Definition overlap (t : PlannedTensor) (from_ to : Z) : Z := Z.max 0 (Z.min (source_end t) to - Z.max (source_begin t) from_).
Definition touched (t : PlannedTensor) (from_ to : Z) : Z := if overlap t from_ to =? 0 then 0 else 1.

Record planned_ok (size : Z) (t : PlannedTensor) : Prop := {
  tensor_source : 0 <= source_begin t < source_end t /\ source_end t <= size;
  tensor_bytes : planned_bytes t = source_end t - source_begin t;
  tensor_offset : is_u64 (arena_offset t)
}.

Section load.
Context (kernel_sha256 : list Z -> list Z) (Hkernel : forall m, kernel_sha256 m = digest_of m).
Context (p : ResidentLoadPlan) (o : ResidentLoadOptions) (s : PlannedShard).

Definition shard_tensors : list PlannedTensor := tensor_at p <$> tensor_indices s.

Context (Htensors : Forall (planned_ok (identity_size (identity s))) shard_tensors).
Context (Hordered : StronglySorted (fun a b => source_end a <= source_begin b) shard_tensors).
Context (Hsize : is_u64 (identity_size (identity s))) (Hchunk : 1 <= chunk_bytes o).

Definition failed (r : ShardLoadOutcome) (_ : Pipeline) : Prop := outcome_ok r = false.

Lemma stop_wp {A} st c where_ at_offset (post : A -> Pipeline -> Prop) w : wp (stop s st c where_ at_offset) failed post w.
Proof using. done. Qed.

Lemma continue_wp test st c where_ at_offset (post : unit -> Pipeline -> Prop) w :
  (test = true -> post tt w) -> wp (continue_if s test st c where_ at_offset) failed post w.
Proof using. intros H. destruct test; [by apply wp_pass, H|apply stop_wp]. Qed.

Lemma cuda_wp effect st where_ at_offset (post : unit -> Pipeline -> Prop) w :
  (forall w1, progress w w1 -> post tt (effect w1)) ->
  wp (fbind (call (cuda_call effect)) (fun ok => continue_if s ok st kCudaFailure where_ at_offset)) failed post w.
Proof using.
  intros H. apply wp_bind, wp_call. intros ok w' (w1 & Hp & ->)%cuda_call_cases. apply continue_wp. intros ->. by apply H.
Qed.

(** *** One chunk *)

Section chunk.
Context (base : list (Z * list Z)) (before_ data : list Z) (slot : nat) (flags : list bool) (h : ShardSha256).
Context (Hslot : (slot < 2)%nat) (Hdata : data <> []).
Local Abbreviation from_ := (Z.of_nat (length before_)).
Local Abbreviation to := (Z.of_nat (length before_) + Z.of_nat (length data)).

(** The chunk is in its buffer and hashed, and the other buffer's copies are
    behind its event. *)
Record in_chunk (asked : list (Z * list Z)) (w : Pipeline) : Prop := {
  chunk_stream : stream_ok base asked w;
  chunk_buffer : exists rest, nth slot (staging w) [] = data ++ rest;
  chunk_hash : hash_holds (before_ ++ data) h w;
  chunk_others : forall i, (i < 2)%nat -> i <> slot -> settled (nth i flags false) i w
}.

Lemma in_chunk_progress asked w w' : progress w w' -> in_chunk asked w -> in_chunk asked w'.
Proof using.
  intros Hp [Hs (rest & Hb) Hh Ho]. destruct (progress_frame _ _ Hp) as (Hst & _). split.
  - by apply (progress_stream _ _ w).
  - exists rest. by rewrite Hst.
  - by apply (hash_holds_progress _ _ w).
  - intros i Hi Hne. by apply (progress_settled w), Ho.
Qed.

Lemma copied_part w asked d copy_begin size : in_chunk asked w -> from_ <= copy_begin -> 0 < size -> copy_begin + size <= to ->
  copied (staging w) {| destination := d; copy_slot := slot; copy_offset := Z.to_nat (copy_begin - from_); copy_size := Z.to_nat size |} =
  (d, take (Z.to_nat size) (drop (Z.to_nat copy_begin) (before_ ++ data))).
Proof using.
  clear. intros [_ (rest & Hb) _ _] Hfrom Hpos Hto. unfold copied. cbn. rewrite Hb. f_equal.
  rewrite (drop_app_ge before_) by lia. replace (Z.to_nat copy_begin - length before_)%nat with (Z.to_nat (copy_begin - from_)) by lia.
  rewrite drop_app_le by lia. rewrite take_app_le; [done|]. rewrite length_drop. lia.
Qed.

Lemma one_segment_wp t asked st w :
  t ∈ shard_tensors -> in_chunk asked w -> is_u64 (bytes_copied st) -> is_u64 (memcpy_operations st) ->
  wp (one_segment p o s t from_ to slot st) failed (fun st' w' => exists more,
    in_chunk (asked ++ more) w' /\ Forall (true_write shard_tensors (before_ ++ data)) more /\
    (forall pos, holds_source t pos -> from_ <= pos < to -> covered more (address t pos)) /\
    st' = add_copied st (bytes_copied st + overlap t from_ to) (memcpy_operations st + touched t from_ to) /\
    is_u64 (bytes_copied st') /\ is_u64 (memcpy_operations st')) w.
Proof using Hsize Hslot Htensors.
  intros Hin Hw Hub Huo. pose proof (proj1 (Forall_forall _ _) Htensors t Hin) as [[Hfw Hend] Hbytes Hoff].
  unfold one_segment. cbv zeta. unfold touched. fold (overlap t from_ to).
  destruct (Z.leb_spec (Z.min (source_end t) to) (Z.max (source_begin t) from_)) as [Hnone|Hsome].
  { apply wp_pass. exists []. rewrite app_nil_r. assert (Ho : overlap t from_ to = 0) by (unfold overlap; lia).
    rewrite Ho. cbn. rewrite !Z.add_0_r. split_and!; [done|constructor|unfold holds_source; lia|by destruct st|done|done]. }
  set (b := Z.max (source_begin t) from_) in *. set (e := Z.min (source_end t) to) in *.
  assert (Ho : overlap t from_ to = e - b) by (unfold overlap; lia). rewrite Ho, (proj2 (Z.eqb_neq _ 0)) by lia.
  destruct (destination_of p t b (e - b)) as [d|] eqn:Hd; [|apply stop_wp].
  destruct (max_memcpy_operations o <=? memcpy_operations st); [apply stop_wp|].
  assert (Hd' : d = address t b).
  { unfold destination_of in Hd. destruct (checked_add (arena_offset t) (b - source_begin t)) as [d'|] eqn:Ha; [|done]. cbn in Hd.
    destruct (_ || _); [done|]. injection Hd as ->. unfold checked_add in Ha.
    destruct (_ <? _); [done|]. injection Ha as <-. done. }
  subst d.
  unfold cudaMemcpyAsync. apply wp_bind, wp_call. intros ok w' (w1 & Hp & ->)%cuda_call_cases. apply wp_bind, continue_wp. intros ->.
  destruct (checked_add (bytes_copied st) (e - b)) as [total|] eqn:Ht; [|apply stop_wp].
  destruct (checked_add (memcpy_operations st) 1) as [count|] eqn:Hc; [|apply stop_wp].
  assert (Huse : is_u64 (e - b)) by (unfold is_u64 in *; lia).
  apply checked_add_Some in Ht as [-> Ht]; [|done..]. apply checked_add_Some in Hc as [-> Hc]; [|done..].
  apply wp_pass. pose proof (in_chunk_progress _ _ _ Hp Hw) as Hw1.
  pose proof (copied_part w1 asked (address t b) b (e - b) Hw1 ltac:(lia) ltac:(lia) ltac:(lia)) as Hcopy.
  set (c := {| destination := _ |}) in *. exists [copied (staging w1) c]. split_and!.
  - destruct Hw1 as [Hs Hb Hh Hoth]. split; [by apply memcpy_stream|done|done|].
    intros i Hi Hne. apply memcpy_settled; [cbn; congruence|by apply Hoth].
  - rewrite Hcopy. apply Forall_singleton. intros k x Hk. cbn in Hk. exists t, (b + Z.of_nat k).
    apply lookup_take_Some in Hk as [Hk Hlt]. rewrite lookup_drop in Hk.
    split_and!; [done|unfold holds_source; lia|cbn; unfold address; lia|]. rewrite <- Hk. f_equal. lia.
  - intros pos Hpos Hfrom. unfold holds_source in Hpos. eexists. split; [by left|]. rewrite Hcopy. cbn. rewrite length_take, length_drop, length_app.
    unfold address. lia.
  - done.
  - cbn. unfold is_u64, u64_max in *. lia.
  - cbn. unfold is_u64, u64_max in *. lia.
Qed.

Lemma scatter_wp segments asked st w :
  Forall (fun t => t ∈ shard_tensors) (tensor_at p <$> segments) ->
  StronglySorted (fun a b => source_end a <= source_begin b) (tensor_at p <$> segments) ->
  in_chunk asked w -> is_u64 (bytes_copied st) -> is_u64 (memcpy_operations st) ->
  wp (scatter p o s segments from_ to slot st) failed (fun st' w' => exists more,
    in_chunk (asked ++ more) w' /\ Forall (true_write shard_tensors (before_ ++ data)) more /\
    (forall t pos, t ∈ tensor_at p <$> segments -> holds_source t pos -> from_ <= pos < to -> covered more (address t pos)) /\
    st' = add_copied st (bytes_copied st + sum_of (fun t => overlap t from_ to) (tensor_at p <$> segments))
            (memcpy_operations st + sum_of (fun t => touched t from_ to) (tensor_at p <$> segments)) /\
    is_u64 (bytes_copied st') /\ is_u64 (memcpy_operations st')) w.
Proof using Hsize Hslot Htensors.
  revert asked st w. induction segments as [|i segments IH]; intros asked st w Hin Hsort Hw Hub Huo; cbn [scatter].
  { apply wp_pass. exists []. rewrite app_nil_r. split_and!; [done|constructor|by intros t pos ?%not_elem_of_nil| |done|done].
    change (sum_of _ (tensor_at p <$> [])) with 0. rewrite !Z.add_0_r. by destruct st. }
  rewrite fmap_cons in *. apply Forall_cons in Hin as [Ht Hin]. apply StronglySorted_inv in Hsort as [Hsort Hle].
  assert (Hok : forall t, t ∈ shard_tensors -> source_begin t < source_end t).
  { intros t Hx. pose proof (proj1 (Forall_forall _ _) Htensors t Hx) as [? _ _]. lia. }
  destruct (Z.leb_spec to (source_begin (tensor_at p i))) as [Hbreak|Hgo].
  - assert (Hall : Forall (fun t => to <= source_begin t) (tensor_at p i :: (tensor_at p <$> segments))).
    { constructor; [done|]. apply Forall_forall. intros t Hx. rewrite Forall_forall in Hle. specialize (Hle t Hx).
      specialize (Hok _ Ht). lia. }
    assert (Hz : sum_of (fun t => overlap t from_ to) (tensor_at p i :: (tensor_at p <$> segments)) = 0 /\
      sum_of (fun t => touched t from_ to) (tensor_at p i :: (tensor_at p <$> segments)) = 0).
    { clear -Hall. induction Hall as [|t ts Hx _ [IH1 IH2]]; [done|]. rewrite !sum_of_cons, IH1, IH2.
      assert (Ho : overlap t from_ to = 0) by (unfold overlap; lia). unfold touched. by rewrite Ho. }
    destruct Hz as [-> ->]. apply wp_pass. exists []. rewrite app_nil_r, !Z.add_0_r.
    split_and!; [done|constructor| |by destruct st|done|done]. intros t pos Hx Hpos Hr. rewrite Forall_forall in Hall.
    specialize (Hall t Hx). unfold holds_source in Hpos. lia.
  - apply wp_bind. eapply wp_mono; [by apply one_segment_wp|done|]. cbv beta.
    intros st' w' (more & Hw' & Htrue & Hcov & -> & Hub' & Huo').
    eapply wp_mono; [by apply (IH (asked ++ more))|done|]. cbv beta.
    intros st'' w'' (more' & Hw'' & Htrue' & Hcov' & -> & Hub'' & Huo''). exists (more ++ more'). split_and!.
    + by rewrite app_assoc.
    + by apply Forall_app.
    + intros t pos [->|Hx]%elem_of_cons Hpos Hr; apply covered_app; [left; by apply Hcov|right; by apply Hcov'].
    + rewrite !sum_of_cons, !Z.add_assoc. done.
    + done.
    + done.
Qed.
End chunk.

(** *** The loop *)

(** The segments that are skipped have nothing in the chunk. *)
Lemma skipped_exact segments chunk_begin :
  Forall (fun t => source_end t <= chunk_begin) (tensor_at p <$> take (skipped p segments chunk_begin) segments).
Proof using.
  induction segments as [|i segments IH]; cbn [skipped take]; [by constructor|].
  destruct (Z.leb_spec (source_end (tensor_at p i)) chunk_begin); [|by constructor]. cbn [take]. rewrite fmap_cons.
  by constructor.
Qed.

(** What the copies of the first bytes of the file amount to. *)
Definition operations_until (t : PlannedTensor) (to : Z) : Z :=
  if to <=? source_begin t then 0 else (Z.min (source_end t) to - 1) / chunk_bytes o - source_begin t / chunk_bytes o + 1.

(** At the head of the loop, with [content] read. *)
Record at_head (base : list (Z * list Z)) (l : Local) (w : Pipeline) : Prop := {
  head_stream : exists content asked, stream_ok base asked w /\ hash_holds content (hasher l) w /\
    file_offset l = Z.of_nat (length content) /\ Forall (true_write shard_tensors content) asked /\
    (forall t pos, t ∈ shard_tensors -> holds_source t pos -> pos < file_offset l -> covered asked (address t pos));
  head_slots : length (slot_pending l) = 2%nat /\ forall i, (i < 2)%nat -> settled (nth i (slot_pending l) false) i w;
  head_cursor : Forall (fun t => source_end t <= file_offset l) (tensor_at p <$> take (segment_cursor l) (tensor_indices s));
  head_offset : file_offset l = Z.min (identity_size (identity s)) (chunk_index l * chunk_bytes o) /\ 0 <= chunk_index l /\
    chunk_index l * chunk_bytes o < file_offset l + chunk_bytes o;
  head_stats : local_stats l = {| stats_filename := filename (identity s); bytes_read := file_offset l;
    bytes_copied := sum_of (fun t => overlap t 0 (file_offset l)) shard_tensors; chunks := chunk_index l;
    memcpy_operations := sum_of (fun t => operations_until t (file_offset l)) shard_tensors; stats_sha256 := [] |};
  head_fits : is_u64 (bytes_copied (local_stats l)) /\ is_u64 (memcpy_operations (local_stats l))
}.

Lemma overlap_step t a b : 0 <= a <= b -> 0 <= source_begin t ->
  overlap t 0 b = overlap t 0 a + overlap t a b.
Proof using. clear. unfold overlap. lia. Qed.

(** A chunk is one copy of every tensor it meets. *)
Lemma operations_step t i b : 0 <= i -> 0 <= source_begin t < source_end t -> i * chunk_bytes o < b ->
  b <= (i + 1) * chunk_bytes o -> operations_until t b = operations_until t (i * chunk_bytes o) + touched t (i * chunk_bytes o) b.
Proof using Hchunk.
  clear -Hchunk. intros Hi Hs Hb Hle. set (C := chunk_bytes o) in *. unfold operations_until, touched, overlap. fold C.
  assert (Hq : forall x, i * C <= x < (i + 1) * C -> x / C = i).
  { intros x Hx. symmetry. apply (Z.div_unique_pos x C i (x - i * C)); lia. }
  destruct (Z.leb_spec b (source_begin t)), (Z.leb_spec (i * C) (source_begin t)); try nia.
  - rewrite (proj2 (Z.eqb_eq _ 0)) by lia. lia.
  - rewrite (proj2 (Z.eqb_neq _ 0)) by lia. rewrite (Hq (source_begin t)), (Hq (Z.min (source_end t) b - 1)) by nia. lia.
  - destruct (Z.eqb_spec (Z.max 0 (Z.min (source_end t) b - Z.max (source_begin t) (i * C))) 0) as [Hz|Hz].
    + replace (Z.min (source_end t) b) with (Z.min (source_end t) (i * C)) by lia. lia.
    + rewrite (Hq (Z.min (source_end t) b - 1)) by nia. rewrite (Z.min_r (source_end t)) by lia.
      assert (Hi1 : (i * C - 1) / C = i - 1); [|lia]. symmetry. apply (Z.div_unique_pos _ C _ (C - 1)); lia.
Qed.

Lemma perform_progress n w : progress w (perform n w).
Proof using. clear. exists n, (cuda_answers w), (pace w). done. Qed.

Definition all_settled (flags : list bool) (w : Pipeline) : Prop := forall i, (i < 2)%nat -> settled (nth i flags false) i w.

Lemma reclaim_wp slot l w : (slot < 2)%nat -> length (slot_pending l) = 2%nat -> all_settled (slot_pending l) w ->
  wp (reclaim_slot s slot l) failed (fun flags w' => progress w w' /\ length flags = 2%nat /\ nth slot flags false = false /\
    all_settled flags w') w.
Proof using.
  clear. intros Hslot Hlen Hs. unfold reclaim_slot. destruct (nth slot (slot_pending l) false) eqn:Hflag; cbn [negb].
  - unfold cudaEventSynchronize. apply wp_bind, wp_call. intros ok w' (w1 & Hp & ->)%cuda_call_cases. apply wp_bind, continue_wp.
    intros ->. apply wp_pass. split_and!.
    + eapply progress_trans; [exact Hp|apply perform_progress].
    + by rewrite length_insert.
    + rewrite nth_lookup, list_lookup_insert_eq by lia. done.
    + intros i Hi. destruct (decide (i = slot)) as [->|Hne].
      * rewrite nth_lookup, list_lookup_insert_eq by lia. cbn. apply synchronize_settles.
        apply (progress_settled w); [done|]. rewrite <- Hflag. by apply Hs.
      * rewrite nth_lookup, list_lookup_insert_ne, <- nth_lookup by done.
        apply (progress_settled w1); [apply perform_progress|]. apply (progress_settled w); [done|]. by apply Hs.
  - apply wp_pass. split_and!; [|done|done|done]. exists 0%nat, (cuda_answers w), (pace w). destruct w. unfold perform, set_stream, set_oracle. cbn.
    by rewrite app_nil_r.
Qed.

Lemma take_chunk_wp base content asked flags slot l w :
  (slot < 2)%nat -> all_settled flags w -> nth slot flags false = false ->
  stream_ok base asked w -> hash_holds content (hasher l) w -> file_offset l = Z.of_nat (length content) ->
  file_offset l < identity_size (identity s) -> is_u64 (bytes_read (local_stats l)) -> is_u64 (chunks (local_stats l)) ->
  wp (take_chunk o s slot l) failed (fun r w' => exists data,
    Z.of_nat (length data) = Z.min (identity_size (identity s) - file_offset l) (chunk_bytes o) /\
    in_chunk base content data slot flags r.1.2 asked w' /\ r.1.1 = file_offset l + Z.of_nat (length data) /\
    r.2 = add_read (local_stats l) (bytes_read (local_stats l) + Z.of_nat (length data)) (chunks (local_stats l) + 1)) w.
Proof using Hchunk Hsize.
  intros Hslot Hset Hflag Hs Hh Hoff Hlt Hur Huc. unfold take_chunk. cbv zeta.
  set (size := Z.min _ _). assert (Hpos : 0 < size) by lia.
  apply wp_bind, wp_call. intros [data ended] w1 (w0 & answers & rest & Hp & -> & Hw)%read_into_slot_cases.
  apply wp_bind, continue_wp. intros _. apply wp_bind, continue_wp. intros Hend. destruct ended; [|done..]. specialize (Hw eq_refl).
  assert (Hlen : Z.of_nat (length data) = size) by lia.
  apply wp_bind, wp_call. intros [ok h] w2 Hupd. apply wp_bind, continue_wp. intros ->.
  set (w1 := set_files _ _ _) in *. destruct (progress_frame _ _ Hp) as (Hst & _).
  pose proof (Hset slot Hslot) as Hslot0. rewrite Hflag in Hslot0. apply (progress_settled _ _ _ _ Hp) in Hslot0.
  assert (Hs1 : stream_ok base asked w1).
  { destruct (progress_stream _ _ _ _ Hp Hs) as [Hv Hl He]. split; [|cbn; by rewrite length_insert|done].
    unfold w1. by rewrite visible_write. }
  assert (Hh1 : hash_holds content (hasher l) w1) by exact (hash_holds_progress _ _ _ _ Hp Hh).
  destruct (hash_update_exact _ _ _ _ _ _ Hh1 Hupd) as [Hhd Hh2].
  destruct (checked_add (file_offset l) size) as [e|] eqn:He; [|apply stop_wp].
  destruct (checked_add (bytes_read (local_stats l)) size) as [total|] eqn:Ht; [|apply stop_wp].
  destruct (checked_add (chunks (local_stats l)) 1) as [count|] eqn:Hc; [|apply stop_wp].
  assert (Hus : is_u64 size) by (unfold is_u64 in *; lia). assert (Huo : is_u64 (file_offset l)) by (unfold is_u64 in *; lia).
  apply checked_add_Some in He as [-> _], Ht as [-> _], Hc as [-> _]; [|done..].
  apply wp_pass. exists data. split_and!; [done| |cbn; lia|cbn; by rewrite Hlen]. cbn. split.
  - by apply (hashed_stream _ _ w1).
  - exists rest. rewrite (hashed_staging _ _ Hhd). unfold w1. cbn. destruct (progress_stream _ _ _ _ Hp Hs) as [_ Hl _].
    rewrite nth_lookup, list_lookup_insert_eq by lia. done.
  - done.
  - intros i Hi Hne. apply (hashed_settled w1); [done|]. unfold w1. apply settled_files.
    apply (progress_settled w); [done|]. by apply Hset.
Qed.

Lemma sum_of_ext {A} (f g h : A -> Z) ts : Forall (fun t => f t = g t + h t) ts -> sum_of f ts = sum_of g ts + sum_of h ts.
Proof using. clear. induction 1 as [|t ts Ht _ IH]; [done|]. rewrite !sum_of_cons, IH, Ht. lia. Qed.

Lemma sum_of_zero {A} (f : A -> Z) ts : Forall (fun t => f t = 0) ts -> sum_of f ts = 0.
Proof using. clear. induction 1 as [|t ts Ht _ IH]; [done|]. rewrite sum_of_cons, IH, Ht. done. Qed.

(** Splitting the segments at the cursor: those before it have nothing more. *)
Lemma cursor_split cursor from_ : Forall (fun t => source_end t <= from_) (tensor_at p <$> take cursor (tensor_indices s)) ->
  let cursor' := (cursor + skipped p (drop cursor (tensor_indices s)) from_)%nat in
  Forall (fun t => source_end t <= from_) (tensor_at p <$> take cursor' (tensor_indices s)).
Proof using.
  clear. intros Hc. cbv zeta. rewrite <- take_take_drop, fmap_app, Forall_app. split; [done|]. apply skipped_exact.
Qed.

Lemma segments_split n : shard_tensors = (tensor_at p <$> take n (tensor_indices s)) ++ (tensor_at p <$> drop n (tensor_indices s)).
Proof using. clear. unfold shard_tensors. by rewrite <- fmap_app, take_drop. Qed.

Lemma StronglySorted_app_r {A} (R : A -> A -> Prop) l k : StronglySorted R (l ++ k) -> StronglySorted R k.
Proof using. clear. induction l as [|x l IH]; [done|]. intros [Hs _]%StronglySorted_inv. auto. Qed.

(** The counters after a chunk. *)
Lemma chunk_counts n i e : 0 <= i -> i * chunk_bytes o < e -> e <= (i + 1) * chunk_bytes o ->
  Forall (fun t => source_end t <= i * chunk_bytes o) (tensor_at p <$> take n (tensor_indices s)) ->
  sum_of (fun t => overlap t 0 e) shard_tensors = sum_of (fun t => overlap t 0 (i * chunk_bytes o)) shard_tensors +
    sum_of (fun t => overlap t (i * chunk_bytes o) e) (tensor_at p <$> drop n (tensor_indices s)) /\
  sum_of (fun t => operations_until t e) shard_tensors = sum_of (fun t => operations_until t (i * chunk_bytes o)) shard_tensors +
    sum_of (fun t => touched t (i * chunk_bytes o) e) (tensor_at p <$> drop n (tensor_indices s)).
Proof using Hchunk Htensors.
  intros Hi Hlt Hle Hskip.
  assert (Hz : forall f : PlannedTensor -> Z, (forall t, source_end t <= i * chunk_bytes o -> f t = 0) ->
    sum_of f shard_tensors = sum_of f (tensor_at p <$> drop n (tensor_indices s))).
  { intros f Hf. rewrite (segments_split n), sum_of_app, (sum_of_zero f); [done|]. eapply Forall_impl; [exact Hskip|]. auto. }
  rewrite <- (Hz (fun t => overlap t (i * chunk_bytes o) e)) by (intros t Ht; unfold overlap; lia).
  rewrite <- (Hz (fun t => touched t (i * chunk_bytes o) e)).
  2:{ intros t Ht. unfold touched. assert (overlap t (i * chunk_bytes o) e = 0) as -> by (unfold overlap; lia). done. }
  split; apply sum_of_ext; (eapply Forall_impl; [exact Htensors|]); intros t [Hs _ _].
  - apply overlap_step; [nia|lia].
  - apply operations_step; [done|lia|done|done].
Qed.

Lemma one_chunk_wp base l w : at_head base l w -> file_offset l < identity_size (identity s) ->
  wp (one_chunk p o s l) failed (fun l' w' => at_head base l' w' /\ file_offset l < file_offset l') w.
Proof using Hchunk Hsize Htensors Hordered.
  intros [(content & asked & Hs & Hh & Hoff & Htrue & Hcov) [Hlen Hset] Hcur (Ho & Hi & Hlast) Hst [Hub Huo]] Hlt.
  unfold one_chunk. cbv zeta. set (slot := Z.to_nat (chunk_index l mod kStagingSlots)).
  assert (Hslot : (slot < 2)%nat) by (unfold slot, kStagingSlots; pose proof (Z.mod_pos_bound (chunk_index l) 2); lia).
  assert (Hci : file_offset l = chunk_index l * chunk_bytes o) by lia.
  assert (Hpos : chunk_index l <= file_offset l) by nia.
  apply wp_bind. eapply wp_mono; [by apply reclaim_wp|done|]. cbv beta. intros flags w1 (Hp1 & Hlf & Hflag & Hset1).
  apply wp_bind. eapply wp_mono; [apply (take_chunk_wp base content asked flags slot l w1); try done|done|].
  { by apply (progress_stream _ _ w). }
  { by apply (hash_holds_progress _ _ w). }
  { rewrite Hst. cbn. unfold is_u64 in *. lia. }
  { rewrite Hst. cbn. unfold is_u64 in *. lia. }
  cbv beta. intros [[e h] st] w2 (data & Hdl & Hw2 & He & Hst2). cbn in He, Hst2, Hw2. subst e st.
  assert (Hdata : 0 < Z.of_nat (length data)) by lia.
  set (cursor := (segment_cursor l + skipped p (drop (segment_cursor l) (tensor_indices s)) (file_offset l))%nat).
  pose proof (cursor_split _ _ Hcur) as Hcur'. cbv zeta in Hcur'. fold cursor in Hcur'.
  rewrite Hoff. apply wp_bind. eapply wp_mono; [apply (scatter_wp base content data slot flags h Hslot _ asked)|done|].
  { apply Forall_forall. intros t Ht. rewrite (segments_split cursor). apply elem_of_app. by right. }
  { eapply StronglySorted_app_r. rewrite <- segments_split. done. }
  { done. }
  { done. }
  { done. }
  cbv beta. intros st w3 (more & [Hs3 _ Hh3 Hset3] & Htrue3 & Hcov3 & -> & Hub3 & Huo3). unfold cudaEventRecord.
  apply wp_bind, wp_call. intros ok w4 (w5 & Hp5 & ->)%cuda_call_cases. apply wp_bind, continue_wp. intros ->. apply wp_pass.
  destruct (chunk_counts cursor (chunk_index l) (file_offset l + Z.of_nat (length data)) Hi ltac:(lia) ltac:(lia)) as [Hbytes Hops].
  { by rewrite <- Hci. }
  pose proof (progress_stream _ _ _ _ Hp5 Hs3) as [Hv5 Hl5 He5].
  assert (Hnew : forall x, 0 <= x -> x <= file_offset l + Z.of_nat (length data) -> is_u64 x)
    by (unfold is_u64 in *; lia).
  split; [|cbn; rewrite <- Hoff; lia]. rewrite <- Hoff in *. split; cbn [hasher file_offset slot_pending segment_cursor chunk_index local_stats].
  - exists (content ++ data), (asked ++ more). split_and!.
    + by split; [exact Hv5|exact Hl5|cbn; rewrite length_insert; exact He5].
    + destruct Hh3 as (? & ? & ?). split_and!; [done..|]. destruct (hash_backend h); [done..|].
      cbn. by destruct (progress_frame _ _ Hp5) as (_ & _ & _ & _ & _ & ->).
    + rewrite length_app. lia.
    + apply Forall_app. split; [|done]. eapply Forall_impl; [exact Htrue|]. intros wr. apply true_write_app.
    + intros t pos Ht Hholds Hlt'. apply covered_app. destruct (Z.lt_ge_cases pos (file_offset l)) as [Hold|Hnewpos]; [left; by apply Hcov|].
      right. apply Hcov3; [|done|lia]. rewrite (segments_split cursor) in Ht. apply elem_of_app in Ht as [Ht|Ht]; [|done].
      rewrite Forall_forall in Hcur'. specialize (Hcur' t Ht). unfold holds_source in Hholds. lia.
  - split; [by rewrite length_insert|]. intros i Hi2. destruct (decide (i = slot)) as [->|Hne].
    + rewrite nth_lookup, list_lookup_insert_eq by lia. cbn. apply record_settles. lia.
    + rewrite nth_lookup, list_lookup_insert_ne, <- nth_lookup by done. apply record_settled; [done|].
      apply (progress_settled w3); [done|]. by apply Hset3.
  - eapply Forall_impl; [exact Hcur'|]. simpl. lia.
  - assert (Hsm : u64 (chunk_index l + 1) = chunk_index l + 1) by (apply u64_small, Hnew; lia). rewrite Hsm. split_and!; nia.
  - assert (Hsm : u64 (chunk_index l + 1) = chunk_index l + 1) by (apply u64_small, Hnew; lia). rewrite Hsm, Hbytes, Hops, Hst.
    unfold add_copied, add_read. cbn. by rewrite Hci.
  - done.
Qed.

Lemma all_chunks_wp fuel base l w : at_head base l w -> identity_size (identity s) - file_offset l <= Z.of_nat fuel ->
  wp (all_chunks p o s fuel l) failed (fun l' w' => at_head base l' w' /\ identity_size (identity s) <= file_offset l') w.
Proof using Hchunk Hsize Htensors Hordered.
  revert l w. induction fuel as [|fuel IH]; intros l w Hw Hfuel; cbn [all_chunks]; [apply wp_pass; split; [done|lia]|].
  destruct (Z.leb_spec (identity_size (identity s)) (file_offset l)); [by apply wp_pass|].
  apply wp_bind. eapply wp_mono; [by apply one_chunk_wp|done|]. cbv beta. intros l' w' [Hw' Hlt]. apply IH; [done|lia].
Qed.

(** What a shard that is loaded has left: everything it asked for is performed,
    after what was performed before. *)
Record shard_loaded (w : Pipeline) (r : ShardLoadOutcome) (w' : Pipeline) : Prop := {
  loaded_queue : pending w' = [];
  loaded_slots : length (staging w') = 2%nat /\ length (events w') = 2%nat;
  loaded_content : exists content ws,
    Z.of_nat (length content) = identity_size (identity s) /\ digest_text (digest_of content) = identity_sha256 (identity s) /\
    writes w' = writes w ++ ws /\ Forall (true_write shard_tensors content) ws /\
    forall t pos, t ∈ shard_tensors -> holds_source t pos -> covered ws (address t pos);
  loaded_stats : outcome_stats r = {| stats_filename := filename (identity s);
    bytes_read := identity_size (identity s); bytes_copied := sum_of planned_bytes shard_tensors;
    chunks := (identity_size (identity s) + chunk_bytes o - 1) / chunk_bytes o;
    memcpy_operations := sum_of (fun t => (source_end t - 1) / chunk_bytes o - source_begin t / chunk_bytes o + 1) shard_tensors;
    stats_sha256 := identity_sha256 (identity s) |}
}.

Lemma finish_wp base w0 l w : writes w0 = base -> at_head base l w -> identity_size (identity s) <= file_offset l ->
  wp (finish_shard kernel_sha256 s l) failed (fun r w' => outcome_diagnostic r = None /\ shard_loaded w0 r w') w.
Proof using Hkernel Hchunk Hsize Htensors.
  intros Hbase [(content & asked & Hs & Hh & Hoff & Htrue & Hcov) _ _ (Ho & Hi & Hlast) Hst _] Hend.
  assert (Hfull : file_offset l = identity_size (identity s)) by lia.
  unfold finish_shard. cbv zeta. apply wp_bind, wp_call. intros [data ended] w1 (w2 & answers & Hp & ->)%read_extra_cases.
  apply wp_bind, continue_wp. intros _. apply wp_bind, continue_wp. intros _. apply wp_bind, wp_gets.
  apply wp_bind, continue_wp. intros _. apply wp_bind, continue_wp. intros _. apply wp_bind, wp_call. intros [where_|digest] w3 Hfin; [apply stop_wp|].
  set (w1 := set_files _ _ _) in *.
  assert (Hs1 : stream_ok base asked w1) by (destruct (progress_stream _ _ _ _ Hp Hs); by split).
  assert (Hh1 : hash_holds content (hasher l) w1) by exact (hash_holds_progress _ _ _ _ Hp Hh).
  destruct (hash_finalize_exact _ _ _ _ _ _ Hkernel Hh1 Hfin) as [Hhd ->].
  apply wp_bind, continue_wp. intros Hdigest%bool_decide_eq_true. unfold cudaStreamSynchronize.
  apply wp_bind, wp_call. intros ok w4 (w5 & Hp5 & ->)%cuda_call_cases. apply wp_bind, continue_wp. intros ->. apply wp_pass.
  split; [done|]. assert (Hs5 : stream_ok base asked w5) by (apply (progress_stream _ _ w3), (hashed_stream _ _ w1); done).
  destruct Hs5 as [Hv Hl5 He5]. unfold visible in Hv. split.
  - cbn. by apply drop_ge.
  - done.
  - exists content, asked. split_and!; [lia|done| |done|].
    + cbn. rewrite take_ge by done. by rewrite Hv, Hbase.
    + intros t pos Ht Hpos. apply Hcov; [done..|]. pose proof (proj1 (Forall_forall _ _) Htensors t Ht) as [? _ _].
      unfold holds_source in Hpos. lia.
  - assert (Hcount : chunk_index l = (identity_size (identity s) + chunk_bytes o - 1) / chunk_bytes o).
    { apply (Z.div_unique_pos _ _ _ (identity_size (identity s) + chunk_bytes o - 1 - chunk_bytes o * chunk_index l)); lia. }
    rewrite Hst, Hdigest, Hfull, Hcount. unfold with_digest. cbn. f_equal.
    + unfold sum_of. f_equal. apply list_fmap_ext. intros i t Ht%list_elem_of_lookup_2.
      pose proof (proj1 (Forall_forall _ _) Htensors t Ht) as [? Hb _]. unfold overlap. lia.
    + unfold sum_of. f_equal. apply list_fmap_ext. intros i t Ht%list_elem_of_lookup_2.
      pose proof (proj1 (Forall_forall _ _) Htensors t Ht) as [? Hb _]. unfold operations_until.
      destruct (Z.leb_spec (identity_size (identity s)) (source_begin t)); [lia|]. by rewrite Z.min_l by lia.
Qed.


(** *** A world that lets the shard be loaded *)

(** What the file still delivers; [None] when a read fails. *)
Fixpoint delivered (from_file : list FileAnswer) : option (list Z) :=
  match from_file with
  | [] => Some []
  | Arrives bytes :: from_file => if bool_decide (bytes = []) then Some [] else app bytes <$> delivered from_file
  | ReadInterrupted :: from_file => delivered from_file
  | ReadFails :: _ => None
  end.

Record calm (rest : option (list Z)) (w : Pipeline) : Prop := {
  calm_cuda : Forall (eq true) (cuda_answers w);
  calm_file : delivered (file_answers w) = rest;
  calm_status : final_status w = Some (true, identity_size (identity s))
}.

Definition never {R W} (_ : R) (_ : W) : Prop := False.

Lemma wp_both {W R A} (m : flow W R A) ret ret' post post' w :
  wp m ret post w -> wp m ret' post' w -> wp m (fun r w => ret r w /\ ret' r w) (fun a w => post a w /\ post' a w) w.
Proof using. clear. unfold wp. destruct (m w) as [[r|a] w']; auto. Qed.

Lemma calm_advance rest w : calm rest w -> calm rest (device_advance w).
Proof using. clear. intros [Hc Hf Hs]. by split. Qed.

Lemma cuda_calm effect rest w : (forall w, cuda_answers (effect w) = cuda_answers w /\ file_answers (effect w) = file_answers w /\
    final_status (effect w) = final_status w) -> calm rest w ->
  exists w', cuda_call effect w = (true, w') /\ calm rest w'.
Proof using.
  clear. intros He Hw. unfold cuda_call, cuda_status. destruct (calm_advance _ _ Hw) as [Hc Hf Hs].
  assert (Hhead : default true (head (cuda_answers (device_advance w))) = true) by (destruct Hc as [|b l <- _]; done).
  rewrite Hhead. eexists. split; [done|]. destruct (He (set_oracle (tail (cuda_answers (device_advance w))) (pace (device_advance w)) (device_advance w))) as (E1 & E2 & E3).
  split; [rewrite E1; cbn [set_oracle cuda_answers]; by destruct Hc|by rewrite E2|by rewrite E3].
Qed.

Lemma cuda_ok_wp effect rest (post : bool -> Pipeline -> Prop) w :
  (forall w, cuda_answers (effect w) = cuda_answers w /\ file_answers (effect w) = file_answers w /\
    final_status (effect w) = final_status w) -> calm rest w ->
  (forall w', calm rest w' -> post true w') -> wp (call (cuda_call effect)) (@never ShardLoadOutcome Pipeline) post w.
Proof using. clear. intros He Hw Hpost. destruct (cuda_calm _ _ _ He Hw) as (w' & Hrun & Hw'). unfold wp, call. rewrite Hrun. by apply Hpost. Qed.

Lemma continue_ok_wp test st c where_ at_offset (post : unit -> Pipeline -> Prop) w :
  test = true -> post tt w -> wp (continue_if s test st c where_ at_offset) (@never _ _) post w.
Proof using. clear. by intros ->. Qed.

Lemma read_loop_delivers from_file requested data bytes : delivered from_file = Some bytes ->
  (length data <= requested)%nat -> (requested <= length data + length bytes)%nat ->
  exists rest, read_loop from_file requested data = (data ++ take (requested - length data) bytes, ReadWhole, rest) /\
    delivered rest = Some (drop (requested - length data) bytes).
Proof using.
  clear. revert data bytes. induction from_file as [|a from_file IH]; intros data bytes Hd Hle Hge; cbn [read_loop].
  - injection Hd as <-. simpl in Hge. rewrite (proj2 (Nat.leb_le _ _)) by lia. exists [].
    replace (requested - length data)%nat with 0%nat by lia. cbn. by rewrite app_nil_r.
  - destruct (Nat.leb_spec requested (length data)) as [Hfull|Hroom].
    { exists (a :: from_file). replace (requested - length data)%nat with 0%nat by lia. rewrite take_0, drop_0, app_nil_r. done. }
    destruct a as [b| |]; cbn [delivered] in Hd; [| |done].
    + cbv zeta. case_bool_decide as Hb; [injection Hd as <-; simpl in Hge; lia|].
      destruct (delivered from_file) as [bytes'|] eqn:Hrest; [|done]. injection Hd as <-. rewrite length_app in Hge.
      destruct (Nat.leb_spec (length b) (requested - length data)) as [Hfit|Hmore].
      * destruct (IH (data ++ b) bytes') as (rest & -> & Hr); [done|rewrite length_app; lia|rewrite length_app; lia|].
        exists rest. rewrite length_app in *. rewrite (take_app_ge b), (drop_app_ge b) by lia.
        rewrite app_assoc. replace (requested - length data - length b)%nat with (requested - (length data + length b))%nat by lia.
        done.
      * eexists. rewrite take_app_le, drop_app_le by lia. split; [done|]. cbn [delivered].
        rewrite bool_decide_false; [by rewrite Hrest|]. intros He. apply (f_equal length) in He. rewrite length_drop in He. simpl in He. lia.
    + by apply IH.
Qed.

Lemma read_into_slot_calm bytes slot requested w : calm (Some bytes) w -> (requested <= length bytes)%nat ->
  exists w', read_into_slot slot requested w = ((take requested bytes, ReadWhole), w') /\ calm (Some (drop requested bytes)) w'.
Proof using.
  clear. intros Hw Hle. destruct (calm_advance _ _ Hw) as [Hc Hf Hs]. unfold read_into_slot.
  destruct (read_loop_delivers _ requested [] _ Hf) as (rest & -> & Hr); [simpl; lia|simpl; lia|].
  rewrite Nat.sub_0_r in *. eexists. split; [done|]. by split.
Qed.

Lemma read_loop_ends from_file : delivered from_file = Some [] -> exists rest, read_loop from_file 1 [] = ([], ReadEof, rest).
Proof using.
  clear. induction from_file as [|a from_file IH]; intros Hf; cbn; [by eexists|].
  destruct a as [b| |]; cbn [delivered] in Hf; [|by apply IH|done]. case_bool_decide as Hb; [by eexists|].
  destruct (delivered from_file); [|done]. injection Hf as Hf. by destruct b.
Qed.

Lemma read_extra_calm w : calm (Some []) w -> exists rest w', read_extra w = (([], ReadEof), w') /\ calm rest w'.
Proof using.
  clear. intros Hw. destruct (calm_advance _ _ Hw) as [Hc Hf Hs]. unfold read_extra.
  destruct (read_loop_ends _ Hf) as (rest & ->). exists (delivered rest). eexists. split; [done|]. by split.
Qed.

(** There is room for the shard, in the arena and in the limits. *)
Record shard_room : Prop := {
  room_arena : is_u64 (arena_bytes p) /\ Forall (fun t => arena_offset t + planned_bytes t <= arena_bytes p) shard_tensors;
  room_bytes : sum_of planned_bytes shard_tensors <= u64_max;
  room_operations : sum_of (fun t => (source_end t - 1) / chunk_bytes o - source_begin t / chunk_bytes o + 1) shard_tensors
    <= max_memcpy_operations o <= u64_max
}.

Lemma one_segment_ok t from_ to slot st rest w : shard_room -> t ∈ shard_tensors -> 0 <= from_ -> calm rest w ->
  is_u64 (bytes_copied st) -> is_u64 (memcpy_operations st) ->
  bytes_copied st + overlap t from_ to <= u64_max -> memcpy_operations st + touched t from_ to <= max_memcpy_operations o ->
  wp (one_segment p o s t from_ to slot st) (@never _ _) (fun st' w' => calm rest w' /\
    st' = add_copied st (bytes_copied st + overlap t from_ to) (memcpy_operations st + touched t from_ to)) w.
Proof using Htensors.
  clear -Htensors. intros [[Hu Harena] _ [_ Hmax]] Hin Hfrom Hw Hub Huo Hb Ho.
  pose proof (proj1 (Forall_forall _ _) Htensors t Hin) as [[Hfw Hend] Hbytes Hoff].
  pose proof (proj1 (Forall_forall _ _) Harena t Hin) as Hfit. cbv beta in Hfit.
  unfold one_segment. cbv zeta. destruct (Z.leb_spec (Z.min (source_end t) to) (Z.max (source_begin t) from_)) as [Hnone|Hsome].
  { apply wp_pass. split; [done|]. assert (He : overlap t from_ to = 0) by (unfold overlap; lia).
    unfold touched. rewrite He. cbn. rewrite !Z.add_0_r. by destruct st. }
  set (b := Z.max (source_begin t) from_) in *. set (e := Z.min (source_end t) to) in *.
  assert (He : overlap t from_ to = e - b) by (unfold overlap; lia). unfold touched in *. rewrite He in *.
  rewrite (proj2 (Z.eqb_neq (e - b) 0)) in * by lia.
  assert (Hd : destination_of p t b (e - b) = Some (arena_offset t + (b - source_begin t))).
  { unfold destination_of. assert (Hadd : checked_add (arena_offset t) (b - source_begin t) = Some (arena_offset t + (b - source_begin t))).
    { apply checked_add_Some; unfold is_u64, u64_max in *; [lia|lia|]. split; [done|lia]. }
    rewrite Hadd. cbn. rewrite (proj2 (Z.ltb_ge _ _)), (proj2 (Z.ltb_ge _ _)) by lia. done. }
  rewrite Hd, (proj2 (Z.leb_gt _ _)) by lia. unfold cudaMemcpyAsync. apply wp_bind, (cuda_ok_wp _ rest); [done|done|].
  intros w' Hw'. apply wp_bind, continue_ok_wp; [done|].
  assert (Hadd1 : checked_add (bytes_copied st) (e - b) = Some (bytes_copied st + (e - b))).
  { apply checked_add_Some; [done|unfold is_u64, u64_max in *; lia|]. split; [done|lia]. }
  assert (Hadd2 : checked_add (memcpy_operations st) 1 = Some (memcpy_operations st + 1)).
  { apply checked_add_Some; [done|done|]. split; [done|lia]. }
  rewrite Hadd1, Hadd2. by apply wp_pass.
Qed.

Lemma overlap_nonneg t a b : 0 <= overlap t a b /\ 0 <= touched t a b.
Proof using. clear. unfold touched, overlap. split; [lia|]. by case_match. Qed.

Lemma scatter_ok segments from_ to slot st rest w : shard_room -> Forall (fun t => t ∈ shard_tensors) (tensor_at p <$> segments) ->
  0 <= from_ -> calm rest w -> is_u64 (bytes_copied st) -> is_u64 (memcpy_operations st) ->
  bytes_copied st + sum_of (fun t => overlap t from_ to) (tensor_at p <$> segments) <= u64_max ->
  memcpy_operations st + sum_of (fun t => touched t from_ to) (tensor_at p <$> segments) <= max_memcpy_operations o ->
  wp (scatter p o s segments from_ to slot st) (@never _ _) (fun _ => calm rest) w.
Proof using Htensors.
  intros Hroom Hin Hfrom. revert st w. induction segments as [|i segments IH]; intros st w Hw Hub Huo Hb Ho; cbn [scatter]; [by apply wp_pass|].
  rewrite fmap_cons, sum_of_cons in *. apply Forall_cons in Hin as [Ht Hin].
  destruct (to <=? source_begin (tensor_at p i)); [by apply wp_pass|].
  assert (Hnn : 0 <= sum_of (fun t => overlap t from_ to) (tensor_at p <$> segments) /\
    0 <= sum_of (fun t => touched t from_ to) (tensor_at p <$> segments))
    by (split; apply sum_of_nonneg, Forall_forall; intros; apply overlap_nonneg).
  pose proof (overlap_nonneg (tensor_at p i) from_ to). pose proof Hroom as [_ _ [_ Hmax]].
  apply wp_bind. eapply wp_mono; [apply (one_segment_ok _ _ _ _ _ rest); try done; lia|done|].
  cbv beta. intros st' w' [Hw' ->]. apply IH; cbn; unfold is_u64, u64_max in *; lia || done.
Qed.

Lemma reclaim_ok slot l rest w : calm rest w -> wp (reclaim_slot s slot l) (@never _ _) (fun _ => calm rest) w.
Proof using.
  clear. intros Hw. unfold reclaim_slot. destruct (negb _); [by apply wp_pass|].
  unfold cudaEventSynchronize. apply wp_bind, (cuda_ok_wp _ rest); [done|done|]. intros w' Hw'.
  apply wp_bind, continue_ok_wp; [done|]. by apply wp_pass.
Qed.

(** The portable hasher keeps what it has taken in itself. *)
Lemma hash_holds_portable m h w w' : hash_backend h = kPortable -> hash_holds m h w -> hash_holds m h w'.
Proof using. clear. intros Hk (Hf & Hb & Hm). rewrite Hk in Hm. split_and!; [done..|]. by rewrite Hk. Qed.

(** What the hasher has taken is the beginning of the file. *)
Definition read_so_far (content : list Z) (l : Local) (w : Pipeline) : Prop :=
  calm (Some (drop (Z.to_nat (file_offset l)) content)) w /\ hash_backend (hasher l) = kPortable /\
  hash_holds (take (Z.to_nat (file_offset l)) content) (hasher l) w.

Lemma take_chunk_ok slot l content w : read_so_far content l w ->
  Z.of_nat (length content) = identity_size (identity s) -> 0 <= file_offset l < identity_size (identity s) ->
  bytes_read (local_stats l) = file_offset l -> 0 <= chunks (local_stats l) <= file_offset l ->
  wp (take_chunk o s slot l) (@never _ _) (fun r w' => calm (Some (drop (Z.to_nat r.1.1) content)) w' /\
    r.1.1 = file_offset l + Z.min (identity_size (identity s) - file_offset l) (chunk_bytes o) /\
    hash_backend r.1.2 = kPortable /\ hash_holds (take (Z.to_nat r.1.1) content) r.1.2 w' /\ bytes_copied r.2 = bytes_copied (local_stats l) /\
    memcpy_operations r.2 = memcpy_operations (local_stats l)) w.
Proof using Hchunk Hsize.
  clear -Hchunk Hsize. intros (Hw & Hk & Hh) Hlen Hlt Hr Hc. unfold take_chunk. cbv zeta.
  set (size := Z.min _ _). assert (Hpos : 0 < size) by lia. assert (Hfit : file_offset l + size <= u64_max) by (unfold is_u64, u64_max in *; lia).
  destruct (read_into_slot_calm _ slot (Z.to_nat size) _ Hw) as (w' & Hread & Hw1); [rewrite length_drop; lia|].
  destruct (read_into_slot_cases _ _ _ _ _ _ Hread) as (w0 & a & rest & Hp & -> & Hwhole).
  apply wp_bind. unfold wp at 1, call at 1. rewrite Hread. apply wp_bind, continue_ok_wp; [done|]. apply wp_bind, continue_ok_wp; [done|].
  set (data := take _ (drop _ _)) in *. specialize (Hwhole eq_refl). set (m := take (Z.to_nat (file_offset l)) content) in *.
  assert (Hm : Z.of_nat (length m) = file_offset l) by (unfold m; rewrite length_take; lia).
  assert (Hh1 : hash_holds m (hasher l) (set_files a (<[slot := data ++ rest]> (staging w0)) w0)) by exact (hash_holds_progress _ _ _ _ Hp Hh).
  set (w1 := set_files _ _ _) in *.
  destruct (hash_update data (hasher l) w1) as [[ok h] w2] eqn:Hupd. apply wp_bind. unfold wp at 1, call at 1. rewrite Hupd.
  assert (Hok : ok = true /\ hash_backend h = kPortable /\ hash_holds (m ++ data) h w2 /\
    calm (Some (drop (Z.to_nat size) (drop (Z.to_nat (file_offset l)) content))) w2).
  { pose proof Hh1 as (Hf & Hb & Ha). pose proof Hupd as Hrun. unfold hash_update in Hupd. rewrite Hf, Hb, Hk in Hupd. rewrite Hk in Ha.
    assert (Hadd : checked_add (Z.of_nat (length m)) (Z.of_nat (length data)) = Some (Z.of_nat (length m) + Z.of_nat (length data))).
    { apply checked_add_Some; [unfold is_u64, u64_max in *; lia..|]. split; [done|lia]. }
    rewrite Hadd in Hupd. destruct (update_absorbs m data _ Ha ltac:(lia)) as (s' & Hu & _). cbv zeta in Hupd. rewrite Hu in Hupd.
    injection Hupd as <- <- <-. split; [done|]. split; [done|].
    split; [by apply (hash_update_exact _ _ _ _ _ _ Hh1 Hrun)|]. by apply calm_advance. }
  destruct Hok as (-> & Hkh & Hh2 & Hw2). apply wp_bind, continue_ok_wp; [done|].
  assert (Ha1 : checked_add (file_offset l) size = Some (file_offset l + size)) by (apply checked_add_Some; [unfold is_u64, u64_max in *; lia..|by split]).
  assert (Ha2 : checked_add (bytes_read (local_stats l)) size = Some (file_offset l + size)) by (rewrite Hr; exact Ha1).
  assert (Ha3 : checked_add (chunks (local_stats l)) 1 = Some (chunks (local_stats l) + 1)).
  { apply checked_add_Some; [unfold is_u64, u64_max in *; lia..|]. split; [done|lia]. }
  rewrite Ha1, Ha2, Ha3. apply wp_pass. cbn. rewrite drop_drop in Hw2. unfold m, data in Hh2. rewrite take_take_drop in Hh2.
  by replace (Z.to_nat (file_offset l + size)) with (Z.to_nat (file_offset l) + Z.to_nat size)%nat by lia.
Qed.

Lemma totals_bound to : to <= identity_size (identity s) ->
  sum_of (fun t => overlap t 0 to) shard_tensors <= sum_of planned_bytes shard_tensors /\
  sum_of (fun t => operations_until t to) shard_tensors <=
    sum_of (fun t => (source_end t - 1) / chunk_bytes o - source_begin t / chunk_bytes o + 1) shard_tensors.
Proof using Hchunk Htensors.
  clear -Hchunk Htensors. intros Hto. split; apply sum_of_le; (eapply Forall_impl; [exact Htensors|]); intros t [? Hb _].
  - unfold overlap. lia.
  - unfold operations_until. destruct (Z.leb_spec to (source_begin t)).
    + pose proof (Z.div_le_mono (source_begin t) (source_end t - 1) (chunk_bytes o) ltac:(lia) ltac:(lia)). lia.
    + pose proof (Z.div_le_mono (Z.min (source_end t) to - 1) (source_end t - 1) (chunk_bytes o) ltac:(lia) ltac:(lia)). lia.
Qed.

Lemma one_chunk_ok base l content w : shard_room -> at_head base l w -> file_offset l < identity_size (identity s) ->
  read_so_far content l w -> Z.of_nat (length content) = identity_size (identity s) ->
  wp (one_chunk p o s l) (@never _ _) (read_so_far content) w.
Proof using Hchunk Hsize Htensors Hordered.
  intros Hroom [(m & asked & Hs & Hh & Hoff & Htrue & Hcov) [Hlen Hset] Hcur (Ho & Hi & Hlast) Hst [Hub Huo]] Hlt (Hw & Hk & Hhash) Hcontent.
  assert (Hci : file_offset l = chunk_index l * chunk_bytes o) by lia. assert (Hpos : chunk_index l <= file_offset l) by nia.
  unfold one_chunk. cbv zeta. set (slot := Z.to_nat (chunk_index l mod kStagingSlots)).
  assert (Hslot : (slot < 2)%nat) by (unfold slot, kStagingSlots; pose proof (Z.mod_pos_bound (chunk_index l) 2); lia).
  apply wp_bind. eapply wp_mono; [apply (wp_both _ _ _ _ _ _ (reclaim_ok slot l _ w Hw) (reclaim_wp slot l w Hslot Hlen Hset))|by intros ? ? [[] _]|].
  cbv beta. intros flags w1 [Hw1 (Hp1 & _)].
  apply wp_bind. eapply wp_mono; [apply (take_chunk_ok slot l content w1)|done|].
  { split_and!; [done|done|]. by apply (hash_holds_progress _ _ w). }
  { done. }
  { lia. }
  { by rewrite Hst. }
  { rewrite Hst. cbn. lia. }
  cbv beta. intros [[e h] st] w2 (Hw2 & He & Hkh & Hh2 & Hbst & Host). cbn in Hw2, He, Hkh, Hh2, Hbst, Host.
  set (cursor := (segment_cursor l + skipped p (drop (segment_cursor l) (tensor_indices s)) (file_offset l))%nat).
  pose proof (cursor_split _ _ Hcur) as Hcur'. cbv zeta in Hcur'. fold cursor in Hcur'.
  destruct (chunk_counts cursor (chunk_index l) e Hi ltac:(lia) ltac:(lia)) as [Hbytes Hops]; [by rewrite <- Hci|].
  destruct (totals_bound e ltac:(lia)) as [Hb1 Hb2]. pose proof Hroom as [_ Hrb [Hro Hmax]].
  rewrite Hst in Hbst, Host. cbn in Hbst, Host. rewrite Hci in Hbst, Host. rewrite Hst in Hub, Huo. cbn in Hub, Huo. rewrite Hci in Hub, Huo.
  apply wp_bind. eapply wp_mono; [apply (scatter_ok _ _ _ _ _ (Some (drop (Z.to_nat e) content)) _ Hroom)|done|].
  { apply Forall_forall. intros t Ht. rewrite (segments_split cursor). apply elem_of_app. by right. }
  { lia. }
  { exact Hw2. }
  { by rewrite Hbst. }
  { by rewrite Host. }
  { rewrite Hbst, Hci. lia. }
  { rewrite Host, Hci. lia. }
  cbv beta. intros st' w3 Hw3. unfold cudaEventRecord. apply wp_bind. eapply cuda_ok_wp; [done|exact Hw3|]. intros w4 Hw4.
  apply wp_bind, continue_ok_wp; [done|]. apply wp_pass.
  split_and!; [done|done|]. cbn. by apply (hash_holds_portable _ _ w2).
Qed.

Lemma all_chunks_ok fuel base l content w : shard_room -> at_head base l w ->
  read_so_far content l w -> Z.of_nat (length content) = identity_size (identity s) ->
  wp (all_chunks p o s fuel l) (@never _ _) (read_so_far content) w.
Proof using Hchunk Hsize Htensors Hordered.
  intros Hroom. revert l w. induction fuel as [|fuel IH]; intros l w Hhead Hw Hlen; cbn [all_chunks]; [by apply wp_pass|].
  destruct (Z.leb_spec (identity_size (identity s)) (file_offset l)); [by apply wp_pass|].
  apply wp_bind. eapply wp_mono; [apply (wp_both _ _ _ _ _ _ (one_chunk_ok base l content w Hroom Hhead ltac:(lia) Hw Hlen)
    (one_chunk_wp base l w Hhead ltac:(lia)))|by intros ? ? [[] _]|].
  cbv beta. intros l' w' [Hw' [Hhead' _]]. by apply IH.
Qed.

Lemma finish_ok base l content w : at_head base l w -> identity_size (identity s) <= file_offset l ->
  read_so_far content l w -> Z.of_nat (length content) = identity_size (identity s) ->
  digest_text (digest_of content) = identity_sha256 (identity s) -> wp (finish_shard kernel_sha256 s l) (@never _ _) (fun _ _ => True) w.
Proof using.
  intros [_ _ _ (Ho & _) _ _] Hend (Hw & Hk & Hh) Hlen Hdigest. rewrite drop_ge in Hw by lia. rewrite take_ge in Hh by lia. destruct (read_extra_calm _ Hw) as (rest & w1 & Hread & Hw1).
  destruct (read_extra_cases _ _ _ Hread) as (w0 & a & Hp & ->).
  unfold finish_shard. cbv zeta. apply wp_bind. unfold wp at 1, call at 1. rewrite Hread.
  apply wp_bind, continue_ok_wp; [done|]. apply wp_bind, continue_ok_wp; [done|]. apply wp_bind, wp_gets.
  pose proof Hw1 as [_ _ Hstatus]. rewrite Hstatus.
  apply wp_bind, continue_ok_wp; [done|]. apply wp_bind, continue_ok_wp; [by apply bool_decide_eq_true|].
  apply wp_bind, wp_call. intros digest w2 Hfin. set (w1 := set_files _ _ _) in *.
  assert (Hdone : digest = inr (digest_of content) /\ w2 = device_advance w1).
  { pose proof (hash_holds_progress _ _ _ _ Hp Hh) as (Hf & _ & Hm). rewrite Hk in Hm. unfold hash_finalize in Hfin.
    rewrite Hf, Hk in Hfin. injection Hfin as <- <-. split; [|done]. f_equal. by apply finalize_spec. }
  destruct Hdone as [-> ->]. apply wp_bind, continue_ok_wp; [by apply bool_decide_eq_true|]. unfold cudaStreamSynchronize.
  eapply wp_bind, cuda_ok_wp; [done|by apply calm_advance|]. intros w3 _. apply wp_bind, continue_ok_wp; [done|]. by apply wp_pass.
Qed.

(** The file is the one of the identity, and no call fails. *)
Definition undisturbed (w : Pipeline) : Prop :=
  exists content, calm (Some content) w /\ Z.of_nat (length content) = identity_size (identity s) /\
    digest_text (digest_of content) = identity_sha256 (identity s).

Lemma initial_head backend operation w :
  pending w = [] -> length (staging w) = 2%nat -> length (events w) = 2%nat -> socket_message w = [] ->
  at_head (writes w) {|
    slot_pending := [false; false]; file_offset := 0; chunk_index := 0; segment_cursor := 0;
    hasher := new_hasher backend operation;
    local_stats := {| stats_filename := filename (identity s); bytes_read := 0; bytes_copied := 0; chunks := 0;
                      memcpy_operations := 0; stats_sha256 := [] |} |} w.
Proof using Hchunk Hsize Htensors.
  intros Hq Hl He Hm. split; cbn [hasher file_offset slot_pending segment_cursor chunk_index local_stats].
  - exists [], []. split_and!; try done.
    + split; [|done|done]. unfold visible. rewrite Hq. cbn. by rewrite !app_nil_r.
    + by apply new_hasher_holds.
    + intros t pos Ht Hpos Hlt. pose proof (proj1 (Forall_forall _ _) Htensors t Ht) as [? _ _].
      unfold holds_source in Hpos. lia.
  - split; [done|]. intros i Hi c. rewrite Hq, drop_nil. by intros ?%not_elem_of_nil.
  - by rewrite take_0.
  - unfold is_u64 in Hsize. lia.
  - f_equal.
    + symmetry. apply sum_of_zero. eapply Forall_impl; [exact Htensors|]. intros t [? _ _]. unfold overlap. lia.
    + symmetry. apply sum_of_zero. eapply Forall_impl; [exact Htensors|]. intros t [? _ _]. unfold operations_until.
      by rewrite (proj2 (Z.leb_le _ _)) by lia.
  - split; cbn; unfold is_u64; lia.
Qed.

Lemma load_one_shard_exact backend operation w r w' :
  pending w = [] -> length (staging w) = 2%nat -> length (events w) = 2%nat -> socket_message w = [] ->
  load_one_shard kernel_sha256 p o s backend operation w = (r, w') ->
  outcome_ok r = false \/ outcome_diagnostic r = None /\ shard_loaded w r w'.
Proof using Hkernel Hchunk Hsize Htensors Hordered.
  intros Hq Hl He Hm Hrun. unfold load_one_shard in Hrun.
  refine (wp_body _ (fun r w' => outcome_ok r = false \/ outcome_diagnostic r = None /\ shard_loaded w r w') w r w' _ Hrun).
  apply wp_bind. eapply wp_mono; [apply (all_chunks_wp _ (writes w))| |].
  - by apply initial_head.
  - cbn [file_offset]. unfold is_u64 in Hsize. lia.
  - intros r' w1 Hf. by left.
  - cbv beta. intros l' w1 [Hw1 Hend]. eapply wp_mono; [by apply (finish_wp (writes w) w)| |].
    + intros r' w2 Hf. by left.
    + intros r' w2 Hok. by right.
Qed.

Lemma load_one_shard_loads operation w : shard_room -> undisturbed w ->
  pending w = [] -> length (staging w) = 2%nat -> length (events w) = 2%nat -> socket_message w = [] ->
  outcome_ok (fst (load_one_shard kernel_sha256 p o s kPortable operation w)) = true.
Proof using Hkernel Hchunk Hsize Htensors Hordered.
  intros Hroom (content & Hw & Hlen & Hdigest) Hq Hl He Hm.
  destruct (load_one_shard kernel_sha256 p o s kPortable operation w) as [r w'] eqn:Hrun.
  pose proof (initial_head kPortable operation w Hq Hl He Hm) as Hhead.
  assert (Hnever : wp (fbind (all_chunks p o s (Z.to_nat (identity_size (identity s))) {|
      slot_pending := [false; false]; file_offset := 0; chunk_index := 0; segment_cursor := 0;
      hasher := new_hasher kPortable operation;
      local_stats := {| stats_filename := filename (identity s); bytes_read := 0; bytes_copied := 0; chunks := 0;
                        memcpy_operations := 0; stats_sha256 := [] |} |}) (fun l => finish_shard kernel_sha256 s l))
    (@never _ _) (fun r _ => outcome_ok r = true) w).
  { apply wp_bind. eapply wp_mono; [apply (wp_both _ _ _ _ _ _ (all_chunks_ok _ _ _ content w Hroom Hhead ltac:(split_and!; [done|done|by apply new_hasher_holds]) Hlen)
      (all_chunks_wp (Z.to_nat (identity_size (identity s))) _ _ w Hhead ltac:(cbn; unfold is_u64 in Hsize; lia)))|by intros ? ? [[] _]|].
    cbv beta. intros l w1 [Hso [Hhead1 Hend]].
    eapply wp_mono; [apply (wp_both _ _ _ _ _ _ (finish_ok _ _ content w1 Hhead1 Hend Hso Hlen Hdigest)
      (finish_wp _ w _ w1 eq_refl Hhead1 Hend))|by intros ? ? [[] _]|].
    cbv beta. intros r' w2 [_ [Hnone _]]. unfold outcome_ok. by apply bool_decide_eq_true. }
  unfold load_one_shard, body, wp in *. destruct (fbind _ _ w) as [[x|x] w1]; [done|]. by injection Hrun as <- <-.
Qed.
End load.

(** ** The shards of a plan *)

Lemma tensors_of_indices name ts : (fun i => nth i ts no_tensor) <$> indices_of name ts = List.filter (of_shard name) ts.
Proof.
  induction ts as [|t ts IH] using rev_ind; [done|]. rewrite indices_of_snoc, List.filter_app, fmap_app, <- IH. f_equal.
  - apply list_fmap_ext. intros j i Hj%list_elem_of_lookup_2. unfold indices_of in Hj.
    apply elem_of_filtered in Hj as [Hi _]. apply list_elem_of_In, in_seq in Hi. apply app_nth1. lia.
  - cbn [List.filter]. destruct (of_shard name t); [|done]. cbn. f_equal. by rewrite app_nth2, Nat.sub_diag by lia.
Qed.

Lemma sorted_by_index {A} (R : A -> A -> Prop) l :
  (forall i j a b, (i < j)%nat -> l !! i = Some a -> l !! j = Some b -> R a b) -> StronglySorted R l.
Proof.
  induction l as [|x l IH]; intros H; [constructor|]. constructor.
  - apply IH. intros i j a b Hij Ha Hb. apply (H (S i) (S j)); [lia|done..].
  - apply Forall_forall. intros y (j & Hj)%list_elem_of_lookup. apply (H 0%nat (S j)); [lia|done..].
Qed.

Lemma sorted_filter {A} (R Q : A -> A -> Prop) (f : A -> bool) l :
  (forall a b, f a = true -> f b = true -> R a b -> Q a b) -> StronglySorted R l -> StronglySorted Q (List.filter f l).
Proof.
  intros HRQ. induction 1 as [|x l Hs IH Hf]; cbn [List.filter]; [constructor|]. destruct (f x) eqn:Hx; [|done].
  constructor; [done|]. rewrite Forall_forall in *. intros y [Hy Hfy]%elem_of_filtered. by apply HRQ, Hf.
Qed.

Lemma NoDup_fmap_inj {A B} (f : A -> B) l a b : NoDup (f <$> l) -> a ∈ l -> b ∈ l -> f a = f b -> a = b.
Proof.
  intros Hnd (i & Hi)%list_elem_of_lookup (j & Hj)%list_elem_of_lookup Heq.
  assert (i = j) as <-; [|congruence]. apply (NoDup_lookup _ i j (f a) Hnd); rewrite list_lookup_fmap; [by rewrite Hi|].
  by rewrite Hj, Heq.
Qed.

Section planned.
Context (m : WeightManifest) (ids : list ShardIdentity) (p : ResidentLoadPlan).
Context (Hty : plan_typed m ids) (Hlaid : laid_out m ids p) (s : PlannedShard) (Hs : s ∈ planned_shards p).

Lemma shard_tensors_are : shard_tensors p s = List.filter (of_shard (filename (identity s))) (planned_tensors p).
Proof using Hlaid Hs.
  unfold shard_tensors, tensor_at. destruct Hlaid as [_ _ _ _ _ Hm _]. rewrite Forall_forall in Hm.
  destruct (Hm s Hs) as [-> _]. apply tensors_of_indices.
Qed.

Lemma shard_identity_in : identity s ∈ ids.
Proof using Hlaid Hs.
  destruct Hlaid as [_ _ _ _ [Hp _] _ _]. rewrite <- Hp. apply list_elem_of_fmap. by exists s.
Qed.

Lemma shard_tensors_ok : Forall (planned_ok (identity_size (identity s))) (shard_tensors p s).
Proof using Hlaid Hs.
  rewrite shard_tensors_are. apply Forall_forall. intros t [Hin Hsh%bool_decide_eq_true]%elem_of_filtered.
  pose proof shard_identity_in as Hid. destruct Hlaid as [_ _ Hi Hsrc [_ Hnd] _ (_ & Hfit & _)]. rewrite Forall_forall in Hi, Hsrc.
  destruct (Hi t Hin) as (_ & Ho & Ha & Hb & Hl), (Hsrc t Hin) as (i & Hiin & Hn & He).
  assert (i = identity s) as -> by (apply (NoDup_fmap_inj filename ids); [done..|congruence]).
  split; [lia|done|]. unfold is_u64, u64_max in *. lia.
Qed.

Lemma shard_tensors_ordered : StronglySorted (fun a b => source_end a <= source_begin b) (shard_tensors p s).
Proof using Hlaid Hs.
  rewrite shard_tensors_are. destruct Hlaid as [_ Ho _ _ _ _ _].
  eapply (sorted_filter (fun a b => key_lt (planned_shard a) (planned_shard b) = true \/
    planned_shard a = planned_shard b /\ source_end a <= source_begin b)).
  - intros a b Ha%bool_decide_eq_true Hb%bool_decide_eq_true [Hlt|[_ Hle]]; [|done].
    rewrite Ha, Hb in Hlt. by rewrite key_lt_irrefl in Hlt.
  - apply sorted_by_index. intros i j a b Hij Ha Hb. by apply (Ho i j).
Qed.

Lemma planned_size : is_u64 (identity_size (identity s)).
Proof using Hty Hlaid Hs.
  destruct Hty as [_ _ Hsz]. rewrite Forall_forall in Hsz. apply Hsz, shard_identity_in.
Qed.

Lemma planned_total : sum_of planned_bytes (planned_tensors p) = copied_bytes p /\ 0 <= copied_bytes p <= arena_bytes p.
Proof using Hty Hlaid.
  destruct Hlaid as [(order & Hp & H2) _ _ _ _ _ (Ha & _ & Hc & _)]. rewrite Ha, Hc.
  assert (Hsum : sum_of planned_bytes (planned_tensors p) = copied_total order).
  { unfold copied_total. clear -H2. induction H2 as [|nl t order ts Ht _ IH]; [done|]. rewrite !sum_of_cons, IH. f_equal. by rewrite Ht. }
  rewrite Hsum. split; [by apply sum_of_perm|]. apply totals_nonneg. apply Forall_forall. intros nl [Hin _]%text_elem.
  destruct Hty as [_ Ht _]. rewrite Forall_forall in Ht. by apply Ht.
Qed.

Lemma planned_room o :
  sum_of (fun t => (source_end t - 1) / chunk_bytes o - source_begin t / chunk_bytes o + 1) (shard_tensors p s)
    <= max_memcpy_operations o <= u64_max -> shard_room p o s.
Proof using Hty Hlaid Hs.
  intros Hops. destruct planned_total as [Hsum Hle]. pose proof Hlaid as [_ _ Hi _ _ _ (_ & Hfit & _)]. split; [|..|done].
  - split; [unfold is_u64, u64_max in *; lia|]. rewrite shard_tensors_are. apply Forall_forall. intros t [Hin _]%elem_of_filtered.
    rewrite Forall_forall in Hi. specialize (Hi t Hin). lia.
  - rewrite shard_tensors_are. assert (Hnn : Forall (fun t => 0 <= planned_bytes t) (planned_tensors p)).
    { eapply Forall_impl; [exact Hi|]. simpl. lia. }
    pose proof (filter_sum_le _ (of_shard (filename (identity s))) Hnn). lia.
Qed.
End planned.

(** A worker's pipeline before a shard: no copy is queued, and the kernel's
    hash is new. *)
Record ready (w : Pipeline) : Prop := {
  ready_queue : pending w = [];
  ready_slots : length (staging w) = 2%nat;
  ready_events : length (events w) = 2%nat;
  ready_socket : socket_message w = []
}.

(** C22. Loading a shard of a plan, whatever the file answers, whichever calls
    fail and at whatever pace the device copies: when it succeeds, the file had
    the size and the digest of its identity, all its copies are performed, every
    byte written is a byte of the file at the place of the tensor it belongs to,
    every byte of every tensor of the shard is written, and the statistics are
    exact.  It succeeds when the file is the one of its identity, no call fails
    and the limit of copies is not below what the plan needs. *)
Theorem load_one_shard_faithful kernel_sha256 m ids p o s backend operation w r w' :
  (forall m, kernel_sha256 m = digest_of m) -> plan_typed m ids -> laid_out m ids p -> s ∈ planned_shards p ->
  1 <= chunk_bytes o -> ready w -> load_one_shard kernel_sha256 p o s backend operation w = (r, w') ->
  (outcome_ok r = true -> shard_loaded p o s w r w') /\
  (backend = kPortable -> undisturbed s w ->
   sum_of (fun t => (source_end t - 1) / chunk_bytes o - source_begin t / chunk_bytes o + 1) (shard_tensors p s)
     <= max_memcpy_operations o <= u64_max -> outcome_ok r = true).
Proof.
  intros Hkernel Hty Hlaid Hs Hchunk [Hq Hl He Hm] Hrun.
  pose proof (shard_tensors_ok m ids p Hlaid s Hs) as Htens. pose proof (shard_tensors_ordered m ids p Hlaid s Hs) as Hord.
  pose proof (planned_size m ids p Hty Hlaid s Hs) as Hsize. split.
  - intros Hok. destruct (load_one_shard_exact _ Hkernel p o s Htens Hord Hsize Hchunk _ _ _ _ _ Hq Hl He Hm Hrun) as [Hno|[_ H]];
      [congruence|done].
  - intros -> Hw Hops. pose proof (planned_room m ids p Hty Hlaid s Hs o Hops) as Hroom.
    pose proof (load_one_shard_loads _ Hkernel p o s Htens Hord Hsize Hchunk operation w Hroom Hw Hq Hl He Hm) as Hok.
    by rewrite Hrun in Hok.
Qed.

(** *** A small shard, loaded *)

Definition sample_bytes (n : nat) : list Z := (fun i => Z.of_nat i mod 251) <$> seq 0 n.

Definition loadable_identities : list ShardIdentity := [
  {| filename := lit "b.safetensors"; identity_size := 20; identity_sha256 := digest_text (digest_of (sample_bytes 20)) |};
  {| filename := lit "a.safetensors"; identity_size := 320; identity_sha256 := digest_text (digest_of (sample_bytes 320)) |}].

Definition sample_load_options : ResidentLoadOptions := {|
  chunk_bytes := 64; min_free_bytes_after_load := 0; max_arena_bytes := 4096; load_max_tensors := 10; load_max_shards := 2;
  max_memcpy_operations := 100; sha256_backend := kPortable; max_parallel_shards := 2 |}.

(** A file that arrives in pieces, and a device that is late. *)
Definition sample_pipeline (size : nat) : Pipeline := {|
  file_answers := [Arrives (take 50 (sample_bytes size)); ReadInterrupted; Arrives (drop 50 (sample_bytes size))];
  final_status := Some (true, Z.of_nat size); socket_answers := []; socket_message := [];
  staging := [repeat 0 64; repeat 0 64]; pending := []; writes := []; events := [0; 0]%nat; cuda_answers := [];
  pace := [0; 0; 1; 0; 0; 0; 0; 0; 0; 0; 0; 0; 1; 0; 3]%nat |}.

Lemma loadable_plan_typed : plan_typed sample_manifest loadable_identities.
Proof. destruct sample_plan_typed as [? ? _]. split; [done|done|]. repeat constructor; unfold size_typed, is_u64; cbn; lia. Qed.

Lemma sample_shard_loads :
  match build_resident_load_plan sample_manifest loadable_identities with
  | inl _ => false
  | inr p => match planned_shards p with
             | [] => false
             | s :: _ => outcome_ok (fst (load_one_shard digest_of p sample_load_options s kPortable false (sample_pipeline 320)))
             end
  end = true.
Proof. by vm_compute. Qed.

Lemma loadable_laid_out p : build_resident_load_plan sample_manifest loadable_identities = inr p ->
  laid_out sample_manifest loadable_identities p.
Proof.
  intros Hb. pose proof (proj1 (build_is _ _ loadable_plan_typed p) Hb) as [Hp ->].
  exact (the_plan_laid_out _ _ loadable_plan_typed Hp).
Qed.

Lemma load_one_shard_faithful_witness : exists p s,
  build_resident_load_plan sample_manifest loadable_identities = inr p /\ s ∈ planned_shards p /\
  let '(r, w') := load_one_shard digest_of p sample_load_options s kPortable false (sample_pipeline 320) in
  outcome_ok r = true /\ shard_loaded p sample_load_options s (sample_pipeline 320) r w'.
Proof.
  pose proof sample_shard_loads as Hok. destruct (build_resident_load_plan sample_manifest loadable_identities) as [d|p] eqn:Hb; [discriminate Hok|].
  destruct (planned_shards p) as [|s l] eqn:Hshards; [discriminate Hok|]. exists p, s. split; [done|]. split; [rewrite Hshards; by left|].
  destruct (load_one_shard digest_of p sample_load_options s kPortable false (sample_pipeline 320)) as [r w'] eqn:Hrun. split; [exact Hok|].
  refine (proj1 (load_one_shard_faithful digest_of sample_manifest loadable_identities p sample_load_options s kPortable false
    (sample_pipeline 320) r w' (fun _ => eq_refl) loadable_plan_typed (loadable_laid_out p Hb) _ _ _ Hrun) Hok).
  - rewrite Hshards. by left.
  - done.
  - by split.
Defined.
