(* ===== verification/ResidentLoad.v ===== *)
(** * ResidentLoad: the weights loaded by a pool of workers
      (src/runtime/resident_weights.cpp, load_resident_weights and what it calls)

    The options and the plan are checked, the hash backend is chosen, the shards
    are opened below the directory without following links, the device's
    resources are allocated; then a pool of workers loads the shards, each worker
    one shard after another with its own stream and buffers ([ResidentShard.v]),
    and the outcomes are checked and added up.

    [prepare] is the code before the workers start, the pool is a step relation
    ([pool_step]), and [conclude] is the code after they are joined.  A shard is
    loaded in one step of the pool: what a worker does meanwhile touches only its
    own pipeline and the ranges of the arena that belong to its shard.  The
    arena is what all writes make of it, in any order ([after_writes]).

    A diagnostic keeps its code, context, shard and offset.  Memory is never
    exhausted, and threads can be started. *)

From Stdlib Require Import String Sorting.Sorted.
From stdpp Require Import sorting relations.
From S2P Require Import Prelude OrderedMap Sha256 Json Safetensors ModelConfig Checkpoint WeightManifest ManifestBuild ResidentPlan ResidentShard.

(** ** Limits *)

Definition kMaximumChunkBytes : Z := 256 * 1024 * 1024.
Definition kMaximumArenaBytes : Z := 64 * 1024 * 1024 * 1024.
Definition kMaximumTensors : Z := 1000000.
Definition kMaximumShards : Z := 1024.
Definition kMaximumParallelShards : Z := 16.
Definition kMaximumPinnedStagingBytes : Z := 2 * 1024 * 1024 * 1024.
Definition kMaximumMemcpyOperations : Z := 10000000.

(** The test of the options; a backend is one of the three. *)
Definition invalid_load_options (o : ResidentLoadOptions) : bool :=
  (chunk_bytes o =? 0) || (kMaximumChunkBytes <? chunk_bytes o)
  || (max_arena_bytes o =? 0) || (kMaximumArenaBytes <? max_arena_bytes o)
  || (load_max_tensors o =? 0) || (kMaximumTensors <? load_max_tensors o)
  || (load_max_shards o =? 0) || (kMaximumShards <? load_max_shards o)
  || (max_memcpy_operations o =? 0) || (kMaximumMemcpyOperations <? max_memcpy_operations o)
  || (max_parallel_shards o =? 0) || (kMaximumParallelShards <? max_parallel_shards o).

(** The chunks a tensor lies in. *)
Definition tensor_operations (chunk : Z) (t : PlannedTensor) : Z :=
  (source_end t - 1) / chunk - source_begin t / chunk + 1.

(** The loop that counts the copies. *)
Fixpoint count_operations (o : ResidentLoadOptions) (ts : list PlannedTensor) (total : Z) : ResidentLoadDiagnostic + Z :=
  match ts with
  | [] => inr total
  | t :: ts =>
      total ← require (checked_add total (tensor_operations (chunk_bytes o) t)) kArithmeticOverflow
        (planned_name t) (planned_shard t) (source_begin t);
      _ ← fail_if (max_memcpy_operations o <? total) kInvalidOption (planned_name t) (planned_shard t) (source_begin t);
      count_operations o ts total
  end.

(** ** The system *)

(** Answers of [accept4]. *)
Inductive AcceptResult := Accepted | AcceptInterrupted | AcceptFails.

(** What the system answers before the workers start.  A descriptor is the list
    of the names it was opened by, from the directory. *)
Record System := {
  hash_socket : bool;                                       (* [socket(AF_ALG)] *)
  hash_bind : bool;
  accepts : list AcceptResult;                              (* a list that ends is an error *)
  root_text : list Z;                                       (* the directory's path *)
  root_opens : bool;
  opens : list (list Z) -> list Z -> bool -> bool;          (* below a descriptor, a name, as the last one *)
  status_of : list (list Z) -> option (bool * Z);           (* is it regular, and its size *)
  device_answers : list bool;                               (* a list that ends is success *)
  device_memory : option (Z * Z)                            (* the free and all bytes [cudaMemGetInfo] gives *)
}.

(** *** The hash backend *)

(** [accept4] until it is not interrupted. *)
Fixpoint accept_one (answers : list AcceptResult) : bool * list AcceptResult :=
  match answers with
  | [] => (false, [])
  | Accepted :: answers => (true, answers)
  | AcceptInterrupted :: answers => accept_one answers
  | AcceptFails :: answers => (false, answers)
  end.

Fixpoint accept_all (count : nat) (answers : list AcceptResult) : bool :=
  match count with
  | O => true
  | S count => let '(ok, answers) := accept_one answers in ok && accept_all count answers
  end.

(** [create_af_alg_sha256_operations]: the context of the failure, or the number
    of operations. *)
Definition create_af_alg_sha256_operations (sys : System) (count : nat) : list Z + nat :=
  if negb (hash_socket sys) then inl (lit "socket(AF_ALG)")
  else if negb (hash_bind sys) then inl (lit "bind(AF_ALG sha256)")
  else if negb (accept_all count (accepts sys)) then inl (lit "accept4(AF_ALG sha256)")
  else inr count.

(** [prepare_hash_backend]: no operation at all is a failure too. *)
Definition prepare_hash_backend (sys : System) (requested : ResidentSha256Backend) (shard_count : nat) : list Z + ResidentSha256Backend :=
  match requested with
  | kPortable => inr kPortable
  | _ =>
      match create_af_alg_sha256_operations sys shard_count with
      | inr (S _) => inr kLinuxAfAlg
      | inr O => match requested with kAuto => inr kPortable | _ => inl [] end
      | inl where_ => match requested with kAuto => inr kPortable | _ => inl where_ end
      end
  end.

(** *** Opening *)

(** The loop of [open_relative_nofollow]: the component that failed, or the
    descriptor.  A path that is empty or ends in a slash fails without one. *)
Fixpoint open_components (sys : System) (parent : list (list Z)) (names : list (list Z)) : list Z + list (list Z) :=
  match names with
  | [] => inl []
  | [name] =>
      if bool_decide (name = []) then inl []
      else if opens sys parent name true then inr (parent ++ [name]) else inl name
  | name :: names => if opens sys parent name false then open_components sys (parent ++ [name]) names else inl name
  end.

Definition open_relative_nofollow (sys : System) (relative_path : list Z) : list Z + list (list Z) :=
  open_components sys [] (components relative_path).

(** The loop that opens the shards. *)
Fixpoint open_shards (sys : System) (all : list PlannedShard) : ResidentLoadDiagnostic + list (list (list Z)) :=
  match all with
  | [] => inr []
  | s :: all =>
      let name := filename (identity s) in
      descriptor ← match open_relative_nofollow sys name with
                   | inl component => failure kOpenShardFailed component name 0
                   | inr descriptor => inr descriptor
                   end;
      status ← require (status_of sys descriptor) kIoFailure (lit "fstat") name 0;
      _ ← fail_if (negb status.1) kShardNotRegular (lit "fstat") name 0;
      _ ← fail_if ((status.2 <? 0) || negb (status.2 =? identity_size (identity s))) kShardSizeMismatch (lit "fstat") name 0;
      descriptors ← open_shards sys all;
      inr (descriptor :: descriptors)
  end.

(** ** The views *)

Record DeviceTensorView := {
  view_offset : Z;
  view_bytes : Z;
  view_dtype : DType;
  view_shape : list Z
}.

Definition Views : Type := list (list Z * DeviceTensorView).

Definition view_of (t : PlannedTensor) : DeviceTensorView := {|
  view_offset := arena_offset t; view_bytes := planned_bytes t; view_dtype := planned_dtype t; view_shape := planned_shape t |}.

Fixpoint make_views (ts : list PlannedTensor) (views : Views) : ResidentLoadDiagnostic + Views :=
  match ts with
  | [] => inr views
  | t :: ts =>
      _ ← fail_if (bool_decide (map_find (planned_name t) views <> None)) kInvalidManifest (planned_name t) (planned_shard t) 0;
      make_views ts (map_emplace (planned_name t) (view_of t) views)
  end.

(** *** The device's resources *)

(** What a call of a worker is called in a diagnostic. *)
Definition of_worker (function : list Z) (worker : nat) : list Z :=
  function ++ lit "(worker " ++ to_string (Z.of_nat worker) ++ lit ")".

(** The calls that allocate a worker's resources, in their order: a stream, and
    an event and a buffer for each slot. *)
Definition worker_calls (worker : nat) : list (list Z) :=
  of_worker (lit "cudaStreamCreateWithFlags") worker
  :: mjoin (replicate (Z.to_nat kStagingSlots)
       [of_worker (lit "cudaEventCreateWithFlags") worker; of_worker (lit "cudaHostAlloc") worker]).

(** Calls in order, up to the first that fails. *)
Fixpoint make_calls (calls : list (list Z)) (answers : list bool) : ResidentLoadDiagnostic + list bool :=
  match calls with
  | [] => inr answers
  | where_ :: calls =>
      _ ← fail_if (negb (default true (head answers))) kCudaFailure where_ [] 0;
      make_calls calls (tail answers)
  end.

(** ** Before the workers *)

Record Prepared := {
  the_load_plan : ResidentLoadPlan;
  worker_count : nat;
  pinned_staging_bytes : Z;
  planned_memcpy_operations : Z;
  chosen_backend : ResidentSha256Backend;
  open_descriptors : list (list (list Z));
  planned_views : Views;
  free_device_bytes : Z;
  all_device_bytes : Z
}.

Definition prepare (sys : System) (m : WeightManifest) (ids : list ShardIdentity) (o : ResidentLoadOptions)
    : ResidentLoadDiagnostic + Prepared :=
  _ ← fail_if (invalid_load_options o) kInvalidOption (lit "options") [] 0;
  p ← build_resident_load_plan m ids;
  let tensor_count := Z.of_nat (length (planned_tensors p)) in
  let shard_count := Z.of_nat (length (planned_shards p)) in
  _ ← fail_if ((max_arena_bytes o <? arena_bytes p) || (load_max_tensors o <? tensor_count) || (load_max_shards o <? shard_count))
        kInvalidOption (lit "plan") [] 0;
  let workers := Z.min (max_parallel_shards o) shard_count in
  staging_bytes ← require (slots ← checked_multiply workers kStagingSlots;
                           total ← checked_multiply slots (chunk_bytes o);
                           if kMaximumPinnedStagingBytes <? total then None else Some total)
                    kInvalidOption (lit "options.max_parallel_shards") [] 0;
  operations ← count_operations o (planned_tensors p) 0;
  backend ← match prepare_hash_backend sys (sha256_backend o) (length (planned_shards p)) with
            | inl where_ => failure kSha256BackendUnavailable where_ [] 0
            | inr backend => inr backend
            end;
  _ ← fail_if (negb (root_opens sys)) kOpenDirectoryFailed (root_text sys) [] 0;
  descriptors ← open_shards sys (planned_shards p);
  views ← make_views (planned_tensors p) [];
  answers ← make_calls (lit "cudaGetDevice" :: mjoin (worker_calls <$> seq 0 (Z.to_nat workers))) (device_answers sys);
  memory ← require (device_memory sys) kCudaFailure (lit "cudaMemGetInfo") [] 0;
  _ ← fail_if ((memory.1 <? arena_bytes p) || (memory.1 - arena_bytes p <? min_free_bytes_after_load o))
        kInsufficientDeviceMemory (lit "cudaMemGetInfo") [] 0;
  _ ← make_calls [lit "cudaMalloc(resident arena)"] answers;
  inr {| the_load_plan := p; worker_count := Z.to_nat workers; pinned_staging_bytes := staging_bytes;
         planned_memcpy_operations := operations; chosen_backend := backend; open_descriptors := descriptors;
         planned_views := views; free_device_bytes := memory.1; all_device_bytes := memory.2 |}.

(** ** The workers *)

(** What the file of a shard and its hash socket answer. *)
Record ShardSource := {
  source_answers : list FileAnswer;
  source_status : option (bool * Z);
  source_socket : list SocketAnswer
}.

(** A worker takes another shard: its file and a new hash socket. *)
Definition with_shard (f : ShardSource) (w : Pipeline) : Pipeline := {|
  file_answers := source_answers f; final_status := source_status f; socket_answers := source_socket f; socket_message := [];
  staging := staging w; pending := pending w; writes := writes w; events := events w; cuda_answers := cuda_answers w;
  pace := pace w |}.

Inductive WorkerState := Starting | Waiting | Loading (shard : nat) | Stopped.

Record Worker := {
  worker_state : WorkerState;
  worker_diagnostic : option ResidentLoadDiagnostic;
  worker_pipeline : Pipeline
}.

Record Pool := {
  next_shard : nat;
  pool_workers : list Worker;
  shard_outcomes : list (option ShardLoadOutcome)   (* [None] is not attempted *)
}.

Definition at_state (st : WorkerState) (w : Worker) : Worker := {|
  worker_state := st; worker_diagnostic := worker_diagnostic w; worker_pipeline := worker_pipeline w |}.

Section pool.
Context (kernel_sha256 : list Z -> list Z) (sources : nat -> ShardSource) (p : ResidentLoadPlan) (o : ResidentLoadOptions)
  (backend : ResidentSha256Backend).

Definition set_worker (i : nat) (w : Worker) (l : Pool) : Pool := {|
  next_shard := next_shard l; pool_workers := <[i := w]> (pool_workers l); shard_outcomes := shard_outcomes l |}.

(** One step of worker [i]. *)
Inductive pool_step : Pool -> Pool -> Prop :=
  (* [cudaSetDevice] *)
  | step_device l i w : pool_workers l !! i = Some w -> worker_state w = Starting ->
      pool_step l (set_worker i (at_state Waiting w) l)
  | step_device_fails l i w : pool_workers l !! i = Some w -> worker_state w = Starting ->
      pool_step l (set_worker i {| worker_state := Stopped;
        worker_diagnostic := Some {| load_code := kCudaFailure; load_context := of_worker (lit "cudaSetDevice") i; load_shard := []; load_offset := 0 |};
        worker_pipeline := worker_pipeline w |} l)
  (* [next_shard.fetch_add(1)] *)
  | step_claim l i w : pool_workers l !! i = Some w -> worker_state w = Waiting ->
      pool_step l {| next_shard := S (next_shard l);
        pool_workers := <[i := at_state (if (next_shard l <? length (planned_shards p))%nat then Loading (next_shard l) else Stopped) w]> (pool_workers l);
        shard_outcomes := shard_outcomes l |}
  (* [load_one_shard], and stopping when it fails *)
  | step_load l i w k s r w' : pool_workers l !! i = Some w -> worker_state w = Loading k -> planned_shards p !! k = Some s ->
      load_one_shard kernel_sha256 p o s backend (bool_decide (backend = kLinuxAfAlg)) (with_shard (sources k) (worker_pipeline w)) = (r, w') ->
      pool_step l {| next_shard := next_shard l;
        pool_workers := <[i := {| worker_state := if outcome_ok r then Waiting else Stopped;
                                  worker_diagnostic := worker_diagnostic w; worker_pipeline := w' |}]> (pool_workers l);
        shard_outcomes := <[k := Some r]> (shard_outcomes l) |}.

(** The pool when its threads are started, over the pipelines that were
    allocated. *)
Definition pool_start (pipelines : list Pipeline) : Pool := {|
  next_shard := 0; pool_workers := (fun w => {| worker_state := Starting; worker_diagnostic := None; worker_pipeline := w |}) <$> pipelines;
  shard_outcomes := replicate (length (planned_shards p)) None |}.

(** Every thread has ended. *)
Definition all_stopped (l : Pool) : Prop := Forall (fun w => worker_state w = Stopped) (pool_workers l).
End pool.

(** ** After the workers *)

Record ResidentLoadStats := {
  total_read : Z;
  total_copied : Z;
  total_skipped : Z;
  total_chunks : Z;
  total_operations : Z;
  shard_workers : nat;
  staging_bytes : Z;            (* [pinned_staging_bytes] *)
  device_free_before : Z;
  device_total : Z;
  used_backend : ResidentSha256Backend;
  shard_stats : list ShardLoadStats
}.

(** Before the shards are added up. *)
Definition initial_stats (x : Prepared) : ResidentLoadStats := {|
  total_read := 0; total_copied := 0; total_skipped := 0; total_chunks := 0; total_operations := 0;
  shard_workers := worker_count x; staging_bytes := pinned_staging_bytes x; device_free_before := free_device_bytes x;
  device_total := all_device_bytes x; used_backend := chosen_backend x; shard_stats := [] |}.

Definition with_totals (read copied skipped_ chunk_total operations : Z) (shards : list ShardLoadStats) (st : ResidentLoadStats)
    : ResidentLoadStats := {|
  total_read := read; total_copied := copied; total_skipped := skipped_; total_chunks := chunk_total; total_operations := operations;
  shard_workers := shard_workers st; staging_bytes := staging_bytes st; device_free_before := device_free_before st;
  device_total := device_total st; used_backend := used_backend st; shard_stats := shards |}.

Record ResidentWeights := { weights_bytes : Z; weights_tensors : Views; weights_stats : ResidentLoadStats }.

(** The loop over the workers. *)
Fixpoint check_workers (workers : list Worker) : ResidentLoadDiagnostic + unit :=
  match workers with
  | [] => inr tt
  | w :: workers => match worker_diagnostic w with Some d => inl d | None => check_workers workers end
  end.

(** The loop over the outcomes. *)
Fixpoint check_outcomes (all : list PlannedShard) (index : nat) (outcomes : list (option ShardLoadOutcome))
    : ResidentLoadDiagnostic + list ShardLoadOutcome :=
  match outcomes with
  | [] => inr []
  | None :: _ =>
      failure kAllocationFailure (lit "worker") (default [] (filename ∘ identity <$> all !! index)) (Z.of_nat index)
  | Some r :: outcomes =>
      match outcome_diagnostic r with
      | Some d => inl d
      | None => rest ← check_outcomes all (S index) outcomes; inr (r :: rest)
      end
  end.

(** The loop that adds the statistics up. *)
Fixpoint add_up (outcomes : list ShardLoadOutcome) (total : ResidentLoadStats) : ResidentLoadDiagnostic + ResidentLoadStats :=
  match outcomes with
  | [] => inr total
  | r :: outcomes =>
      let st := outcome_stats r in
      let overflow {A} (x : option A) := require x kArithmeticOverflow (lit "statistics") (stats_filename st) 0 in
      read ← overflow (checked_add (total_read total) (bytes_read st));
      copied ← overflow (checked_add (total_copied total) (bytes_copied st));
      chunk_total ← overflow (checked_add (total_chunks total) (chunks st));
      operations ← overflow (checked_add (total_operations total) (memcpy_operations st));
      add_up outcomes (with_totals read copied (total_skipped total) chunk_total operations (shard_stats total ++ [st]) total)
  end.

Definition conclude (prepared : Prepared) (l : Pool) : ResidentLoadDiagnostic + ResidentWeights :=
  let p := the_load_plan prepared in
  _ ← check_workers (pool_workers l);
  outcomes ← check_outcomes (planned_shards p) 0 (shard_outcomes l);
  total ← add_up outcomes (initial_stats prepared);
  _ ← fail_if (negb (total_read total =? source_bytes p) || negb (total_copied total =? copied_bytes p)
               || negb (total_operations total =? planned_memcpy_operations prepared) || (total_read total <? total_copied total))
        kInvalidManifest (lit "statistics") [] 0;
  inr {| weights_bytes := arena_bytes p; weights_tensors := planned_views prepared;
         weights_stats := with_totals (total_read total) (total_copied total) (total_read total - total_copied total)
           (total_chunks total) (total_operations total) (shard_stats total) total |}.

(** [ResidentWeights::find] *)
Definition find_view (name : list Z) (weights : ResidentWeights) : option DeviceTensorView := map_find name (weights_tensors weights).

(** A pipeline that was just allocated. *)
Definition new_pipeline (w : Pipeline) : Prop := ready w /\ writes w = [].

(** [load_resident_weights]: its result, and the writes to the arena. *)
Inductive load_resident_weights (kernel_sha256 : list Z -> list Z) (sys : System) (sources : nat -> ShardSource) (m : WeightManifest)
    (ids : list ShardIdentity) (o : ResidentLoadOptions) : ResidentLoadDiagnostic + ResidentWeights -> list (Z * list Z) -> Prop :=
  | load_refused d : prepare sys m ids o = inl d ->
      load_resident_weights kernel_sha256 sys sources m ids o (inl d) []
  | load_runs prepared pipelines l : prepare sys m ids o = inr prepared ->
      length pipelines = worker_count prepared -> Forall new_pipeline pipelines ->
      rtc (pool_step kernel_sha256 sources (the_load_plan prepared) o (chosen_backend prepared)) (pool_start (the_load_plan prepared) pipelines) l ->
      all_stopped l ->
      load_resident_weights kernel_sha256 sys sources m ids o (conclude prepared l) (mjoin (writes ∘ worker_pipeline <$> pool_workers l)).

(** The arena after writes. *)
Definition one_write (wr : Z * list Z) (arena : Z -> Z) : Z -> Z :=
  fun a => if (wr.1 <=? a) && (a <? wr.1 + Z.of_nat (length wr.2)) then at_ wr.2 (a - wr.1) else arena a.
Definition after_writes (ws : list (Z * list Z)) (arena : Z -> Z) : Z -> Z := foldl (fun arena wr => one_write wr arena) arena ws.

(** ** The pool *)

Definition all_writes (l : Pool) : list (Z * list Z) := mjoin (writes ∘ worker_pipeline <$> pool_workers l).

Lemma elem_of_all_writes l wr : wr ∈ all_writes l <-> exists i w, pool_workers l !! i = Some w /\ wr ∈ writes (worker_pipeline w).
Proof.
  unfold all_writes. rewrite list_elem_of_join. split.
  - intros (ws & Hin & (w & -> & (i & Hi)%list_elem_of_lookup)%list_elem_of_fmap). by exists i, w.
  - intros (i & w & Hi & Hin). exists (writes (worker_pipeline w)). split; [done|]. apply list_elem_of_fmap. exists w. split; [done|].
    by apply list_elem_of_lookup_2 in Hi.
Qed.

Definition active (st : WorkerState) : Prop := st <> Stopped.

Section pool.
Context (kernel_sha256 : list Z -> list Z) (Hkernel : forall m, kernel_sha256 m = digest_of m).
Context (m : WeightManifest) (ids : list ShardIdentity) (p : ResidentLoadPlan) (Hty : plan_typed m ids) (Hlaid : laid_out m ids p).
Context (o : ResidentLoadOptions) (Hchunk : 1 <= chunk_bytes o).
Context (sources : nat -> ShardSource) (backend : ResidentSha256Backend).
Local Abbreviation step := (pool_step kernel_sha256 sources p o backend).
Local Abbreviation n := (length (planned_shards p)).

(** What a shard that was loaded has left. *)
Definition shard_done (s : PlannedShard) (content : list Z) (r : ShardLoadOutcome) (ws : list (Z * list Z)) : Prop :=
  Z.of_nat (length content) = identity_size (identity s) /\ digest_text (digest_of content) = identity_sha256 (identity s) /\
  bytes_read (outcome_stats r) = identity_size (identity s) /\
  bytes_copied (outcome_stats r) = sum_of planned_bytes (shard_tensors p s) /\
  memcpy_operations (outcome_stats r) = sum_of (tensor_operations (chunk_bytes o)) (shard_tensors p s) /\
  chunks (outcome_stats r) = (identity_size (identity s) + chunk_bytes o - 1) / chunk_bytes o /\
  forall t pos, t ∈ shard_tensors p s -> holds_source t pos -> covered ws (address t pos).

(** The shards that succeeded, while none has failed. *)
Definition all_good (l : Pool) : Prop := forall k r, shard_outcomes l !! k = Some (Some r) -> outcome_ok r = true.

Record pool_ok (l : Pool) : Prop := {
  ok_length : length (shard_outcomes l) = n;
  ok_attempted : forall k, (k < n)%nat -> (k < next_shard l)%nat ->
    (exists r, shard_outcomes l !! k = Some (Some r)) \/ exists i w, pool_workers l !! i = Some w /\ worker_state w = Loading k;
  ok_outcome : forall k r, shard_outcomes l !! k = Some (Some r) -> (k < next_shard l)%nat;
  ok_loading : forall i w k, pool_workers l !! i = Some w -> worker_state w = Loading k ->
    (k < next_shard l)%nat /\ (k < n)%nat /\ shard_outcomes l !! k = Some None /\
    forall j w', pool_workers l !! j = Some w' -> worker_state w' = Loading k -> j = i;
  ok_ready : forall i w, pool_workers l !! i = Some w -> active (worker_state w) -> forall f, ready (with_shard f (worker_pipeline w));
  ok_stopped : (next_shard l < n)%nat -> forall i w, pool_workers l !! i = Some w -> worker_state w = Stopped ->
    worker_diagnostic w <> None \/ exists k r, shard_outcomes l !! k = Some (Some r) /\ outcome_ok r = false;
  ok_writes : all_good l -> exists contents : nat -> list Z,
    (forall k s r, planned_shards p !! k = Some s -> shard_outcomes l !! k = Some (Some r) -> shard_done s (contents k) r (all_writes l)) /\
    (forall wr, wr ∈ all_writes l -> exists k s r, planned_shards p !! k = Some s /\ shard_outcomes l !! k = Some (Some r) /\
      true_write (shard_tensors p s) (contents k) wr)
}.

Lemma pool_start_ok pipelines : Forall new_pipeline pipelines -> pool_ok (pool_start p pipelines).
Proof using.
  intros Hnew. rewrite Forall_forall in Hnew.
  assert (Hw : forall i w, pool_workers (pool_start p pipelines) !! i = Some w ->
    worker_state w = Starting /\ worker_diagnostic w = None /\ new_pipeline (worker_pipeline w)).
  { intros i w Hi. cbn in Hi. rewrite list_lookup_fmap in Hi. destruct (pipelines !! i) as [x|] eqn:Hx; [|done].
    injection Hi as <-. split_and!; [done..|]. apply Hnew. by apply list_elem_of_lookup_2 in Hx. }
  assert (Hnone : forall k r, replicate n (@None ShardLoadOutcome) !! k = Some (Some r) -> False).
  { intros k r Hk. by apply lookup_replicate in Hk as [? _]. }
  split; cbn [next_shard shard_outcomes pool_start].
  - apply length_replicate.
  - lia.
  - intros k r Hk. by apply Hnone in Hk.
  - intros i w k Hi Hst. destruct (Hw i w Hi) as (Hs & _). congruence.
  - intros i w Hi _ f. destruct (Hw i w Hi) as (_ & _ & [[? ? ? ?] _]). by split.
  - intros _ i w Hi Hst. destruct (Hw i w Hi) as (Hs & _). congruence.
  - intros _. exists (fun _ => []). split; [intros k s r _ Hk; by apply Hnone in Hk|].
    intros wr (i & w & Hi & Hin)%elem_of_all_writes. destruct (Hw i w Hi) as (_ & _ & [_ Hnil]). rewrite Hnil in Hin.
    by apply not_elem_of_nil in Hin.
Qed.

Lemma lookup_set {A} (l : list A) i w w0 j x : l !! i = Some w0 -> <[i := w]> l !! j = Some x ->
  j = i /\ x = w \/ j <> i /\ l !! j = Some x.
Proof using.
  clear. intros Hi Hj. destruct (decide (j = i)) as [->|Hne].
  - left. split; [done|]. rewrite list_lookup_insert_eq in Hj; [congruence|]. by apply lookup_lt_Some in Hi.
  - right. by rewrite list_lookup_insert_ne in Hj.
Qed.

Lemma lookup_set_eq {A} (l : list A) i w w0 : l !! i = Some w0 -> <[i := w]> l !! i = Some w.
Proof using. clear. intros Hi. apply list_lookup_insert_eq. by apply lookup_lt_Some in Hi. Qed.

(** A step that leaves the pipelines as they are performs no write. *)
Lemma same_writes l ws' i w w' : pool_workers l !! i = Some w -> worker_pipeline w' = worker_pipeline w ->
  pool_workers ws' = <[i := w']> (pool_workers l) -> forall wr, wr ∈ all_writes ws' <-> wr ∈ all_writes l.
Proof using.
  clear. intros Hi Hpipe Hws wr. rewrite !elem_of_all_writes, Hws. split.
  - intros (j & x & Hj & Hin). apply (lookup_set _ _ _ _ _ _ Hi) in Hj as [[-> ->]|[_ Hj]].
    + exists i, w. by rewrite <- Hpipe.
    + by exists j, x.
  - intros (j & x & Hj & Hin). destruct (decide (j = i)) as [->|Hne].
    + exists i, w'. split; [by apply (lookup_set_eq _ _ _ w)|]. rewrite Hpipe. congruence.
    + exists j, x. by rewrite list_lookup_insert_ne.
Qed.

Lemma covered_incl ws ws' a : (forall wr, wr ∈ ws -> wr ∈ ws') -> covered ws a -> covered ws' a.
Proof using. clear. intros H (wr & Hin & Ha). exists wr. auto. Qed.

Lemma shard_done_incl s c r ws ws' : (forall wr, wr ∈ ws -> wr ∈ ws') -> shard_done s c r ws -> shard_done s c r ws'.
Proof using.
  clear. intros H (? & ? & ? & ? & ? & ? & Hc). split_and!; [done..|]. intros t pos Ht Hpos. eapply covered_incl; [exact H|]. auto.
Qed.

(** Steps in which a worker only changes its state. *)
Lemma change_state_ok l i w w' next : pool_ok l -> pool_workers l !! i = Some w -> worker_pipeline w' = worker_pipeline w ->
  (forall k, worker_state w <> Loading k) -> worker_state w <> Stopped -> (next_shard l <= next)%nat ->
  (forall k, (k < n)%nat -> (next_shard l <= k < next)%nat -> worker_state w' = Loading k) ->
  (forall k, worker_state w' = Loading k -> k = next_shard l /\ (k < next)%nat /\ (k < n)%nat) ->
  (worker_state w' = Stopped -> (n <= next)%nat \/ worker_diagnostic w' <> None) ->
  pool_ok {| next_shard := next; pool_workers := <[i := w']> (pool_workers l); shard_outcomes := shard_outcomes l |}.
Proof using.
  intros [Hlen Hatt Hout Hload Hready Hstop Hwr] Hi Hpipe Hnl Hns Hmono Hclaimed Hloading Hstopped.
  pose proof (same_writes l {| next_shard := next; pool_workers := <[i := w']> (pool_workers l); shard_outcomes := shard_outcomes l |}
    i w w' Hi Hpipe eq_refl) as Hsame.
  split; cbn [next_shard pool_workers shard_outcomes].
  - done.
  - intros k Hk Hlt. destruct (Nat.lt_ge_cases k (next_shard l)) as [Hold|Hnew].
    + destruct (Hatt k Hk Hold) as [?|(j & x & Hj & Hst)]; [by left|]. right. exists j, x. split; [|done].
      rewrite list_lookup_insert_ne; [done|]. intros <-. assert (x = w) as -> by congruence. by apply (Hnl k).
    + right. exists i, w'. split; [by apply (lookup_set_eq _ _ _ w)|]. by apply Hclaimed.
  - intros k r Hk. specialize (Hout k r Hk). lia.
  - intros j x k Hj Hst. apply (lookup_set _ _ _ _ _ _ Hi) in Hj as [[-> ->]|[Hne Hj]].
    + destruct (Hloading k Hst) as (-> & Hlt & Hn). split_and!; [done|done| |].
      * destruct (lookup_lt_is_Some_2 (shard_outcomes l) (next_shard l)) as [[r|] Hr]; [lia| |done].
        specialize (Hout _ _ Hr). lia.
      * intros j x Hj Hx. apply (lookup_set _ _ _ _ _ _ Hi) in Hj as [[-> _]|[_ Hj]]; [done|].
        destruct (Hload j x _ Hj Hx). lia.
    + destruct (Hload j x k Hj Hst) as (Hlt & Hn & Hk & Huniq). split_and!; [lia|done|done|].
      intros j' x' Hj' Hx'. apply (lookup_set _ _ _ _ _ _ Hi) in Hj' as [[-> ->]|[_ Hj']]; [|by apply (Huniq j' x')].
      destruct (Hloading k Hx'). lia.
  - intros j x Hj Hact f. apply (lookup_set _ _ _ _ _ _ Hi) in Hj as [[-> ->]|[Hne Hj]]; [|by apply (Hready j)].
    rewrite Hpipe. apply (Hready i w Hi). by intros ?.
  - intros Hlt j x Hj Hst. apply (lookup_set _ _ _ _ _ _ Hi) in Hj as [[-> ->]|[Hne Hj]].
    + destruct (Hstopped Hst); [lia|by left].
    + apply (Hstop ltac:(lia) j x Hj Hst).
  - intros Hgood. destruct (Hwr Hgood) as (contents & Hdone & Htrue). exists contents. split.
    + intros k s r Hs Hk. apply (shard_done_incl _ _ _ (all_writes l)); [intros wr; by rewrite Hsame|]. by apply (Hdone k s r).
    + intros wr Hin. rewrite Hsame in Hin. by apply Htrue.
Qed.

Lemma elem_of_load_writes l i w w' l' ws : pool_workers l !! i = Some w -> pool_workers l' = <[i := w']> (pool_workers l) ->
  writes (worker_pipeline w') = writes (worker_pipeline w) ++ ws -> forall wr, wr ∈ all_writes l' <-> wr ∈ all_writes l \/ wr ∈ ws.
Proof using.
  clear. intros Hi Hl Hws wr. rewrite !elem_of_all_writes, Hl. split.
  - intros (j & x & Hj & Hin). apply (lookup_set _ _ _ _ _ _ Hi) in Hj as [[-> ->]|[_ Hj]].
    + rewrite Hws in Hin. apply elem_of_app in Hin as [Hin|Hin]; [left|by right]. by exists i, w.
    + left. by exists j, x.
  - intros [(j & x & Hj & Hin)|Hin].
    + destruct (decide (j = i)) as [->|Hne].
      * exists i, w'. split; [by apply (lookup_set_eq _ _ _ w)|]. rewrite Hws. apply elem_of_app. left.
        assert (x = w) as -> by congruence. done.
      * exists j, x. by rewrite list_lookup_insert_ne.
    + exists i, w'. split; [by apply (lookup_set_eq _ _ _ w)|]. rewrite Hws. apply elem_of_app. by right.
Qed.

(** A shard that is loaded, from the facts about [load_one_shard]. *)
Lemma load_done s f w r w' : s ∈ planned_shards p -> ready (with_shard f w) ->
  load_one_shard kernel_sha256 p o s backend (bool_decide (backend = kLinuxAfAlg)) (with_shard f w) = (r, w') -> outcome_ok r = true ->
  (forall f', ready (with_shard f' w')) /\ exists content ws, writes w' = writes w ++ ws /\
    (forall ws', (forall wr, wr ∈ ws -> wr ∈ ws') -> shard_done s content r ws') /\ Forall (true_write (shard_tensors p s) content) ws.
Proof using Hkernel Hty Hlaid Hchunk.
  intros Hs [Hq Hl He Hm] Hrun Hok.
  destruct (load_one_shard_exact _ Hkernel p o s (shard_tensors_ok m ids p Hlaid s Hs) (shard_tensors_ordered m ids p Hlaid s Hs)
    (planned_size m ids p Hty Hlaid s Hs) Hchunk _ _ _ _ _ Hq Hl He Hm Hrun) as [Hno|[_ [Hq' [Hl' He'] (content & ws & Hlen & Hdig & Hws & Htrue & Hcov) Hst]]];
    [congruence|].
  split; [by split|]. exists content, ws. split_and!; [done| |done]. intros ws' Hin. unfold shard_done. rewrite Hst.
  split_and!; try done. intros t pos Ht Hpos. eapply covered_incl; [exact Hin|]. by apply Hcov.
Qed.

(** The step that loads a shard. *)
Lemma load_step_ok l i w k s r w' : pool_ok l -> pool_workers l !! i = Some w -> worker_state w = Loading k ->
  planned_shards p !! k = Some s ->
  load_one_shard kernel_sha256 p o s backend (bool_decide (backend = kLinuxAfAlg)) (with_shard (sources k) (worker_pipeline w)) = (r, w') ->
  pool_ok {| next_shard := next_shard l;
    pool_workers := <[i := {| worker_state := if outcome_ok r then Waiting else Stopped;
                              worker_diagnostic := worker_diagnostic w; worker_pipeline := w' |}]> (pool_workers l);
    shard_outcomes := <[k := Some r]> (shard_outcomes l) |}.
Proof using Hkernel Hty Hlaid Hchunk.
  intros [Hlen Hatt Hout Hload Hready Hstop Hwr] Hi Hst Hs Hrun.
  destruct (Hload i w k Hi Hst) as (Hknext & Hkn & Hnone & Huniq).
  pose proof (Hready i w Hi ltac:(by rewrite Hst) (sources k)) as Hrdy. apply list_elem_of_lookup_2 in Hs as Hin.
  set (w1 := {| worker_state := _; worker_diagnostic := _; worker_pipeline := w' |}).
  assert (Hnoload : forall x, worker_state w1 <> Loading x) by (intros x; cbn; by destruct (outcome_ok r)).
  assert (Hklt : (k < length (shard_outcomes l))%nat) by (by apply lookup_lt_Some in Hnone).
  split; cbn [next_shard pool_workers shard_outcomes].
  - by rewrite length_insert.
  - intros x Hx Hlt. destruct (decide (x = k)) as [->|Hne]; [left; exists r; by rewrite list_lookup_insert_eq|].
    destruct (Hatt x Hx Hlt) as [(r' & Hr')|(j & y & Hj & Hy)]; [left; exists r'; by rewrite list_lookup_insert_ne|].
    right. exists j, y. split; [|done]. rewrite list_lookup_insert_ne; [done|]. intros <-. congruence.
  - intros x r' Hx. destruct (decide (x = k)) as [->|Hne]; [done|]. rewrite list_lookup_insert_ne in Hx by done. by apply (Hout x r').
  - intros j x y Hj Hx. apply (lookup_set _ _ _ _ _ _ Hi) in Hj as [[-> ->]|[Hne Hj]]; [by destruct (Hnoload y)|].
    destruct (Hload j x y Hj Hx) as (H1 & H2 & H3 & H4). split_and!; [done|done| |].
    + rewrite list_lookup_insert_ne; [done|]. intros <-. apply Hne, eq_sym. by apply (H4 i w).
    + intros j' x' Hj' Hx'. apply (lookup_set _ _ _ _ _ _ Hi) in Hj' as [[-> ->]|[_ Hj']]; [by destruct (Hnoload y)|by apply (H4 j' x')].
  - intros j x Hj Hact f. apply (lookup_set _ _ _ _ _ _ Hi) in Hj as [[-> ->]|[Hne Hj]]; [|by apply (Hready j)].
    cbn in Hact |- *. destruct (outcome_ok r) eqn:Hok; [|by destruct Hact].
    by apply (load_done s (sources k) (worker_pipeline w) r w').
  - intros Hlt j x Hj Hx. apply (lookup_set _ _ _ _ _ _ Hi) in Hj as [[-> ->]|[Hne Hj]].
    + right. exists k, r. rewrite list_lookup_insert_eq by done. split; [done|]. cbn in Hx. by destruct (outcome_ok r).
    + destruct (Hstop Hlt j x Hj Hx) as [|(k' & r' & Hk' & Hr')]; [by left|]. right. exists k', r'. split; [|done].
      rewrite list_lookup_insert_ne; [done|]. intros <-. congruence.
  - intros Hgood. assert (Hok : outcome_ok r = true) by (apply (Hgood k); cbn; by rewrite list_lookup_insert_eq).
    destruct (Hwr) as (contents & Hdone & Htrue).
    { intros x r' Hx. apply (Hgood x). cbn. rewrite list_lookup_insert_ne; [done|]. intros <-. congruence. }
    destruct (load_done s (sources k) (worker_pipeline w) r w' Hin Hrdy Hrun Hok) as (_ & content & ws & Hws & Hd & Ht).
    set (l' := {| next_shard := next_shard l; pool_workers := _; shard_outcomes := _ |}).
    pose proof (elem_of_load_writes l i w w1 l' ws Hi eq_refl Hws) as Hall.
    exists (fun x => if decide (x = k) then content else contents x). split.
    + intros x s' r' Hx Hr'. destruct (decide (x = k)) as [->|Hne].
      * rewrite list_lookup_insert_eq in Hr' by done. injection Hr' as <-. assert (s' = s) as -> by congruence.
        apply Hd. intros wr Hwr'. apply Hall. by right.
      * rewrite list_lookup_insert_ne in Hr' by done. apply (shard_done_incl _ _ _ (all_writes l)); [|by apply (Hdone x)].
        intros wr Hwr'. apply Hall. by left.
    + intros wr [Hold|Hnew]%Hall.
      * destruct (Htrue wr Hold) as (x & s' & r' & Hx & Hr' & Htw). assert (Hne : x <> k) by (intros ->; congruence).
        exists x, s', r'. rewrite decide_False by done. rewrite list_lookup_insert_ne by done. by split_and!.
      * exists k, s, r. rewrite decide_True by done. split_and!; [done|by rewrite list_lookup_insert_eq|].
        rewrite Forall_forall in Ht. by apply Ht.
Qed.

Lemma pool_step_ok l l' : pool_ok l -> step l l' -> pool_ok l'.
Proof using Hkernel Hty Hlaid Hchunk.
  intros Hl Hstep. destruct Hstep as [l i w Hi Hst|l i w Hi Hst|l i w Hi Hst|l i w k s r w' Hi Hst Hs Hrun].
  - apply (change_state_ok l i w); cbn; try done; intros; congruence || lia.
  - apply (change_state_ok l i w); cbn; try done; intros; try (congruence || lia). by right.
  - destruct (Nat.ltb_spec (next_shard l) n) as [Hlt|Hge].
    + apply (change_state_ok l i w); cbn; try done; try (intros; congruence || lia).
      * intros k _ Hk. f_equal. lia.
      * intros k [= <-]. lia.
    + apply (change_state_ok l i w); cbn; try done; try (intros; congruence || lia).
  - by apply (load_step_ok l i w k s r w').
Qed.

Lemma pool_reachable_ok pipelines l : Forall new_pipeline pipelines -> rtc step (pool_start p pipelines) l -> pool_ok l.
Proof using Hkernel Hty Hlaid Hchunk.
  intros Hnew Hrtc. pose proof (pool_start_ok pipelines Hnew) as H0. revert H0.
  induction Hrtc as [|x y z Hstep _ IH]; [done|]. intros Hx. by apply IH, (pool_step_ok x).
Qed.

(** *** The pool ends *)

Definition state_weight (st : WorkerState) : nat := match st with Starting | Loading _ => 2 | Waiting => 1 | Stopped => 0 end.
Definition pool_weight (l : Pool) : nat := 2 * (n - next_shard l) + foldr Nat.add 0%nat (state_weight ∘ worker_state <$> pool_workers l).

Lemma weight_insert (ws : list Worker) i w w' : ws !! i = Some w ->
  (foldr Nat.add 0 (state_weight ∘ worker_state <$> <[i := w']> ws) + state_weight (worker_state w) =
   foldr Nat.add 0 (state_weight ∘ worker_state <$> ws) + state_weight (worker_state w'))%nat.
Proof using.
  clear. revert i. induction ws as [|x ws IH]; intros i Hi; [done|]. destruct i as [|i].
  - injection Hi as <-. change (<[0%nat := w']> (x :: ws)) with (w' :: ws). rewrite !fmap_cons. cbn [foldr]. unfold compose. lia.
  - specialize (IH i Hi). change (<[S i := w']> (x :: ws)) with (x :: <[i := w']> ws). rewrite !fmap_cons. cbn [foldr]. lia.
Qed.

(** Every step brings the end nearer, and until every thread has ended there is
    a step. *)
Theorem pool_ends l : (forall l', step l l' -> (pool_weight l' < pool_weight l)%nat) /\ (pool_ok l -> all_stopped l \/ exists l', step l l').
Proof using.
  split.
  - intros l' Hstep. unfold pool_weight.
    destruct Hstep as [l i w Hi Hst|l i w Hi Hst|l i w Hi Hst|l i w k s r w' Hi Hst Hs Hrun]; cbn [pool_workers next_shard set_worker].
    all: match goal with |- context [<[?j := ?w']> _] => pose proof (weight_insert _ j _ w' Hi) as Hw;
      set (x := foldr _ _ (_ <$> <[j := w']> _)) in * end; rewrite Hst in Hw; cbn [worker_state at_state state_weight] in Hw.
    + lia.
    + lia.
    + destruct (Nat.ltb_spec (next_shard l) n); cbn in Hw; lia.
    + destruct (outcome_ok r); cbn in Hw; lia.
  - intros Hok. destruct (decide (Forall (fun w => state_weight (worker_state w) = 0%nat) (pool_workers l))) as [Hall|Hnot].
    + left. eapply Forall_impl; [exact Hall|]. cbv beta. intros w. destruct (worker_state w); cbn; congruence || lia.
    + right. apply not_Forall_Exists in Hnot; [|apply _]. apply Exists_exists in Hnot as (w & (i & Hi)%list_elem_of_lookup & Hw).
      destruct (worker_state w) as [| |k|] eqn:Hst; [| | |exfalso; apply Hw; by rewrite ?Hst].
      * eexists. by apply (step_device _ _ _ _ _ l i w).
      * eexists. by apply (step_claim _ _ _ _ _ l i w).
      * destruct (ok_loading l Hok i w k Hi Hst) as (_ & Hk & _). destruct (lookup_lt_is_Some_2 _ _ Hk) as [s Hs].
        destruct (load_one_shard kernel_sha256 p o s backend (bool_decide (backend = kLinuxAfAlg)) (with_shard (sources k) (worker_pipeline w))) as [r w'] eqn:Hrun.
        eexists. by apply (step_load _ _ _ _ _ l i w k s r w').
Qed.
End pool.

(** ** Before and after the workers *)

Lemma after_writes_exact ws arena a v :
  (forall wr, wr ∈ ws -> wr.1 <= a < wr.1 + Z.of_nat (length wr.2) -> wr.2 !! Z.to_nat (a - wr.1) = Some v) ->
  covered ws a -> after_writes ws arena a = v.
Proof.
  unfold after_writes. intros Hall Hcov.
  assert (Hgen : forall arena, (covered ws a \/ arena a = v) -> foldl (fun arena wr => one_write wr arena) arena ws a = v); [|apply Hgen; by left].
  clear arena Hcov. induction ws as [|wr ws IH]; intros arena [Hc|Hv]; cbn [foldl].
  - destruct Hc as (wr & Hin & _). by apply not_elem_of_nil in Hin.
  - done.
  - apply IH; [intros; apply Hall; [by right|done]|]. destruct Hc as (wr' & [->|Hin]%elem_of_cons & Ha); [|left; by exists wr'].
    right. unfold one_write. rewrite (proj2 (Z.leb_le _ _)), (proj2 (Z.ltb_lt _ _)) by lia. cbn.
    specialize (Hall wr ltac:(left) Ha). unfold at_. by rewrite nth_lookup, Hall.
  - apply IH; [intros; apply Hall; [by right|done]|]. right. unfold one_write.
    destruct (Z.leb_spec wr.1 a), (Z.ltb_spec a (wr.1 + Z.of_nat (length wr.2))); cbn; try done.
    specialize (Hall wr ltac:(left) ltac:(lia)). unfold at_. by rewrite nth_lookup, Hall.
Qed.

Lemma make_views_exact ts views views' : make_views ts views = inr views' <->
  NoDup (planned_name <$> ts) /\ (forall name, name ∈ planned_name <$> ts -> map_find name views = None) /\
  views' = emplace_entries ((fun t => (planned_name t, view_of t)) <$> ts) views.
Proof.
  revert views. induction ts as [|t ts IH]; intros views; cbn [make_views fmap list_fmap].
  { split; [intros [= <-]; split_and!; [constructor|by intros ? ?%not_elem_of_nil|done]|by intros (_ & _ & ->)]. }
  rewrite NoDup_cons. split.
  - intros H. apply sum_bind_inr in H as ([] & Hf%plan_fail_if & H). apply bool_decide_eq_false, dec_stable in Hf.
    apply IH in H as (Hnd & Hfresh & ->). split_and!; [|done| |done].
    + intros Hin. specialize (Hfresh _ Hin). rewrite map_find_emplace, decide_True in Hfresh by done. done.
    + intros name [->|Hin]%elem_of_cons; [done|]. specialize (Hfresh name Hin).
      rewrite map_find_emplace in Hfresh by done. by case_decide.
  - intros ([Hni Hnd] & Hfresh & ->). apply sum_bind_inr. exists tt. split.
    { apply plan_fail_if, bool_decide_eq_false. intros Hno. apply Hno, Hfresh. by left. }
    apply IH. split_and!; [done| |done]. intros name Hin. rewrite map_find_emplace by (apply Hfresh; by left).
    rewrite decide_False by (intros ->; done). apply Hfresh. by right.
Qed.

Lemma count_operations_exact o ts total total' : is_u64 total -> is_u64 (max_memcpy_operations o) ->
  Forall (fun t => is_u64 (tensor_operations (chunk_bytes o) t)) ts -> total <= max_memcpy_operations o ->
  count_operations o ts total = inr total' <->
  total' = total + sum_of (tensor_operations (chunk_bytes o)) ts /\ total' <= max_memcpy_operations o.
Proof.
  intros Ht Hmax Hts. revert total Ht. induction Hts as [|t ts Hx Hts IH]; intros total Ht Hle; cbn [count_operations].
  { change (sum_of _ []) with 0. rewrite Z.add_0_r. split; [intros [= <-]; done|by intros [-> _]]. }
  rewrite sum_of_cons. assert (Hnn : 0 <= sum_of (tensor_operations (chunk_bytes o)) ts).
  { apply sum_of_nonneg. eapply Forall_impl; [exact Hts|]. unfold is_u64. simpl. lia. }
  unfold is_u64 in Hx. split.
  - intros H. checks H. apply checked_add_Some in Ha as [-> Hfit]; [|done|done]. bools.
    apply IH in H as [-> Hm]; [split; lia|unfold is_u64, u64_max in *; lia|lia].
  - intros [-> Hm]. apply sum_bind_inr. exists (total + tensor_operations (chunk_bytes o) t). split.
    { apply plan_require, checked_add_Some; [done|done|]. split; [done|unfold is_u64, u64_max in *; lia]. }
    apply sum_bind_inr. exists tt. split; [apply plan_fail_if, Z.ltb_ge; lia|].
    apply IH; [unfold is_u64, u64_max in *; lia|lia|]. split; lia.
Qed.

Lemma check_workers_inr ws u : check_workers ws = inr u <-> Forall (fun w => worker_diagnostic w = None) ws.
Proof.
  destruct u. induction ws as [|w ws IH]; cbn [check_workers]; [split; [constructor|done]|]. rewrite Forall_cons, <- IH.
  destruct (worker_diagnostic w); [split; [done|by intros [? _]]|tauto].
Qed.

Lemma check_workers_inl ws d : check_workers ws = inl d -> exists w, w ∈ ws /\ worker_diagnostic w = Some d.
Proof.
  induction ws as [|w ws IH]; cbn [check_workers]; [done|]. destruct (worker_diagnostic w) as [d'|] eqn:Hw.
  - intros [= ->]. exists w. split; [by left|done].
  - intros H. destruct (IH H) as (w' & ? & ?). exists w'. split; [by right|done].
Qed.

Lemma outcome_ok_none r : outcome_ok r = true <-> outcome_diagnostic r = None.
Proof. unfold outcome_ok. apply bool_decide_eq_true. Qed.

(** Either every outcome is a success, or the first that is not is reported. *)
Lemma check_outcomes_cases all index outcomes :
  (exists rs, check_outcomes all index outcomes = inr rs /\ outcomes = Some <$> rs /\ Forall (fun r => outcome_ok r = true) rs) \/
  (exists d k r, check_outcomes all index outcomes = inl d /\ outcomes !! k = Some (Some r) /\ outcome_diagnostic r = Some d) \/
  (exists k, outcomes !! k = Some None /\ forall j, (j < k)%nat -> exists r, outcomes !! j = Some (Some r) /\ outcome_ok r = true).
Proof.
  revert index. induction outcomes as [|[r|] outcomes IH]; intros index; cbn [check_outcomes].
  - left. by exists [].
  - destruct (outcome_diagnostic r) as [d|] eqn:Hd; [right; left; by exists d, 0%nat, r|]. apply outcome_ok_none in Hd.
    destruct (IH (S index)) as [(rs & -> & -> & Hok)|[(d & k & r' & -> & Hk & Hr')|(k & Hk & Hbefore)]].
    + left. exists (r :: rs). split_and!; [done|done|by constructor].
    + right; left. by exists d, (S k), r'.
    + right; right. exists (S k). split; [done|]. intros [|j] Hj; [by exists r|]. apply Hbefore. lia.
  - right; right. exists 0%nat. split; [done|lia].
Qed.

(** What holds of the options by their types. *)
Record load_options_typed (o : ResidentLoadOptions) : Prop := {
  chunk_typed : is_u64 (chunk_bytes o);
  operations_typed : is_u64 (max_memcpy_operations o);
  parallel_typed : is_u64 (max_parallel_shards o);
  load_arena_typed : is_u64 (max_arena_bytes o)
}.

(** What the code before the workers has established. *)
Record prepared_ok (m : WeightManifest) (ids : list ShardIdentity) (o : ResidentLoadOptions) (x : Prepared) : Prop := {
  prepared_plan : build_resident_load_plan m ids = inr (the_load_plan x);
  prepared_options : 1 <= chunk_bytes o;
  prepared_workers : (1 <= worker_count x)%nat;
  prepared_operations : planned_memcpy_operations x = sum_of (tensor_operations (chunk_bytes o)) (planned_tensors (the_load_plan x)) /\
    planned_memcpy_operations x <= max_memcpy_operations o;
  prepared_names : NoDup (planned_name <$> planned_tensors (the_load_plan x));
  prepared_views : planned_views x = emplace_entries ((fun t => (planned_name t, view_of t)) <$> planned_tensors (the_load_plan x)) [];
  prepared_memory : arena_bytes (the_load_plan x) <= max_arena_bytes o /\
    arena_bytes (the_load_plan x) + min_free_bytes_after_load o <= free_device_bytes x;
  prepared_backend : chosen_backend x <> kAuto
}.

Section prepared.
Context (m : WeightManifest) (ids : list ShardIdentity) (Hty : plan_typed m ids).

Lemma built_laid_out p : build_resident_load_plan m ids = inr p -> laid_out m ids p /\ ids <> [].
Proof using Hty.
  intros Hb. apply build_is in Hb as [Hp ->]; [|done]. split; [by apply the_plan_laid_out|by destruct Hp].
Qed.

Lemma tensor_operations_typed p chunk : laid_out m ids p -> 1 <= chunk ->
  Forall (fun t => is_u64 (tensor_operations chunk t)) (planned_tensors p).
Proof using Hty.
  intros Hlaid Hc. pose proof Hlaid as [_ _ Hi Hsrc _ _ _]. pose proof (sizes_typed _ _ Hty) as Hsz. rewrite Forall_forall in Hi, Hsrc. pose proof (proj1 (Forall_forall _ _) Hsz) as Hsz1. clear Hsz.
  apply Forall_forall. intros t Ht. destruct (Hi t Ht) as (_ & _ & _ & Hr & _), (Hsrc t Ht) as (i & Hin & _ & He).
  specialize (Hsz1 i Hin). unfold size_typed, is_u64 in *. unfold tensor_operations.
  pose proof (Z.div_le_mono (source_begin t) (source_end t - 1) chunk ltac:(lia) ltac:(lia)).
  pose proof (Z.div_le_upper_bound (source_end t - 1) chunk (source_end t - 1) ltac:(lia) ltac:(nia)).
  pose proof (Z.div_pos (source_begin t) chunk ltac:(lia) ltac:(lia)). lia.
Qed.

Lemma backend_chosen sys requested count backend : prepare_hash_backend sys requested count = inr backend -> backend <> kAuto.
Proof using.
  clear. unfold prepare_hash_backend. destruct (create_af_alg_sha256_operations sys count) as [|[]]; destruct requested; congruence.
Qed.

Lemma prepare_establishes sys o x : load_options_typed o -> prepare sys m ids o = inr x -> prepared_ok m ids o x.
Proof using Hty.
  intros [Hc Ho Hpar Har] H. unfold prepare in H. cbv zeta in H. checks H.
  destruct (built_laid_out _ Ha0) as [Hlaid Hne]. unfold is_u64 in Hc, Ho, Hpar. unfold invalid_load_options in Ha. bools.
  assert (Hops : a3 = sum_of (tensor_operations (chunk_bytes o)) (planned_tensors a0) /\ a3 <= max_memcpy_operations o).
  { apply (count_operations_exact o (planned_tensors a0) 0 a3) in Ha3 as [-> Hle]; [by split|done|done| |lia].
    apply tensor_operations_typed; [done|lia]. }
  apply make_views_exact in Ha7 as (Hnd & _ & ->). injection H as <-.
  assert (Hlen : (1 <= length (planned_shards a0))%nat).
  { destruct Hlaid as [_ _ _ _ [Hp _] _ _]. apply Permutation_length in Hp. rewrite length_fmap in Hp. rewrite Hp.
    destruct ids; [done|]. simpl. lia. }
  split; cbn; try done; [lia..|]. destruct (prepare_hash_backend _ _ _) eqn:Hb; [done|]. injection Ha4 as <-. by apply backend_chosen in Hb.
Qed.
End prepared.

(** *** The sums of the shards *)

Lemma sum_of_single {A} (f : A -> Z) (name : A -> list Z) (key : list Z) v l :
  NoDup (name <$> l) -> key ∈ name <$> l -> sum_of (fun s => if bool_decide (key = name s) then v else 0) l = v.
Proof.
  induction l as [|s l IH]; intros Hnd Hin; [by apply not_elem_of_nil in Hin|]. rewrite fmap_cons in *. apply NoDup_cons in Hnd as [Hni Hnd].
  rewrite sum_of_cons. case_bool_decide as Hk.
  - rewrite sum_of_zero; [lia|]. apply Forall_forall. intros s' Hs'. rewrite bool_decide_false; [done|].
    intros Heq. apply Hni. rewrite <- Hk, Heq. by apply list_elem_of_fmap_2.
  - apply elem_of_cons in Hin as [|Hin]; [done|]. rewrite IH by done. lia.
Qed.

(** Every tensor is in exactly one shard. *)
Lemma sum_over_shards (f : PlannedTensor -> Z) (all : list PlannedShard) ts :
  NoDup ((filename ∘ identity) <$> all) -> Forall (fun t => planned_shard t ∈ (filename ∘ identity) <$> all) ts ->
  sum_of (fun s => sum_of f (List.filter (of_shard (filename (identity s))) ts)) all = sum_of f ts.
Proof.
  intros Hnd. induction 1 as [|t ts Ht _ IH]; [apply sum_of_zero; by apply Forall_true|].
  rewrite sum_of_cons, <- IH, <- (sum_of_single (fun s => 0) (filename ∘ identity) (planned_shard t) (f t) all Hnd Ht).
  apply sum_of_ext. apply Forall_forall. intros s _. cbn [List.filter]. unfold of_shard at 1, compose.
  case_bool_decide; [by rewrite sum_of_cons|done].
Qed.

Lemma laid_names m ids p : laid_out m ids p -> NoDup ((filename ∘ identity) <$> planned_shards p) /\
  Forall (fun t => planned_shard t ∈ (filename ∘ identity) <$> planned_shards p) (planned_tensors p).
Proof.
  intros [_ _ _ Hsrc [Hp Hnd] _ _]. rewrite list_fmap_compose. split; [by rewrite Hp|].
  eapply Forall_impl; [exact Hsrc|]. intros t (i & Hin & <- & _). rewrite Hp. by apply list_elem_of_fmap_2.
Qed.

(** *** The conclusion *)

Lemma add_up_exact rs total :
  Forall (fun r => is_u64 (bytes_read (outcome_stats r)) /\ is_u64 (bytes_copied (outcome_stats r)) /\
    is_u64 (chunks (outcome_stats r)) /\ is_u64 (memcpy_operations (outcome_stats r))) rs ->
  is_u64 (total_read total) -> is_u64 (total_copied total) -> is_u64 (total_chunks total) -> is_u64 (total_operations total) ->
  let read := total_read total + sum_of (bytes_read ∘ outcome_stats) rs in
  let copied_ := total_copied total + sum_of (bytes_copied ∘ outcome_stats) rs in
  let chunk_total := total_chunks total + sum_of (chunks ∘ outcome_stats) rs in
  let operations := total_operations total + sum_of (memcpy_operations ∘ outcome_stats) rs in
  read <= u64_max -> copied_ <= u64_max -> chunk_total <= u64_max -> operations <= u64_max ->
  add_up rs total =
  inr (with_totals read copied_ (total_skipped total) chunk_total operations (shard_stats total ++ (outcome_stats <$> rs)) total).
Proof.
  intros Hrs. revert total. induction Hrs as [|r rs (H1 & H2 & H3 & H4) Hrs IH]; intros total T1 T2 T3 T4; cbv zeta.
  { change (sum_of _ []) with 0. change (sum_of (bytes_copied ∘ outcome_stats) []) with 0. change (sum_of (chunks ∘ outcome_stats) []) with 0.
    change (sum_of (memcpy_operations ∘ outcome_stats) []) with 0. intros _ _ _ _. cbn [add_up fmap list_fmap]. rewrite !Z.add_0_r, app_nil_r.
    by destruct total. }
  rewrite !sum_of_cons. unfold compose at 1 3 5 7.
  assert (Hnn : Forall (fun x => 0 <= x) [sum_of (bytes_read ∘ outcome_stats) rs; sum_of (bytes_copied ∘ outcome_stats) rs;
    sum_of (chunks ∘ outcome_stats) rs; sum_of (memcpy_operations ∘ outcome_stats) rs]).
  { rewrite !Forall_cons. split_and!; [apply sum_of_nonneg; (eapply Forall_impl; [exact Hrs|]); unfold is_u64, compose; simpl; lia..|constructor]. }
  rewrite !Forall_cons in Hnn. destruct Hnn as (N1 & N2 & N3 & N4 & _). intros L1 L2 L3 L4.
  assert (Hadd : forall a b c, is_u64 a -> is_u64 b -> 0 <= c -> a + (b + c) <= u64_max -> checked_add a b = Some (a + b) /\ is_u64 (a + b)).
  { intros a b c Ha Hb Hc Hle. split; [apply checked_add_Some; [done|done|]; split; [done|lia]|unfold is_u64, u64_max in *; lia]. }
  destruct (Hadd _ _ _ T1 H1 N1 L1) as [A1 U1], (Hadd _ _ _ T2 H2 N2 L2) as [A2 U2], (Hadd _ _ _ T3 H3 N3 L3) as [A3 U3],
    (Hadd _ _ _ T4 H4 N4 L4) as [A4 U4].
  cbn [add_up]. cbv zeta. rewrite A1, A2, A3, A4. cbn [require mbind sum_bind]. rewrite IH; cbn; try done; try lia.
  rewrite <- !Z.add_assoc, <- app_assoc. done.
Qed.

Lemma step_workers kernel sources p o backend l l' : pool_step kernel sources p o backend l l' ->
  length (pool_workers l') = length (pool_workers l).
Proof. intros H. destruct H; cbn; by rewrite length_insert. Qed.

Lemma steps_workers kernel sources p o backend l l' : rtc (pool_step kernel sources p o backend) l l' ->
  length (pool_workers l') = length (pool_workers l).
Proof. induction 1 as [|x y z H _ IH]; [done|]. rewrite IH. by eapply step_workers. Qed.

Section concluded.
Context (kernel_sha256 : list Z -> list Z) (Hkernel : forall m, kernel_sha256 m = digest_of m).
Context (m : WeightManifest) (ids : list ShardIdentity) (Hty : plan_typed m ids) (o : ResidentLoadOptions).
Context (x : Prepared) (Hx : prepared_ok m ids o x) (Hmax : is_u64 (max_memcpy_operations o)).
Context (sources : nat -> ShardSource) (pipelines : list Pipeline) (l : Pool).
Context (Hpipes : length pipelines = worker_count x) (Hnew : Forall new_pipeline pipelines).
Context (Hrun : rtc (pool_step kernel_sha256 sources (the_load_plan x) o (chosen_backend x)) (pool_start (the_load_plan x) pipelines) l).
Context (Hjoined : all_stopped l).
Local Abbreviation p := (the_load_plan x).

Lemma pool_is_ok : pool_ok p o l.
Proof using Hkernel Hty Hx Hnew Hrun.
  destruct (built_laid_out m ids Hty p (prepared_plan _ _ _ _ Hx)) as [Hlaid _].
  apply (pool_reachable_ok kernel_sha256 Hkernel m ids p Hty Hlaid o (prepared_options _ _ _ _ Hx) sources (chosen_backend x) pipelines l); done.
Qed.

(** While no worker has failed, either a shard has failed before any that is
    not attempted, or all are loaded. *)
Lemma outcomes_cases : check_workers (pool_workers l) = inr tt ->
  (exists rs, check_outcomes (planned_shards p) 0 (shard_outcomes l) = inr rs /\ shard_outcomes l = Some <$> rs /\
    Forall (fun r => outcome_ok r = true) rs) \/
  exists d k r, check_outcomes (planned_shards p) 0 (shard_outcomes l) = inl d /\ shard_outcomes l !! k = Some (Some r) /\
    outcome_diagnostic r = Some d.
Proof using Hkernel Hty Hx Hnew Hrun Hpipes Hjoined.
  intros Hws. apply check_workers_inr in Hws. rewrite Forall_forall in Hws. pose proof pool_is_ok as Hok.
  destruct (check_outcomes_cases (planned_shards p) 0 (shard_outcomes l)) as [|[|(k & Hk & Hbefore)]]; [by left|by right|exfalso].
  assert (Hkn : (k < length (planned_shards p))%nat) by (rewrite <- (ok_length _ _ _ Hok); by apply lookup_lt_Some in Hk).
  assert (Hnext : (next_shard l <= k)%nat).
  { apply Nat.nlt_ge. intros Hlt. destruct (ok_attempted _ _ _ Hok k Hkn Hlt) as [(r & Hr)|(i & w & Hi & Hst)]; [congruence|].
    unfold all_stopped in Hjoined. rewrite Forall_forall in Hjoined. apply list_elem_of_lookup_2 in Hi. specialize (Hjoined w Hi). congruence. }
  pose proof (steps_workers _ _ _ _ _ _ _ Hrun) as Hlen. cbn in Hlen. rewrite length_fmap, Hpipes in Hlen.
  pose proof (prepared_workers _ _ _ _ Hx) as Hpos.
  destruct (pool_workers l) as [|w ws] eqn:Hw; [simpl in Hlen; lia|].
  assert (Hin : w ∈ pool_workers l) by (rewrite Hw; by left). assert (Hi : pool_workers l !! 0%nat = Some w) by by rewrite Hw.
  unfold all_stopped in Hjoined. rewrite Hw in Hjoined. apply Forall_cons in Hjoined as [Hst _].
  destruct (ok_stopped _ _ _ Hok ltac:(lia) 0%nat w Hi Hst) as [Hd|(j & r & Hj & Hr)].
  - apply Hd, Hws. by left.
  - pose proof (ok_outcome _ _ _ Hok j r Hj). destruct (Hbefore j ltac:(lia)) as (r' & Hr' & Hok'). congruence.
Qed.

Lemma sum_of_fmap {A B} (f : B -> Z) (g : A -> B) (k : list A) : sum_of f (g <$> k) = sum_of (f ∘ g) k.
Proof using. clear. unfold sum_of. by rewrite <- list_fmap_compose. Qed.

(** The sums of two lists that agree element by element. *)
Lemma sum_of_pointwise {A B} (f : A -> Z) (g : B -> Z) (k : list A) (k' : list B) :
  length k = length k' -> (forall i a b, k !! i = Some a -> k' !! i = Some b -> f a = g b) -> sum_of f k = sum_of g k'.
Proof using.
  clear. revert k'. induction k as [|a k IH]; intros [|b k'] Hlen Hag; try done. rewrite !sum_of_cons.
  rewrite (Hag 0%nat a b) by done. f_equal. apply IH; [by injection Hlen|]. intros i. apply (Hag (S i)).
Qed.

(** Everything is loaded: the statistics are those of the plan. *)
Lemma all_loaded rs : shard_outcomes l = Some <$> rs -> Forall (fun r => outcome_ok r = true) rs ->
  exists contents : nat -> list Z,
    (forall k s, planned_shards p !! k = Some s -> exists r, rs !! k = Some r /\ shard_done p o s (contents k) r (all_writes l)) /\
    (forall wr, wr ∈ all_writes l -> exists k s, planned_shards p !! k = Some s /\ true_write (shard_tensors p s) (contents k) wr).
Proof using Hkernel Hty Hx Hnew Hrun.
  intros Hrs Hgood. pose proof pool_is_ok as Hok. rewrite Forall_forall in Hgood.
  assert (Hl : forall k r, shard_outcomes l !! k = Some (Some r) <-> rs !! k = Some r).
  { intros k r. rewrite Hrs, list_lookup_fmap. destruct (rs !! k); cbn; split; congruence. }
  destruct (ok_writes _ _ _ Hok) as (contents & Hdone & Htrue).
  { intros k r Hk%Hl. apply Hgood. by apply list_elem_of_lookup_2 in Hk. }
  exists contents. split.
  - intros k s Hs. destruct (lookup_lt_is_Some_2 rs k) as [r Hr].
    { pose proof (ok_length _ _ _ Hok) as Hlen. rewrite Hrs, length_fmap in Hlen. rewrite Hlen. by apply lookup_lt_Some in Hs. }
    exists r. split; [done|]. apply (Hdone k s r Hs). by apply Hl.
  - intros wr Hin. destruct (Htrue wr Hin) as (k & s & r & Hs & _ & Ht). by exists k, s.
Qed.

Lemma elem_le_sum {A} (f : A -> Z) k a : Forall (fun x => 0 <= f x) k -> a ∈ k -> f a <= sum_of f k.
Proof using.
  clear. induction 1 as [|b k Hb Hk IH]; intros Hin; [by apply not_elem_of_nil in Hin|]. rewrite sum_of_cons.
  pose proof (sum_of_nonneg f k Hk). apply elem_of_cons in Hin as [->|Hin]; [lia|]. specialize (IH Hin). lia.
Qed.

Lemma typed_by_sum {A} (f : A -> Z) k : Forall (fun x => 0 <= f x) k -> sum_of f k <= u64_max -> Forall (fun x => is_u64 (f x)) k.
Proof using.
  clear. intros Hk Hle. apply Forall_forall. intros a Ha. pose proof (elem_le_sum f k a Hk Ha). rewrite Forall_forall in Hk.
  specialize (Hk a Ha). unfold is_u64, u64_max in *. lia.
Qed.

Definition shard_chunks (s : PlannedShard) : Z := (identity_size (identity s) + chunk_bytes o - 1) / chunk_bytes o.

(** Ranges that follow one another take no more than the file. *)
Lemma ordered_sum ts lo size : Forall (planned_ok size) ts -> StronglySorted (fun a b => source_end a <= source_begin b) ts ->
  Forall (fun t => lo <= source_begin t) ts -> lo <= size -> 0 <= sum_of planned_bytes ts <= size - lo.
Proof using.
  clear. intros Hok Hs. revert lo. induction Hs as [|t ts Hs IH Hf]; intros lo Hlo Hle; [change (sum_of planned_bytes []) with 0; lia|].
  apply Forall_cons in Hok as [[[Hr He] Hb _] Hok]. apply Forall_cons in Hlo as [Hl _]. rewrite sum_of_cons.
  specialize (IH Hok (source_end t) Hf ltac:(lia)). lia.
Qed.

(** What is known of the plan. *)
Ltac plan_facts Hlaid Hplan :=
  destruct (proj1 (build_is m ids Hty p) (prepared_plan _ _ _ _ Hx)) as [Hplan _];
  destruct (built_laid_out m ids Hty p (prepared_plan _ _ _ _ Hx)) as [Hlaid _].

Lemma shard_sizes : Forall (fun s => 0 <= identity_size (identity s)) (planned_shards p) /\
  sum_of (fun s => identity_size (identity s)) (planned_shards p) = source_bytes p.
Proof using Hty Hx.
  clear -Hty Hx. plan_facts Hlaid Hplan. split.
  - apply Forall_forall. intros s Hs. pose proof (planned_size m ids p Hty Hlaid s Hs). unfold is_u64 in *. lia.
  - destruct Hlaid as [_ _ _ _ [Hp _] _ (_ & _ & _ & ->)]. rewrite <- (sum_of_perm identity_size _ _ Hp), sum_of_fmap. done.
Qed.

Lemma chunks_bounded : sum_of shard_chunks (planned_shards p) <= source_bytes p /\ Forall (fun s => 0 <= shard_chunks s) (planned_shards p).
Proof using Hty Hx.
  clear -Hty Hx. pose proof (prepared_options _ _ _ _ Hx) as Hc. destruct shard_sizes as [Hsizes <-]. split.
  - apply sum_of_le. eapply Forall_impl; [exact Hsizes|]. cbv beta. intros s Hs. unfold shard_chunks.
    destruct (Z.eq_dec (identity_size (identity s)) 0) as [->|]; [rewrite Z.div_small; lia|].
    apply Z.div_le_upper_bound; nia.
  - eapply Forall_impl; [exact Hsizes|]. cbv beta. intros s Hs. unfold shard_chunks. apply Z.div_pos; lia.
Qed.

Lemma copied_below : copied_bytes p <= source_bytes p.
Proof using Hty Hx.
  clear -Hty Hx. plan_facts Hlaid Hplan. destruct (laid_names _ _ _ Hlaid) as [Hnd Hin]. destruct (planned_total m ids p Hty Hlaid) as [Hpt _].
  rewrite <- Hpt, <- (proj2 shard_sizes), <- (sum_over_shards planned_bytes (planned_shards p) (planned_tensors p) Hnd Hin).
  apply sum_of_le. apply Forall_forall. intros s Hs. rewrite <- (shard_tensors_are m ids p Hlaid s Hs).
  pose proof (planned_size m ids p Hty Hlaid s Hs) as Hsz. unfold is_u64 in Hsz.
  pose proof (ordered_sum (shard_tensors p s) 0 _ (shard_tensors_ok m ids p Hlaid s Hs) (shard_tensors_ordered m ids p Hlaid s Hs)) as Hos.
  destruct Hos as [_ H]; [|lia|lia]. eapply Forall_impl; [exact (shard_tensors_ok m ids p Hlaid s Hs)|]. intros t [? _ _]. lia.
Qed.

Section counted.
Context (rs : list ShardLoadOutcome) (contents : nat -> list Z) (Hlen : length rs = length (planned_shards p)).
Context (Hdone : forall k s, planned_shards p !! k = Some s -> exists r, rs !! k = Some r /\ shard_done p o s (contents k) r (all_writes l)).

(** A total over the outcomes is the one over the shards. *)
Lemma outcome_sum (f : ShardLoadOutcome -> Z) (g : PlannedShard -> Z) :
  (forall s content r, s ∈ planned_shards p -> shard_done p o s content r (all_writes l) -> f r = g s) ->
  sum_of f rs = sum_of g (planned_shards p).
Proof using Hlen Hdone.
  intros Hfg. apply sum_of_pointwise; [done|]. intros k r s Hr Hs. destruct (Hdone k s Hs) as (r' & Hr' & Hd).
  assert (r' = r) as -> by congruence. apply list_elem_of_lookup_2 in Hs. by eapply Hfg.
Qed.

Lemma outcome_sums :
  sum_of (bytes_read ∘ outcome_stats) rs = source_bytes p /\ sum_of (bytes_copied ∘ outcome_stats) rs = copied_bytes p /\
  sum_of (chunks ∘ outcome_stats) rs = sum_of shard_chunks (planned_shards p) /\
  sum_of (memcpy_operations ∘ outcome_stats) rs = planned_memcpy_operations x.
Proof using Hty Hx Hlen Hdone.
  clear -Hty Hx Hlen Hdone. plan_facts Hlaid Hplan. destruct (laid_names _ _ _ Hlaid) as [Hnd Hin].
  destruct (planned_total m ids p Hty Hlaid) as [Hpt _]. destruct (prepared_operations _ _ _ _ Hx) as [Hops _].
  rewrite <- (proj2 shard_sizes), <- Hpt, Hops, <- (sum_over_shards planned_bytes (planned_shards p) (planned_tensors p) Hnd Hin),
    <- (sum_over_shards (tensor_operations (chunk_bytes o)) (planned_shards p) (planned_tensors p) Hnd Hin).
  split_and!; apply outcome_sum; intros s content r Hs (_ & _ & H1 & H2 & H3 & H4 & _); unfold compose;
    rewrite <- ?(shard_tensors_are m ids p Hlaid s Hs); done.
Qed.

Lemma outcomes_nonneg : Forall (fun r => 0 <= bytes_read (outcome_stats r) /\ 0 <= bytes_copied (outcome_stats r) /\
  0 <= chunks (outcome_stats r) /\ 0 <= memcpy_operations (outcome_stats r)) rs.
Proof using Hty Hx Hlen Hdone.
  clear -Hty Hx Hlen Hdone. plan_facts Hlaid Hplan. pose proof Hlaid as [_ _ Hins _ _ _ _].
  pose proof (tensor_operations_typed m ids Hty p (chunk_bytes o) Hlaid (prepared_options _ _ _ _ Hx)) as Hot.
  apply Forall_forall. intros r (k & Hr)%list_elem_of_lookup. destruct (lookup_lt_is_Some_2 (planned_shards p) k) as [s Hs].
  { rewrite <- Hlen. by apply lookup_lt_Some in Hr. }
  destruct (Hdone k s Hs) as (r' & Hr' & (_ & _ & E1 & E2 & E3 & E4 & _)). assert (r' = r) as -> by congruence.
  apply list_elem_of_lookup_2 in Hs. rewrite E1, E2, E3, E4. destruct shard_sizes as [Hsizes _], chunks_bounded as [_ Hch].
  rewrite Forall_forall in Hsizes, Hch.
  split_and!; [by apply Hsizes| |by apply (Hch s)|]; rewrite (shard_tensors_are m ids p Hlaid s Hs);
    apply sum_of_nonneg, Forall_forall; intros t [Ht _]%elem_of_filtered.
  - rewrite Forall_forall in Hins. specialize (Hins t Ht). lia.
  - rewrite Forall_forall in Hot. destruct (Hot t Ht). lia.
Qed.

(** The statistics of the shards, added up. *)
Lemma statistics_exact :
  add_up rs (initial_stats x) =
  inr (with_totals (source_bytes p) (copied_bytes p) 0 (sum_of shard_chunks (planned_shards p)) (planned_memcpy_operations x)
         (outcome_stats <$> rs) (initial_stats x)).
Proof using Hty Hx Hmax Hlen Hdone.
  clear -Hty Hx Hmax Hlen Hdone. plan_facts Hlaid Hplan. destruct outcome_sums as (S1 & S2 & S3 & S4).
  pose proof outcomes_nonneg as Hnn. pose proof copied_below as Hle. destruct chunks_bounded as [Hcl _].
  destruct (prepared_operations _ _ _ _ Hx) as [_ Hopsmax]. pose proof (plan_total _ _ Hplan) as Htot.
  destruct Hlaid as [_ _ _ _ _ _ (_ & _ & _ & Hsb)]. rewrite <- Hsb in Htot. unfold is_u64 in Hmax.
  assert (Hu : forall f : ShardLoadOutcome -> Z, Forall (fun r => 0 <= f r) rs -> sum_of f rs <= u64_max -> Forall (fun r => is_u64 (f r)) rs)
    by (intros; by apply typed_by_sum).
  pose proof (Hu (bytes_read ∘ outcome_stats) ltac:(eapply Forall_impl; [exact Hnn|]; unfold compose; simpl; lia) ltac:(lia)) as U1.
  pose proof (Hu (bytes_copied ∘ outcome_stats) ltac:(eapply Forall_impl; [exact Hnn|]; unfold compose; simpl; lia) ltac:(lia)) as U2.
  pose proof (Hu (chunks ∘ outcome_stats) ltac:(eapply Forall_impl; [exact Hnn|]; unfold compose; simpl; lia) ltac:(lia)) as U3.
  pose proof (Hu (memcpy_operations ∘ outcome_stats) ltac:(eapply Forall_impl; [exact Hnn|]; unfold compose; simpl; lia)
    ltac:(unfold u64_max in *; lia)) as U4.
  rewrite add_up_exact; cbn [initial_stats total_read total_copied total_chunks total_operations total_skipped shard_stats];
    rewrite ?Z.add_0_l, ?S1, ?S2, ?S3, ?S4; try (unfold is_u64, u64_max in *; lia); [done|].
  rewrite Forall_forall in U1, U2, U3, U4 |- *. intros r Hr. split_and!; [by apply U1|by apply U2|by apply U3|by apply U4].
Qed.
End counted.

(** Either everything is loaded, or what a worker or a shard failed with is
    reported. *)
Lemma conclude_cases :
  (exists rs contents, shard_outcomes l = Some <$> rs /\ length rs = length (planned_shards p) /\
    (forall k s, planned_shards p !! k = Some s -> exists r, rs !! k = Some r /\ shard_done p o s (contents k) r (all_writes l)) /\
    (forall wr, wr ∈ all_writes l -> exists k s, planned_shards p !! k = Some s /\ true_write (shard_tensors p s) (contents k) wr) /\
    conclude x l = inr {| weights_bytes := arena_bytes p; weights_tensors := planned_views x;
      weights_stats := with_totals (source_bytes p) (copied_bytes p) (source_bytes p - copied_bytes p)
        (sum_of shard_chunks (planned_shards p)) (planned_memcpy_operations x) (outcome_stats <$> rs) (initial_stats x) |}) \/
  exists d, conclude x l = inl d /\
    ((exists w, w ∈ pool_workers l /\ worker_diagnostic w = Some d) \/
     exists k r, shard_outcomes l !! k = Some (Some r) /\ outcome_diagnostic r = Some d).
Proof using Hkernel Hty Hx Hmax Hnew Hrun Hpipes Hjoined.
  unfold conclude. destruct (check_workers (pool_workers l)) as [d|[]] eqn:Hws.
  { right. exists d. split; [done|]. left. by apply check_workers_inl. }
  destruct (outcomes_cases Hws) as [(rs & -> & Hrs & Hgood)|(d & k & r & -> & Hk & Hd)]; [|right; exists d; split; [done|right; by exists k, r]].
  left. destruct (all_loaded rs Hrs Hgood) as (contents & Hdone & Htrue). exists rs, contents.
  assert (Hlen : length rs = length (planned_shards p)).
  { pose proof (ok_length _ _ _ pool_is_ok) as H. by rewrite Hrs, length_fmap in H. }
  pose proof (statistics_exact rs contents Hlen Hdone) as Hadd. pose proof copied_below as Hle. split_and!; [done..|].
  cbn [mbind sum_bind]. rewrite Hadd. cbn. rewrite !Z.eqb_refl, (proj2 (Z.ltb_ge _ _)) by lia. done.
Qed.
End concluded.

(** ** The loaded weights *)

(** The weights that are loaded: [contents] is what the files held. *)
Record loaded (m : WeightManifest) (ids : list ShardIdentity) (contents : list Z -> list Z) (ws : list (Z * list Z))
    (weights : ResidentWeights) : Prop := {
  loaded_plannable : plannable m ids;
  loaded_files : forall i, i ∈ ids -> Z.of_nat (length (contents (filename i))) = identity_size i /\
    digest_text (digest_of (contents (filename i))) = identity_sha256 i;
  loaded_tensors : forall nl, nl ∈ text_of m -> exists view, find_view nl.1 weights = Some view /\
    view_bytes view = locator_bytes nl.2 /\ view_dtype view = locator_dtype nl.2 /\ view_shape view = locator_shape nl.2 /\
    (kResidentTensorAlignment | view_offset view) /\ 0 <= view_offset view /\
    view_offset view + view_bytes view <= weights_bytes weights /\
    forall order arena at_byte, order ≡ₚ ws -> 0 <= at_byte < view_bytes view ->
      contents (shard nl.2) !! Z.to_nat (locator_begin nl.2 + at_byte) = Some (after_writes order arena (view_offset view + at_byte));
  loaded_others : forall name view, find_view name weights = Some view -> name ∈ (fun nl => nl.1) <$> text_of m;
  loaded_arena : weights_bytes weights = arena_total (text_of m);
  loaded_totals : total_read (weights_stats weights) = sum_of identity_size ids /\
    total_copied (weights_stats weights) = copied_total (text_of m) /\
    total_skipped (weights_stats weights) = sum_of identity_size ids - copied_total (text_of m);
  loaded_backend : used_backend (weights_stats weights) <> kAuto
}.

(** The shard of a name. *)
Definition by_name (p : ResidentLoadPlan) (contents : nat -> list Z) (name : list Z) : list Z :=
  default [] (contents ∘ fst <$> list_find (fun s => filename (identity s) = name) (planned_shards p)).

Section loaded.
Context (m : WeightManifest) (ids : list ShardIdentity) (p : ResidentLoadPlan) (o : ResidentLoadOptions).
Context (Hty : plan_typed m ids) (Hlaid : laid_out m ids p).
Context (rs : list ShardLoadOutcome) (contents : nat -> list Z) (ws : list (Z * list Z)).
Context (Hdone : forall k s, planned_shards p !! k = Some s -> exists r, rs !! k = Some r /\ shard_done p o s (contents k) r ws).
Context (Htrue : forall wr, wr ∈ ws -> exists k s, planned_shards p !! k = Some s /\ true_write (shard_tensors p s) (contents k) wr).

Lemma same_shard k k' s s' : planned_shards p !! k = Some s -> planned_shards p !! k' = Some s' ->
  filename (identity s) = filename (identity s') -> k = k'.
Proof using Hlaid.
  intros Hk Hk' Heq. destruct (laid_names _ _ _ Hlaid) as [Hnd _].
  apply (NoDup_lookup _ k k' (filename (identity s)) Hnd); rewrite list_lookup_fmap; [by rewrite Hk|]. by rewrite Hk', Heq.
Qed.

Lemma by_name_shard k s : planned_shards p !! k = Some s -> by_name p contents (filename (identity s)) = contents k.
Proof using Hlaid.
  intros Hk. unfold by_name. destruct (list_find _ _) as [[j s']|] eqn:Hf.
  - apply list_find_Some in Hf as (Hj & Hn & _). cbn. f_equal. by apply (same_shard j k s' s).
  - exfalso. apply list_find_None in Hf. rewrite Forall_forall in Hf. apply (Hf s); [|done]. by apply list_elem_of_lookup_2 in Hk.
Qed.

Lemma shard_tensors_elem s t : s ∈ planned_shards p -> t ∈ shard_tensors p s <->
  t ∈ planned_tensors p /\ planned_shard t = filename (identity s).
Proof using Hlaid.
  intros Hs. rewrite (shard_tensors_are m ids p Hlaid s Hs), elem_of_filtered. unfold of_shard. by rewrite bool_decide_eq_true.
Qed.

(** An address belongs to one tensor. *)
Lemma same_tensor t t' pos pos' : t ∈ planned_tensors p -> t' ∈ planned_tensors p -> holds_source t pos -> holds_source t' pos' ->
  address t pos = address t' pos' -> t = t' /\ pos = pos'.
Proof using Hlaid.
  intros (i & Hi)%list_elem_of_lookup (j & Hj)%list_elem_of_lookup Hpos Hpos' Heq.
  destruct Hlaid as [_ Ho Hins _ _ _ _]. rewrite Forall_forall in Hins.
  destruct (Hins t) as (_ & _ & _ & _ & Hl); [by apply list_elem_of_lookup_2 in Hi|].
  destruct (Hins t') as (_ & _ & _ & _ & Hl'); [by apply list_elem_of_lookup_2 in Hj|].
  unfold holds_source, address in *. destruct (Nat.lt_trichotomy i j) as [Hlt|[->|Hgt]].
  - destruct (Ho i j t t' Hlt Hi Hj). lia.
  - assert (t' = t) as -> by congruence. split; [done|lia].
  - destruct (Ho j i t' t Hgt Hj Hi). lia.
Qed.

Lemma byte_in_place t k s pos order arena : t ∈ planned_tensors p -> planned_shards p !! k = Some s ->
  planned_shard t = filename (identity s) -> holds_source t pos -> order ≡ₚ ws ->
  contents k !! Z.to_nat pos = Some (after_writes order arena (address t pos)).
Proof using Hlaid Hdone Htrue.
  intros Ht Hk Hsh Hpos Hperm. destruct (Hdone k s Hk) as (r & _ & (Hlen & _ & _ & _ & _ & _ & Hcov)).
  apply list_elem_of_lookup_2 in Hk as Hs. assert (Hts : t ∈ shard_tensors p s) by by apply shard_tensors_elem.
  pose proof (proj1 (Forall_forall _ _) (shard_tensors_ok m ids p Hlaid s Hs) t Hts) as [[Hr He] _ _]. unfold holds_source in Hpos.
  destruct (lookup_lt_is_Some_2 (contents k) (Z.to_nat pos)) as [v Hv]; [lia|]. rewrite Hv. f_equal. symmetry.
  apply after_writes_exact.
  - intros wr Hin Hrange. rewrite Hperm in Hin. destruct (Htrue wr Hin) as (k' & s' & Hk' & Htw).
    destruct (lookup_lt_is_Some_2 wr.2 (Z.to_nat (address t pos - wr.1))) as [b Hb]; [lia|]. rewrite Hb. f_equal.
    destruct (Htw _ _ Hb) as (t' & pos' & Ht' & Hpos' & Haddr & Hc).
    apply list_elem_of_lookup_2 in Hk' as Hs'. apply shard_tensors_elem in Ht' as [Ht' Hsh']; [|done].
    destruct (same_tensor t t' pos pos' Ht Ht' Hpos Hpos') as [<- <-]; [lia|].
    assert (k' = k) as -> by (apply (same_shard k' k s' s); congruence). congruence.
  - destruct (Hcov t pos Hts Hpos) as (wr & Hin & Ha). exists wr. by rewrite Hperm.
Qed.
End loaded.

Section views.
Context (ts : list PlannedTensor) (Hnd : NoDup (planned_name <$> ts)).
Local Abbreviation entries := ((fun t => (planned_name t, view_of t)) <$> ts).

Lemma views_sorted : keys_sorted (emplace_entries entries []).
Proof using. apply emplace_entries_sorted. constructor. Qed.

Lemma views_perm : emplace_entries entries [] ≡ₚ entries.
Proof using Hnd. rewrite emplace_entries_perm; [by rewrite app_nil_r| |done]. by rewrite <- list_fmap_compose. Qed.

Lemma view_found name view : map_find name (emplace_entries entries []) = Some view <->
  exists t, t ∈ ts /\ planned_name t = name /\ view = view_of t.
Proof using Hnd.
  split.
  - intros Hf%map_find_elem. rewrite views_perm in Hf. apply list_elem_of_fmap in Hf as (t & [= -> ->] & Ht). by exists t.
  - intros (t & Ht & <- & ->). apply elem_map_find; [apply views_sorted|]. rewrite views_perm.
    apply list_elem_of_fmap. by exists t.
Qed.
End views.

(** Every text tensor has its place in the plan, and every place its tensor. *)
Lemma planned_of m ids p : laid_out m ids p ->
  (forall nl, nl ∈ text_of m -> exists t, t ∈ planned_tensors p /\ t = planned_at (arena_offset t) nl) /\
  (forall t, t ∈ planned_tensors p -> exists nl, nl ∈ text_of m /\ planned_name t = nl.1).
Proof.
  intros [(order & Hp & H2) _ _ _ _ _ _]. split.
  - intros nl Hin. rewrite <- Hp in Hin. apply list_elem_of_lookup in Hin as (i & Hi).
    destruct (Forall2_lookup_l _ _ _ _ _ H2 Hi) as (t & Ht & Heq). exists t. split; [|done]. by apply list_elem_of_lookup_2 in Ht.
  - intros t (i & Hi)%list_elem_of_lookup. destruct (Forall2_lookup_r _ _ _ _ _ H2 Hi) as (nl & Hnl & Heq). exists nl.
    rewrite <- Hp. split; [by apply list_elem_of_lookup_2 in Hnl|]. by rewrite Heq.
Qed.

Lemma resident_load_exact kernel_sha256 sys sources m ids o result ws :
  (forall m, kernel_sha256 m = digest_of m) -> plan_typed m ids -> load_options_typed o ->
  load_resident_weights kernel_sha256 sys sources m ids o result ws ->
  match result with
  | inr weights => exists contents, loaded m ids contents ws weights
  | inl d => prepare sys m ids o = inl d \/
      exists x pipelines l, prepare sys m ids o = inr x /\
        rtc (pool_step kernel_sha256 sources (the_load_plan x) o (chosen_backend x)) (pool_start (the_load_plan x) pipelines) l /\
        ((exists w, w ∈ pool_workers l /\ worker_diagnostic w = Some d) \/
         exists k r, shard_outcomes l !! k = Some (Some r) /\ outcome_diagnostic r = Some d)
  end.
Proof.
  intros Hkernel Hty Ho Hload. destruct Hload as [d Hp|x pipelines l Hp Hlen Hnew Hrun Hjoined]; [by left|].
  pose proof (prepare_establishes m ids Hty sys o x Ho Hp) as Hx.
  destruct (conclude_cases kernel_sha256 Hkernel m ids Hty o x Hx (operations_typed _ Ho) sources pipelines l Hlen Hnew Hrun Hjoined)
    as [(rs & contents & Hrs & Hlrs & Hdone & Htrue & ->)|(d & -> & Hd)]; [|right; by exists x, pipelines, l].
  destruct (built_laid_out m ids Hty _ (prepared_plan _ _ _ _ Hx)) as [Hlaid _]. destruct (planned_of _ _ _ Hlaid) as [Hto Hfrom].
  destruct (laid_names _ _ _ Hlaid) as [_ Hnames]. rewrite Forall_forall in Hnames. pose proof (prepared_names _ _ _ _ Hx) as Hnd.
  exists (by_name (the_load_plan x) contents). split; unfold find_view; cbn [weights_tensors weights_bytes weights_stats total_read total_copied total_skipped].
  - by destruct (proj1 (build_is m ids Hty _) (prepared_plan _ _ _ _ Hx)).
  - intros i Hi. pose proof Hlaid as [_ _ _ _ [Hperm _] _ _]. rewrite <- Hperm in Hi.
    apply list_elem_of_fmap in Hi as (s & -> & (k & Hk)%list_elem_of_lookup).
    rewrite (by_name_shard m ids _ Hlaid contents k s Hk). by destruct (Hdone k s Hk) as (r & _ & (? & ? & _)).
  - intros nl Hnl. destruct (Hto nl Hnl) as (t & Ht & Heq). exists (view_of t).
    pose proof Hlaid as [_ _ Hins _ _ _ _]. rewrite Forall_forall in Hins. destruct (Hins t Ht) as (Hal & Hoff & Hfit & Hr & Hb).
    rewrite (prepared_views _ _ _ _ Hx). split; [apply view_found; [done|]; exists t; split_and!; [done|by rewrite Heq|done]|].
    split_and!; try done; [by rewrite Heq..|]. intros order arena at_byte Hperm Hat. cbn in Hat |- *.
    assert (Hnl2 : shard nl.2 = planned_shard t /\ locator_begin nl.2 = source_begin t) by (rewrite Heq; done). destruct Hnl2 as [-> ->].
    destruct (proj1 (list_elem_of_fmap _ _ _) (Hnames t Ht)) as (s & Hs & (k & Hk)%list_elem_of_lookup). rewrite Hs.
    unfold compose. rewrite (by_name_shard m ids _ Hlaid contents k s Hk).
    pose proof (byte_in_place m ids _ o Hlaid rs contents _ Hdone Htrue t k s (source_begin t + at_byte) order arena Ht Hk Hs
      ltac:(unfold holds_source; lia) Hperm) as Hbyte.
    unfold address in Hbyte. by replace (arena_offset t + (source_begin t + at_byte - source_begin t)) with (arena_offset t + at_byte) in Hbyte by lia.
  - intros name view Hf. rewrite (prepared_views _ _ _ _ Hx) in Hf. apply view_found in Hf as (t & Ht & <- & _); [|done].
    destruct (Hfrom t Ht) as (nl & Hnl & ->). by apply list_elem_of_fmap_2.
  - by destruct Hlaid as [_ _ _ _ _ _ (-> & _)].
  - destruct Hlaid as [_ _ _ _ _ _ (_ & _ & Hc & Hs)]. by rewrite Hc, Hs.
  - exact (prepared_backend _ _ _ _ Hx).
Qed.

(** C21. Loading the weights, with any number of workers that take the shards in
    any order, whatever the files answer, whichever calls fail and at whatever
    pace the device performs the copies: when it succeeds, every shard had the
    size and the digest of its identity, computed by one of the two backends, every text tensor has a view of its
    type and size inside the arena, and the arena holds at every byte of the view
    the byte that the file of its shard has at that place of the tensor.  When it
    fails, the failure is the one of the preparation, of a worker's device, or of
    a shard: a shard that no worker has taken and statistics that disagree with
    the plan are never reported. *)
Theorem load_resident_weights_faithful kernel_sha256 sys sources m ids o result ws :
  (forall m, kernel_sha256 m = digest_of m) -> plan_typed m ids -> load_options_typed o ->
  load_resident_weights kernel_sha256 sys sources m ids o result ws ->
  match result with
  | inr weights => exists contents, loaded m ids contents ws weights
  | inl d => prepare sys m ids o = inl d \/
      exists x pipelines l, prepare sys m ids o = inr x /\
        rtc (pool_step kernel_sha256 sources (the_load_plan x) o (chosen_backend x)) (pool_start (the_load_plan x) pipelines) l /\
        ((exists w, w ∈ pool_workers l /\ worker_diagnostic w = Some d) \/
         exists k r, shard_outcomes l !! k = Some (Some r) /\ outcome_diagnostic r = Some d)
  end.
Proof. apply resident_load_exact. Qed.

(** ** A schedule

    The pool run by a scheduler that always lets the first worker go on. *)

Section schedule.
Context (kernel_sha256 : list Z -> list Z) (sources : nat -> ShardSource) (p : ResidentLoadPlan) (o : ResidentLoadOptions)
  (backend : ResidentSha256Backend).

Definition worker_turn (i : nat) (w : Worker) (l : Pool) : option Pool :=
  match worker_state w with
  | Starting => Some (set_worker i (at_state Waiting w) l)
  | Waiting => Some {| next_shard := S (next_shard l);
      pool_workers := <[i := at_state (if (next_shard l <? length (planned_shards p))%nat then Loading (next_shard l) else Stopped) w]> (pool_workers l);
      shard_outcomes := shard_outcomes l |}
  | Loading k =>
      s ← planned_shards p !! k;
      let '(r, w') := load_one_shard kernel_sha256 p o s backend (bool_decide (backend = kLinuxAfAlg)) (with_shard (sources k) (worker_pipeline w)) in
      Some {| next_shard := next_shard l;
        pool_workers := <[i := {| worker_state := if outcome_ok r then Waiting else Stopped;
                                  worker_diagnostic := worker_diagnostic w; worker_pipeline := w' |}]> (pool_workers l);
        shard_outcomes := <[k := Some r]> (shard_outcomes l) |}
  | Stopped => None
  end.

Fixpoint run_pool (turns : list nat) (l : Pool) : Pool :=
  match turns with
  | [] => l
  | i :: turns => run_pool turns (default l (w ← pool_workers l !! i; worker_turn i w l))
  end.

Lemma worker_turn_step i w l l' : pool_workers l !! i = Some w -> worker_turn i w l = Some l' -> pool_step kernel_sha256 sources p o backend l l'.
Proof.
  intros Hi. unfold worker_turn. destruct (worker_state w) as [| |k|] eqn:Hst; [| | |done].
  - intros [= <-]. by apply step_device.
  - intros [= <-]. by apply step_claim.
  - destruct (planned_shards p !! k) as [s|] eqn:Hs; [|done]. cbn. destruct (load_one_shard _ _ _ _ _ _ _) as [r w'] eqn:Hrun.
    intros [= <-]. by apply (step_load _ _ _ _ _ l i w k s r w').
Qed.

Lemma run_pool_steps turns l : rtc (pool_step kernel_sha256 sources p o backend) l (run_pool turns l).
Proof.
  revert l. induction turns as [|i turns IH]; intros l; cbn [run_pool]; [apply rtc_refl|].
  destruct (pool_workers l !! i) as [w|] eqn:Hi; cbn; [|apply IH].
  destruct (worker_turn i w l) as [l'|] eqn:Ht; cbn; [|apply IH].
  eapply rtc_l; [by apply (worker_turn_step i w l l')|apply IH].
Qed.
End schedule.

Definition is_stopped (st : WorkerState) : bool := match st with Stopped => true | _ => false end.

Lemma stopped_joined l : forallb (is_stopped ∘ worker_state) (pool_workers l) = true -> all_stopped l.
Proof.
  rewrite forallb_forall. intros H. apply Forall_forall. intros w Hw%list_elem_of_In%H. unfold compose in Hw.
  by destruct (worker_state w).
Qed.

(** *** Two shards and two workers *)

Definition sample_system : System := {|
  hash_socket := false; hash_bind := false; accepts := []; root_text := []; root_opens := true; opens := fun _ _ _ => true;
  status_of := fun descriptor => Some (true, if bool_decide (descriptor = [lit "a.safetensors"]) then 320 else 20);
  device_answers := []; device_memory := Some (100000, 200000) |}.

Definition sample_source (k : nat) : ShardSource :=
  let size := if (k =? 0)%nat then 320%nat else 20%nat in {|
  source_answers := [Arrives (take 9 (sample_bytes size)); ReadInterrupted; Arrives (drop 9 (sample_bytes size))];
  source_status := Some (true, Z.of_nat size); source_socket := [] |}.

Definition empty_pipeline : Pipeline := {|
  file_answers := []; final_status := None; socket_answers := []; socket_message := []; staging := [repeat 0 64; repeat 0 64];
  pending := []; writes := []; events := [0; 0]%nat; cuda_answers := []; pace := [0; 1; 0; 0; 2]%nat |}.

(** The second worker takes the first shard. *)
Definition sample_turns : list nat := [0; 1; 1; 0; 0; 1; 0; 1]%nat.

Definition sample_pool (x : Prepared) : Pool :=
  run_pool digest_of sample_source (the_load_plan x) sample_load_options (chosen_backend x) sample_turns
    (pool_start (the_load_plan x) [empty_pipeline; empty_pipeline]).

Lemma sample_load_succeeds :
  match prepare sample_system sample_manifest loadable_identities sample_load_options with
  | inl _ => false
  | inr x => (worker_count x =? 2)%nat && forallb (is_stopped ∘ worker_state) (pool_workers (sample_pool x))
             && match conclude x (sample_pool x) with inr _ => true | inl _ => false end
  end = true.
Proof. by vm_compute. Qed.

Lemma sample_load_options_typed : load_options_typed sample_load_options.
Proof. split; unfold is_u64; cbn; lia. Qed.

Lemma load_resident_weights_faithful_witness : exists weights ws,
  load_resident_weights digest_of sample_system sample_source sample_manifest loadable_identities sample_load_options (inr weights) ws /\
  exists contents, loaded sample_manifest loadable_identities contents ws weights.
Proof.
  pose proof sample_load_succeeds as H. destruct (prepare sample_system sample_manifest loadable_identities sample_load_options) as [d|x] eqn:Hp; [discriminate H|].
  apply andb_true_iff in H as [H Hok]. apply andb_true_iff in H as [Hw Hj]. apply Nat.eqb_eq in Hw. apply stopped_joined in Hj.
  assert (Hload : load_resident_weights digest_of sample_system sample_source sample_manifest loadable_identities sample_load_options
    (conclude x (sample_pool x)) (mjoin (writes ∘ worker_pipeline <$> pool_workers (sample_pool x)))).
  { apply (load_runs _ _ _ _ _ _ x [empty_pipeline; empty_pipeline]); [exact Hp|by rewrite Hw| |apply run_pool_steps|exact Hj].
    repeat constructor. }
  destruct (conclude x (sample_pool x)) as [d|weights]; [discriminate Hok|].
  exists weights, (mjoin (writes ∘ worker_pipeline <$> pool_workers (sample_pool x))). split; [exact Hload|].
  exact (load_resident_weights_faithful digest_of sample_system sample_source sample_manifest loadable_identities sample_load_options
    (inr weights) _ (fun _ => eq_refl) loadable_plan_typed sample_load_options_typed Hload).
Defined.
(** *** The pinned arena *)

Definition arena_is (es : option RequirementMap) (total : Z) : bool :=
  match es with None => false | Some es => arena_of 256 es =? total end.

Lemma arena_evaluates : arena_is (all_entries pinned_modules (requirement_steps pinned_model)) kPinnedQwen36_27BArenaBytes = true.
Proof. vm_cast_no_check (eq_refl true). Qed.

Lemma arena_of_entries es total : fresh_names es [] -> arena_is (Some es) total = true -> arena_of 256 (emplace_entries es []) = total.
Proof.
  intros [Hn Hd] H%Z.eqb_eq. rewrite <- H. unfold arena_of. apply sum_perm. rewrite emplace_entries_perm by done. by rewrite app_nil_r.
Qed.

(** The arena of the generated tensors is the one the loader expects. *)
Lemma pinned_arena : arena_of kResidentTensorAlignment text_abi = kPinnedQwen36_27BArenaBytes.
Proof.
  pose proof arena_evaluates as H. rewrite (proj1 entries_run) in H.
  exact (arena_of_entries abi_entries _ (good_fresh _ (proj2 entries_run)) H).
Qed.

(** *** The pinned model *)

(** The options [build_qwen36_27b_text_manifest] has by default. *)
Definition default_manifest_options : ManifestOptions := {|
  option_arena_alignment := 256;
  index_options := {| index_max_file_bytes := 64 * 1024 * 1024; index_max_tensors := 2000000; index_max_shards := 100000;
    index_json_options := default_options |};
  shard_options := {| validation_max_shards := 100000; validation_max_tensors := 2000000; header_options := default_read_options |}
|}.

Definition from_manifest_failure {A} (d : ManifestDiagnostic) : ResidentLoadDiagnostic + A :=
  failure kInvalidManifest (manifest_context d) [] 0.

(** [load_pinned_qwen36_27b] up to the call of [load_resident_weights]. *)
Definition pinned_manifest (fs : Filesystem) (current_path : option (list Z)) (directory : list Z) : ResidentLoadDiagnostic + WeightManifest :=
  m ← match build_qwen36_27b_text_manifest fs current_path directory default_manifest_options with
      | inl d => from_manifest_failure d
      | inr m => inr m
      end;
  _ ← fail_if (negb (estimated_text_arena_bytes (manifest_summary m) =? kPinnedQwen36_27BArenaBytes)
               || negb (raw_text_bytes (manifest_summary m) =? kPinnedQwen36_27BTextBytes)) kInvalidManifest (lit "manifest.summary") [] 0;
  inr m.

Inductive load_pinned_qwen36_27b (kernel_sha256 : list Z -> list Z) (fs : Filesystem) (current_path : option (list Z)) (directory : list Z)
    (sys : System) (sources : nat -> ShardSource) (o : ResidentLoadOptions) : ResidentLoadDiagnostic + ResidentWeights -> list (Z * list Z) -> Prop :=
  | pinned_refused d : pinned_manifest fs current_path directory = inl d ->
      load_pinned_qwen36_27b kernel_sha256 fs current_path directory sys sources o (inl d) []
  | pinned_loads m result ws : pinned_manifest fs current_path directory = inr m ->
      load_resident_weights kernel_sha256 sys sources m pinned_qwen36_27b_shards o result ws ->
      load_pinned_qwen36_27b kernel_sha256 fs current_path directory sys sources o result ws.

Lemma default_manifest_options_typed : options_typed default_manifest_options.
Proof. split; [done|done|done|split; exact default_options_ok]. Qed.

(** A manifest that was built has the text tensors of the model. *)
Lemma pinned_facts abi fs current_path directory m :
  abi_facts abi ->
  (forall tensors q alignment m, keys_sorted tensors -> Forall (fun nl => typed nl.2) tensors -> is_u64 alignment ->
     validate_qwen36_27b_text_manifest tensors q alignment = inr m <->
     manifest_accepts abi tensors q alignment /\ m = manifest_of abi tensors q alignment) ->
  (forall path f, open_disk fs path = Some f -> file_ok f) ->
  build_qwen36_27b_text_manifest fs current_path directory default_manifest_options = inr m ->
  plan_typed m pinned_qwen36_27b_shards /\
  estimated_text_arena_bytes (manifest_summary m) = arena_of kResidentTensorAlignment abi /\
  raw_text_bytes (manifest_summary m) = kPinnedQwen36_27BTextBytes /\
  forall name r, classify_tensor name = kText -> map_find name abi = Some r <->
    exists l, (name, l) ∈ manifest_tensors m /\ required_of l = r.
Proof.
  intros Habi Hvalidate Hdisk Hb.
  apply (proj1 (build_over abi fs current_path directory default_manifest_options m Habi Hvalidate Hdisk default_manifest_options_typed)) in Hb
    as (r & sites & [_ (i & validated & Hread & Hn & Hm) _ Hacc _] & ->).
  pose proof default_manifest_options_typed as [_ Hmax _ [Hjson Hijson]].
  pose proof (read_index_typed _ _ _ _ Hdisk Hijson Hmax Hread) as Hty.
  pose proof (locators_typed fs directory default_manifest_options i sites _ Hdisk Hjson Hty Hn Hm) as Hlt.
  pose proof (locators_sorted sites) as Hsorted. cbn [manifest_summary manifest_tensors with_checkpoint manifest_of raw_text_bytes estimated_text_arena_bytes].
  set (tensors := locators_of sites) in *. split; [split|].
  - cbn [manifest_tensors with_checkpoint manifest_of]. apply keys_sorted_keys. rewrite <- list_fmap_compose. by apply keys_sorted_keys in Hsorted.
  - cbn [manifest_tensors with_checkpoint manifest_of]. apply Forall_fmap. eapply Forall_impl; [exact Hlt|]. by intros nl (? & ? & ?).
  - repeat constructor; unfold size_typed, is_u64; cbn; lia.
  - split; [done|]. split; [done|]. intros name q Hc. rewrite <- (accepts_text _ _ _ _ Hacc name Hc). split.
    + destruct (map_find name tensors) as [l|] eqn:Hl; [|done]. intros [= <-]. apply map_find_elem in Hl.
      exists (with_category (classify_tensor name) l). split; [|done]. apply list_elem_of_fmap. by exists (name, l).
    + intros (l & ([name' l'] & [= -> ->] & Hin)%list_elem_of_fmap & <-). by rewrite (elem_map_find _ _ _ Hsorted Hin).
Qed.

Lemma validate_text tensors q alignment m : keys_sorted tensors -> Forall (fun nl => typed nl.2) tensors -> is_u64 alignment ->
  validate_qwen36_27b_text_manifest tensors q alignment = inr m <->
  manifest_accepts text_abi tensors q alignment /\ m = manifest_of text_abi tensors q alignment.
Proof. exact (validate_exact text_abi tensors q alignment m text_abi_facts (make_requirements_exact q)). Qed.

Lemma pinned_built fs current_path directory m : (forall path f, open_disk fs path = Some f -> file_ok f) ->
  pinned_manifest fs current_path directory = inr m <->
  build_qwen36_27b_text_manifest fs current_path directory default_manifest_options = inr m.
Proof.
  intros Hdisk. unfold pinned_manifest. split.
  - intros H. apply sum_bind_inr in H as (m' & Hm & H). apply sum_bind_inr in H as ([] & _ & H). injection H as ->.
    by destruct (build_qwen36_27b_text_manifest _ _ _ _); [|injection Hm as ->].
  - intros H. pose proof H as Hb. rewrite H. cbn [mbind sum_bind].
    destruct (pinned_facts text_abi fs current_path directory m text_abi_facts validate_text Hdisk Hb) as (_ & He & Hr & _).
    pose proof (eq_trans He pinned_arena) as He'. rewrite He', Hr, !Z.eqb_refl. reflexivity.
Qed.

Lemma views_of_model abi m contents ws weights :
  (forall name r, classify_tensor name = kText -> map_find name abi = Some r <->
    exists l, (name, l) ∈ manifest_tensors m /\ required_of l = r) ->
  loaded m pinned_qwen36_27b_shards contents ws weights -> forall name, classify_tensor name = kText ->
  (fun view => (view_dtype view, view_shape view)) <$> find_view name weights =
  (fun r => (required_dtype r, required_shape r)) <$> map_find name abi.
Proof.
  intros Habi Hl name Hc. destruct (map_find name abi) as [r|] eqn:Hr'; cbn [fmap option_fmap option_map].
  - destruct (proj1 (Habi name r Hc) Hr') as (loc & Hin & <-).
    destruct (loaded_tensors _ _ _ _ _ Hl (name, loc)) as (view & Hv & _ & Hd & Hsh & _); [by apply text_elem|].
    cbn in Hv, Hd, Hsh. rewrite Hv. cbn. by rewrite Hd, Hsh.
  - destruct (find_view name weights) as [view|] eqn:Hv; [|done]. exfalso. apply (loaded_others _ _ _ _ _ Hl) in Hv.
    apply list_elem_of_fmap in Hv as ([name' loc] & -> & [Hin _]%text_elem).
    assert (Hsome : map_find name' abi = Some (required_of loc)) by (apply Habi; [done|by exists loc]). cbn in Hr'. congruence.
Qed.

Lemma arena_of_model total m contents ws weights : total <> 0 -> estimated_text_arena_bytes (manifest_summary m) = total ->
  loaded m pinned_qwen36_27b_shards contents ws weights -> weights_bytes weights = total.
Proof.
  intros Hz He Hl. rewrite (loaded_arena _ _ _ _ _ Hl). destruct (plan_arena_bytes _ _ (loaded_plannable _ _ _ _ _ Hl)); congruence.
Qed.

(** The pinned model, loaded: the check of the arena never fails after a
    manifest was built; when loading succeeds, the arena has the pinned size and
    holds exactly the tensors the runtime needs, with their types and shapes, each
    with the bytes of its shard, whose digest is the pinned one. *)
Theorem load_pinned_faithful kernel_sha256 fs current_path directory sys sources o weights ws :
  (forall m, kernel_sha256 m = digest_of m) -> (forall path f, open_disk fs path = Some f -> file_ok f) -> load_options_typed o ->
  load_pinned_qwen36_27b kernel_sha256 fs current_path directory sys sources o (inr weights) ws ->
  exists m contents,
    build_qwen36_27b_text_manifest fs current_path directory default_manifest_options = inr m /\
    loaded m pinned_qwen36_27b_shards contents ws weights /\ weights_bytes weights = kPinnedQwen36_27BArenaBytes /\
    forall name, classify_tensor name = kText ->
      (fun view => (view_dtype view, view_shape view)) <$> find_view name weights =
      (fun r => (required_dtype r, required_shape r)) <$> map_find name text_abi.
Proof.
  intros Hkernel Hdisk Ho Hload. inversion Hload as [|m result ws' Hp Hrun Heq]. clear Hload. subst.
  apply (proj1 (pinned_built _ _ _ _ Hdisk)) in Hp.
  destruct (pinned_facts text_abi fs current_path directory m text_abi_facts validate_text Hdisk Hp) as (Hty & He & _ & Habi).
  destruct (resident_load_exact _ _ _ _ _ _ _ _ Hkernel Hty Ho Hrun) as (contents & Hl). exists m, contents.
  refine (conj Hp (conj Hl (conj _ (views_of_model text_abi m contents ws weights Habi Hl)))).
  refine (arena_of_model kPinnedQwen36_27BArenaBytes m contents ws weights _ (eq_trans He pinned_arena) Hl). discriminate.
Qed.
