(* ===== verification/Bpe.v ===== *)
(** * Bpe: byte-pair encoding of one piece (src/text/tokenizer.cpp)

    The encoder keeps the tokens in a doubly linked list of nodes and the
    applicable merges in a priority queue whose stale entries are recognised
    by the generations of their nodes and skipped.  The reference is the
    definition of byte-pair encoding: merge the leftmost adjacent pair of
    lowest rank until none is left. *)

From Stdlib Require Import Sorting.Sorted.
From stdpp Require Import gmap.
From S2P Require Import Prelude.

(** [std::numeric_limits<std::size_t>::max()]. *)
Definition npos : Z := u64_max.

Record MergeRule := { rank : Z; result_id : Z }.

Record BpeNode := { token_id : Z; previous : Z; next : Z; generation : Z; alive : bool }.

Record BpeCandidate := {
  candidate_rank : Z;
  left : Z;
  right : Z;
  left_generation : Z;
  right_generation : Z
}.
#[export] Instance BpeCandidate_eq_dec : EqDecision BpeCandidate.
Proof. solve_decision. Defined.

(** [CandidateLater]. *)
Definition candidate_later (l r : BpeCandidate) : bool :=
  if negb (candidate_rank l =? candidate_rank r) then candidate_rank r <? candidate_rank l
  else left r <? left l.

(** The priority queue, its top first. *)
Fixpoint push_candidate (c : BpeCandidate) (queue : list BpeCandidate) : list BpeCandidate :=
  match queue with
  | [] => [c]
  | d :: rest => if candidate_later d c then c :: queue else d :: push_candidate c rest
  end.

Definition pair_key (left right : Z) : Z := Z.lor (Z.shiftl left 32) right.

(** Nodes are read and written by index; the default is what no code reads. *)
Definition dead_node : BpeNode := {| token_id := 0; previous := npos; next := npos; generation := 0; alive := false |}.
Definition node (nodes : list BpeNode) (i : Z) : BpeNode :=
  if i <? Z.of_nat (length nodes) then nth (Z.to_nat i) nodes dead_node else dead_node.
Definition set_node (i : Z) (n : BpeNode) (nodes : list BpeNode) : list BpeNode := <[Z.to_nat i := n]> nodes.

Definition with_previous (p : Z) (n : BpeNode) : BpeNode :=
  {| token_id := token_id n; previous := p; next := next n; generation := generation n; alive := alive n |}.

Section Encode.
Variable merges : gmap Z MergeRule.
Variable byte_token_ids : list Z.

Definition initial_node (size index byte : Z) : BpeNode := {|
  token_id := at_ byte_token_ids byte;
  previous := if index =? 0 then npos else index - 1;
  next := if index + 1 <? size then index + 1 else npos;
  generation := 0;
  alive := true
|}.
Definition initial_nodes (piece : list Z) : list BpeNode :=
  imap (fun index byte => initial_node (Z.of_nat (length piece)) (Z.of_nat index) byte) piece.

Definition add_candidate (nodes : list BpeNode) (l : Z) (queue : list BpeCandidate) : list BpeCandidate :=
  if (l =? npos) || negb (alive (node nodes l)) || (next (node nodes l) =? npos) then queue else
  let r := next (node nodes l) in
  match merges !! pair_key (token_id (node nodes l)) (token_id (node nodes r)) with
  | Some rule =>
      push_candidate {| candidate_rank := rank rule; left := l; right := r;
                        left_generation := generation (node nodes l);
                        right_generation := generation (node nodes r) |} queue
  | None => queue
  end.

(** The loop that queues the pairs of the first [n] nodes after [index]. *)
Fixpoint add_candidates (n : nat) (index : Z) (nodes : list BpeNode) (queue : list BpeCandidate) : list BpeCandidate :=
  match n with
  | O => queue
  | S n => add_candidates n (index + 1) nodes (add_candidate nodes index queue)
  end.

Definition stale (nodes : list BpeNode) (c : BpeCandidate) : bool :=
  negb (alive (node nodes (left c))) || negb (alive (node nodes (right c)))
  || negb (next (node nodes (left c)) =? right c)
  || negb (generation (node nodes (left c)) =? left_generation c)
  || negb (generation (node nodes (right c)) =? right_generation c).

(** The nodes after the merge of a candidate's pair. *)
Definition merge_nodes (nodes : list BpeNode) (c : BpeCandidate) (rule : MergeRule) : list BpeNode :=
  let l := node nodes (left c) in
  let r := node nodes (right c) in
  let nodes := set_node (left c) {| token_id := result_id rule; previous := previous l; next := next r;
                                    generation := u32 (generation l + 1); alive := alive l |} nodes in
  let nodes := set_node (right c) {| token_id := token_id r; previous := previous r; next := next r;
                                     generation := u32 (generation r + 1); alive := false |} nodes in
  if next r =? npos then nodes
  else set_node (next r) (with_previous (left c) (node nodes (next r))) nodes.

(** One turn of the loop, on a candidate that has been popped. *)
Definition process (nodes : list BpeNode) (c : BpeCandidate) (queue : list BpeCandidate)
    : list BpeNode * list BpeCandidate :=
  if stale nodes c then (nodes, queue) else
  match merges !! pair_key (token_id (node nodes (left c))) (token_id (node nodes (right c))) with
  | None => (nodes, queue)
  | Some rule =>
      if negb (rank rule =? candidate_rank c) then (nodes, queue) else
      let nodes := merge_nodes nodes c rule in
      (nodes, add_candidate nodes (left c) (add_candidate nodes (previous (node nodes (left c))) queue))
  end.

(** The loop: it ends when the queue is empty. *)
Fixpoint merge_loop (fuel : nat) (nodes : list BpeNode) (queue : list BpeCandidate)
    : list BpeNode * list BpeCandidate :=
  match fuel, queue with
  | S fuel, c :: queue => let '(nodes, queue) := process nodes c queue in merge_loop fuel nodes queue
  | _, _ => (nodes, queue)
  end.

(** [push_token] over the nodes from [current]: the output, and whether it
    stayed within the limit. *)
Fixpoint collect (fuel : nat) (max_tokens : Z) (nodes : list BpeNode) (current : Z) (output : list Z)
    : bool * list Z :=
  match fuel with
  | O => (true, output)
  | S fuel =>
      if current =? npos then (true, output) else
      if max_tokens <=? Z.of_nat (length output) then (false, output) else
      collect fuel max_tokens nodes (next (node nodes current)) (output ++ [token_id (node nodes current)])
  end.

(** At most three candidates per byte are ever queued. *)
Definition merge_fuel (piece : list Z) : nat := 3 * length piece.

Definition initial_queue (piece : list Z) : list BpeCandidate :=
  add_candidates (length piece - 1) 0 (initial_nodes piece) [].

Definition encode_bpe_piece (max_tokens : Z) (piece output : list Z) : bool * list Z :=
  match piece with
  | [] => (true, output)
  | _ :: _ =>
      let '(nodes, _) := merge_loop (merge_fuel piece) (initial_nodes piece) (initial_queue piece) in
      collect (S (length piece)) max_tokens nodes 0 output
  end.

(** ** The reference *)

(** The rank, position and result of the leftmost pair of lowest rank. *)
Fixpoint best_pair (tokens : list Z) : option (Z * nat * Z) :=
  match tokens with
  | a :: (b :: _) as rest =>
      match merges !! pair_key a b, best_pair rest with
      | Some rule, Some (k, i, r) => if rank rule <=? k then Some (rank rule, O, result_id rule) else Some (k, S i, r)
      | Some rule, None => Some (rank rule, O, result_id rule)
      | None, Some (k, i, r) => Some (k, S i, r)
      | None, None => None
      end
  | _ => None
  end.

Fixpoint merge_pairs (fuel : nat) (tokens : list Z) : list Z :=
  match fuel with
  | O => tokens
  | S fuel =>
      match best_pair tokens with
      | None => tokens
      | Some (_, i, r) => merge_pairs fuel (take i tokens ++ r :: drop (i + 2) tokens)
      end
  end.

Definition byte_pair_encoding (tokens : list Z) : list Z := merge_pairs (length tokens) tokens.
End Encode.

(** ** The queue *)

Lemma candidate_later_spec l r :
  candidate_later l r = true <->
  candidate_rank r < candidate_rank l \/ (candidate_rank l = candidate_rank r /\ left r < left l).
Proof. unfold candidate_later. destruct (Z.eqb_spec (candidate_rank l) (candidate_rank r)); simpl; lia. Qed.

(** Not after, in the order the queue pops. *)
Definition not_later (a b : BpeCandidate) : Prop := candidate_later a b = false.

Lemma not_later_spec a b :
  not_later a b <-> candidate_rank a < candidate_rank b \/ (candidate_rank a = candidate_rank b /\ left a <= left b).
Proof. unfold not_later. rewrite <- not_true_iff_false, candidate_later_spec. lia. Qed.

Lemma push_candidate_perm c queue : push_candidate c queue ≡ₚ c :: queue.
Proof.
  induction queue as [|d queue IH]; simpl; [done|]. destruct (candidate_later d c); [done|].
  rewrite IH. constructor.
Qed.

Lemma push_candidate_sorted c queue :
  StronglySorted not_later queue -> StronglySorted not_later (push_candidate c queue).
Proof.
  induction 1 as [|d queue Hs IH Hd]; simpl; [repeat constructor|]. destruct (candidate_later d c) eqn:Hlater.
  - constructor; [by constructor|]. apply candidate_later_spec in Hlater.
    assert (Hcd : not_later c d) by (apply not_later_spec; lia). constructor; [done|].
    eapply Forall_impl; [exact Hd|]. intros e He. rewrite not_later_spec in *. lia.
  - constructor; [done|]. rewrite push_candidate_perm. by constructor.
Qed.

(** ** Nodes *)

Lemma node_nth nodes i : node nodes i = nth (Z.to_nat i) nodes dead_node.
Proof. unfold node. destruct (Z.ltb_spec i (Z.of_nat (length nodes))); [done|]. by rewrite nth_overflow by lia. Qed.

Lemma node_set i j n nodes :
  0 <= i -> 0 <= j < Z.of_nat (length nodes) ->
  node (set_node j n nodes) i = if decide (i = j) then n else node nodes i.
Proof.
  intros Hi Hj. rewrite !node_nth. unfold set_node. rewrite !nth_lookup. case_decide as He.
  - subst i. by rewrite list_lookup_insert_eq by lia.
  - by rewrite list_lookup_insert_ne by lia.
Qed.

Lemma length_set_node i n nodes : length (set_node i n nodes) = length nodes.
Proof. apply length_insert. Qed.

(** The nodes hold the tokens at the indices [ix], linked in that order. *)
Record represents (nodes : list BpeNode) (ix : list Z) : Prop := {
  rep_sorted : StronglySorted Z.lt ix;
  rep_first : ix !! O = Some 0;
  rep_range : Forall (fun i => 0 <= i < Z.of_nat (length nodes)) ix;
  rep_length : Z.of_nat (length nodes) <= npos;
  rep_alive : forall i, 0 <= i -> alive (node nodes i) = true <-> i ∈ ix;
  rep_next : forall j a, ix !! j = Some a -> next (node nodes a) = default npos (ix !! S j);
  rep_previous : forall j a, ix !! j = Some a ->
    previous (node nodes a) = match j with O => npos | S j => default npos (ix !! j) end
}.

Definition tokens (nodes : list BpeNode) (ix : list Z) : list Z := (fun i => token_id (node nodes i)) <$> ix.

Lemma sorted_lookup_lt ix j k a b :
  StronglySorted Z.lt ix -> ix !! j = Some a -> ix !! k = Some b -> (j < k)%nat -> a < b.
Proof.
  intros Hs. revert j k. induction Hs as [|i ix Hs IH Hi]; intros [|j] [|k] Ha Hb Hjk; simpl in *; try done; try lia.
  - injection Ha as ->. rewrite Forall_forall in Hi. apply Hi. by eapply list_elem_of_lookup_2.
  - apply (IH j k); [done..|lia].
Qed.

Lemma sorted_lookup_inj ix j k a : StronglySorted Z.lt ix -> ix !! j = Some a -> ix !! k = Some a -> j = k.
Proof.
  intros Hs Hj Hk. destruct (lt_eq_lt_dec j k) as [[Hlt|]|Hlt]; [|done|].
  - pose proof (sorted_lookup_lt _ _ _ _ _ Hs Hj Hk Hlt). lia.
  - pose proof (sorted_lookup_lt _ _ _ _ _ Hs Hk Hj Hlt). lia.
Qed.

Section Correct.
Variable merges : gmap Z MergeRule.
Variable byte_token_ids : list Z.

(** Every mergeable pair is queued under its current generations. *)
Definition complete (nodes : list BpeNode) (ix : list Z) (queue : list BpeCandidate) : Prop :=
  forall j a b rule, ix !! j = Some a -> ix !! S j = Some b ->
    merges !! pair_key (token_id (node nodes a)) (token_id (node nodes b)) = Some rule ->
    {| candidate_rank := rank rule; left := a; right := b; left_generation := generation (node nodes a);
       right_generation := generation (node nodes b) |} ∈ queue.

Record queue_ok (nodes : list BpeNode) (ix : list Z) (queue : list BpeCandidate) : Prop := {
  queue_sorted : StronglySorted not_later queue;
  queue_nonneg : Forall (fun c => 0 <= left c /\ 0 <= right c) queue;
  queue_complete : complete nodes ix queue
}.

Lemma add_candidate_cases nodes l queue :
  add_candidate merges nodes l queue = queue \/
  exists c, left c = l /\ right c = next (node nodes l) /\ add_candidate merges nodes l queue = push_candidate c queue.
Proof.
  unfold add_candidate. destruct (_ || _ || _); [by left|].
  destruct (merges !! _); [|by left].
  right. eexists. split; [|split; [|reflexivity]]; reflexivity.
Qed.

Lemma add_candidate_keeps nodes l queue c : c ∈ queue -> c ∈ add_candidate merges nodes l queue.
Proof.
  intros Hc. destruct (add_candidate_cases nodes l queue) as [->|(d & _ & _ & ->)]; [done|].
  rewrite push_candidate_perm. by right.
Qed.

Lemma add_candidate_length nodes l queue :
  (length (add_candidate merges nodes l queue) <= S (length queue))%nat.
Proof.
  destruct (add_candidate_cases nodes l queue) as [->|(d & _ & _ & ->)]; [lia|]. by rewrite push_candidate_perm.
Qed.

Lemma add_candidate_sorted nodes l queue :
  StronglySorted not_later queue -> StronglySorted not_later (add_candidate merges nodes l queue).
Proof.
  intros Hs. destruct (add_candidate_cases nodes l queue) as [->|(d & _ & _ & ->)]; [done|].
  by apply push_candidate_sorted.
Qed.

Lemma add_candidate_nonneg nodes l queue :
  0 <= l -> 0 <= next (node nodes l) -> Forall (fun c => 0 <= left c /\ 0 <= right c) queue ->
  Forall (fun c => 0 <= left c /\ 0 <= right c) (add_candidate merges nodes l queue).
Proof.
  intros Hl Hn Hq. destruct (add_candidate_cases nodes l queue) as [->|(d & Hld & Hrd & ->)]; [done|].
  rewrite push_candidate_perm. apply Forall_cons. rewrite Hld, Hrd. done.
Qed.

Lemma rep_lookup_range nodes ix j a :
  represents nodes ix -> ix !! j = Some a -> 0 <= a < Z.of_nat (length nodes).
Proof.
  intros Hr Ha. pose proof (rep_range _ _ Hr) as Hrange. rewrite Forall_forall in Hrange.
  apply Hrange. by eapply list_elem_of_lookup_2.
Qed.

Lemma add_candidate_adds nodes ix j a b rule queue :
  represents nodes ix -> ix !! j = Some a -> ix !! S j = Some b ->
  merges !! pair_key (token_id (node nodes a)) (token_id (node nodes b)) = Some rule ->
  {| candidate_rank := rank rule; left := a; right := b; left_generation := generation (node nodes a);
     right_generation := generation (node nodes b) |} ∈ add_candidate merges nodes a queue.
Proof.
  intros Hr Ha Hb Hrule. unfold add_candidate. rewrite (rep_next _ _ Hr _ _ Ha), Hb. change (default npos (Some b)) with b.
  pose proof (rep_lookup_range _ _ _ _ Hr Ha). pose proof (rep_lookup_range _ _ _ _ Hr Hb).
  pose proof (rep_length _ _ Hr).
  rewrite (proj2 (rep_alive _ _ Hr a ltac:(lia))) by (by eapply list_elem_of_lookup_2).
  rewrite !(proj2 (Z.eqb_neq _ _)) by lia. cbn [orb negb]. cbv zeta. rewrite Hrule, push_candidate_perm. by left.
Qed.

(** ** The reference picks the leftmost pair of lowest rank *)

Lemma best_pair_cons a b toks :
  best_pair merges (a :: b :: toks) =
  match merges !! pair_key a b, best_pair merges (b :: toks) with
  | Some rule, Some (k, i, r) => if rank rule <=? k then Some (rank rule, O, result_id rule) else Some (k, S i, r)
  | Some rule, None => Some (rank rule, O, result_id rule)
  | None, Some (k, i, r) => Some (k, S i, r)
  | None, None => None
  end.
Proof. done. Qed.

Lemma best_pair_sound toks k i r :
  best_pair merges toks = Some (k, i, r) ->
  exists a b rule, toks !! i = Some a /\ toks !! S i = Some b /\ merges !! pair_key a b = Some rule /\
    rank rule = k /\ result_id rule = r.
Proof.
  revert k i r. induction toks as [|a toks IH]; intros k i r; [done|]. destruct toks as [|b toks]; [done|].
  rewrite best_pair_cons.
  destruct (merges !! pair_key a b) as [rule|] eqn:Hrule, (best_pair merges (b :: toks)) as [[[k' i'] r']|] eqn:Hb.
  - destruct (rank rule <=? k'); intros [= <- <- <-]; [by exists a, b, rule|].
    destruct (IH _ _ _ eq_refl) as (x & y & rule' & Hx & Hy & ?). by exists x, y, rule'.
  - intros [= <- <- <-]. by exists a, b, rule.
  - intros [= <- <- <-]. destruct (IH _ _ _ eq_refl) as (x & y & rule' & Hx & Hy & ?). by exists x, y, rule'.
  - done.
Qed.

Lemma best_pair_leftmost toks i a b rule :
  toks !! i = Some a -> toks !! S i = Some b -> merges !! pair_key a b = Some rule ->
  (forall i' a' b' rule', toks !! i' = Some a' -> toks !! S i' = Some b' -> merges !! pair_key a' b' = Some rule' ->
     rank rule < rank rule' \/ (rank rule = rank rule' /\ (i <= i')%nat)) ->
  best_pair merges toks = Some (rank rule, i, result_id rule).
Proof.
  revert toks. induction i as [|i IH]; intros toks Ha Hb Hrule Hmin; (destruct toks as [|x toks]; [done|]);
    (destruct toks as [|y toks]; [done|]); rewrite best_pair_cons.
  - simpl in Ha, Hb. injection Ha as ->. injection Hb as ->. rewrite Hrule.
    destruct (best_pair merges (b :: toks)) as [[[k i] r]|] eqn:Hbest; [|done].
    apply best_pair_sound in Hbest as (a' & b' & rule' & Ha' & Hb' & Hr' & <- & <-).
    destruct (Hmin (S i) a' b' rule' Ha' Hb' Hr') as [?|[? _]]; by rewrite (proj2 (Z.leb_le _ _)) by lia.
  - rewrite (IH (y :: toks) Ha Hb Hrule).
    2: { intros i' a' b' rule' Ha' Hb' Hr'. destruct (Hmin (S i') a' b' rule' Ha' Hb' Hr') as [?|[? ?]]; lia. }
    destruct (merges !! pair_key x y) as [rule'|] eqn:Hr'; [|done].
    destruct (Hmin O x y rule' eq_refl eq_refl Hr') as [?|[_ ?]]; [|lia].
    by rewrite (proj2 (Z.leb_gt _ _)) by lia.
Qed.

Lemma best_pair_None toks :
  (forall i a b, toks !! i = Some a -> toks !! S i = Some b -> merges !! pair_key a b = None) ->
  best_pair merges toks = None.
Proof.
  intros Hn. destruct (best_pair merges toks) as [[[k i] r]|] eqn:Hb; [|done].
  apply best_pair_sound in Hb as (a & b & rule & Ha & Hb & Hr & _). by rewrite (Hn _ _ _ Ha Hb) in Hr.
Qed.

(** ** One merge *)

Lemma stale_false nodes ix c :
  represents nodes ix -> 0 <= left c -> 0 <= right c -> stale nodes c = false <->
  exists j, ix !! j = Some (left c) /\ ix !! S j = Some (right c) /\
    generation (node nodes (left c)) = left_generation c /\ generation (node nodes (right c)) = right_generation c.
Proof.
  intros Hr Hl Hri. unfold stale. rewrite !orb_false_iff, !negb_false_iff, !Z.eqb_eq.
  rewrite !(rep_alive _ _ Hr) by done. split.
  - intros ((((Hla & Hra) & Hn) & Hg) & Hg'). apply list_elem_of_lookup_1 in Hla as [j Hj]. exists j.
    rewrite (rep_next _ _ Hr _ _ Hj) in Hn. destruct (ix !! S j) as [b|] eqn:Hb; [by simplify_eq/=|].
    apply list_elem_of_lookup_1 in Hra as [k Hk]. pose proof (rep_lookup_range _ _ _ _ Hr Hk).
    pose proof (rep_length _ _ Hr). simpl in Hn. lia.
  - intros (j & Hj & Hk & -> & ->). split_and!; try done; try (by eapply list_elem_of_lookup_2).
    by rewrite (rep_next _ _ Hr _ _ Hj), Hk.
Qed.

Lemma length_merge_nodes nodes c rule : length (merge_nodes nodes c rule) = length nodes.
Proof. unfold merge_nodes. destruct (_ =? npos); by rewrite !length_set_node. Qed.

Section Merge.
Variables (nodes : list BpeNode) (ix : list Z) (j : nat) (c : BpeCandidate) (rule : MergeRule).
Hypothesis Hrep : represents nodes ix.
Hypothesis Ha : ix !! j = Some (left c).
Hypothesis Hb : ix !! S j = Some (right c).

Lemma merge_range : 0 <= left c < Z.of_nat (length nodes) /\ 0 <= right c < Z.of_nat (length nodes) /\ left c <> right c.
Proof.
  split_and!; try (by eapply (rep_lookup_range _ _ _ _ Hrep)). intros He.
  pose proof (rep_sorted _ _ Hrep) as Hs. rewrite <- He in Hb.
  pose proof (sorted_lookup_inj _ _ _ _ Hs Ha Hb). lia.
Qed.

Lemma merge_next d : ix !! S (S j) = Some d -> next (node nodes (right c)) = d /\ d <> left c /\ d <> right c.
Proof.
  intros Hd. split; [by rewrite (rep_next _ _ Hrep _ _ Hb), Hd|]. pose proof (rep_sorted _ _ Hrep) as Hs.
  split; intros ->; [pose proof (sorted_lookup_inj _ _ _ _ Hs Hd Ha)|pose proof (sorted_lookup_inj _ _ _ _ Hs Hd Hb)]; lia.
Qed.

Lemma merge_nodes_node i :
  0 <= i -> node (merge_nodes nodes c rule) i =
  if decide (i = left c) then
    {| token_id := result_id rule; previous := previous (node nodes (left c)); next := next (node nodes (right c));
       generation := u32 (generation (node nodes (left c)) + 1); alive := alive (node nodes (left c)) |}
  else if decide (i = right c) then
    {| token_id := token_id (node nodes i); previous := previous (node nodes i); next := next (node nodes i);
       generation := u32 (generation (node nodes i) + 1); alive := false |}
  else if decide (ix !! S (S j) = Some i) then with_previous (left c) (node nodes i)
  else node nodes i.
Proof.
  intros Hi. destruct merge_range as (Hla & Hrb & Hne). unfold merge_nodes.
  pose proof (rep_length _ _ Hrep) as Hlen.
  destruct (ix !! S (S j)) as [d|] eqn:Hd.
  - destruct (merge_next d Hd) as (Hnext & Hda & Hdb). rewrite Hnext.
    pose proof (rep_lookup_range _ _ _ _ Hrep Hd). rewrite (proj2 (Z.eqb_neq _ _)) by lia.
    rewrite !node_set by (rewrite ?length_set_node; lia).
    repeat case_decide; try congruence; subst; done.
  - assert (Hnext : next (node nodes (right c)) = npos) by (by rewrite (rep_next _ _ Hrep _ _ Hb), Hd).
    rewrite (proj2 (Z.eqb_eq _ _) Hnext).
    rewrite !node_set by (rewrite ?length_set_node; lia). repeat case_decide; try congruence; subst; done.
Qed.

(** A node that stays in the list other than the left one keeps its token and
    its generation. *)
Lemma merge_nodes_kept i :
  0 <= i -> i <> left c -> i <> right c ->
  token_id (node (merge_nodes nodes c rule) i) = token_id (node nodes i) /\
  generation (node (merge_nodes nodes c rule) i) = generation (node nodes i) /\
  next (node (merge_nodes nodes c rule) i) = next (node nodes i) /\
  alive (node (merge_nodes nodes c rule) i) = alive (node nodes i).
Proof.
  intros Hi Hne1 Hne2. rewrite merge_nodes_node by done. rewrite !decide_False by done.
  by case_decide.
Qed.

Lemma merged_lookup k : delete (S j) ix !! k = if decide (k <= j)%nat then ix !! k else ix !! S k.
Proof.
  case_decide; [by rewrite list_lookup_delete_lt by lia|by rewrite list_lookup_delete_ge by lia].
Qed.

Lemma lookup_ne k l i x : ix !! k = Some i -> ix !! l = Some x -> k <> l -> i <> x.
Proof.
  intros Hk Hl Hne ->. pose proof (sorted_lookup_inj _ _ _ _ (rep_sorted _ _ Hrep) Hk Hl). done.
Qed.

Lemma delete_sorted : StronglySorted Z.lt (delete (S j) ix).
Proof.
  pose proof (rep_sorted _ _ Hrep) as Hs. clear -Hs. revert j. induction Hs as [|x l Hs IH Hx]; intros j; [constructor|].
  simpl. destruct l as [|y l]; [by destruct j; repeat constructor|].
  destruct j as [|j]; simpl.
  - apply StronglySorted_inv in Hs as [Hs _]. constructor; [done|]. by apply Forall_cons in Hx as [_ ?].
  - constructor; [apply (IH j)|]. rewrite Forall_forall in *. intros z Hz. apply Hx.
    eapply list_elem_of_lookup_1 in Hz as [k Hk]. destruct (decide (k <= j)%nat).
    + rewrite (list_lookup_delete_lt (y :: l) (S j)) in Hk by lia. by eapply list_elem_of_lookup_2.
    + rewrite (list_lookup_delete_ge (y :: l) (S j)) in Hk by lia. by eapply list_elem_of_lookup_2.
Qed.

Lemma merged_nonneg k i : ix !! k = Some i -> 0 <= i.
Proof. intros Hk. eapply rep_lookup_range in Hk; [lia|done]. Qed.

Lemma merged_entry k i :
  delete (S j) ix !! k = Some i ->
  0 <= i /\ i ∈ ix /\ i <> right c /\ (i = left c -> k = j).
Proof.
  pose proof (rep_sorted _ _ Hrep) as Hs. rewrite merged_lookup. intros Hk.
  assert (Hm : exists m, ix !! m = Some i /\ m <> S j /\ (m = j -> k = j))
    by (case_decide; [exists k|exists (S k)]; (split_and!; [done|lia|lia])).
  destruct Hm as (m & Hm & Hmj & Hmk). split_and!.
  - by eapply merged_nonneg.
  - by eapply list_elem_of_lookup_2.
  - by eapply lookup_ne.
  - intros ->. by apply Hmk, (sorted_lookup_inj _ _ _ _ Hs Hm).
Qed.

Lemma merged_alive i : 0 <= i -> alive (node (merge_nodes nodes c rule) i) = true <-> i ∈ delete (S j) ix.
Proof.
  pose proof (rep_alive _ _ Hrep) as Hal. destruct merge_range as (_ & _ & Hne). intros Hi. rewrite merge_nodes_node by done. split.
  - intros Halive. assert (Hin : i ∈ ix /\ i <> right c).
    { repeat case_decide; simpl in Halive; subst; try done;
        (split; [by apply Hal|done]) || (split; [by apply Hal|congruence]). }
    destruct Hin as [Hin Hnr]. apply list_elem_of_lookup_1 in Hin as [k Hk]. apply list_elem_of_lookup.
    destruct (decide (k <= j)%nat); [exists k; by rewrite merged_lookup, decide_True|].
    destruct k as [|k]; [lia|]. assert (k <> j) by (intros ->; congruence).
    exists k. by rewrite merged_lookup, decide_False by lia.
  - intros [k Hk]%list_elem_of_lookup_1. apply merged_entry in Hk as (_ & Hin & Hnr & _).
    apply Hal in Hin; [|done]. repeat case_decide; subst; try done; by apply Hal.
Qed.

Lemma merged_next k i :
  delete (S j) ix !! k = Some i ->
  next (node (merge_nodes nodes c rule) i) = default npos (delete (S j) ix !! S k).
Proof.
  pose proof (rep_next _ _ Hrep) as Hn. intros Hk. apply merged_entry in Hk as He. destruct He as (Hi & _ & Hir & Hil).
  rewrite merge_nodes_node by done. rewrite !merged_lookup in *. destruct (decide (i = left c)) as [->|Hne].
  - rewrite (Hil eq_refl) in *. rewrite decide_False by lia. cbn [next]. by rewrite (Hn _ _ Hb).
  - rewrite decide_False by done.
    assert (Hnext : next (node nodes i) = default npos (if decide (S k <= j)%nat then ix !! S k else ix !! S (S k))).
    { destruct (decide (k <= j)%nat) as [Hle|Hle].
      - rewrite (Hn _ _ Hk). case_decide as Hd1; [done|]. assert (k = j) as -> by lia.
        congruence.
      - rewrite (Hn _ _ Hk). by rewrite decide_False by lia. }
    destruct (decide (ix !! S (S j) = Some i)); exact Hnext.
Qed.

Lemma merged_previous k i :
  delete (S j) ix !! k = Some i ->
  previous (node (merge_nodes nodes c rule) i) =
  match k with O => npos | S k => default npos (delete (S j) ix !! k) end.
Proof.
  pose proof (rep_previous _ _ Hrep) as Hp. pose proof (rep_sorted _ _ Hrep) as Hs. intros Hk.
  apply merged_entry in Hk as He. destruct He as (Hi & _ & Hir & Hil).
  rewrite merge_nodes_node by done. rewrite !merged_lookup in *. destruct (decide (i = left c)) as [->|Hne].
  - specialize (Hil eq_refl). cbn [previous]. rewrite decide_True in Hk by lia. rewrite (Hp _ _ Hk).
    destruct k as [|k]; [done|]. by rewrite merged_lookup, decide_True by lia.
  - rewrite decide_False by done. case_decide as Hd.
    + case_decide as Hd2; [pose proof (sorted_lookup_inj _ _ _ _ Hs Hk Hd2); lia|].
      rewrite (Hp _ _ Hk). destruct k as [|k]; [done|]. by rewrite merged_lookup, decide_True by lia.
    + case_decide as Hd2.
      * assert (S k = S (S j)) as [= ->] by (by eapply sorted_lookup_inj). cbn [previous with_previous].
        rewrite merged_lookup, decide_True by lia. by rewrite Ha.
      * assert (k <> S j) by (intros ->; congruence). destruct k as [|k]; [lia|].
        rewrite merged_lookup, decide_False by lia. by rewrite (Hp _ _ Hk).
Qed.

Lemma represents_merged : represents (merge_nodes nodes c rule) (delete (S j) ix).
Proof.
  pose proof (rep_range _ _ Hrep) as Hran. rewrite Forall_forall in Hran. constructor.
  - apply delete_sorted.
  - rewrite merged_lookup, decide_True by lia. apply (rep_first _ _ Hrep).
  - rewrite length_merge_nodes. apply Forall_forall. intros i [k Hk]%list_elem_of_lookup_1.
    apply Hran. by apply merged_entry in Hk as (_ & ? & _).
  - rewrite length_merge_nodes. apply (rep_length _ _ Hrep).
  - apply merged_alive.
  - apply merged_next.
  - apply merged_previous.
Qed.
End Merge.

Lemma merge_list (l : list Z) j r :
  (S j < length l)%nat -> delete (S j) (<[j:=r]> l) = take j l ++ r :: drop (j + 2) l.
Proof.
  intros Hj. rewrite delete_take_drop. rewrite drop_insert_lt by lia. replace (j + 2)%nat with (S (S j)) by lia.
  rewrite (take_S_r _ j r) by (apply list_lookup_insert_eq; lia). rewrite take_insert_ge by lia. by rewrite <- app_assoc.
Qed.

Lemma tokens_lookup nodes ix k : tokens nodes ix !! k = (fun i => token_id (node nodes i)) <$> (ix !! k).
Proof. apply list_lookup_fmap. Qed.

Lemma tokens_merged nodes ix j c rule :
  represents nodes ix -> ix !! j = Some (left c) -> ix !! S j = Some (right c) ->
  tokens (merge_nodes nodes c rule) (delete (S j) ix) =
  take j (tokens nodes ix) ++ result_id rule :: drop (j + 2) (tokens nodes ix).
Proof.
  intros Hr Ha Hb. assert (Hlen : (S j < length ix)%nat) by (by eapply lookup_lt_Some).
  rewrite <- merge_list by (unfold tokens; by rewrite length_fmap).
  apply list_eq. intros k. rewrite tokens_lookup, (merged_lookup ix j).
  assert (Hdel : delete (S j) (<[j:=result_id rule]> (tokens nodes ix)) !! k =
    if decide (k <= j)%nat then <[j:=result_id rule]> (tokens nodes ix) !! k
    else <[j:=result_id rule]> (tokens nodes ix) !! S k).
  { case_decide; [by rewrite list_lookup_delete_lt by lia|by rewrite list_lookup_delete_ge by lia]. }
  rewrite Hdel. clear Hdel. destruct (merge_range _ _ _ _ Hr Ha Hb) as (Hla & Hrb & Hne).
  destruct (decide (k = j)) as [->|Hkj].
  { rewrite !decide_True by lia. rewrite Ha, list_lookup_insert_eq by (unfold tokens; rewrite length_fmap; lia).
    simpl. f_equal. rewrite (merge_nodes_node _ _ j _ rule Hr Ha Hb) by lia. by rewrite decide_True. }
  assert (Hkept : forall m, m <> j -> m <> S j ->
    (fun i => token_id (node (merge_nodes nodes c rule) i)) <$> (ix !! m) =
    <[j:=result_id rule]> (tokens nodes ix) !! m).
  { intros m Hm1 Hm2. rewrite list_lookup_insert_ne, tokens_lookup by lia. destruct (ix !! m) as [i|] eqn:Hi; [|done].
    simpl. f_equal. pose proof (rep_lookup_range _ _ _ _ Hr Hi).
    apply (merge_nodes_kept _ _ j _ rule Hr Ha Hb); [lia| |].
    - exact (lookup_ne _ _ Hr _ _ _ _ Hi Ha Hm1).
    - exact (lookup_ne _ _ Hr _ _ _ _ Hi Hb Hm2). }
  case_decide; apply Hkept; lia.
Qed.

(** After a merge, the pairs on both sides of the new token are queued and the
    others were. *)
Lemma complete_merged nodes ix j c rule queue :
  represents nodes ix -> ix !! j = Some (left c) -> ix !! S j = Some (right c) ->
  complete nodes ix (c :: queue) ->
  let nodes' := merge_nodes nodes c rule in
  complete nodes' (delete (S j) ix)
    (add_candidate merges nodes' (left c) (add_candidate merges nodes' (previous (node nodes' (left c))) queue)).
Proof.
  intros Hr Ha Hb Hc nodes' k a b rule' Hka Hkb Hrule.
  pose proof (represents_merged _ _ j _ rule Hr Ha Hb) as Hr'. fold nodes' in Hr'.
  assert (Hleft : delete (S j) ix !! j = Some (left c)) by (by rewrite (merged_lookup ix j), decide_True by lia).
  destruct (decide (k = j)) as [->|Hkj].
  { assert (a = left c) as -> by congruence. by eapply add_candidate_adds. }
  apply add_candidate_keeps. destruct (decide (S k = j)) as [Hsk|Hsk].
  { assert (b = left c) as -> by (rewrite Hsk in Hkb; congruence).
    rewrite (rep_previous _ _ Hr' _ _ Hkb), Hka. change (default npos (Some a)) with a.
    by eapply add_candidate_adds. }
  apply add_candidate_keeps. rewrite (merged_lookup ix j) in Hka, Hkb.
  assert (Hpair : exists m, ix !! m = Some a /\ ix !! S m = Some b /\ m <> j /\ S m <> j /\ m <> S j).
  { destruct (decide (k <= j)%nat).
    - rewrite decide_True in Hkb by lia. exists k. split_and!; [done|done|lia|lia|lia].
    - rewrite decide_False in Hkb by lia. exists (S k). split_and!; [done|done|lia|lia|lia]. }
  destruct Hpair as (m & Hma & Hmb & Hm1 & Hm2 & Hm3).
  pose proof (rep_lookup_range _ _ _ _ Hr Hma). pose proof (rep_lookup_range _ _ _ _ Hr Hmb).
  destruct (merge_nodes_kept _ _ j _ rule Hr Ha Hb a ltac:(lia)
    (lookup_ne _ _ Hr _ _ _ _ Hma Ha Hm1) (lookup_ne _ _ Hr _ _ _ _ Hma Hb Hm3)) as (Hta & Hga & _).
  destruct (merge_nodes_kept _ _ j _ rule Hr Ha Hb b ltac:(lia)
    (lookup_ne _ _ Hr _ _ _ _ Hmb Ha Hm2) (lookup_ne _ _ Hr _ _ _ _ Hmb Hb ltac:(lia))) as (Htb & Hgb & _).
  fold nodes' in Hta, Hga, Htb, Hgb. rewrite Hta, Htb in Hrule. rewrite Hga, Hgb.
  pose proof (Hc m a b rule' Hma Hmb Hrule) as Hin. apply elem_of_cons in Hin as [Heq|Hin]; [|done].
  exfalso. apply (lookup_ne _ _ Hr _ _ _ _ Hma Ha Hm1). by rewrite <- Heq.
Qed.

(** A popped candidate is either dropped, or its pair is the one the reference
    merges. *)
Lemma process_spec nodes ix c queue :
  represents nodes ix -> queue_ok nodes ix (c :: queue) ->
  let '(nodes', queue') := process merges nodes c queue in
  (nodes' = nodes /\ queue' = queue /\ queue_ok nodes ix queue) \/
  exists ix' rank_ i r,
    represents nodes' ix' /\ queue_ok nodes' ix' queue' /\ S (length ix') = length ix /\
    (length queue' <= S (S (length queue)))%nat /\
    best_pair merges (tokens nodes ix) = Some (rank_, i, r) /\
    tokens nodes' ix' = take i (tokens nodes ix) ++ r :: drop (i + 2) (tokens nodes ix).
Proof.
  intros Hr [Hs Hnn Hc]. apply StronglySorted_inv in Hs as [Hs Hmin]. apply Forall_cons in Hnn as [[Hl Hri] Hnn].
  assert (Hdrop : (forall rule, merges !! pair_key (token_id (node nodes (left c))) (token_id (node nodes (right c))) = Some rule ->
    stale nodes c = true \/ rank rule <> candidate_rank c) -> queue_ok nodes ix queue).
  { intros Hbad. constructor; [done|done|]. intros k a b rule Ha Hb Hrule.
    pose proof (Hc k a b rule Ha Hb Hrule) as Hin. apply elem_of_cons in Hin as [<-|Hin]; [|done].
    destruct (Hbad rule Hrule) as [Hst|]; [|done]. exfalso. apply not_false_iff_true in Hst. apply Hst.
    apply (stale_false nodes ix); [done..|]. by exists k. }
  unfold process. destruct (stale nodes c) eqn:Hst.
  { left. split_and!; [done..|]. apply Hdrop. by left. }
  destruct (merges !! _) as [rule|] eqn:Hrule; [|left; split_and!; [done..|]; by apply Hdrop].
  destruct (Z.eqb_spec (rank rule) (candidate_rank c)) as [Hrank|Hrank]; cbn [negb].
  2: { left. split_and!; [done..|]. apply Hdrop. intros rule' [= ->]. by right. }
  right. apply (stale_false nodes ix) in Hst as (j & Ha & Hb & _ & _); [|done..].
  pose proof (represents_merged _ _ j _ rule Hr Ha Hb) as Hr'.
  pose proof (rep_lookup_range _ _ _ _ Hr Ha) as Hla.
  assert (Hj : (S j < length ix)%nat) by (by eapply lookup_lt_Some).
  assert (Hnext : forall i, i ∈ delete (S j) ix -> 0 <= next (node (merge_nodes nodes c rule) i)).
  { intros i [k Hk]%list_elem_of_lookup_1. rewrite (rep_next _ _ Hr' _ _ Hk).
    destruct (delete (S j) ix !! S k) eqn:Hd; [by apply (rep_lookup_range _ _ _ _ Hr' Hd)|]. simpl. unfold npos, u64_max. lia. }
  assert (Hleft : delete (S j) ix !! j = Some (left c)) by (by rewrite (merged_lookup ix j), decide_True by lia).
  exists (delete (S j) ix), (rank rule), j, (result_id rule). split_and!; [done| | | | |].
  - constructor.
    + by do 2 apply add_candidate_sorted.
    + apply add_candidate_nonneg; [lia|apply Hnext; by eapply list_elem_of_lookup_2|].
      rewrite (rep_previous _ _ Hr' _ _ Hleft). destruct j as [|j].
      { unfold add_candidate. by rewrite Z.eqb_refl. }
      destruct (delete (S (S j)) ix !! j) as [p|] eqn:Hp.
      * apply add_candidate_nonneg; [simpl; by apply (rep_lookup_range _ _ _ _ Hr' Hp)| |done].
        apply Hnext. by eapply list_elem_of_lookup_2.
      * done.
    + by apply complete_merged.
  - rewrite length_delete by (by eexists). lia.
  - etrans; [apply add_candidate_length|]. apply le_n_S, add_candidate_length.
  - apply best_pair_leftmost with (token_id (node nodes (left c))) (token_id (node nodes (right c))).
    + by rewrite tokens_lookup, Ha.
    + by rewrite tokens_lookup, Hb.
    + done.
    + intros k x y rule' Hx Hy Hrule'. rewrite tokens_lookup in Hx, Hy.
      destruct (ix !! k) as [a|] eqn:Hka; [|done]. destruct (ix !! S k) as [b|] eqn:Hkb; [|done]. simplify_eq/=.
      pose proof (Hc k a b rule' Hka Hkb Hrule') as Hin.
      assert (Hle : candidate_rank c < rank rule' \/ (candidate_rank c = rank rule' /\ left c <= a)).
      { apply elem_of_cons in Hin as [<-|Hin]; [right; simpl; lia|]. rewrite Forall_forall in Hmin.
        apply Hmin, not_later_spec in Hin. done. }
      rewrite Hrank. destruct Hle as [?|[? Hle]]; [by left|]. right. split; [done|].
      destruct (decide (k < j)%nat) as [Hkj|]; [|lia].
      pose proof (sorted_lookup_lt _ _ _ _ _ (rep_sorted _ _ Hr) Hka Ha Hkj). lia.
  - by apply tokens_merged.
Qed.

(** ** The loop *)

Definition normal (toks : list Z) : Prop := best_pair merges toks = None.

Lemma merge_pairs_normal fuel toks : normal toks -> merge_pairs merges fuel toks = toks.
Proof. intros Hn. destruct fuel; [done|]. simpl. by rewrite Hn. Qed.

Lemma complete_nil nodes ix : complete nodes ix [] -> normal (tokens nodes ix).
Proof.
  intros Hc. apply best_pair_None. intros i a b Ha Hb. rewrite tokens_lookup in Ha, Hb.
  destruct (ix !! i) as [x|] eqn:Hx; [|done]. destruct (ix !! S i) as [y|] eqn:Hy; [|done]. simplify_eq/=.
  destruct (merges !! _) as [rule|] eqn:Hr; [|done].
  by pose proof (Hc i x y rule Hx Hy Hr) as ?%not_elem_of_nil.
Qed.

Lemma represents_length nodes ix : represents nodes ix -> (1 <= length ix)%nat.
Proof. intros Hr. pose proof (rep_first _ _ Hr). destruct ix; [done|simpl; lia]. Qed.

(** With three turns per token the queue is emptied, and the list that is
    left is the reference's. *)
Lemma merge_loop_spec fuel nodes ix queue m :
  represents nodes ix -> queue_ok nodes ix queue -> (length ix <= m)%nat ->
  (2 * length ix + length queue <= fuel + 2)%nat ->
  let '(nodes', queue') := merge_loop merges fuel nodes queue in
  queue' = [] /\ exists ix', represents nodes' ix' /\ (length ix' <= length ix)%nat /\
    length nodes' = length nodes /\
    normal (tokens nodes' ix') /\ merge_pairs merges m (tokens nodes ix) = tokens nodes' ix'.
Proof.
  revert nodes ix queue m. induction fuel as [|fuel IH]; intros nodes ix queue m Hr Hq Hm Hfuel;
    pose proof (represents_length _ _ Hr); destruct queue as [|c queue].
  1,3: split; [done|]; exists ix; pose proof (complete_nil _ _ (queue_complete _ _ _ Hq));
    split_and!; [done..|by apply merge_pairs_normal].
  { simpl in Hfuel. lia. }
  cbn [merge_loop]. pose proof (process_spec nodes ix c queue Hr Hq) as Hstep.
  assert (Hlen : length (fst (process merges nodes c queue)) = length nodes).
  { unfold process. destruct (stale _ _); [done|]. destruct (merges !! _); [|done]. destruct (negb _); [done|].
    apply length_merge_nodes. }
  destruct (process merges nodes c queue) as [nodes1 queue1]. simpl in Hlen.
  destruct Hstep as [(-> & -> & Hq1)|(ix1 & k & i & r & Hr1 & Hq1 & Hl1 & Hlq & Hbest & Htok)].
  - apply IH; [done..|simpl in Hfuel; lia].
  - destruct m as [|m]; [lia|]. specialize (IH nodes1 ix1 queue1 m Hr1 Hq1 ltac:(lia) ltac:(simpl in Hfuel; lia)).
    destruct (merge_loop merges fuel nodes1 queue1) as [nodes2 queue2].
    destruct IH as (-> & ix2 & Hr2 & Hl2 & Hn2 & Hnorm & Heq). split; [done|]. exists ix2.
    split_and!; [done|lia|congruence|done|]. cbn [merge_pairs]. by rewrite Hbest, <- Htok.
Qed.

(** ** The initial state *)

Lemma initial_node_at piece i byte :
  piece !! i = Some byte ->
  node (initial_nodes byte_token_ids piece) (Z.of_nat i) =
  initial_node byte_token_ids (Z.of_nat (length piece)) (Z.of_nat i) byte.
Proof.
  intros Hb. rewrite node_nth. unfold initial_nodes. rewrite Nat2Z.id, nth_lookup, list_lookup_imap, Hb. done.
Qed.

Definition indices (n : nat) : list Z := Z.of_nat <$> seq 0 n.

Lemma indices_lookup n i : indices n !! i = if decide (i < n)%nat then Some (Z.of_nat i) else None.
Proof.
  unfold indices. rewrite list_lookup_fmap. case_decide.
  - by rewrite lookup_seq_lt by lia.
  - by rewrite lookup_seq_ge by lia.
Qed.

Lemma represents_initial piece :
  piece <> [] -> Z.of_nat (length piece) <= npos ->
  represents (initial_nodes byte_token_ids piece) (indices (length piece)).
Proof.
  intros Hne Hlen. assert (Hl : length (initial_nodes byte_token_ids piece) = length piece) by apply length_imap.
  assert (Hat : forall i, (i < length piece)%nat -> exists byte, piece !! i = Some byte)
    by (intros i Hi; by apply lookup_lt_is_Some).
  assert (Hin : forall i, i ∈ indices (length piece) <-> 0 <= i < Z.of_nat (length piece)).
  { intros i. unfold indices. rewrite list_elem_of_fmap. split.
    - intros (k & -> & Hk%elem_of_seq). lia.
    - intros Hi. exists (Z.to_nat i). rewrite elem_of_seq. lia. }
  assert (Hlook : forall j a, indices (length piece) !! j = Some a -> a = Z.of_nat j /\ (j < length piece)%nat).
  { intros j a Ha. rewrite indices_lookup in Ha. by case_decide; simplify_eq. }
  constructor.
  - unfold indices. clear. generalize O. induction (length piece) as [|n IH]; intros k; [constructor|].
    simpl. constructor; [apply IH|]. apply Forall_forall. intros x (y & -> & Hy%elem_of_seq)%list_elem_of_fmap. lia.
  - rewrite indices_lookup, decide_True; [done|]. destruct piece; [done|simpl; lia].
  - apply Forall_forall. intros i Hi%Hin. by rewrite Hl.
  - by rewrite Hl.
  - intros i Hi. rewrite Hin. split.
    + intros Hal. destruct (decide (i < Z.of_nat (length piece))); [done|].
      rewrite node_nth, nth_overflow in Hal by lia. done.
    + intros [_ Hlt]. destruct (Hat (Z.to_nat i) ltac:(lia)) as [byte Hb].
      rewrite <- (Z2Nat.id i), (initial_node_at _ _ _ Hb) by done. done.
  - intros j a [-> Hj]%Hlook. destruct (Hat _ Hj) as [byte Hb]. rewrite (initial_node_at _ _ _ Hb), indices_lookup.
    cbn [initial_node next]. case_decide.
    + rewrite (proj2 (Z.ltb_lt _ _)) by lia. simpl. lia.
    + by rewrite (proj2 (Z.ltb_ge _ _)) by lia.
  - intros j a [-> Hj]%Hlook. destruct (Hat _ Hj) as [byte Hb]. rewrite (initial_node_at _ _ _ Hb).
    cbn [initial_node previous]. destruct j as [|j]; [done|]. rewrite (proj2 (Z.eqb_neq _ _)) by lia.
    rewrite indices_lookup, decide_True by lia. simpl. lia.
Qed.

Lemma tokens_initial piece :
  tokens (initial_nodes byte_token_ids piece) (indices (length piece)) = at_ byte_token_ids <$> piece.
Proof.
  apply list_eq. intros i. rewrite tokens_lookup, list_lookup_fmap, indices_lookup. case_decide as Hi.
  - apply lookup_lt_is_Some in Hi as [byte Hb]. simpl. by rewrite (initial_node_at _ _ _ Hb), Hb.
  - by rewrite (lookup_ge_None_2 piece) by lia.
Qed.

Lemma add_candidates_spec n index nodes ix queue :
  represents nodes ix -> (forall j a, ix !! j = Some a -> a = Z.of_nat j) ->
  (index + n < length ix)%nat -> StronglySorted not_later queue ->
  Forall (fun c => 0 <= left c /\ 0 <= right c) queue ->
  let queue' := add_candidates merges n (Z.of_nat index) nodes queue in
  StronglySorted not_later queue' /\ Forall (fun c => 0 <= left c /\ 0 <= right c) queue' /\
  (length queue' <= length queue + n)%nat /\ (forall c, c ∈ queue -> c ∈ queue') /\
  forall j a b rule, (index <= j < index + n)%nat -> ix !! j = Some a -> ix !! S j = Some b ->
    merges !! pair_key (token_id (node nodes a)) (token_id (node nodes b)) = Some rule ->
    {| candidate_rank := rank rule; left := a; right := b; left_generation := generation (node nodes a);
       right_generation := generation (node nodes b) |} ∈ queue'.
Proof.
  intros Hr Hix. revert index queue. induction n as [|n IH]; intros index queue Hn Hs Hnn; simpl.
  { split_and!; [done|done|lia|done|]. intros. lia. }
  replace (Z.of_nat index + 1) with (Z.of_nat (S index)) by lia.
  destruct (lookup_lt_is_Some_2 ix index ltac:(lia)) as [a Ha]. pose proof (Hix _ _ Ha) as ->.
  destruct (lookup_lt_is_Some_2 ix (S index) ltac:(lia)) as [b Hb].
  specialize (IH (S index) (add_candidate merges nodes (Z.of_nat index) queue) ltac:(lia)
    (add_candidate_sorted _ _ _ Hs)) as (IH1 & IH2 & IH3 & IH4 & IH5).
  { apply add_candidate_nonneg; [lia| |done]. rewrite (rep_next _ _ Hr _ _ Ha), Hb.
    by apply (rep_lookup_range _ _ _ _ Hr Hb). }
  pose proof (add_candidate_length nodes (Z.of_nat index) queue). split_and!; [done|done|lia| |].
  - intros c Hc. by apply IH4, add_candidate_keeps.
  - intros j a' b' rule Hj Ha' Hb' Hrule. destruct (decide (j = index)) as [->|].
    + rewrite Ha in Ha'. injection Ha' as <-. apply IH4. by eapply add_candidate_adds.
    + apply IH5 with j; [lia|done..].
Qed.

Lemma initial_queue_ok piece :
  piece <> [] -> Z.of_nat (length piece) <= npos ->
  queue_ok (initial_nodes byte_token_ids piece) (indices (length piece)) (initial_queue merges byte_token_ids piece) /\
  (length (initial_queue merges byte_token_ids piece) <= length piece - 1)%nat.
Proof.
  intros Hne Hlen. pose proof (represents_initial piece Hne Hlen) as Hr.
  assert (Hl : length (indices (length piece)) = length piece) by (unfold indices; by rewrite length_fmap, length_seq).
  assert (Hpos : (1 <= length piece)%nat) by (destruct piece; [done|simpl; lia]).
  destruct (add_candidates_spec (length piece - 1) 0 (initial_nodes byte_token_ids piece) (indices (length piece)) []
    Hr) as (Hs & Hnn & Hlq & _ & Hall).
  - intros j a Ha. rewrite indices_lookup in Ha. by case_decide; simplify_eq.
  - lia.
  - constructor.
  - constructor.
  - split; [|exact Hlq]. constructor; [done|done|]. intros j a b rule Ha Hb Hrule.
    apply (Hall j); [|done..]. apply lookup_lt_Some in Hb as Hlt. lia.
Qed.

(** ** Reading the list off *)

Lemma collect_spec nodes ix j fuel max_tokens output :
  represents nodes ix -> (length ix - j < fuel)%nat ->
  collect fuel max_tokens nodes (default npos (ix !! j)) output =
  if Z.of_nat (length output) + Z.of_nat (length ix - j) <=? Z.max max_tokens (Z.of_nat (length output))
  then (true, output ++ drop j (tokens nodes ix))
  else (false, output ++ take (Z.to_nat (max_tokens - Z.of_nat (length output))) (drop j (tokens nodes ix))).
Proof.
  intros Hr. assert (Hlt : length (tokens nodes ix) = length ix) by apply length_fmap.
  revert j output. induction fuel as [|fuel IH]; intros j output Hf; [lia|].
  cbn [collect]. destruct (ix !! j) as [a|] eqn:Ha.
  - pose proof (rep_lookup_range _ _ _ _ Hr Ha). pose proof (rep_length _ _ Hr).
    change (default npos (Some a)) with a. rewrite (proj2 (Z.eqb_neq _ _)) by lia.
    apply lookup_lt_Some in Ha as Hj. destruct (Z.leb_spec max_tokens (Z.of_nat (length output))).
    + rewrite (proj2 (Z.leb_gt _ _)) by lia.
      replace (Z.to_nat (max_tokens - Z.of_nat (length output))) with O by lia. by rewrite take_0, app_nil_r.
    + rewrite (rep_next _ _ Hr _ _ Ha), IH by lia. rewrite length_app. cbn [length].
      rewrite (drop_S (tokens nodes ix) (token_id (node nodes a)) j) by (by rewrite tokens_lookup, Ha).
      rewrite Nat2Z.inj_add, <- !app_assoc.
      replace (Z.of_nat (length output) + Z.of_nat 1 + Z.of_nat (length ix - S j))
        with (Z.of_nat (length output) + Z.of_nat (length ix - j)) by lia.
      replace (Z.max max_tokens (Z.of_nat (length output) + Z.of_nat 1))
        with (Z.max max_tokens (Z.of_nat (length output))) by lia.
      destruct (_ <=? _); [done|]. do 2 f_equal.
      replace (Z.to_nat (max_tokens - Z.of_nat (length output))) with
        (S (Z.to_nat (max_tokens - (Z.of_nat (length output) + Z.of_nat 1)))) by lia. done.
  - change (default npos None) with npos. rewrite Z.eqb_refl. apply lookup_ge_None in Ha as Hj.
    rewrite (proj2 (Z.leb_le _ _)) by lia. by rewrite drop_ge, app_nil_r by lia.
Qed.

Lemma encode_bpe_piece_exact max_tokens piece output :
  Z.of_nat (length piece) <= npos ->
  let result := byte_pair_encoding merges (at_ byte_token_ids <$> piece) in
  snd (merge_loop merges (merge_fuel piece) (initial_nodes byte_token_ids piece)
         (initial_queue merges byte_token_ids piece)) = [] /\
  normal result /\
  encode_bpe_piece merges byte_token_ids max_tokens piece output =
  if Z.of_nat (length output + length result) <=? Z.max max_tokens (Z.of_nat (length output))
  then (true, output ++ result)
  else (false, output ++ take (Z.to_nat (max_tokens - Z.of_nat (length output))) result).
Proof.
  intros Hlen result. destruct (decide (piece = [])) as [->|Hne].
  { split_and!; [done..|]. simpl. rewrite (proj2 (Z.leb_le _ _)) by lia. by rewrite app_nil_r. }
  pose proof (represents_initial piece Hne Hlen) as Hr. destruct (initial_queue_ok piece Hne Hlen) as [Hq Hlq].
  assert (Hl : length (indices (length piece)) = length piece) by (unfold indices; by rewrite length_fmap, length_seq).
  pose proof (merge_loop_spec (merge_fuel piece) _ _ _ (length piece) Hr Hq ltac:(lia)
    ltac:(unfold merge_fuel; lia)) as Hloop.
  unfold encode_bpe_piece. destruct piece as [|byte piece]; [done|]. set (p := byte :: piece) in *.
  destruct (merge_loop _ _ _ _) as [nodes queue]. destruct Hloop as (-> & ix & Hrep & Hix & _ & Hnorm & Heq).
  split; [done|]. rewrite tokens_initial in Heq.
  assert (Hres : result = tokens nodes ix) by (subst result; unfold byte_pair_encoding; by rewrite length_fmap, Heq).
  split; [by rewrite Hres|].
  pose proof (collect_spec nodes ix 0 (S (length p)) max_tokens output Hrep ltac:(lia)) as Hcol.
  rewrite (rep_first _ _ Hrep) in Hcol. change (default npos (Some 0)) with 0 in Hcol. rewrite Hcol, drop_0, <- Hres.
  rewrite Nat.sub_0_r. replace (length ix) with (length result) by (rewrite Hres; apply length_fmap).
  by rewrite Nat2Z.inj_add.
Qed.
End Correct.

(** ** Properties *)

(** C36. The encoder of a piece computes byte-pair encoding.  Its loop empties
    the candidate queue within three turns per byte, although stale candidates
    stay in it; the tokens it appends are those of the reference, which merges
    the leftmost pair of lowest rank until no pair can be merged; and when the
    token limit is reached it has appended exactly the tokens that fit and
    reports the failure. *)
Theorem encode_bpe_piece_correct merges byte_token_ids max_tokens piece output :
  Z.of_nat (length piece) <= npos ->
  let result := byte_pair_encoding merges (at_ byte_token_ids <$> piece) in
  snd (merge_loop merges (merge_fuel piece) (initial_nodes byte_token_ids piece)
         (initial_queue merges byte_token_ids piece)) = [] /\
  best_pair merges result = None /\
  encode_bpe_piece merges byte_token_ids max_tokens piece output =
  if Z.of_nat (length output + length result) <=? Z.max max_tokens (Z.of_nat (length output))
  then (true, output ++ result)
  else (false, output ++ take (Z.to_nat (max_tokens - Z.of_nat (length output))) result).
Proof. apply encode_bpe_piece_exact. Qed.

(** Tokens 0, 1, 2 for the bytes; [1 2] merges first, then [0 1] and [0 3]. *)
Definition sample_merges : gmap Z MergeRule :=
  <[pair_key 1 2 := {| rank := 0; result_id := 3 |}]>
  (<[pair_key 0 1 := {| rank := 1; result_id := 4 |}]>
  (<[pair_key 0 3 := {| rank := 2; result_id := 5 |}]> ∅)).

Lemma encode_bpe_piece_correct_witness :
  encode_bpe_piece sample_merges [0; 1; 2] 100 [0; 1; 0; 1; 2; 1; 2] [7] = (true, [7; 4; 5; 3]).
Proof.
  destruct (encode_bpe_piece_correct sample_merges [0; 1; 2] 100 [0; 1; 0; 1; 2; 1; 2] [7]) as (_ & _ & He).
  - vm_compute. discriminate.
  - rewrite He. vm_compute. reflexivity.
Defined.
