(* ===== verification/Tokenizer.v ===== *)
(** * Tokenizer: loading, encoding, decoding and chat formatting
      (src/text/tokenizer.cpp, include/q3x/text/tokenizer.h)

    The ICU library is a parameter: what its normalizer, regular expression
    matcher and string class answer.  The sizes, contents and digest the
    source pins are a record, [pinned], so that small tokenizers can be built
    as well.  An error keeps its code and offset; its message is left out, and
    memory is never exhausted. *)

From Stdlib Require Import String.
From stdpp Require Import gmap.
From S2P Require Import Prelude OrderedMap Json Sha256 Bpe.

Definition kAbsoluteTokenizerBytes : Z := 100000000.
Definition kAbsoluteVocabSize : Z := 1000000.
Definition kAbsoluteMerges : Z := 2000000.
Definition kAbsoluteAddedTokens : Z := 4096.
Definition kAbsoluteInputBytes : Z := 64000000.
Definition kAbsoluteTokens : Z := 16000000.
Definition kAbsoluteChatMessages : Z := 16384.

Definition kPretokenizeRegex : list Z := lit (String.append
  "(?i:'s|'t|'re|'ve|'m|'ll|'d)|[^\r\n\p{L}\p{N}]?" (String.append
  "[\p{L}\p{M}]+|\p{N}| ?[^\s\p{L}\p{M}\p{N}]+"
  "[\r\n]*|\s*[\r\n]+|\s+(?!\S)|\s+")).

Record TokenizerLimits := {
  max_tokenizer_bytes : Z;
  max_vocab_size : Z;
  max_merges : Z;
  max_added_tokens : Z;
  max_input_bytes : Z;
  max_tokens : Z;
  max_chat_messages : Z
}.

Inductive TokenizerErrorCode :=
  | kInvalidArgument | kIoError | kTokenizerTooLarge | kJsonError | kSchemaMismatch | kUnsupportedRevision
  | kInvalidUtf8 | kUnicodeError | kRegexError | kInvalidVocabulary | kInvalidMerge | kInputTooLarge
  | kTooManyTokens | kInvalidTokenId | kUnsupportedChat | kAllocationFailure | kInternalError.

Record TokenizerError := { error_code : TokenizerErrorCode; error_offset : Z }.

(** [set_error] without an offset. *)
Definition error_ (c : TokenizerErrorCode) : TokenizerError := {| error_code := c; error_offset := 0 |}.

Record AddedToken := { added_id : Z; token_content : list Z; special : bool }.

Record TokenizerData := {
  limits : TokenizerLimits;
  vocabulary : gmap (list Z) Z;
  id_to_token : list (list Z);
  merges : gmap Z MergeRule;
  added_tokens : list AddedToken;
  added_by_id : gmap Z nat;
  byte_encoder : list (list Z);
  byte_token_ids : list Z;
  byte_decoder : gmap Z Z
}.

(** What the source pins of the one tokenizer it accepts. *)
Record Pins := {
  kPinnedBaseVocabularySize : Z;
  kPinnedMergeCount : Z;
  expected_contents : list (list Z);
  expected_specials : Z;
  kPinnedTokenizerSha256 : list Z
}.

Definition pinned : Pins := {|
  kPinnedBaseVocabularySize := 248044;
  kPinnedMergeCount := 247587;
  expected_contents :=
    [lit "<|endoftext|>"; lit "<|im_start|>"; lit "<|im_end|>"; lit "<|object_ref_start|>";
     lit "<|object_ref_end|>"; lit "<|box_start|>"; lit "<|box_end|>"; lit "<|quad_start|>"; lit "<|quad_end|>";
     lit "<|vision_start|>"; lit "<|vision_end|>"; lit "<|vision_pad|>"; lit "<|image_pad|>"; lit "<|video_pad|>";
     lit "<tool_call>"; lit "</tool_call>"; lit "<|fim_prefix|>"; lit "<|fim_middle|>"; lit "<|fim_suffix|>";
     lit "<|fim_pad|>"; lit "<|repo_name|>"; lit "<|file_sep|>"; lit "<tool_response>"; lit "</tool_response>";
     lit "<think>"; lit "</think>"];
  expected_specials := 14;
  kPinnedTokenizerSha256 := lit "5f9e4d4901a92b997e463c1f46055088b6cca5ca61a6522d1b9f64c4bb81cb42"
|}.

Definition fail {A} (c : TokenizerErrorCode) : TokenizerError + A := inl (error_ c).

(** Fail with [c] unless [b]. *)
Definition require (b : bool) (c : TokenizerErrorCode) : TokenizerError + unit := if b then inr tt else fail c.

Definition validate_limits (l : TokenizerLimits) : TokenizerError + unit :=
  let nonzero := negb (max_tokenizer_bytes l =? 0) && negb (max_vocab_size l =? 0) && negb (max_merges l =? 0)
    && negb (max_added_tokens l =? 0) && negb (max_input_bytes l =? 0) && negb (max_tokens l =? 0)
    && negb (max_chat_messages l =? 0) in
  let bounded := (max_tokenizer_bytes l <=? kAbsoluteTokenizerBytes) && (max_vocab_size l <=? kAbsoluteVocabSize)
    && (max_merges l <=? kAbsoluteMerges) && (max_added_tokens l <=? kAbsoluteAddedTokens)
    && (max_input_bytes l <=? kAbsoluteInputBytes) && (max_tokens l <=? kAbsoluteTokens)
    && (max_chat_messages l <=? kAbsoluteChatMessages) in
  require (nonzero && bounded) kInvalidArgument.

Definition read_file (open : disk) (path : list Z) (max_bytes : Z) : TokenizerError + list Z :=
  if bool_decide (path = []) then fail kInvalidArgument else
  match open path with
  | None => fail kIoError
  | Some stream =>
      if tell_end stream <? 0 then fail kIoError else
      let size := u64 (tell_end stream) in
      if (max_bytes <? size) || (u64_max <? size) then fail kTokenizerTooLarge else
      if negb (rewinds stream) || (Z.of_nat (length (content stream)) <? size) then fail kIoError else
      inr (take (Z.to_nat size) (content stream))
  end.

(** ** The schema *)

Definition exact_keys (value : Value) (keys : list (list Z)) : TokenizerError + unit :=
  match as_object value with
  | None => fail kSchemaMismatch
  | Some members =>
      if negb (bool_decide (length members = length keys)) then fail kSchemaMismatch else
      require (forallb (fun key => bool_decide (map_find key members <> None)) keys) kSchemaMismatch
  end.

Definition require_string (object : Value) (key expected : list Z) : TokenizerError + unit :=
  match value ← Json.find object key; as_string value with
  | Some text => require (bool_decide (text = expected)) kSchemaMismatch
  | None => fail kSchemaMismatch
  end.

Definition require_bool (object : Value) (key : list Z) (expected : bool) : TokenizerError + unit :=
  match value ← Json.find object key; as_bool value with
  | Some boolean => require (bool_decide (boolean = expected)) kSchemaMismatch
  | None => fail kSchemaMismatch
  end.

Definition require_null (object : Value) (key : list Z) : TokenizerError + unit :=
  match Json.find object key with
  | Some value => require (is_null value) kSchemaMismatch
  | None => fail kSchemaMismatch
  end.

(** A member that must be present. *)
Definition member (object : Value) (key : list Z) : TokenizerError + Value :=
  match Json.find object key with Some value => inr value | None => fail kSchemaMismatch end.

Definition validate_byte_level (value : Value) : TokenizerError + unit :=
  _ ← exact_keys value [lit "type"; lit "add_prefix_space"; lit "trim_offsets"; lit "use_regex"];
  _ ← require_string value (lit "type") (lit "ByteLevel");
  _ ← require_bool value (lit "add_prefix_space") false;
  _ ← require_bool value (lit "trim_offsets") false;
  require_bool value (lit "use_regex") false.

Definition validate_split (split : Value) : TokenizerError + unit :=
  _ ← exact_keys split [lit "type"; lit "pattern"; lit "behavior"; lit "invert"];
  _ ← require_string split (lit "type") (lit "Split");
  _ ← require_string split (lit "behavior") (lit "Isolated");
  _ ← require_bool split (lit "invert") false;
  pattern ← member split (lit "pattern");
  _ ← exact_keys pattern [lit "Regex"];
  require_string pattern (lit "Regex") kPretokenizeRegex.

Definition validate_frontend_schema (root : Value) : TokenizerError + unit :=
  _ ← exact_keys root [lit "version"; lit "truncation"; lit "padding"; lit "added_tokens"; lit "normalizer";
                       lit "pre_tokenizer"; lit "post_processor"; lit "decoder"; lit "model"];
  _ ← require_string root (lit "version") (lit "1.0");
  _ ← require_null root (lit "truncation");
  _ ← require_null root (lit "padding");
  normalizer ← member root (lit "normalizer");
  _ ← exact_keys normalizer [lit "type"];
  _ ← require_string normalizer (lit "type") (lit "NFC");
  pre ← member root (lit "pre_tokenizer");
  _ ← exact_keys pre [lit "type"; lit "pretokenizers"];
  _ ← require_string pre (lit "type") (lit "Sequence");
  match sequence ← Json.find pre (lit "pretokenizers"); as_array sequence with
  | Some [split; byte_level] =>
      _ ← validate_split split;
      _ ← validate_byte_level byte_level;
      post ← member root (lit "post_processor");
      decoder ← member root (lit "decoder");
      _ ← validate_byte_level post;
      validate_byte_level decoder
  | _ => fail kSchemaMismatch
  end.

(** ** UTF-8 *)

(** The code point at [offset] and the offset after it. *)
Definition decode_utf8_at (input : list Z) (offset : Z) : option (Z * Z) :=
  let size := Z.of_nat (length input) in
  let byte_at i := at_ input i in
  let continuation i := (i <? size) && (Z.land (byte_at i) 0xC0 =? 0x80) in
  if size <=? offset then None else
  let byte := byte_at offset in
  let b1 := byte_at (offset + 1) in
  let b2 := byte_at (offset + 2) in
  let b3 := byte_at (offset + 3) in
  if byte <=? 0x7F then Some (byte, offset + 1)
  else if (0xC2 <=? byte) && (byte <=? 0xDF) && continuation (offset + 1) then
    Some (Z.lor (Z.shiftl (Z.land byte 0x1F) 6) (Z.land b1 0x3F), offset + 2)
  else if (0xE0 <=? byte) && (byte <=? 0xEF) && continuation (offset + 1) && continuation (offset + 2) then
    if ((byte =? 0xE0) && (b1 <? 0xA0)) || ((byte =? 0xED) && (0xA0 <=? b1)) then None else
    Some (Z.lor (Z.lor (Z.shiftl (Z.land byte 0x0F) 12) (Z.shiftl (Z.land b1 0x3F) 6)) (Z.land b2 0x3F), offset + 3)
  else if (0xF0 <=? byte) && (byte <=? 0xF4) && continuation (offset + 1) && continuation (offset + 2)
          && continuation (offset + 3) then
    if ((byte =? 0xF0) && (b1 <? 0x90)) || ((byte =? 0xF4) && (0x8F <? b1)) then None else
    Some (Z.lor (Z.lor (Z.lor (Z.shiftl (Z.land byte 0x07) 18) (Z.shiftl (Z.land b1 0x3F) 12))
            (Z.shiftl (Z.land b2 0x3F) 6)) (Z.land b3 0x3F), offset + 4)
  else None.

Definition append_utf8 (codepoint : Z) (output : list Z) : list Z :=
  output ++
  if codepoint <=? 0x7F then [u8 codepoint]
  else if codepoint <=? 0x7FF then
    [u8 (Z.lor 0xC0 (Z.shiftr codepoint 6)); Z.lor 0x80 (Z.land codepoint 0x3F)]
  else if codepoint <=? 0xFFFF then
    [u8 (Z.lor 0xE0 (Z.shiftr codepoint 12)); Z.lor 0x80 (Z.land (Z.shiftr codepoint 6) 0x3F);
     Z.lor 0x80 (Z.land codepoint 0x3F)]
  else
    [u8 (Z.lor 0xF0 (Z.shiftr codepoint 18)); Z.lor 0x80 (Z.land (Z.shiftr codepoint 12) 0x3F);
     Z.lor 0x80 (Z.land (Z.shiftr codepoint 6) 0x3F); Z.lor 0x80 (Z.land codepoint 0x3F)].

(** The offset of the first byte that is not part of a code point.  Each turn
    moves at least one byte. *)
Fixpoint validate_utf8_from (fuel : nat) (input : list Z) (offset : Z) : option Z :=
  match fuel with
  | O => None
  | S fuel =>
      if offset <? Z.of_nat (length input) then
        match decode_utf8_at input offset with
        | None => Some offset
        | Some (_, next) => validate_utf8_from fuel input next
        end
      else None
  end.
Definition validate_utf8 (input : list Z) : option Z := validate_utf8_from (S (length input)) input 0.

(** ** The byte alphabet *)

Definition direct (value : Z) : bool :=
  ((33 <=? value) && (value <=? 126)) || ((161 <=? value) && (value <=? 172)) || ((174 <=? value) && (value <=? 255)).

Fixpoint byte_mapping (n : nat) (value extension : Z) (encoder : list (list Z)) (decoder : gmap Z Z)
    : TokenizerError + (list (list Z) * gmap Z Z) :=
  match n with
  | O => inr (encoder, decoder)
  | S n =>
      let codepoint := if direct value then value else 256 + extension in
      let extension := if direct value then extension else extension + 1 in
      match decoder !! codepoint with
      | Some _ => fail kInternalError
      | None => byte_mapping n (value + 1) extension (encoder ++ [append_utf8 codepoint []]) (<[codepoint := value]> decoder)
      end
  end.

Definition initialize_byte_mapping : TokenizerError + (list (list Z) * gmap Z Z) := byte_mapping 256 0 0 [] ∅.

(** ** The model *)

(** The loop over the vocabulary: the ids, the tokens and the ids seen. *)
Definition VocabularyState : Type := gmap (list Z) Z * list (list Z) * list bool.

Fixpoint parse_vocabulary (size : Z) (entries : list (list Z * Value)) (s : VocabularyState)
    : TokenizerError + VocabularyState :=
  match entries with
  | [] => inr s
  | (name, value) :: entries =>
      let '(vocab, ids, seen) := s in
      match text ← as_number value; to_uint64 text with
      | None => fail kInvalidVocabulary
      | Some token =>
          if size <=? token then fail kInvalidVocabulary else
          let index := Z.to_nat token in
          if default false (seen !! index) then fail kInvalidVocabulary else
          parse_vocabulary size entries
            (match vocab !! name with Some _ => vocab | None => <[name := u32 token]> vocab end,
             <[index := name]> ids, <[index := true]> seen)
      end
  end.

(** The id of each byte's token. *)
Fixpoint find_byte_tokens (vocab : gmap (list Z) Z) (encoder : list (list Z)) : option (list Z) :=
  match encoder with
  | [] => Some []
  | symbol :: encoder => found ← vocab !! symbol; ids ← find_byte_tokens vocab encoder; Some (found :: ids)
  end.

(** Every code point of a token stands for a byte. *)
Fixpoint byte_level_from (fuel : nat) (decoder : gmap Z Z) (token : list Z) (offset : Z) : bool :=
  match fuel with
  | O => true
  | S fuel =>
      if offset <? Z.of_nat (length token) then
        match decode_utf8_at token offset with
        | Some (codepoint, next) =>
            match decoder !! codepoint with Some _ => byte_level_from fuel decoder token next | None => false end
        | None => false
        end
      else true
  end.
Definition byte_level (decoder : gmap Z Z) (token : list Z) : bool := byte_level_from (S (length token)) decoder token 0.

(** [std::string::find] of a character. *)
Fixpoint find_byte (byte : Z) (text : list Z) : option nat :=
  match text with
  | [] => None
  | b :: text => if b =? byte then Some O else S <$> find_byte byte text
  end.

(** The two tokens of a merge entry. *)
Definition split_merge (text : list Z) : option (list Z * list Z) :=
  match find_byte 32 text with
  | None | Some O => None
  | Some separator =>
      if Z.of_nat (length text) <=? Z.of_nat separator + 1 then None else
      let right := drop (S separator) text in
      match find_byte 32 right with
      | Some _ => None
      | None => Some (take separator text, right)
      end
  end.

Fixpoint parse_merges (vocab : gmap (list Z) Z) (next_rank : Z) (values : list Value) (found : gmap Z MergeRule)
    : TokenizerError + gmap Z MergeRule :=
  match values with
  | [] => inr found
  | value :: values =>
      match text ← as_string value; split_merge text with
      | None => fail kInvalidMerge
      | Some (l, r) =>
          match vocab !! l, vocab !! r, vocab !! (l ++ r) with
          | Some left_id, Some right_id, Some result =>
              let key := pair_key left_id right_id in
              match found !! key with
              | Some _ => fail kInvalidMerge
              | None =>
                  parse_merges vocab (next_rank + 1) values
                    (<[key := {| rank := u32 next_rank; result_id := result |}]> found)
              end
          | _, _, _ => fail kInvalidMerge
          end
      end
  end.

Definition check_model (model : Value) : TokenizerError + unit :=
  _ ← exact_keys model [lit "type"; lit "dropout"; lit "unk_token"; lit "continuing_subword_prefix";
                        lit "end_of_word_suffix"; lit "fuse_unk"; lit "byte_fallback"; lit "ignore_merges";
                        lit "vocab"; lit "merges"];
  _ ← require_string model (lit "type") (lit "BPE");
  _ ← require_null model (lit "dropout");
  _ ← require_null model (lit "unk_token");
  _ ← require_string model (lit "continuing_subword_prefix") [];
  _ ← require_string model (lit "end_of_word_suffix") [];
  _ ← require_bool model (lit "fuse_unk") false;
  _ ← require_bool model (lit "byte_fallback") false;
  require_bool model (lit "ignore_merges") false.

Record Model := {
  model_vocabulary : gmap (list Z) Z;
  model_tokens : list (list Z);
  model_merges : gmap Z MergeRule;
  model_byte_ids : list Z
}.

Definition parse_model (pins : Pins) (l : TokenizerLimits) (encoder : list (list Z)) (decoder : gmap Z Z)
    (root : Value) : TokenizerError + Model :=
  model ← member root (lit "model");
  _ ← check_model model;
  match vocab_value ← Json.find model (lit "vocab"); as_object vocab_value with
  | None => fail kSchemaMismatch
  | Some vocab =>
      let size := length vocab in
      _ ← require (negb (max_vocab_size l <? Z.of_nat size)) kInvalidVocabulary;
      _ ← require (Z.of_nat size =? kPinnedBaseVocabularySize pins) kSchemaMismatch;
      '(ids, names, seen) ← parse_vocabulary (Z.of_nat size) vocab (∅, repeat [] size, repeat false size);
      _ ← require (forallb id seen) kInvalidVocabulary;
      match find_byte_tokens ids encoder with
      | None => fail kInvalidVocabulary
      | Some byte_ids =>
          _ ← require (forallb (byte_level decoder) names) kInvalidVocabulary;
          match merges_value ← Json.find model (lit "merges"); as_array merges_value with
          | None => fail kSchemaMismatch
          | Some values =>
              _ ← require (negb (max_merges l <? Z.of_nat (length values))) kInvalidMerge;
              _ ← require (Z.of_nat (length values) =? kPinnedMergeCount pins) kSchemaMismatch;
              rules ← parse_merges ids 0 values ∅;
              inr {| model_vocabulary := ids; model_tokens := names; model_merges := rules; model_byte_ids := byte_ids |}
          end
      end
  end.

(** ** Added tokens *)

(** The loop over the added tokens; [index] is the position of the first one
    left. *)
Fixpoint parse_added (pins : Pins) (index : nat) (values : list Value) (expected : list (list Z))
    (tokens : list AddedToken) (by_id : gmap Z nat) : TokenizerError + (list AddedToken * gmap Z nat) :=
  match values, expected with
  | token :: values, content :: expected =>
      _ ← exact_keys token [lit "id"; lit "content"; lit "single_word"; lit "lstrip"; lit "rstrip";
                            lit "normalized"; lit "special"];
      _ ← require_string token (lit "content") content;
      _ ← require_bool token (lit "single_word") false;
      _ ← require_bool token (lit "lstrip") false;
      _ ← require_bool token (lit "rstrip") false;
      _ ← require_bool token (lit "normalized") false;
      match id_value ← Json.find token (lit "id"); text ← as_number id_value; to_uint64 text with
      | None => fail kSchemaMismatch
      | Some number =>
          _ ← require (number =? kPinnedBaseVocabularySize pins + Z.of_nat index) kSchemaMismatch;
          match special_value ← Json.find token (lit "special"); as_bool special_value with
          | None => fail kSchemaMismatch
          | Some special =>
              _ ← require (bool_decide (special = (Z.of_nat index <? expected_specials pins))) kSchemaMismatch;
              parse_added pins (S index) values expected
                (tokens ++ [{| added_id := u32 number; token_content := content; special := special |}])
                (match by_id !! u32 number with Some _ => by_id | None => <[u32 number := index]> by_id end)
          end
      end
  | _, _ => inr (tokens, by_id)
  end.

Definition parse_added_tokens (pins : Pins) (l : TokenizerLimits) (root : Value)
    : TokenizerError + (list AddedToken * gmap Z nat) :=
  match value ← Json.find root (lit "added_tokens"); as_array value with
  | None => fail kSchemaMismatch
  | Some values =>
      _ ← require (negb (max_added_tokens l <? Z.of_nat (length values))) kSchemaMismatch;
      _ ← require (bool_decide (length values = length (expected_contents pins))) kSchemaMismatch;
      parse_added pins 0 values (expected_contents pins) [] ∅
  end.

(** ** ICU *)

(** What the source uses of ICU: the class of UTF-16 strings, the NFC
    normalizer, the successive matches of the pinned expression (with whether
    the status has become a failure) and the white space property. *)
Record Icu := {
  UnicodeString : Type;
  fromUTF8 : list Z -> UnicodeString;
  toUTF8 : UnicodeString -> Z -> Z -> list Z;
  unicode_length : UnicodeString -> Z;
  pattern_compiles : bool;
  getNFCInstance : bool;
  normalize : UnicodeString -> option UnicodeString;
  matcher : UnicodeString -> bool;
  find_match : UnicodeString -> nat -> option (Z * Z) * bool;
  u_isUWhiteSpace : Z -> bool
}.

(** ** Encoding *)

(** The result of encoding into [token_ids]: all of it, or an error and what
    was appended before; or the loop never ends. *)
Inductive encoded :=
  | Encoded (token_ids : list Z)
  | EncodeFailed (error : TokenizerError) (token_ids : list Z)
  | EncodeLoops.

Definition and_then (result : encoded) (k : list Z -> encoded) : encoded :=
  match result with Encoded output => k output | _ => result end.

Section Tokenizer.
Variable icu : Icu.
Variable data : TokenizerData.

(** [encode_bpe_piece]. *)
Definition encode_piece (piece output : list Z) : encoded :=
  let '(ok, output) := encode_bpe_piece (merges data) (byte_token_ids data) (max_tokens (limits data)) piece output in
  if ok then Encoded output else EncodeFailed (error_ kTooManyTokens) output.

(** The text of a match or between two matches, converted, checked and
    encoded. *)
Definition encode_span (normalized : UnicodeString icu) (from to : Z) (output : list Z) : encoded :=
  let piece := toUTF8 icu normalized from to in
  if kAbsoluteInputBytes <? Z.of_nat (length piece) then EncodeFailed (error_ kInputTooLarge) output else
  if max_input_bytes (limits data) <? Z.of_nat (length piece) then EncodeFailed (error_ kInputTooLarge) output else
  encode_piece piece output.

(** The loop over the matches, [k] of which have been found, and the rest of
    the text. *)
Fixpoint encode_matches (fuel : nat) (normalized : UnicodeString icu) (k : nat) (previous_end : Z) (output : list Z)
    : encoded :=
  match fuel with
  | O => EncodeLoops
  | S fuel =>
      match find_match icu normalized k with
      | (Some (start, end_), failed) =>
          if failed || (start <? previous_end) || (end_ <=? start) then EncodeFailed (error_ kRegexError) output else
          and_then (if previous_end <? start then encode_span normalized previous_end start output else Encoded output)
            (fun output => and_then (encode_span normalized start end_ output)
               (fun output => encode_matches fuel normalized (S k) end_ output))
      | (None, failed) =>
          if failed then EncodeFailed (error_ kRegexError) output else
          if previous_end <? unicode_length icu normalized
          then encode_span normalized previous_end (unicode_length icu normalized) output
          else Encoded output
      end
  end.

Definition encode_normal_segment (segment output : list Z) : encoded :=
  if bool_decide (segment = []) then Encoded output else
  match validate_utf8 segment with
  | Some bad_offset => EncodeFailed {| error_code := kInvalidUtf8; error_offset := bad_offset |} output
  | None =>
      if 2 ^ 31 - 1 <? Z.of_nat (length segment) then EncodeFailed (error_ kInputTooLarge) output else
      if negb (getNFCInstance icu) then EncodeFailed (error_ kUnicodeError) output else
      match normalize icu (fromUTF8 icu segment) with
      | None => EncodeFailed (error_ kUnicodeError) output
      | Some normalized =>
          if negb (matcher icu normalized) then EncodeFailed (error_ kRegexError) output else
          encode_matches (S (Z.to_nat (unicode_length icu normalized))) normalized 0 0 output
      end
  end.

(** [std::string_view::find]. *)
Fixpoint is_prefix (pattern text : list Z) : bool :=
  match pattern, text with
  | [], _ => true
  | _ :: _, [] => false
  | p :: pattern, t :: text => (p =? t) && is_prefix pattern text
  end.
Fixpoint find_text (pattern text : list Z) (offset : Z) : Z :=
  if is_prefix pattern text then offset else
  match text with [] => npos | _ :: text => find_text pattern text (offset + 1) end.

(** The loop over the added tokens: the first occurrence of any, the longest
    of those that start there. *)
Fixpoint find_added (tokens : list AddedToken) (text : list Z) (cursor : Z) (position : Z) (matched : option AddedToken)
    : Z * option AddedToken :=
  match tokens with
  | [] => (position, matched)
  | token :: tokens =>
      let found := find_text (token_content token) (drop (Z.to_nat cursor) text) cursor in
      if (found <? position)
         || ((found =? position) &&
             match matched with
             | Some m => (length (token_content m) <? length (token_content token))%nat
             | None => false
             end)
      then find_added tokens text cursor found (Some token)
      else find_added tokens text cursor position matched
  end.

Definition substr (text : list Z) (from count : Z) : list Z := take (Z.to_nat count) (drop (Z.to_nat from) text).

Fixpoint encode_from (fuel : nat) (text : list Z) (cursor : Z) (output : list Z) : encoded :=
  match fuel with
  | O => EncodeLoops
  | S fuel =>
      let size := Z.of_nat (length text) in
      if negb (cursor <? size) then Encoded output else
      match find_added (added_tokens data) text cursor npos None with
      | (_, None) =>
          and_then (encode_normal_segment (substr text cursor (size - cursor)) output)
            (fun output => encode_from fuel text size output)
      | (match_position, Some token) =>
          and_then (if cursor <? match_position
                    then encode_normal_segment (substr text cursor (match_position - cursor)) output
                    else Encoded output)
            (fun output =>
               if max_tokens (limits data) <=? Z.of_nat (length output)
               then EncodeFailed (error_ kTooManyTokens) output
               else encode_from fuel text (match_position + Z.of_nat (length (token_content token)))
                      (output ++ [added_id token]))
      end
  end.

Definition encode_impl (text : list Z) : encoded :=
  if max_input_bytes (limits data) <? Z.of_nat (length text) then EncodeFailed (error_ kInputTooLarge) [] else
  encode_from (S (S (length text))) text 0 [].

(** ** Decoding *)

(** The bytes of the pending symbols. *)
Fixpoint symbol_bytes (fuel : nat) (symbols : list Z) (offset : Z) : option (list Z) :=
  match fuel with
  | O => Some []
  | S fuel =>
      if offset <? Z.of_nat (length symbols) then
        '(codepoint, next) ← decode_utf8_at symbols offset;
        byte ← byte_decoder data !! codepoint;
        bytes ← symbol_bytes fuel symbols next;
        Some (byte :: bytes)
      else Some []
  end.

Definition append_output (value text : list Z) : TokenizerError + list Z :=
  let limit := max_input_bytes (limits data) in
  if (limit <? Z.of_nat (length value)) || (limit - Z.of_nat (length value) <? Z.of_nat (length text))
  then fail kInputTooLarge else inr (text ++ value).

Definition flush_symbols (symbols text : list Z) : TokenizerError + list Z :=
  match symbol_bytes (S (length symbols)) symbols 0 with
  | None => fail kInternalError
  | Some bytes => append_output bytes text
  end.

(** The loop over the ids: the pending symbols and the text so far.  On an
    error the text stays as it is. *)
Fixpoint decode_from (skip_special_tokens : bool) (token_ids symbols text : list Z)
    : (list Z) * option TokenizerError :=
  match token_ids with
  | [] => match flush_symbols symbols text with
          | inl e => (text, Some e)
          | inr text => (text, None)
          end
  | id :: token_ids =>
      let limit := max_input_bytes (limits data) in
      match id_to_token data !! Z.to_nat id with
      | Some token =>
          if (limit <? Z.of_nat (length token)) || (limit - Z.of_nat (length token) <? Z.of_nat (length symbols))
          then (text, Some (error_ kInputTooLarge))
          else decode_from skip_special_tokens token_ids (symbols ++ token) text
      | None =>
          match index ← added_by_id data !! id; added_tokens data !! index with
          | None => (text, Some (error_ kInvalidTokenId))
          | Some token =>
              match flush_symbols symbols text with
              | inl e => (text, Some e)
              | inr text =>
                  if negb skip_special_tokens || negb (special token) then
                    match append_output (token_content token) text with
                    | inl e => (text, Some e)
                    | inr text => decode_from skip_special_tokens token_ids [] text
                    end
                  else decode_from skip_special_tokens token_ids [] text
              end
          end
      end
  end.

Definition decode_impl (skip_special_tokens : bool) (token_ids : list Z) : list Z * option TokenizerError :=
  if max_tokens (limits data) <? Z.of_nat (length token_ids) then ([], Some (error_ kTooManyTokens)) else
  decode_from skip_special_tokens token_ids [] [].

(** ** Chat *)

Record ChatMessage := { role : list Z; message_content : list Z }.
Record Qwen36ChatOptions := { add_generation_prompt : bool; enable_thinking : bool }.

Definition append_bounded (output text : list Z) : TokenizerError + list Z :=
  let limit := max_input_bytes (limits data) in
  if (limit <? Z.of_nat (length text)) || (limit - Z.of_nat (length text) <? Z.of_nat (length output))
  then fail kInputTooLarge else inr (output ++ text).

(** The scan for the first and the last code point that is not white space:
    [span] is what has been found, from and to. *)
Fixpoint trim_from (fuel : nat) (input : list Z) (offset : Z) (span : option (Z * Z)) : TokenizerError + list Z :=
  match fuel with
  | O => fail kInternalError
  | S fuel =>
      if offset <? Z.of_nat (length input) then
        match decode_utf8_at input offset with
        | None => inl {| error_code := kInvalidUtf8; error_offset := offset |}
        | Some (codepoint, next) =>
            let whitespace := u_isUWhiteSpace icu codepoint || (codepoint <=? 0x20) in
            let span := if whitespace then span else
              match span with None => Some (offset, next) | Some (start, _) => Some (start, next) end in
            trim_from fuel input next span
        end
      else match span with
           | Some (start, end_) => inr (substr input start (end_ - start))
           | None => inr []
           end
  end.
Definition trim_unicode (input : list Z) : TokenizerError + list Z := trim_from (S (length input)) input 0 None.

Definition system_header : list Z := lit "<|im_start|>system" ++ [10].
Definition user_header : list Z := lit "<|im_start|>user" ++ [10].
Definition assistant_header : list Z := lit "<|im_start|>assistant" ++ [10].
Definition empty_thinking : list Z := lit "<think>" ++ [10; 10] ++ lit "</think>" ++ [10; 10].
Definition message_end : list Z := lit "<|im_end|>" ++ [10].

(** One message between its header and its end.  On an error the text keeps
    what was appended. *)
Definition append_message (rendered header content : list Z) : list Z * option TokenizerError :=
  match append_bounded rendered header with
  | inl e => (rendered, Some e)
  | inr rendered =>
      match append_bounded rendered content with
      | inl e => (rendered, Some e)
      | inr rendered =>
          match append_bounded rendered message_end with
          | inl e => (rendered, Some e)
          | inr rendered => (rendered, None)
          end
      end
  end.

Record ChatState := { rendered : list Z; expect_user : bool; saw_user : bool }.

Definition contains (pattern text : list Z) : bool := negb (find_text pattern text 0 =? npos).

(** The loop over the messages. *)
Fixpoint render_messages (last_user_index index : Z) (messages : list ChatMessage) (s : ChatState)
    : ChatState * option TokenizerError :=
  match messages with
  | [] => (s, None)
  | message :: messages =>
      match trim_unicode (message_content message) with
      | inl e => (s, Some e)
      | inr content =>
          let next header expect saw :=
            match append_message (rendered s) header content with
            | (text, Some e) => ({| rendered := text; expect_user := expect; saw_user := saw |}, Some e)
            | (text, None) =>
                render_messages last_user_index (index + 1) messages
                  {| rendered := text; expect_user := expect; saw_user := saw |}
            end in
          if bool_decide (role message = lit "system") then
            if negb (index =? 0) then (s, Some (error_ kUnsupportedChat))
            else next system_header (expect_user s) (saw_user s)
          else if bool_decide (role message = lit "user") then
            if negb (expect_user s) then (s, Some (error_ kUnsupportedChat))
            else next user_header false true
          else if bool_decide (role message = lit "assistant") then
            if expect_user s || contains (lit "<think>") content || contains (lit "</think>") content
            then (s, Some (error_ kUnsupportedChat))
            else next (if last_user_index <? index then assistant_header ++ empty_thinking else assistant_header)
                   true (saw_user s)
          else (s, Some (error_ kUnsupportedChat))
      end
  end.

Fixpoint find_last_user (messages : list ChatMessage) (index found : Z) : Z :=
  match messages with
  | [] => found
  | message :: messages =>
      find_last_user messages (index + 1) (if bool_decide (role message = lit "user") then index else found)
  end.

Record ChatResult := { chat_rendered : list Z; chat_token_ids : list Z; chat_error : option TokenizerError }.

(** The result of the chat, or nothing when encoding loops. *)
Definition format_qwen36_chat_impl (messages : list ChatMessage) (options : Qwen36ChatOptions) : option ChatResult :=
  let stop text e := Some {| chat_rendered := text; chat_token_ids := []; chat_error := Some e |} in
  if bool_decide (messages = []) then stop [] (error_ kUnsupportedChat) else
  if max_chat_messages (limits data) <? Z.of_nat (length messages) then stop [] (error_ kUnsupportedChat) else
  match render_messages (find_last_user messages 0 npos) 0 messages
          {| rendered := []; expect_user := true; saw_user := false |} with
  | (s, Some e) => stop (rendered s) e
  | (s, None) =>
      if negb (saw_user s) then stop (rendered s) (error_ kUnsupportedChat) else
      let encode text :=
        match encode_impl text with
        | Encoded ids => Some {| chat_rendered := text; chat_token_ids := ids; chat_error := None |}
        | EncodeFailed e _ => stop text e
        | EncodeLoops => None
        end in
      if add_generation_prompt options then
        if expect_user s then stop (rendered s) (error_ kUnsupportedChat) else
        match append_bounded (rendered s)
                (if enable_thinking options then assistant_header ++ lit "<think>" ++ [10]
                 else assistant_header ++ empty_thinking) with
        | inl e => stop (rendered s) e
        | inr text => encode text
        end
      else encode (rendered s)
  end.
End Tokenizer.

(** ** The tokenizer object

    [None] is a moved-from object. *)

Definition encode (icu : Icu) (impl : option TokenizerData) (text : list Z) : encoded :=
  match impl with
  | None => EncodeFailed (error_ kInternalError) []
  | Some data => encode_impl icu data text
  end.

Definition decode (impl : option TokenizerData) (skip_special_tokens : bool) (token_ids : list Z)
    : list Z * option TokenizerError :=
  match impl with
  | None => ([], Some (error_ kInternalError))
  | Some data => decode_impl data skip_special_tokens token_ids
  end.

Definition format_qwen36_chat (icu : Icu) (impl : option TokenizerData) (messages : list ChatMessage)
    (options : Qwen36ChatOptions) : option ChatResult :=
  match impl with
  | None => Some {| chat_rendered := []; chat_token_ids := []; chat_error := Some (error_ kInternalError) |}
  | Some data => format_qwen36_chat_impl icu data messages options
  end.

(** Everything [load_json] builds from the parsed document. *)
Definition build (pins : Pins) (l : TokenizerLimits) (root : Value) : TokenizerError + TokenizerData :=
  _ ← validate_frontend_schema root;
  '(encoder, decoder) ← initialize_byte_mapping;
  model ← parse_model pins l encoder decoder root;
  '(added, by_id) ← parse_added_tokens pins l root;
  inr {| limits := l; vocabulary := model_vocabulary model; id_to_token := model_tokens model;
         merges := model_merges model; added_tokens := added; added_by_id := by_id; byte_encoder := encoder;
         byte_token_ids := model_byte_ids model; byte_decoder := decoder |}.

Definition load_parse_options (l : TokenizerLimits) : ParseOptions :=
  let dynamic_budget := max_vocab_size l + max_merges l + max_added_tokens l * 16 in
  {| Json.max_input_bytes := max_tokenizer_bytes l; max_nesting_depth := 32;
     max_values := dynamic_budget + 4096; max_container_items := dynamic_budget + 4096 |}.

(** [sha256(tokenizer_json).hex()], as a string. *)
Definition digest_hex (bytes : list Z) : list Z := (fun c => Z.of_N (Ascii.N_of_ascii c)) <$> hex (sha256 bytes).

Definition load_json (icu : Icu) (pins : Pins) (tokenizer_json : list Z) (l : TokenizerLimits)
    : TokenizerError + TokenizerData :=
  _ ← validate_limits l;
  if max_tokenizer_bytes l <? Z.of_nat (length tokenizer_json) then fail kTokenizerTooLarge else
  match parse tokenizer_json (load_parse_options l) with
  | Bad _ position => inl {| error_code := kJsonError; error_offset := position |}
  | OutOfFuel => fail kJsonError
  | Good root _ =>
      data ← build pins l root;
      if negb (bool_decide (digest_hex tokenizer_json = kPinnedTokenizerSha256 pins)) then fail kUnsupportedRevision else
      if negb (pattern_compiles icu) then fail kRegexError else inr data
  end.

Definition load_file (open : disk) (icu : Icu) (pins : Pins) (path : list Z) (l : TokenizerLimits)
    : TokenizerError + TokenizerData :=
  _ ← validate_limits l;
  contents ← read_file open path (max_tokenizer_bytes l);
  load_json icu pins contents l.

Definition base_vocabulary_size (impl : option TokenizerData) : Z :=
  match impl with None => 0 | Some data => Z.of_nat (length (id_to_token data)) end.
Definition merge_count (impl : option TokenizerData) : Z :=
  match impl with None => 0 | Some data => Z.of_nat (size (merges data)) end.
Definition added_token_count (impl : option TokenizerData) : Z :=
  match impl with None => 0 | Some data => Z.of_nat (length (added_tokens data)) end.

(** ** A small tokenizer

    The 256 byte tokens, two merges and two added tokens. *)

Definition sample_symbols : list (list Z) :=
  match initialize_byte_mapping with inr (encoder, _) => encoder | inl _ => [] end.

Definition number (n : Z) : Value := Number (to_string n).
Definition text (s : String.string) : Value := Json.String (lit s).

Definition sample_added (index : Z) (content : String.string) (special : bool) : Value :=
  Object [(lit "id", number (258 + index)); (lit "content", text content); (lit "single_word", Bool false);
          (lit "lstrip", Bool false); (lit "rstrip", Bool false); (lit "normalized", Bool false);
          (lit "special", Bool special)].

Definition sample_byte_level : Value :=
  Object [(lit "type", text "ByteLevel"); (lit "add_prefix_space", Bool false); (lit "trim_offsets", Bool false);
          (lit "use_regex", Bool false)].

Definition sample_vocabulary : list (list Z * Value) :=
  imap (fun byte symbol => (symbol, number (Z.of_nat byte))) sample_symbols
  ++ [(lit "ab", number 256); (lit "aab", number 257)].

Definition sample_model : Value :=
  Object [(lit "type", text "BPE"); (lit "dropout", Null); (lit "unk_token", Null);
          (lit "continuing_subword_prefix", text ""); (lit "end_of_word_suffix", text "");
          (lit "fuse_unk", Bool false); (lit "byte_fallback", Bool false); (lit "ignore_merges", Bool false);
          (lit "vocab", Object sample_vocabulary); (lit "merges", Array [text "a b"; text "a ab"])].

Definition sample_layout : Value :=
  Object [(lit "version", text "1.0"); (lit "truncation", Null); (lit "padding", Null);
          (lit "added_tokens", Array [sample_added 0 "<|im_end|>" true; sample_added 1 "<think>" false]);
          (lit "normalizer", Object [(lit "type", text "NFC")]);
          (lit "pre_tokenizer", Object [(lit "type", text "Sequence");
             (lit "pretokenizers", Array [
                Object [(lit "type", text "Split"); (lit "pattern", Object [(lit "Regex", Json.String kPretokenizeRegex)]);
                        (lit "behavior", text "Isolated"); (lit "invert", Bool false)];
                sample_byte_level])]);
          (lit "post_processor", sample_byte_level); (lit "decoder", sample_byte_level); (lit "model", sample_model)].

Definition sample_limits : TokenizerLimits := {|
  max_tokenizer_bytes := 32000000; max_vocab_size := 300000; max_merges := 300000; max_added_tokens := 64;
  max_input_bytes := 4000000; max_tokens := 4000000; max_chat_messages := 1024
|}.

(** Strings of bytes that normalization leaves as they are, and one match for
    each. *)
Definition sample_icu : Icu := {|
  UnicodeString := list Z;
  fromUTF8 := fun s => s;
  toUTF8 := fun s from to => (fun byte => byte mod 256) <$> substr s from (to - from);
  unicode_length := fun s => Z.of_nat (length s);
  pattern_compiles := true;
  getNFCInstance := true;
  normalize := Some;
  matcher := fun _ => true;
  find_match := fun s k => (if bool_decide (k = O /\ s <> []) then Some (0, Z.of_nat (length s)) else None, false);
  u_isUWhiteSpace := fun c => (c =? 0x20) || (c =? 0x0A)
|}.

(** ** What loading promises *)

Lemma fail_inr {A} c (a : A) : fail c = inr a <-> False.
Proof. by split. Qed.

Lemma require_inr b c u : require b c = inr u <-> b = true.
Proof. destruct u. unfold require. destruct b; split; done. Qed.

(** The steps of a successful load. *)
Ltac loads H :=
  sum_inv H;
  repeat match goal with Hr : require _ _ = inr _ |- _ => apply require_inr in Hr end.

(** [i] is the id of the token [name]. *)
Definition token_is (tokens : list (list Z)) (i : Z) (name : list Z) : Prop :=
  0 <= i /\ tokens !! Z.to_nat i = Some name.

Record vocabulary_ok (vocab : gmap (list Z) Z) (ids : list (list Z)) (seen : list bool) : Prop := {
  seen_length : length seen = length ids;
  vocabulary_exact : forall name i, vocab !! name = Some i <-> token_is ids i name /\ seen !! Z.to_nat i = Some true
}.

Lemma vocabulary_insert vocab ids seen name token :
  vocabulary_ok vocab ids seen -> vocab !! name = None -> 0 <= token < Z.of_nat (length ids) ->
  seen !! Z.to_nat token <> Some true ->
  vocabulary_ok (<[name := token]> vocab) (<[Z.to_nat token := name]> ids) (<[Z.to_nat token := true]> seen).
Proof.
  intros [Hlen Hex] Hnone Ht Hseen. constructor; [by rewrite !length_insert|]. intros name' i. unfold token_is.
  destruct (decide (i = token)) as [->|Hi].
  - rewrite !list_lookup_insert_eq by lia. destruct (decide (name' = name)) as [->|Hne].
    + rewrite lookup_insert_eq. split; [intros _|done]. split_and!; [lia|done|done].
    + rewrite lookup_insert_ne by done. rewrite Hex. split; [by intros [_ ?]|]. by intros [[_ [= ->]] _].
  - destruct (decide (0 <= i)) as [Hi0|]; [|split; [|lia]].
    + rewrite !list_lookup_insert_ne by lia. destruct (decide (name' = name)) as [->|Hne].
      * rewrite lookup_insert_eq. split; [by intros [= ->]|]. intros Hold. apply Hex in Hold. congruence.
      * rewrite lookup_insert_ne by done. apply Hex.
    + destruct (decide (name' = name)) as [->|Hne]; [rewrite lookup_insert_eq; intros [= ->]; lia|].
      rewrite lookup_insert_ne by done. rewrite Hex. unfold token_is. lia.
Qed.

Lemma parse_vocabulary_ok size entries vocab ids seen vocab' ids' seen' :
  size = Z.of_nat (length ids) -> size <= kAbsoluteVocabSize -> NoDup entries.*1 ->
  (forall name, name ∈ entries.*1 -> vocab !! name = None) ->
  vocabulary_ok vocab ids seen ->
  parse_vocabulary size entries (vocab, ids, seen) = inr (vocab', ids', seen') ->
  vocabulary_ok vocab' ids' seen' /\ length ids' = length ids.
Proof.
  intros Hsize Hmax. revert vocab ids seen Hsize.
  induction entries as [|[name v] entries IH]; intros vocab ids seen Hsize Hnd Hnew Hok H; cbn [parse_vocabulary] in H.
  { by injection H as <- <- <-. }
  rewrite fmap_cons in *. apply NoDup_cons in Hnd as [Hnin Hnd]. cbn [fst] in *.
  destruct (as_number v ≫= to_uint64) as [token|] eqn:Htok; [|done].
  assert (Hu : is_u64 token) by (destruct (as_number v); [by eapply to_uint64_range|done]). unfold is_u64 in Hu.
  destruct (Z.leb_spec size token) as [|Hlt]; [done|].
  destruct (default false (seen !! Z.to_nat token)) eqn:Hseen; [done|].
  rewrite (Hnew name) in H by left. rewrite u32_small in H by (unfold is_u32, kAbsoluteVocabSize in *; lia).
  apply IH in H; [by rewrite length_insert in H|by rewrite length_insert|done| |].
  - intros name' Hin. rewrite lookup_insert_ne by (intros ->; done). apply Hnew. by right.
  - apply vocabulary_insert; [done|by apply Hnew; left|lia|]. intros Hs. by rewrite Hs in Hseen.
Qed.

Lemma all_seen vocab ids seen :
  vocabulary_ok vocab ids seen -> forallb (fun b => b) seen = true ->
  forall name i, vocab !! name = Some i <-> token_is ids i name.
Proof.
  intros [Hlen Hex] Hall name i. rewrite Hex. split; [by intros [? _]|]. intros [Hi Hn]. split; [done|].
  assert (Hlt : (Z.to_nat i < length seen)%nat) by (rewrite Hlen; by eapply lookup_lt_Some).
  apply lookup_lt_is_Some in Hlt as [b Hb]. rewrite forallb_forall in Hall.
  rewrite (Hall b) in Hb; [done|]. apply list_elem_of_In. by eapply list_elem_of_lookup_2.
Qed.

Lemma find_byte_tokens_Some vocab encoder ids :
  find_byte_tokens vocab encoder = Some ids <-> Forall2 (fun symbol i => vocab !! symbol = Some i) encoder ids.
Proof.
  revert ids. induction encoder as [|symbol encoder IH]; intros ids; simpl.
  { split; [by intros [= <-]|]. by intros ->%Forall2_nil_inv_l. }
  split.
  - intros H. destruct (vocab !! symbol) as [found|] eqn:Hf; [|done]. simpl in H.
    destruct (find_byte_tokens vocab encoder) as [rest|]; [|done]. injection H as <-. constructor; [done|by apply IH].
  - intros H. inversion H as [|? found ? rest Hf Hrest]; subst. rewrite Hf. simpl.
    apply IH in Hrest. by rewrite Hrest.
Qed.

(** A merge joins the names of its tokens. *)
Definition merge_ok (ids : list (list Z)) (count : Z) (key : Z) (rule : MergeRule) : Prop :=
  exists l r nl nr, key = pair_key l r /\ token_is ids l nl /\ token_is ids r nr /\
    token_is ids (result_id rule) (nl ++ nr) /\ 0 <= rank rule < count.

Record merges_ok (ids : list (list Z)) (count : Z) (rules : gmap Z MergeRule) : Prop := {
  rules_ok : forall key rule, rules !! key = Some rule -> merge_ok ids count key rule;
  ranks_differ : forall key rule key' rule', rules !! key = Some rule -> rules !! key' = Some rule' ->
    rank rule = rank rule' -> key = key'
}.

Lemma find_byte_Some byte l i :
  find_byte byte l = Some i -> (i < length l)%nat.
Proof.
  revert i. induction l as [|b l IH]; intros i; simpl; [done|]. destruct (b =? byte); [intros [= <-]; lia|].
  intros (k & Hk & ->)%fmap_Some. apply IH in Hk. lia.
Qed.

Lemma parse_merges_ok vocab ids next_rank values found rules :
  (forall name i, vocab !! name = Some i <-> token_is ids i name) ->
  0 <= next_rank -> next_rank + Z.of_nat (length values) <= kAbsoluteMerges ->
  merges_ok ids next_rank found ->
  parse_merges vocab next_rank values found = inr rules ->
  merges_ok ids (next_rank + Z.of_nat (length values)) rules /\
  size rules = (size found + length values)%nat.
Proof.
  intros Hv. revert next_rank found. induction values as [|v values IH]; intros k found Hk Hmax Hok H;
    cbn [parse_merges length] in *.
  { injection H as <-. by rewrite Z.add_0_r, Nat.add_0_r. }
  destruct (as_string v ≫= split_merge) as [[l r]|]; [|done].
  destruct (vocab !! l) as [li|] eqn:Hl; [|done]. destruct (vocab !! r) as [ri|] eqn:Hr; [|done].
  destruct (vocab !! (l ++ r)) as [res|] eqn:Hres; [|done].
  destruct (found !! pair_key li ri) eqn:Hnone; [done|].
  rewrite u32_small in H by (unfold is_u32, kAbsoluteMerges in *; lia).
  apply Hv in Hl, Hr, Hres. apply IH in H as [Hm Hs]; [|lia|lia|].
  - rewrite map_size_insert_None in Hs by done. split; [|lia]. by replace (k + Z.of_nat (S (length values)))
      with (k + 1 + Z.of_nat (length values)) by lia.
  - destruct Hok as [Hrules Hranks].
    assert (Hlt : forall key rule, found !! key = Some rule -> rank rule < k)
      by (intros key rule (? & ? & ? & ? & _ & _ & _ & _ & ?)%Hrules; lia).
    constructor.
    + intros key rule. destruct (decide (key = pair_key li ri)) as [->|Hne].
      * rewrite lookup_insert_eq. intros [= <-]. exists li, ri, l, r. simpl. split_and!; done || lia.
      * rewrite lookup_insert_ne by done.
        intros (l' & r' & nl & nr & ? & ? & ? & ? & ?)%Hrules. exists l', r', nl, nr. split_and!; done || lia.
    + intros key rule key' rule'. destruct (decide (key = pair_key li ri)) as [->|Hne],
        (decide (key' = pair_key li ri)) as [->|Hne']; try done; rewrite ?lookup_insert_eq, ?lookup_insert_ne by done.
      * intros [= <-] Hr'%Hlt. simpl. lia.
      * intros Hr'%Hlt [= <-]. simpl. lia.
      * apply Hranks.
Qed.

(** The added tokens are the pinned ones, with the ids after the vocabulary's. *)
Definition added_token (pins : Pins) (index : nat) (content : list Z) : AddedToken :=
  {| added_id := kPinnedBaseVocabularySize pins + Z.of_nat index; token_content := content;
     special := Z.of_nat index <? expected_specials pins |}.

Lemma parse_added_ok pins index values expected tokens by_id tokens' by_id' :
  length values = length expected -> 0 <= kPinnedBaseVocabularySize pins ->
  kPinnedBaseVocabularySize pins + Z.of_nat (index + length expected) < 2 ^ 32 ->
  (forall i k, by_id !! i = Some k <-> i = kPinnedBaseVocabularySize pins + Z.of_nat k /\ (k < index)%nat) ->
  parse_added pins index values expected tokens by_id = inr (tokens', by_id') ->
  tokens' = tokens ++ imap (fun k => added_token pins (index + k)) expected /\
  (forall i k, by_id' !! i = Some k <-> i = kPinnedBaseVocabularySize pins + Z.of_nat k /\
     (k < index + length expected)%nat).
Proof.
  intros Hlen Hbase. revert index expected tokens by_id Hlen.
  induction values as [|v values IH]; intros index [|content expected] tokens by_id Hlen Hmax Hby H; try done.
  { cbn in H. injection H as <- <-. simpl. rewrite app_nil_r, Nat.add_0_r. done. }
  cbn [parse_added length] in *. loads H.
  repeat match goal with
  | Hb : bool_decide (?x = _) = true |- _ => apply bool_decide_eq_true in Hb; subst x
  | Hb : (?x =? _) = true |- _ => apply Z.eqb_eq in Hb; subst x
  end.
  rewrite u32_small in H by (unfold is_u32; lia).
  destruct (by_id !! (kPinnedBaseVocabularySize pins + Z.of_nat index)) as [k|] eqn:Hk.
  { apply Hby in Hk as [? ?]. lia. }
  apply IH in H as [-> Hby']; [|lia|lia|].
  - rewrite <- app_assoc. split; [|intros i k; rewrite Hby'; lia]. rewrite imap_cons. f_equal. cbn [app].
    unfold added_token at 1. rewrite Nat.add_0_r. f_equal. apply imap_ext. intros k x _. unfold compose.
    by replace (index + S k)%nat with (S index + k)%nat by lia.
  - intros i k. destruct (decide (i = kPinnedBaseVocabularySize pins + Z.of_nat index)) as [->|Hne].
    + rewrite lookup_insert_eq. split; [intros [= <-]; lia|]. intros [? ?]. f_equal. lia.
    + rewrite lookup_insert_ne by done. rewrite Hby. lia.
Qed.

(** ** The byte alphabet *)

(** The code point of a symbol, when it is well formed. *)
Definition symbol_codepoint (symbol : list Z) : option Z :=
  match symbol with
  | [c] => if (0 <=? c) && (c <=? 0x7F) then Some c else None
  | [c; d] =>
      if (0xC2 <=? c) && (c <=? 0xDF) && (Z.land d 0xC0 =? 0x80)
      then Some (Z.lor (Z.shiftl (Z.land c 0x1F) 6) (Z.land d 0x3F)) else None
  | _ => None
  end.

Lemma symbol_decodes symbol codepoint more :
  symbol_codepoint symbol = Some codepoint ->
  decode_utf8_at (symbol ++ more) 0 = Some (codepoint, Z.of_nat (length symbol)).
Proof.
  intros H. destruct symbol as [|c [|d []]]; try done; unfold symbol_codepoint in H.
  - destruct (_ && _) eqn:Hc; [|done]. injection H as <-. bools. unfold decode_utf8_at. cbn [app length].
    rewrite (proj2 (Z.leb_gt _ 0)) by lia. change (at_ (c :: more) 0) with c. by rewrite (proj2 (Z.leb_le _ _)).
  - destruct (_ && _ && _) eqn:Hc; [|done]. injection H as <-. bools. unfold decode_utf8_at. cbn [app length].
    rewrite (proj2 (Z.leb_gt _ 0)) by lia. change (at_ (c :: d :: more) 0) with c.
    change (at_ (c :: d :: more) (0 + 1)) with d.
    rewrite (proj2 (Z.leb_gt c 0x7F)), (proj2 (Z.leb_le 0xC2 c)), (proj2 (Z.leb_le c 0xDF)) by lia.
    rewrite (proj2 (Z.ltb_lt (0 + 1) _)) by lia. by rewrite (proj2 (Z.eqb_eq (Z.land d 0xC0) 0x80)).
Qed.

Definition alphabet_ok (encoder : list (list Z)) (decoder : gmap Z Z) : bool :=
  bool_decide (length encoder = 256%nat) &&
  forallb (fun i => match c ← symbol_codepoint (default [] (encoder !! i)); decoder !! c with
                    | Some byte => byte =? Z.of_nat i
                    | None => false
                    end) (seq 0 256) &&
  forallb (fun entry => (0 <=? snd entry) && (snd entry <? 2 ^ 8)) (map_to_list decoder).

Lemma initialize_byte_mapping_ok :
  match initialize_byte_mapping with inr (encoder, decoder) => alphabet_ok encoder decoder | inl _ => false end = true.
Proof. vm_compute. reflexivity. Qed.

(** The symbol of each byte decodes to the byte, and nothing decodes to
    anything else. *)
Record alphabet (encoder : list (list Z)) (decoder : gmap Z Z) : Prop := {
  alphabet_size : length encoder = 256%nat;
  alphabet_decodes : forall byte, is_u8 byte -> exists symbol codepoint, encoder !! Z.to_nat byte = Some symbol /\
    symbol_codepoint symbol = Some codepoint /\ decoder !! codepoint = Some byte;
  alphabet_bytes : forall codepoint byte, decoder !! codepoint = Some byte -> is_u8 byte
}.

Lemma byte_alphabet encoder decoder :
  initialize_byte_mapping = inr (encoder, decoder) -> alphabet encoder decoder.
Proof.
  intros H. pose proof initialize_byte_mapping_ok as Hok. rewrite H in Hok. clear H. unfold alphabet_ok in Hok.
  apply andb_true_iff in Hok as [[Hlen Hall]%andb_true_iff Hbytes]. apply bool_decide_eq_true in Hlen. split; [done| |].
  2:{ intros c b Hd. rewrite forallb_forall in Hbytes. specialize (Hbytes (c, b)). cbn [snd] in Hbytes.
      rewrite <- list_elem_of_In in Hbytes. specialize (Hbytes (proj2 (elem_of_map_to_list _ _ _) Hd)). unfold is_u8. bools. lia. }
  intros byte Hb. unfold is_u8 in Hb. rewrite forallb_forall in Hall. specialize (Hall (Z.to_nat byte)).
  rewrite in_seq in Hall. specialize (Hall ltac:(lia)). rewrite Z2Nat.id in Hall by lia.
  destruct (lookup_lt_is_Some_2 encoder (Z.to_nat byte) ltac:(lia)) as [symbol Hs]. rewrite Hs in Hall. simpl in Hall.
  destruct (symbol_codepoint symbol) as [c|] eqn:Hc; [|done]. simpl in Hall.
  destruct (decoder !! c) as [b|] eqn:Hd; [|done]. apply Z.eqb_eq in Hall as ->. by exists symbol, c.
Qed.

(** ** Loaded data *)

(** What every tokenizer satisfies. *)
Record data_ok (pins : Pins) (data : TokenizerData) : Prop := {
  data_limits : validate_limits (limits data) = inr tt;
  data_alphabet : alphabet (byte_encoder data) (byte_decoder data);
  data_size : Z.of_nat (length (id_to_token data)) = kPinnedBaseVocabularySize pins;
  data_small : kPinnedBaseVocabularySize pins <= kAbsoluteVocabSize;
  data_vocabulary : forall name i, vocabulary data !! name = Some i <-> token_is (id_to_token data) i name;
  data_bytes : Forall2 (token_is (id_to_token data)) (byte_token_ids data) (byte_encoder data);
  data_byte_level : Forall (fun name => byte_level (byte_decoder data) name = true) (id_to_token data);
  data_merges : merges_ok (id_to_token data) (kPinnedMergeCount pins) (merges data);
  data_merge_count : Z.of_nat (size (merges data)) = kPinnedMergeCount pins;
  data_added : added_tokens data = imap (added_token pins) (expected_contents pins);
  data_by_id : forall i k, added_by_id data !! i = Some k <->
    i = kPinnedBaseVocabularySize pins + Z.of_nat k /\ (k < length (expected_contents pins))%nat
}.

Lemma member_inr object key value : member object key = inr value <-> Json.find object key = Some value.
Proof. unfold member, fail. destruct (Json.find object key); split; congruence. Qed.

Lemma well_formed_member v key u : well_formed v -> Json.find v key = Some u -> well_formed u.
Proof.
  destruct v as [| | | | |members]; try done. simpl. intros [Hwf _] Hf. apply map_find_elem in Hf.
  apply (foldr_and_Forall (fun kv => utf8 (fst kv) /\ well_formed (snd kv))) in Hwf.
  rewrite Forall_forall in Hwf. by apply Hwf in Hf as [_ ?].
Qed.

Record limits_ok (l : TokenizerLimits) : Prop := {
  limits_vocabulary : max_vocab_size l <= kAbsoluteVocabSize;
  limits_merges : max_merges l <= kAbsoluteMerges;
  limits_added : max_added_tokens l <= kAbsoluteAddedTokens
}.

Lemma validate_limits_ok l : validate_limits l = inr tt -> limits_ok l.
Proof. intros H. apply require_inr in H. bools. by constructor. Qed.

Lemma parse_model_ok pins l encoder decoder root m :
  well_formed root -> limits_ok l -> parse_model pins l encoder decoder root = inr m ->
  Z.of_nat (length (model_tokens m)) = kPinnedBaseVocabularySize pins /\
  kPinnedBaseVocabularySize pins <= kAbsoluteVocabSize /\
  (forall name i, model_vocabulary m !! name = Some i <-> token_is (model_tokens m) i name) /\
  Forall2 (fun symbol i => model_vocabulary m !! symbol = Some i) encoder (model_byte_ids m) /\
  Forall (fun name => byte_level decoder name = true) (model_tokens m) /\
  merges_ok (model_tokens m) (kPinnedMergeCount pins) (model_merges m) /\
  Z.of_nat (size (model_merges m)) = kPinnedMergeCount pins.
Proof.
  intros Hwf [Hlv Hlm _] H. unfold parse_model in H. loads H. bools. injection H as <-. cbn [model_tokens model_vocabulary model_byte_ids model_merges].
  match goal with Hm : member root _ = _ |- _ => apply member_inr in Hm; apply (well_formed_member _ _ _ Hwf) in Hm as Hwm end.
  assert (Hdistinct : NoDup a1.*1).
  { apply bind_Some in Ha1 as (vv & Hvv & Hvo). apply (well_formed_member _ _ _ Hwm) in Hvv.
    destruct vv as [| | | | |members]; try done. injection Hvo as ->. apply keys_sorted_NoDup. by destruct Hvv. }
  apply parse_vocabulary_ok in Ha4 as [Hok Hlen]; [|by rewrite repeat_length|lia|done|intros; apply lookup_empty|].
  2: { constructor; [by rewrite !repeat_length|]. intros name i. rewrite lookup_empty. split; [done|].
       intros [_ Hs]. by apply list_elem_of_lookup_2, list_elem_of_In, repeat_spec in Hs. }
  rewrite repeat_length in Hlen. pose proof (all_seen _ _ _ Hok Ha5) as Hvoc.
  apply (parse_merges_ok _ b0) in Ha11 as [Hm Hs]; [|done|lia|lia|by constructor].
  rewrite Z.add_0_l in Hm. rewrite map_size_empty in Hs. simpl in Hs.
  split_and!; [lia|lia|done|by apply find_byte_tokens_Some| |by rewrite <- Ha10|by rewrite Hs].
  apply Forall_forall. intros name Hin. rewrite forallb_forall in Ha7. by apply Ha7, list_elem_of_In.
Qed.

Lemma build_ok pins l root data :
  well_formed root -> validate_limits l = inr tt -> build pins l root = inr data ->
  data_ok pins data /\ limits data = l.
Proof.
  intros Hwf Hl H. pose proof (validate_limits_ok _ Hl) as Hlok. unfold build in H. sum_inv H.
  injection H as <-. split; [|done]. clear Ha. apply byte_alphabet in Ha0.
  apply (parse_model_ok _ _ _ _ _ _ Hwf Hlok) in Ha1 as (Hsize & Hmax & Hvoc & Hbytes & Hlevel & Hmerges & Hcount).
  unfold parse_added_tokens in Ha2. loads Ha2. bools.
  repeat match goal with Hb : bool_decide (length _ = _) = true |- _ => apply bool_decide_eq_true in Hb end.
  destruct Hlok. unfold kAbsoluteVocabSize, kAbsoluteAddedTokens in *.
  apply parse_added_ok in Ha2 as [Htok Hby]; [|done|lia|simpl; lia|].
  2: { intros i k. rewrite lookup_empty. split; [done|lia]. }
  constructor; simpl; try done.
  - apply Forall2_flip. eapply Forall2_impl; [exact Hbytes|]. intros symbol i Hi. by apply Hvoc.
Qed.

(** The limits are [std::size_t]. *)
Record limits_unsigned (l : TokenizerLimits) : Prop := {
  unsigned_vocabulary : 0 <= max_vocab_size l;
  unsigned_merges : 0 <= max_merges l;
  unsigned_added : 0 <= max_added_tokens l;
  unsigned_input : 0 <= max_input_bytes l;
  unsigned_tokens : 0 <= max_tokens l
}.

Lemma load_json_ok icu pins tokenizer_json l data :
  Forall is_u8 tokenizer_json -> limits_unsigned l -> load_json icu pins tokenizer_json l = inr data ->
  data_ok pins data /\ limits data = l /\ Z.of_nat (length tokenizer_json) <= max_tokenizer_bytes l /\
  digest_hex tokenizer_json = kPinnedTokenizerSha256 pins.
Proof.
  intros Hb [Hu1 Hu2 Hu3 _ _] H. unfold load_json in H. sum_inv H. destruct a. apply Z.ltb_ge in Hb0.
  destruct (parse _ _) as [root s| |] eqn:Hp; [|done..]. sum_inv H.
  apply negb_false_iff, bool_decide_eq_true in Hb1. injection H as <-.
  destruct (build_ok pins l root a) as [Hok Hlim]; [|done|done|by split_and!].
  eapply parse_well_formed; [exact Hb| |exact Hp]. constructor; simpl; lia.
Qed.

(** C37. A tokenizer that loads is sound.  [load_json] succeeds only on a JSON
    document with the pinned digest, within valid limits, and then the data it
    returns is consistent: names and ids correspond one to one, the id of
    every byte is that of its symbol and the symbol of a byte decodes to it,
    every token spells bytes, every merge joins the names of its two tokens
    under a rank of its own, and the added tokens are the pinned ones, with
    the ids after the vocabulary's. *)
Theorem load_json_sound icu pins tokenizer_json l data :
  Forall is_u8 tokenizer_json -> limits_unsigned l -> load_json icu pins tokenizer_json l = inr data ->
  data_ok pins data /\ limits data = l /\ Z.of_nat (length tokenizer_json) <= max_tokenizer_bytes l /\
  digest_hex tokenizer_json = kPinnedTokenizerSha256 pins.
Proof. apply load_json_ok. Qed.

Definition sample_json : list Z := render sample_layout.
Definition sample_root : Value :=
  match parse sample_json (load_parse_options sample_limits) with Good root _ => root | _ => Null end.
Definition sample_pins : Pins := {|
  kPinnedBaseVocabularySize := 258; kPinnedMergeCount := 2;
  expected_contents := [lit "<|im_end|>"; lit "<think>"]; expected_specials := 1;
  kPinnedTokenizerSha256 := digest_hex sample_json
|}.

Definition sample_data : TokenizerData :=
  match build sample_pins sample_limits sample_root with
  | inr data => data
  | inl _ => {| limits := sample_limits; vocabulary := ∅; id_to_token := []; merges := ∅; added_tokens := [];
                added_by_id := ∅; byte_encoder := []; byte_token_ids := []; byte_decoder := ∅ |}
  end.

Lemma sample_build : build sample_pins sample_limits sample_root = inr sample_data.
Proof.
  unfold sample_data.
  assert (Hok : match build sample_pins sample_limits sample_root with inr _ => true | inl _ => false end = true)
    by (vm_compute; reflexivity).
  revert Hok. destruct (build sample_pins sample_limits sample_root) as [e|data]; [discriminate|reflexivity].
Qed.

Lemma sample_parses : exists s, parse sample_json (load_parse_options sample_limits) = Good sample_root s.
Proof.
  unfold sample_root.
  assert (Hok : match parse sample_json (load_parse_options sample_limits) with Good _ _ => true | _ => false end = true)
    by (vm_compute; reflexivity).
  revert Hok. destruct (parse _ _) as [root s| |]; [by exists s|discriminate..].
Qed.

Lemma sample_loads : load_json sample_icu sample_pins sample_json sample_limits = inr sample_data.
Proof.
  unfold load_json. change (validate_limits sample_limits) with (@inr TokenizerError unit tt).
  cbn [mbind sum_bind].
  replace (max_tokenizer_bytes sample_limits <? Z.of_nat (length sample_json)) with false by (vm_compute; reflexivity).
  destruct sample_parses as [s ->]. rewrite sample_build. cbn [mbind sum_bind].
  change (kPinnedTokenizerSha256 sample_pins) with (digest_hex sample_json).
  generalize (digest_hex sample_json) as digest. intros digest. by rewrite bool_decide_true.
Qed.

Lemma bytes_reflect l : forallb (fun byte => (0 <=? byte) && (byte <? 2 ^ 8)) l = true -> Forall is_u8 l.
Proof.
  intros Hall. rewrite forallb_forall in Hall. apply Forall_forall. intros byte Hin%list_elem_of_In%Hall.
  bools. done.
Qed.

Lemma load_json_sound_witness : data_ok sample_pins sample_data.
Proof.
  apply (load_json_sound sample_icu sample_pins sample_json sample_limits sample_data).
  - apply bytes_reflect. vm_compute. reflexivity.
  - constructor; vm_compute; discriminate.
  - exact sample_loads.
Defined.
