(* ===== verification/TokenizerText.v ===== *)
(** * Tokenizer: texts and ids

    What [Tokenizer.encode] and [Tokenizer.decode] of the loaded data do with
    any text: the search for added tokens, the segments it cuts the text into,
    the ids that spell each segment, and the way back.  The theorems hold for
    any data [load_json] can return, and for any ICU that converts and matches
    as documented ([icu_ok]). *)

From Stdlib Require Import String.
From stdpp Require Import gmap.
From S2P Require Import Prelude OrderedMap Json Sha256 Bpe Tokenizer.

Lemma substr_app input a b c :
  0 <= a -> a <= b -> b <= c -> substr input a (c - a) = substr input a (b - a) ++ substr input b (c - b).
Proof.
  intros Ha Hb Hc. unfold substr.
  replace (Z.to_nat (c - a)) with (Z.to_nat (b - a) + Z.to_nat (c - b))%nat by lia.
  replace (Z.to_nat b) with (Z.to_nat a + Z.to_nat (b - a))%nat by lia.
  rewrite <- drop_drop. by rewrite take_take_drop.
Qed.

(** ** Searching *)

(** The text holds the pattern at a position. *)
Definition occurs (pattern text : list Z) (k : nat) : Prop :=
  (k <= length text)%nat /\ is_prefix pattern (drop k text) = true.

Lemma is_prefix_true pattern text : is_prefix pattern text = true <-> text = pattern ++ drop (length pattern) text.
Proof.
  revert text. induction pattern as [|p pattern IH]; intros text; [done|].
  destruct text as [|t text]; [done|]. simpl. rewrite andb_true_iff, Z.eqb_eq, IH. split.
  - by intros [-> ?]; f_equal.
  - by intros [= -> ?].
Qed.

Lemma occurs_succ pattern t text k : occurs pattern (t :: text) (S k) <-> occurs pattern text k.
Proof. unfold occurs. simpl. split; intros [? ?]; split; done || lia. Qed.

Lemma occurs_inside pattern text k : occurs pattern text k -> (k + length pattern <= length text)%nat.
Proof.
  intros [Hk Hp%is_prefix_true]. apply (f_equal length) in Hp. rewrite length_app, !length_drop in Hp. lia.
Qed.

(** [find] gives the first position, or [npos]. *)
Lemma find_text_spec pattern text offset :
  (find_text pattern text offset = npos /\ forall k, ~ occurs pattern text k) \/
  (exists k, find_text pattern text offset = offset + Z.of_nat k /\ occurs pattern text k /\
     forall j, (j < k)%nat -> ~ occurs pattern text j).
Proof.
  revert offset. induction text as [|t text IH]; intros offset; cbn [find_text];
    destruct (is_prefix pattern _) eqn:Hp;
    try (right; exists 0%nat; split_and!; [lia|split; [lia|exact Hp]|lia]).
  - left. split; [done|]. intros k [Hk Ho]. destruct k; simpl in *; [congruence|lia].
  - assert (H0 : ~ occurs pattern (t :: text) 0) by (intros [_ Ho]; simpl in *; congruence).
    destruct (IH (offset + 1)) as [[-> Hn]|(k & -> & Ho & Hf)].
    + left. split; [done|]. intros [|k]; [done|]. rewrite occurs_succ. apply Hn.
    + right. exists (S k). split_and!; [lia|by apply occurs_succ|].
      intros [|j] Hj; [done|]. rewrite occurs_succ. apply Hf. lia.
Qed.

(** The first occurrence of any of the tokens, and the longest token there. *)
Definition first_longest (tokens : list AddedToken) (text : list Z) (k : nat) (token : AddedToken) : Prop :=
  token ∈ tokens /\ occurs (token_content token) text k /\
  forall other j, other ∈ tokens -> occurs (token_content other) text j ->
    (k < j)%nat \/ (j = k /\ (length (token_content other) <= length (token_content token))%nat).

Definition none_occurs (tokens : list AddedToken) (text : list Z) : Prop :=
  forall token k, token ∈ tokens -> ~ occurs (token_content token) text k.

(** What the loop over the tokens has found among those it has seen. *)
Definition found_so_far (seen : list AddedToken) (text : list Z) (cursor : Z) (r : Z * option AddedToken) : Prop :=
  match r with
  | (position, None) => position = npos /\ none_occurs seen text
  | (position, Some token) => exists k, position = cursor + Z.of_nat k /\ first_longest seen text k token
  end.

Lemma found_step seen text cursor token position matched :
  0 <= cursor -> cursor + Z.of_nat (length text) < npos ->
  found_so_far seen text cursor (position, matched) ->
  let found := find_text (token_content token) text cursor in
  found_so_far (seen ++ [token]) text cursor
    (if (found <? position) || ((found =? position) && match matched with
          | Some m => (length (token_content m) <? length (token_content token))%nat | None => false end)
     then (found, Some token) else (position, matched)).
Proof.
  intros Hc Hlen Hs. cbv zeta.
  destruct (find_text_spec (token_content token) text cursor) as [[-> Hn]|(k & -> & Ho & Hf)].
  - assert (Hpos : position <= npos /\ (position = npos -> matched = None)).
    { destruct matched as [m|]; [|split; [destruct Hs; lia|done]].
      destruct Hs as (k & -> & _ & Hk & _). apply occurs_inside in Hk. split; lia. }
    rewrite (proj2 (Z.ltb_ge npos position)) by lia. destruct (Z.eqb_spec npos position) as [Heq|_]; simpl.
    + rewrite (proj2 Hpos (eq_sym Heq)) in Hs |- *. clear Hpos. destruct Hs as [Hp Hnone]. split; [done|].
      intros other j [Hin| ->%list_elem_of_singleton]%elem_of_app; [by apply Hnone|apply Hn].
    + clear Hpos. destruct matched as [m|].
      * destruct Hs as (k & -> & Hm & Hk & Hbest). exists k. split; [done|]. split_and!; [set_solver|done|].
        intros other j [Hin| ->%list_elem_of_singleton]%elem_of_app Hoj; [by apply Hbest|by apply Hn in Hoj].
      * destruct Hs as [-> Hnone]. split; [done|].
        intros other j [Hin| ->%list_elem_of_singleton]%elem_of_app; [by apply Hnone|apply Hn].
  - pose proof (occurs_inside _ _ _ Ho).
    assert (Hmin : forall j, occurs (token_content token) text j -> (k <= j)%nat).
    { intros j Hoj. destruct (decide (j < k)%nat); [by apply Hf in Hoj|lia]. }
    destruct matched as [m|].
    + destruct Hs as (k' & -> & Hm & Hk' & Hbest).
      destruct (Z.ltb_spec (cursor + Z.of_nat k) (cursor + Z.of_nat k')) as [Hlt|Hge]; cbn [orb].
      { exists k. split; [done|]. split_and!; [set_solver|done|].
        intros other j [Hin| ->%list_elem_of_singleton]%elem_of_app Hoj.
        - destruct (Hbest _ _ Hin Hoj); lia.
        - apply Hmin in Hoj. lia. }
      destruct (Z.eqb_spec (cursor + Z.of_nat k) (cursor + Z.of_nat k')); cbn [andb];
        [destruct (Nat.ltb_spec (length (token_content m)) (length (token_content token)))|].
      * exists k. split; [done|]. split_and!; [set_solver|done|].
        intros other j [Hin| ->%list_elem_of_singleton]%elem_of_app Hoj.
        -- destruct (Hbest _ _ Hin Hoj); lia.
        -- apply Hmin in Hoj. lia.
      * exists k'. split; [done|]. split_and!; [set_solver|done|].
        intros other j [Hin| ->%list_elem_of_singleton]%elem_of_app Hoj; [by apply Hbest|].
        apply Hmin in Hoj. lia.
      * exists k'. split; [done|]. split_and!; [set_solver|done|].
        intros other j [Hin| ->%list_elem_of_singleton]%elem_of_app Hoj; [by apply Hbest|].
        apply Hmin in Hoj. lia.
    + destruct Hs as [-> Hnone]. rewrite (proj2 (Z.ltb_lt _ _)) by lia. cbn [orb].
      exists k. split; [done|]. split_and!; [set_solver|done|].
      intros other j [Hin| ->%list_elem_of_singleton]%elem_of_app Hoj; [by apply Hnone in Hoj|].
      apply Hmin in Hoj. lia.
Qed.

Lemma find_added_spec tokens text cursor :
  0 <= cursor <= Z.of_nat (length text) -> Z.of_nat (length text) < npos ->
  found_so_far tokens (drop (Z.to_nat cursor) text) cursor (find_added tokens text cursor npos None).
Proof.
  intros Hc Hlen.
  assert (Hgen : forall seen position matched,
    found_so_far seen (drop (Z.to_nat cursor) text) cursor (position, matched) ->
    found_so_far (seen ++ tokens) (drop (Z.to_nat cursor) text) cursor (find_added tokens text cursor position matched)).
  { induction tokens as [|token tokens IH]; intros seen position matched Hs; [by rewrite app_nil_r|].
    cbn [find_added]. pose proof (found_step seen (drop (Z.to_nat cursor) text) cursor token position matched
      ltac:(lia) ltac:(rewrite length_drop; lia) Hs) as Hstep. cbv zeta in Hstep.
    change (token :: tokens) with ([token] ++ tokens). rewrite app_assoc.
    destruct (_ || _); by apply IH. }
  apply (Hgen []). split; [done|]. intros token k Hin. set_solver.
Qed.

Lemma limits_small pins data :
  data_ok pins data -> max_input_bytes (limits data) <= kAbsoluteInputBytes /\ max_tokens (limits data) <= kAbsoluteTokens.
Proof.
  intros Hd. pose proof (data_limits _ _ Hd) as Hl. unfold validate_limits, require, fail in Hl.
  destruct (_ && _) eqn:Hok in Hl; [|done]. bools. lia.
Qed.

(** ** Spelling *)

(** The names of tokens of the vocabulary, one after another. *)
Definition spelling (data : TokenizerData) (ids : list Z) : list Z :=
  mjoin ((fun i => default [] (id_to_token data !! Z.to_nat i)) <$> ids).

Definition in_vocabulary (data : TokenizerData) (i : Z) : Prop := exists name, token_is (id_to_token data) i name.

(** The symbols of bytes. *)
Definition symbols_of (data : TokenizerData) (bytes : list Z) : list Z :=
  mjoin ((fun byte => default [] (byte_encoder data !! Z.to_nat byte)) <$> bytes).

Lemma spelling_app data a b : spelling data (a ++ b) = spelling data a ++ spelling data b.
Proof. unfold spelling. by rewrite fmap_app, join_app. Qed.

Lemma spelling_one data i name : token_is (id_to_token data) i name -> spelling data [i] = name.
Proof. intros [_ Hn]. unfold spelling. simpl. rewrite Hn. apply app_nil_r. Qed.

Lemma symbols_app data a b : symbols_of data (a ++ b) = symbols_of data a ++ symbols_of data b.
Proof. unfold symbols_of. by rewrite fmap_app, join_app. Qed.

Section Spelling.
Variables (pins : Pins) (data : TokenizerData).
Hypothesis Hdata : data_ok pins data.

Lemma token_range i name : token_is (id_to_token data) i name -> 0 <= i < 2 ^ 32.
Proof.
  intros [Hi Hn]. apply lookup_lt_Some in Hn. pose proof (data_size _ _ Hdata). pose proof (data_small _ _ Hdata).
  unfold kAbsoluteVocabSize in *. lia.
Qed.

Lemma pair_key_inj l r l' r' :
  0 <= l -> 0 <= r < 2 ^ 32 -> 0 <= l' -> 0 <= r' < 2 ^ 32 -> pair_key l r = pair_key l' r' -> l = l' /\ r = r'.
Proof.
  intros Hl Hr Hl' Hr'. unfold pair_key.
  rewrite !(Z.lor_comm (Z.shiftl _ _)), !lor_shiftl_add by lia. lia.
Qed.

(** Merging keeps the spelling. *)
Lemma merge_pairs_spelling fuel ids :
  Forall (in_vocabulary data) ids ->
  Forall (in_vocabulary data) (merge_pairs (merges data) fuel ids) /\
  spelling data (merge_pairs (merges data) fuel ids) = spelling data ids.
Proof.
  revert ids. induction fuel as [|fuel IH]; intros ids Hv; [done|]. cbn [merge_pairs].
  destruct (best_pair (merges data) ids) as [[[k i] r]|] eqn:Hbest; [|done].
  apply best_pair_sound in Hbest as (a & b & rule & Ha & Hb & Hrule & _ & <-).
  pose proof (rules_ok _ _ _ (data_merges _ _ Hdata) _ _ Hrule) as (l & r & nl & nr & Hkey & Hl & Hr & Hres & _).
  rewrite Forall_forall in Hv.
  destruct (Hv a ltac:(by eapply list_elem_of_lookup_2)) as [na Hna].
  destruct (Hv b ltac:(by eapply list_elem_of_lookup_2)) as [nb Hnb].
  pose proof (token_range _ _ Hl). pose proof (token_range _ _ Hr).
  pose proof (token_range _ _ Hna). pose proof (token_range _ _ Hnb).
  apply pair_key_inj in Hkey as [-> ->]; [|lia..].
  assert (Hsplit : ids = take i ids ++ l :: r :: drop (i + 2) ids).
  { rewrite <- (take_drop i ids) at 1. f_equal. rewrite (drop_S _ _ _ Ha). f_equal.
    rewrite (drop_S _ _ _ Hb). by replace (i + 2)%nat with (S (S i)) by lia. }
  destruct (IH (take i ids ++ result_id rule :: drop (i + 2) ids)) as [IHv IHs].
  { apply Forall_app. split; [apply Forall_take; by apply Forall_forall|]. apply Forall_cons.
    split; [by exists (nl ++ nr)|]. apply Forall_drop. by apply Forall_forall. }
  split; [done|]. rewrite IHs. rewrite Hsplit at 3.
  rewrite !spelling_app. f_equal. change (l :: r :: drop (i + 2) ids) with ([l] ++ [r] ++ drop (i + 2) ids).
  change (result_id rule :: drop (i + 2) ids) with ([result_id rule] ++ drop (i + 2) ids).
  rewrite !spelling_app, (spelling_one _ _ _ Hl), (spelling_one _ _ _ Hr), (spelling_one _ _ _ Hres).
  by rewrite <- app_assoc.
Qed.

Lemma byte_ids_spelling bytes :
  Forall is_u8 bytes ->
  Forall (in_vocabulary data) (at_ (byte_token_ids data) <$> bytes) /\
  spelling data (at_ (byte_token_ids data) <$> bytes) = symbols_of data bytes.
Proof.
  induction 1 as [|byte bytes Hb Hbytes [IHv IHs]]; [split; [constructor|done]|]. rewrite fmap_cons.
  destruct (alphabet_decodes _ _ (data_alphabet _ _ Hdata) byte Hb) as (symbol & c & Hsym & _).
  destruct (Forall2_lookup_r _ _ _ _ _ (data_bytes _ _ Hdata) Hsym) as (i & Hi & Htok).
  assert (Hat : at_ (byte_token_ids data) byte = i).
  { unfold is_u8 in Hb. apply lookup_at in Hi. by rewrite Z2Nat.id in Hi by lia. }
  split; [apply Forall_cons; split; [rewrite Hat; by exists symbol|done]|].
  change (at_ (byte_token_ids data) byte :: (at_ (byte_token_ids data) <$> bytes))
    with ([at_ (byte_token_ids data) byte] ++ (at_ (byte_token_ids data) <$> bytes)).
  rewrite spelling_app, Hat, (spelling_one _ _ _ Htok), IHs. unfold symbols_of at 2. rewrite fmap_cons. simpl.
  by rewrite Hsym.
Qed.

Lemma byte_pair_spelling bytes :
  Forall is_u8 bytes ->
  Forall (in_vocabulary data) (byte_pair_encoding (merges data) (at_ (byte_token_ids data) <$> bytes)) /\
  spelling data (byte_pair_encoding (merges data) (at_ (byte_token_ids data) <$> bytes)) = symbols_of data bytes.
Proof.
  intros Hb. destruct (byte_ids_spelling bytes Hb) as [Hv Hs]. unfold byte_pair_encoding.
  destruct (merge_pairs_spelling (length (at_ (byte_token_ids data) <$> bytes)) _ Hv) as [? ->]. done.
Qed.

(** ** Decoding symbols *)

Lemma at_app l1 l2 i : 0 <= i -> at_ (l1 ++ l2) (Z.of_nat (length l1) + i) = at_ l2 i.
Proof.
  intros Hi. unfold at_. replace (Z.to_nat (Z.of_nat (length l1) + i)) with (length l1 + Z.to_nat i)%nat by lia.
  rewrite app_nth2 by lia. f_equal. lia.
Qed.

(** Decoding looks only at what follows the offset. *)
Lemma decode_utf8_shift before input :
  decode_utf8_at (before ++ input) (Z.of_nat (length before)) =
  (fun r => (r.1, Z.of_nat (length before) + r.2)) <$> decode_utf8_at input 0.
Proof.
  unfold decode_utf8_at. rewrite length_app.
  pose proof (at_app before input 0 ltac:(lia)) as H0. rewrite Z.add_0_r in H0.
  rewrite H0, !at_app by lia.
  change (0 + 1) with 1. change (0 + 2) with 2. change (0 + 3) with 3.
  assert (Hlt : forall k, (Z.of_nat (length before) + k <? Z.of_nat (length before + length input)) =
    (k <? Z.of_nat (length input))).
  { intros k. apply eq_iff_eq_true. rewrite !Z.ltb_lt. lia. }
  assert (Hle : (Z.of_nat (length before + length input) <=? Z.of_nat (length before)) =
    (Z.of_nat (length input) <=? 0)) by (apply eq_iff_eq_true; rewrite !Z.leb_le; lia).
  rewrite !Hlt, Hle. repeat (case_match; try done).
Qed.

Lemma symbol_bytes_symbols bytes before fuel :
  Forall is_u8 bytes -> (length (symbols_of data bytes) < fuel)%nat ->
  symbol_bytes data fuel (before ++ symbols_of data bytes) (Z.of_nat (length before)) = Some bytes.
Proof.
  intros Hb. revert before fuel. induction Hb as [|byte bytes Hbyte Hb IH]; intros before fuel Hf.
  { destruct fuel; [done|]. cbn [symbol_bytes]. unfold symbols_of. simpl. rewrite app_nil_r, Z.ltb_irrefl. done. }
  destruct fuel as [|fuel]; [lia|]. cbn [symbol_bytes].
  destruct (alphabet_decodes _ _ (data_alphabet _ _ Hdata) byte Hbyte) as (symbol & c & Hsym & Hc & Hdec).
  assert (Hs : symbols_of data (byte :: bytes) = symbol ++ symbols_of data bytes)
    by (unfold symbols_of at 1; rewrite fmap_cons; simpl; by rewrite Hsym).
  rewrite Hs in *. rewrite length_app in Hf.
  assert (Hpos : (1 <= length symbol)%nat) by (destruct symbol; [done|simpl; lia]).
  rewrite (proj2 (Z.ltb_lt _ _)) by (rewrite !length_app; lia).
  rewrite decode_utf8_shift, (symbol_decodes _ _ _ Hc). simpl. rewrite Hdec. simpl.
  rewrite app_assoc. replace (Z.of_nat (length before) + Z.of_nat (length symbol)) with
    (Z.of_nat (length (before ++ symbol))) by (rewrite length_app; lia).
  by rewrite IH by lia.
Qed.

Lemma symbols_length bytes : Forall is_u8 bytes -> (length (symbols_of data bytes) <= 2 * length bytes)%nat.
Proof.
  induction 1 as [|byte bytes Hbyte Hb IH]; [done|].
  destruct (alphabet_decodes _ _ (data_alphabet _ _ Hdata) byte Hbyte) as (symbol & c & Hsym & Hc & _).
  change (byte :: bytes) with ([byte] ++ bytes). rewrite symbols_app, !length_app.
  unfold symbols_of at 1. simpl. rewrite Hsym, app_nil_r. simpl.
  assert ((length symbol <= 2)%nat); [|lia]. destruct symbol as [|? [|? []]]; simpl; try lia. done.
Qed.

Lemma flush_symbols_of bytes text :
  Forall is_u8 bytes -> flush_symbols data (symbols_of data bytes) text = append_output data bytes text.
Proof.
  intros Hb. unfold flush_symbols.
  pose proof (symbol_bytes_symbols bytes [] (S (length (symbols_of data bytes))) Hb ltac:(lia)) as Hd.
  change (symbol_bytes data (S (length (symbols_of data bytes))) (symbols_of data bytes) 0 = Some bytes) in Hd.
  by rewrite Hd.
Qed.

(** ** Decoding what was spelled *)

(** What a run of ids stands for: bytes, or an added token. *)
Inductive item := Bytes (bytes : list Z) | Special (token : AddedToken).

Inductive spells : list Z -> list item -> Prop :=
  | spells_nil : spells [] []
  | spells_bytes ids bytes more items :
      Forall (in_vocabulary data) ids -> Forall is_u8 bytes -> spelling data ids = symbols_of data bytes ->
      spells more items -> spells (ids ++ more) (Bytes bytes :: items)
  | spells_special token more items :
      token ∈ added_tokens data -> spells more items -> spells (added_id token :: more) (Special token :: items).

Definition item_text (skip_special_tokens : bool) (i : item) : list Z :=
  match i with
  | Bytes bytes => bytes
  | Special token => if negb skip_special_tokens || negb (special token) then token_content token else []
  end.

Definition items_length (items : list item) : Z :=
  foldr (fun i n => Z.of_nat (length (item_text false i)) + n) 0 items.

Lemma items_length_nonneg items : 0 <= items_length items.
Proof. induction items; simpl; lia. Qed.

Lemma spells_app ids1 items1 ids2 items2 :
  spells ids1 items1 -> spells ids2 items2 -> spells (ids1 ++ ids2) (items1 ++ items2).
Proof.
  intros H1 H2. induction H1; simpl; [done|rewrite <- app_assoc|]; by constructor.
Qed.

Lemma decode_names skip ids more symbols text :
  Forall (in_vocabulary data) ids ->
  Z.of_nat (length symbols) + Z.of_nat (length (spelling data ids)) <= max_input_bytes (limits data) ->
  decode_from data skip (ids ++ more) symbols text = decode_from data skip more (symbols ++ spelling data ids) text.
Proof.
  intros Hv. revert symbols. induction Hv as [|i ids [name Hi] Hv IH]; intros symbols Hlim.
  { unfold spelling. simpl. by rewrite app_nil_r. }
  change (i :: ids) with ([i] ++ ids) in *. rewrite spelling_app, (spelling_one _ _ _ Hi), length_app in *.
  pose proof Hi as [_ Hn]. simpl. rewrite Hn. rewrite !(proj2 (Z.ltb_ge _ _)) by lia. cbn [orb].
  rewrite IH by (rewrite length_app; lia). by rewrite <- app_assoc.
Qed.

Lemma added_lookup token :
  token ∈ added_tokens data ->
  id_to_token data !! Z.to_nat (added_id token) = None /\
  (index ← added_by_id data !! added_id token; added_tokens data !! index) = Some token.
Proof.
  intros [k Hk]%list_elem_of_lookup_1. pose proof Hk as Hk'. rewrite (data_added _ _ Hdata), list_lookup_imap in Hk'.
  apply fmap_Some in Hk' as (content & Hc & ->). apply lookup_lt_Some in Hc. cbn [added_token added_id].
  pose proof (data_size _ _ Hdata). split; [apply lookup_ge_None_2; lia|].
  rewrite (proj2 (data_by_id _ _ Hdata _ k)) by (split; [done|lia]). simpl. exact Hk.
Qed.

Lemma append_output_fits value text :
  Z.of_nat (length value) + Z.of_nat (length text) <= max_input_bytes (limits data) ->
  append_output data value text = inr (text ++ value).
Proof. intros H. unfold append_output. by rewrite !(proj2 (Z.ltb_ge _ _)) by lia. Qed.

Lemma decode_spelled skip ids items pending text :
  spells ids items -> Forall is_u8 pending ->
  2 * (Z.of_nat (length text) + Z.of_nat (length pending) + items_length items) <= max_input_bytes (limits data) ->
  decode_from data skip ids (symbols_of data pending) text =
  (text ++ pending ++ mjoin (item_text skip <$> items), None).
Proof.
  intros Hs. revert pending text. induction Hs as [|ids bytes more items Hv Hb Hsp Hs IH|token more items Hin Hs IH];
    intros pending text Hp Hlim; cbn [items_length foldr item_text] in Hlim; try fold (items_length items) in Hlim.
  - cbn [decode_from]. rewrite flush_symbols_of by done. rewrite append_output_fits by lia.
    simpl. by rewrite app_nil_r.
  - pose proof (symbols_length pending Hp). pose proof (symbols_length bytes Hb).
    pose proof (items_length_nonneg items). rewrite decode_names by (rewrite ?Hsp; done || lia).
    rewrite Hsp, <- symbols_app, IH.
    + by rewrite <- !app_assoc.
    + by apply Forall_app.
    + rewrite length_app. lia.
  - destruct (added_lookup token Hin) as [Hnone Hsome]. pose proof (items_length_nonneg items).
    cbn [decode_from]. rewrite Hnone, Hsome. rewrite flush_symbols_of by done.
    cbn [negb orb] in Hlim. rewrite append_output_fits by lia. rewrite fmap_cons. cbn [mjoin list_join item_text].
    change [] with (symbols_of data []). destruct (negb skip || negb (special token)).
    + rewrite append_output_fits by (rewrite length_app; lia). rewrite IH; [|constructor|].
      * by rewrite <- !app_assoc.
      * rewrite !length_app. simpl. lia.
    + rewrite IH; [|constructor|rewrite !length_app; simpl; lia]. simpl. by rewrite <- app_assoc.
Qed.

(** The outcome of decoding ids that spell [whole]: all of it, or the limit was
    met, with a beginning of it decoded. *)
Definition decodes_to (whole : list Z) (result : list Z * option TokenizerError) : Prop :=
  result = (whole, None) \/ exists partial, result = (partial, Some (error_ kInputTooLarge)) /\ partial `prefix_of` whole.

Lemma decodes_stop text rest : decodes_to (text ++ rest) (text, Some (error_ kInputTooLarge)).
Proof. right. exists text. split; [done|by exists rest]. Qed.

Lemma append_output_cases value text : append_output data value text = inr (text ++ value) \/ append_output data value text = fail kInputTooLarge.
Proof. unfold append_output. destruct (_ || _); auto. Qed.

Lemma decode_names_cases skip ids more symbols text :
  Forall (in_vocabulary data) ids ->
  decode_from data skip (ids ++ more) symbols text = decode_from data skip more (symbols ++ spelling data ids) text \/
  decode_from data skip (ids ++ more) symbols text = (text, Some (error_ kInputTooLarge)).
Proof.
  intros Hv. revert symbols. induction Hv as [|i ids [name Hi] Hv IH]; intros symbols.
  { left. unfold spelling. simpl. by rewrite app_nil_r. }
  change (i :: ids) with ([i] ++ ids). rewrite spelling_app, (spelling_one _ _ _ Hi).
  pose proof Hi as [_ Hn]. simpl. rewrite Hn. destruct (_ || _); [by right|]. rewrite app_assoc. apply IH.
Qed.

(** Whatever the lengths, decoding what was spelled gives it back or meets the
    limit; nothing else. *)
Lemma decode_spelled_cases skip ids items pending text :
  spells ids items -> Forall is_u8 pending ->
  decodes_to (text ++ pending ++ mjoin (item_text skip <$> items)) (decode_from data skip ids (symbols_of data pending) text).
Proof.
  intros Hs. revert pending text. induction Hs as [|ids bytes more items Hv Hb Hsp Hs IH|token more items Hin Hs IH]; intros pending text Hp.
  - cbn [decode_from]. rewrite flush_symbols_of by done. destruct (append_output_cases pending text) as [->| ->]; [|apply decodes_stop].
    left. simpl. by rewrite app_nil_r.
  - destruct (decode_names_cases skip ids more (symbols_of data pending) text Hv) as [->| ->]; [|apply decodes_stop].
    rewrite Hsp, <- symbols_app. specialize (IH (pending ++ bytes) text). rewrite <- !app_assoc in IH. apply IH. by apply Forall_app.
  - destruct (added_lookup token Hin) as [Hnone Hsome]. cbn [decode_from]. rewrite Hnone, Hsome, flush_symbols_of by done.
    destruct (append_output_cases pending text) as [->| ->]; [|apply decodes_stop].
    rewrite fmap_cons. cbn [mjoin list_join item_text]. rewrite app_assoc. destruct (negb skip || negb (special token)).
    + destruct (append_output_cases (token_content token) (text ++ pending)) as [->| ->]; [|apply decodes_stop].
      rewrite (app_assoc (text ++ pending)). by apply (IH []).
    + by apply (IH []).
Qed.

(** ** Encoding spells the text *)

Variable icu : Icu.

(** A position the matcher reports. *)
Definition boundary (u : UnicodeString icu) (b : Z) : Prop :=
  exists k s e failed, find_match icu u k = (Some (s, e), failed) /\ (b = s \/ b = e).

(** What the source relies on: converting gives bytes, pieces that meet at a
    position of a match join, and matches lie within the string. *)
Record icu_ok : Prop := {
  utf8_bytes : forall u from to, Forall is_u8 (toUTF8 icu u from to);
  utf8_empty : forall u at_, toUTF8 icu u at_ at_ = [];
  utf8_join : forall u a b c, 0 <= a <= b -> b <= c <= unicode_length icu u -> boundary u b ->
    toUTF8 icu u a b ++ toUTF8 icu u b c = toUTF8 icu u a c;
  length_nonneg : forall u, 0 <= unicode_length icu u;
  match_inside : forall u k s e failed, find_match icu u k = (Some (s, e), failed) -> e <= unicode_length icu u
}.
Hypothesis Hicu : icu_ok.

(** Everything appended to [output], within the token limit. *)
Definition appends (output ids : list Z) (items : list item) (result : list Z) : Prop :=
  result = output ++ ids /\ spells ids items /\
  (Z.of_nat (length output) <= max_tokens (limits data) -> Z.of_nat (length result) <= max_tokens (limits data)).

Lemma appends_nil output : appends output [] [] output.
Proof. split_and!; [by rewrite app_nil_r|constructor|done]. Qed.

Lemma appends_trans output ids1 items1 mid ids2 items2 result :
  appends output ids1 items1 mid -> appends mid ids2 items2 result ->
  appends output (ids1 ++ ids2) (items1 ++ items2) result.
Proof.
  intros (-> & H1 & L1) (-> & H2 & L2). split_and!; [by rewrite app_assoc|by apply spells_app|auto].
Qed.

(** A step that spells [bytes], or fails. *)
Definition spells_bytes_of (bytes output : list Z) (r : encoded) : Prop :=
  match r with
  | Encoded result => exists ids, appends output ids [Bytes bytes] result /\
      Forall (in_vocabulary data) ids /\ spelling data ids = symbols_of data bytes
  | EncodeFailed _ result => Z.of_nat (length output) <= max_tokens (limits data) ->
      Z.of_nat (length result) <= max_tokens (limits data)
  | EncodeLoops => False
  end.

Lemma spells_bytes_intro output ids bytes result :
  result = output ++ ids -> Forall is_u8 bytes -> Forall (in_vocabulary data) ids ->
  spelling data ids = symbols_of data bytes ->
  (Z.of_nat (length output) <= max_tokens (limits data) -> Z.of_nat (length result) <= max_tokens (limits data)) ->
  spells_bytes_of bytes output (Encoded result).
Proof.
  intros -> Hb Hv Hs Hl. exists ids. split; [|done]. split_and!; [done| |done].
  rewrite <- (app_nil_r ids). constructor; [done..|constructor].
Qed.

Lemma spells_nothing output : spells_bytes_of [] output (Encoded output).
Proof. apply (spells_bytes_intro _ []); [by rewrite app_nil_r|constructor|constructor|done|done]. Qed.

Lemma spells_bytes_then bytes1 bytes2 output r k :
  Forall is_u8 bytes1 -> Forall is_u8 bytes2 -> spells_bytes_of bytes1 output r ->
  (forall mid, spells_bytes_of bytes2 mid (k mid)) ->
  spells_bytes_of (bytes1 ++ bytes2) output (and_then r k).
Proof.
  intros Hb1 Hb2 Hr Hk. destruct r as [mid|e mid|]; [|done..].
  destruct Hr as (ids1 & (-> & _ & L1) & Hv1 & Hs1). cbn [and_then]. specialize (Hk (output ++ ids1)).
  destruct (k (output ++ ids1)) as [result|e result|]; [|simpl in *; auto|done].
  destruct Hk as (ids2 & (-> & _ & L2) & Hv2 & Hs2).
  apply (spells_bytes_intro _ (ids1 ++ ids2)); [by rewrite app_assoc|by apply Forall_app|by apply Forall_app| |auto].
  by rewrite spelling_app, symbols_app, Hs1, Hs2.
Qed.

Lemma encode_piece_spells piece output :
  Forall is_u8 piece -> Z.of_nat (length piece) <= npos -> spells_bytes_of piece output (encode_piece data piece output).
Proof.
  intros Hb Hlen. unfold encode_piece.
  destruct (encode_bpe_piece_exact (merges data) (byte_token_ids data) (max_tokens (limits data)) piece output Hlen)
    as (_ & _ & ->).
  destruct (byte_pair_spelling piece Hb) as [Hv Hs].
  set (result := byte_pair_encoding _ _) in *. destruct (Z.leb_spec (Z.of_nat (length output + length result))
    (Z.max (max_tokens (limits data)) (Z.of_nat (length output)))).
  - apply (spells_bytes_intro _ result); [done..|]. rewrite length_app. lia.
  - simpl. intros Ho. rewrite length_app, length_take. lia.
Qed.

Lemma encode_span_spells u from to output :
  spells_bytes_of (toUTF8 icu u from to) output (encode_span icu data u from to output).
Proof.
  unfold encode_span. destruct (Z.ltb_spec kAbsoluteInputBytes (Z.of_nat (length (toUTF8 icu u from to)))); [exact id|].
  destruct (_ <? _); [exact id|]. apply encode_piece_spells; [by apply utf8_bytes|].
  unfold kAbsoluteInputBytes, npos, u64_max in *. lia.
Qed.

Lemma encode_matches_spells fuel u k previous_end output :
  0 <= previous_end <= unicode_length icu u -> (previous_end = 0 \/ boundary u previous_end) ->
  unicode_length icu u - previous_end < Z.of_nat fuel ->
  spells_bytes_of (toUTF8 icu u previous_end (unicode_length icu u)) output
    (encode_matches icu data fuel u k previous_end output).
Proof.
  revert k previous_end output. induction fuel as [|fuel IH]; intros k previous_end output Hp Hb Hf; [lia|].
  cbn [encode_matches]. destruct (find_match icu u k) as [[[start end_]|] failed] eqn:Hm.
  - destruct (failed || _ || _) eqn:Hbad; [exact id|]. bools.
    pose proof (match_inside Hicu _ _ _ _ _ Hm) as Hin.
    assert (Hbs : boundary u start) by (exists k, start, end_, failed; auto).
    assert (Hbe : boundary u end_) by (exists k, start, end_, failed; auto).
    rewrite <- (utf8_join Hicu u previous_end start) by (done || lia).
    rewrite <- (utf8_join Hicu u start end_) by (done || lia).
    apply spells_bytes_then; [by apply utf8_bytes|apply Forall_app; split; by apply utf8_bytes| |].
    + destruct (Z.ltb_spec previous_end start); [apply encode_span_spells|].
      replace start with previous_end by lia. rewrite (utf8_empty Hicu). apply spells_nothing.
    + intros mid. apply spells_bytes_then; [by apply utf8_bytes|by apply utf8_bytes|apply encode_span_spells|].
      intros mid'. apply IH; [lia|by right|lia].
  - destruct failed; [exact id|]. destruct (Z.ltb_spec previous_end (unicode_length icu u)); [apply encode_span_spells|].
    replace (unicode_length icu u) with previous_end by lia. rewrite (utf8_empty Hicu). apply spells_nothing.
Qed.

(** The text of a segment after normalization. *)
Definition nfc (segment : list Z) : list Z :=
  match normalize icu (fromUTF8 icu segment) with
  | Some u => toUTF8 icu u 0 (unicode_length icu u)
  | None => []
  end.

Lemma encode_normal_segment_spells s output :
  s <> [] -> spells_bytes_of (nfc s) output (encode_normal_segment icu data s output).
Proof.
  intros Hs. unfold encode_normal_segment, nfc. rewrite bool_decide_false by done.
  destruct (validate_utf8 s); [exact id|]. destruct (_ <? _); [exact id|]. destruct (negb _); [exact id|].
  destruct (normalize icu (fromUTF8 icu s)) as [u|]; [|exact id]. destruct (negb _); [exact id|].
  pose proof (length_nonneg Hicu u). apply encode_matches_spells; [lia|by left|lia].
Qed.

(** ** Segments *)

(** A text is cut at its added tokens: the first occurrence, of the longest
    token there, over and over. *)
Inductive segment := Normal (text : list Z) | Added (token : AddedToken).

Definition normal_before (k : nat) (text : list Z) : list segment :=
  match k with O => [] | S _ => [Normal (take k text)] end.

Inductive splits : list Z -> list segment -> Prop :=
  | splits_nil : splits [] []
  | splits_rest text : text <> [] -> none_occurs (added_tokens data) text -> splits text [Normal text]
  | splits_token text k token segments :
      first_longest (added_tokens data) text k token ->
      splits (drop (k + length (token_content token)) text) segments ->
      splits text (normal_before k text ++ Added token :: segments).

Definition segment_source (s : segment) : list Z := match s with Normal text => text | Added token => token_content token end.
Definition segment_item (s : segment) : item := match s with Normal text => Bytes (nfc text) | Added token => Special token end.

Lemma splits_source text segments : splits text segments -> mjoin (segment_source <$> segments) = text.
Proof.
  induction 1 as [|text Hne Hnone|text k token segments (_ & [Hk Ho%is_prefix_true] & _) Hs IH]; [done|apply app_nil_r|].
  rewrite drop_drop in Ho. change (Added token :: segments) with ([Added token] ++ segments).
  rewrite !fmap_app, !join_app, IH. change (mjoin (segment_source <$> [Added token])) with (token_content token ++ []).
  rewrite app_nil_r, <- Ho. destruct k as [|k]; [done|].
  change (mjoin (segment_source <$> normal_before (S k) text)) with (take (S k) text ++ []).
  rewrite app_nil_r. apply take_drop.
Qed.

(** An encoding of segments, or an error. *)
Definition encodes_rest (rest output : list Z) (r : encoded) : Prop :=
  match r with
  | Encoded result => exists segments ids, splits rest segments /\ appends output ids (segment_item <$> segments) result
  | EncodeFailed _ result => Z.of_nat (length output) <= max_tokens (limits data) ->
      Z.of_nat (length result) <= max_tokens (limits data)
  | EncodeLoops => False
  end.

Lemma spells_bytes_appends text output r :
  spells_bytes_of (nfc text) output r ->
  match r with
  | Encoded result => exists ids, appends output ids [segment_item (Normal text)] result
  | EncodeFailed _ result => Z.of_nat (length output) <= max_tokens (limits data) ->
      Z.of_nat (length result) <= max_tokens (limits data)
  | EncodeLoops => False
  end.
Proof. destruct r as [result| |]; [|done..]. intros (ids & H & _). by exists ids. Qed.

Hypothesis Hcontents : Forall (fun content => content <> []) (expected_contents pins).

Lemma content_nonempty token : token ∈ added_tokens data -> token_content token <> [].
Proof.
  intros [k Hk]%list_elem_of_lookup_1. rewrite (data_added _ _ Hdata), list_lookup_imap in Hk.
  apply fmap_Some in Hk as (content & Hc & ->). rewrite Forall_forall in Hcontents.
  apply Hcontents. by eapply list_elem_of_lookup_2.
Qed.

Lemma appends_special token output :
  token ∈ added_tokens data -> Z.of_nat (length output) < max_tokens (limits data) ->
  appends output [added_id token] [Special token] (output ++ [added_id token]).
Proof.
  intros Hin Hlt. split_and!; [done|apply spells_special; [done|constructor]|]. rewrite length_app. simpl. lia.
Qed.

Lemma encode_from_splits fuel text cursor output :
  0 <= cursor <= Z.of_nat (length text) -> Z.of_nat (length text) < npos ->
  Z.of_nat (length text) - cursor + 1 < Z.of_nat fuel ->
  encodes_rest (drop (Z.to_nat cursor) text) output (encode_from icu data fuel text cursor output).
Proof.
  revert cursor output. induction fuel as [|fuel IH]; intros cursor output Hc Hlen Hf; [lia|]. cbn [encode_from].
  destruct (Z.ltb_spec cursor (Z.of_nat (length text))) as [Hlt|Hge]; cbn [negb].
  2:{ rewrite drop_ge by lia. exists [], []. split; [constructor|apply appends_nil]. }
  pose proof (find_added_spec (added_tokens data) text cursor Hc Hlen) as Hfound.
  destruct (find_added _ _ _ _ _) as [position [token|]]; simpl in Hfound.
  - destruct Hfound as (k & -> & Hfirst). pose proof Hfirst as (Hin & Ho & _).
    pose proof (occurs_inside _ _ _ Ho) as Hinside. rewrite length_drop in Hinside.
    pose proof (content_nonempty token Hin) as Hne.
    assert (Hpos : (1 <= length (token_content token))%nat) by (destruct (token_content token); [done|simpl; lia]).
    assert (Hrest : forall mid ids1,
      appends output ids1 (segment_item <$> normal_before k (drop (Z.to_nat cursor) text)) mid ->
      encodes_rest (drop (Z.to_nat cursor) text) output
        (if max_tokens (limits data) <=? Z.of_nat (length mid) then EncodeFailed (error_ kTooManyTokens) mid
         else encode_from icu data fuel text (cursor + Z.of_nat k + Z.of_nat (length (token_content token)))
                (mid ++ [added_id token]))).
    { intros mid ids1 Hmid. pose proof Hmid as (_ & _ & Hbound).
      destruct (Z.leb_spec (max_tokens (limits data)) (Z.of_nat (length mid))); [exact Hbound|].
      pose proof (appends_special token mid Hin ltac:(lia)) as Hspecial. pose proof Hspecial as (_ & _ & Hbound').
      specialize (IH (cursor + Z.of_nat k + Z.of_nat (length (token_content token))) (mid ++ [added_id token])
        ltac:(lia) Hlen ltac:(lia)).
      destruct (encode_from _ _ _ _ _ _) as [result|e result|]; simpl in IH |- *; [|auto|done].
      destruct IH as (segments & ids & Hsplit & Happ).
      replace (Z.to_nat (cursor + Z.of_nat k + Z.of_nat (length (token_content token)))) with
        (Z.to_nat cursor + (k + length (token_content token)))%nat in Hsplit by lia.
      rewrite <- drop_drop in Hsplit.
      eexists _, _. split; [by eapply splits_token|].
      rewrite fmap_app, fmap_cons. eapply appends_trans; [exact Hmid|].
      change (segment_item (Added token) :: (segment_item <$> segments)) with ([Special token] ++ (segment_item <$> segments)).
      eapply appends_trans; [exact Hspecial|exact Happ]. }
    destruct (Z.ltb_spec cursor (cursor + Z.of_nat k)).
    + unfold substr. replace (Z.to_nat (cursor + Z.of_nat k - cursor)) with k by lia.
      destruct k as [|k]; [lia|].
      pose proof (encode_normal_segment_spells (take (S k) (drop (Z.to_nat cursor) text)) output) as Hseg.
      apply spells_bytes_appends in Hseg.
      2:{ intros Hnil. apply (f_equal length) in Hnil. rewrite length_take, length_drop in Hnil. cbn [length] in Hnil. lia. }
      destruct (encode_normal_segment _ _ _ _) as [mid|e mid|]; cbn [and_then]; [|done..].
      destruct Hseg as [ids1 Hids1]. by apply (Hrest mid ids1).
    + destruct k as [|k]; [|lia]. cbn [and_then]. apply (Hrest output []), appends_nil.
  - destruct Hfound as [-> Hnone].
    pose proof (encode_normal_segment_spells (substr text cursor (Z.of_nat (length text) - cursor)) output) as Hseg.
    assert (Hsub : substr text cursor (Z.of_nat (length text) - cursor) = drop (Z.to_nat cursor) text)
      by (unfold substr; rewrite take_ge; [done|rewrite length_drop; lia]).
    assert (Hne : drop (Z.to_nat cursor) text <> []).
    { intros Hnil. apply (f_equal length) in Hnil. rewrite length_drop in Hnil. simpl in Hnil. lia. }
    rewrite Hsub in *. apply spells_bytes_appends in Hseg; [|done].
    destruct (encode_normal_segment _ _ _ _) as [mid|e mid|]; cbn [and_then]; [|done..].
    destruct Hseg as [ids Hids]. destruct fuel as [|fuel]; [lia|]. cbn [encode_from]. rewrite Z.ltb_irrefl.
    eexists [Normal _], _. split; [by constructor|exact Hids].
Qed.

(** What decoding the ids of segments gives. *)
Definition segment_text (skip_special_tokens : bool) (s : segment) : list Z :=
  item_text skip_special_tokens (segment_item s).

Definition segments_text (skip_special_tokens : bool) (segments : list segment) : list Z :=
  mjoin (segment_text skip_special_tokens <$> segments).

Lemma segments_length segments :
  items_length (segment_item <$> segments) = Z.of_nat (length (segments_text false segments)).
Proof.
  induction segments as [|s segments IH]; [done|]. unfold segments_text in *. rewrite !fmap_cons. cbn [items_length foldr].
  fold (items_length (segment_item <$> segments)). rewrite IH.
  change (mjoin (segment_text false s :: (segment_text false <$> segments)))
    with (segment_text false s ++ mjoin (segment_text false <$> segments)).
  rewrite length_app. unfold segment_text at 2. lia.
Qed.

(** Normalization leaves the segments of a text as they are. *)
Definition normal_form (segments : list segment) : Prop :=
  forall text, Normal text ∈ segments -> nfc text = text.

Lemma segments_text_source segments :
  normal_form segments -> segments_text false segments = mjoin (segment_source <$> segments).
Proof.
  intros Hn. unfold segments_text. f_equal. apply list_fmap_ext. intros k s Hs.
  destruct s as [text|token]; [|done]. apply Hn. by eapply list_elem_of_lookup_2.
Qed.

(** ** Encoding succeeds *)

(** ICU that never fails and reports matches in order. *)
Record icu_works : Prop := {
  works_nfc : getNFCInstance icu = true;
  works_normalize : forall u, is_Some (normalize icu u);
  works_matcher : forall u, matcher icu u = true;
  works_match : forall u k s e failed, find_match icu u k = (Some (s, e), failed) -> failed = false /\ s < e;
  works_end : forall u k failed, find_match icu u k = (None, failed) -> failed = false;
  works_first : forall u s e failed, find_match icu u 0 = (Some (s, e), failed) -> 0 <= s;
  works_order : forall u k s e failed s' e' failed', find_match icu u k = (Some (s, e), failed) ->
    find_match icu u (S k) = (Some (s', e'), failed') -> e <= s'
}.
Hypothesis Hworks : icu_works.

(** A step that succeeds when there is room for a token per byte. *)
Definition succeeds (bytes : nat) (output : list Z) (r : encoded) : Prop :=
  Z.of_nat (length output + bytes) <= max_tokens (limits data) -> Z.of_nat bytes <= max_input_bytes (limits data) ->
  exists result, r = Encoded result /\ (length result <= length output + bytes)%nat.

Lemma succeeds_nothing output : succeeds 0 output (Encoded output).
Proof. intros _ _. exists output. split; [done|lia]. Qed.

Lemma succeeds_then n1 n2 output r k :
  succeeds n1 output r -> (forall mid, (length mid <= length output + n1)%nat -> succeeds n2 mid (k mid)) ->
  succeeds (n1 + n2) output (and_then r k).
Proof.
  intros Hr Hk Hout Hin. destruct Hr as (mid & -> & Hmid); [lia..|]. cbn [and_then].
  destruct (Hk mid Hmid) as (result & -> & Hres); [lia..|]. exists result. split; [done|lia].
Qed.

Lemma merge_pairs_length rules fuel ids : (length (merge_pairs rules fuel ids) <= length ids)%nat.
Proof.
  revert ids. induction fuel as [|fuel IH]; intros ids; [done|]. cbn [merge_pairs].
  destruct (best_pair rules ids) as [[[k i] r]|] eqn:Hbest; [|done].
  apply best_pair_sound in Hbest as (a & b & rule & Ha & Hb & _).
  etrans; [apply IH|]. apply lookup_lt_Some in Ha, Hb. rewrite length_app, length_take. cbn [length].
  rewrite length_drop. lia.
Qed.

Lemma encode_piece_succeeds piece output :
  Z.of_nat (length piece) <= npos -> succeeds (length piece) output (encode_piece data piece output).
Proof.
  intros Hlen Hout _. unfold encode_piece.
  destruct (encode_bpe_piece_exact (merges data) (byte_token_ids data) (max_tokens (limits data)) piece output Hlen)
    as (_ & _ & ->).
  pose proof (merge_pairs_length (merges data) (length (at_ (byte_token_ids data) <$> piece))
    (at_ (byte_token_ids data) <$> piece)) as Hle. rewrite length_fmap in Hle.
  unfold byte_pair_encoding. rewrite length_fmap. set (result := merge_pairs _ _ _) in *.
  rewrite (proj2 (Z.leb_le _ _)) by lia. eexists. split; [done|]. rewrite length_app. lia.
Qed.

Lemma encode_span_succeeds u from to output :
  succeeds (length (toUTF8 icu u from to)) output (encode_span icu data u from to output).
Proof.
  intros Hout Hin. pose proof (limits_small _ _ Hdata). unfold encode_span.
  rewrite (proj2 (Z.ltb_ge kAbsoluteInputBytes _)) by lia. rewrite (proj2 (Z.ltb_ge _ _)) by lia.
  apply encode_piece_succeeds; [unfold kAbsoluteInputBytes, npos, u64_max in *|..]; lia.
Qed.

Lemma encode_matches_succeeds fuel u k previous_end output :
  0 <= previous_end <= unicode_length icu u -> (previous_end = 0 \/ boundary u previous_end) ->
  unicode_length icu u - previous_end < Z.of_nat fuel ->
  (forall s e failed, find_match icu u k = (Some (s, e), failed) -> previous_end <= s) ->
  succeeds (length (toUTF8 icu u previous_end (unicode_length icu u))) output
    (encode_matches icu data fuel u k previous_end output).
Proof.
  revert k previous_end output. induction fuel as [|fuel IH]; intros k previous_end output Hp Hb Hf Hnext; [lia|].
  cbn [encode_matches]. destruct (find_match icu u k) as [[[start end_]|] failed] eqn:Hm.
  - destruct (works_match Hworks _ _ _ _ _ Hm) as [-> Hlt]. specialize (Hnext _ _ _ eq_refl).
    rewrite (proj2 (Z.ltb_ge start _)) by lia. rewrite (proj2 (Z.leb_gt end_ _)) by lia. cbn [orb].
    pose proof (match_inside Hicu _ _ _ _ _ Hm) as Hin.
    assert (Hbs : boundary u start) by (exists k, start, end_, false; auto).
    assert (Hbe : boundary u end_) by (exists k, start, end_, false; auto).
    rewrite <- (utf8_join Hicu u previous_end start) by (done || lia).
    rewrite <- (utf8_join Hicu u start end_) by (done || lia). rewrite !length_app.
    apply succeeds_then.
    + destruct (Z.ltb_spec previous_end start); [apply encode_span_succeeds|].
      replace start with previous_end by lia. rewrite (utf8_empty Hicu). apply succeeds_nothing.
    + intros mid _. apply succeeds_then; [apply encode_span_succeeds|].
      intros mid' _. apply IH; [lia|by right|lia|]. intros s e failed Hs. by eapply (works_order Hworks); eauto.
  - rewrite (works_end Hworks _ _ _ Hm).
    destruct (Z.ltb_spec previous_end (unicode_length icu u)); [apply encode_span_succeeds|].
    replace (unicode_length icu u) with previous_end by lia. rewrite (utf8_empty Hicu). apply succeeds_nothing.
Qed.

Lemma encode_normal_segment_succeeds s output :
  s <> [] -> validate_utf8 s = None -> Z.of_nat (length s) <= max_input_bytes (limits data) ->
  succeeds (length (nfc s)) output (encode_normal_segment icu data s output).
Proof.
  intros Hs Hv Hlen. unfold encode_normal_segment, nfc. rewrite bool_decide_false by done. rewrite Hv.
  pose proof (limits_small _ _ Hdata). rewrite (proj2 (Z.ltb_ge _ _)) by (unfold kAbsoluteInputBytes in *; lia).
  rewrite (works_nfc Hworks). destruct (works_normalize Hworks (fromUTF8 icu s)) as [u ->].
  rewrite (works_matcher Hworks). cbn [negb]. pose proof (length_nonneg Hicu u).
  apply encode_matches_succeeds; [lia|by left|lia|]. apply (works_first Hworks).
Qed.

(** The first and longest token is found wherever it is. *)
Lemma first_longest_agree tokens text k token k' token' :
  first_longest tokens text k token -> first_longest tokens text k' token' ->
  k = k' /\ token_content token = token_content token'.
Proof.
  intros (H1 & O1 & B1) (H2 & O2 & B2). pose proof (B1 _ _ H2 O2). pose proof (B2 _ _ H1 O1).
  assert (k = k') as <- by lia. split; [done|].
  destruct O1 as [_ Ht1%is_prefix_true], O2 as [_ Ht2%is_prefix_true].
  apply (f_equal (take (length (token_content token)))) in Ht1. rewrite take_app_length in Ht1. rewrite <- Ht1.
  apply (f_equal (take (length (token_content token')))) in Ht2. rewrite take_app_length in Ht2. rewrite <- Ht2.
  f_equal. lia.
Qed.

Definition valid_segment (s : segment) : Prop :=
  match s with Normal text => validate_utf8 text = None | Added _ => True end.

Lemma segments_text_cons skip s segments :
  segments_text skip (s :: segments) = segment_text skip s ++ segments_text skip segments.
Proof. done. Qed.

Lemma encode_from_succeeds fuel text cursor segments output :
  0 <= cursor <= Z.of_nat (length text) -> Z.of_nat (length text) <= max_input_bytes (limits data) ->
  Z.of_nat (length text) - cursor + 1 < Z.of_nat fuel ->
  splits (drop (Z.to_nat cursor) text) segments -> Forall valid_segment segments ->
  succeeds (length (segments_text false segments)) output (encode_from icu data fuel text cursor output).
Proof.
  pose proof (limits_small _ _ Hdata) as [Hsmall _]. unfold kAbsoluteInputBytes in Hsmall.
  revert cursor segments output. induction fuel as [|fuel IH]; intros cursor segments output Hc Hlen Hf Hs Hvalid; [lia|].
  cbn [encode_from]. pose proof (length_drop text (Z.to_nat cursor)) as Hdrop.
  destruct (Z.ltb_spec cursor (Z.of_nat (length text))) as [Hlt|Hge]; cbn [negb].
  2:{ intros _ _. exists output. split; [done|lia]. }
  pose proof (find_added_spec (added_tokens data) text cursor Hc ltac:(unfold npos, u64_max; lia)) as Hfound.
  inversion Hs as [Hnil|rest Hne Hnone Hrest|rest k token segments' Hfirst Hs' Hrest]; subst.
  - rewrite <- Hnil in Hdrop. simpl in Hdrop. lia.
  - destruct (find_added _ _ _ _ _) as [position [token|]]; simpl in Hfound.
    { destruct Hfound as (k & _ & Hin & Ho & _). by apply (Hnone token k) in Ho. }
    unfold substr. rewrite take_ge by lia. rewrite segments_text_cons, length_app.
    apply Forall_inv in Hvalid. simpl in Hvalid.
    apply succeeds_then; [apply encode_normal_segment_succeeds; [done..|lia]|].
    intros mid _. destruct fuel as [|fuel]; [lia|]. cbn [encode_from]. rewrite Z.ltb_irrefl. apply succeeds_nothing.
  - pose proof Hfirst as (Hin & Ho & _). pose proof (occurs_inside _ _ _ Ho) as Hinside. rewrite length_drop in Hinside.
    pose proof (content_nonempty token Hin) as Hne.
    assert (Hpos : (1 <= length (token_content token))%nat) by (destruct (token_content token); [done|simpl; lia]).
    destruct (find_added _ _ _ _ _) as [position [token'|]]; simpl in Hfound.
    2:{ destruct Hfound as [_ Hnone]. by apply (Hnone token k) in Ho. }
    destruct Hfound as (k' & -> & Hfirst'). destruct (first_longest_agree _ _ _ _ _ _ Hfirst Hfirst') as [<- Hcontent].
    rewrite <- Hcontent. apply Forall_app in Hvalid as [Hbefore Hvalid]. apply Forall_cons in Hvalid as [_ Hvalid].
    assert (Hsum : length (segments_text false (normal_before k (drop (Z.to_nat cursor) text) ++ Added token :: segments')) =
      (length (segments_text false (normal_before k (drop (Z.to_nat cursor) text))) +
       (length (token_content token) + length (segments_text false segments')))%nat).
    { unfold segments_text at 1. rewrite fmap_app, join_app, length_app. f_equal.
      fold (segments_text false (Added token :: segments')). rewrite segments_text_cons, length_app. done. }
    rewrite Hsum. apply succeeds_then.
    + destruct k as [|k].
      * rewrite (proj2 (Z.ltb_ge _ _)) by lia. apply succeeds_nothing.
      * rewrite (proj2 (Z.ltb_lt _ _)) by lia. unfold substr.
        replace (Z.to_nat (cursor + Z.of_nat (S k) - cursor)) with (S k) by lia.
        cbn [normal_before] in *. rewrite segments_text_cons, length_app, Nat.add_0_r.
        apply Forall_inv in Hbefore. apply encode_normal_segment_succeeds; [|done|rewrite length_take; lia].
        intros Hnil. apply (f_equal length) in Hnil. rewrite length_take in Hnil. cbn [length] in Hnil. lia.
    + intros mid Hmid Hout Hin'. rewrite (proj2 (Z.leb_gt _ _)) by lia.
      destruct (IH (cursor + Z.of_nat k + Z.of_nat (length (token_content token))) segments' (mid ++ [added_id token']))
        as (result & -> & Hres); [lia..| |done|rewrite length_app; simpl; lia|lia|].
      * replace (Z.to_nat (cursor + Z.of_nat k + Z.of_nat (length (token_content token)))) with
          (Z.to_nat cursor + (k + length (token_content token)))%nat by lia. by rewrite <- drop_drop.
      * exists result. split; [done|]. rewrite length_app in Hres. simpl in Hres. lia.
Qed.
End Spelling.

Lemma encode_impl_splits pins data icu text :
  data_ok pins data -> Forall (fun content => content <> []) (expected_contents pins) -> icu_ok icu ->
  encodes_rest data icu text [] (encode_impl icu data text).
Proof.
  intros Hd Hc Hi. unfold encode_impl. destruct (Z.ltb_spec (max_input_bytes (limits data)) (Z.of_nat (length text)));
    [exact id|].
  pose proof (limits_small _ _ Hd). change text with (drop (Z.to_nat 0) text) at 1.
  eapply encode_from_splits; [exact Hd|exact Hi|exact Hc|unfold kAbsoluteInputBytes, npos, u64_max in *; lia..].
Qed.

(** C38. Encoding and decoding.  When a text encodes, the text is cut at its
    added tokens, the first one and the longest there, over and over; at most
    [max_tokens] ids come out; and decoding them gives back every piece
    between the added tokens in normalization form C and the contents of the
    added tokens, the special ones left out when they are to be skipped, as
    long as twice the bytes of all that fit in [max_input_bytes]; so such a
    text in normal form comes back as it was.  The bound is needed: decoding
    holds two bytes for some bytes of the text before they are decoded, and the
    limit counts them.  Beyond it the ids may be refused, but only with
    [kInputTooLarge], and what was decoded until then is a beginning of the
    text: no ids of a text decode to another one. *)
Theorem encode_decode pins data icu text ids :
  data_ok pins data -> limits_unsigned (limits data) ->
  Forall (fun content => content <> []) (expected_contents pins) -> icu_ok icu ->
  encode icu (Some data) text = Encoded ids ->
  exists segments, splits data text segments /\ mjoin (segment_source <$> segments) = text /\
    Z.of_nat (length ids) <= max_tokens (limits data) /\
    (forall skip_special_tokens,
       decodes_to (segments_text icu skip_special_tokens segments) (decode (Some data) skip_special_tokens ids)) /\
    (2 * Z.of_nat (length (segments_text icu false segments)) <= max_input_bytes (limits data) ->
       (forall skip_special_tokens,
          decode (Some data) skip_special_tokens ids = (segments_text icu skip_special_tokens segments, None)) /\
       (normal_form icu segments -> decode (Some data) false ids = (text, None))).
Proof.
  intros Hd Hu Hc Hi H. simpl in H. pose proof (encode_impl_splits _ _ _ text Hd Hc Hi) as Hs. rewrite H in Hs.
  destruct Hs as (segments & ids' & Hsplit & -> & Hspells & Hbound).
  pose proof (unsigned_tokens _ Hu). specialize (Hbound ltac:(simpl; lia)).
  pose proof (splits_source _ _ _ Hsplit) as Hsource.
  exists segments. split_and!; [done..| |].
  { intros skip. simpl. unfold decode_impl. rewrite (proj2 (Z.ltb_ge _ _)) by done.
    change [] with (symbols_of data []) at 1. unfold segments_text.
    replace (segment_text icu skip <$> segments) with (item_text skip <$> (segment_item icu <$> segments)) by (by rewrite <- list_fmap_compose).
    apply (decode_spelled_cases pins data Hd skip ids' (segment_item icu <$> segments) [] []); [done|constructor]. }
  intros Hlim.
  assert (Hdec : forall skip, decode (Some data) skip ([] ++ ids') = (segments_text icu skip segments, None)).
  { intros skip. simpl in *. unfold decode_impl. rewrite (proj2 (Z.ltb_ge _ _)) by done.
    change [] with (symbols_of data []) at 1. rewrite <- segments_length in Hlim.
    rewrite (decode_spelled pins data Hd skip ids' (segment_item icu <$> segments)); [|done|constructor|simpl; lia].
    simpl. unfold segments_text. by rewrite <- list_fmap_compose. }
  split; [done|]. intros Hn. by rewrite Hdec, segments_text_source, Hsource by done.
Qed.

Lemma sample_data_ok : data_ok sample_pins sample_data.
Proof.
  apply (load_json_ok sample_icu sample_pins sample_json sample_limits sample_data).
  - apply bytes_reflect. vm_compute. reflexivity.
  - constructor; vm_compute; discriminate.
  - exact sample_loads.
Qed.

Lemma sample_contents : Forall (fun content => content <> []) (expected_contents sample_pins).
Proof. repeat constructor; discriminate. Qed.

Lemma sample_unsigned : limits_unsigned (limits sample_data).
Proof.
  assert (Hl : limits sample_data = sample_limits).
  { apply (load_json_ok sample_icu sample_pins sample_json sample_limits sample_data).
    - apply bytes_reflect. vm_compute. reflexivity.
    - constructor; vm_compute; discriminate.
    - exact sample_loads. }
  rewrite Hl. constructor; vm_compute; discriminate.
Qed.

Lemma sample_icu_ok : icu_ok sample_icu.
Proof.
  constructor; cbn [toUTF8 unicode_length sample_icu UnicodeString find_match].
  - intros u from to. apply Forall_fmap, Forall_true. intros byte. apply (Z.mod_pos_bound byte 256). lia.
  - intros u at_. by rewrite Z.sub_diag.
  - intros u a b c Hab Hbc _. destruct Hab, Hbc. rewrite (substr_app u a b c); [by rewrite fmap_app|done..].
  - lia.
  - intros u k s e failed. case_bool_decide; intros [= _ <- _]. done.
Qed.

Lemma sample_icu_works : icu_works sample_icu.
Proof.
  constructor; cbn [toUTF8 unicode_length sample_icu UnicodeString find_match getNFCInstance normalize matcher];
    try done.
  - intros u k s e failed. case_bool_decide as Hk; intros [= <- <- <-]. split; [done|].
    destruct Hk as [_ Hu]. destruct u; [done|simpl; lia].
  - intros u k failed. case_bool_decide; by intros [= <-].
  - intros u s e failed. case_bool_decide; by intros [= <- _ _].
Qed.

(** ASCII texts are valid and in normal form for [sample_icu]. *)
Definition ascii (byte : Z) : Prop := 0 <= byte <= 0x7F.

Lemma ascii_reflect text : forallb (fun byte => (0 <=? byte) && (byte <=? 0x7F)) text = true -> Forall ascii text.
Proof.
  intros Hall. rewrite forallb_forall in Hall. apply Forall_forall. intros byte Hin%list_elem_of_In%Hall. bools. done.
Qed.

Lemma ascii_valid_from fuel text offset :
  Forall ascii text -> 0 <= offset -> validate_utf8_from fuel text offset = None.
Proof.
  intros Ha. revert offset. induction fuel as [|fuel IH]; intros offset Ho; [done|]. cbn [validate_utf8_from].
  destruct (Z.ltb_spec offset (Z.of_nat (length text))); [|done].
  destruct (lookup_lt_is_Some_2 text (Z.to_nat offset)) as [byte Hbyte]; [lia|].
  pose proof Hbyte as Hat%lookup_at. rewrite Z2Nat.id in Hat by done.
  rewrite Forall_forall in Ha. destruct (Ha byte) as [_ Hle]; [by eapply list_elem_of_lookup_2|].
  unfold decode_utf8_at. rewrite (proj2 (Z.leb_gt _ _)) by done. rewrite Hat, (proj2 (Z.leb_le _ _)) by done.
  apply IH. lia.
Qed.

Lemma sample_nfc text : Forall ascii text -> nfc sample_icu text = text.
Proof.
  intros Ha. assert (Hs : substr text 0 (Z.of_nat (length text) - 0) = text).
  { unfold substr. rewrite Z.sub_0_r, Nat2Z.id. apply firstn_all. }
  unfold nfc. cbn [normalize sample_icu fromUTF8 toUTF8 unicode_length].
  etrans; [apply (f_equal (fmap (fun byte => byte mod 256)) Hs)|]. rewrite <- (list_fmap_id text) at 2.
  apply list_fmap_ext. intros k byte Hbyte. rewrite Forall_forall in Ha.
  destruct (Ha byte) as [? ?]; [by eapply list_elem_of_lookup_2|]. apply (Z.mod_small byte). lia.
Qed.

Lemma normal_source segments text :
  Normal text ∈ segments -> Forall ascii (mjoin (segment_source <$> segments)) -> Forall ascii text.
Proof.
  intros Hin Ha. apply Forall_forall. intros byte Hbyte. rewrite Forall_forall in Ha. apply Ha.
  apply list_elem_of_join. exists text. split; [done|]. apply list_elem_of_fmap. by exists (Normal text).
Qed.

Lemma sample_normal_form segments :
  Forall ascii (mjoin (segment_source <$> segments)) -> normal_form sample_icu segments.
Proof. intros Ha text Hin. apply sample_nfc. by eapply normal_source. Qed.

Lemma ascii_segments segments : Forall ascii (mjoin (segment_source <$> segments)) -> Forall valid_segment segments.
Proof.
  intros Ha. apply Forall_forall. intros [text|token] Hin; [|done]. apply ascii_valid_from; [|done].
  by eapply normal_source.
Qed.

(** A text that [sample_data] encodes. *)
Definition sample_text : list Z := lit "aabab<think>b<|im_end|>aab".
Definition sample_ids : list Z := [257; 256; 259; 98; 258; 257].

Lemma sample_encode_impl : encode_impl sample_icu sample_data sample_text = Encoded sample_ids.
Proof. vm_compute. reflexivity. Qed.

Lemma sample_encode : encode sample_icu (Some sample_data) sample_text = Encoded sample_ids.
Proof. unfold encode. exact sample_encode_impl. Qed.

Lemma sample_splits :
  exists segments, splits sample_data sample_text segments /\ mjoin (segment_source <$> segments) = sample_text /\
    Forall ascii (mjoin (segment_source <$> segments)).
Proof.
  assert (H : encodes_rest sample_data sample_icu sample_text [] (Encoded sample_ids)).
  { rewrite <- sample_encode_impl. exact (encode_impl_splits sample_pins sample_data sample_icu sample_text
      sample_data_ok sample_contents sample_icu_ok). }
  destruct H as (segments & ids & Hsplit & _).
  pose proof (splits_source _ _ _ Hsplit) as Hs. exists segments. split; [exact Hsplit|]. split; [exact Hs|].
  rewrite Hs. apply ascii_reflect. vm_compute. reflexivity.
Qed.

Lemma encode_decode_witness : decode (Some sample_data) false sample_ids = (sample_text, None).
Proof.
  destruct (encode_decode sample_pins sample_data sample_icu sample_text sample_ids sample_data_ok sample_unsigned
    sample_contents sample_icu_ok sample_encode) as (segments & _ & Hs & _ & _ & Hdec).
  assert (Hn : normal_form sample_icu segments).
  { apply sample_normal_form. rewrite Hs. apply ascii_reflect. vm_compute. reflexivity. }
  apply Hdec; [|exact Hn].
  rewrite (segments_text_source _ _ Hn), Hs. apply Z.leb_le. vm_compute. reflexivity.
Defined.

(** C39. Encoding ends.  Whatever ICU reports, the encoder returns: ids or an
    error, and never more ids than [max_tokens].  When ICU works and every
    piece between the added tokens is valid UTF-8, a text encodes as soon as
    the text and its normalization form fit in [max_input_bytes] and the
    normalization form has no more bytes than [max_tokens]. *)
Theorem encode_total pins data icu text :
  data_ok pins data -> limits_unsigned (limits data) ->
  Forall (fun content => content <> []) (expected_contents pins) -> icu_ok icu ->
  match encode icu (Some data) text with
  | Encoded ids | EncodeFailed _ ids => Z.of_nat (length ids) <= max_tokens (limits data)
  | EncodeLoops => False
  end /\
  (forall segments, icu_works icu -> splits data text segments -> Forall valid_segment segments ->
     Z.of_nat (length text) <= max_input_bytes (limits data) ->
     Z.of_nat (length (segments_text icu false segments)) <= max_input_bytes (limits data) ->
     Z.of_nat (length (segments_text icu false segments)) <= max_tokens (limits data) ->
     exists ids, encode icu (Some data) text = Encoded ids).
Proof.
  intros Hd Hu Hc Hi. pose proof (unsigned_tokens _ Hu). split.
  - pose proof (encode_impl_splits _ _ _ text Hd Hc Hi) as Hs. simpl.
    destruct (encode_impl icu data text) as [ids|e ids|]; simpl in Hs; [|apply Hs; simpl; lia|done].
    destruct Hs as (segments & ids' & _ & _ & _ & Hbound). apply Hbound. simpl. lia.
  - intros segments Hworks Hsplit Hvalid Hlen Hfit Htokens. simpl. unfold encode_impl.
    rewrite (proj2 (Z.ltb_ge _ _)) by done.
    destruct (encode_from_succeeds pins data Hd icu Hi Hc Hworks (S (S (length text))) text 0 segments [])
      as (ids & -> & _); [lia|lia|lia|done|done|simpl; lia|done|]. by exists ids.
Qed.

Lemma encode_total_witness : exists ids, encode sample_icu (Some sample_data) sample_text = Encoded ids.
Proof.
  destruct sample_splits as (segments & Hsplit & Hs & Ha).
  apply (encode_total sample_pins sample_data sample_icu sample_text sample_data_ok sample_unsigned sample_contents
    sample_icu_ok) with segments; [exact sample_icu_works|exact Hsplit|by apply ascii_segments| | |].
  all: rewrite ?(segments_text_source _ _ (sample_normal_form _ Ha)), ?Hs; apply Z.leb_le; vm_compute; reflexivity.
Defined.


(** The limit of decoding counts the symbols that are pending, not the text
    they stand for: with a limit of three bytes, two spaces encode, but their
    ids are refused as too large, since each space is a symbol of two bytes. *)
Definition tight_limits : TokenizerLimits := {|
  max_tokenizer_bytes := 32000000; max_vocab_size := 300000; max_merges := 300000; max_added_tokens := 64;
  max_input_bytes := 3; max_tokens := 4000000; max_chat_messages := 1024
|}.

Definition tight_run : option (encoded * option (list Z * option TokenizerError)) :=
  match build sample_pins tight_limits sample_root with
  | inl _ => None
  | inr data =>
      let ids := encode sample_icu (Some data) [32; 32] in
      Some (ids, match ids with Encoded ids => Some (decode (Some data) false ids) | _ => None end)
  end.

Theorem decoding_limit_counts_symbols : tight_run = Some (Encoded [32; 32], Some ([], Some (error_ kInputTooLarge))).
Proof. vm_compute. reflexivity. Qed.
