(* ===== verification/TokenizerChat.v ===== *)
(** * Tokenizer: chats

    The text [Tokenizer.format_qwen36_chat] renders: the white space that is
    trimmed, the turns that are accepted, the template. *)

From Stdlib Require Import String.
From stdpp Require Import gmap.
From S2P Require Import Prelude OrderedMap Json Sha256 Bpe Tokenizer TokenizerText.

(** ** White space at both ends *)

Section Chat.
Variables (icu : Icu) (data : TokenizerData).

Definition whitespace (c : Z) : bool := u_isUWhiteSpace icu c || (c <=? 0x20).

(** The code points of a text, each with its bytes. *)
Inductive characters (input : list Z) : Z -> list (Z * list Z) -> Prop :=
  | characters_end offset : Z.of_nat (length input) <= offset -> characters input offset []
  | characters_cons offset c next cs :
      offset < Z.of_nat (length input) -> decode_utf8_at input offset = Some (c, next) -> characters input next cs ->
      characters input offset ((c, substr input offset (next - offset)) :: cs).

Definition bytes_of (cs : list (Z * list Z)) : list Z := mjoin (snd <$> cs).

Fixpoint lstrip (cs : list (Z * list Z)) : list (Z * list Z) :=
  match cs with [] => [] | c :: cs' => if whitespace c.1 then lstrip cs' else cs end.
Fixpoint rstrip (cs : list (Z * list Z)) : list (Z * list Z) :=
  match cs with
  | [] => []
  | c :: cs => match rstrip cs with [] => if whitespace c.1 then [] else [c] | r => c :: r end
  end.

Lemma decode_next input offset c next :
  0 <= offset -> decode_utf8_at input offset = Some (c, next) -> offset < next <= Z.of_nat (length input).
Proof.
  intros Ho. unfold decode_utf8_at. cbv zeta.
  repeat (case_match; try done); intros [= <- <-]; bools; lia.
Qed.

Lemma bytes_of_cons c b cs : bytes_of ((c, b) :: cs) = b ++ bytes_of cs.
Proof. done. Qed.

Lemma trim_from_some fuel input offset cs start end_ :
  characters input offset cs -> 0 <= start <= end_ -> end_ <= offset <= Z.of_nat (length input) ->
  Z.of_nat (length input) - offset < Z.of_nat fuel ->
  trim_from icu fuel input offset (Some (start, end_)) =
  inr (match rstrip cs with
       | [] => substr input start (end_ - start)
       | r => substr input start (offset - start) ++ bytes_of r
       end).
Proof.
  intros Hcs. revert fuel end_. induction Hcs as [offset Ho|offset c next cs Hlt Hdec Hcs IH]; intros fuel end_ Hs He Hf;
    (destruct fuel as [|fuel]; [lia|]); cbn [trim_from].
  { by rewrite (proj2 (Z.ltb_ge _ _)) by done. }
  rewrite (proj2 (Z.ltb_lt _ _)) by done. rewrite Hdec. fold (whitespace c). cbn [rstrip fst].
  pose proof (decode_next input offset c next ltac:(lia) Hdec). destruct (whitespace c); (rewrite IH; [|lia..]).
  - destruct (rstrip cs); [done|]. rewrite bytes_of_cons, (substr_app _ start offset next) by lia. by rewrite app_assoc.
  - rewrite (substr_app _ start offset next) by lia.
    destruct (rstrip cs); rewrite bytes_of_cons; [by rewrite app_nil_r|by rewrite app_assoc].
Qed.

Lemma trim_from_none fuel input offset cs :
  characters input offset cs -> 0 <= offset <= Z.of_nat (length input) -> Z.of_nat (length input) - offset < Z.of_nat fuel ->
  trim_from icu fuel input offset None = inr (bytes_of (rstrip (lstrip cs))).
Proof.
  intros Hcs. revert fuel. induction Hcs as [offset Ho|offset c next cs Hlt Hdec Hcs IH]; intros fuel H0 Hf;
    (destruct fuel as [|fuel]; [lia|]); cbn [trim_from].
  { by rewrite (proj2 (Z.ltb_ge _ _)) by done. }
  rewrite (proj2 (Z.ltb_lt _ _)) by done. rewrite Hdec. fold (whitespace c). cbn [lstrip fst].
  pose proof (decode_next input offset c next ltac:(lia) Hdec). destruct (whitespace c) eqn:Hw; [apply IH; lia|].
  rewrite (trim_from_some fuel input next cs) by (done || lia). cbn [rstrip fst]. rewrite Hw.
  destruct (rstrip cs); rewrite bytes_of_cons; [by rewrite app_nil_r|done].
Qed.

Lemma trim_from_characters fuel input offset span out :
  0 <= offset -> trim_from icu fuel input offset span = inr out -> exists cs, characters input offset cs.
Proof.
  revert offset span. induction fuel as [|fuel IH]; intros offset span Ho H; [done|]. cbn [trim_from] in H.
  destruct (Z.ltb_spec offset (Z.of_nat (length input))); [|exists []; by constructor].
  destruct (decode_utf8_at input offset) as [[c next]|] eqn:Hdec; [|done].
  pose proof (decode_next _ _ _ _ Ho Hdec). apply IH in H as [cs Hcs]; [|lia]. eexists. by econstructor.
Qed.

(** The trimmed text: the code points that are left when white space is taken
    away at both ends. *)
Definition trimmed (input out : list Z) : Prop :=
  exists cs, characters input 0 cs /\ out = bytes_of (rstrip (lstrip cs)).

Lemma trim_unicode_exact input out : trim_unicode icu input = inr out <-> trimmed input out.
Proof.
  unfold trim_unicode. split.
  - intros H. pose proof (trim_from_characters _ _ 0 _ _ ltac:(lia) H) as [cs Hcs]. exists cs. split; [done|].
    rewrite (trim_from_none _ _ _ cs) in H by (done || lia). by injection H.
  - intros (cs & Hcs & ->). by apply trim_from_none; [|lia..].
Qed.

(** ** Chats *)

(** The user and the assistant take turns, the user first; [expect] says who
    is next.  The text of the turns: only an assistant's turn that ends the
    chat carries an empty thought. *)
Inductive turns : bool -> list ChatMessage -> bool -> list Z -> Prop :=
  | turns_nil expect : turns expect [] expect []
  | turns_user m messages content expect text :
      role m = lit "user" -> trimmed (message_content m) content -> turns false messages expect text ->
      turns true (m :: messages) expect (user_header ++ content ++ message_end ++ text)
  | turns_assistant m messages content expect text :
      role m = lit "assistant" -> trimmed (message_content m) content ->
      contains (lit "<think>") content = false -> contains (lit "</think>") content = false ->
      turns true messages expect text ->
      turns false (m :: messages) expect
        ((if bool_decide (messages = []) then assistant_header ++ empty_thinking else assistant_header)
         ++ content ++ message_end ++ text).

(** A chat: perhaps a system message, then turns, at least one. *)
Inductive conversation : list ChatMessage -> bool -> list Z -> Prop :=
  | conversation_turns messages expect text :
      messages <> [] -> turns true messages expect text -> conversation messages expect text
  | conversation_system m messages content expect text :
      role m = lit "system" -> trimmed (message_content m) content ->
      messages <> [] -> turns true messages expect text ->
      conversation (m :: messages) expect (system_header ++ content ++ message_end ++ text).

Lemma append_bounded_some output text result :
  append_bounded data output text = inr result <->
  result = output ++ text /\ Z.of_nat (length result) <= max_input_bytes (limits data).
Proof.
  unfold append_bounded. destruct (_ || _) eqn:Hfull.
  - split; [done|]. intros [-> Hle]. rewrite length_app in Hle. bools; lia.
  - bools. split; [intros [= <-]; rewrite length_app; split; [done|lia]|by intros [-> _]].
Qed.

Lemma append_message_some text header content result :
  append_message data text header content = (result, None) <->
  result = text ++ header ++ content ++ message_end /\ Z.of_nat (length result) <= max_input_bytes (limits data).
Proof.
  unfold append_message.
  assert (Hone : forall t s, match append_bounded data t s with
    | inr r => r = t ++ s /\ Z.of_nat (length r) <= max_input_bytes (limits data)
    | inl _ => max_input_bytes (limits data) < Z.of_nat (length (t ++ s)) end).
  { intros t s. destruct (append_bounded data t s) as [e|r] eqn:Ha; [|by apply append_bounded_some].
    apply Z.nle_gt. intros Hle. pose proof (proj2 (append_bounded_some t s _) (conj eq_refl Hle)). congruence. }
  pose proof (Hone text header) as H1. destruct (append_bounded data text header) as [e|t1].
  { split; [done|]. intros [-> Hle]. rewrite !length_app in *. lia. }
  destruct H1 as [-> _]. pose proof (Hone (text ++ header) content) as H2.
  destruct (append_bounded data (text ++ header) content) as [e|t2].
  { split; [done|]. intros [-> Hle]. rewrite !length_app in *. lia. }
  destruct H2 as [-> _]. pose proof (Hone ((text ++ header) ++ content) message_end) as H3.
  destruct (append_bounded data ((text ++ header) ++ content) message_end) as [e|t3].
  { split; [done|]. intros [-> Hle]. rewrite !length_app in *. lia. }
  destruct H3 as [-> Hle]. rewrite <- !app_assoc in *. split; [by intros [= <-]|by intros [-> _]].
Qed.

Lemma last_user_turns messages expect text index found bound :
  turns true messages expect text -> found < bound <= index ->
  (find_last_user messages index found <? bound) = bool_decide (messages = []).
Proof.
  assert (Hge : forall ms i f, f <= find_last_user ms i f \/ i <= find_last_user ms i f).
  { intros ms. induction ms as [|m ms IH]; intros i f; [left; simpl; lia|]. cbn [find_last_user].
    destruct (bool_decide (role m = lit "user")); [destruct (IH (i + 1) i)|destruct (IH (i + 1) f)]; lia. }
  intros Ht Hf. inversion Ht as [|m ms content e t Hrole _ _|]; subst; cbn [find_last_user].
  - rewrite bool_decide_true by done. apply Z.ltb_lt. lia.
  - rewrite bool_decide_true by done. rewrite bool_decide_false by done. destruct (Hge ms (index + 1) index); apply Z.ltb_ge; lia.
Qed.

(** One message appended, and the messages after it. *)
Definition render_next (last index : Z) (messages : list ChatMessage) (s : ChatState) (header content : list Z)
    (expect saw : bool) : ChatState * option TokenizerError :=
  match append_message data (rendered s) header content with
  | (text, Some e) => ({| rendered := text; expect_user := expect; saw_user := saw |}, Some e)
  | (text, None) => render_messages icu data last (index + 1) messages
                      {| rendered := text; expect_user := expect; saw_user := saw |}
  end.

Lemma render_next_some last index messages s header content expect saw s' :
  render_next last index messages s header content expect saw = (s', None) <->
  Z.of_nat (length (rendered s ++ header ++ content ++ message_end)) <= max_input_bytes (limits data) /\
  render_messages icu data last (index + 1) messages
    {| rendered := rendered s ++ header ++ content ++ message_end; expect_user := expect; saw_user := saw |} = (s', None).
Proof.
  unfold render_next. destruct (append_message _ _ _ _) as [text [e|]] eqn:Ha.
  - split; [done|]. intros [Hle _]. pose proof (proj2 (append_message_some _ _ _ _) (conj eq_refl Hle)). congruence.
  - apply append_message_some in Ha as [-> Hle]. split; [done|by intros [_ ?]].
Qed.

(** The loop over the messages after the first gives the text of the turns,
    and succeeds on turns that fit alone. *)
Definition renders (messages : list ChatMessage) (s s' : ChatState) : Prop :=
  exists text, turns (expect_user s) messages (expect_user s') text /\ rendered s' = rendered s ++ text /\
    saw_user s' = saw_user s || (expect_user s && negb (bool_decide (messages = []))) /\
    Z.of_nat (length (rendered s')) <= max_input_bytes (limits data).

Definition starts_plain (messages : list ChatMessage) : Prop :=
  match messages with m :: _ => role m <> lit "system" | [] => True end.

Lemma render_messages_sound messages index found s s' :
  0 <= index -> (index = 0 -> starts_plain messages) -> (expect_user s = false -> found < index) ->
  (expect_user s = false -> saw_user s = true) ->
  Z.of_nat (length (rendered s)) <= max_input_bytes (limits data) ->
  render_messages icu data (find_last_user messages index found) index messages s = (s', None) -> renders messages s s'.
Proof.
  revert index found s. induction messages as [|m messages IH]; intros index found s Hi Hplain Hf Hsaw Hlen H.
  { injection H as <-. exists []. split_and!; [constructor|by rewrite app_nil_r| |done].
    by rewrite andb_false_r, orb_false_r. }
  cbn [render_messages] in H. destruct (trim_unicode icu (message_content m)) as [e|content] eqn:Htrim; [done|].
  apply trim_unicode_exact in Htrim. case_bool_decide as Hsystem.
  { destruct (Z.eqb_spec index 0); [by apply Hplain in e|done]. }
  case_bool_decide as Huser.
  - destruct (expect_user s) eqn:Hexpect; [|done]. cbn [negb] in H.
    apply (render_next_some _ index messages s user_header content false true) in H as [Hle H].
    cbn [find_last_user] in H. rewrite bool_decide_true in H by done.
    apply IH in H as (text & Ht & Hr & Hs & Hl); [|lia|lia|intros _; lia|done|done]. cbn [rendered expect_user saw_user] in *.
    exists (user_header ++ content ++ message_end ++ text). rewrite Hexpect. split_and!.
    + by constructor.
    + by rewrite Hr, <- !app_assoc.
    + rewrite Hs. by destruct (saw_user s).
    + done.
  - case_bool_decide as Hassistant; [|done]. destruct (expect_user s) eqn:Hexpect; [done|].
    destruct (contains (lit "<think>") content) eqn:Hthink; [done|].
    destruct (contains (lit "</think>") content) eqn:Hthink'; [done|]. cbn [orb] in H.
    apply (render_next_some _ index messages s _ content true (saw_user s)) in H as [Hle H].
    cbn [find_last_user] in H, Hle. rewrite bool_decide_false in H, Hle by done.
    apply IH in H as (text & Ht & Hr & Hs & Hl); [|lia|lia|intros [=]|done|done]. cbn [rendered expect_user saw_user] in *.
    rewrite (last_user_turns messages (expect_user s') text) in Hr by (done || lia).
    eexists. rewrite Hexpect. split_and!; [by constructor| | |done].
    + by rewrite Hr, <- !app_assoc.
    + rewrite Hs, Hsaw by done. done.
Qed.

Lemma render_messages_complete messages index found s expect text :
  0 <= index -> (expect_user s = false -> found < index) ->
  turns (expect_user s) messages expect text ->
  Z.of_nat (length (rendered s ++ text)) <= max_input_bytes (limits data) ->
  exists saw, (expect_user s && negb (bool_decide (messages = [])) -> saw = true) /\
    render_messages icu data (find_last_user messages index found) index messages s =
    ({| rendered := rendered s ++ text; expect_user := expect; saw_user := saw_user s || saw |}, None).
Proof.
  intros Hi Hf Ht. remember (expect_user s) as start eqn:Hstart. revert index found s Hi Hf Hstart.
  induction Ht as [start|m messages content expect text Hrole Htrim Ht IH|
      m messages content expect text Hrole Htrim Hthink Hthink' Ht IH]; intros index found s Hi Hf Hstart Hlen.
  - exists false. rewrite andb_false_r. split; [done|]. rewrite app_nil_r, orb_false_r, Hstart. by destruct s.
  - apply trim_unicode_exact in Htrim. cbn [render_messages]. rewrite Htrim, Hrole.
    change (bool_decide (lit "user" = lit "system")) with false.
    change (bool_decide (lit "user" = lit "user")) with true.
    rewrite <- Hstart. cbn [negb find_last_user]. rewrite Hrole.
    change (bool_decide (lit "user" = lit "user")) with true. cbv iota.
    destruct (IH (index + 1) index {| rendered := rendered s ++ user_header ++ content ++ message_end;
      expect_user := false; saw_user := true |}) as (saw & _ & Hr); [lia|intros _; lia|done|..].
    { cbn [rendered]. by rewrite <- !app_assoc. }
    exists true. split; [done|]. rewrite orb_true_r. cbn [rendered saw_user] in Hr. rewrite <- !app_assoc in Hr.
    apply (render_next_some _ index messages s user_header content false true). split; [|done].
    rewrite !length_app in *. lia.
  - apply trim_unicode_exact in Htrim. cbn [render_messages]. rewrite Htrim, Hrole.
    change (bool_decide (lit "assistant" = lit "system")) with false.
    change (bool_decide (lit "assistant" = lit "user")) with false.
    change (bool_decide (lit "assistant" = lit "assistant")) with true.
    rewrite <- Hstart, Hthink, Hthink'. cbn [orb find_last_user]. rewrite Hrole.
    change (bool_decide (lit "assistant" = lit "user")) with false. cbv iota.
    rewrite (last_user_turns messages expect text) by (done || specialize (Hf eq_refl); lia).
    set (header := if bool_decide (messages = []) then _ else _) in *.
    destruct (IH (index + 1) found {| rendered := rendered s ++ header ++ content ++ message_end;
      expect_user := true; saw_user := saw_user s |}) as (saw & _ & Hr); [lia|done|done|..].
    { cbn [rendered]. by rewrite <- !app_assoc. }
    exists saw. split; [done|]. cbn [rendered saw_user] in Hr. rewrite <- !app_assoc in Hr.
    apply (render_next_some _ index messages s header content true (saw_user s)). split; [|done].
    rewrite !length_app in *. lia.
Qed.

(** The messages render to the text of the chat, or not at all. *)
Lemma render_conversation messages text expect :
  0 <= max_input_bytes (limits data) ->
  render_messages icu data (find_last_user messages 0 npos) 0 messages
    {| rendered := []; expect_user := true; saw_user := false |} =
    ({| rendered := text; expect_user := expect; saw_user := true |}, None) <->
  conversation messages expect text /\ Z.of_nat (length text) <= max_input_bytes (limits data).
Proof.
  intros Hmax. split.
  - intros H. destruct messages as [|m messages]; [done|]. destruct (decide (role m = lit "system")) as [Hrole|Hrole].
    + cbn [render_messages find_last_user] in H. destruct (trim_unicode icu (message_content m)) as [e|content] eqn:Htrim;
        [done|]. apply trim_unicode_exact in Htrim. rewrite Hrole in H.
      change (bool_decide (lit "system" = lit "system")) with true in H.
      change (bool_decide (lit "system" = lit "user")) with false in H. cbn [negb Z.eqb expect_user saw_user] in H.
      apply (render_next_some _ 0 messages _ system_header content true false) in H as [Hle H].
      apply render_messages_sound in H as (text' & Ht & Hr & Hs & Hl); [|done|done|done|done|done].
      cbn [rendered expect_user saw_user andb orb] in *. rewrite Hr in *. cbn [app]. rewrite <- !app_assoc in *.
      split; [|done]. apply conversation_system; try done. intros ->. done.
    + apply render_messages_sound in H as (text' & Ht & Hr & Hs & Hl); [|done..].
      cbn [rendered expect_user saw_user] in *. rewrite Hr in *. split; [|done]. by constructor.
  - intros [Hc Hle]. destruct Hc as [messages expect text Hne Ht|m messages content expect text Hrole Htrim Hne Ht].
    + destruct (render_messages_complete messages 0 npos {| rendered := []; expect_user := true; saw_user := false |}
        expect text) as (saw & Hsaw & ->); [done|done|done|done|]. cbn [expect_user] in Hsaw.
      rewrite Hsaw; [done|by rewrite bool_decide_false].
    + cbn [render_messages find_last_user]. apply trim_unicode_exact in Htrim. rewrite Htrim, Hrole.
      change (bool_decide (lit "system" = lit "system")) with true.
      change (bool_decide (lit "system" = lit "user")) with false. cbn [negb Z.eqb expect_user saw_user].
      destruct (render_messages_complete messages 1 npos {| rendered := system_header ++ content ++ message_end;
        expect_user := true; saw_user := false |} expect text) as (saw & Hsaw & Hr);
        [done|done|done|cbn [rendered]; by rewrite <- !app_assoc|]. cbn [expect_user rendered saw_user] in *.
      rewrite Hsaw in Hr by (by rewrite bool_decide_false). rewrite <- !app_assoc in Hr.
      apply (render_next_some _ 0 messages {| rendered := []; expect_user := true; saw_user := false |}
        system_header content true false). cbn [rendered app]. split; [|done].
      rewrite !length_app in *. lia.
Qed.

(** What starts the assistant's answer. *)
Definition generation_prompt (options : Qwen36ChatOptions) : list Z :=
  if add_generation_prompt options then
    assistant_header ++ (if enable_thinking options then lit "<think>" ++ [10] else empty_thinking)
  else [].

Lemma format_exact messages options text ids :
  0 <= max_input_bytes (limits data) ->
  format_qwen36_chat_impl icu data messages options =
    Some {| chat_rendered := text; chat_token_ids := ids; chat_error := None |} <->
  Z.of_nat (length messages) <= max_chat_messages (limits data) /\
  exists expect turns_text, conversation messages expect turns_text /\
    (add_generation_prompt options = true -> expect = false) /\
    text = turns_text ++ generation_prompt options /\ encode_impl icu data text = Encoded ids.
Proof.
  intros Hmax. unfold format_qwen36_chat_impl, generation_prompt.
  assert (Hfits : forall t i, encode_impl icu data t = Encoded i -> Z.of_nat (length t) <= max_input_bytes (limits data)).
  { intros t i. unfold encode_impl. destruct (Z.ltb_spec (max_input_bytes (limits data)) (Z.of_nat (length t))); done. }
  destruct (bool_decide_reflect (messages = [])) as [->|Hne].
  { split; [done|]. intros (_ & expect & t & Hc & _). inversion Hc; done. }
  destruct (Z.ltb_spec (max_chat_messages (limits data)) (Z.of_nat (length messages))) as [|Hcount]; [split; [done|lia]|].
  set (init := {| rendered := []; expect_user := true; saw_user := false |}).
  split.
  - intros H. split; [done|].
    destruct (render_messages icu data _ 0 messages init) as [[t expect [|]] [e|]] eqn:Hr; try done.
    apply render_conversation in Hr as [Hc Hle]; [|done]. cbn [saw_user negb rendered expect_user] in H.
    exists expect, t. destruct (add_generation_prompt options).
    + destruct expect; [done|]. destruct (append_bounded _ _ _) as [e|full] eqn:Ha; [done|].
      apply append_bounded_some in Ha as [Ha _]. destruct (encode_impl icu data full) eqn:He; try done.
      injection H as <- <-. split_and!; [done|done| |done]. rewrite Ha. by destruct (enable_thinking options).
    + rewrite app_nil_r. destruct (encode_impl icu data t) eqn:He; try done. injection H as <- <-. done.
  - intros (_ & expect & t & Hc & Hexpect & -> & He). pose proof (Hfits _ _ He) as Hle. rewrite length_app in Hle. subst init.
    rewrite (proj2 (render_conversation messages t expect Hmax)) by (split; [done|lia]).
    cbn [saw_user negb rendered expect_user]. destruct (add_generation_prompt options).
    + rewrite Hexpect by done. set (prompt := assistant_header ++ _) in *.
      assert (Hp : (if enable_thinking options then assistant_header ++ lit "<think>" ++ [10]
                    else assistant_header ++ empty_thinking) = prompt) by (subst prompt; by destruct (enable_thinking options)).
      rewrite Hp, (proj2 (append_bounded_some t prompt _)) by (split; [done|rewrite length_app; lia]). by rewrite He.
    + rewrite app_nil_r in He |- *. by rewrite He.
Qed.
End Chat.

(** C40. Formatting a chat.  Formatting succeeds exactly on chats of at most
    [max_chat_messages] messages: perhaps one system message, at the start,
    then users and assistants in turn, the user first, no assistant's text
    with a thought in it, and the user last when the assistant's answer is to
    be prompted.  The text is then that of the template, every message with
    its white space trimmed between its header and its end and an empty
    thought for an assistant that has the last word, the prompt after it; it
    fits in [max_input_bytes]; and the ids are its encoding.  Formatting
    always returns, and an error comes with no ids. *)
Theorem format_qwen36_chat_exact pins data icu messages options :
  data_ok pins data -> limits_unsigned (limits data) ->
  Forall (fun content => content <> []) (expected_contents pins) -> icu_ok icu ->
  (forall text ids,
     format_qwen36_chat icu (Some data) messages options =
       Some {| chat_rendered := text; chat_token_ids := ids; chat_error := None |} <->
     Z.of_nat (length messages) <= max_chat_messages (limits data) /\
     exists expect turns_text, conversation icu messages expect turns_text /\
       (add_generation_prompt options = true -> expect = false) /\
       text = turns_text ++ generation_prompt options /\ encode icu (Some data) text = Encoded ids) /\
  exists result, format_qwen36_chat icu (Some data) messages options = Some result /\
    (chat_error result <> None -> chat_token_ids result = []).
Proof.
  intros Hd Hu Hc Hi. split; [intros text ids; apply format_exact, unsigned_input, Hu|].
  simpl. unfold format_qwen36_chat_impl.
  assert (Hnever : forall t, encode_impl icu data t <> EncodeLoops).
  { intros t Ht. pose proof (encode_impl_splits _ _ _ t Hd Hc Hi) as Hs. by rewrite Ht in Hs. }
  repeat (case_match; try (eexists; split; [reflexivity|simpl; done]; fail)); exfalso; eapply Hnever; eassumption.
Qed.

Definition sample_messages : list ChatMessage := [{| role := lit "user"; message_content := lit " aab " |}].
Definition sample_options : Qwen36ChatOptions := {| add_generation_prompt := true; enable_thinking := false |}.

Lemma format_qwen36_chat_exact_witness :
  exists text ids, format_qwen36_chat sample_icu (Some sample_data) sample_messages sample_options =
    Some {| chat_rendered := text; chat_token_ids := ids; chat_error := None |} /\
    text = user_header ++ lit "aab" ++ message_end ++ assistant_header ++ empty_thinking.
Proof.
  assert (He : exists ids, encode sample_icu (Some sample_data)
    (user_header ++ lit "aab" ++ message_end ++ assistant_header ++ empty_thinking) = Encoded ids).
  { match goal with |- exists ids, ?e = _ => assert (Hok : match e with Encoded _ => true | _ => false end = true)
      by (vm_compute; reflexivity); revert Hok; destruct e as [ids| |]; [by exists ids|done..] end. }
  destruct He as [ids He]. eexists _, ids. split; [|reflexivity].
  apply (format_qwen36_chat_exact sample_pins sample_data sample_icu sample_messages sample_options sample_data_ok
    sample_unsigned sample_contents sample_icu_ok). split; [vm_compute; discriminate|].
  exists false, (user_header ++ lit "aab" ++ message_end ++ []). split_and!; [|done|done|exact He].
  apply conversation_turns; [done|]. apply turns_user; [done| |constructor].
  apply trim_unicode_exact. vm_compute. reflexivity.
Defined.
