(* ===== verification/OpenAI.v ===== *)
(** * OpenAI: the request and response protocol of the server
      (src/server/openai_protocol.cpp)

    [parse_openai_request] turns the body of a request into what the engine is
    asked for, or into the error the client gets; the serializers write the
    bodies of the responses; the credential of a request is compared in
    constant time.  The witness record of a prefill is not modelled here. *)

From Stdlib Require Import String.
From S2P Require Import Prelude OrderedMap Json Sha256 Generation RequestPlan.

(** A text of the source with its quotes written ['].  *)
Definition js (s : String.string) : list Z := (fun c => if c =? 39 then 34 else c) <$> lit s.

Inductive OpenAIEndpoint := kChatCompletions | kCompletions.
Inductive OpenAIPromptKind := kChatMessages | kRawText | kTokenIds.

Record ReferenceChatMessage := { message_role : list Z; message_text : list Z }.

Record OpenAIRequest := {
  endpoint : OpenAIEndpoint;
  prompt_kind : OpenAIPromptKind;
  model : list Z;
  messages : list ReferenceChatMessage;
  prompt : list Z;
  prompt_token_ids : list Z;
  max_tokens : Z;
  seed : option Z;
  stream : bool;
  include_usage : bool
}.

Record OpenAIProtocolError := { http_status : Z; error_code : list Z; error_message : list Z; error_param : list Z }.

(** ** Parsing requests *)

Definition failure_with {A} (code message param : list Z) (status : Z) : OpenAIProtocolError + A :=
  inl {| http_status := status; error_code := code; error_message := message; error_param := param |}.
Definition failure {A} (code message param : String.string) : OpenAIProtocolError + A :=
  failure_with (lit code) (lit message) (lit param) 400.

(** The first member that is not allowed. *)
Fixpoint has_only_members (object : list (list Z * Value)) (allowed : list (list Z)) : option (list Z) :=
  match object with
  | [] => None
  | (key, _) :: object => if bool_decide (key ∈ allowed) then has_only_members object allowed else Some key
  end.

Definition parse_uint32 (value : Value) : option Z :=
  parsed ← as_uint64 value; if u32_max <? parsed then None else Some parsed.

Definition is_number (value : Value) (expected : Z) : bool :=
  match as_number value with
  | None => false
  | Some text => match to_double text with None => false | Some parsed => double_equals parsed expected end
  end.

(** [messages[index]] and what follows. *)
Definition at_index (name : String.string) (index : nat) (suffix : list Z) : list Z :=
  lit name ++ lit "[" ++ to_string (Z.of_nat index) ++ lit "]" ++ suffix.

Fixpoint parse_message_list (index : nat) (values : list Value) (found : list ReferenceChatMessage)
    : OpenAIProtocolError + list ReferenceChatMessage :=
  match values with
  | [] => inr found
  | value :: values =>
      match as_object value with
      | None => failure_with (lit "invalid_messages") (lit "each message must be an object") (at_index "messages" index []) 400
      | Some message =>
          match has_only_members message [lit "role"; lit "content"] with
          | Some unexpected =>
              failure_with (lit "unsupported_message_field") (lit "unsupported message field: " ++ unexpected)
                (at_index "messages" index (lit "." ++ unexpected)) 400
          | None =>
              match role ← find value (lit "role"); as_string role, content ← find value (lit "content"); as_string content with
              | Some role, Some content =>
                  if negb (bool_decide (role = lit "system")) && negb (bool_decide (role = lit "user"))
                     && negb (bool_decide (role = lit "assistant"))
                  then failure_with (lit "unsupported_message_role")
                         (lit "only system, user, and assistant roles are supported")
                         (at_index "messages" index (lit ".role")) 400
                  else parse_message_list (S index) values
                         (found ++ [{| message_role := role; message_text := content |}])
              | _, _ => failure_with (lit "unsupported_message") (lit "message role and content must be strings")
                          (at_index "messages" index []) 400
              end
          end
      end
  end.

Definition role_at (messages : list ReferenceChatMessage) (index : nat) : list Z :=
  match messages !! index with Some m => message_role m | None => [] end.

(** The loop over the roles; [n] messages are left. *)
Fixpoint check_roles (n index first : nat) (messages : list ReferenceChatMessage) : OpenAIProtocolError + unit :=
  match n with
  | O => inr tt
  | S n =>
      let expected := if ((index - first) mod 2 =? 0)%nat then lit "user" else lit "assistant" in
      if negb (bool_decide (role_at messages index = expected))
      then failure_with (lit "invalid_messages")
             (lit "messages must alternate user and assistant after an optional leading system message")
             (at_index "messages" index (lit ".role")) 400
      else check_roles n (S index) first messages
  end.

Definition parse_messages (value : Value) : OpenAIProtocolError + list ReferenceChatMessage :=
  match as_array value with
  | None => failure "invalid_messages" "messages must be a non-empty array" "messages"
  | Some [] => failure "invalid_messages" "messages must be a non-empty array" "messages"
  | Some values =>
      messages ← parse_message_list 0 values [];
      let first := if bool_decide (role_at messages 0 = lit "system") then 1%nat else 0%nat in
      if (first =? length messages)%nat
      then failure "invalid_messages" "a system message must be followed by a user message" "messages" else
      _ ← check_roles (length messages - first) first first messages;
      if negb (bool_decide (role_at messages (length messages - 1) = lit "user"))
      then failure_with (lit "invalid_messages") (lit "the final chat message must have role user")
             (at_index "messages" (length messages - 1) (lit ".role")) 400
      else inr messages
  end.

Fixpoint parse_token_ids (index : nat) (ids : list Value) (found : list Z) : OpenAIProtocolError + list Z :=
  match ids with
  | [] => inr found
  | value :: ids =>
      match parse_uint32 value with
      | None => failure_with (lit "invalid_prompt") (lit "token-id prompt must contain unsigned integers")
                  (at_index "prompt" index []) 400
      | Some id =>
          if kReferenceVocabularySize <=? id
          then failure_with (lit "invalid_prompt") (lit "token id is outside the pinned vocabulary")
                 (at_index "prompt" index []) 400
          else parse_token_ids (S index) ids (found ++ [id])
      end
  end.

(** What [parse_messages] and [parse_prompt] put in the request. *)
Record Payload := {
  payload_kind : OpenAIPromptKind;
  payload_messages : list ReferenceChatMessage;
  payload_prompt : list Z;
  payload_token_ids : list Z
}.

Definition parse_prompt (value : Value) : OpenAIProtocolError + Payload :=
  match as_string value with
  | Some text =>
      if bool_decide (text = []) then failure "invalid_prompt" "prompt must not be empty" "prompt" else
      inr {| payload_kind := kRawText; payload_messages := []; payload_prompt := text; payload_token_ids := [] |}
  | None =>
      match as_array value with
      | Some [] => failure "invalid_prompt" "token-id prompt must not be empty" "prompt"
      | Some ids =>
          ids ← parse_token_ids 0 ids [];
          inr {| payload_kind := kTokenIds; payload_messages := []; payload_prompt := []; payload_token_ids := ids |}
      | None => failure "unsupported_prompt" "prompt must be one string or one flat token-id array" "prompt"
      end
  end.

Definition parse_payload (e : OpenAIEndpoint) (value : Value) : OpenAIProtocolError + Payload :=
  match e with
  | kChatCompletions =>
      messages ← parse_messages value;
      inr {| payload_kind := kChatMessages; payload_messages := messages; payload_prompt := []; payload_token_ids := [] |}
  | kCompletions => parse_prompt value
  end.

Definition kProtocolValueAllowance : Z := 256.

Definition request_parse_options (maximum_sequence_length : Z) : ParseOptions := {|
  max_input_bytes := 4 * 1024 * 1024; max_nesting_depth := 32;
  max_values := maximum_sequence_length + kProtocolValueAllowance;
  max_container_items := maximum_sequence_length + kProtocolValueAllowance
|}.

Definition common_members : list (list Z) :=
  [lit "model"; lit "max_tokens"; lit "max_completion_tokens"; lit "temperature"; lit "top_p"; lit "n"; lit "seed";
   lit "stream"; lit "stream_options"; lit "stop"].
Definition payload_name (e : OpenAIEndpoint) : String.string :=
  match e with kChatCompletions => "messages" | kCompletions => "prompt" end%string.

Definition when {A} (value : option A) (check : A -> OpenAIProtocolError + unit) : OpenAIProtocolError + unit :=
  match value with Some value => check value | None => inr tt end.

(** [max_tokens] or [max_completion_tokens]. *)
Definition parse_max_tokens (root : Value) (maximum_output_tokens : Z) : OpenAIProtocolError + Z :=
  let max_tokens := find root (lit "max_tokens") in
  let max_completion_tokens := find root (lit "max_completion_tokens") in
  match max_tokens, max_completion_tokens with
  | Some _, Some _ =>
      failure "conflicting_parameters" "specify only one of max_tokens and max_completion_tokens" "max_tokens"
  | None, None =>
      failure "missing_parameter"
        "max_tokens or max_completion_tokens is required by this bounded evaluation gateway" "max_tokens"
  | Some selected, None | None, Some selected =>
      match parse_uint32 selected with
      | Some n =>
          if (n =? 0) || (maximum_output_tokens <? n)
          then failure "invalid_max_tokens" "max_tokens must be within the configured positive limit"
                 (match max_tokens with Some _ => "max_tokens" | None => "max_completion_tokens" end)%string
          else inr n
      | None => failure "invalid_max_tokens" "max_tokens must be within the configured positive limit"
                  (match max_tokens with Some _ => "max_tokens" | None => "max_completion_tokens" end)%string
      end
  end.

(** [temperature], [top_p] and [n]. *)
Definition check_sampling (root : Value) : OpenAIProtocolError + unit :=
  match find root (lit "temperature") with
  | None => failure "missing_parameter"
              "temperature=0 must be explicit because this gateway does not implement the OpenAI sampling default"
              "temperature"
  | Some temperature =>
      if negb (is_number temperature 0)
      then failure "unsupported_sampling" "only greedy temperature=0 is supported" "temperature" else
      _ ← when (find root (lit "top_p")) (fun top_p =>
        if negb (is_number top_p 1) then failure "unsupported_sampling" "only top_p=1 is supported" "top_p" else inr tt);
      when (find root (lit "n")) (fun n =>
        match parse_uint32 n with
        | Some value => if negb (value =? 1) then failure "unsupported_batch" "only n=1 is supported" "n" else inr tt
        | None => failure "unsupported_batch" "only n=1 is supported" "n"
        end)
  end.

Definition parse_seed (root : Value) : OpenAIProtocolError + option Z :=
  match find root (lit "seed") with
  | None => inr None
  | Some seed =>
      match text ← as_number seed; to_int64 text with
      | None => failure "invalid_seed" "seed must be a signed 64-bit integer" "seed"
      | Some value => inr (Some value)
      end
  end.

Definition parse_stream (root : Value) : OpenAIProtocolError + bool :=
  match find root (lit "stream") with
  | None => inr false
  | Some stream =>
      match as_bool stream with
      | None => failure "invalid_stream" "stream must be a boolean" "stream"
      | Some enabled => inr enabled
      end
  end.

Definition parse_stream_options (root : Value) (stream : bool) : OpenAIProtocolError + bool :=
  match find root (lit "stream_options") with
  | None => inr false
  | Some options =>
      if negb stream then failure "invalid_stream_options" "stream_options requires stream=true" "stream_options" else
      match as_object options with
      | None => failure "invalid_stream_options" "stream_options must be an object" "stream_options"
      | Some object =>
          match has_only_members object [lit "include_usage"] with
          | Some unexpected =>
              failure_with (lit "unsupported_parameter") (lit "unsupported stream option: " ++ unexpected)
                (lit "stream_options." ++ unexpected) 400
          | None =>
              match find options (lit "include_usage") with
              | None => inr false
              | Some include_usage =>
                  match as_bool include_usage with
                  | None => failure "invalid_stream_options" "include_usage must be a boolean"
                              "stream_options.include_usage"
                  | Some enabled => inr enabled
                  end
              end
          end
      end
  end.

Definition parse_root (e : OpenAIEndpoint) (served_model : list Z) (maximum_output_tokens maximum_sequence_length : Z)
    (root : Value) : OpenAIProtocolError + OpenAIRequest :=
  match as_object root with
  | None => failure "invalid_request" "request body must be a JSON object" ""
  | Some object =>
      match has_only_members object (lit (payload_name e) :: common_members) with
      | Some unexpected =>
          failure_with (lit "unsupported_parameter") (lit "unsupported request parameter: " ++ unexpected) unexpected 400
      | None =>
          match model ← find root (lit "model"); as_string model with
          | None => failure "invalid_model" "model must be a non-empty string" "model"
          | Some model =>
              if bool_decide (model = []) then failure "invalid_model" "model must be a non-empty string" "model" else
              if negb (bool_decide (model = served_model))
              then failure_with (lit "model_not_found") (lit "the requested model is not served") (lit "model") 404 else
              match find root (lit (payload_name e)) with
              | None => failure "missing_parameter" (String.append (payload_name e) " is required") (payload_name e)
              | Some value =>
                  payload ← parse_payload e value;
                  max_tokens ← parse_max_tokens root maximum_output_tokens;
                  if match payload_kind payload with
                     | kTokenIds =>
                         maximum_sequence_length
                           <? u64 (u64 (Z.of_nat (length (payload_token_ids payload)) + max_tokens) - 1)
                     | _ => false
                     end
                  then failure "context_length_exceeded"
                         "prompt tokens plus requested output exceed the configured sequence capacity" "prompt" else
                  _ ← check_sampling root;
                  seed ← parse_seed root;
                  _ ← when (find root (lit "stop")) (fun stop =>
                    if negb (is_null stop)
                    then failure "unsupported_stop" "custom stop sequences are not supported" "stop" else inr tt);
                  stream ← parse_stream root;
                  include_usage ← parse_stream_options root stream;
                  inr {| endpoint := e; prompt_kind := payload_kind payload; model := model;
                         messages := payload_messages payload; prompt := payload_prompt payload;
                         prompt_token_ids := payload_token_ids payload; max_tokens := max_tokens; seed := seed;
                         stream := stream; include_usage := include_usage |}
              end
          end
      end
  end.

Definition parse_openai_request (body : list Z) (e : OpenAIEndpoint) (served_model : list Z)
    (maximum_output_tokens maximum_sequence_length : Z) : OpenAIProtocolError + OpenAIRequest :=
  if bool_decide (served_model = []) || (maximum_output_tokens =? 0) || (maximum_sequence_length =? 0)
     || (kAbsoluteRequestMaxSequenceLength <? maximum_sequence_length)
  then failure_with (lit "server_configuration_error")
         (lit "served model, output limit, and sequence capacity are not configured") [] 500 else
  match parse body (request_parse_options maximum_sequence_length) with
  | Good root _ => parse_root e served_model maximum_output_tokens maximum_sequence_length root
  | _ => failure "invalid_json" "request body is not valid bounded JSON" ""
  end.

(** ** Authorization *)

(** The loop over the bytes of the expected header. *)
Fixpoint difference_from (n : nat) (index : Z) (authorization expected : list Z) (difference : Z) : Z :=
  match n with
  | O => difference
  | S n =>
      let actual := if index <? Z.of_nat (length authorization) then at_ authorization index else 0 in
      difference_from n (index + 1) authorization expected (Z.lor difference (Z.lxor actual (at_ expected index)))
  end.

Definition bearer : list Z := lit "Bearer ".

Definition constant_time_bearer_authorization_matches (authorization api_key : list Z) : bool :=
  let expected := bearer ++ api_key in
  let expected_size := Z.of_nat (length expected) in
  let difference := Z.lxor (Z.of_nat (length authorization)) expected_size in
  let difference := Z.lor difference (if bool_decide (api_key = []) then 1 else 0) in
  difference_from (length expected) 0 authorization expected difference =? 0.

(** ** Digest of token ids *)

Definition little_endian (id : Z) : list Z :=
  [u8 (Z.land id 0xff); u8 (Z.land (Z.shiftr id 8) 0xff); u8 (Z.land (Z.shiftr id 16) 0xff);
   u8 (Z.land (Z.shiftr id 24) 0xff)].

(** The loop over the ids; [bytes] are those in the buffer. *)
Fixpoint hash_ids (token_ids bytes : list Z) (hash : Sha256) : list Z * Sha256 :=
  match token_ids with
  | [] => (bytes, hash)
  | id :: token_ids =>
      let bytes := bytes ++ little_endian id in
      if Z.of_nat (length bytes) =? 4096
      then hash_ids token_ids [] (snd (update (Some bytes) (Z.of_nat (length bytes)) hash))
      else hash_ids token_ids bytes hash
  end.

Definition sha256_token_ids_u32le (token_ids : list Z) : list Ascii.ascii :=
  let '(bytes, hash) := hash_ids token_ids [] fresh in
  let hash := if negb (Z.of_nat (length bytes) =? 0)
              then snd (update (Some bytes) (Z.of_nat (length bytes)) hash) else hash in
  hex (fst (finalize hash)).

(** ** Writing responses *)

Inductive OpenAIFinishReason := kStop | kLength.
Definition finish_reason_name (reason : OpenAIFinishReason) : list Z :=
  match reason with kStop => lit "stop" | kLength => lit "length" end.

Record OpenAIUsage := { prompt_tokens : Z; completion_tokens : Z; total_tokens : Z }.

Definition append_common_prefix (id object : list Z) (created : Z) (model : list Z) : list Z :=
  js "{'id':" ++ append_json_string id ++ js ",'object':" ++ append_json_string object ++
  js ",'created':" ++ to_string created ++ js ",'model':" ++ append_json_string model.

Definition append_usage (usage : OpenAIUsage) : list Z :=
  js "{'prompt_tokens':" ++ to_string (prompt_tokens usage) ++
  js ",'completion_tokens':" ++ to_string (completion_tokens usage) ++
  js ",'total_tokens':" ++ to_string (total_tokens usage) ++ js "}".

Definition serialize_openai_error (error : OpenAIProtocolError) : list Z :=
  js "{'error':{'message':" ++ append_json_string (error_message error) ++
  js ",'type':'invalid_request_error','param':" ++
  (if bool_decide (error_param error = []) then js "null" else append_json_string (error_param error)) ++
  js ",'code':" ++ append_json_string (error_code error) ++ js "}}".

Definition serialize_chat_completion (id : list Z) (created : Z) (model text : list Z) (reason : OpenAIFinishReason)
    (usage : OpenAIUsage) : list Z :=
  append_common_prefix id (lit "chat.completion") created model ++
  js ",'choices':[{'index':0,'message':{'role':'assistant','content':" ++ append_json_string text ++
  js "},'logprobs':null,'finish_reason':" ++ append_json_string (finish_reason_name reason) ++
  js "}],'usage':" ++ append_usage usage ++ js "}".

Definition serialize_text_completion (id : list Z) (created : Z) (model text : list Z) (reason : OpenAIFinishReason)
    (usage : OpenAIUsage) : list Z :=
  append_common_prefix id (lit "text_completion") created model ++
  js ",'choices':[{'index':0,'text':" ++ append_json_string text ++
  js ",'logprobs':null,'finish_reason':" ++ append_json_string (finish_reason_name reason) ++
  js "}],'usage':" ++ append_usage usage ++ js "}".

Definition optional_reason (reason : option OpenAIFinishReason) : list Z :=
  match reason with Some reason => append_json_string (finish_reason_name reason) | None => js "null" end.

Definition serialize_chat_chunk (id : list Z) (created : Z) (model text_delta : list Z) (include_role : bool)
    (reason : option OpenAIFinishReason) : list Z :=
  append_common_prefix id (lit "chat.completion.chunk") created model ++
  js ",'choices':[{'index':0,'delta':{" ++ (if include_role then js "'role':'assistant'," else []) ++
  js "'content':" ++ append_json_string text_delta ++
  js "},'logprobs':null,'finish_reason':" ++ optional_reason reason ++ js "}]}".

Definition serialize_text_chunk (id : list Z) (created : Z) (model text_delta : list Z)
    (reason : option OpenAIFinishReason) : list Z :=
  append_common_prefix id (lit "text_completion") created model ++
  js ",'choices':[{'index':0,'text':" ++ append_json_string text_delta ++
  js ",'logprobs':null,'finish_reason':" ++ optional_reason reason ++ js "}]}".

Definition serialize_usage_chunk (e : OpenAIEndpoint) (id : list Z) (created : Z) (model : list Z) (usage : OpenAIUsage)
    : list Z :=
  append_common_prefix id
    (match e with kChatCompletions => lit "chat.completion.chunk" | kCompletions => lit "text_completion" end)
    created model ++ js ",'choices':[],'usage':" ++ append_usage usage ++ js "}".

(** The identity of the deployment, in the discovery responses;
    [mtp_service] is the build option [Q3X_ENABLE_MTP_SERVICE]. *)
Record OpenAIProductionIdentity := {
  profile_id : list Z;
  decode_route_id : list Z;
  target_prompt_tokens : Z;
  maximum_output_tokens : Z;
  max_sequence_length : Z;
  request_arena_bytes : Z;
  prefill_supermatrix_projections : Z;
  prefill_supermatrix_sidecar_bytes : Z;
  decode_fp8_output_layers : Z;
  decode_fp8_output_sidecar_bytes : Z;
  decode_gate_up_layers : Z;
  decode_gate_up_sidecar_bytes : Z;
  decode_down_scale6_layers : Z;
  decode_down_scale6_sidecar_bytes : Z;
  decode_down_consumer_order_layers : Z;
  decode_down_consumer_order_sidecar_bytes : Z;
  decode_retained_sidecar_bytes : Z;
  retained_acceleration_sidecar_bytes : Z;
  decode_graph_first_position : Z;
  decode_graph_last_position : Z;
  decode_graph_slots : Z;
  build_testing : bool;
  production_eligible : bool;
  release_qualified : bool
}.

Definition truth (b : bool) : list Z := if b then lit "true" else lit "false".

Definition append_production_identity (mtp_service : bool) (p : OpenAIProductionIdentity) : list Z :=
  js "{'profile':" ++ append_json_string (profile_id p) ++
  (if mtp_service
   then js ",'mtp_enabled':true,'acceleration_candidate':true,'maximum_prompt_tokens':44095" else []) ++
  js ",'capacity':{'target_prompt_tokens':" ++ to_string (target_prompt_tokens p) ++
  js ",'maximum_output_tokens':" ++ to_string (maximum_output_tokens p) ++
  js ",'max_sequence_length':" ++ to_string (max_sequence_length p) ++
  js ",'request_arena_bytes':" ++ to_string (request_arena_bytes p) ++
  js "},'prefill':{'supermatrix_projections':" ++ to_string (prefill_supermatrix_projections p) ++
  js ",'supermatrix_sidecar_bytes':" ++ to_string (prefill_supermatrix_sidecar_bytes p) ++
  js "},'decode':{'route':" ++ append_json_string (decode_route_id p) ++
  js ",'fp8_output_layers':" ++ to_string (decode_fp8_output_layers p) ++
  js ",'fp8_output_sidecar_bytes':" ++ to_string (decode_fp8_output_sidecar_bytes p) ++
  js ",'gate_up_layers':" ++ to_string (decode_gate_up_layers p) ++
  js ",'gate_up_sidecar_bytes':" ++ to_string (decode_gate_up_sidecar_bytes p) ++
  js ",'down_scale6_layers':" ++ to_string (decode_down_scale6_layers p) ++
  js ",'down_scale6_sidecar_bytes':" ++ to_string (decode_down_scale6_sidecar_bytes p) ++
  js ",'down_consumer_order_layers':" ++ to_string (decode_down_consumer_order_layers p) ++
  js ",'down_consumer_order_sidecar_bytes':" ++ to_string (decode_down_consumer_order_sidecar_bytes p) ++
  js ",'retained_sidecar_bytes':" ++ to_string (decode_retained_sidecar_bytes p) ++
  js ",'graph_cache':{'first_position':" ++ to_string (decode_graph_first_position p) ++
  js ",'last_position':" ++ to_string (decode_graph_last_position p) ++
  js ",'slots':" ++ to_string (decode_graph_slots p) ++ js "}" ++
  js "},'retained_acceleration_sidecar_bytes':" ++ to_string (retained_acceleration_sidecar_bytes p) ++
  js ",'BUILD_TESTING':" ++ truth (build_testing p) ++
  js ",'production_eligible':" ++ truth (production_eligible p) ++
  js ",'release_qualified':" ++ truth (release_qualified p) ++ js "}".

Definition serialize_models_response (mtp_service : bool) (served_model : list Z) (created : Z)
    (production : OpenAIProductionIdentity) : list Z :=
  js "{'object':'list','data':[{'id':" ++ append_json_string served_model ++
  js ",'object':'model','created':" ++ to_string created ++
  js ",'owned_by':'qwen3x-orin','q3x_production':" ++ append_production_identity mtp_service production ++ js "}]}".

Definition serialize_health_response (mtp_service : bool) (served_model : list Z) (production : OpenAIProductionIdentity)
    : list Z :=
  js "{'status':'ok','ready':true,'model':" ++ append_json_string served_model ++
  js ",'q3x_production':" ++ append_production_identity mtp_service production ++ js "}".

Definition serialize_unhealthy_health_response (mtp_service : bool) (served_model : list Z)
    (production : OpenAIProductionIdentity) (reason : list Z) : list Z :=
  js "{'status':'unhealthy','ready':false,'model':" ++ append_json_string served_model ++
  js ",'reason':" ++ append_json_string reason ++
  js ",'q3x_production':" ++ append_production_identity mtp_service production ++ js "}".

Definition v10_reason : list Z := lit "known-p513-full-state-mismatch-in-inherited-flashinfer-arithmetic".
Definition v10_artifact : list Z := lit "qwen36-27b-prefill-p40k-whole-core-direction-2026-08-10.json".
Definition v10_digest : list Z := lit "b0847b1f1965570d7311f6b73c137f11e34bc65c893ae76783583bb4fcd7a9fa".

Definition serialize_p40_whole_core_v10_models_response (served_model : list Z) (created : Z) : list Z :=
  js "{'object':'list','data':[{'id':" ++ append_json_string served_model ++
  js ",'object':'model','created':" ++ to_string created ++ js ",'owned_by':'qwen3x-orin'," ++
  js "'q3x_development_route':{'id':'p40-whole-core-v10'," ++
  js "'numerical_contract':{'qualified':false,'reason':" ++ append_json_string v10_reason ++
  js ",'p40000_full_state':'not_measured'},'evidence':{'artifact':" ++ append_json_string v10_artifact ++
  js ",'sha256':" ++ append_json_string v10_digest ++
  js "},'release_qualified':false,'production_eligible':false}}]}".

Definition serialize_p40_whole_core_v10_health_response (served_model : list Z) : list Z :=
  js "{'status':'ok','ready':true,'model':" ++ append_json_string served_model ++
  js ",'development_route':'p40-whole-core-v10'," ++
  js "'numerical_contract':{'qualified':false,'reason':" ++ append_json_string v10_reason ++
  js ",'p40000_full_state':'not_measured','evidence':{'artifact':" ++ append_json_string v10_artifact ++
  js ",'sha256':" ++ append_json_string v10_digest ++
  js "}},'release_qualified':false,'production_eligible':false}".

(** ** The credential *)

Lemma lor_zero a b : 0 <= a -> 0 <= b -> Z.lor a b = 0 <-> a = 0 /\ b = 0.
Proof. intros Ha Hb. rewrite Z.lor_eq_0_iff. done. Qed.

Lemma difference_zero n index authorization expected difference :
  0 <= difference -> 0 <= index -> Forall (fun b => 0 <= b) authorization -> Forall (fun b => 0 <= b) expected ->
  difference_from n index authorization expected difference = 0 <->
  difference = 0 /\ forall k, index <= k < index + Z.of_nat n ->
    (if k <? Z.of_nat (length authorization) then at_ authorization k else 0) = at_ expected k.
Proof.
  intros Hd Hi Ha He. revert index difference Hd Hi. induction n as [|n IH]; intros index difference Hd Hi.
  { simpl. split; [intros ->; split; [done|lia]|by intros [-> _]]. }
  cbn [difference_from].
  assert (Hpos : forall l k, Forall (fun b => 0 <= b) l -> 0 <= at_ l k).
  { intros l k Hl. unfold at_. destruct (nth_in_or_default (Z.to_nat k) l 0) as [Hin|Hz]; [|lia].
    rewrite Forall_forall in Hl. by apply Hl, list_elem_of_In. }
  set (actual := if index <? _ then _ else _).
  assert (Hactual : 0 <= actual) by (unfold actual; case_match; [by apply Hpos|lia]).
  assert (Hx : 0 <= Z.lxor actual (at_ expected index)) by (apply Z.lxor_nonneg; split; auto).
  rewrite IH; [|apply Z.lor_nonneg; done|lia]. rewrite lor_zero, Z.lxor_eq_0_iff by done.
  split.
  - intros [[-> Heq] Hrest]. split; [done|]. intros k Hk.
    destruct (Z.eq_dec k index) as [->|]; [exact Heq|apply Hrest; lia].
  - intros [-> Hall]. split_and!; [done|apply Hall; lia|]. intros k Hk. apply Hall. lia.
Qed.

Lemma bearer_matches authorization api_key :
  Forall (fun b => 0 <= b) authorization -> Forall (fun b => 0 <= b) api_key ->
  constant_time_bearer_authorization_matches authorization api_key = true <->
  authorization = lit "Bearer " ++ api_key /\ api_key <> [].
Proof.
  intros Ha Hk. unfold constant_time_bearer_authorization_matches. set (expected := bearer ++ api_key).
  assert (He : Forall (fun b => 0 <= b) expected) by (apply Forall_app; split; [repeat constructor; lia|done]).
  rewrite Z.eqb_eq, difference_zero; [| |lia|done|done].
  2:{ apply Z.lor_nonneg. split; [apply Z.lxor_nonneg; lia|case_bool_decide; lia]. }
  rewrite lor_zero by (first [apply Z.lxor_nonneg; lia|case_bool_decide; lia]).
  rewrite Z.lxor_eq_0_iff. split.
  - intros [[Hlen Hempty] Hall]. case_bool_decide as Hkey; [done|]. split; [|done].
    change (authorization = expected). apply Nat2Z.inj in Hlen. apply list_eq. intros k.
    destruct (decide (k < length authorization)%nat) as [Hlt|Hge]; [|rewrite !lookup_ge_None_2 by lia; done].
    specialize (Hall (Z.of_nat k) ltac:(lia)). rewrite (proj2 (Z.ltb_lt _ _)) in Hall by lia.
    unfold at_ in Hall. rewrite Nat2Z.id in Hall.
    destruct (lookup_lt_is_Some_2 authorization k Hlt) as [a Hak].
    destruct (lookup_lt_is_Some_2 expected k ltac:(lia)) as [b Hbk].
    rewrite (nth_lookup_Some _ _ _ _ Hak), (nth_lookup_Some _ _ _ _ Hbk) in Hall. by rewrite Hak, Hbk, Hall.
  - intros [-> Hkey]. split_and!; [done|by rewrite bool_decide_false|].
    intros k Hrange. by rewrite (proj2 (Z.ltb_lt _ _)) by (change (lit "Bearer ") with bearer; fold expected; lia).
Qed.

(** The credential check is exact: it accepts precisely the header
    [Bearer ] followed by the configured key, and no header at all when the key
    is empty.  (The loop runs once for every byte of the expected header,
    whatever the client sends.) *)
Theorem bearer_authorization_exact authorization api_key :
  Forall (fun b => 0 <= b) authorization -> Forall (fun b => 0 <= b) api_key ->
  constant_time_bearer_authorization_matches authorization api_key = true <->
  authorization = lit "Bearer " ++ api_key /\ api_key <> [].
Proof. apply bearer_matches. Qed.

Lemma bearer_authorization_exact_witness :
  constant_time_bearer_authorization_matches (lit "Bearer secret") (lit "secret") = true /\
  constant_time_bearer_authorization_matches (lit "Bearer secrex") (lit "secret") = false.
Proof.
  split; [|vm_compute; reflexivity].
  apply bearer_authorization_exact.
  - repeat (apply Forall_cons_2; [vm_compute; discriminate|]). apply Forall_nil_2.
  - repeat (apply Forall_cons_2; [vm_compute; discriminate|]). apply Forall_nil_2.
  - split; [reflexivity|discriminate].
Defined.

(** ** The digest of token ids *)

Lemma hash_ids_absorbs ids bytes q m hash :
  absorbed m hash -> length bytes = (4 * q)%nat -> (q < 1024)%nat ->
  Z.of_nat (length m) + Z.of_nat (length bytes) + 4 * Z.of_nat (length ids) <= u64_max ->
  exists m' bytes' hash', hash_ids ids bytes hash = (bytes', hash') /\ absorbed m' hash' /\
    m' ++ bytes' = m ++ bytes ++ mjoin (little_endian <$> ids).
Proof.
  revert bytes q m hash. induction ids as [|id ids IH]; intros bytes q m hash Hm Hb Hq Hlen; cbn [hash_ids].
  { exists m, bytes, hash. split_and!; [done|done|]. simpl. by rewrite app_nil_r. }
  change (mjoin (little_endian <$> id :: ids)) with (little_endian id ++ mjoin (little_endian <$> ids)).
  assert (Hlong : length (bytes ++ little_endian id) = (4 * S q)%nat)
    by (rewrite length_app; change (length (little_endian id)) with 4%nat; lia).
  cbn [length] in Hlen. destruct (Z.eqb_spec (Z.of_nat (length (bytes ++ little_endian id))) 4096).
  - destruct (update_absorbs m (bytes ++ little_endian id) hash Hm) as (s' & Hu & Hs); [lia|]. rewrite Hu. cbn [snd].
    destruct (IH [] 0%nat (m ++ bytes ++ little_endian id) s' Hs) as (m' & bytes' & hash' & -> & Habs & Heq);
      [done|lia|rewrite (length_app m); simpl; lia|].
    exists m', bytes', hash'. split_and!; [done|done|]. rewrite Heq. simpl. by rewrite <- !app_assoc.
  - destruct (IH (bytes ++ little_endian id) (S q) m hash Hm Hlong) as (m' & bytes' & hash' & -> & Habs & Heq); [lia..|].
    exists m', bytes', hash'. split_and!; [done|done|]. rewrite Heq. by rewrite <- !app_assoc.
Qed.

(** The digest is the one of the ids, four little-endian bytes each. *)
Lemma sha256_token_ids_exact ids :
  4 * Z.of_nat (length ids) <= u64_max ->
  sha256_token_ids_u32le ids = hex (digest_of (mjoin (little_endian <$> ids))).
Proof.
  intros Hlen. unfold sha256_token_ids_u32le.
  destruct (hash_ids_absorbs ids [] 0%nat [] fresh absorbed_fresh) as (m & bytes & hash & -> & Habs & Heq);
    [done|lia|simpl; lia|].
  cbn [app] in Heq. rewrite <- Heq. f_equal.
  destruct (Z.eqb_spec (Z.of_nat (length bytes)) 0) as [Hz|Hz]; cbn [negb].
  - destruct bytes; [|simpl in Hz; lia]. rewrite app_nil_r. by apply finalize_spec.
  - destruct (update_absorbs m bytes hash Habs) as (s' & Hu & Hs).
    { assert (length (mjoin (little_endian <$> ids)) = (4 * length ids)%nat).
      { clear. induction ids as [|id ids IH]; [done|].
        change (mjoin (little_endian <$> id :: ids)) with (little_endian id ++ mjoin (little_endian <$> ids)).
        rewrite length_app, IH. cbn [length]. change (length (little_endian id)) with 4%nat. lia. }
      apply (f_equal length) in Heq. rewrite length_app in Heq. lia. }
    rewrite Hu. by apply finalize_spec.
Qed.

(** ** What responses say *)

Definition common_document (id object : list Z) (created : Z) (model : list Z) (more : list (list Z * Value))
    : Value :=
  Object ([(lit "id", Json.String id); (lit "object", Json.String object); (lit "created", Number (to_string created));
           (lit "model", Json.String model)] ++ more).

Definition usage_document (usage : OpenAIUsage) : Value :=
  Object [(lit "prompt_tokens", Number (to_string (prompt_tokens usage)));
          (lit "completion_tokens", Number (to_string (completion_tokens usage)));
          (lit "total_tokens", Number (to_string (total_tokens usage)))].

Definition reason_document (reason : option OpenAIFinishReason) : Value :=
  match reason with Some reason => Json.String (finish_reason_name reason) | None => Null end.

Definition choice_document (content : list Z * Value) (reason : option OpenAIFinishReason) : Value :=
  Object [(lit "index", Number (lit "0")); content; (lit "logprobs", Null); (lit "finish_reason", reason_document reason)].

Definition identity_document (mtp_service : bool) (p : OpenAIProductionIdentity) : Value :=
  let number n := Number (to_string n) in
  Object ((lit "profile", Json.String (profile_id p)) ::
    (if mtp_service
     then [(lit "mtp_enabled", Bool true); (lit "acceleration_candidate", Bool true);
           (lit "maximum_prompt_tokens", Number (lit "44095"))] else []) ++
    [(lit "capacity", Object [
        (lit "target_prompt_tokens", number (target_prompt_tokens p));
        (lit "maximum_output_tokens", number (maximum_output_tokens p));
        (lit "max_sequence_length", number (max_sequence_length p));
        (lit "request_arena_bytes", number (request_arena_bytes p))]);
     (lit "prefill", Object [
        (lit "supermatrix_projections", number (prefill_supermatrix_projections p));
        (lit "supermatrix_sidecar_bytes", number (prefill_supermatrix_sidecar_bytes p))]);
     (lit "decode", Object [
        (lit "route", Json.String (decode_route_id p));
        (lit "fp8_output_layers", number (decode_fp8_output_layers p));
        (lit "fp8_output_sidecar_bytes", number (decode_fp8_output_sidecar_bytes p));
        (lit "gate_up_layers", number (decode_gate_up_layers p));
        (lit "gate_up_sidecar_bytes", number (decode_gate_up_sidecar_bytes p));
        (lit "down_scale6_layers", number (decode_down_scale6_layers p));
        (lit "down_scale6_sidecar_bytes", number (decode_down_scale6_sidecar_bytes p));
        (lit "down_consumer_order_layers", number (decode_down_consumer_order_layers p));
        (lit "down_consumer_order_sidecar_bytes", number (decode_down_consumer_order_sidecar_bytes p));
        (lit "retained_sidecar_bytes", number (decode_retained_sidecar_bytes p));
        (lit "graph_cache", Object [
           (lit "first_position", number (decode_graph_first_position p));
           (lit "last_position", number (decode_graph_last_position p));
           (lit "slots", number (decode_graph_slots p))])]);
     (lit "retained_acceleration_sidecar_bytes", number (retained_acceleration_sidecar_bytes p));
     (lit "BUILD_TESTING", Bool (build_testing p));
     (lit "production_eligible", Bool (production_eligible p));
     (lit "release_qualified", Bool (release_qualified p))]).

Definition evidence_document : Value :=
  Object [(lit "artifact", Json.String v10_artifact); (lit "sha256", Json.String v10_digest)].

(** The responses the server writes. *)
Inductive Response :=
  | ErrorResponse (error : OpenAIProtocolError)
  | ChatCompletion (id : list Z) (created : Z) (model text : list Z) (reason : OpenAIFinishReason) (usage : OpenAIUsage)
  | TextCompletion (id : list Z) (created : Z) (model text : list Z) (reason : OpenAIFinishReason) (usage : OpenAIUsage)
  | ChatChunk (id : list Z) (created : Z) (model text : list Z) (include_role : bool) (reason : option OpenAIFinishReason)
  | TextChunk (id : list Z) (created : Z) (model text : list Z) (reason : option OpenAIFinishReason)
  | UsageChunk (e : OpenAIEndpoint) (id : list Z) (created : Z) (model : list Z) (usage : OpenAIUsage)
  | Models (mtp_service : bool) (model : list Z) (created : Z) (production : OpenAIProductionIdentity)
  | Health (mtp_service : bool) (model : list Z) (production : OpenAIProductionIdentity)
  | Unhealthy (mtp_service : bool) (model : list Z) (production : OpenAIProductionIdentity) (reason : list Z)
  | V10Models (model : list Z) (created : Z)
  | V10Health (model : list Z).

Definition write (r : Response) : list Z :=
  match r with
  | ErrorResponse error => serialize_openai_error error
  | ChatCompletion id created model text reason usage => serialize_chat_completion id created model text reason usage
  | TextCompletion id created model text reason usage => serialize_text_completion id created model text reason usage
  | ChatChunk id created model text include_role reason => serialize_chat_chunk id created model text include_role reason
  | TextChunk id created model text reason => serialize_text_chunk id created model text reason
  | UsageChunk e id created model usage => serialize_usage_chunk e id created model usage
  | Models mtp model created production => serialize_models_response mtp model created production
  | Health mtp model production => serialize_health_response mtp model production
  | Unhealthy mtp model production reason => serialize_unhealthy_health_response mtp model production reason
  | V10Models model created => serialize_p40_whole_core_v10_models_response model created
  | V10Health model => serialize_p40_whole_core_v10_health_response model
  end.

Definition meaning (r : Response) : Value :=
  match r with
  | ErrorResponse error =>
      Object [(lit "error", Object [
        (lit "message", Json.String (error_message error)); (lit "type", Json.String (lit "invalid_request_error"));
        (lit "param", if bool_decide (error_param error = []) then Null else Json.String (error_param error));
        (lit "code", Json.String (error_code error))])]
  | ChatCompletion id created model text reason usage =>
      common_document id (lit "chat.completion") created model
        [(lit "choices", Array [choice_document
            (lit "message", Object [(lit "role", Json.String (lit "assistant")); (lit "content", Json.String text)])
            (Some reason)]); (lit "usage", usage_document usage)]
  | TextCompletion id created model text reason usage =>
      common_document id (lit "text_completion") created model
        [(lit "choices", Array [choice_document (lit "text", Json.String text) (Some reason)]);
         (lit "usage", usage_document usage)]
  | ChatChunk id created model text include_role reason =>
      common_document id (lit "chat.completion.chunk") created model
        [(lit "choices", Array [choice_document
            (lit "delta", Object ((if include_role then [(lit "role", Json.String (lit "assistant"))] else []) ++
               [(lit "content", Json.String text)])) reason])]
  | TextChunk id created model text reason =>
      common_document id (lit "text_completion") created model
        [(lit "choices", Array [choice_document (lit "text", Json.String text) reason])]
  | UsageChunk e id created model usage =>
      common_document id
        (match e with kChatCompletions => lit "chat.completion.chunk" | kCompletions => lit "text_completion" end)
        created model [(lit "choices", Array []); (lit "usage", usage_document usage)]
  | Models mtp model created production =>
      Object [(lit "object", Json.String (lit "list")); (lit "data", Array [Object [
        (lit "id", Json.String model); (lit "object", Json.String (lit "model"));
        (lit "created", Number (to_string created)); (lit "owned_by", Json.String (lit "qwen3x-orin"));
        (lit "q3x_production", identity_document mtp production)]])]
  | Health mtp model production =>
      Object [(lit "status", Json.String (lit "ok")); (lit "ready", Bool true); (lit "model", Json.String model);
              (lit "q3x_production", identity_document mtp production)]
  | Unhealthy mtp model production reason =>
      Object [(lit "status", Json.String (lit "unhealthy")); (lit "ready", Bool false); (lit "model", Json.String model);
              (lit "reason", Json.String reason); (lit "q3x_production", identity_document mtp production)]
  | V10Models model created =>
      Object [(lit "object", Json.String (lit "list")); (lit "data", Array [Object [
        (lit "id", Json.String model); (lit "object", Json.String (lit "model"));
        (lit "created", Number (to_string created)); (lit "owned_by", Json.String (lit "qwen3x-orin"));
        (lit "q3x_development_route", Object [
           (lit "id", Json.String (lit "p40-whole-core-v10"));
           (lit "numerical_contract", Object [(lit "qualified", Bool false); (lit "reason", Json.String v10_reason);
              (lit "p40000_full_state", Json.String (lit "not_measured"))]);
           (lit "evidence", evidence_document);
           (lit "release_qualified", Bool false); (lit "production_eligible", Bool false)])]])]
  | V10Health model =>
      Object [(lit "status", Json.String (lit "ok")); (lit "ready", Bool true); (lit "model", Json.String model);
        (lit "development_route", Json.String (lit "p40-whole-core-v10"));
        (lit "numerical_contract", Object [(lit "qualified", Bool false); (lit "reason", Json.String v10_reason);
           (lit "p40000_full_state", Json.String (lit "not_measured")); (lit "evidence", evidence_document)]);
        (lit "release_qualified", Bool false); (lit "production_eligible", Bool false)]
  end.

(** Concatenations are compared as lists of their parts. *)
Inductive cat := Part (l : list Z) | Cat (a b : cat).
Fixpoint joined (c : cat) : list Z := match c with Part l => l | Cat a b => joined a ++ joined b end.
Fixpoint parts (c : cat) (rest : list Z) : list Z :=
  match c with Part l => l ++ rest | Cat a b => parts a (parts b rest) end.

Lemma joined_parts c rest : joined c ++ rest = parts c rest.
Proof.
  revert rest. induction c as [l|a IHa b IHb]; intros rest; simpl; [done|].
  by rewrite <- app_assoc, IHb, IHa.
Qed.

Lemma same_parts a b : parts a [] = parts b [] -> joined a = joined b.
Proof. by rewrite <- !joined_parts, !app_nil_r. Qed.

Ltac reify e :=
  lazymatch e with
  | ?a ++ ?b => let a := reify a in let b := reify b in constr:(Cat a b)
  | ?x :: ?l => let l := reify l in constr:(Cat (Part [x]) l)
  | _ => constr:(Part e)
  end.

Ltac abstract_texts :=
  repeat match goal with
  | |- context [append_json_string ?x] =>
      lazymatch x with lit _ => fail | _ => generalize (append_json_string x); intro end
  | |- context [to_string ?x] => generalize (to_string x); intro
  | |- context [truth ?x] => generalize (truth x); intro
  | |- context [append_usage ?x] => generalize (append_usage x); intro
  | |- context [append_production_identity ?m ?x] => generalize (append_production_identity m x); intro
  end.

(** The texts the source spells out are those of the members, one after
    another. *)
Ltac spelled :=
  cbn [render map comma_separated fst snd app fmap list_fmap mjoin list_join];
  lazymatch goal with
  | |- ?l = ?r => let l := reify l in let r := reify r in change (joined l = joined r)
  end;
  apply same_parts; abstract_texts; vm_compute; reflexivity.

Lemma render_usage usage : render (usage_document usage) = append_usage usage.
Proof. unfold append_usage, usage_document. spelled. Qed.

Lemma render_identity mtp_service p : render (identity_document mtp_service p) = append_production_identity mtp_service p.
Proof.
  unfold append_production_identity, identity_document. cbv zeta.
  destruct mtp_service; cbn [render map fst snd app].
  all: repeat match goal with
    | |- context [match ?b with true => [116; 114; 117; 101] | false => [102; 97; 108; 115; 101] end] =>
        change (match b with true => [116; 114; 117; 101] | false => [102; 97; 108; 115; 101] end) with (truth b)
    end.
  all: spelled.
Qed.

#[local] Arguments usage_document : simpl never.
#[local] Arguments identity_document : simpl never.

Lemma write_meaning r : write r = render (meaning r).
Proof.
  destruct r; cbn [write meaning]; unfold serialize_openai_error, serialize_chat_completion, serialize_text_completion,
    serialize_chat_chunk, serialize_text_chunk, serialize_usage_chunk, serialize_models_response,
    serialize_health_response, serialize_unhealthy_health_response, serialize_p40_whole_core_v10_models_response,
    serialize_p40_whole_core_v10_health_response, append_common_prefix,
    common_document, choice_document, evidence_document, optional_reason, reason_document;
  repeat match goal with
  | |- context [if ?b then _ else _] => destruct b
  | |- context [match ?o with Some _ => _ | None => _ end] => destruct o
  | r : OpenAIFinishReason |- _ => destruct r
  | e : OpenAIEndpoint |- _ => destruct e
  end; cbn [finish_reason_name];
  cbn [render map comma_separated fst snd app fmap list_fmap mjoin list_join];
  rewrite ?render_usage, ?render_identity; spelled.
Qed.

(** The texts a response carries. *)
Definition identity_texts (p : OpenAIProductionIdentity) : list (list Z) := [profile_id p; decode_route_id p].
Definition texts (r : Response) : list (list Z) :=
  match r with
  | ErrorResponse error => [error_message error; error_param error; error_code error]
  | ChatCompletion id _ model text _ _ | TextCompletion id _ model text _ _ | ChatChunk id _ model text _ _
  | TextChunk id _ model text _ => [id; model; text]
  | UsageChunk _ id _ model _ => [id; model]
  | Models _ model _ p | Health _ model p => model :: identity_texts p
  | Unhealthy _ model p reason => model :: reason :: identity_texts p
  | V10Models model _ | V10Health model => [model]
  end.

(** The generated text, as a client finds it. *)
Definition content_of (v : Value) : option (list Z) :=
  choices ← find v (lit "choices");
  choices ← as_array choices;
  choice ← head choices;
  content ← match find choice (lit "message"), find choice (lit "delta") with
            | Some m, _ | None, Some m => find m (lit "content")
            | None, None => find choice (lit "text")
            end;
  as_string content.

Definition generated (r : Response) : option (list Z) :=
  match r with
  | ChatCompletion _ _ _ text _ _ | TextCompletion _ _ _ text _ _ | ChatChunk _ _ _ text _ _ | TextChunk _ _ _ text _ => Some text
  | _ => None
  end.

Lemma ascii_text l : forallb (fun b => (0 <=? b) && (b <? 0x80)) l = true -> utf8 l.
Proof.
  induction l as [|b l IH]; [intros _; apply utf8_nil|]. simpl. intros [Hb Hl]%andb_true_iff. bools.
  change (b :: l) with ([b] ++ l). apply utf8_app; [by apply ascii_utf8|by apply IH].
Qed.

Lemma meaning_document r : Forall utf8 (texts r) -> document (meaning r).
Proof.
  intros Ht. destruct r; cbn [texts] in Ht; unfold identity_texts in Ht; cbn [meaning];
    repeat match goal with H : Forall _ (_ :: _) |- _ => apply Forall_cons in H as [? H] end; clear Ht.
  all: unfold common_document, choice_document, reason_document, usage_document, identity_document, evidence_document.
  all: repeat match goal with
  | |- context [if ?b then _ else _] => destruct b
  | r : option OpenAIFinishReason |- _ => destruct r
  | r : OpenAIFinishReason |- _ => destruct r
  | e : OpenAIEndpoint |- _ => destruct e
  end.
  all: cbn [document foldr fst snd app fmap list_fmap finish_reason_name].
  all: repeat split; try done; try apply to_string_number; try (apply ascii_text; vm_compute; reflexivity).
  all: first [exact (to_string_number 0)|exact (to_string_number 44095)|apply (bool_decide_unpack _); vm_compute; exact I].
Qed.

Lemma meaning_small r : nesting (meaning r) <= 8 /\ values_in (meaning r) <= 64 /\ items_in (meaning r) <= 64.
Proof.
  destruct r; cbn [meaning];
    repeat match goal with
    | |- context [if ?b then _ else _] => destruct b
    | r : option OpenAIFinishReason |- _ => destruct r
    | b : bool |- _ => destruct b
    end; split_and!; apply Z.leb_le; vm_compute; reflexivity.
Qed.

Lemma content_meaning r : content_of (sorted (meaning r)) = generated r.
Proof.
  destruct r; try (vm_compute; reflexivity);
   repeat match goal with
    | |- context [if ?b then _ else _] => destruct b
    | b : bool |- _ => destruct b
    | r : option OpenAIFinishReason |- _ => destruct r
    end; vm_compute; reflexivity.
Qed.

(** Looking up a member does not depend on the order. *)
Lemma find_sorted kvs key : document (Object kvs) -> find (sorted (Object kvs)) key = sorted <$> map_find key kvs.
Proof.
  intros [_ Hn]. cbn [sorted find]. rewrite find_emplace_entries.
  - clear Hn. induction kvs as [|[k v] kvs IH]; simpl; [done|]. case_bool_decide; [done|exact IH].
  - rewrite <- list_fmap_compose. exact Hn.
  - done.
Qed.

(** C19. What the server writes is what a client reads.  Every response — an
    error, a completion, a chunk of a stream, the usage, a discovery response
    — with UTF-8 texts is a single line, parses as JSON, and its value is the
    document the protocol describes, its members in the order of their keys;
    the generated text, quotes, control characters and all, is found in it
    where the protocol puts it. *)
Theorem write_read r options :
  Forall utf8 (texts r) -> 8 <= max_nesting_depth options -> 64 <= max_values options ->
  64 <= max_container_items options -> Z.of_nat (length (write r)) <= max_input_bytes options ->
  Forall (fun b => 0x20 <= b) (write r) /\
  (exists s, parse (write r) options = Good (sorted (meaning r)) s) /\
  content_of (sorted (meaning r)) = generated r.
Proof.
  intros Ht Hd Hv Hi Hl. pose proof (meaning_document r Ht) as Hdoc. pose proof (meaning_small r) as (Hn & Hvs & Hits).
  rewrite write_meaning in *. split_and!; [by apply render_printable| |apply content_meaning].
  apply parse_document; [done| |lia..|done]. unfold kAbsoluteMaxNestingDepth. lia.
Qed.

Definition sample_response : Response :=
  ChatChunk (lit "chatcmpl-1") 1700000000 (lit "qwen") ([34; 10] ++ lit "hi") true (Some kLength).

Lemma write_read_witness :
  exists s v, parse (write sample_response) default_options = Good v s /\ content_of v = Some ([34; 10] ++ lit "hi").
Proof.
  destruct (write_read sample_response default_options) as (_ & [s Hp] & Hc).
  - repeat (apply Forall_cons_2 || apply Forall_nil_2); apply ascii_text; vm_compute; reflexivity.
  - vm_compute. discriminate.
  - vm_compute. discriminate.
  - vm_compute. discriminate.
  - vm_compute. discriminate.
  - exists s, (sorted (meaning sample_response)). split; [exact Hp|exact Hc].
Defined.

(** ** What a request says *)

Definition message_value (m : ReferenceChatMessage) : Value :=
  Object [(lit "content", Json.String (message_text m)); (lit "role", Json.String (message_role m))].

(** The user speaks first and last. *)
Inductive dialogue : list ReferenceChatMessage -> Prop :=
  | dialogue_last m : message_role m = lit "user" -> dialogue [m]
  | dialogue_more m answer messages :
      message_role m = lit "user" -> message_role answer = lit "assistant" -> dialogue messages ->
      dialogue (m :: answer :: messages).

Inductive chat_messages : list ReferenceChatMessage -> Prop :=
  | chat_dialogue messages : dialogue messages -> chat_messages messages
  | chat_system m messages : message_role m = lit "system" -> dialogue messages -> chat_messages (m :: messages).

Inductive payload_of : OpenAIEndpoint -> Value -> Payload -> Prop :=
  | payload_chat messages : chat_messages messages ->
      payload_of kChatCompletions (Array (message_value <$> messages))
        {| payload_kind := kChatMessages; payload_messages := messages; payload_prompt := []; payload_token_ids := [] |}
  | payload_text text : text <> [] ->
      payload_of kCompletions (Json.String text)
        {| payload_kind := kRawText; payload_messages := []; payload_prompt := text; payload_token_ids := [] |}
  | payload_ids values ids : ids <> [] ->
      Forall2 (fun v i => as_uint64 v = Some i /\ i < kReferenceVocabularySize) values ids ->
      payload_of kCompletions (Array values)
        {| payload_kind := kTokenIds; payload_messages := []; payload_prompt := []; payload_token_ids := ids |}.

(** ** Messages *)

Lemma has_only_members_none object allowed : has_only_members object allowed = None <-> Forall (fun key => key ∈ allowed) object.*1.
Proof.
  induction object as [|[k v] object IH]; simpl; [by split|].
  case_bool_decide; rewrite Forall_cons; [rewrite IH; tauto|]. split; [done|]. by intros [? _].
Qed.

Lemma two_members kvs role content :
  keys_sorted kvs -> has_only_members kvs [lit "role"; lit "content"] = None ->
  find (Object kvs) (lit "role") = Some (Json.String role) -> find (Object kvs) (lit "content") = Some (Json.String content) ->
  Object kvs = message_value {| message_role := role; message_text := content |}.
Proof.
  intros Hs Hall%has_only_members_none Hr Hc. simpl in Hr, Hc.
  assert (Hkeys : kvs.*1 = [lit "content"; lit "role"]).
  { apply set_sorted_ext; [by apply keys_sorted_keys|repeat constructor|]. intros key. split.
    - intros Hkey. rewrite Forall_forall in Hall. apply Hall in Hkey. rewrite !elem_of_cons in *. tauto.
    - intros [->|[->|[]%not_elem_of_nil]%elem_of_cons]%elem_of_cons.
      + apply map_find_elem in Hc. by apply (list_elem_of_fmap_2 fst) in Hc.
      + apply map_find_elem in Hr. by apply (list_elem_of_fmap_2 fst) in Hr. }
  destruct kvs as [|[k1 v1] [|[k2 v2] [|]]]; try done. simpl in Hkeys. injection Hkeys as -> ->.
  unfold message_value. cbn [message_text message_role]. vm_compute in Hr, Hc. injection Hr as ->. injection Hc as ->. reflexivity.
Qed.

Definition known_role (role : list Z) : Prop := role = lit "system" \/ role = lit "user" \/ role = lit "assistant".

Lemma parse_message_list_exact values index found messages :
  Forall well_formed values ->
  parse_message_list index values found = inr messages <->
  exists more, messages = found ++ more /\ values = message_value <$> more /\
    Forall (fun m => known_role (message_role m)) more.
Proof.
  intros Hw. revert index found. induction Hw as [|value values Hv Hw IH]; intros index found; cbn [parse_message_list].
  { split.
    - intros [= <-]. exists []. by rewrite app_nil_r.
    - intros ([|] & -> & Hm & _); [by rewrite app_nil_r|done]. }
  split.
  - intros H. destruct (as_object value) as [kvs|] eqn:Ho; [|done]. destruct value as [| | | | |members]; try done.
    injection Ho as ->. destruct (has_only_members kvs _) eqn:Hall; [done|].
    destruct (role ← find (Object kvs) (lit "role"); as_string role) as [role|] eqn:Hr; [|done].
    destruct (content ← find (Object kvs) (lit "content"); as_string content) as [content|] eqn:Hc; [|done].
    apply bind_Some in Hr as (vr & Hr & Hrs), Hc as (vc & Hc & Hcs).
    destruct vr; try done. destruct vc; try done. injection Hrs as ->. injection Hcs as ->.
    destruct (_ && _) eqn:Hrole in H; [done|]. apply IH in H as (more & -> & -> & Hmore).
    exists ({| message_role := role; message_text := content |} :: more). split_and!.
    + by rewrite <- app_assoc.
    + rewrite fmap_cons. f_equal. apply two_members; [apply Hv|done..].
    + constructor; [|done]. unfold known_role. simpl.
      repeat (case_bool_decide; [by auto|]). done.
  - intros ([|m more] & -> & Hm & Hmore); [done|]. rewrite fmap_cons in Hm. injection Hm as -> ->.
    apply Forall_cons in Hmore as [Hrole Hmore]. cbn [as_object message_value].
    change (has_only_members _ _) with (@None (list Z)). cbv iota.
    change (role ← find _ (lit "role"); as_string role) with (Some (message_role m)).
    change (content ← find _ (lit "content"); as_string content) with (Some (message_text m)). cbv iota.
    assert (Hneg : negb (bool_decide (message_role m = lit "system")) && negb (bool_decide (message_role m = lit "user"))
      && negb (bool_decide (message_role m = lit "assistant")) = false).
    { destruct Hrole as [-> |[-> | ->]]; reflexivity. }
    rewrite Hneg. apply IH. exists more. split_and!; [by destruct m; rewrite <- app_assoc|done|done].
Qed.

Definition expected_role (k : nat) : list Z := if (k mod 2 =? 0)%nat then lit "user" else lit "assistant".

Lemma check_roles_exact n index first messages :
  check_roles n index first messages = inr tt <->
  forall k, (k < n)%nat -> role_at messages (index + k) = expected_role (index + k - first).
Proof.
  revert index. induction n as [|n IH]; intros index; cbn [check_roles]; [split; [lia|done]|].
  fold (expected_role (index - first)). case_bool_decide as Hr; cbn [negb].
  - rewrite IH. split; intros Hall k Hk.
    + destruct k as [|k]; [by rewrite Nat.add_0_r|]. replace (index + S k)%nat with (S index + k)%nat by lia. apply Hall. lia.
    + replace (S index + k)%nat with (index + S k)%nat by lia. apply Hall. lia.
  - split; [done|]. intros Hall. specialize (Hall 0%nat ltac:(lia)). by rewrite Nat.add_0_r in Hall.
Qed.

Lemma expected_role_step k : expected_role (S (S k)) = expected_role k.
Proof. unfold expected_role. by replace (S (S k) mod 2)%nat with (k mod 2)%nat by (rewrite <- (Nat.Div0.mod_add k 1); f_equal; lia). Qed.

Lemma dialogue_roles messages :
  dialogue messages <->
  messages <> [] /\ (forall k, (k < length messages)%nat -> role_at messages k = expected_role k) /\
  role_at messages (length messages - 1) = lit "user".
Proof.
  split.
  - induction 1 as [m Hm|m answer messages Hm Ha Hd (Hne & Hall & Hlast)].
    + split_and!; [done| |exact Hm]. intros [|k] Hk; [exact Hm|simpl in Hk; lia].
    + split_and!; [done| |].
      * intros [|[|k]] Hk; [exact Hm|exact Ha|]. rewrite expected_role_step. apply Hall. simpl in Hk. lia.
      * destruct messages as [|x messages]; [done|]. cbn [length] in *.
        replace (S (S (S (length messages))) - 1)%nat with (S (S (S (length messages) - 1))) by lia. exact Hlast.
  - assert (Hgen : forall n messages, (length messages <= n)%nat -> messages <> [] ->
      (forall k, (k < length messages)%nat -> role_at messages k = expected_role k) ->
      role_at messages (length messages - 1) = lit "user" -> dialogue messages).
    { clear messages. induction n as [|n IH]; intros messages Hn Hne Hall Hlast.
      { destruct messages; [done|simpl in Hn; lia]. }
      destruct messages as [|m [|answer messages]]; [done|apply dialogue_last; exact (Hall 0%nat ltac:(simpl; lia))|].
      apply dialogue_more; [exact (Hall 0%nat ltac:(simpl; lia))|exact (Hall 1%nat ltac:(simpl; lia))|].
      destruct messages as [|x messages].
      { exfalso. pose proof (Hall 1%nat ltac:(simpl; lia)) as Ha. simpl length in Hlast. change (2 - 1)%nat with 1%nat in Hlast.
        rewrite Ha in Hlast. done. }
      apply IH; [simpl in *; lia|done| |].
      - intros k Hk. rewrite <- expected_role_step. apply (Hall (S (S k))). simpl in *. lia.
      - cbn [length] in Hlast |- *. rewrite <- Hlast. unfold role_at.
        replace (S (S (S (length messages))) - 1)%nat with (S (S (S (length messages) - 1))) by lia. done. }
    intros (Hne & Hall & Hlast). by apply (Hgen (length messages)).
Qed.

Lemma role_at_drop first messages k : role_at messages (first + k) = role_at (drop first messages) k.
Proof. unfold role_at. by rewrite lookup_drop. Qed.

Lemma check_dialogue first messages :
  (first < length messages)%nat ->
  (check_roles (length messages - first) first first messages = inr tt /\
   role_at messages (length messages - 1) = lit "user") <-> dialogue (drop first messages).
Proof.
  intros Hf. rewrite check_roles_exact, dialogue_roles, length_drop.
  replace (length messages - 1)%nat with (first + (length messages - first - 1))%nat by lia. rewrite role_at_drop.
  assert (Hall : (forall k, (k < length messages - first)%nat -> role_at messages (first + k) = expected_role (first + k - first)) <->
    (forall k, (k < length messages - first)%nat -> role_at (drop first messages) k = expected_role k)).
  { split; intros H k Hk; specialize (H k Hk); replace (first + k - first)%nat with k in * by lia;
      by rewrite role_at_drop in *. }
  rewrite Hall. split; [intros [? ?]; split_and!; [|done|done]|tauto].
  intros Hnil. apply (f_equal length) in Hnil. rewrite length_drop in Hnil. simpl in Hnil. lia.
Qed.

Lemma chat_roles_known messages : chat_messages messages -> Forall (fun m => known_role (message_role m)) messages.
Proof.
  assert (Hd : forall ms, dialogue ms -> Forall (fun m => known_role (message_role m)) ms).
  { unfold known_role. induction 1; repeat apply Forall_cons_2; try apply Forall_nil_2; auto. }
  destruct 1; [by apply Hd|]. constructor; [by left|by apply Hd].
Qed.

Lemma parse_messages_exact value messages :
  well_formed value ->
  parse_messages value = inr messages <-> value = Array (message_value <$> messages) /\ chat_messages messages.
Proof.
  intros Hw. unfold parse_messages. destruct (as_array value) as [[|v values]|] eqn:Ha.
  - split; [done|]. intros [-> Hc]. injection Ha as Ha. destruct messages; [|done]. by inversion Hc as [? Hd|]; inversion Hd.
  - destruct value as [| | | |vs|]; try done. injection Ha as ->. cbn [well_formed] in Hw. apply foldr_and_Forall in Hw.
    set (first ms := if bool_decide (role_at ms 0 = lit "system") then 1%nat else 0%nat).
    assert (Htail : forall ms, ms <> [] ->
      (let first := first ms in
       if (first =? length ms)%nat then failure "invalid_messages" "a system message must be followed by a user message" "messages"
       else _ ← check_roles (length ms - first) first first ms;
       if negb (bool_decide (role_at ms (length ms - 1) = lit "user"))
       then failure_with (lit "invalid_messages") (lit "the final chat message must have role user")
              (at_index "messages" (length ms - 1) (lit ".role")) 400
       else inr ms) = inr messages <-> ms = messages /\ chat_messages messages).
    { intros ms Hne. cbv zeta.
      assert (Hchat : chat_messages ms <-> (first ms < length ms)%nat /\ dialogue (drop (first ms) ms)).
      { destruct ms as [|m ms]; [done|]. destruct (decide (message_role m = lit "system")) as [Hs|Hs].
        - assert (Hone : first (m :: ms) = 1%nat) by (unfold first; by rewrite bool_decide_true).
          rewrite Hone. split.
          + intros Hc. inversion Hc as [? Hd|? ? _ Hd]; subst.
            * apply dialogue_roles in Hd as (_ & Hall & _). specialize (Hall 0%nat ltac:(simpl; lia)).
              unfold role_at in Hall. simpl in Hall. by rewrite Hs in Hall.
            * split; [inversion Hd; simpl; lia|exact Hd].
          + intros [_ Hd]. exact (chat_system m ms Hs Hd).
        - assert (Hzero : first (m :: ms) = 0%nat) by (unfold first; by rewrite bool_decide_false).
          rewrite Hzero. split.
          + intros Hc. inversion Hc; subst; [split; [simpl; lia|done]|done].
          + intros [_ Hd]. exact (chat_dialogue (m :: ms) Hd). }
      destruct (Nat.eqb_spec (first ms) (length ms)) as [Hfull|Hfull].
      { split; [done|]. intros [<- Hc]. apply Hchat in Hc as [? _]. lia. }
      assert (Hlt : (first ms < length ms)%nat).
      { unfold first in *. destruct ms; [done|]. case_bool_decide; simpl in *; lia. }
      pose proof (check_dialogue (first ms) ms Hlt) as Hcheck. split.
      - intros H. sum_inv H. destruct a. apply negb_false_iff, bool_decide_eq_true in Hb. injection H as <-.
        split; [done|]. apply Hchat. split; [done|]. by apply Hcheck.
      - intros [<- Hc]. apply Hchat in Hc as [_ Hd]. apply Hcheck in Hd as [Hr Hlast]. rewrite Hr. cbn [mbind sum_bind].
        rewrite Hlast. reflexivity. }
    destruct (parse_message_list 0 (v :: values) []) as [e|ms] eqn:Hl; cbn [mbind sum_bind].
    + split; [done|]. intros [Hv Hc]. injection Hv as Hv.
      assert (parse_message_list 0 (v :: values) [] = inr messages); [|congruence].
      apply parse_message_list_exact; [done|]. exists messages. split_and!; [done|done|by apply chat_roles_known].
    + apply parse_message_list_exact in Hl as (more & -> & Hv & _); [|done]. cbn [app] in *.
      assert (Hne : more <> []) by (by intros ->). specialize (Htail more Hne). subst first.
      cbv zeta beta in Htail |- *. rewrite Htail, Hv. split.
      * intros [-> Hc]. done.
      * intros [Heq Hc]. split; [|done]. injection Heq as Heq. eapply (list_fmap_eq_inj); [|exact Heq].
        intros [r1 t1] [r2 t2]. unfold message_value. simpl. by intros [= -> ->].
  - split; [done|]. by intros [-> _].
Qed.

(** ** Members of a request *)

Lemma parse_uint32_exact value n : parse_uint32 value = Some n <-> as_uint64 value = Some n /\ n <= u32_max.
Proof.
  unfold parse_uint32. destruct (as_uint64 value) as [m|]; simpl; [|by split; [|intros []]].
  destruct (Z.ltb_spec u32_max m); (split; [try done|]).
  - intros [[= ->] ?]. lia.
  - by intros [= ->].
  - by intros [[= ->] _].
Qed.

Lemma parse_token_ids_exact values index found ids :
  parse_token_ids index values found = inr ids <->
  exists more, ids = found ++ more /\
    Forall2 (fun v i => as_uint64 v = Some i /\ i < kReferenceVocabularySize) values more.
Proof.
  revert index found. induction values as [|value values IH]; intros index found; cbn [parse_token_ids].
  { split; [intros [= <-]; exists []; by rewrite app_nil_r|].
    intros (more & -> & H). inversion H. by rewrite app_nil_r. }
  split.
  - intros H. destruct (parse_uint32 value) as [i|] eqn:Hi; [|done]. apply parse_uint32_exact in Hi as [Hi _].
    destruct (Z.leb_spec kReferenceVocabularySize i); [done|]. apply IH in H as (more & -> & H).
    exists (i :: more). split; [by rewrite <- app_assoc|by constructor].
  - intros (more & -> & H). inversion H as [|? i ? more' [Hi Hlt] Hmore]; subst.
    rewrite (proj2 (parse_uint32_exact value i)) by (unfold kReferenceVocabularySize, u32_max in *; split; [done|lia]).
    rewrite (proj2 (Z.leb_gt _ _)) by done. apply IH. exists more'. split; [by rewrite <- app_assoc|done].
Qed.

Lemma parse_payload_exact e value payload :
  well_formed value -> parse_payload e value = inr payload <-> payload_of e value payload.
Proof.
  intros Hw. destruct e; cbn [parse_payload].
  - split.
    + intros H. sum_inv H. injection H as <-. apply parse_messages_exact in Ha as [-> Hc]; [|done]. by constructor.
    + intros H. inversion H as [messages Hc| |]; subst.
      by rewrite (proj2 (parse_messages_exact _ messages Hw)) by done.
  - unfold parse_prompt. split.
    + intros H. destruct (as_string value) as [text|] eqn:Ht.
      * destruct value; try done. injection Ht as ->. case_bool_decide; [done|]. injection H as <-. by constructor.
      * destruct (as_array value) as [[|v vs]|] eqn:Ha; [done| |done]. destruct value; try done. injection Ha as ->.
        sum_inv H. injection H as <-. apply parse_token_ids_exact in Ha as (more & -> & Hmore).
        constructor; [by inversion Hmore|done].
    + intros H. inversion H as [|text Ht|values ids Hne Hids]; subst; cbn [as_string as_array].
      * by rewrite bool_decide_false.
      * destruct Hids as [|v i values ids Hv Hids]; [done|].
        rewrite (proj2 (parse_token_ids_exact (v :: values) 0 [] (i :: ids))); [done|].
        exists (i :: ids). split; [done|by constructor].
Qed.

(** The limit on new tokens, under one name or the other. *)
Definition says_max_tokens (root : Value) (limit n : Z) : Prop :=
  exists value,
    (find root (lit "max_tokens") = Some value /\ find root (lit "max_completion_tokens") = None \/
     find root (lit "max_tokens") = None /\ find root (lit "max_completion_tokens") = Some value) /\
    as_uint64 value = Some n /\ 1 <= n <= limit.

Lemma parse_max_tokens_exact root limit n :
  limit <= u32_max -> parse_max_tokens root limit = inr n <-> says_max_tokens root limit n.
Proof.
  intros Hlimit. unfold parse_max_tokens, says_max_tokens. cbv zeta.
  assert (Hone : forall v m name,
    match parse_uint32 v with
    | Some n => if (n =? 0) || (limit <? n)
                then failure "invalid_max_tokens" "max_tokens must be within the configured positive limit" name
                else inr n
    | None => failure "invalid_max_tokens" "max_tokens must be within the configured positive limit" name
    end = inr m <-> as_uint64 v = Some m /\ 1 <= m <= limit).
  { intros v m name. destruct (parse_uint32 v) as [k|] eqn:Hk.
    - apply parse_uint32_exact in Hk as [Hk _]. assert (Hk0 : 0 <= k).
      { unfold as_uint64 in Hk. apply bind_Some in Hk as (t & _ & Hk). by apply to_uint64_range in Hk as [? _]. }
      rewrite Hk. destruct (_ || _) eqn:Hb.
      + split; [done|]. intros [[= ->] ?]. bools; lia.
      + bools. split; [intros [= ->]; split; [done|lia]|by intros [[= ->] _]].
    - split; [done|]. intros [Hm Hr]. assert (parse_uint32 v = Some m) by (apply parse_uint32_exact; split; [done|lia]). congruence. }
  split.
  - intros H. destruct (find root (lit "max_tokens")) as [v|] eqn:H1, (find root (lit "max_completion_tokens")) as [v'|] eqn:H2;
      try done; apply Hone in H as [Hm Hr].
    + exists v. auto.
    + exists v'. auto.
  - intros (v & [[-> ->]|[-> ->]] & Hn & Hr); by apply Hone.
Qed.

Lemma is_number_zero value :
  well_formed value -> is_number value 0 = true <-> exists t, value = Number t /\ (decimal_parts t).1 = 0.
Proof.
  intros Hw. unfold is_number. destruct value as [| |t| | |]; cbn [as_number]; try (by split; [|intros (? & ? & _)]).
  destruct (to_double t) as [d|] eqn:Hd.
  - rewrite (to_double_zero t d Hd). split; [by exists t|by intros (? & [= <-] & ?)].
  - split; [done|]. intros (? & [= <-] & Hz). unfold to_double in Hd. case_bool_decide as Ht.
    + subst t. destruct Hw as (sign & int & frac & exp & Ht & _ & Hint & _). symmetry in Ht.
      apply app_eq_nil in Ht as [_ Ht]. apply app_eq_nil in Ht as [-> _]. by destruct Hint as [|(? & ? & ? & _)].
    + destruct (decimal_parts t) as [m e]. simpl in Hz. by rewrite Hz in Hd.
Qed.

Definition absent_or (root : Value) (name : String.string) (P : Value -> Prop) : Prop :=
  match find root (lit name) with Some value => P value | None => True end.

(** [temperature] is zero, [top_p] and [n] are one when they are there. *)
Definition greedy (root : Value) : Prop :=
  (exists t, find root (lit "temperature") = Some (Number t) /\ (decimal_parts t).1 = 0) /\
  absent_or root "top_p" (fun v => is_number v 1 = true) /\
  absent_or root "n" (fun v => as_uint64 v = Some 1).

Lemma find_well_formed root key v : well_formed root -> find root key = Some v -> well_formed v.
Proof.
  destruct root as [| | | | |members]; try done. simpl. intros [Hwf _] Hf. apply map_find_elem in Hf.
  apply (foldr_and_Forall (fun kv => utf8 (fst kv) /\ well_formed (snd kv))) in Hwf.
  rewrite Forall_forall in Hwf. by apply Hwf in Hf as [_ ?].
Qed.

Lemma check_sampling_exact root : well_formed root -> check_sampling root = inr tt <-> greedy root.
Proof.
  intros Hw. unfold check_sampling, greedy, absent_or.
  destruct (find root (lit "temperature")) as [t|] eqn:Ht; [|by split; [|intros ((? & ? & _) & _)]].
  pose proof (is_number_zero t (find_well_formed _ _ _ Hw Ht)) as Hz.
  assert (Hzero : is_number t 0 = true <-> exists u, Some t = Some (Number u) /\ (decimal_parts u).1 = 0).
  { rewrite Hz. split; intros (u & Hu & Hd); exists u; (split; [congruence|done]). }
  rewrite <- Hzero. destruct (is_number t 0); cbn [negb]; [|by split; [|intros (? & _)]].
  assert (Hn : when (find root (lit "n")) (fun n =>
      match parse_uint32 n with
      | Some value => if negb (value =? 1) then failure "unsupported_batch" "only n=1 is supported" "n" else inr tt
      | None => failure "unsupported_batch" "only n=1 is supported" "n"
      end) = inr tt <->
    match find root (lit "n") with Some v => as_uint64 v = Some 1 | None => True end).
  { unfold when. destruct (find root (lit "n")) as [k|]; [|done]. destruct (parse_uint32 k) as [value|] eqn:Hk.
    - apply parse_uint32_exact in Hk as [-> _]. destruct (Z.eqb_spec value 1) as [->|]; [done|]. by split; [|intros [= ->]].
    - split; [done|]. intros Hone. assert (parse_uint32 k = Some 1); [|congruence].
      apply parse_uint32_exact. split; [done|]. unfold u32_max. lia. }
  destruct (find root (lit "top_p")) as [p|]; cbn [when].
  - destruct (is_number p 1); cbn [negb mbind sum_bind]; [rewrite Hn; tauto|]. by split; [|intros (_ & ? & _)].
  - cbn [mbind sum_bind]. rewrite Hn. tauto.
Qed.

Definition says_seed (root : Value) (s : option Z) : Prop :=
  match find root (lit "seed") with
  | None => s = None
  | Some v => exists t n, v = Number t /\ to_int64 t = Some n /\ s = Some n
  end.

Definition says_stream (root : Value) (b : bool) : Prop :=
  match find root (lit "stream") with None => b = false | Some v => v = Bool b end.

Definition says_include_usage (root : Value) (stream b : bool) : Prop :=
  match find root (lit "stream_options") with
  | None => b = false
  | Some v => stream = true /\ (v = Object [] /\ b = false \/ v = Object [(lit "include_usage", Bool b)])
  end.

Lemma parse_seed_exact root s : parse_seed root = inr s <-> says_seed root s.
Proof.
  unfold parse_seed, says_seed. destruct (find root (lit "seed")) as [v|]; [|split; congruence].
  split.
  - intros H. destruct (text ← as_number v; to_int64 text) as [n|] eqn:Hn; [|done]. injection H as <-.
    apply bind_Some in Hn as (t & Ht & Hn). destruct v; try done. injection Ht as ->. by exists t, n.
  - intros (t & n & -> & Hn & ->). cbn [as_number mbind option_bind]. by rewrite Hn.
Qed.

Lemma parse_stream_exact root b : parse_stream root = inr b <-> says_stream root b.
Proof.
  unfold parse_stream, says_stream. destruct (find root (lit "stream")) as [v|]; [|split; congruence].
  destruct v; cbn [as_bool]; split; try done; by intros [= ->].
Qed.

Lemma parse_stream_options_exact root stream b :
  well_formed root -> parse_stream_options root stream = inr b <-> says_include_usage root stream b.
Proof.
  intros Hw. unfold parse_stream_options, says_include_usage.
  destruct (find root (lit "stream_options")) as [v|] eqn:Hv; [|split; congruence].
  apply find_well_formed in Hv; [|done]. destruct stream; cbn [negb]; [|by split; [|intros []]].
  split.
  - intros H. split; [done|]. destruct v as [| | | | |kvs]; try done. cbn [as_object] in H.
    destruct (has_only_members kvs _) eqn:Hall; [done|]. apply has_only_members_none in Hall.
    destruct Hv as [_ Hs]. destruct kvs as [|[k1 v1] kvs].
    { left. cbn in H. by injection H as <-. }
    right. cbn [fmap list_fmap fst] in Hall. apply Forall_cons in Hall as [->%list_elem_of_singleton Hall].
    destruct kvs as [|[k2 v2] kvs].
    + cbn [find map_find] in H. rewrite bool_decide_true in H by done. destruct v1; try done. by injection H as <-.
    + cbn [fmap list_fmap fst] in Hall. apply Forall_cons in Hall as [->%list_elem_of_singleton _].
      apply keys_sorted_cons in Hs as [_ Hlt]. specialize (Hlt (lit "include_usage", v2) ltac:(left)).
      simpl fst in Hlt. by rewrite key_lt_irrefl in Hlt.
  - intros [_ [[-> ->]| ->]]; [done|]. cbn [as_object]. change (has_only_members _ _) with (@None (list Z)). cbv iota.
    change (find _ (lit "include_usage")) with (Some (Bool b)). done.
Qed.

(** What the body asks for. *)
Record request_of (e : OpenAIEndpoint) (served_model : list Z) (maximum_output_tokens maximum_sequence_length : Z)
    (root : Value) (r : OpenAIRequest) : Prop := {
  of_endpoint : endpoint r = e;
  of_members : exists kvs, root = Object kvs /\ Forall (fun key => key ∈ lit (payload_name e) :: common_members) kvs.*1;
  of_model : find root (lit "model") = Some (Json.String (model r)) /\ model r = served_model;
  of_payload : exists value, find root (lit (payload_name e)) = Some value /\
    payload_of e value {| payload_kind := prompt_kind r; payload_messages := messages r; payload_prompt := prompt r;
                          payload_token_ids := prompt_token_ids r |};
  of_max_tokens : says_max_tokens root maximum_output_tokens (max_tokens r);
  of_capacity : prompt_kind r = kTokenIds ->
    Z.of_nat (length (prompt_token_ids r)) + max_tokens r - 1 <= maximum_sequence_length;
  of_greedy : greedy root;
  of_seed : says_seed root (seed r);
  of_stop : absent_or root "stop" (fun v => v = Null);
  of_stream : says_stream root (stream r);
  of_include_usage : says_include_usage root (stream r) (include_usage r)
}.

Lemma values_in_member root key v : find root key = Some v -> values_in v <= values_in root.
Proof.
  destruct root as [| | | | |kvs]; try done. cbn [find values_in]. intros Hf%map_find_elem.
  pose proof (counts_nonneg v). induction kvs as [|[k u] kvs IH]; [by apply not_elem_of_nil in Hf|].
  simpl. pose proof (counts_nonneg u). assert (0 <= foldr (fun kv n => values_in (snd kv) + n) 0 kvs).
  { clear. induction kvs as [|[k u] kvs IH]; simpl; [lia|]. pose proof (counts_nonneg u). lia. }
  apply elem_of_cons in Hf as [[= -> ->]|Hf]; [lia|]. specialize (IH Hf). lia.
Qed.

Lemma length_values_in vs : Z.of_nat (length vs) <= values_in (Array vs).
Proof.
  cbn [values_in]. induction vs as [|v vs IH]; simpl in *; [lia|]. pose proof (counts_nonneg v). lia.
Qed.

Lemma payload_ids_bound e value payload :
  payload_of e value payload -> Z.of_nat (length (payload_token_ids payload)) <= values_in value.
Proof.
  destruct 1 as [ms _|t _|vs ids _ Hall]; cbn [payload_token_ids].
  - pose proof (counts_nonneg (Array (message_value <$> ms))). cbn [length]. lia.
  - pose proof (counts_nonneg (Json.String t)). cbn [length]. lia.
  - rewrite <- (Forall2_length _ _ _ Hall). apply length_values_in.
Qed.

Lemma parse_root_exact e served_model maximum_output_tokens maximum_sequence_length root r :
  well_formed root -> values_in root <= 2 ^ 32 -> maximum_output_tokens <= u32_max -> served_model <> [] ->
  parse_root e served_model maximum_output_tokens maximum_sequence_length root = inr r <->
  request_of e served_model maximum_output_tokens maximum_sequence_length root r.
Proof.
  intros Hw Hvalues Hmax Hserved.
  assert (Hsteps : forall payload n, values_in root <= 2 ^ 32 ->
    Z.of_nat (length (payload_token_ids payload)) <= values_in root -> 1 <= n <= maximum_output_tokens ->
    u64 (u64 (Z.of_nat (length (payload_token_ids payload)) + n) - 1) = Z.of_nat (length (payload_token_ids payload)) + n - 1).
  { intros payload n _ Hlen Hn. unfold u32_max in Hmax. rewrite (u64_small (_ + n)) by (unfold is_u64; lia).
    rewrite u64_small; unfold is_u64; lia. }
  split.
  - intros H. unfold parse_root in H. destruct (as_object root) as [kvs|] eqn:Ho; [|done].
    destruct (has_only_members kvs _) eqn:Hall; [done|]. apply has_only_members_none in Hall.
    destruct (model ← find root (lit "model"); as_string model) as [name|] eqn:Hm; [|done].
    apply bind_Some in Hm as (v & Hm & Hv). destruct v; try done. injection Hv as ->.
    case_bool_decide; [done|]. case_bool_decide as Hsame; [|done]. cbn [negb] in H.
    destruct (find root (lit (payload_name e))) as [value|] eqn:Hp; [|done].
    destruct (parse_payload e value) as [?|payload] eqn:Hpay; [done|]. cbn [mbind sum_bind] in H.
    apply parse_payload_exact in Hpay; [|by eapply find_well_formed].
    pose proof (payload_ids_bound _ _ _ Hpay) as Hlen. pose proof (values_in_member _ _ _ Hp) as Hsub.
    destruct (parse_max_tokens root maximum_output_tokens) as [?|n] eqn:Hn; [done|]. cbn [mbind sum_bind] in H.
    apply parse_max_tokens_exact in Hn; [|done].
    assert (Hrange : 1 <= n <= maximum_output_tokens) by (by destruct Hn as (? & _ & _ & ?)).
    rewrite (Hsteps payload n) in H by lia.
    destruct (match payload_kind payload with kTokenIds => _ | _ => false end) eqn:Hcap; [done|].
    destruct (check_sampling root) as [?|[]] eqn:Hg; [done|]. cbn [mbind sum_bind] in H. apply check_sampling_exact in Hg; [|done].
    destruct (parse_seed root) as [?|s] eqn:Hs; [done|]. cbn [mbind sum_bind] in H. apply parse_seed_exact in Hs.
    destruct (when _ _) as [?|[]] eqn:Hstop; [done|]. cbn [mbind sum_bind] in H.
    destruct (parse_stream root) as [?|b] eqn:Hb; [done|]. cbn [mbind sum_bind] in H. apply parse_stream_exact in Hb.
    destruct (parse_stream_options root b) as [?|u] eqn:Hu; [done|]. cbn [mbind sum_bind] in H.
    apply parse_stream_options_exact in Hu; [|done]. injection H as <-.
    constructor; cbn [endpoint prompt_kind model messages prompt prompt_token_ids max_tokens seed stream include_usage]; try done.
    + exists kvs. split; [|done]. destruct root; try done. by injection Ho as ->.
    + exists value. split; [done|]. by destruct payload.
    + intros Hk. rewrite Hk in Hcap. by apply Z.ltb_ge in Hcap.
    + unfold absent_or. destruct (find root (lit "stop")) as [[]|]; done.
  - intros [He (kvs & Hroot & Hall) [Hm Hsame] (value & Hp & Hpay) Hn Hcap Hg Hs Hstop Hb Hu].
    pose proof (payload_ids_bound _ _ _ Hpay) as Hlen. pose proof (values_in_member _ _ _ Hp) as Hsub.
    assert (Hrange : 1 <= max_tokens r <= maximum_output_tokens) by (by destruct Hn as (? & _ & _ & ?)).
    apply has_only_members_none in Hall. apply (parse_max_tokens_exact _ _ _ Hmax) in Hn.
    apply (check_sampling_exact _ Hw) in Hg. apply parse_seed_exact in Hs. apply parse_stream_exact in Hb.
    apply (parse_stream_options_exact _ _ _ Hw) in Hu.
    apply (parse_payload_exact _ _ _ (find_well_formed _ _ _ Hw Hp)) in Hpay.
    unfold parse_root. rewrite Hm, Hp, Hpay. replace (as_object root) with (Some kvs) by (by rewrite Hroot). rewrite Hall.
    cbn [mbind option_bind sum_bind as_string payload_kind]. rewrite bool_decide_false by (by rewrite Hsame).
    rewrite (bool_decide_true (_ = _)) by done. cbn [negb]. rewrite Hn. cbn [mbind sum_bind].
    rewrite (Hsteps _ (max_tokens r)) by (lia || done). cbn [payload_token_ids].
    replace (match prompt_kind r with kTokenIds => _ | _ => false end) with false.
    2:{ destruct (prompt_kind r); try done. symmetry. apply Z.ltb_ge. by apply Hcap. }
    rewrite Hg, Hs. cbn [mbind sum_bind].
    replace (when (find root (lit "stop")) _) with (@inr OpenAIProtocolError unit tt).
    2:{ unfold absent_or in Hstop. destruct (find root (lit "stop")) as [v|]; [by rewrite Hstop|done]. }
    rewrite Hb. cbn [mbind sum_bind]. rewrite Hu. cbn [mbind sum_bind payload_messages payload_prompt]. subst e. by destruct r.
Qed.

(** ** Requests *)

(** An error the client is to blame for. *)
Definition client_error {A} (r : OpenAIProtocolError + A) : Prop :=
  match r with inl e => http_status e = 400 \/ http_status e = 404 | inr _ => True end.

Lemma client_error_bind {A B} (r : OpenAIProtocolError + A) (k : A -> OpenAIProtocolError + B) :
  client_error r -> (forall a, client_error (k a)) -> client_error (r ≫= k).
Proof. destruct r; simpl; auto. Qed.

Lemma client_error_failure {A} code message param : client_error (@failure A code message param).
Proof. by left. Qed.

Ltac client := repeat first
  [ exact I | apply client_error_failure | left; reflexivity | right; reflexivity
  | apply client_error_bind; [|intros ?] | case_match ].

Lemma parse_payload_client e value : client_error (parse_payload e value).
Proof.
  assert (Hlist : forall values index found, client_error (parse_message_list index values found)).
  { induction values as [|v values IH]; intros index found; cbn [parse_message_list]; [exact I|].
    repeat (case_match; try (by left)). apply IH. }
  assert (Hroles : forall n index first messages, client_error (check_roles n index first messages)).
  { induction n as [|n IH]; intros; cbn [check_roles]; [exact I|]. case_match; [by left|apply IH]. }
  assert (Hids : forall values index found, client_error (parse_token_ids index values found)).
  { induction values as [|v values IH]; intros index found; cbn [parse_token_ids]; [exact I|].
    repeat (case_match; try (by left)). apply IH. }
  unfold parse_payload. client; [unfold parse_messages|unfold parse_prompt]; client; auto.
Qed.

Lemma parse_max_tokens_client root n : client_error (parse_max_tokens root n).
Proof. unfold parse_max_tokens. cbv zeta. client. Qed.

Lemma check_sampling_client root : client_error (check_sampling root).
Proof. unfold check_sampling, when. client. Qed.

Lemma parse_seed_client root : client_error (parse_seed root).
Proof. unfold parse_seed. client. Qed.

Lemma parse_stream_client root : client_error (parse_stream root).
Proof. unfold parse_stream. client. Qed.

Lemma parse_stream_options_client root stream : client_error (parse_stream_options root stream).
Proof. unfold parse_stream_options. client. Qed.

Lemma parse_root_client e served_model max_out max_seq root :
  client_error (parse_root e served_model max_out max_seq root).
Proof.
  unfold parse_root, when.
  client; auto using parse_payload_client, parse_max_tokens_client, check_sampling_client, parse_seed_client,
    parse_stream_client, parse_stream_options_client.
Qed.

Lemma parse_openai_request_spec body e served_model maximum_output_tokens maximum_sequence_length :
  Forall is_u8 body -> 0 <= maximum_output_tokens <= u32_max -> 0 <= maximum_sequence_length ->
  let configured := served_model <> [] /\ 0 < maximum_output_tokens /\
    0 < maximum_sequence_length <= kAbsoluteRequestMaxSequenceLength in
  let result := parse_openai_request body e served_model maximum_output_tokens maximum_sequence_length in
  (forall r, result = inr r <->
     configured /\ exists root s, parse body (request_parse_options maximum_sequence_length) = Good root s /\
       request_of e served_model maximum_output_tokens maximum_sequence_length root r) /\
  (forall err, result = inl err -> (http_status err = 500 <-> ~ configured)).
Proof.
  intros Hb Hout Hseq configured result. unfold result, parse_openai_request.
  destruct (_ || _) eqn:Hc.
  { assert (Hn : ~ configured) by (intros (Hs & Ho & Hm); repeat first [progress bools | destruct Hc as [Hc|Hc]];
        try apply bool_decide_eq_true in Hc; (congruence || lia)).
    split; [|by intros err [= <-]]. intros r. split; [done|by intros [? _]]. }
  bools. assert (Hok : configured) by
    (repeat match goal with H : bool_decide _ = false |- _ => apply bool_decide_eq_false in H end; unfold configured; split_and!; (done || lia)).
  assert (Hopt : options_ok (request_parse_options maximum_sequence_length))
    by (constructor; simpl; unfold kProtocolValueAllowance; lia).
  destruct (parse body _) as [root s|code offset|] eqn:Hp.
  - pose proof (parse_well_formed _ _ _ _ Hb Hopt Hp) as Hw. pose proof (parse_values_in _ _ _ _ Hb Hopt Hp) as Hv.
    simpl in Hv. unfold kProtocolValueAllowance, kAbsoluteRequestMaxSequenceLength in *. split.
    + intros r. rewrite parse_root_exact by (done || lia || apply Hok). split; [intros Hr; by split; [|exists root, s]|].
      intros (_ & root' & s' & [= <- <-] & Hr). exact Hr.
    + intros err Herr. pose proof (parse_root_client e served_model maximum_output_tokens maximum_sequence_length root) as Hcl.
      rewrite Herr in Hcl. split; [|done]. destruct Hcl as [-> | ->]; done.
  - split; [|by intros err [= <-]; split]. intros r. split; [done|]. by intros (_ & root & s & [=] & _).
  - split; [|by intros err [= <-]; split]. intros r. split; [done|]. by intros (_ & root & s & [=] & _).
Qed.

(** C16. What the server takes for a request.  A body is accepted exactly when
    the server is configured, the body is a JSON text within the limits, and
    its value is an object of known members that names the served model, holds
    a well-formed prompt — a chat in turns that ends with the user, a text, or
    ids of the vocabulary that fit the sequence — and one limit on new tokens,
    and asks for greedy decoding of one sequence and nothing that is not
    implemented; the request is then what the members say.  The error of a
    refused body is the server's (500) exactly when it is not configured. *)
Theorem parse_openai_request_exact body e served_model maximum_output_tokens maximum_sequence_length :
  Forall is_u8 body -> 0 <= maximum_output_tokens <= u32_max -> 0 <= maximum_sequence_length ->
  let configured := served_model <> [] /\ 0 < maximum_output_tokens /\
    0 < maximum_sequence_length <= kAbsoluteRequestMaxSequenceLength in
  let result := parse_openai_request body e served_model maximum_output_tokens maximum_sequence_length in
  (forall r, result = inr r <->
     configured /\ exists root s, parse body (request_parse_options maximum_sequence_length) = Good root s /\
       request_of e served_model maximum_output_tokens maximum_sequence_length root r) /\
  (forall err, result = inl err -> (http_status err = 500 <-> ~ configured)).
Proof. apply parse_openai_request_spec. Qed.

Definition sample_body : list Z := js
  "{'model':'qwen','messages':[{'role':'user','content':'hi'}],'max_tokens':8,'temperature':0.0,'stream':true}".
Definition sample_request : OpenAIRequest := {|
  endpoint := kChatCompletions; prompt_kind := kChatMessages; model := lit "qwen";
  messages := [{| message_role := lit "user"; message_text := lit "hi" |}]; prompt := []; prompt_token_ids := [];
  max_tokens := 8; seed := None; stream := true; include_usage := false
|}.

Lemma parse_openai_request_exact_witness :
  exists root s, parse sample_body (request_parse_options 4096) = Good root s /\
    request_of kChatCompletions (lit "qwen") 1024 4096 root sample_request.
Proof.
  apply (parse_openai_request_exact sample_body kChatCompletions (lit "qwen") 1024 4096).
  - repeat (apply Forall_cons_2; [split; [vm_compute; discriminate|vm_compute; reflexivity]|]). apply Forall_nil_2.
  - split; vm_compute; discriminate.
  - discriminate.
  - vm_compute. reflexivity.
Defined.
