(* ===== verification/Utf8Output.v ===== *)
(** * Utf8Output: the text the server makes of model output
      (src/server/utf8_output.h)

    Tokens are byte strings that may split or break a code point.
    [render_utf8_output] takes the bytes that are pending and gives back text:
    well-formed sequences are copied, ill-formed ones become U+FFFD, and unless
    the output is final the bytes that may still become a character stay
    pending. *)

From S2P Require Import Prelude OrderedMap Json.

(** ** The function *)

Definition replacement : list Z := [0xEF; 0xBF; 0xBD].

Definition sequence_length (first : Z) : nat :=
  if first <? 0x80 then 1
  else if (0xC2 <=? first) && (first <=? 0xDF) then 2
  else if (0xE0 <=? first) && (first <=? 0xEF) then 3
  else if (0xF0 <=? first) && (first <=? 0xF4) then 4
  else 0.

(** The byte at offset [j] of a sequence ends it. *)
Definition breaks (first : Z) (j : nat) (byte : Z) : bool :=
  (byte <? 0x80) || (0xBF <? byte)
  || ((j =? 1)%nat && (((first =? 0xE0) && (byte <? 0xA0)) || ((first =? 0xED) && (0xA0 <=? byte))
                       || ((first =? 0xF0) && (byte <? 0x90)) || ((first =? 0xF4) && (0x90 <=? byte)))).

(** The loop over [j], with [n] offsets left; [pending] starts at the sequence. *)
Fixpoint accepted (n j : nat) (pending : list Z) : nat :=
  match n with
  | O => j
  | S n =>
      if (j <? length pending)%nat
      then if breaks (at_ pending 0) j (at_ pending (Z.of_nat j)) then j else accepted n (S j) pending
      else j
  end.

(** The loop over the sequences; [pending] is what is not consumed. *)
Fixpoint render_from (fuel : nat) (pending : list Z) (final : bool) (output : list Z) : list Z * list Z :=
  match fuel, pending with
  | O, _ | _, [] => (output, pending)
  | S fuel, first :: _ =>
      let count := sequence_length first in
      if (count =? 0)%nat then render_from fuel (drop 1 pending) final (output ++ replacement) else
      let j := accepted (count - 1) 1 pending in
      if (j =? count)%nat then render_from fuel (drop count pending) final (output ++ take count pending)
      else if (j =? length pending)%nat && negb final then (output, pending)
      else render_from fuel (drop j pending) final (output ++ replacement)
  end.

Definition render_utf8_output (pending : list Z) (final : bool) : list Z * list Z :=
  render_from (length pending) pending final [].

(** ** One step of the loop *)

(** What the loop does at the head of [pending]: the text it appends and the
    bytes it consumes, or nothing when it leaves. *)
Definition step (pending : list Z) (final : bool) : option (list Z * nat) :=
  let count := sequence_length (at_ pending 0) in
  let j := accepted (count - 1) 1 pending in
  if (count =? 0)%nat then Some (replacement, 1%nat)
  else if (j =? count)%nat then Some (take count pending, count)
  else if (j =? length pending)%nat && negb final then None
  else Some (replacement, j).

Lemma accepted_bounds n j pending :
  (j <= length pending)%nat -> (j <= accepted n j pending <= j + n)%nat /\ (accepted n j pending <= length pending)%nat.
Proof.
  revert j. induction n as [|n IH]; intros j Hj; cbn [accepted]; [lia|].
  destruct (Nat.ltb_spec j (length pending)); [|lia]. case_match; [lia|].
  specialize (IH (S j) ltac:(lia)). lia.
Qed.

Lemma step_consumes pending final text k :
  pending <> [] -> step pending final = Some (text, k) -> (1 <= k <= length pending)%nat.
Proof.
  intros Hne. destruct pending as [|first rest]; [done|]. unfold step. cbv zeta.
  set (count := sequence_length (at_ (first :: rest) 0)).
  pose proof (accepted_bounds (count - 1) 1 (first :: rest) ltac:(simpl; lia)) as [? ?].
  destruct (Nat.eqb_spec count 0); [intros [= _ <-]; simpl; lia|].
  destruct (Nat.eqb_spec (accepted (count - 1) 1 (first :: rest)) count).
  - intros [= _ <-]. lia.
  - destruct (_ && _); [done|]. intros [= _ <-]. lia.
Qed.

Lemma render_from_step fuel pending final output :
  (length pending <= fuel)%nat -> pending <> [] ->
  render_from fuel pending final output =
    match step pending final with
    | Some (text, k) => render_from (fuel - 1) (drop k pending) final (output ++ text)
    | None => (output, pending)
    end.
Proof.
  intros Hf Hne. destruct pending as [|first rest]; [done|]. destruct fuel as [|fuel]; [simpl in Hf; lia|].
  unfold step. cbn [render_from]. replace (S fuel - 1)%nat with fuel by lia.
  change (at_ (first :: rest) 0) with first. by repeat case_match.
Qed.

Lemma render_from_fuel fuel fuel' pending final output :
  (length pending <= fuel)%nat -> (length pending <= fuel')%nat ->
  render_from fuel pending final output = render_from fuel' pending final output.
Proof.
  revert fuel' pending output. induction fuel as [|fuel IH]; intros fuel' pending output Hf Hf'.
  { destruct pending; [by destruct fuel'|simpl in Hf; lia]. }
  destruct (decide (pending = [])) as [->|Hne]; [by destruct fuel'|].
  rewrite !render_from_step by done. destruct (step pending final) as [[text k]|] eqn:Hs; [|done].
  apply step_consumes in Hs; [|done]. replace (S fuel - 1)%nat with fuel by lia.
  apply IH; rewrite length_drop; lia.
Qed.

Lemma render_from_output fuel pending final output :
  render_from fuel pending final output =
    (output ++ fst (render_from fuel pending final []), snd (render_from fuel pending final [])).
Proof.
  revert pending output. induction fuel as [|fuel IH]; intros pending output.
  { simpl. by rewrite app_nil_r. }
  destruct pending as [|first rest]; [simpl; by rewrite app_nil_r|]. cbn [render_from]. cbv zeta.
  assert (Hmore : forall p t, render_from fuel p final (output ++ t) =
    (output ++ fst (render_from fuel p final t), snd (render_from fuel p final t))).
  { intros p t. rewrite (IH p (output ++ t)), (IH p t). cbn [fst snd]. by rewrite app_assoc. }
  repeat case_match; rewrite ?app_nil_l; try apply Hmore. cbn [fst snd]. by rewrite app_nil_r.
Qed.

(** The function, one sequence at a time. *)
Lemma render_step pending final :
  pending <> [] ->
  render_utf8_output pending final =
    match step pending final with
    | Some (text, k) =>
        (text ++ fst (render_utf8_output (drop k pending) final), snd (render_utf8_output (drop k pending) final))
    | None => ([], pending)
    end.
Proof.
  intros Hne. unfold render_utf8_output. rewrite render_from_step by done.
  destruct (step pending final) as [[text k]|] eqn:Hs; [|done]. apply step_consumes in Hs; [|done].
  rewrite render_from_output, app_nil_l.
  by rewrite (render_from_fuel (length pending - 1) (length (drop k pending))) by (rewrite length_drop; lia).
Qed.

Lemma render_nil final : render_utf8_output [] final = ([], []).
Proof. done. Qed.

(** Induction over the sequences of a text. *)
Lemma pending_ind (P : list Z -> Prop) :
  P [] ->
  (forall pending, pending <> [] ->
     (forall k, (1 <= k)%nat -> P (drop k pending)) -> P pending) ->
  forall pending, P pending.
Proof.
  intros H0 Hstep pending. remember (length pending) as n eqn:Hn.
  revert pending Hn. induction n as [n IH] using lt_wf_ind. intros pending Hn.
  destruct (decide (pending = [])) as [->|Hne]; [done|]. apply Hstep; [done|].
  intros k Hk. eapply IH; [|done]. rewrite length_drop. destruct pending; [done|simpl in *; lia].
Qed.

(** ** Chunks *)

Lemma accepted_app n j p q :
  (j <= length p)%nat -> (accepted n j p < length p)%nat \/ accepted n j p = (j + n)%nat ->
  accepted n j (p ++ q) = accepted n j p.
Proof.
  revert j. induction n as [|n IH]; intros j Hj Hend; [done|]. cbn [accepted] in *. rewrite length_app.
  destruct (Nat.ltb_spec j (length p)) as [Hlt|Hge].
  - destruct (Nat.ltb_spec j (length p + length q)); [|lia].
    replace (at_ (p ++ q) 0) with (at_ p 0) by (unfold at_; rewrite app_nth1; [done|simpl; lia]).
    replace (at_ (p ++ q) (Z.of_nat j)) with (at_ p (Z.of_nat j)) by (unfold at_; rewrite app_nth1; [done|lia]).
    destruct (breaks _ _ _); [done|]. apply IH; [lia|]. destruct Hend as [?|?]; [by left|right; lia].
  - lia.
Qed.

(** What is decided stays decided when more bytes arrive. *)
Lemma step_app p q final text k :
  p <> [] -> step p false = Some (text, k) -> step (p ++ q) final = Some (text, k).
Proof.
  intros Hne. destruct p as [|first rest]; [done|]. unfold step. cbv zeta.
  replace (at_ ((first :: rest) ++ q) 0) with (at_ (first :: rest) 0) by done.
  set (count := sequence_length (at_ (first :: rest) 0)).
  destruct (Nat.eqb_spec count 0); [done|].
  pose proof (accepted_bounds (count - 1) 1 (first :: rest) ltac:(simpl; lia)) as [? ?].
  destruct (Nat.eqb_spec (accepted (count - 1) 1 (first :: rest)) count) as [Hc|Hc].
  - rewrite accepted_app by (simpl; lia). rewrite Hc, Nat.eqb_refl. rewrite take_app_le by lia. done.
  - rewrite andb_true_r. destruct (Nat.eqb_spec (accepted (count - 1) 1 (first :: rest)) (length (first :: rest))); [done|].
    intros [= <- <-]. rewrite accepted_app by (simpl in *; lia). rewrite length_app.
    rewrite (proj2 (Nat.eqb_neq _ _)) by done. rewrite (proj2 (Nat.eqb_neq _ _)) by (simpl in *; lia). done.
Qed.

(** Bytes rendered in two parts. *)
Lemma render_app p q final :
  render_utf8_output (p ++ q) final =
    (fst (render_utf8_output p false) ++ fst (render_utf8_output (snd (render_utf8_output p false) ++ q) final),
     snd (render_utf8_output (snd (render_utf8_output p false) ++ q) final)).
Proof.
  induction p as [|p Hne IH] using pending_ind.
  { rewrite render_nil. cbn [fst snd app]. by destruct (render_utf8_output q final). }
  rewrite (render_step p false) by done. destruct (step p false) as [[text k]|] eqn:Hs.
  - cbn [fst snd]. pose proof (step_consumes _ _ _ _ Hne Hs). rewrite render_step by (by destruct p).
    rewrite (step_app _ _ _ _ _ Hne Hs). rewrite drop_app_le by lia. rewrite (IH k) by lia.
    cbn [fst snd]. by rewrite app_assoc.
  - cbn [fst snd app]. by destruct (render_utf8_output (p ++ q) final).
Qed.

(** The text of a stream: each chunk is appended to what is pending, the last
    one is final. *)
Fixpoint render_chunks (pending : list Z) (chunks : list (list Z)) : list (list Z) :=
  match chunks with
  | [] => []
  | [chunk] => [fst (render_utf8_output (pending ++ chunk) true)]
  | chunk :: chunks =>
      let '(text, pending) := render_utf8_output (pending ++ chunk) false in text :: render_chunks pending chunks
  end.

Lemma render_chunks_joined pending chunks :
  chunks <> [] -> mjoin (render_chunks pending chunks) = fst (render_utf8_output (pending ++ mjoin chunks) true).
Proof.
  revert pending. induction chunks as [|chunk chunks IH]; intros pending Hne; [done|].
  destruct chunks as [|chunk' chunks]; [simpl; by rewrite !app_nil_r|].
  destruct (render_utf8_output (pending ++ chunk) false) as [text p] eqn:Hr.
  change (render_chunks pending (chunk :: chunk' :: chunks)) with
    (let '(text, pending) := render_utf8_output (pending ++ chunk) false in text :: render_chunks pending (chunk' :: chunks)).
  change (mjoin (chunk :: chunk' :: chunks)) with (chunk ++ mjoin (chunk' :: chunks)).
  rewrite (app_assoc pending chunk), (render_app (pending ++ chunk)), Hr. cbn [fst snd]. change (mjoin (text :: ?l)) with (text ++ mjoin l).
  by rewrite <- IH.
Qed.

(** ** What stays pending *)

Lemma sequence_length_le first : (sequence_length first <= 4)%nat.
Proof. unfold sequence_length. repeat case_match; lia. Qed.

Lemma step_none pending final :
  pending <> [] -> step pending final = None -> final = false /\ (length pending < sequence_length (at_ pending 0))%nat.
Proof.
  intros Hne. destruct pending as [|first rest]; [done|]. unfold step. cbv zeta.
  set (count := sequence_length (at_ (first :: rest) 0)).
  pose proof (accepted_bounds (count - 1) 1 (first :: rest) ltac:(simpl; lia)) as [? ?].
  destruct (Nat.eqb_spec count 0); [done|]. destruct (Nat.eqb_spec (accepted (count - 1) 1 (first :: rest)) count); [done|].
  destruct (Nat.eqb_spec (accepted (count - 1) 1 (first :: rest)) (length (first :: rest))); [|done].
  destruct final; [done|]. intros _. split; [done|]. lia.
Qed.

Lemma render_pending pending final :
  (length (snd (render_utf8_output pending final)) <= if final then 0 else 3)%nat.
Proof.
  induction pending as [|pending Hne IH] using pending_ind; [rewrite render_nil; simpl; lia|].
  rewrite render_step by done. destruct (step pending final) as [[text k]|] eqn:Hs; cbn [snd].
  - apply step_consumes in Hs; [|done]. apply IH. lia.
  - apply step_none in Hs as [-> Hl]; [|done]. pose proof (sequence_length_le (at_ pending 0)). lia.
Qed.

Lemma render_final pending : snd (render_utf8_output pending true) = [].
Proof. pose proof (render_pending pending true) as H. apply nil_length_inv. simpl in H. lia. Qed.

(** ** Well-formed sequences *)

Definition encoding (c : list Z) : Prop := exists z, scalar_value z /\ c = append_utf8 z.

(** Every byte after the first is one the loop accepts. *)
Definition viable (p : list Z) : bool :=
  (length p <=? sequence_length (at_ p 0))%nat && negb (bool_decide (p = [])) &&
  forallb (fun j => negb (breaks (at_ p 0) j (at_ p (Z.of_nat j)))) (seq 1 (length p - 1)).

Definition complete (p : list Z) : bool := viable p && (length p =? sequence_length (at_ p 0))%nat.

Lemma breaks_later first j x : (j <> 1)%nat -> is_u8 x -> breaks first j x = negb (is_continuation x).
Proof.
  intros Hj Hx. unfold breaks. rewrite (proj2 (Nat.eqb_neq j 1)) by done. rewrite andb_false_l, orb_false_r.
  rewrite continuation_range by done. rewrite negb_andb, Z.ltb_antisym, (Z.ltb_antisym x 0xBF).
  destruct (Z.leb_spec 0x80 x), (Z.leb_spec x 0xBF), (Z.ltb_spec x 0xC0); simpl; (done || lia).
Qed.

Lemma breaks_second first x : is_u8 x -> breaks first 1 x = second_invalid first x.
Proof.
  intros Hx. unfold breaks, second_invalid. rewrite continuation_range by done.
  change (1 =? 1)%nat with true. rewrite andb_true_l.
  assert (Hrange : (x <? 0x80) || (0xBF <? x) = negb ((0x80 <=? x) && (x <? 0xC0))).
  { destruct (Z.ltb_spec x 0x80), (Z.ltb_spec 0xBF x), (Z.leb_spec 0x80 x), (Z.ltb_spec x 0xC0); simpl; (done || lia). }
  replace (0xA0 <=? x) with (0x9F <? x) by (destruct (Z.ltb_spec 0x9F x), (Z.leb_spec 0xA0 x); (done || lia)).
  replace (0x90 <=? x) with (0x8F <? x) by (destruct (Z.ltb_spec 0x8F x), (Z.leb_spec 0x90 x); (done || lia)).
  rewrite Hrange, !orb_assoc. done.
Qed.

Lemma sequence_length_ascii first : first < 0x80 -> sequence_length first = 1%nat.
Proof. intros H. unfold sequence_length. by rewrite (proj2 (Z.ltb_lt _ _)). Qed.

Lemma sequence_length_lead first : 0x80 <= first -> sequence_length first = utf8_length first.
Proof. intros H. unfold sequence_length, utf8_length. by rewrite (proj2 (Z.ltb_ge _ _)). Qed.

Lemma utf8_length_not_one lead : utf8_length lead <> 1%nat.
Proof. unfold utf8_length. repeat case_match; lia. Qed.

Lemma complete_ascii first rest : first < 0x80 -> complete (first :: rest) = bool_decide (rest = []).
Proof.
  intros H. unfold complete, viable. change (at_ (first :: rest) 0) with first. rewrite sequence_length_ascii by done.
  destruct rest; [done|]. rewrite (proj2 (Nat.eqb_neq _ _)) by (simpl; lia). by rewrite andb_false_r.
Qed.

Lemma complete_lead first rest :
  0x80 <= first -> Forall is_u8 (first :: rest) -> complete (first :: rest) = utf8_sequence (first :: rest).
Proof.
  intros H Hb. unfold complete, viable, utf8_sequence. change (at_ (first :: rest) 0) with first.
  rewrite sequence_length_lead by done. inversion_clear Hb as [|? ? _ Hrest].
  destruct rest as [|x rest].
  { pose proof (utf8_length_not_one first). simpl length. rewrite (proj2 (Nat.eqb_neq _ _)) by done.
    rewrite bool_decide_false by done. by rewrite !andb_false_r. }
  inversion_clear Hrest as [|? ? Hx Hrest']. change (at_ (first :: x :: rest) 1) with x.
  destruct (decide (length (first :: x :: rest) = utf8_length first)) as [Hl|Hl].
  2:{ rewrite (proj2 (Nat.eqb_neq _ _)) by done. rewrite (bool_decide_false (length _ = _)) by done. by rewrite !andb_false_r. }
  rewrite (bool_decide_true (length _ = _)) by done. rewrite (bool_decide_false (first :: x :: rest = [])) by done.
  rewrite (bool_decide_false (utf8_length first = 0%nat)) by (rewrite <- Hl; done).
  rewrite (proj2 (Nat.eqb_eq _ _)) by done. rewrite (proj2 (Nat.leb_le _ _)) by lia.
  cbn [negb andb]. rewrite andb_true_r. cbn [length Nat.sub seq forallb].
  change (at_ (first :: x :: rest) (Z.of_nat 1)) with x. rewrite breaks_second by done. f_equal.
  change (drop 2 (first :: x :: rest)) with (drop 0 rest). rewrite drop_0.
  clear Hl H Hx. change 2%nat with (length [first; x]) at 1.
  change (first :: x :: rest) with ([first; x] ++ rest).
  assert (Hpre : (2 <= length [first; x])%nat) by (simpl; lia).
  revert Hpre. generalize [first; x]. induction rest as [|y rest IH]; intros pre Hpre; [done|].
  cbn [length seq forallb]. inversion_clear Hrest' as [|? ? Hy Hrest].
  replace (at_ (pre ++ y :: rest) (Z.of_nat (length pre))) with y
    by (unfold at_; rewrite Nat2Z.id, app_nth2, Nat.sub_diag by lia; done).
  rewrite breaks_later by (lia || done). rewrite negb_involutive. f_equal.
  change (S (length pre)) with (1 + length pre)%nat.
  replace (1 + length pre)%nat with (length (pre ++ [y])) by (rewrite length_app; simpl; lia).
  replace (pre ++ y :: rest) with ((pre ++ [y]) ++ rest) by (by rewrite <- app_assoc).
  apply IH; [done|]. rewrite length_app. simpl. lia.
Qed.

Lemma encoding_bytes c : encoding c -> c <> [] /\ Forall is_u8 c.
Proof.
  intros (z & Hz & ->). split; [|by apply append_utf8_bytes].
  unfold append_utf8. by repeat case_match.
Qed.

(** A sequence the loop accepts whole is the encoding of a character. *)
Lemma complete_encoding p : Forall is_u8 p -> complete p = true <-> encoding p.
Proof.
  intros Hb. destruct p as [|first rest]; [split; [done|]; intros H; by apply encoding_bytes in H as [? _]|].
  inversion_clear Hb as [|? ? Hf Hr]. destruct (Z.lt_ge_cases first 0x80) as [Ha|Ha].
  - rewrite complete_ascii by done. rewrite bool_decide_eq_true. split.
    + intros ->. exists first. split; [unfold is_u8, scalar_value in *; lia|].
      rewrite append_utf8_arith by (unfold is_u8 in *; lia). by rewrite (proj2 (Z.leb_le _ _)) by lia.
    + intros (z & [Hz Hs] & He). rewrite append_utf8_arith in He by done.
      unfold is_u8 in Hf. repeat case_match; bools; injection He as He; try done; Z.div_mod_to_equations; lia.
  - rewrite complete_lead by (done || by constructor). split.
    + intros Hs. apply utf8_sequence_sound in Hs as (z & _ & Hz & ->); [by exists z|by constructor].
    + intros (z & Hz & He). rewrite He. apply utf8_sequence_complete; [|done].
      destruct (Z.lt_ge_cases 0x7F z); [done|]. exfalso. rewrite append_utf8_arith in He by (apply Hz).
      rewrite (proj2 (Z.leb_le _ _)) in He by lia. injection He as -> _. lia.
Qed.

Lemma viable_app p q : p <> [] -> viable (p ++ q) = true -> viable p = true.
Proof.
  intros Hne H. unfold viable in *. apply andb_true_iff in H as [H Hall]. apply andb_true_iff in H as [Hl _].
  replace (at_ (p ++ q) 0) with (at_ p 0) in * by (by destruct p). apply Nat.leb_le in Hl. rewrite length_app in Hl.
  rewrite (proj2 (Nat.leb_le _ _)) by lia. rewrite bool_decide_false by done. cbn [negb andb].
  rewrite forallb_forall in *. intros j Hj%in_seq. specialize (Hall j).
  replace (at_ (p ++ q) (Z.of_nat j)) with (at_ p (Z.of_nat j)) in Hall by (unfold at_; rewrite app_nth1; [done|lia]).
  apply Hall, in_seq. rewrite length_app. lia.
Qed.

Lemma viable_extend p x :
  p <> [] -> viable p = true ->
  viable (p ++ [x]) = (length p <? sequence_length (at_ p 0))%nat && negb (breaks (at_ p 0) (length p) x).
Proof.
  intros Hne H. unfold viable in *. apply andb_true_iff in H as [H Hall].
  replace (at_ (p ++ [x]) 0) with (at_ p 0) by (by destruct p). rewrite length_app. cbn [length].
  rewrite bool_decide_false by (by destruct p). rewrite andb_true_r.
  replace (length p + 1 <=? sequence_length (at_ p 0))%nat with (length p <? sequence_length (at_ p 0))%nat
    by (destruct (Nat.ltb_spec (length p) (sequence_length (at_ p 0))), (Nat.leb_spec (length p + 1) (sequence_length (at_ p 0))); (done || lia)).
  f_equal. assert (Hp : (1 <= length p)%nat) by (destruct p; [done|simpl; lia]).
  replace (length p + 1 - 1)%nat with (length p - 1 + 1)%nat by lia. rewrite seq_app, forallb_app.
  replace (1 + (length p - 1))%nat with (length p) by lia. cbn [seq forallb]. rewrite andb_true_r.
  replace (at_ (p ++ [x]) (Z.of_nat (length p))) with x
    by (unfold at_; rewrite Nat2Z.id, app_nth2, Nat.sub_diag by lia; done).
  assert (Hsame : forallb (fun j => negb (breaks (at_ p 0) j (at_ (p ++ [x]) (Z.of_nat j)))) (seq 1 (length p - 1)) = true).
  { rewrite forallb_forall in *. intros j Hj. pose proof (proj1 (in_seq _ _ _) Hj). specialize (Hall j Hj).
    unfold at_ in *. by rewrite app_nth1 by lia. }
  by rewrite Hsame.
Qed.

(** Some byte continues a sequence. *)
Definition next_byte (first : Z) : Z := if first =? 0xE0 then 0xA0 else if first =? 0xF0 then 0x90 else 0x80.

Lemma next_byte_continues first j : breaks first j (next_byte first) = false.
Proof.
  unfold next_byte. destruct (Z.eqb_spec first 0xE0) as [->|?]; [by destruct j as [|[|]]|].
  destruct (Z.eqb_spec first 0xF0) as [->|?]; [by destruct j as [|[|]]|].
  unfold breaks. rewrite (proj2 (Z.eqb_neq first 0xE0)), (proj2 (Z.eqb_neq first 0xF0)) by done.
  simpl. by rewrite !andb_false_r.
Qed.

Lemma viable_completes p :
  viable p = true -> exists q, Forall is_u8 q /\ complete (p ++ q) = true.
Proof.
  intros Hv. assert (Hne : p <> []) by (by destruct p).
  remember (sequence_length (at_ p 0) - length p)%nat as n eqn:Hn. revert p Hv Hne Hn.
  induction n as [|n IH]; intros p Hv Hne Hn.
  - exists []. split; [constructor|]. rewrite app_nil_r. unfold complete. rewrite Hv, andb_true_l. apply Nat.eqb_eq.
    unfold viable in Hv. bools. match goal with H : (_ <=? _)%nat = true |- _ => apply Nat.leb_le in H end. lia.
  - set (x := next_byte (at_ p 0)).
    assert (Hx : viable (p ++ [x]) = true).
    { rewrite viable_extend by done. unfold x. rewrite next_byte_continues. by rewrite (proj2 (Nat.ltb_lt _ _)) by lia. }
    destruct (IH (p ++ [x]) Hx) as (q & Hq & Hc); [by destruct p| |].
    + replace (at_ (p ++ [x]) 0) with (at_ p 0) by (by destruct p). rewrite length_app. simpl. lia.
    + exists (x :: q). split; [|by rewrite <- app_assoc in Hc].
      constructor; [|done]. unfold x, next_byte, is_u8. repeat case_match; lia.
Qed.

(** What the loop accepts is what may become a character. *)
Lemma viable_prefix p :
  Forall is_u8 p -> p <> [] -> viable p = true <-> exists c, encoding c /\ p `prefix_of` c.
Proof.
  intros Hb Hne. split.
  - intros (q & Hq & Hc)%viable_completes. exists (p ++ q). split; [|by exists q].
    apply complete_encoding; [by apply Forall_app|done].
  - intros (c & Hc & q & ->). apply (viable_app _ q); [done|].
    apply complete_encoding in Hc; [unfold complete in Hc; by bools|by apply encoding_bytes in Hc as [_ ?]].
Qed.

(** ** The text the Unicode Standard asks for

    Well-formed sequences are kept; a maximal subpart of an ill-formed
    sequence, or else a single byte, becomes U+FFFD. *)

(** [p] begins an encoded character. *)
Definition begins (p : list Z) : Prop := exists c, encoding c /\ p `prefix_of` c.

Definition maximal_subpart (p rest : list Z) : Prop :=
  p <> [] /\ ~ encoding p /\
  ((begins p /\ forall b, head rest = Some b -> ~ begins (p ++ [b])) \/ (length p = 1%nat /\ ~ begins p)).

Inductive repaired : list Z -> list Z -> Prop :=
  | repaired_nil : repaired [] []
  | repaired_char c rest text : encoding c -> repaired rest text -> repaired (c ++ rest) (c ++ text)
  | repaired_part p rest text :
      maximal_subpart p rest -> repaired rest text -> repaired (p ++ rest) (replacement ++ text).

Lemma take_last {A} (l : list A) n x : l !! n = Some x -> take (S n) l = take n l ++ [x].
Proof. apply take_S_r. Qed.

Lemma accepted_viable n j pending :
  viable (take j pending) = true -> (1 <= j <= length pending)%nat -> (j + n <= sequence_length (at_ pending 0))%nat ->
  let k := accepted n j pending in
  viable (take k pending) = true /\ ((k < j + n)%nat -> (k < length pending)%nat -> viable (take (S k) pending) = false).
Proof.
  revert j. induction n as [|n IH]; intros j Hv Hj Hn; cbn [accepted]; [split; [done|lia]|].
  destruct (Nat.ltb_spec j (length pending)) as [Hlt|Hge]; [|split; [done|lia]].
  assert (Hext : viable (take (S j) pending) = negb (breaks (at_ pending 0) j (at_ pending (Z.of_nat j)))).
  { rewrite (take_last _ _ _ (at_lookup _ _ Hlt)). rewrite viable_extend; [|destruct pending, j; (done || lia)|done].
    rewrite length_take_le by lia. replace (at_ (take j pending) 0) with (at_ pending 0) by (destruct pending, j; (done || lia)).
    by rewrite (proj2 (Nat.ltb_lt _ _)) by lia. }
  destruct (breaks _ _ _) eqn:Hb; [by split|].
  destruct (IH (S j) Hext ltac:(lia) ltac:(lia)) as [Hv' Hstop]. split; [done|]. intros. apply Hstop; lia.
Qed.

Lemma viable_one x : viable [x] = negb (sequence_length x =? 0)%nat.
Proof.
  unfold viable. change (at_ [x] 0) with x. simpl. rewrite !andb_true_r.
  by destruct (sequence_length x).
Qed.

(** The loop stops at the longest prefix that may become a character. *)
Lemma accepted_longest pending p rest :
  pending = p ++ rest -> viable p = true ->
  (forall b, head rest = Some b -> viable (p ++ [b]) = false) ->
  accepted (sequence_length (at_ pending 0) - 1) 1 pending = length p.
Proof.
  intros -> Hv Hmax. assert (Hne : p <> []) by (by destruct p).
  assert (Hat : at_ (p ++ rest) 0 = at_ p 0) by (by destruct p). rewrite Hat.
  assert (Hcount : (length p <= sequence_length (at_ p 0))%nat).
  { unfold viable in Hv. bools. by apply Nat.leb_le. }
  assert (H1 : (1 <= length p)%nat) by (destruct p; [done|simpl; lia]).
  set (n := (sequence_length (at_ p 0) - 1)%nat).
  destruct (accepted_bounds n 1 (p ++ rest)) as [Hk Hkl]; [rewrite length_app; lia|].
  destruct (accepted_viable n 1 (p ++ rest)) as [Hkv Hstop].
  { rewrite take_app_le by lia. apply (viable_app _ (drop 1 p)); [by destruct p|]. by rewrite take_drop. }
  { rewrite length_app. lia. }
  { rewrite Hat. lia. }
  set (k := accepted n 1 (p ++ rest)) in *. rewrite length_app in Hkl.
  destruct (lt_eq_lt_dec k (length p)) as [[Hlt|?]|Hgt]; [|done|].
  - assert (Hbad : viable (take (S k) (p ++ rest)) = false) by (apply Hstop; [lia|rewrite length_app; lia]).
    rewrite take_app_le in Hbad by lia. rewrite (viable_app _ (drop (S k) p)) in Hbad; [done|by destruct p|].
    by rewrite take_drop.
  - destruct rest as [|b rest]; [simpl in Hkl; lia|]. specialize (Hmax b eq_refl).
    rewrite take_app_ge in Hkv by lia. destruct (k - length p)%nat as [|m] eqn:Hm; [lia|].
    cbn [take] in Hkv. change (b :: take m rest) with ([b] ++ take m rest) in Hkv. rewrite app_assoc in Hkv.
    apply viable_app in Hkv; [|by destruct p]. by rewrite Hkv in Hmax.
Qed.

Lemma begins_viable p : Forall is_u8 p -> p <> [] -> begins p <-> viable p = true.
Proof. intros Hb Hne. by rewrite viable_prefix. Qed.

(** One step does what the standard asks for. *)
Lemma step_char c rest final : encoding c -> step (c ++ rest) final = Some (c, length c).
Proof.
  intros Hc. destruct (encoding_bytes _ Hc) as [Hne Hb]. apply complete_encoding in Hc; [|done].
  unfold complete in Hc. apply andb_true_iff in Hc as [Hv Hl]. apply Nat.eqb_eq in Hl.
  unfold step. rewrite (accepted_longest _ c rest eq_refl Hv).
  - replace (at_ (c ++ rest) 0) with (at_ c 0) by (by destruct c). rewrite <- Hl, Nat.eqb_refl.
    rewrite (proj2 (Nat.eqb_neq _ _)) by (destruct c; done). rewrite take_app_le by done. by rewrite firstn_all.
  - intros b _. rewrite viable_extend by done. by rewrite (proj2 (Nat.ltb_ge _ _)) by lia.
Qed.

Lemma step_part p rest final :
  Forall is_u8 (p ++ rest) -> maximal_subpart p rest -> (rest = [] -> final = false -> ~ begins p) ->
  step (p ++ rest) final = Some (replacement, length p).
Proof.
  intros Hb (Hne & Hinc & Hmax) Hfinal. apply Forall_app in Hb as [Hp Hr].
  assert (Hat : at_ (p ++ rest) 0 = at_ p 0) by (by destruct p).
  destruct Hmax as [[Hbeg Hmax]|[Hone Hno]].
  - pose proof (proj1 (begins_viable _ Hp Hne) Hbeg) as Hv.
    assert (Hpos : (1 <= sequence_length (at_ p 0))%nat /\ (length p <= sequence_length (at_ p 0))%nat).
    { unfold viable in Hv. bools. match goal with H : (_ <=? _)%nat = true |- _ => apply Nat.leb_le in H end.
      destruct p; [done|simpl in *; lia]. }
    unfold step. rewrite (accepted_longest _ p rest eq_refl Hv).
    + rewrite Hat. rewrite (proj2 (Nat.eqb_neq (sequence_length _) 0)) by lia.
      rewrite (proj2 (Nat.eqb_neq (length p) _)).
      2:{ intros Hl. apply Hinc, complete_encoding; [done|]. unfold complete. by rewrite Hv, Hl, Nat.eqb_refl. }
      rewrite length_app. destruct rest as [|b rest].
      * rewrite Nat.add_0_r, Nat.eqb_refl. destruct final; [done|]. by destruct Hfinal.
      * by rewrite (proj2 (Nat.eqb_neq (length p) _)) by (simpl; lia).
    + intros b Hbr. apply not_true_is_false. intros Hv'. apply (Hmax b Hbr). apply begins_viable; [|by destruct p|done].
      apply Forall_app. split; [done|]. destruct rest; [done|]. injection Hbr as ->. inversion_clear Hr. by constructor.
  - destruct p as [|x [|]]; try done. unfold step. rewrite Hat. change (at_ [x] 0) with x.
    replace (sequence_length x =? 0)%nat with true; [done|].
    symmetry. apply negb_false_iff. rewrite <- viable_one. apply not_true_is_false. intros Hv.
    apply Hno, begins_viable; done.
Qed.

(** Every text starts with a character or a maximal subpart. *)
Lemma split_first pending :
  Forall is_u8 pending -> pending <> [] ->
  exists p rest, pending = p ++ rest /\ p <> [] /\ (encoding p \/ maximal_subpart p rest).
Proof.
  intros Hb Hne. destruct pending as [|first tail]; [done|].
  destruct (viable [first]) eqn:Hone.
  2:{ exists [first], tail. split; [done|]. split; [done|]. right. inversion_clear Hb.
      assert (Hno : ~ begins [first]) by (rewrite begins_viable by (done || by apply Forall_singleton); by rewrite Hone).
      split; [done|]. split; [|by right]. intros He. apply Hno. by exists [first]. }
  set (l := first :: tail). set (n := (sequence_length (at_ l 0) - 1)%nat). set (k := accepted n 1 l).
  assert (Hpos : (1 <= sequence_length first)%nat) by (rewrite viable_one in Hone; destruct (sequence_length first); (done || lia)).
  destruct (accepted_bounds n 1 l) as [Hk Hkl]; [simpl; lia|]. fold k in Hk, Hkl.
  destruct (accepted_viable n 1 l) as [Hv Hstop]; [done|simpl; lia|subst n; change (at_ l 0) with first; lia|].
  fold k in Hv, Hstop. exists (take k l), (drop k l).
  assert (Hp : Forall is_u8 (take k l)) by (by apply Forall_take).
  assert (Hpne : take k l <> []) by (clearbody k; by destruct k; [lia|]).
  split; [by rewrite take_drop|]. split; [done|].
  destruct (complete (take k l)) eqn:Hc; [left; by apply complete_encoding|right].
  split; [done|]. split; [rewrite <- complete_encoding by done; by rewrite Hc|]. left.
  split; [by apply begins_viable|]. intros b Hbr. apply head_Some in Hbr as [rest Hrest].
  assert (Hlk : l !! k = Some b) by (rewrite <- (Nat.add_0_r k), <- lookup_drop, Hrest; done).
  pose proof (lookup_lt_Some _ _ _ Hlk) as Hlt. assert (Hbyte : is_u8 b) by exact (Forall_lookup_1 _ _ _ _ Hb Hlk).
  assert (Hnext : Forall is_u8 (take k l ++ [b])) by (apply Forall_app; split; [done|by apply Forall_singleton]).
  rewrite (begins_viable _ Hnext) by (intros [? ?]%app_eq_nil; done).
  rewrite <- (take_last _ _ _ Hlk). rewrite Hstop; [done| |done].
  assert (Hat : at_ (take k l) 0 = first) by (clearbody k; by destruct k; [lia|]).
  unfold complete in Hc. rewrite Hv, Hat, andb_true_l, length_take_le in Hc by lia. apply Nat.eqb_neq in Hc.
  assert (k <= sequence_length first)%nat.
  { unfold viable in Hv. bools. rewrite Hat, length_take_le in * by lia.
    match goal with H : (_ <=? _)%nat = true |- _ => by apply Nat.leb_le in H end. }
  subst n. change (at_ l 0) with first. lia.
Qed.

Lemma replacement_utf8 : utf8 replacement.
Proof.
  change replacement with (append_utf8 0xFFFD). apply utf8_scalar. unfold scalar_value. lia.
Qed.

Lemma encoding_utf8 c : encoding c -> utf8 c.
Proof. intros (z & Hz & ->). by apply utf8_scalar. Qed.

Lemma step_text pending final text k :
  pending <> [] -> step pending final = Some (text, k) -> text = replacement \/ text = take k pending /\ complete text = true.
Proof.
  intros Hne. destruct pending as [|first tail]; [done|]. unfold step. cbv zeta.
  set (l := first :: tail). change (at_ l 0) with first. set (count := sequence_length first).
  destruct (Nat.eqb_spec count 0); [intros [= <- _]; by left|].
  destruct (Nat.eqb_spec (accepted (count - 1) 1 l) count) as [Hj|_].
  2:{ destruct (_ && _); [done|]. intros [= <- _]. by left. }
  intros [= <- <-]. right. split; [done|].
  destruct (accepted_bounds (count - 1) 1 l) as [_ Hl]; [simpl; lia|].
  destruct (accepted_viable (count - 1) 1 l) as [Hv _].
  { change (take 1 l) with [first]. rewrite viable_one. by apply negb_true_iff, Nat.eqb_neq. }
  { simpl. lia. }
  { change (at_ l 0) with first. fold count. lia. }
  rewrite Hj in Hl, Hv. unfold complete. rewrite Hv, length_take_le by done. apply Nat.eqb_eq.
  replace (at_ (take count l) 0) with first; [done|]. clearbody count. by destruct count.
Qed.

(** What stays pending are the last bytes. *)
Lemma render_remains (P : Z -> Prop) pending final : Forall P pending -> Forall P (snd (render_utf8_output pending final)).
Proof.
  induction pending as [|pending Hne IH] using pending_ind; intros Hb; [constructor|].
  rewrite render_step by done. destruct (step pending final) as [[text k]|] eqn:Hs; [|done].
  pose proof (step_consumes _ _ _ _ Hne Hs). cbn [snd]. apply IH; [lia|by apply Forall_drop].
Qed.

(** The text is well formed whatever the bytes. *)
Lemma render_utf8 pending final : Forall is_u8 pending -> utf8 (fst (render_utf8_output pending final)).
Proof.
  induction pending as [|pending Hne IH] using pending_ind; intros Hb; [apply utf8_nil|].
  rewrite render_step by done. destruct (step pending final) as [[text k]|] eqn:Hs; [|apply utf8_nil].
  pose proof (step_consumes _ _ _ _ Hne Hs). cbn [fst]. apply utf8_app; [|apply IH; [lia|by apply Forall_drop]].
  apply step_text in Hs as [->|[-> Hc]]; [apply replacement_utf8| |done].
  apply encoding_utf8, complete_encoding; [by apply Forall_take|done].
Qed.

Lemma repaired_bytes pending text : Forall is_u8 pending -> repaired pending text -> fst (render_utf8_output pending true) = text.
Proof.
  intros Hb H. induction H as [|c rest text Hc Hrest IH|p rest text Hp Hrest IH]; [done| |].
  - pose proof (encoding_bytes c Hc) as [Hne _]. rewrite render_step by (by destruct c).
    rewrite step_char by done. cbn [fst]. rewrite drop_app_length. f_equal. apply IH. by apply Forall_app in Hb as [_ ?].
  - destruct Hp as (Hne & Hp). rewrite render_step by (by destruct p).
    rewrite step_part; [|done|by split|done]. cbn [fst]. rewrite drop_app_length. f_equal. apply IH. by apply Forall_app in Hb as [_ ?].
Qed.

Lemma render_repaired pending : Forall is_u8 pending -> repaired pending (fst (render_utf8_output pending true)).
Proof.
  induction pending as [|pending Hne IH] using pending_ind; intros Hb; [constructor|].
  destruct (split_first pending Hb Hne) as (p & rest & -> & Hp & Hfirst).
  assert (Hrest : repaired rest (fst (render_utf8_output rest true))).
  { rewrite <- (drop_app_length p rest). apply IH; [destruct p; [done|simpl; lia]|by apply Forall_drop]. }
  rewrite render_step by done. destruct Hfirst as [Hc|Hm].
  - rewrite step_char by done. cbn [fst]. rewrite drop_app_length. by constructor.
  - rewrite step_part by done. cbn [fst]. rewrite drop_app_length. by constructor.
Qed.

(** Text that is well formed is left alone. *)
Lemma repaired_same text : utf8 text -> repaired text text.
Proof.
  intros (scalars & Hs & ->). induction Hs as [|z scalars Hz Hs IH]; [constructor|].
  change (mjoin (append_utf8 <$> z :: scalars)) with (append_utf8 z ++ mjoin (append_utf8 <$> scalars)).
  constructor; [by exists z|done].
Qed.

(** The test of [valid_options] (evaluation_server.cpp): a name the renderer
    does not change. *)
Lemma render_fixed text : Forall is_u8 text -> fst (render_utf8_output text true) = text <-> utf8 text.
Proof.
  intros Hb. split.
  - intros <-. by apply render_utf8.
  - intros Hu. apply repaired_bytes; [done|by apply repaired_same].
Qed.

Lemma render_chunks_utf8 pending chunks :
  Forall is_u8 pending -> Forall (Forall is_u8) chunks -> Forall utf8 (render_chunks pending chunks).
Proof.
  revert pending. induction chunks as [|chunk chunks IH]; intros pending Hp Hc; [constructor|].
  inversion_clear Hc as [|? ? Hchunk Hchunks].
  assert (Hb : Forall is_u8 (pending ++ chunk)) by (by apply Forall_app).
  destruct chunks as [|chunk' chunks]; [constructor; [by apply render_utf8|constructor]|].
  cbn [render_chunks] in *. destruct (render_utf8_output (pending ++ chunk) false) as [text p] eqn:Hr.
  constructor; [rewrite <- (f_equal fst Hr : fst _ = text); by apply render_utf8|].
  apply IH; [|done]. change p with (snd (text, p)). rewrite <- Hr. by apply render_remains.
Qed.

(** ** The claim *)

(** C20. The text of a reply is well formed and does not depend on how the
    model's bytes are cut into tokens.  Streamed token by token or written at
    once, the bytes become the text the Unicode Standard asks for — characters
    kept, each maximal ill-formed subpart replaced by one U+FFFD — and no
    other; each part of the stream is UTF-8 by itself, and between parts at
    most three bytes are held back. *)
Theorem render_utf8_output_exact chunks :
  chunks <> [] -> Forall (Forall is_u8) chunks ->
  (forall text, repaired (mjoin chunks) text <-> text = mjoin (render_chunks [] chunks)) /\
  mjoin (render_chunks [] chunks) = fst (render_utf8_output (mjoin chunks) true) /\
  Forall utf8 (render_chunks [] chunks) /\
  (forall pending, (length (snd (render_utf8_output pending false)) <= 3)%nat).
Proof.
  intros Hne Hb. pose proof (render_chunks_joined [] chunks Hne) as Hj. rewrite app_nil_l in Hj.
  assert (Hall : Forall is_u8 (mjoin chunks)) by (by apply Forall_join).
  split_and!; [|done|by apply render_chunks_utf8|intros pending; exact (render_pending pending false)].
  intros text. rewrite Hj. split; [intros Hr; symmetry; by apply repaired_bytes|]. intros ->. by apply render_repaired.
Qed.

(** A smiley cut in two, and a byte that belongs nowhere. *)
Lemma render_utf8_output_exact_witness :
  mjoin (render_chunks [] [[104; 0xF0; 0x9F]; [0x98; 0x80; 0xFF]]) = [104; 0xF0; 0x9F; 0x98; 0x80; 0xEF; 0xBF; 0xBD] /\
  repaired (mjoin [[104; 0xF0; 0x9F]; [0x98; 0x80; 0xFF]]) (mjoin (render_chunks [] [[104; 0xF0; 0x9F]; [0x98; 0x80; 0xFF]])).
Proof.
  split; [vm_compute; reflexivity|].
  apply (render_utf8_output_exact [[104; 0xF0; 0x9F]; [0x98; 0x80; 0xFF]]); [discriminate| |reflexivity].
  repeat (apply Forall_cons_2 || apply Forall_nil_2); (split; [vm_compute; discriminate|vm_compute; reflexivity]).
Defined.
