(* ===== verification/Http.v ===== *)
(** * Http: reading requests from connections
      (src/src/server/evaluation_server.cpp: read_http_request,
      stage_http_connections and the helpers they use)

    [read_http_request] takes one request out of the bytes a connection has
    sent; [stage_connection] is one turn of the reactor over a connection that
    has not sent its request yet. *)

From Stdlib Require Import String.
From S2P Require Import Prelude OrderedMap Json.

(** ** Text *)

Definition text_size (text : list Z) : Z := Z.of_nat (length text).

Fixpoint starts_with (pattern text : list Z) : bool :=
  match pattern, text with
  | [], _ => true
  | _, [] => false
  | x :: pattern, y :: text => (x =? y) && starts_with pattern text
  end.

(** [std::string_view::find]: the first occurrence. *)
Fixpoint index_of (pattern text : list Z) : option nat :=
  if starts_with pattern text then Some 0%nat
  else match text with [] => None | _ :: text => S <$> index_of pattern text end.

Definition crlf : list Z := [13; 10].
Definition blank_line : list Z := [13; 10; 13; 10].
Definition space : Z := 32.
Definition colon : Z := 58.

Definition lowercase (text : list Z) : list Z :=
  (fun c => if (65 <=? c) && (c <=? 90) then c - 65 + 97 else c) <$> text.

Definition is_blank (c : Z) : bool := (c =? 32) || (c =? 9).

Fixpoint remove_blanks (value : list Z) : list Z :=
  match value with
  | [] => []
  | c :: rest => if is_blank c then remove_blanks rest else value
  end.

Definition trim_ascii (value : list Z) : list Z := reverse (remove_blanks (reverse (remove_blanks value))).

Definition is_json_content_type (value : list Z) : bool :=
  let semicolon := index_of [59] value in
  let media := match semicolon with Some at_semicolon => take at_semicolon value | None => value end in
  if negb (bool_decide (trim_ascii media = lit "application/json")) then false else
  match semicolon with
  | None => true
  | Some at_semicolon =>
      let parameter := trim_ascii (drop (S at_semicolon) value) in
      bool_decide (parameter = lit "charset=utf-8")
      || bool_decide (parameter = lit "charset=" ++ [34] ++ lit "utf-8" ++ [34])
  end.

(** The loop over the digits. *)
Fixpoint decimal_size (text : list Z) (value : Z) : option Z :=
  match text with
  | [] => Some value
  | character :: text =>
      if (character <? 48) || (57 <? character) then None else
      let digit := character - 48 in
      if (u64_max - digit) / 10 <? value then None else decimal_size text (value * 10 + digit)
  end.

Definition parse_decimal_size (text : list Z) : option Z :=
  if bool_decide (text = []) then None else decimal_size text 0.

(** ** Requests *)

Definition kMaximumHeaderBytes : Z := 64 * 1024.
Definition kMaximumBodyBytes : Z := 4 * 1024 * 1024.

Record HttpRequest := {
  method : list Z;
  target : list Z;
  content_type : list Z;
  authorization : list Z;
  request_body : list Z;
  keep_alive : bool
}.

Record HttpReadResult := {
  value : option HttpRequest;
  error_status : Z;
  error_message : list Z;
  peer_closed : bool;
  incomplete : bool
}.

Definition read_error (status : Z) (message : list Z) : HttpReadResult := {|
  value := None; error_status := status; error_message := message; peer_closed := false; incomplete := false
|}.
Definition read_closed : HttpReadResult := {|
  value := None; error_status := 0; error_message := []; peer_closed := true; incomplete := false
|}.
Definition read_incomplete : HttpReadResult := {|
  value := None; error_status := 0; error_message := []; peer_closed := false; incomplete := true
|}.
Definition read_value (request : HttpRequest) : HttpReadResult := {|
  value := Some request; error_status := 0; error_message := []; peer_closed := false; incomplete := false
|}.

(** What receiving from a connection gives. *)
Inductive Answer :=
  | Received (bytes : list Z)
  | PeerClosed
  | WouldBlock
  | Interrupted
  | ReceiveFailed.

(** What [wait_for_fd] and then [recv] give: the wait may end first, because the
    server stops or because the deadline passes. *)
Inductive Wait := NotReady (stopping : bool) | Answered (answer : Answer).

(** The loop that reads the headers; no further answer means that the deadline
    passes. *)
Fixpoint read_head (buffered_only : bool) (net : list Wait) (buffer : list Z)
    : (HttpReadResult + nat) * (list Z * list Wait) :=
  match index_of blank_line buffer with
  | Some header_end => (inr header_end, (buffer, net))
  | None =>
      if kMaximumHeaderBytes <=? text_size buffer
      then (inl (read_error 413 (lit "HTTP headers exceed the fixed limit")), (buffer, net)) else
      if buffered_only then (inl read_incomplete, (buffer, net)) else
      match net with
      | [] => (inl (read_error 408 (lit "request header read timed out")), (buffer, net))
      | NotReady stopping :: net =>
          (inl (read_error (if stopping then 503 else 408) (lit "request header read timed out")), (buffer, net))
      | Answered (Received bytes) :: net => read_head buffered_only net (buffer ++ bytes)
      | Answered WouldBlock :: net | Answered Interrupted :: net => read_head buffered_only net buffer
      | Answered PeerClosed :: net | Answered ReceiveFailed :: net => (inl read_closed, (buffer, net))
      end
  end.

(** The loop that reads the body. *)
Fixpoint read_body (buffered_only : bool) (message_bytes : Z) (net : list Wait) (buffer : list Z)
    : (HttpReadResult + unit) * (list Z * list Wait) :=
  if message_bytes <=? text_size buffer then (inr tt, (buffer, net)) else
  if buffered_only then (inl read_incomplete, (buffer, net)) else
  match net with
  | [] => (inl (read_error 408 (lit "request body read timed out")), (buffer, net))
  | NotReady stopping :: net =>
      (inl (read_error (if stopping then 503 else 408) (lit "request body read timed out")), (buffer, net))
  | Answered (Received bytes) :: net => read_body buffered_only message_bytes net (buffer ++ bytes)
  | Answered WouldBlock :: net | Answered Interrupted :: net => read_body buffered_only message_bytes net buffer
  | Answered PeerClosed :: net | Answered ReceiveFailed :: net => (inl read_closed, (buffer, net))
  end.

(** The loop over the header lines; [block] is the text from the line on. *)
Fixpoint parse_headers (fuel : nat) (block : list Z) (headers : list (list Z * list Z))
    : HttpReadResult + list (list Z * list Z) :=
  match fuel, block with
  | O, _ | _, [] => inr headers
  | S fuel, _ =>
      let line_end := index_of crlf block in
      let line := match line_end with Some line_end => take line_end block | None => block end in
      match index_of [colon] line with
      | None | Some O => inl (read_error 400 (lit "malformed HTTP header"))
      | Some at_colon =>
          let key := lowercase (take at_colon line) in
          let value := trim_ascii (drop (S at_colon) line) in
          match map_find key headers with
          | Some _ => inl (read_error 400 (lit "duplicate HTTP headers are not supported"))
          | None =>
              let headers := map_emplace key value headers in
              match line_end with
              | None => inr headers
              | Some line_end => parse_headers fuel (drop (line_end + 2) block) headers
              end
          end
      end
  end.

(** The request line: method and target. *)
Definition parse_request_line (request_line : list Z) : option (list Z * list Z) :=
  first_space ← index_of [space] request_line;
  second_space ← index_of [space] (drop (S first_space) request_line);
  if bool_decide (drop (S first_space + S second_space) request_line = lit "HTTP/1.1")
  then Some (take first_space request_line, take second_space (drop (S first_space) request_line)) else None.

(** Everything between the two reading loops: the request without its body,
    and the length of the body. *)
Definition parse_header_block (header_block : list Z) : HttpReadResult + (HttpRequest * Z) :=
  let first_line_end := index_of crlf header_block in
  let request_line := match first_line_end with Some e => take e header_block | None => header_block end in
  match parse_request_line request_line with
  | None => inl (read_error 400 (lit "only well-formed HTTP/1.1 requests are supported"))
  | Some (method, target) =>
      let rest := match first_line_end with Some e => drop (e + 2) header_block | None => [] end in
      match parse_headers (length rest) rest [] with
      | inl error => inl error
      | inr headers =>
          if bool_decide (map_find (lit "transfer-encoding") headers <> None)
          then inl (read_error 400 (lit "request transfer-encoding is not supported")) else
          let content_length_header := map_find (lit "content-length") headers in
          if bool_decide (method = lit "POST") && bool_decide (content_length_header = None)
          then inl (read_error 411 (lit "POST requires Content-Length")) else
          match
            match content_length_header with
            | None => Some 0
            | Some text =>
                content_length ← parse_decimal_size text;
                if kMaximumBodyBytes <? content_length then None else Some content_length
            end
          with
          | None => inl (read_error 413 (lit "request body exceeds the fixed limit"))
          | Some content_length =>
              inr ({| method := method; target := target;
                      content_type := default [] (lowercase <$> map_find (lit "content-type") headers);
                      authorization := default [] (map_find (lit "authorization") headers);
                      request_body := [];
                      keep_alive := match map_find (lit "connection") headers with
                                    | None => true
                                    | Some connection => negb (bool_decide (lowercase connection = lit "close"))
                                    end |}, content_length)
          end
      end
  end.

Definition with_body (request : HttpRequest) (text : list Z) : HttpRequest := {|
  method := method request; target := target request; content_type := content_type request;
  authorization := authorization request; request_body := text; keep_alive := keep_alive request
|}.

(** The request, and the buffer and the network after it. *)
Definition read_http_request (buffered_only : bool) (net : list Wait) (buffer : list Z)
    : HttpReadResult * (list Z * list Wait) :=
  match read_head buffered_only net buffer with
  | (inl result, after) => (result, after)
  | (inr header_end, (buffer, net)) =>
      if kMaximumHeaderBytes <? Z.of_nat header_end
      then (read_error 413 (lit "HTTP headers exceed the fixed limit"), (buffer, net)) else
      match parse_header_block (take header_end buffer) with
      | inl error => (error, (buffer, net))
      | inr (request, content_length) =>
          let message_bytes := Z.of_nat header_end + 4 + content_length in
          match read_body buffered_only message_bytes net buffer with
          | (inl result, after) => (result, after)
          | (inr tt, (buffer, net)) =>
              (read_value (with_body request (take (Z.to_nat content_length) (drop (header_end + 4) buffer))),
               (drop (Z.to_nat message_bytes) buffer, net))
          end
      end
  end.

(** ** Staging *)

(** What a turn of the reactor makes of a connection. *)
Inductive Staged :=
  | Pending (buffer : list Z)
  | Closed
  | Ready (request : HttpReadResult).

(** The loop that receives at most 64 KiB from a connection; no further answer
    means that nothing has arrived. *)
Fixpoint stage_connection (net : list Answer) (read_bytes : Z) (buffer : list Z) : Staged :=
  if read_bytes <? 65536 then
    match net with
    | Received bytes :: net =>
        let buffer := buffer ++ bytes in
        let parsed := fst (read_http_request true [] buffer) in
        if incomplete parsed then stage_connection net (read_bytes + text_size bytes) buffer else Ready parsed
    | PeerClosed :: _ | ReceiveFailed :: _ => Closed
    | Interrupted :: net => stage_connection net read_bytes buffer
    | WouldBlock :: _ | [] => Pending buffer
    end
  else Pending buffer.

(** ** Finding text *)

Definition occurs (pattern text : list Z) : Prop := exists a b, text = a ++ pattern ++ b.

Lemma starts_with_prefix pattern text : starts_with pattern text = true <-> exists rest, text = pattern ++ rest.
Proof.
  revert text. induction pattern as [|x pattern IH]; intros text; simpl; [split; [by exists text|done]|].
  destruct text as [|y text]; [split; [done|by intros [? ?]]|]. rewrite andb_true_iff, Z.eqb_eq, IH. split.
  - intros [-> [rest ->]]. by exists rest.
  - intros [rest [= -> ->]]. split; [done|by exists rest].
Qed.

Lemma index_of_Some pattern text n :
  index_of pattern text = Some n -> exists a b, text = a ++ pattern ++ b /\ length a = n.
Proof.
  revert n. induction text as [|y text IH]; intros n; cbn [index_of].
  - destruct (starts_with pattern []) eqn:Hs; [|done]. intros [= <-].
    apply starts_with_prefix in Hs as [rest Hs]. by exists [], rest.
  - destruct (starts_with pattern (y :: text)) eqn:Hs.
    + intros [= <-]. apply starts_with_prefix in Hs as [rest Hs]. by exists [], rest.
    + intros (m & Hm & ->)%fmap_Some. apply IH in Hm as (a & b & -> & <-). by exists (y :: a), b.
Qed.

Lemma index_of_None pattern text : index_of pattern text = None <-> ~ occurs pattern text.
Proof.
  induction text as [|y text IH]; cbn [index_of].
  - destruct (starts_with pattern []) eqn:Hs.
    + apply starts_with_prefix in Hs as [rest Hs]. split; [done|]. intros H. destruct H. by exists [], rest.
    + split; [|done]. intros _ (a & b & Hab). symmetry in Hab. apply app_eq_nil in Hab as [-> [-> ->]%app_eq_nil]. done.
  - destruct (starts_with pattern (y :: text)) eqn:Hs.
    + apply starts_with_prefix in Hs as [rest Hs]. split; [done|]. intros H. destruct H. by exists [], rest.
    + rewrite fmap_None, IH. split.
      * intros Hno ([|z a] & b & Hab).
        { apply not_true_iff_false in Hs. apply Hs, starts_with_prefix. by exists b. }
        injection Hab as -> ->. apply Hno. by exists a, b.
      * intros Hno (a & b & ->). apply Hno. by exists (y :: a), b.
Qed.

Lemma starts_with_app pattern text more :
  (length pattern <= length text)%nat -> starts_with pattern (text ++ more) = starts_with pattern text.
Proof.
  revert text. induction pattern as [|x pattern IH]; intros [|y text] Hl; simpl in *; try done; [lia|].
  by rewrite IH by lia.
Qed.

Lemma starts_with_length pattern text : starts_with pattern text = true -> (length pattern <= length text)%nat.
Proof. intros [rest ->]%starts_with_prefix. rewrite length_app. lia. Qed.

Lemma index_of_app pattern text more n : index_of pattern text = Some n -> index_of pattern (text ++ more) = Some n.
Proof.
  revert n. induction text as [|y text IH]; intros n; cbn [index_of app].
  - destruct (starts_with pattern []) eqn:Hs; [|done]. intros [= <-]. destruct pattern; [by destruct more|done].
  - destruct (starts_with pattern (y :: text)) eqn:Hs.
    + intros [= <-]. rewrite app_comm_cons, starts_with_app by (by apply starts_with_length). by rewrite Hs.
    + intros (m & Hm & ->)%fmap_Some. rewrite app_comm_cons, starts_with_app; [by rewrite Hs, (IH _ Hm)|].
      apply index_of_Some in Hm as (a & b & -> & _). simpl. rewrite !length_app. lia.
Qed.

(** A one-byte pattern. *)
Lemma occurs_byte c text : occurs [c] text <-> c ∈ text.
Proof.
  split.
  - intros (a & b & ->). apply elem_of_app. right. left.
  - intros (a & b & ->)%list_elem_of_split. by exists a, b.
Qed.

Lemma index_of_byte c a rest : c ∉ a -> index_of [c] (a ++ c :: rest) = Some (length a).
Proof.
  induction a as [|x a IH]; intros Ha; cbn [app index_of starts_with].
  - by rewrite Z.eqb_refl.
  - apply not_elem_of_cons in Ha as [Hx Ha]. rewrite (proj2 (Z.eqb_neq c x)) by done. simpl andb. by rewrite IH.
Qed.

Lemma index_of_byte_Some c text n :
  index_of [c] text = Some n -> text = take n text ++ (c :: drop (S n) text) /\ (c ∉ take n text) /\ (n < length text)%nat.
Proof.
  revert n. induction text as [|x text IH]; intros n; cbn [index_of starts_with]; [done|].
  destruct (Z.eqb_spec c x) as [->|Hne]; simpl andb.
  - intros [= <-]. simpl. split_and!; [by rewrite drop_0|by apply not_elem_of_nil|lia].
  - intros (m & Hm & ->)%fmap_Some. destruct (IH m Hm) as (Ht & Hc & Hl). simpl. split_and!; [by f_equal|by apply not_elem_of_cons|lia].
Qed.

(** The end of a line. *)
Lemma index_of_line line rest : ~ occurs crlf line -> index_of crlf (line ++ crlf ++ rest) = Some (length line).
Proof.
  induction line as [|x line IH]; intros Hno; [done|].
  assert (Hrest : ~ occurs crlf line) by (intros (a & b & ->); apply Hno; by exists (x :: a), b).
  specialize (IH Hrest). cbn [app index_of length]. rewrite IH.
  replace (starts_with crlf (x :: line ++ crlf ++ rest)) with false; [done|].
  symmetry. apply not_true_iff_false. intros [tail Ht]%starts_with_prefix. unfold crlf in Ht. simpl in Ht.
  injection Ht as -> Ht. destruct line as [|y line]; [done|]. injection Ht as -> _. apply Hno. by exists [], line.
Qed.

Lemma index_of_line_Some text n :
  index_of crlf text = Some n -> text = take n text ++ crlf ++ drop (n + 2) text /\ ~ occurs crlf (take n text).
Proof.
  revert n. induction text as [|x text IH]; intros n; cbn [index_of]; [done|].
  destruct (starts_with crlf (x :: text)) eqn:Hs.
  - intros [= <-]. apply starts_with_prefix in Hs as [rest Hs]. split; [|intros (a & b & Hab); by destruct a].
    rewrite Hs. by rewrite take_0.
  - intros (m & Hm & ->)%fmap_Some. destruct (IH m Hm) as [Ht Hno]. split; [by rewrite Ht at 1|].
    cbn [take]. intros ([|y a] & b & Hab).
    + apply not_true_iff_false in Hs. apply Hs, starts_with_prefix. simpl in Hab. injection Hab as -> Hab.
      exists (b ++ drop m text). rewrite <- (take_drop m text) at 1. by rewrite Hab.
    + injection Hab as -> Hab. apply Hno. by exists a, b.
Qed.

(** ** The grammar of a request *)

Definition field_line (field : list Z * list Z) : list Z := fst field ++ [colon] ++ snd field.

Fixpoint join_lines (lines : list (list Z)) : list Z :=
  match lines with
  | [] => []
  | [line] => line
  | line :: lines => line ++ crlf ++ join_lines lines
  end.

Definition header (field : list Z * list Z) : list Z * list Z := (lowercase (fst field), trim_ascii (snd field)).

(** The length of the body that the headers announce. *)
Definition announces (headers : list (list Z * list Z)) (n : Z) : Prop :=
  match map_find (lit "content-length") headers with
  | None => n = 0
  | Some text => digits text /\ n = decimal 0 text /\ n <= kMaximumBodyBytes
  end.

Definition request_line (m t : list Z) : list Z := m ++ [space] ++ t ++ [space] ++ lit "HTTP/1.1".

Definition field_ok (field : list Z * list Z) : Prop :=
  fst field <> [] /\ (colon ∉ fst field) /\ ~ occurs crlf (field_line field).

(** A block of headers that asks for [request] and announces [n] bytes: a
    request line and header fields, no field twice, no transfer encoding. *)
Record header_block (block : list Z) (request : HttpRequest) (n : Z) (fields : list (list Z * list Z)) : Prop := {
  block_lines : block = join_lines (request_line (method request) (target request) :: (field_line <$> fields));
  block_request_line : (space ∉ method request) /\ (space ∉ target request) /\
    ~ occurs crlf (request_line (method request) (target request));
  block_fields : Forall field_ok fields /\ NoDup (header <$> fields).*1;
  block_transfer : map_find (lit "transfer-encoding") (header <$> fields) = None;
  block_length : announces (header <$> fields) n /\
    (method request = lit "POST" -> map_find (lit "content-length") (header <$> fields) <> None);
  block_content_type : content_type request = default [] (lowercase <$> map_find (lit "content-type") (header <$> fields));
  block_authorization : authorization request = default [] (map_find (lit "authorization") (header <$> fields));
  block_keep_alive : keep_alive request =
    negb (bool_decide (lowercase <$> map_find (lit "connection") (header <$> fields) = Some (lit "close")));
  block_body : request_body request = []
}.

(** ** Numbers *)

Lemma decimal_grows text v : 0 <= v -> forallb is_decimal_digit text = true -> v <= decimal v text.
Proof.
  revert v. induction text as [|c text IH]; intros v Hv Hd; simpl in *; [done|].
  apply andb_true_iff in Hd as [Hc Hd]. apply digit_range in Hc. specialize (IH (v * 10 + (c - 48)) ltac:(lia) Hd). lia.
Qed.

Lemma decimal_size_exact text v n :
  0 <= v <= u64_max ->
  decimal_size text v = Some n <-> forallb is_decimal_digit text = true /\ n = decimal v text /\ n <= u64_max.
Proof.
  revert v. induction text as [|c text IH]; intros v Hv; cbn [decimal_size decimal forallb].
  { split; [intros [= <-]; split_and!; (done || lia)|by intros (_ & -> & _)]. }
  replace ((c <? 48) || (57 <? c)) with (negb (is_decimal_digit c)).
  2:{ unfold is_decimal_digit. rewrite negb_andb. by rewrite <- !Z.ltb_antisym. }
  destruct (is_decimal_digit c) eqn:Hc; cbn [negb andb]; [|split; [done|by intros [? _]]].
  apply digit_range in Hc. cbv zeta.
  destruct (Z.ltb_spec ((u64_max - (c - 48)) / 10) v) as [Hover|Hfits].
  - split; [done|]. intros (Hd & -> & Hn). pose proof (decimal_grows text (v * 10 + (c - 48)) ltac:(lia) Hd).
    assert (u64_max < v * 10 + (c - 48)); [|lia]. Z.div_mod_to_equations. lia.
  - apply IH. Z.div_mod_to_equations. lia.
Qed.

Lemma parse_decimal_size_exact text n : parse_decimal_size text = Some n <-> digits text /\ n = decimal 0 text /\ n <= u64_max.
Proof.
  unfold parse_decimal_size, digits. case_bool_decide as He; [split; [done|by intros ([? _] & _)]|].
  rewrite decimal_size_exact by (unfold u64_max; lia). tauto.
Qed.

(** ** The request line *)

Lemma parse_request_line_exact line m t :
  parse_request_line line = Some (m, t) <-> line = request_line m t /\ (space ∉ m) /\ (space ∉ t).
Proof.
  unfold parse_request_line, request_line. split.
  - intros (i & Hi & H)%bind_Some. apply bind_Some in H as (j & Hj & H). case_bool_decide as Hv; [|done].
    injection H as <- <-. apply index_of_byte_Some in Hi as (Hl & Hi & _). apply index_of_byte_Some in Hj as (Hr & Hj & _).
    split; [|done]. rewrite Hl at 1. f_equal. cbn [app]. f_equal. rewrite Hr at 1. f_equal. cbn [app]. f_equal.
    by rewrite <- Hv, drop_drop.
  - intros (-> & Hm & Ht). cbn [app].
    rewrite (index_of_byte space m) by done. cbn [mbind option_bind].
    replace (drop (S (length m)) (m ++ space :: t ++ space :: lit "HTTP/1.1")) with (t ++ space :: lit "HTTP/1.1").
    2:{ rewrite drop_app_ge by lia. by replace (S (length m) - length m)%nat with 1%nat by lia. }
    rewrite (index_of_byte space t) by done. cbn [mbind option_bind].
    replace (drop (S (length m) + S (length t)) (m ++ space :: t ++ space :: lit "HTTP/1.1")) with (lit "HTTP/1.1").
    2:{ rewrite drop_app_ge by lia. replace (S (length m) + S (length t) - length m)%nat with (S (S (length t))) by lia.
        cbn [drop]. rewrite drop_app_ge by lia. by replace (S (length t) - length t)%nat with 1%nat by lia. }
    rewrite bool_decide_true by done. by rewrite !take_app_length.
Qed.

(** ** The header lines *)

Lemma join_lines_cons line lines : lines <> [] -> join_lines (line :: lines) = line ++ crlf ++ join_lines lines.
Proof. by destruct lines. Qed.

Lemma field_line_colon field : fst field <> [] -> (colon ∉ fst field) -> exists n, index_of [colon] (field_line field) = Some (S n) /\
  take (S n) (field_line field) = fst field /\ drop (S (S n)) (field_line field) = snd field.
Proof.
  destruct field as [name text]. unfold field_line. cbn [fst snd app]. intros Hne Hc. exists (length name - 1)%nat.
  replace (S (length name - 1)) with (length name) by (destruct name; [done|simpl; lia]).
  rewrite index_of_byte by done. split; [done|]. split; [by rewrite take_app_length|].
  rewrite drop_app_ge by lia. by replace (S (length name) - length name)%nat with 1%nat by lia.
Qed.

Lemma line_colon line n :
  index_of [colon] line = Some (S n) ->
  exists field, line = field_line field /\ fst field <> [] /\ (colon ∉ fst field) /\
    take (S n) line = fst field /\ drop (S (S n)) line = snd field.
Proof.
  intros (Hl & Hc & Hn)%index_of_byte_Some. exists (take (S n) line, drop (S (S n)) line). split_and!; try done.
  destruct line; [simpl in Hn; lia|done].
Qed.

(** The map of the headers seen so far does not have a key. *)
Definition fresh_in (done_ : list (list Z * list Z)) (fields : list (list Z * list Z)) : Prop :=
  NoDup (header <$> fields).*1 /\ forall key, key ∈ (header <$> fields).*1 -> map_find key done_ = None.

Lemma fresh_in_cons done_ field fields :
  fresh_in done_ (field :: fields) <->
  map_find (lowercase (fst field)) done_ = None /\
  fresh_in (map_emplace (lowercase (fst field)) (trim_ascii (snd field)) done_) fields.
Proof.
  unfold fresh_in. cbn [fmap list_fmap]. change (fst (header field)) with (lowercase (fst field)).
  rewrite NoDup_cons. split.
  - intros [[Hn Hd] Hf]. assert (H0 : map_find (lowercase field.1) done_ = None) by (apply Hf; by left).
    split; [done|]. split; [done|]. intros key Hkey. rewrite (map_find_emplace _ _ _ _ H0).
    rewrite decide_False by congruence. apply Hf. by right.
  - intros (H0 & Hd & Hf). split; [split; [|done]|].
    + intros Hin. specialize (Hf _ Hin). rewrite (map_find_emplace _ _ _ _ H0), decide_True in Hf by done. done.
    + intros key [->|Hkey]%elem_of_cons; [done|]. specialize (Hf _ Hkey). rewrite (map_find_emplace _ _ _ _ H0) in Hf.
      by destruct (decide _).
Qed.

Lemma parse_headers_accepts fuel fields done_ :
  fields <> [] -> Forall field_ok fields -> fresh_in done_ fields ->
  (length (join_lines (field_line <$> fields)) <= fuel)%nat ->
  parse_headers fuel (join_lines (field_line <$> fields)) done_ = inr (emplace_entries (header <$> fields) done_).
Proof.
  revert fuel done_. induction fields as [|field fields IH]; intros fuel done_ Hne Hok Hfresh Hfuel; [done|].
  inversion_clear Hok as [|? ? (Hn & Hc & Hl) Hok']. apply fresh_in_cons in Hfresh as [H0 Hfresh].
  destruct (field_line_colon field Hn Hc) as (n & Hi & Ht & Hd).
  assert (Hline : field_line field <> []) by (unfold field_line; by destruct (fst field)).
  destruct (decide (fields = [])) as [->|Hmore].
  - cbn [fmap list_fmap join_lines] in *. destruct fuel as [|fuel]; [destruct (field_line field); [done|simpl in Hfuel; lia]|].
    cbn [parse_headers]. destruct (field_line field) as [|first tail_] eqn:Hfl; [done|]. rewrite <- Hfl in *.
    rewrite (proj2 (index_of_None crlf _)) by done. rewrite Hi, Ht, Hd, H0. done.
  - change (field_line <$> field :: fields) with (field_line field :: (field_line <$> fields)) in *.
    rewrite join_lines_cons in * by (by destruct fields). rewrite length_app in Hfuel.
    destruct fuel as [|fuel]; [destruct (field_line field); [done|simpl in Hfuel; lia]|].
    cbn [parse_headers]. destruct (field_line field ++ crlf ++ join_lines (field_line <$> fields)) as [|first tail_] eqn:Hfl; [by destruct (field_line field)|].
    rewrite <- Hfl. rewrite index_of_line by done. rewrite take_app_length, Hi, Ht, Hd, H0.
    rewrite drop_app_ge by lia. replace (length (field_line field) + 2 - length (field_line field))%nat with 2%nat by lia.
    change (drop 2 (crlf ++ join_lines (field_line <$> fields))) with (drop 0 (join_lines (field_line <$> fields))).
    rewrite drop_0. rewrite IH; [done|done|done|done|].
    rewrite length_app in Hfuel. simpl in Hfuel. lia.
Qed.

(** No blank line in the block, none at its end. *)
Definition unbroken (rest : list Z) : Prop := ~ occurs blank_line (crlf ++ rest ++ [13; 10; 13]).

Lemma unbroken_more line rest : unbroken (line ++ crlf ++ rest) -> unbroken rest.
Proof.
  intros Hu (a & b & Hab). apply Hu. exists (crlf ++ line ++ a), b. rewrite <- !app_assoc. by rewrite <- Hab.
Qed.

Lemma unbroken_nonempty rest : unbroken rest -> rest <> [].
Proof. intros Hu ->. apply Hu. by exists [], [13]. Qed.

Lemma parse_headers_sound fuel rest done_ headers :
  unbroken rest -> (length rest <= fuel)%nat -> parse_headers fuel rest done_ = inr headers ->
  exists fields, fields <> [] /\ rest = join_lines (field_line <$> fields) /\ Forall field_ok fields /\
    fresh_in done_ fields /\ headers = emplace_entries (header <$> fields) done_.
Proof.
  revert rest done_. induction fuel as [|fuel IH]; intros rest done_ Hu Hfuel H.
  { pose proof (unbroken_nonempty _ Hu). destruct rest; [done|simpl in Hfuel; lia]. }
  pose proof (unbroken_nonempty _ Hu) as Hne. cbn [parse_headers] in H. destruct rest as [|x l] eqn:Hrest; [done|].
  rewrite <- Hrest in *. clear Hne. set (line := match index_of crlf rest with Some e => take e rest | None => rest end) in *.
  destruct (index_of [colon] line) as [[|n]|] eqn:Hi; [done| |done].
  apply line_colon in Hi as (field & Hline & Hn & Hc & Ht & Hd). rewrite Ht, Hd in H.
  destruct (map_find (lowercase field.1) done_) eqn:H0; [done|].
  destruct (index_of crlf rest) as [e|] eqn:He.
  - apply index_of_line_Some in He as [Hsplit Hno]. subst line. rewrite Hline in Hsplit, Hno.
    destruct (IH (drop (e + 2) rest) (map_emplace (lowercase field.1) (trim_ascii field.2) done_)) as
      (fields & Hfne & Hr & Hok & Hfresh & ->); [|rewrite length_drop; rewrite Hrest in *; simpl in *; lia|exact H|].
    { apply (unbroken_more (field_line field)). by rewrite <- Hsplit. }
    exists (field :: fields). split_and!; [done| |by constructor|by apply fresh_in_cons|done].
    change (field_line <$> field :: fields) with (field_line field :: (field_line <$> fields)).
    rewrite join_lines_cons by (by destruct fields). by rewrite <- Hr.
  - injection H as <-. exists [field]. subst line. apply index_of_None in He. rewrite Hline in *.
    split_and!; [done|done|by constructor| |done].
    apply fresh_in_cons. split; [done|]. split; [constructor|]. intros key Hkey. by apply not_elem_of_nil in Hkey.
Qed.

(** ** The header block *)

(** What the fields of the request are read from, once the headers are parsed. *)
Definition from_headers (m t : list Z) (headers : list (list Z * list Z)) : HttpReadResult + (HttpRequest * Z) :=
  if bool_decide (map_find (lit "transfer-encoding") headers <> None)
  then inl (read_error 400 (lit "request transfer-encoding is not supported")) else
  let content_length_header := map_find (lit "content-length") headers in
  if bool_decide (m = lit "POST") && bool_decide (content_length_header = None)
  then inl (read_error 411 (lit "POST requires Content-Length")) else
  match
    match content_length_header with
    | None => Some 0
    | Some text =>
        content_length ← parse_decimal_size text;
        if kMaximumBodyBytes <? content_length then None else Some content_length
    end
  with
  | None => inl (read_error 413 (lit "request body exceeds the fixed limit"))
  | Some content_length =>
      inr ({| method := m; target := t;
              content_type := default [] (lowercase <$> map_find (lit "content-type") headers);
              authorization := default [] (map_find (lit "authorization") headers);
              request_body := [];
              keep_alive := match map_find (lit "connection") headers with
                            | None => true
                            | Some connection => negb (bool_decide (lowercase connection = lit "close"))
                            end |}, content_length)
  end.

Lemma from_headers_exact m t headers sorted_headers request n :
  (forall key, map_find key sorted_headers = map_find key headers) ->
  from_headers m t sorted_headers = inr (request, n) <->
  method request = m /\ target request = t /\ map_find (lit "transfer-encoding") headers = None /\
  announces headers n /\ (m = lit "POST" -> map_find (lit "content-length") headers <> None) /\
  content_type request = default [] (lowercase <$> map_find (lit "content-type") headers) /\
  authorization request = default [] (map_find (lit "authorization") headers) /\
  keep_alive request = negb (bool_decide (lowercase <$> map_find (lit "connection") headers = Some (lit "close"))) /\
  request_body request = [].
Proof.
  intros Hsame. unfold from_headers, announces. rewrite !Hsame.
  set (length_header := map_find (lit "content-length") headers).
  assert (Hlength : forall k, match length_header with
      | None => Some 0
      | Some text => content_length ← parse_decimal_size text; if kMaximumBodyBytes <? content_length then None else Some content_length
      end = Some k <->
    match length_header with None => k = 0 | Some text => digits text /\ k = decimal 0 text /\ k <= kMaximumBodyBytes end).
  { intros k. destruct length_header as [text|]; [|split; [by intros [= <-]|by intros ->]]. split.
    - intros (c & Hc & H)%bind_Some. apply parse_decimal_size_exact in Hc as (Hd & -> & _).
      destruct (Z.ltb_spec kMaximumBodyBytes (decimal 0 text)); [done|]. by injection H as <-.
    - intros (Hd & -> & Hk). rewrite (proj2 (parse_decimal_size_exact text (decimal 0 text))).
      + simpl. by rewrite (proj2 (Z.ltb_ge _ _)).
      + split_and!; [done|done|]. unfold kMaximumBodyBytes, u64_max in *. lia. }
  assert (Hkeep : match map_find (lit "connection") headers with
      | None => true | Some connection => negb (bool_decide (lowercase connection = lit "close")) end =
    negb (bool_decide (lowercase <$> map_find (lit "connection") headers = Some (lit "close")))).
  { destruct (map_find (lit "connection") headers) as [c|]; [|done].
    cbn [fmap option_fmap option_map]. f_equal. apply bool_decide_ext. split; [by intros ->|by intros [= ->]]. }
  rewrite Hkeep. destruct (bool_decide (map_find (lit "transfer-encoding") headers <> None)) eqn:Hte.
  { apply bool_decide_eq_true in Hte. split; [done|]. intros (_ & _ & ? & _). by destruct Hte. }
  apply bool_decide_eq_false, dec_stable in Hte. destruct (bool_decide (m = lit "POST") && _) eqn:Hpost.
  { split; [done|]. intros (_ & _ & _ & _ & H & _). apply andb_true_iff in Hpost as [Hm Hn].
    apply bool_decide_eq_true in Hm, Hn. by destruct (H Hm). }
  assert (Hpost' : m = lit "POST" -> length_header <> None).
  { intros Hm Hn. by rewrite !bool_decide_true in Hpost. }
  destruct (match length_header with None => Some 0 | Some text => _ end) as [k|] eqn:Hk.
  - split.
    + intros [= <- <-]. split_and!; try done. by apply Hlength.
    + intros (<- & <- & _ & Hn & _ & Hc & Ha & Hka & Hb). apply Hlength in Hn. injection Hn as <-.
      rewrite <- Hc, <- Ha, <- Hka, <- Hb. by destruct request.
  - split; [done|]. intros (_ & _ & _ & Hn & _). by apply Hlength in Hn.
Qed.

Lemma block_headers (fields : list (list Z * list Z)) key :
  NoDup (header <$> fields).*1 -> map_find key (emplace_entries (header <$> fields) []) = map_find key (header <$> fields).
Proof. intros Hn. rewrite find_emplace_entries by done. by destruct (map_find key (header <$> fields)). Qed.

Lemma header_block_intro block request n fields :
  header_block block request n fields <->
  block = join_lines (request_line (method request) (target request) :: (field_line <$> fields)) /\
  ((space ∉ method request) /\ (space ∉ target request) /\ ~ occurs crlf (request_line (method request) (target request))) /\
  Forall field_ok fields /\ NoDup (header <$> fields).*1 /\
  from_headers (method request) (target request) (emplace_entries (header <$> fields) []) = inr (request, n).
Proof.
  split.
  - intros [Hl Hr [Hf Hn] Ht [Ha Hp] Hc Hau Hk Hb]. split_and!; try done; try apply Hr.
    apply (from_headers_exact _ _ (header <$> fields)); [|done]. intros key. by apply block_headers.
  - intros (Hl & Hr & Hf & Hn & H). apply (from_headers_exact _ _ (header <$> fields)) in H as (_ & _ & Ht & Ha & Hp & Hc & Hau & Hk & Hb).
    + by constructor.
    + intros key. by apply block_headers.
Qed.

Lemma parse_header_block_exact block request n :
  ~ occurs blank_line (block ++ [13; 10; 13]) ->
  parse_header_block block = inr (request, n) <-> exists fields, header_block block request n fields.
Proof.
  intros Hblank. unfold parse_header_block. setoid_rewrite header_block_intro. split.
  - intros H. destruct (index_of crlf block) as [e|] eqn:He.
    + apply index_of_line_Some in He as [Hsplit Hno].
      destruct (parse_request_line (take e block)) as [[m t]|] eqn:Hline; [|done].
      apply parse_request_line_exact in Hline as (Hline & Hm & Ht).
      destruct (parse_headers _ _ _) as [?|headers] eqn:Hh; [done|]. fold (from_headers m t headers) in H.
      apply parse_headers_sound in Hh as (fields & Hne & Hrest & Hok & [Hn _] & ->); [| |done].
      2:{ intros (a & b & Hab). apply Hblank. exists (take e block ++ a), b. rewrite Hsplit at 1.
          rewrite <- !app_assoc. by rewrite <- Hab. }
      pose proof H as Hreq. apply (from_headers_exact _ _ (header <$> fields)) in Hreq as (Hm' & Ht' & _);
        [|intros key; by apply block_headers].
      exists fields. rewrite Hm', Ht'. split_and!; [|done|done| |done|done|done].
      * rewrite join_lines_cons by (by destruct fields). by rewrite <- Hline, <- Hrest.
      * by rewrite <- Hline.
    + destruct (parse_request_line block) as [[m t]|] eqn:Hline; [|done].
      apply parse_request_line_exact in Hline as (Hline & Hm & Ht). cbn [length parse_headers] in H.
      fold (from_headers m t []) in H. pose proof H as Hreq.
      apply (from_headers_exact _ _ []) in Hreq as (Hm' & Ht' & _); [|done].
      exists []. rewrite Hm', Ht'. apply index_of_None in He.
      split_and!; [done|done|done|by rewrite <- Hline|constructor|constructor|done].
  - intros (fields & Hl & (Hm & Ht & Hno) & Hok & Hn & H).
    assert (Hline : parse_request_line (request_line (method request) (target request)) = Some (method request, target request))
      by (by apply parse_request_line_exact).
    destruct (decide (fields = [])) as [->|Hne].
    + cbn [fmap list_fmap join_lines] in Hl. rewrite <- Hl in *. rewrite (proj2 (index_of_None crlf block)) by done.
      rewrite Hline. cbn [length parse_headers]. exact H.
    + rewrite join_lines_cons in Hl by (by destruct fields). rewrite Hl, index_of_line by done.
      rewrite take_app_length, Hline. rewrite drop_app_ge by lia.
      replace (length (request_line (method request) (target request)) + 2 - length (request_line (method request) (target request)))%nat with 2%nat by lia.
      change (drop 2 (crlf ++ join_lines (field_line <$> fields))) with (drop 0 (join_lines (field_line <$> fields))).
      rewrite drop_0, parse_headers_accepts; [exact H|done|done|by split|done].
Qed.

(** ** The first occurrence *)

Lemma index_of_first pattern text n m :
  index_of pattern text = Some n -> (m < n)%nat -> starts_with pattern (drop m text) = false.
Proof.
  revert n m. induction text as [|y text IH]; intros n m; cbn [index_of].
  - destruct (starts_with pattern []); [intros [= <-]; lia|done].
  - destruct (starts_with pattern (y :: text)) eqn:Hs; [intros [= <-]; lia|].
    intros (k & Hk & ->)%fmap_Some Hm. destruct m as [|m]; [by rewrite drop_0|]. apply (IH k); [done|lia].
Qed.

Lemma index_of_exact pattern a rest :
  pattern <> [] ->
  index_of pattern (a ++ pattern ++ rest) = Some (length a) <-> ~ occurs pattern (a ++ take (length pattern - 1) pattern).
Proof.
  intros Hne. assert (Hlen : (1 <= length pattern)%nat) by (destruct pattern; [done|simpl; lia]).
  assert (Hshort : length (a ++ take (length pattern - 1) pattern) = (length a + (length pattern - 1))%nat)
    by (rewrite length_app, length_take; lia).
  assert (Hpre : a ++ pattern ++ rest = (a ++ take (length pattern - 1) pattern) ++ drop (length pattern - 1) pattern ++ rest).
  { rewrite <- app_assoc. f_equal. rewrite app_assoc. by rewrite take_drop. }
  split.
  - intros Hi (b & c & Hbc). rewrite Hbc in Hshort. rewrite !length_app in Hshort.
    assert (Hs : starts_with pattern (drop (length b) (a ++ pattern ++ rest)) = true).
    { apply starts_with_prefix. rewrite Hpre, Hbc, <- !app_assoc, drop_app_length. by eexists. }
    rewrite (index_of_first _ _ _ _ Hi) in Hs; [done|lia].
  - intros Hno. destruct (index_of pattern (a ++ pattern ++ rest)) as [n|] eqn:Hi.
    2:{ apply index_of_None in Hi. destruct Hi. by exists a, rest. }
    f_equal. destruct (lt_eq_lt_dec n (length a)) as [[Hlt|?]|Hgt]; [|done|].
    + exfalso. apply Hno. apply index_of_Some in Hi as (b & c & Hbc & <-).
      exists b, (take (length a + (length pattern - 1) - length b - length pattern) c).
      rewrite <- (take_app_length (a ++ _) (drop (length pattern - 1) pattern ++ rest)), <- Hpre, Hbc, Hshort.
      rewrite take_app_ge by lia. f_equal. rewrite take_app_ge by lia. f_equal; f_equal; lia.
    + pose proof (index_of_first _ _ _ (length a) Hi Hgt) as Hs. rewrite drop_app_length in Hs.
      rewrite (proj2 (starts_with_prefix pattern (pattern ++ rest))) in Hs; [done|by eexists].
Qed.

Lemma blank_line_exact block rest :
  index_of blank_line (block ++ blank_line ++ rest) = Some (length block) <-> ~ occurs blank_line (block ++ [13; 10; 13]).
Proof. by rewrite index_of_exact. Qed.

Lemma blank_line_Some buffer h :
  index_of blank_line buffer = Some h ->
  buffer = take h buffer ++ blank_line ++ drop (h + 4) buffer /\ length (take h buffer) = h /\
  ~ occurs blank_line (take h buffer ++ [13; 10; 13]).
Proof.
  intros Hi. pose proof Hi as (a & b & Hab & Hl)%index_of_Some.
  assert (Ht : take h buffer = a) by (rewrite Hab, <- Hl; by rewrite take_app_length).
  assert (Hd : drop (h + 4) buffer = b).
  { rewrite Hab, <- drop_drop, <- Hl, drop_app_length. done. }
  rewrite Ht, Hd. split_and!; [done|done|]. apply (blank_line_exact a b). by rewrite <- Hab, Hl.
Qed.

(** ** Reading what is buffered *)

(** A buffer that starts with a request. *)
Record starts_request (buffer : list Z) (request : HttpRequest) (rest : list Z) (block content : list Z) (n : Z) : Prop := {
  start_text : buffer = block ++ blank_line ++ content ++ rest;
  start_blank : ~ occurs blank_line (block ++ [13; 10; 13]);
  start_size : text_size block <= kMaximumHeaderBytes;
  start_header : exists request' fields, header_block block request' n fields /\ request = with_body request' content;
  start_body : text_size content = n
}.

(** A buffer that is waited for: no blank line yet and fewer bytes than the
    headers may have, whatever these bytes are; or a whole block of headers that
    can be read, and not yet the whole of the body it announces. *)
Inductive unfinished (buffer : list Z) : Prop :=
  | unfinished_header : ~ occurs blank_line buffer -> text_size buffer < kMaximumHeaderBytes -> unfinished buffer
  | unfinished_body block content request n fields :
      buffer = block ++ blank_line ++ content -> ~ occurs blank_line (block ++ [13; 10; 13]) ->
      text_size block <= kMaximumHeaderBytes -> header_block block request n fields -> text_size content < n ->
      unfinished buffer.

Lemma announces_range headers n : announces headers n -> 0 <= n <= kMaximumBodyBytes.
Proof.
  unfold announces. destruct (map_find _ _) as [text|]; [|intros ->; unfold kMaximumBodyBytes; lia].
  intros ([_ Hd] & -> & Hn). split; [|done]. by apply decimal_nonneg.
Qed.

Lemma header_block_range block request n fields : header_block block request n fields -> 0 <= n <= kMaximumBodyBytes.
Proof. intros H. by eapply announces_range, block_length. Qed.

Lemma header_block_det block request n fields request' n' fields' :
  ~ occurs blank_line (block ++ [13; 10; 13]) ->
  header_block block request n fields -> header_block block request' n' fields' -> request' = request /\ n' = n.
Proof.
  intros Hb H H'. assert (Hp : parse_header_block block = inr (request, n)) by (apply parse_header_block_exact; eauto).
  assert (Hp' : parse_header_block block = inr (request', n')) by (apply parse_header_block_exact; eauto).
  rewrite Hp in Hp'. by injection Hp' as -> ->.
Qed.

(** The refusals of a header block. *)
Lemma parse_headers_refusal fuel block headers error :
  parse_headers fuel block headers = inl error -> exists message, error = read_error 400 message.
Proof.
  revert block headers. induction fuel as [|fuel IH]; intros block headers; cbn [parse_headers]; [by destruct block|].
  destruct block as [|x l]; [done|]. cbv zeta. repeat (case_match; try done); try (intros [= <-]; by eexists); apply IH.
Qed.

Lemma parse_header_block_refusal block error :
  parse_header_block block = inl error ->
  exists status message, error = read_error status message /\ (status = 400 \/ status = 411 \/ status = 413).
Proof.
  unfold parse_header_block. destruct (parse_request_line _) as [[m t]|]; [|intros [= <-]; by eauto 6].
  destruct (parse_headers _ _ _) as [e|headers] eqn:Hh.
  - intros [= <-]. apply parse_headers_refusal in Hh as [message ->]. by eauto 6.
  - case_bool_decide; [intros [= <-]; by eauto 6|]. destruct (_ && _); [intros [= <-]; by eauto 6|].
    destruct (match map_find _ _ with None => _ | Some _ => _ end); [done|]. intros [= <-]. by eauto 6.
Qed.

Lemma read_buffered buffer :
  read_http_request true [] buffer =
    match index_of blank_line buffer with
    | None =>
        if kMaximumHeaderBytes <=? text_size buffer
        then (read_error 413 (lit "HTTP headers exceed the fixed limit"), (buffer, []))
        else (read_incomplete, (buffer, []))
    | Some h =>
        if kMaximumHeaderBytes <? Z.of_nat h
        then (read_error 413 (lit "HTTP headers exceed the fixed limit"), (buffer, [])) else
        match parse_header_block (take h buffer) with
        | inl error => (error, (buffer, []))
        | inr (request, n) =>
            if Z.of_nat h + 4 + n <=? text_size buffer
            then (read_value (with_body request (take (Z.to_nat n) (drop (h + 4) buffer))),
                  (drop (Z.to_nat (Z.of_nat h + 4 + n)) buffer, []))
            else (read_incomplete, (buffer, []))
        end
    end.
Proof.
  unfold read_http_request. cbn [read_head]. destruct (index_of blank_line buffer) as [h|];
    [|by destruct (kMaximumHeaderBytes <=? text_size buffer)].
  destruct (kMaximumHeaderBytes <? Z.of_nat h); [done|]. destruct (parse_header_block _) as [|[request n]]; [done|].
  cbn [read_body]. by destruct (_ <=? text_size buffer).
Qed.

Lemma refused_result status message : (value (read_error status message) = None) /\ incomplete (read_error status message) = false.
Proof. done. Qed.

Lemma starts_request_facts buffer request rest block content n :
  starts_request buffer request rest block content n ->
  index_of blank_line buffer = Some (length block) /\ take (length block) buffer = block /\
  exists request', parse_header_block block = inr (request', n) /\ request = with_body request' content /\ 0 <= n /\
    take (Z.to_nat n) (drop (length block + 4) buffer) = content /\
    drop (Z.to_nat (Z.of_nat (length block) + 4 + n)) buffer = rest /\ Z.of_nat (length block) + 4 + n <= text_size buffer.
Proof.
  intros [Ht Hb Hs (request' & fields & Hh & ->) Hn]. split; [by rewrite Ht; apply blank_line_exact|].
  split; [by rewrite Ht, take_app_length|]. exists request'. pose proof (header_block_range _ _ _ _ Hh).
  assert (Hdrop : drop (length block + 4) buffer = content ++ rest)
    by (rewrite Ht, <- drop_drop, drop_app_length; done).
  assert (Hc : Z.to_nat n = length content) by (unfold text_size in Hn; lia).
  split_and!; [apply parse_header_block_exact; eauto|done|lia| | |].
  - by rewrite Hdrop, Hc, take_app_length.
  - replace (Z.to_nat _) with (length block + 4 + length content)%nat by lia.
    by rewrite <- drop_drop, Hdrop, drop_app_length.
  - unfold text_size in *. rewrite Ht, !length_app. simpl. lia.
Qed.

Lemma unfinished_body_facts buffer block content request n fields :
  buffer = block ++ blank_line ++ content -> ~ occurs blank_line (block ++ [13; 10; 13]) ->
  header_block block request n fields -> text_size content < n ->
  index_of blank_line buffer = Some (length block) /\ parse_header_block (take (length block) buffer) = inr (request, n) /\
  text_size buffer < Z.of_nat (length block) + 4 + n.
Proof.
  intros Ht Hb Hh Hc. split_and!; [by rewrite Ht; apply blank_line_exact| |].
  - rewrite Ht, take_app_length. apply parse_header_block_exact; eauto.
  - unfold text_size in *. rewrite Ht, !length_app. simpl. lia.
Qed.

(** What a buffer contains once its headers are read. *)
Lemma header_end_facts buffer h request n :
  index_of blank_line buffer = Some h -> parse_header_block (take h buffer) = inr (request, n) ->
  buffer = take h buffer ++ blank_line ++ drop (h + 4) buffer /\ length (take h buffer) = h /\
  ~ occurs blank_line (take h buffer ++ [13; 10; 13]) /\
  (exists fields, header_block (take h buffer) request n fields) /\ 0 <= n <= kMaximumBodyBytes /\
  text_size buffer = Z.of_nat h + 4 + text_size (drop (h + 4) buffer).
Proof.
  intros Hi Hp. destruct (blank_line_Some buffer h Hi) as (Hb & Hl & Hno). split_and!; [done|done|done| | | |].
  - by apply parse_header_block_exact.
  - apply parse_header_block_exact in Hp as [fields Hp]; [|done]. apply header_block_range in Hp. lia.
  - apply parse_header_block_exact in Hp as [fields Hp]; [|done]. apply header_block_range in Hp. lia.
  - unfold text_size. rewrite Hb at 1. rewrite !length_app, Hl. simpl. lia.
Qed.

Lemma read_value_exact buffer request rest :
  (value (fst (read_http_request true [] buffer)) = Some request /\ fst (snd (read_http_request true [] buffer)) = rest) <->
  exists block content n, starts_request buffer request rest block content n.
Proof.
  rewrite read_buffered. split.
  - destruct (index_of blank_line buffer) as [h|] eqn:Hi; [|by destruct (kMaximumHeaderBytes <=? text_size buffer); intros [[=] _]].
    destruct (Z.ltb_spec kMaximumHeaderBytes (Z.of_nat h)); [by intros [[=] _]|].
    destruct (parse_header_block (take h buffer)) as [error|[request' n]] eqn:Hp.
    { apply parse_header_block_refusal in Hp as (? & ? & -> & _). by intros [[=] _]. }
    destruct (Z.leb_spec (Z.of_nat h + 4 + n) (text_size buffer)) as [Hall|]; [|by intros [[=] _]].
    destruct (header_end_facts _ _ _ _ Hi Hp) as (Hb & Hl & Hno & [fields Hh] & Hn & Hsize).
    cbn [fst snd value read_value]. intros [[= <-] <-].
    exists (take h buffer), (take (Z.to_nat n) (drop (h + 4) buffer)), n. constructor; [|done| | |].
    + rewrite Hb at 1. do 2 f_equal. rewrite <- (take_drop (Z.to_nat n) (drop (h + 4) buffer)) at 1. f_equal.
      rewrite drop_drop. f_equal. lia.
    + unfold text_size. by rewrite Hl.
    + by exists request', fields.
    + unfold text_size in *. rewrite length_take. lia.
  - intros (block & content & n & H). pose proof (start_size _ _ _ _ _ _ H).
    apply starts_request_facts in H as (Hi & Ht & request' & Hp & -> & Hn & Hc & Hd & Hall).
    rewrite Hi. rewrite (proj2 (Z.ltb_ge _ _)) by done. rewrite Ht, Hp. rewrite (proj2 (Z.leb_le _ _)) by done.
    cbn [fst snd value read_value]. by rewrite Hc, Hd.
Qed.

Lemma read_incomplete_exact buffer :
  incomplete (fst (read_http_request true [] buffer)) = true <-> unfinished buffer.
Proof.
  rewrite read_buffered. split.
  - destruct (index_of blank_line buffer) as [h|] eqn:Hi.
    + destruct (Z.ltb_spec kMaximumHeaderBytes (Z.of_nat h)); [done|].
      destruct (parse_header_block (take h buffer)) as [error|[request n]] eqn:Hp.
      { by apply parse_header_block_refusal in Hp as (? & ? & -> & _). }
      destruct (Z.leb_spec (Z.of_nat h + 4 + n) (text_size buffer)); [done|]. intros _.
      destruct (header_end_facts _ _ _ _ Hi Hp) as (Hb & Hl & Hno & [fields Hh] & Hn & Hsize).
      eapply unfinished_body; [exact Hb|exact Hno| |exact Hh|lia]. unfold text_size. by rewrite Hl.
    + destruct (Z.leb_spec kMaximumHeaderBytes (text_size buffer)); [done|]. intros _.
      apply unfinished_header; [by apply index_of_None|done].
  - intros [Hno Hs|block content request n fields Ht Hb Hs Hh Hc].
    + apply index_of_None in Hno. rewrite Hno. by rewrite (proj2 (Z.leb_gt _ _)).
    + destruct (unfinished_body_facts _ _ _ _ _ _ Ht Hb Hh Hc) as (Hi & Hp & Hlt). rewrite Hi.
      rewrite (proj2 (Z.ltb_ge _ _)) by done. rewrite Hp. by rewrite (proj2 (Z.leb_gt _ _)).
Qed.

Lemma read_refusal buffer :
  value (fst (read_http_request true [] buffer)) = None -> incomplete (fst (read_http_request true [] buffer)) = false ->
  fst (snd (read_http_request true [] buffer)) = buffer /\
  exists status message, fst (read_http_request true [] buffer) = read_error status message /\
    (status = 400 \/ status = 411 \/ status = 413).
Proof.
  rewrite read_buffered. destruct (index_of blank_line buffer) as [h|].
  - destruct (kMaximumHeaderBytes <? Z.of_nat h); [intros _ _; split; [done|]; by eauto 6|].
    destruct (parse_header_block (take h buffer)) as [error|[request n]] eqn:Hp; [|by case_match].
    intros _ _. split; [done|]. by apply parse_header_block_refusal in Hp.
  - case_match; [intros _ _; split; [done|]; by eauto 6|done].
Qed.

(** ** Chunks *)

(** Once the headers are there, more bytes change nothing that is decided. *)
Lemma read_stable buffer more :
  index_of blank_line buffer <> None -> incomplete (fst (read_http_request true [] buffer)) = false ->
  fst (read_http_request true [] (buffer ++ more)) = fst (read_http_request true [] buffer).
Proof.
  intros Hn Hinc. rewrite !read_buffered in *. destruct (index_of blank_line buffer) as [h|] eqn:Hi; [|done].
  rewrite (index_of_app _ _ more _ Hi). destruct (kMaximumHeaderBytes <? Z.of_nat h); [done|].
  destruct (blank_line_Some buffer h Hi) as (Hb & Hl & Hno).
  assert (Hh : (h + 4 <= length buffer)%nat) by (rewrite Hb, !length_app, Hl; simpl; lia).
  rewrite (take_app_le buffer more h) by lia.
  destruct (parse_header_block (take h buffer)) as [error|[request n]] eqn:Hp; [done|].
  destruct (header_end_facts _ _ _ _ Hi Hp) as (_ & _ & _ & _ & Hrange & _).
  destruct (Z.leb_spec (Z.of_nat h + 4 + n) (text_size buffer)); [|done].
  assert (Hall : Z.of_nat h + 4 + n <= text_size (buffer ++ more)) by (unfold text_size in *; rewrite length_app; lia).
  rewrite (proj2 (Z.leb_le _ _) Hall).
  cbn [fst]. do 2 f_equal. rewrite drop_app_le by lia. rewrite take_app_le; [done|].
  unfold text_size in *. rewrite length_drop. lia.
Qed.

(** The buffer of a connection that waits is bounded. *)
Lemma unfinished_bounded buffer : unfinished buffer -> text_size buffer < kMaximumHeaderBytes + 4 + kMaximumBodyBytes.
Proof.
  intros [_ Hs|block content request n fields Ht Hb Hs Hh Hc]; [unfold kMaximumBodyBytes; lia|].
  apply header_block_range in Hh. unfold text_size in *. rewrite Ht, !length_app. simpl. lia.
Qed.

(** The reactor over all the chunks of a connection, however many turns. *)
Fixpoint stage_chunks (chunks : list (list Z)) (buffer : list Z) : Staged :=
  match chunks with
  | [] => Pending buffer
  | chunk :: chunks =>
      let buffer := buffer ++ chunk in
      let parsed := fst (read_http_request true [] buffer) in
      if incomplete parsed then stage_chunks chunks buffer else Ready parsed
  end.

(** One turn takes some of the chunks that have arrived. *)
Lemma stage_connection_chunks chunks read_bytes buffer :
  exists taken left_, chunks = taken ++ left_ /\
    stage_connection (Received <$> chunks) read_bytes buffer = stage_chunks taken buffer /\
    (left_ = [] \/ (exists parsed, stage_chunks taken buffer = Ready parsed) \/
     65536 <= read_bytes + text_size (mjoin taken)).
Proof.
  revert read_bytes buffer. induction chunks as [|chunk chunks IH]; intros read_bytes buffer.
  { exists [], []. split; [done|]. cbn [fmap list_fmap stage_connection]. split; [by case_match|by left]. }
  cbn [fmap list_fmap stage_connection]. destruct (Z.ltb_spec read_bytes 65536) as [Hlt|Hge].
  - destruct (incomplete (fst (read_http_request true [] (buffer ++ chunk)))) eqn:Hi.
    + destruct (IH (read_bytes + text_size chunk) (buffer ++ chunk)) as (taken & left_ & -> & Hs & Hend).
      exists (chunk :: taken), left_. split; [done|]. cbn [stage_chunks]. rewrite Hi. split; [exact Hs|].
      change (mjoin (chunk :: taken)) with (chunk ++ mjoin taken).
      destruct Hend as [?|[?|?]]; [by left|by right; left|]. right; right. unfold text_size in *. rewrite length_app. lia.
    + exists [chunk], chunks. split; [done|]. cbn [stage_chunks]. rewrite Hi. split; [done|]. right; left. by eexists.
  - exists [], (chunk :: chunks). split; [done|]. split; [done|]. right; right. unfold text_size. simpl. lia.
Qed.

Lemma index_of_app_inv buffer more h :
  index_of blank_line (buffer ++ more) = Some h -> index_of blank_line buffer = None ->
  (length buffer < h + 4)%nat.
Proof.
  intros Hi Hn. destruct (le_lt_dec (h + 4) (length buffer)) as [Hle|]; [|lia]. exfalso.
  apply index_of_None in Hn. apply Hn. destruct (blank_line_Some _ _ Hi) as (Hb & Hl & _).
  exists (take h buffer), (drop (h + 4) buffer). rewrite <- (take_drop (h + 4) buffer) at 1. rewrite (app_assoc _ blank_line).
  f_equal. apply (f_equal (take (h + 4))) in Hb. rewrite take_app_le in Hb by lia. rewrite Hb.
  rewrite app_assoc. replace (h + 4)%nat with (length (take h (buffer ++ more) ++ blank_line)) by (rewrite length_app, Hl; done).
  rewrite take_app_length. rewrite take_app_le by lia. done.
Qed.

(** A buffer whose headers are read needs a certain number of bytes, and any
    bytes will do. *)
Lemma waits_for_body buffer :
  incomplete (fst (read_http_request true [] buffer)) = true -> occurs blank_line buffer ->
  exists missing, 0 < missing <= kMaximumBodyBytes /\ forall more, text_size more = missing ->
    exists request, value (fst (read_http_request true [] (buffer ++ more))) = Some request /\
      fst (snd (read_http_request true [] (buffer ++ more))) = [].
Proof.
  intros [Hno _|block content request n fields Ht Hb Hs Hh Hc]%read_incomplete_exact Hocc; [done|].
  pose proof (header_block_range _ _ _ _ Hh) as Hn. exists (n - text_size content). split; [unfold text_size in *; lia|].
  intros more Hmore. exists (with_body request (content ++ more)). apply read_value_exact. exists block, (content ++ more), n.
  constructor; [|done|done|by exists request, fields|unfold text_size in *; rewrite length_app; lia].
  by rewrite Ht, <- !app_assoc, app_nil_r.
Qed.

(** Bytes that begin a request are not refused before they are all there, unless
    the blank line falls on the limit. *)
Lemma beginning_is_read buffer more request :
  value (fst (read_http_request true [] (buffer ++ more))) = Some request ->
  value (fst (read_http_request true [] buffer)) = Some request \/
  incomplete (fst (read_http_request true [] buffer)) = true \/
  (fst (read_http_request true [] buffer) = read_error 413 (lit "HTTP headers exceed the fixed limit") /\
   ~ occurs blank_line buffer /\ kMaximumHeaderBytes <= text_size buffer < kMaximumHeaderBytes + 4).
Proof.
  intros Hv. destruct (incomplete (fst (read_http_request true [] buffer))) eqn:Hinc; [by right; left|].
  destruct (index_of blank_line buffer) as [h|] eqn:Hi.
  { left. by rewrite <- (read_stable buffer more) by (by rewrite ?Hi). }
  right; right. rewrite read_buffered, Hi in Hinc |- *.
  destruct (Z.leb_spec kMaximumHeaderBytes (text_size buffer)) as [Hle|]; [|done].
  split_and!; [done|by apply index_of_None|done|]. rewrite read_buffered in Hv.
  destruct (index_of blank_line (buffer ++ more)) as [h|] eqn:Hw; [|by case_match].
  pose proof (index_of_app_inv _ _ _ Hw Hi). destruct (Z.ltb_spec kMaximumHeaderBytes (Z.of_nat h)); [done|].
  unfold text_size. lia.
Qed.

(** C17. A request is read from a connection exactly when its bytes are one.
    The buffer gives a request just when it starts with a request line, header
    fields — none repeated, no transfer encoding, at most 64 KiB — a blank line
    and the announced number of bytes; exactly those bytes are consumed.

    It is left waiting just when it holds no blank line and fewer than 64 KiB,
    whatever its bytes are, or a block of headers that can be read and less
    than the body this announces; in the second case any bytes, as many as are
    missing, complete a request.  Otherwise it is refused with the status 400,
    411 or 413 and nothing is consumed.

    No beginning of a request is refused, with one exception: without its blank
    line, a buffer of 64 KiB or up to three bytes more is refused with 413,
    even when the bytes that follow would complete the blank line. *)
Theorem read_http_request_exact buffer :
  let '(result, (left_, _)) := read_http_request true [] buffer in
  (forall request rest, value result = Some request /\ left_ = rest <->
     exists block content n, starts_request buffer request rest block content n) /\
  (incomplete result = true <-> unfinished buffer) /\
  (value result = None -> incomplete result = false -> left_ = buffer /\
     exists status message, result = read_error status message /\ (status = 400 \/ status = 411 \/ status = 413)) /\
  (incomplete result = true -> occurs blank_line buffer ->
     exists missing, 0 < missing <= kMaximumBodyBytes /\ forall more, text_size more = missing ->
       exists request, value (fst (read_http_request true [] (buffer ++ more))) = Some request /\
         fst (snd (read_http_request true [] (buffer ++ more))) = []) /\
  (forall more request, value (fst (read_http_request true [] (buffer ++ more))) = Some request ->
     value result = Some request \/ incomplete result = true \/
     (result = read_error 413 (lit "HTTP headers exceed the fixed limit") /\ ~ occurs blank_line buffer /\
      kMaximumHeaderBytes <= text_size buffer < kMaximumHeaderBytes + 4)).
Proof.
  pose proof (read_value_exact buffer) as Hv. pose proof (read_incomplete_exact buffer) as Hi.
  pose proof (read_refusal buffer) as Hr. pose proof (waits_for_body buffer) as Hw. pose proof (beginning_is_read buffer) as Hb.
  by destruct (read_http_request true [] buffer) as [result [left_ net]].
Qed.

(** Headers of 64 KiB: at once they are read, but when their last byte comes
    later they are refused. *)
Definition limit_get : list Z :=
  let line := lit "GET / HTTP/1.1" ++ crlf ++ lit "A:" in line ++ repeat 97 (Z.to_nat kMaximumHeaderBytes - length line) ++ [13; 10; 13].

Theorem headers_at_the_limit :
  fst (read_http_request true [] limit_get) = read_error 413 (lit "HTTP headers exceed the fixed limit") /\
  value (fst (read_http_request true [] (limit_get ++ [10]))) <> None.
Proof. split; [vm_compute; reflexivity|vm_compute; discriminate]. Qed.

Lemma stage_chunks_whole chunks buffer :
  let whole := buffer ++ mjoin chunks in
  (chunks = [] -> unfinished buffer) ->
  (forall h, index_of blank_line whole = Some h -> Z.of_nat h + 4 <= kMaximumHeaderBytes \/ kMaximumHeaderBytes < Z.of_nat h) ->
  stage_chunks chunks buffer =
    (if incomplete (fst (read_http_request true [] whole)) then Pending whole
     else Ready (fst (read_http_request true [] whole))).
Proof.
  cbv zeta. revert buffer. induction chunks as [|chunk chunks IH]; intros buffer Hmay Hh.
  { simpl mjoin in *. rewrite app_nil_r in *. by rewrite (proj2 (read_incomplete_exact buffer)) by auto. }
  change (mjoin (chunk :: chunks)) with (chunk ++ mjoin chunks) in *. rewrite app_assoc in *. cbn [stage_chunks].
  destruct (incomplete (fst (read_http_request true [] (buffer ++ chunk)))) eqn:Hi.
  - apply IH; [|done]. intros _. by apply read_incomplete_exact.
  - enough (Hsame : fst (read_http_request true [] ((buffer ++ chunk) ++ mjoin chunks)) =
                    fst (read_http_request true [] (buffer ++ chunk))) by (by rewrite Hsame, Hi).
    destruct (index_of blank_line (buffer ++ chunk)) as [h|] eqn:Hb; [apply read_stable; [by rewrite Hb|done]|].
    rewrite (read_buffered (buffer ++ chunk)), Hb in Hi |- *.
    destruct (Z.leb_spec kMaximumHeaderBytes (text_size (buffer ++ chunk))) as [Hbig|]; [|done].
    rewrite read_buffered. destruct (index_of blank_line ((buffer ++ chunk) ++ mjoin chunks)) as [h|] eqn:Hw.
    + pose proof (index_of_app_inv _ _ _ Hw Hb). destruct (Hh h eq_refl) as [?|?]; [unfold text_size in *; lia|].
      by rewrite (proj2 (Z.ltb_lt _ _)).
    + rewrite (proj2 (Z.leb_le _ _)); [done|]. unfold text_size in *. rewrite length_app. lia.
Qed.

Definition sample_get : list Z := lit "GET /healthz HTTP/1.1" ++ crlf ++ lit "Host: test" ++ blank_line.
Definition sample_http_request : HttpRequest := {|
  method := lit "GET"; target := lit "/healthz"; content_type := []; authorization := []; request_body := []; keep_alive := true
|}.

Lemma read_http_request_exact_witness : exists block content n, starts_request sample_get sample_http_request [] block content n.
Proof.
  destruct (read_http_request true [] sample_get) as [result [left_ net]] eqn:Hr.
  pose proof (read_http_request_exact sample_get) as H. rewrite Hr in H. destruct H as [H _].
  apply H. vm_compute in Hr. injection Hr as <- <- _. split; reflexivity.
Defined.

(** However its bytes arrive, a request is read the same way, and waiting
    for it takes bounded memory.  Whatever chunks a connection's bytes come in,
    the reactor ends with the result of reading them at once (unless the blank
    line ends within the last four bytes after the limit of 64 KiB, where it
    may be refused early); a connection that still waits holds less than the
    limits of headers and body; and each turn only takes some of the chunks,
    stopping once it has taken 64 KiB. *)
Theorem staging_exact chunks :
  (forall h, index_of blank_line (mjoin chunks) = Some h ->
     Z.of_nat h + 4 <= kMaximumHeaderBytes \/ kMaximumHeaderBytes < Z.of_nat h) ->
  let result := fst (read_http_request true [] (mjoin chunks)) in
  stage_chunks chunks [] = (if incomplete result then Pending (mjoin chunks) else Ready result) /\
  (forall buffer, stage_chunks chunks [] = Pending buffer -> text_size buffer < kMaximumHeaderBytes + 4 + kMaximumBodyBytes) /\
  (forall read_bytes buffer, exists taken left_, chunks = taken ++ left_ /\
     stage_connection (Received <$> chunks) read_bytes buffer = stage_chunks taken buffer /\
     (left_ = [] \/ (exists parsed, stage_chunks taken buffer = Ready parsed) \/
      65536 <= read_bytes + text_size (mjoin taken))).
Proof.
  intros Hh result. pose proof (stage_chunks_whole chunks []) as Hw. cbv zeta in Hw. rewrite app_nil_l in Hw.
  fold result in Hw. rewrite Hw; [|intros _; by apply read_incomplete_exact|done].
  split_and!; [done| |intros; apply stage_connection_chunks].
  intros buffer. destruct (incomplete result) eqn:Hi; [|done]. intros [= <-].
  by apply unfinished_bounded, read_incomplete_exact.
Qed.

Lemma staging_exact_witness :
  stage_chunks [take 9 sample_get; drop 9 sample_get] [] = Ready (read_value sample_http_request).
Proof.
  destruct (staging_exact [take 9 sample_get; drop 9 sample_get]) as [H _].
  - intros h Hi. left. vm_compute in Hi. injection Hi as <-. vm_compute. discriminate.
  - rewrite H. vm_compute. reflexivity.
Defined.
