(* ===== verification/HttpOutput.v ===== *)
(** * HttpOutput: writing responses to connections
      (src/src/server/evaluation_server.cpp: send_all, status_text,
      send_fixed_response, send_sse_headers, send_chunk, send_chunk_end and
      sse_data)

    A response is written with [send], which may take a part of the bytes, ask
    to be called again, or fail.  A client is described by reference readers:
    of an HTTP message, of a chunked body and of a stream of events. *)

From Stdlib Require Import String.
From S2P Require Import Prelude OrderedMap Json Http.

(** ** Sending bytes *)

(** What [wait_for_fd] and then [send] give: the wait ends without the socket
    being writable, [send] takes [count] bytes, or all it is given, asks to be
    called again, or fails. *)
Inductive SendAnswer :=
  | NotWritable
  | Sent (count : Z)
  | SentAll
  | SendRetry
  | SendFailed.

(** A connection: what sending will answer, and the bytes the peer was sent. *)
Record Connection := { answers : list SendAnswer; sent : list Z }.

(** The loop over the bytes that are left; no further answer means that the
    deadline passes. *)
Fixpoint send_loop (answers_ : list SendAnswer) (bytes sent_ : list Z) : bool * Connection :=
  match bytes with
  | [] => (true, {| answers := answers_; sent := sent_ |})
  | _ :: _ =>
      match answers_ with
      | [] => (false, {| answers := []; sent := sent_ |})
      | NotWritable :: answers_ => (false, {| answers := answers_; sent := sent_ |})
      | Sent count :: answers_ =>
          if 0 <? count
          then send_loop answers_ (drop (Z.to_nat count) bytes) (sent_ ++ take (Z.to_nat count) bytes)
          else (false, {| answers := answers_; sent := sent_ |})
      | SentAll :: answers_ => send_loop answers_ [] (sent_ ++ bytes)
      | SendRetry :: answers_ => send_loop answers_ bytes sent_
      | SendFailed :: answers_ => (false, {| answers := answers_; sent := sent_ |})
      end
  end.

Definition send_all (bytes : list Z) (connection : Connection) : bool * Connection :=
  send_loop (answers connection) bytes (sent connection).

(** [first && second]. *)
Definition and_then (first second : Connection -> bool * Connection) (connection : Connection) : bool * Connection :=
  let '(ok, connection) := first connection in if ok then second connection else (false, connection).

(** ** Responses *)

Definition status_text (status : Z) : list Z :=
  if status =? 200 then lit "OK"
  else if status =? 400 then lit "Bad Request"
  else if status =? 401 then lit "Unauthorized"
  else if status =? 404 then lit "Not Found"
  else if status =? 405 then lit "Method Not Allowed"
  else if status =? 408 then lit "Request Timeout"
  else if status =? 411 then lit "Length Required"
  else if status =? 413 then lit "Payload Too Large"
  else if status =? 415 then lit "Unsupported Media Type"
  else if status =? 429 then lit "Too Many Requests"
  else if status =? 500 then lit "Internal Server Error"
  else if status =? 503 then lit "Service Unavailable"
  else lit "Error".

Definition connection_option (keep_alive : bool) : list Z := if keep_alive then lit "keep-alive" else lit "close".

(** The headers that [send_fixed_response] sends. *)
Definition fixed_headers (status : Z) (body : list Z) (keep_alive : bool) (extra_headers : list Z) : list Z :=
  lit "HTTP/1.1 " ++ to_string status ++ lit " " ++ status_text status ++
  crlf ++ lit "Server: qwen3x-orin" ++ crlf ++ lit "Content-Type: application/json; charset=utf-8" ++
  crlf ++ lit "Content-Length: " ++ to_string (text_size body) ++
  crlf ++ lit "Connection: " ++ connection_option keep_alive ++ crlf ++ extra_headers ++ crlf.

Definition send_fixed_response (status : Z) (body : list Z) (keep_alive : bool) (extra_headers : list Z)
    : Connection -> bool * Connection :=
  and_then (send_all (fixed_headers status body keep_alive extra_headers)) (send_all body).

Definition sse_headers (keep_alive : bool) : list Z :=
  lit "HTTP/1.1 200 OK" ++ crlf ++ lit "Server: qwen3x-orin" ++ crlf ++
  lit "Content-Type: text/event-stream; charset=utf-8" ++ crlf ++ lit "Cache-Control: no-cache" ++ crlf ++
  lit "X-Accel-Buffering: no" ++ crlf ++ lit "Transfer-Encoding: chunked" ++ crlf ++ lit "Connection: " ++
  connection_option keep_alive ++ crlf ++ crlf.

Definition send_sse_headers (keep_alive : bool) : Connection -> bool * Connection := send_all (sse_headers keep_alive).

(** [std::hex]. *)
Fixpoint hex_digits (fuel : nat) (n : Z) : list Z :=
  match fuel with
  | O => []
  | S fuel => if n <? 16 then [kHex n] else hex_digits fuel (n / 16) ++ [kHex (n mod 16)]
  end.
Definition hex_number (n : Z) : list Z := hex_digits (S (Z.to_nat (Z.log2 n))) n.

Definition send_chunk (payload : list Z) : Connection -> bool * Connection :=
  and_then (send_all (hex_number (text_size payload) ++ crlf)) (and_then (send_all payload) (send_all crlf)).

Definition chunk_end : list Z := lit "0" ++ crlf ++ crlf.
Definition send_chunk_end : Connection -> bool * Connection := send_all chunk_end.

Definition sse_data (payload : list Z) : list Z := lit "data: " ++ payload ++ [10; 10].

(** The bytes of a chunk. *)
Definition chunk (payload : list Z) : list Z := hex_number (text_size payload) ++ crlf ++ payload ++ crlf.

(** ** The readers of a client *)

Definition read_line (text : list Z) : option (list Z * list Z) :=
  n ← index_of crlf text; Some (take n text, drop (n + 2) text).

(** The header fields, until the empty line. *)
Fixpoint read_fields (fuel : nat) (text : list Z) : option (list (list Z * list Z) * list Z) :=
  match fuel with
  | O => None
  | S fuel =>
      '(line, text) ← read_line text;
      if bool_decide (line = []) then Some ([], text) else
      n ← index_of [colon] line;
      '(fields, text) ← read_fields fuel text;
      Some ((lowercase (take n line), trim_ascii (drop (S n) line)) :: fields, text)
  end.

Fixpoint hexadecimal (v : Z) (text : list Z) : option Z :=
  match text with
  | [] => Some v
  | c :: text => if hex_value c <? 0 then None else hexadecimal (v * 16 + hex_value c) text
  end.

(** A chunked body, until the chunk of size zero. *)
Fixpoint read_chunks (fuel : nat) (text : list Z) : option (list Z * list Z) :=
  match fuel with
  | O => None
  | S fuel =>
      '(line, text) ← read_line text;
      if bool_decide (line = []) then None else
      n ← hexadecimal 0 line;
      let payload := take (Z.to_nat n) text in
      let text := drop (Z.to_nat n) text in
      if negb (bool_decide (take 2 text = crlf)) then None else
      if n =? 0 then Some ([], drop 2 text) else
      '(more, text) ← read_chunks fuel (drop 2 text);
      Some (payload ++ more, text)
  end.

Record Reply := { reply_status : Z; reply_fields : list (list Z * list Z); reply_body : list Z }.

(** One message, and the bytes after it. *)
Definition read_reply (text : list Z) : option (Reply * list Z) :=
  '(line, text) ← read_line text;
  if negb (starts_with (lit "HTTP/1.1 ") line) then None else
  n ← index_of [space] (drop 9 line);
  status ← parse_decimal_size (take n (drop 9 line));
  '(fields, text) ← read_fields (length text) text;
  '(body, text) ←
    match map_find (lit "transfer-encoding") fields with
    | Some _ => read_chunks (length text) text
    | None =>
        size ← map_find (lit "content-length") fields;
        n ← parse_decimal_size size;
        if text_size text <? n then None else Some (take (Z.to_nat n) text, drop (Z.to_nat n) text)
    end;
  Some ({| reply_status := status; reply_fields := fields; reply_body := body |}, text).

(** The events of a stream: the data of each, up to its empty line. *)
Fixpoint read_events (fuel : nat) (text : list Z) : option (list (list Z)) :=
  match fuel, text with
  | _, [] => Some []
  | O, _ => None
  | S fuel, _ =>
      if negb (starts_with (lit "data: ") text) then None else
      n ← index_of [10; 10] text;
      events ← read_events fuel (drop (n + 2) text);
      Some (drop 6 (take n text) :: events)
  end.

(** ** What sending does *)

(** The peer gets the bytes in order, all of them exactly when sending
    succeeds. *)
Definition sends (bytes : list Z) (m : Connection -> bool * Connection) : Prop :=
  forall c, exists part, sent (snd (m c)) = sent c ++ part /\ part `prefix_of` bytes /\
    (fst (m c) = true <-> part = bytes).

Lemma send_all_sends bytes : sends bytes (send_all bytes).
Proof.
  intros [answers_ sent_]. unfold send_all. cbn [answers sent]. revert bytes sent_.
  assert (Hstop : forall x (bytes : list Z) sent_ answers_, exists part,
    sent (snd (false, {| answers := answers_; sent := sent_ |})) = sent_ ++ part /\ part `prefix_of` (x :: bytes) /\
    (fst (false, {| answers := answers_; sent := sent_ |}) = true <-> part = x :: bytes)).
  { intros x bytes sent_ answers_'. exists []. cbn [fst snd sent]. rewrite app_nil_r. split_and!; [done|apply prefix_nil|done]. }
  induction answers_ as [|answer answers_ IH]; intros [|x bytes] sent_; cbn [send_loop].
  1,3: exists []; cbn [fst snd sent]; rewrite app_nil_r; split_and!; [done|apply prefix_nil|done].
  - apply Hstop.
  - destruct answer as [|count| | |]; [apply Hstop| | |apply IH|apply Hstop].
    2:{ exists (x :: bytes). by destruct answers_. }
    destruct (Z.ltb_spec 0 count); [|apply Hstop].
    set (k := Z.to_nat count). destruct (IH (drop k (x :: bytes)) (sent_ ++ take k (x :: bytes))) as (part & -> & Hpart & Hok).
    exists (take k (x :: bytes) ++ part). rewrite <- app_assoc. split; [done|]. split.
    + rewrite <- (take_drop k (x :: bytes)) at 2. by apply prefix_app.
    + rewrite Hok. rewrite <- (take_drop k (x :: bytes)) at 3. split; [by intros ->|]. by intros ?%app_inv_head.
Qed.

Lemma sends_then a b first second : sends a first -> sends b second -> sends (a ++ b) (and_then first second).
Proof.
  intros Ha Hb c. unfold and_then. destruct (Ha c) as (part & Hs & Hp & Hok). destruct (first c) as [ok c1] eqn:Hf.
  cbn [fst snd] in *. destruct ok.
  - destruct (Hb c1) as (part' & Hs' & Hp' & Hok'). rewrite (proj1 Hok eq_refl) in Hs. exists (a ++ part').
    rewrite Hs', Hs, <- app_assoc. split; [done|]. split; [by apply prefix_app|]. rewrite Hok'.
    split; [by intros ->|]. by intros ?%app_inv_head.
  - exists part. cbn [fst snd]. split; [done|]. split; [by apply prefix_app_r|]. split; [done|]. intros ->.
    apply Hok. destruct Hp as [k Hk]. rewrite <- app_assoc in Hk.
    rewrite <- (app_nil_r a) in Hk at 1. apply app_inv_head in Hk. symmetry in Hk. apply app_eq_nil in Hk as [-> ->].
    by rewrite app_nil_r.
Qed.

Lemma send_fixed_response_sends status body keep_alive extra :
  sends (fixed_headers status body keep_alive extra ++ body) (send_fixed_response status body keep_alive extra).
Proof. apply sends_then; apply send_all_sends. Qed.

Lemma send_chunk_sends payload : sends (chunk payload) (send_chunk payload).
Proof.
  unfold chunk. rewrite app_assoc. apply sends_then; [apply send_all_sends|]. apply sends_then; apply send_all_sends.
Qed.

(** ** Lines *)

(** A line without a carriage return holds no line end. *)
Definition clean (line : list Z) : bool := forallb (fun c => negb (c =? 13)) line.

Lemma clean_line line : clean line = true -> ~ occurs crlf line.
Proof.
  intros Hc (a & b & ->). unfold clean in Hc. rewrite !forallb_app in Hc. simpl in Hc. by rewrite andb_false_r in Hc.
Qed.

Lemma clean_app a b : clean (a ++ b) = clean a && clean b.
Proof. apply forallb_app. Qed.

Lemma clean_digits text : forallb is_decimal_digit text = true -> clean text = true.
Proof.
  unfold clean. rewrite !forallb_forall. intros H x Hx. specialize (H x Hx). apply digit_range in H.
  apply negb_true_iff, Z.eqb_neq. lia.
Qed.

Lemma clean_to_string n : 0 <= n -> clean (to_string n) = true.
Proof. intros Hn. destruct (to_string_digits n Hn) as [[_ Hd] _]. by apply clean_digits. Qed.

Lemma read_line_end line rest : clean line = true -> read_line (line ++ crlf ++ rest) = Some (line, rest).
Proof.
  intros Hc. unfold read_line. rewrite (index_of_line line rest (clean_line _ Hc)). cbn [mbind option_bind].
  rewrite take_app_length, drop_app_ge by lia. by replace (length line + 2 - length line)%nat with 2%nat by lia.
Qed.

(** ** Fields *)

Definition field_clean (field : list Z * list Z) : bool :=
  negb (bool_decide (fst field = [])) && forallb (fun c => negb (c =? colon)) (fst field) && clean (field_line field).

Definition field_lines (fields : list (list Z * list Z)) : list Z := mjoin ((fun field => field_line field ++ crlf) <$> fields).

Lemma field_lines_cons field fields : field_lines (field :: fields) = field_line field ++ crlf ++ field_lines fields.
Proof. unfold field_lines. cbn [fmap list_fmap]. simpl. by rewrite <- app_assoc. Qed.

Lemma field_lines_app fields fields' : field_lines (fields ++ fields') = field_lines fields ++ field_lines fields'.
Proof. unfold field_lines. by rewrite fmap_app, join_app. Qed.

Lemma field_clean_spec field : field_clean field = true -> fst field <> [] /\ (colon ∉ fst field) /\ clean (field_line field) = true.
Proof.
  unfold field_clean. rewrite !andb_true_iff, negb_true_iff, bool_decide_eq_false, forallb_forall. intros [[Hn Hc] Hl].
  split_and!; [done| |done]. intros Hin. apply list_elem_of_In in Hin. specialize (Hc _ Hin). done.
Qed.

Lemma read_fields_lines fields rest fuel :
  forallb field_clean fields = true -> (length fields < fuel)%nat ->
  read_fields fuel (field_lines fields ++ crlf ++ rest) = Some (header <$> fields, rest).
Proof.
  revert fuel. induction fields as [|field fields IH]; intros [|fuel] Hc Hf; simpl in Hf; [lia| |lia|].
  - cbn [read_fields]. change (field_lines [] ++ crlf ++ rest) with ([] ++ crlf ++ rest).
    rewrite (read_line_end []) by done. cbn [mbind option_bind]. done.
  - cbn [forallb] in Hc. apply andb_true_iff in Hc as [Hc Hcs]. apply field_clean_spec in Hc as (Hn & Hcol & Hline).
    cbn [read_fields]. rewrite field_lines_cons, <- !app_assoc, (read_line_end _ _ Hline). cbn [mbind option_bind].
    destruct (field_line_colon field Hn Hcol) as (n & Hi & Ht & Hd).
    rewrite bool_decide_false by (destruct field as [[|] ?]; done). rewrite Hi. cbn [mbind option_bind].
    rewrite IH by (done || lia). cbn [mbind option_bind]. rewrite Ht, Hd. done.
Qed.

(** ** Sizes in hexadecimal *)

Lemma hexadecimal_app v a b : hexadecimal v (a ++ b) = (v' ← hexadecimal v a; hexadecimal v' b).
Proof. revert v. induction a as [|c a IH]; intros v; [done|]. cbn [app hexadecimal]. by destruct (hex_value c <? 0). Qed.

Lemma hexadecimal_digit v d : 0 <= d < 16 -> hexadecimal v [kHex d] = Some (v * 16 + d).
Proof. intros Hd. cbn [hexadecimal]. rewrite hex_value_kHex by done. by rewrite (proj2 (Z.ltb_ge d 0)) by lia. Qed.

Lemma clean_kHex d : 0 <= d -> clean [kHex d] = true.
Proof. intros Hd. unfold clean, kHex. simpl. rewrite andb_true_r. apply negb_true_iff, Z.eqb_neq. case_match; bools; lia. Qed.

Lemma hex_digits_spec fuel n :
  0 <= n -> n < 16 ^ Z.of_nat fuel -> (0 < fuel)%nat ->
  hexadecimal 0 (hex_digits fuel n) = Some n /\ clean (hex_digits fuel n) = true /\ hex_digits fuel n <> [].
Proof.
  revert n. induction fuel as [|fuel IH]; intros n Hn Hf Hpos; [lia|]. cbn [hex_digits].
  destruct (Z.ltb_spec n 16); [split_and!; [by rewrite hexadecimal_digit by lia|by apply clean_kHex|done]|].
  pose proof (Z.mod_pos_bound n 16 ltac:(lia)). pose proof (Z.div_mod n 16 ltac:(lia)) as Hdiv.
  destruct fuel as [|fuel]; [simpl in Hf; lia|].
  destruct (IH (n / 16)) as (Hv & Hc & Hne).
  - lia.
  - rewrite Nat2Z.inj_succ, Z.pow_succ_r in Hf by lia. apply Z.div_lt_upper_bound; lia.
  - lia.
  - split_and!.
    + rewrite hexadecimal_app, Hv. cbn [mbind option_bind]. rewrite hexadecimal_digit by lia. f_equal. lia.
    + rewrite clean_app, Hc. apply clean_kHex. lia.
    + by destruct (hex_digits (S fuel) (n / 16)).
Qed.

Lemma hex_number_spec n :
  0 <= n -> hexadecimal 0 (hex_number n) = Some n /\ clean (hex_number n) = true /\ hex_number n <> [].
Proof.
  intros Hn. apply hex_digits_spec; [done| |lia]. eapply Z.lt_le_trans; [exact (log2_digits n Hn)|].
  apply Z.pow_le_mono_l. lia.
Qed.

(** ** Chunked bodies *)

Lemma text_size_nonneg text : 0 <= text_size text.
Proof. unfold text_size. lia. Qed.

Lemma read_chunk payload rest fuel :
  payload <> [] -> read_chunks (S fuel) (chunk payload ++ rest) =
  ('(more, text) ← read_chunks fuel rest; Some (payload ++ more, text)).
Proof.
  intros Hne. destruct (hex_number_spec (text_size payload) (text_size_nonneg _)) as (Hv & Hc & Hh).
  cbn [read_chunks]. unfold chunk. rewrite <- !app_assoc, (read_line_end _ _ Hc). cbn [mbind option_bind].
  rewrite bool_decide_false by done. rewrite Hv. cbn [mbind option_bind].
  unfold text_size. rewrite Nat2Z.id, take_app_length, drop_app_length.
  rewrite bool_decide_true by done. cbn [negb]. rewrite (proj2 (Z.eqb_neq (Z.of_nat (length payload)) 0)) by (destruct payload; simpl; [done|lia]).
  change (drop 2 (crlf ++ rest)) with (drop 0 rest). by rewrite drop_0.
Qed.

Lemma read_chunks_all payloads rest fuel :
  Forall (fun payload => payload <> []) payloads -> (length payloads < fuel)%nat ->
  read_chunks fuel (mjoin (chunk <$> payloads) ++ chunk_end ++ rest) = Some (mjoin payloads, rest).
Proof.
  revert fuel. induction payloads as [|payload payloads IH]; intros [|fuel] Hp Hf; simpl in Hf; [lia| |lia|].
  - cbn [read_chunks fmap list_fmap]. simpl app.
    change (read_line _) with (read_line ([48] ++ crlf ++ crlf ++ rest)).
    rewrite (read_line_end [48]) by done. cbn [mbind option_bind]. simpl. by rewrite drop_0.
  - apply Forall_cons in Hp as [Hne Hp]. cbn [fmap list_fmap].
    change (mjoin (chunk payload :: (chunk <$> payloads))) with (chunk payload ++ mjoin (chunk <$> payloads)).
    rewrite <- app_assoc, read_chunk, IH by (done || lia). done.
Qed.

Lemma chunk_length payload : (1 <= length (chunk payload))%nat.
Proof. unfold chunk. rewrite !length_app. simpl. lia. Qed.

Lemma chunks_length payloads : (length payloads <= length (mjoin (chunk <$> payloads)))%nat.
Proof.
  induction payloads as [|payload payloads IH]; [done|]. cbn [fmap list_fmap].
  change (mjoin (chunk payload :: (chunk <$> payloads))) with (chunk payload ++ mjoin (chunk <$> payloads)).
  rewrite length_app. pose proof (chunk_length payload). simpl. lia.
Qed.

(** ** Messages *)

(** The status lines the server sends. *)
Definition known_status (status : Z) : Prop := 100 <= status < 1000.

Lemma clean_status_text status : clean (status_text status) = true.
Proof. unfold status_text. repeat case_match; vm_compute; reflexivity. Qed.

Definition status_line (status : Z) : list Z := lit "HTTP/1.1 " ++ to_string status ++ lit " " ++ status_text status.

Lemma clean_status_line status : 0 <= status -> clean (status_line status) = true.
Proof. intros Hs. unfold status_line. rewrite !clean_app, clean_to_string, clean_status_text by done. done. Qed.

Lemma read_status status :
  known_status status -> exists n, index_of [space] (drop 9 (status_line status)) = Some n /\
    parse_decimal_size (take n (drop 9 (status_line status))) = Some status.
Proof.
  intros Hs. unfold known_status in Hs. destruct (to_string_digits status ltac:(lia)) as ([Hne Hd] & Hv & _).
  exists (length (to_string status)). unfold status_line.
  change (drop 9 (lit "HTTP/1.1 " ++ to_string status ++ lit " " ++ status_text status)) with
    (to_string status ++ lit " " ++ status_text status).
  assert (Hnot : space ∉ to_string status).
  { intros Hin. apply list_elem_of_In in Hin. rewrite forallb_forall in Hd. specialize (Hd _ Hin). apply digit_range in Hd. unfold space in Hd. lia. }
  change (lit " " ++ status_text status) with (space :: status_text status).
  rewrite (index_of_byte space (to_string status)) by done. split; [done|]. rewrite take_app_length.
  apply parse_decimal_size_exact. split_and!; [by split|done|]. unfold u64_max. lia.
Qed.

(** The status and the fields, once the rest of the message is known. *)
Lemma read_reply_fields status fields text body rest :
  known_status status -> forallb field_clean fields = true ->
  match map_find (lit "transfer-encoding") (header <$> fields) with
  | Some _ => read_chunks (length text) text
  | None =>
      size ← map_find (lit "content-length") (header <$> fields);
      n ← parse_decimal_size size;
      if text_size text <? n then None else Some (take (Z.to_nat n) text, drop (Z.to_nat n) text)
  end = Some (body, rest) ->
  read_reply (status_line status ++ crlf ++ field_lines fields ++ crlf ++ text) =
  Some ({| reply_status := status; reply_fields := header <$> fields; reply_body := body |}, rest).
Proof.
  intros Hs Hf Hbody. unfold read_reply. rewrite read_line_end by (apply clean_status_line; unfold known_status in Hs; lia).
  cbn [mbind option_bind]. change (starts_with (lit "HTTP/1.1 ") (status_line status)) with true. cbn [negb].
  destruct (read_status status Hs) as (n & Hn & Hst). rewrite Hn. cbn [mbind option_bind]. rewrite Hst. cbn [mbind option_bind].
  rewrite read_fields_lines; [|done|].
  - cbn [mbind option_bind]. rewrite Hbody. done.
  - rewrite !length_app. simpl. assert (length fields <= length (field_lines fields))%nat; [|lia].
    clear. induction fields as [|field fields IH]; [done|]. rewrite field_lines_cons, !length_app. simpl. lia.
Qed.

Definition fixed_fields (body : list Z) (keep_alive : bool) (extra : list (list Z * list Z)) : list (list Z * list Z) :=
  [(lit "Server", lit " qwen3x-orin"); (lit "Content-Type", lit " application/json; charset=utf-8");
   (lit "Content-Length", lit " " ++ to_string (text_size body)); (lit "Connection", lit " " ++ connection_option keep_alive)]
  ++ extra.

Definition sse_fields (keep_alive : bool) : list (list Z * list Z) :=
  [(lit "Server", lit " qwen3x-orin"); (lit "Content-Type", lit " text/event-stream; charset=utf-8");
   (lit "Cache-Control", lit " no-cache"); (lit "X-Accel-Buffering", lit " no");
   (lit "Transfer-Encoding", lit " chunked"); (lit "Connection", lit " " ++ connection_option keep_alive)].

Lemma fixed_headers_lines status body keep_alive extra :
  fixed_headers status body keep_alive (field_lines extra) =
  status_line status ++ crlf ++ field_lines (fixed_fields body keep_alive extra) ++ crlf.
Proof.
  unfold fixed_headers, fixed_fields, status_line. rewrite field_lines_app, !field_lines_cons.
  unfold field_line. cbn [fst snd]. change (field_lines []) with ([] : list Z). rewrite <- !app_assoc. reflexivity.
Qed.

Lemma sse_headers_lines keep_alive :
  sse_headers keep_alive = status_line 200 ++ crlf ++ field_lines (sse_fields keep_alive) ++ crlf.
Proof. by destruct keep_alive. Qed.

(** Trimming what the server puts after a field's colon. *)
Lemma trim_space text : (forall c, c ∈ text -> is_blank c = false) -> trim_ascii (32 :: text) = text.
Proof.
  intros H. unfold trim_ascii. cbn [remove_blanks]. change (is_blank 32) with true. cbv iota.
  assert (Hk : forall l, (forall c, c ∈ l -> is_blank c = false) -> remove_blanks l = l).
  { intros [|c l] Hl; [done|]. cbn [remove_blanks]. by rewrite (Hl c) by left. }
  rewrite (Hk text H), (Hk (reverse text)); [apply reverse_involutive|]. intros c Hc. apply H. exact (proj1 (elem_of_reverse c text) Hc).
Qed.

Lemma trim_to_string n : 0 <= n -> trim_ascii (lit " " ++ to_string n) = to_string n.
Proof.
  intros Hn. apply trim_space. intros c Hc. destruct (to_string_digits n Hn) as [[_ Hd] _].
  apply list_elem_of_In in Hc. rewrite forallb_forall in Hd. specialize (Hd _ Hc). apply digit_range in Hd.
  unfold is_blank. rewrite (proj2 (Z.eqb_neq c 32)), (proj2 (Z.eqb_neq c 9)) by lia. done.
Qed.

Lemma map_find_app {A} key (a b : list (list Z * A)) :
  map_find key (a ++ b) = match map_find key a with Some v => Some v | None => map_find key b end.
Proof. induction a as [|[k v] a IH]; [done|]. cbn [app map_find]. by case_bool_decide. Qed.

(** Fields that may follow those of a fixed response. *)
Definition extra_ok (extra : list (list Z * list Z)) : bool :=
  forallb field_clean extra && bool_decide (map_find (lit "transfer-encoding") (header <$> extra) = None).

Lemma read_fixed_response status body keep_alive extra rest :
  known_status status -> extra_ok extra = true -> text_size body <= u64_max ->
  read_reply (fixed_headers status body keep_alive (field_lines extra) ++ body ++ rest) =
  Some ({| reply_status := status; reply_fields := header <$> fixed_fields body keep_alive extra; reply_body := body |}, rest).
Proof.
  intros Hs He Hsize. apply andb_true_iff in He as [He Ht]. apply bool_decide_eq_true in Ht.
  pose proof (text_size_nonneg body) as Hnn. rewrite fixed_headers_lines, <- !app_assoc. apply read_reply_fields; [done| |].
  - unfold fixed_fields. cbn [app forallb]. rewrite He, andb_true_r.
    assert (Hl : field_clean (lit "Content-Length", lit " " ++ to_string (text_size body)) = true).
    { unfold field_clean. change (field_line (lit "Content-Length", lit " " ++ to_string (text_size body))) with
        (lit "Content-Length: " ++ to_string (text_size body)). rewrite clean_app, clean_to_string by done. done. }
    rewrite Hl. by destruct keep_alive.
  - unfold fixed_fields. rewrite fmap_app, !map_find_app. rewrite Ht.
    match goal with |- context [map_find (lit "transfer-encoding") ?l] => assert (map_find (lit "transfer-encoding") l = None) as -> end. { reflexivity. } cbv iota.
    replace (map_find (lit "content-length") _) with (Some (trim_ascii (lit " " ++ to_string (text_size body)))) by done.
    cbn [mbind option_bind]. rewrite trim_to_string by done.
    rewrite (proj2 (parse_decimal_size_exact (to_string (text_size body)) (text_size body))).
    + cbn [mbind option_bind]. unfold text_size. rewrite length_app.
      rewrite (proj2 (Z.ltb_ge (Z.of_nat (length body + length rest)) (Z.of_nat (length body)))) by lia. rewrite Nat2Z.id, take_app_length, drop_app_length. done.
    + destruct (to_string_digits (text_size body) Hnn) as (Hd & Hv & _). by split_and!.
Qed.

Lemma read_sse_response keep_alive payloads rest :
  Forall (fun payload => payload <> []) payloads ->
  read_reply (sse_headers keep_alive ++ mjoin (chunk <$> payloads) ++ chunk_end ++ rest) =
  Some ({| reply_status := 200; reply_fields := header <$> sse_fields keep_alive; reply_body := mjoin payloads |}, rest).
Proof.
  intros Hp. rewrite sse_headers_lines, <- !app_assoc. apply read_reply_fields; [unfold known_status; lia|by destruct keep_alive|].
  replace (map_find (lit "transfer-encoding") _) with (Some (lit "chunked")) by (by destruct keep_alive). cbv iota.
  apply read_chunks_all; [done|]. rewrite !length_app. pose proof (chunks_length payloads). simpl. lia.
Qed.

(** ** Events *)

(** The text of an event has no line end: control characters are escaped. *)
Definition one_line (payload : list Z) : Prop := Forall (fun b => 0x20 <= b) payload.

Lemma sse_data_nonempty payload : sse_data payload <> [].
Proof. done. Qed.

Lemma index_of_end payload rest : one_line payload -> index_of [10; 10] (lit "data: " ++ payload ++ [10; 10] ++ rest) = Some (6 + length payload)%nat.
Proof.
  intros Hp. rewrite app_assoc. replace (6 + length payload)%nat with (length (lit "data: " ++ payload)) by (by rewrite length_app).
  apply index_of_exact; [done|]. change (take (length [10; 10] - 1) [10; 10]) with [10].
  assert (Hno : 10 ∉ (lit "data: " ++ payload)).
  { rewrite elem_of_app. intros [H|H]; [by vm_compute in H; repeat (apply elem_of_cons in H as [H|H]; [discriminate|]); apply not_elem_of_nil in H|].
    unfold one_line in Hp. rewrite Forall_forall in Hp. specialize (Hp _ H). lia. }
  intros (a & b & Hab). destruct b as [|x b _] using rev_ind.
  - rewrite app_nil_r in Hab. change [10; 10] with ([10] ++ [10]) in Hab. rewrite app_assoc in Hab.
    apply app_inj_tail in Hab as [Hab _]. apply Hno. rewrite Hab. apply elem_of_app. right. by left.
  - rewrite !app_assoc in Hab. apply app_inj_tail in Hab as [Hab _]. apply Hno. rewrite Hab.
    apply elem_of_app. left. apply elem_of_app. right. by left.
Qed.

Lemma read_events_all payloads fuel :
  Forall one_line payloads -> (length payloads <= fuel)%nat ->
  read_events fuel (mjoin (sse_data <$> payloads)) = Some payloads.
Proof.
  revert fuel. induction payloads as [|payload payloads IH]; intros fuel Hp Hf; [by destruct fuel|].
  destruct fuel as [|fuel]; [simpl in Hf; lia|]. apply Forall_cons in Hp as [H1 Hp].
  change (mjoin (sse_data <$> payload :: payloads)) with (sse_data payload ++ mjoin (sse_data <$> payloads)).
  set (more := mjoin (sse_data <$> payloads)) in *. unfold sse_data. rewrite <- !app_assoc.
  cbn [read_events]. destruct (lit "data: " ++ payload ++ [10; 10] ++ more) as [|first text] eqn:Htext; [done|]. rewrite <- Htext. clear Htext.
  rewrite (proj2 (starts_with_prefix (lit "data: ") (lit "data: " ++ payload ++ [10; 10] ++ more))) by (by eexists). cbn [negb].
  rewrite index_of_end by done. cbn [mbind option_bind].
  replace (drop (6 + length payload + 2) (lit "data: " ++ payload ++ [10; 10]%Z ++ more)) with more.
  2:{ rewrite !app_assoc. rewrite drop_app_ge by (rewrite !length_app; simpl; lia).
      replace (6 + length payload + 2 - length ((lit "data: " ++ payload) ++ [10; 10]%Z))%nat with 0%nat by (rewrite !length_app; simpl; lia).
      by rewrite drop_0. }
  rewrite IH by (done || (simpl in Hf; lia)). cbn [mbind option_bind]. do 2 f_equal.
  rewrite app_assoc. rewrite take_app_le by (rewrite length_app; simpl; lia).
  rewrite take_ge by (rewrite length_app; simpl; lia). done.
Qed.
