(* ===== verification/Job.v ===== *)
(** * Job: the hand-over between the inference worker and a connection
      (src/src/server/evaluation_server.cpp: BoundedQueue, InferenceJob,
      publish_job_error, wait_for_response, wait_for_stream_start,
      stream_response and the end of handle_connection)

    A request that was admitted is shared by two threads: the inference worker,
    which publishes events or a response, and the ingress thread, which waits
    and writes them to the connection.  Their interleaving is explicit.  The
    ingress thread is a state machine that runs from one wait to the next; a
    schedule says what it, and whoever stops the server, do between the
    operations of the worker.  Sections under the job's mutex are single steps;
    the two flags that are read without it are read in steps of their own. *)

From Stdlib Require Import String.
From S2P Require Import Prelude OrderedMap Json OpenAI Http HttpOutput.

(** ** Bounded queues *)

Record BoundedQueue (T : Type) := { capacity : Z; queue : list T; closed : bool }.
Arguments capacity {T}.
Arguments queue {T}.
Arguments closed {T}.

Definition empty_queue {T} (capacity : Z) : BoundedQueue T := {| capacity := capacity; queue := []; closed := false |}.

Definition try_push {T} (value : T) (q : BoundedQueue T) : bool * BoundedQueue T :=
  if closed q || (capacity q <=? Z.of_nat (length (queue q))) then (false, q) else
  (true, {| capacity := capacity q; queue := queue q ++ [value]; closed := closed q |}).

(** What [pop] does when it is woken up: it goes on waiting, ends, or takes the
    oldest value. *)
Inductive Popped (T : Type) := StillWaiting | NoMore | Took (value : T).
Arguments StillWaiting {T}.
Arguments NoMore {T}.
Arguments Took {T}.

Definition pop {T} (q : BoundedQueue T) : Popped T * BoundedQueue T :=
  match queue q with
  | value :: rest => (Took value, {| capacity := capacity q; queue := rest; closed := closed q |})
  | [] => (if closed q then NoMore else StillWaiting, q)
  end.

Definition close {T} (q : BoundedQueue T) : BoundedQueue T :=
  {| capacity := capacity q; queue := queue q; closed := true |}.

(** ** Jobs *)

Inductive StreamStartState := kPending | kSuccess | kEarlyError.

#[global] Instance StreamStartState_eq_dec : EqDecision StreamStartState.
Proof. solve_decision. Defined.

Record InferenceJob := {
  job_request : OpenAIRequest;
  job_id : list Z;
  job_created : Z;
  event_capacity : Z;
  cancelled : bool;
  events : list (list Z);
  event_stream_closed : bool;
  stream_start : StreamStartState;
  response_ready : bool;
  response_status : Z;
  response_body : list Z
}.

Definition new_job (request : OpenAIRequest) (id : list Z) (created event_capacity : Z) : InferenceJob := {|
  job_request := request; job_id := id; job_created := created; event_capacity := event_capacity;
  cancelled := false; events := []; event_stream_closed := false; stream_start := kPending;
  response_ready := false; response_status := 500; response_body := []
|}.

Definition with_cancelled (job : InferenceJob) : InferenceJob := {|
  job_request := job_request job; job_id := job_id job; job_created := job_created job;
  event_capacity := event_capacity job; cancelled := true; events := events job;
  event_stream_closed := event_stream_closed job; stream_start := stream_start job;
  response_ready := response_ready job; response_status := response_status job; response_body := response_body job
|}.

Definition with_events (l : list (list Z)) (start : StreamStartState) (job : InferenceJob) : InferenceJob := {|
  job_request := job_request job; job_id := job_id job; job_created := job_created job;
  event_capacity := event_capacity job; cancelled := cancelled job; events := l;
  event_stream_closed := event_stream_closed job; stream_start := start;
  response_ready := response_ready job; response_status := response_status job; response_body := response_body job
|}.

Definition with_closed (job : InferenceJob) : InferenceJob := {|
  job_request := job_request job; job_id := job_id job; job_created := job_created job;
  event_capacity := event_capacity job; cancelled := cancelled job; events := events job;
  event_stream_closed := true; stream_start := stream_start job;
  response_ready := response_ready job; response_status := response_status job; response_body := response_body job
|}.

Definition with_response (status : Z) (text : list Z) (job : InferenceJob) : InferenceJob := {|
  job_request := job_request job; job_id := job_id job; job_created := job_created job;
  event_capacity := event_capacity job; cancelled := cancelled job; events := events job;
  event_stream_closed := event_stream_closed job; stream_start := stream_start job;
  response_ready := true; response_status := status; response_body := text
|}.

(** ** The ingress thread *)

(** Where [handle_connection] is, once the job is queued.  [waited] says that
    the thread has been woken from a wait and looks whether to give up before
    it looks at the job again. *)
Inductive Thread :=
  | StartWait (waited : bool)
  | StreamHeaders
  | EventWait (waited : bool)
  | SendEvent (event : list Z)
  | SendEnd
  | EarlyError (status : Z) (text : list Z)
  | ResponseWait (waited : bool)
  | SendResponse (status : Z) (text : list Z)
  | Returned.

(** A request that was admitted: the job, the threads around it, and what is
    still to happen. *)
Inductive Turn :=
  | Resume (disconnected : bool)
  | Stop.

Record Shared := {
  job : InferenceJob;
  stopping : bool;
  thread : Thread;
  connection : Connection;
  schedule : list (list Turn)
}.

Definition with_job (j : InferenceJob) (s : Shared) : Shared := {|
  job := j; stopping := stopping s; thread := thread s; connection := connection s; schedule := schedule s
|}.
Definition with_thread (t : Thread) (s : Shared) : Shared := {|
  job := job s; stopping := stopping s; thread := t; connection := connection s; schedule := schedule s
|}.
Definition with_connection (c : Connection) (s : Shared) : Shared := {|
  job := job s; stopping := stopping s; thread := thread s; connection := c; schedule := schedule s
|}.
Definition with_stopping (s : Shared) : Shared := {|
  job := job s; stopping := true; thread := thread s; connection := connection s; schedule := schedule s
|}.
Definition with_schedule (l : list (list Turn)) (s : Shared) : Shared := {|
  job := job s; stopping := stopping s; thread := thread s; connection := connection s; schedule := l
|}.

(** Setting [cancelled] and returning. *)
Definition abandon (s : Shared) : Shared := with_thread Returned (with_job (with_cancelled (job s)) s).

(** Write [send]'s bytes, then go on as its result says. *)
Definition transmit (send : Connection -> bool * Connection) (sent_ failed : Shared -> Shared) (s : Shared) : Shared :=
  let '(ok, c) := send (connection s) in (if ok then sent_ else failed) (with_connection c s).

(** Only one request is served on a connection, so it is always closed. *)
Definition kMaximumRequestsPerConnection : Z := 1.
Definition final_connection_request (keep_alive : bool) (request_count : Z) : bool :=
  negb keep_alive || (request_count + 1 =? kMaximumRequestsPerConnection).

(** The next section of the thread; [disconnected] is what [peer_disconnected]
    answers. *)
Definition resume (disconnected : bool) (s : Shared) : Shared :=
  let j := job s in
  match thread s with
  | StartWait waited =>
      if waited && (cancelled j || stopping s || disconnected) then abandon s
      else if bool_decide (stream_start j = kPending) && negb (event_stream_closed j) then with_thread (StartWait true) s
      else if bool_decide (stream_start j = kSuccess) then with_thread StreamHeaders s
      else if negb (bool_decide (stream_start j = kEarlyError)) || negb (response_ready j) then with_thread Returned s
      else with_thread (EarlyError (response_status j) (response_body j)) s
  | StreamHeaders => transmit (send_sse_headers false) (with_thread (EventWait false)) abandon s
  | EventWait waited =>
      if waited && (stopping s || disconnected) then abandon s
      else match events j with
           | [] => if event_stream_closed j then with_thread SendEnd s else with_thread (EventWait true) s
           | event :: rest => with_thread (SendEvent event) (with_job (with_events rest (stream_start j) j) s)
           end
  | SendEvent event => transmit (send_chunk event) (with_thread (EventWait false)) abandon s
  | SendEnd => transmit send_chunk_end abandon abandon s
  | EarlyError status text => transmit (send_fixed_response status text false []) abandon abandon s
  | ResponseWait waited =>
      if waited && (cancelled j || stopping s || disconnected) then abandon s
      else if negb (response_ready j) then with_thread (ResponseWait true) s
      else with_thread (SendResponse (response_status j) (response_body j)) s
  | SendResponse status text =>
      transmit (send_fixed_response status text false []) (with_thread Returned) (with_thread Returned) s
  | Returned => s
  end.

Definition turn (t : Turn) (s : Shared) : Shared :=
  match t with Resume disconnected => resume disconnected s | Stop => with_stopping s end.

(** What happens before the next operation of the worker. *)
Definition yield (s : Shared) : Shared :=
  match schedule s with
  | [] => s
  | turns :: rest => foldl (fun s t => turn t s) (with_schedule rest s) turns
  end.

(** ** The operations of the worker

    Each lets the other threads run first. *)

Definition load_cancelled (s : Shared) : bool * Shared := let s := yield s in (cancelled (job s), s).
Definition load_stopping (s : Shared) : bool * Shared := let s := yield s in (stopping s, s).
(** [cancelled.load() || stopping.load()]. *)
Definition load_either (s : Shared) : bool * Shared :=
  let '(c, s) := load_cancelled s in if c then (true, s) else load_stopping s.
Definition set_cancelled (s : Shared) : Shared := let s := yield s in with_job (with_cancelled (job s)) s.

(** One round of the loop in [push_event]: [None] when it waits. *)
Definition push_round (event : list Z) (s : Shared) : option bool * Shared :=
  let j := job s in
  if negb (cancelled j) && negb (stopping s) && (event_capacity j <=? Z.of_nat (length (events j))) then (None, s)
  else if cancelled j || stopping s || event_stream_closed j then (Some false, s)
  else (Some true, with_job (with_events (events j ++ [event])
                               (if bool_decide (stream_start j = kPending) then kSuccess else stream_start j) j) s).

(** The loop; when nothing more is scheduled the server is stopped. *)
Fixpoint push_loop (n : nat) (event : list Z) (s : Shared) : bool * Shared :=
  match push_round event s with
  | (Some pushed, s) => (pushed, s)
  | (None, s) => match n with O => (false, with_stopping s) | S n => push_loop n event (yield s) end
  end.

Definition push_event (event : list Z) (s : Shared) : bool * Shared :=
  let s := yield s in push_loop (length (schedule s)) event s.

Definition close_events (s : Shared) : Shared := let s := yield s in with_job (with_closed (job s)) s.

Definition set_response (status : Z) (text : list Z) (s : Shared) : Shared :=
  let s := yield s in with_job (with_response status text (job s)) s.

(** The section of [publish_job_error] under the mutex: an error before the
    first event becomes the response. *)
Definition early_error (status : Z) (text : list Z) (s : Shared) : bool * Shared :=
  let s := yield s in
  let j := job s in
  if bool_decide (stream_start j = kPending)
  then (true, with_job (with_closed (with_response status text (with_events (events j) kEarlyError j))) s)
  else (false, s).

Definition publish_job_error (error : OpenAIProtocolError) (s : Shared) : Shared :=
  let text := serialize_openai_error error in
  if stream (job_request (job s)) then
    let '(early, s) := early_error (http_status error) text s in
    if early then s else
    let '(c, s) := load_cancelled s in
    let s := if c then s else snd (push_event (sse_data text) s) in
    close_events s
  else set_response (http_status error) text s.

(** ** What the client is sent

    [pushed] are the events the worker has pushed and [answer] is the response
    it has set. *)

Definition stream_text (l : list (list Z)) : list Z := sse_headers false ++ mjoin (chunk <$> l).
Definition response_text (status : Z) (text : list Z) : list Z := fixed_headers status text false [] ++ text.

Record History := { pushed : list (list Z); answer : option (Z * list Z) }.

(** What has been sent when the thread has returned: some prefix of the one
    reply there is. *)
Inductive replied (h : History) (closed_ : bool) (text : list Z) : Prop :=
  | replied_nothing : text = [] -> replied h closed_ text
  | replied_stream : pushed h <> [] -> text `prefix_of` stream_text (pushed h) -> replied h closed_ text
  | replied_end : pushed h <> [] -> closed_ = true -> text `prefix_of` stream_text (pushed h) ++ chunk_end -> replied h closed_ text
  | replied_response status body : answer h = Some (status, body) -> text `prefix_of` response_text status body -> replied h closed_ text.

(** Where the thread is, [popped] being the events it has taken. *)
Definition stream_wire (h : History) (popped : list (list Z)) (s : Shared) : Prop :=
  let text := sent (connection s) in
  match thread s with
  | StartWait _ => popped = [] /\ text = []
  | StreamHeaders => popped = [] /\ text = [] /\ pushed h <> []
  | EventWait _ => text = stream_text popped /\ pushed h <> []
  | SendEvent event => exists before, popped = before ++ [event] /\ text = stream_text before /\ pushed h <> []
  | SendEnd => text = stream_text popped /\ events (job s) = [] /\ event_stream_closed (job s) = true /\ pushed h <> []
  | EarlyError status body => text = [] /\ answer h = Some (status, body)
  | ResponseWait _ | SendResponse _ _ => False
  | Returned => (cancelled (job s) = true \/ event_stream_closed (job s) = true) /\ replied h (event_stream_closed (job s)) text
  end.

Definition response_wire (h : History) (s : Shared) : Prop :=
  let text := sent (connection s) in
  match thread s with
  | ResponseWait _ => text = []
  | SendResponse status body => text = [] /\ answer h = Some (status, body)
  | Returned => (cancelled (job s) = true \/ response_ready (job s) = true) /\ replied h (event_stream_closed (job s)) text
  | _ => False
  end.

(** How far the stream has come. *)
Definition stream_state (h : History) (j : InferenceJob) : Prop :=
  match stream_start j with
  | kPending => pushed h = [] /\ answer h = None
  | kSuccess => pushed h <> [] /\ answer h = None
  | kEarlyError => pushed h = [] /\ answer h <> None /\ event_stream_closed j = true
  end.

Record consistent (h : History) (s : Shared) : Prop := {
  consistent_room : Z.of_nat (length (events (job s))) <= event_capacity (job s);
  consistent_answer : answer h = if response_ready (job s) then Some (response_status (job s), response_body (job s)) else None;
  consistent_wire : if stream (job_request (job s))
    then stream_state h (job s) /\ exists popped, pushed h = popped ++ events (job s) /\ stream_wire h popped s
    else pushed h = [] /\ events (job s) = [] /\ stream_start (job s) = kPending /\ response_wire h s
}.

(** The flags of a job and of the server are never taken back, the request
    stays the same. *)
Record later (s s' : Shared) : Prop := {
  later_request : job_request (job s') = job_request (job s) /\ job_id (job s') = job_id (job s) /\
    job_created (job s') = job_created (job s) /\ event_capacity (job s') = event_capacity (job s);
  later_cancelled : cancelled (job s) = true -> cancelled (job s') = true;
  later_stopping : stopping s = true -> stopping s' = true;
  later_closed : event_stream_closed (job s) = true -> event_stream_closed (job s') = true
}.

#[global] Instance later_preorder : PreOrder later.
Proof.
  split; [by intros s; split|]. intros s1 s2 s3 [(?&?&?&?) ? ? ?] [(?&?&?&?) ? ? ?].
  split; [split_and!; congruence|auto..].
Qed.

(** ** Consistency is preserved *)

Lemma later_with_thread t s : later s (with_thread t s).
Proof. by split. Qed.

Lemma later_with_connection c s : later s (with_connection c s).
Proof. by split. Qed.

Lemma later_give_up s : later s (abandon s).
Proof. by split. Qed.

Lemma transmit_spec send bytes sent_ failed s (P : Shared -> Prop) :
  sends bytes send ->
  (forall c, sent c = sent (connection s) ++ bytes -> P (sent_ (with_connection c s))) ->
  (forall c part, sent c = sent (connection s) ++ part -> part `prefix_of` bytes -> P (failed (with_connection c s))) ->
  P (transmit send sent_ failed s).
Proof.
  intros Hs Hok Hno. unfold transmit. destruct (Hs (connection s)) as (part & Hp & Hpre & Hres).
  destruct (send (connection s)) as [[|] c]; cbn [fst snd] in *.
  - apply Hok. by rewrite Hp, (proj1 Hres eq_refl).
  - by apply (Hno c part).
Qed.

Lemma resume_later d s : later s (resume d s).
Proof.
  assert (Ht : forall send k1 k2, (forall x, later x (k1 x)) -> (forall x, later x (k2 x)) -> later s (transmit send k1 k2 s)).
  { intros send k1 k2 H1 H2. unfold transmit. destruct (send (connection s)) as [[|] c];
      (etransitivity; [apply (later_with_connection c)|by auto]). }
  unfold resume. cbv zeta. destruct (thread s) as [w| |w|e| |st tx|w|st tx|];
    repeat case_match; try (apply Ht; intros; (apply later_with_thread || apply later_give_up));
    try apply later_with_thread; try apply later_give_up; try reflexivity.
  by split.
Qed.

Lemma stream_text_snoc l event : stream_text (l ++ [event]) = stream_text l ++ chunk event.
Proof. unfold stream_text. rewrite fmap_app, join_app, <- app_assoc. simpl. by rewrite app_nil_r. Qed.

Lemma stream_text_nil : stream_text [] = sse_headers false.
Proof. apply app_nil_r. Qed.

Lemma stream_text_prefix a b : stream_text a `prefix_of` stream_text (a ++ b).
Proof. unfold stream_text. rewrite fmap_app, join_app, app_assoc. by apply prefix_app_r. Qed.

(** The parts of [consistent] for a stream, in one place. *)
Lemma consistent_stream h s :
  stream (job_request (job s)) = true ->
  consistent h s <->
  Z.of_nat (length (events (job s))) <= event_capacity (job s) /\
  answer h = (if response_ready (job s) then Some (response_status (job s), response_body (job s)) else None) /\
  stream_state h (job s) /\ exists popped, pushed h = popped ++ events (job s) /\ stream_wire h popped s.
Proof.
  intros Hs. split.
  - intros [H1 H2 H3]. rewrite Hs in H3. destruct H3 as (H3 & H4). by split_and!.
  - intros (H1 & H2 & H3 & H4). split; [done|done|]. rewrite Hs. by split.
Qed.

Lemma consistent_response h s :
  stream (job_request (job s)) = false ->
  consistent h s <->
  Z.of_nat (length (events (job s))) <= event_capacity (job s) /\
  answer h = (if response_ready (job s) then Some (response_status (job s), response_body (job s)) else None) /\
  pushed h = [] /\ events (job s) = [] /\ stream_start (job s) = kPending /\ response_wire h s.
Proof.
  intros Hs. split.
  - intros [H1 H2 H3]. rewrite Hs in H3. destruct H3 as (H3 & H4 & H5 & H6). by split_and!.
  - intros (H1 & H2 & H3 & H4 & H5 & H6). split; [done|done|]. rewrite Hs. by split_and!.
Qed.

Lemma resume_stream h d s :
  stream (job_request (job s)) = true -> consistent h s -> consistent h (resume d s).
Proof.
  intros Hs Hc. pose proof Hc as (Hroom & Ha & Hst & popped & Hp & Hw)%consistent_stream; [|done].
  assert (Hgo : forall s', job s' = job s -> stream_wire h popped s' -> consistent h s').
  { intros s' Hj Hw'. apply consistent_stream; rewrite Hj; [done|]. split_and!; [done..|]. by exists popped. }
  assert (Hup : forall c, replied h (event_stream_closed (job s)) (sent c) -> consistent h (abandon (with_connection c s))).
  { intros c Hrep. apply consistent_stream; cbn [abandon with_thread with_job with_connection job with_cancelled job_request events event_capacity response_ready response_status response_body]; [done|].
    split_and!; [done|done|by unfold stream_state in *|]. exists popped. split; [done|]. unfold stream_wire. cbn [thread connection job events event_stream_closed cancelled with_thread with_connection with_job with_cancelled with_events abandon]. split; [by left|done]. }
  assert (Hup' : replied h (event_stream_closed (job s)) (sent (connection s)) -> consistent h (abandon s)).
  { intros Hrep. specialize (Hup (connection s) Hrep). by destruct s. }
  unfold resume. cbv zeta. unfold stream_wire in Hw. unfold stream_state in Hst. destruct (thread s) as [w| |w|e| |st tx|w|st tx|] eqn:Ht; try done.
  - destruct Hw as [-> Hsent]. destruct (w && _) eqn:Hw.
    { apply Hup'. by apply replied_nothing. }
    case_bool_decide as Hpend; simpl andb; [destruct (event_stream_closed (job s)) eqn:Hcl; simpl negb|].
    + rewrite bool_decide_false by congruence. rewrite bool_decide_false by congruence. simpl orb.
      apply Hgo; [done|]. split; [by right|]. by apply replied_nothing.
    + apply Hgo; [done|]. by split.
    + case_bool_decide as Hsucc.
      * rewrite Hsucc in Hst. apply Hgo; [done|]. by destruct Hst.
      * destruct (stream_start (job s)) eqn:Hss; try done. rewrite bool_decide_true by done. simpl orb.
        destruct Hst as (Hnil & Hsome & Hcl). destruct (response_ready (job s)) eqn:Hr; [|done]. simpl negb.
        apply Hgo; [done|]. unfold stream_wire. by cbn.
  - destruct Hw as (-> & Hsent & Hne). apply (transmit_spec _ (sse_headers false)); [apply send_all_sends| |].
    + intros c Hcs. apply Hgo; [done|]. unfold stream_wire. cbn [thread connection with_thread with_connection]. by rewrite Hcs, Hsent, stream_text_nil.
    + intros c part Hcs Hpart. apply Hup. apply replied_stream; [done|]. rewrite Hcs, Hsent, app_nil_l.
      unfold stream_text. by apply prefix_app_r.
  - destruct Hw as (Hsent & Hne). destruct (w && _) eqn:Hw.
    { apply Hup'. apply replied_stream; [done|]. rewrite Hsent, Hp. apply stream_text_prefix. }
    destruct (events (job s)) as [|event rest] eqn:Hev.
    + destruct (event_stream_closed (job s)) eqn:Hcl; (apply Hgo; [done|]); unfold stream_wire; cbn [thread connection with_thread]; by rewrite ?Hev, ?Hcl.
    + apply consistent_stream; cbn [with_thread with_job with_events job job_request events event_capacity response_ready response_status response_body]; [done|].
      split_and!; [simpl in Hroom; lia|done|by unfold stream_state|]. exists (popped ++ [event]).
      rewrite <- app_assoc. split; [done|]. unfold stream_wire. cbn [thread connection job events event_stream_closed cancelled with_thread with_connection with_job with_cancelled with_events abandon]. by exists popped.
  - destruct Hw as (before & -> & Hsent & Hne). apply (transmit_spec _ (chunk e)); [apply send_chunk_sends| |].
    + intros c Hcs. apply Hgo; [done|]. unfold stream_wire. cbn [thread connection job events event_stream_closed cancelled with_thread with_connection with_job with_cancelled with_events abandon]. by rewrite Hcs, Hsent, stream_text_snoc.
    + intros c part Hcs Hpart. apply Hup. apply replied_stream; [done|]. rewrite Hcs, Hsent, Hp. etransitivity; [|apply stream_text_prefix].
      rewrite stream_text_snoc. by apply prefix_app.
  - destruct Hw as (Hsent & Hev & Hcl & Hne). rewrite Hev, app_nil_r in Hp. subst popped.
    apply (transmit_spec _ chunk_end); [apply send_all_sends| |].
    + intros c Hcs. apply Hup. apply replied_end; [done|done|]. by rewrite Hcs, Hsent.
    + intros c part Hcs Hpart. apply Hup. apply replied_end; [done|done|]. rewrite Hcs, Hsent. by apply prefix_app.
  - destruct Hw as (Hsent & Hans). apply (transmit_spec _ (response_text st tx)); [apply send_fixed_response_sends| |].
    + intros c Hcs. apply Hup. apply (replied_response _ _ _ st tx); [done|]. by rewrite Hcs, Hsent.
    + intros c part Hcs Hpart. apply Hup. apply (replied_response _ _ _ st tx); [done|]. by rewrite Hcs, Hsent.
Qed.

Lemma resume_response h d s :
  stream (job_request (job s)) = false -> consistent h s -> consistent h (resume d s).
Proof.
  intros Hs Hc. pose proof Hc as (Hroom & Ha & Hp & He & Hst & Hw)%consistent_response; [|done].
  assert (Hgo : forall s', job s' = job s -> response_wire h s' -> consistent h s').
  { intros s' Hj Hw'. apply consistent_response; rewrite Hj; [done|]. by split_and!. }
  unfold resume. cbv zeta. unfold response_wire in Hw. destruct (thread s) as [w| |w|e| |st tx|w|st tx|] eqn:Ht; try done.
  - destruct (w && _) eqn:Hw'.
    { apply consistent_response; [done|]. split; [done|]. split; [done|]. split; [done|]. split; [done|]. split; [done|].
      split; [by left|]. by apply replied_nothing. }
    destruct (response_ready (job s)) eqn:Hr; simpl negb; apply Hgo; try done; unfold response_wire; cbn; try done.
  - destruct Hw as [Hsent Hans]. assert (Hr : response_ready (job s) = true) by (rewrite Hans in Ha; by destruct (response_ready (job s))).
    apply (transmit_spec _ (response_text st tx)); [apply send_fixed_response_sends| |].
    + intros c Hcs. apply Hgo; [done|]. unfold response_wire. cbn [thread connection job events event_stream_closed response_ready cancelled with_thread with_connection with_job with_cancelled with_events abandon]. split; [by right|].
      apply (replied_response _ _ _ st tx); [done|]. by rewrite Hcs, Hsent.
    + intros c part Hcs Hpart. apply Hgo; [done|]. unfold response_wire. cbn [thread connection job events event_stream_closed response_ready cancelled with_thread with_connection with_job with_cancelled with_events abandon]. split; [by right|].
      apply (replied_response _ _ _ st tx); [done|]. by rewrite Hcs, Hsent.
Qed.

Lemma turn_consistent h t s : consistent h s -> consistent h (turn t s) /\ later s (turn t s).
Proof.
  intros Hc. destruct t as [d|]; cbn [turn].
  - split; [|apply resume_later]. destruct (stream (job_request (job s))) eqn:Hs; [by apply resume_stream|by apply resume_response].
  - split; [|by split]. destruct Hc as [H1 H2 H3]. by split.
Qed.

Lemma turns_consistent h turns s :
  consistent h s -> consistent h (foldl (fun s t => turn t s) s turns) /\ later s (foldl (fun s t => turn t s) s turns).
Proof.
  revert s. induction turns as [|t turns IH]; intros s Hc; [by split|]. cbn [foldl].
  destruct (turn_consistent h t s Hc) as [Hc' Hl]. destruct (IH _ Hc') as [Hc'' Hl']. split; [done|by etransitivity].
Qed.

Lemma yield_consistent h s : consistent h s -> consistent h (yield s) /\ later s (yield s).
Proof.
  intros Hc. unfold yield. destruct (schedule s) as [|turns rest]; [by split|].
  destruct (turns_consistent h turns (with_schedule rest s)) as [H1 H2].
  - destruct Hc as [? ? ?]. by split.
  - split; [done|]. etransitivity; [|exact H2]. by split.
Qed.

(** ** The operations of the worker *)

Definition snoc (h : History) (event : list Z) : History := {| pushed := pushed h ++ [event]; answer := answer h |}.
Definition answered (h : History) (status : Z) (text : list Z) : History := {| pushed := pushed h; answer := Some (status, text) |}.

(** No event is taken any more. *)
Definition over (s : Shared) : Prop := cancelled (job s) = true \/ stopping s = true \/ event_stream_closed (job s) = true.

Lemma replied_more h event closed_ text : replied h closed_ text -> closed_ = false -> replied (snoc h event) closed_ text.
Proof.
  intros H Hcl. destruct H as [H|Hp H|Hp Hc H|st body Ha H].
  - by apply replied_nothing.
  - apply replied_stream; [cbn [snoc pushed]; by destruct (pushed h)|].
    etransitivity; [exact H|]. exact (stream_text_prefix (pushed h) [event]).
  - congruence.
  - by apply (replied_response _ _ _ st body).
Qed.

Lemma replied_closes h closed_ text : replied h closed_ text -> replied h true text.
Proof.
  intros [H|Hp H|Hp Hc H|st body Ha H].
  - by apply replied_nothing.
  - by apply replied_stream.
  - by apply replied_end.
  - by apply (replied_response _ _ _ st body).
Qed.

Lemma push_round_spec h event s r s' :
  consistent h s -> stream (job_request (job s)) = true -> push_round event s = (r, s') ->
  match r with
  | None => s' = s /\ cancelled (job s) = false /\ stopping s = false /\ event_capacity (job s) <= Z.of_nat (length (events (job s)))
  | Some false => s' = s /\ over s
  | Some true => consistent (snoc h event) s' /\ later s s'
  end.
Proof.
  intros Hc Hs. unfold push_round. cbv zeta. destruct (negb (cancelled (job s)) && negb (stopping s) && _) eqn:Hwait.
  { intros [= <- <-]. bools. by split_and!. }
  destruct (cancelled (job s) || stopping s || event_stream_closed (job s)) eqn:Hover.
  { intros [= <- <-]. split; [done|]. unfold over. bools. destruct Hover as [Hover|Hover]; [|by right; right].
    apply orb_true_iff in Hover. tauto. }
  intros [= <- <-]. bools. rewrite H, H1 in Hwait. simpl in Hwait. destruct Hwait as [Hwait|Hwait]; [done|]. apply Z.leb_gt in Hwait.
  apply consistent_stream in Hc as (Hroom & Ha & Hst & popped & Hp & Hw); [|done]. split; [|by split].
  apply consistent_stream; cbn [with_job job with_events job_request events event_capacity response_ready response_status response_body]; [done|].
  split; [rewrite length_app; simpl; lia|]. split; [done|]. split.
  - unfold stream_state in *. cbn [with_events stream_start event_stream_closed snoc pushed answer].
    destruct (stream_start (job s)); [rewrite bool_decide_true by done|rewrite bool_decide_false by done..].
    + split; [by destruct (pushed h)|tauto].
    + split; [by destruct (pushed h)|tauto].
    + destruct Hst as (_ & _ & Hcl). congruence.
  - exists popped. cbn [snoc pushed]. rewrite Hp, <- app_assoc. split; [done|]. unfold stream_wire in *.
    cbn [with_job job with_events thread connection events event_stream_closed cancelled snoc pushed answer].
    assert (Hne : pushed h ++ [event] <> []) by (by destruct (pushed h)).
    destruct (thread s) as [w| |w|e| |st tx|w|st tx|]; try tauto.
    + destruct Hw as (before & Hb & Hsent & _). by exists before.
    + destruct Hw as (_ & _ & Hcl & _). congruence.
    + destruct Hw as ([Hx|Hx] & _); congruence.
Qed.

Lemma push_loop_spec n h event s b s' :
  consistent h s -> stream (job_request (job s)) = true -> push_loop n event s = (b, s') ->
  later s s' /\ if b then consistent (snoc h event) s' else consistent h s' /\ over s'.
Proof.
  revert s. induction n as [|n IH]; intros s Hc Hs; cbn [push_loop]; destruct (push_round event s) as [r s1] eqn:Hr;
    pose proof (push_round_spec h event s r s1 Hc Hs Hr) as Hspec; destruct r as [[|]|].
  1,4: intros [= <- <-]; split; tauto.
  1,3: destruct Hspec as [-> Hover]; intros [= <- <-]; by split.
  - destruct Hspec as [-> _]. intros [= <- <-]. split; [by split|]. split; [|by right; left]. destruct Hc as [? ? ?]. by split.
  - destruct Hspec as [-> _]. intros Hl. destruct (yield_consistent h s Hc) as [Hc1 Hl1].
    destruct (IH (yield s) Hc1) as [Hl2 Hres]; [by rewrite (proj1 (later_request _ _ Hl1))|done|].
    split; [by etransitivity|done].
Qed.

Lemma push_event_spec h event s b s' :
  consistent h s -> stream (job_request (job s)) = true -> push_event event s = (b, s') ->
  later s s' /\ if b then consistent (snoc h event) s' else consistent h s' /\ over s'.
Proof.
  intros Hc Hs Hp. destruct (yield_consistent h s Hc) as [Hc1 Hl1]. unfold push_event in Hp.
  destruct (push_loop_spec (length (schedule (yield s))) h event (yield s) b s' Hc1) as [Hl2 Hres]; [by rewrite (proj1 (later_request _ _ Hl1))|done|].
  split; [by etransitivity|done].
Qed.

Lemma load_cancelled_spec h s c s' :
  consistent h s -> load_cancelled s = (c, s') -> consistent h s' /\ later s s' /\ c = cancelled (job s').
Proof. intros Hc [= <- <-]. destruct (yield_consistent h s Hc). by split_and!. Qed.

Lemma load_either_spec h s c s' :
  consistent h s -> load_either s = (c, s') -> consistent h s' /\ later s s' /\ (c = true -> cancelled (job s') = true \/ stopping s' = true).
Proof.
  intros Hc. unfold load_either. destruct (load_cancelled s) as [c1 s1] eqn:H1.
  destruct (load_cancelled_spec h s c1 s1 Hc H1) as (Hc1 & Hl1 & Hv). destruct c1.
  - intros [= <- <-]. split_and!; [done|done|]. by left.
  - intros [= <- <-]. destruct (yield_consistent h s1 Hc1) as [Hc2 Hl2]. split_and!; [done|by etransitivity|]. by right.
Qed.

Lemma set_cancelled_spec h s : consistent h s -> consistent h (set_cancelled s) /\ later s (set_cancelled s) /\ cancelled (job (set_cancelled s)) = true.
Proof.
  intros Hc. destruct (yield_consistent h s Hc) as [[Hr Ha Hw] Hl]. unfold set_cancelled. split; [|split; [|done]].
  - split; [done|done|]. cbn [with_job job with_cancelled job_request]. destruct (stream _).
    + destruct Hw as (Hst & popped & Hp & Hw). split; [done|]. exists popped. split; [done|]. unfold stream_wire in *.
      cbn [with_job job with_cancelled thread connection events event_stream_closed cancelled].
      destruct (thread (yield s)); try tauto.
    + destruct Hw as (? & ? & ? & Hw). split_and!; [done..|]. unfold response_wire in *.
      cbn [with_job job with_cancelled thread connection events event_stream_closed cancelled response_ready].
      destruct (thread (yield s)); try tauto.
  - etransitivity; [exact Hl|]. by split.
Qed.

Lemma close_events_spec h s :
  consistent h s -> consistent h (close_events s) /\ later s (close_events s) /\ event_stream_closed (job (close_events s)) = true.
Proof.
  intros Hc. destruct (yield_consistent h s Hc) as [[Hr Ha Hw] Hl]. unfold close_events. split; [|split; [|done]].
  - split; [done|done|]. cbn [with_job job with_closed job_request]. destruct (stream _).
    + destruct Hw as (Hst & popped & Hp & Hw). split.
      { unfold stream_state in *. cbn [with_closed stream_start event_stream_closed]. destruct (stream_start _); tauto. }
      exists popped. split; [done|]. unfold stream_wire in *.
      cbn [with_job job with_closed thread connection events event_stream_closed cancelled].
      destruct (thread (yield s)); try tauto. destruct Hw as [_ Hrep]. split; [by right|by eapply replied_closes].
    + destruct Hw as (? & ? & ? & Hw). split_and!; [done..|]. unfold response_wire in *.
      cbn [with_job job with_closed thread connection events event_stream_closed cancelled response_ready].
      destruct (thread (yield s)); try tauto. destruct Hw as [? Hrep]. split; [done|by eapply replied_closes].
  - etransitivity; [exact Hl|]. by split.
Qed.

(** A reply that has not started can still become another one. *)
Lemma replied_answered h closed_ text status body :
  replied h closed_ text -> pushed h = [] -> answer h = None -> replied (answered h status body) closed_ text.
Proof. intros [H|Hp H|Hp Hc H|st b Ha H] Hn Hnone; [by apply replied_nothing|done|done|congruence]. Qed.

Lemma set_response_spec h status text s :
  consistent h s -> stream (job_request (job s)) = false -> answer h = None ->
  consistent (answered h status text) (set_response status text s) /\ later s (set_response status text s).
Proof.
  intros Hc Hs Hnone. destruct (yield_consistent h s Hc) as [[Hr Ha Hw] Hl]. unfold set_response.
  split; [|etransitivity; [exact Hl|by split]]. split; [done|done|]. cbn [with_job job with_response job_request].
  rewrite (proj1 (later_request _ _ Hl)), Hs in Hw |- *. destruct Hw as (Hp & He & Hst & Hw). split_and!; [done..|].
  unfold response_wire in *. cbn [with_job job with_response thread connection event_stream_closed cancelled response_ready].
  destruct (thread (yield s)); try done; try tauto.
  - destruct Hw as [_ Hw]. congruence.
  - destruct Hw as [_ Hrep]. split; [by right|]. by apply replied_answered.
Qed.

Lemma early_error_spec h status text s b s' :
  consistent h s -> stream (job_request (job s)) = true -> early_error status text s = (b, s') ->
  later s s' /\ (if b then consistent (answered h status text) s' /\ pushed h = [] /\ event_stream_closed (job s') = true
                 else consistent h s' /\ (answer h = None -> pushed h <> [])).
Proof.
  intros Hc Hs. destruct (yield_consistent h s Hc) as [Hc1 Hl]. unfold early_error. cbv zeta.
  assert (Hs1 : stream (job_request (job (yield s))) = true) by (by rewrite (proj1 (later_request _ _ Hl))).
  pose proof Hc1 as (Hroom & Ha & Hst & popped & Hp & Hw)%consistent_stream; [|done]. case_bool_decide as Hpend.
  - intros [= <- <-]. split; [etransitivity; [exact Hl|by split]|]. unfold stream_state in Hst. rewrite Hpend in Hst. destruct Hst as [Hnil Hnone].
    split; [|split; [done|done]]. apply consistent_stream; [done|]. split; [done|]. split; [done|]. split; [done|].
    exists popped. split; [done|]. unfold stream_wire in *.
    cbn [with_job job with_closed with_response with_events thread connection events event_stream_closed cancelled answered pushed answer].
    destruct (thread (yield s)) as [w| |w|e| |st tx|w|st tx|]; try tauto.
    + destruct Hw as [_ Hw]. congruence.
    + destruct Hw as [_ Hrep]. split; [by right|]. apply replied_answered; [apply (replied_closes _ _ _ Hrep)|done|done].
  - intros [= <- <-]. split; [done|]. split; [done|]. intros Hnone. unfold stream_state in Hst.
    destruct (stream_start (job (yield s))); [done|tauto|tauto].
Qed.

(** What an error becomes: the response, when nothing was pushed, or else the
    last event unless nobody listens any more. *)
Lemma publish_job_error_spec h error s :
  consistent h s -> answer h = None ->
  exists h', consistent h' (publish_job_error error s) /\ later s (publish_job_error error s) /\
    (h' = answered h (http_status error) (serialize_openai_error error) /\ pushed h = [] \/
     pushed h <> [] /\ event_stream_closed (job (publish_job_error error s)) = true /\
     (h' = snoc h (sse_data (serialize_openai_error error)) \/ h' = h /\ over (publish_job_error error s))).
Proof.
  intros Hc Hnone. unfold publish_job_error. cbv zeta. destruct (stream (job_request (job s))) eqn:Hs.
  2:{ destruct (set_response_spec h (http_status error) (serialize_openai_error error) s Hc Hs Hnone) as [Hc' Hl].
      eexists. split; [exact Hc'|]. split; [done|]. left. split; [done|]. destruct Hc as [_ _ Hw]. rewrite Hs in Hw. tauto. }
  destruct (early_error _ _ s) as [b s1] eqn:He. destruct (early_error_spec h _ _ s b s1 Hc Hs He) as [Hl1 Hb].
  destruct b; [destruct Hb as (Hc' & Hp & Hcl); eexists; split; [exact Hc'|]; split; [done|by left]|].
  destruct Hb as [Hc1 Hp]. specialize (Hp Hnone). destruct (load_cancelled s1) as [c s2] eqn:Hload.
  destruct (load_cancelled_spec h s1 c s2 Hc1 Hload) as (Hc2 & Hl2 & ->).
  assert (Hs2 : stream (job_request (job s2)) = true) by (by rewrite (proj1 (later_request _ _ Hl2)), (proj1 (later_request _ _ Hl1))).
  destruct (cancelled (job s2)) eqn:Hcan.
  - destruct (close_events_spec h s2 Hc2) as (Hc3 & Hl3 & Hcl). exists h. split; [done|]. split; [by do 2 (etransitivity; [eassumption|])|].
    right. split_and!; [done|done|]. right. split; [done|]. left. by apply Hl3.
  - destruct (push_event _ s2) as [p s3] eqn:Hpush. cbn [snd].
    destruct (push_event_spec h _ s2 p s3 Hc2 Hs2 Hpush) as [Hl3 Hres]. destruct p.
    + destruct (close_events_spec _ s3 Hres) as (Hc4 & Hl4 & Hcl). eexists. split; [exact Hc4|].
      split; [by do 3 (etransitivity; [eassumption|])|]. right. split_and!; [done|done|by left].
    + destruct Hres as [Hres Hover]. destruct (close_events_spec _ s3 Hres) as (Hc4 & Hl4 & Hcl). exists h. split; [exact Hc4|].
      split; [by do 3 (etransitivity; [eassumption|])|]. right. split_and!; [done|done|right]. split; [done|]. right. right. done.
Qed.

(** ** An attentive client

    The connection takes whatever it is given, the ingress thread runs between the operations of the worker, and
    neither the client nor the server stops. *)

Definition takes_all (a : SendAnswer) : Prop := a = SentAll.

(** How many answers the thread still needs, besides those for the events that
    are queued. *)
Definition needs (t : Thread) : nat :=
  match t with
  | StartWait _ | StreamHeaders | ResponseWait _ => 2
  | EventWait _ => 1
  | SendEvent _ => 4
  | SendEnd => 1
  | EarlyError _ _ | SendResponse _ _ => 2
  | Returned => 0
  end.

(** A client that hangs on, with answers for [k] more events. *)
Record hangs_on (k : nat) (s : Shared) : Prop := {
  on_flags : cancelled (job s) = false /\ stopping s = false;
  on_answers : Forall takes_all (answers (connection s)) /\
    (needs (thread s) + 3 * (length (events (job s)) + k) <= length (answers (connection s)))%nat
}.

(** A section that sends: it succeeds and costs [cost] answers. *)
Definition delivers (cost : nat) (bytes : list Z) (m : Connection -> bool * Connection) : Prop :=
  forall c, Forall takes_all (answers c) -> (cost <= length (answers c))%nat ->
    fst (m c) = true /\ sent (snd (m c)) = sent c ++ bytes /\ Forall takes_all (answers (snd (m c))) /\
    (length (answers c) <= cost + length (answers (snd (m c))))%nat.

Lemma send_all_delivers bytes : delivers 1 bytes (send_all bytes).
Proof.
  intros c Ha Hn. unfold send_all. destruct (answers c) as [|a l] eqn:Hans; [simpl in Hn; lia|].
  apply Forall_cons in Ha as [-> Ha]. destruct bytes as [|x bytes]; cbn [send_loop].
  { cbn [fst snd sent answers]. rewrite app_nil_r. split_and!; try done; [by constructor|simpl; lia]. }
  destruct l; cbn [send_loop fst snd sent answers]; split_and!; (done || simpl; lia).
Qed.

Lemma delivers_then m n a b first second :
  delivers m a first -> delivers n b second -> delivers (m + n) (a ++ b) (and_then first second).
Proof.
  intros Ha Hb c Hans Hn. unfold and_then. destruct (Ha c Hans ltac:(lia)) as (H1 & H2 & H3 & H4).
  destruct (first c) as [ok c1]. cbn [fst snd] in *. subst ok. destruct (Hb c1 H3 ltac:(lia)) as (H5 & H6 & H7 & H8).
  split_and!; [done| |done|lia]. by rewrite H6, H2, <- app_assoc.
Qed.

Lemma send_chunk_delivers event : delivers 3 (chunk event) (send_chunk event).
Proof.
  unfold chunk. rewrite app_assoc. apply (delivers_then 1 2); [apply send_all_delivers|].
  apply (delivers_then 1 1); apply send_all_delivers.
Qed.

Lemma sse_headers_delivers : delivers 1 (sse_headers false) (send_sse_headers false).
Proof. apply send_all_delivers. Qed.

Lemma chunk_end_delivers : delivers 1 chunk_end send_chunk_end.
Proof. apply send_all_delivers. Qed.

Lemma send_fixed_response_delivers status text : delivers 2 (response_text status text) (send_fixed_response status text false []).
Proof. apply (delivers_then 1 1); apply send_all_delivers. Qed.

Lemma transmit_delivers cost bytes send sent_ failed s :
  delivers cost bytes send -> Forall takes_all (answers (connection s)) -> (cost <= length (answers (connection s)))%nat ->
  exists c, transmit send sent_ failed s = sent_ (with_connection c s) /\ sent c = sent (connection s) ++ bytes /\
    Forall takes_all (answers c) /\ (length (answers (connection s)) <= cost + length (answers c))%nat.
Proof.
  intros Hd Ha Hn. unfold transmit. destruct (Hd (connection s) Ha Hn) as (H1 & H2 & H3 & H4).
  destruct (send (connection s)) as [ok c]. cbn [fst snd] in *. subst ok. by exists c.
Qed.

(** While the worker has not ended the stream or set the response. *)
Definition busy (s : Shared) : Prop := event_stream_closed (job s) = false /\ response_ready (job s) = false.

(** How many sections the thread is away from taking the next event. *)
Definition distance (t : Thread) : nat :=
  match t with StartWait _ => 3 | StreamHeaders => 2 | SendEvent _ => 2 | EventWait _ => 1 | _ => 0 end.

Lemma busy_resume h k s :
  consistent h s -> hangs_on k s -> busy s ->
  hangs_on k (resume false s) /\ busy (resume false s) /\ schedule (resume false s) = schedule s /\
  (length (events (job (resume false s))) <= length (events (job s)))%nat /\
  (stream (job_request (job s)) = true -> events (job s) <> [] ->
   (length (events (job (resume false s))) < length (events (job s)))%nat \/ (distance (thread (resume false s)) < distance (thread s))%nat).
Proof.
  intros Hc [[Hcan Hstop] [Ha Hn]] [Hcl Hr].
  assert (Hsame : forall t c, Forall takes_all (answers c) ->
    (needs t + 3 * (length (events (job s)) + k) <= length (answers c))%nat ->
    hangs_on k (with_thread t (with_connection c s))) by (intros; by split).
  assert (Hsend : forall t cost bytes m, delivers cost bytes m -> (cost + needs t <= needs (thread s))%nat ->
    forall k2, exists c, transmit m (with_thread t) k2 s = with_thread t (with_connection c s) /\
      hangs_on k (with_thread t (with_connection c s))).
  { intros t cost bytes m Hd Hcost k2. destruct (transmit_delivers cost bytes m (with_thread t) k2 s Hd Ha) as (c & -> & _ & Hans & Hlen); [lia|].
    exists c. split; [done|]. apply Hsame; [done|lia]. }
  destruct (stream (job_request (job s))) eqn:Hs.
  - pose proof Hc as (Hroom & Hans & Hst & popped & Hp & Hw)%consistent_stream; [|done]. rewrite Hr in Hans.
    unfold stream_wire in Hw. unfold stream_state in Hst. unfold resume. cbv zeta.
    destruct (thread s) as [w| |w|e| |st tx|w|st tx|] eqn:Ht; cbn [needs] in *; try tauto.
    + rewrite Hcan, Hstop, andb_false_r, Hcl, andb_true_r.
      case_bool_decide as Hpend; [|rewrite bool_decide_true by (destruct (stream_start (job s)); [done|done|destruct Hst as (_ & _ & ?); congruence])];
        (split; [apply (Hsame _ (connection s)); [done|simpl; lia]|]); split_and!; try done; intros _ Hne; cbn; try lia.
      * exfalso. rewrite Hpend in Hst. destruct Hst as [Hnil _]. rewrite Hnil in Hp. symmetry in Hp. apply app_eq_nil in Hp as [_ Hp]. done.
    + destruct (Hsend (EventWait false) 1%nat _ _ sse_headers_delivers ltac:(simpl; lia) abandon) as (c & -> & Hon).
      split_and!; try done. intros _ _. right. simpl. lia.
    + rewrite Hstop, andb_false_r. destruct (events (job s)) as [|event rest] eqn:Hev; [rewrite Hcl|].
      * split; [apply (Hsame _ (connection s)); [done|simpl; lia]|]. split_and!; try done; try (cbn; by rewrite Hev).
      * cbn [with_thread with_job with_events job events schedule event_stream_closed response_ready]. split.
        { split; [done|]. cbn. cbn in Hn. split; [done|lia]. }
        split_and!; try done; [simpl; lia|]. intros _ _. left. simpl. lia.
    + destruct (Hsend (EventWait false) 3%nat _ _ (send_chunk_delivers e) ltac:(simpl; lia) abandon) as (c & -> & Hon).
      split_and!; try done. intros _ _. right. simpl. lia.
    + destruct Hw as (_ & _ & ? & _). congruence.
    + destruct Hw as [_ Hw]. congruence.
    + destruct Hw as [[?|?] _]; congruence.
  - pose proof Hc as (Hroom & Hans & Hp & He & Hst & Hw)%consistent_response; [|done]. rewrite Hr in Hans.
    unfold response_wire in Hw. unfold resume. cbv zeta. destruct (thread s) as [w| |w|e| |st tx|w|st tx|] eqn:Ht; cbn [needs] in *; try tauto.
    + rewrite Hcan, Hstop, andb_false_r, Hr. split; [apply (Hsame _ (connection s)); [done|simpl; lia]|].
      split_and!; try done; try congruence.
    + destruct Hw as [_ Hw]. congruence.
    + destruct Hw as [[?|?] _]; congruence.
Qed.

(** The schedules in which the ingress thread runs between any two operations. *)
Definition attentive (l : list (list Turn)) : Prop := Forall (fun turns => turns <> [] /\ Forall (eq (Resume false)) turns) l.

Lemma busy_turns h k turns s :
  Forall (eq (Resume false)) turns -> consistent h s -> hangs_on k s -> busy s ->
  let s' := foldl (fun s t => turn t s) s turns in
  consistent h s' /\ hangs_on k s' /\ busy s' /\ schedule s' = schedule s /\
  (length (events (job s')) <= length (events (job s)))%nat /\
  (turns <> [] -> stream (job_request (job s)) = true -> events (job s) <> [] ->
   (length (events (job s')) < length (events (job s)))%nat \/ (distance (thread s') < distance (thread s))%nat).
Proof.
  intros Ht. revert s. induction Ht as [|t turns <- Ht IH]; intros s Hc Hon Hbusy; cbv zeta; cbn [foldl turn].
  { split_and!; done. }
  destruct (busy_resume h k s Hc Hon Hbusy) as (Hon1 & Hbusy1 & Hsch1 & Hlen1 & Hprog).
  assert (Hc1 : consistent h (resume false s)) by (apply (turn_consistent h (Resume false)); done).
  destruct (IH _ Hc1 Hon1 Hbusy1) as (Hc2 & Hon2 & Hbusy2 & Hsch2 & Hlen2 & Hprog2). split_and!; try done; [congruence|lia|].
  intros _ Hs Hne. destruct (Hprog Hs Hne) as [Hless|Hless]; [left; lia|].
  destruct (decide (turns = [])) as [->|Hmore]; [by right|].
  destruct (decide (events (job (resume false s)) = [])) as [Hnil|Hne2].
  - left. rewrite Hnil in Hlen2. simpl in Hlen2. destruct (events (job s)); [done|simpl; lia].
  - destruct (Hprog2 Hmore) as [H|H]; [by rewrite (proj1 (later_request _ _ (resume_later false s)))|done|left; lia|right; lia].
Qed.

Lemma busy_yield h k s :
  attentive (schedule s) -> consistent h s -> hangs_on k s -> busy s ->
  consistent h (yield s) /\ hangs_on k (yield s) /\ busy (yield s) /\ later s (yield s) /\
  attentive (schedule (yield s)) /\ (length (schedule s) <= S (length (schedule (yield s))))%nat /\
  (length (events (job (yield s))) <= length (events (job s)))%nat /\
  (schedule s <> [] -> S (length (schedule (yield s))) = length (schedule s)) /\
  (schedule s <> [] -> stream (job_request (job s)) = true -> events (job s) <> [] ->
   (length (events (job (yield s))) < length (events (job s)))%nat \/ (distance (thread (yield s)) < distance (thread s))%nat).
Proof.
  intros Hatt Hc Hon Hbusy. pose proof (yield_consistent h s Hc) as [_ Hl]. revert Hl. unfold yield.
  destruct (schedule s) as [|turns rest] eqn:Hsch; [rewrite Hsch; intros Hl; split_and!; (done || simpl; lia)|].
  apply Forall_cons in Hatt as [[Hne Ht] Hatt]. intros Hl.
  destruct (busy_turns h k turns (with_schedule rest s) Ht) as (Hc1 & Hon1 & Hbusy1 & Hsch1 & Hlen1 & Hprog).
  - destruct Hc. by split.
  - destruct Hon. by split.
  - done.
  - cbn [with_schedule schedule] in Hsch1. rewrite Hsch1. split_and!; try done; try (simpl; lia). intros _. by apply Hprog.
Qed.

Lemma push_round_attentive h k event s :
  consistent h s -> hangs_on (S k) s -> busy s -> stream (job_request (job s)) = true ->
  Z.of_nat (length (events (job s))) < event_capacity (job s) ->
  exists s', push_round event s = (Some true, s') /\ consistent (snoc h event) s' /\ hangs_on k s' /\ busy s' /\ later s s' /\
    schedule s' = schedule s.
Proof.
  intros Hc Hon Hbusy Hs Hroom. destruct Hon as [[Hcan Hstop] [Ha Hn]]. destruct Hbusy as [Hcl Hr].
  destruct (push_round event s) as [r s'] eqn:Hround. pose proof (push_round_spec h event s r s' Hc Hs Hround) as Hspec.
  unfold push_round in Hround. cbv zeta in Hround. rewrite Hcan, Hstop, Hcl, (proj2 (Z.leb_gt (event_capacity (job s)) _)) in Hround by done.
  simpl in Hround. injection Hround as <- <-. eexists. split; [done|]. split; [apply Hspec|]. split; [|split; [done|split; [apply Hspec|done]]].
  split; [done|split; [done|]]. cbn. rewrite length_app. cbn. lia.
Qed.

(** Three sections of the thread free a place. *)
Lemma push_loop_attentive h k event n s w :
  attentive (schedule s) -> consistent h s -> hangs_on (S k) s -> busy s -> stream (job_request (job s)) = true ->
  1 <= event_capacity (job s) ->
  n = length (schedule s) -> (distance (thread s) <= w)%nat -> (w <= n)%nat ->
  exists s', push_loop n event s = (true, s') /\ consistent (snoc h event) s' /\ hangs_on k s' /\ busy s' /\ later s s' /\
    attentive (schedule s') /\ (length (schedule s) <= w + length (schedule s'))%nat.
Proof.
  revert n s. induction w as [|w IH]; intros n s Hatt Hc Hon Hbusy Hs Hcap Hn Hd Hw.
  all: pose proof Hon as [[Hcan Hstop] _]; pose proof Hbusy as [Hcl Hr].
  all: destruct (Z.lt_ge_cases (Z.of_nat (length (events (job s)))) (event_capacity (job s))) as [Hlt|Hge].
  1,3: destruct (push_round_attentive h k event s) as (s' & Hround & Hc' & Hon' & Hbusy' & Hl & Hsch); try done;
    exists s'; rewrite Hsch; destruct n; cbn [push_loop]; rewrite Hround; split_and!; (done || lia).
  - exfalso. pose proof Hc as (_ & Hans & Hst & popped & Hp & Hwire)%consistent_stream; [|done]. unfold stream_wire in Hwire.
    destruct (thread s); simpl in Hd; try lia; try tauto.
    + destruct Hwire as (_ & _ & ? & _). congruence.
    + destruct Hwire as [_ ?]. rewrite Hr in Hans. congruence.
    + destruct Hwire as [[?|?] _]; congruence.
  - assert (Hround : push_round event s = (None, s)).
    { unfold push_round. cbv zeta. by rewrite Hcan, Hstop, (proj2 (Z.leb_le (event_capacity (job s)) _)) by done. }
    assert (Hsch : schedule s <> []) by (intros Hnil; rewrite Hnil in Hn; simpl in Hn; lia).
    destruct (busy_yield h (S k) s Hatt Hc Hon Hbusy) as (Hc1 & Hon1 & Hbusy1 & Hl1 & Hatt1 & _ & _ & Hlen & Hprog).
    specialize (Hlen Hsch). destruct n as [|n]; [lia|]. cbn [push_loop]. rewrite Hround.
    destruct (later_request _ _ Hl1) as (Hreq & _ & _ & Hcapacity).
    destruct (Hprog Hsch Hs) as [Hless|Hless].
    + intros Hnil. rewrite Hnil in Hge. simpl in Hge. lia.
    + destruct (push_round_attentive h k event (yield s)) as (s' & Hround' & Hc' & Hon' & Hbusy' & Hl & Hsch'); try done.
      * by rewrite Hreq.
      * rewrite Hcapacity. pose proof (consistent_room _ _ Hc). lia.
      * exists s'. destruct n; cbn [push_loop]; rewrite Hround', Hsch'; split_and!; try done; try lia; by etransitivity.
    + destruct (IH n (yield s)) as (s' & -> & Hc' & Hon' & Hbusy' & Hl & Hatt' & Hlen'); try done; try lia.
      * by rewrite Hreq.
      * exists s'. split_and!; try done; [by etransitivity|lia].
Qed.

Lemma push_event_attentive h k event s :
  attentive (schedule s) -> consistent h s -> hangs_on (S k) s -> busy s -> stream (job_request (job s)) = true ->
  1 <= event_capacity (job s) -> (4 <= length (schedule s))%nat ->
  exists s', push_event event s = (true, s') /\ consistent (snoc h event) s' /\ hangs_on k s' /\ busy s' /\ later s s' /\
    attentive (schedule s') /\ (length (schedule s) <= 4 + length (schedule s'))%nat.
Proof.
  intros Hatt Hc Hon Hbusy Hs Hcap Hlen.
  destruct (busy_yield h (S k) s Hatt Hc Hon Hbusy) as (Hc1 & Hon1 & Hbusy1 & Hl1 & Hatt1 & Hlen1 & _).
  destruct (later_request _ _ Hl1) as (Hreq & _ & _ & Hcapacity). unfold push_event.
  destruct (push_loop_attentive h k event (length (schedule (yield s))) (yield s) 3) as (s' & -> & Hc' & Hon' & Hbusy' & Hl & Hatt' & Hlen');
    try done; try lia.
  - by rewrite Hreq.
  - destruct (thread (yield s)); simpl; lia.
  - exists s'. split_and!; try done; [by etransitivity|lia].
Qed.

(** ** The end of a reply *)

Definition reply_text (h : History) : list Z :=
  match answer h with
  | Some (status, text) => response_text status text
  | None => stream_text (pushed h) ++ chunk_end
  end.

(** The worker has nothing more to say. *)
Definition finished (h : History) (s : Shared) : Prop :=
  if stream (job_request (job s)) then event_stream_closed (job s) = true /\ (answer h = None -> pushed h <> [])
  else answer h <> None.

(** How many sections are left. *)
Definition sections (s : Shared) : nat :=
  let n := (2 * length (events (job s)))%nat in
  match thread s with
  | StartWait _ => n + 5
  | StreamHeaders => n + 4
  | SendEvent _ => n + 3
  | EventWait _ => n + 2
  | ResponseWait waited => if waited && negb (response_ready (job s)) then 1 else 2
  | SendEnd | EarlyError _ _ | SendResponse _ _ => 1
  | Returned => 0
  end.

Lemma finish_resume h s :
  consistent h s -> hangs_on 0 s -> finished h s -> thread s <> Returned ->
  let s' := resume false s in
  (thread s' = Returned /\ sent (connection s') = reply_text h) \/
  (hangs_on 0 s' /\ finished h s' /\ thread s' <> Returned /\ (sections s' < sections s)%nat).
Proof.
  intros Hc Hon Hend Hnot. pose proof Hend as Hfin. unfold finished in Hfin. pose proof Hon as [[Hcan Hstop] [Ha Hn]].
  assert (Hsame : forall t c, Forall takes_all (answers c) ->
    (needs t + 3 * (length (events (job s)) + 0) <= length (answers c))%nat ->
    hangs_on 0 (with_thread t (with_connection c s))) by (intros; by split).
  assert (Hf : forall t c, finished h (with_thread t (with_connection c s))) by (intros; exact Hend).
  assert (Hsend : forall cost bytes m k1 k2, delivers cost bytes m -> (cost <= needs (thread s))%nat ->
    exists c, transmit m k1 k2 s = k1 (with_connection c s) /\ sent c = sent (connection s) ++ bytes /\
      Forall takes_all (answers c) /\ (length (answers (connection s)) <= cost + length (answers c))%nat).
  { intros cost bytes m k1 k2 Hd Hcost. apply (transmit_delivers cost bytes m k1 k2 s Hd Ha). lia. }
  cbv zeta. destruct (stream (job_request (job s))) eqn:Hs; rewrite ?Hs in Hfin.
  - pose proof Hc as (Hroom & Hans & Hst & popped & Hp & Hw)%consistent_stream; [|done]. destruct Hfin as [Hcl Hne].
    unfold stream_wire in Hw. unfold stream_state in Hst. unfold resume, sections. cbv zeta.
    destruct (thread s) as [w| |w|e| |st tx|w|st tx|] eqn:Ht; cbn [needs] in *; try tauto.
    + rewrite Hcan, Hstop, andb_false_r, Hcl, andb_false_r. right. destruct (stream_start (job s)) eqn:Hss.
      * destruct Hst as [Hnil Hnone]. destruct (Hne Hnone Hnil).
      * rewrite bool_decide_true by done. split; [apply (Hsame _ (connection s)); [done|simpl; lia]|].
        split; [by apply Hf|]. split; [done|]. simpl. lia.
      * rewrite bool_decide_false, bool_decide_true by done. destruct Hst as (_ & Hsome & _).
        destruct (response_ready (job s)) eqn:Hr; [|done]. simpl.
        split; [apply (Hsame _ (connection s)); [done|simpl; lia]|]. split; [by apply Hf|]. split; [done|]. simpl. lia.
    + destruct (Hsend 1%nat _ _ (with_thread (EventWait false)) abandon sse_headers_delivers ltac:(simpl; lia)) as (c & -> & Hsent & Hans' & Hlen).
      right. split; [apply Hsame; [done|simpl; lia]|]. split; [by apply Hf|]. split; [done|]. simpl. lia.
    + rewrite Hstop, andb_false_r. destruct (events (job s)) as [|event rest] eqn:Hev; [rewrite Hcl|]; right.
      * split; [apply (Hsame _ (connection s)); [done|rewrite ?Hev; simpl in *; lia]|]. split; [by apply Hf|]. split; [done|]. simpl. lia.
      * split; [|split; [exact (Hf (SendEvent event) (connection s))|split; [done|simpl; lia]]].
        split; [done|]. cbn. cbn in Hn. split; [done|lia].
    + destruct (Hsend 3%nat _ _ (with_thread (EventWait false)) abandon (send_chunk_delivers e) ltac:(simpl; lia)) as (c & -> & Hsent & Hans' & Hlen).
      right. split; [apply Hsame; [done|simpl; lia]|]. split; [by apply Hf|]. split; [done|]. simpl. lia.
    + destruct Hw as (Hsent & Hev & _ & Hmore). left.
      destruct (Hsend 1%nat _ _ abandon abandon chunk_end_delivers ltac:(simpl; lia)) as (c & -> & Hsent' & _).
      split; [done|]. cbn. rewrite Hsent', Hsent. unfold reply_text. rewrite Hev, app_nil_r in Hp. subst popped.
      destruct (stream_start (job s)); [by destruct Hst as [_ ->]|by destruct Hst as [_ ->]|by destruct Hst].
    + destruct Hw as [Hsent Hw]. left.
      destruct (Hsend 2%nat _ _ abandon abandon (send_fixed_response_delivers st tx) ltac:(simpl; lia)) as (c & -> & Hsent' & _).
      split; [done|]. cbn. rewrite Hsent', Hsent. unfold reply_text. by rewrite Hw.
  - pose proof Hc as (Hroom & Hans & Hp & He & Hst & Hw)%consistent_response; [|done].
    unfold response_wire in Hw. unfold resume, sections. cbv zeta. destruct (thread s) as [w| |w|e| |st tx|w|st tx|] eqn:Ht; cbn [needs] in *; try tauto.
    + rewrite Hcan, Hstop, andb_false_r. destruct (response_ready (job s)) eqn:Hr; [|done]. simpl negb. rewrite andb_false_r. right.
      split; [apply (Hsame _ (connection s)); [done|simpl; lia]|]. split; [by apply Hf|]. split; [done|]. simpl. lia.
    + destruct Hw as [Hsent Hw]. left.
      destruct (Hsend 2%nat _ _ (with_thread Returned) (with_thread Returned) (send_fixed_response_delivers st tx) ltac:(simpl; lia)) as (c & -> & Hsent' & _).
      split; [done|]. cbn. rewrite Hsent', Hsent. unfold reply_text. by rewrite Hw.
Qed.

Lemma resume_returned n s : thread s = Returned -> Nat.iter n (resume false) s = s.
Proof. intros Ht. induction n as [|n IH]; [done|]. rewrite Nat.iter_succ, IH. unfold resume. by rewrite Ht. Qed.

(** The thread returns after [sections] sections, and the client has the whole reply. *)
Lemma finish h n s :
  consistent h s -> hangs_on 0 s -> finished h s -> thread s <> Returned -> (sections s <= n)%nat ->
  thread (Nat.iter n (resume false) s) = Returned /\ sent (connection (Nat.iter n (resume false) s)) = reply_text h.
Proof.
  revert s. induction n as [|n IH]; intros s Hc Hon Hf Ht Hn.
  { unfold sections in Hn. destruct (thread s); repeat case_match; simpl in *; (lia || done). }
  rewrite Nat.iter_succ_r. destruct (finish_resume h s Hc Hon Hf Ht) as [[Ht' Hs']|(Hon' & Hf' & Ht' & Hless)].
  - by rewrite resume_returned.
  - apply IH; [|done|done|done|lia]. by apply (turn_consistent h (Resume false)).
Qed.

(** ** A whole hand-over *)

(** A request just admitted: nothing is said yet, the thread is about to wait. *)
Definition admitted (request : OpenAIRequest) (id : list Z) (created capacity : Z) (c : Connection) (l : list (list Turn)) : Shared := {|
  job := new_job request id created capacity; stopping := false;
  thread := if stream request then StartWait false else ResponseWait false;
  connection := c; schedule := l
|}.

Definition silent : History := {| pushed := []; answer := None |}.

Lemma admitted_consistent request id created capacity c l :
  0 <= capacity -> sent c = [] -> consistent silent (admitted request id created capacity c l).
Proof.
  intros Hcap Hsent. split; [done|done|]. cbn [admitted job new_job job_request]. destruct (stream request) eqn:Hs.
  - split; [by split|]. exists []. split; [done|]. unfold stream_wire. cbn. by rewrite Hs.
  - split_and!; try done. unfold response_wire. cbn. by rewrite Hs.
Qed.
