(* ===== verification/TokenizerPieces.v ===== *)
(** * TokenizerPieces: decoding token by token
      (src/text/tokenizer.cpp, Tokenizer::decode)

    The engine decodes every token on its own as it is committed, and all of
    them together at the end.  Both give the same text: decoding a sequence
    of ids is the concatenation of decoding each id. *)

From Stdlib Require Import String.
From stdpp Require Import gmap.
From S2P Require Import Prelude OrderedMap Json Sha256 Bpe Tokenizer TokenizerText TokenizerChat.

(** ** Decoding token by token *)

Section Pieces.
Variable data : TokenizerData.

(** Decoding does not look past the code point it returns. *)
Lemma decode_utf8_app a b offset c next :
  0 <= offset -> decode_utf8_at a offset = Some (c, next) -> decode_utf8_at (a ++ b) offset = Some (c, next).
Proof.
  intros Ho Hd. pose proof (decode_next _ _ _ _ Ho Hd) as Hn.
  assert (Hat : forall i, 0 <= i < Z.of_nat (length a) -> at_ (a ++ b) i = at_ a i).
  { intros i Hi. unfold at_. apply app_nth1. lia. }
  assert (Hlt : forall i, i < Z.of_nat (length a) -> (i <? Z.of_nat (length (a ++ b))) = true).
  { intros i Hi. rewrite length_app. apply Z.ltb_lt. lia. }
  revert Hd. unfold decode_utf8_at. cbv zeta.
  rewrite (proj2 (Z.leb_gt (Z.of_nat (length (a ++ b))) offset)) by (rewrite length_app; lia).
  destruct (Z.leb_spec (Z.of_nat (length a)) offset) as [|Hin]; [done|]. rewrite (Hat offset) by lia.
  destruct (at_ a offset <=? 0x7F); [done|].
  destruct ((0xC2 <=? at_ a offset) && (at_ a offset <=? 0xDF)) eqn:H2; cbn [andb].
  { destruct (Z.ltb_spec (offset + 1) (Z.of_nat (length a))) as [H1|H1]; cbn [andb].
    - rewrite Hlt, Hat by lia. cbn [andb]. destruct (_ =? 0x80); [done|]. bools.
      rewrite (proj2 (Z.leb_gt 0xE0 (at_ a offset))) by lia. rewrite (proj2 (Z.leb_gt 0xF0 (at_ a offset))) by lia. done.
    - bools. rewrite (proj2 (Z.leb_gt 0xE0 (at_ a offset))) by lia.
      rewrite (proj2 (Z.leb_gt 0xF0 (at_ a offset))) by lia. done. }
  destruct ((0xE0 <=? at_ a offset) && (at_ a offset <=? 0xEF)) eqn:H3; cbn [andb].
  { assert (H4 : (0xF0 <=? at_ a offset) = false) by (bools; apply Z.leb_gt; lia). rewrite H4. cbn [andb].
    destruct (Z.ltb_spec (offset + 1) (Z.of_nat (length a))) as [Hl1|Hl1]; cbn [andb]; [|done].
    rewrite Hlt, Hat by lia. cbn [andb]. destruct (_ =? 0x80); cbn [andb]; [|done].
    destruct (Z.ltb_spec (offset + 2) (Z.of_nat (length a))) as [Hl2|Hl2]; cbn [andb]; [|done].
    rewrite Hlt, Hat by lia. done. }
  destruct ((0xF0 <=? at_ a offset) && (at_ a offset <=? 0xF4)) eqn:H4; cbn [andb]; [|done].
  destruct (Z.ltb_spec (offset + 1) (Z.of_nat (length a))) as [Hl1|Hl1]; cbn [andb]; [|done].
  rewrite Hlt, Hat by lia. cbn [andb]. destruct (_ =? 0x80); cbn [andb]; [|done].
  destruct (Z.ltb_spec (offset + 2) (Z.of_nat (length a))) as [Hl2|Hl2]; cbn [andb]; [|done].
  rewrite Hlt, Hat by lia. cbn [andb]. destruct (_ =? 0x80); cbn [andb]; [|done].
  destruct (Z.ltb_spec (offset + 3) (Z.of_nat (length a))) as [Hl3|Hl3]; cbn [andb]; [|done].
  rewrite Hlt, Hat by lia. done.
Qed.

(** Any fuel above the number of bytes left is enough. *)
Lemma symbol_bytes_fuel n m symbols offset :
  0 <= offset -> Z.of_nat (length symbols) - offset < Z.of_nat n -> Z.of_nat (length symbols) - offset < Z.of_nat m ->
  symbol_bytes data n symbols offset = symbol_bytes data m symbols offset.
Proof.
  revert m offset. induction n as [|n IH]; intros m offset Ho Hn Hm; (destruct m as [|m]; [|]); cbn [symbol_bytes];
    destruct (Z.ltb_spec offset (Z.of_nat (length symbols))); try lia; try done.
  destruct (decode_utf8_at symbols offset) as [[c next]|] eqn:Hd; [|done]. cbn.
  pose proof (decode_next _ _ _ _ Ho Hd). destruct (byte_decoder data !! c); [|done]. cbn.
  by rewrite (IH m) by lia.
Qed.

Lemma symbol_bytes_shift n before symbols offset :
  0 <= offset ->
  symbol_bytes data n (before ++ symbols) (Z.of_nat (length before) + offset) = symbol_bytes data n symbols offset.
Proof.
  revert offset. induction n as [|n IH]; intros offset Ho; [done|]. cbn [symbol_bytes].
  assert (Hlt : (Z.of_nat (length before) + offset <? Z.of_nat (length (before ++ symbols))) =
    (offset <? Z.of_nat (length symbols))).
  { rewrite length_app. apply eq_iff_eq_true. rewrite !Z.ltb_lt. lia. }
  rewrite Hlt. destruct (Z.ltb_spec offset (Z.of_nat (length symbols))); [|done].
  assert (Hd : decode_utf8_at (before ++ symbols) (Z.of_nat (length before) + offset) =
    (fun r => (r.1, Z.of_nat (length before) + r.2)) <$> decode_utf8_at symbols offset).
  { pose proof (decode_utf8_shift (before ++ take (Z.to_nat offset) symbols) (drop (Z.to_nat offset) symbols)) as H1.
    pose proof (decode_utf8_shift (take (Z.to_nat offset) symbols) (drop (Z.to_nat offset) symbols)) as H2.
    rewrite <- app_assoc, take_drop in H1. rewrite take_drop in H2.
    rewrite length_app, length_take in H1. rewrite length_take in H2.
    replace (Z.of_nat (length before + Nat.min (Z.to_nat offset) (length symbols))) with (Z.of_nat (length before) + offset) in H1 by lia.
    replace (Z.of_nat (Nat.min (Z.to_nat offset) (length symbols))) with offset in H2 by lia.
    rewrite H1, H2. destruct (decode_utf8_at _ 0) as [[c k]|]; [|done]. cbn. do 2 f_equal. lia. }
  rewrite Hd. destruct (decode_utf8_at symbols offset) as [[c next]|] eqn:He; [|done]. cbn.
  pose proof (decode_next _ _ _ _ Ho He).
  destruct (byte_decoder data !! c); [|done]. cbn. by rewrite IH by lia.
Qed.

(** The bytes of symbols one after another. *)
Lemma symbol_bytes_app n a b x y offset :
  0 <= offset <= Z.of_nat (length a) -> Z.of_nat (length (a ++ b)) - offset < Z.of_nat n ->
  symbol_bytes data n a offset = Some x -> symbol_bytes data (S (length b)) b 0 = Some y ->
  symbol_bytes data n (a ++ b) offset = Some (x ++ y).
Proof.
  intros Ho Hn Hx Hy. revert offset x Ho Hn Hx. induction n as [|n IH]; intros offset x Ho Hn Hx.
  { rewrite length_app in Hn. lia. }
  destruct (Z.ltb_spec offset (Z.of_nat (length a))) as [Hlt|Hge].
  - cbn [symbol_bytes] in *. rewrite (proj2 (Z.ltb_lt offset (Z.of_nat (length a)))) in Hx by done.
    rewrite (proj2 (Z.ltb_lt offset (Z.of_nat (length (a ++ b))))) by (rewrite length_app; lia).
    destruct (decode_utf8_at a offset) as [[c next]|] eqn:Hd; [|done]. cbn in Hx.
    rewrite (decode_utf8_app a b offset c next (proj1 Ho) Hd). cbn.
    pose proof (decode_next a offset c next (proj1 Ho) Hd). destruct (byte_decoder data !! c) as [byte|]; [|done]. cbn in *.
    destruct (symbol_bytes data n a next) as [rest|] eqn:Hrest; [|done]. cbn in Hx. injection Hx as <-.
    erewrite IH; [done|lia|lia|done].
  - assert (He : offset = Z.of_nat (length a) + 0) by lia. rewrite length_app in Hn.
    assert (Hnil : x = []).
    { cbn [symbol_bytes] in Hx. rewrite (proj2 (Z.ltb_ge offset _)) in Hx by lia. by injection Hx. }
    rewrite He, symbol_bytes_shift by lia. subst x.
    rewrite (symbol_bytes_fuel (S n) (S (length b)) b 0) by lia. done.
Qed.

Lemma append_output_text value text result : append_output data value text = inr result -> result = text ++ value.
Proof. unfold append_output, fail. case_match; [done|]. by intros [= <-]. Qed.

Lemma decode_one_vocabulary id token t :
  id_to_token data !! Z.to_nat id = Some token -> decode_from data false [id] [] [] = (t, None) ->
  symbol_bytes data (S (length token)) token 0 = Some t.
Proof.
  intros Hid. cbn [decode_from]. rewrite Hid. case_match; [done|]. cbn [app decode_from]. unfold flush_symbols.
  destruct (symbol_bytes data (S (length token)) token 0) as [bytes|]; [|done].
  destruct (append_output data bytes []) as [e|r] eqn:Ha; [done|]. intros [= <-].
  by apply append_output_text in Ha as ->.
Qed.

Lemma flush_nil text result : flush_symbols data [] text = inr result -> result = text.
Proof. intros H. cbn in H. by apply append_output_text in H as ->; rewrite app_nil_r. Qed.

Lemma decode_one_added id token t :
  id_to_token data !! Z.to_nat id = None -> (index ← added_by_id data !! id; added_tokens data !! index) = Some token ->
  decode_from data false [id] [] [] = (t, None) -> t = token_content token.
Proof.
  intros Hid Ha. cbn [decode_from]. rewrite Hid, Ha. cbn [negb orb].
  destruct (flush_symbols data [] []) as [e|r] eqn:Hf; [done|]. apply flush_nil in Hf as ->.
  destruct (append_output data (token_content token) []) as [e|r] eqn:Ho; [done|]. apply append_output_text in Ho as ->.
  destruct (flush_symbols data [] _) as [e|r] eqn:Hf; [done|]. apply flush_nil in Hf as ->. by intros [= <-].
Qed.

Lemma decode_from_pieces ids ts symbols pending text result :
  Forall2 (fun id t => decode_from data false [id] [] [] = (t, None)) ids ts ->
  symbol_bytes data (S (length symbols)) symbols 0 = Some pending ->
  decode_from data false ids symbols text = (result, None) ->
  result = text ++ pending ++ mjoin ts.
Proof.
  intros Hall. revert symbols pending text. induction Hall as [|id t ids ts Hone Hall IH]; intros symbols pending text Hp Hd.
  - cbn [decode_from] in Hd. unfold flush_symbols in Hd. rewrite Hp in Hd.
    destruct (append_output data pending text) as [e|r] eqn:Ha; [done|]. injection Hd as <-.
    apply append_output_text in Ha as ->. by rewrite app_nil_r.
  - cbn [decode_from] in Hd. destruct (id_to_token data !! Z.to_nat id) as [token|] eqn:Hid.
    + apply decode_one_vocabulary with (token := token) in Hone; [|done]. case_match; [done|].
      eapply IH in Hd; [|].
      * rewrite Hd. cbn [mjoin list_join]. rewrite <- (app_assoc pending). reflexivity.
      * apply symbol_bytes_app; [lia|rewrite length_app; lia| |done].
        by rewrite (symbol_bytes_fuel _ (S (length symbols))) by (rewrite ?length_app; lia).
    + destruct (index ← added_by_id data !! id; added_tokens data !! index) as [token|] eqn:Hadd; [|done].
      apply decode_one_added with (token := token) in Hone; [|done..]. subst t. cbn [negb orb] in Hd.
      destruct (flush_symbols data symbols text) as [e|r] eqn:Hf; [done|].
      unfold flush_symbols in Hf. rewrite Hp in Hf. apply append_output_text in Hf as ->.
      destruct (append_output data (token_content token) (text ++ pending)) as [e|r] eqn:Ho; [done|].
      apply append_output_text in Ho as ->. eapply IH in Hd; [|done]. rewrite Hd.
      cbn [mjoin list_join]. by rewrite <- !app_assoc.
Qed.

(** Decoding a sequence of ids is decoding each of them. *)
Lemma decode_impl_pieces ids ts result :
  Forall2 (fun id t => decode_impl data false [id] = (t, None)) ids ts ->
  decode_impl data false ids = (result, None) -> result = mjoin ts.
Proof.
  intros Hall Hd. unfold decode_impl in Hd. case_match; [done|].
  eapply (decode_from_pieces _ _ [] [] []) in Hd; [done| |done].
  eapply Forall2_impl; [exact Hall|]. intros id t Hone. unfold decode_impl in Hone. by case_match.
Qed.

(** ** Decoding gives bytes *)

Lemma symbol_bytes_u8 n symbols offset bytes :
  (forall c b, byte_decoder data !! c = Some b -> is_u8 b) ->
  symbol_bytes data n symbols offset = Some bytes -> Forall is_u8 bytes.
Proof.
  intros Hb. revert offset bytes. induction n as [|n IH]; intros offset bytes; cbn [symbol_bytes].
  { intros [= <-]. constructor. }
  destruct (offset <? _); [|intros [= <-]; constructor].
  destruct (decode_utf8_at symbols offset) as [[c next]|]; [|done]. cbn [mbind option_bind].
  destruct (byte_decoder data !! c) as [b|] eqn:Hc; [|done]. cbn [mbind option_bind].
  destruct (symbol_bytes data n symbols next) as [more|] eqn:Hm; [|done]. intros [= <-].
  constructor; [by eapply Hb|by eapply IH].
Qed.

Lemma decode_impl_u8 pins id t :
  data_ok pins data -> Forall (Forall is_u8) (expected_contents pins) ->
  decode_impl data false [id] = (t, None) -> Forall is_u8 t.
Proof.
  intros Hok Hc. unfold decode_impl. case_match; [done|]. intros Hd.
  destruct (id_to_token data !! Z.to_nat id) as [token|] eqn:Hid.
  { apply decode_one_vocabulary with (token := token) in Hd; [|done]. eapply symbol_bytes_u8; [|exact Hd].
    apply (alphabet_bytes _ _ (data_alphabet _ _ Hok)). }
  destruct (index ← added_by_id data !! id; added_tokens data !! index) as [token|] eqn:Hadd.
  - apply decode_one_added with (token := token) in Hd; [|done..]. subst t.
    apply bind_Some in Hadd as (k & _ & Hk). rewrite (data_added _ _ Hok), list_lookup_imap in Hk.
    apply fmap_Some in Hk as (content & Hcontent & ->). rewrite Forall_lookup in Hc. exact (Hc _ _ Hcontent).
  - cbn [decode_from] in Hd. by rewrite Hid, Hadd in Hd.
Qed.
End Pieces.
