(* ===== verification/EngineObserver.v ===== *)
(** * EngineObserver: what the observer of a generation sees
      (src/runtime/reference_engine_control.cpp, the commit_token lambda)

    The controller of EngineControl.v hands every generated token to a callback.
    Here is what that callback can rely on, as a contract that a client of the
    controller instantiates. *)

From Stdlib Require Import Floats.
From S2P Require Import Prelude MtpControl Generation EngineControl.
(** ** The committed tokens

    What the observer of a generation sees, whatever the runner does: every
    generated token exactly once, in order and with its index, until it refuses
    one or the stop token is committed.  [T l] and [F l] describe the world
    after [l] was committed: [T] when all were accepted, [F] when the last was
    refused. *)

Section Committed.
Local Open Scope flow_scope.
Context {W : Type}.
Variable prompt : list Z.
Variable options : GenerationControlOptions W.
Variable prefill_plan : PrefillPlan W.
Variable decode_plan : DecodePlan W.
Variable committed : CommittedTokenFunction W.
Variables T F : list Z -> W -> Prop.

Abbreviation st := (St (W := W)).

Definition keeps (f : StepFunction W) : Prop := forall input opts l w o w', T l w -> f input opts w = (o, w') -> T l w'.

Record ObserverContract : Prop := {
  keeps_prefix f : prefix_step prefill_plan = Some f -> keeps f;
  keeps_finish f : finish_prefill prefill_plan = Some f -> keeps f;
  keeps_retained f : finish_prefill_from_tile prefill_plan = Some f -> keeps f;
  keeps_decode f : decode_step decode_plan = Some f -> keeps f;
  keeps_tile f : prefix_tile prefill_plan = Some f -> forall tokens opts l w o w',
    T l w -> f tokens opts w = (o, w') -> T l w';
  commits t ms l w b w' :
    T l w -> Forall (fun x => x <> stop_token_id options) l -> Z.of_nat (length l) < max_new_tokens options ->
    t < kReferenceVocabularySize ->
    committed t (Z.of_nat (length l)) ms w = (b, w') -> if b then T (l ++ [t]) w' else F (l ++ [t]) w'
}.
Hypothesis contract : ObserverContract.
Hypothesis observed : committed_token options = Some committed.
Hypothesis room : 0 < max_new_tokens options.

Definition carried (l : list Z) (s : st) : Prop :=
  T l (world s) /\ generated_token_ids (control s) = l /\ Forall (fun x => x <> stop_token_id options) l /\
  stop_reason (control s) = kMaxNewTokens.

Definition abandoned (r : GenerationControlResult) (s : st) : Prop :=
  value r = None /\ exists l, T l (world s).

Definition settled (s : st) : Prop :=
  let l := generated_token_ids (control s) in
  match stop_reason (control s) with
  | kMaxNewTokens => T l (world s)
  | kImEnd => T l (world s) \/ F l (world s)
  | kStopCancelled => F l (world s)
  end.

Lemma carried_fails {A} e status (post : A -> st -> Prop) l s : carried l s -> wp (fail_with e status) abandoned post s.
Proof. intros (HT & _). apply wp_return. split; [done|]. by exists l. Qed.

Lemma carried_update f l s :
  (forall c, generated_token_ids (f c) = generated_token_ids c /\ stop_reason (f c) = stop_reason c) ->
  carried l s -> carried l (update f s).
Proof. intros Hf (? & ? & ? & ?). destruct (Hf (control s)). unfold carried, update. cbn [world control]. split_and!; congruence. Qed.

Lemma execute_carried f input compute p status l s e s' :
  keeps f -> carried l s -> execute options f input compute p status s = (e, s') -> carried l s'.
Proof.
  intros Hk (HT & Hg & Hn & Hs). unfold execute, lift.
  destruct (f input _ (world s)) as [o w] eqn:Ef. pose proof (Hk _ _ _ _ _ _ HT Ef) as HT'.
  repeat case_match; intros; simplify_eq; by split_and!.
Qed.

Lemma execute_predicted f input p status s e s' :
  execute options f input true p status s = (e, s') -> exec_error e = kNone ->
  exec_predicted e < kReferenceVocabularySize.
Proof.
  unfold execute. destruct (lift _ s) as [o s1]. cbv zeta. cbn [andb].
  destruct (negb (step_outcome_ok o)); [intros; by simplify_eq|].
  destruct (step_value o) as [step|]; [|intros; by simplify_eq].
  case_bool_decide; cbn [negb]; [|intros; by simplify_eq].
  destruct (Z.leb_spec kReferenceVocabularySize (step_prediction options step)); intros; by simplify_eq.
Qed.

Lemma charge_carried ms l s : carried l s -> wp (charge_prefix ms) abandoned (fun _ s' => carried l s') s.
Proof.
  intros Hc. unfold charge_prefix. do 2 wp_step. wp_step; [by eapply carried_fails|]. wp_step.
  by apply carried_update.
Qed.

Lemma prefix_steps_carried f tokens p l s :
  keeps f -> carried l s -> wp (prefix_steps options f tokens p) abandoned (fun _ s' => carried l s') s.
Proof.
  intros Hk. revert p s. induction tokens as [|t tokens IH]; intros p s Hc; cbn [prefix_steps]; [by wp_step|].
  do 2 wp_step. assert (carried l w') by by eapply execute_carried. wp_step; [by eapply carried_fails|].
  wp_step. eapply wp_mono; [by apply (charge_carried _ l)|done|]. intros ? ? ?. by apply IH.
Qed.

Lemma run_tile_carried f count tokens l s :
  prefix_tile prefill_plan = Some f -> carried l s ->
  wp (run_tile options f count tokens) abandoned (fun _ s' => carried l s') s.
Proof.
  intros Hf Hc. unfold run_tile. do 2 wp_step.
  assert (Hc' : carried l w').
  { destruct Hc as (HT & Hg & Hn & Hs). unfold lift in *. destruct (f _ _ (world s)) as [o w] eqn:Ef. simplify_eq.
    split_and!; try done. by eapply (keeps_tile contract). }
  wp_step; [by eapply carried_fails|]. wp_step; [|by eapply carried_fails]. wp_step; [|by eapply carried_fails].
  wp_step; [by eapply carried_fails|]. wp_step; [by eapply carried_fails|]. do 2 wp_step.
  wp_step; [by eapply carried_fails|]. do 2 wp_step. apply charge_carried. by apply carried_update.
Qed.

Lemma prefix_tiles_carried f fuel chunk tokens l s :
  prefix_tile prefill_plan = Some f -> carried l s ->
  wp (prefix_tiles options fuel f chunk tokens) abandoned (fun _ s' => carried l s') s.
Proof.
  intros Hf. revert tokens s. induction fuel as [|fuel IH]; intros tokens s Hc; cbn [prefix_tiles]; [by wp_step|].
  destruct tokens as [|t tokens]; [by wp_step|]. cbv zeta. wp_step.
  eapply wp_mono; [by apply (run_tile_carried f _ _ l)|done|]. intros ? ? ?. by apply IH.
Qed.

Lemma prefill_prefix_carried f l s :
  prefix_step prefill_plan = Some f -> carried l s ->
  wp (prefill_prefix prompt options prefill_plan f) abandoned (fun _ s' => carried l s') s.
Proof.
  intros Hf Hc. unfold prefill_prefix. cbv zeta. do 2 wp_step.
  eapply (carried_update (with_route _ _ _)) in Hc; [|done]. wp_step.
  - destruct (prefix_tokens prompt options) as [|t ts]; [by wp_step|].
    destruct (prefix_tile prefill_plan) as [g|] eqn:Hg; [|by eapply carried_fails].
    wp_step. eapply wp_mono; [by apply (prefix_tiles_carried g _ _ _ l)|done|]. intros ? ? ?. by wp_step.
  - apply prefix_steps_carried; [by apply (keeps_prefix contract)|done].
Qed.

Lemma finish_prompt_carried f p l s :
  (if prefill_all_prompt_tokens options then finish_prefill_from_tile prefill_plan
   else finish_prefill prefill_plan) = Some f -> carried l s ->
  wp (finish_prompt prompt options f p) abandoned (fun t s' => carried l s' /\ t < kReferenceVocabularySize) s.
Proof.
  intros Hf Hc. assert (Hk : keeps f).
  { destruct (prefill_all_prompt_tokens options); [by apply (keeps_retained contract)|by apply (keeps_finish contract)]. }
  unfold finish_prompt. wp_step.
  apply (wp_mono _ abandoned _ (fun _ s' => carried l s')); [|done|].
  { destruct (prefill_all_prompt_tokens options); [|by wp_step]. do 2 wp_step.
    wp_step; [by eapply carried_fails|]. wp_step. by apply carried_update. }
  intros ? s1 Hc1. do 2 wp_step. assert (carried l w') by by eapply execute_carried.
  wp_step; [by eapply carried_fails|]. bools. do 2 wp_step. cbv zeta. wp_step; [by eapply carried_fails|].
  do 3 wp_step. split; [by apply carried_update|].
  match goal with H : execute _ _ _ _ _ _ _ = _, Hb : bool_decide _ = true |- _ =>
    by eapply execute_predicted; [exact H|apply bool_decide_eq_true in Hb] end.
Qed.

Lemma commit_carried t ms l s b s' (next : flow st GenerationControlResult unit) :
  carried l s -> Z.of_nat (length l) < max_new_tokens options -> t < kReferenceVocabularySize ->
  commit_token options t ms s = (b, s') ->
  (carried (l ++ [t]) s' -> wp next abandoned (fun _ s' => settled s') s') ->
  wp (if t =? stop_token_id options then modify (update (with_stop_reason kImEnd))
      else if negb b then modify (update (with_stop_reason kStopCancelled)) else next)
     abandoned (fun _ s' => settled s') s'.
Proof.
  intros (HT & Hg & Hn & Hs) Hlen Hv Hc Hnext. unfold commit_token in Hc. rewrite observed in Hc.
  unfold lift in Hc. cbn [world update] in Hc. rewrite Hg in Hc.
  destruct (committed t (Z.of_nat (length l)) ms (world s)) as [b' w] eqn:Ef. injection Hc as -> <-.
  pose proof (commits contract _ _ _ _ _ _ HT Hn Hlen Hv Ef) as Hb.
  assert (Hgen : generated_token_ids (push_token t (control s)) = l ++ [t]) by (cbn; by rewrite Hg).
  wp_step; [|wp_step].
  - wp_step. unfold settled. cbn -[push_token]. cbn [generated_token_ids with_stop_reason] in *. rewrite Hgen. destruct b; [by left|by right].
  - wp_step. bools. subst b. unfold settled. cbn -[push_token]. by rewrite Hgen.
  - bools. subst b. apply Hnext. split_and!; [done|done| |done].
    apply Forall_app. split; [done|]. by constructor.
Qed.

Lemma decode_loop_settled f fuel p l s :
  decode_step decode_plan = Some f -> (Z.to_nat (max_new_tokens options) - length l <= fuel)%nat -> carried l s ->
  wp (decode_loop options fuel f p) abandoned (fun _ s' => settled s') s.
Proof.
  intros Hf. revert p l s. induction fuel as [|fuel IH]; intros p l s Hfuel Hc; cbn [decode_loop].
  { wp_step. destruct Hc as (HT & Hg & _ & Hs). unfold settled. by rewrite Hs, Hg. }
  pose proof Hc as (HT & Hg & Hn & Hs). do 2 wp_step. rewrite Hg. wp_step.
  { wp_step. unfold settled. by rewrite Hs, Hg. }
  do 2 wp_step. assert (Hc1 : carried l w') by (eapply execute_carried; [by apply (keeps_decode contract)|done|done]).
  wp_step; [by eapply carried_fails|]. bools.
  match goal with He : execute _ _ _ _ _ _ _ = (?a, _), Hb : bool_decide _ = true |- _ =>
    apply bool_decide_eq_true in Hb; pose proof (execute_predicted _ _ _ _ _ _ _ He Hb) end.
  do 2 wp_step. cbv zeta. wp_step; [by eapply carried_fails|]. do 4 wp_step.
  eapply (commit_carried _ _ l); [|done|done|done|].
  - by apply carried_update.
  - intros Hc2. apply (IH _ (l ++ [exec_predicted a])); [|done]. rewrite length_app. simpl. lia.
Qed.

Lemma run_generation_control_observed w r w' :
  T [] w ->
  run_generation_control prompt options prefill_plan decode_plan w = (r, w') ->
  match value r with
  | None => exists l, T l w'
  | Some c =>
      match stop_reason c with
      | kMaxNewTokens => T (generated_token_ids c) w'
      | kImEnd => T (generated_token_ids c) w' \/ F (generated_token_ids c) w'
      | kStopCancelled => F (generated_token_ids c) w'
      end
  end.
Proof.
  intros HT Hrun. unfold run_generation_control in Hrun.
  destruct (body _ _) as [r0 s'] eqn:Hbody. simplify_eq.
  set (P := fun (r : GenerationControlResult) (s : st) =>
    match value r with
    | None => exists l, T l (world s)
    | Some c => control s = c /\ settled s
    end).
  cut (wp (run_generation_control_flow prompt options prefill_plan decode_plan) P P
         {| world := w; control := empty_control |}).
  { intros Hwp. pose proof (wp_body _ _ _ _ _ Hwp Hbody) as HP. unfold P, settled in HP.
    destruct (value r) as [c|]; [|done]. by destruct HP as [-> ?]. }
  clear Hbody. set (s0 := {| world := w; control := empty_control |}).
  assert (Hc : carried [] s0) by by split_and!.
  assert (Hrej : forall r s, abandoned r s -> P r s) by (intros r0 s (Hv & Hl); unfold P; by rewrite Hv).
  assert (Hno : forall A e st (post : A -> _) l s, carried l s -> wp (fail_with e st) P post s).
  { intros A e st post l s (HTl & _). apply wp_return. by exists l. }
  clearbody s0. unfold run_generation_control_flow.
  destruct (admission_error _ _ _ _) as [e|]; [by eapply Hno|].
  destruct (prefix_step prefill_plan) as [f|] eqn:Hf; [|by eapply Hno].
  destruct (decode_step decode_plan) as [d|] eqn:Hd; [|by eapply Hno].
  wp_step. eapply wp_mono; [by apply (prefill_prefix_carried f [])|done|].
  intros p s1 Hc1. cbv beta in Hc1.
  destruct (if prefill_all_prompt_tokens options then _ else _) as [h|] eqn:Hh; [|by eapply Hno].
  wp_step. eapply wp_mono; [by apply (finish_prompt_carried h p [])|done|].
  intros t s2 [Hc2 Ht]. wp_step. eapply wp_mono.
  - unfold generate_from. do 6 wp_step. eapply (commit_carried _ _ []); [|exact room|exact Ht|eassumption|]; [by apply carried_update|].
    intros Hc3. eapply decode_loop_settled; [done| |done]. simpl. lia.
  - done.
  - intros ? s3 Hs3. do 3 wp_step. unfold P. cbn. done.
Qed.
End Committed.
