(* ===== verification/RouteEvidence.v ===== *)
(** * RouteEvidence: which kernels a prefill really ran
      (src/runtime/prefill_route_evidence.cpp,
      include/q3x/runtime/prefill_route_evidence.h and
      src/runtime/reference_runner_terminal_prefix_internal.h)

    While a prompt is processed, every finished operator is recorded by its role
    and by the route it took.  A pass over the 64 layers is recorded apart, and
    merged into the record of the request only when it is complete; the request
    is closed with the number of passes the controller counted.

    An enumerator is its underlying value, as the functions convert it to an
    index and refuse what is out of range. *)

From Stdlib Require Import String.
From S2P Require Import Prelude.

(** ** Data *)

Definition kNvFp4GateUp : Z := 0.
Definition kNvFp4Down : Z := 1.
Definition kFp8Qkv : Z := 2.
Definition kFp8Z : Z := 3.
Definition kFp8O : Z := 4.
Definition kAttention : Z := 5.
Definition kGdn : Z := 6.
Definition kPrefillOperatorRoleCount : Z := 7.

Definition kProduction : Z := 0.
Definition kExactFallback : Z := 1.
Definition kForbidden : Z := 2.

Definition kPrefillForbiddenBoundaryCount : Z := 5.

Inductive PrefillRouteEvidenceError :=
  | kEvidenceNone | kInactiveRequest | kInvalidRole | kInvalidDisposition | kInvalidBoundary | kCounterOverflow
  | kIncompleteTile | kUnexpectedLayerPassCount | kForbiddenRoute.

#[global] Instance PrefillRouteEvidenceError_eq_dec : EqDecision PrefillRouteEvidenceError.
Proof. solve_decision. Defined.

(** The operators of one pass over the pinned 64 layers. *)
Definition kExpectedPrefillLogicalOperatorsPerTile : list Z := [64; 64; 96; 48; 64; 16; 48].

Record PrefillOperatorRouteCounts := { production_hits : Z; exact_fallback_hits : Z; forbidden_hits : Z }.

Record PrefillRouteEvidence := {
  operators : list PrefillOperatorRouteCounts;
  forbidden_boundary_hits : list Z;
  completed_layer_passes : Z;
  expected_layer_passes : Z;
  request_active : bool;
  complete : bool;
  valid : bool;
  evidence_error : PrefillRouteEvidenceError
}.

Definition no_counts : PrefillOperatorRouteCounts := {| production_hits := 0; exact_fallback_hits := 0; forbidden_hits := 0 |}.

Definition empty_evidence : PrefillRouteEvidence := {|
  operators := replicate 7 no_counts; forbidden_boundary_hits := replicate 5 0; completed_layer_passes := 0;
  expected_layer_passes := 0; request_active := false; complete := false; valid := false; evidence_error := kEvidenceNone
|}.

Definition with_operators (l : list PrefillOperatorRouteCounts) (e : PrefillRouteEvidence) : PrefillRouteEvidence := {|
  operators := l; forbidden_boundary_hits := forbidden_boundary_hits e; completed_layer_passes := completed_layer_passes e;
  expected_layer_passes := expected_layer_passes e; request_active := request_active e; complete := complete e;
  valid := valid e; evidence_error := evidence_error e
|}.

Definition with_boundaries (l : list Z) (e : PrefillRouteEvidence) : PrefillRouteEvidence := {|
  operators := operators e; forbidden_boundary_hits := l; completed_layer_passes := completed_layer_passes e;
  expected_layer_passes := expected_layer_passes e; request_active := request_active e; complete := complete e;
  valid := valid e; evidence_error := evidence_error e
|}.

Definition with_completed (n : Z) (e : PrefillRouteEvidence) : PrefillRouteEvidence := {|
  operators := operators e; forbidden_boundary_hits := forbidden_boundary_hits e; completed_layer_passes := n;
  expected_layer_passes := expected_layer_passes e; request_active := request_active e; complete := complete e;
  valid := valid e; evidence_error := evidence_error e
|}.

(** ** Operations *)

(** The first error is the one that is kept. *)
Definition fail (e : PrefillRouteEvidence) (error : PrefillRouteEvidenceError) : PrefillRouteEvidence := {|
  operators := operators e; forbidden_boundary_hits := forbidden_boundary_hits e;
  completed_layer_passes := completed_layer_passes e; expected_layer_passes := expected_layer_passes e;
  request_active := request_active e; complete := complete e; valid := false;
  evidence_error := if bool_decide (evidence_error e = kEvidenceNone) then error else evidence_error e
|}.

Definition total (counts : PrefillOperatorRouteCounts) : option Z :=
  partial ← checked_add (production_hits counts) (exact_fallback_hits counts);
  checked_add partial (forbidden_hits counts).

Definition terminal_prefix_elides_role (role : Z) : bool :=
  (role =? kNvFp4GateUp) || (role =? kNvFp4Down) || (role =? kFp8O) || (role =? kAttention).

Definition expected_on (role : Z) : Z := at_ kExpectedPrefillLogicalOperatorsPerTile role.
Definition counts_on (e : PrefillRouteEvidence) (role : Z) : PrefillOperatorRouteCounts :=
  nth (Z.to_nat role) (operators e) no_counts.
Definition roles : list Z := [kNvFp4GateUp; kNvFp4Down; kFp8Qkv; kFp8Z; kFp8O; kAttention; kGdn].

Definition layer_pass_is_complete (layer_pass : PrefillRouteEvidence) (terminal_prefix_elision : bool) : bool :=
  if negb (bool_decide (evidence_error layer_pass = kEvidenceNone)) || request_active layer_pass || complete layer_pass
     || valid layer_pass || negb (completed_layer_passes layer_pass =? 0) || negb (expected_layer_passes layer_pass =? 0)
  then false
  else forallb (fun role =>
    let omitted := if terminal_prefix_elision && terminal_prefix_elides_role role then 1 else 0 in
    match total (counts_on layer_pass role) with
    | None => false
    | Some observed => observed =? u64 (expected_on role - omitted)
    end) roles.

Definition has_forbidden_hits (e : PrefillRouteEvidence) : bool :=
  existsb (fun counts => negb (forbidden_hits counts =? 0)) (operators e)
  || existsb (fun hits => negb (hits =? 0)) (forbidden_boundary_hits e).

Definition reset_prefill_route_request : PrefillRouteEvidence := {|
  operators := operators empty_evidence; forbidden_boundary_hits := forbidden_boundary_hits empty_evidence;
  completed_layer_passes := 0; expected_layer_passes := 0; request_active := true; complete := false; valid := false;
  evidence_error := kEvidenceNone
|}.

(** The counter of a disposition, and a change to it. *)
Definition counter (disposition : Z) (counts : PrefillOperatorRouteCounts) : Z :=
  if disposition =? kProduction then production_hits counts
  else if disposition =? kExactFallback then exact_fallback_hits counts else forbidden_hits counts.
Definition with_counter (disposition n : Z) (counts : PrefillOperatorRouteCounts) : PrefillOperatorRouteCounts :=
  if disposition =? kProduction
  then {| production_hits := n; exact_fallback_hits := exact_fallback_hits counts; forbidden_hits := forbidden_hits counts |}
  else if disposition =? kExactFallback
  then {| production_hits := production_hits counts; exact_fallback_hits := n; forbidden_hits := forbidden_hits counts |}
  else {| production_hits := production_hits counts; exact_fallback_hits := exact_fallback_hits counts; forbidden_hits := n |}.

Definition record_prefill_operator_route (e : PrefillRouteEvidence) (role disposition count : Z) : bool * PrefillRouteEvidence :=
  if kPrefillOperatorRoleCount <=? role then (false, fail e kInvalidRole)
  else if kForbidden <? disposition then (false, fail e kInvalidDisposition)
  else match checked_add (counter disposition (counts_on e role)) count with
       | None => (false, fail e kCounterOverflow)
       | Some updated =>
           (true, with_operators (<[Z.to_nat role := with_counter disposition updated (counts_on e role)]> (operators e)) e)
       end.

Definition record_prefill_forbidden_boundary (e : PrefillRouteEvidence) (boundary count : Z) : bool * PrefillRouteEvidence :=
  if kPrefillForbiddenBoundaryCount <=? boundary then (false, fail e kInvalidBoundary)
  else match checked_add (at_ (forbidden_boundary_hits e) boundary) count with
       | None => (false, fail e kCounterOverflow)
       | Some updated => (true, with_boundaries (set_at boundary updated (forbidden_boundary_hits e)) e)
       end.

(** Adding up two arrays of counters; [None] when one overflows. *)
Fixpoint merge_with {A} (f : A -> A -> option A) (destination source : list A) : option (list A) :=
  match destination, source with
  | d :: destination, s :: source => x ← f d s; l ← merge_with f destination source; Some (x :: l)
  | _, _ => Some []
  end.

Definition merge_counts (destination source : PrefillOperatorRouteCounts) : option PrefillOperatorRouteCounts :=
  p ← checked_add (production_hits destination) (production_hits source);
  x ← checked_add (exact_fallback_hits destination) (exact_fallback_hits source);
  f ← checked_add (forbidden_hits destination) (forbidden_hits source);
  Some {| production_hits := p; exact_fallback_hits := x; forbidden_hits := f |}.

Definition merge (request layer_pass : PrefillRouteEvidence) : option PrefillRouteEvidence :=
  l ← merge_with merge_counts (operators request) (operators layer_pass);
  b ← merge_with checked_add (forbidden_boundary_hits request) (forbidden_boundary_hits layer_pass);
  n ← checked_add (completed_layer_passes request) 1;
  Some (with_completed n (with_boundaries b (with_operators l request))).

Definition commit_layer_pass (request layer_pass : PrefillRouteEvidence) (terminal_prefix_elision : bool)
    : bool * PrefillRouteEvidence :=
  if negb (request_active request) || complete request then (false, fail request kInactiveRequest)
  else if negb (layer_pass_is_complete layer_pass terminal_prefix_elision) then (false, fail request kIncompleteTile)
  else match merge request layer_pass with
       | None => (false, fail request kCounterOverflow)
       | Some merged => (true, if has_forbidden_hits merged then fail merged kForbiddenRoute else merged)
       end.

Definition commit_prefill_route_layer_pass (request layer_pass : PrefillRouteEvidence) : bool * PrefillRouteEvidence :=
  commit_layer_pass request layer_pass false.
Definition commit_terminal_prefix_elided_layer_pass (request layer_pass : PrefillRouteEvidence) : bool * PrefillRouteEvidence :=
  commit_layer_pass request layer_pass true.

(** The loop over the roles; [omitted] is the deficit they agree on so far. *)
Fixpoint elided_passes (e : PrefillRouteEvidence) (l : list Z) (omitted : option Z) : option (option Z) :=
  match l with
  | [] => Some omitted
  | role :: l =>
      let per_pass := expected_on role in
      if u64_max / per_pass <? completed_layer_passes e then None else
      let expected := u64 (completed_layer_passes e * per_pass) in
      match total (counts_on e role) with
      | None => None
      | Some observed =>
          if expected <? observed then None else
          let deficit := expected - observed in
          if terminal_prefix_elides_role role then
            if (completed_layer_passes e <? deficit)
               || match omitted with Some n => negb (n =? deficit) | None => false end
            then None else elided_passes e l (Some deficit)
          else if negb (deficit =? 0) then None else elided_passes e l omitted
      end
  end.

(** How many of the passes left out the suffix of the last layer. *)
Definition terminal_prefix_elided_layer_passes (e : PrefillRouteEvidence) : option Z := mjoin (elided_passes e roles None).

Definition finalize_prefill_route_request (request : PrefillRouteEvidence) (expected : Z) : PrefillRouteEvidence :=
  let request :=
    if negb (request_active request) || complete request then fail request kInactiveRequest
    else if negb (completed_layer_passes request =? expected) then fail request kUnexpectedLayerPassCount
    else if has_forbidden_hits request then fail request kForbiddenRoute
    else request in {|
    operators := operators request; forbidden_boundary_hits := forbidden_boundary_hits request;
    completed_layer_passes := completed_layer_passes request; expected_layer_passes := expected; request_active := false;
    complete := true; valid := bool_decide (evidence_error request = kEvidenceNone); evidence_error := evidence_error request
  |}.

Definition operator_role_string (role : Z) : list Z :=
  if role =? kNvFp4GateUp then lit "nvfp4_gate_up" else if role =? kNvFp4Down then lit "nvfp4_down"
  else if role =? kFp8Qkv then lit "fp8_qkv" else if role =? kFp8Z then lit "fp8_z" else if role =? kFp8O then lit "fp8_o"
  else if role =? kAttention then lit "attention" else if role =? kGdn then lit "gdn" else lit "invalid".

Definition evidence_error_string (e : PrefillRouteEvidenceError) : list Z :=
  match e with
  | kEvidenceNone => lit "none" | kInactiveRequest => lit "inactive_request" | kInvalidRole => lit "invalid_role"
  | kInvalidDisposition => lit "invalid_disposition" | kInvalidBoundary => lit "invalid_boundary"
  | kCounterOverflow => lit "counter_overflow" | kIncompleteTile => lit "incomplete_tile"
  | kUnexpectedLayerPassCount => lit "unexpected_layer_pass_count" | kForbiddenRoute => lit "forbidden_route"
  end.

(** ** A request, from its hits *)

(** One finished operator, or one forbidden boundary that was crossed. *)
Inductive Hit := Operator (role disposition count : Z) | Boundary (boundary count : Z).

Definition record_hit (e : PrefillRouteEvidence) (h : Hit) : PrefillRouteEvidence :=
  match h with
  | Operator role disposition count => snd (record_prefill_operator_route e role disposition count)
  | Boundary boundary count => snd (record_prefill_forbidden_boundary e boundary count)
  end.

Definition layer_pass_of (hits : list Hit) : PrefillRouteEvidence := foldl record_hit empty_evidence hits.

(** Every pass: its hits, and whether it left out the suffix of the last layer. *)
Definition Pass : Type := list Hit * bool.

Definition commit_pass (request : PrefillRouteEvidence) (p : Pass) : PrefillRouteEvidence :=
  snd (if snd p then commit_terminal_prefix_elided_layer_pass request (layer_pass_of (fst p))
       else commit_prefill_route_layer_pass request (layer_pass_of (fst p))).

Definition request_evidence (passes : list Pass) (expected : Z) : PrefillRouteEvidence :=
  finalize_prefill_route_request (foldl commit_pass reset_prefill_route_request passes) expected.

(** *** What the hits add up to *)

Definition hit_on (role disposition : Z) (h : Hit) : Z :=
  match h with Operator r d n => if (r =? role) && (d =? disposition) then n else 0 | Boundary _ _ => 0 end.
Definition crossing_of (boundary : Z) (h : Hit) : Z :=
  match h with Boundary b n => if b =? boundary then n else 0 | Operator _ _ _ => 0 end.

Definition hits_on (role disposition : Z) (hits : list Hit) : Z := foldr Z.add 0 (hit_on role disposition <$> hits).
Definition crossings_of (boundary : Z) (hits : list Hit) : Z := foldr Z.add 0 (crossing_of boundary <$> hits).

Definition hit_ok (h : Hit) : Prop :=
  match h with
  | Operator role disposition count => is_u8 role /\ is_u8 disposition /\ is_u64 count
  | Boundary boundary count => is_u8 boundary /\ is_u64 count
  end.
Definition in_range (h : Hit) : Prop :=
  match h with
  | Operator role disposition _ => role < kPrefillOperatorRoleCount /\ disposition <= kForbidden
  | Boundary boundary _ => boundary < kPrefillForbiddenBoundaryCount
  end.

Definition omitted_on (role : Z) (elided : bool) : Z := if elided && terminal_prefix_elides_role role then 1 else 0.

(** A pass that counts: every role as often as the schedule asks for, by a
    production or an exact route, and nothing forbidden. *)
Definition proper (p : Pass) : Prop :=
  Forall in_range (fst p) /\
  (forall role, 0 <= role < kPrefillOperatorRoleCount ->
     hits_on role kProduction (fst p) + hits_on role kExactFallback (fst p) = expected_on role - omitted_on role (snd p) /\
     hits_on role kForbidden (fst p) = 0) /\
  (forall boundary, 0 <= boundary < kPrefillForbiddenBoundaryCount -> crossings_of boundary (fst p) = 0).

Lemma sum_app l1 l2 : foldr Z.add 0 (l1 ++ l2) = foldr Z.add 0 l1 + foldr Z.add 0 l2.
Proof. induction l1 as [|x l1 IH]; simpl; lia. Qed.

Lemma hits_on_snoc role d hits h : hits_on role d (hits ++ [h]) = hits_on role d hits + hit_on role d h.
Proof. unfold hits_on. rewrite fmap_app, sum_app. simpl. lia. Qed.
Lemma crossings_of_snoc b hits h : crossings_of b (hits ++ [h]) = crossings_of b hits + crossing_of b h.
Proof. unfold crossings_of. rewrite fmap_app, sum_app. simpl. lia. Qed.

Lemma sum_nonneg {A} (f : A -> Z) l : Forall (fun x => 0 <= f x) l -> 0 <= foldr Z.add 0 (f <$> l).
Proof. induction 1 as [|x l Hx _ IH]; [done|]. rewrite fmap_cons. cbn [foldr]. lia. Qed.

Lemma hit_on_nonneg role d h : hit_ok h -> 0 <= hit_on role d h.
Proof. destruct h; simpl; [|done]. intros (_ & _ & ?). destruct (_ && _); unfold is_u64 in *; lia. Qed.
Lemma crossing_of_nonneg b h : hit_ok h -> 0 <= crossing_of b h.
Proof. destruct h; simpl; [done|]. intros (_ & ?). destruct (_ =? _); unfold is_u64 in *; lia. Qed.

Lemma hits_on_nonneg role d hits : Forall hit_ok hits -> 0 <= hits_on role d hits.
Proof. intros Hok. apply sum_nonneg. eapply Forall_impl; [exact Hok|]. intros h. apply hit_on_nonneg. Qed.
Lemma crossings_of_nonneg b hits : Forall hit_ok hits -> 0 <= crossings_of b hits.
Proof. intros Hok. apply sum_nonneg. eapply Forall_impl; [exact Hok|]. intros h. apply crossing_of_nonneg. Qed.

(** *** One pass *)

Definition counts_ok (c : PrefillOperatorRouteCounts) : Prop :=
  is_u64 (production_hits c) /\ is_u64 (exact_fallback_hits c) /\ is_u64 (forbidden_hits c).

(** The record of a pass says what its hits are, or has an error because they
    are out of range or too many. *)
Record exact_pass (hits : list Hit) (e : PrefillRouteEvidence) : Prop := {
  pass_open : request_active e = false /\ complete e = false /\ valid e = false /\
              completed_layer_passes e = 0 /\ expected_layer_passes e = 0;
  pass_shape : length (operators e) = 7%nat /\ length (forbidden_boundary_hits e) = 5%nat;
  pass_counters :
    if bool_decide (evidence_error e = kEvidenceNone) then
      Forall in_range hits /\
      (forall role, 0 <= role < kPrefillOperatorRoleCount -> counts_on e role =
         {| production_hits := hits_on role kProduction hits; exact_fallback_hits := hits_on role kExactFallback hits;
            forbidden_hits := hits_on role kForbidden hits |} /\ counts_ok (counts_on e role)) /\
      (forall b, 0 <= b < kPrefillForbiddenBoundaryCount ->
         at_ (forbidden_boundary_hits e) b = crossings_of b hits /\ is_u64 (crossings_of b hits))
    else ~ Forall in_range hits \/
         (exists role d, 0 <= role < kPrefillOperatorRoleCount /\ 0 <= d <= kForbidden /\ u64_max < hits_on role d hits) \/
         (exists b, 0 <= b < kPrefillForbiddenBoundaryCount /\ u64_max < crossings_of b hits)
}.

Lemma fail_error e x : x <> kEvidenceNone -> bool_decide (evidence_error (fail e x) = kEvidenceNone) = false.
Proof.
  intros Hx. apply bool_decide_eq_false. simpl. by case_bool_decide.
Qed.

Lemma spoilt_pass hits h e e' :
  Forall hit_ok (hits ++ [h]) -> exact_pass hits e -> bool_decide (evidence_error e = kEvidenceNone) = false ->
  bool_decide (evidence_error e' = kEvidenceNone) = false ->
  (request_active e' = false /\ complete e' = false /\ valid e' = false /\
   completed_layer_passes e' = 0 /\ expected_layer_passes e' = 0) ->
  (length (operators e') = 7%nat /\ length (forbidden_boundary_hits e') = 5%nat) ->
  exact_pass (hits ++ [h]) e'.
Proof.
  intros Hok [_ _ Hc] He He' Hopen Hshape. split; [done|done|]. rewrite He'. rewrite He in Hc.
  apply Forall_app in Hok as [Hok Hh]. apply Forall_cons in Hh as [Hh _]. destruct Hc as [Hc|[Hc|Hc]].
  - left. by intros [? _]%Forall_app.
  - right. left. destruct Hc as (role & d & ? & ? & Hc). exists role, d. split_and!; try lia. rewrite hits_on_snoc.
    pose proof (hit_on_nonneg role d h Hh). lia.
  - right. right. destruct Hc as (b & ? & Hc). exists b. split; [lia|]. rewrite crossings_of_snoc.
    pose proof (crossing_of_nonneg b h Hh). lia.
Qed.

Lemma hit_on_self role d n : hit_on role d (Operator role d n) = n.
Proof. simpl. by rewrite !Z.eqb_refl. Qed.

Lemma checked_add_None a b : is_u64 a -> is_u64 b -> checked_add a b = None <-> u64_max < a + b.
Proof.
  intros Ha Hb. unfold checked_add. destruct (Z.ltb_spec (u64_max - a) b); split; try done; lia.
Qed.

Lemma counts_on_insert e role c role' :
  length (operators e) = 7%nat -> 0 <= role < 7 -> 0 <= role' < 7 ->
  counts_on (with_operators (<[Z.to_nat role := c]> (operators e)) e) role' = if role' =? role then c else counts_on e role'.
Proof.
  intros Hl Hr Hr'. unfold counts_on, with_operators. cbn [operators]. rewrite !nth_lookup.
  destruct (Z.eqb_spec role' role) as [->|Hne]; [by rewrite list_lookup_insert_eq by lia|by rewrite list_lookup_insert_ne by lia].
Qed.

(** The counter a hit goes to, with what it adds. *)
Lemma counts_snoc hits role d n c role' :
  is_u8 d -> d <= kForbidden ->
  c = {| production_hits := hits_on role' kProduction hits; exact_fallback_hits := hits_on role' kExactFallback hits;
         forbidden_hits := hits_on role' kForbidden hits |} ->
  {| production_hits := hits_on role' kProduction (hits ++ [Operator role d n]);
     exact_fallback_hits := hits_on role' kExactFallback (hits ++ [Operator role d n]);
     forbidden_hits := hits_on role' kForbidden (hits ++ [Operator role d n]) |} =
  if role' =? role then with_counter d (counter d c + n) c else c.
Proof.
  intros Hd Hmax ->. rewrite !hits_on_snoc. simpl. rewrite (Z.eqb_sym role role').
  unfold with_counter, counter, kProduction, kExactFallback, kForbidden, is_u8 in *.
  destruct (Z.eqb_spec role' role); simpl; [|f_equal; lia].
  assert (d = 0 \/ d = 1 \/ d = 2) as [->|[->| ->]] by lia; simpl; f_equal; lia.
Qed.

Lemma counts_ok_with_counter d n c : counts_ok c -> is_u64 n -> counts_ok (with_counter d n c).
Proof. intros (? & ? & ?) ?. unfold with_counter. by repeat case_match. Qed.
Lemma counts_ok_counter d c : counts_ok c -> is_u64 (counter d c).
Proof. intros (? & ? & ?). unfold counter. by repeat case_match. Qed.
Lemma counter_hits role d hits : is_u8 d -> d <= kForbidden ->
  counter d {| production_hits := hits_on role kProduction hits; exact_fallback_hits := hits_on role kExactFallback hits;
               forbidden_hits := hits_on role kForbidden hits |} = hits_on role d hits.
Proof.
  unfold counter, kProduction, kExactFallback, kForbidden, is_u8. intros ? ?.
  assert (d = 0 \/ d = 1 \/ d = 2) as [->|[->| ->]] by lia; done.
Qed.

Lemma record_hit_pass hits h e : Forall hit_ok (hits ++ [h]) -> exact_pass hits e -> exact_pass (hits ++ [h]) (record_hit e h).
Proof.
  intros Hok Hpass. pose proof Hpass as [Hopen [Ho Hf] Hcount]. pose proof Hok as Hok'.
  apply Forall_app in Hok' as [Hhits Hh]. apply Forall_cons in Hh as [Hh _].
  destruct (bool_decide (evidence_error e = kEvidenceNone)) eqn:He.
  2: { apply (spoilt_pass hits h e); try done.
    - destruct h as [role d n|b n]; simpl; unfold record_prefill_operator_route, record_prefill_forbidden_boundary;
        repeat case_match; simpl; try done; rewrite ?He; by destruct (evidence_error e).
    - destruct h as [role d n|b n]; simpl; unfold record_prefill_operator_route, record_prefill_forbidden_boundary;
        repeat case_match; simpl; try done; destruct Hopen as (? & ? & ? & ?); done.
    - destruct h as [role d n|b n]; simpl; unfold record_prefill_operator_route, record_prefill_forbidden_boundary;
        repeat case_match; simpl; try done; rewrite ?length_insert, ?length_set_at; done. }
  destruct Hcount as (Hin & Hcounts & Hcross). destruct h as [role d n|b n]; simpl.
  - destruct Hh as (Hrole & Hd & Hn). unfold record_prefill_operator_route, is_u8 in *.
    destruct (Z.leb_spec kPrefillOperatorRoleCount role) as [Hr|Hr]; simpl.
    { split; [by destruct Hopen as (?&?&?&?&?)|exact (conj Ho Hf)|]. rewrite fail_error by done. left. intros [_ Hbad]%Forall_app. apply Forall_cons in Hbad as [[? ?] _]. lia. }
    destruct (Z.ltb_spec kForbidden d) as [Hm|Hm]; simpl.
    { split; [by destruct Hopen as (?&?&?&?&?)|exact (conj Ho Hf)|]. rewrite fail_error by done. left. intros [_ Hbad]%Forall_app. apply Forall_cons in Hbad as [[? ?] _]. lia. }
    destruct (Hcounts role ltac:(lia)) as [Hc Hcok]. pose proof (counts_ok_counter d _ Hcok) as Hcd.
    destruct (checked_add _ n) as [updated|] eqn:Hadd; simpl.
    + apply checked_add_Some in Hadd as [-> Hsum]; [|done|done]. split; [exact Hopen|simpl; by rewrite length_insert|]. simpl. rewrite He. split_and!.
      * apply Forall_app. split; [done|]. apply Forall_cons. split; [|done]. split; lia.
      * intros role' Hr'. destruct (Hcounts role' Hr') as [Hc' Hcok'].
        rewrite counts_on_insert by (unfold kPrefillOperatorRoleCount in *; lia).
        rewrite (counts_snoc hits role d n _ role' ltac:(unfold is_u8; lia) Hm Hc'). destruct (Z.eqb_spec role' role) as [->|]; [|done].
        split; [done|]. apply counts_ok_with_counter; [done|]. unfold is_u64, u64_max in *. lia.
      * intros b Hb. rewrite crossings_of_snoc. simpl. rewrite Z.add_0_r. by apply Hcross.
    + apply checked_add_None in Hadd; [|done|done]. split; [by destruct Hopen as (?&?&?&?&?)|exact (conj Ho Hf)|]. rewrite fail_error by done. right. left.
      exists role, d. split_and!; try lia. rewrite hits_on_snoc, hit_on_self. rewrite Hc in Hadd.
      rewrite counter_hits in Hadd by (done || (unfold is_u8; lia)). done.
  - destruct Hh as (Hb & Hn). unfold record_prefill_forbidden_boundary, is_u8 in *.
    destruct (Z.leb_spec kPrefillForbiddenBoundaryCount b) as [Hr|Hr]; simpl.
    { split; [by destruct Hopen as (?&?&?&?&?)|exact (conj Ho Hf)|]. rewrite fail_error by done. left. intros [_ Hbad]%Forall_app. apply Forall_cons in Hbad as [Hbad _]. simpl in Hbad. lia. }
    destruct (Hcross b ltac:(lia)) as [Hc Hcok].
    destruct (checked_add _ n) as [updated|] eqn:Hadd; simpl.
    + rewrite Hc in Hadd. apply checked_add_Some in Hadd as [-> Hsum]; [|done|done]. split; [exact Hopen|simpl; by rewrite length_set_at|].
      simpl. rewrite He. split_and!.
      * apply Forall_app. split; [done|]. apply Forall_cons. split; [|done]. done.
      * intros role Hr'. destruct (Hcounts role Hr') as [Hc' Hcok']. rewrite !hits_on_snoc. simpl. rewrite !Z.add_0_r. done.
      * intros b' Hb'. rewrite crossings_of_snoc. simpl. rewrite (Z.eqb_sym b b').
        destruct (Z.eqb_spec b' b) as [->|Hne].
        -- rewrite at_set_at_eq by (unfold kPrefillForbiddenBoundaryCount in *; lia). split; [done|]. unfold is_u64, u64_max in *. lia.
        -- rewrite at_set_at_ne by lia. rewrite Z.add_0_r. by apply Hcross.
    + rewrite Hc in Hadd. apply checked_add_None in Hadd; [|done|done]. split; [by destruct Hopen as (?&?&?&?&?)|exact (conj Ho Hf)|]. rewrite fail_error by done. right. right.
      exists b. split; [lia|]. rewrite crossings_of_snoc. simpl. by rewrite Z.eqb_refl.
Qed.

Lemma layer_pass_exact hits : Forall hit_ok hits -> exact_pass hits (layer_pass_of hits).
Proof.
  induction hits as [|h hits IH] using rev_ind; intros Hok.
  - split; [done|done|]. simpl. split_and!; [done| |].
    + intros role Hr. unfold kPrefillOperatorRoleCount in Hr.
      assert (role = 0 \/ role = 1 \/ role = 2 \/ role = 3 \/ role = 4 \/ role = 5 \/ role = 6) as Hcase by lia.
      destruct_or! Hcase; subst role; done.
    + intros b Hb. unfold kPrefillForbiddenBoundaryCount in Hb.
      assert (b = 0 \/ b = 1 \/ b = 2 \/ b = 3 \/ b = 4) as Hcase by lia. destruct_or! Hcase; subst b; done.
  - unfold layer_pass_of. rewrite foldl_app. simpl. apply record_hit_pass; [done|]. apply IH. by apply Forall_app in Hok as [? _].
Qed.

(** *** Complete passes *)

Lemma role_cases role : 0 <= role < kPrefillOperatorRoleCount -> In role roles.
Proof.
  unfold kPrefillOperatorRoleCount. intros Hr. simpl.
  unfold kNvFp4GateUp, kNvFp4Down, kFp8Qkv, kFp8Z, kFp8O, kAttention, kGdn. lia.
Qed.
Lemma roles_range role : In role roles -> 0 <= role < kPrefillOperatorRoleCount.
Proof.
  unfold kPrefillOperatorRoleCount. simpl. unfold kNvFp4GateUp, kNvFp4Down, kFp8Qkv, kFp8Z, kFp8O, kAttention, kGdn. lia.
Qed.
Lemma expected_range role : 0 <= role < kPrefillOperatorRoleCount -> 16 <= expected_on role <= 96.
Proof. intros Hr%role_cases. simpl in Hr. destruct_or! Hr; subst role; vm_compute; split; discriminate. Qed.

Lemma total_Some c n : counts_ok c -> total c = Some n ->
  n = production_hits c + exact_fallback_hits c + forbidden_hits c.
Proof.
  intros (Hp & Hx & Hf). unfold total. destruct (checked_add _ _) as [s|] eqn:Hs; [|done]. simpl.
  apply checked_add_Some in Hs as [-> Hle]; [|done|done]. intros Ht.
  apply checked_add_Some in Ht as [-> ?]; [done| |done]. unfold is_u64, u64_max in *. lia.
Qed.
Lemma total_small c : counts_ok c -> production_hits c + exact_fallback_hits c + forbidden_hits c <= u64_max ->
  total c = Some (production_hits c + exact_fallback_hits c + forbidden_hits c).
Proof.
  intros (Hp & Hx & Hf) Hle. unfold total.
  assert (Hs : checked_add (production_hits c) (exact_fallback_hits c) = Some (production_hits c + exact_fallback_hits c)).
  { apply checked_add_Some; [done|done|]. split; [done|]. unfold is_u64 in *. lia. }
  rewrite Hs. simpl. apply checked_add_Some; [|done|done]. unfold is_u64, u64_max in *. lia.
Qed.

(** The hits of every role are as many as the schedule asks for. *)
Definition shaped (p : Pass) : Prop :=
  Forall in_range (fst p) /\
  (forall role, 0 <= role < kPrefillOperatorRoleCount ->
     hits_on role kProduction (fst p) + hits_on role kExactFallback (fst p) + hits_on role kForbidden (fst p) =
     expected_on role - omitted_on role (snd p)) /\
  (forall b, 0 <= b < kPrefillForbiddenBoundaryCount -> crossings_of b (fst p) <= u64_max).

Lemma omitted_range role elided : 0 <= omitted_on role elided <= 1.
Proof. unfold omitted_on. case_match; lia. Qed.

Lemma complete_exact p : Forall hit_ok (fst p) ->
  layer_pass_is_complete (layer_pass_of (fst p)) (snd p) = true <-> shaped p.
Proof.
  destruct p as [hits elided]. cbn [fst snd]. intros Hok. pose proof (layer_pass_exact hits Hok) as [(H1 & H2 & H3 & H4 & H5) _ Hc].
  unfold layer_pass_is_complete. rewrite H1, H2, H3, H4, H5. rewrite !Z.eqb_refl. cbn [negb orb].
  assert (Hu64 : forall role, 0 <= role < kPrefillOperatorRoleCount ->
    u64 (expected_on role - omitted_on role elided) = expected_on role - omitted_on role elided).
  { intros role Hr. apply u64_small. pose proof (expected_range role Hr). pose proof (omitted_range role elided).
    unfold is_u64. lia. }
  destruct (bool_decide (evidence_error _ = kEvidenceNone)) eqn:He; cbn [negb orb].
  - destruct Hc as (Hin & Hcounts & Hcross). rewrite forallb_forall. unfold shaped. cbn [fst snd]. split.
    + intros Hall. split_and!; [done| |].
      * intros role Hr. specialize (Hall role (role_cases role Hr)). destruct (Hcounts role Hr) as [Hc Hcok].
        destruct (total _) as [n|] eqn:Ht; [|done]. apply total_Some in Ht; [|done]. rewrite Hc in Ht. cbn in Ht.
        apply Z.eqb_eq in Hall. fold (omitted_on role elided) in Hall. rewrite Hu64 in Hall by done. lia.
      * intros b Hb. destruct (Hcross b Hb) as [_ ?]. unfold is_u64, u64_max in *. lia.
    + intros (_ & Hsum & _) role Hin'. pose proof (roles_range role Hin') as Hr. destruct (Hcounts role Hr) as [Hc Hcok].
      pose proof (Hsum role Hr). pose proof (expected_range role Hr). pose proof (omitted_range role elided).
      rewrite total_small; [|done|rewrite Hc; cbn; unfold u64_max; lia].
      fold (omitted_on role elided). rewrite Hu64 by done. rewrite Hc. cbn. by apply Z.eqb_eq.
  - split; [done|]. intros (Hin & Hsum & Hcross). exfalso. destruct Hc as [Hc|[(role & d & Hr & Hd & Hc)|(b & Hb & Hc)]].
    + done.
    + specialize (Hsum role Hr). cbn [fst snd] in Hsum. pose proof (expected_range role Hr). pose proof (omitted_range role elided).
      pose proof (hits_on_nonneg role kProduction hits Hok). pose proof (hits_on_nonneg role kExactFallback hits Hok).
      pose proof (hits_on_nonneg role kForbidden hits Hok). unfold kForbidden in Hd.
      assert (d = kProduction \/ d = kExactFallback \/ d = kForbidden) as Hcase by (unfold kProduction, kExactFallback, kForbidden; lia).
      unfold u64_max in Hc. destruct_or! Hcase; subst d; lia.
    + specialize (Hcross b Hb). cbn [fst] in Hcross. lia.
Qed.

Lemma proper_shaped p : Forall hit_ok (fst p) -> proper p <->
  shaped p /\ (forall role, 0 <= role < kPrefillOperatorRoleCount -> hits_on role kForbidden (fst p) = 0) /\
  (forall b, 0 <= b < kPrefillForbiddenBoundaryCount -> crossings_of b (fst p) = 0).
Proof.
  intros Hok. unfold proper, shaped. split.
  - intros (Hin & Hsum & Hcross). split_and!; [done| | | |done].
    + intros role Hr. destruct (Hsum role Hr). lia.
    + intros b Hb. rewrite (Hcross b Hb). unfold u64_max. lia.
    + intros role Hr. by destruct (Hsum role Hr).
  - intros ((Hin & Hsum & _) & Hforb & Hcross). split_and!; [done| |done]. intros role Hr. specialize (Hsum role Hr).
    specialize (Hforb role Hr). lia.
Qed.

(** *** A request *)

Lemma merge_with_total {A} (f : A -> A -> option A) d s :
  length d = length s -> (forall i x y, d !! i = Some x -> s !! i = Some y -> is_Some (f x y)) ->
  exists l, merge_with f d s = Some l /\ length l = length d /\
    forall i x y z, d !! i = Some x -> s !! i = Some y -> l !! i = Some z -> f x y = Some z.
Proof.
  revert s. induction d as [|x d IH]; intros [|y s] Hl Hf; simplify_eq/=; [by eexists|].
  destruct (Hf 0%nat x y eq_refl eq_refl) as [z Hz].
  destruct (IH s Hl (fun i => Hf (S i))) as (l & -> & Hlen & Hall). rewrite Hz. simpl. exists (z :: l). split_and!; [done|simpl; lia|].
  intros [|i] a b c Ha Hb Hc; simplify_eq/=; [done|by eapply Hall].
Qed.

Lemma counts_on_lookup e role : length (operators e) = 7%nat -> 0 <= role < kPrefillOperatorRoleCount ->
  operators e !! Z.to_nat role = Some (counts_on e role).
Proof.
  unfold kPrefillOperatorRoleCount, counts_on. intros Hl Hr. rewrite nth_lookup.
  destruct (lookup_lt_is_Some_2 (operators e) (Z.to_nat role) ltac:(lia)) as [c ->]. done.
Qed.
Lemma boundary_lookup e b : length (forbidden_boundary_hits e) = 5%nat -> 0 <= b < kPrefillForbiddenBoundaryCount ->
  forbidden_boundary_hits e !! Z.to_nat b = Some (at_ (forbidden_boundary_hits e) b).
Proof.
  unfold kPrefillForbiddenBoundaryCount, at_. intros Hl Hr. rewrite nth_lookup.
  destruct (lookup_lt_is_Some_2 (forbidden_boundary_hits e) (Z.to_nat b) ltac:(lia)) as [c ->]. done.
Qed.

Lemma has_forbidden_spec e : length (operators e) = 7%nat -> length (forbidden_boundary_hits e) = 5%nat ->
  has_forbidden_hits e = false <->
  (forall role, 0 <= role < kPrefillOperatorRoleCount -> forbidden_hits (counts_on e role) = 0) /\
  (forall b, 0 <= b < kPrefillForbiddenBoundaryCount -> at_ (forbidden_boundary_hits e) b = 0).
Proof.
  intros Ho Hb. unfold has_forbidden_hits. rewrite orb_false_iff, <- !not_true_iff_false, !existsb_exists. split.
  - intros [Hops Hbs]. split.
    + intros role Hr. pose proof (counts_on_lookup e role Ho Hr) as Hl. destruct (Z.eqb_spec (forbidden_hits (counts_on e role)) 0); [done|].
      destruct Hops. exists (counts_on e role). split; [by apply list_elem_of_In; eapply list_elem_of_lookup_2|].
      by apply negb_true_iff, Z.eqb_neq.
    + intros b Hr. pose proof (boundary_lookup e b Hb Hr) as Hl. destruct (Z.eqb_spec (at_ (forbidden_boundary_hits e) b) 0); [done|].
      destruct Hbs. exists (at_ (forbidden_boundary_hits e) b). split; [by apply list_elem_of_In; eapply list_elem_of_lookup_2|].
      by apply negb_true_iff, Z.eqb_neq.
  - intros [Hops Hbs]. split.
    + intros (c & Hin & Hc). apply list_elem_of_In, list_elem_of_lookup in Hin as [i Hi]. pose proof (lookup_lt_Some _ _ _ Hi).
      assert (Hr : 0 <= Z.of_nat i < kPrefillOperatorRoleCount) by (unfold kPrefillOperatorRoleCount; lia).
      pose proof (counts_on_lookup e _ Ho Hr) as Hl. rewrite Nat2Z.id, Hi in Hl. injection Hl as ->. by rewrite Hops in Hc.
    + intros (c & Hin & Hc). apply list_elem_of_In, list_elem_of_lookup in Hin as [i Hi]. pose proof (lookup_lt_Some _ _ _ Hi).
      assert (Hr : 0 <= Z.of_nat i < kPrefillForbiddenBoundaryCount) by (unfold kPrefillForbiddenBoundaryCount; lia).
      pose proof (boundary_lookup e _ Hb Hr) as Hl. rewrite Nat2Z.id, Hi in Hl. injection Hl as ->. by rewrite Hbs in Hc.
Qed.

(** What all passes add to one counter. *)
Definition all_hits (role disposition : Z) (passes : list Pass) : Z :=
  foldr Z.add 0 ((fun p => hits_on role disposition (fst p)) <$> passes).

Lemma all_hits_snoc role d passes p : all_hits role d (passes ++ [p]) = all_hits role d passes + hits_on role d (fst p).
Proof. unfold all_hits. rewrite fmap_app, sum_app. simpl. lia. Qed.

(** The record of a request whose passes were all proper. *)
Record exact_request (passes : list Pass) (e : PrefillRouteEvidence) : Prop := {
  request_open : request_active e = true /\ complete e = false /\ evidence_error e = kEvidenceNone;
  request_shape : length (operators e) = 7%nat /\ length (forbidden_boundary_hits e) = 5%nat;
  request_passes : completed_layer_passes e = Z.of_nat (length passes);
  request_counts : forall role, 0 <= role < kPrefillOperatorRoleCount -> counts_on e role =
    {| production_hits := all_hits role kProduction passes; exact_fallback_hits := all_hits role kExactFallback passes;
       forbidden_hits := 0 |};
  request_boundaries : forall b, 0 <= b < kPrefillForbiddenBoundaryCount -> at_ (forbidden_boundary_hits e) b = 0
}.

Definition passes_ok (passes : list Pass) : Prop :=
  Forall (fun p => Forall hit_ok (fst p)) passes /\ Z.of_nat (length passes) * 96 <= u64_max.

Lemma all_hits_range role passes : passes_ok passes -> Forall proper passes -> 0 <= role < kPrefillOperatorRoleCount ->
  0 <= all_hits role kProduction passes /\ 0 <= all_hits role kExactFallback passes /\
  all_hits role kProduction passes + all_hits role kExactFallback passes <= Z.of_nat (length passes) * 96.
Proof.
  intros [Hok _] Hproper Hr. induction passes as [|p passes IH] using rev_ind; [done|].
  apply Forall_app in Hok as [Hok Hp], Hproper as [Hproper Hpp]. apply Forall_cons in Hp as [Hp _], Hpp as [(_ & Hsum & _) _].
  rewrite !all_hits_snoc, length_app. cbn [length].
  destruct (Hsum role Hr) as [Hrole _]. pose proof (expected_range role Hr). pose proof (omitted_range role (snd p)).
  pose proof (hits_on_nonneg role kProduction _ Hp). pose proof (hits_on_nonneg role kExactFallback _ Hp).
  destruct (IH Hok Hproper) as (? & ? & ?). lia.
Qed.

Lemma commit_spoilt r p : evidence_error r <> kEvidenceNone -> evidence_error (commit_pass r p) <> kEvidenceNone.
Proof.
  intros He. unfold commit_pass, commit_terminal_prefix_elided_layer_pass, commit_prefill_route_layer_pass.
  assert (Hall : forall lp b, evidence_error (snd (commit_layer_pass r lp b)) <> kEvidenceNone).
  { intros lp b. unfold commit_layer_pass. repeat case_match; simpl; try (by rewrite bool_decide_false by done).
    - unfold merge in *. destruct (merge_with merge_counts _ _); [|done]. destruct (merge_with checked_add _ _); [|done].
      destruct (checked_add (completed_layer_passes r) 1); [|done]. simplify_eq/=. by rewrite bool_decide_false by done.
    - unfold merge in *. destruct (merge_with merge_counts _ _); [|done]. destruct (merge_with checked_add _ _); [|done].
      destruct (checked_add (completed_layer_passes r) 1); [|done]. by simplify_eq/=. }
  case_match; apply Hall.
Qed.

(** The counters of a complete pass. *)
Lemma complete_counters hits elided : Forall hit_ok hits -> layer_pass_is_complete (layer_pass_of hits) elided = true ->
  length (operators (layer_pass_of hits)) = 7%nat /\ length (forbidden_boundary_hits (layer_pass_of hits)) = 5%nat /\
  (forall role, 0 <= role < kPrefillOperatorRoleCount -> counts_on (layer_pass_of hits) role =
     {| production_hits := hits_on role kProduction hits; exact_fallback_hits := hits_on role kExactFallback hits;
        forbidden_hits := hits_on role kForbidden hits |}) /\
  (forall b, 0 <= b < kPrefillForbiddenBoundaryCount ->
     at_ (forbidden_boundary_hits (layer_pass_of hits)) b = crossings_of b hits /\ is_u64 (crossings_of b hits)).
Proof.
  intros Hok Hcomplete. destruct (layer_pass_exact hits Hok) as [_ [Ho Hb] Hc].
  unfold layer_pass_is_complete in Hcomplete. destruct (bool_decide (evidence_error _ = kEvidenceNone)); [|done].
  destruct Hc as (_ & Hcounts & Hcross). split_and!; [done|done| |done]. intros role Hr. by destruct (Hcounts role Hr).
Qed.

Lemma checked_add_small a b : is_u64 a -> is_u64 b -> a + b <= u64_max -> checked_add a b = Some (a + b).
Proof. intros. by apply checked_add_Some. Qed.

(** A complete pass is merged: nothing overflows. *)
Lemma merge_complete passes r p :
  passes_ok (passes ++ [p]) -> Forall proper passes -> exact_request passes r -> shaped p ->
  exists merged, merge r (layer_pass_of (fst p)) = Some merged /\
    request_active merged = true /\ complete merged = false /\ evidence_error merged = kEvidenceNone /\
    length (operators merged) = 7%nat /\ length (forbidden_boundary_hits merged) = 5%nat /\
    completed_layer_passes merged = Z.of_nat (length (passes ++ [p])) /\
    (forall role, 0 <= role < kPrefillOperatorRoleCount -> counts_on merged role =
      {| production_hits := all_hits role kProduction (passes ++ [p]);
         exact_fallback_hits := all_hits role kExactFallback (passes ++ [p]);
         forbidden_hits := hits_on role kForbidden (fst p) |}) /\
    (forall b, 0 <= b < kPrefillForbiddenBoundaryCount -> at_ (forbidden_boundary_hits merged) b = crossings_of b (fst p)).
Proof.
  intros [Hok Hbound] Hproper [(Ha & Hcomp & He) [Ho Hf] Hn Hcounts Hbounds] Hshaped.
  rewrite length_app in Hbound. cbn [length] in Hbound.
  apply Forall_app in Hok as [Hok Hp]. apply Forall_cons in Hp as [Hp _].
  pose proof (proj2 (complete_exact p Hp) Hshaped) as Hc. destruct Hshaped as (_ & Hsum & _).
  destruct (complete_counters _ _ Hp Hc) as (Ho' & Hf' & Hcounts' & Hcross').
  assert (Hmerge : forall role, 0 <= role < kPrefillOperatorRoleCount ->
    merge_counts (counts_on r role) (counts_on (layer_pass_of (fst p)) role) =
    Some {| production_hits := all_hits role kProduction (passes ++ [p]);
            exact_fallback_hits := all_hits role kExactFallback (passes ++ [p]);
            forbidden_hits := hits_on role kForbidden (fst p) |}).
  { intros role Hr. rewrite (Hcounts role Hr), (Hcounts' role Hr), !all_hits_snoc. unfold merge_counts.
    cbn [production_hits exact_fallback_hits forbidden_hits].
    destruct (all_hits_range role passes) as (? & ? & ?); [split; [done|lia]|done|done|].
    pose proof (Hsum role Hr). pose proof (expected_range role Hr). pose proof (omitted_range role (snd p)).
    pose proof (hits_on_nonneg role kProduction _ Hp). pose proof (hits_on_nonneg role kExactFallback _ Hp).
    pose proof (hits_on_nonneg role kForbidden _ Hp). unfold u64_max in *.
    repeat (rewrite checked_add_small by (unfold is_u64, u64_max; lia); cbn [mbind option_bind]). done. }
  destruct (merge_with_total merge_counts (operators r) (operators (layer_pass_of (fst p)))) as (l & Hl & Hlen & Hlall).
  { by rewrite Ho, Ho'. }
  { intros i x y Hx Hy. pose proof (lookup_lt_Some _ _ _ Hx).
    assert (Hr : 0 <= Z.of_nat i < kPrefillOperatorRoleCount) by (unfold kPrefillOperatorRoleCount; lia).
    pose proof (counts_on_lookup r _ Ho Hr) as Hx'. pose proof (counts_on_lookup _ _ Ho' Hr) as Hy'. rewrite Nat2Z.id in Hx', Hy'.
    simplify_eq. rewrite (Hmerge _ Hr). done. }
  destruct (merge_with_total checked_add (forbidden_boundary_hits r) (forbidden_boundary_hits (layer_pass_of (fst p)))) as (b & Hb & Hblen & Hball).
  { by rewrite Hf, Hf'. }
  { intros i x y Hx Hy. pose proof (lookup_lt_Some _ _ _ Hx).
    assert (Hr : 0 <= Z.of_nat i < kPrefillForbiddenBoundaryCount) by (unfold kPrefillForbiddenBoundaryCount; lia).
    pose proof (boundary_lookup r _ Hf Hr) as Hx'. pose proof (boundary_lookup _ _ Hf' Hr) as Hy'. rewrite Nat2Z.id in Hx', Hy'.
    simplify_eq. rewrite (Hbounds _ Hr). destruct (Hcross' _ Hr) as [-> ?]. rewrite checked_add_small; [done| |done|]; unfold is_u64, u64_max in *; lia. }
  unfold merge. rewrite Hl. simpl. rewrite Hb. simpl.
  rewrite Hn, checked_add_small by (unfold is_u64, u64_max in *; lia). simpl. eexists. split; [done|]. cbn. split_and!; try done.
  - by rewrite Hlen.
  - by rewrite Hblen.
  - rewrite length_app. simpl. lia.
  - intros role Hr. unfold counts_on. cbn [operators with_completed with_boundaries with_operators].
    assert (Hi : (Z.to_nat role < length l)%nat) by (unfold kPrefillOperatorRoleCount in Hr; lia).
    destruct (lookup_lt_is_Some_2 l _ Hi) as [z Hz]. rewrite nth_lookup, Hz. simpl.
    pose proof (Hlall _ _ _ _ (counts_on_lookup r _ Ho Hr) (counts_on_lookup _ _ Ho' Hr) Hz) as Hm. rewrite (Hmerge _ Hr) in Hm. by injection Hm.
  - intros k Hr. cbn [forbidden_boundary_hits with_completed with_boundaries with_operators]. unfold at_.
    assert (Hi : (Z.to_nat k < length b)%nat) by (unfold kPrefillForbiddenBoundaryCount in Hr; lia).
    destruct (lookup_lt_is_Some_2 b _ Hi) as [z Hz]. rewrite nth_lookup, Hz. simpl.
    pose proof (Hball _ _ _ _ (boundary_lookup r _ Hf Hr) (boundary_lookup _ _ Hf' Hr) Hz) as Hm. rewrite (Hbounds _ Hr) in Hm.
    destruct (Hcross' _ Hr) as [Hc' ?]. rewrite Hc' in Hm. rewrite checked_add_small in Hm; [by injection Hm| |done|]; unfold is_u64, u64_max in *; lia.
Qed.

(** After any number of passes: they were all proper and the counters are their
    sums, or the record has an error. *)
Lemma commit_passes passes : passes_ok passes ->
  let r := foldl commit_pass reset_prefill_route_request passes in
  (Forall proper passes /\ exact_request passes r) \/ (~ Forall proper passes /\ evidence_error r <> kEvidenceNone).
Proof.
  induction passes as [|p passes IH] using rev_ind; intros Hpass; cbv zeta.
  - left. split; [done|]. split; try done.
    + intros role Hr%role_cases. simpl in Hr. destruct_or! Hr; subst role; done.
    + intros b Hb. unfold kPrefillForbiddenBoundaryCount in Hb.
      assert (b = 0 \/ b = 1 \/ b = 2 \/ b = 3 \/ b = 4) as Hcase by lia. destruct_or! Hcase; subst b; done.
  - rewrite foldl_app. cbn [foldl]. pose proof Hpass as [Hok Hbound]. rewrite length_app in Hbound. cbn [length] in Hbound.
    apply Forall_app in Hok as [Hok Hp]. apply Forall_cons in Hp as [Hp _].
    destruct IH as [[Hproper Hr]|[Hproper Herr]]; [split; [done|lia]| |].
    2: { right. split; [by intros [? _]%Forall_app|]. by apply commit_spoilt. }
    set (r := foldl commit_pass reset_prefill_route_request passes) in *. pose proof Hr as [(Ha & Hcomp & He) _ _ _ _].
    assert (Hcommit : commit_pass r p = snd (commit_layer_pass r (layer_pass_of (fst p)) (snd p))).
    { unfold commit_pass. by destruct (snd p). }
    rewrite Hcommit. unfold commit_layer_pass. rewrite Ha, Hcomp. cbn [negb orb].
    destruct (layer_pass_is_complete _ _) eqn:Hc; cbn [negb].
    + apply (complete_exact p Hp) in Hc.
      destruct (merge_complete passes r p Hpass Hproper Hr Hc) as (merged & Hm & Ha' & Hcomp' & He' & Ho' & Hf' & Hn' & Hc' & Hb').
      rewrite Hm. cbn [snd]. destruct (has_forbidden_hits merged) eqn:Hforb.
      * right. split; [|simpl; rewrite He'; done]. intros [_ Hbad]%Forall_app. apply Forall_cons in Hbad as [Hbad _].
        apply (proper_shaped p Hp) in Hbad as (_ & H0 & H1).
        assert (has_forbidden_hits merged = false); [|congruence]. apply has_forbidden_spec; [done|done|]. split.
        -- intros role Hrole. rewrite Hc' by done. cbn. by apply H0.
        -- intros b Hb. rewrite Hb' by done. by apply H1.
      * apply has_forbidden_spec in Hforb as [H0 H1]; [|done|done]. left. split.
        -- apply Forall_app. split; [done|]. apply Forall_cons. split; [|done]. apply (proper_shaped p Hp). split_and!; [done| |].
           ++ intros role Hrole. specialize (H0 role Hrole). by rewrite Hc' in H0.
           ++ intros b Hb. specialize (H1 b Hb). by rewrite Hb' in H1.
        -- split; [done|done|done| |].
           ++ intros role Hrole. specialize (H0 role Hrole). rewrite Hc' in H0 by done. cbn in H0. rewrite Hc', H0 by done. done.
           ++ intros b Hb. by apply H1.
    + right. split.
      * intros [_ Hbad]%Forall_app. apply Forall_cons in Hbad as [Hbad _]. apply (proper_shaped p Hp) in Hbad as [Hbad _].
        apply (complete_exact p Hp) in Hbad. congruence.
      * simpl. by rewrite He.
Qed.

Definition elided_count (passes : list Pass) : Z := foldr Z.add 0 ((fun p : Pass => if snd p then 1 else 0) <$> passes).

Lemma elided_count_range passes : 0 <= elided_count passes <= Z.of_nat (length passes).
Proof.
  induction passes as [|[hits b] passes IH]; [done|]. unfold elided_count in *. rewrite fmap_cons. cbn [foldr snd length].
  destruct b; lia.
Qed.

Lemma all_hits_sum role passes : Forall proper passes -> 0 <= role < kPrefillOperatorRoleCount ->
  all_hits role kProduction passes + all_hits role kExactFallback passes =
  Z.of_nat (length passes) * expected_on role - if terminal_prefix_elides_role role then elided_count passes else 0.
Proof.
  intros Hproper Hr. unfold elided_count. induction Hproper as [|[hits b] passes (_ & Hsum & _) _ IH].
  - simpl. by case_match.
  - unfold all_hits in *. rewrite !fmap_cons. cbn [foldr fst snd length]. destruct (Hsum role Hr) as [Hp _]. cbn [fst snd] in Hp.
    unfold omitted_on in Hp. destruct b, (terminal_prefix_elides_role role); cbn [andb] in *; lia.
Qed.

(** The deficits of a request whose passes were all proper. *)
Lemma exact_elided passes e : passes_ok passes -> Forall proper passes ->
  completed_layer_passes e = Z.of_nat (length passes) ->
  (forall role, 0 <= role < kPrefillOperatorRoleCount -> counts_on e role =
    {| production_hits := all_hits role kProduction passes; exact_fallback_hits := all_hits role kExactFallback passes;
       forbidden_hits := 0 |}) ->
  terminal_prefix_elided_layer_passes e = Some (elided_count passes).
Proof.
  intros Hok Hproper Hn Hcounts. pose proof (elided_count_range passes) as Hrange. pose proof Hok as [_ Hbound].
  assert (Hstep : forall role l omitted, 0 <= role < kPrefillOperatorRoleCount ->
    (omitted = None \/ omitted = Some (elided_count passes)) ->
    elided_passes e (role :: l) omitted =
    elided_passes e l (if terminal_prefix_elides_role role then Some (elided_count passes) else omitted)).
  { intros role l omitted Hr Homitted. cbn [elided_passes]. rewrite Hn. pose proof (expected_range role Hr) as Hexp.
    destruct (all_hits_range role passes Hok Hproper Hr) as (H0 & H1 & H2). pose proof (all_hits_sum role passes Hproper Hr) as Hsum.
    assert (Hdiv : (u64_max / expected_on role <? Z.of_nat (length passes)) = false).
    { apply Z.ltb_ge. apply Z.div_le_lower_bound; [lia|]. nia. }
    rewrite Hdiv, u64_small by (unfold is_u64, u64_max in *; nia). rewrite (Hcounts role Hr).
    rewrite total_small; [|split_and!; cbn; unfold is_u64, u64_max in *; lia|cbn; lia]. cbn [production_hits exact_fallback_hits forbidden_hits].
    rewrite Z.add_0_r, Hsum. destruct (terminal_prefix_elides_role role).
    - rewrite (proj2 (Z.ltb_ge (Z.of_nat (length passes) * expected_on role) _)) by lia.
      replace (Z.of_nat (length passes) * expected_on role - (Z.of_nat (length passes) * expected_on role - elided_count passes)) with (elided_count passes) by lia.
      rewrite (proj2 (Z.ltb_ge _ (elided_count passes))) by lia. cbn [orb].
      destruct Homitted as [->| ->]; [done|]. by rewrite Z.eqb_refl.
    - rewrite Z.sub_0_r, (proj2 (Z.ltb_ge _ _)), Z.sub_diag by lia. done. }
  unfold terminal_prefix_elided_layer_passes, roles.
  do 7 (rewrite Hstep; [|done|by (left; done) || by (right; done)]; cbn [terminal_prefix_elides_role]).
  done.
Qed.

Lemma final_valid r expected : request_active r = true -> complete r = false ->
  length (operators r) = 7%nat -> length (forbidden_boundary_hits r) = 5%nat ->
  valid (finalize_prefill_route_request r expected) = true <->
  evidence_error r = kEvidenceNone /\ completed_layer_passes r = expected /\ has_forbidden_hits r = false.
Proof.
  intros Ha Hc Ho Hf. unfold finalize_prefill_route_request. rewrite Ha, Hc. cbn [negb orb valid]. rewrite bool_decide_eq_true.
  destruct (Z.eqb_spec (completed_layer_passes r) expected); cbn [negb].
  - destruct (has_forbidden_hits r); simpl; [|tauto]. case_bool_decide; intuition congruence.
  - simpl. case_bool_decide; intuition congruence.
Qed.

(** C24. The receipt of a prefill.  The record of a request is valid exactly when
    every pass over the layers was complete, operator by operator, took only
    allowed routes and crossed no forbidden boundary, and the passes are as
    many as the controller counted.  Then its counters are the sums over the
    passes, operator by operator and route by route, nothing that was left out
    is counted, and the number of passes that left out the suffix of the last
    layer can be read off it. *)
Theorem evidence_exact passes expected : passes_ok passes ->
  let e := request_evidence passes expected in
  (valid e = true <-> Forall proper passes /\ expected = Z.of_nat (length passes)) /\
  (valid e = true ->
     complete e = true /\ request_active e = false /\ evidence_error e = kEvidenceNone /\
     completed_layer_passes e = expected_layer_passes e /\ has_forbidden_hits e = false /\
     (forall role, 0 <= role < kPrefillOperatorRoleCount ->
        counts_on e role = {| production_hits := all_hits role kProduction passes;
          exact_fallback_hits := all_hits role kExactFallback passes; forbidden_hits := 0 |} /\
        all_hits role kProduction passes + all_hits role kExactFallback passes =
        expected * expected_on role - if terminal_prefix_elides_role role then elided_count passes else 0) /\
     terminal_prefix_elided_layer_passes e = Some (elided_count passes)).
Proof.
  intros Hok e. unfold e, request_evidence. destruct (commit_passes passes Hok) as [[Hproper Hr]|[Hproper Herr]].
  2: { assert (Hv : valid (finalize_prefill_route_request (foldl commit_pass reset_prefill_route_request passes) expected) = false).
    { unfold finalize_prefill_route_request. cbn [valid]. apply bool_decide_eq_false.
      repeat case_match; simpl; rewrite ?bool_decide_false; done. }
    rewrite Hv. split; [|done]. split; [done|by intros [? _]]. }
  set (r := foldl commit_pass reset_prefill_route_request passes) in *. destruct Hr as [(Ha & Hc & He) [Ho Hf] Hn Hcounts Hb].
  assert (Hforb : has_forbidden_hits r = false).
  { apply has_forbidden_spec; [done|done|]. split; [|done]. intros role Hrole. by rewrite Hcounts. }
  pose proof (final_valid r expected Ha Hc Ho Hf) as Hvalid. split.
  - rewrite Hvalid, Hn. split; [intros (_ & <- & _)|intros [_ ->]]; done.
  - intros Hv. apply Hvalid in Hv as (_ & Hexp & _). unfold finalize_prefill_route_request.
    rewrite Ha, Hc, Hexp, Z.eqb_refl, Hforb. cbn [negb orb]. split_and!; try done.
    + intros role Hrole. split; [by rewrite <- Hcounts|]. rewrite all_hits_sum by done. by rewrite <- Hn, Hexp.
    + apply (exact_elided passes); [done|done|by rewrite <- Hn|]. intros role Hrole. by rewrite <- Hcounts.
Qed.

(** A full pass by production routes and one without the last suffix, its
    attention by the exact fallback. *)
Definition sample_passes : list Pass :=
  [((fun role => Operator role kProduction (expected_on role)) <$> roles, false);
   ([Operator kNvFp4GateUp kProduction 63; Operator kNvFp4Down kProduction 63; Operator kFp8Qkv kProduction 96;
     Operator kFp8Z kProduction 48; Operator kFp8O kProduction 63; Operator kAttention kExactFallback 15;
     Operator kGdn kProduction 40; Operator kGdn kExactFallback 8; Boundary 2 0], true)].

Lemma evidence_exact_witness :
  valid (request_evidence sample_passes 2) = true /\
  terminal_prefix_elided_layer_passes (request_evidence sample_passes 2) = Some 1.
Proof.
  assert (Hv : valid (request_evidence sample_passes 2) = true) by reflexivity. split; [exact Hv|].
  assert (Hok : passes_ok sample_passes).
  { split; [|vm_compute; discriminate].
    repeat (apply Forall_cons_2 || apply Forall_nil_2); repeat split; vm_compute; discriminate || reflexivity. }
  pose proof (proj2 (evidence_exact sample_passes 2 Hok) Hv) as (_ & _ & _ & _ & _ & _ & H). exact H.
Defined.
