(* ===== verification/Engine.v ===== *)
(** * Engine: one generation from prompt to text
      (src/runtime/reference_engine.cpp: generate, generate_prompt,
      generate_prompt_token_ids, generate_chat, generate_tokenized and what they
      call)

    The prompt is formatted and encoded, the options are checked, the runner
    begins a request, the controller of EngineControl.v generates with the
    adapters to the runner as callbacks, every committed token is decoded for
    the observer, and the ids are decoded again for the result.

    The model is an engine without a whole-request plan, in a build without the
    speculative service and without test seams, and memory is never exhausted.
    The runner is a record of operations on its state.  A diagnostic keeps its
    code, texts and CUDA error; the fields that only reach the log
    ([dependency_error], [layer], [operation], [retired_prefill_quanta]) are
    left out, and so are the counters of the whole-request route. *)

From Stdlib Require Import Floats String.
From stdpp Require Import gmap.
From S2P Require Import RouteEvidence Prelude OrderedMap Json Bpe MtpControl Generation RequestPlan OpenAI Tokenizer TokenizerText TokenizerPieces.
From S2P Require Import EngineControl EngineObserver.

(** ** Errors *)

Inductive ReferenceEngineError :=
  | kNone | kInvalidArgument | kCapacityExceeded | kArithmeticOverflow | kTokenizerFailure | kResidentLoadFailure
  | kWeightBindFailure | kRequestStateFailure | kRunnerFactoryFailure | kRunnerStepFailure | kRunnerResetFailure
  | kMissingLogits | kMissingTiming | kDecodeFailure | kTraceFailure | kAllocationFailure | kMissingPrediction
  | kPrefillPlanUnavailable | kCancelled.

#[global] Instance ReferenceEngineError_eq_dec : EqDecision ReferenceEngineError.
Proof. solve_decision. Defined.

Record ReferenceEngineDiagnostic := {
  diagnostic_code : ReferenceEngineError;
  diagnostic_stage : list Z;
  diagnostic_message : list Z;
  diagnostic_context : list Z;
  diagnostic_cuda_error : Z
}.

Definition engine_diagnostic (code : ReferenceEngineError) (stage message context : list Z) : ReferenceEngineDiagnostic := {|
  diagnostic_code := code; diagnostic_stage := stage; diagnostic_message := message; diagnostic_context := context;
  diagnostic_cuda_error := 0
|}.

Definition reference_runner_error_string (e : ReferenceRunnerError) : list Z :=
  match e with
  | Generation.kNone => lit "none" | Generation.kInvalidDependency => lit "invalid_dependency"
  | Generation.kInvalidModelWeights => lit "invalid_model_weights"
  | Generation.kInvalidRequestState => lit "invalid_request_state"
  | Generation.kInvalidLayerSchedule => lit "invalid_layer_schedule"
  | Generation.kCudaFailure => lit "cuda_failure" | Generation.kAllocationFailure => lit "allocation_failure"
  | Generation.kInvalidRunner => lit "invalid_runner" | Generation.kPoisoned => lit "poisoned"
  | Generation.kTokenOutOfRange => lit "token_out_of_range" | Generation.kCapacityExceeded => lit "capacity_exceeded"
  | Generation.kTraceUnavailable => lit "trace_unavailable" | Generation.kNonFiniteLogits => lit "nonfinite_logits"
  | Generation.kStateCommitFailure => lit "state_commit_failure"
  | Generation.kInvalidStepOptions => lit "invalid_step_options"
  | Generation.kRouteEvidenceFailure => lit "route_evidence_failure" | Generation.kCancelled => lit "cancelled"
  end.

Definition control_error_string (e : GenerationControlError) : list Z :=
  match e with
  | EngineControl.kNone => lit "none" | EngineControl.kInvalidArgument => lit "invalid_argument"
  | EngineControl.kCapacityExceeded => lit "capacity_exceeded"
  | EngineControl.kArithmeticOverflow => lit "arithmetic_overflow"
  | EngineControl.kRunnerFailure => lit "runner_failure" | EngineControl.kUnexpectedStep => lit "unexpected_step"
  | EngineControl.kMissingLogits => lit "missing_logits" | EngineControl.kMissingTiming => lit "missing_timing"
  | EngineControl.kAllocationFailure => lit "allocation_failure"
  | EngineControl.kMissingPrediction => lit "missing_prediction"
  end.

Definition runner_diagnostic (code : ReferenceEngineError) (stage : list Z) (status : ReferenceRunnerStatus)
    : ReferenceEngineDiagnostic := {|
  diagnostic_code := code; diagnostic_stage := stage;
  diagnostic_message := reference_runner_error_string (Generation.error status); diagnostic_context := [];
  diagnostic_cuda_error := Generation.cuda_error status
|}.

(** The error of a failed generation control; the CUDA error is the runner's. *)
Definition control_code (result : GenerationControlResult) : ReferenceEngineError :=
  match control_error result with
  | EngineControl.kNone => kNone
  | EngineControl.kInvalidArgument => kInvalidArgument
  | EngineControl.kCapacityExceeded => kCapacityExceeded
  | EngineControl.kArithmeticOverflow => kArithmeticOverflow
  | EngineControl.kRunnerFailure =>
      match Generation.error (runner_status result) with
      | Generation.kTraceUnavailable => kTraceFailure
      | Generation.kAllocationFailure => kAllocationFailure
      | Generation.kCancelled => kCancelled
      | _ => kRunnerStepFailure
      end
  | EngineControl.kUnexpectedStep => kRunnerStepFailure
  | EngineControl.kMissingLogits => kMissingLogits
  | EngineControl.kMissingTiming => kMissingTiming
  | EngineControl.kAllocationFailure => kAllocationFailure
  | EngineControl.kMissingPrediction => kMissingPrediction
  end.

Definition control_diagnostic (result : GenerationControlResult) : ReferenceEngineDiagnostic := {|
  diagnostic_code := control_code result; diagnostic_stage := lit "generation_control";
  diagnostic_message := control_error_string (control_error result); diagnostic_context := [];
  diagnostic_cuda_error :=
    if bool_decide (control_error result = EngineControl.kRunnerFailure)
    then Generation.cuda_error (runner_status result) else 0
|}.

(** ** What a load publishes

    The inventory of the layouts and graphs the engine has prepared, as far as
    the server checks it. *)

Inductive ReferenceDecodeGraphCachePolicy := kDisabled | kSm87ShortPositions.

#[global] Instance ReferenceDecodeGraphCachePolicy_eq_dec : EqDecision ReferenceDecodeGraphCachePolicy.
Proof. solve_decision. Defined.

Record DecodeGraphCacheStats := {
  decode_graph_cache_requested_policy : ReferenceDecodeGraphCachePolicy;
  decode_graph_cache_effective_policy : ReferenceDecodeGraphCachePolicy;
  decode_graph_cache_first_position : Z;
  decode_graph_cache_last_position : Z;
  decode_graph_cache_slot_count : Z;
  decode_graph_cache_fallback_reason : list Z
}.

Record ReferenceEngineLoadStats := {
  fp8_prefill_supermatrix_sidecars_enabled : bool;
  fp8_prefill_supermatrix_sidecar_projections : Z;
  fp8_prefill_supermatrix_sidecar_bytes : Z;
  fp8_output_sidecars_enabled : bool;
  fp8_output_sidecar_layers : Z;
  fp8_output_sidecar_bytes : Z;
  fp8_output_sidecar_fallback_reason : list Z;
  nvfp4_gate_up_coupled_feed_requested : bool;
  nvfp4_gate_up_coupled_feed_enabled : bool;
  nvfp4_gate_up_coupled_feed_layers : Z;
  nvfp4_gate_up_coupled_feed_bytes : Z;
  nvfp4_gate_up_coupled_feed_production_requested : bool;
  nvfp4_gate_up_coupled_feed_production_enabled : bool;
  nvfp4_gate_up_coupled_feed_production_bytes : Z;
  nvfp4_down_scale6_sidecars_enabled : bool;
  nvfp4_down_scale6_sidecar_eligible_layers : Z;
  nvfp4_down_scale6_sidecar_fallback_layers : Z;
  nvfp4_down_scale6_sidecar_bytes : Z;
  nvfp4_down_scale6_sidecar_fallback_reason : list Z;
  nvfp4_down_consumer_order_sidecars_requested : bool;
  nvfp4_down_consumer_order_sidecars_enabled : bool;
  nvfp4_down_consumer_order_sidecar_layers : Z;
  nvfp4_down_consumer_order_sidecar_bytes : Z;
  nvfp4_down_consumer_order_production_requested : bool;
  nvfp4_down_consumer_order_production_enabled : bool;
  nvfp4_down_consumer_order_production_bytes : Z;
  graph_cache : DecodeGraphCacheStats
}.

Definition with_graph_cache (g : DecodeGraphCacheStats) (l : ReferenceEngineLoadStats) : ReferenceEngineLoadStats := {|
  fp8_prefill_supermatrix_sidecars_enabled := fp8_prefill_supermatrix_sidecars_enabled l;
  fp8_prefill_supermatrix_sidecar_projections := fp8_prefill_supermatrix_sidecar_projections l;
  fp8_prefill_supermatrix_sidecar_bytes := fp8_prefill_supermatrix_sidecar_bytes l;
  fp8_output_sidecars_enabled := fp8_output_sidecars_enabled l;
  fp8_output_sidecar_layers := fp8_output_sidecar_layers l;
  fp8_output_sidecar_bytes := fp8_output_sidecar_bytes l;
  fp8_output_sidecar_fallback_reason := fp8_output_sidecar_fallback_reason l;
  nvfp4_gate_up_coupled_feed_requested := nvfp4_gate_up_coupled_feed_requested l;
  nvfp4_gate_up_coupled_feed_enabled := nvfp4_gate_up_coupled_feed_enabled l;
  nvfp4_gate_up_coupled_feed_layers := nvfp4_gate_up_coupled_feed_layers l;
  nvfp4_gate_up_coupled_feed_bytes := nvfp4_gate_up_coupled_feed_bytes l;
  nvfp4_gate_up_coupled_feed_production_requested := nvfp4_gate_up_coupled_feed_production_requested l;
  nvfp4_gate_up_coupled_feed_production_enabled := nvfp4_gate_up_coupled_feed_production_enabled l;
  nvfp4_gate_up_coupled_feed_production_bytes := nvfp4_gate_up_coupled_feed_production_bytes l;
  nvfp4_down_scale6_sidecars_enabled := nvfp4_down_scale6_sidecars_enabled l;
  nvfp4_down_scale6_sidecar_eligible_layers := nvfp4_down_scale6_sidecar_eligible_layers l;
  nvfp4_down_scale6_sidecar_fallback_layers := nvfp4_down_scale6_sidecar_fallback_layers l;
  nvfp4_down_scale6_sidecar_bytes := nvfp4_down_scale6_sidecar_bytes l;
  nvfp4_down_scale6_sidecar_fallback_reason := nvfp4_down_scale6_sidecar_fallback_reason l;
  nvfp4_down_consumer_order_sidecars_requested := nvfp4_down_consumer_order_sidecars_requested l;
  nvfp4_down_consumer_order_sidecars_enabled := nvfp4_down_consumer_order_sidecars_enabled l;
  nvfp4_down_consumer_order_sidecar_layers := nvfp4_down_consumer_order_sidecar_layers l;
  nvfp4_down_consumer_order_sidecar_bytes := nvfp4_down_consumer_order_sidecar_bytes l;
  nvfp4_down_consumer_order_production_requested := nvfp4_down_consumer_order_production_requested l;
  nvfp4_down_consumer_order_production_enabled := nvfp4_down_consumer_order_production_enabled l;
  nvfp4_down_consumer_order_production_bytes := nvfp4_down_consumer_order_production_bytes l;
  graph_cache := g
|}.

Definition retire_graph_cache (reason : list Z) (l : ReferenceEngineLoadStats) : ReferenceEngineLoadStats :=
  with_graph_cache {| decode_graph_cache_requested_policy := decode_graph_cache_requested_policy (graph_cache l);
    decode_graph_cache_effective_policy := kDisabled; decode_graph_cache_first_position := 0;
    decode_graph_cache_last_position := 0; decode_graph_cache_slot_count := 0;
    decode_graph_cache_fallback_reason := reason |} l.

(** ** Requests and results *)

Record ReferenceTokenEvent := {
  event_index : Z;
  event_token_id : Z;
  text_delta : list Z;
  event_generated_text : list Z;
  elapsed_milliseconds : float;
  is_stop_token : bool
}.

(** [None] is the null observer and the null probe; the flags say that a context
    pointer is given.  Both enumerations hold only their named values. *)
Record ReferenceGenerateOptions (S : Type) := {
  gen_max_new_tokens : Z;
  gen_capture_trace : bool;
  gen_stop_token_id : Z;
  gen_prefill_chunk_size : Z;
  gen_logits_mode : ReferenceLogitsMode;
  use_prepared_decode_graph_cache : bool;
  token_observer : option (ReferenceTokenEvent -> S -> bool * S);
  has_token_observer_context : bool;
  gen_prefill_execution_mode : ReferencePrefillExecutionMode;
  prefill_cancellation_probe : option (S -> bool * S);
  has_prefill_cancellation_context : bool
}.
Arguments gen_max_new_tokens {S}.
Arguments gen_capture_trace {S}.
Arguments gen_stop_token_id {S}.
Arguments gen_prefill_chunk_size {S}.
Arguments gen_logits_mode {S}.
Arguments use_prepared_decode_graph_cache {S}.
Arguments token_observer {S}.
Arguments has_token_observer_context {S}.
Arguments gen_prefill_execution_mode {S}.
Arguments prefill_cancellation_probe {S}.
Arguments has_prefill_cancellation_context {S}.

(** What a generation reports, the counters of the whole-request route left
    out. *)
Record ReferenceGeneration := {
  rendered_prompt : list Z;
  generation_prompt_token_ids : list Z;
  generation_token_ids : list Z;
  generated_text : list Z;
  generation_stop_reason : ReferenceStopReason;
  requested_prefill_chunk_size : Z;
  generation_effective_chunk_size : Z;
  generation_execution_mode : ReferencePrefillExecutionMode;
  generation_panel_count : Z;
  generation_layer_pass_count : Z;
  all_prompt_tokens_prefilled_by_tiles : bool;
  single_arbitrary_prefill_tiles : bool;
  generation_timing : ReferenceGenerationTiming;
  prefill_route_evidence : PrefillRouteEvidence;
  generation_steps : list ReferenceStepResult;
  generation_graph_replays : Z;
  generation_graph_serial_fallbacks : Z
}.

Definition ReferenceGenerateResult : Type := ReferenceEngineDiagnostic + ReferenceGeneration.
Definition refuse (code : ReferenceEngineError) (stage message : String.string) : ReferenceGenerateResult :=
  inl (engine_diagnostic code (lit stage) (lit message) []).

(** ** The final prompt token *)

Inductive ReferenceEnginePrefillFinalTokenPolicy := kLegacyScalarFinalStep | kExactFullC512Tile.

#[global] Instance FinalTokenPolicy_eq_dec : EqDecision ReferenceEnginePrefillFinalTokenPolicy.
Proof. solve_decision. Defined.

Definition kReferenceEnginePrefillFinalTokenProductionPolicy : ReferenceEnginePrefillFinalTokenPolicy :=
  kLegacyScalarFinalStep.

Definition reference_engine_prefill_exact_full_c512_prompt_selected (policy : ReferenceEnginePrefillFinalTokenPolicy)
    (whole_request_layer_major capture_trace : bool) (prefill_chunk_size prompt_token_count : Z) : bool :=
  bool_decide (policy = kExactFullC512Tile) && negb whole_request_layer_major && negb capture_trace
  && (prefill_chunk_size =? 512) && negb (prompt_token_count =? 0) && (prompt_token_count mod 512 =? 0).

(** Whether all the prompt's tokens go through tiles, in the build without
    tests. *)
Definition select_final_token_policy (whole_request_layer_major capture_trace : bool)
    (prefill_chunk_size prompt_token_count : Z) : bool :=
  if whole_request_layer_major then true else
  if capture_trace || (prefill_chunk_size <=? 1) then false else
  reference_engine_prefill_exact_full_c512_prompt_selected kReferenceEnginePrefillFinalTokenProductionPolicy
    false false prefill_chunk_size prompt_token_count.

Definition is_terminal_prefix_elision_scope
    (sm87_weight_only legacy_c512 whole_request capture_trace all_prompt_tokens : bool) : bool :=
  sm87_weight_only && legacy_c512 && negb whole_request && negb capture_trace && negb all_prompt_tokens.

Definition kDefaultRequestPrefillChunkSize : Z := 1.

(** ** The engine *)

(** The runner, with the device and the request's memory behind it. *)
Record ReferenceRunner (R : Type) := {
  begin_ordinary_request : R -> ReferenceRunnerStatus * R;
  step_with_trace : StepFunction R;
  record_scalar_prefill_route_fallback : R -> ReferenceRunnerStatus * R;
  prefill_prefix_tile_impl : bool -> PrefillTileFunction R;
  runner_finish_prefill_from_retained_tile : StepFunction R;
  has_fixed_position_decode_graph_p1 : R -> bool;
  replay_fixed_position_decode_graph_p1 : Z -> bool -> R -> ReferenceStepOutcome * R;
  clear_fixed_position_decode_graph_cache : R -> ReferenceRunnerStatus * R;
  finalize_prefill_route_evidence : Z -> R -> PrefillRouteEvidence * R;
  commit_ordinary_request_boundary : R -> ReferenceRunnerStatus * R
}.
Arguments begin_ordinary_request {R}.
Arguments step_with_trace {R}.
Arguments record_scalar_prefill_route_fallback {R}.
Arguments prefill_prefix_tile_impl {R}.
Arguments runner_finish_prefill_from_retained_tile {R}.
Arguments has_fixed_position_decode_graph_p1 {R}.
Arguments replay_fixed_position_decode_graph_p1 {R}.
Arguments clear_fixed_position_decode_graph_cache {R}.
Arguments finalize_prefill_route_evidence {R}.
Arguments commit_ordinary_request_boundary {R}.

(** An engine whose whole-request plan was not provisioned
    ([bound_prefill_plan] is null).  [loaded]: the weights, the request state
    and the runner are present. *)
Record Impl (R : Type) := {
  tokenizer : option TokenizerData;
  loaded : bool;
  trace_enabled : bool;
  request_plan : RequestMemoryPlan;
  sm87_weight_only : bool;
  runner : R;
  decode_graph_cache_ready : bool;
  load : ReferenceEngineLoadStats
}.
Arguments tokenizer {R}.
Arguments loaded {R}.
Arguments trace_enabled {R}.
Arguments request_plan {R}.
Arguments sm87_weight_only {R}.
Arguments runner {R}.
Arguments decode_graph_cache_ready {R}.
Arguments load {R}.

Definition with_runner {R} (r : R) (impl : Impl R) : Impl R := {|
  tokenizer := tokenizer impl; loaded := loaded impl; trace_enabled := trace_enabled impl;
  request_plan := request_plan impl; sm87_weight_only := sm87_weight_only impl; runner := r;
  decode_graph_cache_ready := decode_graph_cache_ready impl; load := load impl
|}.

Definition layer_major_memory_profile {R} (impl : Impl R) : bool :=
  bool_decide (profile (request_plan impl) = kLayerMajorC8192)
  || bool_decide (profile (request_plan impl) = kLayerMajorP40WholeCore).

(** [ReferenceEngine::operator bool]. *)
Definition engine_ready {R} (engine : option (Impl R)) : bool :=
  match engine with
  | None => false
  | Some impl => negb (null (tokenizer impl)) && loaded impl && negb (layer_major_memory_profile impl)
  end.

Definition empty_load_stats : ReferenceEngineLoadStats := {|
  fp8_prefill_supermatrix_sidecars_enabled := false; fp8_prefill_supermatrix_sidecar_projections := 0;
  fp8_prefill_supermatrix_sidecar_bytes := 0; fp8_output_sidecars_enabled := false; fp8_output_sidecar_layers := 0;
  fp8_output_sidecar_bytes := 0; fp8_output_sidecar_fallback_reason := [];
  nvfp4_gate_up_coupled_feed_requested := false; nvfp4_gate_up_coupled_feed_enabled := false;
  nvfp4_gate_up_coupled_feed_layers := 0; nvfp4_gate_up_coupled_feed_bytes := 0;
  nvfp4_gate_up_coupled_feed_production_requested := false; nvfp4_gate_up_coupled_feed_production_enabled := false;
  nvfp4_gate_up_coupled_feed_production_bytes := 0; nvfp4_down_scale6_sidecars_enabled := false;
  nvfp4_down_scale6_sidecar_eligible_layers := 0; nvfp4_down_scale6_sidecar_fallback_layers := 0;
  nvfp4_down_scale6_sidecar_bytes := 0; nvfp4_down_scale6_sidecar_fallback_reason := [];
  nvfp4_down_consumer_order_sidecars_requested := false; nvfp4_down_consumer_order_sidecars_enabled := false;
  nvfp4_down_consumer_order_sidecar_layers := 0; nvfp4_down_consumer_order_sidecar_bytes := 0;
  nvfp4_down_consumer_order_production_requested := false; nvfp4_down_consumer_order_production_enabled := false;
  nvfp4_down_consumer_order_production_bytes := 0;
  graph_cache := {| decode_graph_cache_requested_policy := kDisabled; decode_graph_cache_effective_policy := kDisabled;
    decode_graph_cache_first_position := 0; decode_graph_cache_last_position := 0; decode_graph_cache_slot_count := 0;
    decode_graph_cache_fallback_reason := [] |}
|}.

Definition load_stats {R} (engine : option (Impl R)) : ReferenceEngineLoadStats :=
  match engine with Some impl => load impl | None => empty_load_stats end.

(** ** One generation *)

(** [EngineTokenObserverContext], what changes in it. *)
Record EngineTokenObserverContext := {
  observed_text : list Z;
  decode_error : option TokenizerError
}.

(** The state a generation runs on: the runner, the counters of the step
    context, the observer's context and the observer's own state. *)
Record EngineWorld (R S : Type) := {
  step_runner : R;
  decode_graph_replays : Z;
  decode_graph_serial_fallbacks : Z;
  observer_context : EngineTokenObserverContext;
  observer_state : S
}.
Arguments step_runner {R S}.
Arguments decode_graph_replays {R S}.
Arguments decode_graph_serial_fallbacks {R S}.
Arguments observer_context {R S}.
Arguments observer_state {R S}.

Section Generate.
Context {R S : Type}.
Variable ops : ReferenceRunner R.
Variable icu : Icu.
(** The text of a tokenizer error, which the model of the tokenizer leaves out. *)
Variable error_message : TokenizerError -> list Z.

Abbreviation world := (EngineWorld R S).

Definition tokenizer_error_string (c : TokenizerErrorCode) : list Z :=
  match c with
  | Tokenizer.kInvalidArgument => lit "invalid-argument" | kIoError => lit "io-error"
  | kTokenizerTooLarge => lit "tokenizer-too-large" | kJsonError => lit "json-error"
  | kSchemaMismatch => lit "schema-mismatch" | kUnsupportedRevision => lit "unsupported-revision"
  | Tokenizer.kInvalidUtf8 => lit "invalid-utf8" | kUnicodeError => lit "unicode-error" | kRegexError => lit "regex-error"
  | kInvalidVocabulary => lit "invalid-vocabulary" | kInvalidMerge => lit "invalid-merge"
  | Tokenizer.kInputTooLarge => lit "input-too-large" | kTooManyTokens => lit "too-many-tokens"
  | kInvalidTokenId => lit "invalid-token-id" | kUnsupportedChat => lit "unsupported-chat"
  | Tokenizer.kAllocationFailure => lit "allocation-failure" | kInternalError => lit "internal-error"
  end.

Definition tokenizer_diagnostic (stage : list Z) (e : TokenizerError) : ReferenceEngineDiagnostic :=
  engine_diagnostic kTokenizerFailure stage (error_message e) (lit "byte_offset=" ++ to_string (error_offset e)).

(** The adapters between the controller and the runner. *)
Definition on_runner {A} (f : R -> A * R) (w : world) : A * world :=
  let '(a, r) := f (step_runner w) in
  (a, {| step_runner := r; decode_graph_replays := decode_graph_replays w;
         decode_graph_serial_fallbacks := decode_graph_serial_fallbacks w;
         observer_context := observer_context w; observer_state := observer_state w |}).

Definition step_adapter : StepFunction world := fun input opts => on_runner (step_with_trace ops input opts).

Definition prefill_step_with_route : StepFunction world := fun input opts w =>
  let '(outcome, w) := step_adapter input opts w in
  if negb (step_outcome_ok outcome) then (outcome, w) else
  let '(route_status, w) := on_runner (record_scalar_prefill_route_fallback ops) w in
  if negb (status_ok route_status) then ({| step_value := None; step_status := route_status |}, w) else (outcome, w).

Definition trace_unavailable : ReferenceRunnerStatus := {| error := Generation.kTraceUnavailable; cuda_error := 0 |}.

Definition prefill_prefix_tile (capture_trace elide_terminal_prefix : bool) : PrefillTileFunction world :=
  fun tokens opts w =>
  if capture_trace then ({| tile_value := None; tile_status := trace_unavailable |}, w)
  else on_runner (prefill_prefix_tile_impl ops elide_terminal_prefix tokens opts) w.

Definition finish_prefill_from_retained_tile (capture_trace : bool) : StepFunction world := fun input opts w =>
  if capture_trace then ({| step_value := None; step_status := trace_unavailable |}, w)
  else on_runner (runner_finish_prefill_from_retained_tile ops input opts) w.

Definition count_graph_replay (w : world) : world := {|
  step_runner := step_runner w; decode_graph_replays := decode_graph_replays w + 1;
  decode_graph_serial_fallbacks := decode_graph_serial_fallbacks w;
  observer_context := observer_context w; observer_state := observer_state w |}.
Definition count_serial_fallback (w : world) : world := {|
  step_runner := step_runner w; decode_graph_replays := decode_graph_replays w;
  decode_graph_serial_fallbacks := decode_graph_serial_fallbacks w + 1;
  observer_context := observer_context w; observer_state := observer_state w |}.

Definition decode_with_prepared_graph_cache : StepFunction world := fun input opts w =>
  if compute_logits opts && negb (step_capture_trace opts)
     && match step_logits_mode opts with kPredictedTokenOnly => true | _ => false end
     && has_fixed_position_decode_graph_p1 ops (step_runner w)
  then on_runner (replay_fixed_position_decode_graph_p1 ops input (measure_timing opts)) (count_graph_replay w)
  else step_adapter input opts (count_serial_fallback w).

(** The committed token is decoded and shown to the observer. *)
Definition with_observer (context : EngineTokenObserverContext) (s : S) (w : world) : world := {|
  step_runner := step_runner w; decode_graph_replays := decode_graph_replays w;
  decode_graph_serial_fallbacks := decode_graph_serial_fallbacks w; observer_context := context; observer_state := s |}.

Definition observe_committed_token (data : option TokenizerData) (stop_token_id : Z)
    (observer : ReferenceTokenEvent -> S -> bool * S) : CommittedTokenFunction world :=
  fun token_id token_index elapsed w =>
  let context := observer_context w in
  let show delta context is_stop :=
    let '(b, s) := observer {| event_index := token_index; event_token_id := token_id; text_delta := delta;
                               event_generated_text := observed_text context; elapsed_milliseconds := elapsed;
                               is_stop_token := is_stop |} (observer_state w) in
    (b, with_observer context s w) in
  if token_id =? stop_token_id then show [] context true else
  match decode data false [token_id] with
  | (_, Some e) => (false, with_observer {| observed_text := observed_text context; decode_error := Some e |} (observer_state w) w)
  | (delta, None) => show delta {| observed_text := observed_text context ++ delta; decode_error := decode_error context |} false
  end.

(** Everything that is checked before the request begins. *)
Definition engine_required_steps (prompt_tokens max_new : Z) : option Z :=
  if max_new =? 0 then None else checked_required_steps prompt_tokens max_new.

Definition tokenized_options_error (impl : Impl R) (prompt_token_ids : list Z) (options : ReferenceGenerateOptions S)
    : option ReferenceEngineDiagnostic :=
  let error code stage message := Some (engine_diagnostic code (lit stage) (lit message) []) in
  let whole_request := match gen_prefill_execution_mode options with kWholeRequestLayerMajor => true | _ => false end in
  let capacity := plan_prefill_chunk_size (request_plan impl) in
  let max_length := plan_max_sequence_length (request_plan impl) in
  if bool_decide (prompt_token_ids = []) || (gen_max_new_tokens options =? 0) || (gen_prefill_chunk_size options =? 0)
     || (kMaximumRequestPrefillChunkSize <? gen_prefill_chunk_size options)
     || (kReferenceVocabularySize <=? gen_stop_token_id options)
     || (null (token_observer options) && has_token_observer_context options)
     || (null (prefill_cancellation_probe options) && has_prefill_cancellation_context options)
  then error kInvalidArgument "generation_options"%string
    "prompt tokens must be non-empty, max_new_tokens must be positive, prefill_chunk_size must be in [1,512], and stop_token_id must be in the pinned vocabulary; observer context requires an observer"%string
  else if existsb (fun token => kReferenceVocabularySize <=? token) prompt_token_ids
  then error kInvalidArgument "prompt_token_ids"%string "prompt contains an id outside the pinned vocabulary"%string
  else if gen_capture_trace options && negb (trace_enabled impl)
  then error kInvalidArgument "generation_options"%string
    "capture_trace requires an engine created with enable_trace=true"%string
  else if whole_request && (gen_capture_trace options
            || negb (gen_prefill_chunk_size options =? kMaximumRequestPrefillChunkSize)
            || negb (layer_major_memory_profile impl))
  then error kInvalidArgument "whole_request_prefill_options"%string
    "whole-request Prefill requires the isolated layer-major arena, the fixed C512 compatibility workspace, and trace disabled"%string
  else if negb whole_request && negb (null (prefill_cancellation_probe options))
  then error kInvalidArgument "prefill_cancellation_probe"%string
    "the bounded Prefill cancellation probe is available only for the whole-request layer-major route"%string
  else if whole_request
  then error kPrefillPlanUnavailable "prefill_plan_unavailable"%string
    "whole-request Prefill was not provisioned and sealed when this engine was created"%string
  else if negb (gen_capture_trace options) && (capacity <? gen_prefill_chunk_size options)
  then Some (engine_diagnostic kInvalidArgument (lit "generation_options")
    (lit "requested prefill chunk exceeds the engine workspace capacity")
    (lit "requested=" ++ to_string (gen_prefill_chunk_size options) ++ lit " capacity=" ++ to_string capacity))
  else
  match engine_required_steps (Z.of_nat (length prompt_token_ids)) (gen_max_new_tokens options) with
  | None => error kArithmeticOverflow "request_capacity"%string "prompt plus requested output overflows the sequence length"%string
  | Some required =>
      if max_length <? required
      then Some (engine_diagnostic kCapacityExceeded (lit "request_capacity")
        (lit "prompt tokens plus requested output exceed the configured sequence capacity")
        (lit "required_steps=" ++ to_string required ++ lit " capacity=" ++ to_string max_length))
      else None
  end.

Definition control_options (impl : Impl R) (prompt_token_ids : list Z) (options : ReferenceGenerateOptions S)
    : GenerationControlOptions world := {|
  max_new_tokens := gen_max_new_tokens options;
  stop_token_id := gen_stop_token_id options;
  EngineControl.max_sequence_length := plan_max_sequence_length (request_plan impl);
  EngineControl.prefill_chunk_size := gen_prefill_chunk_size options;
  capture_trace := gen_capture_trace options;
  logits_mode := gen_logits_mode options;
  prefill_all_prompt_tokens := select_final_token_policy false (gen_capture_trace options)
    (gen_prefill_chunk_size options) (Z.of_nat (length prompt_token_ids));
  prefill_single_arbitrary_tile := false;
  committed_token := observe_committed_token (tokenizer impl) (gen_stop_token_id options) <$> token_observer options
|}.

Definition prefill_plan (impl : Impl R) (prompt_token_ids : list Z) (options : ReferenceGenerateOptions S)
    : PrefillPlan world :=
  let elide := is_terminal_prefix_elision_scope (sm87_weight_only impl)
    (bool_decide (profile (request_plan impl) = kLegacyC512)) false (gen_capture_trace options)
    (prefill_all_prompt_tokens (control_options impl prompt_token_ids options)) in {|
  prefix_step := Some prefill_step_with_route;
  finish_prefill := Some prefill_step_with_route;
  prefix_tile := Some (prefill_prefix_tile (gen_capture_trace options) elide);
  finish_prefill_from_tile := Some (finish_prefill_from_retained_tile (gen_capture_trace options))
|}.

Definition use_production_decode_graph_cache (impl : Impl R) (options : ReferenceGenerateOptions S) : bool :=
  decode_graph_cache_ready impl && negb (gen_capture_trace options)
  && match gen_logits_mode options with kPredictedTokenOnly => true | _ => false end.

Definition decode_plan (impl : Impl R) (options : ReferenceGenerateOptions S) : DecodePlan world := {|
  decode_step := Some (if use_prepared_decode_graph_cache options || use_production_decode_graph_cache impl options
                       then decode_with_prepared_graph_cache else step_adapter)
|}.

(** A generation failed: a cache that was in use is retired for good.  When the
    clean-up fails too its error is added to the context; the name of the failing
    operation, which may follow it, is left out. *)
Definition demote_graph_cache (diagnostic : ReferenceEngineDiagnostic) (impl : Impl R)
    : ReferenceEngineDiagnostic * Impl R :=
  let '(clear_status, r) := clear_fixed_position_decode_graph_cache ops (runner impl) in
  let retired reason := {| tokenizer := tokenizer impl; loaded := loaded impl; trace_enabled := trace_enabled impl;
    request_plan := request_plan impl; sm87_weight_only := sm87_weight_only impl; runner := r;
    decode_graph_cache_ready := false; load := retire_graph_cache (lit reason) (load impl) |} in
  if negb (status_ok clear_status) then
    ({| diagnostic_code := diagnostic_code diagnostic; diagnostic_stage := diagnostic_stage diagnostic;
        diagnostic_message := diagnostic_message diagnostic;
        diagnostic_context := diagnostic_context diagnostic
          ++ (if bool_decide (diagnostic_context diagnostic = []) then [] else lit "; ")
          ++ lit "decode_graph_cache_runtime_demote_failed:"
          ++ reference_runner_error_string (Generation.error clear_status);
        diagnostic_cuda_error := diagnostic_cuda_error diagnostic |},
     retired "runtime_graph_failure_demote_cleanup_failed"%string)
  else (diagnostic, retired "runtime_graph_failure_demoted_to_serial"%string).

Definition evidence_bad (e : PrefillRouteEvidence) : bool :=
  negb (RouteEvidence.complete e) || negb (RouteEvidence.valid e) || request_active e || negb (bool_decide (evidence_error e = kEvidenceNone))
  || negb (completed_layer_passes e =? expected_layer_passes e).

(** From a successful control to the result. *)
Definition finish_generation (impl : Impl R) (rendered : list Z) (prompt_token_ids : list Z)
    (options : ReferenceGenerateOptions S) (control : GenerationControl) (replays fallbacks : Z)
    : ReferenceGenerateResult * Impl R :=
  let text_token_count := generated_text_token_count (generated_token_ids control) (stop_reason control)
                            (gen_stop_token_id options) in
  match decode (tokenizer impl) false (take (Z.to_nat text_token_count) (generated_token_ids control)) with
  | (_, Some e) =>
      (inl {| diagnostic_code := kDecodeFailure; diagnostic_stage := lit "generated_decode";
              diagnostic_message := error_message e;
              diagnostic_context := lit "byte_offset=" ++ to_string (error_offset e); diagnostic_cuda_error := 0 |}, impl)
  | (text, None) =>
      let '(evidence, r) := finalize_prefill_route_evidence ops (prefill_route_layer_pass_count control) (runner impl) in
      let impl := with_runner r impl in
      if evidence_bad evidence
      then (inl (engine_diagnostic kRunnerStepFailure (lit "prefill_route_evidence")
              (lit "runner did not publish a complete valid Prefill route witness")
              (evidence_error_string (evidence_error evidence))), impl)
      else
      let generation := {|
        rendered_prompt := rendered; generation_prompt_token_ids := prompt_token_ids;
        generation_token_ids := generated_token_ids control; generated_text := text;
        generation_stop_reason := stop_reason control;
        requested_prefill_chunk_size := gen_prefill_chunk_size options;
        generation_effective_chunk_size :=
          if gen_capture_trace options then kDefaultRequestPrefillChunkSize else gen_prefill_chunk_size options;
        generation_execution_mode := prefill_execution_mode control;
        generation_panel_count := prefill_logical_panel_count control;
        generation_layer_pass_count := prefill_route_layer_pass_count control;
        all_prompt_tokens_prefilled_by_tiles := select_final_token_policy false (gen_capture_trace options)
          (gen_prefill_chunk_size options) (Z.of_nat (length prompt_token_ids));
        single_arbitrary_prefill_tiles := false;
        generation_timing := timing control; prefill_route_evidence := evidence;
        generation_steps := steps control; generation_graph_replays := replays;
        generation_graph_serial_fallbacks := fallbacks |} in
      match stop_reason control with
      | kStopCancelled => (inr generation, impl)
      | _ =>
          let '(commit_boundary, r) := commit_ordinary_request_boundary ops (runner impl) in
          let impl := with_runner r impl in
          if status_ok commit_boundary then (inr generation, impl)
          else (inl (runner_diagnostic kRunnerStepFailure (lit "request_reuse_boundary") commit_boundary), impl)
      end
  end.

Definition generate_tokenized (rendered : list Z) (prompt_token_ids : list Z) (options : ReferenceGenerateOptions S)
    (engine : option (Impl R)) (s : S) : ReferenceGenerateResult * (option (Impl R) * S) :=
  match (if engine_ready engine then engine else None) with
  | None => (refuse kInvalidArgument "engine"%string "reference engine is empty"%string, (engine, s))
  | Some impl =>
      match tokenized_options_error impl prompt_token_ids options with
      | Some diagnostic => (inl diagnostic, (engine, s))
      | None =>
          let '(reset, r) := begin_ordinary_request ops (runner impl) in
          let impl := with_runner r impl in
          if negb (status_ok reset)
          then (inl (runner_diagnostic kRunnerResetFailure (lit "runner_reset") reset), (Some impl, s)) else
          let w := {| step_runner := runner impl; decode_graph_replays := 0; decode_graph_serial_fallbacks := 0;
                      observer_context := {| observed_text := []; decode_error := None |}; observer_state := s |} in
          let '(control, w) := run_generation_control prompt_token_ids
            (control_options impl prompt_token_ids options) (prefill_plan impl prompt_token_ids options)
            (decode_plan impl options) w in
          let impl := with_runner (step_runner w) impl in
          let s := observer_state w in
          if negb (control_ok control) then
            let diagnostic := control_diagnostic control in
            let '(diagnostic, impl) :=
              if use_production_decode_graph_cache impl options && negb (decode_graph_replays w =? 0)
              then demote_graph_cache diagnostic impl else (diagnostic, impl) in
            (inl diagnostic, (Some impl, s))
          else
          match decode_error (observer_context w), value control with
          | Some e, _ =>
              (inl (engine_diagnostic
                      (if match error_code e with Tokenizer.kAllocationFailure => true | _ => false end
                       then kAllocationFailure else kDecodeFailure)
                      (lit "token_observer_decode") (error_message e) (tokenizer_error_string (error_code e))), (Some impl, s))
          | None, Some control =>
              let '(result, impl) := finish_generation impl rendered prompt_token_ids options control
                (decode_graph_replays w) (decode_graph_serial_fallbacks w) in
              (result, (Some impl, s))
          | None, None => (inl (control_diagnostic control), (Some impl, s))
          end
      end
  end.

(** ** The three ways to ask

    [None] when encoding the prompt never ends. *)

Definition Answer : Type := option (ReferenceGenerateResult * (option (Impl R) * S)).

Definition engine_tokenizer (engine : option (Impl R)) : option TokenizerData := impl ← engine; tokenizer impl.

Definition generate_prompt (text : list Z) (options : ReferenceGenerateOptions S) (engine : option (Impl R)) (s : S)
    : Answer :=
  if negb (engine_ready engine)
  then Some (refuse kInvalidArgument "engine"%string "reference engine is empty"%string, (engine, s)) else
  if bool_decide (text = [])
  then Some (refuse kInvalidArgument "raw_prompt"%string "raw completion prompt must be non-empty"%string, (engine, s)) else
  match encode icu (engine_tokenizer engine) text with
  | EncodeLoops => None
  | EncodeFailed e _ => Some (inl (tokenizer_diagnostic (lit "raw_prompt_encode") e), (engine, s))
  | Encoded ids => Some (generate_tokenized text ids options engine s)
  end.

Definition generate_prompt_token_ids (ids : list Z) (options : ReferenceGenerateOptions S) (engine : option (Impl R)) (s : S)
    : Answer :=
  if negb (engine_ready engine)
  then Some (refuse kInvalidArgument "engine"%string "reference engine is empty"%string, (engine, s)) else
  if bool_decide (ids = [])
  then Some (refuse kInvalidArgument "prompt_token_ids"%string
               "raw completion token prompt must be non-empty"%string, (engine, s)) else
  match decode (engine_tokenizer engine) false ids with
  | (_, Some e) => Some (inl (tokenizer_diagnostic (lit "raw_prompt_decode") e), (engine, s))
  | (text, None) => Some (generate_tokenized text ids options engine s)
  end.

Definition format_chat_prompt (data : option TokenizerData) (source_messages : list ReferenceChatMessage)
    : option ChatResult :=
  format_qwen36_chat icu data
    ((fun m => {| role := message_role m; message_content := message_text m |}) <$> source_messages)
    {| add_generation_prompt := true; enable_thinking := false |}.

Definition generate_chat (source_messages : list ReferenceChatMessage) (options : ReferenceGenerateOptions S)
    (engine : option (Impl R)) (s : S) : Answer :=
  if negb (engine_ready engine)
  then Some (refuse kInvalidArgument "engine"%string "reference engine is empty"%string, (engine, s)) else
  if bool_decide (source_messages = [])
  then Some (refuse kInvalidArgument "chat_messages"%string "messages must be non-empty"%string, (engine, s)) else
  match format_chat_prompt (engine_tokenizer engine) source_messages with
  | None => None
  | Some chat =>
      match chat_error chat with
      | Some e => Some (inl (tokenizer_diagnostic (lit "chat_encode") e), (engine, s))
      | None =>
          if bool_decide (chat_token_ids chat = [])
          then Some (refuse kTokenizerFailure "chat_encode"%string
                       "the rendered chat prompt encoded to zero tokens"%string, (engine, s))
          else Some (generate_tokenized (chat_rendered chat) (chat_token_ids chat) options engine s)
      end
  end.

Definition generate (user_prompt : list Z) (options : ReferenceGenerateOptions S) (engine : option (Impl R)) (s : S)
    : Answer :=
  if bool_decide (user_prompt = [])
  then Some (refuse kInvalidArgument "generation_options"%string "prompt must be non-empty"%string, (engine, s))
  else generate_chat [{| message_role := lit "user"; message_text := user_prompt |}] options engine s.
End Generate.

(** ** What the observer is shown

    [next_event l e]: after [l], the engine may show [e]. *)

Record next_event (data : option TokenizerData) (stop max_new : Z) (l : list ReferenceTokenEvent)
    (e : ReferenceTokenEvent) : Prop := {
  next_index : event_index e = Z.of_nat (length l);
  next_room : Z.of_nat (length l) < max_new;
  next_before : Forall (fun e => event_token_id e <> stop) l;
  next_vocabulary : event_token_id e < kReferenceVocabularySize;
  next_stop : is_stop_token e = (event_token_id e =? stop);
  next_delta : if event_token_id e =? stop then text_delta e = []
               else decode data false [event_token_id e] = (text_delta e, None);
  next_text : event_generated_text e = mjoin (text_delta <$> l) ++ text_delta e
}.

(** The events of a generation so far. *)
Inductive shown (data : option TokenizerData) (stop max_new : Z) : list ReferenceTokenEvent -> Prop :=
  | shown_nil : shown data stop max_new []
  | shown_snoc l e : shown data stop max_new l -> next_event data stop max_new l e -> shown data stop max_new (l ++ [e]).

Lemma shown_deltas data stop max_new l :
  shown data stop max_new l ->
  Forall (fun e => if event_token_id e =? stop then text_delta e = []
                   else decode data false [event_token_id e] = (text_delta e, None)) l.
Proof.
  induction 1 as [|l e Hl IH [_ _ _ _ _ Hd _]]; [constructor|]. apply Forall_app. split; [done|]. by constructor.
Qed.

Lemma decode_pieces data ids ts result :
  Forall2 (fun id t => decode data false [id] = (t, None)) ids ts ->
  decode data false ids = (result, None) -> result = mjoin ts.
Proof. destruct data as [data|]; [apply decode_impl_pieces|done]. Qed.

(** Decoding the text tokens at the end gives what was shown. *)
Lemma shown_text data stop max_new l n result :
  shown data stop max_new l -> (n <= length l)%nat ->
  Forall (fun e => event_token_id e <> stop) (take n l) -> Forall (fun e => event_token_id e = stop) (drop n l) ->
  decode data false (take n (event_token_id <$> l)) = (result, None) ->
  result = mjoin (text_delta <$> l).
Proof.
  intros Hl Hn Ht Hd Hres. pose proof (shown_deltas _ _ _ _ Hl) as Hall.
  rewrite <- (take_drop n l) in Hall. apply Forall_app in Hall as [H1 H2].
  rewrite <- (take_drop n l) at 1. rewrite fmap_app, join_app.
  assert (Hnil : mjoin (text_delta <$> drop n l) = []).
  { clear -Hd H2. induction Hd as [|e l' He Hd IH]; [done|]. apply Forall_cons in H2 as [H H2].
    rewrite He, Z.eqb_refl in H. rewrite fmap_cons. cbn [mjoin list_join]. rewrite H. by apply IH. }
  rewrite Hnil, app_nil_r. rewrite <- fmap_take in Hres. eapply decode_pieces; [|exact Hres].
  clear -Ht H1. induction Ht as [|e l' He Ht IH]; [constructor|]. apply Forall_cons in H1 as [H H1].
  rewrite (proj2 (Z.eqb_neq _ _) He) in H. rewrite !fmap_cons. constructor; [done|]. by apply IH.
Qed.

Section Observed.
Context {R S : Type}.
Variable ops : ReferenceRunner R.
Variable icu : Icu.
Variable error_message : TokenizerError -> list Z.
Variable observer : ReferenceTokenEvent -> S -> bool * S.
Variable options : ReferenceGenerateOptions S.
Variable data : option TokenizerData.
(** [T l s]: the observer accepted [l] and is in the state [s]; [F l s]: it
    refused the last of [l]. *)
Variables T F : list ReferenceTokenEvent -> S -> Prop.
Hypothesis observer_set : token_observer options = Some observer.
Hypothesis unsigned : 0 <= gen_max_new_tokens options.

Abbreviation world := (EngineWorld R S).
Abbreviation next := (next_event data (gen_stop_token_id options) (gen_max_new_tokens options)).
Abbreviation seen := (shown data (gen_stop_token_id options) (gen_max_new_tokens options)).

Definition observer_contract : Prop := forall l e s b s',
  T l s -> seen l -> next l e -> observer e s = (b, s') -> if b then T (l ++ [e]) s' else F (l ++ [e]) s'.
Hypothesis contract : observer_contract.

(** The same, of the state of a generation. *)
Definition accepted (ids : list Z) (w : world) : Prop := exists l,
  event_token_id <$> l = ids /\ seen l /\ T l (observer_state w) /\
  observed_text (observer_context w) = mjoin (text_delta <$> l) /\ decode_error (observer_context w) = None.
Definition refused_last (ids : list Z) (w : world) : Prop :=
  (exists l, event_token_id <$> l = ids /\ seen l /\ F l (observer_state w) /\ decode_error (observer_context w) = None) \/
  (exists l e, seen l /\ T l (observer_state w) /\ decode_error (observer_context w) = Some e).

Lemma on_runner_keeps {A} (f : R -> A * R) ids w a w' :
  accepted ids w -> on_runner f w = (a, w') -> accepted ids w'.
Proof. unfold on_runner, accepted. destruct (f (step_runner w)) as [a' r]. intros H [= <- <-]. done. Qed.

Lemma step_adapter_keeps ids input opts w o w' :
  accepted ids w -> step_adapter ops input opts w = (o, w') -> accepted ids w'.
Proof. apply on_runner_keeps. Qed.

Lemma prefill_step_keeps ids input opts w o w' :
  accepted ids w -> prefill_step_with_route ops input opts w = (o, w') -> accepted ids w'.
Proof.
  intros H. unfold prefill_step_with_route. destruct (step_adapter ops input opts w) as [o1 w1] eqn:H1.
  apply step_adapter_keeps with (ids := ids) in H1; [|done]. case_match; [by intros [= <- <-]|].
  destruct (on_runner _ w1) as [st w2] eqn:H2. apply on_runner_keeps with (ids := ids) in H2; [|done].
  case_match; by intros [= <- <-].
Qed.

Lemma decode_with_cache_keeps ids input opts w o w' :
  accepted ids w -> decode_with_prepared_graph_cache ops input opts w = (o, w') -> accepted ids w'.
Proof.
  intros H. unfold decode_with_prepared_graph_cache. case_match; intros Hr; eapply on_runner_keeps; try exact Hr; exact H.
Qed.

Lemma commit_observed token ms ids (w : world) b w' :
  accepted ids w -> Forall (fun x => x <> gen_stop_token_id options) ids ->
  Z.of_nat (length ids) < gen_max_new_tokens options -> token < kReferenceVocabularySize ->
  observe_committed_token data (gen_stop_token_id options) observer token (Z.of_nat (length ids)) ms w = (b, w') ->
  if b then accepted (ids ++ [token]) w' else refused_last (ids ++ [token]) w'.
Proof.
  intros (l & Hids & Hl & HT & Htext & Herr) Hn Hroom Hv. unfold observe_committed_token.
  assert (Hlen : length ids = length l) by (by rewrite <- Hids, length_fmap).
  assert (Hbefore : Forall (fun e => event_token_id e <> gen_stop_token_id options) l) by (rewrite <- Hids, Forall_fmap in Hn; done).
  assert (Hshow : forall e context, next l e -> event_token_id e = token ->
    observed_text context = mjoin (text_delta <$> (l ++ [e])) -> decode_error context = None ->
    (let '(b, s) := observer e (observer_state w) in (b, with_observer context s w)) = (b, w') ->
    if b then accepted (ids ++ [token]) w' else refused_last (ids ++ [token]) w').
  { intros e context He Hid Hc Hd. destruct (observer e (observer_state w)) as [b0 s0] eqn:Ho. intros [= <- <-].
    pose proof (contract _ _ _ _ _ HT Hl He Ho) as Hb.
    assert (event_token_id <$> (l ++ [e]) = ids ++ [token]) by (rewrite fmap_app, Hids; cbn; by rewrite Hid).
    assert (seen (l ++ [e])) by by constructor.
    destruct b0; [|left]; exists (l ++ [e]); by split_and!. }
  assert (Hjoin : forall e, mjoin (text_delta <$> (l ++ [e])) = mjoin (text_delta <$> l) ++ text_delta e).
  { intros e. rewrite fmap_app, join_app. cbn. by rewrite app_nil_r. }
  destruct (Z.eqb_spec token (gen_stop_token_id options)) as [Hs|Hs].
  - apply Hshow; [|done|by rewrite Hjoin, Htext; cbn; rewrite app_nil_r|done].
    split; cbn; try done; rewrite ?Hlen; try lia.
    + by rewrite Hs, Z.eqb_refl.
    + by rewrite Htext, app_nil_r.
  - destruct (decode data false [token]) as [delta [err|]] eqn:Hd.
    + intros [= <- <-]. right. exists l, err. done.
    + apply Hshow; [|done|by rewrite Hjoin; cbn; rewrite Htext|done].
      split; cbn; try done; rewrite ?Hlen; try lia.
      * by rewrite (proj2 (Z.eqb_neq _ _) Hs).
      * by rewrite Htext.
Qed.
End Observed.

Section Outcome.
Context {R S : Type}.
Variable ops : ReferenceRunner R.
Variable icu : Icu.
Variable error_message : TokenizerError -> list Z.
Variable observer : ReferenceTokenEvent -> S -> bool * S.
Variable options : ReferenceGenerateOptions S.
Variable data : option TokenizerData.
Variables T F : list ReferenceTokenEvent -> S -> Prop.
Hypothesis observer_set : token_observer options = Some observer.
Hypothesis unsigned : 0 <= gen_max_new_tokens options /\ 0 <= gen_prefill_chunk_size options.
Hypothesis contract : observer_contract observer options data T F.

Abbreviation seen := (shown data (gen_stop_token_id options) (gen_max_new_tokens options)).

(** Some of the prompt was worked on and the observer has seen [l]. *)
Definition interrupted (s : S) : Prop := exists l, seen l /\ (T l s \/ F l s).

(** The observer has seen exactly the generation [g]. *)
Definition completed (g : ReferenceGeneration) (s : S) : Prop := exists l,
  seen l /\ event_token_id <$> l = generation_token_ids g /\ generated_text g = mjoin (text_delta <$> l) /\ l <> [] /\
  match generation_stop_reason g with
  | kImEnd => (T l s \/ F l s) /\ last (event_token_id <$> l) = Some (gen_stop_token_id options)
  | kMaxNewTokens => T l s /\ Z.of_nat (length l) = gen_max_new_tokens options /\
                     last (event_token_id <$> l) <> Some (gen_stop_token_id options)
  | kStopCancelled => F l s /\ last (event_token_id <$> l) <> Some (gen_stop_token_id options)
  end.

Definition outcome (r : ReferenceGenerateResult) (s : S) : Prop :=
  match r with inl _ => interrupted s | inr g => completed g s end.

Lemma observer_contract_control impl prompt_token_ids :
  tokenizer impl = data -> 0 < gen_max_new_tokens options ->
  ObserverContract (control_options impl prompt_token_ids options) (prefill_plan ops impl prompt_token_ids options)
    (decode_plan ops impl options) (observe_committed_token data (gen_stop_token_id options) observer)
    (accepted (R := R) options data T) (refused_last options data T F).
Proof.
  intros Hdata Hmax. split.
  - intros f [= <-] input opts l w o w'. apply prefill_step_keeps.
  - intros f [= <-] input opts l w o w'. apply prefill_step_keeps.
  - intros f [= <-] input opts l w o w' H. unfold finish_prefill_from_retained_tile. case_match; [by intros [= <- <-]|].
    by apply on_runner_keeps.
  - intros f [= <-] input opts l w o w' H. case_match; [by apply decode_with_cache_keeps|by apply step_adapter_keeps].
  - intros f [= <-] tokens opts l w o w' H. unfold prefill_prefix_tile. case_match; [by intros [= <- <-]|].
    by apply on_runner_keeps.
  - intros t ms l w b w' H Hn Hroom Hv Hc. exact (commit_observed observer options data T F contract t ms l w b w' H Hn Hroom Hv Hc).
Qed.

Lemma control_ended impl prompt_token_ids (w w' : EngineWorld R S) r c :
  run_generation_control prompt_token_ids (control_options impl prompt_token_ids options)
    (prefill_plan ops impl prompt_token_ids options) (decode_plan ops impl options) w = (r, w') ->
  control_ok r = true -> value r = Some c ->
  let g := generated_token_ids c in
  g <> [] /\ (forall j t, g !! j = Some t -> (Datatypes.S j < length g)%nat -> t <> gen_stop_token_id options) /\
  match stop_reason c with
  | kImEnd => last g = Some (gen_stop_token_id options)
  | kMaxNewTokens => last g <> Some (gen_stop_token_id options) /\ Z.of_nat (length g) = gen_max_new_tokens options
  | kStopCancelled => last g <> Some (gen_stop_token_id options)
  end.
Proof.
  intros Hrun Hok Hv g. destruct unsigned as [Hm Hc].
  assert (Hk : RunnerContract (control_options impl prompt_token_ids options)
    (prefill_plan ops impl prompt_token_ids options) (decode_plan ops impl options) (fun _ _ => True) (fun _ _ => True)) by by split.
  destruct (run_generation_control_spec _ _ _ _ _ _ Hk Hm Hc (admitted_run _ _ _ _ _ _ _ Hrun Hok)
    w r w' I Hrun Hok) as (g' & s & [Hr Hend] & Hv' & _).
  rewrite Hv in Hv'. injection Hv' as Heq. unfold g. rewrite Heq. rewrite (rn_generated _ _ _ _ _ _ Hr).
  split; [apply Hr|]. split; [apply Hr|].
  destruct (stop_reason (control s)); [done|done|apply Hend].
Qed.

Lemma last_lookup_lt {A} (l : list A) j x : l !! j = Some x -> (Datatypes.S j < length l)%nat \/ last l = Some x.
Proof.
  intros Hj. destruct (decide (Datatypes.S j < length l)%nat) as [|Hge]; [by left|right].
  pose proof (lookup_lt_Some _ _ _ Hj). rewrite last_lookup. by replace (pred (length l)) with j by lia.
Qed.

(** How many of the committed tokens are text, and that these are not the stop
    token. *)
Lemma text_tokens (l : list ReferenceTokenEvent) reason :
  l <> [] ->
  (forall j t, (event_token_id <$> l) !! j = Some t -> (Datatypes.S j < length (event_token_id <$> l))%nat -> t <> gen_stop_token_id options) ->
  match reason with
  | kImEnd => last (event_token_id <$> l) = Some (gen_stop_token_id options)
  | _ => last (event_token_id <$> l) <> Some (gen_stop_token_id options)
  end ->
  let n := Z.to_nat (generated_text_token_count (event_token_id <$> l) reason (gen_stop_token_id options)) in
  (n <= length l)%nat /\
  Forall (fun e => event_token_id e <> gen_stop_token_id options) (take n l) /\
  Forall (fun e => event_token_id e = gen_stop_token_id options) (drop n l).
Proof.
  intros Hne Hbefore Hlast. destruct l as [|x l' _] using rev_ind; [done|]. clear Hne. cbv zeta.
  rewrite fmap_app in *. change (event_token_id <$> [x]) with [event_token_id x] in *. rewrite last_snoc in Hlast.
  assert (Hl' : Forall (fun e => event_token_id e <> gen_stop_token_id options) l').
  { apply Forall_lookup. intros j e Hj. apply (Hbefore j).
    - apply lookup_app_l_Some. by rewrite list_lookup_fmap, Hj.
    - apply lookup_lt_Some in Hj. rewrite length_app, length_fmap. simpl. lia. }
  assert (Hall : event_token_id x <> gen_stop_token_id options -> forall n, n = length (l' ++ [x]) ->
    (n <= length (l' ++ [x]))%nat /\ Forall (fun e => event_token_id e <> gen_stop_token_id options) (take n (l' ++ [x])) /\
    Forall (fun e => event_token_id e = gen_stop_token_id options) (drop n (l' ++ [x]))).
  { intros Hx n ->. split; [lia|]. rewrite firstn_all, drop_all. split; [|constructor]. apply Forall_app. by split; [|constructor]. }
  unfold generated_text_token_count. rewrite length_app in *. rewrite !length_app, !length_fmap.
  destruct reason; try (apply Hall; [congruence|simpl; lia]).
  rewrite bool_decide_false by (by destruct l'). unfold back. rewrite last_snoc. cbn [default from_option].
  injection Hlast as Hx. rewrite Hx, Z.eqb_refl. cbn [negb andb].
  replace (Z.to_nat (Z.of_nat (length l' + length [gen_stop_token_id options]) - 1)) with (length l') by (simpl; lia).
  rewrite take_app_length, drop_app_length. split; [lia|]. split; [done|]. by constructor.
Qed.

Lemma finish_generation_tokenizer impl rendered ids c replays fallbacks r impl' :
  finish_generation ops error_message impl rendered ids options c replays fallbacks = (r, impl') ->
  tokenizer impl' = tokenizer impl.
Proof.
  unfold finish_generation. destruct (decode _ _ _) as [text [e|]]; [by intros [= _ <-]|].
  destruct (finalize_prefill_route_evidence _ _ _) as [evidence r1].
  destruct (evidence_bad evidence); [by intros [= _ <-]|]. cbv zeta.
  destruct (stop_reason c); [| |by intros [= _ <-]];
    (destruct (commit_ordinary_request_boundary _ _) as [st r2]; destruct (status_ok st); by intros [= _ <-]).
Qed.

Lemma finish_generation_observed impl rendered ids c replays fallbacks r impl' s l :
  tokenizer impl = data ->
  finish_generation ops error_message impl rendered ids options c replays fallbacks = (r, impl') ->
  seen l -> event_token_id <$> l = generated_token_ids c -> l <> [] ->
  (forall j t, generated_token_ids c !! j = Some t -> (Datatypes.S j < length (generated_token_ids c))%nat -> t <> gen_stop_token_id options) ->
  match stop_reason c with
  | kImEnd => (T l s \/ F l s) /\ last (event_token_id <$> l) = Some (gen_stop_token_id options)
  | kMaxNewTokens => T l s /\ Z.of_nat (length l) = gen_max_new_tokens options /\
                     last (event_token_id <$> l) <> Some (gen_stop_token_id options)
  | kStopCancelled => F l s /\ last (event_token_id <$> l) <> Some (gen_stop_token_id options)
  end ->
  outcome r s.
Proof.
  intros Hdata Hf Hl Hids Hne Hbefore Hend. unfold finish_generation in Hf. rewrite Hdata in Hf.
  assert (Hint : interrupted s) by (exists l; split; [done|]; destruct (stop_reason c), Hend; auto).
  rewrite <- Hids in Hbefore, Hf.
  destruct (text_tokens l (stop_reason c) Hne Hbefore) as (Hn & Ht & Hd); [destruct (stop_reason c), Hend as [? Hlast]; try exact Hlast; apply Hlast|].
  set (n := Z.to_nat _) in *.
  destruct (decode data false (take n (event_token_id <$> l))) as [text [e|]] eqn:Hdec.
  { injection Hf as <- <-. exact Hint. }
  pose proof (shown_text _ _ _ _ _ _ Hl Hn Ht Hd Hdec) as Htext.
  destruct (finalize_prefill_route_evidence _ _ _) as [evidence r1].
  destruct (evidence_bad evidence); [injection Hf as <- <-; exact Hint|].
  assert (Hdone : forall g, generation_stop_reason g = stop_reason c -> generation_token_ids g = event_token_id <$> l ->
    generated_text g = text -> completed g s).
  { intros g H1 H2 H3. exists l. rewrite H1, H2, H3. by split_and!. }
  cbv zeta in Hf.
  destruct (stop_reason c) eqn:Hr; [| |injection Hf as <- <-; by apply Hdone];
    (destruct (commit_ordinary_request_boundary _ _) as [st r2]; destruct (status_ok st); injection Hf as <- <-;
      [by apply Hdone|exact Hint]).
Qed.

Lemma generate_tokenized_outcome rendered ids engine s r engine' s' :
  (forall impl, engine = Some impl -> tokenizer impl = data) -> T [] s ->
  generate_tokenized ops error_message rendered ids options engine s = (r, (engine', s')) ->
  outcome r s' /\ (forall impl, engine' = Some impl -> tokenizer impl = data).
Proof.
  intros Hengine HT. unfold generate_tokenized.
  assert (Hnone : interrupted s) by (exists []; split; [constructor|by left]).
  destruct (if engine_ready engine then engine else None) as [impl|] eqn:Hready; [|by intros [= <- <- <-]].
  assert (Hsome : engine = Some impl) by (by destruct (engine_ready engine)). specialize (Hengine _ Hsome). subst engine.
  destruct (tokenized_options_error impl ids options) as [d|] eqn:Hopt; [intros [= <- <- <-]; split; [done|by intros ? [= <-]]|].
  assert (Hmax : 0 < gen_max_new_tokens options).
  { unfold tokenized_options_error in Hopt. cbv zeta in Hopt. destruct (_ || _) eqn:Hb in Hopt; [done|]. bools. lia. }
  destruct (begin_ordinary_request ops (runner impl)) as [reset r1].
  destruct (negb (status_ok reset)); [intros [= <- <- <-]; split; [done|by intros ? [= <-]]|]. cbv zeta.
  destruct (run_generation_control _ _ _ _ _) as [control w] eqn:Hrun.
  pose proof (run_generation_control_observed ids (control_options (with_runner r1 impl) ids options)
    (prefill_plan ops (with_runner r1 impl) ids options) (decode_plan ops (with_runner r1 impl) options)
    (observe_committed_token data (gen_stop_token_id options) observer) (accepted options data T)
    (refused_last options data T F) (observer_contract_control (with_runner r1 impl) ids Hengine Hmax)) as Hobs.
  assert (Hset : committed_token (control_options (with_runner r1 impl) ids options) =
    Some (observe_committed_token data (gen_stop_token_id options) observer)).
  { cbn [control_options committed_token]. rewrite observer_set. cbn [with_runner tokenizer]. by rewrite Hengine. }
  assert (Hstart : accepted options data T [] {| step_runner := runner (with_runner r1 impl); decode_graph_replays := 0;
    decode_graph_serial_fallbacks := 0; observer_context := {| observed_text := []; decode_error := None |};
    observer_state := s |}) by (exists []; split_and!; [done|constructor|exact HT|done|done]).
  specialize (Hobs Hset Hmax _ _ _ Hstart Hrun).
  set (impl2 := with_runner (step_runner w) (with_runner r1 impl)).
  assert (Hint : (exists l, accepted options data T l w) \/ (exists l, refused_last options data T F l w) -> interrupted (observer_state w)).
  { intros [(? & l & _ & ? & ? & _)|(? & [(l & _ & ? & ? & _)|(l & e & ? & ? & _)])]; exists l; eauto. }
  assert (Hnow : interrupted (observer_state w)).
  { apply Hint. destruct (value control) as [c|]; [|by left].
    destruct (stop_reason c); [destruct Hobs; [left|right]|left|right]; eauto. }
  destruct (control_ok control) eqn:Hok; cbn [negb].
  - destruct (decode_error (observer_context w)) as [e|] eqn:He; [intros [= <- <- <-]; split; [exact Hnow|by intros ? [= <-]]|].
    destruct (value control) as [c|] eqn:Hv; [|intros [= <- <- <-]; split; [exact Hnow|by intros ? [= <-]]].
    destruct (finish_generation _ _ _ _ _ _ _ _ _) as [r0 impl3] eqn:Hf. intros [= <- <- <-].
    destruct (control_ended _ _ _ _ _ _ Hrun Hok Hv) as (Hne & Hbefore & Hend).
    split; [|].
    + assert (Hex : exists l, seen l /\ event_token_id <$> l = generated_token_ids c /\
        match stop_reason c with kImEnd => T l (observer_state w) \/ F l (observer_state w)
        | kMaxNewTokens => T l (observer_state w) | kStopCancelled => F l (observer_state w) end).
      { destruct (stop_reason c).
        - destruct Hobs as [(l & ? & ? & ? & _)|[(l & ? & ? & ? & _)|(l & e & _ & _ & Herr)]]; [| |congruence]; exists l; eauto.
        - destruct Hobs as (l & ? & ? & ? & _); exists l; eauto.
        - destruct Hobs as [(l & ? & ? & ? & _)|(l & e & _ & _ & Herr)]; [|congruence]; exists l; eauto. }
      destruct Hex as (l & Hl & Hids & Hcase).
      apply (finish_generation_observed impl2 rendered ids c _ _ _ _ _ l Hengine Hf Hl Hids).
      * intros ->. apply Hne. by rewrite <- Hids.
      * exact Hbefore.
      * rewrite Hids. destruct (stop_reason c); [done|destruct Hend; split_and!; [done| |done]|done].
        by rewrite <- Hids, length_fmap in H0.
    + intros impl' [= <-]. rewrite (finish_generation_tokenizer _ _ _ _ _ _ _ _ Hf). exact Hengine.
  - destruct (_ && negb (decode_graph_replays w =? 0)).
    + unfold demote_graph_cache. destruct (clear_fixed_position_decode_graph_cache _ _) as [st r3].
      destruct (negb (status_ok st)); intros [= <- <- <-]; (split; [exact Hnow|by intros ? [= <-]]).
    + intros [= <- <- <-]. split; [exact Hnow|by intros ? [= <-]].
Qed.
End Outcome.

(** ** The engine as the server knows it

    What a client of the engine relies on: each way of asking, whatever the
    observer, ends in a result that the observer has seen. *)

Definition Asked (E Ob : Type) : Type :=
  ReferenceGenerateOptions Ob -> E -> Ob -> option (ReferenceGenerateResult * (E * Ob)).

Class InferenceEngine (E Ob : Type) := {
  ask_chat : list ReferenceChatMessage -> Asked E Ob;
  ask_prompt : list Z -> Asked E Ob;
  ask_token_ids : list Z -> Asked E Ob;
  published : E -> ReferenceEngineLoadStats;
  vocabulary_of : E -> option TokenizerData
}.

Definition lawful `{InferenceEngine E Ob} (ask : Asked E Ob) : Prop :=
  forall options observer T F e s r e' s',
  token_observer options = Some observer ->
  0 <= gen_max_new_tokens options /\ 0 <= gen_prefill_chunk_size options ->
  observer_contract observer options (vocabulary_of e) T F ->
  (forall probe l s b s', prefill_cancellation_probe options = Some probe -> T l s -> probe s = (b, s') -> T l s') ->
  T [] s -> ask options e s = Some (r, (e', s')) ->
  outcome options (vocabulary_of e) T F r s' /\ vocabulary_of e' = vocabulary_of e.

Class InferenceEngineLaws (E Ob : Type) `{InferenceEngine E Ob} := {
  ask_chat_lawful messages : lawful (ask_chat messages);
  ask_prompt_lawful text : lawful (ask_prompt text);
  ask_token_ids_lawful ids : lawful (ask_token_ids ids)
}.

(** The engine of this file is one. *)
Section EngineInstance.
Context {R S : Type}.
Variable ops : ReferenceRunner R.
Variable icu : Icu.
Variable error_message : TokenizerError -> list Z.

#[export] Instance reference_engine : InferenceEngine (option (Impl R)) S := {|
  ask_chat := generate_chat ops icu error_message;
  ask_prompt := generate_prompt ops icu error_message;
  ask_token_ids := generate_prompt_token_ids ops error_message;
  published := load_stats;
  vocabulary_of := engine_tokenizer
|}.

Lemma refused_outcome (options : ReferenceGenerateOptions S) data T F d s : T [] s -> outcome options data T F (inl d) s.
Proof. intros HT. exists []. split; [constructor|by left]. Qed.

Lemma generate_tokenized_lawful rendered ids (options : ReferenceGenerateOptions S) observer T F e s r e' s' :
  token_observer options = Some observer ->
  0 <= gen_max_new_tokens options /\ 0 <= gen_prefill_chunk_size options ->
  observer_contract observer options (engine_tokenizer e) T F -> T [] s -> engine_ready e = true ->
  generate_tokenized ops error_message rendered ids options e s = (r, (e', s')) ->
  outcome options (engine_tokenizer e) T F r s' /\ engine_tokenizer e' = engine_tokenizer e.
Proof.
  intros Hset Hu Hc HT Hready Hg. destruct e as [impl|]; [|done].
  destruct (generate_tokenized_outcome ops error_message observer options (tokenizer impl) T F Hset Hu Hc
    rendered ids (Some impl) s r e' s') as [Ho Ht]; [by intros ? [= <-]|done|done|]. split; [exact Ho|].
  assert (He : exists impl', e' = Some impl').
  { unfold generate_tokenized in Hg. rewrite Hready in Hg. destruct (tokenized_options_error _ _ _); [simplify_eq; eauto|].
    destruct (begin_ordinary_request _ _) as [st r1]. destruct (negb _); [simplify_eq; eauto|]. cbv zeta in Hg.
    destruct (run_generation_control _ _ _ _ _) as [control w].
    destruct (negb (control_ok control)).
    - destruct (_ && _); [|simplify_eq; eauto].
      destruct (demote_graph_cache _ _ _). simplify_eq; eauto.
    - destruct (decode_error _); [simplify_eq; eauto|]. destruct (value control); [|simplify_eq; eauto].
      destruct (finish_generation _ _ _ _ _ _ _ _ _). simplify_eq; eauto. }
  destruct He as [impl' ->]. cbn [engine_tokenizer mbind option_bind]. by apply Ht.
Qed.

#[export] Instance reference_engine_laws : InferenceEngineLaws (option (Impl R)) S.
Proof.
  split.
  - intros messages options observer T F e s r e' s' Hset Hu Hc _ HT. cbn [ask_chat reference_engine vocabulary_of] in *.
    unfold generate_chat. destruct (engine_ready e) eqn:Hready; cbn [negb];
      [|intros [= <- <- <-]; split; [by apply refused_outcome|done]].
    case_bool_decide; [intros [= <- <- <-]; split; [by apply refused_outcome|done]|].
    destruct (format_chat_prompt _ _ _) as [chat|]; [|done].
    destruct (chat_error chat); [intros [= <- <- <-]; split; [by apply refused_outcome|done]|].
    case_bool_decide; [intros [= <- <- <-]; split; [by apply refused_outcome|done]|].
    intros [= Hg]. by eapply generate_tokenized_lawful.
  - intros text options observer T F e s r e' s' Hset Hu Hc _ HT. cbn [ask_prompt reference_engine vocabulary_of] in *.
    unfold generate_prompt. destruct (engine_ready e) eqn:Hready; cbn [negb];
      [|intros [= <- <- <-]; split; [by apply refused_outcome|done]].
    case_bool_decide; [intros [= <- <- <-]; split; [by apply refused_outcome|done]|].
    destruct (encode _ _ _); [|intros [= <- <- <-]; split; [by apply refused_outcome|done]|done].
    intros [= Hg]. by eapply generate_tokenized_lawful.
  - intros ids options observer T F e s r e' s' Hset Hu Hc _ HT. cbn [ask_token_ids reference_engine vocabulary_of] in *.
    unfold generate_prompt_token_ids. destruct (engine_ready e) eqn:Hready; cbn [negb];
      [|intros [= <- <- <-]; split; [by apply refused_outcome|done]].
    case_bool_decide; [intros [= <- <- <-]; split; [by apply refused_outcome|done]|].
    destruct (decode _ _ _) as [text [err|]]; [intros [= <- <- <-]; split; [by apply refused_outcome|done]|].
    intros [= Hg]. by eapply generate_tokenized_lawful.
Qed.
End EngineInstance.

(** ** Properties *)

(** An observer that keeps the events it was shown and refuses as [policy]
    says. *)
Definition recorder (policy : list ReferenceTokenEvent -> bool) (e : ReferenceTokenEvent) (l : list ReferenceTokenEvent)
    : bool * list ReferenceTokenEvent := (policy (l ++ [e]), l ++ [e]).

Lemma shown_lookup data stop max_new l k e :
  shown data stop max_new l -> l !! k = Some e -> next_event data stop max_new (take k l) e.
Proof.
  induction 1 as [|l x Hl IH Hx]; intros Hk; [done|]. destruct (decide (k < length l)%nat) as [Hlt|Hge].
  - rewrite take_app_le by lia. rewrite lookup_app_l in Hk by done. by apply IH.
  - rewrite lookup_app_r in Hk by lia. apply list_lookup_singleton_Some in Hk as [Hk <-].
    replace k with (length l) by lia. by rewrite take_app_length.
Qed.

(** C8. Streaming is the generation.  Whatever the runner does and whenever
    the observer refuses, the observer of a successful generation was shown
    exactly the generated tokens, once each and in order, with the indices 0,
    1, ..., each with the text of that token decoded alone and the text so
    far; the texts shown one after another are the text of the result, although
    that is decoded again from all the ids; nothing follows a token the
    observer refused or the stop token; and the stop reason says which of the
    three ways the generation ended. *)
Theorem generation_streamed {R} (ops : ReferenceRunner R) icu error_message policy
    (options : ReferenceGenerateOptions (list ReferenceTokenEvent)) (ask : Asked (option (Impl R)) (list ReferenceTokenEvent))
    engine g engine' l :
  (exists messages, ask = generate_chat ops icu error_message messages) \/
  (exists text, ask = generate_prompt ops icu error_message text) \/
  (exists ids, ask = generate_prompt_token_ids ops error_message ids) ->
  0 <= gen_max_new_tokens options -> 0 <= gen_prefill_chunk_size options ->
  token_observer options = Some (recorder policy) -> prefill_cancellation_probe options = None ->
  ask options engine [] = Some (inr g, (engine', l)) ->
  event_token_id <$> l = generation_token_ids g /\ l <> [] /\
  generated_text g = mjoin (text_delta <$> l) /\
  (forall k e, l !! k = Some e ->
     event_index e = Z.of_nat k /\ event_generated_text e = mjoin (text_delta <$> take (S k) l) /\
     is_stop_token e = (event_token_id e =? gen_stop_token_id options) /\
     (if is_stop_token e then text_delta e = []
      else decode (engine_tokenizer engine) false [event_token_id e] = (text_delta e, None)) /\
     ((S k < length l)%nat -> is_stop_token e = false /\ policy (take (S k) l) = true)) /\
  match generation_stop_reason g with
  | kImEnd => last (is_stop_token <$> l) = Some true
  | kMaxNewTokens => last (is_stop_token <$> l) = Some false /\ policy l = true /\
                     Z.of_nat (length l) = gen_max_new_tokens options
  | kStopCancelled => last (is_stop_token <$> l) = Some false /\ policy l = false
  end.
Proof.
  intros Hask Hm Hch Hset Hprobe Hrun.
  set (T := fun (l s : list ReferenceTokenEvent) => s = l /\ forall k, (k < length l)%nat -> policy (take (S k) l) = true).
  set (F := fun (l s : list ReferenceTokenEvent) => s = l /\ policy l = false /\
    forall k, (S k < length l)%nat -> policy (take (S k) l) = true).
  assert (Hlaw : lawful (H := reference_engine ops icu error_message) ask).
  { pose proof (reference_engine_laws ops icu error_message (S := list ReferenceTokenEvent)) as [H1 H2 H3].
    destruct Hask as [[m ->]|[[t ->]|[ids ->]]]; [apply H1|apply H2|apply H3]. }
  assert (Hc : observer_contract (recorder policy) options (engine_tokenizer engine) T F).
  { intros l0 e s b s' [-> Hall] _ _ [= <- <-]. destruct (policy (l0 ++ [e])) eqn:Hp; split_and!; try done.
    - intros k Hk. rewrite length_app in Hk. simpl in Hk. destruct (decide (k < length l0)%nat).
      + rewrite take_app_le by lia. by apply Hall.
      + rewrite take_ge by (rewrite length_app; simpl; lia). done.
    - intros k Hk. rewrite length_app in Hk. simpl in Hk. rewrite take_app_le by lia. apply Hall. lia. }
  destruct (Hlaw options (recorder policy) T F engine [] (inr g) engine' l Hset (conj Hm Hch) Hc) as [Ho _];
    [by rewrite Hprobe|split; [done|intros k Hk; simpl in Hk; lia]|done|].
  destruct Ho as (l' & Hl & Hids & Htext & Hne & Hend).
  assert (l' = l) as -> by (unfold T, F in Hend; destruct (generation_stop_reason g); [destruct Hend as [[[-> _]|[-> _]] _]|destruct Hend as [[-> _] _]..]; done).
  assert (Hpol : forall k, (S k < length l)%nat -> policy (take (S k) l) = true).
  { intros k Hk. destruct (generation_stop_reason g).
    - destruct Hend as [[[_ H]|(_ & _ & H)] _]; apply H; lia.
    - destruct Hend as ([_ H] & _). apply H. lia.
    - destruct Hend as ((_ & _ & H) & _). by apply H. }
  split_and!; [done|done|done| |].
  - intros k e Hk. destruct (shown_lookup _ _ _ _ k e Hl Hk) as [Hi _ _ _ Hs Hd Ht].
    rewrite length_take, Nat.min_l in Hi by (apply lookup_lt_Some in Hk; lia).
    split_and!; [done| |done| |].
    + rewrite Ht, (take_S_r _ _ _ Hk), fmap_app, join_app. cbn. by rewrite app_nil_r.
    + rewrite Hs. exact Hd.
    + intros Hlt. split; [|by apply Hpol]. rewrite Hs. apply Z.eqb_neq.
      destruct (lookup_lt_is_Some_2 l (S k) Hlt) as [e' Hk'].
      destruct (shown_lookup _ _ _ _ _ _ Hl Hk') as [_ _ Hb _ _ _ _]. rewrite Forall_forall in Hb. apply Hb.
      apply list_elem_of_lookup. exists k. rewrite lookup_take_lt by lia. done.
  - destruct l as [|x l0 _] using rev_ind; [done|].
    assert (Hlast : forall A (f : ReferenceTokenEvent -> A), last (f <$> (l0 ++ [x])) = Some (f x))
      by (intros A f; rewrite fmap_app; apply last_snoc).
    destruct (shown_lookup _ _ _ _ (length l0) x Hl) as [_ _ _ _ Hs _ _]; [by rewrite lookup_app_r, Nat.sub_diag by lia|].
    rewrite !Hlast, Hs in *. destruct (generation_stop_reason g).
    + destruct Hend as [_ Hx]. injection Hx as ->. by rewrite Z.eqb_refl.
    + destruct Hend as ([_ Hp] & Hlen & Hx). rewrite (proj2 (Z.eqb_neq _ _)) by congruence.
      split_and!; [done| |done]. specialize (Hp (length l0)). rewrite take_ge in Hp by (rewrite length_app; simpl; lia).
      apply Hp. rewrite length_app; simpl; lia.
    + destruct Hend as ((_ & Hp & _) & Hx). by rewrite (proj2 (Z.eqb_neq _ _)) by congruence.
Qed.

(** Encoding always ends with a loaded tokenizer, so the engine always
    answers. *)
Lemma engine_answers {R S} (ops : ReferenceRunner R) icu error_message pins data (engine : option (Impl R))
    (options : ReferenceGenerateOptions S) s :
  engine_tokenizer engine = Some data ->
  data_ok pins data -> Forall (fun content => content <> []) (expected_contents pins) -> icu_ok icu ->
  (forall messages, is_Some (generate_chat ops icu error_message messages options engine s)) /\
  (forall text, is_Some (generate_prompt ops icu error_message text options engine s)) /\
  (forall ids, is_Some (generate_prompt_token_ids ops error_message ids options engine s)).
Proof.
  intros Hdata Hd Hc Hi.
  assert (Hnever : forall t, encode_impl icu data t <> EncodeLoops).
  { intros t Ht. pose proof (encode_impl_splits _ _ _ t Hd Hc Hi) as Hs. by rewrite Ht in Hs. }
  split_and!.
  - intros messages. unfold generate_chat, format_chat_prompt, format_qwen36_chat, format_qwen36_chat_impl. rewrite Hdata.
    repeat (case_match; try (eexists; reflexivity)); try (exfalso; eapply Hnever; eassumption); discriminate.
  - intros text. unfold generate_prompt, encode. rewrite Hdata.
    repeat (case_match; try (eexists; reflexivity)). exfalso; eapply Hnever; eassumption.
  - intros ids. unfold generate_prompt_token_ids. repeat (case_match; try (eexists; reflexivity)).
Qed.

(** A runner over a target model [argmax], as in [PureRunner], that reports
    complete evidence. *)
Definition pure_runner (argmax : list Z -> Z) : ReferenceRunner (list Z) := {|
  begin_ordinary_request := fun _ => (ok_status, []);
  step_with_trace := PureRunner.step argmax;
  record_scalar_prefill_route_fallback := fun r => (ok_status, r);
  prefill_prefix_tile_impl := fun _ => PureRunner.tile;
  runner_finish_prefill_from_retained_tile := PureRunner.finish_retained argmax;
  has_fixed_position_decode_graph_p1 := fun _ => false;
  replay_fixed_position_decode_graph_p1 := fun input _ r => ({| step_value := None; step_status := ok_status |}, r);
  clear_fixed_position_decode_graph_cache := fun r => (ok_status, r);
  finalize_prefill_route_evidence := fun n r => (finalize_prefill_route_request {|
    operators := operators empty_evidence; forbidden_boundary_hits := forbidden_boundary_hits empty_evidence; completed_layer_passes := n; expected_layer_passes := 0;
    request_active := true; RouteEvidence.complete := false; RouteEvidence.valid := false; evidence_error := kEvidenceNone |} n, r);
  commit_ordinary_request_boundary := fun r => (ok_status, r)
|}.

(** A model that answers [aab] and the stop token after two tokens. *)
Definition sample_argmax (l : list Z) : Z := nth (length l - 2) [256; 98; 258] 0.

Definition sample_engine : option (Impl (list Z)) := Some {|
  tokenizer := Some sample_data; loaded := true; trace_enabled := false; request_plan := reference_plan 4096 64;
  sm87_weight_only := true; runner := []; decode_graph_cache_ready := false; load := empty_load_stats
|}.

(** Every event is kept, the third is refused. *)
Definition sample_generate_options : ReferenceGenerateOptions (list ReferenceTokenEvent) := {|
  gen_max_new_tokens := 5; gen_capture_trace := false; gen_stop_token_id := 258; gen_prefill_chunk_size := 64;
  gen_logits_mode := kPredictedTokenOnly; use_prepared_decode_graph_cache := false;
  token_observer := Some (recorder (fun l => Z.of_nat (length l) <? 3)); has_token_observer_context := true;
  gen_prefill_execution_mode := kLegacyC512Tiled; prefill_cancellation_probe := None;
  has_prefill_cancellation_context := false
|}.

Lemma generation_streamed_witness :
  match generate_prompt_token_ids (pure_runner sample_argmax) (fun _ => []) [257; 256] sample_generate_options sample_engine [] with
  | Some (inr g, (_, l)) =>
      generation_token_ids g = [256; 98; 258] /\ text_delta <$> l = [lit "ab"; lit "b"; []] /\
      event_token_id <$> l = generation_token_ids g /\ generated_text g = mjoin (text_delta <$> l)
  | _ => False
  end.
Proof.
  assert (Hok : match generate_prompt_token_ids (pure_runner sample_argmax) (fun _ => []) [257; 256] sample_generate_options sample_engine [] with
    | Some (inr g, (_, l)) => bool_decide (generation_token_ids g = [256; 98; 258])
        && bool_decide ((text_delta <$> l) = [lit "ab"; lit "b"; []])
    | _ => false end = true) by (vm_compute; reflexivity).
  destruct (generate_prompt_token_ids (pure_runner sample_argmax) (fun _ => []) [257; 256] sample_generate_options sample_engine []) as [[[d|g] [engine' l]]|] eqn:Hrun; [discriminate Hok| |discriminate Hok].
 apply andb_true_iff in Hok as [H1 H2]. apply bool_decide_eq_true in H1, H2.
  destruct (generation_streamed (pure_runner sample_argmax) sample_icu (fun _ => []) (fun l => Z.of_nat (length l) <? 3)
    sample_generate_options (generate_prompt_token_ids (pure_runner sample_argmax) (fun _ => []) [257; 256])
    sample_engine g engine' l) as (Hids & _ & Htext & _); [|discriminate|discriminate|reflexivity|reflexivity|exact Hrun|].
  - right. right. by exists [257; 256].
  - by split_and!.
Defined.
