(* ===== verification/Deployment.v ===== *)
(** * Deployment: what the server may be started with, and its health
      (include/q3x/server/evaluation_server.h; src/server/evaluation_server.cpp:
      valid_options, valid_production_load_receipt,
      EvaluationProductionRuntimeHealth)

    The sealed deployment plans, the check of the options at the start, the
    receipt that a loaded engine has to show, and the one-way latch that closes
    the server when the receipt or the engine fails.

    The build is the default one: none of the [Q3X_ENABLE_] macros, no tests.
    [inet_pton] is a parameter.  The texts that only reach the log are left
    out. *)

From Stdlib Require Import Floats String.
From S2P Require Import Prelude OrderedMap Json Generation OpenAI Utf8Output Engine RequestPlan.

(** ** The inventory of the model *)

Definition kQwen36DenseLayerCount : Z := 64.
Definition kQwen36LinearAttentionLayerCount : Z := 48.
Definition kQwen36FullAttentionLayerCount : Z := 16.
Definition kFp8M1OutputProjectionAosoa4PreswizzledBytesPerLayer : Z := 5120 * 6144.
Definition kQwen36Fp8M1OutputProjectionAosoa4PreswizzledBytes : Z :=
  kQwen36DenseLayerCount * kFp8M1OutputProjectionAosoa4PreswizzledBytesPerLayer.
Definition kFp8PrefillSupermatrixProjectionCount : Z := 208.
Definition kQwen36Fp8PrefillSupermatrixSidecarBytes : Z :=
  kQwen36LinearAttentionLayerCount * (10240 * 5120 + 6144 * 5120 + 5120 * 6144) +
  kQwen36FullAttentionLayerCount * (12288 * 5120 + 2 * (1024 * 5120) + 5120 * 6144).
Definition kNvFp4DownScale6SidecarBytesPerProjection : Z := 4177920.
Definition kNvFp4DownConsumerOrderWeightBytesPerProjection : Z := 5120 * 17408 / 2.
Definition kQwen36NvFp4DownScale6LayerCount : Z := 53.
Definition kQwen36NvFp4DownScale6SidecarBytes : Z :=
  kQwen36NvFp4DownScale6LayerCount * kNvFp4DownScale6SidecarBytesPerProjection.
Definition kQwen36NvFp4DownConsumerOrderBytes : Z :=
  kQwen36NvFp4DownScale6LayerCount * kNvFp4DownConsumerOrderWeightBytesPerProjection.
Definition kNvFp4GateUpCoupledFeedBytesPerProjection : Z := 17408 * (5120 / 2 + 5120 / 16).
Definition kQwen36NvFp4GateUpCoupledFeedBytes : Z :=
  kQwen36DenseLayerCount * (2 * kNvFp4GateUpCoupledFeedBytesPerProjection).

(** ** Plans *)

Inductive EvaluationProductionProfile := kProfileNone | kP40ExactLegacyC512 | kP40WholeCoreV1.
Inductive EvaluationDevelopmentRoute := kRouteNone | kP40WholeCoreV10.
Inductive ProjectionBackend := kReference | kSm87WeightOnly.
Inductive LayerMajorPrefillFullAttentionTactic :=
  | kAttentionExactSegmentedC512 | kNativeGroupQ64Panel | kNativeGroupQ128V4Panel | kNativeFlashInferExactPanel
  | kNativeFlashInferExactWholePrompt.
Inductive LayerMajorPrefillProjectionTactic :=
  | kProjectionExactSegmentedC512 | kSegmentedMarlinOperatorPanel | kNativeQuantizedLargeMOperatorPanel
  | kNativeNvfp4TrueLargeMOperatorPanel | kNativeNvfp4G2D2LargeMOperatorPanel | kNativeNvfp4PersistentP40LayerWideMlp
  | kNativePromptWideP40WholeCore | kNativePromptWideP40ProjectionReset | kNativePromptWideP40PackedProjection
  | kNativePromptWideP40PackedNvfp4V2 | kNativePromptWideP40VllmMarlinParity.

#[global] Instance EvaluationProductionProfile_eq_dec : EqDecision EvaluationProductionProfile.
Proof. solve_decision. Defined.
#[global] Instance EvaluationDevelopmentRoute_eq_dec : EqDecision EvaluationDevelopmentRoute.
Proof. solve_decision. Defined.
#[global] Instance ProjectionBackend_eq_dec : EqDecision ProjectionBackend.
Proof. solve_decision. Defined.
#[global] Instance FullAttentionTactic_eq_dec : EqDecision LayerMajorPrefillFullAttentionTactic.
Proof. solve_decision. Defined.
#[global] Instance ProjectionTactic_eq_dec : EqDecision LayerMajorPrefillProjectionTactic.
Proof. solve_decision. Defined.
#[global] Instance PrefillExecutionMode_eq_dec : EqDecision ReferencePrefillExecutionMode.
Proof. solve_decision. Defined.

Record EvaluationProductionDeploymentPlan := {
  plan_profile : EvaluationProductionProfile;
  plan_id : list Z;
  plan_decode_route_id : list Z;
  plan_target_prompt_tokens : Z;
  plan_maximum_output_tokens : Z;
  deployment_max_sequence_length : Z;
  deployment_prefill_chunk_size : Z;
  plan_request_arena_bytes : Z;
  plan_min_free_bytes_after_create : Z;
  plan_prefill_supermatrix_projections : Z;
  plan_prefill_supermatrix_sidecar_bytes : Z;
  decode_fp8_output_layers : Z;
  decode_fp8_output_sidecar_bytes : Z;
  decode_gate_up_layers : Z;
  decode_gate_up_sidecar_bytes : Z;
  decode_down_scale6_layers : Z;
  decode_down_scale6_sidecar_bytes : Z;
  decode_down_consumer_order_layers : Z;
  decode_down_consumer_order_sidecar_bytes : Z;
  decode_retained_sidecar_bytes : Z;
  retained_acceleration_sidecar_bytes : Z;
  decode_graph_cache_policy : ReferenceDecodeGraphCachePolicy;
  decode_graph_first_position : Z;
  decode_graph_last_position : Z;
  decode_graph_slots : Z;
  plan_projection_backend : ProjectionBackend;
  plan_prefill_execution_mode : ReferencePrefillExecutionMode;
  plan_prefill_full_attention_tactic : LayerMajorPrefillFullAttentionTactic;
  plan_prefill_projection_tactic : LayerMajorPrefillProjectionTactic
}.

Definition kP40ExactLegacyC512ProductionPlan : EvaluationProductionDeploymentPlan := {|
  plan_profile := kP40ExactLegacyC512;
  plan_id := lit "q3x.sm87.candidate.p40.legacy-c512-terminal-prefix.v1";
  plan_decode_route_id := lit "q3x.sm87.decode.coupled-feed-down-consumer-order.v1";
  plan_target_prompt_tokens := 40000; plan_maximum_output_tokens := 4096; deployment_max_sequence_length := 44095;
  deployment_prefill_chunk_size := kMaximumRequestPrefillChunkSize; plan_request_arena_bytes := 3070908416;
  plan_min_free_bytes_after_create := 8 * 1024 * 1024 * 1024;
  plan_prefill_supermatrix_projections := kFp8PrefillSupermatrixProjectionCount;
  plan_prefill_supermatrix_sidecar_bytes := kQwen36Fp8PrefillSupermatrixSidecarBytes;
  decode_fp8_output_layers := kQwen36DenseLayerCount;
  decode_fp8_output_sidecar_bytes := kQwen36Fp8M1OutputProjectionAosoa4PreswizzledBytes;
  decode_gate_up_layers := kQwen36DenseLayerCount; decode_gate_up_sidecar_bytes := kQwen36NvFp4GateUpCoupledFeedBytes;
  decode_down_scale6_layers := kQwen36NvFp4DownScale6LayerCount;
  decode_down_scale6_sidecar_bytes := kQwen36NvFp4DownScale6SidecarBytes;
  decode_down_consumer_order_layers := kQwen36NvFp4DownScale6LayerCount;
  decode_down_consumer_order_sidecar_bytes := kQwen36NvFp4DownConsumerOrderBytes;
  decode_retained_sidecar_bytes := 11013898240; retained_acceleration_sidecar_bytes := 18228101120;
  decode_graph_cache_policy := kSm87ShortPositions; decode_graph_first_position := 19; decode_graph_last_position := 43;
  decode_graph_slots := 25; plan_projection_backend := kSm87WeightOnly;
  plan_prefill_execution_mode := kLegacyC512Tiled;
  plan_prefill_full_attention_tactic := kAttentionExactSegmentedC512;
  plan_prefill_projection_tactic := kProjectionExactSegmentedC512
|}.

(** [selected_p40_whole_core_plan] in this build. *)
Definition kP40WholeCoreV1ProductionPlan : EvaluationProductionDeploymentPlan := {|
  plan_profile := kP40WholeCoreV1; plan_id := lit "q3x.sm87.production.p40.whole-core.v1";
  plan_decode_route_id := lit "q3x.sm87.decode.coupled-feed-down-consumer-order.v1";
  plan_target_prompt_tokens := 40000; plan_maximum_output_tokens := 16; deployment_max_sequence_length := 40016;
  deployment_prefill_chunk_size := kMaximumRequestPrefillChunkSize; plan_request_arena_bytes := 8641684992;
  plan_min_free_bytes_after_create := 4 * 1024 * 1024 * 1024;
  plan_prefill_supermatrix_projections := 0; plan_prefill_supermatrix_sidecar_bytes := 0;
  decode_fp8_output_layers := kQwen36DenseLayerCount;
  decode_fp8_output_sidecar_bytes := kQwen36Fp8M1OutputProjectionAosoa4PreswizzledBytes;
  decode_gate_up_layers := 0; decode_gate_up_sidecar_bytes := 0;
  decode_down_scale6_layers := kQwen36NvFp4DownScale6LayerCount;
  decode_down_scale6_sidecar_bytes := kQwen36NvFp4DownScale6SidecarBytes;
  decode_down_consumer_order_layers := 0; decode_down_consumer_order_sidecar_bytes := 0;
  decode_retained_sidecar_bytes := 2234695680; retained_acceleration_sidecar_bytes := 2234695680;
  decode_graph_cache_policy := kSm87ShortPositions; decode_graph_first_position := 19; decode_graph_last_position := 43;
  decode_graph_slots := 25; plan_projection_backend := kSm87WeightOnly;
  plan_prefill_execution_mode := kWholeRequestLayerMajor;
  plan_prefill_full_attention_tactic := kNativeFlashInferExactWholePrompt;
  plan_prefill_projection_tactic := kNativePromptWideP40WholeCore
|}.
Definition selected_p40_whole_core_plan : EvaluationProductionDeploymentPlan := kP40WholeCoreV1ProductionPlan.

(** What the source asserts of the two plans when it is compiled. *)
Lemma sealed_plans_consistent :
  Forall (fun p =>
    decode_fp8_output_sidecar_bytes p = decode_fp8_output_layers p * kQwen36Fp8M1OutputProjectionAosoa4PreswizzledBytes / kQwen36DenseLayerCount /\
    decode_down_scale6_sidecar_bytes p = decode_down_scale6_layers p * kNvFp4DownScale6SidecarBytesPerProjection /\
    decode_down_consumer_order_sidecar_bytes p = decode_down_consumer_order_layers p * kNvFp4DownConsumerOrderWeightBytesPerProjection /\
    decode_retained_sidecar_bytes p = decode_fp8_output_sidecar_bytes p + decode_gate_up_sidecar_bytes p +
      decode_down_scale6_sidecar_bytes p + decode_down_consumer_order_sidecar_bytes p /\
    retained_acceleration_sidecar_bytes p = plan_prefill_supermatrix_sidecar_bytes p + decode_retained_sidecar_bytes p)
    [kP40ExactLegacyC512ProductionPlan; kP40WholeCoreV1ProductionPlan].
Proof. repeat constructor. Qed.

(** ** Options *)

Record EvaluationServerOptions := {
  model_directory : list Z;
  api_key_file : list Z;
  bind_address : list Z;
  served_model : list Z;
  production_profile : EvaluationProductionProfile;
  server_max_sequence_length : Z;
  maximum_output_tokens : Z;
  server_prefill_chunk_size : Z;
  ingress_threads : Z;
  accepted_connection_capacity : Z;
  inference_queue_capacity : Z;
  stream_event_capacity : Z;
  read_timeout_milliseconds : Z;
  write_timeout_milliseconds : Z;
  request_max_arena_bytes : Z;
  request_min_free_bytes_after_create : Z;
  projection_backend : ProjectionBackend;
  server_prefill_execution_mode : ReferencePrefillExecutionMode;
  prefill_full_attention_tactic : LayerMajorPrefillFullAttentionTactic;
  prefill_projection_tactic : LayerMajorPrefillProjectionTactic;
  development_route : EvaluationDevelopmentRoute
}.

(** The options a plan fixes. *)
Definition follows_plan (plan : EvaluationProductionDeploymentPlan) (o : EvaluationServerOptions) : bool :=
  bool_decide (production_profile o = plan_profile plan)
  && bool_decide (development_route o = kRouteNone)
  && (server_max_sequence_length o =? deployment_max_sequence_length plan)
  && (maximum_output_tokens o =? plan_maximum_output_tokens plan)
  && (server_prefill_chunk_size o =? deployment_prefill_chunk_size plan)
  && (request_max_arena_bytes o =? plan_request_arena_bytes plan)
  && (request_min_free_bytes_after_create o =? plan_min_free_bytes_after_create plan)
  && bool_decide (projection_backend o = plan_projection_backend plan)
  && bool_decide (server_prefill_execution_mode o = plan_prefill_execution_mode plan)
  && bool_decide (prefill_full_attention_tactic o = plan_prefill_full_attention_tactic plan)
  && bool_decide (prefill_projection_tactic o = plan_prefill_projection_tactic plan).

Definition is_p40_exact_legacy_c512_production_profile (o : EvaluationServerOptions) : bool :=
  follows_plan kP40ExactLegacyC512ProductionPlan o.

Definition is_p40_whole_core_v1_production_profile (o : EvaluationServerOptions) : bool :=
  follows_plan selected_p40_whole_core_plan o && (inference_queue_capacity o =? 1) && (ingress_threads o =? 3).

(** The first check. *)
Definition outside_safe_bounds (o : EvaluationServerOptions) : bool :=
  bool_decide (model_directory o = []) || bool_decide (bind_address o = []) || bool_decide (served_model o = [])
  || (server_max_sequence_length o =? 0) || (kAbsoluteRequestMaxSequenceLength <? server_max_sequence_length o)
  || (maximum_output_tokens o =? 0) || (server_max_sequence_length o <? maximum_output_tokens o)
  || (server_prefill_chunk_size o =? 0) || (kMaximumRequestPrefillChunkSize <? server_prefill_chunk_size o)
  || (ingress_threads o =? 0) || (64 <? ingress_threads o) || (accepted_connection_capacity o =? 0)
  || (inference_queue_capacity o =? 0) || (62 <? inference_queue_capacity o)
  || (ingress_threads o <? inference_queue_capacity o + 2) || (stream_event_capacity o =? 0)
  || (read_timeout_milliseconds o =? 0) || (write_timeout_milliseconds o =? 0)
  || negb (bool_decide ((render_utf8_output (served_model o) true).1 = served_model o)).

Inductive OptionsError :=
  | OutsideSafeBounds | TacticNeedsRoute | NotTheSealedProfile | CapacityMismatch | RouteNotBuilt | NotNumericAddress
  | KeyRequired | LayerMajorNeedsSm87 | AttentionNeedsLayerMajor | ProjectionsNeedLayerMajor.

Definition plan_options (o : EvaluationServerOptions) : RequestMemoryOptions := {|
  batch_size := 1; prefill_chunk_size := server_prefill_chunk_size o; max_sequence_length := server_max_sequence_length o;
  max_arena_bytes := request_max_arena_bytes o; min_free_bytes_after_create := request_min_free_bytes_after_create o
|}.

Definition capacity_mismatch (o : EvaluationServerOptions) : bool :=
  match build_request_memory_plan (plan_options o) with
  | inl _ => true
  | inr plan => negb (arena_bytes plan =? request_max_arena_bytes o)
      || negb (plan_max_sequence_length plan =? server_max_sequence_length o)
      || negb (plan_prefill_chunk_size plan =? server_prefill_chunk_size o)
  end.

Definition loopback : list Z := lit "127.0.0.1".

(** [valid_options]: the first check that fails. *)
Definition options_error (inet_pton : list Z -> bool) (o : EvaluationServerOptions) : option OptionsError :=
  let selected := bool_decide (development_route o = kP40WholeCoreV10) in
  let tactic := bool_decide (prefill_projection_tactic o = kNativePromptWideP40WholeCore) in
  let production := is_p40_whole_core_v1_production_profile o in
  let layer_major := bool_decide (server_prefill_execution_mode o = kWholeRequestLayerMajor) in
  if outside_safe_bounds o then Some OutsideSafeBounds
  else if negb (Bool.eqb selected tactic) && negb production then Some TacticNeedsRoute
  else if negb selected && negb production && negb (is_p40_exact_legacy_c512_production_profile o) then Some NotTheSealedProfile
  else if negb selected && negb production && capacity_mismatch o then Some CapacityMismatch
  else if selected then Some RouteNotBuilt
  else if negb (inet_pton (bind_address o)) then Some NotNumericAddress
  else if negb (bool_decide (bind_address o = loopback)) && bool_decide (api_key_file o = []) then Some KeyRequired
  else if layer_major && (negb (bool_decide (projection_backend o = kSm87WeightOnly))
            || negb (server_prefill_chunk_size o =? kMaximumRequestPrefillChunkSize)) then Some LayerMajorNeedsSm87
  else if negb layer_major && negb (bool_decide (prefill_full_attention_tactic o = kAttentionExactSegmentedC512))
  then Some AttentionNeedsLayerMajor
  else if negb layer_major && negb (bool_decide (prefill_projection_tactic o = kProjectionExactSegmentedC512))
  then Some ProjectionsNeedLayerMajor
  else None.

(** The options of the default deployment. *)
Definition default_options (directory : list Z) : EvaluationServerOptions :=
  let plan := kP40ExactLegacyC512ProductionPlan in {|
  model_directory := directory; api_key_file := []; bind_address := loopback; served_model := lit "qwen3.6-27b-nvfp4";
  production_profile := plan_profile plan; server_max_sequence_length := deployment_max_sequence_length plan;
  maximum_output_tokens := plan_maximum_output_tokens plan;
  server_prefill_chunk_size := deployment_prefill_chunk_size plan; ingress_threads := 10;
  accepted_connection_capacity := 16; inference_queue_capacity := 8; stream_event_capacity := 16;
  read_timeout_milliseconds := 10000; write_timeout_milliseconds := 5000;
  request_max_arena_bytes := plan_request_arena_bytes plan;
  request_min_free_bytes_after_create := plan_min_free_bytes_after_create plan;
  projection_backend := plan_projection_backend plan;
  server_prefill_execution_mode := plan_prefill_execution_mode plan;
  prefill_full_attention_tactic := plan_prefill_full_attention_tactic plan;
  prefill_projection_tactic := plan_prefill_projection_tactic plan; development_route := kRouteNone
|}.

(** ** Sealed capacities *)

(** The planner agrees with the sealed plan, so the check of the capacity never
    fails. *)
Lemma sealed_capacity o : is_p40_exact_legacy_c512_production_profile o = true -> capacity_mismatch o = false.
Proof.
  unfold is_p40_exact_legacy_c512_production_profile, follows_plan. rewrite !andb_true_iff, !Z.eqb_eq, !bool_decide_eq_true.
  intros. destruct_and?.
  unfold capacity_mismatch, plan_options.
  repeat match goal with H : ?x o = _ |- _ => rewrite H; clear H end. vm_compute. reflexivity.
Qed.

Lemma whole_core_plan_facts o :
  is_p40_whole_core_v1_production_profile o = true ->
  development_route o = kRouteNone /\ projection_backend o = kSm87WeightOnly /\
  server_prefill_chunk_size o = kMaximumRequestPrefillChunkSize /\ server_prefill_execution_mode o = kWholeRequestLayerMajor.
Proof.
  unfold is_p40_whole_core_v1_production_profile, follows_plan. rewrite !andb_true_iff, !Z.eqb_eq, !bool_decide_eq_true.
  intros. destruct_and?. by split_and!.
Qed.

Lemma legacy_plan_facts o :
  is_p40_exact_legacy_c512_production_profile o = true ->
  development_route o = kRouteNone /\ projection_backend o = kSm87WeightOnly /\
  server_prefill_chunk_size o = kMaximumRequestPrefillChunkSize /\ server_prefill_execution_mode o = kLegacyC512Tiled /\
  prefill_full_attention_tactic o = kAttentionExactSegmentedC512 /\ prefill_projection_tactic o = kProjectionExactSegmentedC512 /\
  server_max_sequence_length o = 44095 /\ maximum_output_tokens o = 4096 /\ request_max_arena_bytes o = 3070908416.
Proof.
  unfold is_p40_exact_legacy_c512_production_profile, follows_plan. rewrite !andb_true_iff, !Z.eqb_eq, !bool_decide_eq_true.
  intros. destruct_and?. by split_and!.
Qed.

(** An option set that starts is on a production route. *)
Lemma valid_options_facts inet_pton o : options_error inet_pton o = None -> development_route o = kRouteNone.
Proof.
  unfold options_error. cbv zeta. destruct (outside_safe_bounds o); [done|].
  destruct (is_p40_whole_core_v1_production_profile o) eqn:Hw; [by intros _; apply whole_core_plan_facts|].
  destruct (is_p40_exact_legacy_c512_production_profile o) eqn:Hx; [by intros _; apply legacy_plan_facts|].
  repeat case_match; try done; destruct (bool_decide (development_route o = kP40WholeCoreV10)); done.
Qed.

(** ... and has a key unless it only listens to the loopback address. *)
Lemma valid_options_key inet_pton o : options_error inet_pton o = None -> bind_address o = loopback \/ api_key_file o <> [].
Proof.
  unfold options_error. cbv zeta. destruct (negb (bool_decide (bind_address o = loopback)) && bool_decide (api_key_file o = [])) eqn:Hk.
  - intros H. exfalso. revert H. repeat match goal with |- (if ?b then _ else _) = _ -> _ => destruct b; try done end.
  - intros _. apply andb_false_iff in Hk as [Hk|Hk]; [left; by apply negb_false_iff, bool_decide_eq_true in Hk|right].
    by apply bool_decide_eq_false in Hk.
Qed.

(** Starting.  The server starts exactly on options within the fixed
    bounds that follow one of the two sealed plans in every capacity, backend
    and tactic, with a numeric address, and with an API key unless it only
    listens to the loopback address.  The other checks never decide: a
    plan implies its tactics, and the request arena the planner computes for
    the sealed lengths is the sealed arena, to the byte. *)
Theorem valid_options_exact inet_pton o :
  (options_error inet_pton o = None <->
   outside_safe_bounds o = false /\
   (is_p40_exact_legacy_c512_production_profile o = true \/ is_p40_whole_core_v1_production_profile o = true) /\
   inet_pton (bind_address o) = true /\ (bind_address o = loopback \/ api_key_file o <> [])) /\
  options_error inet_pton o <> Some CapacityMismatch /\ options_error inet_pton o <> Some LayerMajorNeedsSm87 /\
  options_error inet_pton o <> Some AttentionNeedsLayerMajor /\ options_error inet_pton o <> Some ProjectionsNeedLayerMajor.
Proof.
  unfold options_error. cbv zeta.
  destruct (outside_safe_bounds o) eqn:Hb; [split_and!; try done; split; [done|by intros [? _]]|].
  destruct (is_p40_whole_core_v1_production_profile o) eqn:Hw.
  - destruct (whole_core_plan_facts o Hw) as (Hr & Hp & Hc & Hm). rewrite Hr, Hp, Hc, Hm.
    rewrite (bool_decide_false (kRouteNone = kP40WholeCoreV10)) by done.
    rewrite (bool_decide_true (kSm87WeightOnly = kSm87WeightOnly)), (bool_decide_true (kWholeRequestLayerMajor = kWholeRequestLayerMajor)) by done.
    rewrite Z.eqb_refl. cbn [negb andb orb Bool.eqb]. rewrite ?andb_false_r, ?andb_true_r. cbn [andb].
    destruct (inet_pton (bind_address o)); cbn [negb]; [|split_and!; try done; split; [done|by intros (_ & _ & ? & _)]].
    destruct (decide (bind_address o = loopback)) as [Hl|Hl]; [rewrite (bool_decide_true (bind_address o = loopback)) by done|
      rewrite (bool_decide_false (bind_address o = loopback)) by done]; cbn [negb andb].
    + split_and!; try done. split; [intros _|done]. split_and!; [done|by right|done|by left].
    + case_bool_decide as Hk; split_and!; try done.
      * split; [done|]. intros (_ & _ & _ & [?|?]); done.
      * split; [intros _|done]. split_and!; [done|by right|done|by right].
  - destruct (is_p40_exact_legacy_c512_production_profile o) eqn:Hx.
    + destruct (legacy_plan_facts o Hx) as (Hr & Hp & Hc & Hm & Ha & Ht & _).
      rewrite (sealed_capacity o Hx), Hr, Hp, Hc, Hm, Ha, Ht.
      rewrite (bool_decide_false (kRouteNone = kP40WholeCoreV10)) by done.
      rewrite (bool_decide_false (kProjectionExactSegmentedC512 = kNativePromptWideP40WholeCore)) by done.
      rewrite (bool_decide_false (kLegacyC512Tiled = kWholeRequestLayerMajor)) by done.
      rewrite (bool_decide_true (kAttentionExactSegmentedC512 = kAttentionExactSegmentedC512)),
        (bool_decide_true (kProjectionExactSegmentedC512 = kProjectionExactSegmentedC512)) by done. cbn [negb andb orb Bool.eqb].
      destruct (inet_pton (bind_address o)); cbn [negb]; [|split_and!; try done; split; [done|by intros (_ & _ & ? & _)]].
      destruct (decide (bind_address o = loopback)) as [Hl|Hl]; [rewrite (bool_decide_true (bind_address o = loopback)) by done|
        rewrite (bool_decide_false (bind_address o = loopback)) by done]; cbn [negb andb].
      * split_and!; try done. split; [intros _|done]. split_and!; [done|by left|done|by left].
      * case_bool_decide as Hk; split_and!; try done.
        -- split; [done|]. intros (_ & _ & _ & [?|?]); done.
        -- split; [intros _|done]. split_and!; [done|by left|done|by right].
    + assert (Hno : ~ (false = false /\ (false = true \/ false = true) /\ inet_pton (bind_address o) = true /\
        (bind_address o = loopback \/ api_key_file o <> []))) by (intros (_ & [?|?] & _); done).
      destruct (bool_decide (development_route o = kP40WholeCoreV10)), (bool_decide (prefill_projection_tactic o = _));
        cbn [negb andb Bool.eqb]; split_and!; try done; (split; [done|intros H; by apply Hno in H]).
Qed.

Lemma valid_options_exact_witness :
  options_error (fun _ => true) (default_options (lit "/models")) = None /\
  capacity_mismatch (default_options (lit "/models")) = false.
Proof.
  split; [|apply sealed_capacity; vm_compute; reflexivity].
  apply (valid_options_exact (fun _ => true) (default_options (lit "/models"))).
  split_and!; [vm_compute; reflexivity|left; vm_compute; reflexivity|reflexivity|by left].
Defined.

(** ** The load receipt *)

(** The branch of the whole-core profile. *)
Definition whole_core_receipt (plan : EvaluationProductionDeploymentPlan) (load : ReferenceEngineLoadStats) : bool :=
  let gate_up := negb (decode_gate_up_layers plan =? 0) in
  let consumer_order := negb (decode_down_consumer_order_layers plan =? 0) in
  negb (fp8_prefill_supermatrix_sidecars_enabled load)
  && (fp8_prefill_supermatrix_sidecar_projections load =? 0)
  && (fp8_prefill_supermatrix_sidecar_bytes load =? 0)
  && fp8_output_sidecars_enabled load
  && (fp8_output_sidecar_layers load =? decode_fp8_output_layers plan)
  && (fp8_output_sidecar_bytes load =? decode_fp8_output_sidecar_bytes plan)
  && bool_decide (fp8_output_sidecar_fallback_reason load = [])
  && Bool.eqb (nvfp4_gate_up_coupled_feed_requested load) gate_up
  && Bool.eqb (nvfp4_gate_up_coupled_feed_enabled load) gate_up
  && (nvfp4_gate_up_coupled_feed_layers load =? decode_gate_up_layers plan)
  && (nvfp4_gate_up_coupled_feed_bytes load =? decode_gate_up_sidecar_bytes plan)
  && Bool.eqb (nvfp4_gate_up_coupled_feed_production_requested load) gate_up
  && Bool.eqb (nvfp4_gate_up_coupled_feed_production_enabled load) gate_up
  && (nvfp4_gate_up_coupled_feed_production_bytes load =? decode_gate_up_sidecar_bytes plan)
  && nvfp4_down_scale6_sidecars_enabled load
  && (nvfp4_down_scale6_sidecar_eligible_layers load =? decode_down_scale6_layers plan)
  && (nvfp4_down_scale6_sidecar_fallback_layers load =? kQwen36DenseLayerCount - decode_down_scale6_layers plan)
  && (nvfp4_down_scale6_sidecar_bytes load =? decode_down_scale6_sidecar_bytes plan)
  && bool_decide (nvfp4_down_scale6_sidecar_fallback_reason load = [])
  && Bool.eqb (nvfp4_down_consumer_order_sidecars_requested load) consumer_order
  && Bool.eqb (nvfp4_down_consumer_order_sidecars_enabled load) consumer_order
  && (nvfp4_down_consumer_order_sidecar_layers load =? decode_down_consumer_order_layers plan)
  && (nvfp4_down_consumer_order_sidecar_bytes load =? decode_down_consumer_order_sidecar_bytes plan)
  && Bool.eqb (nvfp4_down_consumer_order_production_requested load) consumer_order
  && Bool.eqb (nvfp4_down_consumer_order_production_enabled load) consumer_order
  && (nvfp4_down_consumer_order_production_bytes load =? decode_down_consumer_order_sidecar_bytes plan)
  && bool_decide (decode_graph_cache_requested_policy (graph_cache load) = decode_graph_cache_policy plan)
  && bool_decide (decode_graph_cache_effective_policy (graph_cache load) = decode_graph_cache_policy plan)
  && (decode_graph_cache_first_position (graph_cache load) =? decode_graph_first_position plan)
  && (decode_graph_cache_last_position (graph_cache load) =? decode_graph_last_position plan)
  && (decode_graph_cache_slot_count (graph_cache load) =? decode_graph_slots plan)
  && bool_decide (decode_graph_cache_fallback_reason (graph_cache load) = []).

(** The branch of every other profile. *)
Definition sealed_receipt (plan : EvaluationProductionDeploymentPlan) (load : ReferenceEngineLoadStats) : bool :=
  fp8_prefill_supermatrix_sidecars_enabled load
  && (fp8_prefill_supermatrix_sidecar_projections load =? plan_prefill_supermatrix_projections plan)
  && (fp8_prefill_supermatrix_sidecar_bytes load =? plan_prefill_supermatrix_sidecar_bytes plan)
  && fp8_output_sidecars_enabled load
  && (fp8_output_sidecar_layers load =? decode_fp8_output_layers plan)
  && (fp8_output_sidecar_bytes load =? decode_fp8_output_sidecar_bytes plan)
  && bool_decide (fp8_output_sidecar_fallback_reason load = [])
  && nvfp4_gate_up_coupled_feed_requested load
  && nvfp4_gate_up_coupled_feed_enabled load
  && nvfp4_gate_up_coupled_feed_production_requested load
  && nvfp4_gate_up_coupled_feed_production_enabled load
  && (nvfp4_gate_up_coupled_feed_layers load =? decode_gate_up_layers plan)
  && (nvfp4_gate_up_coupled_feed_bytes load =? decode_gate_up_sidecar_bytes plan)
  && (nvfp4_gate_up_coupled_feed_production_bytes load =? decode_gate_up_sidecar_bytes plan)
  && nvfp4_down_scale6_sidecars_enabled load
  && (nvfp4_down_scale6_sidecar_eligible_layers load =? decode_down_scale6_layers plan)
  && (nvfp4_down_scale6_sidecar_fallback_layers load =? kQwen36DenseLayerCount - decode_down_scale6_layers plan)
  && (nvfp4_down_scale6_sidecar_bytes load =? decode_down_scale6_sidecar_bytes plan)
  && bool_decide (nvfp4_down_scale6_sidecar_fallback_reason load = [])
  && nvfp4_down_consumer_order_sidecars_requested load
  && nvfp4_down_consumer_order_sidecars_enabled load
  && nvfp4_down_consumer_order_production_requested load
  && nvfp4_down_consumer_order_production_enabled load
  && (nvfp4_down_consumer_order_sidecar_layers load =? decode_down_consumer_order_layers plan)
  && (nvfp4_down_consumer_order_sidecar_bytes load =? decode_down_consumer_order_sidecar_bytes plan)
  && (nvfp4_down_consumer_order_production_bytes load =? decode_down_consumer_order_sidecar_bytes plan)
  && bool_decide (decode_graph_cache_requested_policy (graph_cache load) = decode_graph_cache_policy plan)
  && bool_decide (decode_graph_cache_effective_policy (graph_cache load) = decode_graph_cache_policy plan)
  && (decode_graph_cache_first_position (graph_cache load) =? decode_graph_first_position plan)
  && (decode_graph_cache_last_position (graph_cache load) =? decode_graph_last_position plan)
  && (decode_graph_cache_slot_count (graph_cache load) =? decode_graph_slots plan)
  && bool_decide (decode_graph_cache_fallback_reason (graph_cache load) = []).

Definition valid_production_load_receipt (o : EvaluationServerOptions) (load : ReferenceEngineLoadStats) : bool :=
  if negb (bool_decide (development_route o = kRouteNone)) then true
  else if is_p40_whole_core_v1_production_profile o then whole_core_receipt selected_p40_whole_core_plan load
  else sealed_receipt kP40ExactLegacyC512ProductionPlan load.

(** ** The latch *)

Record EvaluationProductionRuntimeHealth := { enforced : bool; healthy : bool }.

(** [runtime_health] of [run_evaluation_server]. *)
Definition fresh_health (o : EvaluationServerOptions) : EvaluationProductionRuntimeHealth :=
  {| enforced := bool_decide (development_route o = kRouteNone); healthy := true |}.

Definition health_ready (h : EvaluationProductionRuntimeHealth) : bool := negb (enforced h) || healthy h.

Definition fail_closed (h : EvaluationProductionRuntimeHealth) : EvaluationProductionRuntimeHealth :=
  if negb (enforced h) then h else {| enforced := enforced h; healthy := false |}.

Definition health_observe (o : EvaluationServerOptions) (load : ReferenceEngineLoadStats)
    (h : EvaluationProductionRuntimeHealth) : bool * EvaluationProductionRuntimeHealth :=
  if negb (health_ready h) then (false, h)
  else if negb (enforced h) then (true, h)
  else if negb (valid_production_load_receipt o load) then (false, fail_closed h)
  else (true, h).

(** The failures that leave the engine unusable. *)
Definition unrecoverable (diagnostic : ReferenceEngineDiagnostic) : bool :=
  negb (diagnostic_cuda_error diagnostic =? 0)
  || bool_decide (diagnostic_code diagnostic = kRunnerResetFailure)
  || bool_decide (diagnostic_code diagnostic = kRunnerStepFailure)
  || bool_decide (diagnostic_code diagnostic = kMissingLogits)
  || bool_decide (diagnostic_code diagnostic = kMissingPrediction)
  || bool_decide (diagnostic_code diagnostic = kMissingTiming)
  || bool_decide (diagnostic_code diagnostic = kPrefillPlanUnavailable).

Definition health_observe_failure (diagnostic : ReferenceEngineDiagnostic)
    (h : EvaluationProductionRuntimeHealth) : EvaluationProductionRuntimeHealth :=
  if unrecoverable diagnostic then fail_closed h else h.

(** ** What the latch means *)

(** What the latch is told over the server's life. *)
Inductive HealthEvent := Observed (load : ReferenceEngineLoadStats) | Failed (diagnostic : ReferenceEngineDiagnostic).

Definition health_step (o : EvaluationServerOptions) (h : EvaluationProductionRuntimeHealth) (e : HealthEvent) :
    EvaluationProductionRuntimeHealth :=
  match e with Observed load => (health_observe o load h).2 | Failed diagnostic => health_observe_failure diagnostic h end.

(** An event that does not close the server. *)
Definition sound_event (o : EvaluationServerOptions) (e : HealthEvent) : bool :=
  match e with
  | Observed load => valid_production_load_receipt o load
  | Failed diagnostic => negb (unrecoverable diagnostic)
  end.

(** The inventory of an engine loaded for a plan: every accelerated layout is
    there, with its exact size, and nothing fell back. *)
Definition sealed_inventory (supermatrix : bool) (plan : EvaluationProductionDeploymentPlan) : ReferenceEngineLoadStats :=
  let gate_up := negb (decode_gate_up_layers plan =? 0) in
  let consumer_order := negb (decode_down_consumer_order_layers plan =? 0) in {|
  fp8_prefill_supermatrix_sidecars_enabled := supermatrix;
  fp8_prefill_supermatrix_sidecar_projections := plan_prefill_supermatrix_projections plan;
  fp8_prefill_supermatrix_sidecar_bytes := plan_prefill_supermatrix_sidecar_bytes plan;
  fp8_output_sidecars_enabled := true; fp8_output_sidecar_layers := decode_fp8_output_layers plan;
  fp8_output_sidecar_bytes := decode_fp8_output_sidecar_bytes plan; fp8_output_sidecar_fallback_reason := [];
  nvfp4_gate_up_coupled_feed_requested := gate_up; nvfp4_gate_up_coupled_feed_enabled := gate_up;
  nvfp4_gate_up_coupled_feed_layers := decode_gate_up_layers plan;
  nvfp4_gate_up_coupled_feed_bytes := decode_gate_up_sidecar_bytes plan;
  nvfp4_gate_up_coupled_feed_production_requested := gate_up; nvfp4_gate_up_coupled_feed_production_enabled := gate_up;
  nvfp4_gate_up_coupled_feed_production_bytes := decode_gate_up_sidecar_bytes plan;
  nvfp4_down_scale6_sidecars_enabled := true; nvfp4_down_scale6_sidecar_eligible_layers := decode_down_scale6_layers plan;
  nvfp4_down_scale6_sidecar_fallback_layers := kQwen36DenseLayerCount - decode_down_scale6_layers plan;
  nvfp4_down_scale6_sidecar_bytes := decode_down_scale6_sidecar_bytes plan;
  nvfp4_down_scale6_sidecar_fallback_reason := [];
  nvfp4_down_consumer_order_sidecars_requested := consumer_order;
  nvfp4_down_consumer_order_sidecars_enabled := consumer_order;
  nvfp4_down_consumer_order_sidecar_layers := decode_down_consumer_order_layers plan;
  nvfp4_down_consumer_order_sidecar_bytes := decode_down_consumer_order_sidecar_bytes plan;
  nvfp4_down_consumer_order_production_requested := consumer_order;
  nvfp4_down_consumer_order_production_enabled := consumer_order;
  nvfp4_down_consumer_order_production_bytes := decode_down_consumer_order_sidecar_bytes plan;
  graph_cache := {| decode_graph_cache_requested_policy := decode_graph_cache_policy plan;
    decode_graph_cache_effective_policy := decode_graph_cache_policy plan;
    decode_graph_cache_first_position := decode_graph_first_position plan;
    decode_graph_cache_last_position := decode_graph_last_position plan;
    decode_graph_cache_slot_count := decode_graph_slots plan; decode_graph_cache_fallback_reason := [] |}
|}.

Definition expected_inventory (o : EvaluationServerOptions) : ReferenceEngineLoadStats :=
  if is_p40_whole_core_v1_production_profile o then sealed_inventory false selected_p40_whole_core_plan
  else sealed_inventory true kP40ExactLegacyC512ProductionPlan.

Lemma whole_core_receipt_spec load :
  whole_core_receipt selected_p40_whole_core_plan load = true <-> load = sealed_inventory false selected_p40_whole_core_plan.
Proof.
  split; [|by intros ->; vm_compute].
  unfold whole_core_receipt. cbv zeta. rewrite !andb_true_iff, !bool_decide_eq_true, !Z.eqb_eq, !Bool.eqb_true_iff, negb_true_iff.
  intros. destruct_and?. destruct load as [? ? ? ? ? ? ? ? ? ? ? ? ? ? ? ? ? ? ? ? ? ? ? ? ? ? []]. cbn in *. by subst.
Qed.

Lemma sealed_receipt_spec load :
  sealed_receipt kP40ExactLegacyC512ProductionPlan load = true <-> load = sealed_inventory true kP40ExactLegacyC512ProductionPlan.
Proof.
  split; [|by intros ->; vm_compute].
  unfold sealed_receipt. rewrite !andb_true_iff, !bool_decide_eq_true, !Z.eqb_eq.
  intros. destruct_and?. destruct load as [? ? ? ? ? ? ? ? ? ? ? ? ? ? ? ? ? ? ? ? ? ? ? ? ? ? []]. cbn in *. by subst.
Qed.

(** The receipt of a production route admits exactly one inventory. *)
Lemma receipt_spec o load :
  development_route o = kRouteNone -> valid_production_load_receipt o load = true <-> load = expected_inventory o.
Proof.
  intros Ho. unfold valid_production_load_receipt, expected_inventory. rewrite (bool_decide_true _ Ho). cbn [negb].
  destruct (is_p40_whole_core_v1_production_profile o); [apply whole_core_receipt_spec|apply sealed_receipt_spec].
Qed.

(** An engine that gave up its prepared decode graphs is not the sealed one. *)
Lemma retired_receipt o reason load :
  development_route o = kRouteNone -> valid_production_load_receipt o (retire_graph_cache reason load) = false.
Proof.
  intros Ho. apply not_true_is_false. rewrite (receipt_spec _ _ Ho). intros H.
  apply (f_equal (fun l => decode_graph_cache_slot_count (graph_cache l))) in H. revert H.
  unfold expected_inventory. by destruct (is_p40_whole_core_v1_production_profile o).
Qed.

Lemma health_step_enforced o h e : enforced (health_step o h e) = enforced h.
Proof.
  destruct e as [l|d]; cbn [health_step]; unfold health_observe, health_observe_failure, fail_closed; repeat case_match; cbn; auto.
Qed.

Lemma health_step_ready o h e :
  enforced h = bool_decide (development_route o = kRouteNone) ->
  health_ready (health_step o h e) = health_ready h && (negb (enforced h) || sound_event o e).
Proof.
  intros He. destruct h as [en he]. cbn in He. destruct e as [l|d]; cbn [health_step sound_event];
    unfold health_observe, health_observe_failure, fail_closed, health_ready; cbn [enforced healthy].
  - destruct en, he; cbn; auto. by destruct (valid_production_load_receipt o l).
  - destruct (unrecoverable d), en, he; reflexivity.
Qed.

Lemma health_run_ready o events h :
  enforced h = bool_decide (development_route o = kRouteNone) ->
  health_ready (foldl (health_step o) h events) = health_ready h && (negb (enforced h) || forallb (sound_event o) events).
Proof.
  revert h. induction events as [|e events IH]; intros h He; cbn [foldl forallb].
  - by rewrite orb_true_r, andb_true_r.
  - rewrite IH by (by rewrite health_step_enforced). rewrite health_step_ready, health_step_enforced by done.
    by destruct (health_ready h), (enforced h), (sound_event o e).
Qed.

(** C14. The health latch.  A server that may start answers requests exactly as
    long as every inventory it was shown is the single one its plan seals,
    field by field, and no failure was unrecoverable; once closed it stays
    closed, whatever follows; and an engine that retired its decode graphs
    closes it the next time it is looked at. *)
Theorem health_latch inet_pton o events more reason load :
  options_error inet_pton o = None ->
  (health_ready (foldl (health_step o) (fresh_health o) events) = true <->
   Forall (fun e => match e with Observed l => l = expected_inventory o | Failed d => unrecoverable d = false end) events) /\
  (health_ready (foldl (health_step o) (fresh_health o) events) = false ->
   health_ready (foldl (health_step o) (fresh_health o) (events ++ more)) = false) /\
  health_ready (foldl (health_step o) (fresh_health o) (events ++ [Observed (retire_graph_cache reason load)])) = false.
Proof.
  intros Hopt. apply valid_options_facts in Hopt.
  assert (Hrun : forall es, health_ready (foldl (health_step o) (fresh_health o) es) = forallb (sound_event o) es).
  { intros es. rewrite health_run_ready by done. unfold fresh_health. by rewrite (bool_decide_true _ Hopt). }
  rewrite !Hrun, !forallb_app. split_and!.
  - rewrite <- Is_true_true, forallb_True. apply Forall_iff. intros [l|d]; cbn [sound_event]; rewrite Is_true_true.
    + by apply receipt_spec.
    + by rewrite negb_true_iff.
  - by intros ->.
  - cbn [forallb sound_event]. rewrite (retired_receipt _ _ _ Hopt). by rewrite andb_false_r.
Qed.

Lemma health_latch_witness :
  health_ready (foldl (health_step (default_options (lit "/models"))) (fresh_health (default_options (lit "/models")))
    [Observed (sealed_inventory true kP40ExactLegacyC512ProductionPlan)]) = true /\
  health_ready (foldl (health_step (default_options (lit "/models"))) (fresh_health (default_options (lit "/models")))
    ([Observed (sealed_inventory true kP40ExactLegacyC512ProductionPlan)] ++ [Observed (retire_graph_cache [] empty_load_stats)])) = false.
Proof.
  destruct (health_latch (fun _ => true) (default_options (lit "/models"))
    [Observed (sealed_inventory true kP40ExactLegacyC512ProductionPlan)] [] [] empty_load_stats) as (Hready & _ & Hclosed).
  - vm_compute. reflexivity.
  - split; [|exact Hclosed]. apply Hready. constructor; [vm_compute; reflexivity|constructor].
Defined.
