(* ===== verification/Gateway.v ===== *)
(** * Gateway: the inference worker
      (src/src/server/evaluation_server.cpp: ObserverContext, prefill_cancelled,
      observe_gateway_token, finish_reason, usage_for, execute_job and
      inference_worker)

    The worker takes a job from the queue, asks the engine, and publishes what
    the engine answers: token by token for a stream, at once otherwise.  The
    engine is any that keeps the promises of [InferenceEngine]; what the ingress
    thread and the client do meanwhile is the schedule of [Shared].

    The build is the one without MTP.  Times, the log, the witness written for
    the evaluation, and exceptions (memory that runs out) are left out. *)

From Stdlib Require Import Floats String.
From S2P Require Import Prelude OrderedMap Json Generation RequestPlan Tokenizer TokenizerText TokenizerPieces Engine Http HttpOutput OpenAI Utf8Output Job Deployment.

(** ** The observer of the engine *)

Record ObserverContext := { gateway : Shared; pending_utf8 : list Z }.

Definition with_gateway (s : Shared) (c : ObserverContext) : ObserverContext :=
  {| gateway := s; pending_utf8 := pending_utf8 c |}.

Definition prefill_cancelled (c : ObserverContext) : bool * ObserverContext :=
  let '(stop, s) := load_either (gateway c) in (stop, with_gateway s c).

(** The last event a request can have. *)
Definition is_finished (request : OpenAIRequest) (e : ReferenceTokenEvent) : bool :=
  is_stop_token e || (event_index e + 1 =? max_tokens request).

Definition token_finish_reason (request : OpenAIRequest) (e : ReferenceTokenEvent) : option OpenAIFinishReason :=
  if is_stop_token e then Some kStop else if is_finished request e then Some kLength else None.

(** One chunk of the stream, with [text]. *)
Definition chunk_payload (j : InferenceJob) (e : ReferenceTokenEvent) (text : list Z) : list Z :=
  let request := job_request j in
  match endpoint request with
  | kChatCompletions => serialize_chat_chunk (job_id j) (job_created j) (model request) text (event_index e =? 0)
                          (token_finish_reason request e)
  | kCompletions => serialize_text_chunk (job_id j) (job_created j) (model request) text (token_finish_reason request e)
  end.

Definition observe_gateway_token (e : ReferenceTokenEvent) (c : ObserverContext) : bool * ObserverContext :=
  let '(stop, s) := load_either (gateway c) in
  if stop then (false, with_gateway s c) else
  if negb (stream (job_request (job s))) then (true, with_gateway s c) else
  let '(delta, pending) := render_utf8_output (pending_utf8 c ++ text_delta e) (is_finished (job_request (job s)) e) in
  let '(pushed, s) := push_event (sse_data (chunk_payload (job s) e delta)) s in
  (pushed, {| gateway := if pushed then s else set_cancelled s; pending_utf8 := pending |}).

(** ** Executing a job *)

Definition simple_error (status : Z) (code message : list Z) : OpenAIProtocolError :=
  {| http_status := status; error_code := code; error_message := message; error_param := [] |}.

Definition generate_options (o : EvaluationServerOptions) (request : OpenAIRequest) : ReferenceGenerateOptions ObserverContext :=
  let whole_request := bool_decide (server_prefill_execution_mode o = kWholeRequestLayerMajor) in {|
  gen_max_new_tokens := max_tokens request; gen_capture_trace := false; gen_stop_token_id := kQwen36ImEndTokenId;
  gen_prefill_chunk_size := server_prefill_chunk_size o; gen_logits_mode := kPredictedTokenOnly;
  use_prepared_decode_graph_cache := false; token_observer := Some observe_gateway_token;
  has_token_observer_context := true; gen_prefill_execution_mode := server_prefill_execution_mode o;
  prefill_cancellation_probe := if whole_request then Some prefill_cancelled else None;
  has_prefill_cancellation_context := whole_request
|}.

Definition finish_reason (reason : ReferenceStopReason) : OpenAIFinishReason :=
  match reason with kImEnd => kStop | _ => kLength end.

Definition usage_for (g : ReferenceGeneration) : OpenAIUsage :=
  let prompt := Z.of_nat (length (generation_prompt_token_ids g)) in
  let completion := Z.of_nat (length (generation_token_ids g)) in
  {| prompt_tokens := prompt; completion_tokens := completion; total_tokens := u64 (prompt + completion) |}.

Definition unhealthy_before : OpenAIProtocolError :=
  simple_error 503 (lit "production_route_unhealthy")
    (lit "the sealed production route is unhealthy; restart the server after inspecting its runtime receipt").
Definition unhealthy_after : OpenAIProtocolError :=
  simple_error 503 (lit "production_route_unhealthy")
    (lit "the sealed production route changed at runtime; restart the server after inspecting its receipt").
Definition server_stopping : OpenAIProtocolError :=
  simple_error 503 (lit "server_stopping") (lit "server is stopping").

(** What a client is told of a failed generation: the text of a mistake of its
    own, and nothing about the inside of the server. *)
Definition generation_error (d : ReferenceEngineDiagnostic) : OpenAIProtocolError :=
  let client_error := bool_decide (diagnostic_code d = kInvalidArgument) || bool_decide (diagnostic_code d = kCapacityExceeded)
                      || bool_decide (diagnostic_code d = kTokenizerFailure) in
  simple_error (if client_error then 400 else 500) (if client_error then lit "invalid_request" else lit "engine_error")
    (if bool_decide (diagnostic_code d = kTokenizerFailure) then lit "prompt formatting or tokenization failed"
     else if client_error then diagnostic_message d else lit "native inference failed; inspect server logs").

Definition done_event : list Z := lit "data: [DONE]" ++ [10; 10].

Definition usage_payload (j : InferenceJob) (g : ReferenceGeneration) : list Z :=
  serialize_usage_chunk (endpoint (job_request j)) (job_id j) (job_created j) (model (job_request j)) (usage_for g).

Definition completion_body (j : InferenceJob) (g : ReferenceGeneration) : list Z :=
  let text := fst (render_utf8_output (generated_text g) true) in
  let reason := finish_reason (generation_stop_reason g) in
  match endpoint (job_request j) with
  | kChatCompletions => serialize_chat_completion (job_id j) (job_created j) (model (job_request j)) text reason (usage_for g)
  | kCompletions => serialize_text_completion (job_id j) (job_created j) (model (job_request j)) text reason (usage_for g)
  end.

(** From a generation to the end of the reply. *)
Definition publish_generation (g : ReferenceGeneration) (s : Shared) : Shared :=
  if stream (job_request (job s)) then
    let '(pushed, s) := if include_usage (job_request (job s)) then push_event (sse_data (usage_payload (job s) g)) s else (true, s) in
    if negb pushed then close_events (set_cancelled s)
    else close_events (snd (push_event done_event s))
  else set_response 200 (completion_body (job s) g) s.

(** What follows the engine's answer; [healthy_] is whether the receipt still
    matches. *)
Definition publish_result (healthy_ : bool) (r : ReferenceGenerateResult) (s : Shared) : Shared :=
  if negb healthy_ then publish_job_error unhealthy_after s else
  let '(stop, s) := load_either s in
  if stop then close_events s else
  match r with
  | inl d => publish_job_error (generation_error d) s
  | inr g => match generation_stop_reason g with kStopCancelled => close_events s | _ => publish_generation g s end
  end.

Section Worker.
Context `{InferenceEngine E ObserverContext}.
Variable o : EvaluationServerOptions.

Definition ask_request (request : OpenAIRequest) : Asked E ObserverContext :=
  match prompt_kind request with
  | kChatMessages => ask_chat (messages request)
  | kRawText => ask_prompt (prompt request)
  | kTokenIds => ask_token_ids (prompt_token_ids request)
  end.

(** [None] when the engine does not answer. *)
Definition execute_job (e : E) (h : EvaluationProductionRuntimeHealth) (s : Shared)
    : option (E * EvaluationProductionRuntimeHealth * Shared) :=
  if negb (health_ready h) then Some (e, h, publish_job_error unhealthy_before s) else
  let '(stop, s) := load_either s in
  if stop then Some (e, h, publish_job_error server_stopping s) else
  let request := job_request (job s) in
  match ask_request request (generate_options o request) e {| gateway := s; pending_utf8 := [] |} with
  | None => None
  | Some (generated, (e, c)) =>
      let h := match generated with inl d => health_observe_failure d h | inr _ => h end in
      let '(ok, h) := health_observe o (published e) h in
      Some (e, h, publish_result ok generated (gateway c))
  end.

(** The worker's loop over the jobs that are queued, and the health after each. *)
Fixpoint inference_worker (jobs : list Shared) (e : E) (h : EvaluationProductionRuntimeHealth)
    : option (E * EvaluationProductionRuntimeHealth * list Shared) :=
  match jobs with
  | [] => Some (e, h, [])
  | s :: jobs =>
      match execute_job e h s with
      | None => None
      | Some (e, h, s) =>
          match inference_worker jobs e (snd (health_observe o (published e) h)) with
          | None => None
          | Some (e, h, l) => Some (e, h, s :: l)
          end
      end
  end.
End Worker.

(** ** What a reply is made of *)

Definition write_event (r : Response) : list Z := sse_data (write r).

Section Reply.
Variable request : OpenAIRequest.
Variable id : list Z.
Variable created : Z.

Definition chunk_response (e : ReferenceTokenEvent) (text : list Z) : Response :=
  match endpoint request with
  | kChatCompletions => ChatChunk id created (model request) text (event_index e =? 0) (token_finish_reason request e)
  | kCompletions => TextChunk id created (model request) text (token_finish_reason request e)
  end.

(** The chunks for the events of a generation, and the bytes that are held
    back. *)
Definition stream_step (done : list Response * list Z) (e : ReferenceTokenEvent) : list Response * list Z :=
  let '(text, pending) := render_utf8_output (snd done ++ text_delta e) (is_finished request e) in
  (fst done ++ [chunk_response e text], pending).
Definition streamed (l : list ReferenceTokenEvent) : list Response * list Z := foldl stream_step ([], []) l.
Definition stream_chunks (l : list ReferenceTokenEvent) : list Response := fst (streamed l).

Definition usage_response (g : ReferenceGeneration) : Response :=
  UsageChunk (endpoint request) id created (model request) (usage_for g).

Definition completion_response (g : ReferenceGeneration) : Response :=
  let text := fst (render_utf8_output (generated_text g) true) in
  let reason := finish_reason (generation_stop_reason g) in
  match endpoint request with
  | kChatCompletions => ChatCompletion id created (model request) text reason (usage_for g)
  | kCompletions => TextCompletion id created (model request) text reason (usage_for g)
  end.

(** The events that end a stream. *)
Definition closing_events (g : ReferenceGeneration) : list (list Z) :=
  (if include_usage request then [write_event (usage_response g)] else []) ++ [done_event].

(** [g] is the generation whose tokens were [l], and it ran to its end. *)
Definition whole (l : list ReferenceTokenEvent) (g : ReferenceGeneration) : Prop :=
  event_token_id <$> l = generation_token_ids g /\ generated_text g = mjoin (text_delta <$> l) /\
  exists before e, l = before ++ [e] /\ is_finished request e = true /\ Forall (fun e => is_finished request e = false) before /\
    token_finish_reason request e = Some (finish_reason (generation_stop_reason g)).

(** What has been said once [l] was shown. *)
Definition saying (l : list ReferenceTokenEvent) : History := {|
  pushed := if stream request then write_event <$> stream_chunks l else []; answer := None
|}.

(** What has been said when the job is done. *)
Inductive ended (seen : list ReferenceTokenEvent -> Prop) : History -> Prop :=
  | ended_error error l :
      seen l -> pushed (saying l) = [] ->
      ended seen (answered (saying l) (http_status error) (serialize_openai_error error))
  | ended_cut l : seen l -> ended seen (saying l)
  | ended_broken l error :
      seen l -> pushed (saying l) <> [] -> ended seen (snoc (saying l) (write_event (ErrorResponse error)))
  | ended_counted l g :
      seen l -> whole l g -> stream request = true -> include_usage request = true ->
      ended seen (snoc (saying l) (write_event (usage_response g)))
  | ended_stream l g :
      seen l -> whole l g -> stream request = true ->
      ended seen {| pushed := pushed (saying l) ++ closing_events g; answer := None |}
  | ended_response l g :
      seen l -> whole l g -> stream request = false ->
      ended seen {| pushed := []; answer := Some (200, write (completion_response g)) |}.

(** The texts of the chunks are those of the rendered generation. *)
Lemma streamed_snoc l e : streamed (l ++ [e]) = stream_step (streamed l) e.
Proof. unfold streamed. by rewrite foldl_app. Qed.

Lemma generated_chunk_response e text : generated (chunk_response e text) = Some text.
Proof. unfold chunk_response. by destruct (endpoint request). Qed.

Definition content (rs : list Response) : list Z := mjoin ((fun r => default [] (generated r)) <$> rs).

(** While no event is the last one, the chunks are those of [render_chunks]. *)
Lemma stream_steps_content before done final :
  Forall (fun e => is_finished request e = false) before -> is_finished request final = true ->
  content (fst (foldl stream_step done (before ++ [final]))) =
  content (fst done) ++ mjoin (render_chunks (snd done) (text_delta <$> (before ++ [final]))).
Proof.
  intros Hb Hf. assert (Hone : forall (done : list Response * list Z) r,
    content (fst done ++ [r]) = content (fst done) ++ default [] (generated r)).
  { intros d r. unfold content. rewrite fmap_app, join_app. cbn. by rewrite app_nil_r. }
  revert done. induction Hb as [|e before He Hb IH]; intros done.
  - cbn [app foldl]. unfold stream_step. rewrite Hf. cbn [fmap list_fmap render_chunks].
    destruct (render_utf8_output (snd done ++ text_delta final) true) as [text p]. cbn [fst].
    rewrite Hone, generated_chunk_response. cbn. by rewrite app_nil_r.
  - cbn [app foldl]. rewrite IH. rewrite fmap_cons.
    assert (Hcons : forall pending (x : list Z) xs, xs <> [] -> render_chunks pending (x :: xs) =
      fst (render_utf8_output (pending ++ x) false) :: render_chunks (snd (render_utf8_output (pending ++ x) false)) xs).
    { intros pending x [|y ys] Hne; [done|]. cbn [render_chunks]. by destruct (render_utf8_output (pending ++ x) false). }
    rewrite Hcons by (by destruct before). unfold stream_step at 1 2. rewrite He.
    destruct (render_utf8_output (snd done ++ text_delta e) false) as [text p]. cbn [fst snd].
    rewrite Hone, generated_chunk_response, <- app_assoc. done.
Qed.

(** The text of a stream is the text of the response without a stream. *)
Lemma whole_content l g :
  whole l g -> content (stream_chunks l) = fst (render_utf8_output (generated_text g) true).
Proof.
  intros (_ & Ht & before & e & -> & Hf & Hb & _). unfold stream_chunks, streamed. rewrite stream_steps_content by done.
  cbn [fst snd]. unfold content at 1. cbn [fmap list_fmap mjoin list_join app].
  rewrite render_chunks_joined by (by destruct before). by rewrite app_nil_l, Ht.
Qed.

Lemma generated_completion_response g :
  generated (completion_response g) = Some (fst (render_utf8_output (generated_text g) true)).
Proof. unfold completion_response. by destruct (endpoint request). Qed.
End Reply.

(** ** The observer keeps its part *)

(** The request of a job. *)
Definition belongs (request : OpenAIRequest) (id : list Z) (created : Z) (s : Shared) : Prop :=
  job_request (job s) = request /\ job_id (job s) = id /\ job_created (job s) = created.

Lemma belongs_later request id created s s' : belongs request id created s -> later s s' -> belongs request id created s'.
Proof. intros (<- & <- & <-) [(H1 & H2 & H3 & _) _ _ _]. by split. Qed.

(** The worker is asked to stop. *)
Definition called_off (s : Shared) : Prop := cancelled (job s) = true \/ stopping s = true.

Lemma called_off_later s s' : called_off s -> later s s' -> called_off s'.
Proof. intros [Hc|Hs] Hl; [left; by apply Hl|right; by apply Hl]. Qed.

Lemma chunk_payload_response request id created s e text :
  belongs request id created s -> chunk_payload (job s) e text = write (chunk_response request id created e text).
Proof. intros (<- & <- & <-). unfold chunk_payload, chunk_response. by destruct (endpoint (job_request (job s))). Qed.

Section Observing.
Variable request : OpenAIRequest.
Variable id : list Z.
Variable created : Z.

Abbreviation said := (saying request id created).
Abbreviation ours := (belongs request id created).

(** The observer accepted [l]. *)
Definition observed (l : list ReferenceTokenEvent) (c : ObserverContext) : Prop :=
  consistent (said l) (gateway c) /\ ours (gateway c) /\
  (stream request = true -> pending_utf8 c = snd (streamed request id created l)).

(** The observer refused the last of [l]. *)
Definition turned_down (l : list ReferenceTokenEvent) (c : ObserverContext) : Prop :=
  exists before e, l = before ++ [e] /\ consistent (said before) (gateway c) /\ ours (gateway c) /\ called_off (gateway c).

Lemma saying_snoc l e :
  said (l ++ [e]) = if stream request
    then snoc (said l) (write_event (chunk_response request id created e
           (fst (render_utf8_output (snd (streamed request id created l) ++ text_delta e) (is_finished request e)))))
    else said l.
Proof.
  unfold saying, snoc, stream_chunks. destruct (stream request); [|done]. rewrite streamed_snoc. unfold stream_step.
  destruct (render_utf8_output _ _). cbn [fst pushed answer]. by rewrite fmap_app.
Qed.

Lemma streamed_pending l e :
  snd (streamed request id created (l ++ [e])) =
  snd (render_utf8_output (snd (streamed request id created l) ++ text_delta e) (is_finished request e)).
Proof. rewrite streamed_snoc. unfold stream_step. by destruct (render_utf8_output _ _). Qed.

Lemma observe_gateway_token_spec l e c b c' :
  observed l c -> observe_gateway_token e c = (b, c') -> if b then observed (l ++ [e]) c' else turned_down (l ++ [e]) c'.
Proof.
  intros (Hc & Ho & Hp). unfold observe_gateway_token. destruct (load_either (gateway c)) as [stop s1] eqn:Hload.
  destruct (load_either_spec _ _ _ _ Hc Hload) as (Hc1 & Hl1 & Hstop). pose proof (belongs_later _ _ _ _ _ Ho Hl1) as Ho1.
  destruct stop; [intros [= <- <-]; exists l, e; split_and!; try done; by apply Hstop|].
  destruct Ho1 as (Hr1 & Hrest). rewrite Hr1. pose proof (conj Hr1 Hrest : ours s1) as Ho1.
  destruct (stream request) eqn:Hs; cbn [negb].
  2:{ intros [= <- <-]. unfold observed. rewrite saying_snoc, Hs. by split_and!. }
  rewrite (Hp eq_refl). pose proof (saying_snoc l e) as Hsay. pose proof (streamed_pending l e) as Hpend. rewrite Hs in Hsay.
  destruct (render_utf8_output _ _) as [delta pending]. cbn [fst snd] in *. rewrite (chunk_payload_response _ _ _ _ _ _ Ho1).
  destruct (push_event _ s1) as [pushed_ s2] eqn:Hpush.
  destruct (push_event_spec _ _ _ _ _ Hc1 ltac:(by rewrite Hr1) Hpush) as [Hl2 Hres].
  pose proof (belongs_later _ _ _ _ _ Ho1 Hl2) as Ho2. destruct pushed_; intros [= <- <-].
  - split_and!; [by rewrite Hsay|exact Ho2|done].
  - destruct Hres as [Hc2 _]. destruct (set_cancelled_spec _ _ Hc2) as (Hc3 & Hl3 & Hcan).
    exists l, e. split_and!; [done|done|by eapply belongs_later|by left].
Qed.

Lemma prefill_cancelled_spec l c b c' : observed l c -> prefill_cancelled c = (b, c') -> observed l c'.
Proof.
  intros (Hc & Ho & Hp). unfold prefill_cancelled. destruct (load_either (gateway c)) as [stop s1] eqn:Hload.
  destruct (load_either_spec _ _ _ _ Hc Hload) as (Hc1 & Hl1 & _). intros [= <- <-]. split_and!; [done|by eapply belongs_later|done].
Qed.

(** An event that ends the request is the last one. *)
Lemma shown_finished data stop l e :
  shown data stop (max_tokens request) (l ++ [e]) -> Forall (fun e => is_finished request e = false) l.
Proof.
  intros Hl. apply Forall_lookup. intros k x Hk. pose proof (lookup_lt_Some _ _ _ Hk) as Hlt.
  destruct (shown_lookup _ _ _ _ k x Hl) as [Hi _ _ _ Hs _ _]; [by rewrite lookup_app_l|].
  destruct (shown_lookup _ _ _ _ (length l) e Hl) as [_ Hroom Hb _ _ _ _]; [by rewrite lookup_app_r, Nat.sub_diag by lia|].
  rewrite take_app_length in Hroom, Hb. unfold is_finished. rewrite Hs.
  rewrite Forall_forall in Hb. rewrite (proj2 (Z.eqb_neq _ _)) by (apply Hb; by eapply list_elem_of_lookup_2). cbn [orb].
  rewrite Hi, length_take, Nat.min_l by (rewrite length_app; lia). apply Z.eqb_neq. lia.
Qed.

(** A generation that ran to its end is whole. *)
Lemma completed_whole (o : EvaluationServerOptions) data (T F : list ReferenceTokenEvent -> ObserverContext -> Prop) g c :
  completed (generate_options o request) data T F g c -> generation_stop_reason g <> kStopCancelled ->
  exists l, shown data kQwen36ImEndTokenId (max_tokens request) l /\ whole request l g /\ (T l c \/ F l c) /\
    (generation_stop_reason g = kMaxNewTokens -> T l c).
Proof.
  intros (l & Hl & Hids & Htext & Hne & Hend) Hreason. cbn [generate_options gen_stop_token_id gen_max_new_tokens] in *.
  exists l. split; [done|]. destruct l as [|e l _] using rev_ind; [done|].
  pose proof (shown_finished _ _ _ _ Hl) as Hb.
  destruct (shown_lookup _ _ _ _ (length l) e Hl) as [Hi _ _ _ Hs _ _]; [by rewrite lookup_app_r, Nat.sub_diag by lia|].
  rewrite take_app_length in Hi. rewrite fmap_app in Hend. change (event_token_id <$> [e]) with [event_token_id e] in Hend.
  rewrite last_snoc in Hend. split; [|destruct (generation_stop_reason g); [split; [apply Hend|done]|split; [left|intros _]; apply Hend|done]].
  split_and!; [done|done|]. exists l, e. split_and!; [done| |done|].
  - unfold is_finished. destruct (generation_stop_reason g); [|destruct Hend as (_ & Hlen & _)|done].
    + destruct Hend as [_ [= Hx]]. by rewrite Hs, Hx, Z.eqb_refl.
    + rewrite length_app in Hlen. simpl in Hlen. rewrite Hi, (proj2 (Z.eqb_eq _ _)) by lia. apply orb_true_r.
  - unfold token_finish_reason. destruct (generation_stop_reason g); [|destruct Hend as (_ & Hlen & Hx)|done].
    + destruct Hend as [_ [= Hx]]. by rewrite Hs, Hx, Z.eqb_refl.
    + rewrite Hs, (proj2 (Z.eqb_neq _ _)) by congruence. unfold is_finished. rewrite Hs, (proj2 (Z.eqb_neq _ _)) by congruence.
      rewrite length_app in Hlen. simpl in Hlen. by rewrite Hi, (proj2 (Z.eqb_eq _ _)) by lia.
Qed.
End Observing.

(** ** A job is answered *)

(** The ingress thread has something to go on with. *)
Definition released (s : Shared) : Prop :=
  if stream (job_request (job s)) then event_stream_closed (job s) = true
  else response_ready (job s) = true \/ called_off s.

Lemma load_either_called_off h s : consistent h s -> called_off s -> fst (load_either s) = true.
Proof.
  intros Hc Ho. unfold load_either, load_cancelled, load_stopping. destruct (yield_consistent h s Hc) as [Hc1 Hl1].
  destruct (cancelled (job (yield s))) eqn:Hcan; [done|]. cbn [fst].
  destruct (yield_consistent h (yield s) Hc1) as [_ Hl2]. apply (called_off_later _ _ Ho) in Hl1 as [?|Hs]; [congruence|].
  by apply Hl2.
Qed.

Lemma publish_job_error_says error s :
  if stream (job_request (job s)) then event_stream_closed (job (publish_job_error error s)) = true
  else response_ready (job (publish_job_error error s)) = true.
Proof.
  unfold publish_job_error. cbv zeta. destruct (stream (job_request (job s))); [|done].
  unfold early_error. cbv zeta. case_bool_decide; [done|]. by destruct (load_cancelled _).
Qed.

Section Answering.
Variable request : OpenAIRequest.
Variable id : list Z.
Variable created : Z.
Variable seen : list ReferenceTokenEvent -> Prop.

Abbreviation said := (saying request id created).
Abbreviation ours := (belongs request id created).

(** What a job's state is when the worker is done with it. *)
Definition settled_job (s : Shared) : Prop := exists h, consistent h s /\ ended request id created seen h /\ ours s /\ released s.

Lemma publish_job_error_settled error l s :
  seen l -> consistent (said l) s -> ours s -> settled_job (publish_job_error error s).
Proof.
  intros Hl Hc Ho. destruct (publish_job_error_spec _ error s Hc eq_refl) as (h & Hc' & Hlater & Hh).
  exists h. pose proof (belongs_later _ _ _ _ _ Ho Hlater) as Ho'. split; [done|]. split; [|split; [done|]].
  - destruct Hh as [[-> Hp]|(Hp & _ & [->|[-> _]])]; [by apply ended_error|by apply ended_broken|by apply ended_cut].
  - pose proof (publish_job_error_says error s) as Hsays. rewrite (proj1 Ho) in Hsays. unfold released. rewrite (proj1 Ho').
    destruct (stream request); [done|by left].
Qed.

Lemma close_events_settled l s :
  seen l -> consistent (said l) s -> ours s -> stream request = true \/ called_off s -> settled_job (close_events s).
Proof.
  intros Hl Hc Ho Hoff. destruct (close_events_spec _ s Hc) as (Hc' & Hlater & Hcl). exists (said l).
  pose proof (belongs_later _ _ _ _ _ Ho Hlater) as Ho'. split_and!; [done|by apply ended_cut|done|].
  unfold released. destruct Ho' as [-> _]. destruct (stream request); [done|]. right. destruct Hoff; [done|]. by eapply called_off_later.
Qed.

Lemma close_events_ended h s :
  ended request id created seen h -> consistent h s -> ours s -> stream request = true -> settled_job (close_events s).
Proof.
  intros He Hc Ho Hs. destruct (close_events_spec _ s Hc) as (Hc' & Hlater & Hcl). exists h.
  pose proof (belongs_later _ _ _ _ _ Ho Hlater) as Ho'. split_and!; [done|done|done|].
  unfold released. destruct Ho' as [-> _]. by rewrite Hs.
Qed.

Lemma completion_body_response s g : ours s -> completion_body (job s) g = write (completion_response request id created g).
Proof. intros (<- & <- & <-). unfold completion_body, completion_response. by destruct (endpoint (job_request (job s))). Qed.

Lemma usage_payload_response s g : ours s -> usage_payload (job s) g = write (usage_response request id created g).
Proof. by intros (<- & <- & <-). Qed.

Lemma publish_generation_settled l g s :
  seen l -> whole request l g -> consistent (said l) s -> ours s -> settled_job (publish_generation g s).
Proof.
  intros Hl Hw Hc Ho. unfold publish_generation. pose proof Ho as [Hr _]. rewrite Hr. destruct (stream request) eqn:Hs.
  2:{ destruct (set_response_spec (said l) 200 (completion_body (job s) g) s Hc ltac:(by rewrite Hr) eq_refl) as [Hc' Hlater].
      pose proof (belongs_later _ _ _ _ _ Ho Hlater) as Ho'. eexists. split; [exact Hc'|]. split; [|split; [done|]].
      - unfold answered, saying. rewrite Hs, (completion_body_response _ _ Ho). cbn [pushed]. by apply (ended_response _ _ _ _ l).
      - unfold released. destruct Ho' as [-> _]. rewrite Hs. by left. }
  assert (Hdone : forall h s', consistent h s' -> ours s' -> ended request id created seen h ->
    ended request id created seen (snoc h done_event) -> settled_job (close_events (snd (push_event done_event s')))).
  { intros h s' Hc' Ho' He He'. destruct (push_event done_event s') as [b s2] eqn:Hp. cbn [snd].
    destruct (push_event_spec _ _ _ _ _ Hc' ltac:(by rewrite (proj1 Ho')) Hp) as [Hl2 Hres].
    pose proof (belongs_later _ _ _ _ _ Ho' Hl2) as Ho2. destruct b;
      [by apply (close_events_ended (snoc h done_event))|destruct Hres as [Hres _]; by apply (close_events_ended h)]. }
  destruct (include_usage request) eqn:Hi; cbn [negb].
  - destruct (push_event _ s) as [b s1] eqn:Hp. rewrite (usage_payload_response _ _ Ho) in Hp.
    destruct (push_event_spec _ _ _ _ _ Hc ltac:(by rewrite Hr) Hp) as [Hl1 Hres].
    pose proof (belongs_later _ _ _ _ _ Ho Hl1) as Ho1. destruct b; cbn [negb].
    + eapply Hdone; [exact Hres|done|by apply ended_counted|].
      replace (snoc _ done_event) with {| pushed := pushed (said l) ++ closing_events request id created g; answer := None |}; [by apply (ended_stream _ _ _ _ l)|].
      unfold snoc, closing_events. rewrite Hi. cbn [pushed answer saying app]. by rewrite <- app_assoc.
    + destruct Hres as [Hres _]. destruct (set_cancelled_spec _ _ Hres) as (Hc2 & Hl2 & Hcan).
      apply (close_events_settled l); [done|done|by eapply belongs_later|by left].
  - eapply Hdone; [exact Hc|done|by apply ended_cut|].
    replace (snoc _ done_event) with {| pushed := pushed (said l) ++ closing_events request id created g; answer := None |}; [by apply (ended_stream _ _ _ _ l)|].
    unfold snoc, closing_events. rewrite Hi. done.
Qed.

(** What the engine left: the events that were accepted. *)
Lemma outcome_said (o : EvaluationServerOptions) data r c :
  (forall l, shown data kQwen36ImEndTokenId (max_tokens request) l -> seen l) ->
  outcome (generate_options o request) data (observed request id created) (turned_down request id created) r c ->
  exists l, seen l /\ consistent (said l) (gateway c) /\ ours (gateway c).
Proof.
  intros Hseen Ho. assert (Hex : exists l, shown data kQwen36ImEndTokenId (max_tokens request) l /\
    (observed request id created l c \/ turned_down request id created l c)).
  { destruct r as [d|g]; destruct Ho as (l & Hl & Hrest); exists l; (split; [exact Hl|]); [done|].
    destruct Hrest as (_ & _ & _ & Hend). destruct (generation_stop_reason g); [apply Hend|left; apply Hend|right; apply Hend]. }
  destruct Hex as (l & Hl & [(Hc & Hours & _)|(before & e & -> & Hc & Hours & _)]).
  - exists l. split_and!; auto.
  - exists before. split_and!; [|done|done]. apply Hseen. inversion Hl as [Hnil|l0 e0 Hl0 _ Heq]; [by destruct before|].
    by apply app_inj_tail in Heq as [-> _].
Qed.

Lemma publish_result_settled (o : EvaluationServerOptions) data healthy_ r c :
  (forall l, shown data kQwen36ImEndTokenId (max_tokens request) l -> seen l) ->
  outcome (generate_options o request) data (observed request id created) (turned_down request id created) r c ->
  settled_job (publish_result healthy_ r (gateway c)).
Proof.
  intros Hseen Hout. destruct (outcome_said o data r c Hseen Hout) as (l & Hl & Hc & Ho). unfold publish_result.
  destruct healthy_; cbn [negb]; [|by eapply publish_job_error_settled].
  destruct (load_either (gateway c)) as [stop s1] eqn:Hload.
  destruct (load_either_spec _ _ _ _ Hc Hload) as (Hc1 & Hl1 & Hstop). pose proof (belongs_later _ _ _ _ _ Ho Hl1) as Ho1.
  destruct stop; [apply (close_events_settled l); try done; right; by apply Hstop|].
  assert (Hno : ~ called_off (gateway c)) by (intros Hoff; pose proof (load_either_called_off _ _ Hc Hoff) as Hx; by rewrite Hload in Hx).
  destruct r as [d|g]; [by eapply publish_job_error_settled|].
  assert (generation_stop_reason g = kStopCancelled \/ generation_stop_reason g <> kStopCancelled) as [Hr|Hr]
    by (destruct (generation_stop_reason g); auto).
  { rewrite Hr. exfalso. apply Hno. destruct Hout as (l' & _ & _ & _ & _ & Hend). rewrite Hr in Hend.
    by destruct Hend as [(? & ? & _ & _ & _ & Hoff) _]. }
  destruct (completed_whole request o data _ _ g c Hout Hr) as (l' & Hl' & Hw & [HT|(? & ? & _ & _ & _ & Hoff)] & _); [|done].
  destruct HT as (Hc' & _ & _).
  assert (Hc1' : consistent (said l') s1) by (by destruct (load_either_spec _ _ _ _ Hc' Hload)).
  destruct (generation_stop_reason g); [..|done]; by apply (publish_generation_settled l'); auto.
Qed.
End Answering.

(** Whatever the engine does, whatever the client and the ingress thread do:
    the job is settled. *)
Lemma execute_job_settled `{InferenceEngineLaws E ObserverContext} (o : EvaluationServerOptions) e h s e' h' s' request id created :
  0 <= max_tokens request -> 0 <= server_prefill_chunk_size o ->
  consistent (saying request id created []) s -> belongs request id created s ->
  execute_job o e h s = Some (e', h', s') ->
  settled_job request id created (shown (vocabulary_of e) kQwen36ImEndTokenId (max_tokens request)) s' /\
  vocabulary_of e' = vocabulary_of e.
Proof.
  intros Hmax Hchunk Hc Ho. unfold execute_job.
  assert (Hnil : shown (vocabulary_of e) kQwen36ImEndTokenId (max_tokens request) []) by constructor.
  destruct (negb (health_ready h)); [intros [= <- <- <-]; split; [by eapply publish_job_error_settled|done]|].
  destruct (load_either s) as [stop s1] eqn:Hload.
  destruct (load_either_spec _ _ _ _ Hc Hload) as (Hc1 & Hl1 & _). pose proof (belongs_later _ _ _ _ _ Ho Hl1) as Ho1.
  destruct stop; [intros [= <- <- <-]; split; [by eapply publish_job_error_settled|done]|].
  rewrite (proj1 Ho1).
  destruct (ask_request request _ e _) as [[r [e1 c]]|] eqn:Hask; [|done].
  assert (Hlaw : lawful (ask_request request)).
  { unfold ask_request. destruct (prompt_kind request);
      [apply ask_chat_lawful|apply ask_prompt_lawful|apply ask_token_ids_lawful]. }
  destruct (Hlaw (generate_options o request) observe_gateway_token (observed request id created) (turned_down request id created)
    e {| gateway := s1; pending_utf8 := [] |} r e1 c eq_refl (conj Hmax Hchunk)) as [Hout Hv].
  - intros l x c0 b c1 HT _ _ Hobs. exact (observe_gateway_token_spec request id created l x c0 b c1 HT Hobs).
  - intros probe l c0 b c1. cbn [generate_options prefill_cancellation_probe]. case_match; [|done].
    intros [= <-]. apply prefill_cancelled_spec.
  - by split_and!.
  - exact Hask.
  - cbv zeta. destruct (health_observe _ _ _) as [ok h1]. intros [= <- <- <-]. split; [|done].
    by apply (publish_result_settled request id created _ o (vocabulary_of e)).
Qed.

(** ** The ingress thread comes back *)

Lemma released_more s s' : released s -> later s s' -> (response_ready (job s) = true -> response_ready (job s') = true) -> released s'.
Proof.
  intros Hr Hl Hready. unfold released in *. rewrite (proj1 (later_request _ _ Hl)). destruct (stream _); [by apply Hl|].
  destruct Hr as [Hr|Hr]; [left; auto|right; by eapply called_off_later].
Qed.

Lemma transmit_thread send k1 k2 s (P : Shared -> Prop) :
  (forall c, P (k1 (with_connection c s))) -> (forall c, P (k2 (with_connection c s))) -> P (transmit send k1 k2 s).
Proof. intros H1 H2. unfold transmit. by destruct (send (connection s)) as [[|] c]. Qed.

Lemma resume_ready d s : response_ready (job (resume d s)) = response_ready (job s).
Proof.
  unfold resume. cbv zeta. destruct (thread s); repeat case_match; try done;
    by apply (transmit_thread _ _ _ s (fun x => response_ready (job x) = response_ready (job s))).
Qed.

Lemma resume_sections h d s :
  consistent h s -> released s -> thread s <> Returned -> (sections (resume d s) < sections s)%nat.
Proof.
  intros Hc Hrel Hnot. unfold released in Hrel. destruct (stream (job_request (job s))) eqn:Hs.
  - pose proof Hc as (_ & _ & _ & popped & _ & Hw)%consistent_stream; [|done]. unfold stream_wire in Hw.
    unfold resume. cbv zeta. destruct (thread s) as [w| |w|e| |st tx|w|st tx|] eqn:Ht; try done; try tauto.
    + rewrite Hrel, andb_false_r. repeat case_match; unfold sections; rewrite Ht; simpl; lia.
    + apply transmit_thread; intros c; unfold sections; rewrite Ht; simpl; lia.
    + rewrite Hrel. destruct (w && _); [unfold sections; rewrite Ht; simpl; lia|].
      destruct (events (job s)) eqn:He; unfold sections; rewrite Ht, ?He; simpl; rewrite ?He; simpl; lia.
    + apply transmit_thread; intros c; unfold sections; rewrite Ht; simpl; lia.
    + apply transmit_thread; intros c; unfold sections; rewrite Ht; simpl; lia.
    + apply transmit_thread; intros c; unfold sections; rewrite Ht; simpl; lia.
  - pose proof Hc as (_ & _ & _ & _ & _ & Hw)%consistent_response; [|done]. unfold response_wire in Hw.
    unfold resume. cbv zeta. destruct (thread s) as [w| |w|e| |st tx|w|st tx|] eqn:Ht; try done; try tauto.
    + destruct (response_ready (job s)) eqn:Hr; cbn [negb].
      * unfold sections. rewrite Ht, Hr, andb_false_r. destruct (w && _); simpl; lia.
      * destruct Hrel as [?|Hoff]; [done|]. destruct w; cbn [andb].
        -- assert (cancelled (job s) || stopping s || d = true) as ->.
           { destruct Hoff as [-> | ->]; [done|]. by rewrite orb_true_r. }
           unfold sections. rewrite Ht, Hr. simpl. lia.
        -- unfold sections. rewrite Ht, Hr. simpl. rewrite Hr. simpl. lia.
    + apply transmit_thread; intros c; unfold sections; rewrite Ht; simpl; lia.
Qed.

(** How often the ingress thread runs in [turns]. *)
Fixpoint resumptions (turns : list Turn) : nat :=
  match turns with [] => 0 | Resume _ :: turns => S (resumptions turns) | Stop :: turns => resumptions turns end.

Lemma turns_return h turns s :
  consistent h s -> released s -> (sections s <= resumptions turns)%nat ->
  let s' := foldl (fun s t => turn t s) s turns in consistent h s' /\ later s s' /\ thread s' = Returned.
Proof.
  assert (Hdone : forall s, thread s = Returned -> forall ts, thread (foldl (fun s t => turn t s) s ts) = Returned).
  { intros s0 Ht ts. revert s0 Ht. induction ts as [|t ts IH]; intros s0 Ht; [done|]. cbn [foldl]. apply IH.
    destruct t; cbn [turn]; [unfold resume; by rewrite Ht|done]. }
  revert s. induction turns as [|t turns IH]; intros s Hc Hrel Hn; cbv zeta; cbn [foldl].
  { split_and!; [done|done|]. simpl in Hn. unfold sections in Hn. destruct (thread s); repeat case_match; lia || done. }
  destruct (turn_consistent h t s Hc) as [Hc' Hl].
  assert (Hr' : released (turn t s)) by (eapply released_more; [done|done|destruct t; [cbn [turn]; by rewrite resume_ready|done]]).
  assert (Hret : thread s = Returned \/ thread s <> Returned) by (destruct (thread s); auto).
  destruct Hret as [Ht|Ht].
  - destruct (turns_consistent h turns (turn t s) Hc') as [H1 H2]. split_and!; [done|by etransitivity|].
    apply (Hdone s Ht (t :: turns)).
  - destruct (IH (turn t s) Hc' Hr') as (H1 & H2 & H3).
    + destruct t; simpl in *; [|done]. pose proof (resume_sections h disconnected s Hc Hrel Ht). lia.
    + split_and!; [done|by etransitivity|done].
Qed.

(** What the client was sent is a prefix of the one reply. *)
Lemma ended_reply request id created seen h s :
  ended request id created seen h -> consistent h s -> thread s = Returned ->
  sent (connection s) `prefix_of` reply_text h.
Proof.
  intros He Hc Ht. assert (Hone : pushed h = [] \/ answer h = None) by (destruct He; cbn; auto).

  assert (Hrep : replied h (event_stream_closed (job s)) (sent (connection s))).
  { destruct Hc as [_ _ Hw]. destruct (stream _).
    - destruct Hw as (_ & popped & _ & Hw). unfold stream_wire in Hw. rewrite Ht in Hw. apply Hw.
    - destruct Hw as (_ & _ & _ & Hw). unfold response_wire in Hw. rewrite Ht in Hw. apply Hw. }
  unfold reply_text. destruct Hrep as [->|Hp Hpre|Hp _ Hpre|st body Ha Hpre].
  - apply prefix_nil.
  - destruct Hone as [?| ->]; [done|]. etransitivity; [exact Hpre|]. by apply prefix_app_r.
  - destruct Hone as [?| ->]; [done|]. exact Hpre.
  - by rewrite Ha.
Qed.

(** ** A client that listens to the end *)

Lemma load_cancelled_attentive h k s :
  attentive (schedule s) -> consistent h s -> hangs_on k s -> busy s ->
  exists s', load_cancelled s = (false, s') /\ consistent h s' /\ hangs_on k s' /\ busy s' /\ later s s' /\
    attentive (schedule s') /\ (length (schedule s) <= S (length (schedule s')))%nat.
Proof.
  intros Ha Hc Ho Hb. destruct (busy_yield h k s Ha Hc Ho Hb) as (Hc' & Ho' & Hb' & Hl & Ha' & Hlen & _).
  exists (yield s). unfold load_cancelled. by rewrite (proj1 (on_flags _ _ Ho')).
Qed.

Lemma load_either_attentive h k s :
  attentive (schedule s) -> consistent h s -> hangs_on k s -> busy s ->
  exists s', load_either s = (false, s') /\ consistent h s' /\ hangs_on k s' /\ busy s' /\ later s s' /\
    attentive (schedule s') /\ (length (schedule s) <= 2 + length (schedule s'))%nat.
Proof.
  intros Ha Hc Ho Hb. destruct (load_cancelled_attentive h k s Ha Hc Ho Hb) as (s1 & Hload & Hc1 & Ho1 & Hb1 & Hl1 & Ha1 & Hlen1).
  destruct (busy_yield h k s1 Ha1 Hc1 Ho1 Hb1) as (Hc2 & Ho2 & Hb2 & Hl2 & Ha2 & Hlen2 & _).
  exists (yield s1). unfold load_either. rewrite Hload. unfold load_stopping. rewrite (proj2 (on_flags _ _ Ho2)).
  split_and!; try done; [by etransitivity|lia].
Qed.

Lemma hangs_on_less k k' s : (k' <= k)%nat -> hangs_on k s -> hangs_on k' s.
Proof. intros Hk [Hf [Ha Hn]]. split; [done|]. split; [done|lia]. Qed.

(** While the worker is busy the thread has not returned. *)
Lemma busy_waits h k s : consistent h s -> hangs_on k s -> busy s -> thread s <> Returned.
Proof.
  intros Hc [[Hcan _] _] [Hcl Hr] Ht. destruct Hc as [_ _ Hw]. destruct (stream _).
  - destruct Hw as (_ & popped & _ & Hw). unfold stream_wire in Hw. rewrite Ht in Hw. destruct Hw as [[?|?] _]; congruence.
  - destruct Hw as (_ & _ & _ & Hw). unfold response_wire in Hw. rewrite Ht in Hw. destruct Hw as [[?|?] _]; congruence.
Qed.

Section Attentive.
Variable request : OpenAIRequest.
Variable id : list Z.
Variable created : Z.

Abbreviation said := (saying request id created).
Abbreviation ours := (belongs request id created).

(** A listening client, with answers for [k] more events and [n] batches of
    the schedule left. *)
Record listening (h : History) (k n : nat) (s : Shared) : Prop := {
  listening_consistent : consistent h s;
  listening_ours : ours s;
  listening_on : hangs_on k s;
  listening_busy : busy s;
  listening_schedule : attentive (schedule s);
  listening_left : (n <= length (schedule s))%nat;
  listening_capacity : 1 <= event_capacity (job s)
}.

Lemma listening_load h k n s :
  listening h k (2 + n) s -> exists s', load_either s = (false, s') /\ listening h k n s'.
Proof.
  intros [Hc Ho Hon Hb Ha Hlen Hcap].
  destruct (load_either_attentive h k s Ha Hc Hon Hb) as (s' & Hload & Hc' & Hon' & Hb' & Hl & Ha' & Hlen').
  exists s'. split; [done|]. split; try done; [by eapply belongs_later|lia|]. by rewrite (proj2 (proj2 (proj2 (later_request _ _ Hl)))).
Qed.

Lemma listening_push h k n s event :
  listening h (S k) (4 + n) s -> stream request = true ->
  exists s', push_event event s = (true, s') /\ listening (snoc h event) k n s'.
Proof.
  intros [Hc Ho Hon Hb Ha Hlen Hcap] Hs.
  destruct (push_event_attentive h k event s) as (s' & Hpush & Hc' & Hon' & Hb' & Hl & Ha' & Hlen'); try done; [by rewrite (proj1 Ho)|lia|].
  exists s'. split; [done|]. split; try done; [by eapply belongs_later|lia|]. by rewrite (proj2 (proj2 (proj2 (later_request _ _ Hl)))).
Qed.

(** The client gets all of [h] once the worker is done. *)
Definition delivered (h : History) (s : Shared) : Prop :=
  forall n, (sections s <= n)%nat ->
  thread (Nat.iter n (resume false) s) = Returned /\ sent (connection (Nat.iter n (resume false) s)) = reply_text h.

Lemma listening_close h k n s :
  listening h k n s -> stream request = true -> pushed h <> [] -> answer h = None -> delivered h (close_events s).
Proof.
  intros [Hc Ho Hon Hb Ha _ _] Hs Hp Hnone.
  destruct (busy_yield h k s Ha Hc Hon Hb) as (Hc1 & Hon1 & Hb1 & Hl1 & _).
  destruct (close_events_spec h s Hc) as (Hc2 & Hl2 & Hcl).
  intros m Hm. apply finish; [done| | | |done].
  - pose proof (hangs_on_less k 0 _ ltac:(lia) Hon1) as [[H1 H2] H3]. by split.
  - unfold finished. destruct (belongs_later _ _ _ _ _ Ho Hl2) as [-> _]. by rewrite Hs.
  - unfold close_events. cbn [with_job thread]. by eapply busy_waits.
Qed.

Lemma listening_response h k n s status text :
  listening h k n s -> stream request = false -> answer h = None ->
  delivered (answered h status text) (set_response status text s).
Proof.
  intros [Hc Ho Hon Hb Ha _ _] Hs Hnone.
  destruct (busy_yield h k s Ha Hc Hon Hb) as (Hc1 & Hon1 & Hb1 & Hl1 & _).
  destruct (set_response_spec h status text s Hc ltac:(by rewrite (proj1 Ho)) Hnone) as (Hc2 & Hl2).
  intros m Hm. apply finish; [done| | | |done].
  - pose proof (hangs_on_less k 0 _ ltac:(lia) Hon1) as [[H1 H2] H3]. by split.
  - unfold finished. destruct (belongs_later _ _ _ _ _ Ho Hl2) as [-> _]. by rewrite Hs.
  - unfold set_response. cbn [with_job thread]. by eapply busy_waits.
Qed.

(** What is left for the events still to come, and the two that end a
    stream. *)
Definition events_left (l : list ReferenceTokenEvent) : nat := Z.to_nat (max_tokens request) - length l.
Definition listened (l : list ReferenceTokenEvent) (c : ObserverContext) : Prop :=
  listening (said l) (2 + events_left l) (11 + 6 * events_left l) (gateway c) /\
  (stream request = true -> pending_utf8 c = snd (streamed request id created l)).

Lemma listening_less h k k' n n' s : (k' <= k)%nat -> (n' <= n)%nat -> listening h k n s -> listening h k' n' s.
Proof. intros Hk Hn [? ? ? ? ? ? ?]. split; try done; [by eapply hangs_on_less|lia]. Qed.

Lemma observe_listening l e c :
  listened l c -> Z.of_nat (length l) < max_tokens request ->
  exists c', observe_gateway_token e c = (true, c') /\ listened (l ++ [e]) c'.
Proof.
  intros [Hlis Hp] Hroom. assert (Hleft : events_left l = S (events_left (l ++ [e]))).
  { unfold events_left. rewrite length_app. simpl. lia. }
  unfold observe_gateway_token, listened. rewrite Hleft in Hlis. set (k := events_left (l ++ [e])) in *.
  assert (Hlis0 : listening (said l) (3 + k) (2 + (15 + 6 * k)) (gateway c)).
  { eapply listening_less; [| |exact Hlis]; lia. }
  destruct (listening_load _ _ (15 + 6 * k) _ Hlis0) as (s1 & -> & Hlis1).
  rewrite (proj1 (listening_ours _ _ _ _ Hlis1)). destruct (stream request) eqn:Hs; cbn [negb].
  2:{ eexists. split; [done|]. rewrite saying_snoc, Hs. split; [|done]. cbn [with_gateway gateway].
      eapply listening_less; [| |exact Hlis1]; lia. }
  rewrite (Hp eq_refl). pose proof (saying_snoc request id created l e) as Hsay. rewrite Hs in Hsay.
  pose proof (streamed_pending request id created l e) as Hpend.
  destruct (render_utf8_output _ _) as [delta pending]. cbn [fst snd] in *.
  rewrite (chunk_payload_response _ _ _ _ _ _ (listening_ours _ _ _ _ Hlis1)).
  destruct (listening_push _ (2 + k) (11 + 6 * k) _ (sse_data (write (chunk_response request id created e delta))) Hlis1 Hs) as (s2 & -> & Hlis2).
  eexists. split; [done|]. rewrite Hsay. by split.
Qed.

(** The whole reply to a generation. *)
Definition whole_reply (l : list ReferenceTokenEvent) (g : ReferenceGeneration) : list Z :=
  if stream request
  then stream_text ((write_event <$> stream_chunks request id created l) ++ closing_events request id created g) ++ chunk_end
  else response_text 200 (write (completion_response request id created g)).

Lemma publish_generation_listening l g s :
  listening (said l) 2 9 s -> exists h, reply_text h = whole_reply l g /\ delivered h (publish_generation g s).
Proof.
  intros Hl. pose proof (listening_ours _ _ _ _ Hl) as Ho. unfold publish_generation, whole_reply. rewrite (proj1 Ho).
  destruct (stream request) eqn:Hs.
  2:{ rewrite (completion_body_response _ _ _ _ _ Ho). eexists. split; [|by eapply listening_response]. done. }
  assert (Hdone : forall h s, listening h 1 5 s -> answer h = None ->
    delivered (snoc h done_event) (close_events (snd (push_event done_event s)))).
  { intros h s' Hl' Hn. destruct (listening_push h 0 1 s' done_event Hl' Hs) as (s2 & -> & Hl2). cbn [snd].
    eapply listening_close; [exact Hl2|done| |done]. cbn. by destruct (pushed h). }
  assert (Hreply : forall more, reply_text {| pushed := pushed (said l) ++ more; answer := None |} =
    stream_text ((write_event <$> stream_chunks request id created l) ++ more) ++ chunk_end).
  { intros more. unfold reply_text, saying. by rewrite Hs. }
  rewrite <- Hreply. unfold closing_events. destruct (include_usage request) eqn:Hi; cbn [negb app].
  - destruct (listening_push (said l) 1 5 s (sse_data (usage_payload (job s) g)) Hl Hs) as (s1 & -> & Hl1). cbn [negb].
    rewrite (usage_payload_response _ _ _ _ _ Ho) in Hl1. eexists. split; [|apply (Hdone _ _ Hl1); done].
    unfold snoc. cbn [pushed answer]. rewrite <- app_assoc. done.
  - eexists. split; [|apply (Hdone (said l)); [eapply listening_less; [| |exact Hl]; lia|done]]. done.
Qed.
End Attentive.

(** ** Reading the whole reply *)

Section Reading.
Variable request : OpenAIRequest.
Variable id : list Z.
Variable created : Z.

Lemma write_one_line r : Forall utf8 (texts r) -> one_line (write r).
Proof. intros Ht. rewrite write_meaning. by apply render_printable, meaning_document. Qed.

Lemma streamed_utf8 l :
  utf8 id -> utf8 (model request) -> Forall (fun e => Forall is_u8 (text_delta e)) l ->
  Forall is_u8 (snd (streamed request id created l)) /\ Forall (fun r => Forall utf8 (texts r)) (stream_chunks request id created l).
Proof.
  intros Hid Hmodel. unfold stream_chunks. induction l as [|e l IH] using rev_ind; intros Hl.
  { split; constructor. }
  apply Forall_app in Hl as [Hl He]. apply Forall_cons in He as [He _]. destruct (IH Hl) as [Hp Hr].
  rewrite streamed_snoc. unfold stream_step.
  assert (Hb : Forall is_u8 (snd (streamed request id created l) ++ text_delta e)) by (by apply Forall_app).
  pose proof (render_utf8 _ (is_finished request e) Hb) as Htext. pose proof (render_remains is_u8 _ (is_finished request e) Hb) as Hrest.
  destruct (render_utf8_output _ _) as [text pending]. cbn [fst snd] in *. split; [done|].
  apply Forall_app. split; [done|]. constructor; [|constructor].
  unfold chunk_response. destruct (endpoint request); cbn [texts]; repeat constructor; done.
Qed.

Lemma shown_bytes pins data stop max_new l :
  data_ok pins data -> Forall (Forall is_u8) (expected_contents pins) ->
  shown (Some data) stop max_new l -> Forall (fun e => Forall is_u8 (text_delta e)) l.
Proof.
  intros Hd Hc Hl. eapply Forall_impl; [exact (shown_deltas _ _ _ _ Hl)|]. intros e He. cbn beta in He.
  destruct (event_token_id e =? stop); [rewrite He; constructor|]. by eapply decode_impl_u8.
Qed.

(** The events of a whole stream, as a client reads them. *)
Definition whole_payloads (l : list ReferenceTokenEvent) (g : ReferenceGeneration) : list (list Z) :=
  (write <$> stream_chunks request id created l) ++
  (if include_usage request then [write (usage_response request id created g)] else []) ++ [lit "[DONE]"].

Lemma whole_payloads_events l g :
  (write_event <$> stream_chunks request id created l) ++ closing_events request id created g = sse_data <$> whole_payloads l g.
Proof.
  unfold whole_payloads, closing_events, write_event. rewrite !fmap_app, <- list_fmap_compose. do 2 f_equal.
  by destruct (include_usage request).
Qed.

Lemma read_whole_stream l g :
  utf8 id -> utf8 (model request) -> Forall (fun e => Forall is_u8 (text_delta e)) l ->
  exists reply,
    read_reply (stream_text ((write_event <$> stream_chunks request id created l) ++ closing_events request id created g) ++ chunk_end)
    = Some (reply, []) /\ reply_status reply = 200 /\
    read_events (length (reply_body reply)) (reply_body reply) = Some (whole_payloads l g).
Proof.
  intros Hid Hmodel Hl. rewrite whole_payloads_events. unfold stream_text. rewrite <- app_assoc.
  rewrite <- (app_nil_r chunk_end).
  rewrite read_sse_response by (apply Forall_fmap, Forall_forall; intros x _; apply sse_data_nonempty).
  eexists. split; [done|]. split; [done|]. cbn [reply_body]. apply read_events_all.
  - unfold whole_payloads. rewrite !Forall_app. split_and!.
    + apply Forall_fmap. eapply Forall_impl; [apply streamed_utf8; done|]. intros r Hr. by apply write_one_line.
    + destruct (include_usage request); [|constructor]. constructor; [|constructor]. apply write_one_line.
      cbn [usage_response texts]. by repeat constructor.
    + constructor; [|constructor]. unfold one_line. apply (bool_decide_unpack _). vm_compute. exact I.
  - induction (whole_payloads l g) as [|p ps IH]; [simpl; lia|]. rewrite fmap_cons.
    change (mjoin (sse_data p :: (sse_data <$> ps))) with (sse_data p ++ mjoin (sse_data <$> ps)). rewrite length_app.
    assert (1 <= length (sse_data p))%nat by (unfold sse_data; rewrite !length_app; simpl; lia). cbn [length]. lia.
Qed.

Lemma whole_length l g :
  whole request l g -> length (stream_chunks request id created l) = length (generation_token_ids g).
Proof.
  intros (<- & _). rewrite length_fmap. unfold stream_chunks. induction l as [|e l IH] using rev_ind; [done|].
  rewrite streamed_snoc. unfold stream_step. destruct (render_utf8_output _ _). cbn [fst]. rewrite !length_app. simpl. lia.
Qed.
End Reading.

(** ** Properties *)

(** C12. One reply.  Whatever the engine answers, whatever the ingress thread,
    the client and whoever stops the server do, and whenever: when the worker
    is done with a job the ingress thread comes back after a bounded number of
    its sections, and the client has been sent a prefix of one single reply.
    That reply is an error; or a stream whose events are the chunks of the
    tokens the engine showed, in order, which is cut off, broken off by one
    error, or ended by [DONE] only after every token of a whole generation; or
    the completion of a whole generation. *)
Theorem job_one_reply `{InferenceEngineLaws E ObserverContext} (o : EvaluationServerOptions) (e : E) h e' h' s'
    request id created capacity c batches turns :
  0 <= max_tokens request -> 0 <= server_prefill_chunk_size o -> 0 <= capacity -> sent c = [] ->
  execute_job o e h (admitted request id created capacity c batches) = Some (e', h', s') ->
  (sections s' <= resumptions turns)%nat ->
  let last := foldl (fun s t => turn t s) s' turns in
  thread last = Returned /\
  exists history,
    ended request id created (shown (vocabulary_of e) kQwen36ImEndTokenId (max_tokens request)) history /\
    sent (connection last) `prefix_of` reply_text history.
Proof.
  intros Hmax Hchunk Hcap Hsent Hrun Hturns last.
  assert (Hstart : saying request id created [] = silent) by (unfold saying, silent; by destruct (stream request)).
  destruct (execute_job_settled o e h (admitted request id created capacity c batches) e' h' s' request id created) as [Hset _];
    [done|done| |by split|exact Hrun|].
  - rewrite Hstart. by apply admitted_consistent.
  - destruct Hset as (history & Hc & Hended & _ & Hrel).
    destruct (turns_return history turns s' Hc Hrel Hturns) as (Hc' & _ & Hret). split; [exact Hret|].
    exists history. split; [done|]. by eapply ended_reply.
Qed.

(** The job of a client that listens to the end. *)
Lemma execute_job_delivers `{InferenceEngineLaws E ObserverContext} (o : EvaluationServerOptions) (e e1 : E) h h1 s s1 c1 request id created g :
  0 <= max_tokens request -> 0 <= server_prefill_chunk_size o -> server_prefill_execution_mode o = kLegacyC512Tiled ->
  health_ready h = true ->
  listening request id created (saying request id created []) (2 + Z.to_nat (max_tokens request)) (13 + 6 * Z.to_nat (max_tokens request)) s ->
  load_either s = (false, s1) ->
  ask_request request (generate_options o request) e {| gateway := s1; pending_utf8 := [] |} = Some (inr g, (e1, c1)) ->
  health_observe o (published e1) h = (true, h1) ->
  exists l history s',
    shown (vocabulary_of e) kQwen36ImEndTokenId (max_tokens request) l /\ whole request l g /\
    execute_job o e h s = Some (e1, h1, s') /\
    reply_text history = whole_reply request id created l g /\ delivered history s'.
Proof.
  intros Hmax Hchunk Hmode Hready Hlis Hload Hask Hobs.
  destruct (listening_load request id created _ _ (11 + 6 * Z.to_nat (max_tokens request)) s Hlis) as (s1' & Hload' & Hlis1).
  rewrite Hload in Hload'. injection Hload' as <-.
  assert (Hlaw : lawful (ask_request request)).
  { unfold ask_request. destruct (prompt_kind request);
      [apply ask_chat_lawful|apply ask_prompt_lawful|apply ask_token_ids_lawful]. }
  destruct (Hlaw (generate_options o request) observe_gateway_token (listened request id created) (fun _ _ => False)
    e {| gateway := s1; pending_utf8 := [] |} (inr g) e1 c1 eq_refl (conj Hmax Hchunk)) as [Hout _].
  - intros l x c0 b c2 HT _ [_ Hroom _ _ _ _ _] Hobserve.
    destruct (observe_listening request id created l x c0 HT Hroom) as (c3 & Hc3 & HT3). rewrite Hobserve in Hc3.
    by injection Hc3 as -> ->.
  - intros probe l c0 b c2. cbn [generate_options prefill_cancellation_probe]. by rewrite Hmode, bool_decide_false by done.
  - split; [|done]. cbn [gateway]. unfold events_left. cbn [length]. by rewrite Nat.sub_0_r.
  - exact Hask.
  - assert (Hreason : generation_stop_reason g <> kStopCancelled).
    { intros Hr. destruct Hout as (l & _ & _ & _ & _ & Hend). rewrite Hr in Hend. by destruct Hend. }
    destruct (completed_whole request o (vocabulary_of e) _ _ g c1 Hout Hreason) as (l & Hl & Hw & [HT|[]] & _).
    destruct HT as [Hlis2 _].
    destruct (listening_load request id created (saying request id created l) 2 9 (gateway c1)) as (s2 & Hload2 & Hlis3).
    { eapply listening_less; [| |exact Hlis2]; lia. }
    destruct (publish_generation_listening request id created l g s2 Hlis3) as (history & Hreply & Hdel).
    exists l, history, (publish_generation g s2). split_and!; [done|done| |done|done].
    unfold execute_job. rewrite Hready. cbn [negb]. rewrite Hload.
    rewrite (proj1 (listening_ours _ _ _ _ _ _ _ Hlis1)), Hask. cbv zeta. rewrite Hobs. unfold publish_result. cbn [negb].
    rewrite Hload2. by destruct (generation_stop_reason g).
Qed.

(** The whole answer, when the server is healthy, neither it nor the client
    stops, and the engine generates. *)
Lemma whole_answer `{InferenceEngineLaws E ObserverContext} (o : EvaluationServerOptions) (e e1 : E) h h1 s1 c1
    request id created capacity c batches pins data g :
  0 <= max_tokens request -> 0 <= server_prefill_chunk_size o -> server_prefill_execution_mode o = kLegacyC512Tiled ->
  vocabulary_of e = Some data -> data_ok pins data -> Forall (Forall is_u8) (expected_contents pins) ->
  utf8 id -> utf8 (model request) ->
  1 <= capacity -> sent c = [] -> Forall takes_all (answers c) -> 8 + 3 * max_tokens request <= Z.of_nat (length (answers c)) ->
  attentive batches -> 13 + 6 * max_tokens request <= Z.of_nat (length batches) ->
  let s := admitted request id created capacity c batches in
  health_ready h = true -> load_either s = (false, s1) ->
  ask_request request (generate_options o request) e {| gateway := s1; pending_utf8 := [] |} = Some (inr g, (e1, c1)) ->
  health_observe o (published e1) h = (true, h1) ->
  text_size (write (completion_response request id created g)) <= u64_max ->
  let text := fst (render_utf8_output (generated_text g) true) in
  exists s', execute_job o e h s = Some (e1, h1, s') /\
  let last := Nat.iter (sections s') (resume false) s' in
  thread last = Returned /\
  exists reply, read_reply (sent (connection last)) = Some (reply, []) /\ reply_status reply = 200 /\
  if stream request
  then exists chunks,
    read_events (length (reply_body reply)) (reply_body reply) = Some ((write <$> chunks) ++
      (if include_usage request then [write (usage_response request id created g)] else []) ++ [lit "[DONE]"]) /\
    length chunks = length (generation_token_ids g) /\ content chunks = text
  else reply_body reply = write (completion_response request id created g) /\
    generated (completion_response request id created g) = Some text.
Proof.
  intros Hmax Hchunk Hmode Hv Hd Hcontents Hid Hmodel Hcap Hsent Hans Hlen Hatt Hsch s Hready Hload Hask Hobs Hsize text.
  assert (Hstart : saying request id created [] = silent) by (unfold saying, silent; by destruct (stream request)).
  destruct (execute_job_delivers o e e1 h h1 s s1 c1 request id created g Hmax Hchunk Hmode Hready) as
    (l & history & s' & Hl & Hw & Hrun & Hreply & Hdel); [|done|done|done|].
  - rewrite Hstart. split; [by apply admitted_consistent; [lia|]|by split| |by split|done|unfold s; cbn [admitted Job.schedule]; lia|done].
    split; [done|]. split; [done|]. unfold s. cbn [admitted connection thread job new_job events length].
    destruct (stream request); cbn [needs]; lia.
  - exists s'. split; [done|]. intros last. destruct (Hdel (sections s') (le_n _)) as [Hret Hbytes]. split; [exact Hret|].
    unfold last. rewrite Hbytes, Hreply. unfold whole_reply. rewrite Hv in Hl. destruct (stream request).
    + destruct (read_whole_stream request id created l g Hid Hmodel (shown_bytes _ _ _ _ _ Hd Hcontents Hl)) as (reply & Hread & Hst & Hev).
      exists reply. split_and!; [done|done|]. exists (stream_chunks request id created l).
      split_and!; [exact Hev|by apply whole_length|by apply whole_content].
    + unfold response_text. pose proof (read_fixed_response 200 (write (completion_response request id created g)) false [] []
        ltac:(by unfold known_status) eq_refl Hsize) as Hread. rewrite app_nil_r in Hread. eexists. split; [exact Hread|]. split; [done|].
      split; [done|]. apply generated_completion_response.
Qed.

(** A server as it is deployed, with a model that answers with three tokens. *)
Definition sample_options_server : EvaluationServerOptions := default_options (lit "/models").

Definition sample_gateway_engine : option (Impl (list Z)) := Some {|
  tokenizer := Some sample_data; loaded := true; trace_enabled := false;
  request_plan := match build_request_memory_plan (plan_options sample_options_server) with
                  | inr plan => plan | inl _ => reference_plan 4096 64 end;
  sm87_weight_only := true; runner := []; decode_graph_cache_ready := true;
  load := sealed_inventory true kP40ExactLegacyC512ProductionPlan
|}.

Definition sample_job_request (streams : bool) : OpenAIRequest := {|
  endpoint := kCompletions; prompt_kind := kTokenIds; model := lit "qwen"; messages := []; prompt := [];
  prompt_token_ids := [257; 256]; max_tokens := 3; seed := None; stream := streams; include_usage := true
|}.

(** The client goes away after the first event. *)
Lemma job_one_reply_witness :
  match execute_job (H := reference_engine (pure_runner sample_argmax) sample_icu (fun _ => [])) sample_options_server
    sample_gateway_engine (fresh_health sample_options_server)
    (admitted (sample_job_request true) (lit "cmpl-1") 1700000000 1 {| answers := repeat SentAll 5; sent := [] |}
       (repeat [Resume false] 8 ++ [[Resume true; Resume true]])) with
  | Some (_, _, s') =>
      thread (foldl (fun s t => turn t s) s' (repeat (Resume false) 9)) = Returned /\
      (200 < length (sent (connection (foldl (fun s t => turn t s) s' (repeat (Resume false) 9)))))%nat
  | None => False
  end.
Proof.
  assert (Hok : match execute_job (H := reference_engine (pure_runner sample_argmax) sample_icu (fun _ => [])) sample_options_server
    sample_gateway_engine (fresh_health sample_options_server)
    (admitted (sample_job_request true) (lit "cmpl-1") 1700000000 1 {| answers := repeat SentAll 5; sent := [] |}
       (repeat [Resume false] 8 ++ [[Resume true; Resume true]])) with
    | Some (_, _, s') => (sections s' <=? 9)%nat
        && (200 <? length (sent (connection (foldl (fun s t => turn t s) s' (repeat (Resume false) 9)))))%nat
    | None => false end = true) by (vm_compute; reflexivity).
  destruct (execute_job sample_options_server sample_gateway_engine (fresh_health sample_options_server)
    (admitted (sample_job_request true) (lit "cmpl-1") 1700000000 1 {| answers := repeat SentAll 5; sent := [] |}
       (repeat [Resume false] 8 ++ [[Resume true; Resume true]]))) as [[[e' h'] s']|] eqn:Hrun; [|discriminate Hok].
  apply andb_true_iff in Hok as [Hs Hlen]. apply Nat.leb_le in Hs. apply Nat.ltb_lt in Hlen. split; [|exact Hlen].
  apply (job_one_reply (H := reference_engine (pure_runner sample_argmax) sample_icu (fun _ => []))
    (H0 := reference_engine_laws (pure_runner sample_argmax) sample_icu (fun _ => []))
    sample_options_server sample_gateway_engine (fresh_health sample_options_server) e' h' s'
    (sample_job_request true) (lit "cmpl-1") 1700000000 1 {| answers := repeat SentAll 5; sent := [] |}
    (repeat [Resume false] 8 ++ [[Resume true; Resume true]]) (repeat (Resume false) 9));
    [discriminate|vm_compute; discriminate|discriminate|reflexivity|exact Hrun|exact Hs].
Defined.

(** A server whose health is closed does not ask the engine. *)
Lemma unhealthy_jobs `{InferenceEngine E ObserverContext} o jobs (e : E) h :
  health_ready h = false -> inference_worker o jobs e h = Some (e, h, publish_job_error unhealthy_before <$> jobs).
Proof.
  intros Hh. induction jobs as [|s jobs IH]; [done|]. cbn [inference_worker]. unfold execute_job. rewrite Hh. cbn [negb].
  unfold health_observe. rewrite Hh. cbn [negb snd]. by rewrite IH.
Qed.

(** C13. Failing closed.  On a server that may start, once a job leaves an
    engine that does not publish exactly the sealed inventory, or fails in a
    way that closes the health, no later job reaches the engine: each is
    answered with the error 503, in order, and the engine stays as it is. *)
Theorem worker_fails_closed `{InferenceEngine E ObserverContext} inet_pton o (e e' : E) h h' s s' jobs :
  options_error inet_pton o = None -> enforced h = true ->
  execute_job o e h s = Some (e', h', s') ->
  published e' <> expected_inventory o \/ health_ready h' = false ->
  exists closed,
    inference_worker o (s :: jobs) e h = Some (e', closed, s' :: (publish_job_error unhealthy_before <$> jobs)) /\
    health_ready closed = false.
Proof.
  intros Hopt He Hrun Hbad. pose proof (valid_options_facts _ _ Hopt) as Hroute.
  assert (He' : enforced h' = true).
  { unfold execute_job in Hrun. destruct (negb (health_ready h)); [by injection Hrun as <- <- <-|].
    destruct (load_either s) as [[|] s1]; [by injection Hrun as <- <- <-|].
    destruct (ask_request _ _ _ _) as [[r [e1 c]]|]; [|done]. cbv zeta in Hrun.
    destruct (health_observe _ _ _) as [ok h1] eqn:Hobs. injection Hrun as <- <- <-.
    set (f := match r with inl d => health_observe_failure d h | inr _ => h end) in *.
    pose proof (health_step_enforced o f (Observed (published e1))) as H1. cbn [health_step] in H1. rewrite Hobs in H1. cbn [snd] in H1.
    rewrite H1. unfold f. destruct r as [d|g]; [|done]. exact (eq_trans (health_step_enforced o h (Failed d)) He). }
  assert (Hclosed : health_ready (snd (health_observe o (published e') h')) = false).
  { pose proof (health_step_ready o h' (Observed (published e'))) as Hstep. cbn [health_step sound_event] in Hstep.
    rewrite Hstep by (by rewrite He', bool_decide_true by done). rewrite He'. cbn [negb orb].
    destruct Hbad as [Hbad| ->]; [|done]. apply andb_false_iff. right. apply not_true_is_false.
    intros Hv. apply Hbad. by apply (receipt_spec o _ Hroute). }
  cbn [inference_worker]. rewrite Hrun, (unhealthy_jobs o jobs e' _ Hclosed). by eexists.
Qed.

(** An engine without the sealed layouts: the next job is refused. *)
Lemma worker_fails_closed_witness :
  exists e1 closed s1 s2,
  inference_worker (H := reference_engine (pure_runner sample_argmax) sample_icu (fun _ => [])) sample_options_server
    [admitted (sample_job_request false) (lit "cmpl-1") 1700000000 1 {| answers := []; sent := [] |} [];
     admitted (sample_job_request false) (lit "cmpl-2") 1700000000 1 {| answers := []; sent := [] |} []]
    sample_engine (fresh_health sample_options_server) = Some (e1, closed, [s1; s2]) /\
  response_status (job s2) = 503 /\ health_ready closed = false.
Proof.
  assert (Hok : match execute_job (H := reference_engine (pure_runner sample_argmax) sample_icu (fun _ => [])) sample_options_server
      sample_engine (fresh_health sample_options_server)
      (admitted (sample_job_request false) (lit "cmpl-1") 1700000000 1 {| answers := []; sent := [] |} []) with
    | Some (e', h', s') => negb (health_ready h') | None => false end = true) by (vm_compute; reflexivity).
  destruct (execute_job sample_options_server sample_engine (fresh_health sample_options_server)
      (admitted (sample_job_request false) (lit "cmpl-1") 1700000000 1 {| answers := []; sent := [] |} []))
    as [[[e' h'] s']|] eqn:Hrun; [|discriminate Hok].
  destruct (worker_fails_closed (H := reference_engine (pure_runner sample_argmax) sample_icu (fun _ => [])) (fun _ => true)
    sample_options_server sample_engine e' (fresh_health sample_options_server) h'
    (admitted (sample_job_request false) (lit "cmpl-1") 1700000000 1 {| answers := []; sent := [] |} []) s'
    [admitted (sample_job_request false) (lit "cmpl-2") 1700000000 1 {| answers := []; sent := [] |} []]) as (closed & Hworker & Hclosed).
  - vm_compute. reflexivity.
  - reflexivity.
  - exact Hrun.
  - right. by destruct (health_ready h').
  - do 4 eexists. split; [exact Hworker|]. split; [vm_compute; reflexivity|exact Hclosed].
Defined.
