(* ===== verification/Connection.v ===== *)
(** * Connection: from a request that was read to a job or an answer
      (src/src/server/evaluation_server.cpp: load_api_key_file_impl,
      production_identity, handle_connection)

    The file that holds the API key, and what an ingress thread does with a
    request: it answers at once, or puts a job into the queue of the inference
    worker and waits for it.  The end of the file follows a request through the
    queue, the worker and the engine to the bytes the client reads.

    The build is the default one.  The operating system is a parameter: what
    [fstat] and [read] give, the clock, and when the flags are seen. *)

From Stdlib Require Import Floats String.
From S2P Require Import Prelude OrderedMap Json Generation RequestPlan Tokenizer TokenizerText Engine Http HttpOutput OpenAI.
From S2P Require Import Utf8Output Job Deployment Gateway.

(** ** The API key *)

Definition kMaximumEvaluationApiKeyBytes : Z := 4096.
Definition S_IRUSR : Z := 256.
Definition S_IWUSR : Z := 128.

Definition is_bearer_token_character (v : Z) : bool :=
  ((97 <=? v) && (v <=? 122)) || ((65 <=? v) && (v <=? 90)) || ((48 <=? v) && (v <=? 57))
  || (v =? 45) || (v =? 46) || (v =? 95) || (v =? 126) || (v =? 43) || (v =? 47).

Inductive KeyError :=
  | PathEmpty | OpenFailed | MetadataFailed | NotRegular | NotOwned | NotOwnerOnly | TooLong | ReadFailed | NoKey | NotBearer.

(** What [fstat] says of the file, and what each [read] gives. *)
Inductive ReadAnswer := ReadBytes (bytes : list Z) | ReadInterrupted | ReadError.
Record KeyFile := {
  is_regular : bool;
  is_owned : bool;
  mode : Z;
  file_size : Z;
  reads : list ReadAnswer
}.

(** The read loop; the file ends when nothing more is read. *)
Fixpoint read_key (maximum_file_bytes : Z) (reads_ : list ReadAnswer) (api_key : list Z) : KeyError + list Z :=
  match reads_ with
  | [] => inr api_key
  | ReadBytes [] :: _ => inr api_key
  | ReadBytes bytes :: reads_ =>
      let api_key := api_key ++ bytes in
      if maximum_file_bytes <? Z.of_nat (length api_key) then inl TooLong else read_key maximum_file_bytes reads_ api_key
  | ReadInterrupted :: reads_ => read_key maximum_file_bytes reads_ api_key
  | ReadError :: _ => inl ReadFailed
  end.

(** Without one final line end. *)
Definition strip_line_end (api_key : list Z) : list Z :=
  match reverse api_key with
  | 10 :: 13 :: rest | 10 :: rest => reverse rest
  | _ => api_key
  end.

(** The loop over the characters: a token, then padding. *)
Fixpoint check_token (api_key : list Z) (padding_started token_character_seen : bool) : bool :=
  match api_key with
  | [] => token_character_seen
  | v :: api_key =>
      if v =? 61 then check_token api_key true token_character_seen
      else if padding_started || negb (is_bearer_token_character v) then false
      else check_token api_key padding_started true
  end.

(** [None]: [open] or [fstat] fails. *)
Definition load_api_key_file_impl (path : list Z) (opened : option (option KeyFile)) : KeyError + list Z :=
  if bool_decide (path = []) then inl PathEmpty else
  match opened with
  | None => inl OpenFailed
  | Some None => inl MetadataFailed
  | Some (Some file) =>
      if negb (is_regular file) then inl NotRegular
      else if negb (is_owned file) then inl NotOwned
      else let permissions := Z.land (mode file) 0xFFF in
      if (Z.land permissions S_IRUSR =? 0) || negb (Z.land permissions (Z.lnot (Z.lor S_IRUSR S_IWUSR)) =? 0) then inl NotOwnerOnly
      else let maximum_file_bytes := kMaximumEvaluationApiKeyBytes + 2 in
      if (file_size file <? 0) || (maximum_file_bytes <? file_size file) then inl TooLong
      else match read_key maximum_file_bytes (reads file) [] with
           | inl e => inl e
           | inr content =>
               let api_key := strip_line_end content in
               if bool_decide (api_key = []) then inl NoKey
               else if kMaximumEvaluationApiKeyBytes <? Z.of_nat (length api_key) then inl TooLong
               else if check_token api_key false false then inr api_key else inl NotBearer
           end
  end.

(** ** Answers *)

Definition profile_name (p : EvaluationProductionProfile) : list Z :=
  match p with
  | kProfileNone => lit "none"
  | kP40ExactLegacyC512 => plan_id kP40ExactLegacyC512ProductionPlan
  | kP40WholeCoreV1 => plan_id selected_p40_whole_core_plan
  end.

Definition production_identity (o : EvaluationServerOptions) : OpenAIProductionIdentity :=
  let plan := if is_p40_whole_core_v1_production_profile o then selected_p40_whole_core_plan
              else kP40ExactLegacyC512ProductionPlan in {|
  profile_id := profile_name (production_profile o);
  decode_route_id := plan_decode_route_id plan;
  target_prompt_tokens := plan_target_prompt_tokens plan;
  OpenAI.maximum_output_tokens := maximum_output_tokens o;
  OpenAI.max_sequence_length := server_max_sequence_length o;
  request_arena_bytes := request_max_arena_bytes o;
  prefill_supermatrix_projections := plan_prefill_supermatrix_projections plan;
  prefill_supermatrix_sidecar_bytes := plan_prefill_supermatrix_sidecar_bytes plan;
  OpenAI.decode_fp8_output_layers := decode_fp8_output_layers plan;
  OpenAI.decode_fp8_output_sidecar_bytes := decode_fp8_output_sidecar_bytes plan;
  OpenAI.decode_gate_up_layers := decode_gate_up_layers plan;
  OpenAI.decode_gate_up_sidecar_bytes := decode_gate_up_sidecar_bytes plan;
  OpenAI.decode_down_scale6_layers := decode_down_scale6_layers plan;
  OpenAI.decode_down_scale6_sidecar_bytes := decode_down_scale6_sidecar_bytes plan;
  OpenAI.decode_down_consumer_order_layers := decode_down_consumer_order_layers plan;
  OpenAI.decode_down_consumer_order_sidecar_bytes := decode_down_consumer_order_sidecar_bytes plan;
  OpenAI.decode_retained_sidecar_bytes := decode_retained_sidecar_bytes plan;
  OpenAI.retained_acceleration_sidecar_bytes := retained_acceleration_sidecar_bytes plan;
  OpenAI.decode_graph_first_position := decode_graph_first_position plan;
  OpenAI.decode_graph_last_position := decode_graph_last_position plan;
  OpenAI.decode_graph_slots := decode_graph_slots plan;
  build_testing := false; production_eligible := false; release_qualified := false
|}.

Definition not_eligible (p : OpenAIProductionIdentity) : OpenAIProductionIdentity := {|
  profile_id := profile_id p; decode_route_id := decode_route_id p; target_prompt_tokens := target_prompt_tokens p;
  OpenAI.maximum_output_tokens := OpenAI.maximum_output_tokens p; OpenAI.max_sequence_length := OpenAI.max_sequence_length p;
  request_arena_bytes := request_arena_bytes p; prefill_supermatrix_projections := prefill_supermatrix_projections p;
  prefill_supermatrix_sidecar_bytes := prefill_supermatrix_sidecar_bytes p;
  OpenAI.decode_fp8_output_layers := OpenAI.decode_fp8_output_layers p;
  OpenAI.decode_fp8_output_sidecar_bytes := OpenAI.decode_fp8_output_sidecar_bytes p;
  OpenAI.decode_gate_up_layers := OpenAI.decode_gate_up_layers p;
  OpenAI.decode_gate_up_sidecar_bytes := OpenAI.decode_gate_up_sidecar_bytes p;
  OpenAI.decode_down_scale6_layers := OpenAI.decode_down_scale6_layers p;
  OpenAI.decode_down_scale6_sidecar_bytes := OpenAI.decode_down_scale6_sidecar_bytes p;
  OpenAI.decode_down_consumer_order_layers := OpenAI.decode_down_consumer_order_layers p;
  OpenAI.decode_down_consumer_order_sidecar_bytes := OpenAI.decode_down_consumer_order_sidecar_bytes p;
  OpenAI.decode_retained_sidecar_bytes := OpenAI.decode_retained_sidecar_bytes p;
  OpenAI.retained_acceleration_sidecar_bytes := OpenAI.retained_acceleration_sidecar_bytes p;
  OpenAI.decode_graph_first_position := OpenAI.decode_graph_first_position p;
  OpenAI.decode_graph_last_position := OpenAI.decode_graph_last_position p;
  OpenAI.decode_graph_slots := OpenAI.decode_graph_slots p;
  build_testing := build_testing p; production_eligible := false; release_qualified := release_qualified p
|}.

Definition kProductionRuntimeUnhealthyReason : list Z := lit "sealed_production_runtime_unhealthy".

Definition whole_core_prompt_tokens_admitted (tokens : Z) : bool := tokens =? 40000.

Definition is_p40_whole_core_v10_request (r : OpenAIRequest) : bool :=
  match endpoint r, prompt_kind r with
  | kCompletions, kTokenIds =>
      whole_core_prompt_tokens_admitted (Z.of_nat (length (prompt_token_ids r))) && (max_tokens r =? 16) && stream r && include_usage r
  | _, _ => false
  end.

(** ** Handling a request *)

(** What the ingress threads share. *)
Record Ingress := { inference_queue : BoundedQueue InferenceJob; next_request_id : Z }.

(** The connection is closed, gets a response, or waits for a job. *)
Inductive Routed :=
  | Silent
  | Reply (status : Z) (text : list Z) (keep_alive_ : bool) (extra : list (list Z * list Z))
  | Queued (j : InferenceJob).

Definition reply_error (e : OpenAIProtocolError) (keep : bool) (extra : list (list Z * list Z)) : Routed :=
  Reply (http_status e) (serialize_openai_error e) keep extra.

(** A job goes to the queue, or is refused when there is no room; the number is
    used up all the same. *)
Definition enqueue (o : EvaluationServerOptions) (chat : bool) (r : OpenAIRequest) (now : Z) (stopping_now keep : bool)
    (i : Ingress) : Routed * Ingress :=
  let sequence := next_request_id i in
  let id := (if chat then lit "chatcmpl-q3x-" else lit "cmpl-q3x-") ++ to_string sequence in
  let j := new_job r id now (stream_event_capacity o) in
  let '(ok, q) := try_push j (inference_queue i) in
  let i := {| inference_queue := q; next_request_id := u64 (sequence + 1) |} in
  if ok then (Queued j, i) else
  (reply_error (if stopping_now then simple_error 503 (lit "server_stopping") (lit "server is stopping")
                else simple_error 429 (lit "queue_full") (lit "the bounded inference queue is full")) keep
     [(lit "Retry-After", lit " 1")], i).

(** One request of the loop in [handle_connection].  [ready] is what the health
    says, [now] the clock, [stopping_now] the flag when the queue refuses. *)
Definition handle_request (o : EvaluationServerOptions) (api_key : list Z) (ready : bool) (now : Z) (stopping_now : bool)
    (read : HttpReadResult) (i : Ingress) : Routed * Ingress :=
  match value read with
  | None =>
      (if negb (peer_closed read) && negb (error_status read =? 0)
       then reply_error (simple_error (error_status read) (lit "http_error") (Http.error_message read)) false [] else Silent, i)
  | Some http =>
      let keep := negb (final_connection_request (keep_alive http) 0) in
      let models := bool_decide (target http = lit "/v1/models") in
      let chat := bool_decide (target http = lit "/v1/chat/completions") in
      let completion := bool_decide (target http = lit "/v1/completions") in
      let get := bool_decide (method http = lit "GET") in
      let v10 := bool_decide (development_route o = kP40WholeCoreV10) in
      if get && bool_decide (target http = lit "/healthz") then
        (if negb ready
         then Reply 503 (serialize_unhealthy_health_response false (served_model o) (not_eligible (production_identity o))
                           kProductionRuntimeUnhealthyReason) false []
         else Reply 200 (if v10 then serialize_p40_whole_core_v10_health_response (served_model o)
                         else serialize_health_response false (served_model o) (production_identity o)) keep [], i)
      else if negb (bool_decide (api_key = [])) && (models || chat || completion)
              && negb (constant_time_bearer_authorization_matches (authorization http) api_key)
      then (reply_error (simple_error 401 (lit "unauthorized") (lit "a valid Bearer API key is required")) false
              [(lit "WWW-Authenticate", lit " Bearer realm=" ++ [34] ++ lit "qwen3x-orin" ++ [34])], i)
      else if (models || chat || completion) && negb ready
      then (reply_error (simple_error 503 (lit "production_route_unhealthy")
              (lit "the sealed production route is unhealthy; restart the server")) false [], i)
      else if get && models
      then (Reply 200 (if v10 then serialize_p40_whole_core_v10_models_response (served_model o) now
                       else serialize_models_response false (served_model o) now (production_identity o)) keep [], i)
      else if negb chat && negb completion
      then (reply_error (simple_error 404 (lit "not_found") (lit "the requested endpoint does not exist")) false [], i)
      else if negb (bool_decide (method http = lit "POST"))
      then (reply_error (simple_error 405 (lit "method_not_allowed") (lit "endpoint requires POST")) false
              [(lit "Allow", lit " POST")], i)
      else if negb (is_json_content_type (content_type http))
      then (reply_error (simple_error 415 (lit "unsupported_media_type") (lit "Content-Type must be application/json")) false [], i)
      else
      match parse_openai_request (request_body http) (if chat then kChatCompletions else kCompletions) (served_model o)
              (maximum_output_tokens o) (server_max_sequence_length o) with
      | inl e => (reply_error e keep [], i)
      | inr r =>
          if v10 && negb (is_p40_whole_core_v10_request r)
          then (reply_error (simple_error 400 (lit "p40_whole_core_v10_contract")
                  (lit "the p40-whole-core-v10 development route accepts only streaming /v1/completions requests with exactly 40000 token IDs and max_tokens=16 plus stream_options.include_usage=true"))
                  keep [], i)
          else if is_p40_whole_core_v1_production_profile o && negb (is_p40_whole_core_v10_request r)
          then (reply_error (simple_error 400 (lit "p40_whole_core_v1_contract")
                  (lit "the p40-whole-core-v1 production profile accepts only streaming /v1/completions requests with exactly 40000 token IDs and max_tokens=16 plus stream_options.include_usage=true"))
                  keep [], i)
          else enqueue o chat r now stopping_now keep i
      end
  end.

(** The connection: answered, or waiting for its job ([Job.resume] goes on from
    there).  [batches] is what is still to happen around the job. *)
Definition start_job (j : InferenceJob) (c : Connection) (batches : list (list Turn)) : Shared := {|
  job := j; stopping := false; thread := if stream (job_request j) then StartWait false else ResponseWait false;
  connection := c; schedule := batches
|}.

(** [handle_connection]: the loop runs once, unless the server is stopping. *)
Definition handle_connection (o : EvaluationServerOptions) (api_key : list Z) (ready : bool) (now : Z)
    (stopping_before stopping_now : bool) (read : HttpReadResult) (c : Connection) (i : Ingress)
    : Connection * option InferenceJob * Ingress :=
  if stopping_before then (c, None, i) else
  match handle_request o api_key ready now stopping_now read i with
  | (Silent, i) => (c, None, i)
  | (Reply status text keep extra, i) => (snd (send_fixed_response status text keep (field_lines extra) c), None, i)
  | (Queued j, i) => (c, Some j, i)
  end.

(** ** The key that is loaded *)

(** The content of a file that is read to its end. *)
Inductive file_reads : list ReadAnswer -> list Z -> Prop :=
  | reads_nothing : file_reads [] []
  | reads_end more : file_reads (ReadBytes [] :: more) []
  | reads_bytes b more content : b <> [] -> file_reads more content -> file_reads (ReadBytes b :: more) (b ++ content)
  | reads_again more content : file_reads more content -> file_reads (ReadInterrupted :: more) content.

Lemma read_key_exact maximum l before content :
  Z.of_nat (length before) <= maximum ->
  read_key maximum l before = inr content <->
  exists more, file_reads l more /\ content = before ++ more /\ Z.of_nat (length content) <= maximum.
Proof.
  revert before. induction l as [|[[|x b]| |] l IH]; intros before Hb; cbn [read_key].
  - split.
    + intros [= <-]. exists []. rewrite app_nil_r. by split_and!; [constructor| |].
    + intros (more & Hr & -> & _). inversion Hr. by rewrite app_nil_r.
  - split.
    + intros [= <-]. exists []. rewrite app_nil_r. by split_and!; [constructor| |].
    + intros (more & Hr & -> & _). inversion Hr; [by rewrite app_nil_r|done].
  - cbv zeta. destruct (Z.ltb_spec maximum (Z.of_nat (length (before ++ x :: b)))) as [Hlt|Hle].
    + split; [done|]. intros (more & Hr & -> & Hlen). inversion Hr as [| |? ? content' _ Hc|]; subst.
      rewrite (app_assoc before (x :: b)), length_app in Hlen. lia.
    + rewrite IH by lia. split.
      * intros (more & Hr & -> & Hlen). exists ((x :: b) ++ more). split_and!; [by constructor|by rewrite <- app_assoc|done].
      * intros (more & Hr & -> & Hlen). inversion Hr as [| |? ? content' _ Hc|]; subst.
        exists content'. by rewrite <- app_assoc.
  - rewrite IH by done. split.
    + intros (more & Hr & Hm). exists more. split; [by constructor|done].
    + intros (more & Hr & Hm). inversion Hr; subst. by exists more.
  - split; [done|]. intros (more & Hr & _). inversion Hr.
Qed.

(** A Bearer token of RFC 6750: characters, then padding. *)
Definition bearer_token (key : list Z) : Prop :=
  exists characters padding, key = characters ++ repeat 61 padding /\ characters <> [] /\
    Forall (fun v => is_bearer_token_character v = true) characters.

Lemma check_padding key seen :
  check_token key true seen = true <-> seen = true /\ exists n, key = repeat 61 n.
Proof.
  revert seen. induction key as [|v key IH]; intros seen; cbn [check_token].
  - split; [intros ->; split; [done|by exists O]|by intros [-> _]].
  - destruct (Z.eqb_spec v 61) as [->|Hv].
    + rewrite IH. split; intros [Hs [n Hn]]; (split; [done|]); [exists (S n); simpl; congruence|].
      destruct n as [|n]; [done|]. exists n. by injection Hn.
    + cbn [orb]. split; [done|]. intros [_ [[|n] Hn]]; [done|]. injection Hn as -> _. done.
Qed.

Lemma check_token_exact key seen :
  check_token key false seen = true <->
  exists characters padding, key = characters ++ repeat 61 padding /\ (seen = true \/ characters <> []) /\
    Forall (fun v => is_bearer_token_character v = true) characters.
Proof.
  revert seen. induction key as [|v key IH]; intros seen; cbn [check_token].
  - split; [intros ->; exists [], O; split_and!; [done|by left|constructor]|].
    intros ([|] & [|] & Hk & Hs & _); try done. by destruct Hs.
  - destruct (Z.eqb_spec v 61) as [->|Hv].
    + rewrite check_padding. split.
      * intros [-> [n ->]]. exists [], (S n). split_and!; [done|by left|constructor].
      * intros ([|c cs] & n & Hk & Hs & Hc).
        -- destruct n as [|n]; [done|]. injection Hk as ->. split; [by destruct Hs|by exists n].
        -- injection Hk as <- _. apply Forall_cons in Hc as [Hc _]. done.
    + cbn [orb]. destruct (is_bearer_token_character v) eqn:Ht; cbn [negb].
      * rewrite IH. split.
        -- intros (cs & n & -> & _ & Hc). exists (v :: cs), n. split_and!; [done|by right|by constructor].
        -- intros ([|c cs] & n & Hk & Hs & Hc); [by destruct n; [|injection Hk as -> _]|]. injection Hk as -> ->.
           apply Forall_cons in Hc as [_ Hc]. exists cs, n. split_and!; [done|by left|done].
      * split; [done|]. intros ([|c cs] & n & Hk & Hs & Hc); [by destruct n; [|injection Hk as -> _]|].
        injection Hk as -> ->. apply Forall_cons in Hc as [Hc _]. congruence.
Qed.

Lemma check_bearer_token key : check_token key false false = true <-> bearer_token key.
Proof.
  rewrite check_token_exact. unfold bearer_token. split; intros (cs & n & Hk & Hs & Hc); exists cs, n; split_and!; try done.
  - by destruct Hs.
  - by right.
Qed.

Lemma bearer_token_bytes key : bearer_token key -> key <> [] /\ Forall (fun v => 43 <= v <= 126) key.
Proof.
  intros (cs & n & -> & Hne & Hc). split; [by destruct cs|]. apply Forall_app. split.
  - eapply Forall_impl; [exact Hc|]. intros v Hv. unfold is_bearer_token_character in Hv.
    repeat first [progress bools | destruct Hv as [Hv|Hv]]; lia.
  - apply Forall_forall. intros v Hv. apply list_elem_of_In, repeat_spec in Hv. lia.
Qed.

(** A key has no line end of its own. *)
Lemma strip_line_end_exact content key :
  bearer_token key ->
  strip_line_end content = key <-> content = key \/ content = key ++ [10] \/ content = key ++ [13; 10].
Proof.
  intros Hk. apply bearer_token_bytes in Hk as [Hne Hb].
  assert (Hlast : forall rest x, key = rest ++ [x] -> x <> 10 /\ x <> 13).
  { intros rest x ->. apply Forall_app in Hb as [_ Hb]. apply Forall_cons in Hb as [Hx _]. lia. }
  unfold strip_line_end. split.
  - destruct (reverse content) as [|a r] eqn:Hr.
    { intros ->. by left. }
    assert (Hc : content = reverse (a :: r)) by (by rewrite <- Hr, reverse_involutive). clear Hr.
    destruct (decide (a = 10)) as [->|Ha].
    + destruct r as [|b r]; [intros <-; done|]. rewrite reverse_cons in Hc.
      destruct (decide (b = 13)) as [->|Hb'].
      * intros <-. right. right. rewrite reverse_cons in Hc. by rewrite Hc, <- app_assoc.
      * intros Hk. right. left. rewrite Hc. f_equal. rewrite <- Hk.
        destruct b as [|p|p]; try done. do 4 (destruct p as [p|p|]; try done).
    + intros Hk. left. rewrite <- Hk. destruct a as [|p|p]; try done. do 4 (destruct p as [p|p|]; try done).
  - destruct key as [|x rest _] using rev_ind; [done|]. destruct (Hlast rest x eq_refl) as [H10 H13].
    intros [->|[->| ->]].
    + rewrite reverse_app. cbn [reverse]. change (reverse [x]) with [x]. cbn [app].
      destruct x as [|p|p]; try done. do 4 (destruct p as [p|p|]; try done).
    + rewrite reverse_app, (reverse_app rest [x]). change (reverse [10]) with [10]. change (reverse [x]) with [x]. cbn [app].
      assert (Hrev : reverse (x :: reverse rest) = rest ++ [x]) by (by rewrite reverse_cons, reverse_involutive).
      destruct x as [|p|p]; try exact Hrev. do 4 (destruct p as [p|p|]; try exact Hrev). done.
    + rewrite reverse_app. change (reverse [13; 10]) with [10; 13]. cbn [app]. by rewrite reverse_involutive.
Qed.

(** The permissions are those of the owner only. *)
Lemma owner_only permissions :
  0 <= permissions < 4096 ->
  ((Z.land permissions S_IRUSR =? 0) || negb (Z.land permissions (Z.lnot (Z.lor S_IRUSR S_IWUSR)) =? 0) = false <->
   permissions = S_IRUSR \/ permissions = Z.lor S_IRUSR S_IWUSR).
Proof.
  intros Hp. set (bad p := (Z.land p S_IRUSR =? 0) || negb (Z.land p (Z.lnot (Z.lor S_IRUSR S_IWUSR)) =? 0)).
  assert (Hall : forallb (fun k => let p := Z.of_nat k in Bool.eqb (bad p) (negb ((p =? S_IRUSR) || (p =? Z.lor S_IRUSR S_IWUSR)))) (seq 0 4096) = true)
    by (vm_compute; reflexivity).
  rewrite forallb_forall in Hall. specialize (Hall (Z.to_nat permissions)). rewrite in_seq in Hall. specialize (Hall ltac:(lia)).
  cbv zeta in Hall. rewrite Z2Nat.id in Hall by lia. apply Bool.eqb_prop in Hall. fold (bad permissions). rewrite Hall.
  rewrite negb_false_iff, orb_true_iff, !Z.eqb_eq. done.
Qed.

Lemma loaded_key_token path opened key : load_api_key_file_impl path opened = inr key -> bearer_token key.
Proof.
  unfold load_api_key_file_impl. repeat (case_match; try done). intros [= <-]. by apply check_bearer_token.
Qed.

(** The API key.  The key that is loaded is the content of the file, less
    one line end; and a key is loaded exactly when the file is a regular one,
    of the server's own user, that nobody else may read and that nobody may
    execute, and its content is a single Bearer token of at most 4096
    characters.  So an accepted key is never empty, and the check of the
    credentials is never off when a key was asked for. *)
Theorem load_api_key_exact path opened key :
  load_api_key_file_impl path opened = inr key <->
  path <> [] /\ exists file content,
    opened = Some (Some file) /\ is_regular file = true /\ is_owned file = true /\
    (Z.land (mode file) 0xFFF = S_IRUSR \/ Z.land (mode file) 0xFFF = Z.lor S_IRUSR S_IWUSR) /\
    0 <= file_size file <= kMaximumEvaluationApiKeyBytes + 2 /\ file_reads (reads file) content /\
    (content = key \/ content = key ++ [10] \/ content = key ++ [13; 10]) /\
    bearer_token key /\ Z.of_nat (length key) <= kMaximumEvaluationApiKeyBytes.
Proof.
  assert (Hperm : forall file, 0 <= Z.land (mode file) 0xFFF < 4096).
  { intros file. change 0xFFF with (Z.ones 12). rewrite Z.land_ones by lia. by apply Z.mod_pos_bound. }
  unfold load_api_key_file_impl. case_bool_decide as Hpath; [split; [done|by intros [? _]]|].
  destruct opened as [[file|]|]; [|split; [done|by intros (_ & ? & ? & [=] & _)]..].
  cbv zeta. split.
  - destruct (is_regular file) eqn:Hreg; [|done]. destruct (is_owned file) eqn:Hown; [|done]. cbn [negb].
    destruct ((Z.land _ S_IRUSR =? 0) || _) eqn:Hmode; [done|]. apply owner_only in Hmode; [|done].
    destruct ((file_size file <? 0) || _) eqn:Hsize; [done|]. destruct (read_key _ _ _) as [e|content] eqn:Hread; [done|].
    apply read_key_exact in Hread as (more & Hread & -> & Hlen); [|done]. cbn [app] in *.
    case_bool_decide as Hnil; [done|]. destruct (Z.ltb_spec kMaximumEvaluationApiKeyBytes (Z.of_nat (length (strip_line_end more)))); [done|].
    destruct (check_token _ false false) eqn:Htok; [|done]. intros [= <-]. apply check_bearer_token in Htok.
    split; [done|]. exists file, more. bools. split_and!; try done; try lia. by apply strip_line_end_exact.
  - intros (_ & file' & content & [= <-] & -> & -> & Hmode & Hsize & Hread & Hcontent & Htok & Hlen). cbn [negb].
    apply owner_only in Hmode; [|done]. rewrite Hmode.
    rewrite (proj2 (Z.ltb_ge (file_size file) 0)), (proj2 (Z.ltb_ge _ (file_size file))) by lia. cbn [orb].
    assert (Hread' : read_key (kMaximumEvaluationApiKeyBytes + 2) (reads file) [] = inr content).
    { apply read_key_exact; [done|]. exists content. split_and!; [done|done|].
      destruct Hcontent as [->|[->| ->]]; rewrite ?length_app; simpl length; lia. }
    rewrite Hread'. apply (strip_line_end_exact _ _ Htok) in Hcontent. rewrite Hcontent.
    rewrite bool_decide_false by (by apply bearer_token_bytes). rewrite (proj2 (Z.ltb_ge _ (Z.of_nat (length key)))) by done.
    by rewrite (proj2 (check_bearer_token key) Htok).
Qed.

Lemma load_api_key_exact_witness :
  load_api_key_file_impl (lit "/etc/key") (Some (Some {| is_regular := true; is_owned := true; mode := 0x8180; file_size := 9;
    reads := [ReadBytes (lit "secre"); ReadInterrupted; ReadBytes (lit "t==" ++ [10])] |})) = inr (lit "secret==").
Proof.
  apply load_api_key_exact. split; [discriminate|].
  eexists _, (lit "secret==" ++ [10]). split; [reflexivity|]. split_and!; try reflexivity.
  - right. reflexivity.
  - discriminate.
  - discriminate.
  - apply (reads_bytes (lit "secre") _ (lit "t==" ++ [10])); [discriminate|]. apply reads_again.
    apply (reads_bytes (lit "t==" ++ [10]) [] []); [discriminate|]. constructor.
  - right. left. reflexivity.
  - exists (lit "secret"), 2%nat. split_and!; [reflexivity|discriminate|].
    repeat (apply Forall_cons_2; [reflexivity|]). apply Forall_nil_2.
  - vm_compute. discriminate.
Defined.

(** ** What is admitted *)

Definition endpoint_target (e : OpenAIEndpoint) : list Z :=
  match e with kChatCompletions => lit "/v1/chat/completions" | kCompletions => lit "/v1/completions" end.

Definition request_id (e : OpenAIEndpoint) (sequence : Z) : list Z :=
  (match e with kChatCompletions => lit "chatcmpl-q3x-" | kCompletions => lit "cmpl-q3x-" end) ++ to_string sequence.

(** The requests of the whole-core profiles. *)
Definition meets_contract (o : EvaluationServerOptions) (r : OpenAIRequest) : Prop :=
  development_route o = kP40WholeCoreV10 \/ is_p40_whole_core_v1_production_profile o = true ->
  is_p40_whole_core_v10_request r = true.

Record may_enter (o : EvaluationServerOptions) (api_key : list Z) (ready : bool) (http : HttpRequest) (e : OpenAIEndpoint)
    (r : OpenAIRequest) : Prop := {
  enter_method : method http = lit "POST";
  enter_target : target http = endpoint_target e;
  enter_key : api_key = [] \/ authorization http = lit "Bearer " ++ api_key;
  enter_ready : ready = true;
  enter_type : is_json_content_type (content_type http) = true;
  enter_body : parse_openai_request (request_body http) e (served_model o) (maximum_output_tokens o) (server_max_sequence_length o) = inr r;
  enter_contract : meets_contract o r
}.

Lemma enqueue_admitted o chat r now stopping_now keep i j i' :
  enqueue o chat r now stopping_now keep i = (Queued j, i') <->
  closed (inference_queue i) = false /\ Z.of_nat (length (queue (inference_queue i))) < capacity (inference_queue i) /\
  j = new_job r (request_id (if chat then kChatCompletions else kCompletions) (next_request_id i)) now (stream_event_capacity o) /\
  inference_queue i' = {| capacity := capacity (inference_queue i); queue := queue (inference_queue i) ++ [j]; closed := false |} /\
  next_request_id i' = u64 (next_request_id i + 1).
Proof.
  unfold enqueue, try_push, request_id. cbv zeta.
  destruct (closed (inference_queue i)) eqn:Hc; cbn [orb]; [split; [done|by intros [? _]]|].
  destruct (Z.leb_spec (capacity (inference_queue i)) (Z.of_nat (length (queue (inference_queue i))))) as [Hfull|Hroom];
    [split; [done|intros (_ & ? & _); lia]|].
  split.
  - intros [= <- <-]. split_and!; [done|done| |done|done]. by destruct chat.
  - intros (_ & _ & -> & Hq & Hn). destruct i' as [q n]. cbn in Hq, Hn. subst q n. by destruct chat.
Qed.

Lemma admission_spec o api_key ready now stopping_now http i j i' :
  Forall (fun b => 0 <= b) (authorization http) -> Forall (fun b => 0 <= b) api_key ->
  handle_request o api_key ready now stopping_now (read_value http) i = (Queued j, i') <->
  exists e r, may_enter o api_key ready http e r /\
    closed (inference_queue i) = false /\ Z.of_nat (length (queue (inference_queue i))) < capacity (inference_queue i) /\
    j = new_job r (request_id e (next_request_id i)) now (stream_event_capacity o) /\
    inference_queue i' = {| capacity := capacity (inference_queue i); queue := queue (inference_queue i) ++ [j]; closed := false |} /\
    next_request_id i' = u64 (next_request_id i + 1).
Proof.
  intros Hauth Hkey. unfold handle_request. cbn [value read_value]. cbv zeta. split.
  - destruct (bool_decide (method http = lit "GET") && bool_decide (target http = lit "/healthz")); [by destruct ready|].
    destruct (negb (bool_decide (api_key = [])) && _ && _) eqn:Hk; [done|].
    destruct ((_ || _ || _) && negb ready) eqn:Hr; [done|].
    destruct (bool_decide (method http = lit "GET") && bool_decide (target http = lit "/v1/models")); [done|].
    destruct (negb _ && negb _) eqn:Ht; [done|]. 
    destruct (bool_decide (method http = lit "POST")) eqn:Hpost; [apply bool_decide_eq_true in Hpost|done]. cbn [negb].
    destruct (is_json_content_type (content_type http)) eqn:Hjson; [|done]. cbn [negb].
    set (e := if bool_decide (target http = lit "/v1/chat/completions") then kChatCompletions else kCompletions).
    destruct (parse_openai_request _ _ _ _ _) as [err|r] eqn:Hparse; [done|].
    destruct (bool_decide (development_route o = kP40WholeCoreV10) && _) eqn:Hv10; [done|].
    destruct (is_p40_whole_core_v1_production_profile o && _) eqn:Hv1; [done|].
    intros (Hc & Hroom & -> & Hq & Hn)%enqueue_admitted. exists e, r. split; [|by split_and!].
    assert (Htarget : target http = endpoint_target e).
    { unfold e. destruct (bool_decide (target http = lit "/v1/chat/completions")) eqn:Hchat; [by apply bool_decide_eq_true in Hchat|].
      by apply negb_false_iff, bool_decide_eq_true in Ht. }
    assert (Hone : bool_decide (target http = lit "/v1/models") || bool_decide (target http = lit "/v1/chat/completions")
      || bool_decide (target http = lit "/v1/completions") = true) by (rewrite Htarget; by destruct e).
    rewrite Hone in Hk, Hr. rewrite andb_true_r in Hk. cbn [andb] in Hr. split; [done|done| |by apply negb_false_iff in Hr|done|exact Hparse|].
    + destruct (decide (api_key = [])) as [Hnil|Hnil]; [by left|]. right. rewrite bool_decide_false in Hk by done. cbn [negb andb] in Hk. apply negb_false_iff in Hk.
      by apply bearer_matches in Hk as [-> _].
    + intros [Hdev|Hprof].
      * rewrite bool_decide_true in Hv10 by done. by destruct (is_p40_whole_core_v10_request r).
      * rewrite Hprof in Hv1. by destruct (is_p40_whole_core_v10_request r).
  - intros (e & r & [Hpost Htarget Hk Hready Hjson Hparse Hcontract] & Hrest).
    assert (Hauthorized : negb (bool_decide (api_key = [])) && negb (constant_time_bearer_authorization_matches (authorization http) api_key) = false).
    { destruct (decide (api_key = [])) as [Hnil|Hnil]; [by rewrite bool_decide_true by done|]. rewrite bool_decide_false by done. destruct Hk as [?|Hk]; [done|]. cbn [negb andb]. apply negb_false_iff.
      by apply bearer_matches. }
    assert (Hge : bool_decide (method http = lit "GET") = false) by (by rewrite Hpost).
    rewrite Hge, Hpost, Htarget, Hjson, Hready. cbn [negb andb]. rewrite (bool_decide_true (lit "POST" = lit "POST")) by done.
    rewrite andb_false_r.
    assert (Hchat : bool_decide (endpoint_target e = lit "/v1/chat/completions") = match e with kChatCompletions => true | kCompletions => false end)
      by (by destruct e).
    assert (Hcomp : bool_decide (endpoint_target e = lit "/v1/completions") = match e with kChatCompletions => false | kCompletions => true end)
      by (by destruct e).
    assert (Hmodels : bool_decide (endpoint_target e = lit "/v1/models") = false) by (by destruct e).
    rewrite Hchat, Hcomp, Hmodels.
    assert (Hall : forall b c, negb (bool_decide (api_key = [])) && b && negb (constant_time_bearer_authorization_matches (authorization http) api_key) = c -> c = false).
    { intros b c <-. destruct b; [by rewrite andb_true_r|]. by rewrite andb_false_r. }
    destruct (negb (bool_decide (api_key = [])) && _ && _) eqn:Hx; [by apply Hall in Hx|].
    assert (Hne : negb match e with kChatCompletions => true | kCompletions => false end
        && negb match e with kChatCompletions => false | kCompletions => true end = false) by (by destruct e).
    rewrite Hne. cbn [negb].
    assert (He : (if match e with kChatCompletions => true | kCompletions => false end then kChatCompletions else kCompletions) = e)
      by (by destruct e).
    rewrite He, Hparse.
    assert (H10 : bool_decide (development_route o = kP40WholeCoreV10) && negb (is_p40_whole_core_v10_request r) = false).
    { destruct (bool_decide (development_route o = kP40WholeCoreV10)) eqn:Hdev; [|done]. apply bool_decide_eq_true in Hdev.
      by rewrite Hcontract by (by left). }
    assert (H1 : is_p40_whole_core_v1_production_profile o && negb (is_p40_whole_core_v10_request r) = false).
    { destruct (is_p40_whole_core_v1_production_profile o) eqn:Hp; [|done]. by rewrite Hcontract by (by right). }
    rewrite H10, H1. apply enqueue_admitted. by rewrite He.
Qed.

(** C15. Admission.  A request becomes a job exactly when it is a POST to one
    of the two endpoints with the exact credentials (when a key is set), on a
    healthy server, of type JSON, with a body that is a request, within the
    contract of the deployment, and the queue is open and has room.  The job is
    then the last of the queue, for exactly the request that was sent, under
    a number of its own. *)
Theorem admission_exact o api_key ready now stopping_now http i j i' :
  Forall (fun b => 0 <= b) (authorization http) -> Forall (fun b => 0 <= b) api_key ->
  handle_request o api_key ready now stopping_now (read_value http) i = (Queued j, i') <->
  exists e r, may_enter o api_key ready http e r /\
    closed (inference_queue i) = false /\ Z.of_nat (length (queue (inference_queue i))) < capacity (inference_queue i) /\
    j = new_job r (request_id e (next_request_id i)) now (stream_event_capacity o) /\
    inference_queue i' = {| capacity := capacity (inference_queue i); queue := queue (inference_queue i) ++ [j]; closed := false |} /\
    next_request_id i' = u64 (next_request_id i + 1).
Proof. apply admission_spec. Qed.

(** A request with two ids, to a server with a key. *)
Definition sample_post : HttpRequest := {|
  method := lit "POST"; target := lit "/v1/completions"; content_type := lit "application/json";
  authorization := lit "Bearer secret";
  request_body := js "{'model':'qwen3.6-27b-nvfp4','prompt':[257,256],'max_tokens':3,'temperature':0.0,'stream':true,'stream_options':{'include_usage':true}}";
  keep_alive := true
|}.
Definition sample_ingress : Ingress := {| inference_queue := empty_queue 8; next_request_id := 1 |}.
Definition sample_completion : OpenAIRequest := {|
  endpoint := kCompletions; prompt_kind := kTokenIds; model := lit "qwen3.6-27b-nvfp4"; messages := []; prompt := [];
  prompt_token_ids := [257; 256]; max_tokens := 3; seed := None; stream := true; include_usage := true
|}.
Definition sample_job : InferenceJob := new_job sample_completion (lit "cmpl-q3x-1") 1700000000 16.

Lemma admission_exact_witness :
  handle_request sample_options_server (lit "secret") true 1700000000 false (read_value sample_post) sample_ingress =
  (Queued sample_job, {| inference_queue := {| capacity := 8; queue := [sample_job]; closed := false |}; next_request_id := 2 |}).
Proof.
  apply admission_exact.
  - repeat (apply Forall_cons_2; [vm_compute; discriminate|]). apply Forall_nil_2.
  - repeat (apply Forall_cons_2; [vm_compute; discriminate|]). apply Forall_nil_2.
  - exists kCompletions, sample_completion. split; [|split_and!; reflexivity].
    split; [reflexivity|reflexivity|right; reflexivity|reflexivity|reflexivity|vm_compute; reflexivity|].
    intros [H|H]; vm_compute in H; discriminate H.
Defined.

(** ** From the request to the answer *)

Lemma admitted_job o api_key ready now stopping_now http i j i' :
  handle_request o api_key ready now stopping_now (read_value http) i = (Queued j, i') ->
  exists e r, parse_openai_request (request_body http) e (served_model o) (maximum_output_tokens o) (server_max_sequence_length o) = inr r /\
    j = new_job r (request_id e (next_request_id i)) now (stream_event_capacity o).
Proof.
  unfold handle_request. cbn [value read_value]. cbv zeta.
  repeat match goal with |- (if ?b then _ else _) = _ -> _ => destruct b; [try (by destruct ready); try done|] end.
  destruct (parse_openai_request _ _ _ _ _) as [err|r] eqn:Hparse; [done|].
  repeat match goal with |- (if ?b then _ else _) = _ -> _ => destruct b; [done|] end.
  intros (_ & _ & -> & _)%enqueue_admitted. by eexists _, r.
Qed.

Lemma request_id_utf8 e sequence : 0 <= sequence -> utf8 (request_id e sequence).
Proof.
  intros Hs. apply ascii_text. unfold request_id. rewrite forallb_app. apply andb_true_iff. split; [by destruct e|].
  destruct (to_string_digits sequence Hs) as [[_ Hd] _]. rewrite forallb_forall in *. intros b Hb. specialize (Hd b Hb).
  apply digit_range in Hd. apply andb_true_iff. split; [apply Z.leb_le|apply Z.ltb_lt]; lia.
Qed.

Lemma served_model_utf8 inet_pton o :
  options_error inet_pton o = None -> Forall is_u8 (served_model o) -> utf8 (served_model o).
Proof.
  intros Hopt Hb. apply (render_fixed _ Hb). unfold options_error in Hopt. cbv zeta in Hopt.
  destruct (outside_safe_bounds o) eqn:Hbounds; [done|]. unfold outside_safe_bounds in Hbounds.
  apply orb_false_iff in Hbounds as [_ Hbounds]. by apply negb_false_iff, bool_decide_eq_true in Hbounds.
Qed.

(** C11. From the request to the answer.  On a server started with its default
    plan and still healthy, let a request be admitted and its job be executed
    by an engine that generates, while neither the server nor the client
    stops.  Then a client that listens reads the whole answer: a stream is one
    chunked HTTP response of single-line events, one chunk of JSON per
    generated token, the usage when it was asked for, and [DONE]; and the texts
    of the chunks, joined, are exactly the text that the response without a
    stream carries: the generated bytes with ill-formed UTF-8 replaced. *)
Theorem request_answered `{InferenceEngineLaws E ObserverContext} inet_pton (o : EvaluationServerOptions) (e e1 : E) h h1 s1 c1
    api_key now stopping_now http i j i' c batches pins data g :
  options_error inet_pton o = None -> is_p40_exact_legacy_c512_production_profile o = true ->
  Forall is_u8 (served_model o) -> 1 <= stream_event_capacity o ->
  Forall is_u8 (request_body http) -> 0 <= next_request_id i -> health_ready h = true ->
  handle_request o api_key (health_ready h) now stopping_now (read_value http) i = (Queued j, i') ->
  vocabulary_of e = Some data -> data_ok pins data -> Forall (Forall is_u8) (expected_contents pins) ->
  let request := job_request j in
  sent c = [] -> Forall takes_all (answers c) -> 8 + 3 * max_tokens request <= Z.of_nat (length (answers c)) ->
  attentive batches -> 13 + 6 * max_tokens request <= Z.of_nat (length batches) ->
  load_either (start_job j c batches) = (false, s1) ->
  ask_request request (generate_options o request) e {| gateway := s1; pending_utf8 := [] |} = Some (inr g, (e1, c1)) ->
  health_observe o (published e1) h = (true, h1) ->
  text_size (completion_body j g) <= u64_max ->
  let text := fst (render_utf8_output (generated_text g) true) in
  exists s', execute_job o e h (start_job j c batches) = Some (e1, h1, s') /\
  let last := Nat.iter (sections s') (resume false) s' in
  thread last = Returned /\
  exists reply, read_reply (sent (connection last)) = Some (reply, []) /\ reply_status reply = 200 /\
  if stream request
  then exists chunks,
    read_events (length (reply_body reply)) (reply_body reply) = Some ((write <$> chunks) ++
      (if include_usage request then [usage_payload j g] else []) ++ [lit "[DONE]"]) /\
    length chunks = length (generation_token_ids g) /\ content chunks = text
  else exists r, reply_body reply = write r /\ generated r = Some text.
Proof.
  intros Hopt Hlegacy Hserved Hcap Hbody Hnext Hready Hroute Hv Hd Hcontents request Hsent Hans Hlen Hatt Hsch Hload Hask Hobs Hsize text.
  destruct (admitted_job _ _ _ _ _ _ _ _ _ Hroute) as (endpoint_ & r & Hparse & ->).
  destruct (legacy_plan_facts o Hlegacy) as (_ & _ & Hchunk & Hmode & _ & _ & Hseq & Hmax & _).
  destruct (parse_openai_request_spec (request_body http) endpoint_ (served_model o) (maximum_output_tokens o)
    (server_max_sequence_length o) Hbody) as [Hspec _]; [rewrite Hmax; unfold u32_max; lia|rewrite Hseq; lia|].
  apply Hspec in Hparse as (_ & root & st & _ & Hof). clear Hspec.
  change (start_job (new_job r (request_id endpoint_ (next_request_id i)) now (stream_event_capacity o)) c batches) with
    (admitted r (request_id endpoint_ (next_request_id i)) now (stream_event_capacity o) c batches) in *.
  unfold request in *. clear request. cbn [job_request new_job] in *.
  assert (Hmodel : utf8 (model r)).
  { rewrite (proj2 (of_model _ _ _ _ _ _ Hof)). by eapply served_model_utf8. }
  assert (Hpos : 0 <= max_tokens r) by (destruct (of_max_tokens _ _ _ _ _ _ Hof); lia).
  destruct (whole_answer o e e1 h h1 s1 c1 r (request_id endpoint_ (next_request_id i)) now (stream_event_capacity o) c batches
    pins data g) as (s' & Hrun & Hret & reply & Hread & Hst & Hrest); try done.
  - rewrite Hchunk. done.
  - by apply request_id_utf8.
  - by rewrite <- (completion_body_response r (request_id endpoint_ (next_request_id i)) now
      (admitted r (request_id endpoint_ (next_request_id i)) now (stream_event_capacity o) c batches)) by (by split).
  - exists s'. split; [done|]. split; [done|]. exists reply. split_and!; [done|done|].
    destruct (stream r); [exact Hrest|]. eexists. exact Hrest.
Qed.

(** The three tokens read by a client that listens, as a stream. *)
Lemma request_answered_witness :
  exists e1 h1 s' reply chunks,
  execute_job (H := reference_engine (pure_runner sample_argmax) sample_icu (fun _ => [])) sample_options_server
    sample_gateway_engine (fresh_health sample_options_server)
    (start_job sample_job {| answers := repeat SentAll 17; sent := [] |} (repeat [Resume false] 31)) = Some (e1, h1, s') /\
  read_reply (sent (connection (Nat.iter (sections s') (resume false) s'))) = Some (reply, []) /\
  read_events (length (reply_body reply)) (reply_body reply) =
    Some ((write <$> chunks) ++ [write (UsageChunk kCompletions (lit "cmpl-q3x-1") 1700000000 (lit "qwen3.6-27b-nvfp4")
      {| prompt_tokens := 2; completion_tokens := 3; total_tokens := 5 |})] ++ [lit "[DONE]"]) /\
  content chunks = lit "abb<|im_end|>".
Proof.
  assert (Hok : match generate_prompt_token_ids (pure_runner sample_argmax) (fun _ => []) [257; 256]
      (generate_options sample_options_server sample_completion) sample_gateway_engine
      {| gateway := snd (load_either (start_job sample_job {| answers := repeat SentAll 17; sent := [] |} (repeat [Resume false] 31)));
         pending_utf8 := [] |} with
    | Some (inr g, (e1, c1)) =>
        (text_size (completion_body sample_job g) <=? u64_max)
        && (prompt_tokens (usage_for g) =? 2) && (completion_tokens (usage_for g) =? 3) && (total_tokens (usage_for g) =? 5)
        && bool_decide (fst (render_utf8_output (generated_text g) true) = lit "abb<|im_end|>")
        && match health_observe sample_options_server (load_stats e1) (fresh_health sample_options_server) with
           | (true, _) => true | (false, _) => false end
    | _ => false end = true) by (vm_compute; reflexivity).
  destruct (generate_prompt_token_ids (pure_runner sample_argmax) (fun _ => []) [257; 256]
      (generate_options sample_options_server sample_completion) sample_gateway_engine
      {| gateway := snd (load_either (start_job sample_job {| answers := repeat SentAll 17; sent := [] |} (repeat [Resume false] 31)));
         pending_utf8 := [] |}) as [[[d|g] [e1 c1]]|] eqn:Hask; [discriminate Hok| |discriminate Hok].
  destruct (health_observe sample_options_server (load_stats e1) (fresh_health sample_options_server)) as [[|] h1] eqn:Hobs;
    [|rewrite andb_false_r in Hok; discriminate Hok].
  apply andb_true_iff in Hok as [[[[[Hsize Hprompt]%andb_true_iff Hcount]%andb_true_iff Htotal]%andb_true_iff Htext]%andb_true_iff _].
  apply Z.leb_le in Hsize. apply bool_decide_eq_true in Htext. apply Z.eqb_eq in Hprompt, Hcount, Htotal.
  assert (Husage : usage_for g = {| prompt_tokens := 2; completion_tokens := 3; total_tokens := 5 |}).
  { revert Hprompt Hcount Htotal. generalize (usage_for g). intros [? ? ?]. simpl. intros -> -> ->. reflexivity. }
  destruct (request_answered (H := reference_engine (pure_runner sample_argmax) sample_icu (fun _ => []))
    (H0 := reference_engine_laws (pure_runner sample_argmax) sample_icu (fun _ => [])) (fun _ => true)
    sample_options_server sample_gateway_engine e1 (fresh_health sample_options_server) h1
    (snd (load_either (start_job sample_job {| answers := repeat SentAll 17; sent := [] |} (repeat [Resume false] 31)))) c1
    (lit "secret") 1700000000 false sample_post sample_ingress sample_job
    {| inference_queue := {| capacity := 8; queue := [sample_job]; closed := false |}; next_request_id := 2 |}
    {| answers := repeat SentAll 17; sent := [] |} (repeat [Resume false] 31) sample_pins sample_data g)
    as (s' & Hrun & _ & reply & Hread & _ & chunks & Hevents & _ & Hcontent).
  - vm_compute. reflexivity.
  - vm_compute. reflexivity.
  - apply (bool_decide_unpack _). vm_compute. exact I.
  - vm_compute. discriminate.
  - apply (bool_decide_unpack _). vm_compute. exact I.
  - discriminate.
  - reflexivity.
  - vm_compute. reflexivity.
  - reflexivity.
  - exact sample_data_ok.
  - apply (bool_decide_unpack _). vm_compute. exact I.
  - reflexivity.
  - repeat (apply Forall_cons_2 || apply Forall_nil_2); reflexivity.
  - vm_compute. discriminate.
  - repeat (apply Forall_cons_2 || apply Forall_nil_2); (split; [discriminate|]);
      repeat (apply Forall_cons_2 || apply Forall_nil_2); reflexivity.
  - vm_compute. discriminate.
  - vm_compute. reflexivity.
  - exact Hask.
  - exact Hobs.
  - exact Hsize.
  - unfold usage_payload in Hevents. rewrite Husage in Hevents.
    exists e1, h1, s', reply, chunks. split; [exact Hrun|]. split; [exact Hread|]. split; [exact Hevents|].
    rewrite Hcontent. exact Htext.
Defined.
