(* ===== verification/Server.v ===== *)
(** * Server: the connections that wait, and the start of the server
      (src/src/server/evaluation_server.cpp: stage_http_connections,
      run_evaluation_server)

    One thread polls the listener and every connection that has not sent a
    whole request yet.  Its loop is a function of what the operating system
    answers, turn by turn.  [run_evaluation_server] first checks the options,
    the key, the engine and its receipt, and only then listens. *)

From Stdlib Require Import Floats String.
From S2P Require Import Prelude OrderedMap Json Generation RequestPlan Tokenizer TokenizerText Engine Http HttpOutput OpenAI.
From S2P Require Import Utf8Output Job Deployment Gateway Connection.

(** ** Connections *)

(** A connection is known by its socket. *)
Record PendingConnection := { pending_socket : Z; buffer : list Z; deadline : Z }.
Record ReadyConnection := { ready_socket : Z; ready_request : HttpReadResult }.

Record Reactor := { pending : list PendingConnection; connections : BoundedQueue ReadyConnection }.

(** What the system answers while the connections are looked at: for each
    socket the flag, the clock and what [recv] gives. *)
Record Weather := {
  stop_seen : Z -> bool;
  clock : Z -> Z;
  arrived : Z -> list Answer
}.

(** One connection: it goes on waiting, or is erased and maybe handed over;
    when there is no room it is closed (after a 503 that is sent only if the
    socket takes it at once, and is not modelled). *)
Definition stage_one (w : Weather) (p : PendingConnection) (ready : BoundedQueue ReadyConnection)
    : option PendingConnection * BoundedQueue ReadyConnection :=
  if stop_seen w (pending_socket p) || (deadline p <=? clock w (pending_socket p)) then (None, ready) else
  match stage_connection (arrived w (pending_socket p)) 0 (buffer p) with
  | Pending b => (Some {| pending_socket := pending_socket p; buffer := b; deadline := deadline p |}, ready)
  | Closed => (None, ready)
  | Ready request => (None, snd (try_push {| ready_socket := pending_socket p; ready_request := request |} ready))
  end.

Fixpoint stage_http_connections (w : Weather) (l : list PendingConnection) (ready : BoundedQueue ReadyConnection)
    : list PendingConnection * BoundedQueue ReadyConnection :=
  match l with
  | [] => ([], ready)
  | p :: l =>
      let '(kept, ready) := stage_one w p ready in
      let '(l, ready) := stage_http_connections w l ready in
      (match kept with Some p => p :: l | None => l end, ready)
  end.

(** ** Accepting *)

Definition kMaximumAcceptsPerPoll : nat := 64.

(** What one [accept4] gives; [Accepted] carries the socket and the time. *)
Inductive AcceptAnswer := Accepted (socket now : Z) | AcceptRetry | AcceptNone | AcceptError.

(** The loop over the connections that can be accepted: [true] when the server
    has to end.  No further answer means there is nothing to accept; [stop] is
    the flag. *)
Fixpoint accept_connections (n : nat) (o : EvaluationServerOptions) (stop : bool) (answers_ : list AcceptAnswer)
    (l : list PendingConnection) : list PendingConnection * bool :=
  match n with
  | O => (l, false)
  | S n =>
      if stop then (l, false) else
      match answers_ with
      | [] | AcceptNone :: _ => (l, false)
      | AcceptRetry :: answers_ => accept_connections n o stop answers_ l
      | AcceptError :: _ => (l, true)
      | Accepted socket now :: answers_ =>
          let l := if accepted_connection_capacity o <=? Z.of_nat (length l) then drop 1 l else l in
          accept_connections n o stop answers_
            (l ++ [{| pending_socket := socket; buffer := []; deadline := now + read_timeout_milliseconds o |}])
      end
  end.

(** ** The loop *)

Inductive Polled := PollError | PollAgain | PollReady (listener_readable : bool).

(** What happens in one turn; [healthy_] is what the health says at its start.
    [taken] connections have been taken by the ingress threads since the last. *)
Record Circumstances := {
  healthy_ : bool;
  taken : nat;
  polled : Polled;
  weather : Weather;
  stop_accepting : bool;
  accepts : list AcceptAnswer
}.

(** What the ingress threads take from the queue. *)
Definition take_ready (n : nat) (q : BoundedQueue ReadyConnection) : BoundedQueue ReadyConnection :=
  {| capacity := capacity q; queue := drop n (queue q); closed := closed q |}.

(** One turn: the state, and whether the server ends with an error. *)
Definition reactor_turn (o : EvaluationServerOptions) (c : Circumstances) (r : Reactor) : Reactor * bool :=
  let r := {| pending := pending r; connections := take_ready (taken c) (connections r) |} in
  if negb (healthy_ c) then (r, true) else
  match polled c with
  | PollError => (r, true)
  | PollAgain => (r, false)
  | PollReady readable =>
      let '(l, q) := stage_http_connections (weather c) (pending r) (connections r) in
      if negb readable then ({| pending := l; connections := q |}, false) else
      let '(l, fatal) := accept_connections kMaximumAcceptsPerPoll o (stop_accepting c) (accepts c) l in
      ({| pending := l; connections := q |}, fatal)
  end.

(** The loop until an error; otherwise it ends when the server is stopped. *)
Fixpoint reactor_loop (o : EvaluationServerOptions) (turns : list Circumstances) (r : Reactor) : Reactor * bool :=
  match turns with
  | [] => (r, false)
  | c :: turns => match reactor_turn o c r with (r, true) => (r, true) | (r, false) => reactor_loop o turns r end
  end.

Definition first_reactor (o : EvaluationServerOptions) : Reactor :=
  {| pending := []; connections := empty_queue (accepted_connection_capacity o) |}.

(** ** The start *)

(** What the server runs with, once it listens. *)
Record Running (E : Type) := {
  running_engine : E;
  running_key : list Z;
  running_health : EvaluationProductionRuntimeHealth
}.
Arguments running_engine {E}.
Arguments running_key {E}.
Arguments running_health {E}.

(** [run_evaluation_server] up to the listener, or the code it returns.
    [create_engine] loads the model; [listens] is whether the listener can be
    opened. *)
Definition start_server {E} (load_of : E -> ReferenceEngineLoadStats) (inet_pton : list Z -> bool)
    (key_file : option (option KeyFile)) (create_engine : EvaluationServerOptions -> option E) (listens : bool)
    (o : EvaluationServerOptions) : Z + Running E :=
  match options_error inet_pton o with
  | Some _ => inl 2
  | None =>
      match (if bool_decide (api_key_file o = []) then inr [] else load_api_key_file_impl (api_key_file o) key_file) with
      | inl _ => inl 2
      | inr api_key =>
          match create_engine o with
          | None => inl 3
          | Some engine =>
              if negb (valid_production_load_receipt o (load_of engine)) then inl 3
              else if negb listens then inl 4
              else inr {| running_engine := engine; running_key := api_key; running_health := fresh_health o |}
          end
      end
  end.

(** ** What the loop keeps *)

Definition waiting (p : PendingConnection) : Prop := buffer p = [] \/ unfinished (buffer p).

Lemma stage_connection_waits net read_bytes b b' :
  b = [] \/ unfinished b -> stage_connection net read_bytes b = Pending b' -> b' = [] \/ unfinished b'.
Proof.
  revert read_bytes b. induction net as [|a net IH]; intros read_bytes b Hb; cbn [stage_connection];
    (destruct (read_bytes <? 65536); [|by intros [= <-]]); [by intros [= <-]|].
  destruct a as [bytes| | | |]; try done; [|by intros [= <-]|by apply IH].
  cbv zeta. destruct (incomplete _) eqn:Hi; [|done]. apply IH. right. by apply read_incomplete_exact.
Qed.

Lemma stage_connection_ready net read_bytes b request :
  stage_connection net read_bytes b = Ready request -> incomplete request = false.
Proof.
  revert read_bytes b. induction net as [|a net IH]; intros read_bytes b; cbn [stage_connection];
    (destruct (read_bytes <? 65536); [|done]); [done|].
  destruct a as [bytes| | | |]; try done; [|by apply IH].
  cbv zeta. destruct (incomplete (fst (read_http_request true [] (b ++ bytes)))) eqn:Hi; [by apply IH|]. by intros [= <-].
Qed.

(** The connections that are ready to be handled. *)
Definition ready_ok (q : BoundedQueue ReadyConnection) : Prop :=
  Z.of_nat (length (queue q)) <= capacity q /\ Forall (fun c => incomplete (ready_request c) = false) (queue q).

Lemma stage_one_spec w p ready kept ready' :
  waiting p -> ready_ok ready -> stage_one w p ready = (kept, ready') ->
  ready_ok ready' /\ capacity ready' = capacity ready /\
  forall p', kept = Some p' -> waiting p' /\ pending_socket p' = pending_socket p /\ deadline p' = deadline p /\
    stop_seen w (pending_socket p) = false /\ clock w (pending_socket p) < deadline p.
Proof.
  intros Hp Hr. unfold stage_one. destruct (stop_seen w (pending_socket p)) eqn:Hs; cbn [orb]; [by intros [= <- <-]|].
  destruct (Z.leb_spec (deadline p) (clock w (pending_socket p))); [by intros [= <- <-]|].
  destruct (stage_connection _ _ _) as [b| |request] eqn:Hst; [| |]; intros [= <- <-].
  - split_and!; [apply Hr..|done|]. intros p' [= <-]. split_and!; try done. by eapply stage_connection_waits in Hst.
  - by split_and!; [apply Hr..| |].
  - apply stage_connection_ready in Hst. unfold try_push. destruct (closed ready || _) eqn:Hfull; [by split_and!; [apply Hr..| |]|].
    apply orb_false_iff in Hfull as [_ Hfull]. apply Z.leb_gt in Hfull. destruct Hr as [_ Hr]. cbn [snd].
    split; [|by split]. split; cbn [queue capacity].
    + rewrite length_app. simpl. lia.
    + apply Forall_app. split; [done|]. by repeat constructor.
Qed.

Lemma stage_http_spec w l ready l' ready' :
  Forall waiting l -> ready_ok ready -> stage_http_connections w l ready = (l', ready') ->
  Forall waiting l' /\ ready_ok ready' /\ capacity ready' = capacity ready /\
  sublist (pending_socket <$> l') (pending_socket <$> l) /\
  Forall (fun p => stop_seen w (pending_socket p) = false /\ clock w (pending_socket p) < deadline p) l'.
Proof.
  revert ready l' ready'. induction l as [|p l IH]; intros ready l' ready' Hl Hr; cbn [stage_http_connections].
  { intros [= <- <-]. by split_and!. }
  apply Forall_cons in Hl as [Hp Hl]. destruct (stage_one w p ready) as [kept r1] eqn:H1.
  destruct (stage_one_spec _ _ _ _ _ Hp Hr H1) as (Hr1 & Hc1 & Hkept).
  destruct (stage_http_connections w l r1) as [l2 r2] eqn:H2.
  destruct (IH _ _ _ Hl Hr1 H2) as (Hl2 & Hr2 & Hc2 & Hsub & Hlate). intros [= <- <-].
  destruct kept as [p'|].
  - destruct (Hkept p' eq_refl) as (Hw & Hs & Hd & Hstop & Hclock).
    split_and!; [by constructor|done|congruence| |constructor; [by rewrite Hs, Hd|done]].
    rewrite !fmap_cons, Hs. by constructor.
  - split_and!; [done|done|congruence| |done]. rewrite fmap_cons. by constructor.
Qed.

(** The sockets a turn accepts. *)
Fixpoint accepted_connections (n : nat) (o : EvaluationServerOptions) (answers_ : list AcceptAnswer) : list PendingConnection :=
  match n, answers_ with
  | S n, Accepted socket now :: answers_ =>
      {| pending_socket := socket; buffer := []; deadline := now + read_timeout_milliseconds o |} :: accepted_connections n o answers_
  | S n, AcceptRetry :: answers_ => accepted_connections n o answers_
  | _, _ => []
  end.

Definition newest (o : EvaluationServerOptions) (l : list PendingConnection) : list PendingConnection :=
  drop (length l - Z.to_nat (accepted_connection_capacity o)) l.

Lemma newest_fits o l : Z.of_nat (length l) <= accepted_connection_capacity o -> newest o l = l.
Proof. intros H. unfold newest. by replace (length l - _)%nat with 0%nat by lia. Qed.

(** Accepting keeps the newest connections, as many as there may be. *)
Lemma accept_connections_spec n o answers_ l l' fatal :
  1 <= accepted_connection_capacity o -> Z.of_nat (length l) <= accepted_connection_capacity o ->
  accept_connections n o false answers_ l = (l', fatal) ->
  l' = newest o (l ++ accepted_connections n o answers_) /\ Z.of_nat (length l') <= accepted_connection_capacity o.
Proof.
  intros Hcap. revert answers_ l. induction n as [|n IH]; intros answers_ l Hl; cbn [accept_connections accepted_connections].
  { intros [= <- <-]. by rewrite app_nil_r, newest_fits. }
  destruct answers_ as [|[socket now| | |] answers_]; try (intros [= <- <-]; by rewrite app_nil_r, newest_fits).
  - cbv zeta. set (new := {| pending_socket := socket; buffer := []; deadline := now + read_timeout_milliseconds o |}).
    destruct (Z.leb_spec (accepted_connection_capacity o) (Z.of_nat (length l))) as [Hfull|Hroom]; intros Hrun;
      apply IH in Hrun as [-> Hlen]; try (rewrite length_app, ?length_drop; simpl; lia); (split; [|exact Hlen]).
    + unfold newest. destruct l as [|x l]; [simpl in *; lia|]. cbn [drop]. rewrite drop_0.
      rewrite <- app_assoc. cbn [app length].
      replace (S (length (l ++ new :: accepted_connections n o answers_)) - Z.to_nat (accepted_connection_capacity o))%nat with
        (S (length (l ++ new :: accepted_connections n o answers_) - Z.to_nat (accepted_connection_capacity o))); [done|].
      rewrite length_app. cbn [length] in *. lia.
    + by rewrite <- app_assoc.
  - by apply IH.
Qed.

(** The state of the loop. *)
Record reactor_ok (o : EvaluationServerOptions) (r : Reactor) : Prop := {
  reactor_room : Z.of_nat (length (pending r)) <= accepted_connection_capacity o;
  reactor_waiting : Forall waiting (pending r);
  reactor_ready : ready_ok (connections r);
  reactor_capacity : capacity (connections r) = accepted_connection_capacity o
}.

Lemma newest_Forall {P : PendingConnection -> Prop} o l : Forall P l -> Forall P (newest o l).
Proof. intros H. unfold newest. by apply Forall_drop. Qed.

Lemma accepted_waiting n o answers_ : Forall waiting (accepted_connections n o answers_).
Proof.
  revert answers_. induction n as [|n IH]; intros [|[socket now| | |] answers_]; try constructor; cbn [accepted_connections]; auto.
  by left.
Qed.

Lemma sublist_length_fmap {A B} (f : A -> B) l l' : sublist (f <$> l') (f <$> l) -> (length l' <= length l)%nat.
Proof. intros H%sublist_length. by rewrite !length_fmap in H. Qed.

Lemma take_ready_ok n q : ready_ok q -> ready_ok (take_ready n q).
Proof.
  intros [Hq Hc]. split; cbn [take_ready queue capacity]; [rewrite length_drop; lia|by apply Forall_drop].
Qed.

Lemma reactor_turn_ok o c r r' fatal :
  1 <= accepted_connection_capacity o -> reactor_ok o r -> reactor_turn o c r = (r', fatal) -> reactor_ok o r'.
Proof.
  intros Hcap [Hroom Hwait Hready Hcapacity]. unfold reactor_turn. cbv zeta. cbn [pending connections].
  assert (Hr1 : reactor_ok o {| pending := pending r; connections := take_ready (taken c) (connections r) |}).
  { split; cbn [pending connections take_ready capacity]; [done|done|by apply take_ready_ok|done]. }
  destruct (negb (healthy_ c)); [by intros [= <- <-]|]. destruct (polled c) as [| |readable]; [by intros [= <- <-]..|].
  destruct (stage_http_connections _ _ _) as [l q] eqn:Hst.
  destruct (stage_http_spec _ _ _ _ _ Hwait (take_ready_ok (taken c) _ Hready) Hst) as (Hw & Hr & Hc & Hsub & _).
  apply sublist_length_fmap in Hsub. cbn [take_ready capacity] in Hc.
  destruct (negb readable); [intros [= <- <-]; split; cbn [pending connections]; (done || lia || congruence)|].
  destruct (stop_accepting c).
  { cbn [accept_connections kMaximumAcceptsPerPoll]. intros [= <- <-]. split; cbn [pending connections]; (done || lia || congruence). }
  destruct (accept_connections _ _ _ _ _) as [l2 f2] eqn:Hacc. intros [= <- <-].
  apply accept_connections_spec in Hacc as [-> Hlen]; [|done|lia].
  split; cbn [pending connections]; [done| |done|congruence]. apply newest_Forall, Forall_app. split; [done|apply accepted_waiting].
Qed.

Lemma reactor_loop_ok o turns r r' fatal :
  1 <= accepted_connection_capacity o -> reactor_ok o r -> reactor_loop o turns r = (r', fatal) -> reactor_ok o r'.
Proof.
  intros Hcap. revert r. induction turns as [|c turns IH]; intros r Hr; cbn [reactor_loop]; [by intros [= <- <-]|].
  destruct (reactor_turn o c r) as [r1 f] eqn:H1. apply reactor_turn_ok in H1; [|done..].
  destruct f; [by intros [= <- <-]|by apply IH].
Qed.

Lemma first_reactor_ok o : 1 <= accepted_connection_capacity o -> reactor_ok o (first_reactor o).
Proof. intros H. split; cbn; [lia|constructor|split; cbn; [lia|constructor]|done]. Qed.

(** The waiting connections.  Whatever clients connect and send, the
    server holds at most its capacity of connections that have not sent a whole
    request, in less than the limits of headers and body each, and at most its
    capacity of those that have; and a turn keeps, in their order, only
    connections whose deadline has not passed, adds the accepted ones at the
    end, and when there are too many drops the oldest and only as many as it
    must. *)
Theorem reactor_bounded o turns r fatal c r' :
  1 <= accepted_connection_capacity o ->
  reactor_loop o turns (first_reactor o) = (r, fatal) ->
  (Z.of_nat (length (pending r)) <= accepted_connection_capacity o /\
   Forall (fun p => text_size (buffer p) < kMaximumHeaderBytes + 4 + kMaximumBodyBytes) (pending r) /\
   Z.of_nat (length (queue (connections r))) <= accepted_connection_capacity o /\
   Forall (fun q => incomplete (ready_request q) = false) (queue (connections r))) /\
  (healthy_ c = true -> polled c = PollReady true -> stop_accepting c = false -> reactor_turn o c r = (r', false) ->
   exists kept, sublist (pending_socket <$> kept) (pending_socket <$> pending r) /\
     Forall (fun p => stop_seen (weather c) (pending_socket p) = false /\ clock (weather c) (pending_socket p) < deadline p) kept /\
     pending r' = newest o (kept ++ accepted_connections kMaximumAcceptsPerPoll o (accepts c))).
Proof.
  intros Hcap Hrun. apply reactor_loop_ok in Hrun; [|done|by apply first_reactor_ok]. pose proof Hrun as [Hroom Hwait [Hq Hc] Hcapacity].
  split.
  - split_and!; [done| |congruence|done]. eapply Forall_impl; [exact Hwait|]. intros p [Hp|Hp]; cbn beta.
    + rewrite Hp. unfold text_size, kMaximumHeaderBytes, kMaximumBodyBytes. simpl. lia.
    + by apply unfinished_bounded.
  - intros Hh Hpoll Hstop. unfold reactor_turn. cbv zeta. cbn [pending connections]. rewrite Hh, Hpoll, Hstop. cbn [negb].
    destruct (stage_http_connections _ _ _) as [l q] eqn:Hst.
    destruct (stage_http_spec _ _ _ _ _ Hwait (take_ready_ok (taken c) _ (conj Hq Hc)) Hst) as (_ & _ & _ & Hsub & Hlate).
    destruct (accept_connections _ _ _ _ _) as [l2 f2] eqn:Hacc. intros [= <- ->]. exists l. split_and!; [done|done|].
    apply accept_connections_spec in Hacc as [-> _]; [done|done|]. apply sublist_length_fmap in Hsub. lia.
Qed.

Definition sample_weather : Weather := {|
  stop_seen := fun _ => false; clock := fun _ => 50;
  arrived := fun socket => if socket =? 7 then [Received (lit "GET /healthz HT")] else []
|}.
Definition sample_turn (l : list AcceptAnswer) : Circumstances := {|
  healthy_ := true; taken := 0; polled := PollReady true; weather := sample_weather; stop_accepting := false; accepts := l
|}.
(** The default server with room for two. *)
Definition sample_small (address key_file : list Z) : EvaluationServerOptions :=
  let plan := kP40ExactLegacyC512ProductionPlan in {|
  model_directory := lit "/models"; api_key_file := key_file; bind_address := address; served_model := lit "qwen3.6-27b-nvfp4";
  production_profile := plan_profile plan; server_max_sequence_length := deployment_max_sequence_length plan;
  maximum_output_tokens := plan_maximum_output_tokens plan;
  server_prefill_chunk_size := deployment_prefill_chunk_size plan; ingress_threads := 10;
  accepted_connection_capacity := 2; inference_queue_capacity := 8; stream_event_capacity := 16;
  read_timeout_milliseconds := 10000; write_timeout_milliseconds := 5000;
  request_max_arena_bytes := plan_request_arena_bytes plan;
  request_min_free_bytes_after_create := plan_min_free_bytes_after_create plan;
  projection_backend := plan_projection_backend plan;
  server_prefill_execution_mode := plan_prefill_execution_mode plan;
  prefill_full_attention_tactic := plan_prefill_full_attention_tactic plan;
  prefill_projection_tactic := plan_prefill_projection_tactic plan; development_route := kRouteNone
|}.

Definition sample_small_options : EvaluationServerOptions := sample_small loopback [].

(** A third connection takes the place of the first. *)
Lemma reactor_bounded_witness :
  exists r r', reactor_loop sample_small_options [sample_turn [Accepted 7 0; Accepted 8 1]] (first_reactor sample_small_options) = (r, false) /\
  reactor_turn sample_small_options (sample_turn [Accepted 9 2]) r = (r', false) /\
  pending_socket <$> pending r' = [8; 9] /\ Z.of_nat (length (pending r)) <= 2.
Proof.
  destruct (reactor_bounded sample_small_options [sample_turn [Accepted 7 0; Accepted 8 1]]
    (fst (reactor_loop sample_small_options [sample_turn [Accepted 7 0; Accepted 8 1]] (first_reactor sample_small_options))) false
    (sample_turn [Accepted 9 2])
    (fst (reactor_turn sample_small_options (sample_turn [Accepted 9 2])
       (fst (reactor_loop sample_small_options [sample_turn [Accepted 7 0; Accepted 8 1]] (first_reactor sample_small_options))))))
    as [[Hroom _] Hnext].
  - vm_compute. discriminate.
  - vm_compute. reflexivity.
  - destruct (Hnext eq_refl eq_refl eq_refl) as (kept & _ & _ & Hpending); [vm_compute; reflexivity|].
    do 2 eexists. split; [vm_compute; reflexivity|]. split; [vm_compute; reflexivity|]. split; [reflexivity|].
    vm_compute. discriminate.
Defined.

(** C23. What listens is locked.  A server that listens has options that
    follow a sealed plan, and an engine that was created with exactly the sealed
    inventory; it is ready; its key, if it has one, is a Bearer token; and if it
    listens to anything but the loopback address it has a key, so that no
    request ever becomes a job without that very key. *)
Theorem start_server_locked {E} (load_of : E -> ReferenceEngineLoadStats) inet_pton key_file create_engine listens o running :
  start_server load_of inet_pton key_file create_engine listens o = inr running ->
  options_error inet_pton o = None /\ create_engine o = Some (running_engine running) /\
  load_of (running_engine running) = expected_inventory o /\ health_ready (running_health running) = true /\
  (running_key running = [] \/ bearer_token (running_key running)) /\
  (bind_address o <> loopback -> running_key running <> [] /\
   forall ready now stopping_now http i j i',
     Forall (fun b => 0 <= b) (authorization http) ->
     handle_request o (running_key running) ready now stopping_now (read_value http) i = (Queued j, i') ->
     authorization http = lit "Bearer " ++ running_key running).
Proof.
  unfold start_server. destruct (options_error inet_pton o) eqn:Hopt; [done|].
  destruct (if bool_decide _ then _ else _) as [e|api_key] eqn:Hkey; [done|].
  destruct (create_engine o) as [engine|]; [|done]. destruct (valid_production_load_receipt _ _) eqn:Hreceipt; [|done].
  destruct listens; [|done]. cbn [negb]. intros [= <-]. cbn [running_engine running_key running_health].
  assert (Hbearer : api_key = [] /\ api_key_file o = [] \/ bearer_token api_key).
  { case_bool_decide as Hfile; [left; by injection Hkey as <-|right]. by eapply loaded_key_token. }
  split_and!; [done|done| |by unfold health_ready, fresh_health; rewrite orb_true_r|tauto|].
  - by apply receipt_spec; [eapply valid_options_facts|].
  - intros Hbind. assert (Hkeyed : api_key <> []).
    { destruct Hbearer as [[_ Hfile]|Hb]; [|by apply bearer_token_bytes]. by destruct (valid_options_key _ _ Hopt). }
    split; [done|]. intros ready now stopping_now http i j i' Hauth Hroute.
    apply admission_spec in Hroute as (e & r & [_ _ Hk _ _ _ _] & _); [by destruct Hk|done|].
    destruct Hbearer as [[? _]|Hb]; [done|]. apply bearer_token_bytes in Hb as [_ Hb]. eapply Forall_impl; [exact Hb|].
    cbn beta. lia.
Qed.

Lemma start_server_locked_witness :
  exists running,
  start_server (fun l => l) (fun _ => true)
    (Some (Some {| is_regular := true; is_owned := true; mode := 0x8180; file_size := 6; reads := [ReadBytes (lit "secret")] |}))
    (fun _ => Some (sealed_inventory true kP40ExactLegacyC512ProductionPlan)) true (sample_small (lit "0.0.0.0") (lit "/etc/key")) = inr running /\
  running_key running = lit "secret" /\ bearer_token (lit "secret").
Proof.
  eexists. split; [vm_compute; reflexivity|]. split; [reflexivity|].
  destruct (start_server_locked (fun l => l) (fun _ => true)
    (Some (Some {| is_regular := true; is_owned := true; mode := 0x8180; file_size := 6; reads := [ReadBytes (lit "secret")] |}))
    (fun _ => Some (sealed_inventory true kP40ExactLegacyC512ProductionPlan)) true (sample_small (lit "0.0.0.0") (lit "/etc/key"))
    {| running_engine := (sealed_inventory true kP40ExactLegacyC512ProductionPlan); running_key := lit "secret";
       running_health := fresh_health (sample_small (lit "0.0.0.0") (lit "/etc/key")) |}) as (_ & _ & _ & _ & [Hkey|Hkey] & _).
  - vm_compute. reflexivity.
  - discriminate Hkey.
  - exact Hkey.
Defined.
